(* ===== verification/_CoqProject ===== *)
-Q . S2P
Prelude.v
PyFloat.v
Value.v
Resilience.v
Invoke.v
Retry.v
Calendar.v
Schedule.v
Cron.v
Texts.v
Codec.v
Execution.v
PgStore.v
PgCursor.v
PgBackend.v
PgInvariant.v
PgLifecycle.v
PgClaim.v
PgTheorems.v
PgSubmit.v
PgList.v
PgClient.v
Events.v
Task.v
Effects.v
Executor.v
Settlement.v
Sends.v
Delivery.v
CodecTypes.v
AppControl.v
Runner.v
RunnerInvariant.v
RunnerTheorems.v
RunnerDemo.v
Oracle.v
DeadLetters.v
Lifecycle.v
SqlErrors.v
PgSource.v
PgDelivery.v
PgDeliveryTheorems.v
PgWorker.v
PgWorkerDemo.v
Capture.v
CaptureTheorems.v
CaptureLoad.v
Kafka.v
KafkaTheorems.v
Incremental.v
IncrementalTheorems.v
Metrics.v
Reporter.v
ReporterTheorems.v
Ingest.v
IngestTheorems.v
Commands.v
CommandAgent.v
CommandSystem.v
CommandServer.v
CommandInvariant.v
CommandTheorems.v
WsSender.v
WsSenderTheorems.v
TableQueue.v
TableQueueTheorems.v
TableSink.v
TableSinkTheorems.v
Json.v
StateStore.v
MemoryQueue.v
Binlog.v
BinlogTheorems.v
WorkerPlane.v
WorkAgent.v
WorkerSystem.v
WorkerServer.v
WorkerInvariant.v
WorkerSlots.v
WorkerTheorems.v
