(* ===== verification/Prelude.v ===== *)
(** * onestep: a verification development of the task runtime

    onestep runs Python functions as tasks: a source hands out deliveries, a
    handler turns each into a result, the result is emitted to sinks, and the
    delivery is acknowledged, retried, failed or dead-lettered.  This library
    models that runtime ([src/src/onestep]), the plugins that have a protocol
    of their own with what they talk to (the PostgreSQL execution backend and
    source, the sources and sinks of the SQL plugin, the Kafka topic), the
    stores of tasks and sources, the capture of failed runs, the reporter of
    the control plane, and in the control plane service
    ([apps/control-plane/backend]) what agents send to it, the commands it
    sends to agents, and the deployments it has the work agents
    ([apps/work-agent]) run on their hosts.

    ** How the program works, and which file models which part

    - [OneStepApp] ([app.py]) owns the tasks, the flags that stop, drain or
      pause them, and the resources.  [AppControl]: flags, requests, the
      capabilities of tasks, statuses.  [Lifecycle]: [startup], [shutdown],
      [serve], the restart of one task, as far as they open and close
      resources.  [DeadLetters]: [replay_task_dead_letters] and
      [discard_task_dead_letters].
    - A [TaskRunner] ([runtime/runner.py]) per task fetches deliveries from
      the source and runs up to [concurrency] of them at a time.  [Runner]: its
      [run] method as a state machine over its awaits, and the app around it
      as a transition system ([sys_step]).  [RunnerInvariant], [RunnerTheorems],
      [RunnerDemo]: what holds in every reachable state.
    - The [DeliveryExecutor] ([runtime/executor.py]) executes one delivery.
      [Effects]: user code and connectors as calls an environment answers.
      [Executor]: [execute] and every method it calls.  [Settlement], [Sends],
      [Delivery]: what it does to the delivery, to the sinks, and when.
      [Task]: [TaskSpec] ([task.py]); [Events]: [TaskEvent] and
      [InMemoryMetrics] ([events.py]); [Invoke]: [invoke.py]; [Retry]:
      [retry.py]; [Resilience]: [resilience.py]; [Value]: payloads,
      exceptions, [envelope.py].
    - Sources.  [Schedule], [Cron] ([connectors/schedule.py]): interval and
      cron sources on the clocks of [Calendar].  [Incremental],
      [IncrementalTheorems]: the incremental table source of
      [onestep_sql] and its commit log.  [Kafka], [KafkaTheorems]:
      [onestep_kafka], the offset tracker of a partition and the topic as a
      transition system.  [TableQueue], [TableQueueTheorems]: the table queue
      of the three SQL connectors, workers that claim rows.  [Binlog],
      [BinlogTheorems]: the MySQL binlog source.  [MemoryQueue]:
      [connectors/memory.py] with its runner and producers, and the wire
      format of [connectors/codec.py].
    - Sinks and stores.  [TableSink], [TableSinkTheorems]: the table sinks of
      the SQL connectors and their update policies.  [StateStore]: [state.py]
      and the SQL stores ([state_sqlalchemy.py]), the protocol as a type class
      with laws.  [Json]: [json.dumps] and [json.loads] up to the text.
    - Tracked executions ([execution.py]).  [Execution]: the data classes, the
      protocols of a backend as type classes ([ExecutionBackend],
      [LeasedExecutionBackend]) and [ExecutionClient].  [PgStore]: the two
      tables and the SQL ([execution_schema.py]); [PgCursor], [PgBackend]:
      [execution_backend.py], an operation per transaction; [PgInvariant],
      [PgLifecycle], [PgClaim], [PgTheorems], [PgSubmit], [PgList]: what
      holds along every history of transactions; [PgClient]: the client on
      this backend.  [SqlErrors]: [postgres/errors.py], [sqlstate.py].
      [PgSource], [PgDelivery], [PgDeliveryTheorems]: [execution_source.py],
      the deliveries a worker gets and their heartbeats, a transition system
      against the store; [PgWorker], [PgWorkerDemo]: a source and the
      backend together.
    - Failure capture.  [Codec], [CodecTypes]: [capture/codec.py].  [Capture],
      [CaptureTheorems], [CaptureLoad]: what [capture/writer.py] and
      [capture/redact.py] write and [capture/loader.py] reads.
    - Observation.  [Metrics]: [metrics.py].  [Reporter],
      [ReporterTheorems]: [reporter.py] of [onestep_control_plane], the
      queues, windows and flushes between task events and the control plane.
      [Ingest], [IngestTheorems]: what the service does with the requests of
      agents ([api/common.py], [api/agent_ingestion_service.py],
      [api/ingestion_support.py] and the tables of [db/models.py]).
    - Commands.  [Commands], [CommandServer]: requests, sessions, the table of
      commands, expiry, fan-out, acknowledgements and results
      ([api/agent_command_service.py], [api/schemas.py], the handlers of
      [api/routers/agent_ws.py], [api/agent_connection_registry.py]).
      [CommandAgent]: [ws.py] of [onestep_control_plane], the transport of a
      process with its receive loops, receipts and command tasks;
      [WsSender], [WsSenderTheorems]: its telemetry queues, task and close.
      [CommandSystem], [CommandInvariant], [CommandTheorems]:
      the control plane, the processes and the connections between them as a
      transition system, in which connections break, processes die and the
      control plane restarts at any time.
    - Deployments.  [WorkerPlane]: agents, packages, deployments and their
      commands in the control plane ([api/worker_agent_service.py],
      [api/routers/worker_agents.py], [api/worker_agent_connection_registry.py]).
      [WorkAgent]: [client.py], [supervisor.py], [state.py] and [packages.py]
      of [onestep_worker_agent], the control loop cut at its awaits.
      [WorkerSystem]: hosts with their processes, connections and the control
      plane ([api/routers/worker_agent_ws.py]) as a transition system.
      [WorkerServer]: what each handler keeps of the tables;
      [WorkerInvariant], [WorkerSlots]: what holds in every reachable state,
      and in runs without a second start; [WorkerTheorems]: the properties
      and concrete runs.

    [Prelude], [PyFloat], [Texts], [Oracle] hold what the parts share: the
    error monads, binary64 floats, text formats, environments.

    ** What the theorems show

    - A delivery is settled exactly once when the connectors work, at most
      once in any environment, and the way the returned outcome says; an
      acknowledgement follows every send it depends on, a failure every dead
      letter ([Delivery], [Settlement], [Sends]).
    - The runners start no delivery twice and lose none but those a fetch was
      cancelled with, keep the concurrency limit, and stay quiet once drained;
      what a stopped runner left behind after the shutdown timeout is not
      counted by the drain and may run on ([RunnerTheorems]).
    - Any interleaving of clients and workers keeps the execution tables
      consistent; leases are exclusive and fence stale workers; cancellation
      wins over a success; submission and completion are idempotent; the
      outcome a worker stored is what the client reads ([PgTheorems],
      [PgClaim], [PgSubmit], [PgList], [PgClient]).
    - Retry policies end ([Retry.attempt_budget]), schedules fire at the
      times of their specification and follow the documented overlap policy
      while [allow] has no more runs due than a fetch may return ([Schedule],
      [Cron]), the codec reads back what it wrote when the members of
      enumerations can be found again by name and value ([Codec]) and
      writes the grammar of [CodecTypes].
    - Dead letters reach the source as the original delivery and the report
      tells what happened ([DeadLetters]); [serve] closes what it opened
      ([Lifecycle]).
    - A source commits a position only behind settled work: the Kafka offsets
      and the cursor of the incremental source never pass a delivery that is
      neither acknowledged nor failed ([KafkaTheorems],
      [IncrementalTheorems], [BinlogTheorems]); the order of settlement does
      not matter.  For Kafka this holds until a fetch drops a polled record
      before it marks it: the model has these steps.
    - A row of a table queue is in one hand at a time when its claim and its
      handlers keep it out of the condition ([TableQueueTheorems]); a message
      of a memory queue is in one place ([MemoryQueue]); a payload that holds
      the keys may be sent to a table sink twice ([TableSinkTheorems]); what a
      task or a source stored is what it reads, dates with [fold] and values
      shaped like the tag of a date aside, and tasks do not share state
      ([StateStore]).
    - A leased delivery is renewed while its handler runs and is cancelled
      only for a reason the backend gave; a completion is not overtaken by
      a heartbeat ([PgDeliveryTheorems]).
    - A captured run reads back as it was written, with the redacted parts
      replaced; redaction does not look into the values of enumeration members
      ([CaptureLoad], [CaptureTheorems]).
    - The reporter keeps its bounds; when its flushes do not overlap, every
      event is sent, buffered or dropped by backpressure, in one place only;
      its windows count the events ([ReporterTheorems]).  The service stores
      each event once and shows the newest heartbeat, in whatever order
      requests arrive ([IngestTheorems]).  A caller that waits for telemetry
      is told the truth, telemetry leaves in order, and the queues are
      emptied when every attempt to connect and to send succeeds
      ([WsSenderTheorems]).
    - A process runs a command at most once, and only one that was created for
      its instance; the outcome the control plane shows is what happened and
      never changes; a reconnect sends the commands that wait, in order
      ([CommandTheorems], [CommandServer]).
    - A deployment command that is finished never changes, and a success or
      a running deployment the control plane shows had its process; as long
      as no start reaches a host that has the deployment, the state file can
      be written and no agent dies between a fork and its entry there, a host
      runs a deployment once, within its slots, and
      knows every process; a start that meets no failure becomes a process
      ([WorkerTheorems]).

    ** Conventions

    - Code that may raise returns [result]; code with state is in [SE], where
      the changes made before an exception stay.  [asyncio.CancelledError] is
      an [exn] that [except Exception] does not catch.
    - Loops over lists are structural.  Fuel: the cron search of [Cron] tries
      the [366 * 24 * 60 * 2] minutes the code tries; the page reader
      of [PgList] gets as many pages as there are rows, and
      [read_pages_complete] shows that is enough; the text parsers run on the
      length of their input.  The state machines of [Runner] and [Schedule]
      have one step per awaited operation and no fuel.
    - An [int] is [Z], a [float] the binary64 number of [PyFloat]; an instant
      is [Z] microseconds; the range of [datetime] is checked where the code
      can leave it.

    ** Idealisations

    - A character is one of the first 256 code points.
    - The code between two awaits is atomic, as is a section under a lock and
      a database transaction; the transactions of the backend are
      serializable.  A JSON column returns the document that was stored.
    - User code, connectors and the event loop are environments or actions:
      they answer anything, at any time.  They do not mutate an envelope the
      executor still holds.
    - [pow], [random.uniform], SHA-256, UUIDs, the clock, time zone data,
      [Decimal], the text of a float and the loaded classes are parameters;
      what is assumed of them is a named hypothesis with an instance.
    - The reader for JSON in cursors accepts no fractions, and
      [datetime.fromisoformat] reads what [isoformat] writes.
    - The Kafka broker and its client are their documented behaviour, with one
      client per member of the group; the table behind an incremental source
      only grows, and its rows are ordered by the laws of [RowOrder].
    - Frames and requests of the control plane are schema-valid values; the
      handler of a connection is atomic between its awaits; a broken
      connection loses what is sent on it; [timeout_s] fits 32 bits; the
      hash of the labels of a series is a parameter.
    - The files of a capture are an association of names with texts.
      The reporter's sender is an environment that confirms or refuses.
    - [Runner] has one event loop and sources that hand out at most [limit]
      deliveries, none of them twice; a drain waits for the runners the app has.
    - The condition of a table queue, the locks of other transactions and the
      order of keys are inputs; a statement that fails changes nothing; the
      rows of a table sink are constrained by unique keys only; a JSON text
      is the document it denotes; the binlog reader yields the events after
      the position it resumes at.
    - Work agents: the row of an agent that a connection keeps is the one its
      database session loaded, and a commit writes the columns it changed; the
      download, the archive, the subprocesses of the installation and of the
      check are inputs, so is whether asyncio has seen that a process ended.
      Session ids, frames and packages are schema-valid values.
    - Log records and the text of tracebacks are not modelled.

    ** Not modelled

    - [app.py]: [run_task_once], signal handlers, [describe] and the decorator
      interface.  [execution_backend.py]: the engine, identifiers, indexes.
    - The rest of the control plane service: queries, pages, notifications,
      log-in.  The command line and the settings of the work agent.  The
      connectors of the other plugins, HTTP and webhook connectors: I/O
      against third-party clients.
    - [config.py], [build.py], [cli.py], [init_project.py], [render.py], the
      resource registry: reading configuration and printing it.
    - [diagnostics], [testing]: subprocess supervision and test support. *)

From stdpp Require Import base option list strings gmap sorting.
From Stdlib Require Import ZArith Lia Ascii.

(** ** Results of fallible code *)

(** [Ok v] is a normal return, [Err e] an exception that propagates. *)
Inductive result (E A : Type) : Type :=
| Ok (a : A)
| Err (e : E).
Arguments Ok {_ _} _.
Arguments Err {_ _} _.

#[global] Instance result_ret {E} : MRet (result E) := λ _ a, Ok a.
#[global] Instance result_bind {E} : MBind (result E) :=
  λ _ _ f r, match r with Ok a => f a | Err e => Err e end.
#[global] Instance result_fmap {E} : FMap (result E) :=
  λ _ _ f r, match r with Ok a => Ok (f a) | Err e => Err e end.
#[global] Instance result_join {E} : MJoin (result E) :=
  λ _ r, match r with Ok r' => r' | Err e => Err e end.

#[global] Instance result_eq_dec {E A} `{EqDecision E} `{EqDecision A} :
  EqDecision (result E A).
Proof. solve_decision. Defined.

Definition is_ok {E A} (r : result E A) : bool :=
  match r with Ok _ => true | Err _ => false end.

(** [guard_else b e]: the [if not b: raise e] statement. *)
Definition guard_else {E} (b : bool) (e : E) : result E unit :=
  if b then Ok () else Err e.

(** Left-to-right evaluation of a list comprehension whose element
    expression may raise. *)
Fixpoint mapR {E A B} (f : A → result E B) (l : list A) : result E (list B) :=
  match l with
  | [] => Ok []
  | x :: l => y ← f x; ys ← mapR f l; Ok (y :: ys)
  end.

(** ** Stateful code that may raise

    [SE St E A]: a computation on a mutable state [St].  The state changes
    made before an exception stay. *)

Definition SE (St E A : Type) : Type := St → St * result E A.

Section SE.
Context {St E : Type}.

#[global] Instance se_ret : MRet (SE St E) := λ _ a s, (s, Ok a).
#[global] Instance se_bind : MBind (SE St E) := λ _ _ f m s,
  match m s with
  | (s', Ok a) => f a s'
  | (s', Err e) => (s', Err e)
  end.

Definition se_get : SE St E St := λ s, (s, Ok s).
Definition se_gets {A} (f : St → A) : SE St E A := λ s, (s, Ok (f s)).
Definition se_modify (f : St → St) : SE St E unit := λ s, (f s, Ok ()).
Definition se_raise {A} (e : E) : SE St E A := λ s, (s, Err e).
Definition se_lift {A} (r : result E A) : SE St E A := λ s, (s, r).

(** [try: m except ...: handler(e)], where [handler] re-raises what the
    clause does not catch. *)
Definition se_try {A} (m : SE St E A) (handler : E → SE St E A) : SE St E A :=
  λ s, match m s with
       | (s', Ok a) => (s', Ok a)
       | (s', Err e) => handler e s'
       end.

(** [for x in l: body(x)]. *)
Fixpoint se_iter {A} (f : A → SE St E unit) (l : list A) : SE St E unit :=
  match l with
  | [] => mret ()
  | x :: l => _ ← f x; se_iter f l
  end.

(** [[f(x) for x in l]]. *)
Fixpoint se_map {A B} (f : A → SE St E B) (l : list A) : SE St E (list B) :=
  match l with
  | [] => mret []
  | x :: l => y ← f x; ys ← se_map f l; mret (y :: ys)
  end.
End SE.

(** ** Characters and strings

    A Python [str] is modelled by [string], a sequence of 8-bit characters
    (code points below 256). *)

(** [str.isspace] of one character, for the code points below 256. *)
Definition is_space (c : ascii) : bool :=
  let n := nat_of_ascii c in
  ((9 <=? n) && (n <=? 13) || (28 <=? n) && (n <=? 32)
   || (n =? 133) || (n =? 160))%nat.

Fixpoint str_to_list (s : string) : list ascii :=
  match s with EmptyString => [] | String c s => c :: str_to_list s end.

Fixpoint str_of_list (l : list ascii) : string :=
  match l with [] => EmptyString | c :: l => String c (str_of_list l) end.

Fixpoint drop_space (l : list ascii) : list ascii :=
  match l with
  | [] => []
  | c :: l' => if is_space c then drop_space l' else l
  end.

(** [s.strip()]. *)
Definition strip (s : string) : string :=
  str_of_list (reverse (drop_space (reverse (drop_space (str_to_list s))))).

Definition to_lower (c : ascii) : ascii :=
  let n := nat_of_ascii c in
  if ((65 <=? n) && (n <=? 90) || (192 <=? n) && (n <=? 222) && negb (n =? 215))%nat
  then ascii_of_nat (n + 32) else c.

(** [s.lower()]. *)
Definition lower (s : string) : string :=
  str_of_list (to_lower <$> str_to_list s).

(** [s.split(sep)] for a one-character separator. *)
Fixpoint split_chars (sep : ascii) (acc l : list ascii) : list (list ascii) :=
  match l with
  | [] => [reverse acc]
  | c :: l => if Ascii.eqb c sep then reverse acc :: split_chars sep [] l
              else split_chars sep (c :: acc) l
  end.

Definition split_on (sep : ascii) (s : string) : list string :=
  str_of_list <$> split_chars sep [] (str_to_list s).

(** [s.split(sep, 1)]: the text before and after the first separator, if
    there is one. *)
Fixpoint split_first_chars (sep : ascii) (acc l : list ascii)
    : option (list ascii * list ascii) :=
  match l with
  | [] => None
  | c :: l => if Ascii.eqb c sep then Some (reverse acc, l)
              else split_first_chars sep (c :: acc) l
  end.

Definition split_first (sep : ascii) (s : string) : option (string * string) :=
  '(a, b) ← split_first_chars sep [] (str_to_list s);
  Some (str_of_list a, str_of_list b).

(** [s.split()]: the maximal runs of non-space characters. *)
Fixpoint words_chars (acc l : list ascii) : list (list ascii) :=
  match l with
  | [] => match acc with [] => [] | _ => [reverse acc] end
  | c :: l => if is_space c
              then match acc with
                   | [] => words_chars [] l
                   | _ => reverse acc :: words_chars [] l
                   end
              else words_chars (c :: acc) l
  end.

Definition words (s : string) : list string :=
  str_of_list <$> words_chars [] (str_to_list s).

(** [sep in s] for a one-character string. *)
Definition contains_char (c : ascii) (s : string) : bool :=
  existsb (Ascii.eqb c) (str_to_list s).

Definition str_nonempty (s : string) : bool :=
  match s with EmptyString => false | _ => true end.

(** ** Decimal numbers *)

Definition digit_of (n : Z) : ascii := ascii_of_nat (48 + Z.to_nat n).

Definition digit_val (c : ascii) : option Z :=
  let n := nat_of_ascii c in
  if ((48 <=? n) && (n <=? 57))%nat then Some (Z.of_nat n - 48)%Z else None.

(** [width] decimal digits of [n], most significant first, zero padded
    (the ["%0*d"] format for a number that fits). *)
Fixpoint digits_pad (width : nat) (n : Z) : list ascii :=
  match width with
  | O => []
  | S w => digits_pad w (n / 10)%Z ++ [digit_of (n mod 10)%Z]
  end.

Definition pad_dec (width : nat) (n : Z) : string := str_of_list (digits_pad width n).

(** Decimal digits of [n ≥ 0] without leading zeros; [fuel] bounds the
    number of digits. *)
Fixpoint dec_digits (fuel : nat) (n : Z) : list ascii :=
  match fuel with
  | O => []
  | S f => if (n <? 10)%Z then [digit_of n]
           else dec_digits f (n / 10)%Z ++ [digit_of (n mod 10)%Z]
  end.

(** [str(n)] of a Python int. *)
Definition str_of_Z (n : Z) : string :=
  let ds := dec_digits (S (Z.to_nat (Z.log2 (Z.abs n)))) (Z.abs n) in
  str_of_list (if (n <? 0)%Z then "-"%char :: ds else ds).

(** [int(s)] for a decimal text: surrounding whitespace, an optional sign,
    digits with single underscores between them. *)
Fixpoint int_digits (prev_digit : bool) (acc : Z) (l : list ascii) : option Z :=
  match l with
  | [] => if prev_digit then Some acc else None
  | c :: l =>
      match digit_val c with
      | Some d => int_digits true (acc * 10 + d)%Z l
      | None => if Ascii.eqb c "_" && prev_digit then
                  match l with
                  | [] => None
                  | _ => int_digits false acc l
                  end
                else None
      end
  end.

Definition py_int (s : string) : option Z :=
  match str_to_list (strip s) with
  | [] => None
  | c :: l =>
      if Ascii.eqb c "-" then Z.opp <$> int_digits false 0%Z l
      else if Ascii.eqb c "+" then int_digits false 0%Z l
      else int_digits false 0%Z (c :: l)
  end.

(** ** Insertion order association lists

    A Python [dict] with string keys keeps the insertion order of its keys
    and replaces a value in place. *)

Section Dict.
Context {V : Type}.

Fixpoint dict_get (k : string) (d : list (string * V)) : option V :=
  match d with
  | [] => None
  | (k', v) :: d => if String.eqb k k' then Some v else dict_get k d
  end.

Fixpoint dict_set (k : string) (v : V) (d : list (string * V))
    : list (string * V) :=
  match d with
  | [] => [(k, v)]
  | (k', v') :: d => if String.eqb k k' then (k', v) :: d
                     else (k', v') :: dict_set k v d
  end.

Definition dict_keys (d : list (string * V)) : list string := d.*1.
End Dict.

(** ** Tactics and hints of the development *)

Create HintDb onestep.
Create Rewrite HintDb onestep.

(** Split the [match]es and [if]s of the goal and of the hypotheses. *)
Ltac split_matches :=
  repeat (case_match; simplify_eq/=).

(** Decide every boolean comparison on [Z] in the context for [lia]. *)
Ltac zbool :=
  repeat match goal with
  | H : (_ <? _)%Z = true |- _ => apply Z.ltb_lt in H
  | H : (_ <? _)%Z = false |- _ => apply Z.ltb_ge in H
  | H : (_ <=? _)%Z = true |- _ => apply Z.leb_le in H
  | H : (_ <=? _)%Z = false |- _ => apply Z.leb_gt in H
  | H : (_ =? _)%Z = true |- _ => apply Z.eqb_eq in H
  | H : (_ =? _)%Z = false |- _ => apply Z.eqb_neq in H
  | H : (_ && _) = true |- _ => apply andb_true_iff in H; destruct H
  | H : (_ || _) = false |- _ => apply orb_false_iff in H; destruct H
  | H : negb _ = true |- _ => apply negb_true_iff in H
  | H : negb _ = false |- _ => apply negb_false_iff in H
  end.

(** ** Lemmas on results *)

Lemma bind_ok {E A B} (r : result E A) (f : A → result E B) b :
  (r ≫= f) = Ok b ↔ ∃ a, r = Ok a ∧ f a = Ok b.
Proof.
  destruct r; simpl; split; [eauto | by intros (? & [= <-] & ?)
                             | done | by intros (? & ? & ?)].
Qed.

Lemma bind_err {E A B} (r : result E A) (f : A → result E B) e :
  (r ≫= f) = Err e ↔ r = Err e ∨ ∃ a, r = Ok a ∧ f a = Err e.
Proof.
  destruct r as [a | e']; simpl; split.
  - intros H. right. eauto.
  - by intros [? | (? & [= <-] & ?)].
  - intros [= ->]. by left.
  - by intros [[= ->] | (? & ? & ?)].
Qed.

Lemma guard_else_ok {E} b (e : E) u : guard_else b e = Ok u ↔ b = true.
Proof. destruct b, u; simpl; split; congruence || done. Qed.

Lemma mapR_ok_Forall2 {E A B} (f : A → result E B) l l' :
  mapR f l = Ok l' ↔ Forall2 (λ x y, f x = Ok y) l l'.
Proof.
  revert l'. induction l as [|x l IH]; intros l'; simpl.
  - split; [by intros [= <-] | by inversion 1].
  - rewrite bind_ok. setoid_rewrite bind_ok. split.
    + intros (y & Hy & ys & Hys & [= <-]). constructor; [done | by apply IH].
    + inversion 1 as [|? y ? ys Hy Hys]; subst. exists y. split; [done|].
      exists ys. split; [by apply IH | done].
Qed.

Lemma Forall2_elem_r {A B} (P : A → B → Prop) l k y :
  Forall2 P l k → y ∈ k → ∃ x, x ∈ l ∧ P x y.
Proof.
  induction 1 as [|a b l k Hab Hlk IH]; [by intros ?%elem_of_nil|].
  rewrite elem_of_cons. intros [->|Hy]; [by exists a; split; [left|]|].
  destruct (IH Hy) as (x & Hx & Hp). exists x. split; [by right | done].
Qed.

Lemma Forall2_elem_l {A B} (P : A → B → Prop) l k x :
  Forall2 P l k → x ∈ l → ∃ y, y ∈ k ∧ P x y.
Proof. intros H%Forall2_flip Hx. exact (Forall2_elem_r _ _ _ _ H Hx). Qed.

Lemma mapR_length {E A B} (f : A → result E B) l l' :
  mapR f l = Ok l' → length l' = length l.
Proof. intros H%mapR_ok_Forall2. symmetry. by eapply Forall2_length. Qed.

#[export] Hint Rewrite @bind_ok @guard_else_ok : onestep.

(** ** Lemmas on stateful code *)

Section SELemmas.
Context {St E : Type}.

Lemma se_bind_ok {A B} (m : SE St E A) (f : A → SE St E B) s s' b :
  (m ≫= f) s = (s', Ok b) ↔ ∃ s1 a, m s = (s1, Ok a) ∧ f a s1 = (s', Ok b).
Proof.
  unfold mbind, se_bind. destruct (m s) as [s1 [a|e]]; split.
  - eauto.
  - by intros (? & ? & [= <- <-] & ?).
  - done.
  - by intros (? & ? & ? & ?).
Qed.

Lemma se_get_bind {A} (f : St → SE St E A) s : (se_get ≫= f) s = f s s.
Proof. done. Qed.

Lemma se_gets_bind {A B} (g : St → B) (f : B → SE St E A) s :
  (se_gets g ≫= f) s = f (g s) s.
Proof. done. Qed.

Lemma se_modify_bind {A} (g : St → St) (f : unit → SE St E A) s :
  (se_modify g ≫= f) s = f () (g s).
Proof. done. Qed.

(** A property of the state that every step of a computation keeps,
    whether it returns or raises. *)
Definition se_inv {A} (I : St → Prop) (m : SE St E A) : Prop :=
  ∀ s, I s → I (m s).1.

Lemma se_inv_ret {A} (I : St → Prop) (a : A) : se_inv I (mret a).
Proof. by intros s Hs. Qed.

Lemma se_inv_bind {A B} (I : St → Prop) (m : SE St E A) (f : A → SE St E B) :
  se_inv I m → (∀ a, se_inv I (f a)) → se_inv I (m ≫= f).
Proof.
  intros Hm Hf s Hs. unfold mbind, se_bind. specialize (Hm s Hs).
  destruct (m s) as [s1 [a|e]]; simpl in *; [by apply Hf | done].
Qed.

Lemma se_inv_lift {A} (I : St → Prop) (r : result E A) : se_inv I (se_lift r).
Proof. by intros s Hs. Qed.

Lemma se_inv_gets {A} (I : St → Prop) (f : St → A) : se_inv I (se_gets f).
Proof. by intros s Hs. Qed.

Lemma se_inv_raise {A} (I : St → Prop) (e : E) : se_inv (A:=A) I (se_raise e).
Proof. by intros s Hs. Qed.

Lemma se_inv_modify (I : St → Prop) (f : St → St) :
  (∀ s, I s → I (f s)) → se_inv I (se_modify f).
Proof. intros Hf s Hs. by apply Hf. Qed.

Lemma se_inv_try {A} (I : St → Prop) (m : SE St E A) h :
  se_inv I m → (∀ e, se_inv I (h e)) → se_inv I (se_try m h).
Proof.
  intros Hm Hh s Hs. unfold se_try. specialize (Hm s Hs).
  destruct (m s) as [s1 [a|e]]; simpl in *; [done | by apply Hh].
Qed.

Lemma se_inv_iter {A} (I : St → Prop) (f : A → SE St E unit) l :
  (∀ x, se_inv I (f x)) → se_inv I (se_iter f l).
Proof.
  intros Hf. induction l as [|x l IH]; simpl; [apply se_inv_ret|].
  apply se_inv_bind; [done|]. by intros _.
Qed.

(** A preorder on states along which every step of a computation moves,
    whether it returns or raises. *)
Definition se_rel {A} (R : St → St → Prop) (m : SE St E A) : Prop := ∀ s, R s (m s).1.

Section Rel.
Context (R : St → St → Prop) `{!PreOrder R}.

Lemma se_rel_ret {A} (a : A) : se_rel R (mret a).
Proof. intros s. reflexivity. Qed.

Lemma se_rel_bind {A B} (m : SE St E A) (f : A → SE St E B) :
  se_rel R m → (∀ a, se_rel R (f a)) → se_rel R (m ≫= f).
Proof.
  intros Hm Hf s. unfold mbind, se_bind. specialize (Hm s).
  destruct (m s) as [s1 [a|e]]; simpl in *; [etransitivity; [done | apply Hf] | done].
Qed.

(** ... with what is known of the value read. *)
Lemma se_rel_gets_bind {A B} (g : St → A) (f : A → SE St E B) :
  (∀ s, R s (f (g s) s).1) → se_rel R (se_gets g ≫= f).
Proof. intros H s. apply H. Qed.

Lemma se_rel_lift {A} (r : result E A) : se_rel R (se_lift r).
Proof. intros s. reflexivity. Qed.

Lemma se_rel_gets {A} (f : St → A) : se_rel R (se_gets f).
Proof. intros s. reflexivity. Qed.

Lemma se_rel_raise {A} (e : E) : se_rel (A:=A) R (se_raise e).
Proof. intros s. reflexivity. Qed.

Lemma se_rel_modify (f : St → St) : (∀ s, R s (f s)) → se_rel R (se_modify f).
Proof. intros Hf s. apply Hf. Qed.

Lemma se_rel_map {A B} (f : A → SE St E B) l : (∀ x, x ∈ l → se_rel R (f x)) → se_rel R (se_map f l).
Proof.
  induction l as [|x l IH]; intros Hf; simpl; [apply se_rel_ret|].
  apply se_rel_bind; [apply Hf; by left|]. intros y. apply se_rel_bind; [|intros; apply se_rel_ret].
  apply IH. intros z Hz. apply Hf. by right.
Qed.
End Rel.
End SELemmas.

#[export] Hint Rewrite @se_get_bind @se_gets_bind @se_modify_bind : onestep.
#[export] Hint Resolve se_inv_ret se_inv_bind se_inv_lift se_inv_gets se_inv_raise
  se_inv_modify se_inv_try se_inv_iter : onestep.

(** ** Lemmas on dictionaries *)

Section DictLemmas.
Context {V : Type}.
Implicit Types (d : list (string * V)) (k : string) (v : V).

Lemma dict_get_set_eq k v d : dict_get k (dict_set k v d) = Some v.
Proof.
  induction d as [|[k' v'] d IH]; simpl.
  - by rewrite String.eqb_refl.
  - destruct (String.eqb k k') eqn:E; simpl; by rewrite E.
Qed.

Lemma dict_get_set_ne k k' v d :
  k ≠ k' → dict_get k' (dict_set k v d) = dict_get k' d.
Proof.
  intros Hne. induction d as [|[k'' v'] d IH]; simpl.
  - destruct (String.eqb k' k) eqn:E; [|done].
    apply String.eqb_eq in E. congruence.
  - destruct (String.eqb k k'') eqn:E; simpl; [|by rewrite IH].
    apply String.eqb_eq in E as <-.
    destruct (String.eqb k' k) eqn:E'; [|done].
    apply String.eqb_eq in E'. congruence.
Qed.

Lemma dict_get_in k v d : dict_get k d = Some v → (k, v) ∈ d.
Proof.
  induction d as [|[k' v'] d IH]; simpl; [done|].
  destruct (String.eqb k k') eqn:E.
  - intros [= <-]. apply String.eqb_eq in E as <-. set_solver.
  - set_solver.
Qed.
End DictLemmas.

#[export] Hint Rewrite @dict_get_set_eq : onestep.

(** ** Lemmas on strings *)

Lemma str_of_to_list s : str_of_list (str_to_list s) = s.
Proof. induction s; simpl; congruence. Qed.

Lemma str_to_of_list l : str_to_list (str_of_list l) = l.
Proof. induction l; simpl; congruence. Qed.

#[export] Hint Rewrite str_of_to_list str_to_of_list : onestep.

(** [strip] is idempotent. *)
Lemma drop_space_idem l : drop_space (drop_space l) = drop_space l.
Proof.
  induction l as [|c l IH]; simpl; [done|]. destruct (is_space c) eqn:E; [done|].
  simpl. by rewrite E.
Qed.

Lemma drop_space_suffix l : ∃ k, l = k ++ drop_space l.
Proof.
  induction l as [|c l [k IH]]; simpl; [by exists []|].
  destruct (is_space c); [|by exists []]. exists (c :: k). simpl. by f_equal.
Qed.

Lemma drop_space_prefix p q : drop_space (p ++ q) = p ++ q → drop_space p = p.
Proof.
  destruct p as [|c p]; simpl; [done|]. destruct (is_space c) eqn:E; [|done].
  intros H. exfalso. destruct (drop_space_suffix (p ++ q)) as [k Hk].
  apply (f_equal (@length ascii)) in Hk. rewrite H, !length_app in Hk. simpl in Hk. rewrite length_app in Hk. lia.
Qed.

Lemma strip_idem s : strip (strip s) = strip s.
Proof.
  unfold strip. rewrite str_to_of_list.
  set (x := drop_space (str_to_list s)).
  destruct (drop_space_suffix (reverse x)) as [k Hk].
  assert (drop_space (reverse (drop_space (reverse x))) = reverse (drop_space (reverse x))) as ->.
  { apply (drop_space_prefix _ (reverse k)). rewrite <- reverse_app, <- Hk, reverse_involutive.
    apply drop_space_idem. }
  by rewrite reverse_involutive, drop_space_idem.
Qed.

#[export] Hint Rewrite strip_idem : onestep.
