(* ===== verification/PyFloat.v ===== *)
(** * Python floats

    A Python [float] is an IEEE 754 binary64 number.  The numbers and their
    operations are those of the Standard Library's [SpecFloat] at precision
    53 and exponent bound 1024.  Also here: [min] and [max] as Python
    evaluates them (the result of a comparison with a NaN is [False]),
    [math.isfinite], the conversion of an [int], and
    [timedelta(seconds=x)], which turns a number of seconds into the
    microseconds the library's clocks count. *)

From stdpp Require Import base option numbers.
From Stdlib Require Import ZArith Lia SpecFloat.
From S2P Require Import Prelude.

Abbreviation float64 := spec_float.

Definition fadd : float64 → float64 → float64 := SFadd 53 1024.
Definition fsub : float64 → float64 → float64 := SFsub 53 1024.
Definition fmul : float64 → float64 → float64 := SFmul 53 1024.
Definition fdiv : float64 → float64 → float64 := SFdiv 53 1024.
Definition fltb : float64 → float64 → bool := SFltb.
Definition fleb : float64 → float64 → bool := SFleb.

(** The float nearest to an integer (an infinity beyond the range). *)
Definition float_of_Z (n : Z) : float64 := binary_normalize 53 1024 n 0 false.

(** The float nearest to [m * 2^e]. *)
Definition float_of (m e : Z) : float64 := binary_normalize 53 1024 m e false.

Definition f_zero : float64 := S754_zero false.
Definition f_one : float64 := float_of_Z 1.
Definition f_two : float64 := float_of_Z 2.

(** [math.isfinite]. *)
Definition isfinite (x : float64) : bool :=
  match x with S754_zero _ | S754_finite _ _ _ => true | _ => false end.

Definition is_nan (x : float64) : bool :=
  match x with S754_nan => true | _ => false end.

(** Python's two argument [min] and [max] keep the first argument unless
    the second one compares strictly better. *)
Definition pymin (a b : float64) : float64 := if fltb b a then b else a.
Definition pymax (a b : float64) : float64 := if fltb a b then b else a.

(** [bool(x)]. *)
Definition f_truthy (x : float64) : bool :=
  match x with S754_zero _ => false | _ => true end.

(** ** [timedelta(seconds=x)] in microseconds

    The constructor splits [x] into an integral and a fractional part,
    multiplies the fractional part by 10^6 in floating point and rounds
    half to even; a non-finite argument raises. *)

(** [n / 2^k] rounded half to even. *)
Definition shr_half_even (n k : Z) : Z :=
  let q := Z.shiftr n k in
  let r := (n - Z.shiftl q k)%Z in
  let half := Z.shiftl 1 (k - 1) in
  if (k <=? 0)%Z then Z.shiftl n (- k)
  else if (r <? half)%Z then q
  else if (half <? r)%Z then (q + 1)%Z
  else if Z.even q then q else (q + 1)%Z.

(** The nearest integer to a float, halves to even. *)
Definition round_half_even (x : float64) : option Z :=
  match x with
  | S754_zero _ => Some 0%Z
  | S754_finite s m e =>
      let v := shr_half_even (Zpos m) (- e) in
      Some (if s then (- v)%Z else v)
  | _ => None
  end.

(** [math.modf]: integral part (as an integer) and fractional part. *)
Definition modf (x : float64) : option (Z * float64) :=
  match x with
  | S754_zero _ => Some (0%Z, x)
  | S754_finite s m e =>
      if (0 <=? e)%Z then
        let v := Z.shiftl (Zpos m) e in
        Some (if s then (- v)%Z else v, S754_zero s)
      else
        let q := Z.shiftr (Zpos m) (- e) in
        let r := (Zpos m - Z.shiftl q (- e))%Z in
        Some (if s then ((- q)%Z, float_of (- r) e) else (q, float_of r e))
  | _ => None
  end.

Definition timedelta_us (x : float64) : option Z :=
  '(q, fr) ← modf x;
  us ← round_half_even (fmul (float_of_Z 1000000) fr);
  Some (q * 1000000 + us)%Z.

(** ** Mixed arithmetic of [int] and [float] *)

(** An integer as an unrounded float: an operand of [/]. *)
Definition exact_float (n : Z) : float64 :=
  match n with
  | Z0 => S754_zero false
  | Zpos p => S754_finite false p 0
  | Zneg p => S754_finite true p 0
  end.

(** [n / d] of two integers, correctly rounded. *)
Definition int_truediv (n d : Z) : float64 := fdiv (exact_float n) (exact_float d).

(** [timedelta(microseconds=us).total_seconds()]. *)
Definition total_seconds (us : Z) : float64 := int_truediv us 1000000.

(** [n > x], compared exactly. *)
Definition Z_gtb_float (n : Z) (x : float64) : bool :=
  match x with
  | S754_nan => false
  | S754_infinity s => s
  | S754_zero _ => (0 <? n)%Z
  | S754_finite s m e =>
      let v := if s then Zneg m else Zpos m in
      if (0 <=? e)%Z then (Z.shiftl v e <? n)%Z else (v <? Z.shiftl n (- e))%Z
  end.

Definition f_abs (x : float64) : float64 := SFabs x.

(** 1e-09. *)
Definition rel_tol : float64 := float_of 4835703278458517 (-82).

(** [math.isclose(a, b)]. *)
Definition isclose (a b : float64) : bool :=
  if SFeqb a b then true
  else if negb (isfinite a) || negb (isfinite b) then false
  else
    let diff := f_abs (fsub b a) in
    fleb diff (f_abs (fmul rel_tol b)) || fleb diff (f_abs (fmul rel_tol a)) || fleb diff f_zero.

(** ** Order lemmas *)

Definition comparable (x : float64) : Prop := is_nan x = false.

Lemma SFcompare_sym x y :
  SFcompare y x = CompOpp <$> SFcompare x y.
Proof.
  destruct x as [sx|sx| |sx mx ex], y as [sy|sy| |sy my ey];
    try destruct sx; try destruct sy; simpl; try done;
    rewrite (Z.compare_antisym ex ey); destruct (ex ?= ey)%Z; simpl;
    try done; rewrite !Pos.compare_cont_spec, (Pos.compare_antisym mx my);
    by destruct (mx ?= my)%positive.
Qed.

Lemma SFcompare_some x y : comparable x → comparable y → is_Some (SFcompare x y).
Proof.
  destruct x as [sx|sx| |sx mx ex], y as [sy|sy| |sy my ey]; try done;
    intros _ _; try destruct sx; try destruct sy; simpl; try by eexists.
  all: destruct (Z.compare _ _); by eexists.
Qed.

(** Trichotomy of the order on comparable floats. *)
Lemma fltb_ge x y : comparable x → comparable y → fltb x y = negb (fleb y x).
Proof.
  intros Hx Hy. unfold fltb, fleb, SFltb, SFleb.
  rewrite (SFcompare_sym x y).
  by destruct (SFcompare_some x y Hx Hy) as [[] ->].
Qed.

Lemma fltb_fleb x y : fltb x y = true → fleb x y = true.
Proof. unfold fltb, fleb, SFltb, SFleb. by destruct (SFcompare x y) as [[]|]. Qed.

Lemma SFcompare_refl x : comparable x → SFcompare x x = Some Eq.
Proof.
  destruct x as [[]|[]| |[] m e]; try done; simpl;
    by rewrite Z.compare_refl, ?Pos.compare_cont_refl.
Qed.

Lemma fleb_refl x : comparable x → fleb x x = true.
Proof. intros H. unfold fleb, SFleb. by rewrite SFcompare_refl. Qed.

(** [min(a, b) <= b] and [b <= max(a, b)], whatever [a] is unless it is a
    NaN. *)
Lemma pymin_le_r a b : comparable a → comparable b → fleb (pymin a b) b = true.
Proof.
  intros Ha Hb. unfold pymin. destruct (fltb b a) eqn:E.
  - by apply fleb_refl.
  - rewrite (fltb_ge b a Hb Ha) in E. by apply negb_false_iff in E.
Qed.

Lemma pymax_ge_r a b : comparable a → comparable b → fleb b (pymax a b) = true.
Proof.
  intros Ha Hb. unfold pymax. destruct (fltb a b) eqn:E.
  - by apply fleb_refl.
  - rewrite (fltb_ge a b Ha Hb) in E. by apply negb_false_iff in E.
Qed.

Lemma pymax_ge_l a b : comparable a → comparable b → fleb a (pymax a b) = true.
Proof.
  intros Ha Hb. unfold pymax. destruct (fltb a b) eqn:E.
  - by apply fltb_fleb.
  - by apply fleb_refl.
Qed.

Lemma pymin_comparable a b : comparable a → comparable b → comparable (pymin a b).
Proof. unfold pymin. by destruct (fltb b a). Qed.

Lemma pymax_comparable a b : comparable a → comparable b → comparable (pymax a b).
Proof. unfold pymax. by destruct (fltb a b). Qed.

Lemma isfinite_comparable x : isfinite x = true → comparable x.
Proof. by destruct x. Qed.

(** The order as a lexicographic order on integer keys: sign rank,
    exponent, mantissa. *)
Definition fkey (x : float64) : Z * Z * Z :=
  match x with
  | S754_nan => (3, 0, 0)
  | S754_infinity false => (2, 0, 0)
  | S754_infinity true => (-2, 0, 0)
  | S754_zero _ => (0, 0, 0)
  | S754_finite false m e => (1, e, Zpos m)
  | S754_finite true m e => (-1, - e, - Zpos m)
  end%Z.

Definition key_le (a b : Z * Z * Z) : Prop :=
  let '(a1, a2, a3) := a in let '(b1, b2, b3) := b in
  (a1 < b1 ∨ a1 = b1 ∧ (a2 < b2 ∨ a2 = b2 ∧ a3 ≤ b3))%Z.

Lemma fleb_key x y :
  comparable x → comparable y → fleb x y = true ↔ key_le (fkey x) (fkey y).
Proof.
  unfold fleb, SFleb, key_le.
  destruct x as [[]|[]| |[] m e], y as [[]|[]| |[] m' e']; try done;
    intros _ _; simpl; try lia;
    destruct (Z.compare_spec e e'); simpl; try ((split; [done | lia]) || (split; lia));
    rewrite Pos.compare_cont_spec; destruct (Pos.compare_spec m m'); simpl;
    subst; split; lia || done.
Qed.

Lemma fleb_comparable x y : fleb x y = true → comparable x ∧ comparable y.
Proof. by destruct x as [[]|[]| |[]], y as [[]|[]| |[]]. Qed.

Lemma fleb_trans x y z : fleb x y = true → fleb y z = true → fleb x z = true.
Proof.
  intros Hxy Hyz.
  destruct (fleb_comparable _ _ Hxy) as [Hx Hy], (fleb_comparable _ _ Hyz) as [_ Hz].
  apply fleb_key in Hxy; [|done..]. apply fleb_key in Hyz; [|done..].
  apply fleb_key; [done..|]. unfold key_le in *.
  destruct (fkey x) as [[??]?], (fkey y) as [[??]?], (fkey z) as [[??]?]. lia.
Qed.

(** A nonnegative comparable float is one whose comparison with zero is. *)
Definition fnonneg (x : float64) : Prop := fleb f_zero x = true.

Lemma fnonneg_comparable x : fnonneg x → comparable x.
Proof. by destruct x. Qed.

Lemma pymin_nonneg a b : fnonneg a → fnonneg b → fnonneg (pymin a b).
Proof. unfold pymin. by destruct (fltb b a). Qed.

Lemma pymax_zero_nonneg a : fnonneg (pymax f_zero a).
Proof.
  unfold pymax. destruct (fltb f_zero a) eqn:E; [by apply fltb_fleb | done].
Qed.

(** ** Products

    Rounding a nonnegative mantissa never produces a NaN and keeps the
    sign. *)

Lemma shr_1_nonneg r : (0 ≤ shr_m r)%Z → (0 ≤ shr_m (shr_1 r))%Z.
Proof. destruct r as [[|[]|[]] ? ?]; simpl; lia. Qed.

Lemma iter_pos_shr_nonneg p r :
  (0 ≤ shr_m r)%Z → (0 ≤ shr_m (iter_pos shr_1 p r))%Z.
Proof.
  revert r. induction p; intros r Hr; simpl; auto using shr_1_nonneg.
Qed.

Lemma shr_fexp_nonneg prec emax m e l :
  (0 ≤ m)%Z → (0 ≤ shr_m (fst (shr_fexp prec emax m e l)))%Z.
Proof.
  intros Hm. unfold shr_fexp, shr.
  assert (0 ≤ shr_m (shr_record_of_loc m l))%Z by by destruct l as [|[]].
  case_match; simpl; auto using iter_pos_shr_nonneg.
Qed.

Lemma binary_round_aux_sign prec emax s m e l :
  (0 ≤ m)%Z →
  match binary_round_aux prec emax s m e l with
  | S754_zero s' | S754_infinity s' | S754_finite s' _ _ => s' = s
  | S754_nan => False
  end.
Proof.
  intros Hm. unfold binary_round_aux.
  destruct (shr_fexp prec emax m e l) as [r1 e1] eqn:E1.
  assert (Hr1 : (0 ≤ shr_m r1)%Z).
  { pose proof (shr_fexp_nonneg prec emax m e l Hm) as H. by rewrite E1 in H. }
  set (m2 := round_nearest_even _ _).
  assert (Hm2 : (0 ≤ m2)%Z).
  { unfold m2, round_nearest_even. repeat case_match; lia. }
  destruct (shr_fexp prec emax m2 e1 loc_Exact) as [r2 e2] eqn:E2.
  pose proof (shr_fexp_nonneg prec emax m2 e1 loc_Exact Hm2) as H.
  rewrite E2 in H. simpl in H. destruct (shr_m r2); [done| |lia].
  by destruct (_ <=? _)%Z.
Qed.

(** The product of a nonnegative finite factor and a nonnegative finite
    factor is nonnegative (it may overflow to infinity). *)
Lemma fmul_nonneg x y :
  isfinite x = true → isfinite y = true →
  fnonneg x → fnonneg y → fnonneg (fmul x y).
Proof.
  destruct x as [sx| | |sx mx ex], y as [sy| | |sy my ey]; try done.
  unfold fnonneg, fmul. intros _ _ Hx Hy.
  assert (sx = false) as -> by by destruct sx.
  assert (sy = false) as -> by by destruct sy.
  simpl. pose proof (binary_round_aux_sign 53 1024 false (Zpos (mx * my))
    (ex + ey) loc_Exact ltac:(lia)) as H.
  destruct (binary_round_aux _ _ _ _ _ _); by subst.
Qed.

(** ** Rounding and [timedelta] *)

Lemma shr_half_even_nonneg (n k : Z) : (0 ≤ n)%Z → (0 ≤ shr_half_even n k)%Z.
Proof.
  intros Hn. unfold shr_half_even.
  assert (0 ≤ Z.shiftr n k)%Z by by apply Z.shiftr_nonneg.
  assert (0 ≤ Z.shiftl n (- k))%Z by by apply Z.shiftl_nonneg.
  repeat case_match; lia.
Qed.

#[export] Hint Resolve fleb_refl pymax_zero_nonneg pymin_nonneg
  isfinite_comparable fnonneg_comparable : onestep.
