(* ===== verification/Value.v ===== *)
(** * Python values, exceptions and envelopes

    The data that flows through the runtime: the values a payload, a header
    mapping or a result may hold, the exceptions user code and connectors
    raise (with the class tests the runtime performs on them), the
    classification of connector failures ([onestep/resilience.py], the data
    half) and the [Envelope] of [onestep/envelope.py]. *)

From stdpp Require Import base option list strings numbers.
From Stdlib Require Import ZArith SpecFloat.
From S2P Require Import Prelude PyFloat.

(** ** Values *)

(** An aware or naive [datetime]: microseconds of its wall clock since
    1970-01-01T00:00:00, its UTC offset in microseconds if it has one, and
    its [fold]. *)
Record pydatetime := PyDatetime {
  dt_wall : Z;
  dt_offset : option Z;
  dt_fold : bool;
}.

Set Warnings "-register-all".

(** A dict is the list of its items in insertion order.  [VObj] is an
    instance of a class the runtime does not interpret. *)
Inductive value : Type :=
| VNone
| VBool (b : bool)
| VInt (n : Z)
| VFloat (x : float64)
| VStr (s : string)
| VBytes (bs : list Init.Byte.byte)
| VDatetime (d : pydatetime)
| VUuid (u : Z)
| VDecimal (text : string)
| VEnum (module qualname name : string) (v : value)
| VNamedTuple (module qualname : string) (fields : list string) (vs : list value)
| VTuple (vs : list value)
| VSet (vs : list value)
| VFrozenset (vs : list value)
| VList (vs : list value)
| VDict (items : list (value * value))
| VObj (module qualname : string).

(** Induction on values with hypotheses for the members of containers. *)
Section ValueInd.
Variable P : value → Prop.
Hypothesis HNone : P VNone.
Hypothesis HBool : ∀ b, P (VBool b).
Hypothesis HInt : ∀ n, P (VInt n).
Hypothesis HFloat : ∀ x, P (VFloat x).
Hypothesis HStr : ∀ s, P (VStr s).
Hypothesis HBytes : ∀ bs, P (VBytes bs).
Hypothesis HDatetime : ∀ d, P (VDatetime d).
Hypothesis HUuid : ∀ u, P (VUuid u).
Hypothesis HDecimal : ∀ t, P (VDecimal t).
Hypothesis HEnum : ∀ m q n v, P v → P (VEnum m q n v).
Hypothesis HNamed : ∀ m q fs vs, Forall P vs → P (VNamedTuple m q fs vs).
Hypothesis HTuple : ∀ vs, Forall P vs → P (VTuple vs).
Hypothesis HSet : ∀ vs, Forall P vs → P (VSet vs).
Hypothesis HFrozen : ∀ vs, Forall P vs → P (VFrozenset vs).
Hypothesis HList : ∀ vs, Forall P vs → P (VList vs).
Hypothesis HDict : ∀ items, Forall (λ kv, P kv.1 ∧ P kv.2) items → P (VDict items).
Hypothesis HObj : ∀ m q, P (VObj m q).

Fixpoint value_rect_strong (v : value) : P v :=
  let go := fix go vs : Forall P vs :=
    match vs with
    | [] => List.Forall_nil _
    | v :: vs => List.Forall_cons _ _ _ (value_rect_strong v) (go vs)
    end in
  let go2 := fix go2 items : Forall (λ kv : value * value, P kv.1 ∧ P kv.2) items :=
    match items with
    | [] => List.Forall_nil _
    | (k, v) :: items =>
        List.Forall_cons _ (k, v) _
          (conj (value_rect_strong k) (value_rect_strong v)) (go2 items)
    end in
  match v with
  | VNone => HNone
  | VBool b => HBool b
  | VInt n => HInt n
  | VFloat x => HFloat x
  | VStr s => HStr s
  | VBytes bs => HBytes bs
  | VDatetime d => HDatetime d
  | VUuid u => HUuid u
  | VDecimal t => HDecimal t
  | VEnum m q n v => HEnum m q n v (value_rect_strong v)
  | VNamedTuple m q fs vs => HNamed m q fs vs (go vs)
  | VTuple vs => HTuple vs (go vs)
  | VSet vs => HSet vs (go vs)
  | VFrozenset vs => HFrozen vs (go vs)
  | VList vs => HList vs (go vs)
  | VDict items => HDict items (go2 items)
  | VObj m q => HObj m q
  end.
End ValueInd.

(** A dict with string keys, as a value. *)
Definition VStrDict (d : list (string * value)) : value :=
  VDict ((λ kv, (VStr kv.1, kv.2)) <$> d).

(** [d.get(k)] for a string key. *)
Fixpoint vdict_get (k : string) (items : list (value * value)) : option value :=
  match items with
  | [] => None
  | (VStr k', v) :: items => if String.eqb k k' then Some v else vdict_get k items
  | _ :: items => vdict_get k items
  end.

(** A [Sequence] that is neither a [str] nor [bytes]. *)
Definition sequence_items (v : value) : option (list value) :=
  match v with
  | VList vs | VTuple vs | VNamedTuple _ _ _ vs => Some vs
  | _ => None
  end.

(** ** Connector failures: the enumerations of [onestep/resilience.py] *)

Inductive ConnectorErrorKind :=
| DISCONNECTED | TRANSIENT | THROTTLED | MISCONFIGURED | PERMANENT | UNCERTAIN.

Inductive ConnectorOperation :=
| OP_OPEN | OP_FETCH | OP_HEARTBEAT | OP_SEND | OP_ACK | OP_RETRY | OP_FAIL | OP_CLOSE.

#[global] Instance ConnectorErrorKind_eq_dec : EqDecision ConnectorErrorKind.
Proof. solve_decision. Defined.
#[global] Instance ConnectorOperation_eq_dec : EqDecision ConnectorOperation.
Proof. solve_decision. Defined.

(** ** Exceptions

    An exception is the part of its class the runtime tests with
    [isinstance] or an [except] clause, the name of its type, its [str],
    and the formatted traceback if it has been raised. *)
Inductive exn : Type :=
| Exn (cls : exn_class) (type_name message : string) (traceback : option string)
with exn_class : Type :=
| CException                    (** a plain [Exception] *)
| CBaseException                (** outside [Exception]: [KeyboardInterrupt], ... *)
| CCancelled                    (** [asyncio.CancelledError], outside [Exception] *)
| CTimeout                      (** [asyncio.TimeoutError] *)
| CLeaseLost                    (** [ExecutionLeaseLost] *)
| CCaptureEncoding (path recorded_type : string)
| CConnector (backend : string) (operation : ConnectorOperation)
    (kind : ConnectorErrorKind) (source_name : option string)
    (retry_delay_s : option float64) (cause : option exn).

Definition exn_cls (e : exn) : exn_class := let '(Exn c _ _ _) := e in c.
Definition exn_type_name (e : exn) : string := let '(Exn _ t _ _) := e in t.
Definition exn_message (e : exn) : string := let '(Exn _ _ m _) := e in m.
Definition exn_traceback (e : exn) : option string := let '(Exn _ _ _ tb) := e in tb.

(** The guards of the [except] clauses. *)
Definition is_cancelled (e : exn) : bool :=
  match exn_cls e with CCancelled => true | _ => false end.

Definition is_timeout (e : exn) : bool :=
  match exn_cls e with CTimeout => true | _ => false end.

(** [except Exception] does not catch [CancelledError] or the other
    [BaseException]s. *)
Definition is_exception (e : exn) : bool :=
  match exn_cls e with CCancelled | CBaseException => false | _ => true end.

Definition is_lease_lost (e : exn) : bool :=
  match exn_cls e with CLeaseLost => true | _ => false end.

Definition is_connector_error (e : exn) : bool :=
  match exn_cls e with CConnector _ _ _ _ _ _ => true | _ => false end.

(** Exceptions raised by the modelled code itself. *)
Definition value_error (msg : string) : exn := Exn CException "ValueError" msg None.
Definition type_error (msg : string) : exn := Exn CException "TypeError" msg None.
Definition runtime_error (msg : string) : exn := Exn CException "RuntimeError" msg None.
Definition overflow_error (msg : string) : exn := Exn CException "OverflowError" msg None.
Definition key_error (msg : string) : exn := Exn CException "KeyError" msg None.

(** ** Envelopes ([onestep/envelope.py]) *)

(** The unit of work: payload, headers (a dict with string keys) and the
    number of attempts made before this delivery. *)
Record Envelope := {
  body : value;
  meta : list (string * value);
  attempts : Z;
}.

(** [Envelope(body=...)] with the dataclass defaults. *)
Definition envelope_of_body (b : value) : Envelope :=
  {| body := b; meta := []; attempts := 0 |}.
