(* ===== verification/Resilience.v ===== *)
(** * Connector error classification ([onestep/resilience.py])

    Which connector failures the runtime retries and how long it waits. *)

From stdpp Require Import base option list strings numbers.
From Stdlib Require Import ZArith SpecFloat.
From S2P Require Import Prelude PyFloat Value.

Definition kind_value (k : ConnectorErrorKind) : string :=
  match k with
  | DISCONNECTED => "disconnected"
  | TRANSIENT => "transient"
  | THROTTLED => "throttled"
  | MISCONFIGURED => "misconfigured"
  | PERMANENT => "permanent"
  | UNCERTAIN => "uncertain"
  end.

Definition operation_value (op : ConnectorOperation) : string :=
  match op with
  | OP_OPEN => "open"
  | OP_FETCH => "fetch"
  | OP_HEARTBEAT => "heartbeat"
  | OP_SEND => "send"
  | OP_ACK => "ack"
  | OP_RETRY => "retry"
  | OP_FAIL => "fail"
  | OP_CLOSE => "close"
  end.

(** [ConnectorOperationError._build_message]. *)
Definition _build_message (backend : string) (op : ConnectorOperation)
    (kind : ConnectorErrorKind) (source_name : option string) : string :=
  let target :=
    match source_name with
    | Some s => if str_nonempty s then " for " +:+ s else ""
    | None => ""
    end in
  backend +:+ " " +:+ operation_value op +:+ " failed ("
    +:+ kind_value kind +:+ ")" +:+ target.

(** [ConnectorOperationError.__init__]. *)
Definition ConnectorOperationError (backend : string) (op : ConnectorOperation)
    (kind : ConnectorErrorKind) (source_name : option string)
    (retry_delay_s : option float64) (cause : option exn)
    (message : option string) : exn :=
  let text :=
    match message with
    | Some m => if str_nonempty m then m
                else _build_message backend op kind source_name
    | None => _build_message backend op kind source_name
    end in
  Exn (CConnector backend op kind source_name retry_delay_s cause)
      "ConnectorOperationError" text None.

(** [is_retryable_connector_error] on the [kind] of the error. *)
Definition retryable_kind (k : ConnectorErrorKind) : bool :=
  match k with
  | DISCONNECTED | TRANSIENT | THROTTLED => true
  | MISCONFIGURED | PERMANENT | UNCERTAIN => false
  end.

(** On an exception object: [None] when it is not a
    [ConnectorOperationError] (the callers test that first). *)
Definition is_retryable_connector_error (e : exn) : option bool :=
  match exn_cls e with
  | CConnector _ _ k _ _ _ => Some (retryable_kind k)
  | _ => None
  end.

Definition connector_retry_delay (retry_delay_s : option float64)
    (kind : ConnectorErrorKind) (fallback_s : float64) : float64 :=
  match retry_delay_s with
  | Some d => pymax f_zero d
  | None =>
      match kind with
      | THROTTLED => pymax fallback_s f_one
      | _ => pymax fallback_s f_zero
      end
  end.

(** ** Properties *)

Lemma fleb_zero_one : fleb f_zero f_one = true.
Proof. done. Qed.

(** The wait before a retry is never negative. *)
Lemma connector_retry_delay_nonneg rd k fb :
  comparable fb → fnonneg (connector_retry_delay rd k fb).
Proof.
  intros Hfb. unfold connector_retry_delay.
  assert (Hz : fnonneg (pymax fb f_zero)) by (by apply pymax_ge_r).
  destruct rd as [d|]; [apply pymax_zero_nonneg|].
  destruct k; try done.
  unfold pymax. destruct (fltb fb f_one) eqn:E; [done|].
  rewrite fltb_ge in E by done. apply negb_false_iff in E.
  destruct fb as [[]|[]| |[] m e]; try done; vm_compute in E; done.
Qed.

#[export] Hint Resolve connector_retry_delay_nonneg : onestep.
