(* ===== verification/Invoke.v ===== *)
(** * Calling user callbacks ([onestep/invoke.py])

    Hooks, predicates, transforms and event handlers may declare fewer
    positional parameters than the runtime has arguments for them. *)

From stdpp Require Import base option list.
From S2P Require Import Prelude.

(** [inspect.Parameter.kind]. *)
Inductive param_kind :=
| POSITIONAL_ONLY | POSITIONAL_OR_KEYWORD | VAR_POSITIONAL | KEYWORD_ONLY | VAR_KEYWORD.

#[global] Instance param_kind_eq_dec : EqDecision param_kind.
Proof. solve_decision. Defined.

(** A callable: the parameter kinds [inspect.signature] reports ([None]
    when it raises [TypeError] or [ValueError]) and what a call does. *)
Record callback (A R : Type) := Callback {
  cb_signature : option (list param_kind);
  cb_call : list A → R;
}.
Arguments Callback {_ _} _ _.
Arguments cb_signature {_ _} _.
Arguments cb_call {_ _} _ _.

Definition is_positional (k : param_kind) : bool :=
  match k with POSITIONAL_ONLY | POSITIONAL_OR_KEYWORD => true | _ => false end.

Definition positional (ps : list param_kind) : list param_kind :=
  List.filter is_positional ps.

Definition has_varargs (ps : list param_kind) : bool :=
  existsb (λ k, bool_decide (k = VAR_POSITIONAL)) ps.

(** The arguments [invoke_callback] passes on. *)
Definition passed_args {A R} (cb : callback A R) (args : list A) : list A :=
  match cb_signature cb with
  | None => args
  | Some ps =>
      if has_varargs ps then args
      else match positional ps with
           | [] => []
           | pos => take (length pos) args
           end
  end.

Definition invoke_callback {A R} (cb : callback A R) (args : list A) : R :=
  cb_call cb (passed_args cb args).

(** ** Properties *)

Lemma passed_args_prefix {A R} (cb : callback A R) args :
  passed_args cb args `prefix_of` args.
Proof.
  unfold passed_args. repeat case_match; try done; [apply prefix_nil|].
  apply prefix_take.
Qed.

(** A callback without [*args] never receives more arguments than it has
    positional parameters, and receives all of them when the runtime has
    enough. *)
Lemma passed_args_length {A R} (cb : callback A R) ps args :
  cb_signature cb = Some ps → has_varargs ps = false →
  length (passed_args cb args) = length (positional ps) `min` length args.
Proof.
  intros Hsig Hvar. unfold passed_args. rewrite Hsig, Hvar.
  destruct (positional ps) eqn:E; simpl; [done|].
  destruct args; simpl; [done|]. by rewrite length_take.
Qed.
