(* ===== verification/Retry.v ===== *)
(** * Retry policies ([onestep/retry.py])

    Failure descriptions, the four built-in policies and the dispatch that
    tolerates user policies written for the older two-argument protocol.

    [fpow x n] is [x ** n], the C library's [pow] ([None] where Python raises
    [OverflowError]); [uniform a b] is the draw [random.uniform(a, b)]. *)

From stdpp Require Import base option list strings numbers.
From Stdlib Require Import ZArith SpecFloat Lia.
From S2P Require Import Prelude PyFloat Value Invoke.

(** ** Failures *)

Inductive FailureKind := FK_ERROR | FK_TIMEOUT | FK_CANCELLED.

#[global] Instance FailureKind_eq_dec : EqDecision FailureKind.
Proof. solve_decision. Defined.

Definition failure_kind_value (k : FailureKind) : string :=
  match k with
  | FK_ERROR => "error" | FK_TIMEOUT => "timeout" | FK_CANCELLED => "cancelled"
  end.

Record FailureInfo := {
  fi_kind : FailureKind;
  fi_exception_type : string;
  fi_message : string;
  fi_traceback : option string;
}.

(** [FailureInfo.from_exception]. *)
Definition from_exception (e : exn) (k : FailureKind) : FailureInfo :=
  {| fi_kind := k;
     fi_exception_type := exn_type_name e;
     fi_message := exn_message e;
     fi_traceback := exn_traceback e |}.

(** [FailureInfo.as_dict]. *)
Definition failure_as_dict (f : FailureInfo) : list (string * value) :=
  let payload :=
    [("kind", VStr (failure_kind_value (fi_kind f)));
     ("exception_type", VStr (fi_exception_type f));
     ("message", VStr (fi_message f))] in
  match fi_traceback f with
  | Some tb => dict_set "traceback" (VStr tb) payload
  | None => payload
  end.

(** ** Decisions *)

Inductive RetryDecision := RETRY | FAIL.

#[global] Instance RetryDecision_eq_dec : EqDecision RetryDecision.
Proof. solve_decision. Defined.

Record RetryAction := {
  decision : RetryDecision;
  delay_s : option float64;
}.

Definition action_fail : RetryAction := {| decision := FAIL; delay_s := None |}.
Definition action_retry (d : option float64) : RetryAction :=
  {| decision := RETRY; delay_s := d |}.

(** ** Policies *)

Inductive jitter := JITTER_NONE | JITTER_FULL | JITTER_EQUAL.

Definition jitter_of_string (s : string) : option jitter :=
  if String.eqb s "none" then Some JITTER_NONE
  else if String.eqb s "full" then Some JITTER_FULL
  else if String.eqb s "equal" then Some JITTER_EQUAL
  else None.

(** An argument of a user-written [on_error]. *)
Inductive retry_arg :=
| RAEnvelope (env : Envelope)
| RAExn (e : exn)
| RAFailure (f : FailureInfo).

Set Warnings "-register-all".

(** [PCustom] is a user object with an [on_error] method. *)
Inductive RetryPolicy : Type :=
| PNoRetry
| PMaxAttempts (max_attempts : Z) (delay : option float64)
| PExponentialBackoff (max_attempts : Z)
    (min_delay max_delay multiplier : float64) (jit : jitter)
| PByFailureKind (policies : list (string * RetryPolicy))
| PCustom (on_error : callback retry_arg (result exn RetryAction)).

(** [MaxAttempts.__init__]. *)
Definition mk_MaxAttempts (max_attempts : Z) (delay : option float64)
    : result exn RetryPolicy :=
  _ ← guard_else (negb (max_attempts <? 1)%Z) (value_error "max_attempts must be >= 1");
  Ok (PMaxAttempts max_attempts delay).

(** [ExponentialBackoff.__init__]. *)
Definition mk_ExponentialBackoff (max_attempts : Z)
    (min_delay max_delay multiplier : float64) (jit : string)
    : result exn RetryPolicy :=
  _ ← guard_else (negb (max_attempts <? 1)%Z) (value_error "max_attempts must be >= 1");
  _ ← guard_else (negb (fltb min_delay f_zero)) (value_error "min_delay_s must be >= 0");
  _ ← guard_else (negb (fltb max_delay min_delay))
        (value_error "max_delay_s must be >= min_delay_s");
  _ ← guard_else (negb (fleb multiplier f_zero)) (value_error "multiplier must be > 0");
  match jitter_of_string jit with
  | None => Err (value_error "jitter must be one of ['equal', 'full', 'none']")
  | Some j => Ok (PExponentialBackoff max_attempts min_delay max_delay multiplier j)
  end.

(** [ByFailureKind.__init__]. *)
Definition mk_ByFailureKind (policies : list (string * RetryPolicy))
    : result exn RetryPolicy :=
  match policies with
  | [] => Err (value_error "at least one sub-policy is required")
  | _ => Ok (PByFailureKind policies)
  end.

Section Policies.
Context (fpow : float64 → Z → option float64).
Context (uniform : float64 → float64 → float64).

(** [ExponentialBackoff.on_error]. *)
Definition exponential_on_error (max_attempts : Z)
    (min_delay max_delay multiplier : float64) (jit : jitter)
    (env : Envelope) : result exn RetryAction :=
  let next_attempt := (attempts env + 1)%Z in
  if (max_attempts <=? next_attempt)%Z then Ok action_fail
  else
    match fpow multiplier (attempts env) with
    | None => Err (overflow_error "(34, 'Numerical result out of range')")
    | Some p =>
        let delay := pymin (fmul min_delay p) max_delay in
        let delay :=
          match jit with
          | JITTER_NONE => delay
          | JITTER_FULL => uniform f_zero delay
          | JITTER_EQUAL =>
              let half := fdiv delay f_two in
              uniform (pymax f_zero (fsub delay half))
                      (pymin max_delay (fadd delay half))
          end in
        Ok (action_retry (Some delay))
    end.

Definition max_attempts_on_error (max_attempts : Z) (delay : option float64)
    (env : Envelope) : result exn RetryAction :=
  let next_attempt := (attempts env + 1)%Z in
  if (next_attempt <? max_attempts)%Z then Ok (action_retry delay)
  else Ok action_fail.

(** [policy.on_error(envelope, exc, failure)]. *)
Fixpoint on_error (p : RetryPolicy) (env : Envelope) (e : exn) (f : FailureInfo)
    {struct p} : result exn RetryAction :=
  match p with
  | PNoRetry => Ok action_fail
  | PMaxAttempts n d => max_attempts_on_error n d env
  | PExponentialBackoff n mn mx mult j => exponential_on_error n mn mx mult j env
  | PByFailureKind ps =>
      (* [self._policies.get(key)], followed by the call *)
      let call_at := fix call_at (key : string) (ps : list (string * RetryPolicy))
          : option (result exn RetryAction) :=
        match ps with
        | [] => None
        | (k, p) :: ps =>
            if String.eqb key k then Some (on_error p env e f) else call_at key ps
        end in
      match call_at (failure_kind_value (fi_kind f)) ps with
      | Some r => r
      | None =>
          match call_at "default" ps with
          | Some r => r
          | None => Ok action_fail
          end
      end
  | PCustom cb => cb_call cb [RAEnvelope env; RAExn e; RAFailure f]
  end.

(** [resolve_retry_action]: the built-in policies take all three
    arguments; a user policy gets the failure only when its signature has
    room for it. *)
Definition resolve_retry_action (p : RetryPolicy) (env : Envelope) (e : exn)
    (f : FailureInfo) : result exn RetryAction :=
  match p with
  | PCustom cb =>
      match cb_signature cb with
      | None => cb_call cb [RAEnvelope env; RAExn e; RAFailure f]
      | Some ps =>
          if has_varargs ps || (3 <=? length (positional ps))%nat
          then cb_call cb [RAEnvelope env; RAExn e; RAFailure f]
          else cb_call cb [RAEnvelope env; RAExn e]
      end
  | _ => on_error p env e f
  end.

End Policies.

(** ** Attempt budgets

    How many times the handler runs when every run fails and each retry is
    redelivered with one more attempt on record. *)

Definition redeliver (env : Envelope) : Envelope :=
  {| body := body env; meta := meta env; attempts := (attempts env + 1)%Z |}.

Section Runs.
Context (fpow : float64 → Z → option float64).
Context (uniform : float64 → float64 → float64).
Context (p : RetryPolicy) (e : exn) (f : FailureInfo).

Fixpoint handler_runs (fuel : nat) (env : Envelope) : option nat :=
  match fuel with
  | O => None
  | S fuel =>
      match resolve_retry_action fpow uniform p env e f with
      | Ok a => match decision a with
                | FAIL => Some 1
                | RETRY => S <$> handler_runs fuel (redeliver env)
                end
      | Err _ => None
      end
  end.

(** A policy that retries exactly below attempt [n - 1] runs the handler
    [n - attempts] more times. *)
Lemma handler_runs_budget (n : Z) :
  (∀ env, (attempts env + 1 < n)%Z → (0 ≤ attempts env)%Z →
    ∃ d, resolve_retry_action fpow uniform p env e f = Ok (action_retry d)) →
  (∀ env, (n ≤ attempts env + 1)%Z →
    resolve_retry_action fpow uniform p env e f = Ok action_fail) →
  ∀ fuel env, (0 ≤ attempts env < n)%Z →
    (n - attempts env ≤ Z.of_nat fuel)%Z →
    handler_runs fuel env = Some (Z.to_nat (n - attempts env)).
Proof.
  intros Hretry Hfail fuel. induction fuel as [|fuel IH]; intros env Ha Hf; [lia|].
  simpl. destruct (Z_lt_ge_dec (attempts env + 1) n) as [Hlt|Hge].
  - destruct (Hretry env Hlt ltac:(lia)) as [d ->]. simpl.
    rewrite IH by (simpl; lia). simpl. f_equal. lia.
  - rewrite Hfail by lia. simpl. f_equal. lia.
Qed.
End Runs.

(** ** Lookup of a sub-policy *)

Lemma on_error_by_kind fpow uniform ps env e f :
  on_error fpow uniform (PByFailureKind ps) env e f =
  match dict_get (failure_kind_value (fi_kind f)) ps with
  | Some p => on_error fpow uniform p env e f
  | None =>
      match dict_get "default" ps with
      | Some p => on_error fpow uniform p env e f
      | None => Ok action_fail
      end
  end.
Proof.
  simpl. generalize (failure_kind_value (fi_kind f)) as key.
  set (call_at := fix call_at key ps := match ps with
    | [] => None
    | (k, p) :: ps => if String.eqb key k then Some (on_error fpow uniform p env e f)
                      else call_at key ps end).
  intros key.
  assert (Hcall : ∀ key ps, call_at key ps =
            (λ p, on_error fpow uniform p env e f) <$> dict_get key ps).
  { clear. intros key ps. induction ps as [|[k p] ps IH]; simpl; [done|].
    by destruct (String.eqb key k). }
  rewrite !Hcall. by destruct (dict_get key ps), (dict_get "default" ps).
Qed.

(** Concrete [pow] used by the witnesses: repeated multiplication, exact for
    the powers of two, an overflow where the product leaves the range. *)
Definition pow_rep (x : float64) (n : Z) : option float64 :=
  let y := Z.iter n (fmul x) f_one in
  if isfinite y then Some y else None.

(** Concrete draw used by the witnesses: the midpoint in binary64. *)
Definition uniform_mid (a b : float64) : float64 := fdiv (fadd a b) f_two.

(** ** Properties *)

(** C31. A handler that keeps failing, and whose every retry comes back with
    one more recorded attempt, runs exactly [max_attempts] times under
    [MaxAttempts] and under an [ExponentialBackoff] whose power does not
    overflow below the budget: every failure below the budget is retried, the
    last one fails the delivery, and the chain of redeliveries terminates. *)
Theorem attempt_budget fpow uniform p n e f fuel env :
  (∃ d, mk_MaxAttempts n d = Ok p) ∨
  (∃ mn mx mult j, mk_ExponentialBackoff n mn mx mult j = Ok p ∧
     ∀ k, (0 ≤ k < n - 1)%Z → is_Some (fpow mult k)) →
  attempts env = 0%Z → (n ≤ Z.of_nat fuel)%Z →
  handler_runs fpow uniform p e f fuel env = Some (Z.to_nat n).
Proof.
  intros Hp Ha Hfuel.
  enough (Hn : (1 ≤ n)%Z ∧
    (∀ env, (attempts env + 1 < n)%Z → (0 ≤ attempts env)%Z →
      ∃ d, resolve_retry_action fpow uniform p env e f = Ok (action_retry d)) ∧
    (∀ env, (n ≤ attempts env + 1)%Z →
      resolve_retry_action fpow uniform p env e f = Ok action_fail)).
  { destruct Hn as (Hn & Hr & Hf).
    rewrite (handler_runs_budget fpow uniform p e f n Hr Hf) by lia.
    f_equal. lia. }
  destruct Hp as [[d Hp] | (mn & mx & mult & j & Hp & Hpow)].
  - unfold mk_MaxAttempts in Hp. autorewrite with onestep in Hp.
    destruct Hp as ([] & Hn & [= <-]). autorewrite with onestep in Hn. zbool.
    split_and!; [lia | |]; intros env' H'; simpl; unfold max_attempts_on_error.
    + rewrite (proj2 (Z.ltb_lt _ _)) by lia. eauto.
    + by rewrite (proj2 (Z.ltb_ge _ _)) by lia.
  - unfold mk_ExponentialBackoff in Hp. repeat setoid_rewrite bind_ok in Hp.
    destruct Hp as ([] & Hn & [] & _ & [] & _ & [] & _ & Hj).
    destruct (jitter_of_string j) as [j'|]; simplify_eq.
    autorewrite with onestep in Hn. zbool.
    split_and!; [lia | |]; intros env' H'; simpl; unfold exponential_on_error.
    + intros H0. rewrite (proj2 (Z.leb_gt _ _)) by lia.
      destruct (Hpow (attempts env') ltac:(lia)) as [q ->]. eauto.
    + by rewrite (proj2 (Z.leb_le _ _)) by lia.
Qed.

Lemma attempt_budget_witness :
  handler_runs pow_rep uniform_mid
    (PExponentialBackoff 4 f_one (float_of_Z 60) f_two JITTER_NONE)
    (value_error "boom") (from_exception (value_error "boom") FK_ERROR) 10
    (envelope_of_body VNone) = Some 4.
Proof.
  apply (attempt_budget pow_rep uniform_mid _ 4); [right | done | lia].
  exists f_one, (float_of_Z 60), f_two, "none". split; [vm_compute; reflexivity|].
  intros k Hk. assert (k = 0 ∨ k = 1 ∨ k = 2)%Z as [-> | [-> | ->]] by lia;
    vm_compute; eexists; reflexivity.
Defined.

(** The delay an exponential policy asks for is never negative and never
    above [max_delay_s], without jitter and with full jitter, for any [pow]
    that is finite and nonnegative on this base and any [uniform] that stays
    within its interval. *)
Theorem exponential_delay_bounds fpow uniform n mn mx mult j jit env a :
  mk_ExponentialBackoff n mn mx mult j = Ok (PExponentialBackoff n mn mx mult jit) →
  jit ≠ JITTER_EQUAL → isfinite mn = true → comparable mx →
  (∀ k p, fpow mult k = Some p → isfinite p = true ∧ fnonneg p) →
  (∀ b, fnonneg b → fnonneg (uniform f_zero b) ∧ fleb (uniform f_zero b) b = true) →
  exponential_on_error fpow uniform n mn mx mult jit env = Ok a →
  match delay_s a with
  | None => decision a = FAIL
  | Some d => decision a = RETRY ∧ fnonneg d ∧
              fleb d mx = true
  end.
Proof.
  intros Hmk Hj Hmn Hmx Hpow Huni. unfold mk_ExponentialBackoff in Hmk.
  repeat setoid_rewrite bind_ok in Hmk.
  destruct Hmk as ([] & _ & [] & Hmn0 & [] & Hmx0 & [] & _ & _).
  rewrite guard_else_ok in Hmn0, Hmx0.
  apply negb_true_iff in Hmn0, Hmx0.
  rewrite fltb_ge in Hmn0 by eauto with onestep. apply negb_false_iff in Hmn0.
  rewrite fltb_ge in Hmx0 by eauto with onestep. apply negb_false_iff in Hmx0.
  unfold exponential_on_error. case_match; [by intros [= <-]|].
  destruct (fpow mult (attempts env)) as [q|] eqn:Eq; [|done].
  destruct (Hpow _ _ Eq) as [Hq1 Hq2].
  assert (Hprod : fnonneg (fmul mn q)) by by apply fmul_nonneg.
  assert (Hmx1 : fnonneg mx) by (by apply (fleb_trans _ mn)).
  set (d0 := pymin (fmul mn q) mx).
  assert (Hd0 : fnonneg d0) by by apply pymin_nonneg.
  assert (Hle : fleb d0 mx = true) by (apply pymin_le_r; eauto with onestep).
  destruct jit; [| |done]; intros [= <-]; simpl; split_and!; try done.
  - by apply Huni.
  - apply (fleb_trans _ d0); [by apply Huni | done].
Qed.

Lemma exponential_delay_bounds_witness :
  ∃ d, exponential_on_error pow_rep (λ a _, a) 20 f_one (float_of_Z 60) f_two
         JITTER_NONE {| body := VNone; meta := []; attempts := 9 |}
       = Ok (action_retry (Some d)) ∧ fleb d (float_of_Z 60) = true.
Proof.
  destruct (exponential_on_error pow_rep (λ a _, a) 20 f_one (float_of_Z 60) f_two
    JITTER_NONE {| body := VNone; meta := []; attempts := 9 |}) as [a|] eqn:E;
    [|vm_compute in E; discriminate].
  assert (Ha : match delay_s a with
    | None => decision a = FAIL
    | Some d => decision a = RETRY ∧ fnonneg d ∧ fleb d (float_of_Z 60) = true
    end).
  { refine (exponential_delay_bounds
      (λ x n, if bool_decide (n = 9)%Z then pow_rep x n else None)
      (λ a _, a) 20 f_one (float_of_Z 60) f_two "none" JITTER_NONE
      {| body := VNone; meta := []; attempts := 9 |} a _ _ _ _ _ _ _).
    - vm_compute; reflexivity.
    - discriminate.
    - reflexivity.
    - reflexivity.
    - intros k p. case_bool_decide as Hk; [subst|discriminate].
      vm_compute. intros [= <-]. split; reflexivity.
    - intros b Hb. split; [reflexivity | exact Hb].
    - rewrite <- E. vm_compute; reflexivity. }
  vm_compute in E. injection E as <-. simpl in Ha.
  eexists. split; [reflexivity|]. by apply Ha.
Defined.

(** With the default multiplier the policy itself raises once an envelope
    has 1024 attempts on record and the budget is not exhausted: [2.0 ** n]
    leaves the binary64 range before [min] can cap the delay at
    [max_delay_s]. *)
Theorem exponential_overflow fpow uniform n mn mx jit env :
  (∀ k, (1024 ≤ k)%Z → fpow f_two k = None) →
  (1024 ≤ attempts env)%Z → (attempts env + 1 < n)%Z →
  ∀ e f, resolve_retry_action fpow uniform
           (PExponentialBackoff n mn mx f_two jit) env e f =
         Err (overflow_error "(34, 'Numerical result out of range')").
Proof.
  intros Hpow Ha Hn e f. simpl. unfold exponential_on_error.
  rewrite (proj2 (Z.leb_gt _ _)) by lia. by rewrite Hpow.
Qed.

Lemma exponential_overflow_witness :
  resolve_retry_action (λ x k, if (k <? 1024)%Z then pow_rep x k else None)
    uniform_mid (PExponentialBackoff 2000 f_one (float_of_Z 60) f_two JITTER_NONE)
    {| body := VNone; meta := []; attempts := 1500 |}
    (value_error "boom") (from_exception (value_error "boom") FK_ERROR)
  = Err (overflow_error "(34, 'Numerical result out of range')").
Proof.
  apply exponential_overflow; simpl; [|lia..].
  intros k Hk. destruct (k <? 1024)%Z eqn:E; [|reflexivity].
  apply Z.ltb_lt in E. lia.
Defined.

(** A [ByFailureKind] policy asks the sub-policy registered for the kind
    of the failure, else the ["default"] one, and fails the delivery when
    there is neither. *)
Theorem by_failure_kind_routes fpow uniform ps env e f :
  resolve_retry_action fpow uniform (PByFailureKind ps) env e f =
  match dict_get (failure_kind_value (fi_kind f)) ps, dict_get "default" ps with
  | Some p, _ | None, Some p => on_error fpow uniform p env e f
  | None, None => Ok action_fail
  end.
Proof.
  transitivity (on_error fpow uniform (PByFailureKind ps) env e f); [done|].
  rewrite on_error_by_kind. by repeat case_match.
Qed.
