(* ===== verification/Calendar.v ===== *)
(** * The calendar and clocks of [datetime]

    Wall clock times are microseconds since 1970-01-01T00:00:00 of the
    proleptic Gregorian calendar.  A time zone gives the UTC offset in force
    at an instant and the offset a wall clock reading stands for; the zone
    database is outside the repository, so a zone is a parameter.  Two aware
    datetimes with the same [tzinfo] object compare by their wall clocks,
    and adding a [timedelta] moves the wall clock. *)

From stdpp Require Import base option list strings numbers.
From Stdlib Require Import ZArith Lia.
From S2P Require Import Prelude.

Definition us_per_second : Z := 1000000.
Definition us_per_minute : Z := 60 * us_per_second.
Definition us_per_hour : Z := 60 * us_per_minute.
Definition us_per_day : Z := 24 * us_per_hour.

(** ** Dates *)

(** Year, month and day of a day number (day 0 is 1970-01-01): the era of
    400 years, the century, the four-year cycle and the year in it, all
    starting on March 1st so that a leap day ends its cycle. *)
Definition civil_from_days (d : Z) : Z * Z * Z :=
  let z := (d + 719468)%Z in
  let era := (z / 146097)%Z in
  let doe := (z mod 146097)%Z in
  let c := Z.min (doe / 36524) 3 in
  let r := (doe - 36524 * c)%Z in
  let q := (r / 1461)%Z in
  let s := (r - 1461 * q)%Z in
  let y := Z.min (s / 365) 3 in
  let doy := (s - 365 * y)%Z in
  let mp := ((5 * doy + 2) / 153)%Z in
  let day := (doy - (153 * mp + 2) / 5 + 1)%Z in
  let month := (if mp <? 10 then mp + 3 else mp - 9)%Z in
  let year := (100 * c + 4 * q + y + era * 400 + (if month <=? 2 then 1 else 0))%Z in
  (year, month, day).

Definition days_from_civil (y m d : Z) : Z :=
  let y' := (if m <=? 2 then y - 1 else y)%Z in
  let era := (y' / 400)%Z in
  let yoe := (y' - era * 400)%Z in
  let mp := (if m <=? 2 then m + 9 else m - 3)%Z in
  let doy := ((153 * mp + 2) / 5 + d - 1)%Z in
  let doe := (yoe * 365 + yoe / 4 - yoe / 100 + doy)%Z in
  (era * 146097 + doe - 719468)%Z.

(** ** Wall clock times *)

Record stamp := Stamp { wall : Z; fold : bool }.

#[global] Instance stamp_eq_dec : EqDecision stamp.
Proof. solve_decision. Defined.

Definition day_number (w : Z) : Z := (w / us_per_day)%Z.
Definition time_of_day (w : Z) : Z := (w mod us_per_day)%Z.

Definition year_of (w : Z) : Z := (civil_from_days (day_number w)).1.1.
Definition month_of (w : Z) : Z := (civil_from_days (day_number w)).1.2.
Definition day_of (w : Z) : Z := (civil_from_days (day_number w)).2.
Definition hour_of (w : Z) : Z := (time_of_day w / us_per_hour)%Z.
Definition minute_of (w : Z) : Z := (time_of_day w mod us_per_hour / us_per_minute)%Z.
Definition second_of (w : Z) : Z := (w mod us_per_minute / us_per_second)%Z.
Definition microsecond_of (w : Z) : Z := (w mod us_per_second)%Z.

(** [dt.weekday()]: Monday is 0; 1970-01-01 was a Thursday. *)
Definition weekday_of (w : Z) : Z := ((day_number w + 3) mod 7)%Z.

(** The wall clock of [datetime(y, m, d, h, mi)]. *)
Definition wall_of (y m d h mi : Z) : Z :=
  (days_from_civil y m d * us_per_day + h * us_per_hour + mi * us_per_minute)%Z.

(** [dt.replace(second=0, microsecond=0)] keeps the fold. *)
Definition floor_minute (t : stamp) : stamp :=
  Stamp (wall t - wall t mod us_per_minute)%Z (fold t).

(** [dt + timedelta]: the result has [fold=0]. *)
Definition stamp_add (t : stamp) (us : Z) : stamp := Stamp (wall t + us)%Z false.

(** Comparison of aware datetimes with one [tzinfo] object. *)
Definition stamp_leb (a b : stamp) : bool := (wall a <=? wall b)%Z.
Definition stamp_ltb (a b : stamp) : bool := (wall a <? wall b)%Z.

(** ** Time zones *)

Record timezone := {
  (** the UTC offset in force at an instant *)
  offset_at : Z → Z;
  (** whether the wall clock of that instant is a repeated reading *)
  fold_at : Z → bool;
  (** the offset of a wall clock reading *)
  offset_wall : stamp → Z;
}.

(** A zone without transitions. *)
Definition fixed_zone (off : Z) : timezone :=
  {| offset_at := λ _, off; fold_at := λ _, false; offset_wall := λ _, off |}.

(** What a clock returns: an aware datetime (its instant) or a naive one. *)
Inductive clock_reading :=
| Aware (instant : Z)
| Naive (w : Z) (f : bool).

(** [instant.astimezone(tz)]. *)
Definition astimezone (tz : timezone) (instant : Z) : stamp :=
  Stamp (instant + offset_at tz instant)%Z (fold_at tz instant).

(** ** [datetime.isoformat] *)

(** [HH:MM[:SS[.ffffff]]] of a duration below a day. *)
Definition iso_hms (a : Z) : string :=
  let hh := (a / us_per_hour)%Z in
  let mm := (a mod us_per_hour / us_per_minute)%Z in
  let ss := (a mod us_per_minute / us_per_second)%Z in
  let us := (a mod us_per_second)%Z in
  pad_dec 2 hh +:+ ":" +:+ pad_dec 2 mm
  +:+ (if (ss =? 0)%Z && (us =? 0)%Z then ""
       else ":" +:+ pad_dec 2 ss +:+ (if (us =? 0)%Z then "" else "." +:+ pad_dec 6 us)).

Definition iso_offset (off : Z) : string :=
  (if (off <? 0)%Z then "-" else "+") +:+ iso_hms (Z.abs off).

Definition isoformat (tz : timezone) (t : stamp) : string :=
  let w := wall t in
  pad_dec 4 (year_of w) +:+ "-" +:+ pad_dec 2 (month_of w) +:+ "-"
  +:+ pad_dec 2 (day_of w) +:+ "T" +:+ pad_dec 2 (hour_of w) +:+ ":"
  +:+ pad_dec 2 (minute_of w) +:+ ":" +:+ pad_dec 2 (second_of w)
  +:+ (if (microsecond_of w =? 0)%Z then "" else "." +:+ pad_dec 6 (microsecond_of w))
  +:+ iso_offset (offset_wall tz t).

(** ** Ranges of the fields *)

Lemma us_per_minute_pos : (0 < us_per_minute)%Z.
Proof. done. Qed.

Lemma hour_of_range w : (0 ≤ hour_of w < 24)%Z.
Proof.
  unfold hour_of, time_of_day. pose proof (Z.mod_pos_bound w us_per_day eq_refl).
  split; [apply Z.div_pos; [lia | done] | apply Z.div_lt_upper_bound; [done|]].
  unfold us_per_day in *. lia.
Qed.

Lemma minute_of_range w : (0 ≤ minute_of w < 60)%Z.
Proof.
  unfold minute_of. pose proof (Z.mod_pos_bound (time_of_day w) us_per_hour eq_refl).
  split; [apply Z.div_pos; [lia | done] | apply Z.div_lt_upper_bound; [done|]].
  unfold us_per_hour in *. lia.
Qed.

Lemma weekday_of_range w : (0 ≤ weekday_of w < 7)%Z.
Proof. unfold weekday_of. by apply Z.mod_pos_bound. Qed.

Lemma floor_minute_le t : (wall (floor_minute t) ≤ wall t)%Z.
Proof.
  unfold floor_minute. simpl.
  pose proof (Z.mod_pos_bound (wall t) us_per_minute eq_refl). lia.
Qed.

Lemma floor_minute_gt t : (wall t < wall (floor_minute t) + us_per_minute)%Z.
Proof.
  unfold floor_minute. simpl.
  pose proof (Z.mod_pos_bound (wall t) us_per_minute eq_refl). lia.
Qed.

Lemma floor_minute_aligned t : (wall (floor_minute t) mod us_per_minute = 0)%Z.
Proof.
  unfold floor_minute. simpl. rewrite Zminus_mod_idemp_r, Z.sub_diag. done.
Qed.

Lemma stamp_leb_le a b : stamp_leb a b = true ↔ (wall a ≤ wall b)%Z.
Proof. apply Z.leb_le. Qed.

#[export] Hint Resolve us_per_minute_pos floor_minute_le floor_minute_gt : onestep.
