(* ===== verification/Schedule.v ===== *)
(** * Schedule sources ([onestep/connectors/schedule.py])

    [BaseScheduleSource]: an interval or cron source as a state machine over
    the wall clock of its time zone.  [open], [fetch], [finish_success],
    [finish_failure], [finish_retry] and [resume_after_pause] run to
    completion under the source's lock, so each is one step on the state;
    the event loop that runs a call is an argument, since the runtime state
    is rebuilt when the loop changes.  Clock readings are arguments too.

    [fire_rule] is what the subclasses provide: [IntervalSource] below, the
    cron schedule in [Cron]. *)

From stdpp Require Import base option list strings numbers sorting.
From Stdlib Require Import ZArith Lia SpecFloat.
From S2P Require Import Prelude PyFloat Value Calendar.

Inductive overlap := ALLOW | SKIP | QUEUE.

#[global] Instance overlap_eq_dec : EqDecision overlap.
Proof. solve_decision. Defined.

Definition overlap_of_string (s : string) : option overlap :=
  if String.eqb s "allow" then Some ALLOW
  else if String.eqb s "skip" then Some SKIP
  else if String.eqb s "queue" then Some QUEUE
  else None.

(** The payload option: a value that is copied for every run, or a callable;
    [PCall f] returns or raises [f k] on its [k]-th call. *)
Inductive payload :=
| PConst (v : value)
| PCall (f : nat → result exn value).

(** The firing rule of a subclass: [_initial_fire_at] and
    [_next_fire_after]. *)
Class FireRule (R : Type) := {
  initial_fire_at : R → stamp → result exn stamp;
  next_fire_after : R → stamp → result exn stamp;
}.

(** What the loops over due runs rely on: the next run is later. *)
Class FireRuleProgress (R : Type) `{FireRule R} :=
  next_fire_later : ∀ (r : R) t t',
    next_fire_after r t = Ok t' → (wall t < wall t')%Z.

(** The constructor arguments that stay fixed. *)
Record sched_config := {
  sc_name : string;
  sc_payload : payload;
  sc_immediate : bool;
  sc_overlap : overlap;
  sc_max_queued_runs : Z;
  sc_timezone : timezone;
}.

(** A retry waiting in [_retry_heap]. *)
Record retry_entry := {
  re_ready_at : stamp;
  re_seq : Z;
  re_envelope : Envelope;
}.

(** The mutable fields.  [st_loop] is the event loop [_lock] belongs to;
    [st_payload_calls] counts the calls of a callable payload. *)
Record sched_state := {
  st_loop : option nat;
  st_initialized : bool;
  st_pending_immediate : bool;
  st_next_fire_at : option stamp;
  st_inflight : Z;
  st_sequence : Z;
  st_queued_runs : list stamp;
  st_retry_heap : list retry_entry;
  st_retry_sequence : Z;
  st_payload_calls : nat;
}.

(** ** Field updates *)

Definition with_initialized (b : bool) (s : sched_state) : sched_state :=
  {| st_loop := st_loop s; st_initialized := b;
     st_pending_immediate := st_pending_immediate s;
     st_next_fire_at := st_next_fire_at s; st_inflight := st_inflight s;
     st_sequence := st_sequence s; st_queued_runs := st_queued_runs s;
     st_retry_heap := st_retry_heap s; st_retry_sequence := st_retry_sequence s;
     st_payload_calls := st_payload_calls s |}.

Definition with_pending (b : bool) (s : sched_state) : sched_state :=
  {| st_loop := st_loop s; st_initialized := st_initialized s;
     st_pending_immediate := b;
     st_next_fire_at := st_next_fire_at s; st_inflight := st_inflight s;
     st_sequence := st_sequence s; st_queued_runs := st_queued_runs s;
     st_retry_heap := st_retry_heap s; st_retry_sequence := st_retry_sequence s;
     st_payload_calls := st_payload_calls s |}.

Definition with_next_fire (t : option stamp) (s : sched_state) : sched_state :=
  {| st_loop := st_loop s; st_initialized := st_initialized s;
     st_pending_immediate := st_pending_immediate s;
     st_next_fire_at := t; st_inflight := st_inflight s;
     st_sequence := st_sequence s; st_queued_runs := st_queued_runs s;
     st_retry_heap := st_retry_heap s; st_retry_sequence := st_retry_sequence s;
     st_payload_calls := st_payload_calls s |}.

Definition with_inflight (n : Z) (s : sched_state) : sched_state :=
  {| st_loop := st_loop s; st_initialized := st_initialized s;
     st_pending_immediate := st_pending_immediate s;
     st_next_fire_at := st_next_fire_at s; st_inflight := n;
     st_sequence := st_sequence s; st_queued_runs := st_queued_runs s;
     st_retry_heap := st_retry_heap s; st_retry_sequence := st_retry_sequence s;
     st_payload_calls := st_payload_calls s |}.

Definition with_sequence (n : Z) (s : sched_state) : sched_state :=
  {| st_loop := st_loop s; st_initialized := st_initialized s;
     st_pending_immediate := st_pending_immediate s;
     st_next_fire_at := st_next_fire_at s; st_inflight := st_inflight s;
     st_sequence := n; st_queued_runs := st_queued_runs s;
     st_retry_heap := st_retry_heap s; st_retry_sequence := st_retry_sequence s;
     st_payload_calls := st_payload_calls s |}.

Definition with_queued (q : list stamp) (s : sched_state) : sched_state :=
  {| st_loop := st_loop s; st_initialized := st_initialized s;
     st_pending_immediate := st_pending_immediate s;
     st_next_fire_at := st_next_fire_at s; st_inflight := st_inflight s;
     st_sequence := st_sequence s; st_queued_runs := q;
     st_retry_heap := st_retry_heap s; st_retry_sequence := st_retry_sequence s;
     st_payload_calls := st_payload_calls s |}.

Definition with_retries (h : list retry_entry) (n : Z) (s : sched_state) : sched_state :=
  {| st_loop := st_loop s; st_initialized := st_initialized s;
     st_pending_immediate := st_pending_immediate s;
     st_next_fire_at := st_next_fire_at s; st_inflight := st_inflight s;
     st_sequence := st_sequence s; st_queued_runs := st_queued_runs s;
     st_retry_heap := h; st_retry_sequence := n;
     st_payload_calls := st_payload_calls s |}.

Definition with_payload_calls (n : nat) (s : sched_state) : sched_state :=
  {| st_loop := st_loop s; st_initialized := st_initialized s;
     st_pending_immediate := st_pending_immediate s;
     st_next_fire_at := st_next_fire_at s; st_inflight := st_inflight s;
     st_sequence := st_sequence s; st_queued_runs := st_queued_runs s;
     st_retry_heap := st_retry_heap s; st_retry_sequence := st_retry_sequence s;
     st_payload_calls := n |}.

(** ** [heapq] on [(ready_at, sequence, envelope)]

    The heap is its pop order: sorted by ready time, then by sequence
    number (which is unique, so two envelopes are never compared). *)

Definition re_leb (a b : retry_entry) : bool :=
  stamp_ltb (re_ready_at a) (re_ready_at b)
  || stamp_leb (re_ready_at a) (re_ready_at b) && (re_seq a <=? re_seq b)%Z.

Definition re_le (a b : retry_entry) : Prop := re_leb a b = true.

Fixpoint heappush (x : retry_entry) (h : list retry_entry) : list retry_entry :=
  match h with
  | [] => [x]
  | y :: h' => if re_leb x y then x :: h else y :: heappush x h'
  end.

(** ** Construction *)

(** [BaseScheduleSource.__init__]: the checks on [overlap] and
    [max_queued_runs] ([max_queued_runs] is the Python value passed). *)
Definition mk_config (name : string) (pl : payload) (immediate : bool)
    (overlap_text : string) (max_queued_runs : value) (tz : timezone)
    : result exn sched_config :=
  match overlap_of_string overlap_text with
  | None => Err (value_error "overlap must be one of: allow, skip, queue")
  | Some ov =>
      match max_queued_runs with
      | VInt n =>
          _ ← guard_else (negb (n <? 1)%Z) (value_error "max_queued_runs must be >= 1");
          Ok {| sc_name := name; sc_payload := pl; sc_immediate := immediate;
                sc_overlap := ov; sc_max_queued_runs := n; sc_timezone := tz |}
      | _ => Err (type_error "max_queued_runs must be an integer")
      end
  end.

(** The fields [__init__] sets: no lock has been created yet. *)
Definition init_state (cfg : sched_config) : sched_state :=
  {| st_loop := None; st_initialized := false;
     st_pending_immediate := sc_immediate cfg; st_next_fire_at := None;
     st_inflight := 0; st_sequence := 0; st_queued_runs := [];
     st_retry_heap := []; st_retry_sequence := 0; st_payload_calls := 0 |}.

Section Source.
Context {R : Type} `{FireRule R}.
Context (cfg : sched_config) (rule : R).

Abbreviation M := (SE sched_state exn).

(** [_runtime_lock]: a call on another event loop starts over. *)
Definition _runtime_lock (loop : nat) : M unit :=
  se_modify (λ s,
    if bool_decide (st_loop s = Some loop) then s
    else {| st_loop := Some loop; st_initialized := false;
            st_pending_immediate := sc_immediate cfg; st_next_fire_at := None;
            st_inflight := 0; st_sequence := 0; st_queued_runs := [];
            st_retry_heap := []; st_retry_sequence := 0;
            st_payload_calls := st_payload_calls s |}).

(** [_now]. *)
Definition _now (r : clock_reading) : stamp :=
  match r with
  | Aware i => astimezone (sc_timezone cfg) i
  | Naive w f => Stamp w f
  end.

Definition _initialize_locked (now : stamp) : M unit :=
  t ← se_lift (initial_fire_at rule now);
  se_modify (λ s, with_initialized true (with_next_fire (Some t) s)).

Definition open (loop : nat) (r : clock_reading) : M unit :=
  _ ← _runtime_lock loop;
  i ← se_gets st_initialized;
  if i : bool then mret () else _initialize_locked (_now r).

Definition resume_after_pause (loop : nat) (r : clock_reading) : M unit :=
  _ ← _runtime_lock loop;
  let now := _now r in
  _ ← se_modify (λ s, with_queued [] (with_pending false s));
  t ← se_lift (initial_fire_at rule now);
  se_modify (λ s, with_initialized true (with_next_fire (Some t) s)).

(** [_drain_retry_locked]: the loop pops the heap until the head is not
    ready or [limit] deliveries are out. *)
Fixpoint drain_retry (now : stamp) (limit : Z) (h : list retry_entry)
    : list Envelope * list retry_entry :=
  match h with
  | [] => ([], [])
  | x :: h' =>
      if (limit <=? 0)%Z then ([], h)
      else if stamp_ltb now (re_ready_at x) then ([], h)
      else let '(ds, rest) := drain_retry now (limit - 1) h' in
           (re_envelope x :: ds, rest)
  end.

Definition _drain_retry_locked (now : stamp) (limit : Z) : M (list Envelope) :=
  λ s, let '(ds, rest) := drain_retry now limit (st_retry_heap s) in
       (with_inflight (st_inflight s + Z.of_nat (length ds))%Z
          (with_retries rest (st_retry_sequence s) s), Ok ds).

(** [_collect_due_runs_locked]: [fuel] is the number of runs still allowed
    by [max_due]. *)
Fixpoint collect_due (now : stamp) (fuel : nat) : M (list stamp) :=
  match fuel with
  | O => mret []
  | S fuel =>
      nf ← se_gets st_next_fire_at;
      match nf with
      | None => mret []
      | Some t =>
          if stamp_leb t now then
            t' ← se_lift (next_fire_after rule t);
            _ ← se_modify (with_next_fire (Some t'));
            ts ← collect_due now fuel;
            mret (t :: ts)
          else mret []
      end
  end.

Definition max_due : nat := 1000.

Definition _collect_due_runs_locked (now : stamp) : M (list stamp) :=
  collect_due now max_due.

(** [_queue_runs_locked]: the oldest runs make room. *)
Definition _queue_runs_locked (runs : list stamp) : M unit :=
  se_modify (λ s,
    let q := st_queued_runs s ++ runs in
    let overflow := (Z.of_nat (length q) - sc_max_queued_runs cfg)%Z in
    with_queued (drop (Z.to_nat (Z.max 0 overflow)) q) s).

Definition _build_payload : M value :=
  match sc_payload cfg with
  | PConst v => mret v
  | PCall f => λ s, (with_payload_calls (S (st_payload_calls s)) s,
                     f (st_payload_calls s))
  end.

Definition _make_delivery_locked (scheduled_at : stamp) : M Envelope :=
  b ← _build_payload;
  s ← se_get;
  let env :=
    {| body := b;
       meta := [("source", VStr (sc_name cfg));
                ("scheduled_at", VStr (isoformat (sc_timezone cfg) scheduled_at));
                ("sequence", VInt (st_sequence s))];
       attempts := 0 |} in
  _ ← se_modify (λ s, with_inflight (st_inflight s + 1)%Z
                        (with_sequence (st_sequence s + 1)%Z s));
  mret env.

(** [_handle_due_runs_locked]. *)
Definition _handle_due_runs_locked (due : list stamp) (limit : Z)
    : M (list Envelope) :=
  match due with
  | [] => mret []
  | first :: rest =>
      if (limit <? 1)%Z then mret []
      else
        match sc_overlap cfg with
        | ALLOW => se_map _make_delivery_locked (take (Z.to_nat limit) due)
        | SKIP =>
            n ← se_gets st_inflight;
            if (0 <? n)%Z then mret []
            else d ← _make_delivery_locked (List.last due first); mret [d]
        | QUEUE =>
            n ← se_gets st_inflight;
            if (0 <? n)%Z then _ ← _queue_runs_locked due; mret []
            else
              d ← _make_delivery_locked first;
              _ ← (match rest with
                   | [] => mret ()
                   | _ => _queue_runs_locked rest
                   end : M unit);
              mret [d]
        end
  end.

(** The branch of [fetch] that serves the backlog of [overlap="queue"]. *)
Definition fetch_due (now : stamp) (fetch_limit : Z) : M (list Envelope) :=
  s ← se_get;
  match st_queued_runs s with
  | t :: q =>
      if bool_decide (sc_overlap cfg = QUEUE) && (st_inflight s =? 0)%Z then
        _ ← se_modify (with_queued q);
        d ← _make_delivery_locked t;
        mret [d]
      else
        due ← _collect_due_runs_locked now;
        match due with
        | [] => mret []
        | _ => _handle_due_runs_locked due fetch_limit
        end
  | [] =>
      due ← _collect_due_runs_locked now;
      match due with
      | [] => mret []
      | _ => _handle_due_runs_locked due fetch_limit
      end
  end.

(** [fetch]: [r1] is the clock reading of [open], [r2] the one under the
    lock. *)
Definition fetch (loop : nat) (r1 r2 : clock_reading) (limit : Z)
    : M (list Envelope) :=
  _ ← open loop r1;
  let fetch_limit := Z.max 1 limit in
  _ ← _runtime_lock loop;
  let now := _now r2 in
  i ← se_gets st_initialized;
  _ ← (if i : bool then mret () else _initialize_locked now : M unit);
  ds ← _drain_retry_locked now fetch_limit;
  match ds with
  | _ :: _ => mret ds
  | [] =>
      p ← se_gets st_pending_immediate;
      if p : bool then
        _ ← se_modify (with_pending false);
        ids ← _handle_due_runs_locked [now] fetch_limit;
        match ids with
        | _ :: _ => mret ids
        | [] => fetch_due now fetch_limit
        end
      else fetch_due now fetch_limit
  end.

(** [finish_success] and [finish_failure] have the same body. *)
Definition finish_success (loop : nat) : M unit :=
  _ ← _runtime_lock loop;
  se_modify (λ s, with_inflight (Z.max 0 (st_inflight s - 1)) s).

Definition finish_failure (loop : nat) : M unit :=
  _ ← _runtime_lock loop;
  se_modify (λ s, with_inflight (Z.max 0 (st_inflight s - 1)) s).

(** [timedelta(seconds=max(delay_s or 0, 0))] in microseconds; a
    non-finite delay raises. *)
Definition retry_delay_us (d : option float64) : result exn Z :=
  match d with
  | None => Ok 0%Z
  | Some x =>
      let x := if f_truthy x then x else f_zero in
      let x := pymax x f_zero in
      match timedelta_us x with
      | Some us => Ok us
      | None => Err (if is_nan x
                     then value_error "cannot convert float NaN to integer"
                     else overflow_error "cannot convert float infinity to integer")
      end
  end.

Definition finish_retry (loop : nat) (r : clock_reading) (env : Envelope)
    (d : option float64) : M unit :=
  us ← se_lift (retry_delay_us d);
  let ready_at := stamp_add (_now r) us in
  let retry_env :=
    {| body := body env; meta := meta env; attempts := (attempts env + 1)%Z |} in
  _ ← _runtime_lock loop;
  se_modify (λ s,
    let seq := (st_retry_sequence s + 1)%Z in
    with_retries
      (heappush {| re_ready_at := ready_at; re_seq := seq; re_envelope := retry_env |}
                (st_retry_heap s)) seq
      (with_inflight (Z.max 0 (st_inflight s - 1)) s)).

End Source.

(** ** [ScheduleDelivery]

    What the runtime calls on a delivery of the source. *)
Inductive settlement :=
| SAck
| SRetry (delay : option float64)
| SFail.

Definition settle {R} `{FireRule R} (cfg : sched_config) (loop : nat)
    (r : clock_reading) (env : Envelope) (a : settlement)
    : SE sched_state exn unit :=
  match a with
  | SAck => finish_success cfg loop
  | SRetry d => finish_retry cfg loop r env d
  | SFail => finish_failure cfg loop
  end.

(** ** [IntervalSource] *)

(** A validated interval in microseconds. *)
Record interval_rule := IntervalRule {
  interval_us : Z;
  interval_pos : (0 <? interval_us)%Z = true;
}.

(** [IntervalSource.every]: [timedelta(days, hours, minutes, seconds)]. *)
Definition interval_every (days hours minutes seconds : Z) : Z :=
  (days * us_per_day + hours * us_per_hour + minutes * us_per_minute
   + seconds * us_per_second)%Z.

(** [IntervalSource.__init__]: the check on [interval.total_seconds()]. *)
Definition mk_interval (us : Z) : result exn interval_rule :=
  (if (0 <? us)%Z as b return (0 <? us)%Z = b → result exn interval_rule
   then λ H, Ok (IntervalRule us H)
   else λ _, Err (value_error "interval must be greater than zero")) eq_refl.

#[global] Instance interval_fire_rule : FireRule interval_rule := {
  initial_fire_at r now := Ok (stamp_add now (interval_us r));
  next_fire_after r t := Ok (stamp_add t (interval_us r));
}.

(** ** The invariant *)

Record sched_inv (cfg : sched_config) (s : sched_state) : Prop := {
  inv_inflight : (0 ≤ st_inflight s)%Z;
  inv_sequence : (0 ≤ st_sequence s)%Z;
  inv_queue_bound : (Z.of_nat (length (st_queued_runs s)) ≤ sc_max_queued_runs cfg)%Z;
  inv_queue_mode : sc_overlap cfg ≠ QUEUE → st_queued_runs s = [];
  inv_heap_sorted : StronglySorted re_le (st_retry_heap s);
  inv_heap_seq : Forall (λ x, (re_seq x ≤ st_retry_sequence s)%Z) (st_retry_heap s);
  inv_heap_nodup : NoDup (re_seq <$> st_retry_heap s);
  inv_next_fire : st_initialized s = true → is_Some (st_next_fire_at s);
}.

(** One call of a public operation, with any arguments. *)
Inductive sched_op :=
| OpOpen (loop : nat) (r : clock_reading)
| OpFetch (loop : nat) (r1 r2 : clock_reading) (limit : Z)
| OpSettle (loop : nat) (r : clock_reading) (env : Envelope) (a : settlement)
| OpResume (loop : nat) (r : clock_reading).

Definition run_op {R} `{FireRule R} (cfg : sched_config) (rule : R)
    (o : sched_op) (s : sched_state) : sched_state :=
  match o with
  | OpOpen l r => (open cfg rule l r s).1
  | OpFetch l r1 r2 lim => (fetch cfg rule l r1 r2 lim s).1
  | OpSettle l r env a => (settle cfg l r env a s).1
  | OpResume l r => (resume_after_pause cfg rule l r s).1
  end.

(** ** The retry heap *)

Lemma re_leb_total a b : re_leb a b = false → re_le b a.
Proof. unfold re_le, re_leb, stamp_ltb, stamp_leb. lia. Qed.

Lemma re_le_trans a b c : re_le a b → re_le b c → re_le a c.
Proof. unfold re_le, re_leb, stamp_ltb, stamp_leb. lia. Qed.

Lemma heappush_perm x h : heappush x h ≡ₚ x :: h.
Proof.
  induction h as [|y h IH]; simpl; [done|]. case_match; [done|].
  by rewrite IH, Permutation_swap.
Qed.

Lemma heappush_sorted x h :
  StronglySorted re_le h → StronglySorted re_le (heappush x h).
Proof.
  induction h as [|y h IH]; simpl; [by repeat constructor|].
  inversion 1 as [|? ? Hs Hf]; subst. destruct (re_leb x y) eqn:E.
  - constructor; [done|]. constructor; [done|].
    eapply Forall_impl; [exact Hf|]. intros z Hz. by eapply re_le_trans.
  - constructor; [by apply IH|]. rewrite heappush_perm.
    constructor; [by apply re_leb_total | done].
Qed.

(** Popping ready retries splits the heap and respects the limit. *)
Lemma drain_retry_split now limit h ds rest :
  drain_retry now limit h = (ds, rest) →
  ∃ popped, h = popped ++ rest ∧ ds = re_envelope <$> popped ∧
    Forall (λ x, (wall (re_ready_at x) ≤ wall now)%Z) popped ∧
    (Z.of_nat (length ds) ≤ Z.max 0 limit)%Z.
Proof.
  revert limit ds rest. induction h as [|x h IH]; intros limit ds rest; simpl.
  - intros [= <- <-]. exists []. split_and!; simpl; [done..|lia].
  - destruct (limit <=? 0)%Z eqn:El; [|destruct (stamp_ltb now _) eqn:Er].
    + intros [= <- <-]. exists []. split_and!; simpl; [done..|lia].
    + intros [= <- <-]. exists []. split_and!; simpl; [done..|lia].
    + destruct (drain_retry now (limit - 1) h) as [ds' rest'] eqn:E.
      intros [= <- <-]. destruct (IH _ _ _ E) as (p & -> & -> & Hp & Hl).
      exists (x :: p). unfold stamp_ltb in Er. zbool.
      split_and!; simpl; [done | done | by constructor | lia].
Qed.

(** A prefix is popped exactly as far as it is ready. *)
Lemma drain_retry_stops now limit h ds rest x h' :
  drain_retry now limit h = (ds, rest) → rest = x :: h' →
  (Z.of_nat (length ds) < limit)%Z → (wall now < wall (re_ready_at x))%Z.
Proof.
  revert limit ds rest. induction h as [|y h IH]; intros limit ds rest; simpl.
  - by intros [= <- <-].
  - destruct (limit <=? 0)%Z eqn:El; [|destruct (stamp_ltb now _) eqn:Er].
    + intros [= <- <-]. simpl. zbool. lia.
    + intros [= <- <-] [= -> ->] _. unfold stamp_ltb in Er. by zbool.
    + destruct (drain_retry now (limit - 1) h) as [ds' rest'] eqn:E.
      intros [= <- <-] -> Hl. simpl in Hl. eapply IH; [done..|lia].
Qed.

(** ** Preservation *)

Section Preservation.
Context {R : Type} `{FireRule R}.
Context (cfg : sched_config) (rule : R).
Hypothesis Hmax : (1 ≤ sc_max_queued_runs cfg)%Z.

Abbreviation I := (sched_inv cfg).

Ltac keep_inv :=
  let s := fresh "s" in let Hs := fresh "Hs" in
  intros s Hs; destruct Hs; constructor; simpl in *; auto; try lia.

Lemma inv_init : I (init_state cfg).
Proof.
  constructor; simpl; try done; try lia; try constructor.
Qed.

Lemma runtime_lock_inv loop : se_inv I (_runtime_lock cfg loop).
Proof.
  apply se_inv_modify. intros s Hs. case_bool_decide; [done|].
  constructor; simpl; try done; try lia; constructor.
Qed.

Lemma with_pending_inv b s : I s → I (with_pending b s).
Proof. revert s. keep_inv. Qed.

Lemma with_inflight_inv n s : (0 ≤ n)%Z → I s → I (with_inflight n s).
Proof. intros Hn. revert s. keep_inv. Qed.

Lemma with_next_fire_inv t s : I s → I (with_next_fire (Some t) s).
Proof. revert s. keep_inv. Qed.

Lemma initialize_inv t s :
  I s → I (with_initialized true (with_next_fire (Some t) s)).
Proof. revert s. keep_inv. Qed.

Lemma initialize_locked_inv now : se_inv I (_initialize_locked rule now).
Proof.
  apply se_inv_bind; [apply se_inv_lift|]. intros t.
  apply se_inv_modify, initialize_inv.
Qed.

Lemma open_inv loop r : se_inv I (open cfg rule loop r).
Proof.
  apply se_inv_bind; [apply runtime_lock_inv|]. intros _.
  apply se_inv_bind; [apply se_inv_gets|]. intros [];
    [apply se_inv_ret | apply initialize_locked_inv].
Qed.

Lemma resume_inv loop r : se_inv I (resume_after_pause cfg rule loop r).
Proof.
  apply se_inv_bind; [apply runtime_lock_inv|]. intros _.
  apply se_inv_bind.
  { apply se_inv_modify. keep_inv. }
  intros _. apply se_inv_bind; [apply se_inv_lift|]. intros t.
  apply se_inv_modify, initialize_inv.
Qed.

Lemma drain_inv now limit : se_inv I (_drain_retry_locked now limit).
Proof.
  intros s Hs. unfold _drain_retry_locked.
  destruct (drain_retry now limit (st_retry_heap s)) as [ds rest] eqn:E.
  apply drain_retry_split in E as (p & Hp & _ & _ & _).
  destruct Hs as [? ? ? ? Hsort Hseq Hnd ?]. rewrite Hp in Hsort, Hseq, Hnd.
  constructor; simpl; auto; try lia.
  - clear -Hsort. induction p; simpl in Hsort; [done|]. inversion Hsort; auto.
  - by apply Forall_app in Hseq as [_ ?].
  - rewrite fmap_app in Hnd. by apply NoDup_app in Hnd as (_ & _ & ?).
Qed.

Lemma collect_due_inv now fuel : se_inv I (collect_due rule now fuel).
Proof.
  induction fuel as [|fuel IH]; simpl; [apply se_inv_ret|].
  apply se_inv_bind; [apply se_inv_gets|]. intros [t|]; [|apply se_inv_ret].
  destruct (stamp_leb t now); [|apply se_inv_ret].
  apply se_inv_bind; [apply se_inv_lift|]. intros t'.
  apply se_inv_bind; [apply se_inv_modify, with_next_fire_inv|]. intros _.
  apply se_inv_bind; [done|]. intros ts. apply se_inv_ret.
Qed.

Lemma queue_runs_inv runs :
  sc_overlap cfg = QUEUE → se_inv I (_queue_runs_locked cfg runs).
Proof.
  intros Hov. apply se_inv_modify. keep_inv.
  - rewrite length_drop. lia.
  - congruence.
Qed.

Lemma build_payload_inv : se_inv I (_build_payload cfg).
Proof.
  unfold _build_payload. destruct (sc_payload cfg); [apply se_inv_ret|].
  keep_inv.
Qed.

Lemma make_delivery_inv t : se_inv I (_make_delivery_locked cfg t).
Proof.
  apply se_inv_bind; [apply build_payload_inv|]. intros b.
  apply se_inv_bind; [by intros s Hs|]. intros s0.
  apply se_inv_bind; [|intros; apply se_inv_ret].
  apply se_inv_modify. keep_inv.
Qed.

Lemma se_map_make_inv ts : se_inv I (se_map (_make_delivery_locked cfg) ts).
Proof.
  induction ts as [|t ts IH]; simpl; [apply se_inv_ret|].
  apply se_inv_bind; [apply make_delivery_inv|]. intros d.
  apply se_inv_bind; [done|]. intros; apply se_inv_ret.
Qed.

Lemma handle_due_inv due limit : se_inv I (_handle_due_runs_locked cfg due limit).
Proof.
  unfold _handle_due_runs_locked. destruct due as [|t ts]; [apply se_inv_ret|].
  case_match; [apply se_inv_ret|].
  destruct (sc_overlap cfg) eqn:Eo; [apply se_map_make_inv| |];
    (apply se_inv_bind; [apply se_inv_gets|]; intros n; destruct (0 <? n)%Z).
  - apply se_inv_ret.
  - apply se_inv_bind; [apply make_delivery_inv | intros; apply se_inv_ret].
  - apply se_inv_bind; [by apply queue_runs_inv | intros; apply se_inv_ret].
  - apply se_inv_bind; [apply make_delivery_inv|]. intros d.
    apply se_inv_bind; [|intros; apply se_inv_ret].
    destruct ts; [apply se_inv_ret | by apply queue_runs_inv].
Qed.

Lemma fetch_due_inv now limit : se_inv I (fetch_due cfg rule now limit).
Proof.
  intros s Hs. unfold fetch_due.
  assert (Hcollect : I ((due ← _collect_due_runs_locked rule now;
    match due with [] => mret [] | _ => _handle_due_runs_locked cfg due limit end) s).1).
  { revert s Hs. apply se_inv_bind; [apply collect_due_inv|].
    intros [|??]; [apply se_inv_ret | apply handle_due_inv]. }
  unfold mbind at 1, se_bind, se_get. destruct (st_queued_runs s) as [|t q] eqn:Eq; [done|].
  destruct (_ && _) eqn:E; [|done].
  revert s Hs Eq Hcollect E. intros s Hs Eq _ _.
  assert (Hq : I (with_queued q s)).
  { destruct Hs; constructor; simpl in *; auto; rewrite Eq in *; simpl in *; [lia|].
    intros Hne. by specialize (inv_queue_mode0 Hne). }
  pose proof (make_delivery_inv t _ Hq) as Hd.
  unfold mbind, se_bind, se_modify.
  destruct (_make_delivery_locked cfg t (with_queued q s)) as [s' []]; done.
Qed.

Lemma fetch_inv loop r1 r2 limit : se_inv I (fetch cfg rule loop r1 r2 limit).
Proof.
  apply se_inv_bind; [apply open_inv|]. intros _.
  apply se_inv_bind; [apply runtime_lock_inv|]. intros _.
  apply se_inv_bind; [apply se_inv_gets|]. intros i.
  apply se_inv_bind.
  { destruct i; [apply se_inv_ret | apply initialize_locked_inv]. }
  intros _. apply se_inv_bind; [apply drain_inv|]. intros [|d ds]; [|apply se_inv_ret].
  apply se_inv_bind; [apply se_inv_gets|]. intros []; [|apply fetch_due_inv].
  apply se_inv_bind; [apply se_inv_modify, with_pending_inv|]. intros _.
  apply se_inv_bind; [apply handle_due_inv|].
  intros [|? ?]; [apply fetch_due_inv | apply se_inv_ret].
Qed.

Lemma finish_success_inv loop : se_inv I (finish_success cfg loop).
Proof.
  apply se_inv_bind; [apply runtime_lock_inv|]. intros _.
  apply se_inv_modify. intros s Hs. apply with_inflight_inv; [lia|done].
Qed.

Lemma finish_retry_inv loop r env d : se_inv I (finish_retry cfg loop r env d).
Proof.
  apply se_inv_bind; [apply se_inv_lift|]. intros us.
  apply se_inv_bind; [apply runtime_lock_inv|]. intros _.
  apply se_inv_modify. intros s [? ? ? ? Hsort Hseq Hnd ?].
  constructor; simpl; auto; try lia.
  - by apply heappush_sorted.
  - rewrite heappush_perm. constructor; simpl; [lia|].
    eapply Forall_impl; [exact Hseq|]. simpl. lia.
  - rewrite heappush_perm. simpl. apply NoDup_cons. split; [|done].
    intros (x & Hx & Hin)%list_elem_of_fmap.
    rewrite Forall_forall in Hseq. specialize (Hseq x Hin). simpl in *. lia.
Qed.

Lemma run_op_inv o s : I s → I (run_op cfg rule o s).
Proof.
  intros Hs. destruct o as [| |? ? ? []|]; simpl;
    first [by apply open_inv | by apply fetch_inv | by apply resume_inv
          | by apply finish_success_inv | by apply finish_retry_inv].
Qed.
End Preservation.

(** ** What [fetch] returns *)

Section Fetch.
Context {R : Type} `{FireRule R}.
Context (cfg : sched_config) (rule : R).

(** Contract of the steps of [fetch] that start new runs: the retry heap
    is untouched, every returned delivery is counted in flight, and with
    [overlap] other than ["allow"] at most one run starts, and only when
    nothing is in flight. *)
Definition started (limit : Z) (s s' : sched_state) (ds : list Envelope) : Prop :=
  st_retry_heap s' = st_retry_heap s ∧
  st_loop s' = st_loop s ∧
  st_inflight s' = (st_inflight s + Z.of_nat (length ds))%Z ∧
  (Z.of_nat (length ds) ≤ limit)%Z ∧
  (sc_overlap cfg ≠ ALLOW →
    (length ds ≤ 1)%nat ∧ ((0 < st_inflight s)%Z → ds = [])).

Lemma make_delivery_ok t s s' d :
  _make_delivery_locked cfg t s = (s', Ok d) →
  st_retry_heap s' = st_retry_heap s ∧ st_loop s' = st_loop s ∧
  st_inflight s' = (st_inflight s + 1)%Z ∧
  st_queued_runs s' = st_queued_runs s ∧ st_next_fire_at s' = st_next_fire_at s ∧
  attempts d = 0%Z ∧
  meta d = [("source", VStr (sc_name cfg));
            ("scheduled_at", VStr (isoformat (sc_timezone cfg) t));
            ("sequence", VInt (st_sequence s))].
Proof.
  unfold _make_delivery_locked, _build_payload.
  destruct (sc_payload cfg) as [v|f]; [|destruct (f (st_payload_calls s)) eqn:E];
    intros Hm; unfold mbind, se_bind, se_get, se_modify, mret, se_ret in Hm;
    simpl in Hm; rewrite ?E in Hm; simplify_eq/=; split_and!; done.
Qed.

Lemma started_nil limit s : (0 ≤ limit)%Z → started limit s s [].
Proof. intros Hl. unfold started. simpl. split_and!; auto with lia. Qed.

Lemma se_map_make_ok ts s s' ds :
  se_map (_make_delivery_locked cfg) ts s = (s', Ok ds) →
  st_retry_heap s' = st_retry_heap s ∧ st_loop s' = st_loop s ∧
  st_inflight s' = (st_inflight s + Z.of_nat (length ds))%Z ∧
  length ds = length ts.
Proof.
  revert s ds. induction ts as [|t ts IH]; intros s ds; simpl.
  - intros [= <- <-]. simpl. split_and!; try done. lia.
  - intros (s1 & d & Hd & Hm)%se_bind_ok.
    apply se_bind_ok in Hm as (s2 & ds' & Hds & [= <- <-]).
    apply make_delivery_ok in Hd as (? & ? & ? & _).
    apply IH in Hds as (? & ? & ? & ?). simpl. split_and!; congruence || lia.
Qed.

Lemma handle_due_starts due limit s s' ds :
  (0 ≤ limit)%Z → _handle_due_runs_locked cfg due limit s = (s', Ok ds) →
  started limit s s' ds.
Proof.
  intros Hl. unfold _handle_due_runs_locked, started.
  destruct due as [|t ts]; [intros [= <- <-]; by apply started_nil|].
  destruct (limit <? 1)%Z eqn:El; [intros [= <- <-]; by apply started_nil|]. zbool.
  destruct (sc_overlap cfg) eqn:Eo.
  - intros (-> & -> & -> & Hlen)%se_map_make_ok. split_and!; try done.
    rewrite Hlen, length_take. lia.
  - rewrite se_bind_ok. intros (s1 & n & [= <- <-] & Hm).
    destruct (0 <? st_inflight s)%Z eqn:En.
    { injection Hm as <- <-. rewrite <- Eo. by apply started_nil. }
    zbool. apply se_bind_ok in Hm as (s2 & d & Hd & [= <- <-]).
    apply make_delivery_ok in Hd as (-> & -> & -> & _). simpl.
    split_and!; try done; try lia.
  - rewrite se_bind_ok. intros (s1 & n & [= <- <-] & Hm).
    destruct (0 <? st_inflight s)%Z eqn:En; zbool.
    + apply se_bind_ok in Hm as (s2 & [] & [= <-] & [= <- <-]). simpl.
      split_and!; auto with lia.
    + apply se_bind_ok in Hm as (s2 & d & Hd & Hm).
      apply make_delivery_ok in Hd as (Hh & Hlp & Hi & _).
      apply se_bind_ok in Hm as (s3 & [] & Hq & [= <- <-]).
      assert (st_retry_heap s3 = st_retry_heap s2 ∧ st_loop s3 = st_loop s2 ∧
              st_inflight s3 = st_inflight s2) as (-> & -> & ->).
      { destruct ts; unfold _queue_runs_locked, se_modify in Hq;
          unfold mret, se_ret in Hq; by simplify_eq/=. }
      simpl. split_and!; try congruence; lia.
Qed.

Lemma collect_due_frame now fuel s s' ts :
  collect_due rule now fuel s = (s', Ok ts) →
  st_retry_heap s' = st_retry_heap s ∧ st_loop s' = st_loop s ∧
  st_inflight s' = st_inflight s ∧ st_queued_runs s' = st_queued_runs s.
Proof.
  revert s ts. induction fuel as [|fuel IH]; intros s ts; simpl.
  - by intros [= <- <-].
  - rewrite se_bind_ok. intros (s1 & nf & [= <- <-] & Hm).
    destruct (st_next_fire_at s) as [t|]; [|by injection Hm as <- <-].
    destruct (stamp_leb t now); [|by injection Hm as <- <-].
    apply se_bind_ok in Hm as (s2 & t' & Hn & Hm). injection Hn as <- Hn.
    apply se_bind_ok in Hm as (s3 & [] & [= <-] & Hm).
    apply se_bind_ok in Hm as (s4 & ts' & Hc & [= <- <-]).
    by apply IH in Hc.
Qed.

(** Either the backlog of ["queue"] or the runs that are due. *)
Lemma fetch_due_cases now limit s :
  (∃ t q, st_queued_runs s = t :: q ∧ sc_overlap cfg = QUEUE ∧ st_inflight s = 0%Z ∧
     fetch_due cfg rule now limit s =
       (d ← _make_delivery_locked cfg t; mret [d]) (with_queued q s)) ∨
  fetch_due cfg rule now limit s =
    (due ← _collect_due_runs_locked rule now;
     _handle_due_runs_locked cfg due limit) s.
Proof.
  assert (Hd : ∀ s0, (due ← _collect_due_runs_locked rule now;
      match due with [] => mret [] | _ => _handle_due_runs_locked cfg due limit end) s0
    = (due ← _collect_due_runs_locked rule now; _handle_due_runs_locked cfg due limit) s0).
  { intros s0. unfold mbind, se_bind.
    by destruct (_collect_due_runs_locked rule now s0) as [s1 [[]|]]. }
  unfold fetch_due. rewrite !se_get_bind.
  destruct (st_queued_runs s) as [|t q] eqn:Eq; [right; apply Hd|].
  destruct (_ && _) eqn:E; [|right; apply Hd].
  apply andb_true_iff in E as [?%bool_decide_eq_true_1 ?%Z.eqb_eq].
  left. eauto 10.
Qed.

Lemma fetch_due_starts now limit s s' ds :
  (1 ≤ limit)%Z → fetch_due cfg rule now limit s = (s', Ok ds) →
  started limit s s' ds.
Proof.
  intros Hl.
  destruct (fetch_due_cases now limit s) as [(t & q & Hq & Ho & Hi & ->) | ->].
  - intros (s2 & d & Hd & [= <- <-])%se_bind_ok.
    apply make_delivery_ok in Hd as (Hh & Hlp & Hif & _).
    unfold started. simpl in *. split_and!; try done; try lia.
  - intros (s1 & due & Hc & Hm)%se_bind_ok.
    apply collect_due_frame in Hc as (Hh & Hlp & Hi & _).
    apply handle_due_starts in Hm; [|lia].
    unfold started in *. rewrite <- Hh, <- Hlp, <- Hi. done.
Qed.
End Fetch.

Section FetchContract.
Context {R : Type} `{FireRule R}.
Context (cfg : sched_config) (rule : R).

Lemma runtime_lock_same loop s :
  st_loop s = Some loop → _runtime_lock cfg loop s = (s, Ok ()).
Proof. intros Hl. unfold _runtime_lock, se_modify. by rewrite bool_decide_true. Qed.

Lemma open_frame loop r s s' u :
  st_loop s = Some loop → open cfg rule loop r s = (s', Ok u) →
  st_retry_heap s' = st_retry_heap s ∧ st_loop s' = st_loop s ∧
  st_inflight s' = st_inflight s ∧ st_queued_runs s' = st_queued_runs s ∧
  st_pending_immediate s' = st_pending_immediate s ∧ st_initialized s' = true ∧
  (st_initialized s = true → s' = s).
Proof.
  intros Hl. unfold open.
  intros (s1 & [] & Hk & Hm)%se_bind_ok. rewrite runtime_lock_same in Hk by done.
  injection Hk as <-. rewrite se_gets_bind in Hm.
  destruct (st_initialized s) eqn:Ei; [by injection Hm as <- <-|].
  unfold _initialize_locked in Hm.
  apply se_bind_ok in Hm as (s2 & t & [= <- _] & Hm). by injection Hm as <- <-.
Qed.

Lemma started_skip limit s s1 s' ds :
  started cfg limit s s1 [] → started cfg limit s1 s' ds → started cfg limit s s' ds.
Proof.
  unfold started. simpl. rewrite Z.add_0_r.
  intros (-> & -> & -> & _) (? & ? & ? & ? & ?). done.
Qed.

(** [fetch] on the loop the source runs on: ready retries first, new runs
    only when no retry is ready. *)
Lemma fetch_cases loop r1 r2 limit s s' ds :
  st_loop s = Some loop → fetch cfg rule loop r1 r2 limit s = (s', Ok ds) →
  ∃ rs rest, drain_retry (_now cfg r2) (Z.max 1 limit) (st_retry_heap s) = (rs, rest) ∧
    ((rs ≠ [] ∧ ds = rs ∧ st_retry_heap s' = rest ∧
      st_inflight s' = (st_inflight s + Z.of_nat (length ds))%Z) ∨
     (rs = [] ∧ started cfg (Z.max 1 limit) s s' ds)).
Proof.
  intros Hl. unfold fetch.
  intros (s1 & u & Ho & Hm)%se_bind_ok.
  apply (open_frame _ _ _ _ _ Hl) in Ho as (Hh & Hl1 & Hi & _ & _ & Hinit & _).
  apply se_bind_ok in Hm as (s2 & [] & Hk & Hm).
  rewrite runtime_lock_same in Hk by congruence. injection Hk as <-.
  rewrite se_gets_bind, Hinit in Hm.
  apply se_bind_ok in Hm as (s2 & [] & [= <-] & Hm).
  apply se_bind_ok in Hm as (s2 & rs & Hd & Hm).
  unfold _drain_retry_locked in Hd. rewrite Hh in Hd.
  destruct (drain_retry _ _ (st_retry_heap s)) as [ds0 rest] eqn:E.
  injection Hd as <- <-. exists ds0, rest. split; [done|].
  pose proof (drain_retry_split _ _ _ _ _ E) as (p & Hp & Hds & _ & _).
  destruct ds0 as [|d ds0].
  - right. split; [done|]. destruct p; [|done]. simpl in Hp. subst rest.
    match type of Hm with _ ?s2 = _ => set (s2' := s2) in Hm end.
    assert (H2 : started cfg (Z.max 1 limit) s s2' []).
    { unfold started, s2'. simpl. rewrite Hi. split_and!; auto with lia. }
    clearbody s2'. apply (started_skip _ _ _ _ _ H2). clear H2.
    rewrite se_gets_bind in Hm. destruct (st_pending_immediate s2').
    + rewrite se_modify_bind in Hm.
      apply se_bind_ok in Hm as (s3 & ids & Hd & Hm).
      apply handle_due_starts in Hd; [|lia].
      change (started cfg (Z.max 1 limit) s2' s3 ids) in Hd.
      destruct ids; [|by injection Hm as <- <-].
      eapply started_skip; [exact Hd|]. by eapply fetch_due_starts; [lia|].
    + by eapply fetch_due_starts; [lia|].
  - left. injection Hm as <- <-. simpl. rewrite Hi. done.
Qed.
End FetchContract.

(** ** Due runs of any rule *)

#[global] Instance interval_progress : FireRuleProgress interval_rule.
Proof.
  intros [us Hus] t t' [= <-]. simpl. apply Z.ltb_lt in Hus. lia.
Qed.

(** Under a rule that makes progress the collected runs are due and strictly
    later than one another, and the stored firing time ends up after all of
    them. *)
Lemma collect_due_increasing {R} `{FireRuleProgress R} (rule : R) now fuel s t0 s' ts :
  st_next_fire_at s = Some t0 → collect_due rule now fuel s = (s', Ok ts) →
  StronglySorted (λ a b, (wall a < wall b)%Z) ts ∧
  Forall (λ t, (wall t0 ≤ wall t ≤ wall now)%Z) ts ∧
  ∃ t', st_next_fire_at s' = Some t' ∧ (wall t0 ≤ wall t')%Z ∧
        Forall (λ t, (wall t < wall t')%Z) ts ∧
        ((length ts < fuel)%nat → (wall now < wall t')%Z).
Proof.
  revert s t0 ts. induction fuel as [|fuel IH]; intros s t0 ts Ht0; simpl.
  - intros [= <- <-]. split_and!; try constructor. exists t0. split_and!; auto with lia.
  - rewrite se_gets_bind, Ht0. destruct (stamp_leb t0 now) eqn:E.
    + intros (s1 & t1 & [= <- Hn] & Hm)%se_bind_ok.
      rewrite se_modify_bind in Hm.
      apply se_bind_ok in Hm as (s2 & ts' & Hc & [= <- <-]).
      pose proof (next_fire_later _ _ _ Hn) as Hlt. apply stamp_leb_le in E.
      destruct (IH (with_next_fire (Some t1) s) t1 ts' eq_refl Hc)
        as (Hs & Hf & t' & Ht' & Hle & Hall & Hend).
      split_and!.
      * constructor; [done|]. eapply Forall_impl; [exact Hf|]. simpl. lia.
      * constructor; [lia|]. eapply Forall_impl; [exact Hf|]. simpl. lia.
      * exists t'. split_and!; [done | lia | constructor; [lia|done] | simpl; lia].
    + intros [= <- <-]. split_and!; try constructor.
      exists t0. unfold stamp_leb in E. zbool. split_and!; auto with lia.
Qed.

(** ** Runs of an interval *)

Lemma mk_interval_ok us rule :
  mk_interval us = Ok rule → interval_us rule = us ∧ (0 < us)%Z.
Proof.
  unfold mk_interval.
  generalize (eq_refl (0 <? us)%Z). destruct (0 <? us)%Z at 2 3; intros H [= <-].
  split; [done | by apply Z.ltb_lt].
Qed.

(** Collecting from [t0]: consecutive firing times, and the next one is past
    [now] unless the bound stopped the loop. *)
Lemma collect_due_interval cfg_i now fuel s t0 :
  (0 < interval_us cfg_i)%Z → st_next_fire_at s = Some t0 →
  ∃ s' ts, collect_due cfg_i now fuel s = (s', Ok ts) ∧
    (length ts ≤ fuel)%nat ∧
    (∀ k t, ts !! k = Some t →
       wall t = (wall t0 + Z.of_nat k * interval_us cfg_i)%Z ∧ (wall t ≤ wall now)%Z) ∧
    (∃ t', st_next_fire_at s' = Some t' ∧
       wall t' = (wall t0 + Z.of_nat (length ts) * interval_us cfg_i)%Z ∧
       (length ts = fuel ∨ (wall now < wall t')%Z)).
Proof.
  intros Hpos. revert s t0. induction fuel as [|fuel IH]; intros s t0 Ht; simpl.
  - eexists s, []. split_and!; [done | simpl; lia | intros ? ?; by rewrite lookup_nil |].
    exists t0. split_and!; [done | simpl; lia | by left].
  - rewrite se_gets_bind, Ht. destruct (stamp_leb t0 now) eqn:E; simpl.
    + destruct (IH (with_next_fire (Some (stamp_add t0 (interval_us cfg_i))) s)
        (stamp_add t0 (interval_us cfg_i)) eq_refl) as (s' & ts & Hc & Hlen & Hts & Hn).
      unfold mbind, se_bind, se_lift, se_modify. rewrite Hc.
      exists s', (t0 :: ts). apply stamp_leb_le in E.
      split_and!; [done | simpl; lia | |].
      * intros [|k] t; simpl; [intros [= <-]; split; lia|].
        intros [Hw ?]%Hts. rewrite Hw. simpl. split; [lia|]. simpl in Hw. lia.
      * destruct Hn as (t' & ? & Hw & Hor). exists t'. rewrite Hw. simpl.
        split_and!; [done | lia | destruct Hor; [left; lia | right; simpl in *; lia]].
    + eexists s, []. split_and!; [done | simpl; lia | intros ? ?; by rewrite lookup_nil |].
      exists t0. split_and!; [done | simpl; lia | right].
      unfold stamp_leb in E. by zbool.
Qed.

(** ** Properties *)

(** Whatever sequence of calls a source receives, on whatever event loops
    and clock readings, its in-flight count is never negative, the backlog
    never exceeds [max_queued_runs] and stays empty unless [overlap] is
    ["queue"], the retry heap stays ordered with distinct sequence numbers,
    and an initialised source has a next firing time. *)
Theorem schedule_invariant {R} `{FireRule R} name pl imm ov n tz cfg (rule : R) ops :
  mk_config name pl imm ov n tz = Ok cfg →
  sched_inv cfg (foldl (λ s o, run_op cfg rule o s) (init_state cfg) ops).
Proof.
  intros Hmk.
  assert (Hmax : (1 ≤ sc_max_queued_runs cfg)%Z).
  { unfold mk_config in Hmk. destruct (overlap_of_string ov); [|done].
    destruct n; try done. autorewrite with onestep in Hmk.
    destruct Hmk as ([] & Hn & [= <-]). rewrite guard_else_ok in Hn. zbool. simpl. lia. }
  clear Hmk. generalize (init_state cfg) (inv_init cfg Hmax).
  induction ops as [|o ops IH]; intros s Hs; simpl; [done|].
  apply IH. by apply run_op_inv.
Qed.

Definition example_config (ov : overlap) : sched_config :=
  {| sc_name := "tick"; sc_payload := PConst (VStr "go"); sc_immediate := true;
     sc_overlap := ov; sc_max_queued_runs := 2; sc_timezone := fixed_zone 0 |}.

(** A 5 second interval, in microseconds. *)
Definition five_seconds : interval_rule := IntervalRule 5000000 eq_refl.

Lemma schedule_invariant_witness :
  let s := foldl (λ s o, run_op (example_config QUEUE) five_seconds o s)
             (init_state (example_config QUEUE))
             [OpFetch 1 (Aware 0) (Aware 0) 1; OpFetch 1 (Aware 60000000) (Aware 60000000) 1] in
  sched_inv (example_config QUEUE) s ∧ length (st_queued_runs s) = 2%nat.
Proof.
  split; [|vm_compute; reflexivity].
  apply (schedule_invariant "tick" (PConst (VStr "go")) true "queue" (VInt 2) (fixed_zone 0)).
  vm_compute. reflexivity.
Defined.

(** [fetch] hands out at most [max(1, limit)] deliveries and counts each
    of them in flight; retries are served first, in the order they became
    ready, none is dropped, and a retry that is ready is left behind only
    when the limit is reached. *)
Theorem fetch_contract {R} `{FireRule R} cfg (rule : R) loop r1 r2 limit s s' ds :
  sched_inv cfg s → st_loop s = Some loop →
  fetch cfg rule loop r1 r2 limit s = (s', Ok ds) →
  (Z.of_nat (length ds) ≤ Z.max 1 limit)%Z ∧
  st_inflight s' = (st_inflight s + Z.of_nat (length ds))%Z ∧
  (∃ popped, st_retry_heap s = popped ++ st_retry_heap s' ∧
     (popped ≠ [] → ds = re_envelope <$> popped) ∧
     Forall (λ x, (wall (re_ready_at x) ≤ wall (_now cfg r2))%Z) popped) ∧
  ((Z.of_nat (length ds) < Z.max 1 limit)%Z →
     Forall (λ x, (wall (_now cfg r2) < wall (re_ready_at x))%Z) (st_retry_heap s')).
Proof.
  intros Hinv Hl Hf.
  destruct (fetch_cases _ _ _ _ _ _ _ _ _ Hl Hf) as (rs & rest & Hd & Hcase).
  destruct (drain_retry_split _ _ _ _ _ Hd) as (p & Hp & Hrs & Hready & Hlen).
  assert (Hrest : (Z.of_nat (length rs) < Z.max 1 limit)%Z →
    Forall (λ x, (wall (_now cfg r2) < wall (re_ready_at x))%Z) rest).
  { intros Hlt. destruct rest as [|x rest]; [constructor|].
    pose proof (drain_retry_stops _ _ _ _ _ _ _ Hd eq_refl Hlt) as Hx.
    destruct Hinv as [_ _ _ _ Hsort _ _ _]. rewrite Hp in Hsort.
    assert (Hsort' : StronglySorted re_le (x :: rest)).
    { clear -Hsort. induction p; simpl in Hsort; [done|]. inversion Hsort; auto. }
    inversion Hsort' as [|? ? _ Hall]; subst. constructor; [done|].
    eapply Forall_impl; [exact Hall|]. unfold re_le, re_leb, stamp_ltb, stamp_leb. lia. }
  destruct Hcase as [(Hne & -> & Hh & Hi) | (-> & Hst)].
  - split_and!; [lia | done | | by rewrite Hh].
    exists p. split_and!; [by rewrite Hh | by intros _ | done].
  - destruct Hst as (Hh & _ & Hi & Hlim & _).
    destruct p; [|done]. simpl in Hp. subst rest.
    split_and!; [done | done | | rewrite Hh; intros _; apply Hrest; simpl; lia].
    exists []. by rewrite Hh.
Qed.

Lemma fetch_contract_witness :
  let cfg := example_config SKIP in
  let s := foldl (λ s o, run_op cfg five_seconds o s) (init_state cfg)
             [OpFetch 1 (Aware 0) (Aware 0) 1;
              OpSettle 1 (Aware 0) (envelope_of_body VNone) (SRetry (Some f_two))] in
  ∃ s' ds, fetch cfg five_seconds 1 (Aware 2000000) (Aware 2000000) 1 s = (s', Ok ds)
    ∧ (Z.of_nat (length ds) ≤ Z.max 1 1)%Z ∧ attempts <$> ds = [1%Z].
Proof.
  intros cfg s. eexists _, _. split; [vm_compute; reflexivity|]. split.
  - refine (proj1 (fetch_contract cfg five_seconds 1 (Aware 2000000) (Aware 2000000) 1 s _ _ _ _ _)).
    + apply (schedule_invariant "tick" (PConst (VStr "go")) true "skip" (VInt 2) (fixed_zone 0)).
      vm_compute; reflexivity.
    + vm_compute; reflexivity.
    + vm_compute; reflexivity.
  - vm_compute; reflexivity.
Defined.

(** With [overlap] ["skip"] or ["queue"] a scheduled run never starts
    while another delivery of the source is in flight: all such a [fetch]
    can return are retries that were waiting in the heap. *)
Theorem no_overlapping_start {R} `{FireRule R} cfg (rule : R) loop r1 r2 limit s s' ds :
  sc_overlap cfg ≠ ALLOW → st_loop s = Some loop → (0 < st_inflight s)%Z →
  fetch cfg rule loop r1 r2 limit s = (s', Ok ds) →
  ∃ popped, st_retry_heap s = popped ++ st_retry_heap s' ∧ ds = re_envelope <$> popped.
Proof.
  intros Hov Hl Hi Hf.
  destruct (fetch_cases _ _ _ _ _ _ _ _ _ Hl Hf) as (rs & rest & Hd & Hcase).
  destruct (drain_retry_split _ _ _ _ _ Hd) as (p & Hp & Hrs & _ & _).
  destruct Hcase as [(_ & -> & -> & _) | (-> & Hst)]; [by exists p|].
  destruct Hst as (Hh & _ & _ & _ & Hno). destruct (Hno Hov) as [_ Hnil].
  exists []. rewrite Hh. by rewrite (Hnil Hi).
Qed.

Lemma no_overlapping_start_witness :
  let cfg := example_config SKIP in
  let s := foldl (λ s o, run_op cfg five_seconds o s) (init_state cfg)
             [OpFetch 1 (Aware 0) (Aware 0) 1] in
  ∃ s' ds, fetch cfg five_seconds 1 (Aware 60000000) (Aware 60000000) 7 s = (s', Ok ds) ∧
    (∃ popped, st_retry_heap s = popped ++ st_retry_heap s' ∧ ds = re_envelope <$> popped).
Proof.
  intros cfg s. eexists _, _. split; [vm_compute; reflexivity|].
  apply (no_overlapping_start cfg five_seconds 1 (Aware 60000000) (Aware 60000000) 7);
    [discriminate | vm_compute; reflexivity | vm_compute; reflexivity
    | vm_compute; reflexivity].
Defined.

(** The retry path does not look at [overlap]: there is a run of an
    [overlap="skip"] source in which a run and the retry of an earlier run
    are in flight together. *)
Theorem skip_retry_overlaps :
  let cfg := example_config SKIP in
  let s := foldl (λ s o, run_op cfg five_seconds o s) (init_state cfg)
             [OpFetch 1 (Aware 0) (Aware 0) 1;
              OpSettle 1 (Aware 1000000) (envelope_of_body VNone) (SRetry (Some (float_of_Z 10)));
              OpFetch 1 (Aware 5000000) (Aware 5000000) 2;
              OpFetch 1 (Aware 11000000) (Aware 11000000) 2] in
  st_inflight s = 2%Z.
Proof. vm_compute. reflexivity. Qed.

(** The runs an interval source finds due are exactly consecutive points
    of its grid: the [k]-th is [k] intervals after the stored firing time,
    all are due, the stored time moves on by that many intervals (no drift),
    and unless 1000 runs were collected nothing due is left. *)
Theorem interval_no_drift us rule now s t0 :
  mk_interval us = Ok rule → st_next_fire_at s = Some t0 →
  ∃ s' ts t', _collect_due_runs_locked rule now s = (s', Ok ts) ∧
    (length ts ≤ 1000)%nat ∧
    (∀ k t, ts !! k = Some t →
      wall t = (wall t0 + Z.of_nat k * us)%Z ∧ (wall t ≤ wall now)%Z) ∧
    st_next_fire_at s' = Some t' ∧
    wall t' = (wall t0 + Z.of_nat (length ts) * us)%Z ∧
    (length ts = 1000%nat ∨ (wall now < wall t')%Z).
Proof.
  intros [<- Hpos]%mk_interval_ok Ht0.
  destruct (collect_due_interval rule now max_due s t0 Hpos Ht0)
    as (s' & ts & Hc & Hlen & Hts & t' & Ht' & Hw & Hor).
  exists s', ts, t'. done.
Qed.

Lemma interval_no_drift_witness :
  ∃ s' ts t',
    _collect_due_runs_locked five_seconds (Stamp 17000000 false)
      (with_next_fire (Some (Stamp 5000000 false)) (init_state (example_config SKIP)))
      = (s', Ok ts) ∧ wall <$> ts = [5000000; 10000000; 15000000]%Z ∧
    st_next_fire_at s' = Some t' ∧ wall t' = 20000000%Z.
Proof.
  destruct (interval_no_drift 5000000 five_seconds (Stamp 17000000 false)
    (with_next_fire (Some (Stamp 5000000 false)) (init_state (example_config SKIP)))
    (Stamp 5000000 false)) as (s' & ts & t' & Hc & _ & _ & Hn & Hw & _);
    [vm_compute; reflexivity | reflexivity|].
  exists s', ts, t'.
  assert (Hts : ts = [Stamp 5000000 false; Stamp 10000000 false; Stamp 15000000 false]).
  { vm_compute in Hc. injection Hc as _ <-. reflexivity. }
  subst ts. split_and!; [exact Hc | reflexivity | exact Hn | rewrite Hw; reflexivity].
Defined.

(** The policies of [docs/broker/cron.md], as relations: of the runs that wait
    in the backlog and those that are triggered now, which start and which
    wait.  ["allow"] starts every triggered run, whatever is in flight;
    ["skip"] starts one, the latest, and none while a run is in flight;
    ["queue"] starts one when none is in flight, always the one that waits
    longest, keeps the order, and loses only the oldest runs and only when
    the backlog is full. *)
Record overlap_policy (ov : overlap) (max : Z) (busy : bool)
    (queued triggered started backlog : list stamp) : Prop := {
  policy_allow : ov = ALLOW → started = triggered ∧ backlog = queued;
  policy_skip : ov = SKIP →
    started = (if busy then [] else option_list (last triggered)) ∧ backlog = queued;
  policy_queue : ov = QUEUE →
    length started = (if busy then 0 else Nat.min 1 (length (queued ++ triggered)))%nat ∧
    (Z.of_nat (length backlog) ≤ max)%Z ∧
    ∃ lost, started ++ lost ++ backlog = queued ++ triggered ∧
            (lost ≠ [] → Z.of_nat (length backlog) = max);
}.

(** The runs that a fetch takes note of: none while it serves the backlog. *)
Definition triggers {R} `{FireRule R} (cfg : sched_config) (rule : R) (now : stamp) (s : sched_state)
    : sched_state * result exn (list stamp) :=
  if bool_decide (sc_overlap cfg = QUEUE ∧ st_inflight s = 0%Z ∧ st_queued_runs s ≠ []) then (s, Ok [])
  else _collect_due_runs_locked rule now s.

Definition bounded_backlog (max : Z) (q : list stamp) : list stamp :=
  drop (length q - Z.to_nat max) q.

(** Bounding the backlog loses its oldest runs, when it is full. *)
Lemma bounded_backlog_spec max q :
  (0 ≤ max)%Z →
  (Z.of_nat (length (bounded_backlog max q)) ≤ max)%Z ∧
  ∃ lost, lost ++ bounded_backlog max q = q ∧
          (lost ≠ [] → Z.of_nat (length (bounded_backlog max q)) = max).
Proof.
  intros Hmax. unfold bounded_backlog. rewrite length_drop. split; [lia|].
  exists (take (length q - Z.to_nat max) q). rewrite take_drop. split; [done|].
  destruct (length q - Z.to_nat max)%nat as [|n] eqn:E; [done|]. intros _. lia.
Qed.

Lemma drop_overflow max (q : list stamp) :
  (0 ≤ max)%Z →
  drop (Z.to_nat (Z.max 0 (Z.of_nat (length q) - max))) q = bounded_backlog max q.
Proof. intros. unfold bounded_backlog. f_equal. lia. Qed.

Lemma last_default {A} (x : A) l : last (x :: l) = Some (List.last (x :: l) x).
Proof.
  assert (Hg : ∀ l (x y : A), last (x :: l) = Some (List.last (x :: l) y)).
  { clear. induction l as [|z l IH]; intros x y; [done|].
    change (last (x :: z :: l)) with (last (z :: l)). by rewrite (IH z y). }
  apply Hg.
Qed.

(** The scheduled time a delivery carries. *)
Definition scheduled_at (env : Envelope) : option value :=
  dict_get "scheduled_at" (meta env).

Lemma make_delivery_const cfg v t s :
  sc_payload cfg = PConst v →
  ∃ s' d, _make_delivery_locked cfg t s = (s', Ok d) ∧
    scheduled_at d = Some (VStr (isoformat (sc_timezone cfg) t)) ∧
    st_queued_runs s' = st_queued_runs s.
Proof.
  intros Hp. unfold _make_delivery_locked, _build_payload. rewrite Hp.
  eexists _, _. split; [reflexivity|]. done.
Qed.

Lemma se_map_make_const cfg v ts s :
  sc_payload cfg = PConst v →
  ∃ s' ds, se_map (_make_delivery_locked cfg) ts s = (s', Ok ds) ∧
    scheduled_at <$> ds = (λ t, Some (VStr (isoformat (sc_timezone cfg) t))) <$> ts ∧
    st_queued_runs s' = st_queued_runs s.
Proof.
  intros Hp. revert s. induction ts as [|t ts IH]; intros s; simpl; [eauto|].
  destruct (make_delivery_const cfg v t s Hp) as (s1 & d & Hd & Hs & Hq).
  destruct (IH s1) as (s2 & ds & Hds & Hss & Hqs).
  exists s2, (d :: ds). unfold mbind, se_bind. rewrite Hd, Hds.
  split_and!; [done | by rewrite !fmap_cons, Hs, Hss | congruence].
Qed.

Lemma handle_due_policy cfg v due limit s :
  (0 ≤ sc_max_queued_runs cfg)%Z → sc_payload cfg = PConst v → (1 ≤ limit)%Z → (0 ≤ st_inflight s)%Z →
  (sc_overlap cfg = ALLOW → Z.of_nat (length due) ≤ limit)%Z →
  (sc_overlap cfg = QUEUE → (Z.of_nat (length (st_queued_runs s)) ≤ sc_max_queued_runs cfg)%Z ∧
                            (st_inflight s = 0%Z → st_queued_runs s = [])) →
  ∃ s' ds started, _handle_due_runs_locked cfg due limit s = (s', Ok ds) ∧
    scheduled_at <$> ds = (λ t, Some (VStr (isoformat (sc_timezone cfg) t))) <$> started ∧
    overlap_policy (sc_overlap cfg) (sc_max_queued_runs cfg) (0 <? st_inflight s)%Z
      (st_queued_runs s) due started (st_queued_runs s').
Proof.
  intros Hmax Hp Hlim Hin Hallow Hqueue. unfold _handle_due_runs_locked.
  destruct due as [|t ts].
  { exists s, [], []. split_and!; [done..|]. split; [done| |].
    - intros _. by destruct (0 <? _)%Z.
    - intros Ho. destruct (Hqueue Ho) as [Hb Hi]. rewrite app_nil_r. split_and!; [|done|by exists []].
      destruct (0 <? st_inflight s)%Z eqn:E; [done|]. rewrite Hi by lia. done. }
  rewrite (proj2 (Z.ltb_ge _ _)) by lia.
  destruct (sc_overlap cfg) eqn:Eo.
  - rewrite take_ge by (specialize (Hallow eq_refl); lia).
    destruct (se_map_make_const cfg v (t :: ts) s Hp) as (s' & ds & Hm & Hs & Hq).
    exists s', ds, (t :: ts). split_and!; [done..|]. by split.
  - rewrite se_gets_bind. destruct (0 <? st_inflight s)%Z.
    { exists s, [], []. split_and!; [done..|]. by split. }
    destruct (make_delivery_const cfg v (List.last (t :: ts) t) s Hp) as (s' & d & Hm & Hs & Hq).
    exists s', [d], [List.last (t :: ts) t]. unfold mbind, se_bind. rewrite Hm.
    split_and!; [done | by cbn; rewrite Hs |]. split; [done| |done]. intros _. by rewrite last_default.
  - destruct (Hqueue eq_refl) as [_ Hi]. rewrite se_gets_bind. destruct (0 <? st_inflight s)%Z eqn:E.
    { eexists _, [], []. split_and!; [done..|]. split; [done..|]. intros _. simpl.
      rewrite drop_overflow by done.
      destruct (bounded_backlog_spec (sc_max_queued_runs cfg) (st_queued_runs s ++ t :: ts) Hmax) as (H1 & H2).
      by split_and!. }
    rewrite Hi by lia. destruct (make_delivery_const cfg v t s Hp) as (s' & d & Hm & Hs & Hq).
    rewrite Hi in Hq by lia. unfold mbind at 1, se_bind at 1. rewrite Hm. destruct ts as [|t' ts].
    + exists s', [d], [t]. split_and!; [done | by cbn; rewrite Hs |]. split; [done..|]. intros _. rewrite Hq.
      split_and!; [done | cbn; lia | by exists []].
    + eexists _, [d], [t]. split_and!; [reflexivity | by cbn; rewrite Hs |]. split; [done..|]. intros _. simpl.
      rewrite Hq, app_nil_l, drop_overflow by done.
      destruct (bounded_backlog_spec (sc_max_queued_runs cfg) (t' :: ts) Hmax) as (H1 & lost & H2 & H3).
      split_and!; [done | done |]. exists lost. split; [|done]. exact (f_equal (cons t) H2).
Qed.



(** With ["allow"], of three runs that are due a fetch of one starts the oldest,
    and the next fetch starts none. *)
Example allow_forgets_runs :
  let cfg := example_config ALLOW in
  let s := foldl (λ s o, run_op cfg five_seconds o s) (init_state cfg) [OpOpen 1 (Aware 0)] in
  let now := _now cfg (Aware 17000000) in
  let '(s1, first) := fetch_due cfg five_seconds now 1 s in
  let '(s2, second) := fetch_due cfg five_seconds now 1 s1 in
  (length <$> match first with Ok ds => Some ds | Err _ => None end) = Some 1%nat ∧
  match triggers cfg five_seconds now s with (_, Ok ts) => length ts = 3%nat | _ => False end ∧
  second = Ok [] ∧ st_queued_runs s2 = [].
Proof. vm_compute. split_and!; reflexivity. Qed.

(** A zone whose clocks go back by [shift] at the instant [t]. *)
Definition falling_back (t off shift : Z) : timezone :=
  {| offset_at := λ i, if (i <? t)%Z then off else (off - shift)%Z;
     fold_at := λ i, (t <=? i)%Z && (i <? t + shift)%Z;
     offset_wall := λ s, if (wall s <? t + off - shift)%Z then off
                         else if (wall s <? t + off)%Z
                              then (if fold s then off - shift else off)%Z
                              else (off - shift)%Z |}.

(** An interval is measured on the wall clock of the zone: when the
    clocks go back by [shift] after a run that fired at instant [i0], the
    next run becomes due only [interval + shift] later, and every poll in
    between returns nothing. *)
Theorem interval_stalls_on_fall_back cfg us rule t off shift i0 i loop limit s :
  mk_interval us = Ok rule →
  sc_timezone cfg = falling_back t off shift →
  st_loop s = Some loop → st_initialized s = true →
  st_pending_immediate s = false → st_queued_runs s = [] → st_retry_heap s = [] →
  st_next_fire_at s = Some (stamp_add (astimezone (sc_timezone cfg) i0) us) →
  (i0 < t)%Z → (t ≤ i)%Z → (i < i0 + us + shift)%Z →
  fetch cfg rule loop (Aware i) (Aware i) limit s = (s, Ok []).
Proof.
  intros Hr Htz Hl Hinit Hpend Hq Hh Hnext Hi0 Hi Hlate.
  assert (Hopen : open cfg rule loop (Aware i) s = (s, Ok ())).
  { unfold open, mbind, se_bind. rewrite runtime_lock_same by done.
    unfold se_gets. by rewrite Hinit. }
  unfold fetch. unfold mbind at 1, se_bind at 1. rewrite Hopen.
  unfold mbind at 1, se_bind at 1. rewrite runtime_lock_same by done.
  rewrite se_gets_bind, Hinit. unfold mbind at 1, se_bind at 1, mret at 1, se_ret at 1.
  unfold mbind at 1, se_bind at 1, _drain_retry_locked. rewrite Hh. cbn [drain_retry].
  assert (Hs : with_inflight (st_inflight s + 0) (with_retries [] (st_retry_sequence s) s) = s).
  { destruct s; simpl in *. subst. unfold with_inflight, with_retries. simpl.
    by rewrite Z.add_0_r. }
  change (Z.of_nat (length (@nil Envelope))) with 0%Z. rewrite Hs, se_gets_bind, Hpend.
  destruct (fetch_due_cases cfg rule (astimezone (sc_timezone cfg) i) (Z.max 1 limit) s)
    as [(? & ? & Heq & _) | Heq]; [congruence|].
  change (_now cfg (Aware i)) with (astimezone (sc_timezone cfg) i). rewrite Heq.
  unfold _collect_due_runs_locked, max_due. change 1000%nat with (S 999).
  cbn [collect_due]. rewrite Htz in Hnext |- *.
  unfold mbind at 1, se_bind at 1. rewrite se_gets_bind, Hnext.
  assert (stamp_leb (stamp_add (astimezone (falling_back t off shift) i0) us)
            (astimezone (falling_back t off shift) i) = false) as ->.
  { unfold stamp_leb, stamp_add, astimezone, falling_back. simpl.
    rewrite (proj2 (Z.ltb_lt i0 t)) by lia. rewrite (proj2 (Z.ltb_ge i t)) by lia. lia. }
  done.
Qed.

(** A one minute interval in a zone that leaves daylight saving time one
    hour after the epoch: 59 minutes after the last run there is still
    nothing to do. *)
Lemma interval_stalls_on_fall_back_witness :
  let cfg := {| sc_name := "minute"; sc_payload := PConst VNone; sc_immediate := false;
                sc_overlap := ALLOW; sc_max_queued_runs := 1000;
                sc_timezone := falling_back us_per_hour us_per_hour us_per_hour |} in
  let s := foldl (λ s o, run_op cfg (IntervalRule us_per_minute eq_refl) o s) (init_state cfg)
             [OpOpen 1 (Aware (us_per_hour - 1))] in
  let late := (us_per_hour + 59 * us_per_minute)%Z in
  fetch cfg (IntervalRule us_per_minute eq_refl) 1 (Aware late) (Aware late) 5 s = (s, Ok []).
Proof.
  intros cfg s late.
  apply (interval_stalls_on_fall_back cfg us_per_minute (IntervalRule us_per_minute eq_refl)
    us_per_hour us_per_hour us_per_hour (us_per_hour - 1) late);
    first [reflexivity | vm_compute; reflexivity | vm_compute; discriminate].
Defined.
