(* ===== verification/Cron.v ===== *)
(** * Cron schedules ([onestep/connectors/schedule.py])

    [CronField] (one field of an expression, parsed to the set of its
    values), [CronSchedule] (five fields, the matching rule and the search
    for the next firing minute) and the firing rule of [CronSource].  A
    schedule works on wall clocks of its own zone: [dt.astimezone(self.timezone)]
    is the identity on the times a [CronSource] hands to it. *)

Set Warnings "-clear-no-such-hyp".
From stdpp Require Import base option list strings numbers gmap.
From Stdlib Require Import ZArith Lia Ascii.
From S2P Require Import Prelude PyFloat Value Calendar Schedule.

Definition MONTH_NAMES : list (string * Z) :=
  [("jan", 1); ("feb", 2); ("mar", 3); ("apr", 4); ("may", 5); ("jun", 6);
   ("jul", 7); ("aug", 8); ("sep", 9); ("oct", 10); ("nov", 11); ("dec", 12)]%Z.

Definition DOW_NAMES : list (string * Z) :=
  [("sun", 0); ("mon", 1); ("tue", 2); ("wed", 3); ("thu", 4); ("fri", 5);
   ("sat", 6)]%Z.

Definition CRON_ALIASES : list (string * string) :=
  [("@hourly", "0 * * * *"); ("@daily", "0 0 * * *"); ("@weekly", "0 0 * * 0");
   ("@monthly", "0 0 1 * *"); ("@yearly", "0 0 1 1 *")].

(** ** Fields *)

Record field_spec := {
  fs_minimum : Z;
  fs_maximum : Z;
  fs_names : list (string * Z);
  fs_sunday_as_zero : bool;
}.

Record CronField := {
  cf_any : bool;
  cf_values : gset Z;
}.

(** [set(range(start, end + 1, step))]. *)
Definition range_step (start end_ step : Z) : gset Z :=
  list_to_set ((λ k, start + Z.of_nat k * step)%Z <$>
    seq 0 (Z.to_nat ((end_ - start) / step + 1))).

Definition int_or_error (s : string) : result exn Z :=
  match py_int s with
  | Some n => Ok n
  | None => Err (value_error ("invalid literal for int() with base 10: '" +:+ s +:+ "'"))
  end.

(** [CronField._parse_value]. *)
Definition _parse_value (sp : field_spec) (v : string) : result exn Z :=
  parsed ← (match dict_get (lower v) (fs_names sp) with
            | Some n => Ok n
            | None => int_or_error v
            end);
  let parsed := if fs_sunday_as_zero sp && (parsed =? 7)%Z then 0%Z else parsed in
  if (parsed <? fs_minimum sp)%Z || (fs_maximum sp <? parsed)%Z
  then Err (value_error ("cron value '" +:+ v +:+ "' is outside "
              +:+ str_of_Z (fs_minimum sp) +:+ "-" +:+ str_of_Z (fs_maximum sp)))
  else Ok parsed.

Definition invalid_range (chunk : string) : exn :=
  value_error ("invalid cron range: " +:+ chunk).

(** [CronField._parse_chunk]. *)
Definition _parse_chunk (sp : field_spec) (chunk : string) : result exn (gset Z) :=
  if negb (str_nonempty chunk) then Err (value_error "empty cron field chunk")
  else if String.eqb chunk "*"
  then Ok (range_step (fs_minimum sp) (fs_maximum sp) 1)
  else match split_first "/" chunk with
  | Some (base, step_text) =>
      step ← int_or_error step_text;
      _ ← guard_else (negb (step <=? 0)%Z) (value_error "cron step must be > 0");
      '(start, end_) ←
        (if String.eqb base "*" then Ok (fs_minimum sp, fs_maximum sp)
         else match split_first "-" base with
         | Some (start_text, end_text) =>
             start ← _parse_value sp start_text;
             end_ ← _parse_value sp end_text;
             Ok (start, end_)
         | None =>
             start ← _parse_value sp base;
             Ok (start, fs_maximum sp)
         end);
      _ ← guard_else (negb (end_ <? start)%Z) (invalid_range chunk);
      Ok (range_step start end_ step)
  | None =>
      match split_first "-" chunk with
      | Some (start_text, end_text) =>
          start ← _parse_value sp start_text;
          end_ ← _parse_value sp end_text;
          _ ← guard_else (negb (end_ <? start)%Z) (invalid_range chunk);
          Ok (range_step start end_ 1)
      | None => v ← _parse_value sp chunk; Ok {[ v ]}
      end
  end.

(** [CronField._parse]. *)
Definition _parse (sp : field_spec) (expression : string) : result exn (gset Z) :=
  vs ← mapR (λ chunk, _parse_chunk sp (strip chunk)) (split_on "," expression);
  Ok (⋃ vs).

(** [CronField.__init__]. *)
Definition mk_CronField (sp : field_spec) (expression : string) : result exn CronField :=
  vs ← _parse sp expression;
  Ok {| cf_any := String.eqb (strip expression) "*"; cf_values := vs |}.

Definition field_matches (f : CronField) (v : Z) : bool := bool_decide (v ∈ cf_values f).

(** ** Schedules *)

Definition minute_spec : field_spec :=
  {| fs_minimum := 0; fs_maximum := 59; fs_names := []; fs_sunday_as_zero := false |}.
Definition hour_spec : field_spec :=
  {| fs_minimum := 0; fs_maximum := 23; fs_names := []; fs_sunday_as_zero := false |}.
Definition dom_spec : field_spec :=
  {| fs_minimum := 1; fs_maximum := 31; fs_names := []; fs_sunday_as_zero := false |}.
Definition month_spec : field_spec :=
  {| fs_minimum := 1; fs_maximum := 12; fs_names := MONTH_NAMES;
     fs_sunday_as_zero := false |}.
Definition dow_spec : field_spec :=
  {| fs_minimum := 0; fs_maximum := 6; fs_names := DOW_NAMES;
     fs_sunday_as_zero := true |}.

Record CronSchedule := {
  cs_expression : string;
  cs_minute : CronField;
  cs_hour : CronField;
  cs_day_of_month : CronField;
  cs_month : CronField;
  cs_day_of_week : CronField;
}.

(** [CronSchedule.__init__]. *)
Definition mk_CronSchedule (expression : string) : result exn CronSchedule :=
  let normalized :=
    default (strip expression) (dict_get (lower (strip expression)) CRON_ALIASES) in
  match words normalized with
  | [f0; f1; f2; f3; f4] =>
      minute ← mk_CronField minute_spec f0;
      hour ← mk_CronField hour_spec f1;
      dom ← mk_CronField dom_spec f2;
      month ← mk_CronField month_spec f3;
      dow ← mk_CronField dow_spec f4;
      Ok {| cs_expression := normalized; cs_minute := minute; cs_hour := hour;
            cs_day_of_month := dom; cs_month := month; cs_day_of_week := dow |}
  | _ => Err (value_error "CronSource only supports standard 5-field cron expressions")
  end.

(** [CronSchedule.matches]. *)
Definition matches (c : CronSchedule) (t : stamp) : bool :=
  let w := wall t in
  if negb (field_matches (cs_minute c) (minute_of w)) then false
  else if negb (field_matches (cs_hour c) (hour_of w)) then false
  else if negb (field_matches (cs_month c) (month_of w)) then false
  else
    let dom_match := field_matches (cs_day_of_month c) (day_of w) in
    let cron_weekday := ((weekday_of w + 1) mod 7)%Z in
    let dow_match := field_matches (cs_day_of_week c) cron_weekday in
    if cf_any (cs_day_of_month c) && cf_any (cs_day_of_week c) then true
    else if cf_any (cs_day_of_month c) then dow_match
    else if cf_any (cs_day_of_week c) then dom_match
    else dom_match || dow_match.

(** The loop of [next_after]: [fuel] iterations from [candidate]. *)
Fixpoint search_minute (c : CronSchedule) (fuel : nat) (candidate : stamp)
    : option stamp :=
  match fuel with
  | O => None
  | S fuel => if matches c candidate then Some candidate
              else search_minute c fuel (stamp_add candidate us_per_minute)
  end.

(** [366 * 24 * 60 * 2] minutes. *)
Definition horizon : Z := 366 * 24 * 60 * 2.

Definition first_candidate (current : stamp) : stamp :=
  stamp_add (floor_minute current) us_per_minute.

Definition next_after (c : CronSchedule) (current : stamp) : result exn stamp :=
  match search_minute c (Z.to_nat horizon) (first_candidate current) with
  | Some t => Ok t
  | None => Err (runtime_error ("unable to find next fire time for cron expression '"
                   +:+ cs_expression c +:+ "'"))
  end.

Definition first_fire_at (c : CronSchedule) (now : stamp) : result exn stamp :=
  let on_minute := (second_of (wall now) =? 0)%Z && (microsecond_of (wall now) =? 0)%Z in
  if on_minute && matches c now then Ok now else next_after c now.

(** [CronSource._initial_fire_at] and [_next_fire_after]. *)
#[global] Instance cron_fire_rule : FireRule CronSchedule := {
  initial_fire_at := first_fire_at;
  next_fire_after := next_after;
}.

(** ** Fields stay in range *)

Lemma elem_of_range_step start end_ step v :
  (0 < step)%Z → v ∈ range_step start end_ step ↔
  ∃ k, (0 ≤ k)%Z ∧ v = (start + k * step)%Z ∧ (start ≤ end_)%Z ∧ (v ≤ end_)%Z.
Proof.
  intros Hstep. unfold range_step. rewrite elem_of_list_to_set, list_elem_of_fmap.
  assert (Hd : (end_ - start = (end_ - start) / step * step + (end_ - start) mod step)%Z).
  { rewrite (Z.div_mod (end_ - start) step) at 1 by lia. lia. }
  pose proof (Z.mod_pos_bound (end_ - start) step Hstep) as Hm.
  set (q := ((end_ - start) / step)%Z) in *. set (r := ((end_ - start) mod step)%Z) in *.
  setoid_rewrite elem_of_seq. split.
  - intros (k & -> & Hk). exists (Z.of_nat k). assert (Z.of_nat k ≤ q)%Z by lia.
    split_and!; [lia | done | nia | nia].
  - intros (k & Hk & -> & Hle & Hv). exists (Z.to_nat k). split; [by rewrite Z2Nat.id|].
    assert (k * step ≤ q * step + r)%Z by lia. assert (k ≤ q)%Z by nia. lia.
Qed.

Lemma parse_value_range sp v n :
  _parse_value sp v = Ok n → (fs_minimum sp ≤ n ≤ fs_maximum sp)%Z.
Proof.
  unfold _parse_value. rewrite bind_ok. intros (p & _ & H). revert H.
  generalize (if fs_sunday_as_zero sp && (p =? 7)%Z then 0%Z else p). intros n'.
  destruct (_ || _) eqn:E; [done|]. intros [= <-]. zbool. lia.
Qed.

(** A parsed field: nonempty and inside the field's range. *)
Definition in_range (sp : field_spec) (vs : gset Z) : Prop :=
  vs ≠ ∅ ∧ ∀ v, v ∈ vs → (fs_minimum sp ≤ v ≤ fs_maximum sp)%Z.

Lemma range_step_in_range sp start end_ step :
  (0 < step)%Z → (start ≤ end_)%Z →
  (fs_minimum sp ≤ start)%Z → (end_ ≤ fs_maximum sp)%Z →
  in_range sp (range_step start end_ step).
Proof.
  intros Hs Hle Hmin Hmax. split.
  - intros He. assert (start ∈ range_step start end_ step); [|set_solver].
    apply elem_of_range_step; [done|]. exists 0%Z. lia.
  - intros v (k & Hk & -> & _ & Hv)%elem_of_range_step; [|done]. nia.
Qed.

Lemma parse_chunk_in_range sp chunk vs :
  (fs_minimum sp ≤ fs_maximum sp)%Z →
  _parse_chunk sp chunk = Ok vs → in_range sp vs.
Proof.
  intros Hmm. unfold _parse_chunk.
  destruct (negb _); [done|]. destruct (String.eqb chunk "*").
  { intros [= <-]. by apply range_step_in_range; lia. }
  destruct (split_first "/" chunk) as [[base step_text]|].
  - intros (step & _ & H)%bind_ok. apply bind_ok in H as ([] & Hstep & H).
    apply bind_ok in H as ([start end_] & Hse & H).
    apply bind_ok in H as ([] & Hle & [= <-]).
    rewrite guard_else_ok in Hstep, Hle. zbool.
    enough (fs_minimum sp ≤ start ∧ end_ ≤ fs_maximum sp)%Z
      by (apply range_step_in_range; lia).
    destruct (String.eqb base "*"); [injection Hse; lia|].
    destruct (split_first "-" base) as [[a b]|].
    + apply bind_ok in Hse as (s0 & Ha%parse_value_range & Hse).
      apply bind_ok in Hse as (e0 & Hb%parse_value_range & [= <- <-]). lia.
    + apply bind_ok in Hse as (s0 & Ha%parse_value_range & [= <- <-]). lia.
  - destruct (split_first "-" chunk) as [[a b]|].
    + intros (s0 & Ha%parse_value_range & H)%bind_ok.
      apply bind_ok in H as (e0 & Hb%parse_value_range & H).
      apply bind_ok in H as ([] & Hle & [= <-]).
      rewrite guard_else_ok in Hle. zbool. apply range_step_in_range; lia.
    + intros (v & Hv%parse_value_range & [= <-])%bind_ok. split; [set_solver|].
      set_solver.
Qed.

Lemma parse_in_range sp e vs :
  (fs_minimum sp ≤ fs_maximum sp)%Z → _parse sp e = Ok vs → in_range sp vs.
Proof.
  intros Hmm. unfold _parse. rewrite bind_ok. intros (l & Hl & [= <-]).
  pose proof (proj1 (mapR_ok_Forall2 _ _ _) Hl) as Hf.
  assert (Hne : l ≠ []).
  { intros ->. apply mapR_length in Hl. unfold split_on in Hl.
    rewrite length_fmap in Hl. generalize (str_to_list e) (@nil ascii) Hl. clear.
    intros s. induction s as [|c s IH]; intros acc; simpl; [done|].
    case_match; [done | apply IH]. }
  assert (Hall : Forall (in_range sp) l).
  { clear -Hf Hmm. induction Hf; constructor; [by eapply parse_chunk_in_range | done]. }
  clear -Hall Hne. destruct l as [|vs l]; [done|]. inversion_clear Hall as [|? ? H1 Hl].
  split; simpl; [destruct H1; set_solver|].
  intros v [Hv|Hv]%elem_of_union; [by apply H1|].
  apply elem_of_union_list in Hv as (vs' & Hin & Hv).
  rewrite Forall_forall in Hl. by apply (Hl vs' Hin).
Qed.

Lemma mk_CronField_in_range sp e f :
  (fs_minimum sp ≤ fs_maximum sp)%Z → mk_CronField sp e = Ok f →
  in_range sp (cf_values f).
Proof.
  intros Hmm. unfold mk_CronField. rewrite bind_ok. intros (vs & Hvs & [= <-]).
  by eapply parse_in_range.
Qed.

(** ** The search *)

Lemma matches_wall c a b : wall a = wall b → matches c a = matches c b.
Proof. unfold matches. by intros ->. Qed.

Lemma search_minute_spec c fuel cand :
  match search_minute c fuel cand with
  | Some t => ∃ k, (k < fuel)%nat ∧ wall t = (wall cand + Z.of_nat k * us_per_minute)%Z ∧
      matches c t = true ∧
      ∀ j, (j < k)%nat →
        matches c (Stamp (wall cand + Z.of_nat j * us_per_minute) false) = false
  | None => ∀ j, (j < fuel)%nat →
      matches c (Stamp (wall cand + Z.of_nat j * us_per_minute) false) = false
  end.
Proof.
  revert cand. induction fuel as [|fuel IH]; intros cand; simpl; [lia|].
  destruct (matches c cand) eqn:E.
  - exists 0%nat. split_and!; [lia | simpl; lia | done | lia].
  - assert (H0 : ∀ j, (∀ j', j = S j' →
      matches c (Stamp (wall (stamp_add cand us_per_minute) + Z.of_nat j' * us_per_minute) false)
        = false) →
      matches c (Stamp (wall cand + Z.of_nat j * us_per_minute) false) = false).
    { intros [|j] Hj.
      - rewrite <- E. apply matches_wall. simpl. lia.
      - rewrite <- (Hj j eq_refl). apply matches_wall. simpl. lia. }
    specialize (IH (stamp_add cand us_per_minute)).
    destruct (search_minute c fuel (stamp_add cand us_per_minute)) as [t|].
    + destruct IH as (k & Hk & Hw & Hm & Hj). exists (S k). simpl in Hw.
      split_and!; [lia | lia | done |]. intros j Hlt. apply H0.
      intros j' ->. apply Hj. lia.
    + intros j Hj. apply H0. intros j' ->. apply IH. lia.
Qed.

Lemma first_candidate_aligned t : (wall (first_candidate t) mod us_per_minute = 0)%Z.
Proof.
  unfold first_candidate. simpl. rewrite <- Zplus_mod_idemp_l.
  pose proof (floor_minute_aligned t) as H. simpl in H. by rewrite H.
Qed.

(** The aligned wall clock times after [t] are the candidates. *)
Lemma aligned_after t w :
  (wall t < w)%Z → (w mod us_per_minute = 0)%Z →
  ∃ j, w = (wall (first_candidate t) + Z.of_nat j * us_per_minute)%Z.
Proof.
  intros Hlt Hal. pose proof (floor_minute_le t) as Hfl.
  pose proof (floor_minute_aligned t) as Hfa.
  unfold first_candidate. cbn [wall stamp_add].
  set (f := wall (floor_minute t)) in *.
  assert (Hw : (w = w / us_per_minute * us_per_minute)%Z).
  { pose proof (Z.div_mod w us_per_minute ltac:(done)). lia. }
  assert (Hf : (f = f / us_per_minute * us_per_minute)%Z).
  { pose proof (Z.div_mod f us_per_minute ltac:(done)). lia. }
  assert (f / us_per_minute < w / us_per_minute)%Z by
    (unfold us_per_minute, us_per_second in *; lia).
  exists (Z.to_nat (w / us_per_minute - f / us_per_minute - 1)).
  rewrite Z2Nat.id by lia. lia.
Qed.

(** ** Properties *)

(** Every field of an accepted cron expression denotes a nonempty set of
    values inside the field's range. *)
Theorem cron_fields_in_range e c :
  mk_CronSchedule e = Ok c →
  in_range minute_spec (cf_values (cs_minute c)) ∧
  in_range hour_spec (cf_values (cs_hour c)) ∧
  in_range dom_spec (cf_values (cs_day_of_month c)) ∧
  in_range month_spec (cf_values (cs_month c)) ∧
  in_range dow_spec (cf_values (cs_day_of_week c)).
Proof.
  unfold mk_CronSchedule. destruct (words _) as [|f0 [|f1 [|f2 [|f3 [|f4 []]]]]]; try done.
  intros (mi & Hmi & H)%bind_ok. apply bind_ok in H as (h & Hh & H).
  apply bind_ok in H as (d & Hd & H). apply bind_ok in H as (mo & Hmo & H).
  apply bind_ok in H as (w & Hw & [= <-]). simpl.
  split_and!; by eapply mk_CronField_in_range.
Qed.

Lemma cron_fields_in_range_witness :
  ∃ c, mk_CronSchedule "*/15 9-17 * jan,JUL mon-fri" = Ok c ∧
       in_range hour_spec (cf_values (cs_hour c)).
Proof.
  eexists. split; [vm_compute; reflexivity|].
  apply (cron_fields_in_range "*/15 9-17 * jan,JUL mon-fri"). vm_compute. reflexivity.
Defined.

(** [next_after] either stops at a candidate minute that matches, every
    earlier candidate having been rejected, or has rejected all of them. *)
Lemma next_after_ok c t t' :
  next_after c t = Ok t' →
  matches c t' = true ∧ (wall t' mod us_per_minute = 0)%Z ∧
  (wall t < wall t' < wall (first_candidate t) + horizon * us_per_minute)%Z ∧
  ∀ w, (wall t < w < wall t')%Z → (w mod us_per_minute = 0)%Z →
       matches c (Stamp w false) = false.
Proof.
  unfold next_after.
  pose proof (search_minute_spec c (Z.to_nat horizon) (first_candidate t)) as Hs.
  destruct (search_minute c (Z.to_nat horizon) (first_candidate t)) as [t0|]; [|done].
  intros [= ->].
  destruct Hs as (k & Hk & Hw & Hm & Hj). pose proof (floor_minute_gt t). pose proof us_per_minute_pos.
  assert (Z.of_nat k < horizon)%Z by (unfold horizon in *; lia).
  split_and!; [done | | | |].
  - rewrite Hw, Z.mod_add by done. apply first_candidate_aligned.
  - rewrite Hw. unfold first_candidate. cbn [wall stamp_add]. nia.
  - rewrite Hw. nia.
  - intros w [Hlt Hlt'] Hal. destruct (aligned_after t w Hlt Hal) as [j ->].
    apply Hj. nia.
Qed.

Lemma next_after_err c t e :
  next_after c t = Err e →
  ∀ w, (wall t < w < wall (first_candidate t) + horizon * us_per_minute)%Z →
       (w mod us_per_minute = 0)%Z → matches c (Stamp w false) = false.
Proof.
  unfold next_after.
  pose proof (search_minute_spec c (Z.to_nat horizon) (first_candidate t)) as Hs.
  destruct (search_minute c (Z.to_nat horizon) (first_candidate t)) as [t0|]; [done|].
  intros _ w [Hlt Hlt'] Hal. destruct (aligned_after t w Hlt Hal) as [j ->].
  apply Hs. pose proof us_per_minute_pos. assert (Z.of_nat j < horizon)%Z by nia.
  unfold horizon in *. lia.
Qed.

(** C35. [next_after] returns the earliest matching minute after its argument,
    and raises exactly when no minute of the next two years matches. *)
Theorem next_after_earliest c t :
  match next_after c t with
  | Ok t' =>
      matches c t' = true ∧ (wall t' mod us_per_minute = 0)%Z ∧
      (wall t < wall t' < wall (first_candidate t) + horizon * us_per_minute)%Z ∧
      ∀ w, (wall t < w < wall t')%Z → (w mod us_per_minute = 0)%Z →
           matches c (Stamp w false) = false
  | Err _ =>
      ∀ w, (wall t < w < wall (first_candidate t) + horizon * us_per_minute)%Z →
           (w mod us_per_minute = 0)%Z → matches c (Stamp w false) = false
  end.
Proof.
  destruct (next_after c t) eqn:E; [by apply next_after_ok | by eapply next_after_err].
Qed.

Lemma field_matches_true f v : field_matches f v = true ↔ v ∈ cf_values f.
Proof. apply bool_decide_eq_true. Qed.

(** [matches] as one conjunction of the field tests. *)
Lemma matches_fields c t :
  let w := wall t in
  matches c t =
  field_matches (cs_minute c) (minute_of w) && field_matches (cs_hour c) (hour_of w)
  && field_matches (cs_month c) (month_of w)
  && (let dom := field_matches (cs_day_of_month c) (day_of w) in
      let dow := field_matches (cs_day_of_week c) ((weekday_of w + 1) mod 7)%Z in
      if cf_any (cs_day_of_month c)
      then if cf_any (cs_day_of_week c) then true else dow
      else if cf_any (cs_day_of_week c) then dom else dom || dow).
Proof.
  simpl. unfold matches.
  destruct (field_matches (cs_minute c) _), (field_matches (cs_hour c) _),
    (field_matches (cs_month c) _); simpl; try reflexivity.
  destruct (cf_any (cs_day_of_month c)), (cf_any (cs_day_of_week c)); reflexivity.
Qed.

(** The matching rule of the standard cron: minute, hour and month must
    match; the two day fields both apply when one of them is ["*"], and
    either one suffices when both are restricted. *)
Theorem matches_rule c t :
  let w := wall t in
  let dom := day_of w ∈ cf_values (cs_day_of_month c) in
  let dow := ((weekday_of w + 1) mod 7)%Z ∈ cf_values (cs_day_of_week c) in
  let dom_any := cf_any (cs_day_of_month c) = true in
  let dow_any := cf_any (cs_day_of_week c) = true in
  matches c t = true ↔
  minute_of w ∈ cf_values (cs_minute c) ∧ hour_of w ∈ cf_values (cs_hour c) ∧
  month_of w ∈ cf_values (cs_month c) ∧
  ((dom_any ∨ dow_any) ∧ (dom_any ∨ dom) ∧ (dow_any ∨ dow) ∨
   ¬ dom_any ∧ ¬ dow_any ∧ (dom ∨ dow)).
Proof.
  intros w dom dow dom_any dow_any. rewrite matches_fields. fold w. simpl.
  rewrite !andb_true_iff, !field_matches_true. subst dom_any dow_any.
  destruct (cf_any (cs_day_of_month c)), (cf_any (cs_day_of_week c));
    rewrite ?orb_true_iff, ?field_matches_true; fold dom dow; tauto || intuition discriminate.
Qed.

(** The schedule ["0 0 29 2 *"]: midnight of every leap day. *)
Definition leap_day : CronSchedule :=
  match mk_CronSchedule "0 0 29 2 *" with
  | Ok c => c
  | Err _ => {| cs_expression := ""; cs_minute := {| cf_any := false; cf_values := ∅ |};
                cs_hour := {| cf_any := false; cf_values := ∅ |};
                cs_day_of_month := {| cf_any := false; cf_values := ∅ |};
                cs_month := {| cf_any := false; cf_values := ∅ |};
                cs_day_of_week := {| cf_any := false; cf_values := ∅ |} |}
  end.

Lemma leap_day_parses : mk_CronSchedule "0 0 29 2 *" = Ok leap_day.
Proof. vm_compute. reflexivity. Qed.

Lemma leap_day_matches t :
  matches leap_day t = true →
  minute_of (wall t) = 0%Z ∧ hour_of (wall t) = 0%Z ∧
  month_of (wall t) = 2%Z ∧ day_of (wall t) = 29%Z.
Proof.
  rewrite matches_fields. cbv zeta. intros Hm.
  assert (Hv : cf_values (cs_minute leap_day) = {[ 0 ]}%Z ∧
    cf_values (cs_hour leap_day) = {[ 0 ]}%Z ∧ cf_values (cs_month leap_day) = {[ 2 ]}%Z ∧
    cf_values (cs_day_of_month leap_day) = {[ 29 ]}%Z ∧
    cf_any (cs_day_of_month leap_day) = false ∧ cf_any (cs_day_of_week leap_day) = true)
    by (vm_compute; split_and!; reflexivity).
  destruct Hv as (E1 & E2 & E3 & E4 & E5 & E6).
  rewrite E5, E6 in Hm.
  rewrite !andb_true_iff, !field_matches_true, E1, E2, E3, E4 in Hm. set_solver.
Qed.

(** Hour 0 and minute 0 on a minute boundary is midnight. *)
Lemma midnight_of w :
  (hour_of w = 0 → minute_of w = 0 → w mod us_per_minute = 0 → w mod us_per_day = 0)%Z.
Proof.
  unfold hour_of, minute_of, time_of_day. change us_per_hour with 3600000000%Z.
  change us_per_minute with 60000000%Z. change us_per_day with 86400000000%Z.
  intros Hh Hm Hw. pose proof (Z.mod_pos_bound w 86400000000 eq_refl) as Hr.
  pose proof (Z.div_mod w 86400000000 ltac:(done)) as Hd.
  set (r := (w mod 86400000000)%Z) in *. clearbody r.
  assert (r < 3600000000)%Z.
  { apply Z.div_small_iff in Hh; lia. }
  rewrite (Z.mod_small r 3600000000) in Hm by lia.
  assert (r < 60000000)%Z.
  { apply Z.div_small_iff in Hm; lia. }
  assert (r mod 60000000 = 0)%Z as Hz.
  { rewrite Hd in Hw. replace (86400000000 * (w / 86400000000) + r)%Z
      with (r + (1440 * (w / 86400000000)) * 60000000)%Z in Hw by lia.
    by rewrite Z.mod_add in Hw. }
  rewrite Z.mod_small in Hz; lia.
Qed.

(** 2024-02-29 is day 19782; no later day up to 2028-02-28 is a leap day. *)
Lemma no_leap_day_before_2028 d :
  (19782 < d < 21243)%Z → ¬ (civil_from_days d).1.2 = 2%Z ∨ ¬ (civil_from_days d).2 = 29%Z.
Proof.
  intros Hd.
  assert (Hall : forallb (λ k, let '(_, m, dd) := civil_from_days (19783 + Z.of_nat k) in
      negb ((m =? 2)%Z && (dd =? 29)%Z)) (seq 0 1460) = true) by (vm_compute; reflexivity).
  rewrite forallb_forall in Hall.
  specialize (Hall (Z.to_nat (d - 19783))).
  replace (19783 + Z.of_nat (Z.to_nat (d - 19783)))%Z with d in Hall by lia.
  destruct (civil_from_days d) as [[y m] dd]. simpl.
  assert (Hin : In (Z.to_nat (d - 19783)) (seq 0 1460)) by (apply in_seq; lia).
  specialize (Hall Hin). apply negb_true_iff, andb_false_iff in Hall.
  destruct Hall as [?%Z.eqb_neq | ?%Z.eqb_neq]; auto.
Qed.

(** A schedule that fires every leap day cannot be scheduled: from its
    own firing on 2024-02-29 (and from any time until two years before the
    next leap day) [next_after] gives up after two years and raises, although
    2028-02-29T00:00 matches. *)
Theorem leap_day_unschedulable t :
  (wall_of 2024 2 29 0 0 ≤ wall t ≤ wall_of 2026 2 26 0 0)%Z →
  next_after leap_day t =
    Err (runtime_error "unable to find next fire time for cron expression '0 0 29 2 *'") ∧
  matches leap_day (Stamp (wall_of 2028 2 29 0 0) false) = true.
Proof.
  intros Ht. split; [|vm_compute; reflexivity].
  destruct (next_after leap_day t) as [t'|e] eqn:E.
  - exfalso. apply next_after_ok in E as (Hm & Hal & Hlt & _).
    apply leap_day_matches in Hm as (Hmi & Hh & Hmo & Hd).
    unfold first_candidate in Hlt. cbn [wall stamp_add] in Hlt.
    pose proof (floor_minute_le t) as Hfl.
    unfold month_of, day_of in Hmo, Hd.
    pose proof (midnight_of (wall t') Hh Hmi Hal) as Hmid.
    assert (19782 < day_number (wall t') < 21243)%Z as Hday.
    { revert Ht Hlt Hfl Hmid. clear. unfold day_number.
      change (wall_of 2024 2 29 0 0) with 1709164800000000%Z.
      change (wall_of 2026 2 26 0 0) with 1772064000000000%Z.
      change (horizon * us_per_minute)%Z with 63244800000000%Z.
      change us_per_minute with 60000000%Z. change us_per_day with 86400000000%Z.
      intros Ht Hlt Hfl Hmid. apply Z.div_exact in Hmid; [|done]. nia. }
    destruct (no_leap_day_before_2028 _ Hday); congruence.
  - revert E. unfold next_after. case_match; [done|]. intros [= <-].
    vm_compute. reflexivity.
Qed.

Lemma leap_day_unschedulable_witness :
  next_after leap_day (Stamp (wall_of 2024 2 29 0 0) false) =
  Err (runtime_error "unable to find next fire time for cron expression '0 0 29 2 *'").
Proof. apply leap_day_unschedulable. vm_compute. split; discriminate. Defined.

(** A Friday-to-Sunday range written [5-7] is rejected: [7] becomes [0]
    before the bounds are compared. *)
Example sunday_range_rejected :
  mk_CronField dow_spec "5-7" = Err (value_error "invalid cron range: 5-7").
Proof. vm_compute. reflexivity. Qed.

#[global] Instance cron_progress : FireRuleProgress CronSchedule.
Proof.
  intros c t t' Hn. change (next_after c t = Ok t') in Hn.
  apply next_after_ok in Hn. lia.
Qed.
