(* ===== verification/Texts.v ===== *)
(** * Text formats of the Standard Library the runtime relies on

    Fixed-width numbers, [datetime.isoformat] and [fromisoformat], the text
    of a [UUID] and base64, each printer with its reader and the round trip
    between them. *)

From stdpp Require Import base option list strings numbers.
From Stdlib Require Import ZArith Lia Ascii.
From S2P Require Import Prelude PyFloat Value Calendar.

(** [lia] reasons about division and modulo by constants in this file. *)
#[local] Ltac Zify.zify_post_hook ::= Z.to_euclidean_division_equations.

(** ** Fixed-width positional numbers *)

Section Digits.
Context (base : Z) (chr : Z → ascii) (val : ascii → option Z).

Fixpoint digits (width : nat) (n : Z) : list ascii :=
  match width with
  | O => []
  | S w => digits w (n / base)%Z ++ [chr (n mod base)%Z]
  end.

Fixpoint undigits (acc : Z) (l : list ascii) : option Z :=
  match l with
  | [] => Some acc
  | c :: l => d ← val c; undigits (acc * base + d)%Z l
  end.

Lemma digits_length w n : length (digits w n) = w.
Proof. revert n. induction w as [|w IH]; intros n; simpl; [done|]. rewrite length_app, IH. simpl. lia. Qed.

Lemma undigits_app acc l1 l2 :
  undigits acc (l1 ++ l2) = undigits acc l1 ≫= λ a, undigits a l2.
Proof.
  revert acc. induction l1 as [|c l1 IH]; intros acc; simpl; [done|].
  destruct (val c); simpl; [apply IH | done].
Qed.

Hypothesis base_pos : (1 < base)%Z.
Hypothesis val_chr : ∀ d, (0 ≤ d < base)%Z → val (chr d) = Some d.

Lemma undigits_digits w n acc :
  undigits acc (digits w n) = Some (acc * base ^ Z.of_nat w + n mod base ^ Z.of_nat w)%Z.
Proof using base_pos val_chr.
  revert n acc. induction w as [|w IH]; intros n acc; simpl.
  - f_equal. rewrite Z.mod_1_r. lia.
  - rewrite undigits_app, IH. simpl.
    rewrite val_chr by (apply Z.mod_pos_bound; lia). simpl. f_equal.
    replace (Z.of_nat (S w)) with (Z.succ (Z.of_nat w)) by lia.
    rewrite Z.pow_succ_r by lia. rewrite Z.rem_mul_r by lia. lia.
Qed.
End Digits.

Lemma undigits_digits_fits base chr val w n :
  (1 < base)%Z → (∀ d, (0 ≤ d < base)%Z → val (chr d) = Some d) →
  (0 ≤ n < base ^ Z.of_nat w)%Z →
  undigits base val 0 (digits base chr w n) = Some n.
Proof.
  intros Hb Hv Hn. rewrite (undigits_digits base chr val Hb Hv).
  rewrite Z.mod_small by done. done.
Qed.

Lemma digits_pad_digits w n : digits_pad w n = digits 10 digit_of w n.
Proof. revert n. induction w as [|w IH]; intros n; simpl; [done|]. by rewrite IH. Qed.

(** A check of all values of a small range by computation. *)
Lemma forall_range (P : Z → Prop) `{∀ z, Decision (P z)} (n : nat) :
  forallb (λ k, bool_decide (P (Z.of_nat k))) (seq 0 n) = true →
  ∀ z, (0 ≤ z < Z.of_nat n)%Z → P z.
Proof.
  intros Hall z Hz. rewrite forallb_forall in Hall.
  specialize (Hall (Z.to_nat z)). rewrite Z2Nat.id in Hall by lia.
  eapply bool_decide_eq_true_1, Hall. apply in_seq. lia.
Qed.

Lemma digit_val_of d : (0 ≤ d < 10)%Z → digit_val (digit_of d) = Some d.
Proof. apply (forall_range (λ d, digit_val (digit_of d) = Some d) 10). vm_compute. done. Qed.

(** ** Readers *)

(** Exactly [k] decimal digits. *)
Definition read_dec (k : nat) (l : list ascii) : option (Z * list ascii) :=
  if (k <=? length l)%nat
  then v ← undigits 10 digit_val 0 (take k l); Some (v, drop k l)
  else None.

(** One given character. *)
Definition expect (c : ascii) (l : list ascii) : option (list ascii) :=
  match l with
  | c' :: l => if Ascii.eqb c' c then Some l else None
  | [] => None
  end.

Lemma expect_hit c l : expect c (c :: l) = Some l.
Proof. simpl. by rewrite Ascii.eqb_refl. Qed.

Lemma read_dec_pad k n l :
  (0 ≤ n < 10 ^ Z.of_nat k)%Z → read_dec k (digits_pad k n ++ l) = Some (n, l).
Proof.
  intros Hn. unfold read_dec. rewrite digits_pad_digits.
  pose proof (digits_length 10 digit_of k n) as Hl.
  rewrite length_app, Hl.
  rewrite (proj2 (Nat.leb_le _ _)) by lia.
  rewrite take_app_length' by done. rewrite drop_app_length' by done.
  rewrite (undigits_digits_fits 10 digit_of digit_val) by (done || apply digit_val_of || lia).
  done.
Qed.

#[export] Hint Rewrite expect_hit : onestep.

Lemma str_to_list_app s t : str_to_list (s +:+ t) = str_to_list s ++ str_to_list t.
Proof. induction s as [|c s IH]; simpl; [done|]. by rewrite <- IH. Qed.

Lemma str_to_list_pad k n : str_to_list (pad_dec k n) = digits_pad k n.
Proof. apply str_to_of_list. Qed.

(** ** Dates *)

(** The parts of [civil_from_days]: the year of the era is below 400 and
    the day of the year recomposes the day of the era. *)
Lemma civil_parts doe c r q s y doy :
  (0 ≤ doe < 146097 → c = Z.min (doe / 36524) 3 → r = doe - 36524 * c →
   q = r / 1461 → s = r - 1461 * q → y = Z.min (s / 365) 3 → doy = s - 365 * y →
   0 ≤ c ≤ 3 ∧ 0 ≤ q ≤ 24 ∧ 0 ≤ y ≤ 3 ∧ 0 ≤ doy ≤ 365)%Z.
Proof.
  intros Hd Hc Hr Hq Hs Hy Hdoy.
  assert (0 ≤ c ≤ 3 ∧ 0 ≤ r ≤ 36524)%Z as [? Hr'] by (clear - Hd Hc Hr; lia).
  assert (0 ≤ q ≤ 24 ∧ 0 ≤ s ≤ 1460)%Z as [? Hs'] by (clear - Hq Hs Hr'; lia).
  assert (0 ≤ y ≤ 3 ∧ 0 ≤ doy ≤ 365)%Z by (clear - Hy Hdoy Hs'; lia). tauto.
Qed.

Lemma month_parts doy :
  (0 ≤ doy ≤ 365 → 0 ≤ (5 * doy + 2) / 153 ≤ 11 ∧
   1 ≤ doy - (153 * ((5 * doy + 2) / 153) + 2) / 5 + 1 ≤ 31)%Z.
Proof. lia. Qed.

Lemma days_from_civil_inv d :
  let '(y, m, dd) := civil_from_days d in
  days_from_civil y m dd = d ∧ (1 ≤ m ≤ 12)%Z ∧ (1 ≤ dd ≤ 31)%Z.
Proof.
  unfold civil_from_days.
  set (z := (d + 719468)%Z).
  pose proof (Z.mod_pos_bound z 146097 eq_refl) as Hdoe.
  pose proof (Z.div_mod z 146097 ltac:(done)) as Hz.
  set (doe := (z mod 146097)%Z) in *. set (era := (z / 146097)%Z) in *.
  set (c := Z.min (doe / 36524) 3). set (r := (doe - 36524 * c)%Z).
  set (q := (r / 1461)%Z). set (s := (r - 1461 * q)%Z).
  set (y := Z.min (s / 365) 3). set (doy := (s - 365 * y)%Z).
  destruct (civil_parts doe c r q s y doy) as (Hc & Hq & Hy & Hdoy); [done..|].
  destruct (month_parts doy Hdoy) as [Hmp Hday].
  assert (doe = 36524 * c + 1461 * q + 365 * y + doy)%Z as Hde by (unfold doy, s, r; lia).
  set (mp := ((5 * doy + 2) / 153)%Z) in *. clearbody doe era c q y doy mp. clear r s.
  unfold days_from_civil.
  destruct (mp <? 10)%Z eqn:Em; zbool; (split; [|split; lia]).
  - rewrite (proj2 (Z.leb_gt (mp + 3) 2)) by lia.
    replace ((100 * c + 4 * q + y + era * 400 + 0) / 400)%Z with era by lia. lia.
  - rewrite (proj2 (Z.leb_le (mp - 9) 2)) by lia.
    replace ((100 * c + 4 * q + y + era * 400 + 1 - 1) / 400)%Z with era by lia. lia.
Qed.

(** ** [datetime.isoformat] and [datetime.fromisoformat] *)

(** [dt.isoformat()]. *)
Definition dt_isoformat (d : pydatetime) : string :=
  let w := dt_wall d in
  pad_dec 4 (year_of w) +:+ "-" +:+ pad_dec 2 (month_of w) +:+ "-"
  +:+ pad_dec 2 (day_of w) +:+ "T" +:+ pad_dec 2 (hour_of w) +:+ ":"
  +:+ pad_dec 2 (minute_of w) +:+ ":" +:+ pad_dec 2 (second_of w)
  +:+ (if (microsecond_of w =? 0)%Z then "" else "." +:+ pad_dec 6 (microsecond_of w))
  +:+ match dt_offset d with None => "" | Some off => iso_offset off end.

(** [.ffffff], if it is there. *)
Definition read_fraction (l : list ascii) : option (Z * list ascii) :=
  match l with
  | "."%char :: l => read_dec 6 l
  | _ => Some (0%Z, l)
  end.

(** [HH:MM[:SS[.ffffff]]] in microseconds. *)
Definition read_offset (l : list ascii) : option Z :=
  '(hh, l) ← read_dec 2 l; l ← expect ":" l; '(mm, l) ← read_dec 2 l;
  match l with
  | [] => Some (hh * us_per_hour + mm * us_per_minute)%Z
  | _ =>
      l ← expect ":" l; '(ss, l) ← read_dec 2 l; '(us, l) ← read_fraction l;
      match l with
      | [] => Some (hh * us_per_hour + mm * us_per_minute + ss * us_per_second + us)%Z
      | _ => None
      end
  end.

Definition read_zone (l : list ascii) : option (option Z) :=
  match l with
  | [] => Some None
  | "+"%char :: l => Some <$> read_offset l
  | "-"%char :: l => (λ o, Some (- o)%Z) <$> read_offset l
  | _ => None
  end.

(** The ranges the [datetime] constructor accepts. *)
Definition valid_fields (y m d h mi s : Z) (off : option Z) : bool :=
  (1 <=? y)%Z && (y <=? 9999)%Z && (1 <=? m)%Z && (m <=? 12)%Z
  && bool_decide (civil_from_days (days_from_civil y m d) = (y, m, d))
  && (h <? 24)%Z && (mi <? 60)%Z && (s <? 60)%Z
  && match off with None => true | Some o => (Z.abs o <? us_per_day)%Z end.

(** [datetime.fromisoformat] on the texts that [isoformat] prints; the other
    ISO 8601 spellings that newer Python versions read are rejected here. *)
Definition fromisoformat (s : string) : option pydatetime :=
  '(y, l) ← read_dec 4 (str_to_list s); l ← expect "-" l;
  '(m, l) ← read_dec 2 l; l ← expect "-" l;
  '(d, l) ← read_dec 2 l; l ← expect "T" l;
  '(h, l) ← read_dec 2 l; l ← expect ":" l;
  '(mi, l) ← read_dec 2 l; l ← expect ":" l;
  '(sec, l) ← read_dec 2 l; '(us, l) ← read_fraction l;
  off ← read_zone l;
  if valid_fields y m d h mi sec off
  then Some (PyDatetime (wall_of y m d h mi + sec * us_per_second + us)%Z off false)
  else None.

(** What the [datetime] constructor guarantees of every instance. *)
Definition valid_datetime (d : pydatetime) : bool :=
  (1 <=? year_of (dt_wall d))%Z && (year_of (dt_wall d) <=? 9999)%Z
  && match dt_offset d with None => true | Some o => (Z.abs o <? us_per_day)%Z end.

Ltac us_units :=
  unfold time_of_day in *;
  change us_per_day with 86400000000%Z in *; change us_per_hour with 3600000000%Z in *;
  change us_per_minute with 60000000%Z in *; change us_per_second with 1000000%Z in *.

Lemma time_parts w :
  (0 ≤ hour_of w < 24 ∧ 0 ≤ minute_of w < 60 ∧ 0 ≤ second_of w < 60 ∧
   0 ≤ microsecond_of w < 1000000 ∧
   w = day_number w * us_per_day + hour_of w * us_per_hour + minute_of w * us_per_minute
       + second_of w * us_per_second + microsecond_of w)%Z.
Proof.
  unfold hour_of, minute_of, second_of, microsecond_of, day_number. us_units. lia.
Qed.

(** Reading back one fixed-width field or one literal character. *)
Ltac read_field :=
  first [ rewrite read_dec_pad by (simpl; lia) | rewrite expect_hit ]; cbn [mbind option_bind].

Lemma read_offset_iso a :
  (0 ≤ a < us_per_day)%Z → read_offset (str_to_list (iso_hms a)) = Some a.
Proof.
  intros Ha. us_units. unfold iso_hms, read_offset, read_fraction. us_units.
  rewrite !str_to_list_app, !str_to_list_pad. cbn [str_to_list app].
  repeat read_field.
  destruct (a mod 60000000 / 1000000 =? 0)%Z eqn:E1, (a mod 1000000 =? 0)%Z eqn:E2;
    cbn [andb]; zbool; cbn [str_to_list]; [f_equal; lia | ..];
    rewrite !str_to_list_app, !str_to_list_pad; cbn [str_to_list app];
    try rewrite <- (app_nil_r (digits_pad 6 _)); repeat read_field; f_equal; lia.
Qed.

Lemma read_zone_iso off :
  match off with None => True | Some o => (Z.abs o < us_per_day)%Z end →
  read_zone (str_to_list match off with None => "" | Some o => iso_offset o end) = Some off.
Proof.
  destruct off as [o|]; [|done]. intros Ho. unfold iso_offset.
  rewrite str_to_list_app.
  destruct (o <? 0)%Z eqn:E; zbool; cbn [str_to_list app read_zone];
    rewrite read_offset_iso by lia; cbn [fmap option_fmap option_map]; do 2 f_equal; lia.
Qed.

(** A zone text starts with a sign, so it is not read as a fraction. *)
Lemma read_fraction_zone off :
  let l := str_to_list match off with None => "" | Some o => iso_offset o end in
  read_fraction l = Some (0%Z, l).
Proof.
  destruct off as [o|]; [|done]. unfold iso_offset. rewrite str_to_list_app.
  by destruct (o <? 0)%Z.
Qed.

Lemma valid_fields_civil n h mi s off :
  let '(y, m, d) := civil_from_days n in
  (1 ≤ y ≤ 9999)%Z → (h < 24)%Z → (mi < 60)%Z → (s < 60)%Z →
  match off with None => True | Some o => (Z.abs o < us_per_day)%Z end →
  valid_fields y m d h mi s off = true.
Proof.
  pose proof (days_from_civil_inv n) as H.
  destruct (civil_from_days n) as [[y m] d] eqn:Hn. destruct H as (Hinv & Hm & Hd).
  intros Hy Hh Hmi Hs Hoff. unfold valid_fields. rewrite Hinv, Hn.
  rewrite bool_decide_true by done. rewrite !andb_true_iff, !Z.leb_le, !Z.ltb_lt.
  destruct off; rewrite ?Z.ltb_lt; lia.
Qed.

(** Reading what [isoformat] printed gives the same datetime, except that
    the text does not carry the [fold]. *)
Lemma fromisoformat_isoformat d :
  valid_datetime d = true →
  fromisoformat (dt_isoformat d) = Some (PyDatetime (dt_wall d) (dt_offset d) false).
Proof.
  destruct d as [w off f]. unfold valid_datetime. cbn [dt_wall dt_offset dt_fold].
  intros Hv. rewrite !andb_true_iff in Hv. destruct Hv as [[Hy1 Hy2] Hoff].
  apply Z.leb_le in Hy1, Hy2.
  assert (match off with None => True | Some o => (Z.abs o < us_per_day)%Z end) as Hoff'
    by (destruct off; [by apply Z.ltb_lt | done]).
  pose proof (time_parts w) as (Hh & Hmi & Hs & Hus & Hw).
  pose proof (days_from_civil_inv (day_number w)) as Hciv.
  pose proof (valid_fields_civil (day_number w) (hour_of w) (minute_of w) (second_of w) off) as Hvf.
  unfold dt_isoformat, fromisoformat. cbn [dt_wall dt_offset dt_fold].
  unfold year_of, month_of, day_of in *.
  destruct (civil_from_days (day_number w)) as [[y m] d] eqn:Hd.
  destruct Hciv as (Hinv & Hm & Hdd). cbn [fst snd] in *.
  rewrite !str_to_list_app, !str_to_list_pad. cbn [str_to_list app].
  repeat read_field.
  specialize (Hvf ltac:(lia) ltac:(lia) ltac:(lia) ltac:(lia) Hoff').
  unfold wall_of. rewrite Hinv.
  destruct (microsecond_of w =? 0)%Z eqn:E; zbool.
  - cbn [str_to_list app]. rewrite read_fraction_zone. cbn [mbind option_bind].
    rewrite read_zone_iso by done. cbn [mbind option_bind]. rewrite Hvf.
    do 2 f_equal. lia.
  - rewrite !str_to_list_app, !str_to_list_pad. cbn [str_to_list app read_fraction].
    repeat read_field. rewrite read_zone_iso by done. cbn [mbind option_bind]. rewrite Hvf.
    do 2 f_equal. lia.
Qed.

(** ** [UUID] *)

Definition hex_digit (d : Z) : ascii :=
  if (d <? 10)%Z then digit_of d else ascii_of_nat (87 + Z.to_nat d).

Definition hex_val (c : ascii) : option Z :=
  let n := nat_of_ascii c in
  match digit_val c with
  | Some d => Some d
  | None =>
      if ((97 <=? n) && (n <=? 102))%nat then Some (Z.of_nat n - 87)%Z
      else if ((65 <=? n) && (n <=? 70))%nat then Some (Z.of_nat n - 55)%Z
      else None
  end.

(** [str(uuid)]: the 32 hexadecimal digits in groups of 8-4-4-4-12. *)
Definition group_uuid (h : list ascii) : list ascii :=
  take 8 h ++ "-"%char :: take 4 (drop 8 h) ++ "-"%char :: take 4 (drop 12 h)
  ++ "-"%char :: take 4 (drop 16 h) ++ "-"%char :: drop 20 h.

Definition uuid_chars (u : Z) : list ascii := group_uuid (digits 16 hex_digit 32 u).

Definition uuid_str (u : Z) : string := str_of_list (uuid_chars u).

Fixpoint prefix_of (p l : list ascii) : bool :=
  match p, l with
  | [], _ => true
  | a :: p, b :: l => Ascii.eqb a b && prefix_of p l
  | _, [] => false
  end.

(** [text.replace(old, new)] for a non-empty [old]; [skip] characters of a
    match are still to be passed over. *)
Fixpoint replace_from (old new : list ascii) (skip : nat) (l : list ascii) : list ascii :=
  match l with
  | [] => []
  | c :: l' =>
      match skip with
      | S k => replace_from old new k l'
      | O => if prefix_of old l
             then new ++ replace_from old new (length old - 1) l'
             else c :: replace_from old new 0 l'
      end
  end.

(** [s.replace(p, "")], where [skip] characters of a match are still to be
    dropped. *)
Fixpoint remove_sub (p : list ascii) (skip : nat) (l : list ascii) : list ascii :=
  match l with
  | [] => []
  | c :: l' =>
      match skip with
      | S k => remove_sub p k l'
      | O => if prefix_of p l then remove_sub p (length p - 1) l'
             else c :: remove_sub p O l'
      end
  end.

Fixpoint drop_braces (l : list ascii) : list ascii :=
  match l with
  | c :: l' => if Ascii.eqb c "{" || Ascii.eqb c "}" then drop_braces l' else l
  | [] => []
  end.

(** [UUID(s)]: [None] stands for the [ValueError]. *)
Definition uuid_of_chars (l : list ascii) : option Z :=
  let l := remove_sub (str_to_list "urn:") 0 l in
  let l := remove_sub (str_to_list "uuid:") 0 l in
  let l := reverse (drop_braces (reverse (drop_braces l))) in
  let l := List.filter (λ c, negb (Ascii.eqb c "-")) l in
  if (length l =? 32)%nat then undigits 16 hex_val 0 l else None.

Definition uuid_of_string (s : string) : option Z := uuid_of_chars (str_to_list s).

Definition hex_char (c : ascii) : bool :=
  match hex_val c with Some _ => true | None => false end.

Lemma hex_val_digit d : (0 ≤ d < 16)%Z → hex_val (hex_digit d) = Some d.
Proof. apply (forall_range (λ d, hex_val (hex_digit d) = Some d) 16). vm_compute. done. Qed.

Lemma digits_hex w u : Forall (λ c, hex_char c = true) (digits 16 hex_digit w u).
Proof.
  revert u. induction w as [|w IH]; intros u; simpl; [constructor|].
  apply Forall_app_2; [apply IH|]. constructor; [|constructor].
  unfold hex_char. rewrite hex_val_digit; [done|]. apply Z.mod_pos_bound. done.
Qed.

(** The characters of a printed UUID. *)
Definition uuid_char (c : ascii) : bool := hex_char c || Ascii.eqb c "-".

Lemma uuid_char_not c : uuid_char c = true → c ≠ "u"%char ∧ c ≠ "{"%char ∧ c ≠ "}"%char.
Proof. intros H. split_and!; intros ->; vm_compute in H; done. Qed.

Lemma remove_sub_id p l :
  Forall (λ c, uuid_char c = true) l → remove_sub ("u"%char :: p) 0 l = l.
Proof.
  induction 1 as [|c l Hc Hl IH]; [done|]. cbn [remove_sub prefix_of].
  destruct (Ascii.eqb_spec "u" c) as [<-|]; [by apply uuid_char_not in Hc as []|].
  cbn [andb]. by rewrite IH.
Qed.

Lemma drop_braces_id l : Forall (λ c, uuid_char c = true) l → drop_braces l = l.
Proof.
  destruct 1 as [|c l Hc Hl]; [done|]. apply uuid_char_not in Hc as (_ & H1 & H2).
  simpl. destruct (Ascii.eqb_spec c "{"); [done|]. by destruct (Ascii.eqb_spec c "}").
Qed.

Lemma filter_dash_hex l :
  Forall (λ c, hex_char c = true) l → List.filter (λ c, negb (Ascii.eqb c "-")) l = l.
Proof.
  induction 1 as [|c l Hc Hl IH]; [done|]. simpl.
  destruct (Ascii.eqb_spec c "-") as [->|]; [vm_compute in Hc; done|]. simpl. by rewrite IH.
Qed.

Lemma hex_range : (16 ^ Z.of_nat 32 = 2 ^ 128)%Z.
Proof. vm_compute. reflexivity. Qed.

Lemma uuid_groups (h : list ascii) :
  take 8 h ++ take 4 (drop 8 h) ++ take 4 (drop 12 h) ++ take 4 (drop 16 h) ++ drop 20 h = h.
Proof.
  change 20%nat with (16 + 4)%nat. rewrite <- drop_drop, take_drop.
  change 16%nat with (12 + 4)%nat. rewrite <- drop_drop, take_drop.
  change 12%nat with (8 + 4)%nat. rewrite <- drop_drop, take_drop.
  apply take_drop.
Qed.

Lemma group_uuid_chars h :
  Forall (λ c, hex_char c = true) h → Forall (λ c, uuid_char c = true) (group_uuid h).
Proof.
  intros Hh. assert (Forall (λ c, uuid_char c = true) h) as Hw.
  { revert Hh. apply Forall_impl. intros c Hc. unfold uuid_char. by rewrite Hc. }
  unfold group_uuid.
  repeat (apply Forall_app_2; [by try apply Forall_take; try apply Forall_drop|];
          apply Forall_cons_2; [done|]).
  by apply Forall_drop.
Qed.

Lemma group_uuid_filter h :
  Forall (λ c, hex_char c = true) h →
  List.filter (λ c, negb (Ascii.eqb c "-")) (group_uuid h) = h.
Proof.
  intros Hh. unfold group_uuid.
  repeat (rewrite List.filter_app; cbn [List.filter Ascii.eqb negb Bool.eqb]).
  rewrite !filter_dash_hex by (try apply Forall_take; try apply Forall_drop; exact Hh).
  apply uuid_groups.
Qed.

Lemma uuid_of_chars_group h :
  Forall (λ c, hex_char c = true) h → length h = 32%nat →
  uuid_of_chars (group_uuid h) = undigits 16 hex_val 0 h.
Proof.
  intros Hh Hl. unfold uuid_of_chars. cbn [str_to_list].
  do 2 rewrite (remove_sub_id _ _ (group_uuid_chars h Hh)).
  rewrite (drop_braces_id _ (group_uuid_chars h Hh)).
  rewrite drop_braces_id by (apply Forall_reverse, group_uuid_chars, Hh).
  rewrite reverse_involutive, (group_uuid_filter h Hh), Hl. reflexivity.
Qed.

Lemma uuid_round_trip u :
  (0 ≤ u < 2 ^ 128)%Z → uuid_of_string (uuid_str u) = Some u.
Proof.
  intros Hu. unfold uuid_of_string, uuid_str, uuid_chars. rewrite str_to_of_list.
  rewrite uuid_of_chars_group by (apply digits_hex || apply digits_length).
  apply undigits_digits_fits; [done | apply hex_val_digit |]. by rewrite hex_range.
Qed.

(** ** base64 *)

Definition byte_Z (b : Byte.byte) : Z := Z.of_N (Byte.to_N b).
Definition byte_of_Z (z : Z) : Byte.byte := default Byte.x00 (Byte.of_N (Z.to_N z)).

(** The alphabet [A-Za-z0-9+/]. *)
Definition sextet_char (n : Z) : ascii :=
  if (n <? 26)%Z then ascii_of_nat (65 + Z.to_nat n)
  else if (n <? 52)%Z then ascii_of_nat (71 + Z.to_nat n)
  else if (n <? 62)%Z then ascii_of_nat (Z.to_nat n - 4)
  else if (n =? 62)%Z then "+"%char else "/"%char.

Definition sextet_val (c : ascii) : option Z :=
  let n := Z.of_nat (nat_of_ascii c) in
  if ((65 <=? n) && (n <=? 90))%Z then Some (n - 65)%Z
  else if ((97 <=? n) && (n <=? 122))%Z then Some (n - 71)%Z
  else if ((48 <=? n) && (n <=? 57))%Z then Some (n + 4)%Z
  else if (n =? 43)%Z then Some 62%Z
  else if (n =? 47)%Z then Some 63%Z else None.

(** The sextets of a byte string and the number of [=] signs. *)
Fixpoint b64_sextets (bs : list Z) : list Z * nat :=
  match bs with
  | [] => ([], 0%nat)
  | [a] => ([a / 4; (a mod 4) * 16]%Z, 2%nat)
  | [a; b] => ([a / 4; (a mod 4) * 16 + b / 16; (b mod 16) * 4]%Z, 1%nat)
  | a :: b :: c :: bs =>
      let '(ss, p) := b64_sextets bs in
      ((a / 4)%Z :: ((a mod 4) * 16 + b / 16)%Z :: ((b mod 16) * 4 + c / 64)%Z
       :: (c mod 64)%Z :: ss, p)
  end.

(** [base64.b64encode(bs)]. *)
Definition b64encode (bs : list Byte.byte) : string :=
  let '(ss, p) := b64_sextets (byte_Z <$> bs) in
  str_of_list ((sextet_char <$> ss) ++ repeat "="%char p).

(** The alphabet characters up to the first other character. *)
Fixpoint read_sextets (l : list ascii) : list Z * list ascii :=
  match l with
  | [] => ([], [])
  | c :: l' =>
      match sextet_val c with
      | Some d => let '(ds, r) := read_sextets l' in (d :: ds, r)
      | None => ([], l)
      end
  end.

Fixpoint b64_bytes (ss : list Z) (pads : nat) : option (list Z) :=
  match ss with
  | [] => Some []
  | [_] => None
  | [a; b] => if (pads =? 2)%nat then Some [a * 4 + b / 16]%Z else None
  | [a; b; c] => if (1 <=? pads)%nat
                 then Some [a * 4 + b / 16; (b mod 16) * 16 + c / 4]%Z else None
  | a :: b :: c :: d :: ss =>
      r ← b64_bytes ss pads;
      Some ((a * 4 + b / 16)%Z :: ((b mod 16) * 16 + c / 4)%Z
            :: ((c mod 4) * 64 + d)%Z :: r)
  end.

(** [base64.b64decode(s, validate=True)]: alphabet characters, then at most
    two [=] signs; [None] stands for [binascii.Error]. *)
Definition b64decode (s : string) : option (list Byte.byte) :=
  let '(ss, r) := read_sextets (str_to_list s) in
  if bool_decide (r = []) || bool_decide (r = ["="%char])
     || bool_decide (r = ["="%char; "="%char])
  then fmap (M:=option) (map byte_of_Z) (b64_bytes ss (length r))
  else None.

Lemma byte_Z_range b : (0 ≤ byte_Z b < 256)%Z.
Proof. destruct b; vm_compute; split; congruence. Qed.

Lemma byte_of_Z_byte b : byte_of_Z (byte_Z b) = b.
Proof. destruct b; reflexivity. Qed.

Lemma sextet_val_char n : (0 ≤ n < 64)%Z → sextet_val (sextet_char n) = Some n.
Proof. apply (forall_range (λ n, sextet_val (sextet_char n) = Some n) 64). vm_compute. done. Qed.

Lemma read_sextets_chars ss p :
  Forall (λ n, (0 ≤ n < 64)%Z) ss →
  read_sextets ((sextet_char <$> ss) ++ repeat "="%char p) = (ss, repeat "="%char p).
Proof.
  induction 1 as [|n ss Hn Hss IH]; [by destruct p|].
  cbn [fmap list_fmap app read_sextets]. by rewrite sextet_val_char, IH.
Qed.

(** Three bytes at a time. *)
Lemma list_ind3 {A} (P : list A → Prop) :
  P [] → (∀ a, P [a]) → (∀ a b, P [a; b]) →
  (∀ a b c l, P l → P (a :: b :: c :: l)) → ∀ l, P l.
Proof.
  intros H0 H1 H2 H3. fix IH 1. intros [|a [|b [|c l]]]; [done..|]. apply H3, IH.
Qed.

Lemma b64_sextets_range bs :
  Forall (λ n, (0 ≤ n < 256)%Z) bs →
  Forall (λ n, (0 ≤ n < 64)%Z) (b64_sextets bs).1 ∧ ((b64_sextets bs).2 ≤ 2)%nat.
Proof.
  induction bs as [|a|a b|a b c bs IH] using list_ind3; intros Hb; decompose_Forall;
    cbn [b64_sextets fst snd]; [.. | destruct IH as [IH1 IH2]; [done|];
      destruct (b64_sextets bs) as [ss p]; cbn [fst snd] in *];
    (split; [repeat constructor; try lia; done | lia]).
Qed.

Lemma b64_bytes_sextets bs :
  Forall (λ n, (0 ≤ n < 256)%Z) bs →
  b64_bytes (b64_sextets bs).1 (b64_sextets bs).2 = Some bs.
Proof.
  induction bs as [|a|a b|a b c bs IH] using list_ind3; intros Hb; decompose_Forall.
  - done.
  - cbn. do 2 f_equal. lia.
  - cbn. repeat f_equal; lia.
  - cbn [b64_sextets]. destruct (b64_sextets bs) as [ss p]. cbn [fst snd b64_bytes] in *.
    rewrite IH by done. cbn [mbind option_bind]. repeat f_equal; lia.
Qed.

Lemma base64_round_trip bs : b64decode (b64encode bs) = Some bs.
Proof.
  assert (Forall (λ n, (0 ≤ n < 256)%Z) (byte_Z <$> bs)) as Hb.
  { apply Forall_fmap, Forall_true. intros b. apply byte_Z_range. }
  pose proof (b64_sextets_range _ Hb) as [Hs Hp].
  pose proof (b64_bytes_sextets _ Hb) as Hd.
  unfold b64encode, b64decode. destruct (b64_sextets (byte_Z <$> bs)) as [ss p].
  cbn [fst snd] in *. rewrite str_to_of_list, read_sextets_chars by done.
  rewrite repeat_length, Hd.
  assert (map byte_of_Z (byte_Z <$> bs) = bs) as Hid.
  { clear. induction bs as [|b bs IH]; [done|]. cbn. by rewrite byte_of_Z_byte, IH. }
  destruct p as [|[|[|p]]]; [cbn [fmap option_fmap option_map]; by rewrite Hid ..|lia].
Qed.

Lemma prefix_of_spec p l : prefix_of p l = true ↔ ∃ b, l = p ++ b.
Proof.
  revert l. induction p as [|x p IH]; intros l; [split; [by exists l | by destruct l]|].
  destruct l as [|y l]; simpl; [split; [done | intros [b E]; done]|].
  rewrite andb_true_iff, Ascii.eqb_eq, IH. split.
  - intros [-> [b ->]]. by exists b.
  - intros [b E]. injection E as -> ->. split; [done|]. by exists b.
Qed.

(** ** The characters of a date *)

Definition iso_char (c : ascii) : bool := existsb (Ascii.eqb c) (str_to_list "0123456789-:+.T").

Lemma digits_pad_iso w n : Forall (λ c, iso_char c = true) (digits_pad w n).
Proof.
  rewrite digits_pad_digits. revert n. induction w as [|w IH]; intros n; [constructor|].
  cbn [digits]. apply Forall_app_2; [apply IH|]. constructor; [|constructor].
  apply (forall_range (λ d, iso_char (digit_of d) = true) 10); [vm_compute; done|].
  by apply Z.mod_pos_bound.
Qed.

Lemma isoformat_chars d : Forall (λ c, iso_char c = true) (str_to_list (dt_isoformat d)).
Proof.
  pose proof digits_pad_iso as Hd.
  unfold dt_isoformat, iso_offset, iso_hms. rewrite !str_to_list_app, !str_to_list_pad.
  repeat (apply Forall_app_2; [first [apply Hd | by repeat constructor]|]).
  apply Forall_app_2.
  - destruct (_ =? 0)%Z; [constructor|]. rewrite str_to_list_app, str_to_list_pad.
    apply Forall_app_2; [by repeat constructor | apply Hd].
  - destruct (dt_offset d) as [o|]; [|constructor].
    rewrite !str_to_list_app, !str_to_list_pad.
    apply Forall_app_2; [destruct (_ <? 0)%Z; by repeat constructor|].
    repeat (apply Forall_app_2; [first [apply Hd | by repeat constructor]|]).
    destruct (_ && _); [constructor|]. rewrite !str_to_list_app, !str_to_list_pad.
    repeat (apply Forall_app_2; [first [apply Hd | by repeat constructor]|]).
    destruct (_ =? 0)%Z; [constructor|]. rewrite str_to_list_app, str_to_list_pad.
    apply Forall_app_2; [by repeat constructor | apply Hd].
Qed.

(** What holds of each of these characters holds of the text. *)
Lemma isoformat_Forall (P : ascii → bool) d :
  forallb P (str_to_list "0123456789-:+.T") = true →
  Forall (λ c, P c = true) (str_to_list (dt_isoformat d)).
Proof.
  intros HP. rewrite forallb_forall in HP. refine (List.Forall_impl _ _ (isoformat_chars d)).
  intros c Hc. unfold iso_char in Hc. apply existsb_exists in Hc as (x & Hx & Hcx).
  apply Ascii.eqb_eq in Hcx as ->. by apply HP.
Qed.

(** ** Different numbers have different texts *)

Definition digits_value (l : list ascii) : Z :=
  foldl (λ n c, (n * 10 + default 0 (digit_val c))%Z) 0%Z l.

Lemma dec_digits_value f n : (0 ≤ n < 10 ^ Z.of_nat f)%Z → digits_value (dec_digits f n) = n.
Proof.
  revert n. induction f as [|f IH]; intros n Hn; [cbn in *; lia|]. cbn [dec_digits].
  rewrite Nat2Z.inj_succ, Z.pow_succ_r in Hn by lia. unfold digits_value in *.
  destruct (n <? 10)%Z eqn:E.
  - cbn. rewrite digit_val_of by lia. cbn. lia.
  - rewrite foldl_app, IH by lia. cbn. rewrite digit_val_of by lia. cbn. lia.
Qed.

Lemma str_of_Z_value n : (0 ≤ n)%Z → digits_value (str_to_list (str_of_Z n)) = n.
Proof.
  intros Hn. unfold str_of_Z. rewrite (proj2 (Z.ltb_ge _ _) Hn), str_to_of_list, Z.abs_eq by done.
  apply dec_digits_value. split; [done|]. rewrite Nat2Z.inj_succ, Z2Nat.id by apply Z.log2_nonneg.
  destruct (decide (n = 0%Z)) as [->|]; [done|].
  apply Z.lt_le_trans with (2 ^ Z.succ (Z.log2 n))%Z; [apply Z.log2_spec; lia|].
  apply Z.pow_le_mono_l. lia.
Qed.

Lemma str_of_Z_inj n m : (0 ≤ n)%Z → (0 ≤ m)%Z → str_of_Z n = str_of_Z m → n = m.
Proof. intros Hn Hm E. by rewrite <- (str_of_Z_value n), E, str_of_Z_value. Qed.
