(* ===== verification/Codec.v ===== *)
(** * The value codec ([onestep/capture/codec.py])

    [encode_value] turns a payload into a JSON document, using objects with
    the single key ["$onestep"] for the types JSON lacks; [decode_value]
    reads it back.  JSON documents have a type of their own here (object
    keys are strings, as [json.loads] guarantees).  The classes loaded in the
    process, Python's [==], [Decimal] parsing and the text of a float are
    parameters ([CodecEnv]).  The round trip is stated up to the iteration
    order of sets. *)

From stdpp Require Import base option list strings numbers sorting.
From Stdlib Require Import ZArith Lia Ascii.
From S2P Require Import Prelude PyFloat Value Texts.

Set Warnings "-register-all".

(** ** JSON documents *)

Inductive json : Type :=
| JNull
| JBool (b : bool)
| JInt (n : Z)
| JFloat (x : float64)
| JStr (s : string)
| JList (js : list json)
| JObj (items : list (string * json)).

(** What an attribute path of a loaded module is bound to. *)
Inductive pyclass :=
| ClsEnum (members : list (string * value))
| ClsNamedTuple (fields : list string)
| ClsOther
| NotAType.

(** The process the codec runs in. *)
Class CodecEnv := {
  (** [m in sys.modules] *)
  module_loaded : string → bool;
  (** the object [qualname] names in a loaded module *)
  loaded_object : string → string → option pyclass;
  (** [a == b], of values that share no object *)
  py_eq : value → value → bool;
  (** the text of an instance of a subclass of [str], such as a member of an
      enumeration that mixes [str] in *)
  subclass_text : value → option string;
  (** [str(Decimal(s))], [None] when [Decimal] raises [InvalidOperation] *)
  decimal_of_string : string → option string;
  (** [repr(x)] of a finite float *)
  float_repr : float64 → string;
}.

Definition TAG : string := "$onestep".

(** ** Errors and names *)

Definition or_slash (path : string) : string :=
  if str_nonempty path then path else "/".

Definition CaptureEncodingError (path type_name reason : string) : exn :=
  Exn (CCaptureEncoding (or_slash path) type_name) "CaptureEncodingError"
    ("cannot encode " +:+ type_name +:+ " at " +:+ or_slash path +:+ ": " +:+ reason) None.

Definition value_error_at (msg path : string) : exn :=
  value_error (msg +:+ " at " +:+ or_slash path).

(** [_type_name]. *)
Definition _type_name (v : value) : string :=
  match v with
  | VNone => "builtins.NoneType" | VBool _ => "builtins.bool" | VInt _ => "builtins.int"
  | VFloat _ => "builtins.float" | VStr _ => "builtins.str" | VBytes _ => "builtins.bytes"
  | VDatetime _ => "datetime.datetime" | VUuid _ => "uuid.UUID"
  | VDecimal _ => "decimal.Decimal" | VTuple _ => "builtins.tuple"
  | VSet _ => "builtins.set" | VFrozenset _ => "builtins.frozenset"
  | VList _ => "builtins.list" | VDict _ => "builtins.dict"
  | VEnum m q _ _ | VNamedTuple m q _ _ | VObj m q => m +:+ "." +:+ q
  end.

(** [_pointer]: JSON pointer escaping. *)
Definition escape_char (c : ascii) : list ascii :=
  if Ascii.eqb c "~" then ["~"%char; "0"%char]
  else if Ascii.eqb c "/" then ["~"%char; "1"%char] else [c].

Definition _pointer (path token : string) : string :=
  path +:+ "/" +:+ str_of_list (str_to_list token ≫= escape_char).

(** [_tag]. *)
Definition _tag (type_name : string) (fields : list (string * json)) : json :=
  JObj [(TAG, JObj (("type", JStr type_name) :: fields))].

Definition is_local (qualname : string) : bool :=
  existsb (String.eqb "<locals>") (split_on "." qualname).

(** ** The sort key of set members: [json.dumps] with sorted keys, compact
    separators and ASCII output *)

Definition quote : ascii := "034"%char.

Definition hex4 (n : Z) : list ascii := digits 16 hex_digit 4 n.

Definition dump_char (c : ascii) : list ascii :=
  let n := nat_of_ascii c in
  if (n =? 34)%nat then ["\"%char; quote]
  else if (n =? 92)%nat then ["\"; "\"]%char
  else if (n =? 8)%nat then ["\"; "b"]%char
  else if (n =? 9)%nat then ["\"; "t"]%char
  else if (n =? 10)%nat then ["\"; "n"]%char
  else if (n =? 12)%nat then ["\"; "f"]%char
  else if (n =? 13)%nat then ["\"; "r"]%char
  else if ((32 <=? n) && (n <=? 126))%nat then [c]
  else ["\"; "u"]%char ++ hex4 (Z.of_nat n).

Definition dump_string (s : string) : list ascii :=
  [quote] ++ (str_to_list s ≫= dump_char) ++ [quote].

(** Stable insertion sort by a string key. *)
Fixpoint insert_by {A} (key : A → string) (x : A) (l : list A) : list A :=
  match l with
  | [] => [x]
  | y :: l' => if String.leb (key x) (key y) then x :: l else y :: insert_by key x l'
  end.

Fixpoint sort_by {A} (key : A → string) (l : list A) : list A :=
  match l with
  | [] => []
  | x :: l' => insert_by key x (sort_by key l')
  end.

Fixpoint join (sep : list ascii) (ls : list (list ascii)) : list ascii :=
  match ls with
  | [] => []
  | [l] => l
  | l :: ls => l ++ sep ++ join sep ls
  end.

Section Codec.
Context `{CodecEnv}.

(** [json.dumps(j, sort_keys=True, separators=(",", ":"), ensure_ascii=True)]. *)
Fixpoint dumps (j : json) : list ascii :=
  match j with
  | JNull => str_to_list "null"
  | JBool b => str_to_list (if b then "true" else "false")
  | JInt n => str_to_list (str_of_Z n)
  | JFloat x => str_to_list (float_repr x)
  | JStr s => dump_string s
  | JList js => "["%char :: join [","%char] (map dumps js) ++ ["]"%char]
  | JObj items =>
      let texts := (fix go items :=
        match items with
        | [] => []
        | (k, j) :: items => (k, dumps j) :: go items
        end) items in
      "{"%char
      :: join [","%char]
           (map (λ kt, dump_string kt.1 ++ ":"%char :: kt.2) (sort_by fst texts))
      ++ ["}"%char]
  end.

(** ** Encoding *)

(** [_ensure_replayable_type]: [cls] is the class the value is an instance
    of. *)
Definition _ensure_replayable_type (module_name qualname path : string)
    (is_cls : pyclass → bool) : result exn unit :=
  let tn := module_name +:+ "." +:+ qualname in
  if is_local qualname
  then Err (CaptureEncodingError path tn "local recorded type is not replayable")
  else
    let resolved := if module_loaded module_name
                    then loaded_object module_name qualname else None in
    match resolved with
    | Some c =>
        if is_cls c then Ok ()
        else Err (CaptureEncodingError path tn
                    "recorded type is not replayable from the loaded module")
    | None => Err (CaptureEncodingError path tn
                    "recorded type is not replayable from the loaded module")
    end.

Definition is_enum_class (c : pyclass) : bool :=
  match c with ClsEnum _ => true | _ => false end.
Definition is_namedtuple_class (c : pyclass) : bool :=
  match c with ClsNamedTuple _ => true | _ => false end.

(** The text of a key for which [isinstance(key, str)] holds. *)
Definition key_text (key : value) : option string :=
  match key with
  | VStr s => Some s
  | VEnum _ _ _ _ | VObj _ _ => subclass_text key
  | _ => None
  end.

(** A subclass of [str] compares and hashes as its text. *)
Definition key_is (k : string) (key : value) : bool :=
  match key_text key with Some s => String.eqb k s | None => false end.

(** The first key that is not a string. *)
Fixpoint bad_key (items : list (value * value)) : option value :=
  match items with
  | [] => None
  | (k, _) :: items => match key_text k with Some _ => bad_key items | None => Some k end
  end.

Definition has_tag (items : list (value * value)) : bool := existsb (λ kv, key_is TAG kv.1) items.

(** The comprehensions of [encode_value] over its members. *)
Definition enc_list (enc : string → value → result exn json) (path : string) :=
  fix go (i : Z) (vs : list value) : result exn (list json) :=
    match vs with
    | [] => Ok []
    | v :: vs => j ← enc (_pointer path (str_of_Z i)) v;
                 js ← go (i + 1)%Z vs; Ok (j :: js)
    end.

Definition enc_fields (enc : string → value → result exn json) (path : string) :=
  fix go (fields : list string) (vs : list value) {struct vs} : result exn (list json) :=
    match vs, fields with
    | v :: vs, f :: fields => j ← enc (_pointer path f) v;
                              js ← go fields vs; Ok (j :: js)
    | _, _ => Ok []
    end.

Definition enc_set (enc : string → value → result exn json) (path : string) :=
  fix go (vs : list value) : result exn (list json) :=
    match vs with
    | [] => Ok []
    | v :: vs => j ← enc (_pointer path "set") v; js ← go vs; Ok (j :: js)
    end.

Definition enc_items (enc : string → value → result exn json) (path : string) :=
  fix go (items : list (value * value)) : result exn (list (string * json)) :=
    match items with
    | [] => Ok []
    | (key, v) :: items =>
        match key_text key with
        | Some k => j ← enc (_pointer path k) v; js ← go items; Ok ((k, j) :: js)
        | None => Ok []
        end
    end.

(** [encode_value]. *)
Fixpoint encode_value (path : string) (v : value) {struct v} : result exn json :=
  match v with
  | VEnum m q n v' =>
      _ ← _ensure_replayable_type m q path is_enum_class;
      j ← encode_value (_pointer path "value") v';
      Ok (_tag "enum" [("module", JStr m); ("qualname", JStr q); ("name", JStr n);
                       ("value", j)])
  | VNone => Ok JNull
  | VBool b => Ok (JBool b)
  | VInt n => Ok (JInt n)
  | VStr s => Ok (JStr s)
  | VFloat x =>
      if isfinite x then Ok (JFloat x)
      else Err (CaptureEncodingError path "builtins.float" "non-finite float")
  | VDatetime d =>
      Ok (_tag "datetime" [("value", JStr (dt_isoformat d));
                           ("fold", JInt (if dt_fold d then 1 else 0))])
  | VUuid u => Ok (_tag "uuid" [("value", JStr (uuid_str u))])
  | VBytes bs => Ok (_tag "bytes" [("value", JStr (b64encode bs))])
  | VDecimal t => Ok (_tag "decimal" [("value", JStr t)])
  | VNamedTuple m q fields vs =>
      _ ← _ensure_replayable_type m q path is_namedtuple_class;
      js ← enc_fields encode_value path fields vs;
      Ok (_tag "namedtuple" [("module", JStr m); ("qualname", JStr q);
                             ("fields", JList (map JStr fields)); ("values", JList js)])
  | VTuple vs => js ← enc_list encode_value path 0%Z vs; Ok (_tag "tuple" [("values", JList js)])
  | VSet vs =>
      js ← enc_set encode_value path vs;
      Ok (_tag "set" [("values", JList (sort_by (λ j, str_of_list (dumps j)) js))])
  | VFrozenset vs =>
      js ← enc_set encode_value path vs;
      Ok (_tag "frozenset" [("values", JList (sort_by (λ j, str_of_list (dumps j)) js))])
  | VList vs => js ← enc_list encode_value path 0%Z vs; Ok (JList js)
  | VDict items =>
      match bad_key items with
      | Some k => Err (CaptureEncodingError path (_type_name k) "mapping keys must be strings")
      | None =>
          kvs ← enc_items encode_value path items;
          Ok (if has_tag items
              then _tag "mapping" [("items", JList (map (λ kj, JList [JStr kj.1; kj.2]) kvs))]
              else JObj kvs)
      end
  | VObj _ _ => Err (CaptureEncodingError path (_type_name v) "unsupported value type")
  end.

(** ** Decoding *)

(** [_require_fields]: the keys of the tag are exactly ["type"] and
    [fields]. *)
Definition has_keys (payload : list (string * json)) (fields : list string) : bool :=
  forallb (λ kj, existsb (String.eqb kj.1) ("type" :: fields)) payload
  && forallb (λ k, existsb (String.eqb k) (dict_keys payload)) ("type" :: fields).

Definition _require_fields (payload : list (string * json)) (type_name : string)
    (fields : list string) (path : string) : result exn unit :=
  guard_else (has_keys payload fields)
    (value_error_at ("invalid " +:+ type_name +:+ " tag fields") path).

(** [_resolve_loaded_type]. *)
Definition _resolve_loaded_type (m q : option json) (path : string)
    : result exn (string * string * pyclass) :=
  match m, q with
  | Some (JStr m), Some (JStr q) =>
      if is_local q
      then Err (value_error_at "local recorded type is not replayable" path)
      else if negb (module_loaded m)
      then Err (value_error_at ("recorded module '" +:+ m +:+ "' is not loaded") path)
      else match loaded_object m q with
           | None => Err (value_error_at
               ("recorded type " +:+ m +:+ "." +:+ q +:+ " is unavailable") path)
           | Some NotAType => Err (value_error_at "recorded object is not a type" path)
           | Some c => Ok (m, q, c)
           end
  | _, _ => Err (value_error_at "invalid recorded type" path)
  end.

(** [payload["fold"] not in {0, 1}], then [replace(fold=...)]. *)
Definition fold_of (j : option json) (path : string) : result exn bool :=
  match j with
  | Some (JInt 0) | Some (JBool false) => Ok false
  | Some (JInt 1) | Some (JBool true) => Ok true
  | Some (JFloat x) =>
      if SpecFloat.SFeqb x f_zero || SpecFloat.SFeqb x f_one
      then Err (type_error "'float' object cannot be interpreted as an integer")
      else Err (value_error_at "invalid datetime tag" path)
  | Some (JList _) => Err (type_error "unhashable type: 'list'")
  | Some (JObj _) => Err (type_error "unhashable type: 'dict'")
  | _ => Err (value_error_at "invalid datetime tag" path)
  end.

(** A member of a set must be hashable. *)
Fixpoint hashable (v : value) : bool :=
  match v with
  | VList _ | VDict _ | VSet _ => false
  | VTuple vs | VNamedTuple _ _ _ vs => forallb hashable vs
  | _ => true
  end.

(** [set(items)]: the first of equal members stays. *)
Fixpoint distinct (seen vs : list value) : list value :=
  match vs with
  | [] => []
  | v :: vs => if existsb (λ w, py_eq w v) seen then distinct seen vs
               else v :: distinct (seen ++ [v]) vs
  end.

Definition all_strings (js : list json) : option (list string) :=
  mapM (λ j, match j with JStr s => Some s | _ => None end) js.

(** The continuation [f] applied to the value of a key. *)
Definition with_key {A} (k : string) (none : A) (f : json → A) :=
  fix go (items : list (string * json)) : A :=
    match items with
    | [] => none
    | (k', j) :: items => if String.eqb k k' then f j else go items
    end.

(** The comprehensions and loops of [decode_value] over its members. *)
Definition dec_list (dec : string → json → result exn value) (path : string) :=
  fix go (i : Z) (js : list json) : result exn (list value) :=
    match js with
    | [] => Ok []
    | j :: js => v ← dec (_pointer path (str_of_Z i)) j;
                 vs ← go (i + 1)%Z js; Ok (v :: vs)
    end.

Definition dec_items (dec : string → json → result exn value) (path : string) :=
  fix go (items : list (string * json)) : result exn (list (value * value)) :=
    match items with
    | [] => Ok []
    | (k, j) :: items => v ← dec (_pointer path k) j;
                         vs ← go items; Ok ((VStr k, v) :: vs)
    end.

Definition dec_pairs (dec : string → json → result exn value) (path : string) :=
  fix go (i : Z) (seen : list string) (js : list json)
      : result exn (list (value * value)) :=
    match js with
    | [] => Ok []
    | JList [JStr k; j] :: js =>
        if existsb (String.eqb k) seen
        then Err (value_error_at "invalid mapping item" (_pointer path (str_of_Z i)))
        else v ← dec (_pointer path k) j;
             vs ← go (i + 1)%Z (k :: seen) js; Ok ((VStr k, v) :: vs)
    | _ :: _ => Err (value_error_at "invalid mapping item" (_pointer path (str_of_Z i)))
    end.

Definition dec_fields (dec : string → json → result exn value) (path : string) :=
  fix go (fields : list string) (js : list json) {struct js} : result exn (list value) :=
    match js, fields with
    | j :: js, f :: fields => v ← dec (_pointer path f) j;
                              vs ← go fields js; Ok (v :: vs)
    | _, _ => Ok []
    end.

(** [decode_value]. *)
Fixpoint decode_value (path : string) (j : json) {struct j} : result exn value :=
  match j with
  | JNull => Ok VNone
  | JBool b => Ok (VBool b)
  | JInt n => Ok (VInt n)
  | JStr s => Ok (VStr s)
  | JFloat x => if isfinite x then Ok (VFloat x)
                else Err (value_error_at "non-finite float" path)
  | JList js => vs ← dec_list decode_value path 0%Z js; Ok (VList vs)
  | JObj items =>
      if negb (existsb (String.eqb TAG) (dict_keys items))
      then kvs ← dec_items decode_value path items; Ok (VDict kvs)
      else
        match items with
        | [(_, JObj payload)] =>
            match dict_get "type" payload with
            | Some (JStr "datetime") =>
                _ ← _require_fields payload "datetime" ["value"; "fold"] path;
                match dict_get "value" payload with
                | Some (JStr s) =>
                    f ← fold_of (dict_get "fold" payload) path;
                    match fromisoformat s with
                    | Some d => Ok (VDatetime (PyDatetime (dt_wall d) (dt_offset d) f))
                    | None => Err (value_error ("Invalid isoformat string: '" +:+ s +:+ "'"))
                    end
                | _ => Err (value_error_at "invalid datetime tag" path)
                end
            | Some (JStr "uuid") =>
                _ ← _require_fields payload "uuid" ["value"] path;
                match dict_get "value" payload with
                | Some (JStr s) =>
                    match uuid_of_string s with
                    | Some u => Ok (VUuid u)
                    | None => Err (value_error "badly formed hexadecimal UUID string")
                    end
                | _ => Err (value_error_at "invalid uuid tag" path)
                end
            | Some (JStr "bytes") =>
                _ ← _require_fields payload "bytes" ["value"] path;
                match dict_get "value" payload with
                | Some (JStr s) =>
                    match b64decode s with
                    | Some bs => Ok (VBytes bs)
                    | None => Err (value_error_at "invalid bytes tag" path)
                    end
                | _ => Err (value_error_at "invalid bytes tag" path)
                end
            | Some (JStr "decimal") =>
                _ ← _require_fields payload "decimal" ["value"] path;
                match dict_get "value" payload with
                | Some (JStr s) =>
                    match decimal_of_string s with
                    | Some t => Ok (VDecimal t)
                    | None => Err (Exn CException "InvalidOperation"
                                     "[<class 'decimal.ConversionSyntax'>]" None)
                    end
                | _ => Err (value_error_at "invalid decimal tag" path)
                end
            | Some (JStr "tuple") =>
                _ ← _require_fields payload "tuple" ["values"] path;
                with_key "values" (Err (value_error_at "invalid tuple tag" path))
                  (λ j, match j with
                        | JList js => vs ← dec_list decode_value path 0%Z js; Ok (VTuple vs)
                        | _ => Err (value_error_at "invalid tuple tag" path)
                        end) payload
            | Some (JStr "set") =>
                _ ← _require_fields payload "set" ["values"] path;
                with_key "values" (Err (value_error_at "invalid set tag" path))
                  (λ j, match j with
                        | JList js =>
                            vs ← dec_list decode_value path 0%Z js;
                            if forallb hashable vs then Ok (VSet (distinct [] vs))
                            else Err (value_error_at "unhashable set member" path)
                        | _ => Err (value_error_at "invalid set tag" path)
                        end) payload
            | Some (JStr "frozenset") =>
                _ ← _require_fields payload "frozenset" ["values"] path;
                with_key "values" (Err (value_error_at "invalid frozenset tag" path))
                  (λ j, match j with
                        | JList js =>
                            vs ← dec_list decode_value path 0%Z js;
                            if forallb hashable vs then Ok (VFrozenset (distinct [] vs))
                            else Err (value_error_at "unhashable frozenset member" path)
                        | _ => Err (value_error_at "invalid frozenset tag" path)
                        end) payload
            | Some (JStr "mapping") =>
                _ ← _require_fields payload "mapping" ["items"] path;
                with_key "items" (Err (value_error_at "invalid mapping tag" path))
                  (λ j, match j with
                        | JList js => kvs ← dec_pairs decode_value path 0%Z [] js; Ok (VDict kvs)
                        | _ => Err (value_error_at "invalid mapping tag" path)
                        end) payload
            | Some (JStr "enum") =>
                _ ← _require_fields payload "enum"
                      ["module"; "qualname"; "name"; "value"] path;
                '(m, q, c) ← _resolve_loaded_type (dict_get "module" payload)
                               (dict_get "qualname" payload) path;
                match c, dict_get "name" payload with
                | ClsEnum members, Some (JStr n) =>
                    match dict_get n members with
                    | None => Err (value_error_at "enum member changed" path)
                    | Some w =>
                        r ← with_key "value" (Err (key_error "value"))
                              (decode_value (_pointer path "value")) payload;
                        if py_eq w r then Ok (VEnum m q n w)
                        else Err (value_error_at "enum value changed" path)
                    end
                | _, _ => Err (value_error_at "recorded type is not an enum" path)
                end
            | Some (JStr "namedtuple") =>
                _ ← _require_fields payload "namedtuple"
                      ["module"; "qualname"; "fields"; "values"] path;
                '(m, q, c) ← _resolve_loaded_type (dict_get "module" payload)
                               (dict_get "qualname" payload) path;
                let changed := Err (value_error_at "namedtuple definition changed" path) in
                match dict_get "fields" payload with
                | Some (JList fs) =>
                    match all_strings fs with
                    | Some fields =>
                        with_key "values" changed
                          (λ j, match j with
                                | JList js =>
                                    if negb (length fields =? length js)%nat then changed
                                    else
                                      let declared := match c with
                                                      | ClsNamedTuple fs' => fs'
                                                      | _ => []
                                                      end in
                                      if negb (bool_decide (declared = fields)) then changed
                                      else
                                        vs ← dec_fields decode_value path fields js;
                                        match c with
                                        | ClsNamedTuple _ => Ok (VNamedTuple m q fields vs)
                                        | ClsEnum _ => Err (type_error "missing value")
                                        | _ => Ok (VObj m q)
                                        end
                                | _ => changed
                                end) payload
                    | None => changed
                    end
                | _ => changed
                end
            | Some (JStr t) =>
                Err (value_error_at ("unknown extension type '" +:+ t +:+ "'") path)
            | _ => Err (value_error_at "extension type must be a string" path)
            end
        | _ => Err (value_error_at "invalid extension tag" path)
        end
  end.

(** ** What Python guarantees of a value, and equality up to set order *)

Definition all_values (P : value → Prop) :=
  fix go (vs : list value) : Prop :=
    match vs with [] => True | v :: vs => P v ∧ go vs end.

Definition all_items (P : value → Prop) :=
  fix go (items : list (value * value)) : Prop :=
    match items with [] => True | (_, v) :: items => P v ∧ go items end.

(** No member of a set equals an earlier one. *)
Fixpoint pairwise_distinct (seen vs : list value) : Prop :=
  match vs with
  | [] => True
  | v :: vs => Forall (λ w, py_eq w v = false) seen ∧ pairwise_distinct (seen ++ [v]) vs
  end.

(** Members of sets are distinct and hashable, dict keys that are strings
    have different texts, a datetime and a UUID are in range, and an instance
    of a named tuple agrees with its class; [member_ok] of the instances of
    enumerations. *)
Fixpoint value_ok (member_ok : string → string → string → value → Prop) (v : value) : Prop :=
  match v with
  | VDatetime d => valid_datetime d = true
  | VUuid u => (0 ≤ u < 2 ^ 128)%Z
  | VDecimal t => decimal_of_string t = Some t
  | VEnum m q n w => value_ok member_ok w ∧ member_ok m q n w
  | VNamedTuple m q fields vs =>
      all_values (value_ok member_ok) vs ∧ length vs = length fields ∧
      ∀ fs, loaded_object m q = Some (ClsNamedTuple fs) → fs = fields
  | VTuple vs | VList vs => all_values (value_ok member_ok) vs
  | VSet vs | VFrozenset vs =>
      all_values (value_ok member_ok) vs ∧ forallb hashable vs = true ∧
      ∀ ws, vs ≡ₚ ws → pairwise_distinct [] ws
  | VDict items => all_items (value_ok member_ok) items ∧ NoDup (omap key_text items.*1)
  | _ => True
  end.

(** A member that can be read back: its class has it under its name (a
    combination of flags has none), and its value equals itself (a NaN does
    not). *)
Definition named_member (m q n : string) (w : value) : Prop :=
  py_eq w w = true ∧
  ∀ members, loaded_object m q = Some (ClsEnum members) → dict_get n members = Some w.

(** What Python guarantees of every value; and that it can be read back. *)
Abbreviation wf_value := (value_ok (λ _ _ _ _, True)).
Abbreviation replayable := (value_ok named_member).

(** The same key, or keys with the same text. *)
Definition same_key (k k' : value) : Prop :=
  k = k' ∨ ∃ s, key_text k = Some s ∧ key_text k' = Some s.

(** Equality of values up to the iteration order of sets and the class of
    string keys. *)
Inductive veq : value → value → Prop :=
| veq_refl v : veq v v
| veq_namedtuple m q fs vs vs' :
    Forall2 veq vs vs' → veq (VNamedTuple m q fs vs) (VNamedTuple m q fs vs')
| veq_tuple vs vs' : Forall2 veq vs vs' → veq (VTuple vs) (VTuple vs')
| veq_list vs vs' : Forall2 veq vs vs' → veq (VList vs) (VList vs')
| veq_set vs ws vs' :
    vs ≡ₚ ws → Forall2 veq ws vs' → veq (VSet vs) (VSet vs')
| veq_frozenset vs ws vs' :
    vs ≡ₚ ws → Forall2 veq ws vs' → veq (VFrozenset vs) (VFrozenset vs')
| veq_dict items items' :
    Forall2 (λ a b, same_key a.1 b.1 ∧ veq a.2 b.2) items items' →
    veq (VDict items) (VDict items').

(** [==] does not see the iteration order of sets, nor the class of string
    keys.  It need not be reflexive. *)
Class PyEqLaws := {
  py_eq_respects v v' w w' : veq v v' → veq w w' → py_eq v w = py_eq v' w';
}.

(** ** Lemmas on sorting and sets *)

Lemma value_ok_impl (P Q : string → string → string → value → Prop) v :
  (∀ m q n w, P m q n w → Q m q n w) → value_ok P v → value_ok Q v.
Proof.
  intros HPQ.
  assert (∀ vs, Forall (λ v, value_ok P v → value_ok Q v) vs → all_values (value_ok P) vs →
    all_values (value_ok Q) vs) as Hvs by (induction 1; cbn; tauto).
  induction v as [| | | | | | | | | m q n w IH | m q fs vs IH | vs IH | vs IH | vs IH | vs IH | items IH |]
    using value_rect_strong; cbn; try done.
  - intros [Hw Hm]. auto.
  - intros (Hw & ? & ?). auto.
  - by apply Hvs.
  - intros (Hw & ? & ?). auto.
  - intros (Hw & ? & ?). auto.
  - by apply Hvs.
  - intros [Hi Hn]. split; [|done]. clear Hn. induction IH as [|[k v] items [_ Hv] _ IHi]; cbn in *; tauto.
Qed.

Lemma insert_by_perm {A} (key : A → string) x l : insert_by key x l ≡ₚ x :: l.
Proof.
  induction l as [|y l IH]; simpl; [done|]. destruct (String.leb _ _); [done|].
  rewrite IH. apply Permutation_swap.
Qed.

Lemma sort_by_perm {A} (key : A → string) l : sort_by key l ≡ₚ l.
Proof. induction l as [|x l IH]; simpl; [done|]. by rewrite insert_by_perm, IH. Qed.

Lemma all_values_Forall P vs : all_values P vs ↔ Forall P vs.
Proof.
  induction vs as [|v vs IH]; simpl; [split; done|]. rewrite IH, Forall_cons. done.
Qed.

Lemma all_items_Forall P items : all_items P items ↔ Forall (λ kv, P kv.2) items.
Proof.
  induction items as [|[k v] items IH]; simpl; [split; done|]. rewrite IH, Forall_cons. done.
Qed.

Lemma distinct_id seen vs : pairwise_distinct seen vs → distinct seen vs = vs.
Proof.
  revert seen. induction vs as [|v vs IH]; intros seen; simpl; [done|].
  intros [Hs Hd]. destruct (existsb _ seen) eqn:E; [|by rewrite IH].
  apply existsb_exists in E as (w & Hw & E). apply list_elem_of_In in Hw.
  rewrite Forall_forall in Hs. apply Hs in Hw. congruence.
Qed.

Lemma pairwise_distinct_veq `{PL : !PyEqLaws} seen seen' vs vs' :
  Forall2 veq seen seen' → Forall2 veq vs vs' →
  pairwise_distinct seen vs → pairwise_distinct seen' vs'.
Proof.
  intros Hs Hv. revert seen seen' Hs.
  induction Hv as [|v v' vs vs' Hv Hvs IH]; intros seen seen' Hs; simpl; [done|].
  intros [Hd Hr]. split.
  - clear -Hs Hd Hv PL. induction Hs as [|s s' seen seen' Hss Hs IH]; [done|].
    apply Forall_cons in Hd as [Hd1 Hd2]. constructor; [|by apply IH].
    by rewrite <- (py_eq_respects s s' v v').
  - eapply IH, Hr. apply Forall2_app; [done|]. by constructor.
Qed.

Lemma forallb_Forall2 {A} (f : A → bool) (R : A → A → Prop) l l' :
  Forall (λ x, ∀ y, R x y → f y = f x) l → Forall2 R l l' → forallb f l' = forallb f l.
Proof.
  intros Hf Hr. induction Hr as [|x y l l' Hxy Hr IH]; [done|].
  apply Forall_cons in Hf as [Hx Hl]. simpl. by rewrite Hx, IH.
Qed.

Lemma hashable_veq v : ∀ v', veq v v' → hashable v' = hashable v.
Proof.
  induction v using value_rect_strong; intros v' Hv; inversion Hv; subst;
    try done; simpl; by eapply forallb_Forall2.
Qed.

Lemma forallb_perm {A} (f : A → bool) l l' : l ≡ₚ l' → forallb f l = forallb f l'.
Proof.
  induction 1 as [| x l l' _ IH | x y l | l l' l'' _ IH1 _ IH2]; simpl;
    [done | by rewrite IH | | by rewrite IH1].
  by destruct (f x), (f y).
Qed.

(** ** What [decode_value] does on the tags [encode_value] writes *)

Lemma decode_datetime path t f d :
  fromisoformat t = Some d →
  decode_value path (_tag "datetime" [("value", JStr t); ("fold", JInt (if f : bool then 1 else 0))])
  = Ok (VDatetime (PyDatetime (dt_wall d) (dt_offset d) f)).
Proof. intros Ht. destruct f; cbn; by rewrite Ht. Qed.

Lemma decode_uuid path t u :
  uuid_of_string t = Some u → decode_value path (_tag "uuid" [("value", JStr t)]) = Ok (VUuid u).
Proof. intros Ht. cbn. by rewrite Ht. Qed.

Lemma decode_bytes path t bs :
  b64decode t = Some bs → decode_value path (_tag "bytes" [("value", JStr t)]) = Ok (VBytes bs).
Proof. intros Ht. cbn. by rewrite Ht. Qed.

Lemma decode_decimal path t t' :
  decimal_of_string t = Some t' →
  decode_value path (_tag "decimal" [("value", JStr t)]) = Ok (VDecimal t').
Proof. intros Ht. cbn. by rewrite Ht. Qed.

Lemma decode_tuple path js :
  decode_value path (_tag "tuple" [("values", JList js)])
  = (vs ← dec_list decode_value path 0 js; Ok (VTuple vs)).
Proof. reflexivity. Qed.

Lemma decode_set path js :
  decode_value path (_tag "set" [("values", JList js)])
  = (vs ← dec_list decode_value path 0 js;
     if forallb hashable vs then Ok (VSet (distinct [] vs))
     else Err (value_error_at "unhashable set member" path)).
Proof. reflexivity. Qed.

Lemma decode_frozenset path js :
  decode_value path (_tag "frozenset" [("values", JList js)])
  = (vs ← dec_list decode_value path 0 js;
     if forallb hashable vs then Ok (VFrozenset (distinct [] vs))
     else Err (value_error_at "unhashable frozenset member" path)).
Proof. reflexivity. Qed.

Lemma decode_mapping path js :
  decode_value path (_tag "mapping" [("items", JList js)])
  = (kvs ← dec_pairs decode_value path 0 [] js; Ok (VDict kvs)).
Proof. reflexivity. Qed.

Lemma decode_enum path m q n j members w r :
  is_local q = false → module_loaded m = true →
  loaded_object m q = Some (ClsEnum members) → dict_get n members = Some w →
  decode_value (_pointer path "value") j = Ok r → py_eq w r = true →
  decode_value path (_tag "enum" [("module", JStr m); ("qualname", JStr q);
                                  ("name", JStr n); ("value", j)])
  = Ok (VEnum m q n w).
Proof.
  intros Hl Hm Ho Hn Hj He. cbn -[is_local]. rewrite Hl, Hm, Ho. cbn. by rewrite Hn, Hj; cbn; rewrite He.
Qed.

Lemma all_strings_map fs : all_strings (map JStr fs) = Some fs.
Proof. unfold all_strings. induction fs as [|f fs IH]; [done|]. cbn. by rewrite IH. Qed.

Lemma decode_namedtuple path m q fields js :
  is_local q = false → module_loaded m = true →
  loaded_object m q = Some (ClsNamedTuple fields) → length js = length fields →
  decode_value path (_tag "namedtuple" [("module", JStr m); ("qualname", JStr q);
                       ("fields", JList (map JStr fields)); ("values", JList js)])
  = (vs ← dec_fields decode_value path fields js; Ok (VNamedTuple m q fields vs)).
Proof.
  intros Hl Hm Ho Hlen. cbn -[is_local all_strings dec_fields]. rewrite Hl, Hm, Ho.
  cbn -[all_strings dec_fields]. rewrite all_strings_map, Hlen, Nat.eqb_refl.
  cbn -[dec_fields]. by rewrite bool_decide_true.
Qed.

Lemma ensure_replayable_ok m q path f u :
  _ensure_replayable_type m q path f = Ok u →
  is_local q = false ∧ module_loaded m = true ∧
  ∃ c, loaded_object m q = Some c ∧ f c = true.
Proof.
  unfold _ensure_replayable_type. destruct (is_local q); [done|].
  destruct (module_loaded m); [|done]. destruct (loaded_object m q) as [c|]; [|done].
  destruct (f c) eqn:E; [|done]. eauto.
Qed.

(** ** The round trip *)

(** [j] decodes to [v] at every path. *)
Definition decodes_to (v : value) (j : json) : Prop :=
  ∀ path, ∃ v', decode_value path j = Ok v' ∧ veq v v'.

Definition round_trips (v : value) : Prop :=
  ∀ path j, replayable v → encode_value path v = Ok j → decodes_to v j.

Lemma enc_list_decodes vs path i js :
  Forall round_trips vs → Forall replayable vs →
  enc_list encode_value path i vs = Ok js → Forall2 decodes_to vs js.
Proof.
  intros Hr Hw. revert i js. induction Hr as [|v vs Hv Hr IH]; intros i js; simpl.
  - intros [= <-]. constructor.
  - apply Forall_cons in Hw as [Hw1 Hw2].
    rewrite bind_ok. intros (j & Hj & (js' & Hjs & [= <-])%bind_ok).
    constructor; [by eapply Hv | by eapply IH].
Qed.

Lemma enc_set_decodes vs path js :
  Forall round_trips vs → Forall replayable vs →
  enc_set encode_value path vs = Ok js → Forall2 decodes_to vs js.
Proof.
  intros Hr Hw. revert js. induction Hr as [|v vs Hv Hr IH]; intros js; simpl.
  - intros [= <-]. constructor.
  - apply Forall_cons in Hw as [Hw1 Hw2].
    rewrite bind_ok. intros (j & Hj & (js' & Hjs & [= <-])%bind_ok).
    constructor; [by eapply Hv | by eapply IH].
Qed.

Lemma enc_fields_decodes vs fields path js :
  Forall round_trips vs → Forall replayable vs → length vs = length fields →
  enc_fields encode_value path fields vs = Ok js → Forall2 decodes_to vs js.
Proof.
  intros Hr Hw. revert fields js. induction Hr as [|v vs Hv Hr IH]; intros [|f fields] js Hl;
    try done; simpl.
  - intros [= <-]. constructor.
  - apply Forall_cons in Hw as [Hw1 Hw2]. simpl in Hl.
    rewrite bind_ok. intros (j & Hj & (js' & Hjs & [= <-])%bind_ok).
    constructor; [by eapply Hv | eapply IH; [done| |done]; lia].
Qed.

(** A dict item and its encoding. *)
Definition item_decodes (kv : value * value) (kj : string * json) : Prop :=
  key_text kv.1 = Some kj.1 ∧ decodes_to kv.2 kj.2.

Lemma enc_items_decodes items path kvs :
  Forall (λ kv, round_trips kv.2) items → Forall (λ kv, replayable kv.2) items →
  bad_key items = None →
  enc_items encode_value path items = Ok kvs → Forall2 item_decodes items kvs.
Proof.
  intros Hr Hw. revert kvs. induction Hr as [|[k v] items Hv Hr IH]; intros kvs; simpl.
  - intros _ [= <-]. constructor.
  - apply Forall_cons in Hw as [Hw1 Hw2]. destruct (key_text k) as [s|] eqn:Ek; [|done]. intros Hb.
    rewrite bind_ok. intros (j & Hj & (js' & Hjs & [= <-])%bind_ok).
    constructor; [split; [done | by eapply Hv] | by eapply IH].
Qed.

Lemma dec_list_decodes vs js path i :
  Forall2 decodes_to vs js →
  ∃ vs', dec_list decode_value path i js = Ok vs' ∧ Forall2 veq vs vs'.
Proof.
  intros Hd. revert i. induction Hd as [|v j vs js Hv Hd IH]; intros i; simpl; [by exists []|].
  destruct (Hv (_pointer path (str_of_Z i))) as (v' & -> & Hv'). simpl.
  destruct (IH (i + 1)%Z) as (vs' & -> & Hvs). exists (v' :: vs'). auto.
Qed.

Lemma dec_fields_decodes vs js path fields :
  Forall2 decodes_to vs js → length vs = length fields →
  ∃ vs', dec_fields decode_value path fields js = Ok vs' ∧ Forall2 veq vs vs'.
Proof.
  intros Hd. revert fields. induction Hd as [|v j vs js Hv Hd IH]; intros [|f fields] Hl;
    try done; simpl; [by exists []|].
  destruct (Hv (_pointer path f)) as (v' & -> & Hv'). simpl in *.
  destruct (IH fields) as (vs' & -> & Hvs); [lia|]. exists (v' :: vs'). auto.
Qed.

Lemma dec_items_decodes items kvs path :
  Forall2 item_decodes items kvs →
  ∃ items', dec_items decode_value path kvs = Ok items' ∧
    Forall2 (λ a b, same_key a.1 b.1 ∧ veq a.2 b.2) items items'.
Proof.
  induction 1 as [|[k v] [k' j] items kvs [Hk Hv] Hd IH]; simpl; [by exists []|].
  destruct (Hv (_pointer path k')) as (v' & Hv' & Hveq). cbn in Hv'. rewrite Hv'. simpl.
  destruct IH as (items' & -> & Hi). exists ((VStr k', v') :: items'). simpl in *.
  split; [done|]. constructor; [|done]. split; [right; by exists k' | done].
Qed.

Lemma dec_pairs_decodes items kvs path i seen :
  Forall2 item_decodes items kvs → NoDup (omap key_text items.*1) →
  Forall (λ k, k ∉ omap key_text items.*1) seen →
  ∃ items', dec_pairs decode_value path i seen (map (λ kj, JList [JStr kj.1; kj.2]) kvs)
            = Ok items' ∧ Forall2 (λ a b, same_key a.1 b.1 ∧ veq a.2 b.2) items items'.
Proof.
  intros Hd. revert i seen.
  induction Hd as [|[k v] [k' j] items kvs [Hk Hv] Hd IH]; intros i seen Hn Hs; simpl;
    [by exists []|].
  cbn in Hk, Hn, Hs. rewrite Hk in Hn, Hs. apply NoDup_cons in Hn as [Hni Hn].
  destruct (existsb _ seen) eqn:E.
  { apply existsb_exists in E as (x & Hin & E). apply String.eqb_eq in E. subst x.
    apply list_elem_of_In in Hin. rewrite Forall_forall in Hs.
    exfalso. eapply Hs; [exact Hin|]. by left. }
  destruct (Hv (_pointer path k')) as (v' & Hv' & Hveq). cbn in Hv'. rewrite Hv'. simpl.
  destruct (IH (i + 1)%Z (k' :: seen)) as (items' & -> & Hi); [done| |].
  - constructor; [done|]. eapply Forall_impl; [exact Hs|]. intros x Hnx Hx.
    apply Hnx. by right.
  - exists ((VStr k', v') :: items'). split; [done|]. constructor; [|done].
    split; [right; by exists k' | done].
Qed.

Lemma has_tag_keys items kvs :
  Forall2 item_decodes items kvs →
  existsb (String.eqb TAG) (dict_keys kvs) = has_tag items.
Proof.
  unfold has_tag. induction 1 as [|[k v] [k' j] items kvs [Hk Hv] Hd IH]; [done|].
  cbn [dict_keys fmap list_fmap fst existsb]. unfold key_is at 1. cbn in Hk. rewrite Hk.
  by destruct (String.eqb TAG k').
Qed.

(** Decoding the members of an encoded set. *)
Lemma set_decodes `{PL : !PyEqLaws} vs js (key : json → string) path :
  Forall2 decodes_to vs js → Forall replayable vs → forallb hashable vs = true →
  (∀ ws, vs ≡ₚ ws → pairwise_distinct [] ws) →
  ∃ ws vs', vs ≡ₚ ws ∧ Forall2 veq ws vs' ∧
    dec_list decode_value path 0 (sort_by key js) = Ok vs' ∧
    forallb hashable vs' = true ∧ distinct [] vs' = vs'.
Proof.
  intros Hd Hw Hh Hp. apply Forall2_flip in Hd.
  destruct (Permutation_Forall2 (P:=flip decodes_to) (l1:=js) (l1':=sort_by key js) (l2:=vs))
    as (ws & Hws & Hd'); [by rewrite sort_by_perm | done |].
  apply Forall2_flip in Hd'.
  destruct (dec_list_decodes ws (sort_by key js) path 0 Hd') as (vs' & Hvs & Hveq).
  exists ws, vs'. split_and!; [done | done | done | |].
  - rewrite (forallb_Forall2 hashable veq ws vs') by
      (done || (apply Forall_true; intros v; apply hashable_veq)).
    by rewrite <- (forallb_perm _ _ _ Hws).
  - apply distinct_id. eapply pairwise_distinct_veq; [constructor | exact Hveq | by apply Hp].
Qed.

Lemma encode_round_trips `{PL : !PyEqLaws} v : round_trips v.
Proof.
  induction v as [| b | n | x | t | bs | d | u | t | m q n w IH | m q fs vs IH | vs IH
                  | vs IH | vs IH | vs IH | items IH | m q] using value_rect_strong;
    intros path j Hw He path'; cbn [encode_value] in He.
  1,2,3,5: injection He as <-; eexists; split; [reflexivity | constructor].
  - destruct (isfinite x) eqn:Ex; [|done]. injection He as <-.
    exists (VFloat x). cbn. rewrite Ex. split; [done | constructor].
  - injection He as <-. exists (VBytes bs). split; [|constructor].
    apply decode_bytes, base64_round_trip.
  - injection He as <-. exists (VDatetime d). split; [|constructor].
    rewrite (decode_datetime _ _ _ _ (fromisoformat_isoformat d Hw)). by destruct d.
  - injection He as <-. exists (VUuid u). split; [|constructor].
    by apply decode_uuid, uuid_round_trip.
  - injection He as <-. exists (VDecimal t). split; [|constructor]. by apply decode_decimal.
  - apply bind_ok in He as (u & Hc & (j' & Hj & [= <-])%bind_ok).
    apply ensure_replayable_ok in Hc as (Hl & Hm & c & Ho & Hc).
    destruct c as [members| | |]; try done. destruct Hw as [Hw [Hself Hmem]].
    destruct (IH _ _ Hw Hj (_pointer path' "value")) as (w' & Hw' & Hveq).
    exists (VEnum m q n w). split; [|constructor].
    eapply decode_enum; eauto. by rewrite <- (py_eq_respects w w w w' (veq_refl w) Hveq).
  - apply bind_ok in He as (u & Hc & (js & Hj & [= <-])%bind_ok).
    apply ensure_replayable_ok in Hc as (Hl & Hm & c & Ho & Hc).
    destruct c as [|fs'| |]; try done. destruct Hw as (Hw & Hlen & Hfs).
    rewrite (Hfs _ Ho) in Ho. apply all_values_Forall in Hw.
    pose proof (enc_fields_decodes _ _ _ _ IH Hw Hlen Hj) as Hd.
    destruct (dec_fields_decodes _ _ path' fs Hd Hlen) as (vs' & Hvs & Hveq).
    exists (VNamedTuple m q fs vs'). split; [|by constructor].
    rewrite decode_namedtuple by (done || by rewrite <- Hlen, (Forall2_length _ _ _ Hd)).
    by rewrite Hvs.
  - apply bind_ok in He as (js & Hj & [= <-]). apply all_values_Forall in Hw.
    pose proof (enc_list_decodes _ _ _ _ IH Hw Hj) as Hd.
    destruct (dec_list_decodes _ _ path' 0 Hd) as (vs' & Hvs & Hveq).
    exists (VTuple vs'). split; [|by constructor]. by rewrite decode_tuple, Hvs.
  - apply bind_ok in He as (js & Hj & [= <-]). destruct Hw as (Hw & Hh & Hp).
    apply all_values_Forall in Hw.
    pose proof (enc_set_decodes _ _ _ IH Hw Hj) as Hd.
    destruct (set_decodes vs js (λ j, str_of_list (dumps j)) path' Hd Hw Hh Hp)
      as (ws & vs' & Hws & Hveq & Hvs & Hh' & Hdist).
    exists (VSet vs'). split; [|by econstructor].
    rewrite decode_set, Hvs. cbn. by rewrite Hh', Hdist.
  - apply bind_ok in He as (js & Hj & [= <-]). destruct Hw as (Hw & Hh & Hp).
    apply all_values_Forall in Hw.
    pose proof (enc_set_decodes _ _ _ IH Hw Hj) as Hd.
    destruct (set_decodes vs js (λ j, str_of_list (dumps j)) path' Hd Hw Hh Hp)
      as (ws & vs' & Hws & Hveq & Hvs & Hh' & Hdist).
    exists (VFrozenset vs'). split; [|by econstructor].
    rewrite decode_frozenset, Hvs. cbn. by rewrite Hh', Hdist.
  - apply bind_ok in He as (js & Hj & [= <-]). apply all_values_Forall in Hw.
    pose proof (enc_list_decodes _ _ _ _ IH Hw Hj) as Hd.
    destruct (dec_list_decodes _ _ path' 0 Hd) as (vs' & Hvs & Hveq).
    exists (VList vs'). split; [|by constructor]. cbn [decode_value]. by rewrite Hvs.
  - destruct (bad_key items) eqn:Hb; [done|].
    apply bind_ok in He as (kvs & Hk & [= <-]). destruct Hw as [Hw Hn].
    apply all_items_Forall in Hw.
    assert (Forall (λ kv, round_trips kv.2) items) as IH'
      by (eapply Forall_impl; [exact IH|]; by intros kv []).
    pose proof (enc_items_decodes _ _ _ IH' Hw Hb Hk) as Hd.
    destruct (has_tag items) eqn:Ht.
    + destruct (dec_pairs_decodes _ _ path' 0 [] Hd Hn) as (items' & Hi & Hveq);
        [constructor|].
      exists (VDict items'). split; [|by constructor]. by rewrite decode_mapping, Hi.
    + destruct (dec_items_decodes _ _ path' Hd) as (items' & Hi & Hveq).
      exists (VDict items'). split; [|by constructor].
      cbn [decode_value]. rewrite (has_tag_keys _ _ Hd), Ht. cbn [negb]. by rewrite Hi.
  - done.
Qed.

(** Failing with [CaptureEncodingError]. *)
Definition capture_error {A} (r : result exn A) : Prop :=
  match r with
  | Ok _ => True
  | Err e => ∃ p t, exn_cls e = CCaptureEncoding p t
  end.

Lemma capture_error_bind {A B} (r : result exn A) (f : A → result exn B) :
  capture_error r → (∀ a, capture_error (f a)) → capture_error (r ≫= f).
Proof. destruct r; simpl; auto. Qed.

Lemma enc_members_error vs :
  Forall (λ v, ∀ path, capture_error (encode_value path v)) vs →
  (∀ path i, capture_error (enc_list encode_value path i vs)) ∧
  (∀ path, capture_error (enc_set encode_value path vs)) ∧
  (∀ path fs, capture_error (enc_fields encode_value path fs vs)).
Proof.
  induction 1 as [|v vs Hv Hvs (IH1 & IH2 & IH3)]; [done|].
  split_and!; [intros path i | intros path | intros path [|f fs]]; simpl; try done;
    (apply capture_error_bind; [apply Hv | intros j]);
    (apply capture_error_bind; [auto | done]).
Qed.

Lemma enc_items_error items path :
  Forall (λ kv : value * value, ∀ path, capture_error (encode_value path kv.2)) items →
  capture_error (enc_items encode_value path items).
Proof.
  induction 1 as [|[k v] items Hv Hvs IH]; [done|]. simpl. destruct (key_text k); [|done].
  apply capture_error_bind; [apply Hv | intros j]. by apply capture_error_bind.
Qed.

Lemma ensure_replayable_error m q path f :
  capture_error (_ensure_replayable_type m q path f).
Proof.
  unfold _ensure_replayable_type.
  destruct (is_local q); [by repeat eexists|].
  destruct (module_loaded m); [|by repeat eexists].
  destruct (loaded_object m q) as [c|]; [destruct (f c)|]; [done | by repeat eexists ..].
Qed.

Lemma encode_error v : ∀ path, capture_error (encode_value path v).
Proof.
  induction v using value_rect_strong; intros path; cbn [encode_value]; try done;
    try match goal with H : Forall _ ?vs |- _ =>
      match type of vs with list value =>
        destruct (enc_members_error vs H) as (? & ? & ?) end end;
    try (apply capture_error_bind; [auto using ensure_replayable_error | intros ?]);
    try (apply capture_error_bind; [auto | intros ?]); try done.
  - destruct (isfinite x); [done | by repeat eexists].
  - destruct (bad_key items); [by repeat eexists|].
    apply capture_error_bind; [|done]. apply enc_items_error.
    eapply Forall_impl; [exact H0|]. by intros kv [].
  - by repeat eexists.
Qed.
End Codec.

(** ** Properties *)

Abbreviation wf_value := (value_ok (λ _ _ _ _, True)).
Abbreviation replayable := (value_ok named_member).


(** A combination of flags is an instance of its enumeration, and no member
    of it has its name. *)
Lemma unnamed_member_rejected `{CodecEnv} m q n w j members :
  loaded_object m q = Some (ClsEnum members) → dict_get n members = None →
  encode_value "" (VEnum m q n w) = Ok j →
  decode_value "" j = Err (value_error_at "enum member changed" "").
Proof.
  cbn [encode_value]. intros Ho Hn (u & (Hl & Hm & _)%ensure_replayable_ok & (j' & _ & [= <-])%bind_ok)%bind_ok.
  cbn -[is_local]. rewrite Hl, Hm, Ho. cbn. by rewrite Hn.
Qed.

(** A member whose value is not equal to itself: [Decimal("NaN")]. *)
Lemma unequal_member_rejected `{CodecEnv} m q n t j members :
  loaded_object m q = Some (ClsEnum members) → dict_get n members = Some (VDecimal t) →
  decimal_of_string t = Some t → py_eq (VDecimal t) (VDecimal t) = false →
  encode_value "" (VEnum m q n (VDecimal t)) = Ok j →
  decode_value "" j = Err (value_error_at "enum value changed" "").
Proof.
  cbn [encode_value]. intros Ho Hn Ht He (u & (Hl & Hm & _)%ensure_replayable_ok & [= <-])%bind_ok.
  cbn -[is_local]. rewrite Hl, Hm, Ho. cbn. rewrite Hn, Ht. cbn. by rewrite He.
Qed.

(** A process with two enumerations and one named tuple, and an equality that
    compares a hash which ignores the order of sets. *)
Fixpoint text_hash (s : string) : Z :=
  match s with
  | EmptyString => 1
  | String c s => (Z.of_nat (nat_of_ascii c) + 131 * text_hash s)%Z
  end.

Definition hash_seq (f : value → Z) := foldr (λ v acc, (f v + 31 * acc)%Z) 7%Z.
Definition hash_sum (f : value → Z) := foldr (λ v acc, (f v + acc)%Z) 11%Z.

Fixpoint value_hash (v : value) : Z :=
  match v with
  | VNone => 0
  | VBool b => if b then 1 else 0
  | VInt n => n
  | VFloat _ => 3
  | VStr s | VDecimal s => text_hash s
  | VBytes bs => Z.of_nat (length bs)
  | VDatetime d => dt_wall d
  | VUuid u => u
  | VEnum _ _ n _ => (17 + text_hash n)%Z
  | VNamedTuple _ _ _ vs | VTuple vs => hash_seq value_hash vs
  | VList vs => (1 + hash_seq value_hash vs)%Z
  | VSet vs | VFrozenset vs => hash_sum value_hash vs
  | VDict items => foldr (λ kv acc, (value_hash kv.2 + 31 * acc)%Z) 13%Z items
  | VObj m q => (text_hash m + 131 * text_hash q)%Z
  end.

#[export] Instance demo_env : CodecEnv := {|
  module_loaded m := String.eqb m "app";
  loaded_object m q :=
    if String.eqb q "Color"
    then Some (ClsEnum [("RED", VInt 1); ("BLUE", VList [VInt 2])])
    else if String.eqb q "Field" then Some (ClsEnum [("PASSWORD", VStr "password")])
    else if String.eqb q "Point" then Some (ClsNamedTuple ["x"; "y"]) else None;
  py_eq v w := (value_hash v =? value_hash w)%Z;
  subclass_text v := match v with
                     | VEnum _ q _ (VStr s) => if String.eqb q "Field" then Some s else None
                     | _ => None
                     end;
  decimal_of_string s := if String.eqb s "1.50" then Some "1.50" else None;
  float_repr _ := "0.5";
|}.

Lemma hash_sum_perm f vs ws : vs ≡ₚ ws → hash_sum f vs = hash_sum f ws.
Proof. unfold hash_sum. induction 1; simpl; lia. Qed.

Lemma hash_Forall2 (g : Z → Z → Z) a vs vs' :
  Forall (λ v, ∀ v', veq v v' → value_hash v = value_hash v') vs → Forall2 veq vs vs' →
  foldr (λ v acc, g (value_hash v) acc) a vs = foldr (λ v acc, g (value_hash v) acc) a vs'.
Proof.
  intros IH Hv. induction Hv as [|v v' vs vs' Hv Hvs IHv]; [done|].
  apply Forall_cons in IH as [H1 H2]. simpl. by rewrite (H1 _ Hv), IHv.
Qed.

Lemma value_hash_veq v : ∀ v', veq v v' → value_hash v = value_hash v'.
Proof.
  induction v as [| | | | | | | | | | m q fs vs IH | vs IH | vs IH | vs IH | vs IH | items IH |]
    using value_rect_strong; intros v' Hv; inversion Hv as
      [| m' q' fs' us us' Hu | us us' Hu | us us' Hu | us ws us' Hp Hu | us ws us' Hp Hu | us us' Hu];
      subst; try done; cbn [value_hash].
  - apply (hash_Forall2 (λ h acc, h + 31 * acc)%Z); [done | exact Hu].
  - apply (hash_Forall2 (λ h acc, h + 31 * acc)%Z); [done | exact Hu].
  - rewrite (hash_sum_perm _ _ _ Hp). apply (hash_Forall2 (λ h acc, h + acc)%Z); [|exact Hu].
    by rewrite <- Hp.
  - rewrite (hash_sum_perm _ _ _ Hp). apply (hash_Forall2 (λ h acc, h + acc)%Z); [|exact Hu].
    by rewrite <- Hp.
  - f_equal. apply (hash_Forall2 (λ h acc, h + 31 * acc)%Z); [done | exact Hu].
  - clear Hv. induction Hu as [|[k a] [k' b] items us [Hk Hab] Hu IHu]; [done|].
    apply Forall_cons in IH as [[_ H1] H2]. simpl in *. by rewrite (H1 _ Hab), IHu.
Qed.

#[export] Instance demo_laws : PyEqLaws.
Proof.
  constructor. intros v v' w w' Hv Hw. cbn. by rewrite (value_hash_veq _ _ Hv), (value_hash_veq _ _ Hw).
Defined.

(** A payload with every kind of value. *)
Definition demo_value : value :=
  VDict [(VStr "$onestep", VSet [VInt 3; VStr "a/b"; VTuple [VNone; VBool true]]);
         (VStr "when", VDatetime (PyDatetime 1709208000123456 (Some 19800000000%Z) true));
         (VStr "who", VUuid 81985529216486895);
         (VStr "raw", VBytes [Byte.x00; Byte.xff; Byte.x10; Byte.x41]);
         (VEnum "app" "Field" "PASSWORD" (VStr "password"), VStr "hunter2");
         (VStr "price", VDecimal "1.50");
         (VStr "color", VEnum "app" "Color" "BLUE" (VList [VInt 2]));
         (VStr "at", VNamedTuple "app" "Point" ["x"; "y"] [VInt 1; VFloat f_one])].

Lemma demo_distinct ws :
  NoDup (map value_hash ws) → ∀ us, ws ≡ₚ us → pairwise_distinct [] us.
Proof.
  intros Hn us Hp.
  assert (NoDup (map value_hash us)) as Hu by (by rewrite <- Hp).
  clear ws Hn Hp. change us with ([] ++ us) in Hu. revert Hu.
  generalize (@nil value) as seen. induction us as [|u us IH]; intros seen Hu; [done|].
  split.
  - apply Forall_forall. intros w Hw. cbn. apply Z.eqb_neq. intros E.
    rewrite map_app in Hu. apply NoDup_app in Hu as (_ & Hd & _).
    apply (Hd (value_hash w)).
    + apply list_elem_of_In, in_map, list_elem_of_In, Hw.
    + rewrite E. by left.
  - apply IH. by rewrite <- app_assoc.
Qed.

Lemma demo_value_replayable : replayable demo_value.
Proof.
  cbn -[demo_env Z.pow]. split_and!; try done.
  - apply demo_distinct. vm_compute. repeat constructor; rewrite ?list_elem_of_In; simpl;
      intuition discriminate.
  - split; [reflexivity|]. by intros members [= <-].
  - intros fs [= <-]. reflexivity.
  - cbn. repeat constructor; rewrite ?list_elem_of_In; simpl; intuition discriminate.
Qed.

