(* ===== verification/Execution.v ===== *)
(** * Tracked executions ([onestep/execution.py])

    The statuses, the validated data classes and the [ExecutionClient], which
    talks to a backend through the operations of [ExecutionBackend]. *)

From stdpp Require Import base option list strings numbers.
From Stdlib Require Import ZArith Lia.
From S2P Require Import Prelude PyFloat Value Texts.

(** ** Statuses *)

Inductive ExecutionStatus :=
| QUEUED | RUNNING | RETRYING | SUCCEEDED | FAILED
| CANCEL_REQUESTED | CANCELLED | EXPIRED.

#[global] Instance ExecutionStatus_eq_dec : EqDecision ExecutionStatus.
Proof. solve_decision. Defined.

(** [status.value]. *)
Definition status_value (s : ExecutionStatus) : string :=
  match s with
  | QUEUED => "queued" | RUNNING => "running" | RETRYING => "retrying"
  | SUCCEEDED => "succeeded" | FAILED => "failed"
  | CANCEL_REQUESTED => "cancel_requested" | CANCELLED => "cancelled"
  | EXPIRED => "expired"
  end.

Definition all_statuses : list ExecutionStatus :=
  [QUEUED; RUNNING; RETRYING; SUCCEEDED; FAILED; CANCEL_REQUESTED; CANCELLED; EXPIRED].

(** [ExecutionStatus(text)]. *)
Definition status_of_value (s : string) : option ExecutionStatus :=
  List.find (λ st, String.eqb (status_value st) s) all_statuses.

(** [TERMINAL_EXECUTION_STATUSES]. *)
Definition is_terminal (s : ExecutionStatus) : bool :=
  match s with SUCCEEDED | FAILED | CANCELLED | EXPIRED => true | _ => false end.

(** [COMPLETION_STATUSES]. *)
Definition is_completion (s : ExecutionStatus) : bool :=
  match s with SUCCEEDED | RETRYING | FAILED | CANCELLED => true | _ => false end.

Lemma status_of_value_value s : status_of_value (status_value s) = Some s.
Proof. by destruct s. Qed.

#[export] Hint Rewrite status_of_value_value : onestep.

(** ** Validators *)

(** [_text]: a Python [str], stripped, not empty, at most [maximum] long. *)
Definition _text (v : value) (field_name : string) (maximum : nat) : result exn string :=
  match v with
  | VStr s =>
      let s := strip s in
      _ ← guard_else (str_nonempty s) (value_error (field_name +:+ " must not be empty"));
      _ ← guard_else (String.length s <=? maximum)%nat
            (value_error (field_name +:+ " must be at most "
                          +:+ str_of_Z (Z.of_nat maximum) +:+ " characters"));
      Ok s
  | _ => Err (type_error (field_name +:+ " must be a string"))
  end.

Definition _optional_text (v : value) (field_name : string) (maximum : nat)
    : result exn (option string) :=
  match v with
  | VNone => Ok None
  | _ => s ← _text v field_name maximum; Ok (Some s)
  end.

(** [_validate_delay]. *)
Definition _validate_delay (v : value) : result exn (option float64) :=
  let bad := value_error "delay_s must be finite and >= 0" in
  match v with
  | VNone => Ok None
  | VInt n =>
      _ ← guard_else (isfinite (float_of_Z n))
            (overflow_error "int too large to convert to float");
      _ ← guard_else (negb (n <? 0)%Z) bad;
      Ok (Some (float_of_Z n))
  | VFloat x =>
      _ ← guard_else (isfinite x && negb (fltb x f_zero)) bad;
      Ok (Some x)
  | _ => Err (type_error "delay_s must be a finite number or None")
  end.

(** [_validate_expiry]. *)
Definition _validate_expiry (v : value) : result exn (option pydatetime) :=
  match v with
  | VNone => Ok None
  | VDatetime d =>
      match dt_offset d with
      | Some _ => Ok (Some d)
      | None => Err (value_error "expires_at must be timezone-aware")
      end
  | _ => Err (type_error "expires_at must be a datetime or None")
  end.

(** The instant of an aware datetime, in microseconds of UTC. *)
Definition instant_of (d : pydatetime) : Z := (dt_wall d - default 0 (dt_offset d))%Z.

(** [UUID(str(value))] of an execution id given as a [UUID] or a [str]. *)
Definition _parse_execution_id (v : value) : result exn Z :=
  match v with
  | VUuid u => Ok u
  | VStr s => match uuid_of_string s with
              | Some u => Ok u
              | None => Err (value_error "badly formed hexadecimal UUID string")
              end
  | _ => Err (value_error "badly formed hexadecimal UUID string")
  end.

(** ** Data classes *)

Record ExecutionErrorDetail := {
  ed_kind : string;
  ed_exception_type : string;
  ed_stage : option string;
  ed_backend : option string;
  ed_operation : option string;
  ed_connector_kind : option string;
}.

#[global] Instance ExecutionErrorDetail_eq_dec : EqDecision ExecutionErrorDetail.
Proof. solve_decision. Defined.

(** [ExecutionErrorDetail(...)]: the arguments go through [__post_init__]. *)
Definition mk_ExecutionErrorDetail
    (kind exception_type stage backend operation connector_kind : value)
    : result exn ExecutionErrorDetail :=
  k ← _text kind "kind" 64;
  t ← _text exception_type "exception_type" 255;
  s ← _optional_text stage "stage" 255;
  b ← _optional_text backend "backend" 255;
  o ← _optional_text operation "operation" 255;
  c ← _optional_text connector_kind "connector_kind" 255;
  Ok {| ed_kind := k; ed_exception_type := t; ed_stage := s; ed_backend := b;
        ed_operation := o; ed_connector_kind := c |}.

(** Times are instants of UTC in microseconds. *)
Record Execution := {
  ex_id : Z;
  ex_namespace : string;
  ex_task_name : string;
  ex_status : ExecutionStatus;
  ex_payload : value;
  ex_metadata : value;
  ex_result : value;
  ex_error : option ExecutionErrorDetail;
  ex_attempts : Z;
  ex_created_at : Z;
  ex_available_at : Z;
  ex_started_at : option Z;
  ex_finished_at : option Z;
  ex_cancel_requested_at : option Z;
  ex_expires_at : option Z;
  ex_version : Z;
}.

(** [Execution.terminal]. *)
Definition terminal (x : Execution) : bool := is_terminal (ex_status x).

Record ExecutionPage := {
  page_items : list Execution;
  page_next_cursor : option string;
}.

Record ExecutionRequest := {
  rq_namespace : string;
  rq_task_name : string;
  rq_payload : value;
  rq_idempotency_key : option string;
  rq_metadata : list (value * value);
  rq_delay_s : option float64;
  rq_expires_at : option pydatetime;
}.

(** [ExecutionRequest(...)] with its [__post_init__]; the default of
    [metadata] is the empty dict. *)
Definition mk_ExecutionRequest
    (namespace task_name payload idempotency_key metadata delay_s expires_at : value)
    : result exn ExecutionRequest :=
  ns ← _text namespace "namespace" 255;
  tn ← _text task_name "task_name" 255;
  ik ← _optional_text idempotency_key "idempotency_key" 255;
  match metadata with
  | VDict items =>
      d ← _validate_delay delay_s;
      e ← _validate_expiry expires_at;
      Ok {| rq_namespace := ns; rq_task_name := tn; rq_payload := payload;
            rq_idempotency_key := ik; rq_metadata := items; rq_delay_s := d;
            rq_expires_at := e |}
  | _ => Err (type_error "metadata must be a mapping")
  end.

(** A status argument: a member of the enumeration or another value. *)
Inductive status_arg :=
| StatusMember (s : ExecutionStatus)
| StatusRaw (v : value).

Definition coerce_status (a : status_arg) : result exn ExecutionStatus :=
  let bad := value_error "status must be an ExecutionStatus" in
  match a with
  | StatusMember s => Ok s
  | StatusRaw (VStr t) => match status_of_value t with Some s => Ok s | None => Err bad end
  | StatusRaw _ => Err bad
  end.

Record ExecutionQuery := {
  q_namespace : string;
  q_task_name : option string;
  q_status : option ExecutionStatus;
  q_limit : Z;
  q_cursor : option string;
}.

Definition mk_ExecutionQuery (namespace task_name : value) (status : option status_arg)
    (limit cursor : value) : result exn ExecutionQuery :=
  ns ← _text namespace "namespace" 255;
  tn ← _optional_text task_name "task_name" 255;
  st ← match status with
       | None => Ok None
       | Some a => s ← coerce_status a; Ok (Some s)
       end;
  n ← match limit with
      | VInt n => Ok n
      | _ => Err (type_error "limit must be an integer")
      end;
  _ ← guard_else ((1 <=? n) && (n <=? 200))%Z (value_error "limit must be between 1 and 200");
  c ← match cursor with
      | VNone => Ok None
      | VStr s => if str_nonempty s then Ok (Some s)
                  else Err (value_error "cursor must not be empty")
      | _ => Err (type_error "cursor must be a string or None")
      end;
  Ok {| q_namespace := ns; q_task_name := tn; q_status := st; q_limit := n; q_cursor := c |}.

Record ExecutionCompletion := {
  cp_status : ExecutionStatus;
  cp_result : value;
  cp_error : option ExecutionErrorDetail;
  cp_delay_s : option float64;
}.

(** The [error] argument: [None], a detail, or something else. *)
Inductive error_arg := NoError | ErrorDetail (d : ExecutionErrorDetail) | NotADetail.

Definition mk_ExecutionCompletion (status : status_arg) (res : value) (error : error_arg)
    (delay_s : value) : result exn ExecutionCompletion :=
  st ← coerce_status status;
  _ ← guard_else (is_completion st)
        (value_error "completion status must be succeeded, retrying, failed or cancelled");
  er ← match error with
       | NoError => Ok None
       | ErrorDetail d => Ok (Some d)
       | NotADetail => Err (type_error "error must be an ExecutionErrorDetail or None")
       end;
  d ← _validate_delay delay_s;
  Ok {| cp_status := st; cp_result := res; cp_error := er; cp_delay_s := d |}.

Record ExecutionLease := {
  le_execution : Execution;
  le_attempt_id : Z;
  le_lease_token : Z;
  le_lease_expires_at : Z;
}.

Record HeartbeatResult := {
  hb_lease_expires_at : Z;
  hb_cancel_requested : bool;
}.

(** ** Exceptions of the module *)

Inductive ExecutionException :=
| ExecutionNotFound (id : Z)
| ExecutionNotReady (x : Execution)
| ExecutionFailed (x : Execution)
| ExecutionCancelled (x : Execution)
| ExecutionExpired (x : Execution)
| ExecutionConflict (message : string)
| ExecutionEncodingError (message : string)
| ExecutionLeaseLost (message : string)
| Raised (e : exn).

(** [str(exc)]. *)
Definition exception_message (e : ExecutionException) : string :=
  match e with
  | ExecutionNotFound id => "execution " +:+ uuid_str id +:+ " was not found"
  | ExecutionNotReady x => "execution " +:+ uuid_str (ex_id x) +:+ " is " +:+ status_value (ex_status x)
  | ExecutionFailed x => "execution " +:+ uuid_str (ex_id x) +:+ " failed"
  | ExecutionCancelled x => "execution " +:+ uuid_str (ex_id x) +:+ " was cancelled"
  | ExecutionExpired x => "execution " +:+ uuid_str (ex_id x) +:+ " expired"
  | ExecutionConflict m | ExecutionEncodingError m | ExecutionLeaseLost m => m
  | Raised e => exn_message e
  end.

Definition lift_exn {A} (r : result exn A) : result ExecutionException A :=
  match r with Ok a => Ok a | Err e => Err (Raised e) end.

(** ** The backend protocols and the client *)

(** [ExecutionBackend] over a state [W] (the store it talks to). *)
Class ExecutionBackend (W : Type) := {
  be_submit : ExecutionRequest → SE W ExecutionException Execution;
  be_get : string → Z → SE W ExecutionException (option Execution);
  be_list : ExecutionQuery → SE W ExecutionException ExecutionPage;
  be_request_cancel : string → Z → option string → SE W ExecutionException (option Execution);
}.

(** [LeasedExecutionBackend]. *)
Class LeasedExecutionBackend (W : Type) := {
  lb_claim : string → list string → Z → float64 → string →
             SE W ExecutionException (list ExecutionLease);
  lb_heartbeat : Z → Z → Z → float64 → SE W ExecutionException HeartbeatResult;
  lb_complete : Z → Z → Z → ExecutionCompletion → SE W ExecutionException Execution;
  lb_release : Z → Z → Z → SE W ExecutionException Execution;
  lb_lease_remaining : Z → SE W ExecutionException float64;
}.

Section Client.
Context {W : Type} `{ExecutionBackend W}.
Context (namespace : string).

Definition client_submit
    (task_name payload idempotency_key metadata delay_s expires_at : value)
    : SE W ExecutionException Execution :=
  let metadata := match metadata with VNone => VDict [] | _ => metadata end in
  r ← se_lift (lift_exn (mk_ExecutionRequest (VStr namespace) task_name payload
                           idempotency_key metadata delay_s expires_at));
  be_submit r.

Definition client_get (execution_id : value) : SE W ExecutionException (option Execution) :=
  i ← se_lift (lift_exn (_parse_execution_id execution_id));
  be_get namespace i.

Definition client_list (task_name : value) (status : option status_arg)
    (limit cursor : value) : SE W ExecutionException ExecutionPage :=
  q ← se_lift (lift_exn (mk_ExecutionQuery (VStr namespace) task_name status limit cursor));
  be_list q.

(** [cancel]: the reason is stripped, an empty one dropped. *)
Definition normalized_reason (reason : value) : result exn (option string) :=
  match reason with
  | VNone => Ok None
  | VStr s =>
      let s := strip s in
      if str_nonempty s
      then _ ← guard_else (String.length s <=? 500)%nat
                 (value_error "reason must be at most 500 characters");
           Ok (Some s)
      else Ok None
  | _ => Err (type_error "reason must be a string or None")
  end.

Definition client_cancel (execution_id reason : value)
    : SE W ExecutionException (option Execution) :=
  r ← se_lift (lift_exn (normalized_reason reason));
  i ← se_lift (lift_exn (_parse_execution_id execution_id));
  be_request_cancel namespace i r.

Definition client_result (execution_id : value) : SE W ExecutionException value :=
  ox ← client_get execution_id;
  match ox with
  | None =>
      i ← se_lift (lift_exn (_parse_execution_id execution_id));
      se_raise (ExecutionNotFound i)
  | Some x =>
      match ex_status x with
      | SUCCEEDED => mret (ex_result x)
      | FAILED => se_raise (ExecutionFailed x)
      | CANCELLED => se_raise (ExecutionCancelled x)
      | EXPIRED => se_raise (ExecutionExpired x)
      | _ => se_raise (ExecutionNotReady x)
      end
  end.
End Client.

(** [ExecutionClient.__init__]. *)
Definition mk_ExecutionClient (namespace : value) : result exn string :=
  _text namespace "namespace" 255.

(** ** Validated texts are fixed points of the validators *)

Lemma text_ok v f m s :
  _text v f m = Ok s →
  ∃ t, v = VStr t ∧ s = strip t ∧ str_nonempty s = true ∧ (String.length s ≤ m)%nat.
Proof.
  unfold _text. destruct v as [| | | |t| | | | | | | | | | | |]; try done.
  rewrite bind_ok. intros ([] & Hn%guard_else_ok & Hr).
  apply bind_ok in Hr as ([] & Hl%guard_else_ok & [= <-]).
  apply Nat.leb_le in Hl. eauto.
Qed.

Lemma text_again v f m s f' : _text v f m = Ok s → _text (VStr s) f' m = Ok s.
Proof.
  intros (t & -> & -> & Hn & Hl)%text_ok. unfold _text. rewrite strip_idem, Hn. simpl.
  by rewrite (proj2 (Nat.leb_le _ _) Hl).
Qed.

(** [None] or a text, as an argument. *)
Definition opt_value (o : option string) : value :=
  match o with None => VNone | Some s => VStr s end.

Lemma optional_text_again v f m o f' :
  _optional_text v f m = Ok o → _optional_text (opt_value o) f' m = Ok o.
Proof.
  unfold _optional_text. destruct v; try (intros [= <-]; done);
    intros (txt & Hs & [= <-])%bind_ok; cbn [opt_value]; by rewrite (text_again _ _ _ _ f' Hs).
Qed.

(** What [__post_init__] accepted it accepts again, unchanged. *)
Lemma error_detail_again a b c d e f x :
  mk_ExecutionErrorDetail a b c d e f = Ok x →
  mk_ExecutionErrorDetail (VStr (ed_kind x)) (VStr (ed_exception_type x))
    (opt_value (ed_stage x)) (opt_value (ed_backend x)) (opt_value (ed_operation x))
    (opt_value (ed_connector_kind x)) = Ok x.
Proof.
  unfold mk_ExecutionErrorDetail.
  intros (k & Hk & (t & Ht & (s & Hs & (g & Hg & (o & Ho & (w & Hw & [= <-])%bind_ok)
    %bind_ok)%bind_ok)%bind_ok)%bind_ok)%bind_ok.
  cbn [ed_kind ed_exception_type ed_stage ed_backend ed_operation ed_connector_kind].
  rewrite (text_again _ _ _ _ "kind" Hk). cbn [mbind result_bind]. rewrite (text_again _ _ _ _ "exception_type" Ht). cbn [mbind result_bind].
  rewrite (optional_text_again _ _ _ _ "stage" Hs). cbn [mbind result_bind].
  rewrite (optional_text_again _ _ _ _ "backend" Hg). cbn [mbind result_bind].
  rewrite (optional_text_again _ _ _ _ "operation" Ho). cbn [mbind result_bind].
  by rewrite (optional_text_again _ _ _ _ "connector_kind" Hw).
Qed.
