(* ===== verification/PgStore.v ===== *)
(** * The execution tables and the SQL the backend runs on them

    [onestep_sql/postgres/execution_schema.py]: the two tables as finite maps
    from primary keys to rows, their uniqueness constraints, and the
    statements of [execution_backend.py] as functions: SELECT with WHERE,
    ORDER BY and LIMIT, UPDATE with WHERE (returning the row count), INSERT
    (raising [IntegrityError]).  A transaction runs as one step and is rolled
    back when it raises.  Timestamps are instants of UTC in microseconds. *)

From stdpp Require Import base option list strings numbers gmap sorting.
From Stdlib Require Import ZArith Lia.
From S2P Require Import Prelude PyFloat Value Texts Codec Execution.

(** ** Rows *)

(** The columns no statement changes after the INSERT. *)
Record submission := {
  s_namespace : string;
  s_task_name : string;
  s_payload : json;
  s_metadata : json;
  s_idempotency_key : option string;
  s_submission_digest : option string;
  s_expires_at : option Z;
  s_created_at : Z;
}.

(** A row of the executions table; a NULL in a JSON column is [JNull]. *)
Record exec_row := {
  r_sub : submission;
  r_status : ExecutionStatus;
  r_result : json;
  r_error : json;
  r_attempts : Z;
  r_available_at : Z;
  r_lease_token : option Z;
  r_lease_expires_at : option Z;
  r_worker_id : option string;
  r_cancel_reason : option string;
  r_cancel_requested_at : option Z;
  r_updated_at : Z;
  r_started_at : option Z;
  r_finished_at : option Z;
  r_version : Z;
}.

Inductive AttemptStatus :=
| A_RUNNING | A_SUCCEEDED | A_RETRYING | A_FAILED | A_CANCELLED | A_LEASE_LOST.

#[global] Instance AttemptStatus_eq_dec : EqDecision AttemptStatus.
Proof. solve_decision. Defined.

(** A row of the attempts table. *)
Record att_row := {
  at_execution_id : Z;
  at_attempt_no : Z;
  at_lease_token : Z;
  at_worker_id : string;
  at_status : AttemptStatus;
  at_error : json;
  at_started_at : Z;
  at_heartbeat_at : Z;
  at_finished_at : option Z;
}.

Record db := {
  db_execs : gmap Z exec_row;
  db_atts : gmap Z att_row;
}.

Definition empty_db : db := {| db_execs := ∅; db_atts := ∅ |}.

(** Statements and transactions run in this monad. *)
Abbreviation T := (SE db ExecutionException).

Definition with_execs (f : gmap Z exec_row → gmap Z exec_row) (d : db) : db :=
  {| db_execs := f (db_execs d); db_atts := db_atts d |}.
Definition with_atts (f : gmap Z att_row → gmap Z att_row) (d : db) : db :=
  {| db_execs := db_execs d; db_atts := f (db_atts d) |}.

(** ** Statements *)

(** [async with engine.begin()]: commit, or roll back on an exception. *)
Definition transaction {A} (m : T A) : T A := λ d,
  match m d with
  | (d', Ok a) => (d', Ok a)
  | (_, Err e) => (d, Err e)
  end.

Definition select_exec (id : Z) : T (option exec_row) := se_gets (λ d, db_execs d !! id).

(** [UPDATE executions SET ... WHERE id = ? AND ...]; the result tells
    whether the row count is 1. *)
Definition update_exec (id : Z) (where_ : exec_row → bool) (set_ : exec_row → exec_row)
    : T bool := λ d,
  match db_execs d !! id with
  | Some x => if where_ x then (with_execs <[id := set_ x]> d, Ok true) else (d, Ok false)
  | None => (d, Ok false)
  end.

(** [UPDATE attempts SET ... WHERE id = ? AND ...]. *)
Definition update_att (id : Z) (where_ : att_row → bool) (set_ : att_row → att_row)
    : T bool := λ d,
  match db_atts d !! id with
  | Some a => if where_ a then (with_atts <[id := set_ a]> d, Ok true) else (d, Ok false)
  | None => (d, Ok false)
  end.

(** [UPDATE attempts SET ... WHERE ...] without a primary key. *)
Definition update_atts (where_ : att_row → bool) (set_ : att_row → att_row) : T unit :=
  se_modify (with_atts (λ m, (λ a, if where_ a then set_ a else a) <$> m)).

Definition IntegrityError : ExecutionException :=
  Raised (Exn CException "IntegrityError" "duplicate key value violates unique constraint" None).

(** The partial unique index on (namespace, task_name, idempotency_key). *)
Definition same_idempotency (a b : submission) : bool :=
  bool_decide (s_namespace a = s_namespace b) && bool_decide (s_task_name a = s_task_name b)
  && match s_idempotency_key a, s_idempotency_key b with
     | Some k, Some k' => bool_decide (k = k')
     | _, _ => false
     end.

Definition exists_exec (p : Z → exec_row → bool) (d : db) : bool :=
  existsb (λ ix, p ix.1 ix.2) (map_to_list (db_execs d)).

Definition exists_att (p : Z → att_row → bool) (d : db) : bool :=
  existsb (λ ix, p ix.1 ix.2) (map_to_list (db_atts d)).

Definition insert_exec (id : Z) (x : exec_row) : T unit := λ d,
  match db_execs d !! id with
  | Some _ => (d, Err IntegrityError)
  | None =>
      if exists_exec (λ _ y, same_idempotency (r_sub x) (r_sub y)) d
      then (d, Err IntegrityError)
      else (with_execs <[id := x]> d, Ok tt)
  end.

(** The primary key, the foreign key and the unique (execution_id,
    attempt_no). *)
Definition insert_att (id : Z) (a : att_row) : T unit := λ d,
  match db_atts d !! id, db_execs d !! at_execution_id a with
  | None, Some _ =>
      if exists_att (λ _ b, bool_decide (at_execution_id a = at_execution_id b)
                            && bool_decide (at_attempt_no a = at_attempt_no b)) d
      then (d, Err IntegrityError)
      else (with_atts <[id := a]> d, Ok tt)
  | _, _ => (d, Err IntegrityError)
  end.

(** Lexicographic order of sort keys. *)
Fixpoint lex_leb (a b : list Z) : bool :=
  match a, b with
  | [], _ => true
  | _ :: _, [] => false
  | x :: a, y :: b => (x <? y)%Z || ((x =? y)%Z && lex_leb a b)
  end.

Section Select.
Context (key : Z → exec_row → list Z).

Definition key_le (p q : Z * exec_row) : Prop := lex_leb (key p.1 p.2) (key q.1 q.2) = true.

#[global] Instance key_le_dec p q : Decision (key_le p q).
Proof. unfold key_le. apply _. Defined.

(** [SELECT ... WHERE ... ORDER BY key]. *)
Definition select_ordered (p : Z → exec_row → bool) (d : db) : list (Z * exec_row) :=
  merge_sort key_le (List.filter (λ ix, p ix.1 ix.2) (map_to_list (db_execs d))).
End Select.

(** [... LIMIT n] of a positive [n]. *)
Definition limit_rows {A} (n : Z) (l : list A) : list A := take (Z.to_nat n) l.

(** ** JSON equality as Python compares the decoded columns *)

(** [x == n] of a float and an int, exactly. *)
Definition float_eq_Z (x : float64) (n : Z) : bool :=
  match x with
  | SpecFloat.S754_zero _ => (n =? 0)%Z
  | SpecFloat.S754_finite s m e =>
      let v := if s then Z.neg m else Z.pos m in
      if (0 <=? e)%Z then (v * 2 ^ e =? n)%Z else (v =? n * 2 ^ (- e))%Z
  | _ => false
  end.

Definition number_eqb (a b : json) : option bool :=
  let num j := match j with
               | JBool true => Some (inl 1%Z)
               | JBool false => Some (inl 0%Z)
               | JInt n => Some (inl n)
               | JFloat x => Some (inr x)
               | _ => None
               end in
  match num a, num b with
  | Some (inl x), Some (inl y) => Some (x =? y)%Z
  | Some (inl n), Some (inr x) | Some (inr x), Some (inl n) => Some (float_eq_Z x n)
  | Some (inr x), Some (inr y) => Some (SpecFloat.SFeqb x y)
  | _, _ => None
  end.

(** [a == b]: dicts compare without regard to the order of their keys. *)
Fixpoint json_eqb (a b : json) {struct a} : bool :=
  match a, b with
  | JNull, JNull => true
  | JStr s, JStr t => String.eqb s t
  | JList l, JList m =>
      (fix go l m := match l, m with
                     | [], [] => true
                     | x :: l, y :: m => json_eqb x y && go l m
                     | _, _ => false
                     end) l m
  | JObj l, JObj m =>
      (length l =? length m)%nat
      && (fix go l := match l with
                      | [] => true
                      | (k, x) :: l => match dict_get k m with
                                       | Some y => json_eqb x y
                                       | None => false
                                       end && go l
                      end) l
  | _, _ => default false (number_eqb a b)
  end.

(** ** Lemmas on SELECT *)

Lemma lex_leb_refl a : lex_leb a a = true.
Proof. induction a as [|x a IH]; simpl; [done|]. by rewrite Z.eqb_refl, IH, orb_true_r. Qed.

Lemma lex_leb_total a b : lex_leb a b = true ∨ lex_leb b a = true.
Proof.
  revert b. induction a as [|x a IH]; intros [|y b]; simpl; auto.
  destruct (Z.lt_trichotomy x y) as [Hl|[->|Hl]].
  - left. by rewrite (proj2 (Z.ltb_lt _ _) Hl).
  - rewrite Z.ltb_irrefl, Z.eqb_refl. apply IH.
  - right. by rewrite (proj2 (Z.ltb_lt _ _) Hl).
Qed.

Lemma lex_leb_cons x a y b :
  lex_leb (x :: a) (y :: b) = true ↔ (x < y)%Z ∨ x = y ∧ lex_leb a b = true.
Proof. simpl. rewrite orb_true_iff, andb_true_iff, Z.ltb_lt, Z.eqb_eq. done. Qed.

Lemma lex_leb_trans a b c : lex_leb a b = true → lex_leb b c = true → lex_leb a c = true.
Proof.
  revert b c. induction a as [|x a IH]; intros [|y b] [|z c]; try done.
  rewrite !lex_leb_cons. intros [?|[-> ?]] [?|[-> ?]]; [left; lia | by left | by left|].
  right. split; [done|]. by eapply IH.
Qed.

Lemma lex_leb_antisym a b : lex_leb a b = true → lex_leb b a = true → a = b.
Proof.
  revert b. induction a as [|x a IH]; intros [|y b]; try done.
  rewrite !lex_leb_cons. intros [?|[-> ?]] [?|[? ?]]; try lia. f_equal. by apply IH.
Qed.

Section SelectLemmas.
Context (key : Z → exec_row → list Z).

#[export] Instance key_le_total : Total (key_le key).
Proof. intros p q. apply lex_leb_total. Qed.
#[export] Instance key_le_trans : Transitive (key_le key).
Proof. intros p q r. apply lex_leb_trans. Qed.

Lemma elem_of_select p d id x :
  (id, x) ∈ select_ordered key p d ↔ db_execs d !! id = Some x ∧ p id x = true.
Proof.
  unfold select_ordered. rewrite merge_sort_Permutation.
  rewrite list_elem_of_In, filter_In, <- list_elem_of_In, elem_of_map_to_list. done.
Qed.

Lemma select_NoDup p d : NoDup (select_ordered key p d).*1.
Proof.
  unfold select_ordered. rewrite merge_sort_Permutation.
  assert (∀ l : list (Z * exec_row), NoDup l.*1 → NoDup (List.filter (λ ix, p ix.1 ix.2) l).*1) as H.
  { induction l as [|[i x] l IH]; [done|]. cbn. rewrite NoDup_cons. intros [Hi Hn].
    destruct (p i x); [|by apply IH]. cbn. apply NoDup_cons. split; [|by apply IH].
    contradict Hi. apply list_elem_of_fmap in Hi as ([j y] & -> & Hj).
    apply list_elem_of_In, filter_In in Hj as [Hj _]. apply list_elem_of_fmap.
    exists (j, y). split; [done|]. by apply list_elem_of_In. }
  apply H, NoDup_fst_map_to_list.
Qed.

Lemma select_sorted p d : StronglySorted (key_le key) (select_ordered key p d).
Proof. apply StronglySorted_merge_sort; apply _. Qed.
End SelectLemmas.

Lemma limit_rows_sub {A} n (l : list A) x : x ∈ limit_rows n l → x ∈ l.
Proof. intros (i & Hi & _)%elem_of_take. by eapply list_elem_of_lookup_2. Qed.
