(* ===== verification/PgCursor.v ===== *)
(** * Page cursors of [ExecutionBackend.list]

    [_encode_cursor] and [_decode_cursor] of
    [onestep_sql/postgres/execution_backend.py]: URL-safe base64, without
    padding, of a small JSON document; and the JSON reader they need. *)

From stdpp Require Import base option list strings numbers sorting.
From Stdlib Require Import ZArith Lia Ascii.
From S2P Require Import Prelude PyFloat Value Calendar Texts Codec Execution PgStore.

(** ** [json.loads]

    Texts with characters below 256; a number with a fraction or an exponent
    is not read.  [fuel] bounds the nesting and the number of members. *)

Definition json_space (c : ascii) : bool :=
  Ascii.eqb c " " || Ascii.eqb c "009" || Ascii.eqb c "010" || Ascii.eqb c "013".

Fixpoint skip_ws (l : list ascii) : list ascii :=
  match l with
  | c :: l' => if json_space c then skip_ws l' else l
  | [] => []
  end.

(** A string after its opening quote. *)
Fixpoint read_string (l : list ascii) : option (list ascii * list ascii) :=
  match l with
  | [] => None
  | c :: l =>
      if Ascii.eqb c quote then Some ([], l)
      else if Ascii.eqb c "\" then
        match l with
        | e :: l =>
            let put c := '(s, r) ← read_string l; Some (c :: s, r) in
            if Ascii.eqb e quote || Ascii.eqb e "\" || Ascii.eqb e "/" then put e
            else if Ascii.eqb e "b" then put (ascii_of_nat 8)
            else if Ascii.eqb e "t" then put (ascii_of_nat 9)
            else if Ascii.eqb e "n" then put (ascii_of_nat 10)
            else if Ascii.eqb e "f" then put (ascii_of_nat 12)
            else if Ascii.eqb e "r" then put (ascii_of_nat 13)
            else None
        | [] => None
        end
      else if (nat_of_ascii c <? 32)%nat then None
      else '(s, r) ← read_string l; Some (c :: s, r)
  end.

Fixpoint read_nat (acc : Z) (l : list ascii) : Z * list ascii :=
  match l with
  | c :: l' => match digit_val c with
               | Some d => read_nat (acc * 10 + d) l'
               | None => (acc, l)
               end
  | [] => (acc, [])
  end.

(** An integer: no leading zero, no fraction, no exponent. *)
Definition read_int (l : list ascii) : option (Z * list ascii) :=
  let '(neg, l) := match l with
                   | c :: l' => if Ascii.eqb c "-" then (true, l') else (false, l)
                   | [] => (false, l)
                   end in
  match l with
  | c :: l' =>
      d ← digit_val c;
      let '(n, r) := if (d =? 0)%Z then (0%Z, l') else read_nat d l' in
      match r with
      | c' :: _ => if Ascii.eqb c' "." || Ascii.eqb c' "e" || Ascii.eqb c' "E" then None
                   else Some (if neg then - n else n, r)%Z
      | [] => Some (if neg then - n else n, r)%Z
      end
  | [] => None
  end.

Definition read_word (w : string) (j : json) (l : list ascii) : option (json * list ascii) :=
  let n := String.length w in
  if bool_decide (take n l = str_to_list w) then Some (j, drop n l) else None.

(** The members of an object, and the elements of a list, whose values [rj]
    reads; [n] bounds their number. *)
Definition read_members (rj : list ascii → option (json * list ascii)) :=
  fix members (n : nat) (l : list ascii) : option (list (string * json) * list ascii) :=
    match n with
    | O => None
    | S n =>
        l ← expect quote (skip_ws l);
        '(k, l) ← read_string l;
        l ← expect ":" (skip_ws l);
        '(j, l) ← rj l;
        match skip_ws l with
        | c :: l =>
            if Ascii.eqb c "," then
              '(ms, r) ← members n l; Some ((str_of_list k, j) :: ms, r)
            else if Ascii.eqb c "}" then Some ([(str_of_list k, j)], l)
            else None
        | [] => None
        end
    end.

Definition read_elements (rj : list ascii → option (json * list ascii)) :=
  fix elements (n : nat) (l : list ascii) : option (list json * list ascii) :=
    match n with
    | O => None
    | S n =>
        '(j, l) ← rj l;
        match skip_ws l with
        | c :: l =>
            if Ascii.eqb c "," then '(js, r) ← elements n l; Some (j :: js, r)
            else if Ascii.eqb c "]" then Some ([j], l)
            else None
        | [] => None
        end
    end.

Fixpoint read_json (fuel : nat) (l : list ascii) : option (json * list ascii) :=
  match fuel with
  | O => None
  | S fuel =>
      match skip_ws l with
      | [] => None
      | c :: l' =>
          if Ascii.eqb c quote then '(s, r) ← read_string l'; Some (JStr (str_of_list s), r)
          else if Ascii.eqb c "{" then
            match skip_ws l' with
            | c' :: r => if Ascii.eqb c' "}" then Some (JObj [], r)
                         else '(ms, r) ← read_members (read_json fuel) fuel l';
                              (* a repeated key keeps its last value *)
                              Some (JObj (foldl (λ d kj, dict_set kj.1 kj.2 d) [] ms), r)
            | [] => None
            end
          else if Ascii.eqb c "[" then
            match skip_ws l' with
            | c' :: r => if Ascii.eqb c' "]" then Some (JList [], r)
                         else '(js, r) ← read_elements (read_json fuel) fuel l'; Some (JList js, r)
            | [] => None
            end
          else if Ascii.eqb c "t" then read_word "true" (JBool true) (c :: l')
          else if Ascii.eqb c "f" then read_word "false" (JBool false) (c :: l')
          else if Ascii.eqb c "n" then read_word "null" JNull (c :: l')
          else '(n, r) ← read_int (c :: l'); Some (JInt n, r)
      end
  end.

(** [json.loads(text)]. *)
Definition json_loads (l : list ascii) : option json :=
  '(j, r) ← read_json (S (length l)) l;
  match skip_ws r with [] => Some j | _ => None end.

(** ** Cursors *)

Definition swap_char (a b c : ascii) : ascii := if Ascii.eqb c a then b else c.

(** [base64.urlsafe_b64encode]. *)
Definition to_urlsafe (c : ascii) : ascii := swap_char "/" "_" (swap_char "+" "-" c).
Definition of_urlsafe (c : ascii) : ascii := swap_char "_" "/" (swap_char "-" "+" c).

Definition bytes_of (l : list ascii) : list Byte.byte := map byte_of_ascii l.
Definition chars_of (l : list Byte.byte) : list ascii := map ascii_of_byte l.

(** [s.rstrip("=")]. *)
Fixpoint drop_pads (l : list ascii) : list ascii :=
  match l with
  | c :: l' => if Ascii.eqb c "=" then drop_pads l' else l
  | [] => []
  end.
Definition rstrip_pads (l : list ascii) : list ascii := reverse (drop_pads (reverse l)).

(** [created_at.isoformat()] of an aware UTC datetime. *)
Definition utc_isoformat (t : Z) : string := dt_isoformat (PyDatetime t (Some 0%Z) false).

Definition json_string (s : string) : list ascii := quote :: str_to_list s ++ [quote].

(** [json.dumps({"v": 1, "created_at": ..., "id": ...}, separators=(",", ":"))];
    neither text needs escaping. *)
Definition cursor_text (created_at id : Z) : list ascii :=
  "{"%char :: json_string "v" ++ ":"%char :: "1"%char
  :: ","%char :: json_string "created_at" ++ ":"%char :: json_string (utc_isoformat created_at)
  ++ ","%char :: json_string "id" ++ ":"%char :: json_string (uuid_str id) ++ ["}"%char].

(** [_encode_cursor]. *)
Definition _encode_cursor (created_at id : Z) : string :=
  str_of_list (rstrip_pads (map to_urlsafe
    (str_to_list (b64encode (bytes_of (cursor_text created_at id)))))).

Definition invalid_cursor : exn := value_error "invalid execution cursor".

(** [cursor + "=" * (-len(cursor) % 4)]. *)
Definition pad_cursor (l : list ascii) : list ascii :=
  l ++ repeat "="%char (Z.to_nat ((- Z.of_nat (length l)) mod 4)).

(** The last steps of [_decode_cursor]: the fields, then the comparison with
    the canonical text. *)
Definition cursor_values (cursor c i : string) : result exn (Z * Z) :=
  match fromisoformat c, uuid_of_string i with
  | Some d, Some id =>
      match dt_offset d with
      | None => Err invalid_cursor
      | Some _ =>
          let created := instant_of d in
          if String.eqb cursor (_encode_cursor created id)
          then Ok (created, id) else Err invalid_cursor
      end
  | _, _ => Err invalid_cursor
  end.

Definition cursor_fields (cursor : string) (raw : list (string * json))
    : result exn (Z * Z) :=
  if negb (bool_decide (length raw = 3%nat)
           && forallb (λ k, existsb (String.eqb k) (dict_keys raw))
                ["v"; "created_at"; "id"])
  then Err invalid_cursor
  else
    match dict_get "v" raw with
    | Some (JInt v) =>
        if negb (v =? 1)%Z then Err (value_error "unknown cursor version")
        else
          match dict_get "created_at" raw, dict_get "id" raw with
          | Some (JStr c), Some (JStr i) => cursor_values cursor c i
          | _, _ => Err invalid_cursor
          end
    | _ => Err invalid_cursor
    end.

(** [_decode_cursor]. *)
Definition _decode_cursor (cursor : string) : result exn (Z * Z) :=
  let l := str_to_list cursor in
  if (1024 <? length l)%nat || existsb is_space l then Err invalid_cursor
  else
    match b64decode (str_of_list (map of_urlsafe (pad_cursor l))) with
    | None => Err invalid_cursor
    | Some bs =>
        match json_loads (chars_of bs) with
        | Some (JObj raw) => cursor_fields cursor raw
        | _ => Err invalid_cursor
        end
    end.

(** ** The round trip *)

Lemma chars_bytes l : chars_of (bytes_of l) = l.
Proof.
  unfold chars_of, bytes_of. rewrite map_map. rewrite <- (map_id l) at 2. apply map_ext.
  intros c. apply ascii_of_byte_of_ascii.
Qed.

Lemma sextet_char_facts n :
  (0 ≤ n < 64)%Z →
  sextet_char n ≠ "="%char ∧ of_urlsafe (to_urlsafe (sextet_char n)) = sextet_char n ∧
  is_space (to_urlsafe (sextet_char n)) = false ∧ to_urlsafe (sextet_char n) ≠ "="%char.
Proof.
  apply (forall_range (λ n, sextet_char n ≠ "="%char ∧
    of_urlsafe (to_urlsafe (sextet_char n)) = sextet_char n ∧
    is_space (to_urlsafe (sextet_char n)) = false ∧
    to_urlsafe (sextet_char n) ≠ "="%char) 64).
  vm_compute. reflexivity.
Qed.

(** Removing the padding and putting it back. *)
Lemma rstrip_pads_app l p :
  Forall (λ c, c ≠ "="%char) l → rstrip_pads (l ++ repeat "="%char p) = l.
Proof.
  intros Hl. unfold rstrip_pads. rewrite reverse_app.
  assert (reverse (repeat "="%char p) = repeat "="%char p) as ->.
  { clear. induction p as [|p IH]; [done|].
    cbn [repeat]. rewrite reverse_cons, IH. clear. induction p as [|p IH]; [done|].
    cbn [repeat app]. by rewrite IH. }
  assert (drop_pads (repeat "="%char p ++ reverse l) = reverse l) as ->; [|apply reverse_involutive].
  induction p as [|p IH]; cbn [repeat app]; [|exact IH].
  apply Forall_reverse in Hl. revert Hl. destruct (reverse l) as [|c r]; [done|]. intros Hl.
  inversion_clear Hl as [|? ? Hc]. cbn. by destruct (Ascii.eqb_spec c "=").
Qed.

Lemma b64_sextets_length bs :
  (Z.of_nat (length (b64_sextets bs).1 + (b64_sextets bs).2) mod 4 = 0)%Z ∧
  (3 * length (b64_sextets bs).1 ≤ 4 * length bs + 2)%nat.
Proof.
  induction bs as [|a|a b|a b c bs [IH1 IH2]] using list_ind3; cbn [b64_sextets fst snd length];
    [split; [done|lia] ..|].
  destruct (b64_sextets bs) as [ss p]. cbn [fst snd length] in *. split; [|lia].
  replace (Z.of_nat (S (S (S (S (length ss)))) + p)) with (Z.of_nat (length ss + p) + 1 * 4)%Z by lia.
  by rewrite Z.mod_add.
Qed.

(** The unpadded URL-safe text of a byte string decodes to it. *)
Lemma urlsafe_round_trip bs :
  let l := rstrip_pads (map to_urlsafe (str_to_list (b64encode bs))) in
  b64decode (str_of_list (map of_urlsafe (pad_cursor l))) = Some bs ∧
  existsb is_space l = false ∧ (3 * length l ≤ 4 * length bs + 2)%nat.
Proof.
  pose proof (base64_round_trip bs) as Hrt.
  assert (Forall (λ n, (0 ≤ n < 256)%Z) (byte_Z <$> bs)) as Hb.
  { apply Forall_fmap, Forall_true. intros b. apply byte_Z_range. }
  pose proof (b64_sextets_range _ Hb) as [Hs Hp].
  pose proof (b64_sextets_length (byte_Z <$> bs)) as [Hmod Hlen].
  rewrite length_fmap in Hlen. unfold b64encode in *.
  destruct (b64_sextets (byte_Z <$> bs)) as [ss p]. cbn [fst snd] in *.
  rewrite str_to_of_list in *. rewrite map_app.
  assert (map to_urlsafe (repeat "="%char p) = repeat "="%char p) as ->
    by (clear; induction p as [|p IH]; [done | cbn; by rewrite IH]).
  set (l := map to_urlsafe (sextet_char <$> ss)).
  assert (Forall (λ c, c ≠ "="%char) l) as Hl.
  { apply Forall_fmap, Forall_fmap. eapply Forall_impl; [exact Hs|].
    intros n Hn. by apply sextet_char_facts. }
  rewrite rstrip_pads_app by done. cbv zeta.
  assert (length l = length ss) as Hll by (unfold l; by rewrite length_map, length_fmap).
  split_and!; [| |lia].
  - unfold pad_cursor. rewrite Hll.
    assert (Z.to_nat ((- Z.of_nat (length ss)) mod 4) = p) as ->.
    { rewrite Nat2Z.inj_add in Hmod.
      assert ((- Z.of_nat (length ss)) mod 4 = Z.of_nat p)%Z as ->; [|lia].
      symmetry. apply (Z.mod_unique_pos _ _ (- ((Z.of_nat (length ss) + Z.of_nat p) / 4))); [lia|].
      pose proof (Z.div_mod (Z.of_nat (length ss) + Z.of_nat p) 4 ltac:(done)). lia. }
    rewrite map_app.
    assert (map of_urlsafe (repeat "="%char p) = repeat "="%char p) as ->
      by (clear; induction p as [|p IH]; [done | cbn; by rewrite IH]).
    assert (map of_urlsafe l = sextet_char <$> ss) as ->; [|done].
    unfold l. clear -Hs. induction Hs as [|n ss Hn Hs IH]; [done|]. cbn.
    rewrite IH. by destruct (sextet_char_facts n Hn) as (_ & -> & _).
  - unfold l. clear -Hs. induction Hs as [|n ss Hn Hs IH]; [done|]. cbn [fmap list_fmap map existsb].
    rewrite IH. by destruct (sextet_char_facts n Hn) as (_ & _ & -> & _).
Qed.

(** Characters a JSON string holds unescaped. *)
Definition plain_char (c : ascii) : bool :=
  negb (Ascii.eqb c quote) && negb (Ascii.eqb c "\") && (32 <=? nat_of_ascii c)%nat.

Lemma read_string_plain l r :
  Forall (λ c, plain_char c = true) l → read_string (l ++ quote :: r) = Some (l, r).
Proof.
  induction 1 as [|c l Hc Hl IH]; cbn [app read_string].
  - by rewrite Ascii.eqb_refl.
  - unfold plain_char in Hc. rewrite !andb_true_iff, !negb_true_iff in Hc.
    destruct Hc as [[-> ->] Hn]. apply Nat.leb_le in Hn.
    rewrite (proj2 (Nat.ltb_ge _ _) Hn), IH. done.
Qed.

Lemma isoformat_plain d : Forall (λ c, plain_char c = true) (str_to_list (dt_isoformat d)).
Proof. by apply isoformat_Forall. Qed.

Lemma uuid_plain u : Forall (λ c, plain_char c = true) (uuid_chars u).
Proof.
  assert (Forall (λ c, uuid_char c = true) (uuid_chars u)) as H
    by apply group_uuid_chars, digits_hex.
  eapply Forall_impl; [exact H|]. intros c Hc. unfold plain_char.
  rewrite !andb_true_iff, !negb_true_iff.
  assert (∀ c', uuid_char c' = false → c ≠ c') as Hne by (intros c' Hc' ->; congruence).
  split_and!.
  - destruct (Ascii.eqb_spec c quote) as [E|]; [exfalso; by apply (Hne quote) | done].
  - destruct (Ascii.eqb_spec c "\") as [E|]; [exfalso; by apply (Hne "\"%char) | done].
  - apply Nat.leb_le. destruct (decide (32 ≤ nat_of_ascii c)%nat) as [|Hlt]; [done|].
    exfalso. revert Hc Hlt. clear. revert c.
    assert (∀ n, (n < 32)%nat → uuid_char (ascii_of_nat n) = false) as Hn.
    { intros n Hn. do 32 (destruct n as [|n]; [vm_compute; reflexivity|]). lia. }
    intros c Hc Hlt. rewrite <- (ascii_nat_embedding c), Hn in Hc by lia. done.
Qed.

(** Reading the document of a cursor, one member at a time. *)
Lemma read_json_string f s r :
  Forall (λ c, plain_char c = true) (str_to_list s) →
  read_json (S f) (quote :: str_to_list s ++ quote :: r) = Some (JStr s, r).
Proof.
  intros Hs. cbn [read_json skip_ws]. change (json_space quote) with false.
  cbv iota. rewrite Ascii.eqb_refl, (read_string_plain _ _ Hs).
  cbn [mbind option_bind]. by rewrite str_of_to_list.
Qed.

Lemma read_json_one f r :
  read_json (S f) ("1"%char :: ","%char :: r) = Some (JInt 1, ","%char :: r).
Proof. reflexivity. Qed.

Section Members.
Context (rj : list ascii → option (json * list ascii)).

Lemma member_step n k l j c r :
  Forall (λ c, plain_char c = true) (str_to_list k) → rj l = Some (j, c :: r) →
  json_space c = false →
  read_members rj (S n) (quote :: str_to_list k ++ quote :: ":"%char :: l)
  = if Ascii.eqb c "," then '(ms, r) ← read_members rj n r; Some ((k, j) :: ms, r)
    else if Ascii.eqb c "}" then Some ([(k, j)], r) else None.
Proof.
  intros Hk Hj Hc. cbn [read_members skip_ws]. change (json_space quote) with false.
  cbv iota. rewrite expect_hit. cbn [mbind option_bind].
  rewrite (read_string_plain _ _ Hk). cbn [mbind option_bind skip_ws].
  change (json_space ":") with false. cbv iota. rewrite expect_hit. cbn [mbind option_bind].
  rewrite Hj. cbn [mbind option_bind skip_ws]. rewrite Hc. cbv iota.
  by rewrite str_of_to_list.
Qed.
End Members.

Lemma read_object f c l ms r :
  json_space c = false → Ascii.eqb c "}" = false →
  read_members (read_json f) f (c :: l) = Some (ms, r) →
  read_json (S f) ("{"%char :: c :: l)
  = Some (JObj (foldl (λ d kj, dict_set kj.1 kj.2 d) [] ms), r).
Proof.
  intros Hc Hb Hm. cbn [read_json skip_ws]. change (json_space "{") with false.
  cbv iota. change (Ascii.eqb "{" quote) with false. change (Ascii.eqb "{" "{") with true.
  cbv iota. cbn [skip_ws]. rewrite Hc. cbv iota. rewrite Hb. cbv iota. by rewrite Hm.
Qed.

Lemma read_cursor_text t id :
  json_loads (cursor_text t id)
  = Some (JObj [("v", JInt 1); ("created_at", JStr (utc_isoformat t)); ("id", JStr (uuid_str id))]).
Proof.
  pose proof (isoformat_plain (PyDatetime t (Some 0%Z) false)) as Hi. fold (utc_isoformat t) in Hi.
  assert (Forall (λ c, plain_char c = true) (str_to_list (uuid_str id))) as Hu.
  { unfold uuid_str. rewrite str_to_of_list. apply uuid_plain. }
  unfold json_loads, cursor_text, json_string.
  set (a := utc_isoformat t) in *. set (b := uuid_str id) in *. clearbody a b. clear t id.
  match goal with |- context [length ?l] => set (n := length l) end.
  assert (∃ f, n = S (S (S (S f)))) as [f ->].
  { subst n. cbn [length]. rewrite length_app. cbn [length str_to_list].
    rewrite !length_app. cbn [length]. rewrite !length_app. cbn [length]. eexists.
    rewrite !Nat.add_succ_r. cbn. reflexivity. }
  cbn [app]. repeat (rewrite <- app_assoc; cbn [app]).
  rewrite (read_object _ _ _ [("v", JInt 1); ("created_at", JStr a); ("id", JStr b)] []);
    [reflexivity | reflexivity | reflexivity |].
  rewrite (member_step _ _ "v" _ _ _ _ ltac:(by repeat constructor) (read_json_one _ _) eq_refl).
  change (Ascii.eqb "," ",") with true. cbv iota.
  rewrite (member_step _ _ "created_at" _ _ ","%char _ ltac:(by repeat constructor) (read_json_string _ _ _ Hi) eq_refl).
  change (Ascii.eqb "," ",") with true. cbv iota.
  rewrite (member_step _ _ "id" _ _ "}"%char _ ltac:(by repeat constructor) (read_json_string _ _ _ Hu) eq_refl).
  reflexivity.
Qed.

(** The text of a cursor is short. *)
Lemma isoformat_length d : (length (str_to_list (dt_isoformat d)) ≤ 64)%nat.
Proof.
  unfold dt_isoformat, iso_offset, iso_hms. rewrite !str_to_list_app, !str_to_list_pad.
  assert (∀ w n, length (digits_pad w n) = w) as Hl
    by (intros; rewrite digits_pad_digits; apply digits_length).
  rewrite !length_app, !Hl.
  destruct (microsecond_of (dt_wall d) =? 0)%Z; rewrite ?str_to_list_app, ?str_to_list_pad, ?length_app, ?Hl;
    (destruct (dt_offset d) as [o|]; [|cbn; lia]);
    rewrite !str_to_list_app, !str_to_list_pad, !length_app, !Hl;
    destruct (o <? 0)%Z, (_ && _); rewrite ?str_to_list_app, ?str_to_list_pad, ?length_app, ?Hl;
    try destruct (_ =? 0)%Z; rewrite ?str_to_list_app, ?str_to_list_pad, ?length_app, ?Hl; cbn; lia.
Qed.

Lemma cursor_text_length t id : (length (cursor_text t id) ≤ 200)%nat.
Proof.
  unfold cursor_text, json_string.
  pose proof (isoformat_length (PyDatetime t (Some 0%Z) false)) as Hi. fold (utc_isoformat t) in Hi.
  assert (length (str_to_list (uuid_str id)) = 36%nat) as Hu.
  { unfold uuid_str, uuid_chars, group_uuid. rewrite str_to_of_list.
    pose proof (digits_length 16 hex_digit 32 id) as Hd.
    set (h := digits 16 hex_digit 32 id) in *. clearbody h.
    repeat (rewrite length_app; cbn [length]). rewrite !length_take, !length_drop, Hd. done. }
  cbn [length app str_to_list]. repeat (rewrite length_app; cbn [length app]). lia.
Qed.

Lemma cursor_fields_text cursor c i :
  cursor_fields cursor [("v", JInt 1); ("created_at", JStr c); ("id", JStr i)]
  = cursor_values cursor c i.
Proof. reflexivity. Qed.

Lemma cursor_round_trip t id :
  (1 ≤ year_of t ≤ 9999)%Z → (0 ≤ id < 2 ^ 128)%Z →
  _decode_cursor (_encode_cursor t id) = Ok (t, id).
Proof.
  intros Hy Hid.
  destruct (urlsafe_round_trip (bytes_of (cursor_text t id))) as (Hd & Hsp & Hlen).
  pose proof (cursor_text_length t id) as Ht.
  assert (length (bytes_of (cursor_text t id)) = length (cursor_text t id)) as Hb
    by apply length_map.
  rewrite Hb in Hlen.
  assert (cursor_values (_encode_cursor t id) (utc_isoformat t) (uuid_str id) = Ok (t, id)) as Hv.
  { unfold cursor_values, utc_isoformat.
    rewrite fromisoformat_isoformat, uuid_round_trip by
      (done || (unfold valid_datetime; cbn [dt_wall dt_offset];
                rewrite !andb_true_iff, !Z.leb_le; done)).
    cbn [dt_offset dt_wall instant_of default]. unfold instant_of. cbn [dt_offset dt_wall].
    replace (t - default 0 (Some 0))%Z with t by (simpl; lia). by rewrite String.eqb_refl. }
  assert (str_to_list (_encode_cursor t id) = rstrip_pads (map to_urlsafe
    (str_to_list (b64encode (bytes_of (cursor_text t id)))))) as Hl by apply str_to_of_list.
  unfold _decode_cursor. rewrite Hl, Hsp, (proj2 (Nat.ltb_ge _ _)) by lia. cbn [orb].
  rewrite Hd, chars_bytes, read_cursor_text, cursor_fields_text. exact Hv.
Qed.
