(* ===== verification/PgBackend.v ===== *)
(** * The PostgreSQL execution backend
    ([onestep_sql/postgres/execution_backend.py])

    Every public operation as a transaction on the two tables of [PgStore].
    The transaction timestamp, fresh UUIDs, the rows other transactions hold
    locked and SHA-256 are arguments. *)

From stdpp Require Import base option list strings numbers gmap sorting.
From Stdlib Require Import ZArith Lia Ascii.
From S2P Require Import Prelude PyFloat Value Texts Codec Execution PgStore.

(** ** Options *)

Record backend_config := {
  max_payload_bytes : Z;
  max_metadata_bytes : Z;
  max_result_bytes : Z;
  reclaim_batch_size : Z;
}.

(** The positive integer options of [__init__]. *)
Definition positive_option (name : string) (v : value) : result exn Z :=
  match v with
  | VInt n => if (n <? 1)%Z then Err (value_error (name +:+ " must be a positive integer"))
              else Ok n
  | _ => Err (value_error (name +:+ " must be a positive integer"))
  end.

(** [PostgresExecutionBackend.__init__]: exactly one of [dsn] and
    [connector]; engine options need a [dsn]. *)
Definition mk_PostgresExecutionBackend (dsn : value) (connector engine_options : bool)
    (payload_bytes metadata_bytes result_bytes batch : value) : result exn backend_config :=
  let no_dsn := match dsn with VNone => true | _ => false end in
  _ ← guard_else (negb (Bool.eqb no_dsn (negb connector)))
        (value_error "pass exactly one of dsn or connector");
  _ ← match dsn with
      | VNone => Ok ()
      | VStr s => guard_else (str_nonempty (strip s)) (value_error "dsn must not be empty")
      | _ => Err (type_error "dsn must be a string")
      end;
  _ ← guard_else (negb (connector && engine_options))
        (value_error "engine options require a dsn");
  p ← positive_option "max_payload_bytes" payload_bytes;
  m ← positive_option "max_metadata_bytes" metadata_bytes;
  r ← positive_option "max_result_bytes" result_bytes;
  b ← positive_option "reclaim_batch_size" batch;
  Ok {| max_payload_bytes := p; max_metadata_bytes := m; max_result_bytes := r;
        reclaim_batch_size := b |}.

(** ** Times *)

(** 9999-12-31T23:59:59.999999. *)
Definition max_instant : Z := 253402300799999999.

(** [now + timedelta(seconds=x)]. *)
Definition after_seconds (now : Z) (x : float64) : result exn Z :=
  match timedelta_us x with
  | None => Err (if is_nan x then value_error "cannot convert float NaN to integer"
                 else overflow_error "cannot convert float infinity to integer")
  | Some us => if (now + us <=? max_instant)%Z then Ok (now + us)%Z
               else Err (overflow_error "date value out of range")
  end.

(** [x or 0] of a delay. *)
Definition delay_or_zero (d : option float64) : float64 :=
  match d with Some x => if f_truthy x then x else f_zero | None => f_zero end.

Section Backend.
Context `{CodecEnv} (sha256_hex : list ascii → string) (cfg : backend_config).

(** ** Encoding of rows *)

Definition _encode_value (v : value) (field : string) : result ExecutionException json :=
  match encode_value "" v with
  | Ok j => Ok j
  | Err e => Err (ExecutionEncodingError
                    ("cannot encode execution " +:+ field +:+ ": " +:+ exn_message e))
  end.

Definition _encoded_size (j : json) : Z := Z.of_nat (length (dumps j)).

Definition nullable {A} (f : A → json) (o : option A) : json :=
  match o with None => JNull | Some a => f a end.

(** The document whose SHA-256 identifies a submission. *)
Definition digest_payload (r : ExecutionRequest) (payload metadata : json) : json :=
  JObj [("namespace", JStr (rq_namespace r)); ("task_name", JStr (rq_task_name r));
        ("payload", payload); ("metadata", metadata);
        ("delay_s", nullable JFloat (rq_delay_s r));
        ("expires_at", nullable (λ d, JStr (dt_isoformat d)) (rq_expires_at r))].

Record encoded_submission := {
  enc_payload : json;
  enc_metadata : json;
  enc_digest : string;
}.

Definition _encode_submission (r : ExecutionRequest)
    : result ExecutionException encoded_submission :=
  match vdict_get "onestep.execution" (rq_metadata r) with
  | Some _ => Err (Raised (value_error "metadata key 'onestep.execution' is reserved"))
  | None =>
      p ← _encode_value (rq_payload r) "payload";
      m ← _encode_value (VDict (rq_metadata r)) "metadata";
      _ ← guard_else (_encoded_size p <=? max_payload_bytes cfg)%Z
            (ExecutionEncodingError "execution payload exceeds the configured limit");
      _ ← guard_else (_encoded_size m <=? max_metadata_bytes cfg)%Z
            (ExecutionEncodingError "execution metadata exceeds the configured limit");
      Ok {| enc_payload := p; enc_metadata := m;
            enc_digest := sha256_hex (dumps (digest_payload r p m)) |}
  end.

(** [asdict(error)]. *)
Definition error_asdict (d : ExecutionErrorDetail) : json :=
  JObj [("kind", JStr (ed_kind d)); ("exception_type", JStr (ed_exception_type d));
        ("stage", nullable JStr (ed_stage d)); ("backend", nullable JStr (ed_backend d));
        ("operation", nullable JStr (ed_operation d));
        ("connector_kind", nullable JStr (ed_connector_kind d))].

Definition error_fields : list string :=
  ["kind"; "exception_type"; "stage"; "backend"; "operation"; "connector_kind"].

(** [ExecutionErrorDetail( **raw)]. *)
Definition detail_of_value (v : value) : result exn ExecutionErrorDetail :=
  match v with
  | VDict items =>
      _ ← guard_else (forallb (λ kv, match kv.1 with
                                     | VStr k => existsb (String.eqb k) error_fields
                                     | _ => false
                                     end) items)
            (type_error "ExecutionErrorDetail got an unexpected keyword argument");
      let opt k := default VNone (vdict_get k items) in
      match vdict_get "kind" items, vdict_get "exception_type" items with
      | Some k, Some t =>
          mk_ExecutionErrorDetail k t (opt "stage") (opt "backend") (opt "operation")
            (opt "connector_kind")
      | _, _ => Err (type_error "ExecutionErrorDetail missing required arguments")
      end
  | _ => Err (type_error "ExecutionErrorDetail argument after ** must be a mapping")
  end.

(** [decode_value(column) if column is not None else None]. *)
Definition decode_nullable (j : json) : result exn value :=
  match j with JNull => Ok VNone | _ => decode_value "" j end.

(** [_row_to_execution]. *)
Definition row_execution (id : Z) (x : exec_row) : result exn Execution :=
  raw ← decode_nullable (r_error x);
  er ← match raw with VNone => Ok None | v => d ← detail_of_value v; Ok (Some d) end;
  p ← decode_value "" (s_payload (r_sub x));
  m ← decode_value "" (s_metadata (r_sub x));
  res ← decode_nullable (r_result x);
  Ok {| ex_id := id; ex_namespace := s_namespace (r_sub x);
        ex_task_name := s_task_name (r_sub x); ex_status := r_status x;
        ex_payload := p; ex_metadata := m; ex_result := res; ex_error := er;
        ex_attempts := r_attempts x; ex_created_at := s_created_at (r_sub x);
        ex_available_at := r_available_at x; ex_started_at := r_started_at x;
        ex_finished_at := r_finished_at x;
        ex_cancel_requested_at := r_cancel_requested_at x;
        ex_expires_at := s_expires_at (r_sub x); ex_version := r_version x |}.

Definition _row_to_execution (id : Z) (x : exec_row) : result ExecutionException Execution :=
  match row_execution id x with
  | Ok e => Ok e
  | Err e => Err (ExecutionEncodingError
                    ("cannot decode execution " +:+ uuid_str id +:+ ": " +:+ exn_message e))
  end.

(** ** [submit] and [get] *)

Definition _get (namespace : string) (id : Z) : T (option Execution) :=
  row ← select_exec id;
  match row with
  | Some x =>
      if bool_decide (s_namespace (r_sub x) = namespace)
      then e ← se_lift (_row_to_execution id x); mret (Some e)
      else mret None
  | None => mret None
  end.

(** The row [submit] inserts. *)
Definition submitted_row (now available : Z) (r : ExecutionRequest)
    (enc : encoded_submission) : exec_row :=
  {| r_sub := {| s_namespace := rq_namespace r; s_task_name := rq_task_name r;
                 s_payload := enc_payload enc; s_metadata := enc_metadata enc;
                 s_idempotency_key := rq_idempotency_key r;
                 s_submission_digest :=
                   match rq_idempotency_key r with
                   | Some _ => Some (enc_digest enc)
                   | None => None
                   end;
                 s_expires_at := instant_of <$> rq_expires_at r;
                 s_created_at := now |};
     r_status := QUEUED; r_result := JNull; r_error := JNull; r_attempts := 0;
     r_available_at := available; r_lease_token := None; r_lease_expires_at := None;
     r_worker_id := None; r_cancel_reason := None; r_cancel_requested_at := None;
     r_updated_at := now; r_started_at := None; r_finished_at := None; r_version := 0 |}.

(** The row an idempotency key was used for. *)
Definition find_by_key (namespace task_name key : string) (d : db) : option (Z * exec_row) :=
  List.find (λ ix, bool_decide (s_namespace (r_sub ix.2) = namespace)
                   && bool_decide (s_task_name (r_sub ix.2) = task_name)
                   && bool_decide (s_idempotency_key (r_sub ix.2) = Some key))
    (map_to_list (db_execs d)).

Definition is_integrity_error (e : ExecutionException) : bool :=
  match e with Raised e => String.eqb (exn_type_name e) "IntegrityError" | _ => false end.

(** [_submit]: the INSERT commits or, on [IntegrityError], a second
    transaction looks up the earlier submission with the same key. *)
Definition _submit (now id : Z) (r : ExecutionRequest) (enc : encoded_submission)
    : T (option Execution) := λ d,
  let insert : T unit :=
    available ← se_lift (lift_exn (after_seconds now (delay_or_zero (rq_delay_s r))));
    insert_exec id (submitted_row now available r enc) in
  match transaction insert d with
  | (d', Ok _) => _get (rq_namespace r) id d'
  | (d', Err e) =>
      if negb (is_integrity_error e) then (d', Err e)
      else
        match rq_idempotency_key r with
        | None => (d', Err e)
        | Some key =>
            match find_by_key (rq_namespace r) (rq_task_name r) key d' with
            | None => (d', Err e)
            | Some (id', x) =>
                if bool_decide (s_submission_digest (r_sub x) = Some (enc_digest enc))
                then (d', match _row_to_execution id' x with
                          | Ok e => Ok (Some e)
                          | Err e => Err e
                          end)
                else (d', Err (ExecutionConflict
                       "idempotency key was already used with a different submission"))
            end
        end
  end.

Definition submit (now id : Z) (r : ExecutionRequest) : T (option Execution) :=
  enc ← se_lift (_encode_submission r);
  _submit now id r enc.

(** ** [request_cancel] *)

Definition cancel_waiting (now : Z) (reason : option string) (x : exec_row) : exec_row :=
  {| r_sub := r_sub x; r_status := CANCELLED; r_result := r_result x; r_error := r_error x;
     r_attempts := r_attempts x; r_available_at := r_available_at x;
     r_lease_token := r_lease_token x; r_lease_expires_at := r_lease_expires_at x;
     r_worker_id := r_worker_id x; r_cancel_reason := reason;
     r_cancel_requested_at := Some now; r_updated_at := now;
     r_started_at := r_started_at x; r_finished_at := Some now;
     r_version := (r_version x + 1)%Z |}.

Definition cancel_running (now : Z) (reason : option string) (x : exec_row) : exec_row :=
  {| r_sub := r_sub x; r_status := CANCEL_REQUESTED; r_result := r_result x;
     r_error := r_error x; r_attempts := r_attempts x; r_available_at := r_available_at x;
     r_lease_token := r_lease_token x; r_lease_expires_at := r_lease_expires_at x;
     r_worker_id := r_worker_id x; r_cancel_reason := reason;
     r_cancel_requested_at := Some now; r_updated_at := now;
     r_started_at := r_started_at x; r_finished_at := r_finished_at x;
     r_version := (r_version x + 1)%Z |}.

(** The transaction returns the row to report; a refreshed row is decoded
    after the commit, an unchanged one before it. *)
Definition cancel_transaction (now : Z) (namespace : string) (id : Z)
    (reason : option string) : T (option exec_row) :=
  transaction (
    row ← select_exec id;
    match row with
    | None => mret None
    | Some x =>
        if negb (bool_decide (s_namespace (r_sub x) = namespace)) then mret None
        else
          let update set_ : T (option exec_row) :=
            _ ← update_exec id (λ _, true) set_;
            select_exec id in
          match r_status x with
          | QUEUED | RETRYING => update (cancel_waiting now reason)
          | RUNNING => update (cancel_running now reason)
          | _ => mret (Some x)
          end
    end).

Definition _request_cancel (now : Z) (namespace : string) (id : Z) (reason : option string)
    : T (option Execution) :=
  row ← cancel_transaction now namespace id reason;
  match row with
  | None => mret None
  | Some x => e ← se_lift (_row_to_execution id x); mret (Some e)
  end.

(** ** [claim] *)

(** [_lease_lost_retry_predicate]: the execution waits for a retry because
    its last attempt lost its lease. *)
Definition lease_lost_retry (d : db) (id : Z) (x : exec_row) : bool :=
  bool_decide (r_status x = RETRYING)
  && exists_att (λ _ a, bool_decide (at_execution_id a = id)
                        && (at_attempt_no a =? r_attempts x)%Z
                        && bool_decide (at_status a = A_LEASE_LOST)) d.

Definition is_waiting (s : ExecutionStatus) : bool :=
  match s with QUEUED | RETRYING => true | _ => false end.

Definition past (now : Z) (t : option Z) : bool :=
  match t with Some t => (t <=? now)%Z | None => false end.

(** [_expire_queued]. *)
Definition expirable (d : db) (now : Z) (id : Z) (x : exec_row) : bool :=
  is_waiting (r_status x) && past now (s_expires_at (r_sub x))
  && negb (lease_lost_retry d id x).

Definition expired_row (now : Z) (x : exec_row) : exec_row :=
  {| r_sub := r_sub x; r_status := EXPIRED; r_result := r_result x; r_error := r_error x;
     r_attempts := r_attempts x; r_available_at := r_available_at x;
     r_lease_token := r_lease_token x; r_lease_expires_at := r_lease_expires_at x;
     r_worker_id := r_worker_id x; r_cancel_reason := r_cancel_reason x;
     r_cancel_requested_at := r_cancel_requested_at x; r_updated_at := now;
     r_started_at := r_started_at x; r_finished_at := Some now;
     r_version := (r_version x + 1)%Z |}.

Definition _expire_queued (now : Z) : T unit :=
  d ← se_get;
  let rows := limit_rows (reclaim_batch_size cfg)
                (select_ordered (λ id x, [default 0%Z (s_expires_at (r_sub x)); id])
                   (expirable d now) d) in
  se_iter (λ ix : Z * exec_row,
    d ← se_get;
    _ ← update_exec ix.1
          (λ y, (r_version y =? r_version ix.2)%Z && expirable d now ix.1 y)
          (expired_row now);
    mret ()) rows.

(** A lease past its expiry. *)
Definition lease_over (now : Z) (status : ExecutionStatus) (x : exec_row) : bool :=
  bool_decide (r_status x = status) && past now (r_lease_expires_at x).

(** The lease columns set to NULL. *)
Definition unleased_row (now : Z) (status : ExecutionStatus) (available : Z)
    (finished : option Z) (x : exec_row) : exec_row :=
  {| r_sub := r_sub x; r_status := status; r_result := r_result x; r_error := r_error x;
     r_attempts := r_attempts x; r_available_at := available;
     r_lease_token := None; r_lease_expires_at := None; r_worker_id := None;
     r_cancel_reason := r_cancel_reason x;
     r_cancel_requested_at := r_cancel_requested_at x; r_updated_at := now;
     r_started_at := r_started_at x; r_finished_at := finished;
     r_version := (r_version x + 1)%Z |}.

Definition finish_att (status : AttemptStatus) (error : json) (now : Z) (a : att_row) : att_row :=
  {| at_execution_id := at_execution_id a; at_attempt_no := at_attempt_no a;
     at_lease_token := at_lease_token a; at_worker_id := at_worker_id a;
     at_status := status; at_error := error; at_started_at := at_started_at a;
     at_heartbeat_at := at_heartbeat_at a; at_finished_at := Some now |}.

(** [finish_att] with the error column left alone. *)
Definition close_att (status : AttemptStatus) (now : Z) (a : att_row) : att_row :=
  finish_att status (at_error a) now a.

(** [WHERE execution_id = ? AND lease_token = ? AND status = 'running']. *)
Definition running_attempt (id : Z) (token : option Z) (a : att_row) : bool :=
  bool_decide (at_execution_id a = id) && bool_decide (Some (at_lease_token a) = token)
  && bool_decide (at_status a = A_RUNNING).

(** The loop shared by [_expire_cancel_requests] and
    [_release_expired_leases]: the executions in [status] whose lease is over
    become [set_], their running attempt becomes [att_status]. *)
Definition reclaim (now : Z) (status : ExecutionStatus) (set_ : exec_row → exec_row)
    (att_status : AttemptStatus) : T unit :=
  d ← se_get;
  let rows := limit_rows (reclaim_batch_size cfg)
                (select_ordered (λ id x, [default 0%Z (r_lease_expires_at x); id])
                   (λ _, lease_over now status) d) in
  se_iter (λ ix : Z * exec_row,
    updated ← update_exec ix.1
      (λ y, (r_version y =? r_version ix.2)%Z
            && bool_decide (r_lease_token y = r_lease_token ix.2)
            && lease_over now status y)
      set_;
    if updated : bool
    then update_atts (running_attempt ix.1 (r_lease_token ix.2)) (close_att att_status now)
    else mret ()) rows.

Definition cancelled_row (now : Z) (x : exec_row) : exec_row :=
  unleased_row now CANCELLED (r_available_at x) (Some now) x.

Definition reclaimed_row (now : Z) (x : exec_row) : exec_row :=
  unleased_row now RETRYING now (r_finished_at x) x.

Definition _expire_cancel_requests (now : Z) : T unit :=
  reclaim now CANCEL_REQUESTED (cancelled_row now) A_CANCELLED.

Definition _release_expired_leases (now : Z) : T unit :=
  reclaim now RUNNING (reclaimed_row now) A_LEASE_LOST.

(** The executions [claim] may lease. *)
Definition claimable (d : db) (now : Z) (namespace : string) (task_names : list string)
    (id : Z) (x : exec_row) : bool :=
  bool_decide (s_namespace (r_sub x) = namespace)
  && bool_decide (s_task_name (r_sub x) ∈ task_names)
  && is_waiting (r_status x)
  && (r_available_at x <=? now)%Z
  && (match s_expires_at (r_sub x) with None => true | Some t => (now <? t)%Z end
      || lease_lost_retry d id x).

Definition claim_key (id : Z) (x : exec_row) : list Z :=
  [r_available_at x; s_created_at (r_sub x); id].

Definition leased_row (now token expires : Z) (worker : string) (x : exec_row) : exec_row :=
  {| r_sub := r_sub x; r_status := RUNNING; r_result := r_result x; r_error := r_error x;
     r_attempts := (r_attempts x + 1)%Z; r_available_at := r_available_at x;
     r_lease_token := Some token; r_lease_expires_at := Some expires;
     r_worker_id := Some worker; r_cancel_reason := r_cancel_reason x;
     r_cancel_requested_at := r_cancel_requested_at x; r_updated_at := now;
     r_started_at := Some (default now (r_started_at x));
     r_finished_at := r_finished_at x; r_version := (r_version x + 1)%Z |}.

Definition new_attempt (now id token : Z) (worker : string) (x : exec_row) : att_row :=
  {| at_execution_id := id; at_attempt_no := (r_attempts x + 1)%Z; at_lease_token := token;
     at_worker_id := worker; at_status := A_RUNNING; at_error := JNull;
     at_started_at := now; at_heartbeat_at := now; at_finished_at := None |}.

(** One lease: [uuids] are the attempt id and the lease token. *)
Definition lease_one (now expires : Z) (worker : string) (uuids : Z * Z)
    (ix : Z * exec_row) : T ExecutionLease :=
  let '(attempt_id, token) := uuids in
  let '(id, x) := ix in
  _ ← update_exec id (λ _, true) (leased_row now token expires worker);
  _ ← insert_att attempt_id (new_attempt now id token worker x);
  row ← select_exec id;
  e ← match row with
      | Some y => se_lift (_row_to_execution id y)
      | None => se_raise (Raised (runtime_error "No row was found when one was required"))
      end;
  mret {| le_execution := e; le_attempt_id := attempt_id; le_lease_token := token;
          le_lease_expires_at := expires |}.

(** [zip(rows, uuids)] of a stream of fresh UUIDs. *)
Definition with_uuids (uuids : nat → Z * Z) (rows : list (Z * exec_row))
    : list ((Z * Z) * (Z * exec_row)) :=
  imap (λ k ix, (uuids k, ix)) rows.

(** The argument checks of [_claim]. *)
Definition check_claim (task_names : list string) (limit : Z) (lease_s : float64)
    (worker : string) : result exn unit :=
  _ ← guard_else (match task_names with [] => false | _ => bool_decide (NoDup task_names) end)
        (value_error "task_names must be non-empty and unique");
  _ ← guard_else (negb (limit <? 1)%Z) (value_error "limit must be >= 1");
  _ ← guard_else (negb (fleb lease_s f_zero)) (value_error "lease_duration_s must be > 0");
  guard_else (str_nonempty (strip worker) && (String.length worker <=? 255)%nat)
    (value_error "worker_id must be non-empty and <= 255 characters").

(** [_claim]: [locked] are the rows other transactions hold, which
    [FOR UPDATE SKIP LOCKED] passes over. *)
Definition claim (now : Z) (locked : gset Z) (uuids : nat → Z * Z) (namespace : string)
    (task_names : list string) (limit : Z) (lease_s : float64) (worker : string)
    : T (list ExecutionLease) :=
  _ ← se_lift (lift_exn (check_claim task_names limit lease_s worker));
  transaction (
    _ ← _expire_queued now;
    _ ← _expire_cancel_requests now;
    _ ← _release_expired_leases now;
    d ← se_get;
    let rows := limit_rows limit
                  (select_ordered claim_key
                     (λ id x, claimable d now namespace task_names id x
                              && negb (bool_decide (id ∈ locked))) d) in
    match rows with
    | [] => mret []
    | _ =>
        expires ← se_lift (lift_exn (after_seconds now lease_s));
        se_map (λ ui : (Z * Z) * (Z * exec_row),
                  lease_one now expires (strip worker) ui.1 ui.2)
          (with_uuids uuids rows)
    end).

(** ** [heartbeat] *)

Definition StaleExecutionLease (message : string) : ExecutionException :=
  ExecutionLeaseLost message.

Definition is_leased (s : ExecutionStatus) : bool :=
  match s with RUNNING | CANCEL_REQUESTED => true | _ => false end.

(** [lease_token = ? AND lease_expires_at IS NOT NULL AND lease_expires_at > now]. *)
Definition holds_lease (now token : Z) (x : exec_row) : bool :=
  bool_decide (r_lease_token x = Some token)
  && match r_lease_expires_at x with Some t => (now <? t)%Z | None => false end.

Definition extended_row (now expires : Z) (x : exec_row) : exec_row :=
  {| r_sub := r_sub x; r_status := r_status x; r_result := r_result x;
     r_error := r_error x; r_attempts := r_attempts x;
     r_available_at := r_available_at x; r_lease_token := r_lease_token x;
     r_lease_expires_at := Some expires; r_worker_id := r_worker_id x;
     r_cancel_reason := r_cancel_reason x;
     r_cancel_requested_at := r_cancel_requested_at x; r_updated_at := now;
     r_started_at := r_started_at x; r_finished_at := r_finished_at x;
     r_version := r_version x |}.

Definition beat_att (now : Z) (a : att_row) : att_row :=
  {| at_execution_id := at_execution_id a; at_attempt_no := at_attempt_no a;
     at_lease_token := at_lease_token a; at_worker_id := at_worker_id a;
     at_status := at_status a; at_error := at_error a; at_started_at := at_started_at a;
     at_heartbeat_at := now; at_finished_at := at_finished_at a |}.

Definition heartbeat (now id attempt_id token : Z) (lease_s : float64) : T HeartbeatResult :=
  _ ← se_lift (lift_exn (guard_else (negb (fleb lease_s f_zero))
                           (value_error "lease_duration_s must be > 0")));
  transaction (
    expires ← se_lift (lift_exn (after_seconds now lease_s));
    u ← update_exec id (λ x, is_leased (r_status x) && holds_lease now token x)
          (extended_row now expires);
    v ← update_att attempt_id (running_attempt id (Some token)) (beat_att now);
    if (u : bool) && (v : bool)
    then
      row ← select_exec id;
      mret {| hb_lease_expires_at := expires;
              hb_cancel_requested :=
                match row with
                | Some x => bool_decide (r_status x = CANCEL_REQUESTED)
                | None => false
                end |}
    else se_raise (StaleExecutionLease "execution lease is no longer valid")).

(** ** [complete] *)

(** The statuses a completion may start from. *)
Definition expected_statuses (c : ExecutionStatus) : list ExecutionStatus :=
  match c with
  | SUCCEEDED => [RUNNING; CANCEL_REQUESTED]
  | RETRYING => [RUNNING]
  | FAILED => [RUNNING]
  | CANCELLED => [RUNNING; CANCEL_REQUESTED]
  | _ => []
  end.

Definition attempt_status (s : ExecutionStatus) : AttemptStatus :=
  match s with
  | SUCCEEDED => A_SUCCEEDED | RETRYING => A_RETRYING | FAILED => A_FAILED | _ => A_CANCELLED
  end.

Definition completed_row (now : Z) (status : ExecutionStatus) (res error : json)
    (available : Z) (x : exec_row) : exec_row :=
  {| r_sub := r_sub x; r_status := status; r_result := res; r_error := error;
     r_attempts := r_attempts x;
     r_available_at := if bool_decide (status = RETRYING) then available else r_available_at x;
     r_lease_token := None; r_lease_expires_at := None; r_worker_id := None;
     r_cancel_reason := r_cancel_reason x;
     r_cancel_requested_at := r_cancel_requested_at x; r_updated_at := now;
     r_started_at := r_started_at x;
     r_finished_at := if bool_decide (status = RETRYING) then None else Some now;
     r_version := (r_version x + 1)%Z |}.

(** The encoded result of a success that is not overridden by a
    cancellation. *)
Definition encode_result (c : ExecutionCompletion) : result ExecutionException json :=
  j ← _encode_value (cp_result c) "result";
  _ ← guard_else (_encoded_size j <=? max_result_bytes cfg)%Z
        (ExecutionEncodingError "execution result exceeds the configured limit");
  Ok j.

(** The transaction of [_complete]; it returns the row to decode. *)
Definition complete_transaction (now id attempt_id token : Z) (c : ExecutionCompletion)
    : T exec_row :=
  let error := nullable error_asdict (cp_error c) in
  transaction (
    row ← select_exec id;
    match row with
    | None => se_raise (StaleExecutionLease "execution does not exist")
    | Some x =>
        let cancel_won := bool_decide (cp_status c = SUCCEEDED)
                          && bool_decide (r_status x = CANCEL_REQUESTED) in
        res ← (if bool_decide (cp_status c = SUCCEEDED) && negb cancel_won
               then se_lift (encode_result c) else mret JNull : T json);
        let status := if cancel_won then CANCELLED else cp_status c in
        let res' := if cancel_won then JNull else res in
        let error' := if cancel_won then JNull else error in
        available ← (if bool_decide (status = RETRYING)
                     then se_lift (lift_exn (after_seconds now (delay_or_zero (cp_delay_s c))))
                     else mret now : T Z);
        updated ← update_exec id
          (λ y, bool_decide (r_status y ∈ expected_statuses (cp_status c))
                && holds_lease now token y)
          (completed_row now status res' error' available);
        if negb (updated : bool)
        then
          if bool_decide (r_status x = cp_status c)
             && match r_status x with SUCCEEDED | FAILED | CANCELLED => true | _ => false end
             && json_eqb (r_result x) (if bool_decide (cp_status c = SUCCEEDED) then res else JNull)
             && json_eqb (r_error x) error
          then mret x
          else se_raise (StaleExecutionLease "execution lease is no longer valid")
        else
          v ← update_att attempt_id (running_attempt id (Some token))
                (finish_att (attempt_status status) error' now);
          if negb (v : bool)
          then se_raise (StaleExecutionLease "execution attempt is no longer valid")
          else
            row' ← select_exec id;
            match row' with
            | Some y => mret y
            | None => se_raise (Raised (runtime_error "No row was found when one was required"))
            end
    end).

Definition complete (now id attempt_id token : Z) (c : ExecutionCompletion) : T Execution :=
  x ← complete_transaction now id attempt_id token c;
  se_lift (_row_to_execution id x).

(** ** [release] *)

Definition released_row (now : Z) (x : exec_row) : exec_row :=
  unleased_row now QUEUED now (r_finished_at x) x.

Definition release_transaction (now id attempt_id token : Z) : T exec_row :=
  transaction (
    row ← select_exec id;
    match row with
    | None => se_raise (StaleExecutionLease "execution does not exist")
    | Some _ =>
        updated ← update_exec id
          (λ y, bool_decide (r_status y = RUNNING) && holds_lease now token y)
          (released_row now);
        if negb (updated : bool)
        then se_raise (StaleExecutionLease "execution lease is no longer valid")
        else
          v ← update_att attempt_id (running_attempt id (Some token))
                (close_att A_LEASE_LOST now);
          if negb (v : bool)
          then se_raise (StaleExecutionLease "execution attempt is no longer valid")
          else
            row' ← select_exec id;
            match row' with
            | Some y => mret y
            | None => se_raise (Raised (runtime_error "No row was found when one was required"))
            end
    end).

Definition release (now id attempt_id token : Z) : T Execution :=
  x ← release_transaction now id attempt_id token;
  se_lift (_row_to_execution id x).

(** [lease_remaining]: the seconds left, in microseconds. *)
Definition lease_remaining_us (now lease_expires_at : Z) : Z := (lease_expires_at - now)%Z.
End Backend.
