(* ===== verification/PgInvariant.v ===== *)
(** * The invariant of the execution tables

    Every transaction of the backend, by any client or worker and in any
    order, keeps the two tables consistent: the columns of a row agree with
    its status, an execution holds a lease exactly while one of its attempts
    runs, and idempotency keys stay unique. *)

From stdpp Require Import base option list strings numbers gmap sorting.
From Stdlib Require Import ZArith Lia Ascii.
From S2P Require Import Prelude PyFloat Value Texts Codec Execution PgStore PgBackend.

(** ** The invariant *)

(** The columns of one row agree. *)
Record row_ok (x : exec_row) : Prop := {
  ok_lease :
    if is_leased (r_status x)
    then is_Some (r_lease_token x) ∧ is_Some (r_lease_expires_at x) ∧ is_Some (r_worker_id x)
         ∧ (0 < r_attempts x)%Z
    else r_lease_token x = None ∧ r_lease_expires_at x = None ∧ r_worker_id x = None;
  ok_finished : is_Some (r_finished_at x) ↔ is_terminal (r_status x) = true;
  ok_result : r_result x ≠ JNull → r_status x = SUCCEEDED;
  ok_cancel : r_status x = CANCEL_REQUESTED → is_Some (r_cancel_requested_at x);
  ok_attempts : (0 ≤ r_attempts x ≤ r_version x)%Z;
  ok_started : is_Some (r_started_at x) ↔ (0 < r_attempts x)%Z;
  ok_digest : is_Some (s_idempotency_key (r_sub x)) ↔ is_Some (s_submission_digest (r_sub x));
}.

Definition att_ok (a : att_row) : Prop :=
  at_status a = A_RUNNING ↔ at_finished_at a = None.

(** The attempts of an execution: a running one is the last and holds the
    lease, and a lease has a running attempt. *)
Record attempts_ok (m : gmap Z att_row) (id : Z) (x : exec_row) : Prop := {
  ok_attempt_no : ∀ i a, m !! i = Some a → at_execution_id a = id →
    (1 ≤ at_attempt_no a ≤ r_attempts x)%Z;
  ok_running : ∀ i a, m !! i = Some a → at_execution_id a = id → at_status a = A_RUNNING →
    is_leased (r_status x) = true ∧ r_lease_token x = Some (at_lease_token a)
    ∧ at_attempt_no a = r_attempts x;
  ok_leased : is_leased (r_status x) = true →
    ∃ i a, m !! i = Some a ∧ at_execution_id a = id ∧ at_status a = A_RUNNING;
}.

Record db_inv (d : db) : Prop := {
  inv_rows : ∀ id x, db_execs d !! id = Some x → row_ok x ∧ attempts_ok (db_atts d) id x;
  inv_atts : ∀ i a, db_atts d !! i = Some a → att_ok a ∧ is_Some (db_execs d !! at_execution_id a);
  inv_attempt_unique : ∀ i j a b, db_atts d !! i = Some a → db_atts d !! j = Some b →
    at_execution_id a = at_execution_id b → at_attempt_no a = at_attempt_no b → i = j;
  inv_key_unique : ∀ i j x y, db_execs d !! i = Some x → db_execs d !! j = Some y →
    same_idempotency (r_sub x) (r_sub y) = true → i = j;
}.

Lemma empty_db_inv : db_inv empty_db.
Proof. by constructor. Qed.

(** ** The three ways a transaction changes the tables *)

(** An update that keeps the lease, the attempt count and the submission. *)
Definition keeps_lease (x y : exec_row) : Prop :=
  r_sub y = r_sub x ∧ is_leased (r_status y) = is_leased (r_status x) ∧
  r_lease_token y = r_lease_token x ∧ r_attempts y = r_attempts x.

Lemma attempts_ok_keeps m id x y :
  keeps_lease x y → attempts_ok m id x → attempts_ok m id y.
Proof.
  intros (Hs & Hl & Ht & Ha) []. constructor; rewrite ?Hl, ?Ht, ?Ha; auto.
Qed.

Lemma inv_update_exec d id x y :
  db_inv d → db_execs d !! id = Some x → row_ok y → keeps_lease x y →
  db_inv (with_execs <[id := y]> d).
Proof.
  intros [Hr Ha Hu Hk] Hx Hy Hkeep. constructor; cbn [with_execs db_execs db_atts].
  - intros i z [[<- <-]|[Hne Hz]]%lookup_insert_Some; [|by apply Hr].
    split; [done|]. eapply attempts_ok_keeps; [done|]. by apply Hr.
  - intros i a Hi. destruct (Ha i a Hi) as [Hok Hex]. split; [done|].
    destruct (decide (id = at_execution_id a)) as [->|Hne].
    + rewrite lookup_insert_eq. eauto.
    + by rewrite lookup_insert_ne.
  - exact Hu.
  - intros i j z w Hz Hw. destruct Hkeep as (Hs & _).
    apply lookup_insert_Some in Hz as [[<- <-]|[Hne Hz]];
      apply lookup_insert_Some in Hw as [[<- <-]|[Hne' Hw]]; try done.
    + rewrite Hs. by apply (Hk id j x w).
    + rewrite Hs. by apply (Hk i id z x).
    + by apply Hk.
Qed.

(** The running attempt of a lease, closed. *)
Definition close_attempts (id : Z) (token : option Z) (f : att_row → att_row)
    (m : gmap Z att_row) : gmap Z att_row :=
  (λ a, if running_attempt id token a then f a else a) <$> m.

(** [f] ends an attempt. *)
Definition closes (f : att_row → att_row) : Prop :=
  ∀ a, at_execution_id (f a) = at_execution_id a ∧ at_attempt_no (f a) = at_attempt_no a ∧
       at_lease_token (f a) = at_lease_token a ∧ at_status (f a) ≠ A_RUNNING ∧
       is_Some (at_finished_at (f a)).

Lemma running_attempt_true id token a :
  running_attempt id token a = true ↔
  at_execution_id a = id ∧ Some (at_lease_token a) = token ∧ at_status a = A_RUNNING.
Proof. unfold running_attempt. rewrite !andb_true_iff, !bool_decide_eq_true. tauto. Qed.

Lemma close_attempts_lookup id token f m i b :
  closes f → close_attempts id token f m !! i = Some b →
  ∃ a, m !! i = Some a ∧ at_execution_id b = at_execution_id a ∧
       at_attempt_no b = at_attempt_no a ∧ at_lease_token b = at_lease_token a ∧
       (b = a ∧ running_attempt id token a = false ∨
        at_status b ≠ A_RUNNING ∧ is_Some (at_finished_at b)).
Proof.
  intros Hf. unfold close_attempts. rewrite lookup_fmap_Some. intros (a & <- & Ha).
  exists a. split; [done|]. destruct (running_attempt id token a); [|by auto 6].
  destruct (Hf a) as (? & ? & ? & ? & ?). auto 6.
Qed.

Lemma att_ok_closed b : at_status b ≠ A_RUNNING → is_Some (at_finished_at b) → att_ok b.
Proof. intros Hs [t Ht]. split; [done|]. rewrite Ht. done. Qed.

(** An execution gives up its lease and its running attempt ends. *)
Lemma inv_unlease d id x y f m' :
  db_inv d → db_execs d !! id = Some x → is_leased (r_status x) = true →
  row_ok y → is_leased (r_status y) = false → r_sub y = r_sub x →
  r_attempts y = r_attempts x → closes f →
  m' = close_attempts id (r_lease_token x) f (db_atts d) →
  db_inv {| db_execs := <[id := y]> (db_execs d); db_atts := m' |}.
Proof.
  intros [Hr Ha Hu Hk] Hx Hl Hy Hly Hs Hat Hf ->. constructor; cbn [db_execs db_atts].
  - intros i z [[<- <-]|[Hne Hz]]%lookup_insert_Some.
    + split; [done|]. destruct (Hr id x Hx) as [_ [Hno Hrun _]].
      constructor.
      * intros j b (a & Hja & He & Hn & _)%close_attempts_lookup; [|done].
        rewrite Hat, Hn, He. eauto.
      * intros j b (a & Hja & He & Hn & Ht & [[-> Hra]|[Hst _]])%close_attempts_lookup Hid Hst';
          [|done..]. exfalso.
        destruct (Hrun j a Hja Hid Hst') as (_ & Htok & _).
        apply not_true_iff_false in Hra. apply Hra, running_attempt_true. by rewrite Htok.
      * congruence.
    + destruct (Hr i z Hz) as [Hz1 [Hno Hrun Hle]]. split; [done|]. constructor.
      * intros j b (a & Hja & He & Hn & _)%close_attempts_lookup; [|done].
        rewrite Hn, He. eauto.
      * intros j b (a & Hja & He & Hn & Ht & [[-> _]|[Hst _]])%close_attempts_lookup Hid Hst';
          [eauto | done..].
      * intros Hle'. destruct (Hle Hle') as (j & a & Hja & Hid & Hst).
        exists j, a. unfold close_attempts. rewrite lookup_fmap, Hja. cbn.
        destruct (running_attempt id _ a) eqn:E; [|done].
        apply running_attempt_true in E as [E _]. congruence.
  - intros i b (a & Hia & He & Hn & Ht & Hb)%close_attempts_lookup; [|done].
    destruct (Ha i a Hia) as [Hok Hex]. split.
    + destruct Hb as [[-> _]|[Hst Hfin]]; [done | by apply att_ok_closed].
    + rewrite He. destruct (decide (id = at_execution_id a)) as [<-|Hne];
        [rewrite lookup_insert_eq; eauto | by rewrite lookup_insert_ne].
  - intros i j b b' (a & Hia & He & Hn & _)%close_attempts_lookup
      (a' & Hja & He' & Hn' & _)%close_attempts_lookup; [|done..].
    rewrite He, He', Hn, Hn'. eauto.
  - intros i j z w Hz Hw.
    apply lookup_insert_Some in Hz as [[<- <-]|[Hne Hz]];
      apply lookup_insert_Some in Hw as [[<- <-]|[Hne' Hw]]; try done.
    + rewrite Hs. by apply (Hk id j x w).
    + rewrite Hs. by apply (Hk i id z x).
    + by apply Hk.
Qed.

(** A waiting execution takes a lease with a new attempt. *)
Lemma inv_lease d id x y i a :
  db_inv d → db_execs d !! id = Some x → is_leased (r_status x) = false →
  row_ok y → is_leased (r_status y) = true → r_sub y = r_sub x →
  r_attempts y = (r_attempts x + 1)%Z → r_lease_token y = Some (at_lease_token a) →
  db_atts d !! i = None → at_execution_id a = id → at_attempt_no a = r_attempts y →
  at_status a = A_RUNNING → att_ok a →
  db_inv {| db_execs := <[id := y]> (db_execs d); db_atts := <[i := a]> (db_atts d) |}.
Proof.
  intros [Hr Ha Hu Hk] Hx Hl Hy Hly Hs Hat Htok Hi Hid Hno Hst Haok.
  destruct (Hr id x Hx) as [[_ _ _ _ Hatt _ _] [Hxno Hxrun Hxle]].
  constructor; cbn [db_execs db_atts].
  - intros j z [[<- <-]|[Hne Hz]]%lookup_insert_Some.
    + split; [done|]. constructor.
      * intros k b [[<- <-]|[Hne Hb]]%lookup_insert_Some Hbid; [lia|].
        specialize (Hxno k b Hb Hbid). lia.
      * intros k b [[<- <-]|[Hne Hb]]%lookup_insert_Some Hbid Hbst; [done|].
        exfalso. destruct (Hxrun k b Hb Hbid Hbst) as [Hc _]. congruence.
      * intros _. exists i, a. by rewrite lookup_insert_eq.
    + destruct (Hr j z Hz) as [Hz1 [Hzno Hzrun Hzle]]. split; [done|]. constructor.
      * intros k b [[<- <-]|[Hne' Hb]]%lookup_insert_Some Hbid; [congruence|]. eauto.
      * intros k b [[<- <-]|[Hne' Hb]]%lookup_insert_Some Hbid; [congruence|]. eauto.
      * intros Hzl. destruct (Hzle Hzl) as (k & b & Hb & Hbid & Hbst).
        exists k, b. rewrite lookup_insert_ne by congruence. done.
  - intros k b [[<- <-]|[Hne Hb]]%lookup_insert_Some.
    + split; [done|]. rewrite Hid, lookup_insert_eq. eauto.
    + destruct (Ha k b Hb) as [Hok Hex]. split; [done|].
      destruct (decide (id = at_execution_id b)) as [<-|Hne'];
        [rewrite lookup_insert_eq; eauto | by rewrite lookup_insert_ne].
  - intros k l b c [[<- <-]|[Hne Hb]]%lookup_insert_Some [[<- <-]|[Hne' Hc]]%lookup_insert_Some;
      try done; [| |by apply Hu].
    + intros He Hn. exfalso. specialize (Hxno l c Hc ltac:(congruence)). lia.
    + intros He Hn. exfalso. specialize (Hxno k b Hb ltac:(congruence)). lia.
  - intros k l z w Hz Hw.
    apply lookup_insert_Some in Hz as [[<- <-]|[Hne Hz]];
      apply lookup_insert_Some in Hw as [[<- <-]|[Hne' Hw]]; try done.
    + rewrite Hs. by apply (Hk id l x w).
    + rewrite Hs. by apply (Hk k id z x).
    + by apply Hk.
Qed.

Lemma inv_beat d i a now :
  db_inv d → db_atts d !! i = Some a → at_status a = A_RUNNING →
  db_inv (with_atts <[i := beat_att now a]> d).
Proof.
  intros [Hr Ha Hu Hk] Hi Hst.
  assert (∀ j b, <[i := beat_att now a]> (db_atts d) !! j = Some b →
    ∃ c, db_atts d !! j = Some c ∧ at_execution_id b = at_execution_id c ∧
         at_attempt_no b = at_attempt_no c ∧ at_lease_token b = at_lease_token c ∧
         at_status b = at_status c ∧ at_finished_at b = at_finished_at c) as Hold.
  { intros j b [[<- <-]|[Hne Hb]]%lookup_insert_Some; [by exists a | by exists b]. }
  constructor; cbn [with_atts db_execs db_atts].
  - intros id x Hx. destruct (Hr id x Hx) as [Hok [Hno Hrun Hle]]. split; [done|]. constructor.
    + intros j b (c & Hc & -> & -> & _)%Hold. eauto.
    + intros j b (c & Hc & -> & -> & -> & -> & _)%Hold. eauto.
    + intros Hl. destruct (Hle Hl) as (j & b & Hb & Hid & Hbst).
      destruct (decide (i = j)) as [<-|Hne].
      * simplify_eq. exists i, (beat_att now a). by rewrite lookup_insert_eq.
      * exists j, b. by rewrite lookup_insert_ne.
  - intros j b (c & Hc & He & _ & _ & Hs & Hf)%Hold. unfold att_ok. rewrite He, Hs, Hf. eauto.
  - intros j k b c (b' & Hb & -> & -> & _)%Hold (c' & Hc & -> & -> & _)%Hold. eauto.
  - exact Hk.
Qed.

Lemma exists_exec_false p d :
  exists_exec p d = false → ∀ i x, db_execs d !! i = Some x → p i x = false.
Proof.
  intros He i x Hx. apply not_true_iff_false. intros Hp.
  apply not_true_iff_false in He. apply He, existsb_exists. exists (i, x).
  split; [|done]. by apply list_elem_of_In, elem_of_map_to_list.
Qed.

Lemma exists_att_false p d :
  exists_att p d = false → ∀ i a, db_atts d !! i = Some a → p i a = false.
Proof.
  intros He i x Hx. apply not_true_iff_false. intros Hp.
  apply not_true_iff_false in He. apply He, existsb_exists. exists (i, x).
  split; [|done]. by apply list_elem_of_In, elem_of_map_to_list.
Qed.

Lemma same_idempotency_sym a b : same_idempotency a b = same_idempotency b a.
Proof.
  unfold same_idempotency. f_equal; [f_equal; apply bool_decide_ext; split; congruence|].
  destruct (s_idempotency_key a), (s_idempotency_key b); try done.
  apply bool_decide_ext; split; congruence.
Qed.

Lemma inv_insert_exec d d' id x :
  db_inv d → row_ok x → r_attempts x = 0%Z → is_leased (r_status x) = false →
  insert_exec id x d = (d', Ok tt) → db_inv d'.
Proof.
  intros [Hr Ha Hu Hk] Hx Hat Hl. unfold insert_exec.
  destruct (db_execs d !! id) eqn:Hid; [done|].
  destruct (exists_exec _ d) eqn:Hex; [done|]. intros [= <-].
  pose proof (exists_exec_false _ _ Hex) as Hnew. cbn beta in Hnew.
  assert (∀ i a, db_atts d !! i = Some a → at_execution_id a ≠ id) as Hnone.
  { intros i a Hi <-. destruct (Ha i a Hi) as [_ [y Hy]]. congruence. }
  constructor; cbn [with_execs db_execs db_atts].
  - intros i z [[<- <-]|[Hne Hz]]%lookup_insert_Some; [|by apply Hr].
    split; [done|]. constructor; [..|congruence]; intros i a Hi He; exfalso; by eapply Hnone.
  - intros i a Hi. destruct (Ha i a Hi) as [Hok Hin]. split; [done|].
    rewrite lookup_insert_ne; [done|]. intros E. by apply (Hnone i a Hi).
  - exact Hu.
  - intros i j z w Hz Hw Hs.
    apply lookup_insert_Some in Hz as [[<- <-]|[Hne Hz]];
      apply lookup_insert_Some in Hw as [[<- <-]|[Hne' Hw]]; try done.
    + rewrite (Hnew _ _ Hw) in Hs. done.
    + rewrite same_idempotency_sym, (Hnew _ _ Hz) in Hs. done.
    + by eapply Hk.
Qed.

(** ** Rows that stay consistent *)

Ltac row_case H :=
  destruct H as [Hlease Hfin Hres Hcan Hatt Hsta Hdig];
  constructor; cbn in *; try done; try lia; try (by rewrite ?Hsta; lia).

Lemma is_Some_None_false {A} (P : Prop) : is_Some (@None A) → P.
Proof. by intros [? ?]. Qed.

Lemma cancel_waiting_ok now reason x :
  is_waiting (r_status x) = true → row_ok x → row_ok (cancel_waiting now reason x).
Proof.
  intros Hw H. row_case H.
  - by destruct (r_status x).
  - intros Hr. apply Hres in Hr. by rewrite Hr in Hw.
Qed.

Lemma cancel_running_ok now reason x :
  r_status x = RUNNING → row_ok x → row_ok (cancel_running now reason x).
Proof.
  intros Hw H. row_case H; rewrite Hw in *; try done.
  intros Hr. by apply Hres in Hr.
Qed.

Lemma expired_row_ok now x :
  is_waiting (r_status x) = true → row_ok x → row_ok (expired_row now x).
Proof.
  intros Hw H. row_case H.
  - by destruct (r_status x).
  - intros Hr. apply Hres in Hr. by rewrite Hr in Hw.
Qed.

Lemma unleased_row_ok now st av fin x :
  is_leased st = false → (is_Some fin ↔ is_terminal st = true) →
  is_leased (r_status x) = true → row_ok x → row_ok (unleased_row now st av fin x).
Proof.
  intros Hst Hf Hl H. row_case H.
  - by rewrite Hst.
  - intros Hr. apply Hres in Hr. by rewrite Hr in Hl.
  - intros ->. done.
Qed.

Lemma leased_row_ok now token expires worker x :
  is_waiting (r_status x) = true → row_ok x → row_ok (leased_row now token expires worker x).
Proof.
  intros Hw H. row_case H.
  - split_and!; eauto. lia.
  - rewrite Hfin. by destruct (r_status x).
  - intros Hr. apply Hres in Hr. by rewrite Hr in Hw.
  - split; [lia | eauto].
Qed.

Lemma extended_row_ok now expires x :
  is_leased (r_status x) = true → row_ok x → row_ok (extended_row now expires x).
Proof.
  intros Hl H. row_case H. rewrite Hl in *. destruct Hlease as (? & ? & ? & ?). eauto.
Qed.

Lemma completed_row_ok now st res er av x :
  is_completion st = true → (res ≠ JNull → st = SUCCEEDED) →
  row_ok x → row_ok (completed_row now st res er av x).
Proof.
  intros Hc Hr H. row_case H.
  - by destruct st.
  - destruct st; try done; cbn; split; eauto; try done; by intros [? ?].
  - intros ->. done.
Qed.

(** ** Every operation keeps the invariant *)

(** A computation that keeps [I] when it returns. *)
Definition ok_inv {A} (I : db → Prop) (m : T A) : Prop :=
  ∀ d d' a, I d → m d = (d', Ok a) → I d'.

Lemma transaction_inv {A} I (m : T A) : ok_inv I m → se_inv I (transaction m).
Proof.
  intros Hm d Hd. unfold transaction. destruct (m d) as [d' [a|e]] eqn:E; cbn; [|done].
  by eapply Hm.
Qed.

Lemma se_inv_ok {A} I (m : T A) : se_inv I m → ok_inv I m.
Proof. intros Hm d d' a Hd E. specialize (Hm d Hd). by rewrite E in Hm. Qed.

Lemma ok_inv_bind {A B} I (m : T A) (f : A → T B) :
  ok_inv I m → (∀ a, ok_inv I (f a)) → ok_inv I (m ≫= f).
Proof.
  intros Hm Hf d d' b Hd (d1 & a & E1 & E2)%se_bind_ok. eapply Hf; [|exact E2]. by eapply Hm.
Qed.

Lemma se_inv_select I id : se_inv I (select_exec id).
Proof. by intros d Hd. Qed.

Lemma se_inv_get (I : db → Prop) : se_inv (E:=ExecutionException) I se_get.
Proof. by intros d Hd. Qed.

Lemma transaction_ok {A} (m : T A) d d' a :
  transaction m d = (d', Ok a) → m d = (d', Ok a).
Proof. unfold transaction. destruct (m d) as [? [?|?]]; congruence. Qed.

(** Running an update on a row that is there. *)
Lemma update_exec_cases id w f d d' b :
  update_exec id w f d = (d', Ok b) →
  (b = false ∧ d' = d ∧ ∀ x, db_execs d !! id = Some x → w x = false) ∨
  ∃ x, b = true ∧ db_execs d !! id = Some x ∧ w x = true ∧ d' = with_execs <[id := f x]> d.
Proof.
  unfold update_exec. destruct (db_execs d !! id) as [x|] eqn:Hx; [|by intros [= <- <-]; left].
  destruct (w x) eqn:Hw; intros [= <- <-]; [right; by exists x | left].
  split_and!; [done..|]. intros y. congruence.
Qed.

Lemma update_att_cases i w f d d' b :
  update_att i w f d = (d', Ok b) →
  (b = false ∧ d' = d) ∨
  ∃ a, b = true ∧ db_atts d !! i = Some a ∧ w a = true ∧ d' = with_atts <[i := f a]> d.
Proof.
  unfold update_att. destruct (db_atts d !! i) as [x|] eqn:Hx; [|by intros [= <- <-]; left].
  destruct (w x) eqn:Hw; intros [= <- <-]; [right; by exists x | by left].
Qed.

Lemma update_exec_ok id w f d : ∃ d' b, update_exec id w f d = (d', Ok b).
Proof. unfold update_exec. repeat case_match; eauto. Qed.

Lemma close_att_closes st now : st ≠ A_RUNNING → closes (close_att st now).
Proof. intros Hst a. cbn. eauto 6. Qed.

Lemma finish_att_closes st er now : st ≠ A_RUNNING → closes (finish_att st er now).
Proof. intros Hst a. cbn. eauto 6. Qed.

(** In a consistent table the running attempt of a lease is one row, so an
    update by its primary key closes the same attempts. *)
Lemma close_attempts_single d id x i a f :
  db_inv d → db_execs d !! id = Some x → db_atts d !! i = Some a →
  running_attempt id (r_lease_token x) a = true →
  <[i := f a]> (db_atts d) = close_attempts id (r_lease_token x) f (db_atts d).
Proof.
  intros Hd Hx Hi Hra. apply map_eq. intros j. unfold close_attempts. rewrite lookup_fmap.
  destruct (decide (i = j)) as [<-|Hne].
  - rewrite lookup_insert_eq, Hi. cbn. by rewrite Hra.
  - rewrite lookup_insert_ne by done. destruct (db_atts d !! j) as [b|] eqn:Hj; [|done].
    cbn. destruct (running_attempt id _ b) eqn:Hrb; [|done]. exfalso. apply Hne.
    apply running_attempt_true in Hra as (He & Ht & Hs), Hrb as (He' & Ht' & Hs').
    destruct (inv_rows d Hd id x Hx) as [_ [_ Hrun _]].
    destruct (Hrun i a Hi He Hs) as (_ & _ & Hn). destruct (Hrun j b Hj He' Hs') as (_ & _ & Hn').
    eapply (inv_attempt_unique d Hd); [done | done | congruence..].
Qed.

Section Operations.
Context `{CodecEnv} (sha256_hex : list ascii → string) (cfg : backend_config).

Lemma expire_queued_inv now : se_inv db_inv (_expire_queued cfg now).
Proof.
  unfold _expire_queued. apply se_inv_bind; [apply se_inv_get|]. intros d0.
  apply se_inv_iter. intros [id x0] d Hd. cbn [fst snd].
  rewrite se_get_bind. unfold mbind, se_bind.
  destruct (update_exec_ok id (λ y, (r_version y =? r_version x0)%Z && expirable d now id y)
              (expired_row now) d) as (d' & b & E).
  rewrite E. cbn. apply update_exec_cases in E as [(_ & -> & _)|(x & -> & Hx & Hw & ->)]; [done|].
  apply andb_true_iff in Hw as [_ Hw]. unfold expirable in Hw. rewrite !andb_true_iff in Hw.
  destruct Hw as [[Hw _] _]. destruct (inv_rows d Hd id x Hx) as [Hok _].
  eapply inv_update_exec; [done.. | by apply expired_row_ok |].
  split_and!; try done. cbn. by destruct (r_status x).
Qed.

Lemma reclaim_inv now st f ast :
  is_leased st = true → ast ≠ A_RUNNING →
  (∀ x, r_status x = st → row_ok x → row_ok (f x)) →
  (∀ x, is_leased (r_status (f x)) = false ∧ r_sub (f x) = r_sub x
        ∧ r_attempts (f x) = r_attempts x) →
  se_inv db_inv (reclaim cfg now st f ast).
Proof.
  intros Hl Hast Hok Hf. unfold reclaim. apply se_inv_bind; [apply se_inv_get|]. intros d0.
  apply se_inv_iter. intros [id x0] d Hd. cbn [fst snd]. unfold mbind, se_bind.
  destruct (update_exec_ok id (λ y, (r_version y =? r_version x0)%Z
      && bool_decide (r_lease_token y = r_lease_token x0) && lease_over now st y) f d)
    as (d' & b & E).
  rewrite E. cbn. apply update_exec_cases in E as [(-> & -> & _)|(x & -> & Hx & Hw & ->)]; [done|].
  rewrite !andb_true_iff, bool_decide_eq_true in Hw. destruct Hw as [[_ Ht] Hw].
  unfold lease_over in Hw. apply andb_true_iff in Hw as [Hw%bool_decide_eq_true _].
  destruct (inv_rows d Hd id x Hx) as [Hrow _]. destruct (Hf x) as (Hf1 & Hf2 & Hf3).
  unfold update_atts, se_modify, with_atts, with_execs. cbn.
  rewrite <- Ht. eapply inv_unlease; [exact Hd | exact Hx | by rewrite Hw | by apply Hok | done..
    | by apply (close_att_closes ast now) | done].
Qed.

Lemma expire_cancel_requests_inv now : se_inv db_inv (_expire_cancel_requests cfg now).
Proof.
  apply reclaim_inv; [done | done | | done].
  intros x Hx Hok. apply unleased_row_ok; [done | | by rewrite Hx | done].
  split; [done | eauto].
Qed.

Lemma release_expired_leases_inv now : se_inv db_inv (_release_expired_leases cfg now).
Proof.
  apply reclaim_inv; [done | done | | done].
  intros x Hx Hok. apply unleased_row_ok; [done | | by rewrite Hx | done].
  rewrite (ok_finished x Hok), Hx. done.
Qed.

Lemma se_lift_ok {A} (r : result ExecutionException A) (d d' : db) a :
  se_lift r d = (d', Ok a) → d' = d ∧ r = Ok a.
Proof. by intros [= -> ->]. Qed.

Lemma get_inv I ns id : se_inv I (_get ns id).
Proof.
  intros d Hd. unfold _get, select_exec. rewrite se_gets_bind.
  repeat case_match; try done. unfold mbind, se_bind, se_lift.
  by destruct (_row_to_execution id e).
Qed.

Lemma submit_inv now id r : se_inv db_inv (submit sha256_hex cfg now id r).
Proof.
  unfold submit. apply se_inv_bind; [apply se_inv_lift|]. intros enc d Hd. unfold _submit.
  match goal with |- context [transaction ?m d] => set (ins := m) end.
  assert (ok_inv db_inv ins) as Hins.
  { intros d1 d2 [] Hd1. unfold ins. rewrite se_bind_ok.
    intros (d3 & av & (-> & _)%se_lift_ok & E). eapply inv_insert_exec; [exact Hd1 | | | | exact E];
      try done.
    constructor; cbn.
    - done.
    - split; [by intros [? ?] | done].
    - done.
    - done.
    - lia.
    - split; [by intros [? ?] | lia].
    - destruct (rq_idempotency_key r); split; eauto. }
  destruct (transaction ins d) as [d' [a|e]] eqn:E.
  - apply transaction_ok in E. apply get_inv. by eapply Hins.
  - assert (d' = d) as -> by (unfold transaction in E; by destruct (ins d) as [? [?|?]]; simplify_eq).
    repeat case_match; simplify_eq/=; done.
Qed.

Lemma request_cancel_inv now ns id reason : se_inv db_inv (_request_cancel now ns id reason).
Proof.
  unfold _request_cancel. apply se_inv_bind.
  - apply transaction_inv. intros d d' row Hd. unfold select_exec. rewrite se_gets_bind.
    destruct (db_execs d !! id) as [x|] eqn:Hx; [|by intros [= <- <-]].
    destruct (negb _); [by intros [= <- <-]|].
    destruct (inv_rows d Hd id x Hx) as [Hok _].
    assert (∀ f, row_ok (f x) → keeps_lease x (f x) →
      ((_ ← update_exec id (λ _, true) f; se_gets (λ d, db_execs d !! id)) : T _) d = (d', Ok row) →
      db_inv d') as Hup.
    { intros f Hf Hkeep. rewrite se_bind_ok. intros (d1 & b & E & E2).
      assert (d' = d1) as -> by (unfold se_gets in E2; congruence).
      apply update_exec_cases in E as [(_ & -> & _)|(y & _ & Hy & _ & ->)]; [done|].
      rewrite Hx in Hy. injection Hy as <-. by eapply inv_update_exec. }
    destruct (r_status x) eqn:Hst; try (by intros [= <- <-]); apply Hup;
      try (apply cancel_waiting_ok; [by rewrite Hst | done]);
      try (by apply cancel_running_ok); unfold keeps_lease; cbn; by rewrite Hst.
  - intros [x|]; [|apply se_inv_ret]. apply se_inv_bind; [apply se_inv_lift|].
    intros e. apply se_inv_ret.
Qed.

Lemma heartbeat_inv now id aid token s : se_inv db_inv (heartbeat now id aid token s).
Proof.
  unfold heartbeat. apply se_inv_bind; [apply se_inv_lift|]. intros _.
  apply transaction_inv. intros d d' hb Hd. rewrite se_bind_ok.
  intros (d1 & ex & (-> & _)%se_lift_ok & (d2 & u & E & (d3 & v & E' & E2)%se_bind_ok)%se_bind_ok).
  destruct u; [|done]. destruct v; [|done]. cbn in E2. injection E2 as <- _.
  apply update_exec_cases in E as [(? & _)|(x & _ & Hx & Hw & ->)]; [done|].
  apply update_att_cases in E' as [(? & _)|(a & _ & Ha & Hra & ->)]; [done|].
  apply andb_true_iff in Hw as [Hl _]. destruct (inv_rows d Hd id x Hx) as [Hok _].
  apply inv_beat; [|exact Ha | by apply running_attempt_true in Hra as (_ & _ & ?)].
  eapply inv_update_exec; [done.. | by apply extended_row_ok | done].
Qed.

(** A lease given up and its attempt closed by primary key. *)
Lemma inv_finish d id x y aid a token f now :
  db_inv d → db_execs d !! id = Some x → is_leased (r_status x) = true →
  holds_lease now token x = true → row_ok y → is_leased (r_status y) = false →
  r_sub y = r_sub x → r_attempts y = r_attempts x → closes f →
  db_atts d !! aid = Some a → running_attempt id (Some token) a = true →
  db_inv (with_atts <[aid := f a]> (with_execs <[id := y]> d)).
Proof.
  intros Hd Hx Hl Hh Hy Hly Hs Hat Hf Ha Hra.
  apply andb_true_iff in Hh as [Ht%bool_decide_eq_true _].
  eapply inv_unlease; [exact Hd | exact Hx | done..| exact Hf |].
  cbn [with_execs db_atts]. apply (close_attempts_single d id x aid a f Hd Hx Ha). by rewrite Ht.
Qed.

Lemma release_inv now id aid token : se_inv db_inv (release now id aid token).
Proof.
  unfold release. apply se_inv_bind; [|intros x; apply se_inv_lift].
  apply transaction_inv. intros d d' row Hd. unfold select_exec. rewrite se_gets_bind.
  destruct (db_execs d !! id) as [x|] eqn:Hx; [|done]. rewrite se_bind_ok.
  intros (d1 & u & E & E2). destruct u; [|done]. cbn in E2.
  apply se_bind_ok in E2 as (d2 & v & E' & E2). destruct v; [|done].
  assert (d' = d2) as -> by (cbn [negb] in E2; rewrite se_gets_bind in E2; destruct (db_execs d2 !! id); by inversion E2).
  apply update_exec_cases in E as [(? & _)|(x' & _ & Hx' & Hw & ->)]; [done|].
  rewrite Hx in Hx'. injection Hx' as <-.
  apply update_att_cases in E' as [(? & _)|(a & _ & Ha & Hra & ->)]; [done|].
  apply andb_true_iff in Hw as [Hw%bool_decide_eq_true Hh].
  destruct (inv_rows d Hd id x Hx) as [Hok _].
  eapply inv_finish; [exact Hd | exact Hx | by rewrite Hw | exact Hh | | done | done | done
    | by apply close_att_closes | exact Ha | exact Hra].
  apply unleased_row_ok; [done | | by rewrite Hw | done].
  rewrite (ok_finished x Hok), Hw. done.
Qed.

Lemma expected_statuses_leased c st :
  st ∈ expected_statuses c → is_leased st = true.
Proof. destruct c, st; cbn; rewrite ?list_elem_of_In; cbn; try done; intuition discriminate. Qed.

(** What a successful completion did. *)
Lemma complete_transaction_ok now id aid token c d d' row :
  complete_transaction cfg now id aid token c d = (d', Ok row) →
  ∃ x, db_execs d !! id = Some x ∧
  let cancel_won := bool_decide (cp_status c = SUCCEEDED)
                    && bool_decide (r_status x = CANCEL_REQUESTED) in
  let error := nullable error_asdict (cp_error c) in
  let st := if cancel_won then CANCELLED else cp_status c in
  ∃ res av,
    (if bool_decide (cp_status c = SUCCEEDED) && negb cancel_won
     then encode_result cfg c = Ok res else res = JNull) ∧
    (st = RETRYING → after_seconds now (delay_or_zero (cp_delay_s c)) = Ok av) ∧
    ((∃ a, r_status x ∈ expected_statuses (cp_status c) ∧ holds_lease now token x = true ∧
       db_atts d !! aid = Some a ∧ running_attempt id (Some token) a = true ∧
       row = completed_row now st (if cancel_won then JNull else res)
               (if cancel_won then JNull else error) av x ∧
       d' = with_atts <[aid := finish_att (attempt_status st)
                                 (if cancel_won then JNull else error) now a]>
              (with_execs <[id := row]> d)) ∨
     (d' = d ∧ row = x ∧ r_status x = cp_status c ∧ is_terminal (r_status x) = true ∧
      r_status x ≠ EXPIRED ∧
      json_eqb (r_result x) (if bool_decide (cp_status c = SUCCEEDED) then res else JNull) = true ∧
      json_eqb (r_error x) error = true)).
Proof.
  intros E. apply transaction_ok in E. unfold select_exec in E. rewrite se_gets_bind in E.
  destruct (db_execs d !! id) as [x|] eqn:Hx; [|done]. exists x. split; [done|]. cbv zeta.
  set (cw := bool_decide (cp_status c = SUCCEEDED) && bool_decide (r_status x = CANCEL_REQUESTED)) in *.
  cbv zeta in E.
  apply se_bind_ok in E as (d1 & res & Eres & E).
  apply se_bind_ok in E as (d2 & av & Eav & E). exists res, av.
  assert (d1 = d ∧ if bool_decide (cp_status c = SUCCEEDED) && negb cw
                   then encode_result cfg c = Ok res else res = JNull) as [-> Hres].
  { destruct (bool_decide (cp_status c = SUCCEEDED) && negb cw); by inversion Eres. }
  split; [exact Hres|].
  assert (d2 = d ∧ ((if cw then CANCELLED else cp_status c) = RETRYING →
                    after_seconds now (delay_or_zero (cp_delay_s c)) = Ok av)) as [-> Hav].
  { destruct (bool_decide ((if cw then CANCELLED else cp_status c) = RETRYING)) eqn:Eb;
      inversion Eav as [[E1 E2]]; subst; (split; [done|]).
    - intros _. unfold lift_exn in E2. destruct (after_seconds now _); congruence.
    - intros Hst. by apply bool_decide_eq_false in Eb. }
  split; [exact Hav|].
  apply se_bind_ok in E as (d3 & u & Eu & E).
  apply update_exec_cases in Eu as [(-> & -> & _)|(y & -> & Hy & Hw & ->)].
  - right. cbn [negb] in E.
    destruct (bool_decide (r_status x = cp_status c) && _ && _ && _) eqn:Ec; [|done].
    injection E as <- <-. rewrite !andb_true_iff, bool_decide_eq_true in Ec.
    destruct Ec as (((Hst & Hterm) & Hre) & Her).
    split_and!; try done; by destruct (r_status x).
  - left. rewrite Hx in Hy. injection Hy as <-. cbn [negb] in E.
    apply se_bind_ok in E as (d4 & v & Ev & E).
    apply update_att_cases in Ev as [(-> & ->)|(a & -> & Ha & Hra & ->)]; [done|].
    apply andb_true_iff in Hw as [Hexp%bool_decide_eq_true Hh].
    cbn [negb] in E. unfold select_exec in E. rewrite se_gets_bind in E.
    cbn [with_atts with_execs db_execs] in E. rewrite lookup_insert_eq in E.
    injection E as <- <-. exists a. done.
Qed.

Lemma complete_inv now id aid token c :
  is_completion (cp_status c) = true → se_inv db_inv (complete cfg now id aid token c).
Proof.
  intros Hc. unfold complete. apply se_inv_bind; [|intros x; apply se_inv_lift].
  intros d Hd. destruct (complete_transaction cfg now id aid token c d) as [d' [row|e]] eqn:E; cbn.
  - apply complete_transaction_ok in E as (x & Hx & res & av & Hres & _ & Hcase).
    destruct Hcase as [(a & Hexp & Hh & Ha & Hra & -> & ->)|(-> & _)]; [|done].
    destruct (inv_rows d Hd id x Hx) as [Hok _].
    set (cw := bool_decide (cp_status c = SUCCEEDED) && bool_decide (r_status x = CANCEL_REQUESTED)) in *.
    assert (is_completion (if cw then CANCELLED else cp_status c) = true) as Hc'
      by (by destruct cw).
    eapply inv_finish; [exact Hd | exact Hx | by eapply expected_statuses_leased | exact Hh
      | | | done | done | | exact Ha | exact Hra].
    + apply completed_row_ok; [done | | done]. destruct cw; [done|].
      case_bool_decide; [done|]. cbn in Hres. by rewrite Hres.
    + cbn. by destruct cw; [|destruct (cp_status c)].
    + apply finish_att_closes. by destruct cw; [|destruct (cp_status c)].
  - unfold complete_transaction, transaction in E.
    match type of E with (match ?m with _ => _ end) = _ => destruct m as [? [?|?]] end; congruence.
Qed.

(** One lease keeps the invariant, and leaves the other rows as they are. *)
Lemma lease_one_inv now expires worker aid token id x d d' l :
  db_inv d → db_execs d !! id = Some x → is_waiting (r_status x) = true →
  lease_one now expires worker (aid, token) (id, x) d = (d', Ok l) →
  db_inv d' ∧
  d' = {| db_execs := <[id := leased_row now token expires worker x]> (db_execs d);
          db_atts := <[aid := new_attempt now id token worker x]> (db_atts d) |} ∧
  ∃ e, _row_to_execution id (leased_row now token expires worker x) = Ok e ∧
       l = {| le_execution := e; le_attempt_id := aid; le_lease_token := token;
              le_lease_expires_at := expires |}.
Proof.
  intros Hd Hx Hw. unfold lease_one. rewrite se_bind_ok.
  intros (d1 & u & E1 & (d2 & [] & E2 & E3)%se_bind_ok).
  apply update_exec_cases in E1 as [(_ & _ & Hf)|(y & _ & Hy & _ & ->)];
    [by specialize (Hf x Hx)|].
  rewrite Hx in Hy. injection Hy as <-.
  unfold insert_att in E2. cbn [with_execs db_execs db_atts new_attempt at_execution_id] in E2.
  rewrite lookup_insert_eq in E2.
  destruct (db_atts d !! aid) eqn:Haid; [done|].
  destruct (exists_att _ _); [done|]. injection E2 as <-.
  unfold select_exec in E3. rewrite se_gets_bind in E3.
  cbn [with_execs with_atts db_execs db_atts] in E3. rewrite lookup_insert_eq in E3.
  apply se_bind_ok in E3 as (d3 & e & (-> & He)%se_lift_ok & E3).
  injection E3 as <- <-.
  destruct (inv_rows d Hd id x Hx) as [Hok _]. split; [|split; [done | by exists e]].
  apply (inv_lease d id x); [exact Hd | exact Hx | by destruct (r_status x)
    | by apply leased_row_ok | done..].
Qed.

(** The loop of [claim] over rows that are in the table. *)
Definition in_table (d : db) (rows : list (Z * exec_row)) : Prop :=
  Forall (λ ix, db_execs d !! ix.1 = Some ix.2 ∧ is_waiting (r_status ix.2) = true) rows.

Lemma in_table_insert d rows id x m :
  id ∉ rows.*1 → in_table d rows →
  in_table {| db_execs := <[id := x]> (db_execs d); db_atts := m |} rows.
Proof.
  intros Hni Ht. unfold in_table in *. rewrite Forall_forall in *.
  intros [j y] Hj. destruct (Ht _ Hj) as [Hy Hw]. cbn [fst snd db_execs] in *.
  split; [|done]. rewrite lookup_insert_ne; [done|]. intros <-. apply Hni.
  rewrite list_elem_of_fmap. by exists (id, y).
Qed.

Lemma lease_loop_inv now expires worker us d d' ls :
  db_inv d → NoDup (us.*2.*1) → in_table d us.*2 →
  se_map (λ ui : (Z * Z) * (Z * exec_row), lease_one now expires worker ui.1 ui.2) us d
  = (d', Ok ls) → db_inv d'.
Proof.
  revert d ls. induction us as [|[[aid token] [id x]] us IH]; intros d ls Hd Hn Ht; cbn [se_map].
  - by intros [= <- _].
  - intros (d1 & l & E1 & (d2 & ls' & E2 & [= <- _])%se_bind_ok)%se_bind_ok.
    cbn [fmap list_fmap fst snd] in *. apply NoDup_cons in Hn as [Hni Hn].
    apply Forall_cons in Ht as [[Hx Hw] Ht].
    apply lease_one_inv in E1 as (Hd1 & -> & _); [|done..].
    eapply IH; [exact Hd1 | exact Hn | | exact E2].
    by eapply in_table_insert.
Qed.

Lemma with_uuids_rows us rows : (with_uuids us rows).*2 = rows.
Proof.
  unfold with_uuids. revert us. induction rows as [|r rows IH]; intros us; [done|].
  cbn. f_equal. exact (IH (us ∘ S)).
Qed.

Lemma take_NoDup {A} n (l : list A) : NoDup l → NoDup (take n l).
Proof. intros Hl. rewrite <- (take_drop n l), NoDup_app in Hl. tauto. Qed.

(** The rows [claim] leases are waiting rows of the table. *)
Lemma claim_rows_in_table p n d :
  (∀ id x, p id x = true → is_waiting (r_status x) = true) →
  in_table d (limit_rows n (select_ordered claim_key p d)) ∧
  NoDup (limit_rows n (select_ordered claim_key p d)).*1.
Proof.
  intros Hp. split.
  - apply Forall_forall. intros [id x] (Hx & Hpx)%limit_rows_sub%elem_of_select. eauto.
  - unfold limit_rows. rewrite fmap_take. apply take_NoDup, select_NoDup.
Qed.

Lemma claimable_waiting d now ns names id x :
  claimable d now ns names id x = true → is_waiting (r_status x) = true.
Proof. unfold claimable. rewrite !andb_true_iff. tauto. Qed.

Lemma claim_inv now locked us ns names n lease worker :
  se_inv db_inv (claim cfg now locked us ns names n lease worker).
Proof.
  unfold claim. apply se_inv_bind; [apply se_inv_lift|]. intros _.
  apply transaction_inv.
  apply ok_inv_bind; [apply se_inv_ok, expire_queued_inv|]. intros _.
  apply ok_inv_bind; [apply se_inv_ok, expire_cancel_requests_inv|]. intros _.
  apply ok_inv_bind; [apply se_inv_ok, release_expired_leases_inv|]. intros _.
  intros d d' ls Hd. rewrite se_get_bind.
  match goal with |- context [limit_rows n (select_ordered claim_key ?p d)] =>
    destruct (claim_rows_in_table p n d) as [Hin Hn];
    [intros id x [Hc _]%andb_true_iff; by eapply claimable_waiting|];
    destruct (limit_rows n (select_ordered claim_key p d)) as [|r rows];
    [by intros [= <- _]|]
  end.
  rewrite se_bind_ok. intros (d1 & expires & (-> & _)%se_lift_ok & E).
  eapply lease_loop_inv; [exact Hd | | | exact E]; by rewrite with_uuids_rows.
Qed.
End Operations.
