(* ===== verification/PgLifecycle.v ===== *)
(** * Histories of the execution backend

    Any interleaving of the transactions of clients and workers as a list of
    operations, the lifecycle of an execution as a step relation on its row,
    and the properties that hold along every history. *)

From stdpp Require Import base option list strings numbers gmap sorting relations.
From Stdlib Require Import ZArith Lia Ascii.
From S2P Require Import Prelude PyFloat Value Texts Codec Execution PgStore PgBackend PgInvariant.

(** ** Operations *)

Inductive op :=
| OpSubmit (now id : Z) (r : ExecutionRequest)
| OpCancel (now : Z) (namespace : string) (id : Z) (reason : option string)
| OpClaim (now : Z) (locked : gset Z) (uuids : nat → Z * Z) (namespace : string)
    (task_names : list string) (limit : Z) (lease_s : float64) (worker : string)
| OpHeartbeat (now id attempt_id token : Z) (lease_s : float64)
| OpComplete (now id attempt_id token : Z) (c : ExecutionCompletion)
| OpRelease (now id attempt_id token : Z).

(** What [ExecutionCompletion] guarantees of an instance. *)
Definition op_ok (o : op) : Prop :=
  match o with
  | OpComplete _ _ _ _ c => is_completion (cp_status c) = true
  | _ => True
  end.

Section Histories.
Context `{CodecEnv} (sha256_hex : list ascii → string) (cfg : backend_config).

(** The tables after one operation, whether it returned or raised. *)
Definition run_op (d : db) (o : op) : db :=
  match o with
  | OpSubmit now id r => (submit sha256_hex cfg now id r d).1
  | OpCancel now ns id reason => (_request_cancel now ns id reason d).1
  | OpClaim now locked us ns names n s w => (claim cfg now locked us ns names n s w d).1
  | OpHeartbeat now id aid token s => (heartbeat now id aid token s d).1
  | OpComplete now id aid token c => (complete cfg now id aid token c d).1
  | OpRelease now id aid token => (release now id aid token d).1
  end.

Definition run_ops (d : db) (os : list op) : db := foldl run_op d os.

Lemma run_tx_inv d o : op_ok o → db_inv d → db_inv (run_op d o).
Proof.
  intros Ho Hd. destruct o; cbn.
  - by apply submit_inv.
  - by apply request_cancel_inv.
  - by apply claim_inv.
  - by apply heartbeat_inv.
  - by apply complete_inv.
  - by apply release_inv.
Qed.

Lemma run_ops_inv d os : Forall op_ok os → db_inv d → db_inv (run_ops d os).
Proof.
  intros Hos. revert d. induction Hos as [|o os Ho Hos IH]; intros d Hd; [done|].
  apply IH. by apply run_tx_inv.
Qed.

(** ** The lifecycle of one execution *)

Inductive status_step : ExecutionStatus → ExecutionStatus → Prop :=
| step_claim_queued : status_step QUEUED RUNNING
| step_claim_retrying : status_step RETRYING RUNNING
| step_expire_queued : status_step QUEUED EXPIRED
| step_expire_retrying : status_step RETRYING EXPIRED
| step_cancel_queued : status_step QUEUED CANCELLED
| step_cancel_retrying : status_step RETRYING CANCELLED
| step_cancel_running : status_step RUNNING CANCEL_REQUESTED
| step_cancelled : status_step CANCEL_REQUESTED CANCELLED
| step_release : status_step RUNNING QUEUED
| step_retry : status_step RUNNING RETRYING
| step_succeed : status_step RUNNING SUCCEEDED
| step_fail : status_step RUNNING FAILED
| step_stop : status_step RUNNING CANCELLED.

(** One change of a row: a step of the lifecycle, which increments the
    version and, when it starts an attempt, the attempt count; or a
    heartbeat, which moves the expiry of the lease. *)
Definition row_step (x y : exec_row) : Prop :=
  r_sub y = r_sub x ∧
  (status_step (r_status x) (r_status y) ∧ r_version y = (r_version x + 1)%Z ∧
   r_attempts y = (r_attempts x + if bool_decide (r_status y = RUNNING) then 1 else 0)%Z ∨
   r_status y = r_status x ∧ is_leased (r_status x) = true ∧ r_version y = r_version x ∧
   r_attempts y = r_attempts x ∧ r_lease_token y = r_lease_token x).

(** Rows are never deleted and only change by steps. *)
Definition evolves (d d' : db) : Prop :=
  ∀ id x, db_execs d !! id = Some x → ∃ y, db_execs d' !! id = Some y ∧ rtc row_step x y.

Lemma evolves_refl d : evolves d d.
Proof. intros id x Hx. exists x. split; [done | constructor]. Qed.

Lemma evolves_update d0 d d' id x y :
  evolves d0 d → db_execs d !! id = Some x → row_step x y →
  db_execs d' = <[id := y]> (db_execs d) → evolves d0 d'.
Proof.
  intros He Hx Hs Hd' i z Hz. destruct (He i z Hz) as (w & Hw & Hzw). rewrite Hd'.
  destruct (decide (id = i)) as [<-|Hne].
  - exists y. rewrite lookup_insert_eq. split; [done|]. rewrite Hx in Hw. injection Hw as <-.
    by eapply rtc_r.
  - exists w. by rewrite lookup_insert_ne.
Qed.

Lemma evolves_same d0 d d' : evolves d0 d → db_execs d' = db_execs d → evolves d0 d'.
Proof. intros He Hd i z Hz. rewrite Hd. by apply He. Qed.

Lemma row_step_terminal x y : is_terminal (r_status x) = true → ¬ row_step x y.
Proof.
  intros Ht (_ & [(Hs & _)|(_ & Hl & _)]); [by destruct Hs | by destruct (r_status x)].
Qed.

Lemma rtc_terminal x y : is_terminal (r_status x) = true → rtc row_step x y → y = x.
Proof. intros Ht Hr. destruct Hr as [|x z y Hs _]; [done|]. by apply row_step_terminal in Hs. Qed.

(** *** The steps of the statements *)

Ltac row_step_by Hst := split; [done|]; left; cbn; rewrite ?Hst;
  split_and!; [constructor | done | rewrite ?bool_decide_false by done; lia].

(** What was submitted never changes. *)
Lemma row_steps_sub x y : rtc row_step x y → r_sub y = r_sub x.
Proof. induction 1 as [|x y z [Hxy _] _ IH]; [done|]. by rewrite IH. Qed.

Lemma cancel_waiting_step now reason x :
  is_waiting (r_status x) = true → row_step x (cancel_waiting now reason x).
Proof. intros Hw. destruct (r_status x) eqn:Hst; try done; row_step_by Hst. Qed.

Lemma cancel_running_step now reason x :
  r_status x = RUNNING → row_step x (cancel_running now reason x).
Proof. intros Hst. row_step_by Hst. Qed.

Lemma expired_step now x : is_waiting (r_status x) = true → row_step x (expired_row now x).
Proof. intros Hw. destruct (r_status x) eqn:Hst; try done; row_step_by Hst. Qed.

Lemma cancelled_step now x : r_status x = CANCEL_REQUESTED → row_step x (cancelled_row now x).
Proof. intros Hst. row_step_by Hst. Qed.

Lemma reclaimed_step now x : r_status x = RUNNING → row_step x (reclaimed_row now x).
Proof. intros Hst. row_step_by Hst. Qed.

Lemma released_step now x : r_status x = RUNNING → row_step x (released_row now x).
Proof. intros Hst. row_step_by Hst. Qed.

Lemma leased_step now token expires worker x :
  is_waiting (r_status x) = true → row_step x (leased_row now token expires worker x).
Proof.
  intros Hw. split; [done|]. left. cbn. split_and!; [|done | done].
  destruct (r_status x); try done; constructor.
Qed.

Lemma extended_step now expires x :
  is_leased (r_status x) = true → row_step x (extended_row now expires x).
Proof. intros Hl. split; [done|]. by right. Qed.

Lemma completed_step now c x res er av st :
  r_status x ∈ expected_statuses c →
  st = (if bool_decide (c = SUCCEEDED) && bool_decide (r_status x = CANCEL_REQUESTED)
        then CANCELLED else c) →
  row_step x (completed_row now st res er av x).
Proof.
  intros Hin ->. split; [done|]. left. cbn.
  rewrite list_elem_of_In in Hin.
  destruct c; cbn in Hin; try done; destruct_or! Hin; try done; rewrite <- Hin;
    repeat first [rewrite bool_decide_true by done | rewrite bool_decide_false by done]; cbn;
    split_and!; (constructor || lia).
Qed.

(** *** Every operation *)

Ltac evolve_step Hd := eapply evolves_update; [exact Hd | eassumption | | reflexivity].

Lemma expire_queued_evolves d0 now : se_inv (evolves d0) (_expire_queued cfg now).
Proof.
  unfold _expire_queued. apply se_inv_bind; [apply se_inv_get|]. intros d1.
  apply se_inv_iter. intros [id x0] d Hd. cbn [fst snd].
  rewrite se_get_bind. unfold mbind, se_bind.
  destruct (update_exec_ok id (λ y, (r_version y =? r_version x0)%Z && expirable d now id y)
              (expired_row now) d) as (d' & b & E).
  rewrite E. cbn. apply update_exec_cases in E as [(_ & -> & _)|(x & -> & Hx & Hw & ->)]; [done|].
  apply andb_true_iff in Hw as [_ Hw]. unfold expirable in Hw. rewrite !andb_true_iff in Hw.
  evolve_step Hd. apply expired_step. tauto.
Qed.

Lemma reclaim_evolves d0 now st f ast :
  (∀ x, r_status x = st → row_step x (f x)) → se_inv (evolves d0) (reclaim cfg now st f ast).
Proof.
  intros Hf. unfold reclaim. apply se_inv_bind; [apply se_inv_get|]. intros d1.
  apply se_inv_iter. intros [id x0] d Hd. cbn [fst snd]. unfold mbind, se_bind.
  destruct (update_exec_ok id (λ y, (r_version y =? r_version x0)%Z
      && bool_decide (r_lease_token y = r_lease_token x0) && lease_over now st y) f d)
    as (d' & b & E).
  rewrite E. cbn. apply update_exec_cases in E as [(-> & -> & _)|(x & -> & Hx & Hw & ->)]; [done|].
  rewrite !andb_true_iff in Hw. destruct Hw as [_ Hw].
  unfold lease_over in Hw. apply andb_true_iff in Hw as [Hw%bool_decide_eq_true _].
  cbn. evolve_step Hd. by apply Hf.
Qed.

Lemma lease_loop_evolves d0 now expires worker us d d' ls :
  evolves d0 d → db_inv d → NoDup (us.*2.*1) → in_table d us.*2 →
  se_map (λ ui : (Z * Z) * (Z * exec_row), lease_one now expires worker ui.1 ui.2) us d
  = (d', Ok ls) → evolves d0 d'.
Proof.
  revert d ls. induction us as [|[[aid token] [id x]] us IH]; intros d ls He Hd Hn Ht; cbn [se_map].
  - by intros [= <- _].
  - intros (d1 & l & E1 & (d2 & ls' & E2 & [= <- _])%se_bind_ok)%se_bind_ok.
    cbn [fmap list_fmap fst snd] in *. apply NoDup_cons in Hn as [Hni Hn].
    apply Forall_cons in Ht as [[Hx Hw] Ht].
    apply lease_one_inv in E1 as (Hd1 & -> & _); [|done..].
    eapply IH; [ | exact Hd1 | exact Hn | | exact E2].
    + evolve_step He. by apply leased_step.
    + by eapply in_table_insert.
Qed.

Lemma claim_evolves d0 now locked us ns names n lease worker d :
  db_inv d → evolves d0 d →
  evolves d0 (claim cfg now locked us ns names n lease worker d).1.
Proof.
  intros Hd He. set (I := λ d, db_inv d ∧ evolves d0 d).
  enough (se_inv I (claim cfg now locked us ns names n lease worker)) as Hok
    by (by destruct (Hok d (conj Hd He))).
  unfold claim. apply se_inv_bind; [apply se_inv_lift|]. intros _. apply transaction_inv.
  assert (∀ A (m : T A), se_inv db_inv m → se_inv (evolves d0) m → ok_inv I m) as Hboth.
  { intros A m H1 H2 e e' a [? ?] E. split; [by eapply (se_inv_ok _ _ H1)|].
    by eapply (se_inv_ok _ _ H2). }
  apply ok_inv_bind; [apply Hboth; [apply expire_queued_inv | apply expire_queued_evolves]|].
  intros _. apply ok_inv_bind; [apply Hboth; [apply expire_cancel_requests_inv|]|].
  { apply reclaim_evolves. intros x. apply cancelled_step. }
  intros _. apply ok_inv_bind; [apply Hboth; [apply release_expired_leases_inv|]|].
  { apply reclaim_evolves. intros x. apply reclaimed_step. }
  intros _ d1 d' ls [Hd1 He1]. rewrite se_get_bind.
  match goal with |- context [limit_rows n (select_ordered claim_key ?p d1)] =>
    destruct (claim_rows_in_table p n d1) as [Hin Hn];
    [intros id x [Hc _]%andb_true_iff; by eapply claimable_waiting|];
    destruct (limit_rows n (select_ordered claim_key p d1)) as [|r rows];
    [by intros [= <- _]|]
  end.
  rewrite se_bind_ok. intros (d2 & expires & (-> & _)%se_lift_ok & E). split.
  - eapply lease_loop_inv; [exact Hd1 | | | exact E]; by rewrite with_uuids_rows.
  - eapply lease_loop_evolves; [exact He1 | exact Hd1 | | | exact E]; by rewrite with_uuids_rows.
Qed.

Lemma submit_evolves d now id r : evolves d (submit sha256_hex cfg now id r d).1.
Proof.
  unfold submit, mbind, se_bind, se_lift.
  destruct (_encode_submission sha256_hex cfg r) as [enc|e]; [|apply evolves_refl].
  unfold _submit.
  match goal with |- context [transaction ?m d] => set (ins := m) end.
  assert (∀ d' u, ins d = (d', Ok u) → evolves d d') as Hins.
  { intros d' u. unfold ins. rewrite se_bind_ok. intros (d1 & av & (-> & _)%se_lift_ok & E).
    unfold insert_exec in E. destruct (db_execs d !! id) eqn:Hid; [done|].
    destruct (exists_exec _ d); [done|]. injection E as <- _.
    intros i x Hx. exists x. cbn. rewrite lookup_insert_ne by congruence. split; [done | constructor]. }
  destruct (transaction ins d) as [d' [a|e]] eqn:E.
  - apply transaction_ok in E. pose proof (Hins _ _ E) as He.
    exact (get_inv (evolves d) (rq_namespace r) id d' He).
  - assert (d' = d) as -> by (unfold transaction in E; by destruct (ins d) as [? [?|?]]; simplify_eq).
    repeat case_match; simplify_eq/=; apply evolves_refl.
Qed.

Lemma request_cancel_evolves d now ns id reason :
  evolves d (_request_cancel now ns id reason d).1.
Proof.
  unfold _request_cancel.
  apply (se_inv_bind (evolves d)); [|intros [x|]; [apply se_inv_bind; [apply se_inv_lift|]; intros; apply se_inv_ret | apply se_inv_ret] | apply evolves_refl].
  intros d1 He. unfold cancel_transaction, transaction, select_exec. rewrite se_gets_bind.
  destruct (db_execs d1 !! id) as [x|] eqn:Hx; [|done].
  destruct (negb _); [done|].
  assert (∀ f, row_step x (f x) →
    evolves d (match ((_ ← update_exec id (λ _, true) f; se_gets (λ d, db_execs d !! id)) : T _) d1
               with (s, Ok a) => (s, Ok a) | (_, Err e) => (d1, Err e) end).1) as Hup.
  { intros f Hf. unfold update_exec, mbind, se_bind. rewrite Hx. cbn. evolve_step He. done. }
  destruct (r_status x) eqn:Hst; try done; apply Hup;
    first [apply cancel_waiting_step; by rewrite Hst | by apply cancel_running_step].
Qed.

Lemma heartbeat_evolves d now id aid token s : evolves d (heartbeat now id aid token s d).1.
Proof.
  unfold heartbeat. apply (se_inv_bind (evolves d)); [apply se_inv_lift | | apply evolves_refl].
  intros _. apply transaction_inv. intros d1 d' hb He. rewrite se_bind_ok.
  intros (d2 & ex & (-> & _)%se_lift_ok & (d3 & u & E & (d4 & v & E' & E2)%se_bind_ok)%se_bind_ok).
  destruct u; [|done]. destruct v; [|done]. cbn in E2. injection E2 as <- _.
  apply update_exec_cases in E as [(? & _)|(x & _ & Hx & Hw & ->)]; [done|].
  apply update_att_cases in E' as [(? & _)|(a & _ & Ha & Hra & ->)]; [done|].
  apply andb_true_iff in Hw as [Hl _]. evolve_step He. by apply extended_step.
Qed.

Lemma release_evolves d now id aid token : evolves d (release now id aid token d).1.
Proof.
  unfold release. apply (se_inv_bind (evolves d)); [|intros; apply se_inv_lift | apply evolves_refl].
  apply transaction_inv. intros d1 d' row He. unfold select_exec. rewrite se_gets_bind.
  destruct (db_execs d1 !! id) as [x|] eqn:Hx; [|done]. rewrite se_bind_ok.
  intros (d2 & u & E & E2). destruct u; [|done]. cbn [negb] in E2.
  apply se_bind_ok in E2 as (d3 & v & E' & E2). destruct v; [|done].
  assert (d' = d3) as -> by (cbn [negb] in E2; rewrite se_gets_bind in E2;
                             destruct (db_execs d3 !! id); by inversion E2).
  apply update_exec_cases in E as [(? & _)|(x' & _ & Hx' & Hw & ->)]; [done|].
  apply update_att_cases in E' as [(? & _)|(a & _ & Ha & Hra & ->)]; [done|].
  apply andb_true_iff in Hw as [Hw%bool_decide_eq_true _].
  evolve_step He. by apply released_step.
Qed.

Lemma complete_evolves d now id aid token c : evolves d (complete cfg now id aid token c d).1.
Proof.
  unfold complete. apply (se_inv_bind (evolves d)); [|intros; apply se_inv_lift | apply evolves_refl].
  intros d1 He. destruct (complete_transaction cfg now id aid token c d1) as [d' [row|e]] eqn:E; cbn.
  - apply complete_transaction_ok in E as (x & Hx & res & av & _ & _ & Hcase).
    destruct Hcase as [(a & Hexp & _ & _ & _ & -> & ->)|(-> & _)]; [|done].
    cbn. evolve_step He. by apply (completed_step now (cp_status c)).
  - unfold complete_transaction, transaction in E.
    match type of E with (match ?m with _ => _ end) = _ => destruct m as [? [?|?]] end;
      [done | by injection E as <- _].
Qed.

Lemma run_op_evolves d o : op_ok o → db_inv d → evolves d (run_op d o).
Proof.
  intros Ho Hd. destruct o; cbn.
  - apply submit_evolves.
  - apply request_cancel_evolves.
  - by apply claim_evolves; [|apply evolves_refl].
  - apply heartbeat_evolves.
  - apply complete_evolves.
  - apply release_evolves.
Qed.

Lemma run_ops_evolves d os : Forall op_ok os → db_inv d → evolves d (run_ops d os).
Proof.
  intros Hos Hd. revert d Hd. induction Hos as [|o os Ho Hos IH]; intros d Hd; [apply evolves_refl|].
  intros id x Hx. destruct (run_op_evolves d o Ho Hd id x Hx) as (y & Hy & Hxy).
  destruct (IH (run_op d o) (run_tx_inv d o Ho Hd) id y Hy) as (z & Hz & Hyz).
  exists z. split; [exact Hz | by etrans].
Qed.
End Histories.
