(* ===== verification/PgClaim.v ===== *)
(** * What [claim] promises a worker

    The reclaim statements touch no live lease; the leases handed out are
    exclusive, belong to the requested tasks and are the first claimable
    executions in order; an undecodable row makes the whole claim fail. *)

From stdpp Require Import base option list strings numbers gmap sorting relations.
From Stdlib Require Import ZArith Lia Ascii.
From S2P Require Import Prelude PyFloat Value Texts Codec Execution PgStore PgBackend PgInvariant PgLifecycle.

Section Claim.
Context `{CodecEnv} (cfg : backend_config).

(** The three statements that run before the SELECT of [claim]. *)
Definition reclaim_all (now : Z) : T unit :=
  _ ← _expire_queued cfg now;
  _ ← _expire_cancel_requests cfg now;
  _release_expired_leases cfg now.

Definition after_reclaim (now : Z) (d : db) : db := (reclaim_all now d).1.

(** The rows [claim] selects in that state. *)
Definition claim_rows (now : Z) (locked : gset Z) (ns : string) (names : list string)
    (limit : Z) (d : db) : list (Z * exec_row) :=
  limit_rows limit
    (select_ordered claim_key
       (λ id x, claimable d now ns names id x && negb (bool_decide (id ∈ locked))) d).

(** A live lease. *)
Definition live_lease (now : Z) (x : exec_row) : Prop :=
  is_leased (r_status x) = true ∧ past now (r_lease_expires_at x) = false.

(** *** Statements that cannot raise *)

Definition returns {A} (m : T A) : Prop := ∀ d, is_ok (m d).2 = true.

Lemma returns_bind {A B} (m : T A) (f : A → T B) :
  returns m → (∀ a, returns (f a)) → returns (m ≫= f).
Proof.
  intros Hm Hf d. unfold mbind, se_bind. specialize (Hm d).
  destruct (m d) as [d1 [a|e]]; [apply Hf | done].
Qed.

Lemma returns_iter {A} (f : A → T unit) l : (∀ x, returns (f x)) → returns (se_iter f l).
Proof.
  intros Hf. induction l as [|x l IH]; [by intros d|]. cbn [se_iter].
  apply returns_bind; [done|]. by intros _.
Qed.

Lemma returns_update_exec id w f : returns (update_exec id w f).
Proof. intros d. unfold update_exec. by repeat case_match. Qed.

Lemma returns_reclaim_all now : returns (reclaim_all now).
Proof.
  unfold reclaim_all.
  repeat first [apply returns_bind; [|intros ?] | apply returns_iter; intros ?
               | apply returns_update_exec | by intros d | case_match].
Qed.

(** *** Live leases are left alone *)

Lemma update_exec_frame id x i w f :
  (id = i → w x = false) → se_inv (λ d, db_execs d !! id = Some x) (update_exec i w f).
Proof.
  intros Hw d Hx. unfold update_exec. destruct (decide (i = id)) as [->|Hne].
  - rewrite Hx, Hw by done. done.
  - repeat case_match; cbn; [by rewrite lookup_insert_ne | done..].
Qed.

Lemma reclaim_all_frame now id x :
  live_lease now x → se_inv (λ d, db_execs d !! id = Some x) (reclaim_all now).
Proof.
  intros [Hl Hp].
  assert (∀ st f ast, se_inv (λ d, db_execs d !! id = Some x) (reclaim cfg now st f ast)) as Hr.
  { intros st f ast. unfold reclaim. apply se_inv_bind; [apply se_inv_get|]. intros d0.
    apply se_inv_iter. intros [i y]. cbn [fst snd]. apply se_inv_bind.
    - apply update_exec_frame. intros <-. unfold lease_over. by rewrite Hp, !andb_false_r.
    - intros []; [|apply se_inv_ret]. by intros d Hd. }
  unfold reclaim_all, _expire_cancel_requests, _release_expired_leases.
  apply se_inv_bind; [|intros _; apply se_inv_bind; [apply Hr | intros _; apply Hr]].
  unfold _expire_queued. apply se_inv_bind; [apply se_inv_get|]. intros d0.
  apply se_inv_iter. intros [i y]. cbn [fst snd]. apply se_inv_bind; [apply se_inv_get|]. intros d1.
  apply se_inv_bind; [|intros ?; apply se_inv_ret].
  apply update_exec_frame. intros <-. unfold expirable.
  by destruct (r_status x); rewrite ?andb_false_r.
Qed.

Lemma after_reclaim_inv now d : db_inv d → db_inv (after_reclaim now d).
Proof.
  intros Hd. unfold after_reclaim, reclaim_all.
  apply (se_inv_bind db_inv); [apply expire_queued_inv | | done]. intros _.
  apply se_inv_bind; [apply expire_cancel_requests_inv|]. intros _.
  apply release_expired_leases_inv.
Qed.

(** *** The leases *)

(** The loop leaves the rows it does not lease alone, and every lease it
    returns describes the new row. *)
Definition lease_of (now expires : Z) (worker : string)
    (ui : (Z * Z) * (Z * exec_row)) (d' : db) (l : ExecutionLease) : Prop :=
  let '((aid, token), (id, x)) := ui in
  db_execs d' !! id = Some (leased_row now token expires worker x) ∧
  db_atts d' !! aid = Some (new_attempt now id token worker x) ∧
  _row_to_execution id (leased_row now token expires worker x) = Ok (le_execution l) ∧
  le_attempt_id l = aid ∧ le_lease_token l = token ∧ le_lease_expires_at l = expires.

Lemma lease_loop_leases now expires worker us d d' ls :
  db_inv d → NoDup (us.*2.*1) → in_table d us.*2 →
  se_map (λ ui : (Z * Z) * (Z * exec_row), lease_one now expires worker ui.1 ui.2) us d
  = (d', Ok ls) →
  Forall2 (λ ui l, lease_of now expires worker ui d' l) us ls ∧
  (∀ i, i ∉ us.*2.*1 → db_execs d' !! i = db_execs d !! i) ∧
  (∀ j a, db_atts d !! j = Some a → db_atts d' !! j = Some a).
Proof.
  revert d ls. induction us as [|[[aid token] [id x]] us IH]; intros d ls Hd Hn Ht; cbn [se_map].
  - intros [= <- <-]. auto.
  - intros (d1 & l & E1 & (d2 & ls' & E2 & [= -> <-])%se_bind_ok)%se_bind_ok.
    cbn [fmap list_fmap fst snd] in *. apply NoDup_cons in Hn as [Hni Hn].
    apply Forall_cons in Ht as [[Hx Hw] Ht]. pose proof E1 as E1'.
    apply lease_one_inv in E1 as (Hd1 & -> & e & He & ->); [|done..].
    destruct (IH _ _ Hd1 Hn (in_table_insert _ _ _ _ _ Hni Ht) E2) as (Hls & Hfr & Hat).
    cbn [db_execs db_atts] in *. split; [|split].
    + constructor; [|done]. split_and!; try done.
      * rewrite Hfr by done. by rewrite lookup_insert_eq.
      * apply Hat. by rewrite lookup_insert_eq.
    + intros i Hi. rewrite not_elem_of_cons in Hi. destruct Hi as [Hi1 Hi2].
      rewrite Hfr by done. by rewrite lookup_insert_ne.
    + intros j a Hj. apply Hat. rewrite lookup_insert_ne; [done|]. intros <-.
      unfold lease_one in E1'. apply se_bind_ok in E1' as (d3 & u & Eu & E1').
      apply update_exec_cases in Eu as [(_ & _ & Hf)|(y & _ & Hy & _ & ->)];
        [by specialize (Hf x Hx)|].
      apply se_bind_ok in E1' as (d4 & [] & Ei & _). unfold insert_att in Ei.
      cbn [with_execs db_atts] in Ei. by rewrite Hj in Ei.
Qed.

(** [claim] in terms of the selected rows. *)
Lemma claim_cases now locked us ns names n lease worker d d' ls :
  db_inv d →
  claim cfg now locked us ns names n lease worker d = (d', Ok ls) →
  check_claim names n lease worker = Ok () ∧
  let d1 := after_reclaim now d in
  let rows := claim_rows now locked ns names n d1 in
  ∃ expires, (rows ≠ [] → after_seconds now lease = Ok expires) ∧
  Forall2 (λ ui l, lease_of now expires (strip worker) ui d' l) (with_uuids us rows) ls ∧
  (∀ i, i ∉ rows.*1 → db_execs d' !! i = db_execs d1 !! i).
Proof.
  intros Hd. unfold claim. rewrite se_bind_ok.
  intros (d0 & [] & (-> & Hc)%se_lift_ok & E%transaction_ok).
  split; [by destruct (check_claim names n lease worker) as [[]|]|].
  apply se_bind_ok in E as (d1 & [] & E1 & E). apply se_bind_ok in E as (d2 & [] & E2 & E).
  apply se_bind_ok in E as (d3 & [] & E3 & E).
  assert (after_reclaim now d = d3) as <-.
  { unfold after_reclaim, reclaim_all, mbind, se_bind. by rewrite E1, E2, E3. }
  rewrite se_get_bind in E. fold (claim_rows now locked ns names n (after_reclaim now d)) in E.
  cbv zeta. destruct (claim_rows_in_table
    (λ id x, claimable (after_reclaim now d) now ns names id x && negb (bool_decide (id ∈ locked)))
    n (after_reclaim now d)) as [Hin Hn];
    [intros id x [Hx _]%andb_true_iff; by eapply claimable_waiting|].
  fold (claim_rows now locked ns names n (after_reclaim now d)) in Hin, Hn.
  destruct (claim_rows now locked ns names n (after_reclaim now d)) as [|r rows] eqn:Hrows.
  - injection E as <- <-. exists 0%Z. split; [done|]. split; [constructor | done].
  - apply se_bind_ok in E as (d4 & expires & (-> & He)%se_lift_ok & E). exists expires.
    split; [intros _; unfold lift_exn in He; destruct (after_seconds now lease); congruence|].
    rewrite <- (with_uuids_rows us (r :: rows)) in Hin, Hn.
    destruct (lease_loop_leases _ _ _ _ _ _ _ (after_reclaim_inv now d Hd) Hn Hin E)
      as (Hls & Hfr & _). rewrite with_uuids_rows in Hfr. done.
Qed.

(** *** Decoded rows *)

(** The columns [_row_to_execution] copies. *)
Lemma row_to_execution_fields id x e :
  _row_to_execution id x = Ok e →
  ex_id e = id ∧ ex_namespace e = s_namespace (r_sub x) ∧
  ex_task_name e = s_task_name (r_sub x) ∧ ex_status e = r_status x ∧
  ex_attempts e = r_attempts x ∧ ex_available_at e = r_available_at x ∧
  ex_created_at e = s_created_at (r_sub x) ∧ ex_version e = r_version x ∧
  decode_value "" (s_payload (r_sub x)) = Ok (ex_payload e) ∧
  decode_value "" (s_metadata (r_sub x)) = Ok (ex_metadata e) ∧
  decode_nullable (r_result x) = Ok (ex_result e).
Proof.
  unfold _row_to_execution. destruct (row_execution id x) as [e'|] eqn:E; [|done].
  intros [= ->]. unfold row_execution in E.
  apply bind_ok in E as (raw & _ & (er & _ & (p & Hp & (m & Hm & (r & Hr & [= <-])%bind_ok)%bind_ok)
    %bind_ok)%bind_ok). cbn. done.
Qed.

(** The row behind each returned lease. *)
Lemma claim_lease_rows now locked us ns names n lease worker d d' ls :
  db_inv d →
  claim cfg now locked us ns names n lease worker d = (d', Ok ls) →
  let rows := claim_rows now locked ns names n (after_reclaim now d) in
  ∃ expires, Forall2 (λ ix l, ex_id (le_execution l) = ix.1 ∧
    ex_available_at (le_execution l) = r_available_at ix.2 ∧
    ex_created_at (le_execution l) = s_created_at (r_sub ix.2) ∧
    db_execs d' !! ix.1 = Some (leased_row now (le_lease_token l) expires (strip worker) ix.2) ∧
    le_lease_expires_at l = expires ∧
    db_atts d' !! le_attempt_id l
      = Some (new_attempt now ix.1 (le_lease_token l) (strip worker) ix.2)) rows ls.
Proof.
  intros Hd E. destruct (claim_cases _ _ _ _ _ _ _ _ _ _ _ Hd E) as (_ & expires & _ & Hls & _).
  exists expires. rewrite <- (with_uuids_rows us (claim_rows _ _ _ _ _ _)).
  apply Forall2_fmap_l. eapply Forall2_impl; [exact Hls|].
  intros [[aid token] [id x]] l (Hrow & Hatt & He & <- & <- & <-). cbn.
  apply row_to_execution_fields in He as (? & ? & ? & ? & ? & ? & ? & _). done.
Qed.

Lemma claim_lease_ids now locked us ns names n lease worker d d' ls :
  db_inv d →
  claim cfg now locked us ns names n lease worker d = (d', Ok ls) →
  map (λ l, ex_id (le_execution l)) ls
  = (claim_rows now locked ns names n (after_reclaim now d)).*1.
Proof.
  intros Hd E. destruct (claim_lease_rows _ _ _ _ _ _ _ _ _ _ _ Hd E) as [expires Hls].
  clear E. induction Hls as [|[id x] l rows ls (Hid & _) Hls IH]; [done|]. cbn in *. by rewrite IH, Hid.
Qed.
End Claim.

(** C7. The leases of one claim are exclusive: at most [limit] of them, for
    distinct executions of the requested namespace and tasks that no other
    transaction holds locked and on which nobody had a live lease; each
    execution is now running under the token and the attempt of its lease. *)
Theorem claim_exclusive `{CodecEnv} cfg now locked us ns names n lease worker d d' ls :
  db_inv d →
  claim cfg now locked us ns names n lease worker d = (d', Ok ls) →
  (length ls ≤ Z.to_nat n)%nat ∧ NoDup (map (λ l, ex_id (le_execution l)) ls) ∧
  ∀ l, l ∈ ls →
    let id := ex_id (le_execution l) in
    (id ∉ locked) ∧ (∀ x, db_execs d !! id = Some x → ¬ (live_lease now x)) ∧
    ∃ y a, db_execs d' !! id = Some y ∧ s_namespace (r_sub y) = ns ∧
      s_task_name (r_sub y) ∈ names ∧ r_status y = RUNNING ∧
      r_lease_token y = Some (le_lease_token l) ∧
      r_lease_expires_at y = Some (le_lease_expires_at l) ∧
      db_atts d' !! le_attempt_id l = Some a ∧
      running_attempt id (Some (le_lease_token l)) a = true ∧ at_attempt_no a = r_attempts y.
Proof.
  intros Hd E. pose proof (claim_lease_ids cfg _ _ _ _ _ _ _ _ _ _ _ Hd E) as Hids.
  destruct (claim_lease_rows cfg _ _ _ _ _ _ _ _ _ _ _ Hd E) as [expires Hls].
  split_and!.
  - rewrite <- (Forall2_length _ _ _ Hls). unfold claim_rows, limit_rows. rewrite length_take. lia.
  - rewrite Hids. unfold claim_rows, limit_rows. rewrite fmap_take. apply take_NoDup, select_NoDup.
  - intros l Hl. apply (Forall2_elem_r _ _ _ _ Hls) in Hl as ([id x] & Hx & Hid & _ & _ & Hy & He & Ha).
    cbn [fst snd] in *. rewrite Hid. apply limit_rows_sub, elem_of_select in Hx as [Hx Hc].
    apply andb_true_iff in Hc as [Hc Hlock].
    assert (is_waiting (r_status x) = true) as Hw by (by eapply claimable_waiting).
    unfold claimable in Hc. rewrite !andb_true_iff, !bool_decide_eq_true in Hc.
    split_and!.
    + by apply negb_true_iff, bool_decide_eq_false in Hlock.
    + intros x0 Hx0 Hlive. pose proof (reclaim_all_frame cfg now id x0 Hlive d Hx0) as Hfr.
      cbn beta in Hfr. unfold after_reclaim in Hx. rewrite Hfr in Hx. injection Hx as ->.
      destruct Hlive as [Hlive _]. by destruct (r_status x).
    + eexists _, _. split; [exact Hy|]. cbn. destruct Hc as [[[[Hns Htn] _] _] _].
      split_and!; [done | done | done | done | by rewrite He | exact Ha | | done].
      by apply running_attempt_true.
Qed.

(** [claim] is fair: the leases come in the order of [available_at],
    [created_at] and id, and an execution that could have been claimed but was
    not comes after all of them, with the limit used up. *)
Theorem claim_fair `{CodecEnv} cfg now locked us ns names n lease worker d d' ls :
  db_inv d →
  claim cfg now locked us ns names n lease worker d = (d', Ok ls) →
  let key l := [ex_available_at (le_execution l); ex_created_at (le_execution l);
                ex_id (le_execution l)] in
  StronglySorted (λ l1 l2, lex_leb (key l1) (key l2) = true) ls ∧
  ∀ id x, db_execs (after_reclaim cfg now d) !! id = Some x →
    claimable (after_reclaim cfg now d) now ns names id x = true → id ∉ locked →
    id ∈ map (λ l, ex_id (le_execution l)) ls ∨
    length ls = Z.to_nat n ∧ ∀ l, l ∈ ls → lex_leb (key l) (claim_key id x) = true.
Proof.
  intros Hd E key. pose proof (claim_lease_ids cfg _ _ _ _ _ _ _ _ _ _ _ Hd E) as Hids.
  destruct (claim_lease_rows cfg _ _ _ _ _ _ _ _ _ _ _ Hd E) as [expires Hls].
  set (p := λ id x, claimable (after_reclaim cfg now d) now ns names id x
                    && negb (bool_decide (id ∈ locked))).
  pose proof (select_sorted claim_key p (after_reclaim cfg now d)) as Hsort.
  fold (claim_rows now locked ns names n (after_reclaim cfg now d)) in *.
  unfold claim_rows in Hls, Hids. fold p in Hls, Hids.
  set (rows := select_ordered claim_key p (after_reclaim cfg now d)) in *.
  assert (∀ ix l, ex_id (le_execution l) = ix.1 →
    ex_available_at (le_execution l) = r_available_at ix.2 →
    ex_created_at (le_execution l) = s_created_at (r_sub ix.2) → key l = claim_key ix.1 ix.2) as Hkey.
  { intros [i x] l Hi Ha Hc. unfold key. by rewrite Hi, Ha, Hc. }
  split.
  - unfold limit_rows in Hls. revert Hls.
    assert (StronglySorted (key_le claim_key) (take (Z.to_nat n) rows)) as Hs.
    { rewrite <- (take_drop (Z.to_nat n) rows) in Hsort. by apply StronglySorted_app_1_l in Hsort. }
    clear Hids Hsort E. revert Hs. generalize (take (Z.to_nat n) rows) as rs. intros rs Hs Hls.
    induction Hls as [|ix l rs ls (Hi & Ha & Hc & _) Hls IH]; [constructor|].
    apply StronglySorted_inv in Hs as [Hs Hall]. constructor; [by apply IH|].
    rewrite Forall_forall in Hall. apply Forall_forall. intros l' Hl'.
    apply (Forall2_elem_r _ _ _ _ Hls) in Hl' as (ix' & Hix' & Hi' & Ha' & Hc' & _).
    rewrite (Hkey ix l), (Hkey ix' l') by done. by apply (Hall ix').
  - intros id x Hx Hc Hlock.
    assert ((id, x) ∈ rows) as Hin.
    { apply elem_of_select. split; [done|]. unfold p. rewrite Hc, bool_decide_false by done. done. }
    rewrite <- (take_drop (Z.to_nat n) rows) in Hin. apply elem_of_app in Hin as [Hin|Hin].
    { left. rewrite Hids. apply list_elem_of_fmap. by exists (id, x). }
    right. split.
    + rewrite <- (Forall2_length _ _ _ Hls). unfold limit_rows. rewrite length_take.
      assert (drop (Z.to_nat n) rows ≠ []) as Hne by (intros E0; rewrite E0 in Hin; by inversion Hin).
      destruct (decide (Z.to_nat n ≤ length rows)%nat); [lia|]. exfalso. apply Hne, drop_ge. lia.
    + intros l Hl.
      apply (Forall2_elem_r _ _ _ _ Hls) in Hl as (ix & Hix & Hi & Ha & Hcr & _).
      rewrite (Hkey ix l) by done. rewrite <- (take_drop (Z.to_nat n) rows) in Hsort.
      by apply (StronglySorted_app_1_elem_of (key_le claim_key) _ _ ix (id, x) Hsort).
Qed.
