(* ===== verification/PgTheorems.v ===== *)
(** * What the execution backend promises

    Consistency of the tables, the lifecycle, fencing of stale leases,
    idempotent submission and completion, cancellation, and what a caller
    reads back. *)

From stdpp Require Import base option list strings numbers gmap sorting relations.
From Stdlib Require Import ZArith Lia Ascii.
From S2P Require Import Prelude PyFloat Value Texts Codec Execution PgStore PgBackend PgInvariant PgLifecycle PgClaim.

(** ** JSON columns compare equal to themselves *)

(** Finite numbers and distinct keys. *)
Fixpoint nice_json (j : json) : Prop :=
  match j with
  | JFloat x => isfinite x = true
  | JList js => (fix go js := match js with [] => True | j :: js => nice_json j ∧ go js end) js
  | JObj items =>
      NoDup items.*1 ∧
      (fix go items := match items with
                       | [] => True
                       | (_, j) :: items => nice_json j ∧ go items
                       end) items
  | _ => True
  end.

Section JsonInd.
Variable P : json → Prop.
Hypothesis HNull : P JNull.
Hypothesis HBool : ∀ b, P (JBool b).
Hypothesis HInt : ∀ n, P (JInt n).
Hypothesis HFloat : ∀ x, P (JFloat x).
Hypothesis HStr : ∀ s, P (JStr s).
Hypothesis HList : ∀ js, Forall P js → P (JList js).
Hypothesis HObj : ∀ items, Forall (λ kj, P kj.2) items → P (JObj items).

Fixpoint json_rect_strong (j : json) : P j :=
  match j with
  | JNull => HNull
  | JBool b => HBool b
  | JInt n => HInt n
  | JFloat x => HFloat x
  | JStr s => HStr s
  | JList js => HList js ((fix go js : Forall P js :=
      match js with
      | [] => List.Forall_nil _
      | j :: js => List.Forall_cons _ _ _ (json_rect_strong j) (go js)
      end) js)
  | JObj items => HObj items ((fix go items : Forall (λ kj : string * json, P kj.2) items :=
      match items with
      | [] => List.Forall_nil _
      | (k, j) :: items => List.Forall_cons _ (k, j) _ (json_rect_strong j) (go items)
      end) items)
  end.
End JsonInd.

Lemma SFeqb_refl x : isfinite x = true → SpecFloat.SFeqb x x = true.
Proof.
  intros Hx. unfold SpecFloat.SFeqb.
  rewrite SFcompare_refl by by apply isfinite_comparable. done.
Qed.

Lemma dict_get_nodup {V} k (v : V) d : NoDup d.*1 → (k, v) ∈ d → dict_get k d = Some v.
Proof.
  induction d as [|[k' v'] d IH]; [by intros _ ?%elem_of_nil|].
  cbn. intros [Hni Hn]%NoDup_cons [E|Hin]%elem_of_cons.
  - injection E as -> ->. by rewrite String.eqb_refl.
  - destruct (String.eqb_spec k k') as [->|]; [|by apply IH].
    exfalso. apply Hni. apply list_elem_of_fmap. by exists (k', v).
Qed.

Lemma json_eqb_refl j : nice_json j → json_eqb j j = true.
Proof.
  induction j as [|b|n|x|s|js IH|items IH] using json_rect_strong; cbn [nice_json json_eqb].
  - done.
  - intros _. by destruct b.
  - intros _. cbn. apply Z.eqb_refl.
  - intros Hx. cbn. by apply SFeqb_refl.
  - intros _. apply String.eqb_refl.
  - induction IH as [|j js Hj Hjs IH]; [done|]. intros [H1 H2]. rewrite Hj by done. by apply IH.
  - intros [Hn Hi]. rewrite Nat.eqb_refl. cbn [andb].
    assert (∀ l, l ⊆ items → Forall (λ kj, nice_json kj.2 → json_eqb kj.2 kj.2 = true) l →
      (fix go items := match items with
                       | [] => True
                       | (_, j) :: items => nice_json j ∧ go items
                       end) l →
      (fix go l := match l with
                   | [] => true
                   | (k, x) :: l => match dict_get k items with
                                    | Some y => json_eqb x y
                                    | None => false
                                    end && go l
                   end) l = true) as Hl; [|by apply Hl].
    clear Hi IH. intros l. induction l as [|[k j] l IHl]; [done|].
    intros Hsub Hall [Hj Hl]. apply Forall_cons in Hall as [H1 H2].
    rewrite (dict_get_nodup k j items) by (done || apply Hsub; by left).
    cbn in H1. rewrite H1 by done. apply IHl; [|done..]. intros z Hz. apply Hsub. by right.
Qed.

Lemma nice_list js : Forall nice_json js → nice_json (JList js).
Proof. cbn. induction 1; cbn; auto. Qed.

Lemma nice_obj items :
  NoDup items.*1 → Forall (λ kj, nice_json kj.2) items → nice_json (JObj items).
Proof.
  intros Hn Hi. cbn. split; [done|]. clear Hn. induction Hi as [|[k j] items Hj Hi IH]; cbn; auto.
Qed.

Lemma nice_tag t fields :
  NoDup ("type" :: fields.*1) → Forall (λ kj, nice_json kj.2) fields → nice_json (_tag t fields).
Proof.
  intros Hn Hf. apply nice_obj; [apply NoDup_singleton|]. constructor; [|constructor].
  apply nice_obj; [done|]. by constructor.
Qed.

Ltac nice_keys := repeat constructor; rewrite ?list_elem_of_In; simpl; intuition discriminate.

Section Nice.
Context `{CodecEnv}.

Definition encodes_nice (v : value) : Prop :=
  ∀ path j, wf_value v → encode_value path v = Ok j → nice_json j.

Lemma enc_members_nice vs :
  Forall encodes_nice vs → Forall wf_value vs →
  (∀ path i js, enc_list encode_value path i vs = Ok js → Forall nice_json js) ∧
  (∀ path js, enc_set encode_value path vs = Ok js → Forall nice_json js) ∧
  (∀ path fs js, enc_fields encode_value path fs vs = Ok js → Forall nice_json js).
Proof.
  intros Hv Hw. induction Hv as [|v vs Hv Hvs IH].
  - split_and!; [intros path i js [= <-] | intros path js [= <-] | intros path [|f fs] js [= <-]];
      constructor.
  - apply Forall_cons in Hw as [Hw1 Hw2]. destruct (IH Hw2) as (IH1 & IH2 & IH3).
    split_and!; [intros path i js | intros path js | intros path [|f fs] js]; cbn;
      try (intros [= <-]; constructor);
      intros (j & Hj & (js' & Hjs & [= <-])%bind_ok)%bind_ok; constructor; eauto.
Qed.

Lemma enc_items_nice items path kvs :
  Forall (λ kv : value * value, encodes_nice kv.2) items →
  Forall (λ kv, wf_value kv.2) items → NoDup (omap key_text items.*1) →
  enc_items encode_value path items = Ok kvs →
  Forall (λ kj, nice_json kj.2) kvs ∧ NoDup kvs.*1 ∧
  (∀ k, k ∈ kvs.*1 → k ∈ omap key_text items.*1).
Proof.
  intros Hi Hw. revert kvs. induction Hi as [|[k v] items Hv Hi IH]; intros kvs Hn; cbn.
  - intros [= <-]. split_and!; [constructor..|]. by intros k ?%elem_of_nil.
  - apply Forall_cons in Hw as [Hw1 Hw2]. cbn in Hn. destruct (key_text k) as [s|].
    2: { intros [= <-]. split_and!; [constructor|constructor|]. by intros ? ?%elem_of_nil. }
    apply NoDup_cons in Hn as [Hni Hn].
    intros (j & Hj & (kvs' & Hk & [= <-])%bind_ok)%bind_ok.
    destruct (IH Hw2 kvs' Hn Hk) as (IH1 & IH2 & IH3). cbn. split_and!.
    + constructor; [by eapply Hv | done].
    + apply NoDup_cons. split; [|done]. intros ?%IH3. done.
    + intros x. rewrite !elem_of_cons. intros [->|Hk']; [by left | right; by apply IH3].
Qed.

Lemma nice_sort (key : json → string) js : Forall nice_json js → Forall nice_json (sort_by key js).
Proof. by rewrite sort_by_perm. Qed.

Lemma encode_nice v : encodes_nice v.
Proof.
  induction v as [| b | n | x | t | bs | d | u | t | m q n w IH | m q fs vs IH | vs IH
                  | vs IH | vs IH | vs IH | items IH | m q] using value_rect_strong;
    intros path j Hw He; cbn [encode_value] in He; try done; try (by injection He as <-).
  - destruct (isfinite x) eqn:Ex; [|done]. by injection He as <-.
  - injection He as <-. apply nice_tag; [nice_keys | repeat constructor].
  - injection He as <-. apply nice_tag; [nice_keys | repeat constructor].
  - injection He as <-. apply nice_tag; [nice_keys | repeat constructor].
  - injection He as <-. apply nice_tag; [nice_keys | repeat constructor].
  - apply bind_ok in He as (u & _ & (j' & Hj & [= <-])%bind_ok). destruct Hw as [Hw _].
    apply nice_tag; [nice_keys|]. repeat constructor. by eapply IH.
  - apply bind_ok in He as (u & _ & (js & Hj & [= <-])%bind_ok). destruct Hw as (Hw & _).
    apply all_values_Forall in Hw.
    apply nice_tag; [nice_keys|]. repeat constructor; apply nice_list.
    + apply Forall_fmap, Forall_true. done.
    + destruct (enc_members_nice vs IH Hw) as (_ & _ & Hf). eauto.
  - apply bind_ok in He as (js & Hj & [= <-]). apply all_values_Forall in Hw.
    apply nice_tag; [nice_keys|]. repeat constructor. apply nice_list.
    destruct (enc_members_nice vs IH Hw) as (Hf & _). eauto.
  - apply bind_ok in He as (js & Hj & [= <-]). destruct Hw as (Hw & _). apply all_values_Forall in Hw.
    apply nice_tag; [nice_keys|]. repeat constructor. apply nice_list, nice_sort.
    destruct (enc_members_nice vs IH Hw) as (_ & Hf & _). eauto.
  - apply bind_ok in He as (js & Hj & [= <-]). destruct Hw as (Hw & _). apply all_values_Forall in Hw.
    apply nice_tag; [nice_keys|]. repeat constructor. apply nice_list, nice_sort.
    destruct (enc_members_nice vs IH Hw) as (_ & Hf & _). eauto.
  - apply bind_ok in He as (js & Hj & [= <-]). apply all_values_Forall in Hw.
    apply nice_list. destruct (enc_members_nice vs IH Hw) as (Hf & _). eauto.
  - destruct (bad_key items); [done|]. apply bind_ok in He as (kvs & Hk & [= <-]).
    destruct Hw as [Hw Hn]. apply all_items_Forall in Hw.
    destruct (enc_items_nice items path kvs) as (Hk1 & Hk2 & _); [|done..|].
    { eapply Forall_impl; [exact IH|]. by intros kv []. }
    destruct (has_tag items); [|by apply nice_obj].
    apply nice_tag; [nice_keys|]. repeat constructor. apply nice_list.
    apply Forall_fmap. eapply Forall_impl; [exact Hk1|]. intros kj Hkj. by apply nice_list; repeat constructor.
Qed.
End Nice.

(** ** Histories *)

(** The backend used in the examples. *)
Definition demo_config : backend_config :=
  {| max_payload_bytes := 1048576; max_metadata_bytes := 65536;
     max_result_bytes := 1048576; reclaim_batch_size := 100 |}.

Definition demo_request : ExecutionRequest :=
  {| rq_namespace := "app"; rq_task_name := "report"; rq_payload := demo_value;
     rq_idempotency_key := Some "k1"; rq_metadata := [(VStr "tenant", VInt 7)];
     rq_delay_s := None; rq_expires_at := None |}.

Definition seconds (n : Z) : float64 := float_of_Z n.

Definition succeeded (v : value) : ExecutionCompletion :=
  {| cp_status := SUCCEEDED; cp_result := v; cp_error := None; cp_delay_s := None |}.

(** Submit, claim under a 90 second lease, beat, complete. *)
Definition demo_history : list op :=
  [OpSubmit 1000000 1 demo_request;
   OpClaim 2000000 ∅ (λ k, (Z.of_nat (10 + k), Z.of_nat (20 + k))) "app" ["report"] 4
     (seconds 90) "worker";
   OpHeartbeat 30000000 1 10 20 (seconds 90);
   OpComplete 40000000 1 10 20 (succeeded (VStr "done"))].

(** C5. Starting from empty tables, no sequence of transactions of clients and
    workers, with whatever arguments, timestamps and interleaving, breaks the
    consistency of the tables: leases and finish times agree with the
    statuses, results belong to successes, an execution is leased exactly
    while one attempt of it runs, attempts are numbered without duplicates and
    idempotency keys are unique. *)
Theorem backend_invariant `{CodecEnv} sha256_hex cfg os :
  Forall op_ok os → db_inv (run_ops sha256_hex cfg empty_db os).
Proof. intros Hos. apply run_ops_inv; [done | apply empty_db_inv]. Qed.

Lemma backend_invariant_witness :
  db_inv (run_ops str_of_list demo_config empty_db demo_history).
Proof. apply backend_invariant. repeat constructor. Defined.

(** C6. An execution never disappears and only moves along the documented
    lifecycle, each move incrementing its version; once it is terminal its
    row never changes again. *)
Theorem execution_lifecycle `{CodecEnv} sha256_hex cfg os os' id x :
  Forall op_ok (os ++ os') →
  db_execs (run_ops sha256_hex cfg empty_db os) !! id = Some x →
  ∃ y, db_execs (run_ops sha256_hex cfg empty_db (os ++ os')) !! id = Some y ∧
    rtc row_step x y ∧ (is_terminal (r_status x) = true → y = x).
Proof.
  intros [Hos Hos']%Forall_app Hx. unfold run_ops in *. rewrite foldl_app.
  pose proof (run_ops_inv sha256_hex cfg empty_db os Hos empty_db_inv) as Hd.
  destruct (run_ops_evolves sha256_hex cfg _ os' Hos' Hd id x Hx) as (y & Hy & Hxy).
  exists y. split_and!; [exact Hy | done |]. intros Ht. by eapply rtc_terminal.
Qed.

Lemma execution_lifecycle_witness :
  ∃ y, db_execs (run_ops str_of_list demo_config empty_db demo_history) !! 1%Z = Some y ∧
       r_status y = SUCCEEDED.
Proof.
  destruct (db_execs (run_ops str_of_list demo_config empty_db (take 1 demo_history)) !! 1%Z)
    as [x|] eqn:Hx; [|vm_compute in Hx; discriminate].
  destruct (execution_lifecycle str_of_list demo_config (take 1 demo_history)
              (drop 1 demo_history) 1 x) as (y & Hy & _); [repeat constructor | exact Hx |].
  exists y. split; [exact Hy|]. vm_compute in Hy. injection Hy as <-. reflexivity.
Defined.

(** ** Fencing *)

(** C8. A worker whose lease is over, or was never its own, changes nothing:
    heartbeat and release raise; complete raises too, unless the execution
    already ended with the status, the encoded result and the error of this
    completion, and then it reports that. *)
Theorem stale_lease_rejected `{CodecEnv} cfg now id aid token d :
  (∀ x, db_execs d !! id = Some x → holds_lease now token x = false) →
  (∀ s, ∃ e, heartbeat now id aid token s d = (d, Err e)) ∧
  (∃ m, release now id aid token d = (d, Err (ExecutionLeaseLost m))) ∧
  ∀ c, (complete cfg now id aid token c d).1 = d ∧
       ∀ e, (complete cfg now id aid token c d).2 = Ok e →
            ∃ x, db_execs d !! id = Some x ∧ r_status x = cp_status c ∧
                 is_terminal (r_status x) = true ∧
                 (if decide (cp_status c = SUCCEEDED)
                  then ∃ res, encode_result cfg c = Ok res ∧ json_eqb (r_result x) res = true
                  else json_eqb (r_result x) JNull = true) ∧
                 json_eqb (r_error x) (nullable error_asdict (cp_error c)) = true ∧
                 _row_to_execution id x = Ok e.
Proof.
  intros Hlost.
  assert (∀ w f, (∀ x, w x = true → holds_lease now token x = true) →
                 update_exec id w f d = (d, Ok false)) as Hup.
  { intros w f Hw. unfold update_exec. destruct (db_execs d !! id) as [x|] eqn:Hx; [|done].
    destruct (w x) eqn:Hwx; [|done]. apply Hw in Hwx. by rewrite (Hlost x eq_refl) in Hwx. }
  split_and!.
  - intros s. unfold heartbeat, mbind, se_bind, se_lift, transaction, lift_exn.
    destruct (guard_else _ _); [|by eexists]. destruct (after_seconds now s); [|by eexists].
    rewrite Hup by (intros x; rewrite andb_true_iff; tauto).
    destruct (update_att _ _ _ d) as [d' [v|e]]; by eexists.
  - unfold release, release_transaction, transaction, select_exec, mbind at 1, se_bind at 1.
    rewrite se_gets_bind. destruct (db_execs d !! id); [|by eexists].
    unfold mbind, se_bind. rewrite Hup by (intros x; rewrite andb_true_iff; tauto). by eexists.
  - intros c. unfold complete, mbind, se_bind.
    destruct (complete_transaction cfg now id aid token c d) as [d' [row|e]] eqn:E.
    + apply complete_transaction_ok in E as (x & Hx & res & av & Hres & _ & Hcase).
      destruct Hcase as [(a & _ & Hh & _)|(-> & -> & Hst & Ht & _ & Er & Ee)].
      { by rewrite (Hlost x Hx) in Hh. }
      split; [done|]. intros e He. exists x. split_and!; [done..| |done|done].
      rewrite Hst in Hres. destruct (decide (cp_status c = SUCCEEDED)) as [Es|Es].
      * rewrite Es in *. cbn in *. by exists res.
      * by rewrite bool_decide_eq_false_2 in Er by done.
    + split; [|done]. unfold complete_transaction, transaction in E.
      match type of E with (match ?m with _ => _ end) = _ => destruct m as [? [?|?]] end;
        [done | by injection E].
Qed.

Lemma stale_lease_rejected_witness :
  let d := run_ops str_of_list demo_config empty_db (take 2 demo_history) in
  ∃ m, release 500000000 1 10 20 d = (d, Err (ExecutionLeaseLost m)).
Proof.
  intros d. apply (stale_lease_rejected demo_config 500000000 1 10 20 d).
  intros x Hx. vm_compute in Hx. injection Hx as <-. reflexivity.
Defined.

(** ** Completion *)

Lemma error_asdict_nice o : nice_json (nullable error_asdict o).
Proof.
  destruct o as [d|]; [|done]. apply nice_obj; [nice_keys|].
  repeat constructor; cbn; destruct_or?; unfold nullable; by case_match.
Qed.

(** A terminal row with the same outcome answers a completion. *)
Lemma complete_again `{CodecEnv} cfg now id aid token c d x :
  db_execs d !! id = Some x → r_status x = cp_status c →
  is_terminal (r_status x) = true → r_status x ≠ EXPIRED →
  (∃ res, (if bool_decide (cp_status c = SUCCEEDED) then encode_result cfg c = Ok res
           else res = JNull) ∧ json_eqb (r_result x) res = true) →
  json_eqb (r_error x) (nullable error_asdict (cp_error c)) = true →
  complete_transaction cfg now id aid token c d = (d, Ok x).
Proof.
  intros Hx Hst Ht Hne (res & Hres & Hre) Her.
  unfold complete_transaction, transaction, select_exec. rewrite se_gets_bind, Hx.
  assert (bool_decide (r_status x = CANCEL_REQUESTED) = false) as ->.
  { apply bool_decide_eq_false. by destruct (r_status x). }
  rewrite andb_false_r. cbn [negb]. rewrite andb_true_r.
  assert (bool_decide (cp_status c = RETRYING) = false) as ->.
  { apply bool_decide_eq_false. rewrite <- Hst. by destruct (r_status x). }
  assert (∀ f, update_exec id (λ y, bool_decide (r_status y ∈ expected_statuses (cp_status c))
                && holds_lease now token y) f d = (d, Ok false)) as Hup.
  { intros f. unfold update_exec. rewrite Hx. rewrite bool_decide_false; [done|].
    intros Hin. apply expected_statuses_leased in Hin. by destruct (r_status x). }
  unfold mbind, se_bind. destruct (bool_decide (cp_status c = SUCCEEDED)) eqn:Es.
  - unfold se_lift. rewrite Hres. cbn. rewrite Hup. cbn [negb].
    rewrite bool_decide_true by done. rewrite Hre, Her. by destruct (r_status x).
  - subst res. cbn. rewrite Hup. cbn [negb].
    rewrite bool_decide_true by done. rewrite Hre, Her. by destruct (r_status x).
Qed.

(** After an accepted completion with a final status the row is one that
    answers the same completion again. *)
Lemma complete_settles `{CodecEnv} cfg now id aid token c d d' row :
  complete_transaction cfg now id aid token c d = (d', Ok row) →
  is_completion (cp_status c) = true → wf_value (cp_result c) →
  r_status row = cp_status c → cp_status c ≠ RETRYING →
  db_execs d' !! id = Some row ∧ is_terminal (r_status row) = true ∧ r_status row ≠ EXPIRED ∧
  (∃ r, (if bool_decide (cp_status c = SUCCEEDED) then encode_result cfg c = Ok r else r = JNull) ∧
        json_eqb (r_result row) r = true) ∧
  json_eqb (r_error row) (nullable error_asdict (cp_error c)) = true.
Proof.
  intros E Hc Hwf Hrs Hnr.
  apply complete_transaction_ok in E as (x & Hx & res & av & Hres & _ & Hcase).
  destruct Hcase as [(a & Hexp & _ & _ & _ & Hrow & Hd1) | (-> & -> & _ & Ht & Hne & Hr & He)].
  - destruct (bool_decide (cp_status c = SUCCEEDED) && bool_decide (r_status x = CANCEL_REQUESTED))
      eqn:Ecw.
    { apply andb_true_iff in Ecw as [Ecw _]. apply bool_decide_eq_true in Ecw.
      subst row. cbn in Hrs. congruence. }
    rewrite andb_true_r in Hres. split_and!.
    + by rewrite Hd1; cbn; rewrite lookup_insert_eq.
    + rewrite Hrs. by destruct (cp_status c).
    + rewrite Hrs. by destruct (cp_status c).
    + exists res. split; [done|]. subst row. cbn. apply json_eqb_refl.
      case_bool_decide; [|by subst res]. unfold encode_result in Hres.
      apply bind_ok in Hres as (j & Hj & (u & _ & [= <-])%bind_ok). unfold _encode_value in Hj.
      destruct (encode_value "" (cp_result c)) eqn:Ee; [|done]. injection Hj as <-.
      by eapply encode_nice.
    + subst row. cbn. apply json_eqb_refl, error_asdict_nice.
  - split_and!; try done. exists (if bool_decide (cp_status c = SUCCEEDED) then res else JNull).
    split; [|done]. case_bool_decide as Es; [|done]. rewrite bool_decide_false in Hres; [done|].
    intros E0. by rewrite E0 in Ht.
Qed.

(** Completion is idempotent: once a completion with a final status was
    accepted, repeating it, at any later time and after any operations of
    other clients and workers, returns the same execution and changes
    nothing, although the lease is gone. *)
Theorem complete_replay `{CodecEnv} sha256_hex cfg now id aid token c d d' e os now' aid' token' :
  db_inv d → is_completion (cp_status c) = true → wf_value (cp_result c) →
  complete cfg now id aid token c d = (d', Ok e) →
  ex_status e = cp_status c → cp_status c ≠ RETRYING → Forall op_ok os →
  let d2 := run_ops sha256_hex cfg d' os in
  complete cfg now' id aid' token' c d2 = (d2, Ok e).
Proof.
  intros Hd Hc Hwf E Hst Hnr Hos d2.
  assert (db_inv d') as Hd'.
  { pose proof (complete_inv cfg now id aid token c Hc d Hd) as Hi. by rewrite E in Hi. }
  unfold complete in E. apply se_bind_ok in E as (d1 & row & E & Ed).
  apply se_lift_ok in Ed as [E1 Ed]. subst d1.
  assert (r_status row = cp_status c) as Hrs.
  { by apply row_to_execution_fields in Ed as (_ & _ & _ & <- & _). }
  apply complete_settles in E as (Hrow & Ht & Hne & Hr & He); [|done..].
  destruct (run_ops_evolves sha256_hex cfg d' os Hos Hd' id row Hrow) as (y & Hy & Hxy).
  apply rtc_terminal in Hxy as ->; [|done].
  unfold complete, mbind, se_bind.
  rewrite (complete_again cfg now' id aid' token' c d2 row) by (done || by rewrite Hrs).
  unfold se_lift. by rewrite Ed.
Qed.

Lemma complete_replay_witness :
  let d := run_ops str_of_list demo_config empty_db (take 2 demo_history) in
  let c := succeeded (VStr "done") in
  ∃ d' e, complete demo_config 40000000 1 10 20 c d = (d', Ok e) ∧
    complete demo_config 600000000 1 11 21 c d' = (d', Ok e).
Proof.
  intros d c. destruct (complete demo_config 40000000 1 10 20 c d) as [d' [e|]] eqn:E;
    [|vm_compute in E; discriminate].
  exists d', e. split; [done|].
  apply (complete_replay str_of_list demo_config 40000000 1 10 20 c d d' e [] 600000000 11 21);
    [ apply run_ops_inv; [repeat constructor | apply empty_db_inv]
    | reflexivity | exact I | exact E | | discriminate | constructor ].
  vm_compute in E. injection E as _ <-. reflexivity.
Defined.

(** ** Cancellation *)

(** Evaluate the decisions on closed propositions. *)
Ltac decide_closed :=
  repeat match goal with
  | |- context [@bool_decide ?P ?D] =>
      let v := eval vm_compute in (@bool_decide P D) in
      match v with
      | true => change (@bool_decide P D) with true
      | false => change (@bool_decide P D) with false
      end
  end.

(** A cancellation request wins over the worker: while the worker still
    holds its lease on an execution whose cancellation was requested, a
    success or an acknowledgement ends it as CANCELLED without a result,
    releasing the lease and closing the attempt as cancelled; a retry or a
    failure is rejected and changes nothing. *)
Theorem cancel_wins `{CodecEnv} cfg now id aid token c d x a :
  db_execs d !! id = Some x → r_status x = CANCEL_REQUESTED → r_result x = JNull →
  holds_lease now token x = true →
  db_atts d !! aid = Some a → running_attempt id (Some token) a = true →
  is_completion (cp_status c) = true →
  let out := complete cfg now id aid token c d in
  if bool_decide (cp_status c = SUCCEEDED ∨ cp_status c = CANCELLED)
  then ∃ y b, db_execs out.1 !! id = Some y ∧ db_atts out.1 !! aid = Some b ∧
         r_status y = CANCELLED ∧ r_result y = JNull ∧ r_lease_token y = None ∧
         r_finished_at y = Some now ∧ at_status b = A_CANCELLED ∧
         (cp_status c = SUCCEEDED → r_error y = JNull ∧ at_error b = JNull) ∧
         out.2 = _row_to_execution id y
  else out.1 = d ∧ is_ok out.2 = false.
Proof.
  intros Hx Hst Hre Hh Ha Hra Hc out. unfold out, complete, mbind, se_bind, complete_transaction,
    transaction, select_exec. rewrite se_gets_bind, Hx, Hst.
  unfold mbind, se_bind, update_exec, update_att.
  destruct (cp_status c) eqn:Ec; try done; decide_closed; cbn -[after_seconds];
    try (destruct (after_seconds now _); [|done]; cbn); rewrite ?Hx, ?Hst, ?Hh; decide_closed;
    cbn; try done; rewrite Ha, Hra; cbn; rewrite lookup_insert_eq; cbn.
  all: eexists _, _; rewrite !lookup_insert_eq; split_and!; done.
Qed.

Lemma cancel_wins_witness :
  let d := run_ops str_of_list demo_config empty_db
             (take 2 demo_history ++ [OpCancel 3000000 "app" 1 (Some "user")]) in
  ∃ y, db_execs (complete demo_config 40000000 1 10 20 (succeeded VNone) d).1 !! 1%Z = Some y ∧
       r_status y = CANCELLED.
Proof.
  intros d. destruct (db_execs d !! 1%Z) as [x|] eqn:Hx; [|vm_compute in Hx; discriminate].
  destruct (db_atts d !! 10%Z) as [a|] eqn:Ha; [|vm_compute in Ha; discriminate].
  assert (r_status x = CANCEL_REQUESTED ∧ r_result x = JNull ∧ holds_lease 40000000 20 x = true)
    as (H1 & H2 & H3) by (vm_compute in Hx; injection Hx as <-; repeat split; reflexivity).
  assert (running_attempt 1 (Some 20%Z) a = true) as H4
    by (vm_compute in Ha; injection Ha as <-; reflexivity).
  destruct (cancel_wins demo_config 40000000 1 10 20 (succeeded VNone) d x a Hx H1 H2 H3 Ha H4 eq_refl)
    as (y & b & Hy & _ & Hs & _).
  exact (ex_intro _ y (conj Hy Hs)).
Defined.
