(* ===== verification/PgSubmit.v ===== *)
(** * Submission

    What [submit] stores, what it answers when the idempotency key was used
    before, and what any later reader sees of a submission. *)

From stdpp Require Import base option list strings numbers gmap sorting relations.
From Stdlib Require Import ZArith Lia Ascii.
From S2P Require Import Prelude PyFloat Value Texts Codec Execution PgStore PgBackend PgInvariant PgLifecycle PgClaim PgTheorems.

Section Submit.
Context `{CodecEnv} (sha256_hex : list ascii → string) (cfg : backend_config).

Lemma encode_submission_ok r enc :
  _encode_submission sha256_hex cfg r = Ok enc →
  encode_value "" (rq_payload r) = Ok (enc_payload enc) ∧
  encode_value "" (VDict (rq_metadata r)) = Ok (enc_metadata enc).
Proof.
  unfold _encode_submission, _encode_value. destruct (vdict_get _ _); [done|].
  intros (jp & Hp & (jm & Hm & (u1 & _ & (u2 & _ & [= <-])%bind_ok)%bind_ok)%bind_ok)%bind_ok.
  destruct (encode_value "" (rq_payload r)); [|done].
  destruct (encode_value "" (VDict (rq_metadata r))); [|done]. simpl.
  split; congruence.
Qed.

(** The row was submitted with the key of [r]. *)
Definition same_key (r : ExecutionRequest) (x : exec_row) : Prop :=
  s_namespace (r_sub x) = rq_namespace r ∧ s_task_name (r_sub x) = rq_task_name r ∧
  s_idempotency_key (r_sub x) = rq_idempotency_key r ∧ is_Some (rq_idempotency_key r).

Lemma same_key_idempotency r x y : same_key r x → same_key r y →
  same_idempotency (r_sub x) (r_sub y) = true.
Proof.
  intros (H1 & H2 & H3 & [k Hk]) (H1' & H2' & H3' & _). unfold same_idempotency.
  rewrite H1, H1', H2, H2', H3, H3', Hk, !bool_decide_true by done. done.
Qed.

Lemma submitted_same_key now av r enc :
  is_Some (rq_idempotency_key r) → same_key r (submitted_row now av r enc).
Proof. done. Qed.

(** No other row was submitted with the key of [r]. *)
Definition unused_key (r : ExecutionRequest) (d : db) : Prop :=
  ∀ i x, db_execs d !! i = Some x → ¬ same_key r x.

Lemma same_idempotency_key r now av enc x :
  same_idempotency (r_sub (submitted_row now av r enc)) (r_sub x) = true → same_key r x.
Proof.
  unfold same_idempotency. rewrite !andb_true_iff, !bool_decide_eq_true. cbn.
  intros [[Hn Ht] Hk]. destruct (rq_idempotency_key r) as [k|] eqn:Er; [|done].
  destruct (s_idempotency_key (r_sub x)) as [k'|] eqn:Ex; [|done].
  apply bool_decide_eq_true in Hk as ->. unfold same_key. rewrite Er, Ex. by repeat split.
Qed.

Lemma submit_insert now id r enc av d :
  _encode_submission sha256_hex cfg r = Ok enc →
  after_seconds now (delay_or_zero (rq_delay_s r)) = Ok av →
  db_execs d !! id = None → unused_key r d →
  let x := submitted_row now av r enc in
  submit sha256_hex cfg now id r d
  = (with_execs <[id := x]> d, e ← _row_to_execution id x; Ok (Some e)).
Proof.
  intros He Ha Hid Hun x. unfold submit, mbind, se_bind, se_lift. rewrite He. unfold _submit.
  unfold transaction, mbind, se_bind, se_lift, lift_exn. rewrite Ha. unfold insert_exec.
  rewrite Hid. destruct (exists_exec _ d) eqn:Hex.
  { exfalso. apply existsb_exists in Hex as ([i y] & Hi & Hy).
    apply list_elem_of_In, elem_of_map_to_list in Hi. apply same_idempotency_key in Hy.
    by eapply Hun. }
  unfold _get, select_exec. rewrite se_gets_bind. cbn [with_execs db_execs].
  rewrite lookup_insert_eq, bool_decide_true by done. unfold mbind, se_bind, se_lift. subst x.
  cbn. by destruct (_row_to_execution id _).
Qed.

Lemma find_by_key_same r d j x k :
  db_inv d → rq_idempotency_key r = Some k → db_execs d !! j = Some x → same_key r x →
  find_by_key (rq_namespace r) (rq_task_name r) k d = Some (j, x).
Proof.
  intros Hd Hk Hj Hs. unfold find_by_key.
  destruct (List.find _ _) as [[i y]|] eqn:E.
  - apply find_some in E as [Hin Hy]. apply list_elem_of_In, elem_of_map_to_list in Hin.
    rewrite !andb_true_iff, !bool_decide_eq_true in Hy. destruct Hy as [[H1 H2] H3].
    assert (i = j) as ->.
    { eapply (inv_key_unique d Hd i j y x Hin Hj). apply (same_key_idempotency r); [|done].
      unfold same_key. rewrite Hk. cbn in *. by rewrite H1, H2, H3. }
    congruence.
  - exfalso. pose proof (find_none _ _ E (j, x)) as Hn. destruct Hs as (H1 & H2 & H3 & _).
    cbn in Hn. rewrite H1, H2, H3, Hk, !bool_decide_true in Hn by done.
    by discriminate Hn; apply list_elem_of_In, elem_of_map_to_list.
Qed.

(** A key that was used before: nothing is written. *)
Lemma submit_used now id r enc av d j x :
  db_inv d → _encode_submission sha256_hex cfg r = Ok enc →
  after_seconds now (delay_or_zero (rq_delay_s r)) = Ok av →
  db_execs d !! j = Some x → same_key r x →
  submit sha256_hex cfg now id r d
  = (d, if bool_decide (s_submission_digest (r_sub x) = Some (enc_digest enc))
        then e ← _row_to_execution j x; Ok (Some e)
        else Err (ExecutionConflict
                    "idempotency key was already used with a different submission")).
Proof.
  intros Hd He Ha Hj Hs. pose proof Hs as (_ & _ & _ & [k Hk]).
  unfold submit, mbind, se_bind, se_lift. rewrite He. unfold _submit.
  unfold transaction, mbind, se_bind, se_lift, lift_exn. rewrite Ha.
  assert (insert_exec id (submitted_row now av r enc) d = (d, Err IntegrityError)) as ->.
  { unfold insert_exec. destruct (db_execs d !! id); [done|].
    destruct (exists_exec _ d) eqn:Hex; [done|]. exfalso.
    pose proof (exists_exec_false _ _ Hex j x Hj) as Hf. cbn beta in Hf.
    rewrite (same_key_idempotency r) in Hf by (by apply submitted_same_key || done). done. }
  cbn [is_integrity_error IntegrityError exn_type_name negb].
  replace (negb (is_integrity_error IntegrityError)) with false by reflexivity.
  rewrite Hk, (find_by_key_same r d j x k) by done.
  by case_bool_decide.
Qed.

(** The row behind the answer of [submit]: the new one, or the one that used
    the key. *)
Lemma submit_stored now id r enc d d' e :
  is_Some (rq_idempotency_key r) → _encode_submission sha256_hex cfg r = Ok enc →
  submit sha256_hex cfg now id r d = (d', Ok (Some e)) →
  ∃ x, db_execs d' !! ex_id e = Some x ∧ same_key r x ∧
       s_submission_digest (r_sub x) = Some (enc_digest enc) ∧
       _row_to_execution (ex_id e) x = Ok e.
Proof.
  intros Hk He. unfold submit, mbind, se_bind, se_lift. rewrite He. unfold _submit.
  match goal with |- context [transaction ?m d] => set (ins := m) end.
  destruct (transaction ins d) as [d1 [[]|er]] eqn:E.
  - apply transaction_ok in E. unfold ins in E. apply se_bind_ok in E as (d2 & av & Hav & E).
    apply se_lift_ok in Hav as [-> _]. unfold insert_exec in E.
    destruct (db_execs d !! id); [done|]. destruct (exists_exec _ d); [done|].
    injection E as <-. unfold _get, select_exec. rewrite se_gets_bind. cbn [with_execs db_execs].
    rewrite lookup_insert_eq, bool_decide_true by done. unfold mbind, se_bind, se_lift.
    destruct (_row_to_execution id _) eqn:Er; [|done]. intros [= <- <-].
    destruct (row_to_execution_fields _ _ _ Er) as (-> & _). eexists. cbn.
    rewrite lookup_insert_eq. split_and!; [done | by apply submitted_same_key | | done].
    cbn. by destruct Hk as [k ->].
  - destruct (negb _); [done|]. destruct Hk as [k Hk]. rewrite Hk.
    destruct (find_by_key _ _ _ _) as [[j x]|] eqn:Ef; [|done].
    case_bool_decide as Hdig; [|done]. destruct (_row_to_execution j x) eqn:Er; [|done].
    intros [= <- <-]. destruct (row_to_execution_fields _ _ _ Er) as (-> & _). exists x.
    apply find_some in Ef as [Hin Hy]. apply list_elem_of_In, elem_of_map_to_list in Hin.
    rewrite !andb_true_iff, !bool_decide_eq_true in Hy. destruct Hy as [[H1 H2] H3].
    split_and!; try done. cbn in *. unfold same_key. rewrite Hk. by repeat split.
Qed.
End Submit.

(** C32. An idempotency key names one submission: after a submission with a key
    was accepted, another one with the same namespace, task name and key, by
    any client, at any later time and whatever happened since, writes nothing;
    it returns the execution of the first, as it is now, when the two
    submissions have the same digest, and raises [ExecutionConflict]
    otherwise. *)
Theorem submit_idempotent `{CodecEnv} sha256_hex cfg now id r enc d d' e os now' id' r' enc' av :
  db_inv d → is_Some (rq_idempotency_key r) →
  _encode_submission sha256_hex cfg r = Ok enc →
  submit sha256_hex cfg now id r d = (d', Ok (Some e)) → Forall op_ok os →
  rq_namespace r' = rq_namespace r → rq_task_name r' = rq_task_name r →
  rq_idempotency_key r' = rq_idempotency_key r →
  _encode_submission sha256_hex cfg r' = Ok enc' →
  after_seconds now' (delay_or_zero (rq_delay_s r')) = Ok av →
  let d2 := run_ops sha256_hex cfg d' os in
  ∃ x, db_execs d2 !! ex_id e = Some x ∧
    submit sha256_hex cfg now' id' r' d2
    = (d2, if bool_decide (enc_digest enc' = enc_digest enc)
           then e' ← _row_to_execution (ex_id e) x; Ok (Some e')
           else Err (ExecutionConflict
                       "idempotency key was already used with a different submission")).
Proof.
  intros Hd Hk He E Hos Hn Ht Hkey He' Hav d2.
  assert (db_inv d') as Hd'.
  { pose proof (submit_inv sha256_hex cfg now id r d Hd) as Hi. by rewrite E in Hi. }
  destruct (submit_stored _ _ _ _ _ _ _ _ _ Hk He E) as (x & Hx & Hs & Hdig & _).
  destruct (run_ops_evolves sha256_hex cfg d' os Hos Hd' _ x Hx) as (y & Hy & Hxy).
  apply row_steps_sub in Hxy. exists y. split; [done|].
  rewrite (submit_used sha256_hex cfg now' id' r' enc' av d2 (ex_id e) y);
    [ | by apply run_ops_inv | done | done | done | ].
  - rewrite Hxy, Hdig. f_equal.
    destruct (decide (enc_digest enc' = enc_digest enc)) as [->|Hne].
    + by rewrite !bool_decide_true.
    + by rewrite !bool_decide_false by congruence.
  - unfold same_key in *. by rewrite Hxy, Hn, Ht, Hkey.
Qed.

Lemma submit_idempotent_witness :
  let d := run_ops str_of_list demo_config empty_db demo_history in
  ∃ x, db_execs d !! 1%Z = Some x ∧
    (submit str_of_list demo_config 50000000 2 demo_request d).2
    = (e ← _row_to_execution 1 x; Ok (Some e)).
Proof.
  intros d.
  destruct (submit str_of_list demo_config 1000000 1 demo_request empty_db) as [d' r] eqn:E.
  destruct r as [[e|]|]; try (vm_compute in E; discriminate).
  assert (ex_id e = 1%Z) as Hid by (vm_compute in E; injection E as _ <-; reflexivity).
  destruct (_encode_submission str_of_list demo_config demo_request) as [enc|] eqn:He;
    [|vm_compute in He; discriminate].
  destruct (submit_idempotent str_of_list demo_config 1000000 1 demo_request enc empty_db d' e
    (drop 1 demo_history) 50000000 2 demo_request enc 50000000) as (x & Hx & Hs);
    [ apply empty_db_inv | by eexists | exact He | exact E | repeat constructor
    | reflexivity | reflexivity | reflexivity | exact He | reflexivity |].
  assert (d = run_ops str_of_list demo_config d' (drop 1 demo_history)) as Hd.
  { unfold d, run_ops. cbn [demo_history foldl drop run_op]. rewrite E. reflexivity. }
  rewrite <- Hd, Hid in Hx, Hs. exists x. split; [exact Hx|]. rewrite Hs.
  rewrite bool_decide_true by reflexivity. reflexivity.
Defined.

(** A new submission is stored as given: the execution it returns is
    queued, has no attempts, result or error, and its payload and metadata
    equal those of the request; whatever happens later, every reader of the
    row gets that same payload and metadata. *)
Theorem submit_fresh `{CodecEnv} `{!PyEqLaws} sha256_hex cfg now id r enc av d :
  replayable (rq_payload r) → replayable (VDict (rq_metadata r)) →
  _encode_submission sha256_hex cfg r = Ok enc →
  after_seconds now (delay_or_zero (rq_delay_s r)) = Ok av →
  db_inv d → db_execs d !! id = None → unused_key r d →
  ∃ d' e, submit sha256_hex cfg now id r d = (d', Ok (Some e)) ∧
    ex_id e = id ∧ ex_namespace e = rq_namespace r ∧ ex_task_name e = rq_task_name r ∧
    ex_status e = QUEUED ∧ ex_attempts e = 0%Z ∧ ex_result e = VNone ∧
    ex_error e = None ∧ ex_available_at e = av ∧
    veq (rq_payload r) (ex_payload e) ∧ veq (VDict (rq_metadata r)) (ex_metadata e) ∧
    ∀ os, Forall op_ok os → ∃ y, db_execs (run_ops sha256_hex cfg d' os) !! id = Some y ∧
      ∀ e', _row_to_execution id y = Ok e' →
            ex_payload e' = ex_payload e ∧ ex_metadata e' = ex_metadata e.
Proof.
  intros Hp Hm He Ha Hd Hid Hun.
  pose proof (submit_insert sha256_hex cfg now id r enc av d He Ha Hid Hun) as E.
  cbv zeta in E.
  destruct (encode_submission_ok _ _ _ _ He) as [Ep Em].
  destruct (encode_round_trips _ "" _ Hp Ep "") as (vp & Hvp & Hp').
  destruct (encode_round_trips _ "" _ Hm Em "") as (vm & Hvm & Hm').
  set (x := submitted_row now av r enc) in *.
  destruct (_row_to_execution id x) as [e|] eqn:Er.
  2: { unfold _row_to_execution, row_execution in Er. cbn in Er. by rewrite Hvp, Hvm in Er. }
  exists (with_execs <[id := x]> d), e. split; [exact E|].
  pose proof Er as Ef.
  apply row_to_execution_fields in Ef as (? & ? & ? & ? & ? & ? & ? & ? & Hdp & Hdm & Hdr).
  cbn in Hdp, Hdm, Hdr. rewrite Hvp in Hdp. rewrite Hvm in Hdm.
  injection Hdp as <-. injection Hdm as <-. injection Hdr as <-.
  split_and!; try done.
  { unfold _row_to_execution, row_execution in Er. cbn in Er. rewrite Hvp, Hvm in Er.
    by injection Er as <-. }
  intros os Hos.
  assert (db_inv (with_execs <[id := x]> d)) as Hd'.
  { pose proof (submit_inv sha256_hex cfg now id r d Hd) as Hi. by rewrite E in Hi. }
  destruct (run_ops_evolves sha256_hex cfg _ os Hos Hd' id x) as (y & Hy & Hxy);
    [by cbn; rewrite lookup_insert_eq|].
  exists y. split; [done|]. intros e' Hr. apply row_steps_sub in Hxy.
  apply row_to_execution_fields in Hr as (_ & _ & _ & _ & _ & _ & _ & _ & Hq1 & Hq2 & _).
  rewrite Hxy in Hq1, Hq2. cbn in Hq1, Hq2. rewrite Hvp in Hq1. rewrite Hvm in Hq2.
  split; congruence.
Qed.

Lemma submit_fresh_witness :
  ∃ d' e, submit str_of_list demo_config 1000000 1 demo_request empty_db = (d', Ok (Some e)) ∧
    ex_status e = QUEUED ∧ veq demo_value (ex_payload e).
Proof.
  destruct (_encode_submission str_of_list demo_config demo_request) as [enc|] eqn:He;
    [|vm_compute in He; discriminate].
  destruct (submit_fresh str_of_list demo_config 1000000 1 demo_request enc 1000000 empty_db)
    as (d' & e & E & _ & _ & _ & Hs & _ & _ & _ & _ & Hv & _);
    [ exact demo_value_replayable | | exact He | reflexivity | apply empty_db_inv | reflexivity
    | by intros i x Hx |].
  - cbn. repeat split; repeat constructor; by intros ?%elem_of_nil.
  - exists d', e. exact (conj E (conj Hs Hv)).
Defined.

(** ** Claims at concrete tables *)

(** A submission to be started by a given time. *)
Definition request_expiring (t : Z) : ExecutionRequest :=
  {| rq_namespace := "app"; rq_task_name := "report"; rq_payload := VInt 1;
     rq_idempotency_key := None; rq_metadata := []; rq_delay_s := None; rq_expires_at := Some (PyDatetime t None false) |}.

Definition demo_uuids (k : nat) : Z * Z := ((100 + Z.of_nat k)%Z, (200 + Z.of_nat k)%Z).

Definition demo_claim (now : Z) (d : db) :=
  claim demo_config now ∅ demo_uuids "app" ["report"] 4 (seconds 90) "worker" d.

Lemma claim_exclusive_witness :
  let d := run_ops str_of_list demo_config empty_db
             [OpSubmit 1000000 1 demo_request; OpSubmit 1500000 2 (request_expiring 100000000)] in
  let out := demo_claim 2000000 d in
  match out.2 with
  | Ok ls => length ls = 2%nat ∧ NoDup (map (λ l, ex_id (le_execution l)) ls)
  | Err _ => False
  end.
Proof.
  intros d out. destruct out as [d' r] eqn:E. unfold out, demo_claim in E.
  assert (db_inv d) as Hd by (apply run_ops_inv; [repeat constructor | apply empty_db_inv]).
  destruct r as [ls|]; [|vm_compute in E; discriminate].
  pose proof (claim_exclusive demo_config 2000000 ∅ demo_uuids "app" ["report"] 4 (seconds 90)
    "worker" d d' ls Hd E) as (_ & Hn & _).
  split; [|exact Hn]. vm_compute in E. injection E as _ <-. reflexivity.
Defined.

Lemma claim_fair_witness :
  let d := run_ops str_of_list demo_config empty_db
             [OpSubmit 1000000 1 demo_request; OpSubmit 1500000 2 (request_expiring 100000000);
              OpSubmit 1600000 3 (request_expiring 100000000)] in
  let out := claim demo_config 2000000 ∅ demo_uuids "app" ["report"] 2 (seconds 90) "worker" d in
  match out.2 with
  | Ok ls => ∀ l, l ∈ ls → lex_leb [ex_available_at (le_execution l); ex_created_at (le_execution l);
                                     ex_id (le_execution l)] [1600000; 1600000; 3]%Z = true
  | Err _ => False
  end.
Proof.
  intros d out. destruct out as [d' r] eqn:E. unfold out in E.
  assert (db_inv d) as Hd by (apply run_ops_inv; [repeat constructor | apply empty_db_inv]).
  destruct r as [ls|]; [|vm_compute in E; discriminate].
  destruct (claim_fair demo_config 2000000 ∅ demo_uuids "app" ["report"] 2 (seconds 90)
    "worker" d d' ls Hd E) as [_ Hf].
  destruct (db_execs (after_reclaim demo_config 2000000 d) !! 3%Z) as [x|] eqn:Hx;
    [|vm_compute in Hx; discriminate].
  assert (claim_key 3 x = [1600000; 1600000; 3]%Z ∧
          claimable (after_reclaim demo_config 2000000 d) 2000000 "app" ["report"] 3 x = true)
    as [Hk Hc] by (vm_compute in Hx; injection Hx as <-; split; vm_compute; reflexivity).
  cbn [snd]. rewrite <- Hk.
  destruct (Hf 3%Z x Hx Hc) as [Hin|[_ Hl]]; [apply not_elem_of_empty | | exact Hl].
  exfalso. apply list_elem_of_In in Hin. vm_compute in E. injection E as _ <-.
  destruct Hin as [Hi|[Hi|[]]]; discriminate Hi.
Defined.

(** ** Rows a worker cannot decode *)

(** [claim] decodes the rows it leases inside its transaction, so one
    execution whose payload this worker cannot decode blocks the claim of
    every other execution selected with it: the call raises and rolls back,
    also undoing the expiry and reclaim steps. *)
Theorem undecodable_row_blocks_claim `{CodecEnv} cfg now locked us ns names n lease worker d id x er :
  db_inv d →
  (id, x) ∈ claim_rows now locked ns names n (after_reclaim cfg now d) →
  decode_value "" (s_payload (r_sub x)) = Err er →
  ∃ e, claim cfg now locked us ns names n lease worker d = (d, Err e).
Proof.
  intros Hd Hin Her.
  destruct (claim cfg now locked us ns names n lease worker d) as [d' [ls|e]] eqn:E.
  - exfalso. destruct (claim_cases _ _ _ _ _ _ _ _ _ _ _ _ Hd E) as (_ & expires & _ & Hls & _).
    rewrite <- (with_uuids_rows us) in Hin.
    apply list_elem_of_fmap in Hin as ([[aid token] [id' x']] & [= <- <-] & Hin).
    apply (Forall2_elem_l _ _ _ _ Hls) in Hin as (l & _ & _ & _ & Hrow & _).
    apply row_to_execution_fields in Hrow as (_ & _ & _ & _ & _ & _ & _ & _ & Hp & _).
    cbn in Hp. congruence.
  - exists e. f_equal. unfold claim, mbind, se_bind, se_lift in E.
    destruct (lift_exn _); [|by injection E]. unfold transaction in E.
    match type of E with (match ?m with _ => _ end) = _ => destruct m as [? [?|?]] end;
      [done | by injection E].
Qed.

(** A worker that has not imported the module of the payload's classes. *)
Definition bare_env : CodecEnv := {|
  module_loaded _ := false;
  loaded_object _ _ := None;
  py_eq v w := (value_hash v =? value_hash w)%Z;
  subclass_text _ := None; decimal_of_string _ := None;
  float_repr _ := "0.5";
|}.

Lemma undecodable_row_blocks_claim_witness :
  let d := run_ops str_of_list demo_config empty_db
             [OpSubmit 1000000 1 demo_request; OpSubmit 1500000 2 (request_expiring 100000000)] in
  ∃ e, claim (H:=bare_env) demo_config 2000000 ∅ demo_uuids "app" ["report"] 4 (seconds 90) "worker" d
       = (d, Err e).
Proof.
  intros d.
  assert (db_inv d) as Hd by (apply run_ops_inv; [repeat constructor | apply empty_db_inv]).
  destruct (claim_rows 2000000 ∅ "app" ["report"] 4 (after_reclaim demo_config 2000000 d))
    as [|[id x] rows] eqn:E; [vm_compute in E; discriminate|].
  destruct (decode_value (H:=bare_env) "" (s_payload (r_sub x))) as [v|er] eqn:Er;
    [vm_compute in E; injection E as _ <- _; vm_compute in Er; discriminate|].
  apply (undecodable_row_blocks_claim (H:=bare_env) demo_config 2000000 ∅ demo_uuids "app"
           ["report"] 4 (seconds 90) "worker" d id x er Hd); [|exact Er].
  rewrite E. left.
Defined.
