(* ===== verification/PgList.v ===== *)
(** * Listing executions

    [PostgresExecutionBackend._list]: keyset pagination, newest first, and
    what a client gets that follows the cursors while other transactions
    run. *)

From stdpp Require Import base option list strings numbers gmap sorting relations.
From Stdlib Require Import ZArith Lia Ascii.
From S2P Require Import Prelude PyFloat Value Calendar Texts Codec Execution PgStore PgCursor PgBackend PgInvariant PgLifecycle PgClaim PgTheorems PgSubmit.

(** ** The operation *)

(** [ORDER BY created_at DESC, id DESC]. *)
Definition list_key (id : Z) (x : exec_row) : list Z := [- s_created_at (r_sub x); - id]%Z.

(** [created_at < c OR (created_at = c AND id < i)]. *)
Definition before_cursor (c : option (Z * Z)) (created_at id : Z) : bool :=
  match c with
  | None => true
  | Some (t, i) => (created_at <? t)%Z || ((created_at =? t)%Z && (id <? i)%Z)
  end.

Definition listed (q : ExecutionQuery) (c : option (Z * Z)) (id : Z) (x : exec_row) : bool :=
  bool_decide (s_namespace (r_sub x) = q_namespace q)
  && match q_task_name q with
     | Some n => bool_decide (s_task_name (r_sub x) = n)
     | None => true
     end
  && match q_status q with
     | Some s => bool_decide (r_status x = s)
     | None => true
     end
  && before_cursor c (s_created_at (r_sub x)) id.

Section List.
Context `{CodecEnv}.

Definition read_cursor (q : ExecutionQuery) : result exn (option (Z * Z)) :=
  match q_cursor q with
  | None => Ok None
  | Some s => p ← _decode_cursor s; Ok (Some p)
  end.

Definition next_cursor (limit : Z) (rows : list (Z * exec_row)) (items : list Execution)
    : option string :=
  if (limit <? Z.of_nat (length rows))%Z
  then match last items with
       | Some e => Some (_encode_cursor (ex_created_at e) (ex_id e))
       | None => None
       end
  else None.

Definition _list (q : ExecutionQuery) : T ExecutionPage :=
  c ← se_lift (lift_exn (read_cursor q));
  rows ← se_gets (λ d, limit_rows (q_limit q + 1) (select_ordered list_key (listed q c) d));
  items ← se_lift (mapR (λ ix : Z * exec_row, _row_to_execution ix.1 ix.2)
                     (limit_rows (q_limit q) rows));
  mret {| page_items := items; page_next_cursor := next_cursor (q_limit q) rows items |}.
End List.

(** ** Following the cursors *)

Definition with_cursor (q : ExecutionQuery) (c : option string) : ExecutionQuery :=
  {| q_namespace := q_namespace q; q_task_name := q_task_name q; q_status := q_status q;
     q_limit := q_limit q; q_cursor := c |}.

(** The executions a client collects page by page, with any operations of
    others between two pages. *)
Inductive listing `{CodecEnv} (sha256_hex : list ascii → string) (cfg : backend_config)
    (q : ExecutionQuery) : option string → db → list Execution → Prop :=
| listing_last c d page :
    _list (with_cursor q c) d = (d, Ok page) → page_next_cursor page = None →
    listing sha256_hex cfg q c d (page_items page)
| listing_more c d page c' os rest :
    _list (with_cursor q c) d = (d, Ok page) → page_next_cursor page = Some c' →
    Forall op_ok os →
    listing sha256_hex cfg q (Some c') (run_ops sha256_hex cfg d os) rest →
    listing sha256_hex cfg q c d (page_items page ++ rest).

(** The values of a timestamp and a UUID column. *)
Definition column_range (e : Execution) : Prop :=
  (1 ≤ year_of (ex_created_at e) ≤ 9999)%Z ∧ (0 ≤ ex_id e < 2 ^ 128)%Z.

(** Newest first. *)
Definition newer (e1 e2 : Execution) : Prop :=
  before_cursor (Some (ex_created_at e1, ex_id e1)) (ex_created_at e2) (ex_id e2) = true.

Definition row_newer (p1 p2 : Z * exec_row) : Prop :=
  before_cursor (Some (s_created_at (r_sub p1.2), p1.1)) (s_created_at (r_sub p2.2)) p2.1 = true.

Lemma before_cursor_true t i t' i' :
  before_cursor (Some (t, i)) t' i' = true ↔ (t' < t)%Z ∨ t' = t ∧ (i' < i)%Z.
Proof. cbn. rewrite orb_true_iff, andb_true_iff, Z.ltb_lt, Z.eqb_eq, Z.ltb_lt. done. Qed.

Lemma before_cursor_trans c t i t' i' :
  before_cursor c t i = true → before_cursor (Some (t, i)) t' i' = true →
  before_cursor c t' i' = true.
Proof. destruct c as [[? ?]|]; [|done]. rewrite !before_cursor_true. lia. Qed.

Lemma row_newer_key p1 p2 :
  key_le list_key p1 p2 → p1.1 ≠ p2.1 → row_newer p1 p2.
Proof.
  unfold key_le, list_key, row_newer. rewrite before_cursor_true, !lex_leb_cons. lia.
Qed.

Lemma strongly_sorted_newer l :
  NoDup l.*1 → StronglySorted (key_le list_key) l → StronglySorted row_newer l.
Proof.
  intros Hn Hs. induction Hs as [|p l Hs IH Hall]; [constructor|].
  cbn in Hn. apply NoDup_cons in Hn as [Hni Hn]. constructor; [by apply IH|].
  rewrite Forall_forall in *. intros p' Hp'. apply row_newer_key; [by apply Hall|].
  intros E. apply Hni. rewrite E. apply list_elem_of_fmap. by exists p'.
Qed.

Section Pages.
Context `{CodecEnv}.

(** The rows behind a page. *)
Lemma list_cases q d d' page :
  _list q d = (d', Ok page) →
  d' = d ∧ ∃ c, read_cursor q = Ok c ∧
  let rows := select_ordered list_key (listed q c) d in
  Forall2 (λ ix e, _row_to_execution ix.1 ix.2 = Ok e) (limit_rows (q_limit q) rows)
    (page_items page) ∧
  page_next_cursor page
  = next_cursor (q_limit q) (limit_rows (q_limit q + 1) rows) (page_items page).
Proof.
  unfold _list. intros (d1 & c & (-> & Hc)%se_lift_ok & E)%se_bind_ok.
  rewrite se_gets_bind in E. apply se_bind_ok in E as (d2 & items & (-> & Hi)%se_lift_ok & E).
  injection E as <- <-. split; [done|]. exists c. cbn.
  split; [by unfold lift_exn in Hc; destruct (read_cursor q); simplify_eq/=|].
  apply mapR_ok_Forall2 in Hi. split; [|done]. unfold limit_rows in Hi.
  rewrite take_take, Nat.min_l in Hi by lia. done.
Qed.

(** A page: the rows of the table it shows, in order, and where the rest
    starts. *)
Definition page_of (q : ExecutionQuery) (c : option (Z * Z)) (d : db) (page : ExecutionPage) : Prop :=
  (∀ e, e ∈ page_items page → ∃ x, db_execs d !! ex_id e = Some x ∧
     _row_to_execution (ex_id e) x = Ok e ∧ listed q c (ex_id e) x = true) ∧
  StronglySorted newer (page_items page) ∧
  ∀ id x, db_execs d !! id = Some x → listed q c id x = true →
    id ∈ map ex_id (page_items page) ∨
    ∃ e, last (page_items page) = Some e ∧
         page_next_cursor page = Some (_encode_cursor (ex_created_at e) (ex_id e)) ∧
         before_cursor (Some (ex_created_at e, ex_id e)) (s_created_at (r_sub x)) id = true.

(** The next cursor is the position of the last item. *)
Definition cursor_of (page : ExecutionPage) : Prop :=
  ∀ s, page_next_cursor page = Some s →
  ∃ e, last (page_items page) = Some e ∧ s = _encode_cursor (ex_created_at e) (ex_id e).

(** Rows and the executions decoded from them. *)
Definition decodes_rows (rows : list (Z * exec_row)) (items : list Execution) : Prop :=
  Forall2 (λ ix e, _row_to_execution ix.1 ix.2 = Ok e) rows items.

Lemma decodes_newer p1 p2 e1 e2 :
  _row_to_execution p1.1 p1.2 = Ok e1 → _row_to_execution p2.1 p2.2 = Ok e2 →
  row_newer p1 p2 → newer e1 e2.
Proof.
  intros (H1 & _ & _ & _ & _ & _ & C1 & _)%row_to_execution_fields
    (H2 & _ & _ & _ & _ & _ & C2 & _)%row_to_execution_fields.
  unfold newer, row_newer. by rewrite H1, H2, C1, C2.
Qed.

Lemma decodes_sorted rows items :
  decodes_rows rows items → StronglySorted row_newer rows → StronglySorted newer items.
Proof.
  intros Hd. induction Hd as [|p e rows items Hp Hd IH]; [constructor|].
  intros [Hs Hall]%StronglySorted_inv. constructor; [by apply IH|].
  rewrite Forall_forall in Hall. apply Forall_forall. intros e' He'.
  apply (Forall2_elem_r _ _ _ _ Hd) in He' as (p' & Hp' & Hr).
  eapply decodes_newer; [exact Hp | exact Hr | by apply Hall].
Qed.

Lemma decodes_last rows items p :
  decodes_rows rows items → last rows = Some p →
  ∃ e, last items = Some e ∧ _row_to_execution p.1 p.2 = Ok e.
Proof.
  intros Hd (rows' & ->)%last_Some. apply Forall2_app_inv_l in Hd as (l1 & l2 & _ & Hl & ->).
  apply Forall2_cons_inv_l in Hl as (e & l & Hp & Hnil & ->). apply Forall2_nil_inv_l in Hnil as ->.
  exists e. by rewrite last_snoc.
Qed.

Lemma list_page q d d' page :
  (0 < q_limit q)%Z → _list q d = (d', Ok page) →
  d' = d ∧ cursor_of page ∧ ∃ c, read_cursor q = Ok c ∧ page_of q c d page.
Proof.
  intros Hl E. apply list_cases in E as (-> & c & Hc & Hitems & Hnext).
  split; [done|]. split.
  { intros s Hs. rewrite Hnext in Hs. unfold next_cursor in Hs. destruct (_ <? _)%Z; [|done].
    destruct (last _) as [e|]; [|done]. injection Hs as <-. by exists e. }
  exists c. split; [done|]. cbn zeta in *. unfold limit_rows in Hitems, Hnext.
  set (rows := select_ordered list_key (listed q c) d) in *. fold (decodes_rows) in *.
  assert (StronglySorted row_newer rows) as Hsort
    by (apply strongly_sorted_newer; [apply select_NoDup | apply select_sorted]).
  pose proof Hsort as Hsplit. rewrite <- (take_drop (Z.to_nat (q_limit q)) rows) in Hsplit.
  apply StronglySorted_app in Hsplit as (Hcross & Htake & _).
  split; [|split].
  - intros e He. apply (Forall2_elem_r _ _ _ _ Hitems) in He as ([id x] & Hin & Hr).
    apply (limit_rows_sub (q_limit q)), elem_of_select in Hin as [Hx Hp].
    destruct (row_to_execution_fields _ _ _ Hr) as (-> & _). by exists x.
  - by eapply decodes_sorted.
  - intros id x Hx Hp.
    assert ((id, x) ∈ rows) as Hin by (by apply elem_of_select).
    rewrite <- (take_drop (Z.to_nat (q_limit q)) rows) in Hin. apply elem_of_app in Hin as [Hin|Hin].
    + left. apply (Forall2_elem_l _ _ _ _ Hitems) in Hin as (e & He & Hr).
      cbn in Hr. destruct (row_to_execution_fields _ _ _ Hr) as (<- & _). by apply list_elem_of_fmap_2.
    + right. assert (Z.to_nat (q_limit q) < length rows)%nat as Hlen.
      { destruct (decide (Z.to_nat (q_limit q) < length rows)%nat); [done|].
        rewrite drop_ge in Hin by lia. by apply elem_of_nil in Hin. }
      destruct (last (take (Z.to_nat (q_limit q)) rows)) as [p|] eqn:El.
      2: { apply last_None in El. apply (f_equal length) in El. rewrite length_take in El.
           cbn in El. lia. }
      destruct (decodes_last _ _ _ Hitems El) as (e & He & Hr). exists e. split; [done|].
      split.
      * rewrite Hnext. unfold next_cursor. rewrite length_take, (proj2 (Z.ltb_lt _ _)) by lia.
        by rewrite He.
      * destruct (row_to_execution_fields _ _ _ Hr) as (-> & _ & _ & _ & _ & _ & -> & _).
        apply (Hcross p (id, x)); [|done]. apply last_Some in El as [l ->].
        apply elem_of_app; right; by left.
Qed.
End Pages.

(** ** Following the cursors *)

Section Following.
Context `{CodecEnv} (sha256_hex : list ascii → string) (cfg : backend_config).

(** The cursor of [_encode_cursor] reads back as its position. *)
Lemma read_with_cursor q e :
  column_range e →
  read_cursor (with_cursor q (Some (_encode_cursor (ex_created_at e) (ex_id e))))
  = Ok (Some (ex_created_at e, ex_id e)).
Proof. intros [Hy Hid]. unfold read_cursor. cbn. by rewrite cursor_round_trip. Qed.

Lemma listed_before q c id x :
  listed q c id x = listed q None id x && before_cursor c (s_created_at (r_sub x)) id.
Proof. unfold listed. cbn [before_cursor]. by rewrite andb_true_r. Qed.

Lemma listed_with_cursor q s c id x : listed (with_cursor q s) c id x = listed q c id x.
Proof. done. Qed.

(** Without a status filter a listed row stays listed. *)
Lemma listed_step q c id x y :
  q_status q = None → rtc row_step x y → listed q c id y = listed q c id x.
Proof. intros Hs Hxy%row_steps_sub. unfold listed. by rewrite Hs, Hxy. Qed.

(** What the client has collected from cursor [c] of table [d] on. *)
Definition collected (q : ExecutionQuery) (c : option (Z * Z)) (d : db) (items : list Execution) : Prop :=
  StronglySorted newer items ∧ NoDup (map ex_id items) ∧
  (∀ e, e ∈ items → before_cursor c (ex_created_at e) (ex_id e) = true ∧
     ex_namespace e = q_namespace q ∧ (∀ n, q_task_name q = Some n → ex_task_name e = n) ∧
     ∀ x, db_execs d !! ex_id e = Some x → ex_created_at e = s_created_at (r_sub x)) ∧
  ∀ id x, db_execs d !! id = Some x → listed q c id x = true → id ∈ map ex_id items.

Lemma newer_irreflexive l :
  StronglySorted newer l → (∀ e1 e2, e1 ∈ l → e2 ∈ l → ex_id e1 = ex_id e2 →
    ex_created_at e1 = ex_created_at e2) → NoDup (map ex_id l).
Proof.
  induction 1 as [|e l Hs IH Hall]; intros Hc; [constructor|]. cbn. apply NoDup_cons. split.
  - intros (e' & He & He')%list_elem_of_fmap. rewrite Forall_forall in Hall.
    specialize (Hall e' He'). unfold newer in Hall. rewrite before_cursor_true in Hall.
    assert (ex_created_at e = ex_created_at e') by (apply Hc; [by left | by right | done]). lia.
  - apply IH. intros e1 e2 H1 H2. apply Hc; by right.
Qed.

Lemma page_items_facts q c d page e :
  page_of q c d page → e ∈ page_items page →
  before_cursor c (ex_created_at e) (ex_id e) = true ∧ ex_namespace e = q_namespace q ∧
  (∀ n, q_task_name q = Some n → ex_task_name e = n) ∧
  ∃ x, db_execs d !! ex_id e = Some x ∧ ex_created_at e = s_created_at (r_sub x).
Proof.
  intros (Hp & _ & _) He. destruct (Hp e He) as (x & Hx & Hr & Hl).
  destruct (row_to_execution_fields _ _ _ Hr) as (_ & -> & -> & _ & _ & _ & -> & _).
  unfold listed in Hl. rewrite !andb_true_iff, bool_decide_eq_true in Hl.
  destruct Hl as [[[Hn Ht] _] Hc]. split_and!; try done; [|by exists x].
  intros n Hq. rewrite Hq in Ht. by apply bool_decide_eq_true in Ht.
Qed.

Lemma page_nodup q c d page : page_of q c d page → NoDup (map ex_id (page_items page)).
Proof.
  intros Hp. pose proof Hp as (_ & Hs & _). apply newer_irreflexive; [done|]. intros e1 e2 H1 H2 He.
  apply (page_items_facts q c d) in H1 as (_ & _ & _ & x & Hx & ->); [|done].
  apply (page_items_facts q c d) in H2 as (_ & _ & _ & y & Hy & ->); [|done]. congruence.
Qed.

Lemma page_collected q c d page :
  page_of q c d page →
  (∀ id x, db_execs d !! id = Some x → listed q c id x = true → id ∈ map ex_id (page_items page)) →
  collected q c d (page_items page).
Proof.
  intros Hp Hall. pose proof Hp as (_ & Hs & _). split_and!; [done | | | done].
  - by eapply page_nodup.
  - intros e He. apply (page_items_facts q c d) in He as (? & ? & ? & x & Hx & Hc); [|done].
    split_and!; try done. intros y Hy. congruence.
Qed.

(** One page and the rest, the table having evolved in between. *)
Lemma collected_app q c d d' page e rest :
  q_status q = None → page_of q c d page → last (page_items page) = Some e → evolves d d' →
  collected q (Some (ex_created_at e, ex_id e)) d' rest →
  collected q c d (page_items page ++ rest).
Proof.
  intros Hq Hp Hl Hev (Hs & Hn & Hfacts & Hall).
  pose proof Hp as (_ & Hps & Hrest). pose proof Hl as (l & Hl')%last_Some.
  assert (e ∈ page_items page) as He by (rewrite Hl'; apply elem_of_app; right; by left).
  destruct (page_items_facts q c d page e Hp He) as (Hce & _).
  assert (∀ e1 e2, e1 ∈ page_items page → e2 ∈ rest → newer e1 e2) as Hcross.
  { intros e1 e2 H1 H2. destruct (Hfacts e2 H2) as (Hb & _). rewrite Hl' in H1, Hps.
    apply elem_of_app in H1 as [H1| ->%list_elem_of_singleton]; [|done].
    apply StronglySorted_app in Hps as (Hlast & _ & _).
    unfold newer. eapply before_cursor_trans; [|exact Hb]. apply (Hlast e1 e); [done | by left]. }
  assert (∀ e2 x, e2 ∈ rest → db_execs d !! ex_id e2 = Some x →
    ex_created_at e2 = s_created_at (r_sub x)) as Hcr.
  { intros e2 x H2 Hx. destruct (Hev _ x Hx) as (y & Hy & Hxy%row_steps_sub). rewrite <- Hxy.
    destruct (Hfacts e2 H2) as (_ & _ & _ & Hc2). by apply Hc2. }
  split_and!.
  - apply StronglySorted_app. done.
  - rewrite map_app. apply NoDup_app. split_and!; [by eapply page_nodup | | done].
    intros i (e1 & -> & H1)%list_elem_of_fmap (e2 & He2 & H2)%list_elem_of_fmap.
    destruct (page_items_facts q c d page e1 Hp H1) as (_ & _ & _ & x & Hx & Hc1).
    rewrite He2 in Hx. pose proof (Hcr e2 x H2 Hx) as Hc2. pose proof (Hcross e1 e2 H1 H2) as Hne.
    unfold newer in Hne. rewrite before_cursor_true in Hne. lia.
  - intros e1 [H1|H1]%elem_of_app.
    + destruct (page_items_facts q c d page e1 Hp H1) as (? & ? & ? & x & Hx & Hc).
      split_and!; try done. intros y Hy. congruence.
    + destruct (Hfacts e1 H1) as (Hb & Hns & Hta & _). split_and!; [| done | done | by intros x; apply Hcr].
      by eapply before_cursor_trans.
  - intros id x Hx Hlx. rewrite map_app. apply elem_of_app.
    destruct (Hrest id x Hx Hlx) as [Hin|(e' & He' & _ & Hb)]; [by left|]. right.
    rewrite Hl in He'. injection He' as <-.
    destruct (Hev id x Hx) as (y & Hy & Hxy). apply (Hall id y Hy).
    rewrite (listed_step q _ id x y Hq Hxy). rewrite listed_before in Hlx |- *.
    apply andb_true_iff in Hlx as [-> _]. done.
Qed.

Lemma listing_collected q s d items :
  q_status q = None → (0 < q_limit q)%Z → listing sha256_hex cfg q s d items →
  db_inv d → Forall column_range items →
  ∀ c, read_cursor (with_cursor q s) = Ok c → collected q c d items.
Proof.
  intros Hq Hl Hli. induction Hli as [s d page E Hnone | s d page s' os rest E Hs' Hos Hrest IH];
    intros Hd Hr c Hc.
  - apply list_page in E as (_ & _ & c0 & Hc0 & Hp); [|done]. rewrite Hc in Hc0. injection Hc0 as <-.
    apply page_collected; [exact Hp|]. intros id x Hx Hlx. destruct Hp as (_ & _ & Hrest).
    destruct (Hrest id x Hx Hlx) as [?|(e & _ & Hsome & _)]; [done|]. congruence.
  - apply list_page in E as (_ & Hcur & c0 & Hc0 & Hp); [|done]. rewrite Hc in Hc0. injection Hc0 as <-.
    destruct (Hcur s' Hs') as (e & He & ->). apply Forall_app in Hr as [Hr1 Hr2].
    assert (column_range e) as Hre.
    { rewrite Forall_forall in Hr1. apply Hr1. apply last_Some in He as [l ->].
        apply elem_of_app; right; by left. }
    eapply (collected_app q c d); [done | exact Hp | exact He | by apply run_ops_evolves |].
    apply IH; [by apply run_ops_inv | done | by apply read_with_cursor].
Qed.
End Following.

(** Following [next_cursor] from the first page lists every execution of
    the namespace and task that existed at the start exactly once, newest
    first, however many operations other clients and workers run between two
    pages. *)
Theorem pagination_complete `{CodecEnv} sha256_hex cfg q d items :
  q_status q = None → (0 < q_limit q)%Z → db_inv d → Forall column_range items →
  listing sha256_hex cfg q None d items →
  StronglySorted newer items ∧ NoDup (map ex_id items) ∧
  (∀ e, e ∈ items → ex_namespace e = q_namespace q ∧
                    ∀ n, q_task_name q = Some n → ex_task_name e = n) ∧
  ∀ id x, db_execs d !! id = Some x → listed q None id x = true → id ∈ map ex_id items.
Proof.
  intros Hq Hl Hd Hr Hli.
  destruct (listing_collected sha256_hex cfg q None d items Hq Hl Hli Hd Hr None eq_refl)
    as (Hs & Hn & Hf & Hall). split_and!; [done | done | | done].
  intros e He. destruct (Hf e He) as (_ & ? & ? & _). done.
Qed.

(** ** Termination on a quiet table *)

(** The pages read without waiting for anyone. *)
Fixpoint read_pages `{CodecEnv} (fuel : nat) (q : ExecutionQuery) : T (list Execution) :=
  page ← _list q;
  match fuel, page_next_cursor page with
  | _, None => mret (page_items page)
  | O, Some _ => mret (page_items page)
  | S fuel, Some c => rest ← read_pages fuel (with_cursor q (Some c)); mret (page_items page ++ rest)
  end.

Section Quiet.
Context `{CodecEnv}.

Lemma rows_sorted q c d : StronglySorted row_newer (select_ordered list_key (listed q c) d).
Proof. apply strongly_sorted_newer; [apply select_NoDup | apply select_sorted]. Qed.

(** The rows left out by a page are those behind its last one. *)
Lemma elem_of_rest q c d n p i x :
  let rows := select_ordered list_key (listed q c) d in
  last (take n rows) = Some p →
  (i, x) ∈ drop n rows ↔
  db_execs d !! i = Some x ∧ listed q (Some (s_created_at (r_sub p.2), p.1)) i x = true.
Proof.
  intros rows Hlast. pose proof (rows_sorted q c d) as Hs. fold rows in Hs.
  apply last_Some in Hlast as [l Hlast].
  rewrite <- (take_drop n rows), Hlast in Hs.
  assert (∀ p', p' ∈ rows ↔ p' ∈ l ∨ p' = p ∨ p' ∈ drop n rows) as Hrows.
  { intros p'. rewrite <- (take_drop n rows) at 1.
    rewrite Hlast, !elem_of_app, list_elem_of_singleton. tauto. }
  assert (listed q c p.1 p.2 = true) as Hp.
  { assert (p ∈ rows) as Hin by (apply Hrows; auto). destruct p as [j y].
    by apply elem_of_select in Hin as [_ ?]. }
  rewrite listed_before in Hp. apply andb_true_iff in Hp as [_ Hp].
  split.
  - intros Hin. assert ((i, x) ∈ rows) as Hr by (apply Hrows; auto).
    apply elem_of_select in Hr as [Hx Hli]. split; [done|]. rewrite listed_before in Hli |- *.
    apply andb_true_iff in Hli as [-> _]. cbn [andb].
    apply (StronglySorted_app_1_elem_of _ _ _ p (i, x) Hs); [|done].
    apply elem_of_app. right. by left.
  - intros [Hx Hli]. rewrite listed_before, andb_true_iff in Hli. destruct Hli as [Hl0 Hb].
    assert ((i, x) ∈ rows) as Hin.
    { apply elem_of_select. split; [done|]. rewrite listed_before, Hl0. cbn [andb].
      by eapply before_cursor_trans. }
    apply Hrows in Hin as [Hin|[<-|Hin]]; [exfalso | exfalso | done].
    + apply StronglySorted_app_1_l in Hs.
      pose proof (StronglySorted_app_1_elem_of _ _ _ (i, x) p Hs Hin ltac:(by left)) as Hnew.
      unfold row_newer in Hnew. rewrite before_cursor_true in Hnew, Hb. cbn in Hnew. lia.
    + rewrite before_cursor_true in Hb. cbn in Hb. lia.
Qed.

(** After a full page the cursor selects the rows that were left out. *)
Lemma rows_after_page q c d n p :
  let rows := select_ordered list_key (listed q c) d in
  last (take n rows) = Some p →
  select_ordered list_key (listed q (Some (s_created_at (r_sub p.2), p.1))) d = drop n rows.
Proof.
  intros rows Hlast. apply (StronglySorted_unique_strong row_newer).
  - intros x1 x2 _ _. unfold row_newer. rewrite !before_cursor_true. lia.
  - apply rows_sorted.
  - pose proof (rows_sorted q c d) as Hs. fold rows in Hs. rewrite <- (take_drop n rows) in Hs.
    by apply StronglySorted_app_1_r in Hs.
  - apply NoDup_Permutation.
    + apply (NoDup_fmap_1 fst), select_NoDup.
    + assert (NoDup rows) as Hn by (apply (NoDup_fmap_1 fst), select_NoDup).
      rewrite <- (take_drop n rows) in Hn. by apply NoDup_app in Hn as (_ & _ & ?).
    + intros [i x]. rewrite elem_of_select. symmetry. by apply elem_of_rest.
Qed.

(** Every row reads back, with values that fit their columns. *)
Definition readable (d : db) : Prop :=
  ∀ id x, db_execs d !! id = Some x → ∃ e, _row_to_execution id x = Ok e ∧ column_range e.

Lemma readable_rows d rows :
  readable d → (∀ p, p ∈ rows → db_execs d !! p.1 = Some p.2) →
  ∃ items, mapR (λ ix : Z * exec_row, _row_to_execution ix.1 ix.2) rows = Ok items ∧
           decodes_rows rows items ∧ map ex_id items = rows.*1 ∧ Forall column_range items.
Proof.
  intros Hrd. induction rows as [|[id x] rows IH]; intros Hrows.
  - exists []. repeat split; constructor.
  - destruct (Hrd id x) as (e & He & Hce); [by apply (Hrows (id, x)); left|].
    destruct IH as (items & Hi & Hdi & Hid & Hci); [intros p Hp; apply Hrows; by right|].
    exists (e :: items). cbn. rewrite He. cbn. rewrite Hi. cbn.
    destruct (row_to_execution_fields _ _ _ He) as (-> & _). rewrite Hid.
    split_and!; [done | by constructor | done | by constructor].
Qed.

(** One page of a readable table. *)
Lemma list_runs q c d :
  readable d → (0 < q_limit q)%Z → read_cursor q = Ok c →
  let rows := select_ordered list_key (listed q c) d in
  ∃ items, decodes_rows (limit_rows (q_limit q) rows) items ∧
    map ex_id items = (limit_rows (q_limit q) rows).*1 ∧ Forall column_range items ∧
    _list q d = (d, Ok {| page_items := items;
                          page_next_cursor := next_cursor (q_limit q)
                                                (limit_rows (q_limit q + 1) rows) items |}).
Proof.
  intros Hrd Hl Hc rows.
  destruct (readable_rows d (limit_rows (q_limit q) rows) Hrd) as (items & Hi & Hdi & Hid & Hr).
  { intros [i x] Hp. apply limit_rows_sub, elem_of_select in Hp as [Hp _]. done. }
  exists items. split_and!; [done..|].
  unfold _list, mbind, se_bind, se_lift, se_gets, lift_exn. rewrite Hc. cbn -[limit_rows select_ordered].
  fold rows. assert (limit_rows (q_limit q) (limit_rows (q_limit q + 1) rows)
                     = limit_rows (q_limit q) rows) as ->.
  { unfold limit_rows. by rewrite take_take, Nat.min_l by lia. }
  by rewrite Hi.
Qed.

Lemma read_pages_from fuel q c d :
  readable d → (0 < q_limit q)%Z → read_cursor q = Ok c →
  let rows := select_ordered list_key (listed q c) d in
  (length rows ≤ fuel)%nat →
  ∃ items, read_pages fuel q d = (d, Ok items) ∧ map ex_id items = rows.*1.
Proof.
  intros Hrd. revert q c. induction fuel as [|fuel IH]; intros q c Hl Hc rows Hf;
    destruct (list_runs q c d Hrd Hl Hc) as (items & Hdi & Hid & Hr & E); fold rows in Hdi, Hid, E;
    cbn [read_pages]; unfold mbind, se_bind; rewrite E; cbn [page_next_cursor page_items].
  - destruct rows; [|cbn in Hf; lia]. exists items. unfold next_cursor, limit_rows in *.
    rewrite take_nil in *. rewrite (proj2 (Z.ltb_ge _ _)) by (cbn; lia). done.
  - unfold next_cursor. unfold limit_rows in *. rewrite length_take.
    destruct (decide (length rows ≤ Z.to_nat (q_limit q)))%nat as [Hle|Hgt].
    + rewrite (proj2 (Z.ltb_ge _ _)) by lia. exists items. split; [done|].
      by rewrite Hid, take_ge by lia.
    + rewrite (proj2 (Z.ltb_lt _ _)) by lia.
      destruct (last (take (Z.to_nat (q_limit q)) rows)) as [p|] eqn:El.
      2: { apply last_None in El. apply (f_equal length) in El. rewrite length_take in El.
           cbn in El. lia. }
      destruct (decodes_last _ _ _ Hdi El) as (e & He & Hre). rewrite He.
      assert (column_range e) as Hce.
      { rewrite Forall_forall in Hr. apply Hr. apply last_Some in He as [l ->].
        apply elem_of_app. right. by left. }
      pose proof (rows_after_page q c d _ p El) as Hrest. fold rows in Hrest.
      destruct (row_to_execution_fields _ _ _ Hre) as (Hi & _ & _ & _ & _ & _ & Hcr & _).
      rewrite <- Hi, <- Hcr in Hrest.
      destruct (IH (with_cursor q (Some (_encode_cursor (ex_created_at e) (ex_id e))))
                  (Some (ex_created_at e, ex_id e))) as (rest & Hread & Hids);
        [done | by apply read_with_cursor | |].
      { change (length (select_ordered list_key (listed q (Some (ex_created_at e, ex_id e))) d) ≤ fuel)%nat.
        rewrite Hrest, length_drop. lia. }
      rewrite Hread. exists (items ++ rest). split; [done|].
      rewrite map_app, Hid, Hids. rewrite <- (take_drop (Z.to_nat (q_limit q)) rows) at 2.
      rewrite fmap_app. f_equal. f_equal. exact Hrest.
Qed.
End Quiet.

(** On a quiet table, reading page after page terminates after at most one
    page per execution and returns exactly the executions the query selects,
    by status too, newest first. *)
Theorem read_pages_complete `{CodecEnv} q d fuel :
  (0 < q_limit q)%Z → readable d → q_cursor q = None →
  let rows := select_ordered list_key (listed q None) d in
  (length rows ≤ fuel)%nat →
  ∃ items, read_pages fuel q d = (d, Ok items) ∧ map ex_id items = rows.*1.
Proof. intros Hl Hrd Hq rows Hf. apply (read_pages_from fuel q None d); try done. unfold read_cursor. by rewrite Hq. Qed.

(** ** Examples *)

Definition demo_query (s : option ExecutionStatus) (n : Z) : ExecutionQuery :=
  {| q_namespace := "app"; q_task_name := None; q_status := s; q_limit := n; q_cursor := None |}.

Definition demo_table : db :=
  run_ops str_of_list demo_config empty_db
    [OpSubmit 1000000 1 demo_request; OpSubmit 1500000 2 (request_expiring 100000000);
     OpSubmit 1600000 3 (request_expiring 100000000)].

(** Another submission and a claim between the two pages. *)
Definition demo_between : list op :=
  [OpSubmit 1700000 4 (request_expiring 100000000);
   OpClaim 2000000 ∅ demo_uuids "app" ["report"] 4 (seconds 90) "worker"].

Lemma demo_table_inv : db_inv demo_table.
Proof. apply run_ops_inv; [repeat constructor | apply empty_db_inv]. Qed.

(** The page a call returns. *)
Definition page_at (q : ExecutionQuery) (d : db) : ExecutionPage :=
  match (_list q d).2 with
  | Ok page => page
  | Err _ => {| page_items := []; page_next_cursor := None |}
  end.

Definition demo_page1 : ExecutionPage := page_at (demo_query None 2) demo_table.
Definition demo_cursor : string := default "" (page_next_cursor demo_page1).
Definition demo_later : db := run_ops str_of_list demo_config demo_table demo_between.
Definition demo_page2 : ExecutionPage :=
  page_at (with_cursor (demo_query None 2) (Some demo_cursor)) demo_later.

Lemma demo_listing :
  listing str_of_list demo_config (demo_query None 2) None demo_table
    (page_items demo_page1 ++ page_items demo_page2).
Proof.
  apply (listing_more _ _ _ _ _ _ demo_cursor demo_between).
  - vm_compute. reflexivity.
  - vm_compute. reflexivity.
  - repeat constructor.
  - apply listing_last; vm_compute; reflexivity.
Qed.

Lemma demo_items_range : Forall column_range (page_items demo_page1 ++ page_items demo_page2).
Proof. apply Forall_forall. intros e He. apply list_elem_of_In in He. vm_compute in He.
  destruct He as [<-|[<-|[<-|[]]]]; vm_compute; repeat split; discriminate. Qed.

Lemma pagination_complete_witness :
  NoDup (map ex_id (page_items demo_page1 ++ page_items demo_page2)) ∧
  map ex_id (page_items demo_page1 ++ page_items demo_page2) = [3; 2; 1]%Z ∧
  ∀ id x, db_execs demo_table !! id = Some x →
    listed (demo_query None 2) None id x = true →
    id ∈ map ex_id (page_items demo_page1 ++ page_items demo_page2).
Proof.
  destruct (pagination_complete str_of_list demo_config (demo_query None 2) demo_table _
    eq_refl eq_refl demo_table_inv demo_items_range demo_listing) as (_ & Hn & _ & Hall).
  split; [exact Hn|]. split; [vm_compute; reflexivity | exact Hall].
Defined.

Lemma demo_table_readable : readable demo_table.
Proof.
  intros id x Hx. apply elem_of_map_to_list in Hx. apply list_elem_of_In in Hx. vm_compute in Hx.
  destruct Hx as [[= <- <-]|[[= <- <-]|[[= <- <-]|[]]]];
    (eexists; split; [vm_compute; reflexivity|]; vm_compute; repeat split; discriminate).
Qed.

Lemma read_pages_complete_witness :
  ∃ items, read_pages 3 (demo_query (Some QUEUED) 1) demo_table = (demo_table, Ok items) ∧
           map ex_id items = [3; 2; 1]%Z.
Proof.
  destruct (read_pages_complete (demo_query (Some QUEUED) 1) demo_table 3) as (items & H1 & H2);
    [reflexivity | exact demo_table_readable | reflexivity | vm_compute; repeat constructor |].
  exists items. split; [exact H1|]. rewrite H2. vm_compute. reflexivity.
Defined.
