(* ===== verification/PgClient.v ===== *)
(** * The client on the PostgreSQL backend

    [PostgresExecutionBackend] as an [ExecutionBackend], and what
    [ExecutionClient.result] reports of the outcome a worker stored. *)

From stdpp Require Import base option list strings numbers gmap sorting relations.
From Stdlib Require Import ZArith Lia Ascii.
From S2P Require Import Prelude PyFloat Value Texts Codec Execution PgStore PgBackend PgInvariant PgLifecycle PgClaim PgTheorems PgSubmit PgList.

(** The store, the transaction clock and the source of fresh UUIDs. *)
Record world := {
  w_db : db;
  w_now : Z;
  w_uuid : Z;
}.

Definition with_db (w : world) (d : db) : world :=
  {| w_db := d; w_now := w_now w; w_uuid := w_uuid w |}.

Section Instance_.
Context `{CodecEnv} (sha256_hex : list ascii → string) (cfg : backend_config).

(** Run a transaction of the backend in the world. *)
Definition on_db {A} (m : T A) : SE world ExecutionException A := λ w,
  let '(d, r) := m (w_db w) in (with_db w d, r).

(** [submit] answers [None] only when the row it inserted is gone. *)
Definition submit_answer (o : option Execution) : T Execution :=
  match o with
  | Some e => mret e
  | None => se_raise (Raised (Exn CException "AttributeError" "submission has no row" None))
  end.

Instance postgres_backend : ExecutionBackend world := {|
  be_submit r := λ w,
    let '(w', res) := on_db (o ← submit sha256_hex cfg (w_now w) (w_uuid w) r; submit_answer o) w in
    ({| w_db := w_db w'; w_now := w_now w; w_uuid := (w_uuid w + 1)%Z |}, res);
  be_get ns id := on_db (_get ns id);
  be_list q := on_db (_list q);
  be_request_cancel ns id reason := λ w, on_db (_request_cancel (w_now w) ns id reason) w;
|}.

(** A stored submission always has its row. *)
Lemma submit_some now id r d : (submit sha256_hex cfg now id r d).2 ≠ Ok None.
Proof.
  unfold submit, mbind, se_bind, se_lift. destruct (_encode_submission _ _ _) as [enc|]; [|done].
  unfold _submit.
  match goal with |- context [transaction ?m d] => set (ins := m) end.
  destruct (transaction ins d) as [d1 [[]|er]] eqn:E.
  - apply transaction_ok in E. unfold ins in E. apply se_bind_ok in E as (d2 & av & Hav & E).
    apply se_lift_ok in Hav as [-> _]. unfold insert_exec in E.
    destruct (db_execs d !! id); [done|]. destruct (exists_exec _ d); [done|].
    injection E as <-. unfold _get, select_exec. rewrite se_gets_bind. cbn [with_execs db_execs].
    rewrite lookup_insert_eq, bool_decide_true by done. unfold mbind, se_bind, se_lift.
    by destruct (_row_to_execution id _).
  - repeat case_match; simplify_eq/=; done.
Qed.

(** ** The error detail reads back *)

(** What [__post_init__] returns. *)
Definition valid_detail (x : ExecutionErrorDetail) : Prop :=
  ∃ a b c d e f, mk_ExecutionErrorDetail a b c d e f = Ok x.

Lemma error_column_round_trip (o : option ExecutionErrorDetail) :
  (∀ x, o = Some x → valid_detail x) →
  (raw ← decode_nullable (nullable error_asdict o);
   match raw with VNone => Ok None | v => d ← detail_of_value v; Ok (Some d) end) = Ok o.
Proof.
  intros Hv. destruct o as [x|]; [|done]. destruct (Hv x eq_refl) as (a & b & c & d & e & f & E).
  apply error_detail_again in E. destruct x as [k t s g p w].
  cbn [ed_kind ed_exception_type ed_stage ed_backend ed_operation ed_connector_kind] in E.
  destruct s, g, p, w; cbn -[mk_ExecutionErrorDetail] in E |- *; by rewrite E.
Qed.

(** ** The stored outcome *)

(** The execution decoded from a row that a completion wrote. *)
Lemma completed_row_reads c now st res av x id e :
  replayable (cp_result c) → (∀ d, cp_error c = Some d → valid_detail d) → `{PyEqLaws} →
  (if bool_decide (cp_status c = SUCCEEDED) then encode_result cfg c = Ok res else res = JNull) →
  _row_to_execution id (completed_row now st res (nullable error_asdict (cp_error c)) av x) = Ok e →
  ex_error e = cp_error c ∧ (cp_status c = SUCCEEDED → veq (cp_result c) (ex_result e)).
Proof.
  intros Hw Hv PL Hres. unfold _row_to_execution.
  destruct (row_execution _ _) as [e'|] eqn:E; [|done]. intros [= ->].
  unfold row_execution in E. cbn [completed_row r_error r_sub r_result] in E.
  pose proof (error_column_round_trip (cp_error c) Hv) as He.
  destruct (decode_nullable (nullable error_asdict (cp_error c))) as [raw|] eqn:Er; [|done].
  cbn [mbind result_bind] in He, E. rewrite He in E. cbn [mbind result_bind] in E.
  apply bind_ok in E as (p & _ & (m & _ & (r & Hr & [= <-])%bind_ok)%bind_ok). cbn.
  split; [done|]. intros Hs. rewrite bool_decide_true in Hres by done.
  unfold encode_result, _encode_value in Hres.
  destruct (encode_value "" (cp_result c)) as [j|] eqn:Ej; [|done].
  apply bind_ok in Hres as (j' & [= <-] & (u & _ & [= <-])%bind_ok).
  destruct (encode_round_trips _ "" j Hw Ej "") as (v' & Hv' & Heq).
  assert (decode_nullable j = decode_value "" j) as Hd by (destruct j; done).
  rewrite Hd, Hv' in Hr. by injection Hr as <-.
Qed.
End Instance_.

(** What [result] does for an execution that ended. *)
Definition outcome (e : Execution) : result ExecutionException value :=
  match ex_status e with
  | SUCCEEDED => Ok (ex_result e)
  | FAILED => Err (ExecutionFailed e)
  | _ => Err (ExecutionCancelled e)
  end.

(** The row of an accepted final completion. *)
Lemma completed_outcome `{CodecEnv} cfg now id aid token c d d' row x :
  complete_transaction cfg now id aid token c d = (d', Ok row) →
  db_execs d !! id = Some x → is_terminal (r_status x) = false →
  is_completion (cp_status c) = true → cp_status c ≠ RETRYING →
  db_execs d' !! id = Some row ∧ is_terminal (r_status row) = true ∧
  (r_status row = cp_status c ∨ r_status row = CANCELLED ∧ r_status x = CANCEL_REQUESTED) ∧
  (r_status row = cp_status c → ∃ res av,
     (if bool_decide (cp_status c = SUCCEEDED) then encode_result cfg c = Ok res else res = JNull) ∧
     row = completed_row now (cp_status c) res (nullable error_asdict (cp_error c)) av x).
Proof.
  intros E Hx Hnt Hc Hnr.
  apply complete_transaction_ok in E as (x' & Hx' & res & av & Hres & _ & Hcase).
  rewrite Hx in Hx'. injection Hx' as <-.
  destruct Hcase as [(a & _ & _ & _ & _ & -> & ->)|(_ & _ & _ & Ht & _)]; [|congruence].
  cbn [with_atts with_execs db_execs]. rewrite lookup_insert_eq. split; [done|].
  destruct (bool_decide (cp_status c = SUCCEEDED) && bool_decide (r_status x = CANCEL_REQUESTED)) eqn:Ecw;
    cbn [completed_row r_status].
  - apply andb_true_iff in Ecw as [Ecs Ecr]. apply bool_decide_eq_true in Ecs, Ecr.
    split_and!; [done | by right | congruence].
  - rewrite andb_true_r in Hres. split_and!; [by destruct (cp_status c) | by left |].
    intros _. by exists res, av.
Qed.

(** [result] reads a terminal row. *)
Lemma client_result_row `{CodecEnv} sha256_hex cfg id row e w :
  db_execs (w_db w) !! id = Some row → _row_to_execution id row = Ok e →
  is_terminal (ex_status e) = true → ex_status e ≠ EXPIRED →
  client_result (H:=postgres_backend sha256_hex cfg) (ex_namespace e) (VUuid id) w = (w, outcome e).
Proof.
  intros Hrow He Ht Hne. destruct (row_to_execution_fields _ _ _ He) as (_ & Hns & _).
  unfold client_result, client_get, mbind, se_bind, se_lift. cbn [lift_exn _parse_execution_id].
  cbn [be_get postgres_backend]. unfold on_db, _get, select_exec. rewrite se_gets_bind, Hrow.
  rewrite bool_decide_true by done. unfold mbind, se_bind, se_lift. rewrite He. cbn.
  replace (with_db w (w_db w)) with w by by destruct w.
  unfold outcome. by destruct (ex_status e).
Qed.

(** C9. The outcome a worker stores is what the client gets: after an accepted
    completion with a final status, and whatever other clients and workers do
    afterwards, [ExecutionClient.result] returns a value equal to the
    handler's, or raises [ExecutionFailed] with the same error detail, or
    [ExecutionCancelled] when the cancellation won; it changes nothing. *)
Theorem outcome_reaches_client `{CodecEnv} `{PL : !PyEqLaws} sha256_hex cfg now id aid token c d d' e x os w :
  db_inv d → is_completion (cp_status c) = true → cp_status c ≠ RETRYING →
  replayable (cp_result c) → (∀ er, cp_error c = Some er → valid_detail er) →
  db_execs d !! id = Some x → is_terminal (r_status x) = false →
  complete cfg now id aid token c d = (d', Ok e) → Forall op_ok os →
  w_db w = run_ops sha256_hex cfg d' os →
  let Hbackend := postgres_backend sha256_hex cfg in
  client_result (ex_namespace e) (VUuid id) w = (w, outcome e) ∧
  (ex_status e = cp_status c ∨ ex_status e = CANCELLED ∧ r_status x = CANCEL_REQUESTED) ∧
  (ex_status e = cp_status c →
     ex_error e = cp_error c ∧ (cp_status c = SUCCEEDED → veq (cp_result c) (ex_result e))).
Proof.
  intros Hd Hc Hnr Hwf Hval Hx Hnt E Hos Hw Hbackend.
  assert (db_inv d') as Hd'.
  { pose proof (complete_inv cfg now id aid token c Hc d Hd) as Hi. by rewrite E in Hi. }
  unfold complete in E. apply se_bind_ok in E as (d1 & row & E & Ed).
  apply se_lift_ok in Ed as [E1 Ed]. subst d1.
  pose proof (row_to_execution_fields _ _ _ Ed) as (Hid & Hns & _ & Hst & _).
  destruct (completed_outcome cfg now id aid token c d d' row x E Hx Hnt Hc Hnr)
    as (Hrow & Ht & Hcase & Hsame).
  split.
  - destruct (run_ops_evolves sha256_hex cfg d' os Hos Hd' id row Hrow) as (y & Hy & Hxy).
    apply rtc_terminal in Hxy as ->; [|done].
    by apply (client_result_row sha256_hex cfg id row e w); [rewrite Hw | | rewrite Hst | rewrite Hst; destruct Hcase as [->|[-> _]]; destruct (cp_status c)].
  - rewrite Hst. split; [done|]. intros Hs. destruct (Hsame Hs) as (res & av & Hres & ->).
    by eapply completed_row_reads.
Qed.

Definition demo_running : db := run_ops str_of_list demo_config empty_db (take 2 demo_history).

Lemma outcome_reaches_client_witness :
  let Hbackend := postgres_backend str_of_list demo_config in
  ∃ w e, client_result (ex_namespace e) (VUuid 1) w = (w, outcome e) ∧
    ex_status e = SUCCEEDED ∧ veq demo_value (ex_result e).
Proof.
  intros Hbackend.
  destruct (complete demo_config 40000000 1 10 20 (succeeded demo_value) demo_running)
    as [d' [e|]] eqn:E; [|vm_compute in E; discriminate].
  destruct (db_execs demo_running !! 1%Z) as [x|] eqn:Hx; [|vm_compute in Hx; discriminate].
  assert (ex_status e = SUCCEEDED) as Hs by (vm_compute in E; injection E as _ <-; reflexivity).
  assert (is_terminal (r_status x) = false) as Ht
    by (vm_compute in Hx; injection Hx as <-; reflexivity).
  exists {| w_db := d'; w_now := 50000000; w_uuid := 7 |}, e.
  destruct (outcome_reaches_client str_of_list demo_config 40000000 1 10 20 (succeeded demo_value)
    demo_running d' e x [] {| w_db := d'; w_now := 50000000; w_uuid := 7 |})
    as (H1 & _ & H2);
    [ apply run_ops_inv; [repeat constructor | apply empty_db_inv] | reflexivity | discriminate
    | exact demo_value_replayable | discriminate | exact Hx | exact Ht | exact E | constructor | reflexivity |].
  split; [exact H1|]. split; [exact Hs|]. exact (proj2 (H2 Hs) eq_refl).
Defined.
