(* ===== verification/Events.v ===== *)
(** * Task events ([onestep/events.py])

    What the runtime reports about a delivery, and the counters of
    [InMemoryMetrics]. *)

From stdpp Require Import base option list strings numbers gmap.
From Stdlib Require Import ZArith Lia.
From S2P Require Import Prelude PyFloat Value Invoke Retry.

Inductive TaskEventKind :=
| EV_FETCHED | EV_STARTED | EV_SUCCEEDED | EV_RETRIED | EV_FAILED
| EV_DEAD_LETTERED | EV_CANCELLED.

#[global] Instance TaskEventKind_eq_dec : EqDecision TaskEventKind.
Proof. solve_decision. Defined.

Definition event_kind_value (k : TaskEventKind) : string :=
  match k with
  | EV_FETCHED => "fetched" | EV_STARTED => "started" | EV_SUCCEEDED => "succeeded"
  | EV_RETRIED => "retried" | EV_FAILED => "failed"
  | EV_DEAD_LETTERED => "dead_lettered" | EV_CANCELLED => "cancelled"
  end.

(** [emitted_at] is an instant of UTC in microseconds. *)
Record TaskEvent := {
  ev_kind : TaskEventKind;
  ev_app : string;
  ev_task : string;
  ev_source : option string;
  ev_attempts : Z;
  ev_emitted_at : Z;
  ev_duration_s : option float64;
  ev_failure : option FailureInfo;
  ev_meta : list (string * value);
}.

(** ** [InMemoryMetrics] *)

#[global] Instance TaskEventKind_countable : Countable TaskEventKind.
Proof.
  refine (inj_countable' (λ k, match k with
    | EV_FETCHED => 0 | EV_STARTED => 1 | EV_SUCCEEDED => 2 | EV_RETRIED => 3
    | EV_FAILED => 4 | EV_DEAD_LETTERED => 5 | EV_CANCELLED => 6 end%nat)
    (λ n, match n with
    | 0 => EV_FETCHED | 1 => EV_STARTED | 2 => EV_SUCCEEDED | 3 => EV_RETRIED
    | 4 => EV_FAILED | 5 => EV_DEAD_LETTERED | _ => EV_CANCELLED end%nat) _).
  by intros [].
Defined.

#[global] Instance FailureKind_countable : Countable FailureKind.
Proof.
  refine (inj_countable' (λ k, match k with FK_ERROR => 0 | FK_TIMEOUT => 1 | FK_CANCELLED => 2 end%nat)
    (λ n, match n with 0 => FK_ERROR | 1 => FK_TIMEOUT | _ => FK_CANCELLED end%nat) _).
  by intros [].
Defined.

(** [Counter]s: a missing key counts zero. *)
Record InMemoryMetrics := {
  kind_counts : gmap TaskEventKind Z;
  task_counts : gmap (string * TaskEventKind) Z;
  failure_counts : gmap (TaskEventKind * FailureKind) Z;
}.

Definition empty_metrics : InMemoryMetrics :=
  {| kind_counts := ∅; task_counts := ∅; failure_counts := ∅ |}.

Definition bump `{Countable K} (k : K) (m : gmap K Z) : gmap K Z :=
  <[k := (default 0 (m !! k) + 1)%Z]> m.

(** [InMemoryMetrics.__call__]. *)
Definition record_event (m : InMemoryMetrics) (e : TaskEvent) : InMemoryMetrics :=
  {| kind_counts := bump (ev_kind e) (kind_counts m);
     task_counts := bump (ev_task e, ev_kind e) (task_counts m);
     failure_counts := match ev_failure e with
                       | Some f => bump (ev_kind e, fi_kind f) (failure_counts m)
                       | None => failure_counts m
                       end |}.

(** [InMemoryMetrics.count]. *)
Definition count (m : InMemoryMetrics) (kind : TaskEventKind) (task : option string)
    (failure_kind : option FailureKind) : Z :=
  match task with
  | Some t => default 0%Z (task_counts m !! (t, kind))
  | None =>
      match failure_kind with
      | Some f => default 0%Z (failure_counts m !! (kind, f))
      | None => default 0%Z (kind_counts m !! kind)
      end
  end.

(** The [kinds], [tasks] and [failures] of [snapshot], up to the order of the
    keys. *)
Record metrics_snapshot := {
  sn_kinds : list (string * Z);
  sn_tasks : list (string * Z);
  sn_failures : list (string * Z);
}.

Definition snapshot (m : InMemoryMetrics) : metrics_snapshot :=
  {| sn_kinds := (λ kn, (event_kind_value kn.1, kn.2)) <$> map_to_list (kind_counts m);
     sn_tasks := (λ kn : (string * TaskEventKind) * Z,
                    (kn.1.1 +:+ ":" +:+ event_kind_value kn.1.2, kn.2))
                 <$> map_to_list (task_counts m);
     sn_failures := (λ kn : (TaskEventKind * FailureKind) * Z,
                       (event_kind_value kn.1.1 +:+ ":" +:+ failure_kind_value kn.1.2, kn.2))
                    <$> map_to_list (failure_counts m) |}.

(** ** [StructuredEventLogger] *)

Inductive log_level := DEBUG | INFO | WARNING | ERROR.

(** The default level of each kind. *)
Definition level_by_kind (k : TaskEventKind) : log_level :=
  match k with
  | EV_FETCHED | EV_STARTED => DEBUG
  | EV_SUCCEEDED => INFO
  | EV_RETRIED | EV_CANCELLED => WARNING
  | EV_FAILED | EV_DEAD_LETTERED => ERROR
  end.

(** The level of a logger with overrides. *)
Definition logged_level (overrides : TaskEventKind → option log_level) (e : TaskEvent) : log_level :=
  default (level_by_kind (ev_kind e)) (overrides (ev_kind e)).

(** ** Counting *)

Lemma bump_count `{Countable K} (k k' : K) m :
  default 0%Z (bump k m !! k') = (default 0 (m !! k') + if bool_decide (k = k') then 1 else 0)%Z.
Proof.
  unfold bump. destruct (decide (k = k')) as [->|Hne].
  - rewrite lookup_insert_eq, bool_decide_true by done. done.
  - rewrite lookup_insert_ne, bool_decide_false by done. simpl. lia.
Qed.

(** The events [count] is asked about: of a task, else of a failure kind,
    else all, each of one event kind.  A task takes precedence over a failure
    kind. *)
Definition counted (kind : TaskEventKind) (task : option string)
    (failure_kind : option FailureKind) (e : TaskEvent) : bool :=
  bool_decide (ev_kind e = kind) &&
  match task with
  | Some t => bool_decide (ev_task e = t)
  | None => match failure_kind with
            | Some f => bool_decide (fi_kind <$> ev_failure e = Some f)
            | None => true
            end
  end.

Lemma record_event_count m e kind task fk :
  count (record_event m e) kind task fk
  = (count m kind task fk + if counted kind task fk e then 1 else 0)%Z.
Proof.
  unfold count, record_event, counted. destruct task as [t|]; [|destruct fk as [f|]]; cbn.
  - rewrite bump_count. f_equal. repeat case_bool_decide; simplify_eq/=; done.
  - destruct (ev_failure e) as [fi|]; cbn.
    + rewrite bump_count. f_equal. repeat case_bool_decide; simplify_eq/=; done.
    + rewrite andb_false_r. lia.
  - rewrite bump_count, andb_true_r. done.
Qed.

(** The in-memory metrics are exact: after any sequence of events,
    [count] is the number of those events of the kind it was asked about,
    restricted to the task if one is given and else to the failure kind. *)
Theorem metrics_count_exact es kind task fk :
  count (foldl record_event empty_metrics es) kind task fk
  = Z.of_nat (length (List.filter (counted kind task fk) es)).
Proof.
  assert (∀ m, count (foldl record_event m es) kind task fk
    = (count m kind task fk + Z.of_nat (length (List.filter (counted kind task fk) es)))%Z) as H.
  { induction es as [|e es IH]; intros m; cbn; [lia|]. rewrite IH, record_event_count.
    destruct (counted kind task fk e); cbn [length]; lia. }
  rewrite H. unfold count. by destruct task, fk.
Qed.
