(* ===== verification/Task.v ===== *)
(** * Task specifications ([onestep/task.py])

    The targets a handler's result is emitted to, and the validated
    [TaskSpec] the runtime executes.  Sinks and user functions are known by
    an identity and by the attributes the runtime reads. *)

From stdpp Require Import base option list strings numbers.
From Stdlib Require Import ZArith.
From S2P Require Import Prelude PyFloat Value Invoke Retry.

(** ** Objects the runtime only calls *)

(** [Sink]: its name and, if it has one, its [poll_interval_s]. *)
Record Sink := {
  sk_id : Z;
  sk_name : string;
  sk_poll_interval_s : option float64;
}.

(** A hook, predicate, transform or event handler: the parameter kinds
    [inspect.signature] reports, if any. *)
Record user_fn := {
  fn_id : Z;
  fn_signature : option (list param_kind);
}.

(** ** Emit targets *)

Record TaskHooks := {
  before : list user_fn;
  after_success : list user_fn;
  on_failure : list user_fn;
}.

Definition no_hooks : TaskHooks := {| before := []; after_success := []; on_failure := [] |}.

Record EmitBinding := {
  eb_sink : Sink;
  eb_transform : option user_fn;
}.

(** An [EmitRoute] after [__post_init__]: the bindings are canonical, the
    sink tuples are read off them. *)
Record EmitRoute := {
  er_predicate : option user_fn;
  then_bindings : list EmitBinding;
  otherwise_bindings : list EmitBinding;
}.

Definition then_sinks (r : EmitRoute) : list Sink := eb_sink <$> then_bindings r.
Definition otherwise_sinks (r : EmitRoute) : list Sink := eb_sink <$> otherwise_bindings r.

(** [EmitRoute.sinks]. *)
Definition route_sinks (r : EmitRoute) : list Sink := then_sinks r ++ otherwise_sinks r.

Definition _normalize_route_bindings (sinks : list Sink) (bindings : list EmitBinding)
    : list EmitBinding :=
  match bindings with
  | [] => (λ s, {| eb_sink := s; eb_transform := None |}) <$> sinks
  | _ => bindings
  end.

(** [EmitRoute(...)]. *)
Definition mk_EmitRoute (then_sinks : list Sink) (predicate : option user_fn)
    (otherwise_sinks : list Sink) (then_bindings otherwise_bindings : list EmitBinding)
    : EmitRoute :=
  {| er_predicate := predicate;
     then_bindings := _normalize_route_bindings then_sinks then_bindings;
     otherwise_bindings := _normalize_route_bindings otherwise_sinks otherwise_bindings |}.

(** An entry of [emit=]. *)
Inductive emit_entry :=
| EntryBinding (b : EmitBinding)
| EntryRoute (r : EmitRoute)
| EntrySink (s : Sink)
| EntryOther.

(** [None], a sequence, or a single entry. *)
Inductive emit_arg := EmitNone | EmitSeq (es : list emit_entry) | EmitOne (e : emit_entry).

(** The canonical targets. *)
Inductive emit_target := TBinding (b : EmitBinding) | TRoute (r : EmitRoute).

Definition resolve_entry (e : emit_entry) : result exn emit_target :=
  match e with
  | EntryBinding b => Ok (TBinding b)
  | EntryRoute r => Ok (TRoute r)
  | EntrySink s => Ok (TRoute (mk_EmitRoute [s] None [] [] []))
  | EntryOther => Err (type_error "emit entries must be Sink, EmitBinding, or EmitRoute instances")
  end.

Definition _normalize_emit_targets (a : emit_arg) : result exn (list emit_target) :=
  match a with
  | EmitNone => Ok []
  | EmitSeq es => mapR resolve_entry es
  | EmitOne e => mapR resolve_entry [e]
  end.

Definition target_bindings (t : emit_target) : list EmitBinding :=
  match t with
  | TBinding b => [b]
  | TRoute r => then_bindings r ++ otherwise_bindings r
  end.

Definition _flatten_emit_target_bindings (ts : list emit_target) : list EmitBinding :=
  ts ≫= target_bindings.

Definition _flatten_emit_target_sinks (ts : list emit_target) : list Sink :=
  eb_sink <$> _flatten_emit_target_bindings ts.

(** The [dead_letter=] argument. *)
Inductive sinks_arg := SinksNone | SinksSeq (ss : list Sink) | SinksOne (s : Sink).

Definition _normalize_sinks (a : sinks_arg) : list Sink :=
  match a with SinksNone => [] | SinksSeq ss => ss | SinksOne s => [s] end.

Definition _normalize_description (d : option string) : option string :=
  match d with
  | None => None
  | Some d => let n := strip d in if str_nonempty n then Some n else None
  end.

(** ** [TaskSpec] *)

(** The source, by its name. *)
Record TaskSpec := {
  ts_name : string;
  ts_description : option string;
  ts_handler : Z;
  ts_source : option string;
  ts_sinks : list Sink;
  emit_targets : list emit_target;
  emit_bindings : list EmitBinding;
  emit_routes : list EmitRoute;
  dead_letter_sinks : list Sink;
  ts_hooks : TaskHooks;
  concurrency : Z;
  ts_retry : RetryPolicy;
  timeout_s : option float64;
}.

Definition routes_of (ts : list emit_target) : list EmitRoute :=
  ts ≫= λ t, match t with TRoute r => [r] | TBinding _ => [] end.

(** [TaskSpec.build]; [handler_doc] is [inspect.getdoc(handler)]. *)
Definition build (name : string) (description : option string) (handler : Z)
    (handler_doc : option string) (source : option string) (sinks : emit_arg)
    (dead_letter : sinks_arg) (hooks : option TaskHooks) (concurrency : Z)
    (retry : option RetryPolicy) (timeout : option float64) : result exn TaskSpec :=
  _ ← guard_else (negb (concurrency <? 1)%Z) (value_error "concurrency must be >= 1");
  _ ← guard_else (match timeout with Some t => negb (fleb t f_zero) | None => true end)
        (value_error "timeout_s must be > 0");
  targets ← _normalize_emit_targets sinks;
  Ok {| ts_name := name;
        ts_description := match _normalize_description description with
                          | Some d => Some d
                          | None => handler_doc
                          end;
        ts_handler := handler; ts_source := source;
        ts_sinks := _flatten_emit_target_sinks targets;
        emit_targets := targets;
        emit_bindings := _flatten_emit_target_bindings targets;
        emit_routes := routes_of targets;
        dead_letter_sinks := _normalize_sinks dead_letter;
        ts_hooks := default no_hooks hooks;
        concurrency := concurrency;
        ts_retry := default PNoRetry retry;
        timeout_s := timeout |}.

(** ** Lemmas *)

Lemma build_ok n d h doc src e dl hk c r t spec :
  build n d h doc src e dl hk c r t = Ok spec →
  (1 ≤ concurrency spec)%Z ∧ _normalize_emit_targets e = Ok (emit_targets spec) ∧
  ts_sinks spec = _flatten_emit_target_sinks (emit_targets spec) ∧
  dead_letter_sinks spec = _normalize_sinks dl.
Proof.
  unfold build. intros (u1 & Hc%guard_else_ok & (u2 & _ & (ts & Ht & [= <-])%bind_ok)%bind_ok)%bind_ok.
  apply negb_true_iff, Z.ltb_ge in Hc. done.
Qed.
