(* ===== verification/Effects.v ===== *)
(** * Executing user code and connectors

    The runtime awaits hooks, handlers, sinks and deliveries it knows nothing
    about.  Each such call is an effect; an [environment] answers it, with a
    value or an exception, as any function of everything that happened
    before.  So the environment can be stateful, can fail at every call and
    can cancel the running asyncio task at every await. *)

From stdpp Require Import base option list strings numbers.
From Stdlib Require Import ZArith.
From S2P Require Import Prelude PyFloat Value Invoke Retry Events Task Execution.

(** ** Effects *)

(** An argument of a user callback. *)
Inductive user_arg :=
| AContext
| AValue (v : value)
| AFailure (f : FailureInfo)
| AEvent (e : TaskEvent).

(** What [FailureCaptureWriter.write] is given. *)
Record capture_record := {
  cr_stage : string;
  cr_terminal : bool;
  cr_failure : FailureInfo;
  cr_envelope : Envelope;
}.

Inductive call :=
| CStartProcessing                                       (** [delivery.start_processing()] *)
| CCheckpoint (phase transition : string) (selected : option (list string))
| CEmitter (e : TaskEvent)                               (** a custom event emitter *)
| CUser (f : Z) (args : list user_arg)                   (** a callback, its result awaited *)
| CHandler (f : Z) (payload : value) (timeout : option float64)
| CSend (s : Sink) (e : Envelope)                        (** [sink.send(envelope)] *)
| CDispatch (s : Sink) (e : Envelope) (kind : string)    (** a custom sink dispatcher *)
| CWaitShutdown (timeout : float64)                      (** [wait_for(app.wait_for_shutdown(), ...)] *)
| CAck
| CRetry (delay_s : option float64)
| CFail (e : exn)
| CComplete (c : ExecutionCompletion)                    (** [delivery.complete_execution(...)] *)
| CCapture (r : capture_record).                         (** [FailureCaptureWriter.write(...)] *)

(** What happened, newest first. *)
Abbreviation event := (call * result exn value)%type.
Abbreviation history := (list event).

(** The answers, and the attributes the runtime reads: user code may change
    the envelope of a delivery while it runs. *)
Record environment := {
  respond : history → call → result exn value;
  envelope_at : history → Envelope;
  cancel_requested_at : history → bool;
  is_stopping_at : history → bool;
  perf_counter_at : history → float64;
  now_at : history → Z;
}.

(** ** The monad *)

Section Effects.
Context {X : Type} (env : environment).

(** The local state [X] of the runtime next to the history. *)
Record st := {
  hist : history;
  local : X;
}.

Abbreviation E := (SE st exn).

(** One call. *)
Definition perform (c : call) : E value := λ s,
  let r := respond env (hist s) c in
  ({| hist := (c, r) :: hist s; local := local s |}, r).

(** [await f(...)] for its effect. *)
Definition perform_ (c : call) : E unit := _ ← perform c; mret ().

Definition observe {A} (f : environment → history → A) : E A := se_gets (λ s, f env (hist s)).

Definition set_local (f : X → X) : E unit :=
  se_modify (λ s, {| hist := hist s; local := f (local s) |}).

(** [invoke_callback(f, *args)], awaited if the result is awaitable. *)
Definition invoke_user (f : user_fn) (args : list user_arg) : E value :=
  let cb := Callback (fn_signature f) (λ args, perform (CUser (fn_id f) args)) in
  invoke_callback cb args.

(** [try: m except Exception: handler]. *)
Definition except_exception {A} (m : E A) (handler : exn → E A) : E A :=
  se_try m (λ e, if is_exception e then handler e else se_raise e).
End Effects.

(** ** Reasoning

    What a program may add to the history, and which answers it leaves the
    local state alone with. *)

Section Rules.
Context {X : Type}.
Abbreviation E := (SE (@st X) exn).

(** Every event [m] adds satisfies [P]. *)
Definition adds {A} (P : event → Prop) (m : E A) : Prop :=
  ∀ s, ∃ l, hist (m s).1 = l ++ hist s ∧ Forall P l.

Definition keeps_local {A} (m : E A) : Prop := ∀ s, local (m s).1 = local s.

Lemma adds_weaken {A} (P Q : event → Prop) (m : E A) :
  (∀ ev, P ev → Q ev) → adds P m → adds Q m.
Proof.
  intros HPQ Hm s. destruct (Hm s) as (l & Hl & Hf). exists l. split; [done|].
  by eapply Forall_impl.
Qed.

Lemma adds_same {A} P (m : E A) : (∀ s, hist (m s).1 = hist s) → adds P m.
Proof. intros Hm s. exists []. split; [apply Hm | constructor]. Qed.

Lemma adds_ret {A} P (a : A) : adds P (mret a : E A).
Proof. by apply adds_same. Qed.
Lemma adds_lift {A} P (r : result exn A) : adds P (se_lift r : E A).
Proof. by apply adds_same. Qed.
Lemma adds_raise {A} P e : adds P (se_raise e : E A).
Proof. by apply adds_same. Qed.
Lemma adds_gets {A} P (f : st → A) : adds P (se_gets f : E A).
Proof. by apply adds_same. Qed.
Lemma adds_set_local P f : adds P (set_local f : E unit).
Proof. by apply adds_same. Qed.

Lemma adds_bind {A B} P (m : E A) (f : A → E B) :
  adds P m → (∀ a, adds P (f a)) → adds P (m ≫= f).
Proof.
  intros Hm Hf s. unfold mbind, se_bind. destruct (Hm s) as (l & Hl & Hp).
  destruct (m s) as [s1 [a|e]]; [|by exists l]. destruct (Hf a s1) as (l' & Hl' & Hp').
  exists (l' ++ l). rewrite Hl'. cbn in Hl. rewrite Hl, app_assoc.
  split; [done | by apply Forall_app].
Qed.

Lemma adds_try {A} P (m : E A) h :
  adds P m → (∀ e, adds P (h e)) → adds P (se_try m h).
Proof.
  intros Hm Hh s. unfold se_try. destruct (Hm s) as (l & Hl & Hp).
  destruct (m s) as [s1 [a|e]]; [by exists l|]. destruct (Hh e s1) as (l' & Hl' & Hp').
  exists (l' ++ l). rewrite Hl'. cbn in Hl. rewrite Hl, app_assoc.
  split; [done | by apply Forall_app].
Qed.

Lemma adds_iter {A} P (f : A → E unit) l : (∀ x, x ∈ l → adds P (f x)) → adds P (se_iter f l).
Proof.
  induction l as [|x l IH]; intros Hf; cbn; [apply adds_ret|].
  apply adds_bind; [apply Hf; by left|]. intros _. apply IH. intros y Hy. apply Hf. by right.
Qed.

Lemma adds_map {A B} P (f : A → E B) l : (∀ x, adds P (f x)) → adds P (se_map f l).
Proof.
  intros Hf. induction l as [|x l IH]; cbn; [apply adds_ret|].
  apply adds_bind; [done|]. intros y. apply adds_bind; [done|]. intros ys. apply adds_ret.
Qed.

Lemma adds_perform P env c : (∀ r, P (c, r)) → adds P (perform env c : E value).
Proof. intros Hc s. eexists [_]. cbn. split; [done|]. by constructor. Qed.

Lemma adds_perform_ P env c : (∀ r, P (c, r)) → adds P (perform_ env c : E unit).
Proof.
  intros Hc. unfold perform_. apply adds_bind; [by apply adds_perform | intros; apply adds_ret].
Qed.

Lemma adds_observe {A} P env (f : environment → history → A) : adds P (observe env f : E A).
Proof. apply adds_gets. Qed.

Lemma adds_except {A} P (m : E A) h :
  adds P m → (∀ e, adds P (h e)) → adds P (except_exception m h).
Proof.
  intros Hm Hh. apply adds_try; [done|]. intros e.
  destruct (is_exception e); [apply Hh | apply adds_raise].
Qed.

Lemma adds_user P env f args :
  (∀ args r, P (CUser (fn_id f) args, r)) → adds P (invoke_user env f args : E value).
Proof. intros Hu. unfold invoke_user, invoke_callback. cbn. apply adds_perform. done. Qed.

Lemma keeps_bind {A B} (m : E A) (f : A → E B) :
  keeps_local m → (∀ a, keeps_local (f a)) → keeps_local (m ≫= f).
Proof.
  intros Hm Hf s. unfold mbind, se_bind. specialize (Hm s).
  destruct (m s) as [s1 [a|e]]; cbn in *; [|done]. by rewrite Hf.
Qed.

Lemma keeps_try {A} (m : E A) h :
  keeps_local m → (∀ e, keeps_local (h e)) → keeps_local (se_try m h).
Proof.
  intros Hm Hh s. unfold se_try. specialize (Hm s).
  destruct (m s) as [s1 [a|e]]; cbn in *; [done|]. by rewrite Hh.
Qed.

Lemma keeps_iter {A} (f : A → E unit) l : (∀ x, keeps_local (f x)) → keeps_local (se_iter f l).
Proof.
  intros Hf. induction l as [|x l IH]; cbn; [done|]. by apply keeps_bind.
Qed.

Lemma keeps_map {A B} (f : A → E B) l : (∀ x, keeps_local (f x)) → keeps_local (se_map f l).
Proof.
  intros Hf. induction l as [|x l IH]; cbn; [done|]. apply keeps_bind; [done|]. intros y.
  by apply keeps_bind.
Qed.

(** The postcondition of a run from [s]: the result, the events added and the
    final state. *)
Definition wp {A} (Q : result exn A → history → st → Prop) (m : E A) (s : st) : Prop :=
  ∃ l, hist (m s).1 = l ++ hist s ∧ Q (m s).2 l (m s).1.

Lemma wp_mono {A} (Q Q' : result exn A → history → st → Prop) (m : E A) s :
  wp Q m s → (∀ r l s', Q r l s' → Q' r l s') → wp Q' m s.
Proof. intros (l & Hl & HQ) H. exists l. auto. Qed.

(** Another way to run the same program. *)
Lemma wp_change {A} (m' m : E A) s' s (Q : result exn A → history → st → Prop) :
  m s = m' s' → hist s = hist s' → wp Q m' s' → wp Q m s.
Proof. intros Hm Hh. unfold wp. by rewrite Hm, Hh. Qed.

Lemma wp_ret {A} (Q : result exn A → history → st → Prop) (a : A) s :
  Q (Ok a) [] s → wp Q (mret a) s.
Proof. intros HQ. by exists []. Qed.

Lemma wp_lift {A} (Q : result exn A → history → st → Prop) (r : result exn A) s :
  Q r [] s → wp Q (se_lift r) s.
Proof. intros HQ. by exists []. Qed.

Lemma wp_raise {A} (Q : result exn A → history → st → Prop) e s :
  Q (Err e) [] s → wp Q (se_raise e) s.
Proof. intros HQ. by exists []. Qed.

Lemma wp_gets {A} (Q : result exn A → history → st → Prop) (f : st → A) s :
  Q (Ok (f s)) [] s → wp Q (se_gets f) s.
Proof. intros HQ. by exists []. Qed.

Lemma wp_set_local (Q : result exn unit → history → st → Prop) f s :
  Q (Ok tt) [] {| hist := hist s; local := f (local s) |} → wp Q (set_local f) s.
Proof. intros HQ. by exists []. Qed.

Lemma wp_perform (Q : result exn value → history → st → Prop) env c s :
  (let r := respond env (hist s) c in Q r [(c, r)] {| hist := (c, r) :: hist s; local := local s |}) →
  wp Q (perform env c) s.
Proof. intros HQ. by exists [(c, respond env (hist s) c)]. Qed.

Lemma wp_bind {A B} (Q : result exn B → history → st → Prop) (m : E A) (f : A → E B) s :
  wp (λ r l1 s1, match r with
                 | Ok a => wp (λ r l2 s2, Q r (l2 ++ l1) s2) (f a) s1
                 | Err e => Q (Err e) l1 s1
                 end) m s →
  wp Q (m ≫= f) s.
Proof.
  intros (l1 & Hl1 & H). unfold wp, mbind, se_bind. destruct (m s) as [s1 [a|e]]; cbn in *.
  - destruct H as (l2 & Hl2 & H). exists (l2 ++ l1). by rewrite <- app_assoc, <- Hl1.
  - by exists l1.
Qed.

Lemma wp_try {A} (Q : result exn A → history → st → Prop) (m : E A) h s :
  wp (λ r l1 s1, match r with
                 | Ok a => Q (Ok a) l1 s1
                 | Err e => wp (λ r l2 s2, Q r (l2 ++ l1) s2) (h e) s1
                 end) m s →
  wp Q (se_try m h) s.
Proof.
  intros (l1 & Hl1 & H). unfold wp, se_try. destruct (m s) as [s1 [a|e]]; cbn in *.
  - by exists l1.
  - destruct H as (l2 & Hl2 & H). exists (l2 ++ l1). by rewrite <- app_assoc, <- Hl1.
Qed.

(** A part whose details do not matter. *)
Lemma wp_adds {A} P (Q : result exn A → history → st → Prop) (m : E A) s :
  adds P m → (∀ r l s', Forall P l → Q r l s') → wp Q m s.
Proof. intros Hm HQ. destruct (Hm s) as (l & Hl & Hf). exists l. auto. Qed.

Lemma wp_adds_keeps {A} P (Q : result exn A → history → st → Prop) (m : E A) s :
  adds P m → keeps_local m → (∀ r l s', Forall P l → local s' = local s → Q r l s') → wp Q m s.
Proof. intros Hm Hk HQ. destruct (Hm s) as (l & Hl & Hf). exists l. auto. Qed.

Lemma wp_run {A} (Q : result exn A → history → st → Prop) (m : E A) s s' r :
  wp Q m s → m s = (s', r) → ∃ l, hist s' = l ++ hist s ∧ Q r l s'.
Proof. intros (l & Hl & HQ) E. rewrite E in *. by exists l. Qed.
End Rules.

(** Decompose a program; the remaining goals are about its calls. *)
Ltac adds_step :=
  first
    [ apply adds_ret | apply adds_lift | apply adds_raise | apply adds_gets
    | apply adds_set_local | apply adds_observe | apply adds_bind; [|intros ?]
    | apply adds_except; [|intros ?] | apply adds_try; [|intros ?]
    | apply adds_iter; intros ? _ | apply adds_map; intros ? | apply adds_user; intros ? ?
    | apply adds_perform_; intros ? | apply adds_perform; intros ? ].
Ltac adds_auto :=
  repeat first
    [ solve [eauto 3 with adds]
    | progress adds_step
    | match goal with |- adds _ (match ?x with _ => _ end) => destruct x end
    | done ].

Create HintDb adds.
Create HintDb keeps.

Ltac keeps_auto :=
  repeat first
    [ solve [eauto with keeps]
    | done
    | apply keeps_bind; [|intros ?] | apply keeps_try; [|intros ?]
    | apply keeps_iter; intros ? | apply keeps_map; intros ?
    | match goal with |- keeps_local (match ?x with _ => _ end) => destruct x end ].
