(* ===== verification/Executor.v ===== *)
(** * The delivery executor ([onestep/runtime/executor.py])

    [DeliveryExecutor.execute] and every method it calls, as programs over
    the effects of [Effects]. *)

From stdpp Require Import base option list strings numbers.
From Stdlib Require Import ZArith.
From S2P Require Import Prelude PyFloat Value Resilience Invoke Retry Events Task Execution Effects.

(** ** Outcomes *)

Inductive DeliveryAction := ACT_ACK | ACT_RETRY | ACT_DEAD_LETTER | ACT_FAIL.

#[global] Instance DeliveryAction_eq_dec : EqDecision DeliveryAction.
Proof. solve_decision. Defined.

Record ExecutionOutcome := {
  completion : string;
  handler_result : value;
  selected_sinks : list string;
  delivery_action : option DeliveryAction;
  retry_delay_s : option float64;
  failure : option FailureInfo;
  public_failure : option (list (string * string));
  failure_stage : option string;
  dead_letter_attempted : bool;
  dead_letter_published : option bool;
  terminal : bool;
  capture_envelope : option Envelope;
  capture_snapshot_error_type : option string;
}.

(** [ExecutionOutcome(completion="running")]. *)
Definition running_outcome : ExecutionOutcome :=
  {| completion := "running"; handler_result := VNone; selected_sinks := [];
     delivery_action := None; retry_delay_s := None; failure := None;
     public_failure := None; failure_stage := None; dead_letter_attempted := false;
     dead_letter_published := None; terminal := false; capture_envelope := None;
     capture_snapshot_error_type := None |}.

(** The local variables of [execute] that its exception handlers read. *)
Record exec_locals := {
  outcome : ExecutionOutcome;
  active_stage : string;
}.

Definition initial_locals : exec_locals :=
  {| outcome := running_outcome; active_stage := "delivery_action" |}.

Definition set_completion (c : string) (t : bool) (o : ExecutionOutcome) : ExecutionOutcome :=
  {| completion := c; handler_result := handler_result o; selected_sinks := selected_sinks o;
     delivery_action := delivery_action o; retry_delay_s := retry_delay_s o;
     failure := failure o; public_failure := public_failure o;
     failure_stage := failure_stage o; dead_letter_attempted := dead_letter_attempted o;
     dead_letter_published := dead_letter_published o; terminal := t;
     capture_envelope := capture_envelope o;
     capture_snapshot_error_type := capture_snapshot_error_type o |}.

Definition set_result (v : value) (o : ExecutionOutcome) : ExecutionOutcome :=
  {| completion := completion o; handler_result := v; selected_sinks := selected_sinks o;
     delivery_action := delivery_action o; retry_delay_s := retry_delay_s o;
     failure := failure o; public_failure := public_failure o;
     failure_stage := failure_stage o; dead_letter_attempted := dead_letter_attempted o;
     dead_letter_published := dead_letter_published o; terminal := terminal o;
     capture_envelope := capture_envelope o;
     capture_snapshot_error_type := capture_snapshot_error_type o |}.

Definition set_selected (ns : list string) (o : ExecutionOutcome) : ExecutionOutcome :=
  {| completion := completion o; handler_result := handler_result o; selected_sinks := ns;
     delivery_action := delivery_action o; retry_delay_s := retry_delay_s o;
     failure := failure o; public_failure := public_failure o;
     failure_stage := failure_stage o; dead_letter_attempted := dead_letter_attempted o;
     dead_letter_published := dead_letter_published o; terminal := terminal o;
     capture_envelope := capture_envelope o;
     capture_snapshot_error_type := capture_snapshot_error_type o |}.

Definition set_action (a : DeliveryAction) (d : option float64) (o : ExecutionOutcome)
    : ExecutionOutcome :=
  {| completion := completion o; handler_result := handler_result o;
     selected_sinks := selected_sinks o;
     delivery_action := Some a; retry_delay_s := d;
     failure := failure o; public_failure := public_failure o;
     failure_stage := failure_stage o; dead_letter_attempted := dead_letter_attempted o;
     dead_letter_published := dead_letter_published o; terminal := terminal o;
     capture_envelope := capture_envelope o;
     capture_snapshot_error_type := capture_snapshot_error_type o |}.

Definition set_failure (f : FailureInfo) (o : ExecutionOutcome) : ExecutionOutcome :=
  {| completion := completion o; handler_result := handler_result o;
     selected_sinks := selected_sinks o;
     delivery_action := delivery_action o; retry_delay_s := retry_delay_s o;
     failure := Some f; public_failure := public_failure o;
     failure_stage := failure_stage o; dead_letter_attempted := dead_letter_attempted o;
     dead_letter_published := dead_letter_published o; terminal := terminal o;
     capture_envelope := capture_envelope o;
     capture_snapshot_error_type := capture_snapshot_error_type o |}.

Definition set_public_failure (p : list (string * string)) (o : ExecutionOutcome)
    : ExecutionOutcome :=
  {| completion := completion o; handler_result := handler_result o;
     selected_sinks := selected_sinks o;
     delivery_action := delivery_action o; retry_delay_s := retry_delay_s o;
     failure := failure o; public_failure := Some p;
     failure_stage := failure_stage o; dead_letter_attempted := dead_letter_attempted o;
     dead_letter_published := dead_letter_published o; terminal := terminal o;
     capture_envelope := capture_envelope o;
     capture_snapshot_error_type := capture_snapshot_error_type o |}.

Definition set_failure_stage (s : string) (o : ExecutionOutcome) : ExecutionOutcome :=
  {| completion := completion o; handler_result := handler_result o;
     selected_sinks := selected_sinks o;
     delivery_action := delivery_action o; retry_delay_s := retry_delay_s o;
     failure := failure o; public_failure := public_failure o;
     failure_stage := Some s; dead_letter_attempted := dead_letter_attempted o;
     dead_letter_published := dead_letter_published o; terminal := terminal o;
     capture_envelope := capture_envelope o;
     capture_snapshot_error_type := capture_snapshot_error_type o |}.

Definition set_dead_letter (attempted : bool) (published : option bool) (o : ExecutionOutcome)
    : ExecutionOutcome :=
  {| completion := completion o; handler_result := handler_result o;
     selected_sinks := selected_sinks o;
     delivery_action := delivery_action o; retry_delay_s := retry_delay_s o;
     failure := failure o; public_failure := public_failure o;
     failure_stage := failure_stage o; dead_letter_attempted := attempted;
     dead_letter_published := published; terminal := terminal o;
     capture_envelope := capture_envelope o;
     capture_snapshot_error_type := capture_snapshot_error_type o |}.

Definition set_snapshot (e : option Envelope) (t : option string) (o : ExecutionOutcome)
    : ExecutionOutcome :=
  {| completion := completion o; handler_result := handler_result o;
     selected_sinks := selected_sinks o;
     delivery_action := delivery_action o; retry_delay_s := retry_delay_s o;
     failure := failure o; public_failure := public_failure o;
     failure_stage := failure_stage o; dead_letter_attempted := dead_letter_attempted o;
     dead_letter_published := dead_letter_published o; terminal := terminal o;
     capture_envelope := e; capture_snapshot_error_type := t |}.

(** ** Notifications *)

(** [_sanitize_notification_value]; [None] is [_INVALID_NOTIFICATION_VALUE]. *)
Fixpoint _sanitize_notification_value (v : value) : option value :=
  match v with
  | VNone | VBool _ | VInt _ | VStr _ => Some v
  | VFloat x => if isfinite x then Some v else None
  | VDict items =>
      Some (VDict ((fix go items := match items with
                    | [] => []
                    | (VStr k, x) :: items =>
                        match _sanitize_notification_value x with
                        | Some y => (VStr k, y) :: go items
                        | None => go items
                        end
                    | _ :: items => go items
                    end) items))
  | VList vs | VTuple vs | VNamedTuple _ _ _ vs =>
      Some (VList ((fix go vs := match vs with
                    | [] => []
                    | x :: vs =>
                        match _sanitize_notification_value x with
                        | Some y => y :: go vs
                        | None => go vs
                        end
                    end) vs))
  | _ => None
  end.

(** [_extract_notification_payload]. *)
Definition _extract_notification_payload (res : value) : option value :=
  match res with
  | VDict items =>
      match vdict_get "notification" items with
      | Some (VDict n) =>
          match _sanitize_notification_value (VDict n) with
          | Some (VDict (kv :: s)) => Some (VDict (kv :: s))
          | _ => None
          end
      | _ => None
      end
  | _ => None
  end.

(** ** Configuration *)

(** The [OneStepApp] and the arguments of [DeliveryExecutor]: [emitter] is
    [None] for a custom event emitter and the app's event handlers
    otherwise, [production_sinks] tells that no sink dispatcher was given. *)
Record exec_config := {
  app_name : string;
  task : TaskSpec;
  emitter : option (list user_fn);
  production_sinks : bool;
  apply_delivery_actions : bool;
  custom_checkpoint : bool;
  capture_mode : option string;
  managed : bool;
}.

Section Executor.
Context (fpow : float64 → Z → option float64) (uniform : float64 → float64 → float64).
(** [copy.deepcopy], which calls user code, and [bool(...)]. *)
Context (deepcopy : value → result exn value) (truth : value → bool).
Context (env : environment) (cfg : exec_config).

Abbreviation X := (SE (@st exec_locals) exn).

Definition update (f : ExecutionOutcome → ExecutionOutcome) : X unit :=
  set_local (λ l, {| outcome := f (outcome l); active_stage := active_stage l |}).

Definition enter_stage (s : string) : X unit :=
  set_local (λ l, {| outcome := outcome l; active_stage := s |}).

Definition get_outcome : X ExecutionOutcome := se_gets (λ s, outcome (local s)).

Definition get_envelope : X Envelope := observe env envelope_at.
Definition get_payload : X value := se_gets (λ s, body (envelope_at env (hist s))).

(** [copy.deepcopy] of a headers dict and of an envelope. *)
Definition deepcopy_meta (m : list (string * value)) : result exn (list (string * value)) :=
  mapR (λ kv : string * value, v ← deepcopy kv.2; Ok (kv.1, v)) m.

Definition deepcopy_envelope (e : Envelope) : result exn Envelope :=
  b ← deepcopy (body e);
  m ← deepcopy_meta (meta e);
  Ok {| body := b; meta := m; attempts := attempts e |}.

Definition checkpoint (phase transition : string) (selected : option (list string)) : X unit :=
  if custom_checkpoint cfg then perform_ env (CCheckpoint phase transition selected) else mret ().

(** ** Events *)

(** [OneStepApp.emit_event]: a handler that fails is logged. *)
Definition emit_event (handlers : list user_fn) (e : TaskEvent) : X unit :=
  se_iter (λ h, except_exception
                  (_ ← invoke_user env h [AEvent e]; mret ())
                  (λ _, mret ())) handlers.

Definition _event_emitter (e : TaskEvent) : X unit :=
  match emitter cfg with
  | Some handlers => emit_event handlers e
  | None => perform_ env (CEmitter e)
  end.

Definition emit (kind : TaskEventKind) (duration_s : option float64) (f : option FailureInfo)
    (event_meta : option (list (string * value))) : X unit :=
  e ← get_envelope;
  m ← se_lift (deepcopy_meta (default (meta e) event_meta));
  now ← observe env now_at;
  _event_emitter {| ev_kind := kind; ev_app := app_name cfg; ev_task := ts_name (task cfg);
                    ev_source := ts_source (task cfg); ev_attempts := attempts e;
                    ev_emitted_at := now; ev_duration_s := duration_s; ev_failure := f;
                    ev_meta := m |}.

Definition _build_succeeded_event_meta (res : value) : X (list (string * value)) :=
  e ← get_envelope;
  m ← se_lift (deepcopy_meta (meta e));
  mret (match _extract_notification_payload res with
        | Some n => dict_set "notification" n m
        | None => m
        end).

(** ** Hooks, handler, routing *)

Definition _run_hooks (suppress : bool) (hooks : list user_fn) (args : list user_arg) : X unit :=
  se_iter (λ h, except_exception
                  (_ ← invoke_user env h args; mret ())
                  (λ e, if suppress then mret () else se_raise e)) hooks.

Definition _invoke_handler : X value :=
  payload ← get_payload;
  perform env (CHandler (ts_handler (task cfg)) payload (timeout_s (task cfg))).

Definition select_target (payload res : value) (t : emit_target) : X (list EmitBinding) :=
  match t with
  | TBinding b => mret [b]
  | TRoute r =>
      match er_predicate r with
      | None => mret (then_bindings r)
      | Some p =>
          v ← invoke_user env p [AContext; AValue payload; AValue res];
          mret (if truth v then then_bindings r else otherwise_bindings r)
      end
  end.

Definition _select_emit_bindings (payload res : value) : X (list EmitBinding) :=
  bs ← se_map (select_target payload res) (emit_targets (task cfg));
  mret (concat bs).

Definition prepare_binding (payload res : value) (b : EmitBinding) : X (Sink * Envelope) :=
  v ← match eb_transform b with
      | None => mret res
      | Some t => invoke_user env t [AContext; AValue payload; AValue res]
      end;
  mret (eb_sink b, envelope_of_body v).

Definition _prepare_emit_envelopes (bindings : list EmitBinding) (payload res : value)
    : X (list (Sink * Envelope)) :=
  se_map (prepare_binding payload res) bindings.

(** ** Sinks *)

(** [getattr(sink, "poll_interval_s", 1.0)]. *)
Definition sink_fallback (s : Sink) : float64 := default f_one (sk_poll_interval_s s).

(** The loop of [_send_to_sink] with [n] attempts to go. *)
Fixpoint send_attempts (n : nat) (s : Sink) (e : Envelope) : X unit :=
  match n with
  | O => mret ()
  | S n =>
      se_try (perform_ env (CSend s e)) (λ exc,
        match exn_cls exc with
        | CConnector _ _ kind _ rd _ =>
            if negb (retryable_kind kind) || (n =? 0)%nat then se_raise exc
            else
              let delay := connector_retry_delay rd kind (sink_fallback s) in
              stopping ← observe env is_stopping_at;
              if fleb delay f_zero || stopping then send_attempts n s e
              else
                timed_out ← se_try (_ ← perform env (CWaitShutdown delay); mret false)
                              (λ e, if is_timeout e then mret true else se_raise e);
                if timed_out : bool then send_attempts n s e else se_raise exc
        | _ => se_raise exc
        end)
  end.

Definition _SEND_ATTEMPTS : nat := 2.

Definition _send_to_sink (s : Sink) (e : Envelope) : X unit := send_attempts _SEND_ATTEMPTS s e.

(** [_sink_dispatcher]: the given one or [_dispatch_production_sink]. *)
Definition _sink_dispatcher (s : Sink) (e : Envelope) (kind : string) : X bool :=
  if production_sinks cfg
  then _ ← (if String.eqb kind "dead_letter" then perform_ env (CSend s e) else _send_to_sink s e);
       mret true
  else v ← perform env (CDispatch s e kind); mret (truth v).

(** ** Settling the delivery *)

Definition _complete_managed_execution (c : ExecutionCompletion) : X bool :=
  se_try (_ ← perform env (CComplete c); mret true)
         (λ e, if is_lease_lost e then mret false else se_raise e).

Definition opt_float_value (d : option float64) : value :=
  match d with Some x => VFloat x | None => VNone end.

Definition opt_error_arg (e : option ExecutionErrorDetail) : error_arg :=
  match e with Some d => ErrorDetail d | None => NoError end.

(** [ExecutionCompletion(status=..., result=..., error=..., delay_s=...)]. *)
Definition make_completion (status : ExecutionStatus) (res : value)
    (error : option ExecutionErrorDetail) (delay : value) : X ExecutionCompletion :=
  se_lift (mk_ExecutionCompletion (StatusMember status) res (opt_error_arg error) delay).

Definition _apply_success (res : value) : X unit :=
  if managed cfg
  then c ← make_completion SUCCEEDED res None VNone;
       _ ← _complete_managed_execution c; mret ()
  else perform_ env CAck.

Definition opt_text_value (o : option string) : value :=
  match o with Some s => VStr s | None => VNone end.

Definition _execution_error (o : ExecutionOutcome) : result exn (option ExecutionErrorDetail) :=
  match public_failure o with
  | None => Ok None
  | Some p =>
      match dict_get "failure_kind" p, dict_get "exception_type" p with
      | Some k, Some t =>
          d ← mk_ExecutionErrorDetail (VStr k) (VStr t) (opt_text_value (failure_stage o))
                (opt_text_value (dict_get "backend" p)) (opt_text_value (dict_get "operation" p))
                (opt_text_value (dict_get "connector_kind" p));
          Ok (Some d)
      | _, _ => Err (key_error "failure_kind")
      end
  end.

Definition current_error : X (option ExecutionErrorDetail) :=
  o ← get_outcome; se_lift (_execution_error o).

Definition _apply_retry (delay : option float64) (error : option ExecutionErrorDetail) : X unit :=
  _ ← checkpoint "delivery_action" "entered" None;
  _ ← (if apply_delivery_actions cfg
       then if managed cfg
            then c ← make_completion RETRYING VNone error (opt_float_value delay);
                 _ ← _complete_managed_execution c; mret ()
            else perform_ env (CRetry delay)
       else mret ());
  checkpoint "delivery_action" "completed" None.

(** The branch of [_fail_delivery] for managed executions. *)
Definition fail_managed (error : option ExecutionErrorDetail) : X bool :=
  se_try
    (c ← make_completion FAILED VNone error VNone;
     _ ← _complete_managed_execution c; mret true)
    (λ e, if is_exception e
          then c ← make_completion RETRYING VNone error VNone;
               retried ← _complete_managed_execution c; mret (negb retried)
          else se_raise e).

Definition fail_plain (exc : exn) : X bool :=
  se_try (_ ← perform env (CFail exc); mret true)
         (λ e, if is_exception e then _ ← perform env (CRetry None); mret false
               else se_raise e).

Definition _fail_delivery (exc : exn) (error : option ExecutionErrorDetail) : X bool :=
  if negb (apply_delivery_actions cfg) then mret true
  else
    _ ← checkpoint "delivery_action" "entered" None;
    terminal ← (if managed cfg then fail_managed error else fail_plain exc);
    _ ← checkpoint "delivery_action" "completed" None;
    mret terminal.

(** ** Failures *)

Definition _public_failure (f : FailureInfo) (exc : option exn) : list (string * string) :=
  let res := [("failure_kind", failure_kind_value (fi_kind f));
              ("exception_type", fi_exception_type f)] in
  match exn_cls <$> exc with
  | Some (CConnector backend operation kind _ _ _) =>
      dict_set "connector_kind" (kind_value kind)
        (dict_set "operation" (operation_value operation) (dict_set "backend" backend res))
  | _ => res
  end.

Definition _snapshot_capture_envelope : X unit :=
  match capture_mode cfg with
  | None => mret ()
  | Some _ =>
      e ← get_envelope;
      match deepcopy_envelope e with
      | Ok c => update (λ o, set_snapshot (Some c) (capture_snapshot_error_type o) o)
      | Err exc => if is_exception exc
                   then update (λ o, set_snapshot (capture_envelope o) (Some (exn_type_name exc)) o)
                   else se_raise exc
      end
  end.

Definition _capture_failure : X unit :=
  o ← get_outcome;
  e ← get_envelope;
  match capture_mode cfg, failure o with
  | Some mode, Some f =>
      if String.eqb mode "terminal" && negb (terminal o) then mret ()
      else
        match capture_snapshot_error_type o with
        | Some _ => mret ()
        | None =>
            except_exception
              (perform_ env (CCapture {| cr_stage := default "delivery_action" (failure_stage o);
                                         cr_terminal := terminal o; cr_failure := f;
                                         cr_envelope := default e (capture_envelope o) |}))
              (λ _, mret ())
        end
  | _, _ => mret ()
  end.

(** The envelope of [_publish_dead_letter]. *)
Definition dead_letter_envelope (e : Envelope) (f : FailureInfo) : result exn Envelope :=
  payload ← deepcopy (body e);
  m ← deepcopy_meta (meta e);
  Ok {| body := VStrDict [("payload", payload); ("failure", VStrDict (failure_as_dict f))];
        meta := [("app", VStr (app_name cfg)); ("task", VStr (ts_name (task cfg)));
                 ("source", match ts_source (task cfg) with Some s => VStr s | None => VNone end);
                 ("original_meta", VStrDict m); ("original_attempts", VInt (attempts e))];
        attempts := 0 |}.

(** The loop over the dead-letter sinks: did any really send? *)
Fixpoint publish_all (sinks : list Sink) (e : Envelope) (any_real_send : bool) : X bool :=
  match sinks with
  | [] => mret any_real_send
  | s :: sinks => sent ← _sink_dispatcher s e "dead_letter";
                  publish_all sinks e (any_real_send || sent)
  end.

Definition _publish_dead_letter (f : FailureInfo) (duration_s : option float64) : X bool :=
  e ← get_envelope;
  dl ← se_lift (dead_letter_envelope e f);
  sent ← se_try (any ← publish_all (dead_letter_sinks (task cfg)) dl false; mret (Some any))
           (λ exc, if is_exception exc then mret None else se_raise exc);
  match sent with
  | None =>
      _ ← update (set_dead_letter true (Some false));
      _ ← update (λ o, set_action ACT_RETRY (retry_delay_s o) o);
      error ← current_error;
      _ ← _apply_retry None error;
      _ ← emit EV_RETRIED duration_s (Some f) None;
      mret false
  | Some any =>
      _ ← update (set_dead_letter any (if any : bool then Some true else None));
      _ ← emit EV_DEAD_LETTERED duration_s (Some f) None;
      mret true
  end.

(** The end of [_handle_failure], after the retry policy chose to fail. *)
Definition fail_after_policy (exc : exn) (f : FailureInfo) (duration_s : option float64) : X unit :=
  published ← (match dead_letter_sinks (task cfg) with
               | [] => _ ← update (λ o, set_action ACT_FAIL (retry_delay_s o) o); mret true
               | _ => _ ← update (λ o, set_action ACT_DEAD_LETTER (retry_delay_s o) o);
                      _publish_dead_letter f duration_s
               end : X bool);
  if negb published then _capture_failure
  else
    error ← current_error;
    t ← _fail_delivery exc error;
    _ ← update (λ o, set_completion (completion o) t o);
    _ ← (if t : bool then mret () else update (λ o, set_action ACT_RETRY (retry_delay_s o) o));
    _ ← emit EV_FAILED duration_s (Some f) None;
    _capture_failure.

Definition elapsed (started_at : float64) : X (option float64) :=
  now ← observe env perf_counter_at; mret (Some (fsub now started_at)).

Definition _handle_failure (exc : exn) (kind : FailureKind) (started_at : float64)
    : X ExecutionOutcome :=
  duration_s ← elapsed started_at;
  let f := from_exception exc kind in
  _ ← update (set_failure f);
  _ ← _snapshot_capture_envelope;
  _ ← update (set_public_failure (_public_failure f (Some exc)));
  _ ← update (λ o, set_completion "failed" (terminal o) o);
  _ ← checkpoint "failure_hook" "entered" None;
  payload ← get_payload;
  _ ← _run_hooks true (on_failure (ts_hooks (task cfg))) [AContext; AValue payload; AFailure f];
  _ ← checkpoint "failure_hook" "completed" None;
  e ← get_envelope;
  action ← se_lift (resolve_retry_action fpow uniform (ts_retry (task cfg)) e exc f);
  _ ← (match decision action with
       | RETRY =>
           _ ← update (set_action ACT_RETRY (delay_s action));
           error ← current_error;
           _ ← _apply_retry (delay_s action) error;
           _ ← emit EV_RETRIED duration_s (Some f) None;
           _capture_failure
       | FAIL => fail_after_policy exc f duration_s
       end);
  get_outcome.

Definition _handle_cancelled (started_at : float64) : X unit :=
  let f := from_exception (Exn CCancelled "CancelledError" "" None) FK_CANCELLED in
  _ ← update (set_failure f);
  _ ← _snapshot_capture_envelope;
  _ ← update (set_public_failure (_public_failure f None));
  _ ← update (λ o, set_action ACT_RETRY (retry_delay_s o) o);
  requested ← (if managed cfg then observe env cancel_requested_at else mret false : X bool);
  let managed_status := if requested : bool then CANCELLED else RETRYING in
  _ ← update (set_completion (if managed cfg then status_value managed_status else "cancelled")
                (managed cfg && requested));
  duration_s ← elapsed started_at;
  _ ← emit EV_CANCELLED duration_s (Some f) None;
  _ ← (if apply_delivery_actions cfg
       then
         error ← current_error;
         if managed cfg
         then c ← make_completion managed_status VNone error
                    (if requested then VNone else VInt 0);
              _ ← _complete_managed_execution c; mret ()
         else perform_ env (CRetry None)
       else mret ());
  _ ← (if negb (managed cfg) || negb requested
       then emit EV_RETRIED duration_s (Some f) None
       else mret ());
  _capture_failure.

(** ** [execute] *)

Definition run_emit (res : value) : X unit :=
  _ ← enter_stage "route";
  _ ← checkpoint "route" "entered" None;
  payload ← get_payload;
  selected ← _select_emit_bindings payload res;
  let names := (λ b, sk_name (eb_sink b)) <$> selected in
  _ ← update (set_selected names);
  _ ← checkpoint "route" "completed" (Some names);
  _ ← enter_stage "transform";
  _ ← checkpoint "transform" "entered" None;
  payload ← get_payload;
  prepared ← _prepare_emit_envelopes selected payload res;
  _ ← checkpoint "transform" "completed" None;
  se_iter (λ se : Sink * Envelope,
             _ ← enter_stage "sink";
             _ ← _sink_dispatcher se.1 se.2 "emit"; mret ()) prepared.

Definition is_none (v : value) : bool := match v with VNone => true | _ => false end.

(** Stage [stage] between its two checkpoints. *)
Definition in_stage {A} (stage : string) (m : X A) : X A :=
  _ ← enter_stage stage;
  _ ← checkpoint stage "entered" None;
  a ← m;
  _ ← checkpoint stage "completed" None;
  mret a.

(** The body of the [try], up to the acknowledgement. *)
Definition process_delivery : X value :=
  _ ← perform env CStartProcessing;
  _ ← emit EV_STARTED None None None;
  _ ← in_stage "before_hook" (
        payload ← get_payload;
        _run_hooks false (before (ts_hooks (task cfg))) [AContext; AValue payload]);
  res ← in_stage "handler" (
        res ← _invoke_handler; _ ← update (set_result res); mret res);
  _ ← in_stage "after_success_hook" (
        payload ← get_payload;
        _run_hooks false (after_success (ts_hooks (task cfg)))
          [AContext; AValue payload; AValue res]);
  _ ← (match is_none res, emit_targets (task cfg) with
       | false, _ :: _ => run_emit res
       | _, _ => mret ()
       end);
  mret res.

(** The rest of it. *)
Definition acknowledge (started_at : float64) (res : value) : X unit :=
  _ ← enter_stage "ack";
  _ ← update (λ o, set_action ACT_ACK (retry_delay_s o) o);
  _ ← checkpoint "ack" "entered" None;
  _ ← (if apply_delivery_actions cfg then _apply_success res else mret ());
  _ ← checkpoint "ack" "completed" None;
  duration_s ← elapsed started_at;
  m ← _build_succeeded_event_meta res;
  emit EV_SUCCEEDED duration_s None (Some m).

Definition execute_body (started_at : float64) : X ExecutionOutcome :=
  res ← process_delivery;
  _ ← acknowledge started_at res;
  _ ← update (set_completion "succeeded" true);
  get_outcome.

(** [outcome.failure_stage = active_stage]. *)
Definition record_stage : X unit :=
  set_local (λ l, {| outcome := set_failure_stage (active_stage l) (outcome l);
                     active_stage := active_stage l |}).

(** The [except] clauses. *)
Definition handle_exception (started_at : float64) (exc : exn) : X ExecutionOutcome :=
  if is_cancelled exc
  then _ ← record_stage; _ ← _handle_cancelled started_at; se_raise exc
  else if is_timeout exc
  then _ ← record_stage; _handle_failure exc FK_TIMEOUT started_at
  else if is_exception exc
  then _ ← record_stage; _handle_failure exc FK_ERROR started_at
  else se_raise exc.

Definition execute : X ExecutionOutcome :=
  _ ← set_local (λ _, initial_locals);
  started_at ← observe env perf_counter_at;
  se_try (execute_body started_at) (handle_exception started_at).
End Executor.
