(* ===== verification/Settlement.v ===== *)
(** * How the executor settles a delivery

    Every delivery ends in a call of [ack], [retry], [fail] or, for a managed
    execution, [complete_execution].  The lemmas of this file say which of
    these calls each part of [Executor] makes; the theorems say that they
    agree with the reported outcome. *)

From stdpp Require Import base option list strings numbers.
From Stdlib Require Import ZArith Lia.
From S2P Require Import Prelude PyFloat Value Resilience Invoke Retry Events Task Execution Effects Executor.

(** ** Classes of events *)

Definition is_settle_call (c : call) : bool :=
  match c with CAck | CRetry _ | CFail _ | CComplete _ => true | _ => false end.

Definition is_send_call (c : call) : bool :=
  match c with CSend _ _ | CDispatch _ _ _ => true | _ => false end.

(** The call took effect; an execution whose lease is lost is in the hands
    of its backend. *)
Definition settles (ev : event) : bool :=
  match ev with
  | (CAck, Ok _) | (CRetry _, Ok _) | (CFail _, Ok _) | (CComplete _, Ok _) => true
  | (CComplete _, Err e) => is_lease_lost e
  | _ => false
  end.

Definition completes (st : ExecutionStatus) (c : call) : bool :=
  match c with CComplete c => bool_decide (cp_status c = st) | _ => false end.

Definition is_success_call (c : call) : bool :=
  match c with CAck => true | _ => completes SUCCEEDED c end.
Definition is_retry_call (c : call) : bool :=
  match c with CRetry _ => true | _ => completes RETRYING c end.
Definition is_fail_call (c : call) : bool :=
  match c with CFail _ => true | _ => completes FAILED c end.
Definition is_cancel_call (c : call) : bool := completes CANCELLED c.

(** Neither a settlement nor a send; no settlement. *)
Definition idle (ev : event) : Prop := is_settle_call ev.1 = false ∧ is_send_call ev.1 = false.
Definition quiet (ev : event) : Prop := is_settle_call ev.1 = false.

Lemma quiet_settles ev : quiet ev → settles ev = false.
Proof. by destruct ev as [[] [|]]. Qed.

Lemma idle_quiet ev : idle ev → quiet ev.
Proof. by intros []. Qed.

(** ** What each part adds *)

Section Frames.
Context (fpow : float64 → Z → option float64) (uniform : float64 → float64 → float64).
Context (deepcopy : value → result exn value) (truth : value → bool).
Context (env : environment) (cfg : exec_config).

Lemma checkpoint_idle p t sel : adds idle (checkpoint env cfg p t sel).
Proof. unfold checkpoint. adds_auto. Qed.
Local Hint Resolve checkpoint_idle : adds.

Lemma emitter_idle e : adds idle (_event_emitter env cfg e).
Proof. unfold _event_emitter, emit_event. adds_auto. Qed.
Local Hint Resolve emitter_idle : adds.

Lemma emit_idle k d f m : adds idle (emit deepcopy env cfg k d f m).
Proof. unfold emit, get_envelope. adds_auto. Qed.
Local Hint Resolve emit_idle : adds.

Lemma hooks_idle b hs args : adds idle (_run_hooks env b hs args).
Proof. unfold _run_hooks. adds_auto. Qed.
Local Hint Resolve hooks_idle : adds.

Lemma handler_idle : adds idle (_invoke_handler env cfg).
Proof. unfold _invoke_handler, get_payload. adds_auto. Qed.
Local Hint Resolve handler_idle : adds.

Lemma select_idle p r : adds idle (_select_emit_bindings truth env cfg p r).
Proof. unfold _select_emit_bindings, select_target. adds_auto. Qed.

Lemma prepare_idle bs p r : adds idle (_prepare_emit_envelopes env bs p r).
Proof. unfold _prepare_emit_envelopes, prepare_binding. adds_auto. Qed.

Lemma send_attempts_quiet n sk e : adds quiet (send_attempts env n sk e).
Proof. induction n as [|n IH]; cbn [send_attempts]; adds_auto. Qed.
Local Hint Resolve send_attempts_quiet : adds.

Lemma dispatcher_quiet sk e k : adds quiet (_sink_dispatcher truth env cfg sk e k).
Proof. unfold _sink_dispatcher, _send_to_sink. adds_auto. Qed.

Lemma capture_idle : adds idle (_capture_failure env cfg).
Proof. unfold _capture_failure, get_outcome, get_envelope. adds_auto. Qed.

Lemma snapshot_idle : adds idle (_snapshot_capture_envelope deepcopy env cfg).
Proof. unfold _snapshot_capture_envelope, get_envelope, update. adds_auto. Qed.

(** None of these changes the local variables. *)
Lemma checkpoint_keeps p t sel : keeps_local (checkpoint env cfg p t sel).
Proof. unfold checkpoint, perform_. keeps_auto. Qed.
Local Hint Resolve checkpoint_keeps : keeps.

Lemma emitter_keeps e : keeps_local (_event_emitter env cfg e).
Proof. unfold _event_emitter, emit_event, except_exception, perform_. keeps_auto. Qed.
Local Hint Resolve emitter_keeps : keeps.

Lemma emit_keeps k d f m : keeps_local (emit deepcopy env cfg k d f m).
Proof. unfold emit, get_envelope. keeps_auto. Qed.

Lemma hooks_keep b hs args : keeps_local (_run_hooks env b hs args).
Proof. unfold _run_hooks, except_exception. keeps_auto. Qed.

Lemma capture_keeps : keeps_local (_capture_failure env cfg).
Proof. unfold _capture_failure, get_outcome, get_envelope, except_exception, perform_. keeps_auto. Qed.

Lemma send_attempts_keep n sk e : keeps_local (send_attempts env n sk e).
Proof. induction n as [|n IH]; cbn [send_attempts]; unfold perform_, observe; keeps_auto. Qed.
Local Hint Resolve send_attempts_keep : keeps.

Lemma dispatcher_keeps sk e k : keeps_local (_sink_dispatcher truth env cfg sk e k).
Proof. unfold _sink_dispatcher, _send_to_sink, perform_. keeps_auto. Qed.

(** ** The settling parts *)

Definition settled (l : history) : history := List.filter settles l.

Lemma settled_app l1 l2 : settled (l1 ++ l2) = settled l1 ++ settled l2.
Proof. apply List.filter_app. Qed.

Lemma settled_quiet l : Forall quiet l → settled l = [].
Proof.
  induction 1 as [|ev l Hev Hl IH]; [done|]. unfold settled in *. cbn.
  by rewrite (quiet_settles ev Hev).
Qed.

Lemma settled_idle l : Forall idle l → settled l = [].
Proof. intros Hl. apply settled_quiet. by eapply Forall_impl; [apply idle_quiet|]. Qed.

(** A call that satisfies [p] settled the delivery, and nothing else did. *)
Definition settled_by (p : call → bool) (l : history) : Prop :=
  ∃ ev, settled l = [ev] ∧ p ev.1 = true.

(** The same, or nothing settled it. *)
Definition settled_by_at_most (p : call → bool) (l : history) : Prop :=
  settled l = [] ∨ settled_by p l.

Lemma settled_by_app_l p l1 l2 : settled_by p l2 → Forall quiet l1 → settled_by p (l1 ++ l2).
Proof. intros (ev & He & Hp) Hl. exists ev. by rewrite settled_app, (settled_quiet l1 Hl), He. Qed.

Lemma settled_by_app_r p l1 l2 : settled_by p l1 → Forall quiet l2 → settled_by p (l1 ++ l2).
Proof. intros (ev & He & Hp) Hl. exists ev. by rewrite settled_app, (settled_quiet l2 Hl), He. Qed.

(** [_complete_managed_execution]. *)
Lemma wp_complete_managed (Q : result exn bool → history → st → Prop) c s :
  (∀ r s', local s' = local s → settles (CComplete c, r) = true →
     Q (Ok (is_ok r)) [(CComplete c, r)] s') →
  (∀ e s', local s' = local s → settles (CComplete c, Err e) = false →
     Q (Err e) [(CComplete c, Err e)] s') →
  wp Q (_complete_managed_execution env c) s.
Proof.
  intros Hok Herr. unfold _complete_managed_execution. apply wp_try, wp_bind, wp_perform.
  cbv zeta. destruct (respond env (hist s) (CComplete c)) as [v|e] eqn:E.
  - apply wp_ret. cbn. by apply (Hok (Ok v)).
  - destruct (is_lease_lost e) eqn:El.
    + apply wp_ret. cbn. by apply (Hok (Err e)).
    + apply wp_raise. cbn. by apply Herr.
Qed.

(** [make_completion] keeps the status, or raises. *)
Lemma wp_make_completion (Q : result exn ExecutionCompletion → history → st → Prop) st res er d s :
  (∀ c, cp_status c = st → cp_result c = res → cp_error c = er → Q (Ok c) [] s) →
  (∀ e, _validate_delay d = Err e → is_completion st = true → Q (Err e) [] s) →
  is_completion st = true →
  wp Q (make_completion st res er d) s.
Proof.
  intros Hok Herr Hst. unfold make_completion. apply wp_lift. unfold mk_ExecutionCompletion.
  cbn [coerce_status mbind result_bind]. rewrite Hst. cbn [guard_else mbind result_bind].
  destruct er as [er|]; cbn [opt_error_arg mbind result_bind];
    (destruct (_validate_delay d) as [o|e] eqn:Ed; cbn; [by apply Hok | by apply Herr]).
Qed.

(** [ack] or a success is reported exactly when it took effect. *)
Lemma apply_success_settles res s :
  wp (λ r l s', local s' = local s ∧ length l = 1%nat ∧ Forall (λ ev, is_success_call ev.1 = true) l ∧
                match r with
                | Ok _ => settled l = l
                | Err _ => settled l = []
                end) (_apply_success env cfg res) s.
Proof.
  unfold _apply_success. destruct (managed cfg).
  - apply wp_bind, wp_make_completion; [|done|done].
    intros c Hc _ _. apply wp_bind, wp_complete_managed.
    + intros r s' Hl Hs. apply wp_ret. cbn [app]. unfold settled. cbn [List.filter]. rewrite Hs.
      split_and!; [done | done | | done]. repeat constructor. cbn. by rewrite bool_decide_true.
    + intros e s' Hl Hs. rewrite app_nil_r. unfold settled. cbn [List.filter]. rewrite Hs.
      split_and!; [done | done | | done]. repeat constructor. cbn. by rewrite bool_decide_true.
  - unfold perform_. apply wp_bind, wp_perform. cbv zeta.
    destruct (respond env (hist s) CAck) as [v|e]; [apply wp_ret|];
      (split_and!; [done | done | by repeat constructor | done]).
Qed.

(** The retry in [_apply_retry] and after a failed [fail]. *)
Lemma retry_call_settles delay er s :
  wp (λ r l s', local s' = local s ∧
        match r with Ok _ => settled_by is_retry_call l | Err _ => settled l = [] end)
    (if managed cfg
     then c ← make_completion RETRYING VNone er (opt_float_value delay);
          _ ← _complete_managed_execution env c; mret ()
     else perform_ env (CRetry delay)) s.
Proof.
  destruct (managed cfg).
  - apply wp_bind, wp_make_completion; [|done|done].
    intros c Hc _ _. apply wp_bind, wp_complete_managed.
    + intros r s' Hl Hs. apply wp_ret. split; [done|]. rewrite app_nil_r.
      eexists. unfold settled. cbn [List.filter app]. rewrite Hs. split; [done|]. cbn.
      by rewrite bool_decide_true.
    + intros e s' Hl Hs. rewrite app_nil_r. unfold settled. cbn [List.filter]. by rewrite Hs.
  - unfold perform_. apply wp_bind, wp_perform. cbv zeta.
    destruct (respond env (hist s) (CRetry delay)) as [v|e]; [apply wp_ret|].
    + split; [done|]. by eexists.
    + done.
Qed.

(** Sequences in which one part settles nothing. *)
Lemma wp_quiet_then {A B} (Q : result exn B → history → st → Prop)
    (m : SE (@st exec_locals) exn A) (f : A → SE st exn B) s :
  adds quiet m → keeps_local m →
  (∀ e l s', local s' = local s → Forall quiet l → Q (Err e) l s') →
  (∀ a l s1, local s1 = local s → Forall quiet l → wp (λ r l2 s2, Q r (l2 ++ l) s2) (f a) s1) →
  wp Q (m ≫= f) s.
Proof.
  intros Hm Hk Herr Hok. apply wp_bind. eapply wp_adds_keeps; [exact Hm | exact Hk |].
  intros [a|e] l s1 Hl Hloc; cbn; [by apply Hok | by apply Herr].
Qed.

Lemma wp_then_quiet {A B} (Q : result exn B → history → st → Prop)
    (m : SE (@st exec_locals) exn A) (f : A → SE st exn B) s :
  (∀ a, adds quiet (f a)) → (∀ a, keeps_local (f a)) →
  wp (λ r l1 s1, match r with
                 | Ok a => ∀ r2 l2 s2, local s2 = local s1 → Forall quiet l2 → Q r2 (l2 ++ l1) s2
                 | Err e => Q (Err e) l1 s1
                 end) m s →
  wp Q (m ≫= f) s.
Proof.
  intros Hf Hk Hm. apply wp_bind. eapply wp_mono; [exact Hm|]. intros [a|e] l s1 HQ; [|done].
  eapply wp_adds_keeps; [apply Hf | apply Hk |]. intros r l2 s2 Hl2 Hloc. by apply HQ.
Qed.

Lemma adds_idle_quiet {A} (m : SE (@st exec_locals) exn A) : adds idle m → adds quiet m.
Proof. apply adds_weaken, idle_quiet. Qed.
Local Hint Resolve adds_idle_quiet checkpoint_idle emit_idle capture_idle hooks_idle
  handler_idle select_idle prepare_idle snapshot_idle dispatcher_quiet : adds.
Local Hint Resolve checkpoint_keeps emit_keeps capture_keeps hooks_keep dispatcher_keeps : keeps.

Lemma settled_by_most p l : settled_by p l → settled_by_at_most p l.
Proof. by right. Qed.

Lemma settled_by_weaken (p q : call → bool) l :
  (∀ c, p c = true → q c = true) → settled_by p l → settled_by q l.
Proof. intros Hpq (ev & He & Hp). exists ev. auto. Qed.

Lemma at_most_weaken (p q : call → bool) l :
  (∀ c, p c = true → q c = true) → settled_by_at_most p l → settled_by_at_most q l.
Proof. intros Hpq [Hn|Hs]; [by left | right; by eapply settled_by_weaken]. Qed.

Lemma at_most_quiet_l p l1 l2 : Forall quiet l1 → settled_by_at_most p l2 → settled_by_at_most p (l1 ++ l2).
Proof.
  intros Hl [Hn|Hs]; [left | right; by apply settled_by_app_l].
  by rewrite settled_app, (settled_quiet l1 Hl), Hn.
Qed.

Lemma at_most_quiet_r p l1 l2 : Forall quiet l2 → settled_by_at_most p l1 → settled_by_at_most p (l1 ++ l2).
Proof.
  intros Hl [Hn|Hs]; [left | right; by apply settled_by_app_r].
  by rewrite settled_app, (settled_quiet l2 Hl), Hn.
Qed.

Lemma at_most_quiet p l : Forall quiet l → settled_by_at_most p l.
Proof. intros Hl. left. by apply settled_quiet. Qed.

(** What a part promises that settles the delivery when it returns. *)
Definition settling {A} (p : call → bool) (r : result exn A) (l : history) : Prop :=
  match r with Ok _ => settled_by p l | Err _ => settled_by_at_most p l end.

Lemma apply_retry_settles delay er s :
  apply_delivery_actions cfg = true →
  wp (λ r l s', local s' = local s ∧ settling is_retry_call r l) (_apply_retry env cfg delay er) s.
Proof.
  intros Hap. unfold _apply_retry. rewrite Hap.
  apply wp_quiet_then; [eauto with adds | eauto with keeps | |].
  { intros e l s' Hs' Hl. split; [done | by apply at_most_quiet]. }
  intros _ l1 s1 Hs1 Hl1. apply wp_then_quiet; [eauto with adds | eauto with keeps|].
  eapply wp_mono; [apply retry_call_settles|]. intros [u|e] l s2 [Hs2 Hset].
  - intros r2 l2 s3 Hs3 Hl2. split; [by rewrite Hs3, Hs2|].
    assert (settled_by is_retry_call ((l2 ++ l) ++ l1)) by (by apply settled_by_app_r, Hl1; apply settled_by_app_l).
    destruct r2; [done | by right].
  - split; [by rewrite Hs2|]. apply at_most_quiet_r; [done|]. by left.
Qed.

(** ** [_fail_delivery] *)

(** The settlement of a delivery whose failure is final: [fail], or, for a
    managed execution whose [fail] was refused, a retry that found the lease
    lost. *)
Definition failed_by (l : history) : Prop :=
  ∃ ev, settled l = [ev] ∧
    (is_fail_call ev.1 || (is_retry_call ev.1 && negb (is_ok ev.2))) = true.

Definition is_failure_call (c : call) : bool := is_fail_call c || is_retry_call c.

Definition fail_result (r : result exn bool) (l : history) : Prop :=
  match r with
  | Ok true => failed_by l
  | Ok false => settled_by is_retry_call l
  | Err _ => settled_by_at_most is_failure_call l
  end.

Lemma fail_plain_settles exc s :
  wp (λ r l s', local s' = local s ∧ fail_result r l) (fail_plain env exc) s.
Proof.
  unfold fail_plain. apply wp_try, wp_bind, wp_perform. cbv zeta.
  destruct (respond env (hist s) (CFail exc)) as [v|e].
  - apply wp_ret. split; [done|]. by eexists.
  - destruct (is_exception e); [|apply wp_raise; split; [done | by left]].
    apply wp_bind, wp_perform. cbv zeta. cbn [hist].
    destruct (respond env _ (CRetry None)) as [v|e'].
    + apply wp_ret. split; [done|]. by eexists.
    + split; [done | by left].
Qed.

Lemma fail_managed_settles er s :
  wp (λ r l s', local s' = local s ∧ fail_result r l) (fail_managed env er) s.
Proof.
  unfold fail_managed. apply wp_try, wp_bind, wp_make_completion; [|done|done].
  intros c Hc _ _. apply wp_bind, wp_complete_managed.
  - intros r s' Hl Hs. apply wp_ret. split; [done|]. cbn [app]. eexists. unfold settled.
    cbn [List.filter]. rewrite Hs. split; [done|]. cbn. by rewrite bool_decide_true.
  - intros e s' Hl Hs. destruct (is_exception e).
    2: { apply wp_raise. split; [done|]. left. unfold settled. cbn [List.filter app]. by rewrite Hs. }
    apply wp_bind, wp_make_completion; [|done|done]. intros c' Hc' _ _.
    apply wp_bind, wp_complete_managed.
    + intros r s2 Hl2 Hs2. apply wp_ret. split; [by rewrite Hl2|]. cbn [app negb].
      assert (settled [(CComplete c', r); (CComplete c, Err e)] = [(CComplete c', r)]) as He.
      { unfold settled. cbn [List.filter]. by rewrite Hs2, Hs. }
      assert (is_retry_call (CComplete c') = true) as Hr by (cbn; by rewrite bool_decide_true).
      destruct r; cbn [is_ok negb fail_result].
      * eexists. by split.
      * eexists. split; [exact He|]. cbn [fst snd is_ok negb]. by rewrite Hr, orb_true_r.
    + intros e' s2 Hl2 Hs2. split; [by rewrite Hl2|]. left. unfold settled.
      cbn [List.filter app]. by rewrite Hs2, Hs.
Qed.

Lemma fail_result_quiet r l1 l l2 :
  Forall quiet l1 → Forall quiet l2 → fail_result r l → fail_result r (l1 ++ l ++ l2).
Proof.
  intros H1 H2. assert (settled (l1 ++ l ++ l2) = settled l) as He.
  { by rewrite !settled_app, (settled_quiet l1 H1), (settled_quiet l2 H2), app_nil_r. }
  unfold fail_result, failed_by, settled_by_at_most, settled_by. by rewrite He.
Qed.

Lemma fail_result_most r l : fail_result r l → settled_by_at_most is_failure_call l.
Proof.
  destruct r as [[]|]; cbn; [|intros Hs; right|done].
  - intros (ev & He & Hp). right. exists ev. split; [done|]. unfold is_failure_call.
    rewrite orb_true_iff in Hp |- *. rewrite andb_true_iff in Hp. tauto.
  - eapply settled_by_weaken; [|exact Hs]. intros c Hc. unfold is_failure_call.
    by rewrite Hc, orb_true_r.
Qed.

Lemma fail_delivery_settles exc er s :
  apply_delivery_actions cfg = true →
  wp (λ r l s', local s' = local s ∧ fail_result r l) (_fail_delivery env cfg exc er) s.
Proof.
  intros Hap. unfold _fail_delivery. rewrite Hap. cbn [negb].
  apply wp_quiet_then; [eauto with adds | eauto with keeps | |].
  { intros e l s' Hs' Hl. split; [done | by apply at_most_quiet]. }
  intros _ l1 s1 Hs1 Hl1. apply wp_bind.
  eapply wp_mono; [destruct (managed cfg); [apply fail_managed_settles | apply fail_plain_settles]|].
  intros [b|e] l s2 [Hs2 Hset].
  - apply wp_quiet_then; [eauto with adds | eauto with keeps | |].
    + intros e l2 s3 Hs3 Hl2. split; [by rewrite Hs3, Hs2|].
      apply (fail_result_most (Ok b)). rewrite <- app_assoc. by apply fail_result_quiet.
    + intros _ l2 s3 Hs3 Hl2. apply wp_ret. split; [by rewrite Hs3, Hs2|].
      cbn [app]. rewrite <- app_assoc. by apply fail_result_quiet.
  - split; [by rewrite Hs2|]. apply (fail_result_quiet (Err e) [] l l1); [constructor | done | done].
Qed.

(** ** [_publish_dead_letter] and the end of [_handle_failure] *)

Lemma publish_all_quiet sinks e b : adds quiet (publish_all truth env cfg sinks e b).
Proof. revert b. induction sinks as [|sk sinks IH]; intros b; cbn [publish_all]; adds_auto. Qed.

Lemma publish_all_keeps sinks e b : keeps_local (publish_all truth env cfg sinks e b).
Proof. revert b. induction sinks as [|sk sinks IH]; intros b; cbn [publish_all]; keeps_auto. Qed.
Local Hint Resolve publish_all_quiet : adds.
Local Hint Resolve publish_all_keeps : keeps.

(** What a failing delivery leaves behind: the outcome reports the action
    that settled it, at the stage the failure was met. *)
Definition reports_failure (x0 : exec_locals) (l : history) (x : exec_locals) : Prop :=
  failure_stage (outcome x) = failure_stage (outcome x0) ∧
  match delivery_action (outcome x) with
  | Some ACT_RETRY => settled_by is_retry_call l
  | Some ACT_DEAD_LETTER | Some ACT_FAIL => failed_by l
  | _ => False
  end.

Definition failure_post {A} (x0 : exec_locals) (r : result exn A) (l : history)
    (s' : @st exec_locals) : Prop :=
  match r with
  | Ok _ => reports_failure x0 l (local s')
  | Err _ => settled_by_at_most is_failure_call l
  end.

Lemma reports_failure_quiet x0 l1 l l2 x :
  Forall quiet l1 → Forall quiet l2 → reports_failure x0 l x → reports_failure x0 (l1 ++ l ++ l2) x.
Proof.
  intros H1 H2. assert (settled (l1 ++ l ++ l2) = settled l) as He.
  { by rewrite !settled_app, (settled_quiet l1 H1), (settled_quiet l2 H2), app_nil_r. }
  unfold reports_failure, failed_by, settled_by. by rewrite He.
Qed.

Lemma reports_failure_most x0 l x :
  reports_failure x0 l x → settled_by_at_most is_failure_call l.
Proof.
  intros [_ H]. destruct (delivery_action (outcome x)) as [[]|]; try done;
    [by apply (fail_result_most (Ok false)) | by apply (fail_result_most (Ok true))..].
Qed.

(** Events and the capture after the settlement. *)
Lemma wp_report {A} (x0 : exec_locals) (m : SE st exn A) l s :
  adds quiet m → keeps_local m → reports_failure x0 l (local s) →
  wp (λ r l2 s2, failure_post x0 r (l2 ++ l) s2) m s.
Proof.
  intros Hm Hk Hr. eapply wp_adds_keeps; [exact Hm | exact Hk |]. intros r l2 s2 Hl2 Hs2.
  assert (reports_failure x0 (l2 ++ l) (local s2)) as Hr2.
  { rewrite Hs2. rewrite <- (app_nil_r l). by apply reports_failure_quiet; [|constructor|]. }
  destruct r; [exact Hr2 | by eapply reports_failure_most].
Qed.

(** An assignment to the outcome. *)
Lemma wp_update {B} (Q : result exn B → history → st → Prop) f (k : unit → SE st exn B) s :
  wp Q (k tt) {| hist := hist s;
                 local := {| outcome := f (outcome (local s)); active_stage := active_stage (local s) |} |} →
  wp Q (update f ≫= k) s.
Proof.
  intros (l & Hl & HQ). apply wp_bind. unfold update. apply wp_set_local. exists l.
  by rewrite app_nil_r.
Qed.

Lemma adds_current_error P : adds P current_error.
Proof. unfold current_error, get_outcome. adds_auto. Qed.
Lemma keeps_current_error : keeps_local current_error.
Proof. unfold current_error, get_outcome. keeps_auto. Qed.
Local Hint Resolve adds_current_error : adds.
Local Hint Resolve keeps_current_error : keeps.

Definition dead_letter_post (s : @st exec_locals) (r : result exn bool) (l : history)
    (s' : @st exec_locals) : Prop :=
  match r with
  | Ok true => Forall quiet l ∧
               failure_stage (outcome (local s')) = failure_stage (outcome (local s)) ∧
               delivery_action (outcome (local s')) = delivery_action (outcome (local s))
  | Ok false => reports_failure (local s) l (local s')
  | Err _ => settled_by_at_most is_failure_call l
  end.

(** The retry when a dead-letter sink raises. *)
Lemma dead_letter_retry_settles f d s :
  apply_delivery_actions cfg = true →
  delivery_action (outcome (local s)) = Some ACT_RETRY →
  wp (dead_letter_post s)
    (error ← current_error;
     _ ← _apply_retry env cfg None error;
     _ ← emit deepcopy env cfg EV_RETRIED d (Some f) None;
     mret false) s.
Proof.
  intros Hap Hact. apply wp_quiet_then; [eauto with adds | eauto with keeps | |].
  { intros e l s' _ Hl. by apply at_most_quiet. }
  intros er l1 s1 Hs1 Hl1. apply wp_bind. eapply wp_mono; [by apply apply_retry_settles|].
  intros [[]|e] l2 s2 [Hs2 Hset].
  - apply wp_bind. eapply wp_mono.
    + apply (wp_report (local s) _ (l2 ++ l1)); [eauto with adds | eauto with keeps |].
      split; [by rewrite Hs2, Hs1|]. rewrite Hs2, Hs1, Hact. by apply settled_by_app_r.
    + intros r l3 s3 Hr. cbn beta in Hr. rewrite app_assoc in Hr. destruct r as [[]|e]; cbn in Hr |- *; [by apply wp_ret | done].
  - cbn. apply at_most_quiet_r; [done|]. eapply at_most_weaken; [|exact Hset].
    intros c Hc. unfold is_failure_call. by rewrite Hc, orb_true_r.
Qed.

(** Quiet events before do not matter. *)
Lemma dead_letter_post_after s1 s r l l0 s' :
  failure_stage (outcome (local s1)) = failure_stage (outcome (local s)) →
  Forall quiet l0 → r ≠ Ok true → dead_letter_post s1 r l s' → dead_letter_post s r (l ++ l0) s'.
Proof.
  intros Hst Hl0 Hr. destruct r as [[]|e]; cbn; [done| |intros; by apply at_most_quiet_r].
  intros [H1 H2]. apply (reports_failure_quiet _ [] l l0); [constructor | done |].
  split; [congruence | done].
Qed.

Lemma dead_letter_retry_false f d s s' :
  (error ← current_error;
   _ ← _apply_retry env cfg None error;
   _ ← emit deepcopy env cfg EV_RETRIED d (Some f) None;
   mret false) s ≠ (s', Ok true).
Proof.
  intros E. apply se_bind_ok in E as (s1 & er & _ & E). apply se_bind_ok in E as (s2 & [] & _ & E).
  by apply se_bind_ok in E as (s3 & [] & _ & [= _ E]).
Qed.

Lemma publish_dead_letter_settles f d s :
  apply_delivery_actions cfg = true →
  wp (dead_letter_post s) (_publish_dead_letter deepcopy truth env cfg f d) s.
Proof.
  intros Hap. unfold _publish_dead_letter.
  assert (∀ e l s', Forall quiet l → dead_letter_post s (Err e) l s') as Herr
    by (intros e l s' Hl; by apply at_most_quiet).
  apply wp_quiet_then; [unfold get_envelope; adds_auto | done | eauto |].
  intros e l1 s1 Hs1 Hl1. apply wp_quiet_then; [adds_auto | done | |].
  { intros e' l s' Hs' Hl. by apply Herr, Forall_app. }
  intros dl l2 s2 Hs2 Hl2. apply wp_quiet_then; [adds_auto | keeps_auto | |].
  { intros e' l s' Hs' Hl. apply Herr. repeat (apply Forall_app; split); done. }
  intros [any|] l3 s3 Hs3 Hl3;
    assert (Forall quiet ((l3 ++ l2) ++ l1)) as Hq by (repeat (apply Forall_app; split); done).
  - apply wp_update. apply wp_quiet_then; [eauto with adds | eauto with keeps | |].
    + intros e' l s' _ Hl. apply Herr. repeat (apply Forall_app; split); done.
    + intros [] l4 s4 Hs4 Hl4. apply wp_ret. cbn [app dead_letter_post]. rewrite Hs4. cbn.
      rewrite Hs3, Hs2, Hs1. split_and!; [repeat (apply Forall_app; split); done | done | done].
  - apply wp_update, wp_update. unfold wp.
    match goal with |- context [hist (?m ?s0).1] =>
      destruct (dead_letter_retry_settles f d s0 Hap eq_refl) as (l & Hl & Hpost);
      pose proof (dead_letter_retry_false f d s0) as Hne; destruct (m s0) as [s' r] eqn:E end.
    exists l. split; [exact Hl|]. cbn [fst snd] in Hpost |- *.
    rewrite <- !app_assoc in Hq. rewrite <- !app_assoc.
    eapply dead_letter_post_after; [ | exact Hq | | exact Hpost].
    + cbn. by rewrite Hs3, Hs2, Hs1.
    + intros ->. by eapply Hne.
Qed.

(** The choice between the dead-letter sinks and plain failure. *)
Lemma choose_failure_settles f d s :
  apply_delivery_actions cfg = true →
  wp (λ r l s', match r with
                | Ok true => Forall quiet l ∧
                    failure_stage (outcome (local s')) = failure_stage (outcome (local s)) ∧
                    (delivery_action (outcome (local s')) = Some ACT_FAIL ∨
                     delivery_action (outcome (local s')) = Some ACT_DEAD_LETTER)
                | Ok false => reports_failure (local s) l (local s')
                | Err _ => settled_by_at_most is_failure_call l
                end)
    (match dead_letter_sinks (task cfg) with
     | [] => _ ← update (λ o, set_action ACT_FAIL (retry_delay_s o) o); mret true
     | _ => _ ← update (λ o, set_action ACT_DEAD_LETTER (retry_delay_s o) o);
            _publish_dead_letter deepcopy truth env cfg f d
     end) s.
Proof.
  intros Hap. destruct (dead_letter_sinks (task cfg)).
  - apply wp_update, wp_ret. split_and!; [constructor | done | by left].
  - apply wp_update. eapply wp_mono; [by apply publish_dead_letter_settles|].
    intros [[]|e] l' s'; cbn; [|intros []; by split|done].
    intros (? & -> & ->). cbn. auto.
Qed.

Lemma fail_after_policy_settles exc f d s :
  apply_delivery_actions cfg = true →
  wp (failure_post (local s)) (fail_after_policy deepcopy truth env cfg exc f d) s.
Proof.
  intros Hap. unfold fail_after_policy. apply wp_bind.
  eapply wp_mono; [by apply choose_failure_settles|].
  intros [[]|e] l s1; cbn [negb]; [| |done].
  - intros (Hl & Hst & Hact).
    apply wp_quiet_then; [eauto with adds | eauto with keeps | |].
    { intros e l2 s2 _ Hl2. apply at_most_quiet. by apply Forall_app. }
    intros er l2 s2 Hs2 Hl2. apply wp_bind. eapply wp_mono; [by apply fail_delivery_settles|].
    intros [t|e] l3 s3 [Hs3 Hres].
    2: { cbn. rewrite <- app_assoc. apply at_most_quiet_r; [|done]. by apply Forall_app. }
    apply (fail_result_quiet _ [] l3 (l2 ++ l)) in Hres; [|constructor | by apply Forall_app].
    apply wp_update. cbn [app] in Hres.
    assert (∀ s4, reports_failure (local s) (l3 ++ l2 ++ l) (local s4) →
      wp (λ r l4 s5, failure_post (local s) r (((l4 ++ l3) ++ l2) ++ l) s5)
        (_ ← emit deepcopy env cfg EV_FAILED d (Some f) None; _capture_failure env cfg) s4) as Hend.
    { intros s4 Hr. eapply wp_mono; [apply (wp_report (local s) _ (l3 ++ l2 ++ l) s4); [adds_auto | keeps_auto | exact Hr]|].
      intros r l4 s5. cbn beta. by rewrite <- !app_assoc. }
    destruct t.
    + apply wp_bind, wp_ret. eapply wp_mono; [apply Hend|].
      * split; cbn; [by rewrite Hs3, Hs2, Hst|]. rewrite Hs3, Hs2. by destruct Hact as [-> | ->].
      * intros r l4 s5. cbn beta. by rewrite app_nil_r.
    + apply wp_update. apply Hend. split; cbn; [by rewrite Hs3, Hs2, Hst | done].
  - intros Hr. apply wp_report; [eauto with adds | eauto with keeps | done].
Qed.

Lemma reports_failure_locals x0 x1 l x :
  failure_stage (outcome x1) = failure_stage (outcome x0) →
  reports_failure x1 l x → reports_failure x0 l x.
Proof. intros He [H1 H2]. split; [congruence | done]. Qed.

(** Moving the start of a part back over quiet events. *)
Lemma failure_post_after {A} x0 x1 (r : result exn A) l l0 s' :
  failure_stage (outcome x1) = failure_stage (outcome x0) → Forall quiet l0 →
  failure_post x1 r l s' → failure_post x0 r (l ++ l0) s'.
Proof.
  intros He Hl0. destruct r as [a|e]; cbn.
  - intros Hr. apply (reports_failure_locals _ x1); [done|].
    by apply (reports_failure_quiet _ [] l l0).
  - intros. by apply at_most_quiet_r.
Qed.

Lemma adds_elapsed P t : adds P (elapsed env t).
Proof. unfold elapsed. adds_auto. Qed.
Lemma keeps_elapsed t : keeps_local (elapsed env t).
Proof. unfold elapsed. keeps_auto. Qed.
Local Hint Resolve adds_elapsed : adds.
Local Hint Resolve keeps_elapsed : keeps.

(** Parts that leave a field of the outcome alone, such as the recorded stage of
    the failure. *)
Definition keeps_field {F A} (g : ExecutionOutcome → F) (m : SE (@st exec_locals) exn A) : Prop :=
  ∀ s, g (outcome (local (m s).1)) = g (outcome (local s)).

Abbreviation keeps_stage := (keeps_field failure_stage).

Lemma keeps_local_field {F A} (g : ExecutionOutcome → F) (m : SE (@st exec_locals) exn A) :
  keeps_local m → keeps_field g m.
Proof. intros Hm s. by rewrite Hm. Qed.

Lemma keeps_field_bind {F A B} (g : ExecutionOutcome → F) (m : SE (@st exec_locals) exn A)
    (f : A → SE st exn B) :
  keeps_field g m → (∀ a, keeps_field g (f a)) → keeps_field g (m ≫= f).
Proof.
  intros Hm Hf s. unfold mbind, se_bind. specialize (Hm s).
  destruct (m s) as [s1 [a|e]]; cbn in *; [|done]. by rewrite Hf.
Qed.

Lemma snapshot_keeps_field {F} (g : ExecutionOutcome → F) :
  (∀ e t o, g (set_snapshot e t o) = g o) → keeps_field g (_snapshot_capture_envelope deepcopy env cfg).
Proof.
  intros Hg. unfold _snapshot_capture_envelope. destruct (capture_mode cfg); [|done].
  apply keeps_field_bind; [done|]. intros e.
  destruct (deepcopy_envelope deepcopy e) as [c|exc]; [intros ?; apply Hg|].
  destruct (is_exception exc); [intros ?; apply Hg | done].
Qed.
Local Hint Resolve keeps_local_field : keeps.
Local Hint Extern 1 (keeps_field _ (_snapshot_capture_envelope _ _ _)) =>
  by apply snapshot_keeps_field : keeps.

Lemma failure_prefix {A B} (m : SE (@st exec_locals) exn A) (f : A → SE st exn B) s :
  adds quiet m → keeps_stage m →
  (∀ a s1, wp (failure_post (local s1)) (f a) s1) →
  wp (failure_post (local s)) (m ≫= f) s.
Proof.
  intros Hm Hk Hf. apply wp_bind. destruct (Hm s) as (l & Hl & Hq). exists l. split; [done|].
  specialize (Hk s). destruct (m s) as [s1 [a|e]]; cbn in *; [|by apply at_most_quiet].
  eapply wp_mono; [apply Hf|]. intros r l2 s2. by apply failure_post_after.
Qed.

Lemma failure_update {B} g (f : unit → SE (@st exec_locals) exn B) s :
  (∀ o, failure_stage (g o) = failure_stage o) →
  (∀ s1, wp (failure_post (local s1)) (f tt) s1) →
  wp (failure_post (local s)) (update g ≫= f) s.
Proof. intros Hg Hf. apply failure_prefix; [apply adds_set_local | intros s1; apply Hg | by intros []]. Qed.

(** The last statement of a failing path. *)
Lemma failure_result {A B} (m : SE (@st exec_locals) exn A) (g : st → B) s :
  wp (failure_post (local s)) m s →
  wp (failure_post (local s)) (_ ← m; se_gets g) s.
Proof.
  intros Hm. apply wp_bind. eapply wp_mono; [exact Hm|]. intros [a|e] l s1 H; [|done].
  by apply wp_gets.
Qed.

Lemma retry_path_settles d t f s :
  apply_delivery_actions cfg = true →
  wp (failure_post (local s))
    (_ ← update (set_action ACT_RETRY d);
     error ← current_error;
     _ ← _apply_retry env cfg d error;
     _ ← emit deepcopy env cfg EV_RETRIED t (Some f) None;
     _capture_failure env cfg) s.
Proof.
  intros Hap. apply wp_update. apply wp_quiet_then; [eauto with adds | eauto with keeps | |].
  { intros e l s' _ Hl. by apply at_most_quiet. }
  intros er l1 s1 Hs1 Hl1. apply wp_bind. eapply wp_mono; [by apply apply_retry_settles|].
  intros [[]|e] l2 s2 [Hs2 Hset].
  - eapply wp_mono.
    + apply (wp_report (local s) _ (l2 ++ l1)); [adds_auto | keeps_auto |].
      split; rewrite Hs2, Hs1; [done|]. cbn. by apply settled_by_app_r.
    + intros r l3 s3 H. cbn beta in H. by rewrite app_assoc in H.
  - cbn. apply at_most_quiet_r; [done|]. eapply at_most_weaken; [|exact Hset].
    intros c Hc. unfold is_failure_call. by rewrite Hc, orb_true_r.
Qed.

Lemma handle_failure_settles exc k t s :
  apply_delivery_actions cfg = true →
  wp (failure_post (local s)) (_handle_failure fpow uniform deepcopy truth env cfg exc k t) s.
Proof.
  intros Hap. unfold _handle_failure. apply failure_prefix; [eauto with adds | eauto with keeps |].
  intros d s1. apply failure_update; [done|]. intros s2.
  apply failure_prefix; [eauto with adds | eauto with keeps |]. intros [] s3.
  apply failure_update; [done|]. intros s4. apply failure_update; [done|]. intros s5.
  apply failure_prefix; [eauto with adds | eauto with keeps |]. intros [] s6.
  apply failure_prefix; [unfold get_payload; adds_auto | done |]. intros payload s7.
  apply failure_prefix; [eauto with adds | eauto with keeps |]. intros [] s8.
  apply failure_prefix; [eauto with adds | eauto with keeps |]. intros [] s9.
  apply failure_prefix; [unfold get_envelope; adds_auto | done |]. intros e s10.
  apply failure_prefix; [adds_auto | done |]. intros action s11.
  apply failure_result. destruct (decision action).
  - by apply retry_path_settles.
  - by apply fail_after_policy_settles.
Qed.

(** ** [_handle_cancelled] *)

(** A cancelled delivery is retried, or, for a managed execution whose
    cancellation was requested, cancelled. *)
Definition is_cancellation_call (c : call) : bool := is_retry_call c || is_cancel_call c.

Lemma cancellation_call_settles (requested : bool) er s :
  wp (λ r l s', local s' = local s ∧
                match r with
                | Ok _ => settled_by is_cancellation_call l
                | Err _ => settled l = []
                end)
    (if managed cfg
     then c ← make_completion (if requested then CANCELLED else RETRYING) VNone er
                (if requested then VNone else VInt 0);
          _ ← _complete_managed_execution env c; mret ()
     else perform_ env (CRetry None)) s.
Proof.
  destruct (managed cfg).
  - apply wp_bind, wp_make_completion; [| by destruct requested | by destruct requested].
    intros c Hc _ _.
    assert (is_cancellation_call (CComplete c) = true) as Hcall.
    { unfold is_cancellation_call, is_cancel_call. cbn. rewrite Hc.
      destruct requested; rewrite ?bool_decide_true by done; [apply orb_true_r | done]. }
    apply wp_bind, wp_complete_managed.
    + intros r s' Hl Hs. apply wp_ret. split; [done|]. cbn [app]. eexists. unfold settled.
      cbn [List.filter]. by rewrite Hs.
    + intros e s' Hl Hs. rewrite app_nil_r. unfold settled. cbn [List.filter]. by rewrite Hs.
  - unfold perform_. apply wp_bind, wp_perform. cbv zeta.
    destruct (respond env (hist s) (CRetry None)) as [v|e]; [apply wp_ret|].
    + split; [done|]. by eexists.
    + done.
Qed.

(** [settling] parts between parts that settle nothing. *)
Lemma settling_prefix {A B} p (m : SE (@st exec_locals) exn A) (f : A → SE st exn B) s :
  adds quiet m → (∀ a s1, wp (λ r l _, settling p r l) (f a) s1) →
  wp (λ r l _, settling p r l) (m ≫= f) s.
Proof.
  intros Hm Hf. apply wp_bind. eapply wp_adds; [exact Hm|]. intros [a|e] l s1 Hl; [|by apply at_most_quiet].
  eapply wp_mono; [apply Hf|]. intros [b|e] l2 s2; cbn; intros H;
    [by apply settled_by_app_r | by apply at_most_quiet_r].
Qed.

Lemma settling_suffix {A B} p (m : SE (@st exec_locals) exn A) (f : A → SE st exn B) s :
  (∀ a, adds quiet (f a)) → wp (λ r l _, settling p r l) m s →
  wp (λ r l _, settling p r l) (m ≫= f) s.
Proof.
  intros Hf Hm. apply wp_bind. eapply wp_mono; [exact Hm|]. intros [a|e] l s1 H; [|done].
  eapply wp_adds; [apply Hf|]. intros [b|e] l2 s2 Hl2; [|right]; by apply settled_by_app_l.
Qed.

Lemma handle_cancelled_settles t s :
  apply_delivery_actions cfg = true →
  wp (λ r l s', settling is_cancellation_call r l) (_handle_cancelled deepcopy env cfg t) s.
Proof.
  intros Hap. unfold _handle_cancelled. rewrite Hap.
  apply settling_prefix; [apply adds_set_local|]. intros [] s1.
  apply settling_prefix; [eauto with adds|]. intros [] s2.
  apply settling_prefix; [apply adds_set_local|]. intros [] s3.
  apply settling_prefix; [apply adds_set_local|]. intros [] s4.
  apply settling_prefix; [adds_auto|]. intros requested s5.
  apply settling_prefix; [apply adds_set_local|]. intros [] s6.
  apply settling_prefix; [eauto with adds|]. intros d s7.
  apply settling_prefix; [eauto with adds|]. intros [] s8.
  apply settling_suffix; [intros []; adds_auto|].
  apply settling_prefix; [eauto with adds|]. intros er s9.
  eapply wp_mono; [apply cancellation_call_settles|]. intros [[]|e] l s10 [_ H]; [done | by left].
Qed.

(** ** [execute] *)

Lemma in_stage_quiet {A} stage (m : SE (@st exec_locals) exn A) :
  adds quiet m → adds quiet (in_stage env cfg stage m).
Proof. intros Hm. unfold in_stage, enter_stage. adds_auto. Qed.

Lemma run_emit_quiet res : adds quiet (run_emit truth env cfg res).
Proof. unfold run_emit, enter_stage, get_payload, update. adds_auto. Qed.
Local Hint Resolve run_emit_quiet : adds.

Lemma process_quiet : adds quiet (process_delivery deepcopy truth env cfg).
Proof.
  unfold process_delivery, update.
  repeat first
    [ apply adds_bind; [|intros ?] | apply in_stage_quiet
    | solve [unfold get_payload; adds_auto] | progress adds_auto ].
Qed.

(** The acknowledgement, its checkpoints and the SUCCEEDED event. *)
Definition ack_post (r : result exn unit) (l : history) (s' : @st exec_locals) : Prop :=
  active_stage (local s') = "ack" ∧ delivery_action (outcome (local s')) = Some ACT_ACK ∧
  failure_stage (outcome (local s')) = None ∧ settling is_success_call r l.

Lemma succeeded_meta_quiet res : adds quiet (_build_succeeded_event_meta deepcopy env res).
Proof. unfold _build_succeeded_event_meta, get_envelope. adds_auto. Qed.
Lemma succeeded_meta_keeps res : keeps_local (_build_succeeded_event_meta deepcopy env res).
Proof. unfold _build_succeeded_event_meta, get_envelope. keeps_auto. Qed.
Local Hint Resolve succeeded_meta_quiet : adds.
Local Hint Resolve succeeded_meta_keeps : keeps.

Lemma acknowledge_settles t res s :
  apply_delivery_actions cfg = true → failure_stage (outcome (local s)) = None →
  wp ack_post (acknowledge deepcopy env cfg t res) s.
Proof.
  intros Hap Hst. unfold acknowledge. rewrite Hap.
  apply wp_bind, wp_set_local. cbn [local outcome active_stage].
  apply wp_update. cbn [local outcome active_stage].
  apply wp_quiet_then; [eauto with adds | eauto with keeps | |].
  { intros e l s' Hs' Hl. rewrite app_nil_r. unfold ack_post. rewrite Hs'. cbn.
    split_and!; [done | done | done | by apply at_most_quiet]. }
  intros [] l1 s1 Hs1 Hl1. apply wp_then_quiet; [intros []; adds_auto | intros []; keeps_auto |].
  eapply wp_mono; [apply apply_success_settles|]. intros r l s2 (Hs2 & Hlen & Hall & Hset).
  assert (is_ok r = true → settled_by is_success_call l) as Hby.
  { intros Hr. destruct r as [u|]; [|done]. destruct l as [|ev [|]]; try done.
    apply Forall_inv in Hall. exists ev. done. }
  destruct r as [u|e].
  - intros r2 l2 s3 Hs3 Hl2. unfold ack_post. rewrite Hs3, Hs2, Hs1. cbn.
    split_and!; [done | done | done |]. rewrite app_nil_r.
    assert (settled_by is_success_call ((l2 ++ l) ++ l1)) as Hfin.
    { apply settled_by_app_r; [|done]. apply settled_by_app_l; [by apply Hby | done]. }
    destruct r2; [done | by right].
  - unfold ack_post. rewrite Hs2, Hs1. cbn. split_and!; [done | done | done |].
    rewrite app_nil_r. apply at_most_quiet_r; [done | by left].
Qed.

Lemma keeps_field_iter {F A} (g : ExecutionOutcome → F) (f : A → SE (@st exec_locals) exn unit) l :
  (∀ x, keeps_field g (f x)) → keeps_field g (se_iter f l).
Proof. intros Hf. induction l; cbn; [done|]. by apply keeps_field_bind. Qed.

Lemma in_stage_keeps_field {F A} (g : ExecutionOutcome → F) stage (m : SE (@st exec_locals) exn A) :
  keeps_field g m → keeps_field g (in_stage env cfg stage m).
Proof.
  intros Hm. unfold in_stage. apply keeps_field_bind; [done|]. intros [].
  apply keeps_field_bind; [eauto with keeps|]. intros [].
  apply keeps_field_bind; [done|]. intros a. apply keeps_field_bind; [eauto with keeps | done].
Qed.

Lemma select_keeps p r : keeps_local (_select_emit_bindings truth env cfg p r).
Proof. unfold _select_emit_bindings, select_target. keeps_auto. Qed.
Lemma prepare_keeps bs p r : keeps_local (_prepare_emit_envelopes env bs p r).
Proof. unfold _prepare_emit_envelopes, prepare_binding. keeps_auto. Qed.
Local Hint Resolve select_keeps prepare_keeps : keeps.

Lemma run_emit_keeps_stage res : keeps_stage (run_emit truth env cfg res).
Proof.
  unfold run_emit.
  repeat (apply keeps_field_bind; [solve [done | eauto with keeps]|]; intros ?).
  apply keeps_field_iter. intros se. apply keeps_field_bind; [done|]. intros [].
  apply keeps_field_bind; [eauto with keeps | done].
Qed.

Lemma process_keeps_stage : keeps_stage (process_delivery deepcopy truth env cfg).
Proof.
  unfold process_delivery.
  repeat (apply keeps_field_bind; [solve [done | eauto with keeps | apply in_stage_keeps_field;
    repeat (apply keeps_field_bind; [solve [done | eauto with keeps]|]; intros ?); eauto with keeps; done]|];
    intros ?).
  apply keeps_field_bind; [|done].
  destruct (is_none _), (emit_targets (task cfg)); try done. apply run_emit_keeps_stage.
Qed.

(** The body of the [try]. *)
Definition body_post (r : result exn ExecutionOutcome) (l : history) (s' : @st exec_locals) : Prop :=
  match r with
  | Ok o => o = outcome (local s') ∧ delivery_action o = Some ACT_ACK ∧ settled_by is_success_call l
  | Err _ => settled l = [] ∨ (settled_by is_success_call l ∧ active_stage (local s') = "ack")
  end.

Lemma body_settles t s :
  apply_delivery_actions cfg = true → failure_stage (outcome (local s)) = None →
  wp body_post (execute_body deepcopy truth env cfg t) s.
Proof.
  intros Hap Hst. unfold execute_body. apply wp_bind.
  destruct (process_quiet s) as (l & Hl & Hq). exists l. split; [done|].
  pose proof (process_keeps_stage s) as Hk.
  destruct (process_delivery deepcopy truth env cfg s) as [s1 [res|e]]; cbn [fst snd] in *.
  2: { left. by apply settled_quiet. }
  apply wp_bind. eapply wp_mono; [apply acknowledge_settles; [done | congruence]|].
  intros [[]|e] l2 s2 (Hact & Hdel & _ & Hset).
  - apply wp_update, wp_gets. cbn. split_and!; [done | done |]. by apply settled_by_app_r.
  - cbn. destruct Hset as [Hn|Hb]; [left | right].
    + by rewrite settled_app, Hn, (settled_quiet l Hq).
    + split; [by apply settled_by_app_r | done].
Qed.

(** A second settlement follows an accepted acknowledgement only. *)
Definition settled_history (o : option DeliveryAction) (stage : option string) (l : history) : Prop :=
  match o with
  | Some ACT_ACK => settled_by is_success_call l
  | _ => ∃ ev rest, settled l = ev :: rest ∧ is_success_call ev.1 = false ∧
         match o with
         | Some ACT_RETRY => is_retry_call ev.1
         | Some _ => is_fail_call ev.1 || (is_retry_call ev.1 && negb (is_ok ev.2))
         | None => false
         end = true ∧
         (rest = [] ∨ ∃ a, rest = [a] ∧ is_success_call a.1 = true ∧ stage = Some "ack")
  end.

(** At most two settlements: the second one a failure or a cancellation after
    an accepted acknowledgement. *)
Definition safely_settled (l : history) : Prop :=
  settled l = [] ∨ (∃ ev, settled l = [ev]) ∨
  ∃ ev a, settled l = [ev; a] ∧ is_success_call a.1 = true ∧ is_success_call ev.1 = false.

Definition execute_post (r : result exn ExecutionOutcome) (l : history) (s' : @st exec_locals) : Prop :=
  match r with
  | Ok o => o = outcome (local s') ∧ settled_history (delivery_action o) (failure_stage o) l
  | Err _ => safely_settled l
  end.

Lemma completes_one st st' c : completes st c = true → completes st' c = true → st = st'.
Proof. destruct c; try done. cbn. rewrite !bool_decide_eq_true. congruence. Qed.

Lemma failure_not_success c :
  is_failure_call c = true ∨ is_cancellation_call c = true → is_success_call c = false.
Proof.
  unfold is_failure_call, is_cancellation_call, is_cancel_call. rewrite !orb_true_iff.
  destruct c; cbn; rewrite ?bool_decide_eq_true; try done; try (by intuition).
  intros H. apply bool_decide_eq_false. intros E. rewrite E in H. by intuition.
Qed.

(** The settlements of the body followed by those of an exception handler. *)
Lemma settled_after_body l1 l2 s1 (e : exn) p :
  body_post (Err e) l1 s1 → settled_by_at_most p l2 →
  (∀ c, p c = true → is_success_call c = false) → safely_settled (l2 ++ l1).
Proof.
  intros Hb Hs Hp. unfold safely_settled. rewrite settled_app.
  destruct Hs as [->|(ev & -> & Hev)]; destruct Hb as [->|[(a & -> & Ha) _]]; cbn [app].
  - by left.
  - right. left. by exists a.
  - right. left. by exists ev.
  - right. right. exists ev, a. auto.
Qed.

Lemma handled_history l1 l2 s1 (e : exn) x0 x :
  body_post (Err e) l1 s1 → failure_stage (outcome x0) = Some (active_stage (local s1)) →
  reports_failure x0 l2 x →
  settled_history (delivery_action (outcome x)) (failure_stage (outcome x)) (l2 ++ l1).
Proof.
  intros Hb Hx0 [Hst Hact]. unfold settled_history.
  assert (∀ ev, settled l2 = [ev] → ∃ rest, settled (l2 ++ l1) = ev :: rest ∧
    (rest = [] ∨ ∃ a, rest = [a] ∧ is_success_call a.1 = true ∧
                      failure_stage (outcome x) = Some "ack")) as Hrest.
  { intros ev Hev. rewrite settled_app, Hev.
    destruct Hb as [->|[(a & -> & Ha) Hs]]; [exists []; auto|].
    exists [a]. split; [done|]. right. exists a. split_and!; [done | done | congruence]. }
  destruct (delivery_action (outcome x)) as [[]|]; try done;
    destruct Hact as (ev & Hev & Hc); destruct (Hrest ev Hev) as (rest & He & Hr);
    exists ev, rest; split_and!; try done; apply failure_not_success; left; unfold is_failure_call;
    rewrite orb_true_iff in *; rewrite ?andb_true_iff in *; tauto.
Qed.

Lemma handle_failure_outcome exc k t s s' o :
  _handle_failure fpow uniform deepcopy truth env cfg exc k t s = (s', Ok o) → o = outcome (local s').
Proof.
  assert (∀ {A} (m : SE (@st exec_locals) exn A) (f : A → SE st exn ExecutionOutcome),
    (∀ a s s' o, f a s = (s', Ok o) → o = outcome (local s')) →
    ∀ s s' o, (m ≫= f) s = (s', Ok o) → o = outcome (local s')) as Hb.
  { intros A m f Hf s1 s2 o1 (s3 & a & _ & E)%se_bind_ok. by eapply Hf. }
  revert s s' o. unfold _handle_failure.
  repeat (apply Hb; intros ?). by intros s s' o [= <- <-].
Qed.

Lemma execute_settles s :
  apply_delivery_actions cfg = true →
  wp execute_post (execute fpow uniform deepcopy truth env cfg) s.
Proof.
  intros Hap. apply (wp_change (se_try (execute_body deepcopy truth env cfg (perf_counter_at env (hist s)))
    (handle_exception fpow uniform deepcopy truth env cfg (perf_counter_at env (hist s)))) _
    {| hist := hist s; local := initial_locals |}); [done | done |].
  apply wp_try. eapply wp_mono; [apply body_settles; done|].
  intros [o|e] l1 s1 Hb; [destruct Hb as (-> & Hact & Hset)|].
  { split; [done|]. unfold settled_history. by rewrite Hact. }
  unfold handle_exception.
  set (s2 := {| hist := hist s1; local := {| outcome := set_failure_stage (active_stage (local s1))
    (outcome (local s1)); active_stage := active_stage (local s1) |} |} : @st exec_locals).
  assert (∀ k, wp (λ r l2 s', execute_post r (l2 ++ l1) s')
    (_ ← record_stage; _handle_failure fpow uniform deepcopy truth env cfg e k
         (perf_counter_at env (hist s))) s1) as Hfail.
  { intros k. apply wp_bind, wp_set_local. fold s2. unfold wp.
    destruct (handle_failure_settles e k (perf_counter_at env (hist s)) s2 Hap) as (l2 & Hl2 & Hpost).
    pose proof (handle_failure_outcome e k (perf_counter_at env (hist s)) s2) as Ho.
    destruct (_handle_failure _ _ _ _ _ _ _ _ _ s2) as [s3 [o|e']]; exists l2;
      (split; [exact Hl2|]); rewrite app_nil_r; cbn in Hpost |- *.
    - rewrite (Ho s3 o eq_refl). split; [done|]. by eapply (handled_history l1 l2 s1 e (local s2)).
    - eapply settled_after_body; [exact Hb | exact Hpost |]. intros c Hc. apply failure_not_success. by left. }
  destruct (is_cancelled e); [|destruct (is_timeout e); [apply Hfail|]; destruct (is_exception e); [apply Hfail|]].
  - apply wp_bind, wp_set_local, wp_bind. fold s2.
    eapply wp_mono; [by apply handle_cancelled_settles|].
    assert (∀ c, is_cancellation_call c = true → is_success_call c = false) as Hcs
      by (intros c Hc; apply failure_not_success; by right).
    intros [[]|e'] l2 s3 Hset; [apply wp_raise|]; cbn [app]; rewrite ?app_nil_r;
      eapply settled_after_body; [exact Hb | by right | exact Hcs | exact Hb | exact Hset | exact Hcs].
  - apply wp_raise. change (safely_settled l1). unfold safely_settled.
    destruct Hb as [->|[(a & -> & _) _]]; [by left | right; left; by exists a].
Qed.
End Frames.

(** ** Properties *)


(** Whatever user code, connectors, exceptions and cancellations do, an
    execution settles its delivery at most twice, and twice only when a
    failure or a cancellation follows an acknowledgement that took effect. *)
Theorem settled_at_most_twice fpow uniform deepcopy truth env cfg s :
  apply_delivery_actions cfg = true →
  ∃ l, hist (execute fpow uniform deepcopy truth env cfg s).1 = l ++ hist s ∧ safely_settled l.
Proof.
  intros Hap. destruct (execute_settles fpow uniform deepcopy truth env cfg s Hap) as (l & Hl & Hp).
  exists l. split; [done|]. destruct (execute _ _ _ _ _ _ s) as [s1 [o|e]]; cbn in Hp; [|done].
  destruct Hp as [_ Hh]. unfold settled_history in Hh. unfold safely_settled.
  destruct (delivery_action o) as [[]|];
    [destruct Hh as (ev & -> & _); eauto
    |destruct Hh as (ev & rest & -> & Hn & _ & [->|(a & -> & Ha & _)]); eauto 10..].
Qed.
