(* ===== verification/Sends.v ===== *)
(** * What is sent before a delivery is settled

    The order of sends and settlements in the history of an execution: an
    acknowledgement comes after every selected sink accepted its envelope, a
    failure after every dead-letter sink accepted the dead letter. *)

From stdpp Require Import base option list strings numbers.
From Stdlib Require Import ZArith Lia.
From S2P Require Import Prelude PyFloat Value Resilience Invoke Retry Events Task Execution Effects Executor Settlement.

(** ** Accepted sends *)

Definition accepted (ev : event) : list string :=
  match ev with
  | (CSend sk _, Ok _) | (CDispatch sk _ _, Ok _) => [sk_name sk]
  | _ => []
  end.

(** The names of the sinks that accepted an envelope, oldest first. *)
Fixpoint sent_names (l : history) : list string :=
  match l with
  | [] => []
  | ev :: l => sent_names l ++ accepted ev
  end.

Lemma sent_names_app l2 l1 : sent_names (l2 ++ l1) = sent_names l1 ++ sent_names l2.
Proof. induction l2 as [|ev l2 IH]; cbn; [by rewrite app_nil_r|]. by rewrite IH, app_assoc. Qed.

Lemma sent_names_idle l : Forall idle l → sent_names l = [].
Proof.
  induction 1 as [|[c r] l [_ Hs] Hl IH]; [done|]. cbn. rewrite IH. cbn in Hs. by destruct c.
Qed.

(** The sends, accepted or not. *)
Definition sends (l : history) : history := List.filter (λ ev : event, is_send_call ev.1) l.

Lemma sends_app l2 l1 : sends (l2 ++ l1) = sends l2 ++ sends l1.
Proof. apply List.filter_app. Qed.

Lemma sends_idle l : Forall idle l → sends l = [].
Proof. induction 1 as [|ev l [_ Hev] Hl IH]; [done|]. unfold sends in *. cbn. by rewrite Hev. Qed.

(** Before every event of class [p] in [l], which runs after [base], [P]
    holds. *)
Fixpoint guarded (p : call → bool) (P : history → Prop) (base l : history) : Prop :=
  match l with
  | [] => True
  | ev :: l => (p ev.1 = true → P (l ++ base)) ∧ guarded p P base l
  end.

Lemma guarded_app p P base l2 l1 :
  guarded p P (l1 ++ base) l2 → guarded p P base l1 → guarded p P base (l2 ++ l1).
Proof.
  intros H2 H1. induction l2 as [|ev l2 IH]; cbn in *; [done|].
  rewrite <- app_assoc. split; [apply H2 | by apply IH, H2].
Qed.

Lemma guarded_none p P base l : Forall (λ ev, p ev.1 = false) l → guarded p P base l.
Proof. induction 1 as [|ev l He Hl IH]; cbn; [done|]. by rewrite He. Qed.

Lemma guarded_elim p P l post ev pre :
  guarded p P [] l → l = post ++ ev :: pre → p ev.1 = true → P pre.
Proof.
  revert l. induction post as [|e post IH]; intros l Hg -> Hp; cbn in Hg.
  - destruct Hg as [Hg _]. by rewrite app_nil_r in Hg; apply Hg.
  - by eapply IH; [apply Hg|..].
Qed.

Lemma quiet_not_settling (p : call → bool) l :
  (∀ c, p c = true → is_settle_call c = true) → Forall quiet l → Forall (λ ev, p ev.1 = false) l.
Proof.
  intros Hp Hl. apply Forall_forall. intros ev Hev. rewrite Forall_forall in Hl.
  specialize (Hl ev Hev). unfold quiet in Hl. apply not_true_iff_false. intros Ht.
  apply Hp in Ht. congruence.
Qed.

Section Sends.
Context (fpow : float64 → Z → option float64) (uniform : float64 → float64 → float64).
Context (deepcopy : value → result exn value) (truth : value → bool).
Context (env : environment) (cfg : exec_config).

(** After a failed send and some waiting. *)
Lemma failed_send_again n sk e exc l1 (s : @st exec_locals) :
  Forall idle l1 →
  wp (λ r l s', sent_names l = (if is_ok r then [sk_name sk] else []) ∧ (length (sends l) ≤ n)%nat)
    (send_attempts env n sk e) s →
  wp (λ r l s', sent_names ((l ++ l1) ++ [(CSend sk e, Err exc)]) = (if is_ok r then [sk_name sk] else []) ∧
                (length (sends ((l ++ l1) ++ [(CSend sk e, Err exc)])) ≤ S n)%nat)
    (send_attempts env n sk e) s.
Proof.
  intros Hl1 H. eapply wp_mono; [exact H|]. intros r l s2 [Hs Hlen]. cbn beta.
  rewrite !sent_names_app, Hs, (sent_names_idle l1 Hl1), !sends_app, (sends_idle l1 Hl1), app_nil_r,
    length_app. cbn. split; [done | lia].
Qed.

(** [send_attempts] returns exactly when one of its at most [n] sends was
    accepted. *)
Lemma send_attempts_sends n sk e s :
  (0 < n)%nat →
  wp (λ r l s', sent_names l = (if is_ok r then [sk_name sk] else []) ∧ (length (sends l) ≤ n)%nat)
    (send_attempts env n sk e) s.
Proof.
  revert s. induction n as [|n IH]; intros s Hn; [lia|]. cbn [send_attempts].
  apply wp_try. unfold perform_. apply wp_bind, wp_perform. cbv zeta.
  destruct (respond env (hist s) (CSend sk e)) as [v|exc] eqn:E.
  { apply wp_ret. cbn. split; [done | lia]. }
  destruct (exn_cls exc); try (apply wp_raise; cbn; split; [done | lia]).
  destruct (negb (retryable_kind kind) || (n =? 0)%nat) eqn:Eg;
    [apply wp_raise; cbn; split; [done | lia]|].
  apply orb_false_iff in Eg as [_ Hz%Nat.eqb_neq]. unfold observe. apply wp_bind, wp_gets.
  destruct (_ || _).
  { eapply wp_mono; [apply (failed_send_again n sk e exc []); [constructor | apply IH; lia]|].
    intros r l s2. cbn beta. by rewrite !app_nil_r. }
  apply wp_bind, wp_try, wp_bind, wp_perform. cbv zeta.
  match goal with |- context [respond env ?h (CWaitShutdown ?d)] =>
    set (delay := d); destruct (respond env h (CWaitShutdown delay)) as [w|e'] end.
  - apply wp_ret, wp_raise. cbn. split; [done | lia].
  - destruct (is_timeout e').
    + apply wp_ret. eapply wp_mono;
        [apply (failed_send_again n sk e exc [(CWaitShutdown delay, Err e')]);
          [by repeat constructor | apply IH; lia]|].
      intros r l s2. cbn beta. rewrite <- !app_assoc. cbn [app]. intros H. exact H.
    + apply wp_raise. cbn. split; [done | lia].
Qed.

(** ** Emitting the result *)

Definition sent_or_failed {A} (ns : list string) (r : result exn A) (l : history) : Prop :=
  match r with Ok _ => sent_names l = ns | Err _ => True end.

Lemma dispatcher_sends sk e k s :
  wp (λ r l s', local s' = local s ∧ sent_or_failed [sk_name sk] r l)
    (_sink_dispatcher truth env cfg sk e k) s.
Proof.
  unfold wp. pose proof (dispatcher_keeps truth env cfg sk e k s) as Hk.
  cut (wp (λ r l s', sent_or_failed [sk_name sk] r l) (_sink_dispatcher truth env cfg sk e k) s).
  { intros (l & Hl & H). by exists l. }
  clear Hk. unfold _sink_dispatcher. destruct (production_sinks cfg).
  - apply wp_bind. destruct (String.eqb k "dead_letter").
    + unfold perform_. apply wp_bind, wp_perform. cbv zeta.
      destruct (respond env (hist s) (CSend sk e)); [|done]. by do 2 apply wp_ret.
    + unfold _send_to_sink. eapply wp_mono; [apply send_attempts_sends; unfold _SEND_ATTEMPTS; lia|].
      intros [u|er] l s1 [Hs _]; [|done]. by apply wp_ret.
  - apply wp_bind, wp_perform. cbv zeta. destruct (respond env (hist s) (CDispatch sk e k)); [|done].
    by apply wp_ret.
Qed.

Lemma send_all_sends (ses : list (Sink * Envelope)) s :
  wp (λ r l s', selected_sinks (outcome (local s')) = selected_sinks (outcome (local s)) ∧
                sent_or_failed ((λ se, sk_name se.1) <$> ses) r l)
    (se_iter (λ se : Sink * Envelope,
       _ ← enter_stage "sink"; _ ← _sink_dispatcher truth env cfg se.1 se.2 "emit"; mret ()) ses) s.
Proof.
  revert s. induction ses as [|[sk e] ses IH]; intros s; cbn [se_iter]; [by apply wp_ret|].
  apply wp_bind, wp_bind, wp_set_local, wp_bind.
  eapply wp_mono; [apply dispatcher_sends|]. intros [b|er] l s1 [Hs1 Hl]; [|by rewrite Hs1].
  apply wp_ret. eapply wp_mono; [apply IH|]. intros r l2 s2 [Hs2 Hl2]. cbn beta.
  rewrite Hs2, Hs1. split; [done|]. destruct r as [u|]; [|done]. cbn in *.
  by rewrite app_nil_r, sent_names_app, Hl, Hl2.
Qed.

Local Hint Resolve adds_idle_quiet checkpoint_idle emit_idle capture_idle hooks_idle
  handler_idle select_idle prepare_idle snapshot_idle dispatcher_quiet process_quiet
  publish_all_quiet adds_current_error adds_elapsed succeeded_meta_quiet : adds.
Local Hint Resolve checkpoint_keeps emit_keeps capture_keeps hooks_keep dispatcher_keeps
  select_keeps prepare_keeps publish_all_keeps keeps_current_error keeps_elapsed
  succeeded_meta_keeps keeps_local_field : keeps.

(** The envelopes are prepared for the selected sinks, in order. *)
Lemma prepared_sinks bs payload res s s' ses :
  _prepare_emit_envelopes env bs payload res s = (s', Ok ses) →
  (λ se : Sink * Envelope, sk_name se.1) <$> ses = (λ b, sk_name (eb_sink b)) <$> bs.
Proof.
  unfold _prepare_emit_envelopes. revert s s' ses. induction bs as [|b bs IH]; intros s s' ses E.
  - by injection E as _ <-.
  - cbn [se_map] in E. apply se_bind_ok in E as (s1 & [sk e] & E1 & E).
    apply se_bind_ok in E as (s2 & ses' & E2 & [= _ <-]).
    apply se_bind_ok in E1 as (s3 & v & _ & [= _ <- _]). csimpl. f_equal. by eapply IH.
Qed.

(** Idle parts before a part that sends. *)
Lemma sent_prefix {A B} ns (m : SE (@st exec_locals) exn A) (f : A → SE st exn B) s :
  adds idle m → keeps_field selected_sinks m →
  (∀ a s1, m s = (s1, Ok a) →
     wp (λ r l s', sent_or_failed (ns (selected_sinks (outcome (local s')))) r l) (f a) s1) →
  wp (λ r l s', sent_or_failed (ns (selected_sinks (outcome (local s')))) r l) (m ≫= f) s.
Proof.
  intros Hm Hk Hf. apply wp_bind. destruct (Hm s) as (l & Hl & Hq). exists l. split; [done|].
  destruct (m s) as [s1 [a|e]] eqn:E; cbn; [|done]. eapply wp_mono; [by apply Hf|].
  intros [b|e] l2 s2; cbn; [|done]. by rewrite sent_names_app, (sent_names_idle l Hq).
Qed.

Lemma run_emit_sends res s :
  wp (λ r l s', sent_or_failed (selected_sinks (outcome (local s'))) r l)
    (run_emit truth env cfg res) s.
Proof.
  unfold run_emit.
  apply (sent_prefix id); [adds_auto | done |]. intros [] s1 _.
  apply (sent_prefix id); [eauto with adds | eauto with keeps |]. intros [] s2 _.
  apply (sent_prefix id); [unfold get_payload; adds_auto | done |]. intros payload s3 _.
  apply (sent_prefix id); [eauto with adds | eauto with keeps |]. intros bs s4 _.
  apply wp_update. cbn [local outcome].
  match goal with |- wp _ _ ?s0 => remember s0 as s5 end.
  assert (selected_sinks (outcome (local s5)) = (λ b, sk_name (eb_sink b)) <$> bs) as H5 by by subst.
  clear Heqs5. revert H5.
  assert (∀ {A B} (m : SE (@st exec_locals) exn A) (f : A → SE st exn B) s ns,
    adds idle m → keeps_local m → selected_sinks (outcome (local s)) = ns →
    (∀ a s1, m s = (s1, Ok a) → selected_sinks (outcome (local s1)) = ns →
       wp (λ r l s', sent_or_failed (selected_sinks (outcome (local s'))) r l) (f a) s1) →
    wp (λ r l s', sent_or_failed (selected_sinks (outcome (local s'))) r l) (m ≫= f) s) as Hpre.
  { intros A B m f s6 ns Hm Hk Hns Hf. apply (sent_prefix id); [done | eauto with keeps |].
    intros a s7 E. apply (Hf a s7 E). specialize (Hk s6). rewrite E in Hk. cbn in Hk. by rewrite Hk. }
  intros H5. eapply Hpre; [eauto with adds | eauto with keeps | exact H5 |]. intros [] s6 _ H6.
  apply (sent_prefix id); [adds_auto | done |]. intros [] s7 E7.
  assert (selected_sinks (outcome (local s7)) = (λ b, sk_name (eb_sink b)) <$> bs) as H7
    by by injection E7 as <-.
  eapply Hpre; [eauto with adds | eauto with keeps | exact H7 |]. intros [] s8 _ H8.
  eapply Hpre; [unfold get_payload; adds_auto | done | exact H8 |]. intros payload' s9 _ H9.
  eapply Hpre; [eauto with adds | eauto with keeps | exact H9 |]. intros ses s10 E10 H10.
  apply prepared_sinks in E10.
  eapply Hpre; [eauto with adds | eauto with keeps | exact H10 |]. intros [] s11 _ H11.
  eapply wp_mono; [apply send_all_sends|]. intros r l s12 [H12 Hl]. cbn beta.
  rewrite H12, H11, <- E10. exact Hl.
Qed.

Lemma in_stage_idle {A} stage (m : SE (@st exec_locals) exn A) :
  adds idle m → adds idle (in_stage env cfg stage m).
Proof. intros Hm. unfold in_stage, enter_stage. adds_auto. Qed.

(** The sinks that accepted the result of the handler, when it is time to
    acknowledge the delivery, are the ones the outcome reports. *)
Lemma process_sends s :
  selected_sinks (outcome (local s)) = [] →
  wp (λ r l s', sent_or_failed (selected_sinks (outcome (local s'))) r l)
    (process_delivery deepcopy truth env cfg) s.
Proof.
  intros Hs. unfold process_delivery.
  assert (∀ {A B} (m : SE (@st exec_locals) exn A) (f : A → SE st exn B) s0,
    adds idle m → keeps_field selected_sinks m → selected_sinks (outcome (local s0)) = [] →
    (∀ a s1, selected_sinks (outcome (local s1)) = [] →
       wp (λ r l s', sent_or_failed (selected_sinks (outcome (local s'))) r l) (f a) s1) →
    wp (λ r l s', sent_or_failed (selected_sinks (outcome (local s'))) r l) (m ≫= f) s0) as Hpre.
  { intros A B m f s0 Hm Hk Hs0 Hf. apply (sent_prefix id); [done | done |].
    intros a s1 E. apply (Hf a s1). specialize (Hk s0). rewrite E in Hk. cbn in Hk. by rewrite Hk. }
  apply Hpre; [adds_auto | done | done |]. intros _ s1 H1.
  apply Hpre; [eauto with adds | apply keeps_local_field, emit_keeps | done |]. intros [] s2 H2.
  apply Hpre; [apply in_stage_idle; unfold get_payload; adds_auto
    | apply in_stage_keeps_field, keeps_field_bind; [done | eauto with keeps] | done |]. intros [] s3 H3.
  apply Hpre; [apply in_stage_idle; unfold update; adds_auto
    | apply in_stage_keeps_field, keeps_field_bind; [done | intros ?; by apply keeps_field_bind] | done |].
  intros res s4 H4.
  apply Hpre; [apply in_stage_idle; unfold get_payload; adds_auto
    | apply in_stage_keeps_field, keeps_field_bind; [done | eauto with keeps] | done |]. intros [] s5 H5.
  assert (wp (λ r l s', sent_or_failed (selected_sinks (outcome (local s'))) r l)
    (match is_none res, emit_targets (task cfg) with
     | false, _ :: _ => run_emit truth env cfg res
     | _, _ => mret ()
     end) s5) as Hemit.
  { destruct (is_none res), (emit_targets (task cfg)); try (apply wp_ret; by rewrite H5).
    apply run_emit_sends. }
  apply wp_bind. eapply wp_mono; [exact Hemit|]. intros [[]|e] l s6 H; [|done].
  by apply wp_ret.
Qed.

(** No acknowledgement. *)
Definition no_success (ev : event) : Prop := is_success_call ev.1 = false.

Lemma quiet_no_success {A} (m : SE (@st exec_locals) exn A) : adds quiet m → adds no_success m.
Proof.
  apply adds_weaken. intros [c r]. unfold quiet, no_success. cbn. by destruct c.
Qed.
Local Hint Resolve quiet_no_success : adds.


(** The completion of a managed execution with [status]. *)
Lemma adds_complete (P : event → Prop) status res er d {A} (f : bool → SE (@st exec_locals) exn A) :
  (∀ c r, cp_status c = status → P (CComplete c, r)) → (∀ b, adds P (f b)) →
  adds P (c ← make_completion status res er d; b ← _complete_managed_execution env c; f b).
Proof.
  intros HP Hf s. unfold mbind at 1, se_bind. unfold make_completion at 1, se_lift, mk_ExecutionCompletion.
  cbn [coerce_status mbind result_bind].
  destruct (guard_else _ _); cbn [mbind result_bind]; [|by exists []].
  assert (∀ c, cp_status c = status → adds P (b ← _complete_managed_execution env c; f b)) as Hgo.
  { intros c Hc. apply adds_bind; [|done]. unfold _complete_managed_execution. adds_auto. }
  destruct er as [er|]; cbn [opt_error_arg mbind result_bind];
    (destruct (_validate_delay d) as [o|e]; cbn; [by apply Hgo | by exists []]).
Qed.

Lemma not_completes st st' c : st' ≠ st → cp_status c = st' → completes st (CComplete c) = false.
Proof. intros Hne Hc. cbn. apply bool_decide_eq_false. congruence. Qed.

Ltac complete_auto :=
  repeat first
    [ apply adds_complete; [intros ? ? ?; eapply not_completes; [|eassumption]; by repeat case_match | intros ?]
    | solve [eauto with adds] | progress adds_step
    | match goal with |- adds _ (match ?x with _ => _ end) => destruct x end
    | done ].

Lemma apply_retry_no_success d er : adds no_success (_apply_retry env cfg d er).
Proof. unfold _apply_retry. complete_auto. Qed.
Local Hint Resolve apply_retry_no_success : adds.

Lemma fail_delivery_no_success exc er : adds no_success (_fail_delivery env cfg exc er).
Proof. unfold _fail_delivery, fail_managed, fail_plain. complete_auto. Qed.
Local Hint Resolve fail_delivery_no_success : adds.

Lemma handle_failure_no_success exc k t :
  adds no_success (_handle_failure fpow uniform deepcopy truth env cfg exc k t).
Proof.
  unfold _handle_failure, fail_after_policy, _publish_dead_letter, update, get_outcome, get_envelope,
    get_payload. complete_auto.
Qed.

Lemma handle_cancelled_no_success t : adds no_success (_handle_cancelled deepcopy env cfg t).
Proof. unfold _handle_cancelled, update. complete_auto. Qed.

Local Hint Resolve handle_failure_no_success handle_cancelled_no_success : adds.

Lemma handle_exception_no_success t exc :
  adds no_success (handle_exception fpow uniform deepcopy truth env cfg t exc).
Proof.
  unfold handle_exception, record_stage.
  destruct (is_cancelled exc), (is_timeout exc), (is_exception exc); adds_auto.
Qed.

(** No send. *)
Definition no_send (ev : event) : Prop := is_send_call ev.1 = false.

Lemma idle_no_send {A} (m : SE (@st exec_locals) exn A) : adds idle m → adds no_send m.
Proof. apply adds_weaken. by intros ev []. Qed.
Local Hint Resolve idle_no_send : adds.

Lemma sent_names_no_send l : Forall no_send l → sent_names l = [].
Proof.
  induction 1 as [|[c r] l Hs Hl IH]; [done|]. cbn. rewrite IH. unfold no_send in Hs. by destruct c.
Qed.

Lemma guarded_no_send p ns base l :
  Forall no_send l → sent_names base = ns → guarded p (λ pre, sent_names pre = ns) base l.
Proof.
  intros Hl Hb. induction Hl as [|ev l He Hl IH]; cbn; [done|]. split; [|done]. intros _.
  by rewrite sent_names_app, (sent_names_no_send l Hl), app_nil_r.
Qed.

Lemma acknowledge_no_send t res : adds no_send (acknowledge deepcopy env cfg t res).
Proof.
  unfold acknowledge, _apply_success, enter_stage, update, _build_succeeded_event_meta, get_envelope.
  repeat first [apply adds_complete; [done|intros ?] | progress adds_auto].
Qed.

Ltac field_auto :=
  repeat first
    [ done | solve [eauto with keeps] | apply keeps_field_bind; [|intros ?]
    | match goal with |- keeps_field _ (match ?x with _ => _ end) => destruct x end
    | (apply keeps_local_field; keeps_auto) ].

Lemma complete_managed_keeps c : keeps_local (_complete_managed_execution env c).
Proof. unfold _complete_managed_execution. keeps_auto. Qed.
Local Hint Resolve complete_managed_keeps : keeps.

Lemma acknowledge_keeps_sinks t res :
  keeps_field selected_sinks (acknowledge deepcopy env cfg t res).
Proof.
  unfold acknowledge, _apply_success, perform_.
  field_auto.
Qed.

Lemma apply_retry_keeps d er : keeps_local (_apply_retry env cfg d er).
Proof. unfold _apply_retry, perform_. keeps_auto. Qed.
Local Hint Resolve apply_retry_keeps : keeps.

Lemma fail_delivery_keeps exc er : keeps_local (_fail_delivery env cfg exc er).
Proof. unfold _fail_delivery, fail_managed, fail_plain. keeps_auto. Qed.
Local Hint Resolve fail_delivery_keeps : keeps.

(** A handler of exceptions writes neither the selected sinks nor, once the
    failure is recorded, the failure. *)
Lemma fail_after_policy_keeps {F} (g : ExecutionOutcome → F) exc f d :
  (∀ c t o, g (set_completion c t o) = g o) → (∀ a d o, g (set_action a d o) = g o) →
  (∀ a p o, g (set_dead_letter a p o) = g o) →
  keeps_field g (fail_after_policy deepcopy truth env cfg exc f d).
Proof.
  intros Hc Ha Hd.
  assert (∀ h : ExecutionOutcome → ExecutionOutcome, (∀ o, g (h o) = g o) → keeps_field g (update h)) as Hu
    by (intros h Hh s; apply Hh).
  assert (keeps_field g (_publish_dead_letter deepcopy truth env cfg f d)) as Hp.
  { unfold _publish_dead_letter. do 2 (apply keeps_field_bind; [done | intros ?]).
    apply keeps_field_bind; [apply keeps_local_field; keeps_auto|]. intros [any|].
    - apply keeps_field_bind; [by apply Hu | intros ?; field_auto].
    - apply keeps_field_bind; [by apply Hu|]. intros _.
      apply keeps_field_bind; [apply Hu; intros; apply Ha | intros ?; field_auto]. }
  assert (∀ a, keeps_field g (update (λ o, set_action a (retry_delay_s o) o))) as Hua
    by (intros a; apply Hu; intros; apply Ha).
  unfold fail_after_policy. apply keeps_field_bind.
  - destruct (dead_letter_sinks (task cfg)); (apply keeps_field_bind; [done | by intros ?]).
  - intros [|]; cbn [negb]; [|eauto with keeps].
    apply keeps_field_bind; [eauto with keeps|]. intros er.
    apply keeps_field_bind; [eauto with keeps|]. intros t.
    apply keeps_field_bind; [apply Hu; intros; apply Hc|]. intros _.
    apply keeps_field_bind; [by destruct t|]. intros _. field_auto.
Qed.

Lemma handle_exception_keeps_sinks t exc :
  keeps_field selected_sinks (handle_exception fpow uniform deepcopy truth env cfg t exc).
Proof.
  assert (keeps_field selected_sinks record_stage) as Hr by done.
  assert (keeps_field selected_sinks (_snapshot_capture_envelope deepcopy env cfg)) as Hs
    by by apply snapshot_keeps_field.
  assert (∀ k, keeps_field selected_sinks
    (_handle_failure fpow uniform deepcopy truth env cfg exc k t)) as Hf.
  { intros k. unfold _handle_failure.
    repeat (apply keeps_field_bind; [solve [done | eauto with keeps]|]; intros ?).
    apply keeps_field_bind; [|done]. destruct (decision _); [|by apply fail_after_policy_keeps].
    field_auto. }
  assert (keeps_field selected_sinks (_handle_cancelled deepcopy env cfg t)) as Hc.
  { unfold _handle_cancelled, perform_. field_auto. }
  unfold handle_exception. field_auto.
Qed.

(** The history of [execute]: the processing of the delivery, its
    acknowledgement and the handling of an exception. *)
Definition sends_first (l : history) (s' : @st exec_locals) : Prop :=
  guarded is_success_call (λ pre, sent_names pre = selected_sinks (outcome (local s'))) [] l.

Lemma quiet_sends_first l s' : Forall quiet l → sends_first l s'.
Proof.
  intros Hl. apply guarded_none. eapply quiet_not_settling; [|exact Hl]. by intros [].
Qed.

Lemma no_success_sends_first l2 l1 (s1 s2 : @st exec_locals) :
  Forall no_success l2 → selected_sinks (outcome (local s2)) = selected_sinks (outcome (local s1)) →
  sends_first l1 s1 → sends_first (l2 ++ l1) s2.
Proof.
  intros Hl Hs H. unfold sends_first. rewrite Hs. apply guarded_app; [by apply guarded_none | done].
Qed.

Lemma body_sends_first t s :
  selected_sinks (outcome (local s)) = [] →
  wp (λ r l s', sends_first l s') (execute_body deepcopy truth env cfg t) s.
Proof.
  intros Hs. unfold execute_body. apply wp_bind.
  destruct (process_sends s Hs) as (l & Hl & Hp).
  destruct (process_quiet deepcopy truth env cfg s) as (l' & Hl' & Hq).
  assert (l' = l) as -> by (apply (app_inv_tail (hist s)); congruence).
  exists l. split; [done|]. destruct (process_delivery deepcopy truth env cfg s) as [s1 [res|e]]; cbn in *;
    [|by apply quiet_sends_first].
  apply wp_bind. destruct (acknowledge_no_send t res s1) as (l2 & Hl2 & Hn).
  pose proof (acknowledge_keeps_sinks t res s1) as Hk.
  exists l2. split; [done|]. destruct (acknowledge deepcopy env cfg t res s1) as [s2 r]; cbn in *.
  assert (sends_first (l2 ++ l) s2) as Hf.
  { unfold sends_first. apply guarded_app; [|by apply quiet_sends_first].
    apply guarded_no_send; [done|]. by rewrite app_nil_r, Hk. }
  destruct r as [[]|e]; [|done]. apply wp_update. by apply wp_gets.
Qed.

Lemma execute_sends_first s :
  wp (λ r l s', sends_first l s') (execute fpow uniform deepcopy truth env cfg) s.
Proof.
  apply (wp_change (se_try (execute_body deepcopy truth env cfg (perf_counter_at env (hist s)))
    (handle_exception fpow uniform deepcopy truth env cfg (perf_counter_at env (hist s)))) _
    {| hist := hist s; local := initial_locals |}); [done | done |].
  apply wp_try. eapply wp_mono; [by apply body_sends_first|].
  intros [o|e] l1 s1 Hb; [done|].
  pose proof (handle_exception_keeps_sinks (perf_counter_at env (hist s)) e s1) as Hk.
  destruct (handle_exception_no_success (perf_counter_at env (hist s)) e s1) as (l2 & Hl2 & Hn).
  exists l2. split; [done|]. by eapply no_success_sends_first.
Qed.

(** ** Dead letters *)

(** The sink accepted the envelope as a dead letter. *)
Definition dead_lettered (sk : Sink) (e : Envelope) (l : history) : Prop :=
  ∃ v, (CSend sk e, Ok v) ∈ l ∨ (CDispatch sk e "dead_letter", Ok v) ∈ l.

Lemma dead_lettered_app sk e l2 l1 :
  dead_lettered sk e l1 ∨ dead_lettered sk e l2 → dead_lettered sk e (l2 ++ l1).
Proof. unfold dead_lettered. intros [(v & H)|(v & H)]; exists v; rewrite !elem_of_app; tauto. Qed.

(** Every dead-letter sink accepted the dead letter of a failure. *)
Definition all_dead_lettered (f : FailureInfo) (l : history) : Prop :=
  ∃ h e, dead_letter_envelope deepcopy cfg (envelope_at env h) f = Ok e ∧
         ∀ sk, sk ∈ dead_letter_sinks (task cfg) → dead_lettered sk e l.

Lemma all_dead_lettered_app f l2 l1 :
  all_dead_lettered f l1 ∨ all_dead_lettered f l2 → all_dead_lettered f (l2 ++ l1).
Proof.
  intros [(h & e & He & H)|(h & e & He & H)]; exists h, e; (split; [done|]); intros sk Hsk;
    apply dead_lettered_app; auto.
Qed.

Lemma publish_all_dead_lettered sinks e b s :
  wp (λ r l s', is_ok r = true → ∀ sk, sk ∈ sinks → dead_lettered sk e l)
    (publish_all truth env cfg sinks e b) s.
Proof.
  revert b s. induction sinks as [|sk sinks IH]; intros b s; cbn [publish_all].
  { apply wp_ret. intros _ sk []%not_elem_of_nil. }
  apply wp_bind.
  assert (wp (λ r l s', is_ok r = true → dead_lettered sk e l)
            (_sink_dispatcher truth env cfg sk e "dead_letter") s) as H.
  { unfold _sink_dispatcher. destruct (production_sinks cfg); cbn.
    - apply wp_bind. unfold perform_. apply wp_bind, wp_perform. cbv zeta.
      destruct (respond env (hist s) (CSend sk e)) as [v|] eqn:E; [|by intros].
      do 2 apply wp_ret. intros _. exists v. left. by left.
    - apply wp_bind, wp_perform. cbv zeta.
      destruct (respond env (hist s) _) as [v|] eqn:E; [|by intros].
      apply wp_ret. intros _. exists v. right. by left. }
  eapply wp_mono; [exact H|]. intros [sent|er] l s1 H1; cbn beta in H1; [|by intros].
  eapply wp_mono; [apply IH|]. intros r l2 s2 H2 Hr sk' [->|Hsk]%elem_of_cons; apply dead_lettered_app; auto.
Qed.

Definition no_fail (ev : event) : Prop := is_fail_call ev.1 = false.

Lemma quiet_no_fail {A} (m : SE (@st exec_locals) exn A) : adds quiet m → adds no_fail m.
Proof. apply adds_weaken. intros [c r]. unfold quiet, no_fail. cbn. by destruct c. Qed.
Local Hint Resolve quiet_no_fail : adds.

Lemma apply_retry_no_fail d er : adds no_fail (_apply_retry env cfg d er).
Proof. unfold _apply_retry. complete_auto. Qed.
Local Hint Resolve apply_retry_no_fail : adds.

Lemma publish_dead_letter_no_fail f d : adds no_fail (_publish_dead_letter deepcopy truth env cfg f d).
Proof. unfold _publish_dead_letter, update, get_envelope. complete_auto. Qed.
Local Hint Resolve publish_dead_letter_no_fail : adds.

Lemma handle_cancelled_no_fail t : adds no_fail (_handle_cancelled deepcopy env cfg t).
Proof. unfold _handle_cancelled, update. complete_auto. Qed.

Lemma acknowledge_no_fail t res : adds no_fail (acknowledge deepcopy env cfg t res).
Proof.
  unfold acknowledge, _apply_success, enter_stage, update. complete_auto.
Qed.

Lemma body_no_fail t : adds no_fail (execute_body deepcopy truth env cfg t).
Proof.
  unfold execute_body, update. apply adds_bind; [eauto with adds|]. intros res.
  apply adds_bind; [apply acknowledge_no_fail|]. intros []. adds_auto.
Qed.

(** Before a failure is settled. *)
Definition dead_letters_done (f : FailureInfo) (l : history) : Prop :=
  dead_letter_sinks (task cfg) = [] ∨ all_dead_lettered f l.

Lemma dead_letters_done_app f l2 l1 :
  dead_letters_done f l1 ∨ dead_letters_done f l2 → dead_letters_done f (l2 ++ l1).
Proof.
  intros [[H|H]|[H|H]]; [by left| |by left|]; right; apply all_dead_lettered_app; auto.
Qed.

Lemma publish_dead_letter_done f d s :
  wp (λ r l s', r = Ok true → all_dead_lettered f l) (_publish_dead_letter deepcopy truth env cfg f d) s.
Proof.
  unfold _publish_dead_letter. apply wp_bind. unfold get_envelope, observe. apply wp_gets, wp_bind, wp_lift.
  destruct (dead_letter_envelope deepcopy cfg _ f) as [dl|er] eqn:E; [|by intros].
  apply wp_bind, wp_try, wp_bind. eapply wp_mono; [apply publish_all_dead_lettered|].
  intros [any|er] l s1 H; cbn beta iota in H.
  - apply wp_ret. apply wp_update. cbn [app].
    eapply wp_adds; [apply adds_bind; [eauto with adds | intros; apply adds_ret]|].
    intros r l2 s2 _ ->. rewrite !app_nil_r. apply all_dead_lettered_app. left.
    exists (hist s), dl. split; [exact E|]. intros sk Hsk. by apply H.
  - destruct (is_exception er); [|by apply wp_raise]. apply wp_ret, wp_update, wp_update.
    match goal with |- wp _ ?m ?s => destruct (adds_bind no_fail
      (@current_error) (λ er, _ ← _apply_retry env cfg None er;
        _ ← emit deepcopy env cfg EV_RETRIED d (Some f) None; mret false)
      ltac:(eauto with adds) ltac:(intros; complete_auto) s) as (l2 & Hl2 & _);
      exists l2; split; [exact Hl2|]; destruct (m s) as [s2 [b|e2]] eqn:E2; cbn; [|by intros] end.
    intros [= ->]. by apply dead_letter_retry_false in E2.
Qed.

Lemma guarded_done p f base l : dead_letters_done f base → guarded p (dead_letters_done f) base l.
Proof.
  intros Hb. induction l as [|ev l IH]; cbn; [done|]. split; [|done]. intros _.
  apply dead_letters_done_app. by left.
Qed.

Lemma guarded_weaken_base p f base l :
  guarded p (dead_letters_done f) [] l → guarded p (dead_letters_done f) base l.
Proof.
  induction l as [|ev l IH]; cbn; [done|]. rewrite app_nil_r. intros [H1 H2]. split; [|by apply IH].
  intros Hp. apply dead_letters_done_app. auto.
Qed.

Lemma adds_weaken_true {A} (m : SE (@st exec_locals) exn A) : adds idle m → adds (λ _, True) m.
Proof. by apply adds_weaken. Qed.

Abbreviation fails_last := (guarded is_fail_call).

Lemma fail_after_policy_done exc f d s :
  wp (λ r l s', fails_last (dead_letters_done f) [] l)
    (fail_after_policy deepcopy truth env cfg exc f d) s.
Proof.
  unfold fail_after_policy. apply wp_bind.
  assert (wp (λ r l s', Forall no_fail l ∧ (r = Ok true → dead_letters_done f l))
    (match dead_letter_sinks (task cfg) with
     | [] => _ ← update (λ o, set_action ACT_FAIL (retry_delay_s o) o); mret true
     | _ => _ ← update (λ o, set_action ACT_DEAD_LETTER (retry_delay_s o) o);
            _publish_dead_letter deepcopy truth env cfg f d
     end) s) as H.
  { destruct (dead_letter_sinks (task cfg)) eqn:E.
    - apply wp_update, wp_ret. split; [constructor|]. by left.
    - apply wp_update.
      match goal with |- wp _ ?m ?s => destruct (publish_dead_letter_done f d s) as (l2 & Hl2 & Hd);
        destruct (publish_dead_letter_no_fail f d s) as (l3 & Hl3 & Hn);
        assert (l3 = l2) as -> by (apply (app_inv_tail (hist s)); congruence) end.
      exists l2. split; [done|]. split; [done|]. intros Hr. right. by apply Hd. }
  eapply wp_mono; [exact H|]. intros [[|]|er] l s1 [Hn Hd]; cbn [negb].
  - assert (∀ er, adds (λ _, True) (_fail_delivery env cfg exc er)) as Hfd.
    { intros er. unfold _fail_delivery, fail_managed, fail_plain.
      repeat first [apply adds_complete; [done|intros ?] | solve [eauto using adds_weaken_true with adds]
        | progress adds_step | case_match | done]. }
    apply (wp_adds (λ _, True)).
    { unfold update. repeat first [apply Hfd | solve [eauto using adds_weaken_true with adds]
        | progress adds_step | case_match | done]. }
    intros r l2 s2 _. apply guarded_app; [|by apply guarded_none].
    apply guarded_done. rewrite app_nil_r. by apply Hd.
  - eapply wp_adds; [apply (quiet_no_fail (_capture_failure env cfg)); eauto with adds|].
    intros r l2 s2 Hl2. apply guarded_none. by apply Forall_app.
  - by apply guarded_none.
Qed.

(** The failure of the outcome guards the failing settlement. *)
Definition fails_guarded (l : history) (s' : @st exec_locals) : Prop :=
  ∃ f, (Forall no_fail l ∨ failure (outcome (local s')) = Some f) ∧
       fails_last (dead_letters_done f) [] l.

Lemma no_fail_guarded (f : FailureInfo) l s' : Forall no_fail l → fails_guarded l s'.
Proof. intros Hl. exists f. split; [by left | by apply guarded_none]. Qed.


(** The same once the failure is recorded. *)
Definition failing_with {A} (f : FailureInfo) (r : result exn A) (l : history) (s' : @st exec_locals)
    : Prop :=
  failure (outcome (local s')) = Some f ∧ fails_last (dead_letters_done f) [] l.

Lemma failing_prefix {A B} f (m : SE (@st exec_locals) exn A) (k : A → SE st exn B) s :
  failure (outcome (local s)) = Some f → adds no_fail m → keeps_field failure m →
  (∀ a s1, failure (outcome (local s1)) = Some f → wp (failing_with f) (k a) s1) →
  wp (failing_with f) (m ≫= k) s.
Proof.
  intros Hs Hm Hk Hf. apply wp_bind. destruct (Hm s) as (l & Hl & Hn). exists l. split; [done|].
  specialize (Hk s). destruct (m s) as [s1 [a|e]]; cbn in Hl, Hk |- *.
  - eapply wp_mono; [apply Hf; congruence|]. intros r l2 s2 [H1 H2]. split; [done|].
    apply guarded_app; [by apply guarded_weaken_base | by apply guarded_none].
  - split; [congruence | by apply guarded_none].
Qed.

(** The last statement of [_handle_failure]. *)
Lemma failing_result {A B} f (m : SE (@st exec_locals) exn A) (g : st → B) s :
  wp (failing_with f) m s → wp (failing_with f) (_ ← m; se_gets g) s.
Proof.
  intros Hm. apply wp_bind. eapply wp_mono; [exact Hm|]. intros [a|e] l s1 H; [|done]. by apply wp_gets.
Qed.

Lemma failing_path f (m : SE (@st exec_locals) exn unit) s :
  failure (outcome (local s)) = Some f →
  wp (λ r l s', fails_last (dead_letters_done f) [] l) m s → keeps_field failure m →
  wp (failing_with f) m s.
Proof.
  intros Hs (l & Hl & Hg) Hk. exists l. split; [done|]. split; [|done]. by rewrite Hk.
Qed.

Lemma handle_failure_guarded exc k t s :
  wp (λ r l s', fails_guarded l s') (_handle_failure fpow uniform deepcopy truth env cfg exc k t) s.
Proof.
  unfold _handle_failure. set (f := from_exception exc k).
  apply wp_bind. eapply wp_adds; [eauto with adds|]. intros [d|e] l0 s1 Hl0; [|by apply (no_fail_guarded f)].
  apply wp_update.
  assert (∀ r l s', @failing_with ExecutionOutcome f r l s' → fails_guarded (l ++ l0) s') as Hpost.
  { intros r l s' [H1 H2]. exists f. split; [by right|].
    apply guarded_app; [by apply guarded_weaken_base | by apply guarded_none]. }
  eapply wp_mono; [|exact Hpost].
  match goal with |- wp _ _ ?s0 =>
    assert (failure (outcome (local s0)) = Some f) as Hs by done; generalize dependent s0 end.
  clear Hpost. intros s2 Hs2.
  apply failing_prefix; [done | eauto with adds | by apply snapshot_keeps_field |]. intros [] s3 Hs3.
  apply failing_prefix; [done | apply adds_set_local | done |]. intros [] s4 Hs4.
  apply failing_prefix; [done | apply adds_set_local | done |]. intros [] s5 Hs5.
  apply failing_prefix; [done | eauto with adds | eauto with keeps |]. intros [] s6 Hs6.
  apply failing_prefix; [done | unfold get_payload; adds_auto | done |]. intros payload s7 Hs7.
  apply failing_prefix; [done | eauto with adds | eauto with keeps |]. intros [] s8 Hs8.
  apply failing_prefix; [done | eauto with adds | eauto with keeps |]. intros [] s9 Hs9.
  apply failing_prefix; [done | unfold get_envelope; adds_auto | done |]. intros e s10 Hs10.
  apply failing_prefix; [done | adds_auto | done |]. intros action s11 Hs11.
  apply failing_result, failing_path; [done | |].
  - destruct (decision action); [|apply fail_after_policy_done].
    apply (wp_adds no_fail); [unfold update; complete_auto|]. intros. by apply guarded_none.
  - destruct (decision action); [field_auto | by apply fail_after_policy_keeps].
Qed.

(** No part but [_handle_failure] settles a failure. *)
Lemma execute_fails_guarded s :
  wp (λ r l s', fails_guarded l s') (execute fpow uniform deepcopy truth env cfg) s.
Proof.
  apply (wp_change (se_try (execute_body deepcopy truth env cfg (perf_counter_at env (hist s)))
    (handle_exception fpow uniform deepcopy truth env cfg (perf_counter_at env (hist s)))) _
    {| hist := hist s; local := initial_locals |}); [done | done |].
  assert (FailureInfo) as f0 by exact (from_exception (runtime_error "") FK_ERROR).
  apply wp_try, (wp_adds no_fail); [apply body_no_fail|]. intros [o|e] l1 s1 Hl1; [by apply (no_fail_guarded f0)|].
  assert (∀ s2, wp (λ r l2 s', fails_guarded (l2 ++ l1) s')
    (_handle_cancelled deepcopy env cfg (perf_counter_at env (hist s))) s2) as Hc.
  { intros s2. eapply wp_adds; [apply handle_cancelled_no_fail|]. intros r l2 s3 Hl2.
    apply (no_fail_guarded f0). by apply Forall_app. }
  assert (∀ k s2, wp (λ r l2 s', fails_guarded (l2 ++ l1) s')
    (_handle_failure fpow uniform deepcopy truth env cfg e k (perf_counter_at env (hist s))) s2) as Hf.
  { intros k s2. eapply wp_mono; [apply handle_failure_guarded|]. intros r l2 s3 (f & H1 & H2). exists f. split.
    - destruct H1; [left; by apply Forall_app | by right].
    - apply guarded_app; [by apply guarded_weaken_base | by apply guarded_none]. }
  unfold handle_exception, record_stage. destruct (is_cancelled e); [|destruct (is_timeout e); [|destruct (is_exception e)]].
  - apply wp_bind, wp_set_local, wp_bind. eapply wp_mono; [apply Hc|].
    intros [[]|e'] l2 s2 H; [apply wp_raise|]; cbn [app]; by rewrite ?app_nil_r.
  - apply wp_bind, wp_set_local. eapply wp_mono; [apply Hf|]. intros r l2 s2 H. by rewrite app_nil_r.
  - apply wp_bind, wp_set_local. eapply wp_mono; [apply Hf|]. intros r l2 s2 H. by rewrite app_nil_r.
  - apply wp_raise. by apply (no_fail_guarded f0).
Qed.
End Sends.

(** ** Properties *)

(** Before every event of class [p] in [l], the older events satisfy [P]. *)
Definition before (p : call → bool) (P : history → Prop) (l : history) : Prop :=
  ∀ post ev pre, l = post ++ ev :: pre → p ev.1 = true → P pre.

(** C3. A delivery is acknowledged (or a managed execution reported as
    succeeded) only after every sink the outcome reports as selected accepted
    an envelope, in the order of the selection, whatever user code and
    connectors do. *)
Theorem ack_after_sends fpow uniform deepcopy truth env cfg s :
  ∃ l, hist (execute fpow uniform deepcopy truth env cfg s).1 = l ++ hist s ∧
    before is_success_call
      (λ pre, sent_names pre =
              selected_sinks (outcome (local (execute fpow uniform deepcopy truth env cfg s).1))) l.
Proof.
  destruct (execute_sends_first fpow uniform deepcopy truth env cfg s) as (l & Hl & Hg).
  exists l. split; [done|]. intros post ev pre -> Hp. by eapply (guarded_elim _ _ _ _ _ _ Hg).
Qed.

(** C4. A delivery whose task has dead-letter sinks is failed only after each
    of them accepted the dead letter of the reported failure, with the
    payload, headers and attempts of the delivery. *)
Theorem dead_letter_before_fail fpow uniform deepcopy truth env cfg s :
  ∃ l, hist (execute fpow uniform deepcopy truth env cfg s).1 = l ++ hist s ∧
    before is_fail_call
      (λ pre, dead_letter_sinks (task cfg) = [] ∨
         ∃ f, failure (outcome (local (execute fpow uniform deepcopy truth env cfg s).1)) = Some f ∧
              all_dead_lettered deepcopy env cfg f pre) l.
Proof.
  destruct (execute_fails_guarded fpow uniform deepcopy truth env cfg s) as (l & Hl & f & Hf & Hg).
  exists l. split; [done|]. intros post ev pre E Hp.
  destruct (guarded_elim _ _ _ _ _ _ Hg E Hp) as [H|H]; [by left|]. right. exists f.
  destruct Hf as [Hn|Hf]; [|done]. exfalso. rewrite E in Hn.
  apply Forall_app in Hn as [_ Hn%Forall_inv]. unfold no_fail in Hn. congruence.
Qed.

(** [_send_to_sink] sends at most twice and returns exactly when one of
    these sends was accepted. *)
Theorem send_to_sink_bounded env sk e s :
  ∃ l, hist (_send_to_sink env sk e s).1 = l ++ hist s ∧ (length (sends l) ≤ 2)%nat ∧
    sent_names l = (if is_ok (_send_to_sink env sk e s).2 then [sk_name sk] else []).
Proof.
  destruct (send_attempts_sends env _SEND_ATTEMPTS sk e s) as (l & Hl & H1 & H2);
    [unfold _SEND_ATTEMPTS; lia|]. by exists l.
Qed.
