(* ===== verification/Delivery.v ===== *)
(** * Every delivery is settled

    In an environment where settling works and only the handler is
    cancelled, an execution settles its delivery exactly once, whatever the
    handler, the hooks, the sinks and the retry policy do otherwise.  Without
    these conditions it may not, as the examples at the end show. *)

From stdpp Require Import base option list strings numbers.
From Stdlib Require Import ZArith Lia.
From S2P Require Import Prelude PyFloat Value Resilience Invoke Retry Events Task Execution Effects Executor Settlement.

(** ** Which exceptions a program raises *)

Section Raises.
Context {X : Type}.
Abbreviation E := (SE (@st X) exn).

Definition raises {A} (P : exn → Prop) (m : E A) : Prop :=
  ∀ s, match (m s).2 with Ok _ => True | Err e => P e end.

(** It always returns. *)
Abbreviation safe := (raises (λ _, False)).

Lemma raises_weaken {A} (P Q : exn → Prop) (m : E A) : (∀ e, P e → Q e) → raises P m → raises Q m.
Proof. intros HPQ Hm s. specialize (Hm s). destruct (m s).2; auto. Qed.

Lemma safe_raises {A} P (m : E A) : safe m → raises P m.
Proof. by apply raises_weaken. Qed.

Lemma raises_ok {A} P (m : E A) : (∀ s, is_ok (m s).2 = true) → raises P m.
Proof. intros Hm s. specialize (Hm s). by destruct (m s).2. Qed.

Lemma raises_lift {A} (P : exn → Prop) (r : result exn A) : (∀ e, r = Err e → P e) → raises P (se_lift r : E A).
Proof. intros Hr s. destruct r; cbn; auto. Qed.

Lemma raises_raise {A} (P : exn → Prop) e : P e → raises P (se_raise e : E A).
Proof. by intros He s. Qed.

Lemma raises_bind {A B} P (m : E A) (f : A → E B) :
  raises P m → (∀ a, raises P (f a)) → raises P (m ≫= f).
Proof.
  intros Hm Hf s. unfold mbind, se_bind. specialize (Hm s). destruct (m s) as [s1 [a|e]]; [apply Hf | done].
Qed.

Lemma raises_try {A} (P Q : exn → Prop) (m : E A) h :
  raises Q m → (∀ e, Q e → raises P (h e)) → raises P (se_try m h).
Proof.
  intros Hm Hh s. unfold se_try. specialize (Hm s). destruct (m s) as [s1 [a|e]]; [done | by apply Hh].
Qed.

Lemma raises_except {A} P (m : E A) h :
  raises (λ e, is_exception e = false → P e) m → (∀ e, raises P (h e)) → raises P (except_exception m h).
Proof.
  intros Hm Hh. unfold except_exception. eapply raises_try; [exact Hm|]. intros e He. cbn beta in He.
  destruct (is_exception e); [apply Hh | apply raises_raise; auto].
Qed.

Lemma raises_iter {A} P (f : A → E unit) l : (∀ x, raises P (f x)) → raises P (se_iter f l).
Proof. intros Hf. induction l; cbn; [done|]. by apply raises_bind. Qed.

Lemma raises_map {A B} P (f : A → E B) l : (∀ x, raises P (f x)) → raises P (se_map f l).
Proof.
  intros Hf. induction l as [|x l IH]; cbn; [done|]. apply raises_bind; [done|]. intros y.
  by apply raises_bind.
Qed.

Lemma raises_perform P env c :
  (∀ h e, respond env h c = Err e → P e) → raises P (perform env c : E value).
Proof. intros Hc s. cbn. destruct (respond env (hist s) c) eqn:He; [done | by eapply Hc]. Qed.

Lemma raises_perform_ P env c :
  (∀ h e, respond env h c = Err e → P e) → raises P (perform_ env c : E unit).
Proof. intros Hc. apply raises_bind; [by apply raises_perform | done]. Qed.

Lemma raises_user P env f args :
  (∀ args h e, respond env h (CUser (fn_id f) args) = Err e → P e) →
  raises P (invoke_user env f args : E value).
Proof. intros Hu. unfold invoke_user, invoke_callback. cbn. apply raises_perform. eauto. Qed.

(** From local variables that satisfy [I] a program returns, and they satisfy
    [J]. *)
Definition safe_to {A} (I J : X → Prop) (m : E A) : Prop :=
  ∀ s, I (local s) → is_ok (m s).2 = true ∧ J (local (m s).1).

Lemma safe_to_bind {A B} (I J K : X → Prop) (m : E A) (f : A → E B) :
  safe_to I J m → (∀ a, safe_to J K (f a)) → safe_to I K (m ≫= f).
Proof.
  intros Hm Hf s Hs. unfold mbind, se_bind. destruct (Hm s Hs) as [Hok HJ].
  destruct (m s) as [s1 [a|e]]; [by apply Hf | done].
Qed.

Lemma safe_to_keeps {A} I (m : E A) : safe m → keeps_local m → safe_to I I m.
Proof.
  intros Hm Hk s Hs. specialize (Hm s). rewrite Hk. split; [by destruct (m s).2 | done].
Qed.

Lemma safe_to_set_local (I J : X → Prop) f : (∀ l, I l → J (f l)) → safe_to I J (set_local f : E unit).
Proof. intros Hf s Hs. split; [done | by apply Hf]. Qed.

(** Local variables along a program that may raise. *)
Definition preserves {A} (I : X → Prop) (m : E A) : Prop := ∀ s, I (local s) → I (local (m s).1).

Lemma preserves_bind {A B} I (m : E A) (f : A → E B) :
  preserves I m → (∀ a, preserves I (f a)) → preserves I (m ≫= f).
Proof.
  intros Hm Hf s Hs. unfold mbind, se_bind. specialize (Hm s Hs).
  destruct (m s) as [s1 [a|e]]; [by apply Hf | done].
Qed.

Lemma preserves_iter {A} I (f : A → E unit) l : (∀ x, preserves I (f x)) → preserves I (se_iter f l).
Proof. intros Hf. induction l; cbn; [by intros s|]. by apply preserves_bind. Qed.

Lemma keeps_preserves {A} I (m : E A) : keeps_local m → preserves I m.
Proof. intros Hm s Hs. by rewrite Hm. Qed.

Lemma preserves_set_local I f : (∀ l, I l → I (f l)) → preserves I (set_local f : E unit).
Proof. intros Hf s. apply Hf. Qed.
End Raises.

Abbreviation safe := (raises (λ _, False)).

Create HintDb raises.
Ltac raises_auto :=
  repeat first
    [ solve [eauto 3 with raises]
    | apply raises_bind; [|intros ?] | apply raises_iter; intros ? | apply raises_map; intros ?
    | match goal with |- raises _ (match ?x with _ => _ end) => destruct x end
    | done ].

(** ** Well-behaved environments *)

(** The exception makes an [ExecutionErrorDetail]. *)
Definition text_ok (s : string) : bool :=
  str_nonempty (strip s) && (String.length (strip s) <=? 255)%nat.

Definition describable (e : exn) : bool :=
  text_ok (exn_type_name e) &&
  match exn_cls e with CConnector backend _ _ _ _ _ => text_ok backend | _ => true end.

(** What a call may raise: nothing that settles or reports, except that a
    managed execution may have lost its lease and a failure may be refused;
    otherwise exceptions, and a cancellation while the handler runs. *)
Definition may_raise (c : call) (e : exn) : Prop :=
  describable e = true ∧
  match c with
  | CStartProcessing | CHandler _ _ _ | CWaitShutdown _ =>
      is_exception e = true ∨ is_cancelled e = true
  | CUser _ _ | CSend _ _ | CDispatch _ _ _ | CFail _ | CCapture _ => is_exception e = true
  | CComplete _ => is_lease_lost e = true
  | CCheckpoint _ _ _ | CEmitter _ | CAck | CRetry _ => False
  end.

Record well_behaved fpow uniform (deepcopy : value → result exn value) (env : environment)
    (cfg : exec_config) : Prop := {
  wb_answers : ∀ h c e, respond env h c = Err e → may_raise c e;
  wb_deepcopy : ∀ v, is_ok (deepcopy v) = true;
  wb_retry : ∀ e exc f, ∃ a, resolve_retry_action fpow uniform (ts_retry (task cfg)) e exc f = Ok a ∧
               is_ok (_validate_delay (opt_float_value (delay_s a))) = true;
}.

Section Delivery.
Context (fpow : float64 → Z → option float64) (uniform : float64 → float64 → float64).
Context (deepcopy : value → result exn value) (truth : value → bool).
Context (env : environment) (cfg : exec_config).
Context (Hwb : well_behaved fpow uniform deepcopy env cfg).
Context (Hap : apply_delivery_actions cfg = true).

(** What may reach the [except] clauses of [execute]. *)
Definition caught (e : exn) : Prop :=
  describable e = true ∧ (is_exception e = true ∨ is_cancelled e = true).

Lemma raises_call (P : exn → Prop) c :
  (∀ e, may_raise c e → P e) → raises P (perform env c : SE (@st exec_locals) exn value).
Proof. intros Hc. apply raises_perform. intros h e He. by eapply Hc, (wb_answers _ _ _ _ _ Hwb). Qed.

Lemma raises_call_ (P : exn → Prop) c :
  (∀ e, may_raise c e → P e) → raises P (perform_ env c : SE (@st exec_locals) exn unit).
Proof. intros Hc. apply raises_bind; [by apply raises_call | done]. Qed.

Lemma user_raises f args :
  raises (λ e, describable e = true ∧ is_exception e = true)
    (invoke_user env f args : SE (@st exec_locals) exn value).
Proof. apply raises_user. intros a h e He. by apply (wb_answers _ _ _ _ _ Hwb) in He. Qed.

Lemma user_caught f args : raises caught (invoke_user env f args : SE (@st exec_locals) exn value).
Proof. eapply raises_weaken; [|apply user_raises]. intros e []. split; auto. Qed.
Local Hint Resolve user_caught : raises.

Lemma raises_observe {A} P (f : environment → history → A) :
  raises P (observe env f : SE (@st exec_locals) exn A).
Proof. done. Qed.
Local Hint Resolve raises_observe : raises.

Lemma checkpoint_safe P p t sel : raises P (checkpoint env cfg p t sel).
Proof.
  unfold checkpoint. destruct (custom_checkpoint cfg); [|done]. apply raises_call_. by intros e [].
Qed.
Local Hint Resolve checkpoint_safe : raises.

Lemma deepcopy_meta_safe P m : raises P (se_lift (deepcopy_meta deepcopy m) : SE (@st exec_locals) exn _).
Proof.
  apply raises_lift. intros e He. exfalso. revert e He. unfold deepcopy_meta.
  induction m as [|[k v] m IH]; cbn; [done|]. intros e.
  pose proof (wb_deepcopy _ _ _ _ _ Hwb v) as Hv. destruct (deepcopy v) as [w|]; [|done]. cbn.
  destruct (mapR _ m) as [m'|e']; cbn; [done|]. intros [= <-]. by eapply IH.
Qed.
Local Hint Resolve deepcopy_meta_safe : raises.

Lemma emitter_safe P e : raises P (_event_emitter env cfg e).
Proof.
  unfold _event_emitter. destruct (emitter cfg) as [hs|].
  - apply raises_iter. intros h. apply raises_except; [|done].
    apply raises_bind; [|done]. eapply raises_weaken; [|apply user_raises]. intros x []. congruence.
  - apply raises_call_. by intros x [].
Qed.
Local Hint Resolve emitter_safe : raises.

Lemma emit_safe P k d f m : raises P (emit deepcopy env cfg k d f m).
Proof. unfold emit, get_envelope. raises_auto. Qed.
Local Hint Resolve emit_safe : raises.

Lemma hooks_safe P hs args : raises P (_run_hooks env true hs args).
Proof.
  unfold _run_hooks. apply raises_iter. intros h. apply raises_except; [|done].
  apply raises_bind; [|done]. eapply raises_weaken; [|apply user_raises]. intros x []. congruence.
Qed.
Local Hint Resolve hooks_safe : raises.

Lemma hooks_caught hs args : raises caught (_run_hooks env false hs args).
Proof.
  unfold _run_hooks, except_exception. apply raises_iter. intros h.
  apply (raises_try _ caught); [raises_auto|]. intros e He.
  destruct (is_exception e); by apply raises_raise.
Qed.
Local Hint Resolve hooks_caught : raises.

Lemma send_attempts_caught n sk e : raises caught (send_attempts env n sk e).
Proof.
  induction n as [|n IH]; [done|]. cbn [send_attempts].
  apply (raises_try _ caught); [apply raises_call_; intros x []; by split; [|left]|].
  intros exc Hexc. destruct (exn_cls exc); try (by apply raises_raise).
  destruct (_ || _); [by apply raises_raise|].
  apply raises_bind; [done|]. intros stopping. destruct (_ || _); [done|].
  apply raises_bind; [|intros []; [done | by apply raises_raise]].
  apply (raises_try _ caught).
  - apply raises_bind; [apply raises_call; by intros x [] | done].
  - intros x Hx. destruct (is_timeout x); [done | by apply raises_raise].
Qed.
Local Hint Resolve send_attempts_caught : raises.

Lemma dispatcher_caught sk e k : raises caught (_sink_dispatcher truth env cfg sk e k).
Proof.
  unfold _sink_dispatcher, _send_to_sink. destruct (production_sinks cfg).
  - apply raises_bind; [|done]. destruct (String.eqb k "dead_letter"); [|apply send_attempts_caught].
    apply raises_call_. intros x []. split; auto.
  - apply raises_bind; [|done]. apply raises_call. intros x []. split; auto.
Qed.
Local Hint Resolve dispatcher_caught : raises.

Lemma in_stage_caught {A} stage (m : SE (@st exec_locals) exn A) :
  raises caught m → raises caught (in_stage env cfg stage m).
Proof. intros Hm. unfold in_stage, enter_stage. raises_auto. Qed.

Lemma run_emit_caught res : raises caught (run_emit truth env cfg res).
Proof.
  unfold run_emit, _select_emit_bindings, select_target, _prepare_emit_envelopes, prepare_binding,
    enter_stage, update, get_payload. raises_auto.
Qed.
Local Hint Resolve run_emit_caught : raises.

Lemma process_caught : raises caught (process_delivery deepcopy truth env cfg).
Proof.
  unfold process_delivery, get_payload, update, _invoke_handler.
  apply raises_bind; [apply raises_call; by intros e []|]. intros _.
  apply raises_bind; [eauto with raises|]. intros _.
  apply raises_bind; [apply in_stage_caught; raises_auto|]. intros _.
  apply raises_bind.
  { apply in_stage_caught, raises_bind; [|intros ?; raises_auto].
    apply raises_bind; [done|]. intros p. apply raises_call. by intros e []. }
  intros res. apply raises_bind; [apply in_stage_caught; raises_auto|]. intros _.
  apply raises_bind; [|done]. destruct (is_none res), (emit_targets (task cfg)); raises_auto.
Qed.

(** Settling calls. *)
Lemma complete_managed_safe P c : raises P (_complete_managed_execution env c).
Proof.
  unfold _complete_managed_execution. apply (raises_try _ (λ e, is_lease_lost e = true)).
  - apply raises_bind; [apply raises_call; by intros e [] | done].
  - intros e ->. done.
Qed.
Local Hint Resolve complete_managed_safe : raises.

Lemma make_completion_safe P status res er d :
  is_completion status = true → is_ok (_validate_delay d) = true →
  raises P (make_completion status res er d).
Proof.
  intros Hst Hd. apply raises_lift. intros e He. exfalso. revert He. unfold mk_ExecutionCompletion.
  cbn [coerce_status mbind result_bind]. rewrite Hst. cbn [guard_else mbind result_bind].
  destruct er; cbn [opt_error_arg mbind result_bind]; by destruct (_validate_delay d).
Qed.

Lemma retry_safe P d : raises P (perform_ env (CRetry d) : SE (@st exec_locals) exn unit).
Proof. apply raises_call_. by intros e []. Qed.
Local Hint Resolve retry_safe : raises.

Lemma apply_retry_safe P d er :
  is_ok (_validate_delay (opt_float_value d)) = true → raises P (_apply_retry env cfg d er).
Proof.
  intros Hd. unfold _apply_retry. rewrite Hap. apply raises_bind; [raises_auto|]. intros _.
  apply raises_bind; [|raises_auto]. destruct (managed cfg); [|raises_auto].
  apply raises_bind; [by apply make_completion_safe|]. intros c.
  apply raises_bind; [apply complete_managed_safe | done].
Qed.

Lemma fail_delivery_safe P exc er : raises P (_fail_delivery env cfg exc er).
Proof.
  unfold _fail_delivery, fail_managed, fail_plain. rewrite Hap. cbn [negb].
  apply raises_bind; [raises_auto|]. intros _. apply raises_bind; [|intros ?; raises_auto].
  destruct (managed cfg).
  - apply (raises_try _ (λ _, False)); [|done].
    apply raises_bind; [by apply make_completion_safe|]. intros c.
    apply raises_bind; [apply complete_managed_safe | done].
  - apply (raises_try _ (λ e, is_exception e = true)).
    + apply raises_bind; [apply raises_call; by intros e [] | done].
    + intros e ->. apply raises_bind; [apply raises_call; by intros x [] | done].
Qed.

Lemma capture_safe P : raises P (_capture_failure env cfg).
Proof.
  unfold _capture_failure, get_outcome, get_envelope. apply raises_bind; [done|]. intros o.
  apply raises_bind; [done|]. intros e. repeat case_match; try done.
  apply raises_except; [|done]. apply raises_call_. intros x [_ Hx]. cbn in Hx. congruence.
Qed.

Lemma acknowledge_safe P t res : raises P (acknowledge deepcopy env cfg t res).
Proof.
  unfold acknowledge, _apply_success, _build_succeeded_event_meta, elapsed, enter_stage, update,
    get_envelope. rewrite Hap. apply raises_bind; [done|]. intros _. apply raises_bind; [done|]. intros _.
  apply raises_bind; [raises_auto|]. intros _. apply raises_bind; [|intros ?; raises_auto].
  destruct (managed cfg); [|apply raises_call_; by intros e []].
  apply raises_bind; [by apply make_completion_safe|]. intros c.
  apply raises_bind; [apply complete_managed_safe | done].
Qed.
Lemma elapsed_safe P t : raises P (elapsed env t : SE (@st exec_locals) exn _).
Proof. done. Qed.
Local Hint Resolve apply_retry_safe fail_delivery_safe capture_safe elapsed_safe : raises.

(** ** Handling a failure *)

(** The stage the body is in can be reported. *)
Definition stage_reportable (x : exec_locals) : Prop := text_ok (active_stage x) = true.

(** The stage of the failure is recorded. *)
Definition stage_recorded (x : exec_locals) : Prop :=
  ∃ st, failure_stage (outcome x) = Some st ∧ text_ok st = true.

(** The error of the outcome can be built. *)
Definition error_ready (x : exec_locals) : Prop := is_ok (_execution_error (outcome x)) = true.

Lemma text_ok_text s name n :
  text_ok s = true → (255 ≤ n)%nat → _text (VStr s) name n = Ok (strip s).
Proof.
  unfold text_ok. intros [Hs Hl]%andb_true_iff Hn. cbn [_text]. rewrite Hs. cbn [guard_else mbind result_bind].
  apply Nat.leb_le in Hl. assert ((String.length (strip s) <=? n)%nat = true) as -> by (apply Nat.leb_le; lia).
  done.
Qed.

Lemma error_ready_failure exc k o st :
  describable exc = true → failure_stage o = Some st → text_ok st = true →
  public_failure o = Some (_public_failure (from_exception exc k) (Some exc)) →
  is_ok (_execution_error o) = true.
Proof.
  unfold describable. intros [Ht Hc]%andb_true_iff Hst Hok Hp. unfold _execution_error. rewrite Hp, Hst.
  destruct exc as [c t m tb]. cbn [exn_type_name exn_cls] in Ht, Hc.
  assert (∀ s name, text_ok s = true → _text (VStr s) name 255 = Ok (strip s)) as Htext
    by (intros; by apply text_ok_text).
  unfold _public_failure, mk_ExecutionErrorDetail. cbn [fmap option_fmap option_map exn_cls].
  destruct c; destruct k; cbn -[_text]; rewrite (Htext t), (Htext st) by done; cbn -[_text]; try done;
    rewrite (Htext backend) by done; cbn -[_text]; destruct operation, kind; done.
Qed.

Lemma error_ready_cancelled o st :
  failure_stage o = Some st → text_ok st = true →
  public_failure o = Some (_public_failure (from_exception (Exn CCancelled "CancelledError" "" None) FK_CANCELLED) None) →
  is_ok (_execution_error o) = true.
Proof.
  intros Hst Hok Hp. unfold _execution_error. rewrite Hp, Hst.
  unfold _public_failure, mk_ExecutionErrorDetail. cbn -[_text].
  rewrite (text_ok_text st) by (done || lia). done.
Qed.

Lemma current_error_safe : safe_to error_ready error_ready current_error.
Proof.
  intros s Hs. unfold current_error, get_outcome, se_gets, se_lift, mbind, se_bind. cbn. split; [exact Hs | done].
Qed.

Lemma update_safe (I J : exec_locals → Prop) g :
  (∀ o st, I {| outcome := o; active_stage := st |} → J {| outcome := g o; active_stage := st |}) →
  safe_to I J (update g).
Proof. intros Hg. apply safe_to_set_local. intros [o st]. apply Hg. Qed.

Local Hint Resolve checkpoint_keeps emit_keeps capture_keeps hooks_keep dispatcher_keeps
  select_keeps prepare_keeps publish_all_keeps keeps_current_error keeps_elapsed
  succeeded_meta_keeps : keeps.

(** A statement that leaves the local variables alone; an assignment. *)
Lemma ready_keeps {A B} (I J : exec_locals → Prop) (m : SE (@st exec_locals) exn A) (f : A → SE st exn B) :
  safe m → keeps_local m → (∀ a, safe_to I J (f a)) → safe_to I J (m ≫= f).
Proof. intros Hm Hk Hf. apply (safe_to_bind _ I); [by apply safe_to_keeps | done]. Qed.

Lemma ready_update {B} (I J K : exec_locals → Prop) g (f : unit → SE (@st exec_locals) exn B) :
  (∀ o st, I {| outcome := o; active_stage := st |} → J {| outcome := g o; active_stage := st |}) →
  safe_to J K (f tt) → safe_to I K (update g ≫= f).
Proof. intros Hg Hf. apply (safe_to_bind _ J); [by apply update_safe | by intros []]. Qed.

Lemma ready_error {B} K (f : option ExecutionErrorDetail → SE (@st exec_locals) exn B) :
  (∀ er, safe_to error_ready K (f er)) → safe_to error_ready K (current_error ≫= f).
Proof. apply safe_to_bind, current_error_safe. Qed.

Lemma ready_lift {A B} (I J : exec_locals → Prop) (a : A) (f : A → SE (@st exec_locals) exn B) :
  safe_to I J (f a) → safe_to I J (se_lift (Ok a) ≫= f).
Proof. intros Hf s Hs. by apply Hf. Qed.

Lemma ready_last {A} I (m : SE (@st exec_locals) exn A) : safe m → keeps_local m → safe_to I I m.
Proof. apply safe_to_keeps. Qed.

Lemma apply_retry_keeps_local d er : keeps_local (_apply_retry env cfg d er).
Proof. unfold _apply_retry, _complete_managed_execution, perform_. keeps_auto. Qed.
Lemma fail_delivery_keeps_local exc er : keeps_local (_fail_delivery env cfg exc er).
Proof. unfold _fail_delivery, fail_managed, fail_plain, _complete_managed_execution. keeps_auto. Qed.
Local Hint Resolve apply_retry_keeps_local fail_delivery_keeps_local : keeps.

Lemma dead_letter_safe (e : Envelope) f :
  safe (se_lift (dead_letter_envelope deepcopy cfg e f) : SE (@st exec_locals) exn _).
Proof.
  apply raises_lift. intros er Her. revert Her. unfold dead_letter_envelope.
  pose proof (wb_deepcopy _ _ _ _ _ Hwb (body e)) as Hv. destruct (deepcopy (body e)) as [w|]; [|done]. cbn.
  pose proof (deepcopy_meta_safe (λ _, False) (meta e) {| hist := []; local := initial_locals |}) as Hm.
  cbn in Hm. by destruct (deepcopy_meta deepcopy (meta e)).
Qed.

Lemma publish_all_exceptions sinks e b :
  raises (λ e, is_exception e = true) (publish_all truth env cfg sinks e b).
Proof.
  revert b. induction sinks as [|sk sinks IH]; intros b; cbn [publish_all]; [done|].
  apply raises_bind; [|intros sent; apply IH]. unfold _sink_dispatcher. cbn.
  destruct (production_sinks cfg); (apply raises_bind; [|done]).
  - apply raises_call_. by intros x [].
  - apply raises_call. by intros x [].
Qed.

Lemma publish_dead_letter_ready f d :
  safe_to error_ready error_ready (_publish_dead_letter deepcopy truth env cfg f d).
Proof.
  unfold _publish_dead_letter. apply ready_keeps; [done | done |]. intros e.
  apply ready_keeps; [apply dead_letter_safe | done |]. intros dl.
  apply ready_keeps; [| keeps_auto |].
  { apply (raises_try _ (λ e, is_exception e = true));
      [apply raises_bind; [apply publish_all_exceptions | done] | by intros x ->]. }
  intros [any|].
  - apply (ready_update _ error_ready); [done|].
    apply ready_keeps; [eauto with raises | eauto with keeps |]. intros _. by apply ready_last.
  - apply (ready_update _ error_ready); [done|]. apply (ready_update _ error_ready); [done|].
    apply ready_error. intros er. apply ready_keeps; [by apply apply_retry_safe | eauto with keeps |].
    intros _. apply ready_keeps; [eauto with raises | eauto with keeps |]. intros _. by apply ready_last.
Qed.

Lemma fail_after_policy_ready exc f d :
  safe_to error_ready error_ready (fail_after_policy deepcopy truth env cfg exc f d).
Proof.
  unfold fail_after_policy. apply (safe_to_bind _ error_ready).
  { destruct (dead_letter_sinks (task cfg)); (apply (ready_update _ error_ready); [done|]);
      [by apply ready_last | apply publish_dead_letter_ready]. }
  intros [|]; cbn [negb]; [|apply ready_last; eauto with raises keeps].
  apply ready_error. intros er.
  apply ready_keeps; [eauto with raises | eauto with keeps |]. intros t.
  apply (ready_update _ error_ready); [done|]. apply (safe_to_bind _ error_ready).
  { destruct t; [by apply ready_last | by apply update_safe]. }
  intros _. apply ready_last; [raises_auto | keeps_auto].
Qed.

Lemma snapshot_safe (I : exec_locals → Prop) :
  (∀ o st e t, I {| outcome := o; active_stage := st |} →
               I {| outcome := set_snapshot e t o; active_stage := st |}) →
  safe_to I I (_snapshot_capture_envelope deepcopy env cfg).
Proof.
  intros HI. unfold _snapshot_capture_envelope. destruct (capture_mode cfg); [|by intros s Hs].
  apply ready_keeps; [done | done |]. intros e.
  pose proof (wb_deepcopy _ _ _ _ _ Hwb (body e)) as Hv. unfold deepcopy_envelope.
  destruct (deepcopy (body e)) as [w|]; [|done]. cbn.
  pose proof (deepcopy_meta_safe (λ _, False) (meta e) {| hist := []; local := initial_locals |}) as Hm.
  cbn in Hm. destruct (deepcopy_meta deepcopy (meta e)); [|done]. apply update_safe. auto.
Qed.

Lemma handle_failure_ready exc k t :
  describable exc = true →
  safe_to stage_recorded error_ready (_handle_failure fpow uniform deepcopy truth env cfg exc k t).
Proof.
  intros Hexc. unfold _handle_failure. apply ready_keeps; [eauto with raises | eauto with keeps |]. intros d.
  apply (ready_update _ stage_recorded); [done|].
  apply (safe_to_bind _ stage_recorded); [by apply snapshot_safe|]. intros _.
  apply (ready_update _ error_ready).
  { intros o st (st' & H1 & H2). by apply (error_ready_failure exc k _ st'). }
  apply (ready_update _ error_ready); [done|].
  apply ready_keeps; [eauto with raises | eauto with keeps |]. intros _.
  apply ready_keeps; [done | done |]. intros payload.
  apply ready_keeps; [eauto with raises | eauto with keeps |]. intros _.
  apply ready_keeps; [eauto with raises | eauto with keeps |]. intros _.
  apply ready_keeps; [done | done |]. intros e.
  destruct (wb_retry _ _ _ _ _ Hwb e exc (from_exception exc k)) as (action & -> & Hd).
  apply ready_lift, (safe_to_bind _ error_ready); [|intros _; by apply ready_last].
  destruct (decision action); [|apply fail_after_policy_ready].
  apply (ready_update _ error_ready); [done|]. apply ready_error. intros er.
  apply ready_keeps; [by apply apply_retry_safe | eauto with keeps |]. intros _.
  apply ready_keeps; [eauto with raises | eauto with keeps |]. intros _.
  apply ready_last; eauto with raises keeps.
Qed.

Lemma handle_cancelled_ready t :
  safe_to stage_recorded error_ready (_handle_cancelled deepcopy env cfg t).
Proof.
  unfold _handle_cancelled. rewrite Hap. apply (ready_update _ stage_recorded); [done|].
  apply (safe_to_bind _ stage_recorded); [by apply snapshot_safe|]. intros _.
  apply (ready_update _ error_ready).
  { intros o st (st' & H1 & H2). by apply (error_ready_cancelled _ st'). }
  apply (ready_update _ error_ready); [done|].
  apply ready_keeps; [by destruct (managed cfg) | by destruct (managed cfg) |]. intros requested.
  apply (ready_update _ error_ready); [done|].
  apply ready_keeps; [eauto with raises | eauto with keeps |]. intros d.
  apply ready_keeps; [eauto with raises | eauto with keeps |]. intros _.
  apply (safe_to_bind _ error_ready).
  - apply ready_error. intros er. apply ready_last.
    + destruct (managed cfg); [|eauto with raises].
      apply raises_bind; [apply make_completion_safe; by destruct requested|]. intros c.
      apply raises_bind; [apply complete_managed_safe | done].
    + unfold perform_, _complete_managed_execution. destruct (managed cfg); keeps_auto.
  - intros _. apply ready_keeps; [destruct (_ || _); eauto with raises; done | destruct (_ || _); eauto with keeps; done |].
    intros _. apply ready_last; eauto with raises keeps.
Qed.

(** ** The stages of the body *)

Lemma stage_bind {A B} (m : SE (@st exec_locals) exn A) (f : A → SE st exn B) :
  preserves stage_reportable m → (∀ a, preserves stage_reportable (f a)) →
  preserves stage_reportable (m ≫= f).
Proof. apply preserves_bind. Qed.

Lemma stage_update g : preserves stage_reportable (update g).
Proof. by apply preserves_set_local. Qed.

Lemma stage_enter stage : text_ok stage = true → preserves stage_reportable (enter_stage stage).
Proof. intros Hs. by apply preserves_set_local. Qed.

Lemma stage_in {A} stage (m : SE (@st exec_locals) exn A) :
  text_ok stage = true → preserves stage_reportable m → preserves stage_reportable (in_stage env cfg stage m).
Proof.
  intros Hs Hm. unfold in_stage. apply stage_bind; [by apply stage_enter|]. intros _.
  apply stage_bind; [apply keeps_preserves; eauto with keeps|]. intros _.
  apply stage_bind; [done|]. intros a. apply keeps_preserves. keeps_auto.
Qed.

Ltac stage_auto :=
  repeat match goal with
  | |- preserves _ (update _) => apply stage_update
  | |- preserves _ (enter_stage _) => apply stage_enter; reflexivity
  | |- preserves _ (in_stage _ _ _ _) => apply stage_in; [reflexivity|]
  | |- preserves _ (_ ≫= _) => apply stage_bind; [|intros ?]
  | |- preserves _ (se_iter _ _) => apply preserves_iter; intros ?
  | |- preserves _ (match ?x with _ => _ end) => destruct x
  | |- preserves _ (mret _) => by intros ?
  | |- preserves _ _ => apply keeps_preserves; solve [eauto 2 with keeps | done]
  end.

Lemma run_emit_stage res : preserves stage_reportable (run_emit truth env cfg res).
Proof. unfold run_emit. stage_auto. Qed.

Lemma handler_keeps : keeps_local (_invoke_handler env cfg).
Proof. unfold _invoke_handler, get_payload. apply keeps_bind; [done | by intros]. Qed.
Local Hint Resolve handler_keeps : keeps.

Lemma process_stage : preserves stage_reportable (process_delivery deepcopy truth env cfg).
Proof.
  unfold process_delivery. apply stage_bind; [by apply keeps_preserves|]. intros _.
  stage_auto. apply run_emit_stage.
Qed.

Lemma body_caught t s :
  stage_reportable (local s) → failure_stage (outcome (local s)) = None →
  wp (λ r l s', match r with
                | Ok o => settled_by is_success_call l
                | Err e => Forall quiet l ∧ caught e ∧ stage_reportable (local s')
                end) (execute_body deepcopy truth env cfg t) s.
Proof.
  intros Hs Hnone. unfold execute_body. apply wp_bind.
  destruct (process_quiet deepcopy truth env cfg s) as (l & Hl & Hq). exists l. split; [done|].
  pose proof (process_caught s) as Hc. pose proof (process_stage s Hs) as Hst.
  pose proof (process_keeps_stage deepcopy truth env cfg s) as Hk.
  destruct (process_delivery deepcopy truth env cfg s) as [s1 [res|e]]; cbn [fst snd] in *; [|done].
  apply wp_bind.
  assert (wp (λ r l2 s', ∃ u, r = Ok u ∧ settled_by is_success_call l2) (acknowledge deepcopy env cfg t res) s1) as Hack.
  { pose proof (acknowledge_safe (λ _, False) t res s1) as Hsafe.
    destruct (acknowledge_settles deepcopy env cfg t res s1 Hap ltac:(congruence)) as (l2 & Hl2 & Hpost).
    exists l2. split; [done|]. destruct (acknowledge deepcopy env cfg t res s1) as [s2 [u|]]; [|done].
    exists u. split; [done|]. apply Hpost. }
  eapply wp_mono; [exact Hack|]. intros r l2 s2 (u & -> & Hset). apply wp_update. apply wp_gets.
  by apply settled_by_app_r.
Qed.

(** ** One settlement *)

Definition settled_once (l : history) : Prop := ∃ ev, settled l = [ev].

Lemma settled_by_once p l : settled_by p l → settled_once l.
Proof. intros (ev & He & _). by exists ev. Qed.

Lemma reports_failure_once x0 l x : reports_failure x0 l x → settled_once l.
Proof.
  intros [_ H]. destruct (delivery_action (outcome x)) as [[]|]; try done;
    destruct H as (ev & He & _); by exists ev.
Qed.

Lemma settled_once_quiet l2 l1 : Forall quiet l1 → settled_once l2 → settled_once (l2 ++ l1).
Proof.
  intros Hl (ev & He). exists ev. by rewrite settled_app, He, (settled_quiet l1 Hl).
Qed.

(** Recording the stage of a caught exception. *)
Definition recorded (s : @st exec_locals) : @st exec_locals :=
  {| hist := hist s;
     local := {| outcome := set_failure_stage (active_stage (local s)) (outcome (local s));
                 active_stage := active_stage (local s) |} |}.

Lemma recorded_stage s : stage_reportable (local s) → stage_recorded (local (recorded s)).
Proof. intros Hs. by exists (active_stage (local s)). Qed.

Lemma failure_settles_once exc k t s :
  describable exc = true → stage_reportable (local s) →
  wp (λ r l s', is_ok r = true ∧ settled_once l)
    (_ ← record_stage; _handle_failure fpow uniform deepcopy truth env cfg exc k t) s.
Proof.
  intros Hexc Hs. apply (wp_change (_handle_failure fpow uniform deepcopy truth env cfg exc k t) _ (recorded s));
    [done | done |].
  destruct (handle_failure_settles fpow uniform deepcopy truth env cfg exc k t (recorded s) Hap)
    as (l & Hl & Hpost).
  destruct (handle_failure_ready exc k t Hexc (recorded s) (recorded_stage s Hs)) as [Hok _].
  exists l. split; [done|]. split; [done|].
  destruct (_handle_failure _ _ _ _ _ _ _ _ _ (recorded s)) as [s' [o|]]; [|done].
  exact (reports_failure_once _ _ _ Hpost).
Qed.

Lemma cancellation_settles_once t s :
  stage_reportable (local s) →
  wp (λ r l s', is_ok r = true ∧ settled_once l)
    (_ ← record_stage; _handle_cancelled deepcopy env cfg t) s.
Proof.
  intros Hs. apply (wp_change (_handle_cancelled deepcopy env cfg t) _ (recorded s)); [done | done |].
  destruct (handle_cancelled_settles deepcopy env cfg t (recorded s) Hap) as (l & Hl & Hpost).
  destruct (handle_cancelled_ready t (recorded s) (recorded_stage s Hs)) as [Hok _].
  exists l. split; [done|]. split; [done|].
  destruct (_handle_cancelled _ _ _ _ (recorded s)) as [s' [o|]]; [|done].
  exact (settled_by_once _ _ Hpost).
Qed.

Lemma execute_settles_once s :
  wp (λ r l s', settled_once l ∧ match r with Ok _ => True | Err e => is_cancelled e = true end)
    (execute fpow uniform deepcopy truth env cfg) s.
Proof.
  apply (wp_change (se_try (execute_body deepcopy truth env cfg (perf_counter_at env (hist s)))
    (handle_exception fpow uniform deepcopy truth env cfg (perf_counter_at env (hist s)))) _
    {| hist := hist s; local := initial_locals |}); [done | done |].
  apply wp_try. eapply wp_mono; [by apply body_caught|].
  intros [o|e] l1 s1; cbn beta iota; [intros Hb; by split; [eapply settled_by_once|]|].
  intros (Hq & (Hd & Hc) & Hst). set (t := perf_counter_at env (hist s)). unfold handle_exception.
  assert (∀ k, wp (λ r l2 s2, settled_once (l2 ++ l1) ∧ match r with Ok _ => True | Err e => is_cancelled e = true end)
    (_ ← record_stage; _handle_failure fpow uniform deepcopy truth env cfg e k t) s1) as Hf.
  { intros k. eapply wp_mono; [by apply failure_settles_once|]. intros r l2 s2 [Hok Hs].
    split; [by apply settled_once_quiet | by destruct r]. }
  destruct (is_cancelled e) eqn:Ec; [|destruct (is_timeout e); [done|]].
  - apply (wp_change ((_ ← record_stage; _handle_cancelled deepcopy env cfg t) ≫= λ _, se_raise e) _ s1); [|done|].
    { unfold mbind, se_bind. destruct (record_stage s1) as [s2 [u|]]; [|done].
      by destruct (_handle_cancelled deepcopy env cfg t s2) as [s3 [|]]. }
    apply wp_bind. eapply wp_mono; [by apply cancellation_settles_once|].
    intros [[]|e'] l2 s2 [Hok Hs]; [|done]. apply wp_raise. split; [|done]. by apply settled_once_quiet.
  - destruct (is_exception e) eqn:Ee; [done|]. exfalso. destruct Hc; congruence.
Qed.
End Delivery.

(** ** Properties *)


(** ** Concrete executions *)

Definition orders_sink : Sink := {| sk_id := 1; sk_name := "orders"; sk_poll_interval_s := None |}.
Definition dead_sink : Sink := {| sk_id := 2; sk_name := "dead"; sk_poll_interval_s := None |}.

(** A task that emits to [orders_sink] and has a dead-letter sink. *)
Definition demo_task : TaskSpec :=
  {| ts_name := "ship"; ts_description := None; ts_handler := 1; ts_source := Some "queue";
     ts_sinks := [orders_sink];
     emit_targets := [TRoute (mk_EmitRoute [orders_sink] None [] [] [])];
     emit_bindings := [{| eb_sink := orders_sink; eb_transform := None |}]; emit_routes := [];
     dead_letter_sinks := [dead_sink]; ts_hooks := no_hooks; concurrency := 1;
     ts_retry := PNoRetry; timeout_s := None |}.

(** In an app whose event handlers are [handlers]. *)
Definition demo_config (handlers : list user_fn) : exec_config :=
  {| app_name := "shop"; task := demo_task; emitter := Some handlers; production_sinks := true;
     apply_delivery_actions := true; custom_checkpoint := false; capture_mode := None;
     managed := false |}.

Definition demo_environment (answer : history → call → result exn value) : environment :=
  {| respond := answer; envelope_at := λ _, envelope_of_body (VStr "order 7");
     cancel_requested_at := λ _, false; is_stopping_at := λ _, false;
     perf_counter_at := λ _, f_zero; now_at := λ _, 0%Z |}.

Definition demo_start : @st exec_locals := {| hist := []; local := initial_locals |}.

Definition demo_run (handlers : list user_fn) (answer : history → call → result exn value) :=
  execute (λ _ _, None) (λ a _, a) Ok (λ _, true) (demo_environment answer) (demo_config handlers)
    demo_start.

Definition demo_outcome (handlers : list user_fn) (answer : history → call → result exn value)
    : ExecutionOutcome :=
  match (demo_run handlers answer).2 with Ok o => o | Err _ => running_outcome end.

(** The handler fails; everything else works. *)
Definition failing_handler (h : history) (c : call) : result exn value :=
  match c with CHandler _ _ _ => Err (value_error "no stock") | _ => Ok VNone end.

(** The handler succeeds. *)
Definition working_handler (h : history) (c : call) : result exn value :=
  match c with CHandler _ _ _ => Ok (VStr "done") | _ => Ok VNone end.



(** The asyncio task is cancelled while an event handler handles the
    SUCCEEDED event. *)
Definition success_handler : user_fn := {| fn_id := 9; fn_signature := None |}.

Definition cancelled_on_success (h : history) (c : call) : result exn value :=
  match c with
  | CHandler _ _ _ => Ok (VStr "done")
  | CUser _ (AEvent e :: _) =>
      match ev_kind e with
      | EV_SUCCEEDED => Err (Exn CCancelled "CancelledError" "" None)
      | _ => Ok VNone
      end
  | _ => Ok VNone
  end.

(** The acknowledged delivery is retried. *)
Lemma acked_delivery_retried :
  settled (hist (demo_run [success_handler] cancelled_on_success).1) =
    [(CRetry None, Ok VNone); (CAck, Ok VNone)].
Proof. vm_compute. reflexivity. Qed.

Lemma settled_at_most_twice_witness :
  ∃ l, hist (demo_run [success_handler] cancelled_on_success).1 = l ++ hist demo_start ∧ safely_settled l.
Proof.
  apply (settled_at_most_twice (λ _ _, None) (λ a _, a) Ok (λ _, true)
    (demo_environment cancelled_on_success) (demo_config [success_handler])). reflexivity.
Defined.

(** A dead letter whose payload cannot be deep-copied leaves the delivery
    unsettled, and the exception escapes. *)
Lemma uncopyable_payload_unsettled :
  let run := execute (λ _ _, None) (λ a _, a)
    (λ v, match v with VStr _ => Err (type_error "cannot pickle") | _ => Ok v end) (λ _, true)
    (demo_environment failing_handler) (demo_config []) demo_start in
  settled (hist run.1) = [] ∧ run.2 = Err (type_error "cannot pickle").
Proof. vm_compute. by split. Qed.
