(* ===== verification/CodecTypes.v ===== *)
(** * The grammar of captured values

    What [encode_value] of [onestep/capture/codec.py] writes, as a typing
    judgement on JSON: the reserved key ["$onestep"] occurs only in the tags
    the decoder knows, with the fields it requires, and every number is one
    JSON can express. *)

From stdpp Require Import base option list strings numbers sorting.
From Stdlib Require Import ZArith Lia.
From S2P Require Import Prelude PyFloat Texts Value Codec.

Set Warnings "-register-all".

(** The tags around one text. *)
Definition is_text_tag (t : string) : bool :=
  existsb (String.eqb t) ["uuid"; "bytes"; "decimal"].

(** The tags around a list of members. *)
Definition is_list_tag (t : string) : bool :=
  existsb (String.eqb t) ["tuple"; "set"; "frozenset"].

Inductive encoded : json → Prop :=
| encoded_null : encoded JNull
| encoded_bool b : encoded (JBool b)
| encoded_int n : encoded (JInt n)
| encoded_float x : isfinite x = true → encoded (JFloat x)
| encoded_str s : encoded (JStr s)
| encoded_list js : Forall encoded js → encoded (JList js)
| encoded_dict kjs : TAG ∉ kjs.*1 → Forall (λ kj, encoded kj.2) kjs → encoded (JObj kjs)
| encoded_text t s : is_text_tag t = true → encoded (_tag t [("value", JStr s)])
| encoded_datetime s fold :
    fold = 0%Z ∨ fold = 1%Z → encoded (_tag "datetime" [("value", JStr s); ("fold", JInt fold)])
| encoded_members t js :
    is_list_tag t = true → Forall encoded js → encoded (_tag t [("values", JList js)])
| encoded_enum m q n j :
    is_local q = false → encoded j →
    encoded (_tag "enum" [("module", JStr m); ("qualname", JStr q); ("name", JStr n); ("value", j)])
| encoded_namedtuple m q fields js :
    is_local q = false → length js = length fields → Forall encoded js →
    encoded (_tag "namedtuple" [("module", JStr m); ("qualname", JStr q);
                                ("fields", JList (map JStr fields)); ("values", JList js)])
| encoded_mapping kjs :
    Forall (λ kj, encoded kj.2) kjs →
    encoded (_tag "mapping" [("items", JList (map (λ kj : string * json, JList [JStr kj.1; kj.2]) kjs))]).

Section CodecTypes.
Context `{CodecEnv}.

Definition encodes_well (v : value) : Prop :=
  ∀ path j, wf_value v → encode_value path v = Ok j → encoded j.

(** The comprehensions of [encode_value] produce encoded members. *)
Lemma members_encoded vs :
  Forall encodes_well vs → Forall wf_value vs →
  (∀ path i js, enc_list encode_value path i vs = Ok js → Forall encoded js) ∧
  (∀ path js, enc_set encode_value path vs = Ok js → Forall encoded js) ∧
  (∀ path fs js, enc_fields encode_value path fs vs = Ok js → Forall encoded js).
Proof.
  induction 1 as [|v vs Hv Hvs IH]; intros Hw.
  { split_and!; [intros path i js | intros path js | intros path fs js]; cbn;
      [| | destruct fs]; intros [= <-]; constructor. }
  apply Forall_cons_1 in Hw as [Hw Hws]. destruct (IH Hws) as (IH1 & IH2 & IH3).
  split_and!; [intros path i js | intros path js | intros path [|f fs] js]; cbn;
    [| | by intros [= <-] |]; intros (j & Hj & (js' & Hjs & [= <-])%bind_ok)%bind_ok;
    (constructor; [by eapply Hv | eauto]).
Qed.

Lemma enc_fields_length fs vs path js :
  length vs = length fs → enc_fields encode_value path fs vs = Ok js → length js = length fs.
Proof.
  revert fs js. induction vs as [|v vs IH]; intros [|f fs] js; cbn; try done; [by intros _ [= <-]|].
  intros [= Hl] (j & _ & (js' & Hjs & [= <-])%bind_ok)%bind_ok. cbn. f_equal. eauto.
Qed.

Lemma items_encoded items :
  Forall (λ kv, encodes_well kv.2) items → Forall (λ kv, wf_value kv.2) items →
  ∀ path kjs, enc_items encode_value path items = Ok kjs → Forall (λ kj, encoded kj.2) kjs.
Proof.
  induction 1 as [|[k v] items Hv Hvs IH]; intros Hw path kjs; cbn; [intros [= <-]; constructor|].
  apply Forall_cons_1 in Hw as [Hw Hws]. destruct (key_text k); [|intros [= <-]; constructor].
  intros (j & Hj & (js' & Hjs & [= <-])%bind_ok)%bind_ok. constructor; [by eapply Hv | eauto].
Qed.

Lemma enc_items_tag items path kjs :
  bad_key items = None → enc_items encode_value path items = Ok kjs → has_tag items = false →
  TAG ∉ kjs.*1.
Proof.
  unfold has_tag. revert kjs. induction items as [|[k v] items IH]; intros kjs; cbn -[String.eqb TAG].
  { intros _ [= <-] _. by apply not_elem_of_nil. }
  unfold key_is at 1. cbn [fst]. destruct (key_text k) as [s|]; [|done].
  intros Hb (j & _ & (js' & Hjs & [= <-])%bind_ok)%bind_ok Ht. cbn -[String.eqb TAG].
  destruct (String.eqb TAG s) eqn:E; [done|]. apply String.eqb_neq in E.
  apply not_elem_of_cons. split; [intros Hs; by subst | by apply IH].
Qed.

Lemma sorted_encoded (key : json → string) js : Forall encoded js → Forall encoded (sort_by key js).
Proof. intros Hf. by rewrite sort_by_perm. Qed.

Lemma ensure_not_local m q path f u : _ensure_replayable_type m q path f = Ok u → is_local q = false.
Proof. unfold _ensure_replayable_type. by destruct (is_local q). Qed.

Lemma encode_well v : encodes_well v.
Proof.
  induction v using value_rect_strong; intros path j Hw; cbn [encode_value]; cbn in Hw;
    rewrite ?all_values_Forall in Hw; try (intros [= <-]; by constructor).
  - destruct (isfinite x) eqn:E; [|done]. intros [= <-]. by constructor.
  - intros [= <-]. apply encoded_datetime. destruct (dt_fold _); auto.
  - destruct Hw as [Hw _]. intros (u & Hu & (j' & Hj & [= <-])%bind_ok)%bind_ok.
    apply ensure_not_local in Hu. apply encoded_enum; [done|]. by eapply IHv.
  - destruct Hw as (Hw & Hl & _). intros (u & Hu & (js & Hjs & [= <-])%bind_ok)%bind_ok.
    apply ensure_not_local in Hu. destruct (members_encoded vs H0 Hw) as (_ & _ & Hm).
    apply encoded_namedtuple; [done | by eapply enc_fields_length | by eapply Hm].
  - intros (js & Hjs & [= <-])%bind_ok. destruct (members_encoded vs H0 Hw) as (Hm & _ & _).
    apply encoded_members; [done | by eapply Hm].
  - destruct Hw as [Hw _]. intros (js & Hjs & [= <-])%bind_ok.
    destruct (members_encoded vs H0 Hw) as (_ & Hm & _).
    apply encoded_members; [done | eapply sorted_encoded, Hm; done].
  - destruct Hw as [Hw _]. intros (js & Hjs & [= <-])%bind_ok.
    destruct (members_encoded vs H0 Hw) as (_ & Hm & _).
    apply encoded_members; [done | eapply sorted_encoded, Hm; done].
  - intros (js & Hjs & [= <-])%bind_ok. destruct (members_encoded vs H0 Hw) as (Hm & _ & _).
    apply encoded_list. by eapply Hm.
  - destruct Hw as [Hw _]. rewrite all_items_Forall in Hw.
    destruct (bad_key items) eqn:Eb; [done|]. intros (kjs & Hk & [= <-])%bind_ok.
    assert (Forall (λ kv, encodes_well kv.2) items) as Hi
      by (eapply Forall_impl; [exact H0|]; by intros kv []).
    pose proof (items_encoded items Hi Hw path kjs Hk) as He.
    destruct (has_tag items) eqn:Et; [by apply encoded_mapping|].
    apply encoded_dict; [by eapply enc_items_tag | done].
Qed.
End CodecTypes.

(** ** Property *)

(** C40. Every document [encode_value] writes is in the grammar of captured
    values: finite numbers only, and the reserved key only in tags the
    decoder knows, with the fields it requires; a namedtuple has as many
    values as fields and no recorded type is local to a function. *)
Theorem encode_value_typed `{CodecEnv} path v j :
  wf_value v → encode_value path v = Ok j → encoded j.
Proof. apply encode_well. Qed.

Lemma encode_value_typed_witness : ∃ j, encode_value "" demo_value = Ok j ∧ encoded j.
Proof.
  destruct (encode_value "" demo_value) as [j|e] eqn:E; [|vm_compute in E; discriminate].
  exists j. split; [reflexivity|].
  refine (encode_value_typed "" demo_value j _ E). exact (value_ok_impl _ _ _ (λ _ _ _ _ _, I) demo_value_replayable).
Defined.
