(* ===== verification/AppControl.v ===== *)
(** * Controlling a running app ([onestep/app.py])

    The flags and events of [OneStepApp] that stop, drain, pause and resume
    its runners, the requests that set them, and the statuses computed from
    them and from the runners.  An [asyncio.Event] is [Some is_set], [None]
    before it is created; all runners share one event loop. *)

From stdpp Require Import base option list strings numbers gmap.
From Stdlib Require Import ZArith Lia.
From S2P Require Import Prelude PyFloat Value Invoke Retry Task.

(** ** State *)

(** A registered task with what the app asks of its connectors:
    [isinstance(source, Sink)], [source.supports_manual_run] and
    [isinstance(sink, Source)] for every dead-letter sink. *)
Record TaskEntry := {
  te_spec : TaskSpec;
  te_source_is_sink : bool;
  te_supports_manual_run : bool;
  te_dead_letter_is_source : list bool;
}.

(** The fields of a [TaskRunner] the app reads; deliveries in flight are
    known by an identity. *)
Record TaskRunner := {
  rn_task : string;
  _inflight : list Z;
  _fetching : bool;
  _drain_parked : bool;
  _pause_parked : bool;
}.

Record OneStepApp := {
  _tasks : list TaskEntry;
  _shutdown : option bool;
  _shutdown_requested : bool;
  _drain : option bool;
  _drain_requested : bool;
  _restart_requested : bool;
  _paused_tasks : gset string;
}.

(** [OneStepApp.__init__] and the assignments of [startup]. *)
Definition new_app (tasks : list TaskEntry) : OneStepApp :=
  {| _tasks := tasks; _shutdown := None; _shutdown_requested := false; _drain := None;
     _drain_requested := false; _restart_requested := false; _paused_tasks := ∅ |}.

Definition started_app (tasks : list TaskEntry) : OneStepApp :=
  {| _tasks := tasks; _shutdown := Some false; _shutdown_requested := false; _drain := Some false;
     _drain_requested := false; _restart_requested := false; _paused_tasks := ∅ |}.

(** [TaskRunner.__init__]. *)
Definition new_runner (task : string) : TaskRunner :=
  {| rn_task := task; _inflight := []; _fetching := false; _drain_parked := false;
     _pause_parked := false |}.

(** ** Flags *)

Definition is_stopping (a : OneStepApp) : bool :=
  _shutdown_requested a || default false (_shutdown a).

Definition is_draining (a : OneStepApp) : bool := _drain_requested a && negb (is_stopping a).

Definition is_task_paused (a : OneStepApp) (task_name : string) : bool :=
  bool_decide (task_name ∈ _paused_tasks a) && negb (is_stopping a).

(** ** Requests *)

Definition set_shutdown (requested : bool) (ev : option bool) (a : OneStepApp) : OneStepApp :=
  {| _tasks := _tasks a; _shutdown := ev; _shutdown_requested := requested; _drain := _drain a;
     _drain_requested := _drain_requested a; _restart_requested := _restart_requested a;
     _paused_tasks := _paused_tasks a |}.

Definition set_drain (requested : bool) (ev : option bool) (a : OneStepApp) : OneStepApp :=
  {| _tasks := _tasks a; _shutdown := _shutdown a; _shutdown_requested := _shutdown_requested a;
     _drain := ev; _drain_requested := requested; _restart_requested := _restart_requested a;
     _paused_tasks := _paused_tasks a |}.

Definition set_paused (ps : gset string) (a : OneStepApp) : OneStepApp :=
  {| _tasks := _tasks a; _shutdown := _shutdown a; _shutdown_requested := _shutdown_requested a;
     _drain := _drain a; _drain_requested := _drain_requested a;
     _restart_requested := _restart_requested a; _paused_tasks := ps |}.

(** [request_shutdown] from the thread of the loop or from another one: the
    event is then set by [shutdown_event_set], which the loop runs later. *)
Definition request_shutdown (on_loop : bool) (a : OneStepApp) : OneStepApp :=
  match _shutdown a with
  | None => set_shutdown true None a
  | Some b => set_shutdown true (Some (b || on_loop)) a
  end.

Definition shutdown_event_set (a : OneStepApp) : OneStepApp :=
  set_shutdown (_shutdown_requested a) ((λ _, true) <$> _shutdown a) a.

Definition request_restart (on_loop : bool) (a : OneStepApp) : OneStepApp :=
  request_shutdown on_loop
    {| _tasks := _tasks a; _shutdown := _shutdown a; _shutdown_requested := _shutdown_requested a;
       _drain := _drain a; _drain_requested := _drain_requested a; _restart_requested := true;
       _paused_tasks := _paused_tasks a |}.

(** [asyncio.get_running_loop()], which the [_ensure_..._event] methods call. *)
Definition running_loop (on_loop : bool) : result exn unit :=
  guard_else on_loop (runtime_error "no running event loop").

(** [notify_runner_state_changed]; the event only wakes waiters that read the
    statuses again. *)
Definition notify_runner_state_changed (on_loop : bool) : SE OneStepApp exn unit :=
  se_lift (running_loop on_loop).

Definition request_drain (on_loop : bool) : SE OneStepApp exn unit :=
  _ ← se_modify (λ a, set_drain true (_drain a) a);
  _ ← se_lift (running_loop on_loop);
  _ ← se_modify (λ a, set_drain (_drain_requested a) (Some true) a);
  notify_runner_state_changed on_loop.

Definition find_task (a : OneStepApp) (task_name : string) : option TaskEntry :=
  List.find (λ t, String.eqb (ts_name (te_spec t)) task_name) (_tasks a).

Definition _require_controllable_task (a : OneStepApp) (task_name : string) : result exn TaskEntry :=
  match find_task a task_name with
  | None => Err (value_error ("task " +:+ task_name +:+ " was not found"))
  | Some t =>
      match ts_source (te_spec t) with
      | None => Err (value_error ("task " +:+ task_name
                                  +:+ " does not have a controllable source runner"))
      | Some _ => Ok t
      end
  end.

Definition request_task_pause (on_loop : bool) (task_name : string) : SE OneStepApp exn unit :=
  a ← se_get;
  _ ← se_lift (_require_controllable_task a task_name);
  _ ← se_modify (λ a, set_paused ({[task_name]} ∪ _paused_tasks a) a);
  notify_runner_state_changed on_loop.

Definition request_task_resume (on_loop : bool) (task_name : string) : SE OneStepApp exn unit :=
  a ← se_get;
  _ ← se_lift (_require_controllable_task a task_name);
  _ ← se_modify (λ a, set_paused (_paused_tasks a ∖ {[task_name]}) a);
  notify_runner_state_changed on_loop.

(** ** Capabilities *)

Definition _task_supports_dead_letter_discard (t : TaskEntry) : bool :=
  match te_dead_letter_is_source t with [b] => b | _ => false end.

Definition _task_supports_dead_letter_replay (t : TaskEntry) : bool :=
  bool_decide (is_Some (ts_source (te_spec t))) && te_source_is_sink t
  && _task_supports_dead_letter_discard t.

Definition _task_supports_manual_run (t : TaskEntry) : bool :=
  bool_decide (is_Some (ts_source (te_spec t))) && te_supports_manual_run t.

Definition task_supported_commands (a : OneStepApp) (task_name : string)
    : result exn (list string) :=
  t ← _require_controllable_task a task_name;
  Ok (["pause_task"; "resume_task"; "restart_task"]
      ++ (if _task_supports_dead_letter_discard t then ["discard_dead_letters"] else [])
      ++ (if _task_supports_dead_letter_replay t then ["replay_dead_letters"] else [])
      ++ (if _task_supports_manual_run t then ["run_task_once"] else [])).

Definition require_supported (supports : TaskEntry → bool) (msg : string)
    (a : OneStepApp) (task_name : string) : result exn TaskEntry :=
  t ← _require_controllable_task a task_name;
  _ ← guard_else (supports t) (value_error ("task " +:+ task_name +:+ msg));
  Ok t.

Definition _require_dead_letter_replay_task :=
  require_supported _task_supports_dead_letter_replay
    " does not support dead-letter replay with the configured source and dead-letter connectors".

Definition _require_dead_letter_discard_task :=
  require_supported _task_supports_dead_letter_discard
    " does not support dead-letter discard with the configured dead-letter connectors".

Definition _require_manual_run_task :=
  require_supported _task_supports_manual_run
    " does not support manual run with the configured source".

(** [any(...)] over the tasks: which commands the app supports at all. *)
Definition supports_dead_letter_replay_commands (a : OneStepApp) : bool :=
  existsb _task_supports_dead_letter_replay (_tasks a).
Definition supports_dead_letter_discard_commands (a : OneStepApp) : bool :=
  existsb _task_supports_dead_letter_discard (_tasks a).
Definition supports_manual_run_commands (a : OneStepApp) : bool :=
  existsb _task_supports_manual_run (_tasks a).

(** ** Statuses *)

Definition inflight_count (r : TaskRunner) : nat := length (_inflight r).

Definition count_if (p : TaskRunner → bool) (rs : list TaskRunner) : nat :=
  length (List.filter p rs).

Definition inflight_total (rs : list TaskRunner) : nat :=
  foldr (λ r n, inflight_count r + n)%nat 0%nat rs.

Record runner_counts := {
  runner_count : nat;
  parked_runner_count : nat;
  fetching_runner_count : nat;
  inflight_task_count : nat;
}.

Definition counts_of (parked : TaskRunner → bool) (rs : list TaskRunner) : runner_counts :=
  {| runner_count := length rs; parked_runner_count := count_if parked rs;
     fetching_runner_count := count_if _fetching rs; inflight_task_count := inflight_total rs |}.

(** Nothing in flight, nothing being fetched, every runner parked. *)
Definition quiescent (c : runner_counts) : bool :=
  (inflight_task_count c =? 0)%nat && (fetching_runner_count c =? 0)%nat
  && (parked_runner_count c =? runner_count c)%nat.

Record control_status := {
  cs_requested : bool;
  cs_completion : string;
  cs_done : bool;
  cs_accepting_new_work : bool;
  cs_counts : runner_counts;
}.

Definition completion_text (b : bool) : string := if b then "complete" else "in_progress".

Definition drain_status (a : OneStepApp) (rs : list TaskRunner) : control_status :=
  let c := counts_of _drain_parked rs in
  let drained := _drain_requested a && quiescent c in
  {| cs_requested := _drain_requested a; cs_completion := completion_text drained;
     cs_done := drained; cs_accepting_new_work := negb (_drain_requested a); cs_counts := c |}.

Definition task_runners (rs : list TaskRunner) (task_name : string) : list TaskRunner :=
  List.filter (λ r, String.eqb (rn_task r) task_name) rs.

(** [_task_runtime_status]: the request and the counts of the task. *)
Definition _task_runtime_status (a : OneStepApp) (rs : list TaskRunner) (task_name : string)
    : result exn (bool * runner_counts) :=
  _ ← _require_controllable_task a task_name;
  Ok (is_task_paused a task_name, counts_of _pause_parked (task_runners rs task_name)).

Definition task_pause_status (a : OneStepApp) (rs : list TaskRunner) (task_name : string)
    : result exn control_status :=
  '(requested, c) ← _task_runtime_status a rs task_name;
  let paused := requested && quiescent c in
  Ok {| cs_requested := requested; cs_completion := completion_text paused; cs_done := paused;
        cs_accepting_new_work := negb requested; cs_counts := c |}.

Definition task_resume_status (a : OneStepApp) (rs : list TaskRunner) (task_name : string)
    : result exn control_status :=
  '(requested, c) ← _task_runtime_status a rs task_name;
  let accepting := negb requested && (parked_runner_count c =? 0)%nat in
  Ok {| cs_requested := true; cs_completion := completion_text accepting; cs_done := negb accepting;
        cs_accepting_new_work := accepting; cs_counts := c |}.

Record control_snapshot := {
  sn_task_name : string;
  sn_supported_commands : list string;
  sn_pause_requested : bool;
  sn_paused : bool;
  sn_accepting_new_work : bool;
  sn_counts : runner_counts;
}.

Definition task_control_snapshot (a : OneStepApp) (rs : list TaskRunner) (task_name : string)
    : result exn control_snapshot :=
  _ ← _require_controllable_task a task_name;
  let c := counts_of _pause_parked (task_runners rs task_name) in
  let requested := is_task_paused a task_name in
  commands ← task_supported_commands a task_name;
  Ok {| sn_task_name := task_name; sn_supported_commands := commands;
        sn_pause_requested := requested; sn_paused := requested && quiescent c;
        sn_accepting_new_work := negb requested; sn_counts := c |}.

Definition task_control_snapshots (a : OneStepApp) (rs : list TaskRunner)
    : result exn (list control_snapshot) :=
  mapR (λ t, task_control_snapshot a rs (ts_name (te_spec t)))
    (List.filter (λ t, bool_decide (is_Some (ts_source (te_spec t)))) (_tasks a)).

(** ** Lemmas *)

Lemma stopping_not_draining a : is_stopping a = true → is_draining a = false.
Proof. unfold is_draining. intros ->. apply andb_false_r. Qed.

Lemma stopping_not_paused a t : is_stopping a = true → is_task_paused a t = false.
Proof. unfold is_task_paused. intros ->. apply andb_false_r. Qed.

Lemma count_if_all p rs : count_if p rs = length rs ↔ Forall (λ r, p r = true) rs.
Proof.
  unfold count_if. induction rs as [|r rs IH]; cbn; [by split|].
  pose proof (List.filter_length_le p rs). rewrite Forall_cons. destruct (p r); cbn.
  - rewrite <- IH. split; [intros [= H1]; by split | by intros [_ ->]].
  - split; [lia | by intros [? _]].
Qed.

Lemma count_if_none p rs : count_if p rs = 0%nat ↔ Forall (λ r, p r = false) rs.
Proof.
  unfold count_if. induction rs as [|r rs IH]; cbn; [by split|].
  rewrite Forall_cons, <- IH. destruct (p r); cbn; intuition lia.
Qed.

Lemma inflight_total_none rs : inflight_total rs = 0%nat ↔ Forall (λ r, _inflight r = []) rs.
Proof.
  induction rs as [|r rs IH]; cbn; [by split|]. rewrite Forall_cons, <- IH. unfold inflight_count.
  destruct (_inflight r); cbn; intuition (try lia; done).
Qed.

Lemma quiescent_spec parked rs :
  quiescent (counts_of parked rs) = true ↔
  Forall (λ r, _inflight r = [] ∧ _fetching r = false ∧ parked r = true) rs.
Proof.
  unfold quiescent, counts_of. cbn. rewrite !andb_true_iff, !Nat.eqb_eq.
  rewrite inflight_total_none, count_if_none, count_if_all, !Forall_and. tauto.
Qed.

(** Off the event loop the request takes effect, but raises. *)
Lemma request_drain_off_loop a :
  request_drain false a = (set_drain true (_drain a) a, Err (runtime_error "no running event loop")).
Proof. done. Qed.
