(* ===== verification/Runner.v ===== *)
(** * The task runner ([onestep/runtime/runner.py])

    [TaskRunner.run] as a state machine: a runner is at one of its awaits,
    and an action of the event loop (the awaited operation ends, a delivery
    task ends, the runner is cancelled) takes it to the next one.  Code
    between two awaits is one step, as asyncio runs it.

    The awaits inside one [try] that has a single continuation are one
    position: a fetch that is cancelled and awaited, the FETCHED events of a
    batch. *)

From stdpp Require Import base option list strings numbers gmap.
From Stdlib Require Import ZArith Lia.
From S2P Require Import Prelude PyFloat Value Resilience Invoke Retry Task AppControl.

(** ** Positions *)

Inductive pc :=
| Ready                              (** created, not run yet *)
| WaitingInflight                    (** [_wait_for_inflight] *)
| DrainParked                        (** [wait_for_shutdown] while draining *)
| PauseParked                        (** the same with a timeout, while paused *)
| Resuming                           (** the [resume_after_pause] hook *)
| Sleeping                           (** [asyncio.sleep(poll_interval_s)] *)
| Fetching (limit : nat) (stop : bool) (res : option (result exn (list Z)))
    (** [asyncio.wait({fetch_task, stop_fetching_task})] *)
| FinishingFetch (limit : nat) (raising : option exn)   (** [await fetch_task] *)
| BackingOff (e : exn) (raising : option exn)  (** [_handle_source_fetch_error] *)
| Releasing (ds all : list Z) (raising : option exn)  (** [release_unstarted] of the head *)
| Emitting (ds : list Z)             (** the FETCHED events *)
| Draining (exc : option exn)        (** [_drain_inflight] in the [finally] *)
| Finished (exc : option exn).

(** Why a fetched delivery was dropped. *)
Inductive loss := DroppedResult | CancelledFetch | FailedEvent | FailedRelease | CancelledRelease.

(** The runner at its position, with what happened to the deliveries. *)
Record running := {
  runner : TaskRunner;
  position : pc;
  fetched : list Z;
  started : list Z;
  released : list Z;
  lost : list (Z * loss);
}.

(** What the runner reads of its task, its source and its app. *)
Record runner_config := {
  rc_concurrency : nat;
  rc_fetch_is_cancel_safe : bool;
  rc_resume_after_pause : bool;
  rc_poll_interval_s : float64;
  rc_shutdown_timeout_s : option float64;
}.

Definition at_pc (p : pc) (r : running) : running :=
  {| runner := runner r; position := p; fetched := fetched r; started := started r;
     released := released r; lost := lost r |}.

Definition with_runner (f : TaskRunner → TaskRunner) (r : running) : running :=
  {| runner := f (runner r); position := position r; fetched := fetched r; started := started r;
     released := released r; lost := lost r |}.

Definition drop (ds : list Z) (l : loss) (r : running) : running :=
  {| runner := runner r; position := position r; fetched := fetched r; started := started r;
     released := released r; lost := ((λ d, (d, l)) <$> ds) ++ lost r |}.

Definition release (d : Z) (r : running) : running :=
  {| runner := runner r; position := position r; fetched := fetched r; started := started r;
     released := d :: released r; lost := lost r |}.

Definition hand_out (ds : list Z) (r : running) : running :=
  {| runner := runner r; position := position r; fetched := ds ++ fetched r; started := started r;
     released := released r; lost := lost r |}.

(** ** The code between the awaits *)

Definition _set_fetching (b : bool) (r : TaskRunner) : TaskRunner :=
  {| rn_task := rn_task r; _inflight := _inflight r; _fetching := b;
     _drain_parked := _drain_parked r; _pause_parked := _pause_parked r |}.
Definition _set_drain_parked (b : bool) (r : TaskRunner) : TaskRunner :=
  {| rn_task := rn_task r; _inflight := _inflight r; _fetching := _fetching r;
     _drain_parked := b; _pause_parked := _pause_parked r |}.
Definition _set_pause_parked (b : bool) (r : TaskRunner) : TaskRunner :=
  {| rn_task := rn_task r; _inflight := _inflight r; _fetching := _fetching r;
     _drain_parked := _drain_parked r; _pause_parked := b |}.
Definition set_inflight (ds : list Z) (r : TaskRunner) : TaskRunner :=
  {| rn_task := rn_task r; _inflight := ds; _fetching := _fetching r;
     _drain_parked := _drain_parked r; _pause_parked := _pause_parked r |}.

Definition idle (r : running) : bool := bool_decide (_inflight (runner r) = []).

(** The [finally] of [run], left with [exc]. *)
Definition enter_finally (exc : option exn) (r : running) : running :=
  let r := with_runner (λ x, _set_fetching false (_set_pause_parked false (_set_drain_parked false x))) r in
  at_pc (if idle r then Finished exc else Draining exc) r.

Section Runner.
Context (cfg : runner_config).

Definition paused_now (a : OneStepApp) (r : running) : bool := is_task_paused a (rn_task (runner r)).

(** [_fetch_deliveries] returned no deliveries. *)
Definition no_deliveries (a : OneStepApp) (r : running) : running :=
  if is_stopping a then enter_finally None r
  else at_pc (if idle r then Sleeping else WaitingInflight) r.

(** From [available = ...] to the first await of [_fetch_deliveries]. *)
Definition start_fetch (a : OneStepApp) (r : running) : running :=
  let available := (rc_concurrency cfg - length (_inflight (runner r)))%nat in
  if (available =? 0)%nat then at_pc WaitingInflight r
  else if is_stopping a || is_draining a || paused_now a r then no_deliveries a r
  else at_pc (Fetching available false None) (with_runner (_set_fetching true) r).

(** The test of [while not self.app.is_stopping] and the body up to its
    first await. *)
Definition loop_top (a : OneStepApp) (r : running) : running :=
  if is_stopping a then enter_finally None r
  else if is_draining a then
    if negb (idle r) then at_pc WaitingInflight r
    else at_pc DrainParked (with_runner (λ x, _set_drain_parked true (_set_pause_parked false x)) r)
  else if paused_now a r then
    if negb (idle r) then at_pc WaitingInflight r
    else at_pc PauseParked (with_runner (λ x, _set_pause_parked true (_set_drain_parked false x)) r)
  else
    let resumed_from_pause := _pause_parked (runner r) in
    let r := with_runner (_set_drain_parked false) r in
    if resumed_from_pause && rc_resume_after_pause cfg then at_pc Resuming r
    else start_fetch a (with_runner (_set_pause_parked false) r).

(** The end of [_fetch_deliveries] without deliveries: the runner goes on, or
    raises what it caught. *)
Definition fetch_returns_nothing (a : OneStepApp) (raising : option exn) (r : running) : running :=
  let r := with_runner (_set_fetching false) r in
  match raising with
  | Some e => enter_finally (Some e) r
  | None => no_deliveries a r
  end.

(** [_release_unstarted_deliveries], then the end of [_fetch_deliveries]. *)
Definition release_all (a : OneStepApp) (ds : list Z) (raising : option exn) (r : running) : running :=
  match ds with
  | [] => fetch_returns_nothing a raising r
  | _ => at_pc (Releasing ds ds raising) r
  end.

(** [_resolve_fetch_task] on a fetch that raised. *)
Definition fetch_raised (a : OneStepApp) (e : exn) (raising : option exn) (r : running) : running :=
  match exn_cls e with
  | CConnector _ _ kind _ rd _ =>
      if retryable_kind kind
      then let delay_s := connector_retry_delay rd kind (rc_poll_interval_s cfg) in
           if fleb delay_s f_zero || is_stopping a then fetch_returns_nothing a raising r
           else at_pc (BackingOff e raising) r
      else enter_finally (Some e) (with_runner (_set_fetching false) r)
  | _ => enter_finally (Some e) (with_runner (_set_fetching false) r)
  end.

(** [_resolve_fetch_task] and [_release_unstarted_deliveries]. *)
Definition resolve_and_release (a : OneStepApp) (res : result exn (list Z)) (raising : option exn)
    (r : running) : running :=
  match res with
  | Ok ds => release_all a ds raising r
  | Err e => fetch_raised a e raising r
  end.

(** The asyncio tasks of the deliveries are created and tracked. *)
Definition start_deliveries (ds : list Z) (r : running) : running :=
  {| runner := set_inflight (_inflight (runner r) ++ ds) (runner r); position := position r;
     fetched := fetched r; started := ds ++ started r; released := released r; lost := lost r |}.

(** [asyncio.wait] of [_fetch_deliveries] returns. *)
Definition fetch_woken (a : OneStepApp) (limit : nat) (stop : bool)
    (res : option (result exn (list Z))) (r : running) : option running :=
  match stop, res with
  | true, _ =>
      if rc_fetch_is_cancel_safe cfg
      then (* the fetch is cancelled, its result ignored *)
        Some (fetch_returns_nothing a None
                (match res with Some (Ok ds) => drop ds DroppedResult r | _ => r end))
      else match res with
           | Some res => Some (resolve_and_release a res None r)
           | None => Some (at_pc (FinishingFetch limit None) r)
           end
  | false, Some (Err e) => Some (fetch_raised a e None r)
  | false, Some (Ok ds) =>
      if is_stopping a || is_draining a || paused_now a r then Some (release_all a ds None r)
      else match ds with
           | [] => Some (fetch_returns_nothing a None r)
           | _ => Some (at_pc (Emitting ds) (with_runner (_set_fetching false) r))
           end
  | false, None => None
  end.

(** ** Actions *)

Inductive action :=
| Wake                               (** the awaited operation ends, or its timeout *)
| Raise (e : exn)                    (** it raises, or a handler of a FETCHED event does *)
| StopFetching                       (** [wait_for_stop_fetching] ends *)
| FetchEnds (res : result exn (list Z))
| DeliveryEnds (d : Z)               (** the asyncio task of a delivery ends *)
| ShutdownTimeout                    (** of [_drain_inflight] *)
| Cancel (handed_out : list Z).      (** the runner is cancelled; what an interrupted fetch took *)

(** A source hands out new deliveries, at most as many as asked for. *)
Definition fresh_batch (limit : nat) (ds : list Z) (r : running) : bool :=
  (length ds <=? limit)%nat && bool_decide (NoDup (ds ++ fetched r)).

(** What ends [wait_for_stop_fetching]. *)
Definition stop_fetching (a : OneStepApp) (r : running) : bool :=
  default false (_shutdown a) || default false (_drain a) || is_stopping a || paused_now a r.

Definition cancelled_error : exn := Exn CCancelled "CancelledError" "" None.

Definition wake (a : OneStepApp) (r : running) : option running :=
  match position r with
  | Ready | WaitingInflight | Sleeping => Some (loop_top a r)
  | DrainParked => if default false (_shutdown a) then Some (enter_finally None r) else None
  | PauseParked => if default false (_shutdown a) then Some (enter_finally None r)
                   else Some (loop_top a r)
  | Resuming => Some (start_fetch a (with_runner (_set_pause_parked false) r))
  | Fetching limit stop res => fetch_woken a limit stop res r
  | BackingOff _ raising => Some (fetch_returns_nothing a raising r)
  | Releasing (d :: ds) all raising =>
      let r := release d r in
      Some (match ds with
            | [] => fetch_returns_nothing a raising r
            | _ => at_pc (Releasing ds all raising) r
            end)
  | Releasing [] _ _ => None
  | Emitting ds => Some (loop_top a (start_deliveries ds r))
  | Draining exc => if idle r then Some (at_pc (Finished exc) r) else None
  | FinishingFetch _ _ | Finished _ => None
  end.

(** An exception of the hook or of a FETCHED event leaves [run]; one of
    [release_unstarted] is logged. *)
Definition raise (a : OneStepApp) (e : exn) (r : running) : option running :=
  match position r with
  | Resuming => Some (enter_finally (Some e) r)
  | Emitting ds => Some (enter_finally (Some e) (drop ds FailedEvent r))
  | Releasing (d :: ds) all raising =>
      if is_exception e
      then let r := drop [d] FailedRelease r in
           Some (match ds with
                 | [] => fetch_returns_nothing a raising r
                 | _ => at_pc (Releasing ds all raising) r
                 end)
      else None
  | _ => None
  end.

(** [CancelledError] at the await. *)
Definition cancel (a : OneStepApp) (handed_out : list Z) (r : running) : option running :=
  match position r with
  | Fetching limit stop res =>
      match res with
      | None => if rc_fetch_is_cancel_safe cfg
                then Some (fetch_returns_nothing a (Some cancelled_error) r)
                else Some (at_pc (FinishingFetch limit (Some cancelled_error)) r)
      | Some res => Some (resolve_and_release a res (Some cancelled_error) r)
      end
  | FinishingFetch limit _ =>
      if fresh_batch limit handed_out r
      then Some (fetch_returns_nothing a (Some cancelled_error)
                   (drop handed_out CancelledFetch (hand_out handed_out r)))
      else None
  | BackingOff e None => Some (fetch_raised a e (Some cancelled_error) r)
  | BackingOff _ (Some _) => Some (fetch_returns_nothing a (Some cancelled_error) r)
  | Releasing _ all None => Some (release_all a all (Some cancelled_error) r)
  | Releasing ds _ (Some _) =>
      Some (fetch_returns_nothing a (Some cancelled_error) (drop ds CancelledRelease r))
  | Emitting ds => Some (enter_finally (Some cancelled_error) (drop ds FailedEvent r))
  | Draining _ => Some (at_pc (Finished (Some cancelled_error)) r)
  | Finished _ => None
  | _ => Some (enter_finally (Some cancelled_error) r)
  end.

(** The fetch task ends. *)
Definition fetch_ends (a : OneStepApp) (res : result exn (list Z)) (r : running) : option running :=
  let ds := match res with Ok ds => ds | Err _ => [] end in
  match position r with
  | Fetching limit stop None =>
      if fresh_batch limit ds r
      then Some (at_pc (Fetching limit stop (Some res)) (hand_out ds r)) else None
  | FinishingFetch limit raising =>
      if fresh_batch limit ds r
      then Some (resolve_and_release a res raising (hand_out ds r)) else None
  | _ => None
  end.

(** [_handle_inflight_done]. *)
Definition delivery_ends (d : Z) (r : running) : option running :=
  if bool_decide (d ∈ _inflight (runner r))
  then Some (with_runner (set_inflight (List.filter (λ x, negb (x =? d)%Z) (_inflight (runner r)))) r)
  else None.

Definition step (a : OneStepApp) (act : action) (r : running) : option running :=
  match act with
  | Wake => wake a r
  | Raise e => raise a e r
  | StopFetching =>
      match position r with
      | Fetching limit false res =>
          if stop_fetching a r then Some (at_pc (Fetching limit true res) r) else None
      | _ => None
      end
  | FetchEnds res => fetch_ends a res r
  | DeliveryEnds d => delivery_ends d r
  | ShutdownTimeout =>
      match position r, rc_shutdown_timeout_s cfg with
      | Draining exc, Some _ => Some (at_pc (Finished exc) r)
      | _, _ => None
      end
  | Cancel handed_out => cancel a handed_out r
  end.
End Runner.

(** ** The runners of an app *)

(** The runners the app knows, and those it forgot when it stopped them: what
    they left in flight runs on. *)
Record system := {
  sys_app : OneStepApp;
  sys_runners : list (runner_config * running);
  sys_forgotten : list running;
}.

Definition new_running (task : string) : running :=
  {| runner := new_runner task; position := Ready; fetched := []; started := []; released := [];
     lost := [] |}.

(** What happened. *)
Inductive label :=
| LControl                           (** a request *)
| LRunner (i : nat) (act : action)
| LRemove (i : nat)                  (** the end of [stop_task_runner] *)
| LForgotten (j : nat) (d : Z)       (** a delivery of a forgotten runner ends *)
| LSpawn.                            (** [start_task_runner] *)

(** [serve] after [startup]: a runner per task with a source. *)
Definition initial (tasks : list TaskEntry) (runners : list (runner_config * string)) : system :=
  {| sys_app := started_app tasks;
     sys_runners := (λ ct, (ct.1, new_running ct.2)) <$> runners; sys_forgotten := [] |}.

Definition with_app (a : OneStepApp) (s : system) : system :=
  {| sys_app := a; sys_runners := sys_runners s; sys_forgotten := sys_forgotten s |}.

Inductive sys_step : system → label → system → Prop :=
| sys_shutdown on_loop s :
    sys_step s LControl (with_app (request_shutdown on_loop (sys_app s)) s)
| sys_restart on_loop s :
    sys_step s LControl (with_app (request_restart on_loop (sys_app s)) s)
| sys_shutdown_event s :
    _shutdown_requested (sys_app s) = true →
    sys_step s LControl (with_app (shutdown_event_set (sys_app s)) s)
| sys_drain on_loop s :
    sys_step s LControl (with_app (request_drain on_loop (sys_app s)).1 s)
| sys_pause on_loop t s :
    sys_step s LControl (with_app (request_task_pause on_loop t (sys_app s)).1 s)
| sys_resume on_loop t s :
    sys_step s LControl (with_app (request_task_resume on_loop t (sys_app s)).1 s)
| sys_runner i cfg r act r' s :
    sys_runners s !! i = Some (cfg, r) → step cfg (sys_app s) act r = Some r' →
    sys_step s (LRunner i act)
      {| sys_app := sys_app s; sys_runners := <[i := (cfg, r')]> (sys_runners s);
         sys_forgotten := sys_forgotten s |}
| sys_remove i cfg r exc s :
    sys_runners s !! i = Some (cfg, r) → position r = Finished exc →
    sys_step s (LRemove i)
      {| sys_app := set_paused (_paused_tasks (sys_app s) ∖ {[rn_task (runner r)]}) (sys_app s);
         sys_runners := delete i (sys_runners s); sys_forgotten := sys_forgotten s ++ [r] |}
| sys_forgotten_ends j d r r' s :
    sys_forgotten s !! j = Some r → delivery_ends d r = Some r' →
    sys_step s (LForgotten j d)
      {| sys_app := sys_app s; sys_runners := sys_runners s;
         sys_forgotten := <[j := r']> (sys_forgotten s) |}
| sys_spawn cfg t s :
    sys_step s LSpawn
      {| sys_app := sys_app s; sys_runners := sys_runners s ++ [(cfg, new_running t)];
         sys_forgotten := sys_forgotten s |}.

Inductive sys_steps : system → list label → system → Prop :=
| steps_refl s : sys_steps s [] s
| steps_cons s l s1 ls s2 : sys_step s l s1 → sys_steps s1 ls s2 → sys_steps s (l :: ls) s2.
