(* ===== verification/RunnerInvariant.v ===== *)
(** * Invariants of the runners

    The flags the app reads agree with the position of the runner, at most
    [concurrency] deliveries are in flight, and every delivery a source
    handed out is accounted for. *)

From stdpp Require Import base option list strings numbers gmap.
From Stdlib Require Import ZArith Lia.
From S2P Require Import Prelude PyFloat Value Resilience Invoke Retry Task AppControl Runner.

(** ** Flags and concurrency *)

Definition flags (fetching drain pause : bool) (r : running) : Prop :=
  _fetching (runner r) = fetching ∧ _drain_parked (runner r) = drain ∧ _pause_parked (runner r) = pause.

Definition in_flight (r : running) : nat := length (_inflight (runner r)).

Definition core (cfg : runner_config) (r : running) : Prop :=
  (in_flight r ≤ rc_concurrency cfg)%nat ∧
  match position r with
  | Ready | WaitingInflight | Sleeping | Draining _ | Finished _ => flags false false false r
  | DrainParked => flags false true false r ∧ in_flight r = 0
  | PauseParked | Resuming => flags false false true r ∧ in_flight r = 0
  | Fetching limit _ None => flags true false false r ∧ in_flight r + limit ≤ rc_concurrency cfg
  | Fetching _ _ (Some (Ok ds)) => flags true false false r ∧ in_flight r + length ds ≤ rc_concurrency cfg
  | Fetching _ _ (Some (Err _)) | FinishingFetch _ _ | BackingOff _ _ => flags true false false r
  | Releasing ds _ _ => flags true false false r ∧ ds ≠ []
  | Emitting ds => flags false false false r ∧ in_flight r + length ds ≤ rc_concurrency cfg
  end.

Section Core.
Context (cfg : runner_config).

Lemma idle_in_flight r : idle r = true ↔ in_flight r = 0.
Proof.
  unfold idle, in_flight. rewrite bool_decide_eq_true. destruct (_inflight (runner r)); cbn; by split.
Qed.

Lemma enter_finally_core exc r : (in_flight r ≤ rc_concurrency cfg)%nat → core cfg (enter_finally exc r).
Proof. intros H. split; [done|]. cbn. by destruct (idle _). Qed.

Lemma no_deliveries_core a r :
  flags false false false r → (in_flight r ≤ rc_concurrency cfg)%nat → core cfg (no_deliveries a r).
Proof.
  intros Hf Hc. unfold no_deliveries. destruct (is_stopping a); [by apply enter_finally_core|].
  split; [done|]. cbn. by destruct (idle r).
Qed.

Lemma start_fetch_core a r :
  flags false false false r → (in_flight r ≤ rc_concurrency cfg)%nat → core cfg (start_fetch cfg a r).
Proof.
  intros Hf Hc. unfold start_fetch. destruct (_ =? 0) eqn:E; [by split|].
  destruct (_ || _); [by apply no_deliveries_core|]. split; [done|]. cbn.
  destruct Hf as (H1 & H2 & H3). split; [done|]. unfold in_flight in *. cbn. lia.
Qed.

(** The loop starts over, with the runner possibly parked for a pause. *)
Lemma loop_top_core a p r :
  flags false false p r → (p = true → in_flight r = 0) → (in_flight r ≤ rc_concurrency cfg)%nat →
  core cfg (loop_top cfg a r).
Proof.
  intros (H1 & H2 & H3) Hp Hc. unfold loop_top.
  assert (negb (idle r) = true → p = false) as Hbusy.
  { intros Hi. destruct p; [|done]. specialize (Hp eq_refl). apply idle_in_flight in Hp.
    by rewrite Hp in Hi. }
  destruct (is_stopping a); [by apply enter_finally_core|].
  destruct (is_draining a).
  { destruct (negb (idle r)) eqn:Ei; split; try done; cbn; [by rewrite (Hbusy eq_refl) in H3|].
    apply negb_false_iff, idle_in_flight in Ei. done. }
  destruct (paused_now a r).
  { destruct (negb (idle r)) eqn:Ei; split; try done; cbn; [by rewrite (Hbusy eq_refl) in H3|].
    apply negb_false_iff, idle_in_flight in Ei. done. }
  destruct (_pause_parked (runner r) && rc_resume_after_pause cfg) eqn:Er.
  - apply andb_true_iff in Er as [Er _]. split; [done|]. cbn. split; [done|].
    apply Hp. congruence.
  - by apply start_fetch_core.
Qed.

Lemma fetch_nothing_core a raising r :
  flags true false false r → (in_flight r ≤ rc_concurrency cfg)%nat →
  core cfg (fetch_returns_nothing a raising r).
Proof.
  intros (H1 & H2 & H3) Hc. unfold fetch_returns_nothing.
  destruct raising; [by apply enter_finally_core | by apply no_deliveries_core].
Qed.

Lemma release_all_core a ds raising r :
  flags true false false r → (in_flight r ≤ rc_concurrency cfg)%nat → core cfg (release_all a ds raising r).
Proof. intros Hf Hc. destruct ds; [by apply fetch_nothing_core | by split]. Qed.

Lemma fetch_raised_core a e raising r :
  flags true false false r → (in_flight r ≤ rc_concurrency cfg)%nat → core cfg (fetch_raised cfg a e raising r).
Proof.
  intros Hf Hc. unfold fetch_raised. destruct (exn_cls e); try by apply enter_finally_core.
  destruct (retryable_kind kind); [|by apply enter_finally_core].
  destruct (_ || _); [by apply fetch_nothing_core | by split].
Qed.

Lemma resolve_core a res raising r :
  flags true false false r → (in_flight r ≤ rc_concurrency cfg)%nat →
  core cfg (resolve_and_release cfg a res raising r).
Proof. intros Hf Hc. destruct res; [by apply release_all_core | by apply fetch_raised_core]. Qed.

Lemma core_fetching limit stop res r :
  core cfg r → position r = Fetching limit stop res → flags true false false r.
Proof. intros [_ H] E. rewrite E in H. destruct res as [[]|]; [apply H | done | apply H]. Qed.

Lemma fetch_woken_core a limit stop res r r' :
  core cfg r → position r = Fetching limit stop res →
  fetch_woken cfg a limit stop res r = Some r' → core cfg r'.
Proof.
  intros Hc E. pose proof (core_fetching _ _ _ _ Hc E) as Hf. destruct Hc as [Hc Hp].
  unfold fetch_woken. destruct stop.
  - destruct (rc_fetch_is_cancel_safe cfg).
    + intros <-%(inj Some). apply fetch_nothing_core; by destruct res as [[]|].
    + destruct res as [res|]; intros <-%(inj Some); [by apply resolve_core | by split].
  - destruct res as [[ds|e]|]; [|intros <-%(inj Some); by apply fetch_raised_core|done].
    rewrite E in Hp. destruct Hp as [_ Hn].
    destruct (_ || _); [intros <-%(inj Some); by apply release_all_core|].
    destruct ds; intros <-%(inj Some); [by apply fetch_nothing_core|].
    split; [done|]. cbn. destruct Hf as (H1 & H2 & H3). done.
Qed.

Lemma fresh_batch_spec limit ds r :
  fresh_batch limit ds r = true ↔ length ds ≤ limit ∧ NoDup (ds ++ fetched r).
Proof. unfold fresh_batch. rewrite andb_true_iff, Nat.leb_le, bool_decide_eq_true. done. Qed.

Lemma set_inflight_core ds r :
  core cfg r → length ds ≤ in_flight r → core cfg (with_runner (set_inflight ds) r).
Proof.
  intros [Hc Hp] Hl. unfold core, in_flight, flags in *. cbn. split; [lia|].
  destruct (position r) as [| | | | | | ? ? [[|]|] | | | | | |]; intuition lia.
Qed.

Lemma step_core a act r r' : core cfg r → step cfg a act r = Some r' → core cfg r'.
Proof.
  intros Hcore. pose proof Hcore as [Hc Hp]. destruct act; cbn [step].
  - (* Wake *)
    unfold wake. destruct (position r) as [| | | | | |limit stop res|limit raising|e raising|ds all raising|ds|exc|exc] eqn:E.
    + intros <-%(inj Some). by apply (loop_top_core a false).
    + intros <-%(inj Some). by apply (loop_top_core a false).
    + destruct (default false _); [|done]. intros <-%(inj Some). by apply enter_finally_core.
    + destruct Hp as [Hf Hi]. destruct (default false _); intros <-%(inj Some);
        [by apply enter_finally_core | by apply (loop_top_core a true)].
    + destruct Hp as [(H1 & H2 & H3) Hi]. intros <-%(inj Some). by apply start_fetch_core.
    + intros <-%(inj Some). by apply (loop_top_core a false).
    + intros Hw. eapply fetch_woken_core; [|exact E|exact Hw]. done.
    + done.
    + intros <-%(inj Some). by apply fetch_nothing_core.
    + destruct Hp as [Hf _]. destruct ds as [|d ds]; [done|].
      destruct ds; intros <-%(inj Some); [by apply fetch_nothing_core | by split].
    + destruct Hp as [Hf Hn]. intros <-%(inj Some). apply (loop_top_core a false); [done | done |].
      unfold in_flight in *. cbn. rewrite length_app. done.
    + destruct (idle r); [|done]. by intros <-%(inj Some).
    + done.
  - (* Raise *)
    unfold raise. destruct (position r) eqn:E; try done.
    + intros <-%(inj Some). by apply enter_finally_core.
    + destruct Hp as [Hf _]. destruct ds as [|d ds]; [done|]. destruct (is_exception e); [|done].
      destruct ds; intros <-%(inj Some); [by apply fetch_nothing_core | by split].
    + intros <-%(inj Some). by apply enter_finally_core.
  - destruct (position r) eqn:E; try done. destruct stop; [done|]. destruct (stop_fetching _ _); [|done].
    by intros <-%(inj Some).
  - unfold fetch_ends. destruct (position r) eqn:E; try done.
    + destruct res0; [done|]. destruct (fresh_batch _ _ _) eqn:Ef; [|done]. intros <-%(inj Some).
      apply fresh_batch_spec in Ef as [Hl _]. destruct Hp as [Hf Hn]. split; [done|]. cbn.
      destruct res as [ds|e]; [|done]. split; [done|]. unfold in_flight in *. cbn in *. lia.
    + destruct (fresh_batch _ _ _); [|done]. intros <-%(inj Some). by apply resolve_core.
  - unfold delivery_ends. destruct (bool_decide _); [|done]. intros <-%(inj Some).
    apply set_inflight_core; [done|]. apply List.filter_length_le.
  - destruct (position r); try done. destruct (rc_shutdown_timeout_s cfg); [|done]. by intros <-%(inj Some).
  - unfold cancel. destruct (position r) eqn:E; try done; try (intros <-%(inj Some); by apply enter_finally_core).
    + destruct res as [res|].
      * intros <-%(inj Some). apply resolve_core; [by eapply core_fetching | done].
      * destruct Hp as [Hf _]. destruct (rc_fetch_is_cancel_safe cfg); intros <-%(inj Some);
          [by apply fetch_nothing_core | by split].
    + destruct (fresh_batch _ _ _); [|done]. intros <-%(inj Some). by apply fetch_nothing_core.
    + destruct raising; intros <-%(inj Some); [by apply fetch_nothing_core | by apply fetch_raised_core].
    + destruct Hp as [Hf _].
      destruct raising; intros <-%(inj Some); [by apply fetch_nothing_core | by apply release_all_core].
    + intros <-%(inj Some). by split.
Qed.
End Core.

(** ** Deliveries *)

(** What the runner holds: fetched, neither started nor given back. *)
Definition held (p : pc) : list Z :=
  match p with
  | Fetching _ _ (Some (Ok ds)) | Emitting ds => ds
  | Releasing ds _ _ => ds
  | _ => []
  end.

Definition lost_ids (r : running) : list Z := (lost r).*1.

(** Every delivery handed out is accounted for, and what was started was
    neither released, dropped nor kept. *)
Record ledger (h : list Z) (r : running) : Prop := {
  lg_fetched : NoDup (fetched r);
  lg_started : NoDup (started r);
  lg_inflight : NoDup (_inflight (runner r));
  lg_running : ∀ d, d ∈ _inflight (runner r) → d ∈ started r;
  lg_accounted : ∀ d, d ∈ fetched r → d ∈ started r ∨ d ∈ released r ∨ d ∈ h ∨ d ∈ lost_ids r;
  lg_known : ∀ d, d ∈ h ∨ d ∈ released r ∨ d ∈ lost_ids r → d ∈ fetched r;
  lg_once : ∀ d, d ∈ started r → d ∈ fetched r ∧ (d ∉ released r) ∧ (d ∉ h) ∧ (d ∉ lost_ids r);
}.

(** A batch that may still be started. *)
Definition startable (ds : list Z) (r : running) : Prop :=
  NoDup ds ∧ ∀ d, d ∈ ds → (d ∉ released r) ∧ (d ∉ lost_ids r).

Definition books (r : running) : Prop :=
  ledger (held (position r)) r ∧
  match position r with
  | Fetching _ _ (Some (Ok ds)) | Emitting ds => startable ds r
  | Releasing ds all _ => ds ⊆ all ∧ ∀ d, d ∈ all → d ∈ fetched r ∧ d ∉ started r
  | _ => True
  end.

Section Books.
Context (cfg : runner_config).

(** A position that holds nothing. *)
Definition empty_handed (p : pc) : bool :=
  match p with
  | Fetching _ _ (Some (Ok _)) | Emitting _ | Releasing _ _ _ => false
  | _ => true
  end.

Lemma ledger_books r : empty_handed (position r) = true → ledger [] r → books r.
Proof.
  intros Hh Hl. unfold books. by destruct (position r) as [| | | | | | ? ? [[]|] | | | ds all | | |].
Qed.

(** The code between the awaits moves no delivery. *)
Definition same (r r' : running) : Prop :=
  fetched r' = fetched r ∧ started r' = started r ∧ released r' = released r ∧
  lost r' = lost r ∧ _inflight (runner r') = _inflight (runner r).

Lemma same_ledger h r r' : same r r' → ledger h r → ledger h r'.
Proof.
  intros (E1 & E2 & E3 & E4 & E5) []. constructor; unfold lost_ids in *; rewrite ?E1, ?E2, ?E3, ?E4, ?E5; done.
Qed.

(** A part that ends empty-handed and moves no delivery. *)
Definition moves_on (r r' : running) : Prop := empty_handed (position r') = true ∧ same r r'.

Lemma moves_on_books r r' : moves_on r r' → ledger [] r → books r'.
Proof. intros [He Hs] Hl. apply ledger_books; [done|]. by eapply same_ledger. Qed.

Lemma enter_finally_moves exc r : moves_on r (enter_finally exc r).
Proof. unfold enter_finally. split; [|done]. cbn. by destruct (idle _). Qed.

Lemma no_deliveries_moves a r : moves_on r (no_deliveries a r).
Proof.
  unfold no_deliveries. destruct (is_stopping a); [apply enter_finally_moves|].
  split; [|done]. cbn. by destruct (idle r).
Qed.

Lemma start_fetch_moves a r : moves_on r (start_fetch cfg a r).
Proof.
  unfold start_fetch. destruct (_ =? 0); [done|]. destruct (_ || _); [apply no_deliveries_moves | done].
Qed.

Lemma loop_top_moves a r : moves_on r (loop_top cfg a r).
Proof.
  unfold loop_top. destruct (is_stopping a); [apply enter_finally_moves|].
  destruct (is_draining a); [by destruct (negb _)|]. destruct (paused_now a r); [by destruct (negb _)|].
  destruct (_ && _); [done|]. destruct (start_fetch_moves a (with_runner (_set_pause_parked false)
    (with_runner (_set_drain_parked false) r))) as [He Hs]. split; [done | exact Hs].
Qed.

Lemma fetch_nothing_moves a raising r : moves_on r (fetch_returns_nothing a raising r).
Proof.
  unfold fetch_returns_nothing. destruct raising.
  - by destruct (enter_finally_moves (Some e) (with_runner (_set_fetching false) r)).
  - by destruct (no_deliveries_moves a (with_runner (_set_fetching false) r)).
Qed.

Lemma fetch_raised_moves a e raising r : moves_on r (fetch_raised cfg a e raising r).
Proof.
  assert (moves_on r (enter_finally (Some e) (with_runner (_set_fetching false) r))) as H
    by by destruct (enter_finally_moves (Some e) (with_runner (_set_fetching false) r)).
  unfold fetch_raised. destruct (exn_cls e); try exact H. destruct (retryable_kind kind); [|exact H].
  destruct (_ || _); [apply fetch_nothing_moves | done].
Qed.

(** Moves of deliveries between the books. *)
Lemma ledger_drop ds l h h' r :
  ledger h r → (∀ d, d ∈ h ↔ d ∈ h' ∨ d ∈ ds) → ledger h' (drop ds l r).
Proof.
  intros [] Hh. assert (∀ d, d ∈ lost_ids (drop ds l r) ↔ d ∈ ds ∨ d ∈ lost_ids r) as Hl.
  { intros d. unfold lost_ids, drop. cbn. rewrite fmap_app, elem_of_app, <- list_fmap_compose.
    assert ((fst ∘ (λ d : Z, (d, l))) <$> ds = ds) as -> by (rewrite <- (list_fmap_id ds) at 2; done).
    done. }
  constructor; try done; intros d; rewrite ?Hl; cbn.
  - intros Hd%lg_accounted0. rewrite Hh in Hd. tauto.
  - intros Hd. apply lg_known0. rewrite Hh. tauto.
  - intros Hd%lg_once0. rewrite Hh in Hd. tauto.
Qed.

Lemma ledger_hand_out ds r :
  ledger [] r → NoDup (ds ++ fetched r) → ledger ds (hand_out ds r) ∧ startable ds (hand_out ds r).
Proof.
  intros [] (Hd & Hdis & Hf)%NoDup_app. split.
  - constructor; unfold lost_ids in *; cbn in *; try done.
    + by apply NoDup_app.
    + intros d [Hin|Hin]%elem_of_app; [tauto|]. apply lg_accounted0 in Hin.
      destruct Hin as [?|[?|[?%not_elem_of_nil|?]]]; tauto.
    + intros d Hin. apply elem_of_app. destruct Hin as [Hin|Hin]; [by left|]. right. apply lg_known0. tauto.
    + intros d Hs. apply lg_once0 in Hs as (H1 & H2 & H3 & H4). split_and!; try done.
      * apply elem_of_app. by right.
      * intros Hin. by apply (Hdis d).
  - split; [done|]. intros d Hin. cbn. split; intros Hr; apply (Hdis d Hin), lg_known0; tauto.
Qed.

Lemma ledger_release d ds r :
  ledger (d :: ds) r → ledger ds (release d r).
Proof.
  intros []. constructor; unfold lost_ids in *; cbn in *; try done.
  - intros x Hx%lg_accounted0. rewrite elem_of_cons in Hx. rewrite elem_of_cons. tauto.
  - intros x Hx. apply lg_known0. rewrite elem_of_cons in Hx. rewrite elem_of_cons. tauto.
  - intros x Hx%lg_once0. rewrite elem_of_cons in Hx |- *. tauto.
Qed.

Lemma ledger_start ds r :
  ledger ds r → startable ds r → ledger [] (start_deliveries ds r).
Proof.
  intros [] [Hn Hs]. assert (∀ d, d ∈ ds → d ∉ started r) as Hds
    by (intros d Hd Hx; destruct (lg_once0 d Hx) as (_ & _ & Hh & _); exact (Hh Hd)).
  constructor; unfold lost_ids in *; cbn in *; try done.
  - apply NoDup_app. split_and!; [done | | done]. intros d Hd. by apply Hds.
  - apply NoDup_app. split_and!; [done | | done]. intros d Hd Hx. exact (Hds d Hx (lg_running0 d Hd)).
  - intros d [Hd|Hd]%elem_of_app; apply elem_of_app; [right; by apply lg_running0 | by left].
  - intros d Hd%lg_accounted0. rewrite elem_of_app. tauto.
  - intros d [?%not_elem_of_nil|Hd]; [done|]. apply lg_known0. tauto.
  - intros d [Hd|Hd]%elem_of_app.
    + destruct (Hs d Hd). split_and!; try done; [apply lg_known0; by left | apply not_elem_of_nil].
    + apply lg_once0 in Hd as (? & ? & ? & ?). split_and!; try done. apply not_elem_of_nil.
Qed.

Lemma release_all_books a ds raising r : ledger ds r → books (release_all a ds raising r).
Proof.
  intros Hl. unfold release_all. destruct ds as [|d ds].
  - by eapply moves_on_books; [apply fetch_nothing_moves|].
  - split; [by eapply same_ledger; [|exact Hl]|]. cbn. split; [done|]. intros x Hx.
    split; [apply (lg_known _ _ Hl); by left|]. intros Hs. by apply (lg_once _ _ Hl) in Hs as (_ & _ & ? & _).
Qed.

Lemma resolve_books a res raising r :
  ledger (match res with Ok ds => ds | Err _ => [] end) r →
  books (resolve_and_release cfg a res raising r).
Proof.
  intros Hl. destruct res as [ds|e]; [by apply release_all_books|].
  by eapply moves_on_books; [apply fetch_raised_moves|].
Qed.

Lemma fetching_ledger limit stop res r :
  books r → position r = Fetching limit stop res →
  ledger (match res with Some (Ok ds) => ds | _ => [] end) r.
Proof. intros [Hl _] E. rewrite E in Hl. by destruct res as [[]|]. Qed.

Lemma fetch_woken_books a limit stop res r r' :
  books r → position r = Fetching limit stop res →
  fetch_woken cfg a limit stop res r = Some r' → books r'.
Proof.
  intros Hb E. pose proof (fetching_ledger _ _ _ _ Hb E) as Hl. unfold fetch_woken. destruct stop.
  - destruct (rc_fetch_is_cancel_safe cfg).
    + intros <-%(inj Some). eapply moves_on_books; [apply fetch_nothing_moves|].
      destruct res as [[ds|]|]; [|done..]. eapply ledger_drop; [exact Hl|]. intros d.
      split; [by right | by intros [?%not_elem_of_nil|]].
    + destruct res as [res|]; intros <-%(inj Some); [apply resolve_books; by destruct res|].
      apply ledger_books; [done|]. by eapply same_ledger; [|exact Hl].
  - destruct res as [[ds|e]|]; [| |done].
    + destruct (_ || _); [intros <-%(inj Some); by apply release_all_books|].
      destruct Hb as [_ Hs]. rewrite E in Hs.
      destruct ds; intros <-%(inj Some).
      * by eapply moves_on_books; [apply fetch_nothing_moves|].
      * split; [by eapply same_ledger; [|exact Hl] | exact Hs].
    + intros <-%(inj Some). by eapply moves_on_books; [apply fetch_raised_moves|].
Qed.

(** A step of [_release_unstarted_deliveries] that took the head off the
    list. *)
Lemma releasing_books a d ds all raising r r' :
  position r = Releasing (d :: ds) all raising → books r →
  fetched r' = fetched r → started r' = started r → ledger ds r' →
  books (match ds with [] => fetch_returns_nothing a raising r' | _ => at_pc (Releasing ds all raising) r' end).
Proof.
  intros E [_ Hb] Ef Es Hl. rewrite E in Hb. destruct Hb as [Hsub Hall]. destruct ds as [|x ds].
  - by eapply moves_on_books; [apply fetch_nothing_moves|].
  - split; [by eapply same_ledger; [|exact Hl]|]. cbn. rewrite Ef, Es. split; [|done].
    intros y Hy. apply Hsub. by right.
Qed.

Lemma fresh_hand_out limit ds r :
  ledger [] r → fresh_batch limit ds r = true →
  ledger ds (hand_out ds r) ∧ startable ds (hand_out ds r).
Proof. intros Hl [_ Hn]%fresh_batch_spec. by apply ledger_hand_out. Qed.

Lemma drop_nothing_left ds l r : ledger ds r → ledger [] (drop ds l r).
Proof.
  intros Hl. eapply ledger_drop; [exact Hl|]. intros d. split; [by right | by intros [?%not_elem_of_nil|]].
Qed.

Lemma delivery_ends_books d r r' : books r → delivery_ends d r = Some r' → books r'.
Proof.
  intros [Hl Hb]. unfold delivery_ends. destruct (bool_decide _); [|done]. intros <-%(inj Some).
  split; [|exact Hb]. destruct Hl. constructor; try done; cbn.
  - by apply NoDup_ListNoDup, List.NoDup_filter, NoDup_ListNoDup.
  - intros x. rewrite list_elem_of_In, filter_In, <- list_elem_of_In. intros [Hx _]. by apply lg_running0.
Qed.

Lemma wake_books a r r' : books r → wake cfg a r = Some r' → books r'.
Proof.
  intros Hb. pose proof Hb as [Hl _]. unfold wake.
  destruct (position r) as [| | | | | |limit stop res|limit raising|e raising|ds all raising|ds|exc|exc] eqn:E;
    cbn [held] in Hl; try done.
  1, 2, 6: intros <-%(inj Some); by eapply moves_on_books; [apply loop_top_moves|].
  - destruct (default false _); [|done]. intros <-%(inj Some).
    by eapply moves_on_books; [apply enter_finally_moves|].
  - destruct (default false _); intros <-%(inj Some);
      (eapply moves_on_books; [first [apply enter_finally_moves | apply loop_top_moves]|]; done).
  - intros <-%(inj Some). eapply moves_on_books; [apply start_fetch_moves|].
    by eapply same_ledger; [|exact Hl].
  - intros Hw. by eapply fetch_woken_books.
  - intros <-%(inj Some). by eapply moves_on_books; [apply fetch_nothing_moves|].
  - destruct ds as [|d ds]; [done|]. intros <-%(inj Some).
    apply (releasing_books a d ds all raising r); try done. by apply ledger_release.
  - intros <-%(inj Some). destruct Hb as [_ Hs]. rewrite E in Hs.
    eapply moves_on_books; [apply loop_top_moves | by apply ledger_start].
  - destruct (idle r); [|done]. intros <-%(inj Some). apply ledger_books; [done|].
    by eapply same_ledger; [|exact Hl].
Qed.

Lemma raise_books a e r r' : books r → raise a e r = Some r' → books r'.
Proof.
  intros Hb. pose proof Hb as [Hl _]. unfold raise. destruct (position r) eqn:E; try done.
  - intros <-%(inj Some). by eapply moves_on_books; [apply enter_finally_moves|].
  - destruct ds as [|d ds]; [done|]. destruct (is_exception e); [|done].
    intros <-%(inj Some). apply (releasing_books a d ds all raising r); try done.
    eapply ledger_drop; [exact Hl|]. intros x. cbn. rewrite elem_of_cons, list_elem_of_singleton. tauto.
  - intros <-%(inj Some). eapply moves_on_books; [apply enter_finally_moves|]. by apply drop_nothing_left.
Qed.

Lemma cancel_books a ds0 r r' : books r → cancel cfg a ds0 r = Some r' → books r'.
Proof.
  intros Hb. pose proof Hb as [Hl _]. unfold cancel.
  destruct (position r) as [| | | | | |limit stop res|limit raising|e raising|ds all raising|ds|exc|exc] eqn:E;
    cbn [held] in Hl; try done;
    try (intros <-%(inj Some); by eapply moves_on_books; [apply enter_finally_moves|]).
  - destruct res as [res|]; [intros <-%(inj Some); by apply resolve_books|].
    destruct (rc_fetch_is_cancel_safe cfg); intros <-%(inj Some);
      [by eapply moves_on_books; [apply fetch_nothing_moves|]|].
    apply ledger_books; [done|]. by eapply same_ledger; [|exact Hl].
  - destruct (fresh_batch _ _ _) eqn:Ef; [|done]. intros <-%(inj Some).
    destruct (fresh_hand_out limit ds0 r Hl Ef) as [Hl' _].
    eapply moves_on_books; [apply fetch_nothing_moves|]. by apply drop_nothing_left.
  - destruct raising; intros <-%(inj Some).
    + by eapply moves_on_books; [apply fetch_nothing_moves|].
    + by eapply moves_on_books; [apply fetch_raised_moves|].
  - destruct raising; intros <-%(inj Some).
    + eapply moves_on_books; [apply fetch_nothing_moves|]. by apply drop_nothing_left.
    + apply release_all_books. destruct Hb as [_ Hs]. rewrite E in Hs. destruct Hs as [Hsub Hall].
      destruct Hl. constructor; try done.
      * intros x Hx%lg_accounted0. specialize (Hsub x). tauto.
      * intros x [Hx|Hx]; [by apply Hall | apply lg_known0; tauto].
      * intros x Hx. destruct (lg_once0 x Hx) as (? & ? & ? & ?). split_and!; try done.
        intros Hin. by apply Hall in Hin as [_ ?].
  - intros <-%(inj Some). eapply moves_on_books; [apply enter_finally_moves|]. by apply drop_nothing_left.
  - intros <-%(inj Some). apply ledger_books; [done|]. by eapply same_ledger; [|exact Hl].
Qed.

Lemma fetch_ends_books a res r r' : books r → fetch_ends cfg a res r = Some r' → books r'.
Proof.
  intros Hb. pose proof Hb as [Hl _]. unfold fetch_ends. destruct (position r) eqn:E; try done.
  - destruct res0; [done|]. cbn [held] in Hl. destruct (fresh_batch _ _ _) eqn:Ef; [|done]. intros <-%(inj Some).
    destruct (fresh_hand_out _ _ r Hl Ef) as [Hl' Hs]. destruct res as [ds|e].
    + split; [by eapply same_ledger; [|exact Hl'] | exact Hs].
    + apply ledger_books; [done|]. by eapply same_ledger; [|exact Hl'].
  - destruct (fresh_batch _ _ _) eqn:Ef; [|done]. intros <-%(inj Some).
    by apply resolve_books, (fresh_hand_out _ _ r Hl Ef).
Qed.

Lemma step_books a act r r' : books r → step cfg a act r = Some r' → books r'.
Proof.
  intros Hb. destruct act; cbn [step].
  - by apply wake_books.
  - by apply raise_books.
  - destruct Hb as [Hl Hs]. destruct (position r) eqn:E; try done. destruct stop; [done|].
    destruct (stop_fetching _ _); [|done]. intros <-%(inj Some). by split; [eapply same_ledger; [|exact Hl]|].
  - by apply fetch_ends_books.
  - by apply delivery_ends_books.
  - destruct Hb as [Hl Hs]. destruct (position r) eqn:E; try done. destruct (rc_shutdown_timeout_s cfg); [|done].
    intros <-%(inj Some). apply ledger_books; [done|]. by eapply same_ledger; [|exact Hl].
  - by apply cancel_books.
Qed.
End Books.
