(* ===== verification/RunnerTheorems.v ===== *)
(** * Properties of the runners of an app

    Over every interleaving of requests, source answers, delivery ends and
    cancellations. *)

From stdpp Require Import base option list strings numbers gmap.
From Stdlib Require Import ZArith Lia.
From S2P Require Import Prelude PyFloat Value Resilience Invoke Retry Task AppControl Runner RunnerInvariant.

(** ** Invariants of the system *)

Definition runner_ok (cr : runner_config * running) : Prop := core cr.1 cr.2 ∧ books cr.2.

Definition system_ok (s : system) : Prop := Forall runner_ok (sys_runners s).

Lemma new_running_ok cfg t : runner_ok (cfg, new_running t).
Proof.
  split.
  - split; [cbn; lia | done].
  - apply ledger_books; [done|]. constructor; cbn; [constructor | constructor | constructor | ..];
      intros d; unfold lost_ids; cbn; rewrite ?elem_of_nil; tauto.
Qed.

Lemma initial_ok tasks rs : system_ok (initial tasks rs).
Proof. apply Forall_fmap, Forall_forall. intros [cfg t] _. apply new_running_ok. Qed.

Lemma sys_step_ok s l s' : system_ok s → sys_step s l s' → system_ok s'.
Proof.
  intros Hok Hs. destruct Hs; cbn [sys_runners with_app]; try done.
  - destruct (Forall_lookup_1 _ _ _ _ Hok H) as [Hc Hb]. cbn in Hc, Hb.
    apply Forall_insert; [done|]. split; [by eapply step_core | by eapply step_books].
  - by apply Forall_delete.
  - apply Forall_app. split; [done|]. constructor; [apply new_running_ok | done].
Qed.

Lemma sys_steps_ok s ls s' : system_ok s → sys_steps s ls s' → system_ok s'.
Proof. intros Hok Hs. induction Hs; [done|]. eauto using sys_step_ok. Qed.

Lemma reachable_ok tasks rs ls s i cfg r :
  sys_steps (initial tasks rs) ls s → sys_runners s !! i = Some (cfg, r) → core cfg r ∧ books r.
Proof.
  intros Hs Hi. pose proof (sys_steps_ok _ _ _ (initial_ok tasks rs) Hs) as Hok.
  exact (Forall_lookup_1 _ _ _ _ Hok Hi).
Qed.

(** ** Losing nothing *)

(** No cancellation of a runner, no exception of user code it awaits. *)
Definition undisturbed (l : label) : bool :=
  match l with LRunner _ (Cancel _) | LRunner _ (Raise _) => false | _ => true end.

Lemma enter_finally_lost exc r : lost (enter_finally exc r) = lost r.
Proof. done. Qed.

(** The code between the awaits drops nothing. *)
Lemma moves_on_lost r r' : moves_on r r' → lost r' = lost r.
Proof. by intros [_ (_ & _ & _ & H & _)]. Qed.

Lemma resolve_lost cfg a res raising r : lost (resolve_and_release cfg a res raising r) = lost r.
Proof.
  destruct res as [[|d ds]|e]; cbn; [apply moves_on_lost, fetch_nothing_moves | done |].
  apply moves_on_lost, fetch_raised_moves.
Qed.

Lemma step_lossless cfg a act r r' :
  rc_fetch_is_cancel_safe cfg = false →
  match act with Cancel _ | Raise _ => False | _ => True end →
  step cfg a act r = Some r' → lost r' = lost r.
Proof.
  intros Hsafe Hact. destruct act; cbn [step]; try done.
  - unfold wake. destruct (position r) eqn:E; try done.
    1, 2, 6: intros <-%(inj Some); apply moves_on_lost, loop_top_moves.
    + destruct (default false _); [|done]. by intros <-%(inj Some).
    + destruct (default false _); intros <-%(inj Some); [done | apply moves_on_lost, loop_top_moves].
    + intros <-%(inj Some).
      by rewrite (moves_on_lost _ _ (start_fetch_moves cfg a (with_runner (_set_pause_parked false) r))).
    + unfold fetch_woken. rewrite Hsafe. destruct stop, res as [[ds|e]|]; try done; intros Hw.
      * apply (inj Some) in Hw as <-. apply resolve_lost.
      * apply (inj Some) in Hw as <-. apply resolve_lost.
      * by apply (inj Some) in Hw as <-.
      * destruct (_ || _); [apply (inj Some) in Hw as <-; apply (resolve_lost cfg a (Ok ds))|].
        destruct ds; apply (inj Some) in Hw as <-; [apply moves_on_lost, fetch_nothing_moves | done].
      * apply (inj Some) in Hw as <-. apply moves_on_lost, fetch_raised_moves.
    + intros <-%(inj Some). apply moves_on_lost, fetch_nothing_moves.
    + destruct ds as [|d ds]; [done|]. intros <-%(inj Some). destruct ds; [|done].
      by rewrite (moves_on_lost _ _ (fetch_nothing_moves a raising (release d r))).
    + intros <-%(inj Some).
      by rewrite (moves_on_lost _ _ (loop_top_moves cfg a (start_deliveries ds r))).
    + destruct (idle r); [|done]. by intros <-%(inj Some).
  - destruct (position r); try done. destruct stop; [done|]. destruct (stop_fetching _ _); [|done].
    by intros <-%(inj Some).
  - unfold fetch_ends. destruct (position r); try done.
    + destruct res0; [done|]. destruct (fresh_batch _ _ _); [|done]. by intros <-%(inj Some).
    + destruct (fresh_batch _ _ _); [|done]. intros <-%(inj Some). by rewrite resolve_lost.
  - unfold delivery_ends. destruct (bool_decide _); [|done]. by intros <-%(inj Some).
  - destruct (position r); try done. destruct (rc_shutdown_timeout_s cfg); [|done]. by intros <-%(inj Some).
Qed.

Definition lossless (cr : runner_config * running) : Prop :=
  rc_fetch_is_cancel_safe cr.1 = false → lost cr.2 = [].

Lemma sys_step_lossless s l s' :
  undisturbed l = true → Forall lossless (sys_runners s) → sys_step s l s' → Forall lossless (sys_runners s').
Proof.
  intros Hu Hl Hs. destruct Hs; cbn [sys_runners with_app]; try done.
  - pose proof (Forall_lookup_1 _ _ _ _ Hl H) as Hr. apply Forall_insert; [done|].
    intros Hsafe. cbn. rewrite (step_lossless cfg (sys_app s) act r r'); [by apply Hr | done | | done].
    by destruct act.
  - by apply Forall_delete.
  - apply Forall_app. by split; [|constructor].
Qed.

Lemma steps_lossless s ls s' :
  forallb undisturbed ls = true → Forall lossless (sys_runners s) → sys_steps s ls s' →
  Forall lossless (sys_runners s').
Proof.
  intros Hu Hl Hs. induction Hs; [done|]. apply andb_true_iff in Hu as [Hu1 Hu2].
  eauto using sys_step_lossless.
Qed.

(** ** Draining *)

(** The runner neither holds, fetches nor runs anything. *)
Definition at_rest (cr : runner_config * running) : Prop :=
  _inflight (runner cr.2) = [] ∧
  match position cr.2 with Ready | DrainParked | Finished _ => True | _ => False end.

Lemma enter_finally_rest cfg exc r : _inflight (runner r) = [] → at_rest (cfg, enter_finally exc r).
Proof. intros H. split; [done|]. unfold enter_finally, idle. cbn. by rewrite H. Qed.

Lemma loop_top_rest cfg a r :
  _drain_requested a = true → _inflight (runner r) = [] → at_rest (cfg, loop_top cfg a r).
Proof.
  intros Hd H. unfold loop_top. destruct (is_stopping a) eqn:Es; [by apply enter_finally_rest|].
  unfold is_draining. rewrite Hd, Es. cbn [andb negb]. unfold idle. rewrite H. by split.
Qed.

Lemma step_rest cfg a act r r' :
  _drain_requested a = true → at_rest (cfg, r) → step cfg a act r = Some r' → at_rest (cfg, r').
Proof.
  intros Hd [Hi Hp]. cbn in Hi, Hp. destruct act; cbn [step].
  - unfold wake. destruct (position r) eqn:E; try done.
    + intros <-%(inj Some). by apply loop_top_rest.
    + destruct (default false _); [|done]. intros <-%(inj Some). by apply enter_finally_rest.
  - unfold raise. by destruct (position r).
  - by destruct (position r).
  - unfold fetch_ends. by destruct (position r).
  - unfold delivery_ends. rewrite Hi. rewrite bool_decide_false; [done|]. apply not_elem_of_nil.
  - by destruct (position r).
  - unfold cancel. destruct (position r) eqn:E; try done; intros <-%(inj Some); by apply enter_finally_rest.
Qed.

Lemma controls_keep_drain s l s' :
  sys_step s l s' → _drain_requested (sys_app s) = true → _drain_requested (sys_app s') = true.
Proof.
  intros Hs Hd. destruct Hs; cbn [sys_app with_app]; try done.
  - unfold request_shutdown. by destruct (_shutdown (sys_app s)).
  - unfold request_restart, request_shutdown. cbn. by destruct (_shutdown (sys_app s)).
  - by destruct on_loop.
  - unfold request_task_pause, mbind, se_bind, se_get, se_lift, se_modify. cbn.
    destruct (_require_controllable_task _ _); [|done]. by destruct on_loop.
  - unfold request_task_resume, mbind, se_bind, se_get, se_lift, se_modify. cbn.
    destruct (_require_controllable_task _ _); [|done]. by destruct on_loop.
Qed.

Lemma sys_step_rest s l s' :
  _drain_requested (sys_app s) = true → Forall at_rest (sys_runners s) → sys_step s l s' →
  Forall at_rest (sys_runners s').
Proof.
  intros Hd Hr Hs. destruct Hs; cbn [sys_runners with_app]; try done.
  - pose proof (Forall_lookup_1 _ _ _ _ Hr H) as Hr'. apply Forall_insert; [done|]. by eapply step_rest.
  - by apply Forall_delete.
  - apply Forall_app. by split; [|constructor].
Qed.

Lemma steps_rest s ls s' :
  _drain_requested (sys_app s) = true → Forall at_rest (sys_runners s) → sys_steps s ls s' →
  Forall at_rest (sys_runners s').
Proof.
  intros Hd Hr Hs. induction Hs; [done|]. eauto using sys_step_rest, controls_keep_drain.
Qed.

(** What forgotten runners have in flight, they had in flight before. *)
Definition only_left (s s' : system) : Prop :=
  ∀ j r' d, sys_forgotten s' !! j = Some r' → d ∈ _inflight (runner r') →
    ∃ r, sys_forgotten s !! j = Some r ∧ d ∈ _inflight (runner r).

Lemma delivery_ends_left d x r r' :
  delivery_ends d r = Some r' → x ∈ _inflight (runner r') → x ∈ _inflight (runner r).
Proof.
  unfold delivery_ends. destruct (bool_decide _); [|done]. intros <-%(inj Some). cbn.
  rewrite list_elem_of_In, filter_In, <- list_elem_of_In. by intros [? _].
Qed.

Lemma sys_step_left s l s' : Forall at_rest (sys_runners s) → sys_step s l s' → only_left s s'.
Proof.
  intros Hr Hs. assert (Hsame : ∀ s s', sys_forgotten s' = sys_forgotten s → only_left s s').
  { intros s1 s2 E j r d. rewrite E. eauto. }
  destruct Hs; try (by apply Hsame); intros j' x d'; cbn [sys_forgotten].
  - destruct (Forall_lookup_1 _ _ _ _ Hr H) as [Hi _]. cbn in Hi.
    intros [?|[_ E]]%lookup_app_Some Hd; [eauto|].
    apply list_lookup_singleton_Some in E as [_ <-]. rewrite Hi in Hd. by apply elem_of_nil in Hd.
  - destruct (decide (j = j')) as [->|Hn].
    + rewrite list_lookup_insert_eq by (by eapply lookup_lt_Some). intros [= <-] Hd.
      exists r. split; [done|]. by eapply delivery_ends_left.
    + rewrite list_lookup_insert_ne by done. eauto.
Qed.

Lemma steps_left s ls s' :
  _drain_requested (sys_app s) = true → Forall at_rest (sys_runners s) → sys_steps s ls s' → only_left s s'.
Proof.
  intros Hd Hr Hs. induction Hs as [s|s l s1 ls s2 H1 H2 IH]; [by intros j r d ??; eauto|].
  intros j r d Hj Hin. destruct (IH (controls_keep_drain _ _ _ H1 Hd) (sys_step_rest _ _ _ Hd Hr H1) j r d Hj Hin)
    as (r1 & Hj1 & Hin1).
  by eapply sys_step_left.
Qed.

(** What the status says about the positions. *)
Lemma drained_rest s :
  system_ok s → cs_done (drain_status (sys_app s) (runner ∘ snd <$> sys_runners s)) = true →
  _drain_requested (sys_app s) = true ∧ Forall at_rest (sys_runners s).
Proof.
  intros Hok [Hd Hq]%andb_true_iff. split; [done|]. apply quiescent_spec in Hq.
  rewrite Forall_fmap in Hq. apply Forall_forall. intros [cfg r] Hin.
  unfold system_ok in Hok. rewrite Forall_forall in Hq, Hok. destruct (Hq _ Hin) as (Hi & Hf & Hp). cbn in Hi, Hf, Hp.
  destruct (Hok _ Hin) as [[_ Hc] _]. cbn in Hc. split; [done|]. cbn.
  destruct (position r) as [| | | | | | ? ? [[]|] | | | | | |]; try done;
    unfold flags in Hc; intuition congruence.
Qed.

(** ** A drain can complete *)

(** A sequence of actions of one runner under fixed requests. *)
Fixpoint run (cfg : runner_config) (a : OneStepApp) (acts : list action) (r : running)
    : option running :=
  match acts with
  | [] => Some r
  | act :: acts => r' ← step cfg a act r; run cfg a acts r'
  end.

Section Park.
Context (cfg : runner_config) (a : OneStepApp).
Context (Hdraining : is_draining a = true).

(** Actions that end what the runner waits for. *)
Definition calm (act : action) : bool :=
  match act with Wake | DeliveryEnds _ | FetchEnds _ => true | _ => false end.

Definition can_reach (P : running → Prop) (r : running) : Prop :=
  ∃ acts r', forallb calm acts = true ∧ run cfg a acts r = Some r' ∧ P r'.

Lemma reach_now (P : running → Prop) r : P r → can_reach P r.
Proof. intros HP. by exists [], r. Qed.

Lemma reach_step P act r r1 :
  calm act = true → step cfg a act r = Some r1 → can_reach P r1 → can_reach P r.
Proof.
  intros Hc Hs (acts & r' & Ha & Hr & HP). exists (act :: acts), r'. cbn. by rewrite Hc, Hs.
Qed.

Lemma reach_trans (P Q : running → Prop) r :
  can_reach P r → (∀ r', P r' → can_reach Q r') → can_reach Q r.
Proof.
  intros (acts & r1 & Ha & Hr & HP) HQ. destruct (HQ r1 HP) as (acts2 & r2 & Ha2 & Hr2 & HQ2).
  exists (acts ++ acts2), r2. rewrite forallb_app, Ha, Ha2. split_and!; [done | | done].
  clear Ha HP HQ. revert r Hr. induction acts as [|act acts IH]; intros r Hr; cbn in *.
  - by injection Hr as ->.
  - destruct (step cfg a act r) as [r3|]; [|done]. by apply IH.
Qed.

(** The deliveries in flight end. *)
Lemma finish_all r : can_reach (λ r', position r' = position r ∧ _inflight (runner r') = []) r.
Proof.
  remember (in_flight r) as n eqn:En. revert r En.
  induction n as [n IH] using (well_founded_induction lt_wf). intros r ->.
  destruct (_inflight (runner r)) as [|d ds] eqn:E; [by apply reach_now|].
  pose (r1 := with_runner (set_inflight (List.filter (λ x, negb (x =? d)%Z) (_inflight (runner r)))) r).
  apply (reach_step _ (DeliveryEnds d) r r1); [done | |].
  { cbn. unfold delivery_ends. by rewrite bool_decide_true by (rewrite E; by left). }
  refine (IH (in_flight r1) _ r1 eq_refl). unfold in_flight, r1. cbn. rewrite E. cbn [List.filter].
  rewrite Z.eqb_refl. cbn. pose proof (List.filter_length_le (λ x, negb (x =? d)%Z) ds). lia.
Qed.

Lemma not_stopping : is_stopping a = false.
Proof. unfold is_draining in Hdraining. apply andb_true_iff in Hdraining as [_ H]. by apply negb_true_iff. Qed.

Lemma loop_top_parks r :
  _inflight (runner r) = [] → position (loop_top cfg a r) = DrainParked ∧
  _inflight (runner (loop_top cfg a r)) = [].
Proof.
  intros H. unfold loop_top. rewrite not_stopping, Hdraining. unfold idle. by rewrite H.
Qed.

Definition parked (r : running) : Prop :=
  _inflight (runner r) = [] ∧ (position r = DrainParked ∨ ∃ exc, position r = Finished exc).

(** Positions from which one [Wake] parks an idle runner. *)
Definition nearly_parked (p : pc) : bool :=
  match p with
  | Ready | WaitingInflight | Sleeping | PauseParked | DrainParked | Draining _ | Finished _ => true
  | _ => false
  end.

Lemma nearly_parked_parks r : nearly_parked (position r) = true → can_reach parked r.
Proof.
  intros Hp. eapply reach_trans; [apply finish_all|]. intros r1 [Hp1 Hi].
  assert (default false (_shutdown a) = false) as Hs.
  { pose proof not_stopping as H. unfold is_stopping in H. by apply orb_false_iff in H as [_ ?]. }
  destruct (position r) eqn:E; try done.
  1, 2, 5: apply (reach_step _ Wake r1 (loop_top cfg a r1)); [done | by cbn; unfold wake; rewrite Hp1 |];
    apply reach_now; destruct (loop_top_parks r1 Hi) as [H1 H2]; split; auto.
  - apply reach_now. split; auto.
  - apply (reach_step _ Wake r1 (loop_top cfg a r1)); [done | by cbn; unfold wake; rewrite Hp1, Hs |].
    apply reach_now. destruct (loop_top_parks r1 Hi) as [H1 H2]. split; auto.
  - apply (reach_step _ Wake r1 (at_pc (Finished exc) r1)); [done | |apply reach_now; split; eauto].
    cbn. unfold wake, idle. by rewrite Hp1, Hi.
  - apply reach_now. split; eauto.
Qed.

Lemma no_deliveries_near r : nearly_parked (position (no_deliveries a r)) = true.
Proof. unfold no_deliveries. rewrite not_stopping. cbn. by destruct (idle r). Qed.

Lemma enter_finally_near exc r : nearly_parked (position (enter_finally exc r)) = true.
Proof. cbn. by destruct (idle _). Qed.

Lemma fetch_nothing_near raising r : nearly_parked (position (fetch_returns_nothing a raising r)) = true.
Proof. unfold fetch_returns_nothing. destruct raising; [apply enter_finally_near | apply no_deliveries_near]. Qed.

Lemma releasing_parks ds all raising r :
  position r = Releasing ds all raising → ds ≠ [] → can_reach parked r.
Proof.
  revert r. induction ds as [|d ds IH]; intros r E Hne; [done|].
  destruct ds as [|x ds].
  - apply (reach_step _ Wake r (fetch_returns_nothing a raising (release d r))); [done | by cbn; unfold wake; rewrite E |].
    apply nearly_parked_parks, fetch_nothing_near.
  - apply (reach_step _ Wake r (at_pc (Releasing (x :: ds) all raising) (release d r)));
      [done | by cbn; unfold wake; rewrite E | by apply IH].
Qed.

Lemma release_all_parks ds raising r : can_reach parked (release_all a ds raising r).
Proof.
  destruct ds as [|d ds]; [apply nearly_parked_parks, fetch_nothing_near|].
  by eapply releasing_parks.
Qed.

Lemma fetch_raised_parks e raising r : can_reach parked (fetch_raised cfg a e raising r).
Proof.
  unfold fetch_raised. destruct (exn_cls e); try apply nearly_parked_parks, enter_finally_near.
  destruct (retryable_kind kind); [|apply nearly_parked_parks, enter_finally_near].
  destruct (_ || _); [apply nearly_parked_parks, fetch_nothing_near|].
  eapply (reach_step _ Wake); [done | done |]. apply nearly_parked_parks, fetch_nothing_near.
Qed.

Lemma resolve_parks res raising r : can_reach parked (resolve_and_release cfg a res raising r).
Proof. destruct res; [apply release_all_parks | apply fetch_raised_parks]. Qed.

Lemma fetch_done_parks limit stop res r :
  position r = Fetching limit stop (Some res) → can_reach parked r.
Proof.
  intros E. destruct stop.
  - destruct (rc_fetch_is_cancel_safe cfg) eqn:Es.
    + eapply (reach_step _ Wake); [done | cbn; unfold wake; rewrite E; cbn; by rewrite Es |].
      apply nearly_parked_parks, no_deliveries_near.
    + eapply (reach_step _ Wake); [done | cbn; unfold wake; rewrite E; cbn; by rewrite Es |].
      apply resolve_parks.
  - destruct res as [ds|e]; (eapply (reach_step _ Wake); [done | cbn; unfold wake; rewrite E; cbn |]).
    + by rewrite Hdraining, orb_true_r.
    + apply release_all_parks.
    + done.
    + apply fetch_raised_parks.
Qed.

Lemma empty_batch_fresh limit r : books r → fresh_batch limit [] r = true.
Proof. intros [Hl _]. apply fresh_batch_spec. split; [cbn; lia | apply (lg_fetched _ _ Hl)]. Qed.

Lemma can_park r : core cfg r → books r → can_reach parked r.
Proof.
  intros [Hc Hp] Hb. destruct (position r) as [| | | | | |limit stop res|limit raising|e raising|ds all raising|ds|exc|exc] eqn:E;
    try (apply nearly_parked_parks; by rewrite E).
  - apply (reach_step _ Wake r (start_fetch cfg a (with_runner (_set_pause_parked false) r)));
      [done | by cbn; unfold wake; rewrite E |].
    apply nearly_parked_parks. unfold start_fetch. destruct (_ =? 0); [done|].
    rewrite Hdraining, orb_true_r. apply no_deliveries_near.
  - destruct res as [res|]; [by eapply fetch_done_parks|].
    apply (reach_step _ (FetchEnds (Ok [])) r (at_pc (Fetching limit stop (Some (Ok []))) (hand_out [] r)));
      [done | cbn; unfold fetch_ends; rewrite E; by rewrite empty_batch_fresh | by eapply fetch_done_parks].
  - apply (reach_step _ (FetchEnds (Ok [])) r (resolve_and_release cfg a (Ok []) raising (hand_out [] r)));
      [done | cbn; unfold fetch_ends; rewrite E; by rewrite empty_batch_fresh | apply resolve_parks].
  - eapply (reach_step _ Wake); [done | by cbn; unfold wake; rewrite E |].
    apply nearly_parked_parks, fetch_nothing_near.
  - eapply releasing_parks; [exact E | apply Hp].
  - eapply (reach_step _ Wake); [done | by cbn; unfold wake; rewrite E |].
    apply nearly_parked_parks. unfold loop_top. rewrite not_stopping, Hdraining.
    by destruct (negb _).
Qed.
End Park.

(** ** Properties *)

Definition runners_of (s : system) : list TaskRunner := runner ∘ snd <$> sys_runners s.

(** In every reachable state of an app a runner has at most [concurrency]
    deliveries in flight, and what it reports is true: it reports fetching
    only between the start and the end of a fetch, and parked only when it
    waits with nothing in flight. *)
Theorem runner_reports tasks rs ls s i cfg r :
  sys_steps (initial tasks rs) ls s → sys_runners s !! i = Some (cfg, r) →
  (length (_inflight (runner r)) ≤ rc_concurrency cfg)%nat ∧
  (_drain_parked (runner r) = true → position r = DrainParked ∧ _inflight (runner r) = []) ∧
  (_pause_parked (runner r) = true →
     (position r = PauseParked ∨ position r = Resuming) ∧ _inflight (runner r) = []) ∧
  (_fetching (runner r) = true ↔
     match position r with
     | Fetching _ _ _ | FinishingFetch _ _ | BackingOff _ _ | Releasing _ _ _ => True
     | _ => False
     end).
Proof.
  intros Hs Hi. destruct (reachable_ok tasks rs ls s i cfg r Hs Hi) as [[Hc Hp] _].
  split; [exact Hc|].
  assert (∀ n, in_flight r = n → n = 0 → _inflight (runner r) = []) as Hnil
    by (intros n H ->; by apply nil_length_inv).
  destruct (position r) as [| | | | | | ? ? [[|]|] | | | | | |]; unfold flags in Hp;
    split_and!; try (intros; intuition congruence); intuition eauto.
Qed.

(** Every delivery a source handed out is accounted for in every reachable
    state: it was started, given back, is held by the runner or was dropped;
    no delivery is started twice, and none is started that was given back or
    dropped. *)
Theorem deliveries_accounted tasks rs ls s i cfg r :
  sys_steps (initial tasks rs) ls s → sys_runners s !! i = Some (cfg, r) →
  NoDup (started r) ∧
  (∀ d, d ∈ fetched r → d ∈ started r ∨ d ∈ released r ∨ d ∈ held (position r) ∨ d ∈ (lost r).*1) ∧
  (∀ d, d ∈ started r → d ∈ fetched r ∧ (d ∉ released r) ∧ (d ∉ held (position r)) ∧ (d ∉ (lost r).*1)).
Proof.
  intros Hs Hi. destruct (reachable_ok tasks rs ls s i cfg r Hs Hi) as [_ [Hl _]].
  split_and!; [apply (lg_started _ _ Hl) | apply (lg_accounted _ _ Hl) | apply (lg_once _ _ Hl)].
Qed.

(** C25. A source whose fetch is not cancelled loses nothing: unless a runner
    is cancelled or code it awaits raises, every fetched delivery is started,
    given back or still held by the runner. *)
Theorem no_delivery_lost tasks rs ls s i cfg r :
  sys_steps (initial tasks rs) ls s → forallb undisturbed ls = true →
  sys_runners s !! i = Some (cfg, r) → rc_fetch_is_cancel_safe cfg = false →
  lost r = [] ∧ ∀ d, d ∈ fetched r → d ∈ started r ∨ d ∈ released r ∨ d ∈ held (position r).
Proof.
  intros Hs Hu Hi Hsafe. destruct (reachable_ok tasks rs ls s i cfg r Hs Hi) as [_ [Hb _]].
  assert (Forall lossless (sys_runners (initial tasks rs))) as H0.
  { apply Forall_fmap, Forall_forall. intros [c t] _ _. done. }
  pose proof (Forall_lookup_1 _ _ _ _ (steps_lossless _ _ _ Hu H0 Hs) Hi Hsafe) as Hl. cbn in Hl.
  split; [exact Hl|]. intros d Hd%(lg_accounted _ _ Hb). unfold lost_ids in Hd. rewrite Hl in Hd. cbn in Hd.
  rewrite elem_of_nil in Hd. tauto.
Qed.

(** C26. The drain status tells the truth for good about the runners of the
    app: once it reports drained, none of them ever has a delivery in flight
    or fetches, whatever requests, restarts of runners and answers follow.
    What a runner that was stopped before left in flight, when its deliveries
    outlasted the shutdown timeout or it was cancelled again, the status does
    not see: what is in flight after the report is of that kind, and no
    delivery is added to it. *)
Theorem drained_stays_quiet tasks rs ls s ls' s' :
  sys_steps (initial tasks rs) ls s → cs_done (drain_status (sys_app s) (runners_of s)) = true →
  sys_steps s ls' s' →
  Forall (λ cr, _inflight (runner cr.2) = [] ∧ _fetching (runner cr.2) = false) (sys_runners s')
  ∧ only_left s s'.
Proof.
  intros Hs Hd Hs'. pose proof (sys_steps_ok _ _ _ (initial_ok tasks rs) Hs) as Hok.
  destruct (drained_rest s Hok Hd) as [Hreq Hrest]. split; [|by eapply steps_left].
  pose proof (steps_rest _ _ _ Hreq Hrest Hs') as Hr. pose proof (sys_steps_ok _ _ _ Hok Hs') as Hok'.
  unfold system_ok in Hok'. rewrite Forall_forall in Hr, Hok'. apply Forall_forall. intros [cfg r] Hin.
  destruct (Hr _ Hin) as [Hi Hp], (Hok' _ Hin) as [[_ Hc] _]. split; [exact Hi|]. cbn in Hp, Hc |- *.
  destruct (position r) as [| | | | | | ? ? [[|]|] | | | | | |]; try done; unfold flags in Hc; intuition.
Qed.

(** A drain can always complete: from every reachable state in which a
    drain is requested, each runner is parked or finished, with nothing in
    flight, after the deliveries and the fetch it waits for end. *)
Theorem drain_can_complete tasks rs ls s i cfg r :
  sys_steps (initial tasks rs) ls s → is_draining (sys_app s) = true →
  sys_runners s !! i = Some (cfg, r) →
  ∃ acts r', forallb calm acts = true ∧ run cfg (sys_app s) acts r = Some r' ∧
    _inflight (runner r') = [] ∧ (position r' = DrainParked ∨ ∃ exc, position r' = Finished exc).
Proof.
  intros Hs Hd Hi. destruct (reachable_ok tasks rs ls s i cfg r Hs Hi) as [Hc Hb].
  destruct (can_park cfg (sys_app s) Hd r Hc Hb) as (acts & r' & H1 & H2 & H3 & H4). eauto 10.
Qed.
