(* ===== verification/RunnerDemo.v ===== *)
(** * Concrete runs of a runner

    Witnesses for the properties of [RunnerTheorems], and runs in which a
    fetched delivery is dropped. *)

From stdpp Require Import base option list strings numbers gmap.
From Stdlib Require Import ZArith Lia.
From S2P Require Import Prelude PyFloat Value Resilience Invoke Retry Task AppControl Runner RunnerInvariant RunnerTheorems Delivery.

Lemma steps_app s ls s' ls' s'' : sys_steps s ls s' → sys_steps s' ls' s'' → sys_steps s (ls ++ ls') s''.
Proof. intros H H'. induction H; [done|]. cbn. econstructor; eauto. Qed.

Definition set_running (i : nat) (cfg : runner_config) (r : running) (s : system) : system :=
  {| sys_app := sys_app s; sys_runners := <[i := (cfg, r)]> (sys_runners s);
     sys_forgotten := sys_forgotten s |}.

(** Actions of one runner, as steps of the system. *)
Lemma run_steps s i cfg acts r r' :
  sys_runners s !! i = Some (cfg, r) → run cfg (sys_app s) acts r = Some r' →
  sys_steps s (LRunner i <$> acts) (set_running i cfg r' s).
Proof.
  revert s r. induction acts as [|act acts IH]; intros s r Hi Hr; cbn in Hr.
  - injection Hr as <-. assert (set_running i cfg r s = s) as ->; [|constructor].
    unfold set_running. rewrite list_insert_id by done. by destruct s.
  - destruct (step cfg (sys_app s) act r) as [r1|] eqn:E; [|done]. cbn in Hr |- *.
    econstructor; [by eapply sys_runner|].
    assert (set_running i cfg r' s = set_running i cfg r' (set_running i cfg r1 s)) as ->.
    { unfold set_running. cbn. by rewrite list_insert_insert_eq. }
    apply (IH (set_running i cfg r1 s) r1); [|done].
    cbn. apply list_lookup_insert_eq. by eapply lookup_lt_Some.
Qed.

(** ** A task that ships orders, two at a time *)

Definition demo_entry : TaskEntry :=
  {| te_spec := demo_task; te_source_is_sink := false; te_supports_manual_run := false;
     te_dead_letter_is_source := [false] |}.

Definition demo_runner (cancel_safe : bool) : runner_config :=
  {| rc_concurrency := 2; rc_fetch_is_cancel_safe := cancel_safe; rc_resume_after_pause := false;
     rc_poll_interval_s := f_one; rc_shutdown_timeout_s := None |}.

Definition demo_system (cancel_safe : bool) : system :=
  initial [demo_entry] [(demo_runner cancel_safe, "ship")].

Definition run_or (cfg : runner_config) (a : OneStepApp) (acts : list action) (r : running) : running :=
  default r (run cfg a acts r).

(** One delivery is started and the next fetch begins; a drain is requested
    while it runs, its delivery is given back and the first one ends. *)
Definition drain_first : list action := [Wake; FetchEnds (Ok [7%Z]); Wake; Wake].
Definition drain_rest : list action :=
  [StopFetching; Wake; FetchEnds (Ok [8%Z]); Wake; DeliveryEnds 7%Z; Wake].

Definition drain_busy : running :=
  run_or (demo_runner false) (started_app [demo_entry]) drain_first (new_running "ship").
Definition busy_system : system := set_running 0 (demo_runner false) drain_busy (demo_system false).
Definition draining_system : system := with_app (request_drain true (sys_app busy_system)).1 busy_system.
Definition drain_done : running :=
  run_or (demo_runner false) (sys_app draining_system) drain_rest drain_busy.
Definition drained_system : system := set_running 0 (demo_runner false) drain_done draining_system.

Definition drain_labels : list label :=
  (LRunner 0 <$> drain_first) ++ LControl :: (LRunner 0 <$> drain_rest).

Lemma busy_steps : sys_steps (demo_system false) (LRunner 0 <$> drain_first) busy_system.
Proof. apply (run_steps _ _ _ _ (new_running "ship")); vm_compute; reflexivity. Qed.

Lemma draining_steps :
  sys_steps (demo_system false) ((LRunner 0 <$> drain_first) ++ [LControl]) draining_system.
Proof.
  eapply steps_app; [exact busy_steps|]. econstructor; [apply (sys_drain true busy_system) | constructor].
Qed.

Lemma drained_steps : sys_steps (demo_system false) drain_labels drained_system.
Proof.
  unfold drain_labels. eapply steps_app; [exact busy_steps|].
  econstructor; [apply (sys_drain true busy_system)|].
  apply (run_steps _ _ _ _ drain_busy); vm_compute; reflexivity.
Qed.

Lemma runner_reports_witness :
  _inflight (runner drain_busy) = [7%Z] ∧ _fetching (runner drain_busy) = true ∧
  (length (_inflight (runner drain_busy)) ≤ rc_concurrency (demo_runner false))%nat.
Proof.
  split; [vm_compute; reflexivity|]. split; [vm_compute; reflexivity|].
  exact (proj1 (runner_reports [demo_entry] [(demo_runner false, "ship")] _ _ 0 _ drain_busy
    busy_steps eq_refl)).
Defined.

Lemma deliveries_accounted_witness :
  started drain_done = [7%Z] ∧ released drain_done = [8%Z] ∧ NoDup (started drain_done).
Proof.
  split; [vm_compute; reflexivity|]. split; [vm_compute; reflexivity|].
  exact (proj1 (deliveries_accounted [demo_entry] [(demo_runner false, "ship")] _ _ 0 _ drain_done
    drained_steps eq_refl)).
Defined.

Lemma no_delivery_lost_witness : fetched drain_done = [8%Z; 7%Z] ∧ lost drain_done = [].
Proof.
  split; [vm_compute; reflexivity|].
  exact (proj1 (no_delivery_lost [demo_entry] [(demo_runner false, "ship")] drain_labels _ 0 _ drain_done
    drained_steps eq_refl eq_refl eq_refl)).
Defined.

Lemma drain_can_complete_witness :
  ∃ acts r', forallb calm acts = true ∧
    run (demo_runner false) (sys_app draining_system) acts drain_busy = Some r' ∧
    _inflight (runner r') = [] ∧ (position r' = DrainParked ∨ ∃ exc, position r' = Finished exc).
Proof.
  apply (drain_can_complete [demo_entry] [(demo_runner false, "ship")] _ draining_system 0 (demo_runner false)
    drain_busy draining_steps); [vm_compute; reflexivity | reflexivity].
Defined.

(** ** What a stopped runner leaves *)

(** A task is restarted while delivery 7 runs on after its cancellation,
    longer than the shutdown timeout. *)
Definition impatient : runner_config :=
  {| rc_concurrency := 2; rc_fetch_is_cancel_safe := true; rc_resume_after_pause := false;
     rc_poll_interval_s := f_one; rc_shutdown_timeout_s := Some f_one |}.

Definition stopped_runner : running :=
  run_or impatient (started_app [demo_entry])
    [Wake; FetchEnds (Ok [7%Z]); Wake; Wake; Cancel []; ShutdownTimeout] (new_running "ship").

Definition restarted_system : system :=
  {| sys_app := set_paused (_paused_tasks (started_app [demo_entry]) ∖ {["ship"]}) (started_app [demo_entry]);
     sys_runners := [(impatient, new_running "ship")]; sys_forgotten := [stopped_runner] |}.

Lemma restarted_steps :
  sys_steps (initial [demo_entry] [(impatient, "ship")])
    ((LRunner 0 <$> [Wake; FetchEnds (Ok [7%Z]); Wake; Wake; Cancel []; ShutdownTimeout]) ++ [LRemove 0; LSpawn])
    restarted_system.
Proof.
  eapply steps_app.
  - apply (run_steps _ 0 impatient _ (new_running "ship") stopped_runner); vm_compute; reflexivity.
  - econstructor; [by eapply (sys_remove 0 impatient stopped_runner)|].
    econstructor; [apply (sys_spawn impatient "ship")|]. constructor.
Qed.

Definition late_drain : system :=
  let s := with_app (request_drain true (sys_app restarted_system)).1 restarted_system in
  set_running 0 impatient (run_or impatient (sys_app s) [Wake] (new_running "ship")) s.

(** The drain is reported complete while the delivery still runs. *)
Lemma drained_yet_running :
  sys_steps restarted_system [LControl; LRunner 0 Wake] late_drain ∧
  cs_done (drain_status (sys_app late_drain) (runners_of late_drain)) = true ∧
  (λ r, _inflight (runner r)) <$> sys_forgotten late_drain = [[7%Z]].
Proof.
  split; [|split; vm_compute; reflexivity].
  econstructor; [apply (sys_drain true)|].
  apply (run_steps _ 0 impatient [Wake] (new_running "ship")); vm_compute; reflexivity.
Qed.

Lemma drained_stays_quiet_witness :
  cs_done (drain_status (sys_app late_drain) (runners_of late_drain)) = true ∧
  Forall (λ cr, _inflight (runner cr.2) = [] ∧ _fetching (runner cr.2) = false) (sys_runners late_drain)
  ∧ only_left late_drain late_drain.
Proof.
  split; [vm_compute; reflexivity|].
  refine (drained_stays_quiet [demo_entry] [(impatient, "ship")] _ late_drain [] late_drain _ _ _).
  - exact (steps_app _ _ _ _ _ restarted_steps (proj1 drained_yet_running)).
  - vm_compute. reflexivity.
  - constructor.
Defined.

(** ** Dropped deliveries *)

Definition paused_app : OneStepApp := (request_task_pause true "ship" (started_app [demo_entry])).1.

(** A fetch that ends together with the wait for a pause, drain or shutdown
    is cancelled although it is done: its deliveries are dropped. *)
Lemma fetched_batch_dropped :
  lost (run_or (demo_runner true) paused_app [StopFetching; FetchEnds (Ok [7%Z]); Wake]
          (run_or (demo_runner true) (started_app [demo_entry]) [Wake] (new_running "ship")))
    = [(7%Z, DroppedResult)].
Proof. vm_compute. reflexivity. Qed.

(** While a fetch that must not be cancelled is finishing, a cancellation of
    the runner cancels it all the same. *)
Lemma unsafe_fetch_cancelled :
  lost (run_or (demo_runner false) paused_app [StopFetching; Wake; Cancel [7%Z]]
          (run_or (demo_runner false) (started_app [demo_entry]) [Wake] (new_running "ship")))
    = [(7%Z, CancelledFetch)].
Proof. vm_compute. reflexivity. Qed.

(** An exception while the FETCHED events of a batch are built drops the whole
    batch and ends the runner. *)
Lemma failed_event_drops_batch :
  let r := run_or (demo_runner false) (started_app [demo_entry])
             [Wake; FetchEnds (Ok [7%Z; 8%Z]); Wake; Raise (type_error "cannot pickle")]
             (new_running "ship") in
  lost r = [(7%Z, FailedEvent); (8%Z, FailedEvent)] ∧ position r = Finished (Some (type_error "cannot pickle")).
Proof. vm_compute. by split. Qed.
