(* ===== verification/Oracle.v ===== *)
(** * Calls answered by an environment

    Code that only talks to hooks and connectors: its state is what happened
    so far, newest first, and every call is answered by a function of it. *)

From stdpp Require Import base option list.
From S2P Require Import Prelude Value.

Section Oracle.
Context {C A : Type}.

Abbreviation trace := (list (C * result exn A)).

Context (answer : trace → C → result exn A).

(** One call. *)
Definition ask (c : C) : SE trace exn A := λ h, let r := answer h c in ((c, r) :: h, r).

(** [with contextlib.suppress(Exception): m]. *)
Definition suppress (m : SE trace exn unit) : SE trace exn unit :=
  se_try m (λ e, if is_exception e then mret () else se_raise e).
End Oracle.
