(* ===== verification/DeadLetters.v ===== *)
(** * Replaying and discarding dead letters ([onestep/app.py])

    [replay_task_dead_letters] sends the original deliveries of dead letters
    back to the source of the task, [discard_task_dead_letters] drops them.
    Both read the dead-letter sink as a source.  The connectors are answered
    by an environment, like in [Effects]; deliveries have an identity. *)

From stdpp Require Import base option list strings numbers.
From Stdlib Require Import ZArith Lia.
From S2P Require Import Prelude PyFloat Value Oracle Invoke Retry Events Task Execution Effects Executor AppControl.

(** ** Effects *)

Record dead_letter := {
  dl_id : Z;
  dl_envelope : Envelope;
}.

Inductive dl_call :=
| DSend (e : Envelope)        (** [task.source.send(e)] *)
| DAck (d : Z)
| DRetry (d : Z).

(** What happened, newest first. *)
Abbreviation dl_history := (list (dl_call * result exn unit)).

Section DeadLetters.
Context (deepcopy : value → result exn value).
Context (answer : dl_history → dl_call → result exn unit).
Context (fetch : Z → result exn (list dead_letter)).

Definition do_call : dl_call → SE dl_history exn unit := ask answer.

(** ** The original delivery of a dead letter *)

(** [dict(m)] of a mapping read as headers: the string keys. *)
Fixpoint headers_of (items : list (value * value)) : list (string * value) :=
  match items with
  | [] => []
  | (VStr k, v) :: items => (k, v) :: headers_of items
  | _ :: items => headers_of items
  end.

Definition replay_meta (m : option value) : result exn (list (string * value)) :=
  match m with
  | Some (VDict items) => deepcopy_meta deepcopy (headers_of items)
  | _ => Ok []
  end.

(** [isinstance(x, int) and x >= 0]; [True] and [False] are integers. *)
Definition replay_attempts (a : option value) : Z :=
  match a with
  | Some (VInt n) => if (0 <=? n)%Z then n else 0
  | Some (VBool b) => if b then 1 else 0
  | _ => 0
  end.

Definition _build_dead_letter_replay_envelope (e : Envelope) : result exn Envelope :=
  match body e with
  | VDict items =>
      match vdict_get "payload" items with
      | None => Err (value_error "dead-letter envelope body is missing payload")
      | Some p =>
          payload ← deepcopy p;
          m ← replay_meta (dict_get "original_meta" (meta e));
          Ok {| body := payload; meta := m;
                attempts := replay_attempts (dict_get "original_attempts" (meta e)) |}
      end
  | _ => Err (value_error "dead-letter envelope body must be a mapping")
  end.

(** ** The loops *)

(** [attempted_count], [replayed_count] or [discarded_count], [failed_count]. *)
Record dl_counts := {
  attempted : nat;
  succeeded : nat;
  failed_ : nat;
}.

Definition no_counts : dl_counts := {| attempted := 0; succeeded := 0; failed_ := 0 |}.

Definition count_success (c : dl_counts) : dl_counts :=
  {| attempted := S (attempted c); succeeded := S (succeeded c); failed_ := failed_ c |}.
Definition count_failure (c : dl_counts) : dl_counts :=
  {| attempted := S (attempted c); succeeded := succeeded c; failed_ := S (failed_ c) |}.

(** [try: m except Exception: handler; ... continue]: did [m] succeed? *)
Definition succeeds (m handler : SE dl_history exn unit) : SE dl_history exn bool :=
  se_try (_ ← m; mret true) (λ e, if is_exception e then _ ← handler; mret false else se_raise e).

(** The body of the loop of [replay_task_dead_letters]. *)
Definition replay_one (d : dead_letter) (c : dl_counts) : SE dl_history exn dl_counts :=
  match _build_dead_letter_replay_envelope (dl_envelope d) with
  | Err e =>
      if is_exception e
      then _ ← suppress (do_call (DRetry (dl_id d))); mret (count_failure c)
      else se_raise e
  | Ok e =>
      sent ← succeeds (do_call (DSend e)) (suppress (do_call (DRetry (dl_id d))));
      if negb sent then mret (count_failure c)
      else
        acked ← succeeds (do_call (DAck (dl_id d))) (mret ());
        mret (if acked : bool then count_success c else count_failure c)
  end.

(** The body of the loop of [discard_task_dead_letters]. *)
Definition discard_one (d : dead_letter) (c : dl_counts) : SE dl_history exn dl_counts :=
  acked ← succeeds (do_call (DAck (dl_id d))) (mret ());
  mret (if acked : bool then count_success c else count_failure c).

Fixpoint dl_loop (one : dead_letter → dl_counts → SE dl_history exn dl_counts)
    (ds : list dead_letter) (c : dl_counts) : SE dl_history exn dl_counts :=
  match ds with
  | [] => mret c
  | d :: ds => c' ← one d c; dl_loop one ds c'
  end.

Definition dl_completion (c : dl_counts) : string :=
  if (attempted c =? 0)%nat then "complete"
  else if (failed_ c =? 0)%nat then "complete"
  else if (0 <? succeeded c)%nat then "partial"
  else "failed".

Record dl_report := {
  dr_operation : string;
  dr_task_name : string;
  dr_completion : string;
  dr_requested_limit : Z;
  dr_counts : dl_counts;
  dr_empty : bool;
}.

Definition dl_operation (operation limit_error : string)
    (require : OneStepApp → string → result exn TaskEntry)
    (one : dead_letter → dl_counts → SE dl_history exn dl_counts)
    (a : OneStepApp) (task_name : string) (limit : Z) : SE dl_history exn dl_report :=
  _ ← se_lift (guard_else (negb (limit <? 1)%Z) (value_error limit_error));
  _ ← se_lift (require a task_name);
  ds ← se_lift (fetch limit);
  c ← dl_loop one ds no_counts;
  mret {| dr_operation := operation; dr_task_name := task_name; dr_completion := dl_completion c;
          dr_requested_limit := limit; dr_counts := c; dr_empty := (attempted c =? 0)%nat |}.

Definition replay_task_dead_letters :=
  dl_operation "replay_dead_letters" "dead-letter replay limit must be >= 1"
    _require_dead_letter_replay_task replay_one.

Definition discard_task_dead_letters :=
  dl_operation "discard_dead_letters" "dead-letter discard limit must be >= 1"
    _require_dead_letter_discard_task discard_one.
End DeadLetters.

(** ** Lemmas *)

Section Lemmas.
Context (deepcopy : value → result exn value).
Context (answer : dl_history → dl_call → result exn unit).

(** The acknowledgements that were accepted. *)
Definition is_acked (ev : dl_call * result exn unit) : bool :=
  match ev with (DAck _, Ok _) => true | _ => false end.

Definition acked (l : dl_history) : nat := length (List.filter is_acked l).

Lemma acked_app l2 l1 : acked (l2 ++ l1) = (acked l2 + acked l1)%nat.
Proof. unfold acked. by rewrite List.filter_app, length_app. Qed.

(** The original of dead letter [d] was accepted by the source. *)
Definition resent (ds : list dead_letter) (d : Z) (l : dl_history) : Prop :=
  ∃ x e, x ∈ ds ∧ dl_id x = d ∧
    _build_dead_letter_replay_envelope deepcopy (dl_envelope x) = Ok e ∧ (DSend e, Ok ()) ∈ l.

(** Dead letters are acknowledged after their originals were accepted. *)
Definition acks_safe (ds : list dead_letter) (l : dl_history) : Prop :=
  ∀ post d r pre, l = post ++ (DAck d, r) :: pre → resent ds d pre.

Lemma resent_weaken ds ds' d l l' : resent ds d l → ds ⊆ ds' → l ⊆ l' → resent ds' d l'.
Proof. intros (x & e & Hx & Hd & He & Hin) Hds Hl. exists x, e. auto. Qed.

Lemma acks_safe_app ds1 ds2 l1 l2 : acks_safe ds1 l1 → acks_safe ds2 l2 → acks_safe (ds1 ++ ds2) (l2 ++ l1).
Proof.
  intros H1 H2. revert l2 H2. intros l2 H2 post d r pre E.
  destruct (decide (length post < length l2)%nat) as [Hlt|Hge].
  - assert (∃ pre2, l2 = post ++ (DAck d, r) :: pre2 ∧ pre = pre2 ++ l1) as (pre2 & E2 & ->).
    { clear H2. revert l2 E Hlt. induction post as [|ev post IH]; intros [|x l2] E Hlt; cbn in *; try lia.
      - injection E as -> <-. by exists l2.
      - injection E as -> E. destruct (IH l2 E) as (pre2 & -> & ->); [lia|]. by exists pre2. }
    eapply resent_weaken; [by eapply H2 | |]; intros x Hx; apply elem_of_app; [by right | by left].
  - assert (∃ post1, post = l2 ++ post1) as [post1 ->].
    { clear H2. revert l2 E Hge. induction post as [|ev post IH]; intros [|x l2] E Hge; cbn in *;
        try lia; try by eexists.
      injection E as -> E. destruct (IH l2 E) as [post1 ->]; [lia|]. by exists post1. }
    rewrite <- app_assoc in E. apply app_inv_head in E.
    eapply resent_weaken; [by eapply H1 | | done]; intros x Hx; apply elem_of_app; by left.
Qed.

Lemma acks_safe_none ds l : (∀ d r, (DAck d, r) ∉ l) → acks_safe ds l.
Proof.
  intros H post d r pre ->. destruct (H d r). apply elem_of_app. right. by left.
Qed.

Local Ltac no_ack :=
  apply acks_safe_none; intros ? ? Hin; apply list_elem_of_In in Hin; cbn in Hin; intuition discriminate.

(** What one dead letter adds. *)
Definition one_spec (d : dead_letter) (c : dl_counts) (h h' : dl_history) (r : result exn dl_counts) : Prop :=
  ∃ l, h' = l ++ h ∧ acks_safe [d] l ∧
    match r with
    | Ok c' => (c' = count_success c ∧ acked l = 1%nat) ∨ (c' = count_failure c ∧ acked l = 0%nat)
    | Err _ => True
    end.

Lemma replay_one_spec d c h :
  let '(h', r) := replay_one deepcopy answer d c h in one_spec d c h h' r.
Proof.
  unfold replay_one. destruct (_build_dead_letter_replay_envelope deepcopy (dl_envelope d)) as [e|e] eqn:Eb.
  - unfold succeeds, suppress, do_call, ask, se_try, mbind, se_bind, mret, se_ret, se_raise.
    assert (∀ r, acks_safe [d] [(DAck (dl_id d), r); (DSend e, Ok ())]) as Hsafe.
    { intros r [|ev [|? [|]]] d' r' pre E; cbn in E; try done.
      injection E as <- _ <-. exists d, e. split_and!; [by left | done | done | by left]. }
    assert (∀ r r', acks_safe [d] [(DRetry (dl_id d), r); (DSend e, r')]) as Hr.
    { intros r r'. no_ack. }
    destruct (answer h (DSend e)) as [[]|er]; cbn.
    + destruct (answer _ (DAck (dl_id d))) as [[]|er]; cbn.
      * exists [(DAck (dl_id d), Ok ()); (DSend e, Ok ())]. auto.
      * destruct (is_exception er); cbn;
          (exists [(DAck (dl_id d), Err er); (DSend e, Ok ())]; split_and!; auto).
    + destruct (is_exception er).
      * destruct (answer _ (DRetry (dl_id d))) as [[]|er2]; cbn.
        -- exists [(DRetry (dl_id d), Ok ()); (DSend e, Err er)]. auto.
        -- destruct (is_exception er2); cbn;
             exists [(DRetry (dl_id d), Err er2); (DSend e, Err er)]; auto.
      * exists [(DSend e, Err er)]. split_and!; [done | no_ack | done].
  - assert (∀ r, acks_safe [d] [(DRetry (dl_id d), r)]) as Hr.
    { intros r. no_ack. }
    destruct (is_exception e); [|exists []; split_and!; [done | no_ack | done]].
    unfold suppress, do_call, ask, se_try, mbind, se_bind, mret, se_ret, se_raise.
    destruct (answer h (DRetry (dl_id d))) as [[]|er]; cbn.
    + exists [(DRetry (dl_id d), Ok ())]. auto.
    + destruct (is_exception er); cbn; exists [(DRetry (dl_id d), Err er)]; auto.
Qed.

Lemma replay_loop_spec ds c h :
  let '(h', r) := dl_loop (replay_one deepcopy answer) ds c h in
  ∃ l, h' = l ++ h ∧ acks_safe ds l ∧
    match r with
    | Ok c' => attempted c' = (attempted c + length ds)%nat ∧
               (attempted c' - (succeeded c' + failed_ c') = attempted c - (succeeded c + failed_ c))%nat ∧
               succeeded c' = (succeeded c + acked l)%nat ∧
               (succeeded c + failed_ c ≤ attempted c → succeeded c' + failed_ c' ≤ attempted c')%nat
    | Err _ => True
    end.
Proof.
  revert c h. induction ds as [|d ds IH]; intros c h; cbn [dl_loop].
  { exists []. split_and!; try (done || lia). no_ack. }
  pose proof (replay_one_spec d c h) as H1. unfold mbind, se_bind.
  destruct (replay_one deepcopy answer d c h) as [h1 [c1|e]].
  - destruct H1 as (l1 & -> & Hs1 & Hc). specialize (IH c1 (l1 ++ h)).
    destruct (dl_loop _ ds c1 (l1 ++ h)) as [h2 r]. destruct IH as (l2 & -> & Hs2 & Hr).
    exists (l2 ++ l1). rewrite <- app_assoc. split_and!; [done | by apply (acks_safe_app [d] ds) |].
    destruct r as [c2|]; [|done]. rewrite acked_app.
    destruct Hr as (Ha & Hd & Hsuc & Hle), Hc as [[-> Hk]|[-> Hk]]; cbn in *; lia.
  - destruct H1 as (l1 & -> & Hs1 & _). exists l1. split_and!; [done | | done].
    intros post d' r pre E. eapply resent_weaken; [by eapply Hs1 | | done].
    intros x ->%list_elem_of_singleton. by left.
Qed.

Lemma headers_of_strdict m : headers_of ((λ kv : string * value, (VStr kv.1, kv.2)) <$> m) = m.
Proof. induction m as [|[k v] m IH]; cbn; [done|]. by rewrite IH. Qed.
End Lemmas.

(** ** Properties *)

(** Replaying a dead letter redelivers the original: the envelope built
    from the one the executor published has the payload, the headers and the
    attempts of the failed delivery. *)
Theorem dead_letter_round_trip deepcopy cfg e f :
  (∀ v, deepcopy v = Ok v) → (0 ≤ attempts e)%Z →
  ∃ dl, dead_letter_envelope deepcopy cfg e f = Ok dl ∧
        _build_dead_letter_replay_envelope deepcopy dl = Ok e.
Proof.
  intros Hcopy Hatt.
  assert (∀ m, deepcopy_meta deepcopy m = Ok m) as Hmeta.
  { intros m. unfold deepcopy_meta. induction m as [|[k v] m IH]; cbn; [done|]. by rewrite Hcopy, IH. }
  unfold dead_letter_envelope. rewrite Hcopy, Hmeta. eexists. split; [done|].
  unfold _build_dead_letter_replay_envelope, replay_meta. cbn -[headers_of].
  rewrite Hcopy. cbn -[headers_of]. rewrite headers_of_strdict, Hmeta. cbn.
  assert ((0 <=? attempts e)%Z = true) as -> by (by apply Z.leb_le). by destruct e.
Qed.

(** A replay never loses a dead letter: it is acknowledged only after the
    source of the task accepted its original, and a report counts every
    fetched dead letter once, as replayed exactly when its acknowledgement
    was accepted. *)
Theorem replay_report_true deepcopy answer fetch a task_name limit h :
  let '(h', r) := replay_task_dead_letters deepcopy answer fetch a task_name limit h in
  ∃ l ds, h' = l ++ h ∧ acks_safe deepcopy ds l ∧
    match r with
    | Ok rep =>
        fetch limit = Ok ds ∧ attempted (dr_counts rep) = length ds ∧
        succeeded (dr_counts rep) = acked l ∧
        failed_ (dr_counts rep) = (length ds - acked l)%nat ∧
        (dr_completion rep = "complete" ↔ acked l = length ds)
    | Err e => True
    end.
Proof.
  unfold replay_task_dead_letters, dl_operation.
  assert (∀ e : exn, ∃ l ds, h = l ++ h ∧ acks_safe deepcopy ds l ∧ True) as Hnone.
  { intros _. exists [], []. split_and!; [done | | done]. intros post d r pre E.
    by destruct post. }
  unfold mbind at 1, se_bind. destruct (guard_else _ _) as [u|e]; cbn [se_lift]; [|exact (Hnone e)].
  unfold mbind at 1, se_bind. destruct (_require_dead_letter_replay_task a task_name) as [t|e]; cbn [se_lift];
    [|exact (Hnone e)].
  unfold mbind at 1, se_bind. destruct (fetch limit) as [ds|e] eqn:Ef; cbn [se_lift]; [|exact (Hnone e)].
  unfold mbind at 1, se_bind. pose proof (replay_loop_spec deepcopy answer ds no_counts h) as H.
  destruct (dl_loop _ ds no_counts h) as [h' [c|e]]; destruct H as (l & -> & Hs & Hr);
    exists l, ds; (split; [done|]); (split; [exact Hs|]); [|done].
  cbn in Hr |- *. unfold dl_completion. destruct c as [at_ su fa]. cbn in *. destruct Hr as (-> & Hd & -> & Hle).
  do 3 (split; [done|]). split; [lia|].
  destruct (length ds =? 0)%nat eqn:E0; [apply Nat.eqb_eq in E0; split; [lia | done]|]. apply Nat.eqb_neq in E0.
  destruct (fa =? 0)%nat eqn:E1; [apply Nat.eqb_eq in E1; split; [lia | done]|]. apply Nat.eqb_neq in E1.
  case_match; (split; [done | lia]).
Qed.

Lemma dead_letter_round_trip_witness :
  ∃ dl, dead_letter_envelope Ok
          {| app_name := "shop"; task := {| ts_name := "ship"; ts_description := None; ts_handler := 1;
               ts_source := Some "queue"; ts_sinks := []; emit_targets := []; emit_bindings := [];
               emit_routes := []; dead_letter_sinks := []; ts_hooks := no_hooks; concurrency := 1;
               ts_retry := PNoRetry; timeout_s := None |};
             emitter := None; production_sinks := true; apply_delivery_actions := true;
             custom_checkpoint := false; capture_mode := None; managed := false |}
          {| body := VList [VInt 7]; meta := [("trace", VStr "a1")]; attempts := 2 |}
          (from_exception (value_error "no stock") FK_ERROR) = Ok dl ∧
        _build_dead_letter_replay_envelope Ok dl
          = Ok {| body := VList [VInt 7]; meta := [("trace", VStr "a1")]; attempts := 2 |}.
Proof. apply dead_letter_round_trip; [reflexivity | cbn; lia]. Defined.
