(* ===== verification/Lifecycle.v ===== *)
(** * Opening and closing resources ([onestep/app.py])

    [startup], [shutdown] and [serve] of [OneStepApp] and the restart of one
    task, for the resources they open and close.  A resource is known by its
    [id()]; [open], [close], the hooks and the runners answer as they like. *)

From stdpp Require Import base option list strings numbers.
From Stdlib Require Import ZArith Lia.
From S2P Require Import Prelude Value Oracle.

(** ** Resources *)

Record task_resources := {
  tr_name : string;
  tr_source : option Z;
  tr_sinks : list Z;
  tr_dead_letter : list Z;
}.

(** [None] entries of [_named_resources] are skipped. *)
Record app_resources := {
  ar_named : list (option Z);
  ar_state : Z;
  ar_tasks : list task_resources;
}.

(** [_task_resources]. *)
Definition _task_resources (t : task_resources) : list Z :=
  option_list (tr_source t) ++ tr_sinks t ++ tr_dead_letter t.

(** [add_resource] of [startup]: each object once, in order. *)
Fixpoint add_resources (seen rs : list Z) : list Z :=
  match rs with
  | [] => []
  | r :: rs => if bool_decide (r ∈ seen) then add_resources seen rs
               else r :: add_resources (r :: seen) rs
  end.

Definition startup_resources (a : app_resources) : list Z :=
  add_resources [] (omap id (ar_named a) ++ [ar_state a] ++ (ar_tasks a ≫= _task_resources)).

(** [_referenced_resource_ids]. *)
Definition _referenced_resource_ids (a : app_resources) (exclude : option string) : list Z :=
  omap id (ar_named a) ++ [ar_state a] ++
  (List.filter (λ t, negb (bool_decide (Some (tr_name t) = exclude))) (ar_tasks a) ≫= _task_resources).

(** The resources of a task no other task and no named resource uses. *)
Definition private_resources (a : app_resources) (t : task_resources) : list Z :=
  List.filter (λ r, negb (bool_decide (r ∈ _referenced_resource_ids a (Some (tr_name t))))) (_task_resources t).

(** ** Effects *)

Inductive life_call :=
| LOpen (r : Z)
| LClose (r : Z)
| LHook (f : Z)
| LRunners.                (** the runners, until they end *)

Abbreviation life_event := (life_call * result exn unit)%type.
Abbreviation life_history := (list life_event).

(** [self._resources] next to what happened; [opened] is the local list of
    [startup]. *)
Record life := {
  life_hist : life_history;
  opened : list Z;
  _resources : list Z;
}.

Section Lifecycle.
Context (answer : life_history → life_call → result exn unit).
Context (startup_hooks shutdown_hooks : list Z).

Definition life_do (c : life_call) : SE life exn unit := λ s,
  let '(h, r) := ask answer c (life_hist s) in
  ({| life_hist := h; opened := opened s; _resources := _resources s |}, r).

Definition set_opened (rs : list Z) : SE life exn unit :=
  se_modify (λ s, {| life_hist := life_hist s; opened := rs; _resources := _resources s |}).

Definition set_resources (rs : list Z) : SE life exn unit :=
  se_modify (λ s, {| life_hist := life_hist s; opened := opened s; _resources := rs |}).

Definition _run_hooks (hooks : list Z) : SE life exn unit := se_iter (λ f, life_do (LHook f)) hooks.

(** The loop of [_close_resources] over the reversed list: every exception is
    logged and the first one kept. *)
Fixpoint close_loop (rs : list Z) (first_error : option exn) : SE life exn (option exn) :=
  match rs with
  | [] => mret first_error
  | r :: rs =>
      err ← se_try (_ ← life_do (LClose r); mret None) (λ e, mret (Some e));
      close_loop rs (match first_error with Some e => Some e | None => err end)
  end.

Definition _close_resources (rs : list Z) : SE life exn (option exn) := close_loop (reverse rs) None.

Definition open_resources (rs : list Z) : SE life exn unit :=
  se_iter (λ r, _ ← life_do (LOpen r); s ← se_get; set_opened (opened s ++ [r])) rs.

Definition startup (a : app_resources) : SE life exn unit :=
  _ ← set_opened [];
  _ ← set_resources [];
  se_try
    (_ ← open_resources (startup_resources a);
     s ← se_get;
     _ ← set_resources (opened s);
     _run_hooks startup_hooks)
    (λ e, if is_exception e
          then s ← se_get;
               _ ← _close_resources (opened s);
               _ ← set_resources [];
               se_raise e
          else se_raise e).

Definition shutdown : SE life exn unit :=
  hook_error ← se_try (_ ← _run_hooks shutdown_hooks; mret None) (λ e, mret (Some e));
  s ← se_get;
  close_error ← _close_resources (_resources s);
  _ ← set_resources [];
  match hook_error, close_error with
  | Some e, _ | None, Some e => se_raise e
  | None, None => mret ()
  end.

(** [try: m finally: f]; an exception of [f] replaces the one of [m]. *)
Definition se_finally (m f : SE life exn unit) : SE life exn unit :=
  r ← se_try (_ ← m; mret None) (λ e, mret (Some e));
  _ ← f;
  match r with Some e => se_raise e | None => mret () end.

Definition serve (a : app_resources) : SE life exn unit :=
  _ ← startup a;
  se_finally (life_do LRunners) shutdown.

(** The resources part of [stop_task_runner] and [start_task_runner]: every
    exception of a closer is suppressed, an opener's propagates. *)
Definition close_private (a : app_resources) (t : task_resources) : SE life exn unit :=
  se_iter (λ r, se_try (life_do (LClose r)) (λ e, if is_exception e then mret () else se_raise e))
    (private_resources a t).

Definition open_private (a : app_resources) (t : task_resources) : SE life exn unit :=
  se_iter (λ r, life_do (LOpen r)) (private_resources a t).

Definition restart_resources (a : app_resources) (t : task_resources) : SE life exn unit :=
  _ ← close_private a t; open_private a t.
End Lifecycle.

(** ** Counting opens and closes *)

(** The opens of [r] that succeeded, and the closes of it. *)
Definition is_open (r : Z) (ev : life_event) : bool :=
  match ev with (LOpen r', Ok _) => (r =? r')%Z | _ => false end.
Definition is_close (r : Z) (ev : life_event) : bool :=
  match ev with (LClose r', _) => (r =? r')%Z | _ => false end.

Definition opens (r : Z) (l : life_history) : nat := length (List.filter (is_open r) l).
Definition closes (r : Z) (l : life_history) : nat := length (List.filter (is_close r) l).

Definition occurrences (r : Z) (rs : list Z) : nat := length (List.filter (Z.eqb r) rs).

Lemma opens_app r l2 l1 : opens r (l2 ++ l1) = (opens r l2 + opens r l1)%nat.
Proof. unfold opens. by rewrite List.filter_app, length_app. Qed.
Lemma closes_app r l2 l1 : closes r (l2 ++ l1) = (closes r l2 + closes r l1)%nat.
Proof. unfold closes. by rewrite List.filter_app, length_app. Qed.
Lemma occurrences_app r l2 l1 : occurrences r (l2 ++ l1) = (occurrences r l2 + occurrences r l1)%nat.
Proof. unfold occurrences. by rewrite List.filter_app, length_app. Qed.
Lemma occurrences_reverse r l : occurrences r (reverse l) = occurrences r l.
Proof.
  induction l as [|x l IH]; [done|]. rewrite reverse_cons, occurrences_app, IH.
  unfold occurrences. cbn. destruct (r =? x)%Z; cbn; lia.
Qed.

Lemma add_resources_once seen rs r :
  (occurrences r (add_resources seen rs) ≤ 1)%nat ∧ (r ∈ seen → occurrences r (add_resources seen rs) = 0%nat).
Proof.
  revert seen. induction rs as [|x rs IH]; intros seen; cbn; [split; [unfold occurrences; cbn; lia | done]|].
  case_bool_decide as Hx; [apply IH|]. unfold occurrences in *. cbn. destruct (r =? x)%Z eqn:E; cbn.
  - apply Z.eqb_eq in E as ->. split; [|done].
    destruct (IH (x :: seen)) as [_ H]. rewrite H by (by left). lia.
  - destruct (IH (x :: seen)) as [H1 H2]. split; [done|]. intros Hr. apply H2. by right.
Qed.

(** What a part adds to the history, its result and the state it leaves. *)
Definition post {A} (Q : result exn A → life_history → life → Prop) (m : SE life exn A) (s : life) : Prop :=
  ∃ l, life_hist (m s).1 = l ++ life_hist s ∧ Q (m s).2 l (m s).1.

Lemma post_mono {A} (Q Q' : result exn A → life_history → life → Prop) m s :
  post Q m s → (∀ r l s', Q r l s' → Q' r l s') → post Q' m s.
Proof. intros (l & Hl & HQ) H. exists l. auto. Qed.

Lemma post_now {A} (Q : result exn A → life_history → life → Prop) m s :
  life_hist (m s).1 = life_hist s → Q (m s).2 [] (m s).1 → post Q m s.
Proof. intros H HQ. by exists []. Qed.

Lemma post_bind {A B} (Q : result exn B → life_history → life → Prop) (m : SE life exn A) (f : A → SE life exn B) s :
  post (λ r l1 s1, match r with
                   | Ok a => post (λ r l2 s2, Q r (l2 ++ l1) s2) (f a) s1
                   | Err e => Q (Err e) l1 s1
                   end) m s →
  post Q (m ≫= f) s.
Proof.
  intros (l1 & Hl1 & H). unfold post, mbind, se_bind. destruct (m s) as [s1 [a|e]]; cbn in *; [|by exists l1].
  destruct H as (l2 & Hl2 & H). exists (l2 ++ l1). by rewrite <- app_assoc, <- Hl1.
Qed.

Lemma post_try {A} (Q : result exn A → life_history → life → Prop) (m : SE life exn A) h s :
  post (λ r l1 s1, match r with
                   | Ok a => Q (Ok a) l1 s1
                   | Err e => post (λ r l2 s2, Q r (l2 ++ l1) s2) (h e) s1
                   end) m s →
  post Q (se_try m h) s.
Proof.
  intros (l1 & Hl1 & H). unfold post, se_try. destruct (m s) as [s1 [a|e]]; cbn in *; [by exists l1|].
  destruct H as (l2 & Hl2 & H). exists (l2 ++ l1). by rewrite <- app_assoc, <- Hl1.
Qed.

Local Arguments occurrences : simpl never.
Local Arguments opens : simpl never.
Local Arguments closes : simpl never.

Section Proofs.
Context (answer : life_history → life_call → result exn unit).
Context (startup_hooks shutdown_hooks : list Z).

Lemma post_do (Q : result exn unit → life_history → life → Prop) c s :
  (let r := answer (life_hist s) c in
   Q r [(c, r)] {| life_hist := (c, r) :: life_hist s; opened := opened s; _resources := _resources s |}) →
  post Q (life_do answer c) s.
Proof. intros HQ. by exists [(c, answer (life_hist s) c)]. Qed.

(** A part that opens and closes nothing. *)
Definition inert (s : life) (l : life_history) (s' : life) : Prop :=
  (∀ r, opens r l = 0%nat ∧ closes r l = 0%nat) ∧ opened s' = opened s ∧ _resources s' = _resources s.

(** A [BaseException] interrupted an opener or a hook. *)
Definition interrupted (l : life_history) : Prop :=
  ∃ ev e, ev ∈ l ∧ ev.2 = Err e ∧ is_exception e = false ∧
          match ev.1 with LOpen _ | LHook _ => True | _ => False end.

Lemma interrupted_app l2 l1 : interrupted l2 ∨ interrupted l1 → interrupted (l2 ++ l1).
Proof. intros [(ev & e & H & ?)|(ev & e & H & ?)]; exists ev, e; (split; [|done]); apply elem_of_app; auto. Qed.

Definition raised_by (r : result exn unit) (l : life_history) : Prop :=
  match r with Ok _ => True | Err e => is_exception e = false → interrupted l end.

Lemma run_hooks_post hooks s :
  post (λ r l s', inert s l s' ∧ raised_by r l) (_run_hooks answer hooks) s.
Proof.
  revert s. induction hooks as [|f hooks IH]; intros s; cbn [_run_hooks se_iter].
  { by apply post_now. }
  apply post_bind, post_do. cbv zeta. destruct (answer (life_hist s) (LHook f)) as [[]|e] eqn:E.
  - eapply post_mono; [apply IH|]. intros r l s' [[Hn [Ho Hr]] Hi]. cbn beta. split; [split|].
    + intros x. rewrite opens_app, closes_app. specialize (Hn x). cbn. unfold opens, closes in *. cbn. lia.
    + done.
    + destruct r as [|e]; [done|]. intros He. apply interrupted_app. left. by apply Hi.
  - split; [done|]. intros He. exists (LHook f, Err e), e. split_and!; [by left | done | done | done].
Qed.

Lemma close_loop_post rs fe s :
  post (λ r l s', is_ok r = true ∧ opened s' = opened s ∧ _resources s' = _resources s ∧
                  ∀ x, opens x l = 0%nat ∧ closes x l = occurrences x rs)
    (close_loop answer rs fe) s.
Proof.
  revert fe s. induction rs as [|y rs IH]; intros fe s; cbn [close_loop]; [by apply post_now|].
  apply post_bind, post_try, post_bind, post_do. cbv zeta.
  assert (∀ (err : option exn) s1, opened s1 = opened s → _resources s1 = _resources s →
    post (λ r l2 s2, is_ok r = true ∧ opened s2 = opened s ∧ _resources s2 = _resources s ∧
       ∀ x, opens x l2 = 0%nat ∧ closes x l2 = occurrences x rs)
      (close_loop answer rs (match fe with Some e => Some e | None => err end)) s1) as Hgo.
  { intros err s1 H1 H2. eapply post_mono; [apply IH|]. intros r l s' (? & -> & -> & ?). done. }
  assert (∀ r x l, opens x l = 0%nat ∧ closes x l = occurrences x rs →
    opens x (l ++ [(LClose y, r)]) = 0%nat ∧ closes x (l ++ [(LClose y, r)]) = occurrences x (y :: rs)) as Hone.
  { intros r x l [H1 H2]. rewrite opens_app, closes_app, H1, H2. unfold opens, closes, occurrences. cbn.
    destruct (x =? y)%Z; cbn; split; lia. }
  destruct (answer (life_hist s) (LClose y)) as [[]|e]; apply post_now; try done;
    (eapply post_mono; [by apply Hgo|]); intros r l s' (H1 & H2 & H3 & H4); cbn [app] in *;
    rewrite ?app_nil_r; (split_and!; [done..|]); intros x; by apply Hone.
Qed.

Lemma open_resources_post rs s :
  post (λ r l s', _resources s' = _resources s ∧ raised_by r l ∧
                  (∀ x, closes x l = 0%nat ∧
                        occurrences x (opened s') = (occurrences x (opened s) + opens x l)%nat ∧
                        (opens x l ≤ occurrences x rs)%nat))
    (open_resources answer rs) s.
Proof.
  revert s. induction rs as [|y rs IH]; intros s; cbn [open_resources se_iter].
  { apply post_now; [done|]. split_and!; [done | done |]. intros x. unfold opens, closes. cbn. lia. }
  apply post_bind, post_bind, post_do. cbv zeta.
  destruct (answer (life_hist s) (LOpen y)) as [[]|e] eqn:E.
  - apply post_bind, post_now; [done|]. apply post_now; [done|]. cbn.
    eapply post_mono; [apply IH|]. intros r l s' (Hr & Hi & Hx). cbn in Hr, Hx |- *.
    split; [done|]. split; [destruct r; [done|]; intros He; apply interrupted_app; left; by apply Hi|].
    intros x. destruct (Hx x) as (H1 & H2 & H3). rewrite closes_app, opens_app, H1, H2, occurrences_app.
    unfold opens, closes, occurrences in *. cbn. destruct (x =? y)%Z; cbn; lia.
  - split; [done|]. split; [intros He; exists (LOpen y, Err e), e; split_and!; [by left | done | done | done]|].
    intros x. unfold opens, closes, occurrences. cbn. lia.
Qed.

(** What [startup] leaves: every opened resource recorded, or closed, unless
    it was interrupted. *)
Lemma startup_post a s :
  post (λ r l s', (∀ x, (opens x l ≤ 1)%nat) ∧
          match r with
          | Ok _ => ∀ x, closes x l = 0%nat ∧ occurrences x (_resources s') = opens x l
          | Err e => interrupted l ∨ ∀ x, closes x l = opens x l
          end)
    (startup answer startup_hooks a) s.
Proof.
  unfold startup. apply post_bind, post_now; [done|]. apply post_bind, post_now; [done|]. cbn.
  apply post_try, post_bind. eapply post_mono; [apply open_resources_post|].
  intros r l s1 (Hr & Hi & Hx). cbn [app] in *. rewrite ?app_nil_r.
  assert (∀ x, (opens x l ≤ 1)%nat ∧ closes x l = 0%nat ∧ occurrences x (opened s1) = opens x l) as Hl.
  { intros x. destruct (Hx x) as (H1 & H2 & H3). cbn in H2. split_and!; [|done|done].
    destruct (add_resources_once [] (omap id (ar_named a) ++ [ar_state a] ++ (ar_tasks a ≫= _task_resources)) x)
      as [H4 _]. unfold startup_resources in H3. lia. }
  (* closing what was opened *)
  assert (∀ l0 e s2, (∀ x, opens x l0 = 0%nat ∧ closes x l0 = 0%nat) → opened s2 = opened s1 →
    (is_exception e = false → interrupted (l0 ++ l)) →
    post (λ r l2 _, (∀ x, (opens x (l2 ++ l0 ++ l) ≤ 1)%nat) ∧
                    match r with
                    | Ok _ => False
                    | Err _ => interrupted (l2 ++ l0 ++ l) ∨ ∀ x, closes x (l2 ++ l0 ++ l) = opens x (l2 ++ l0 ++ l)
                    end)
      (if is_exception e
       then s ← se_get; _ ← _close_resources answer (opened s); _ ← set_resources []; se_raise e
       else se_raise e : SE life exn unit) s2) as Hfail.
  { intros l0 e s2 Hl0 Ho Hint.
    assert (∀ x l2, opens x (l2 ++ l0 ++ l) = (opens x l2 + opens x l)%nat ∧
                    closes x (l2 ++ l0 ++ l) = closes x l2) as Hsum.
    { intros x l2. rewrite !opens_app, !closes_app. destruct (Hl0 x) as [-> ->], (Hl x) as (_ & -> & _). lia. }
    destruct (is_exception e).
    - apply post_bind, post_now; [done|]. apply post_bind. unfold _close_resources. cbn [se_get fst snd].
      eapply post_mono; [apply close_loop_post|]. intros r2 l2 s3 (Hok & _ & _ & Hc). destruct r2; [|done].
      apply post_bind, post_now; [done|]. apply post_now; [done|]. cbn [app se_raise snd]. rewrite ?app_nil_r.
      split; [|right]; intros x; destruct (Hsum x l2) as [E1 E2], (Hc x) as [E3 E4], (Hl x) as (? & ? & ?);
        rewrite ?E1, ?E2, ?E3; [done|]. rewrite E4, Ho, occurrences_reverse. lia.
    - apply post_now; [done|]. cbn. split; [|left; by apply Hint].
      intros x. pose proof (Hsum x []) as [H _]. cbn in H. rewrite H. apply Hl. }
  destruct r as [[]|e].
  - apply post_bind, post_now; [done|]. apply post_bind, post_now; [done|]. cbn.
    eapply post_mono; [apply run_hooks_post|]. intros r2 l2 s2 [[Hn [Ho Hr2]] Hi2]. cbn [app].
    destruct r2 as [[]|e2]; cbn in Hi2.
    + rewrite ?app_nil_r. cbn [app]. split; intros x; rewrite ?opens_app, ?closes_app;
        destruct (Hn x) as [E1 E2], (Hl x) as (? & E3 & ?); rewrite ?E1, ?E2, ?E3; [lia|].
      split; [lia|]. rewrite Hr2. cbn. lia.
    + eapply post_mono; [apply (Hfail l2 e2 s2 Hn Ho)|].
      * intros He. apply interrupted_app. left. by apply Hi2.
      * intros r3 l3 s3 [H1 H2]. destruct r3; [done|]. rewrite ?app_nil_r, <- ?app_assoc.
        split; [exact H1 | exact H2].
  - eapply post_mono; [apply (Hfail [] e s1); [done | done | exact Hi]|].
    intros r3 l3 s3 [H1 H2]. destruct r3; [done|]. rewrite !app_nil_r. split; [exact H1 | exact H2].
Qed.

Lemma shutdown_post s :
  post (λ r l s', ∀ x, opens x l = 0%nat ∧ closes x l = occurrences x (_resources s))
    (shutdown answer shutdown_hooks) s.
Proof.
  unfold shutdown. apply post_bind, post_try, post_bind. eapply post_mono; [apply run_hooks_post|].
  intros r l s1 [[Hn [_ Hr]] _].
  assert (∀ (he : option exn) s2 l2, _resources s2 = _resources s → (∀ x, opens x l2 = 0%nat ∧ closes x l2 = 0%nat) →
    post (λ (r : result exn unit) l3 s', ∀ x, opens x (l3 ++ l2) = 0%nat ∧ closes x (l3 ++ l2) = occurrences x (_resources s))
      (s ← se_get; close_error ← _close_resources answer (_resources s); _ ← set_resources [];
       match he, close_error with
       | Some e, _ | None, Some e => se_raise e
       | None, None => mret ()
       end) s2) as Hgo.
  { intros he s2 l2 Hs2 Hl2. apply post_bind, post_now; [done|]. apply post_bind. unfold _close_resources.
    cbn [se_get fst snd]. eapply post_mono; [apply close_loop_post|]. intros r2 l3 s3 (Hok & _ & _ & Hc).
    destruct r2 as [ce|]; [|done]. apply post_bind, post_now; [done|].
    apply post_now; [by destruct he, ce|]. cbn [app]. intros x. rewrite app_nil_r, opens_app, closes_app.
    destruct (Hc x) as [-> ->], (Hl2 x) as [-> ->]. rewrite Hs2, occurrences_reverse. lia. }
  destruct r as [[]|e]; apply post_now; try done; cbn [app fst snd];
    (eapply post_mono; [first [apply (Hgo None s1 l) | apply (Hgo (Some e) s1 l)]; done|]);
    intros r2 l3 s3 Hx; rewrite ?app_nil_r; exact Hx.
Qed.
End Proofs.

(** ** Property *)

(** [serve] opens every resource of the app at most once, and closes it
    exactly as often as it was opened, whatever openers, hooks, runners and
    closers raise, unless a [BaseException] such as a cancellation
    interrupts an opener or a hook of the start. *)
Theorem serve_closes_opened answer startup_hooks shutdown_hooks a s :
  ∃ l, life_hist (serve answer startup_hooks shutdown_hooks a s).1 = l ++ life_hist s ∧
    (∀ r, (opens r l ≤ 1)%nat) ∧ (interrupted l ∨ ∀ r, closes r l = opens r l).
Proof.
  cut (post (λ _ l _, (∀ r, (opens r l ≤ 1)%nat) ∧ (interrupted l ∨ ∀ r, closes r l = opens r l))
         (serve answer startup_hooks shutdown_hooks a) s); [done|].
  unfold serve. apply post_bind. eapply post_mono; [apply startup_post|].
  intros [[]|e] l s1 [Hone H]; [|by split].
  unfold se_finally. apply post_bind, post_try, post_bind, post_do. cbv zeta.
  assert (∀ (re : option exn) r0 s2, _resources s2 = _resources s1 →
    post (λ (r : result exn unit) l2 _, (∀ x, (opens x (l2 ++ [(LRunners, r0)] ++ l) ≤ 1)%nat) ∧
        (interrupted (l2 ++ [(LRunners, r0)] ++ l) ∨ ∀ x, closes x (l2 ++ [(LRunners, r0)] ++ l) = opens x (l2 ++ [(LRunners, r0)] ++ l)))
      (_ ← shutdown answer shutdown_hooks; match re with Some e => se_raise e | None => mret () end) s2) as Hgo.
  { intros re r0 s2 Hs2. apply post_bind. eapply post_mono; [apply shutdown_post|].
    intros r l2 s3 Hc.
    assert (∀ x, opens x (l2 ++ [(LRunners, r0)] ++ l) = opens x l ∧
                 closes x (l2 ++ [(LRunners, r0)] ++ l) = opens x l) as Hsum.
    { intros x. rewrite !opens_app, !closes_app. destruct (Hc x) as [-> ->], (H x) as [-> <-].
      rewrite Hs2. unfold opens, closes. cbn. lia. }
    assert ((∀ x, (opens x (l2 ++ [(LRunners, r0)] ++ l) ≤ 1)%nat) ∧
        (interrupted (l2 ++ [(LRunners, r0)] ++ l) ∨
         ∀ x, closes x (l2 ++ [(LRunners, r0)] ++ l) = opens x (l2 ++ [(LRunners, r0)] ++ l))) as Hend.
    { split; [intros x; destruct (Hsum x) as [-> _]; apply Hone|]. right. intros x. by destruct (Hsum x) as [-> ->]. }
    destruct r as [[]|e]; [|exact Hend]. apply post_now; [by destruct re | exact Hend]. }
  destruct (answer (life_hist s1) LRunners) as [[]|e]; apply post_now; try done; cbn [app fst snd];
    (eapply post_mono;
      [first [apply (Hgo None (Ok ())) | apply (Hgo (Some e) (Err e))]; done|]);
    intros r l2 s2 Hend; rewrite <- ?app_assoc; exact Hend.
Qed.

Lemma restart_private_only a t r : r ∈ private_resources a t → r ∉ _referenced_resource_ids a (Some (tr_name t)).
Proof.
  unfold private_resources. rewrite list_elem_of_In, filter_In, <- list_elem_of_In.
  intros [_ H%negb_true_iff%bool_decide_eq_false]. done.
Qed.

(** A queue that is both the source and a sink of a task is opened once by
    [startup] and twice by a restart of the task. *)
Lemma restart_opens_twice :
  let t := {| tr_name := "loop"; tr_source := Some 1%Z; tr_sinks := [1%Z]; tr_dead_letter := [] |} in
  let a := {| ar_named := []; ar_state := 0%Z; ar_tasks := [t] |} in
  startup_resources a = [0%Z; 1%Z] ∧
  opens 1 (life_hist (open_private (λ _ _, Ok ()) a t {| life_hist := []; opened := []; _resources := [] |}).1) = 2%nat.
Proof. vm_compute. by split. Qed.
