(* ===== verification/SqlErrors.v ===== *)
(** * Errors of the SQL connectors
    ([onestep_sql/_shared/resilience.py], [onestep_sql/postgres/resilience.py])

    How an exception of SQLAlchemy becomes a [ConnectorOperationError]: the
    classification table, and the redaction of secrets from the message
    that is kept as the cause.  The exception classes are SQLAlchemy's, so
    what the code reads of an exception is a parameter. *)

From stdpp Require Import base option list strings numbers sorting.
From Stdlib Require Import ZArith Lia Ascii.
From S2P Require Import Prelude PyFloat Value Resilience Texts.

(** ** [redact_message] *)

Definition REDACTED : string := "<redacted>".
Definition MAX_MESSAGE_LENGTH : nat := 500.

Definition redact_token (text token : list ascii) : list ascii :=
  match token with
  | [] => text
  | _ => replace_from token (str_to_list REDACTED) 0 text
  end.

(** [key=len, reverse=True]. *)
Definition longer (a b : list ascii) : Prop := (length b ≤ length a)%nat.
#[global] Instance longer_dec a b : Decision (longer a b).
Proof. unfold longer. apply _. Defined.
#[global] Instance longer_total : Total longer.
Proof. intros a b. unfold longer. lia. Qed.
#[global] Instance longer_trans : Transitive longer.
Proof. intros a b c. unfold longer. lia. Qed.

Definition redact_message (message : string) (tokens : list string) : string :=
  let redacted := foldl redact_token (str_to_list message)
                    (merge_sort longer (str_to_list <$> tokens)) in
  str_of_list (take MAX_MESSAGE_LENGTH redacted).

(** ** [classify_sqlalchemy_error] *)

(** What the code reads of an exception: the [isinstance] tests against the
    classes of [sqlalchemy.exc], [connection_invalidated], [str(orig)] and
    [str(exc)]. *)
Record sql_error := {
  is_timeout_error : bool;
  is_interface_error : bool;
  is_programming_error : bool;
  is_dbapi_error : bool;
  is_operational_error : bool;
  connection_invalidated : bool;
  orig : option string;
  error_text : string;
}.

(** [needle in haystack]. *)
Fixpoint contains_chars (needle l : list ascii) : bool :=
  prefix_of needle l || match l with [] => false | _ :: l => contains_chars needle l end.

Definition contains (needle haystack : string) : bool :=
  contains_chars (str_to_list needle) (str_to_list haystack).

Definition mentions (message : string) (tokens : list string) : bool :=
  existsb (λ token, contains token message) tokens.

Definition lowered_message (e : sql_error) : string :=
  match orig e with
  | Some o => lower o +:+ " " +:+ lower (error_text e)
  | None => lower (error_text e)
  end.

Definition classify_dbapi_error (e : sql_error) : option ConnectorErrorKind :=
  let message := lowered_message e in
  if connection_invalidated e then Some DISCONNECTED
  else if mentions message ["server closed the connection"; "connection refused"; "connection reset"]
  then Some DISCONNECTED
  else if mentions message ["deadlock detected"; "lock timeout"; "could not serialize access"]
  then Some TRANSIENT
  else if mentions message ["password authentication failed"; "permission denied"]
  then Some MISCONFIGURED
  else if mentions message ["database"; "role"] && contains "does not exist" message
  then Some MISCONFIGURED
  else if mentions message ["undefined table"; "undefined column"; "syntax error"; "does not exist"]
  then Some PERMANENT
  else if is_operational_error e then Some TRANSIENT
  else None.

Definition classify_sqlalchemy_error (e : sql_error) : option ConnectorErrorKind :=
  if is_timeout_error e then Some TRANSIENT
  else if is_interface_error e then Some DISCONNECTED
  else if is_programming_error e then Some PERMANENT
  else if is_dbapi_error e then classify_dbapi_error e
  else None.

(** ** [as_postgres_connector_operation_error] *)

(** [PostgresErrorCause(redact_message(str(exc), secrets or []))]. *)
Definition redacted_postgres_cause (e : sql_error) (secrets : list string) : exn :=
  Exn CException "PostgresErrorCause"
    ("postgres error: " +:+ redact_message (error_text e) secrets) None.

Definition as_postgres_connector_operation_error (operation : ConnectorOperation)
    (e : sql_error) (source_name : option string) (retry_delay_s : option float64)
    (secrets : list string) : option exn :=
  match classify_sqlalchemy_error e with
  | None => None
  | Some kind =>
      Some (ConnectorOperationError "postgres" operation kind source_name retry_delay_s
              (Some (redacted_postgres_cause e secrets)) None)
  end.

(** ** No secret survives *)

Definition occurs (t l : list ascii) : Prop := ∃ a b, l = a ++ t ++ b.

(** A secret that cannot be mistaken for a part of the placeholder. *)
Definition distinct_from_placeholder (t : list ascii) : Prop :=
  t ≠ [] ∧ ("<"%char ∉ t) ∧ (">"%char ∉ t) ∧ ¬ occurs t (str_to_list "redacted").

Lemma occurs_cons t c l : occurs t l → occurs t (c :: l).
Proof. intros (a & b & ->). by exists (c :: a), b. Qed.

Lemma occurs_cons_inv t c l : occurs t (c :: l) → (∃ b, c :: l = t ++ b) ∨ occurs t l.
Proof.
  intros (a & b & E). destruct a as [|x a]; [left; by exists b|].
  injection E as -> ->. right. by exists a, b.
Qed.

Lemma contains_chars_spec p l : contains_chars p l = true ↔ occurs p l.
Proof.
  induction l as [|c l IH]; cbn [contains_chars]; rewrite orb_true_iff, prefix_of_spec.
  - split; [intros [[b E]|]; [by exists [], b | done]|].
    intros (a & b & E). left. destruct a; [by exists b | done].
  - rewrite IH. split.
    + intros [[b E]|H]; [by exists [], b | by apply occurs_cons].
    + intros H. by apply occurs_cons_inv in H.
Qed.

(** An occurrence in [REDACTED ++ rest] is one in [rest]. *)
Lemma occurs_after_placeholder t rest :
  distinct_from_placeholder t → occurs t (str_to_list REDACTED ++ rest) → occurs t rest.
Proof.
  intros (Hne & Hlt & Hgt & Hin) H. destruct t as [|x t]; [done|].
  assert (∀ p s, str_to_list "redacted>" = p ++ s → occurs (x :: t) (s ++ rest) → occurs (x :: t) rest) as Hgen.
  { intros p s. revert p. induction s as [|c s IH]; intros p E Ho; [done|].
    apply (IH (p ++ [c])); [by rewrite <- app_assoc|].
    apply occurs_cons_inv in Ho as [[b Eb]|Ho]; [|done]. exfalso.
    assert (∃ u, c :: s = u ++ [">"%char]) as [u Hu].
    { clear -E. destruct (exists_last (l:=c :: s)) as (u & z & Hz); [done|]. rewrite Hz in E |- *.
      exists u. f_equal. f_equal. rewrite app_assoc in E.
      change (str_to_list "redacted>") with (str_to_list "redacted" ++ [">"%char]) in E.
      by apply app_inj_tail in E as [_ <-]. }
    assert (str_to_list "redacted" = p ++ u) as Hr.
    { rewrite Hu, app_assoc in E.
      change (str_to_list "redacted>") with (str_to_list "redacted" ++ [">"%char]) in E.
      by apply app_inj_tail in E as [-> _]. }
    assert (u ++ ">"%char :: rest = (x :: t) ++ b) as Eu.
    { transitivity ((c :: s) ++ rest); [|done]. by rewrite Hu, <- app_assoc. }
    clear Eb. rename Eu into Eb.
    destruct (decide (length (x :: t) ≤ length u)%nat) as [Hl|Hl].
    - apply Hin. assert (∃ v, u = (x :: t) ++ v) as [v ->].
      { apply (f_equal (take (length u))) in Eb. rewrite take_app_length in Eb.
        rewrite take_app_ge in Eb by done. eauto. }
      exists p, v. by rewrite Hr.
    - apply Hgt. assert (x :: t = u ++ ">"%char :: take (length (x :: t) - length u - 1) rest) as ->.
      { apply (f_equal (take (length (x :: t)))) in Eb. rewrite take_app_length in Eb.
        rewrite <- Eb at 1. rewrite take_app_ge by lia. f_equal.
        destruct (length (x :: t) - length u)%nat as [|n] eqn:En; [lia|].
        cbn [take]. by rewrite Nat.sub_1_r. }
      apply elem_of_app. right. by left. }
  change (str_to_list REDACTED ++ rest) with ("<"%char :: str_to_list "redacted>" ++ rest) in H.
  apply occurs_cons_inv in H as [[b Eb]|H].
  - injection Eb as <- _. exfalso. apply Hlt. by left.
  - by apply (Hgen [] (str_to_list "redacted>")).
Qed.

Lemma redacted_head : ∃ r, str_to_list REDACTED = "<"%char :: r.
Proof. by eexists. Qed.

(** A prefix of the replaced text is a prefix of the text. *)
Lemma prefix_before_replace u t l b :
  ("<"%char ∉ t) → replace_from u (str_to_list REDACTED) 0 l = t ++ b → ∃ b', l = t ++ b'.
Proof.
  revert l b. induction t as [|x t IH]; intros l b Hlt E; [by exists l|].
  destruct l as [|c l]; [done|]. cbn [replace_from] in E. case_match.
  - injection E as <- _. destruct Hlt. by left.
  - injection E as -> E. apply IH in E as [b' ->]; [by exists b'|].
    intros H'. apply Hlt. by right.
Qed.

(** Replacing a token creates no occurrence of another. *)
Lemma replace_creates_none u t skip l :
  distinct_from_placeholder t →
  occurs t (replace_from u (str_to_list REDACTED) skip l) → occurs t l.
Proof.
  intros Ht. revert skip. induction l as [|c l IH]; intros skip; [done|].
  cbn [replace_from]. destruct skip as [|k]; [|intros H; by apply occurs_cons, (IH k)].
  case_match eqn:E; intros H; [by apply occurs_cons, (IH (length u - 1)%nat), occurs_after_placeholder|].
  apply occurs_cons_inv in H as [[b Eb]|H]; [|by apply occurs_cons, (IH 0%nat)].
  assert (∃ b', c :: l = t ++ b') as [b' Hb'].
  { apply (prefix_before_replace u t (c :: l) b); [apply Ht|]. cbn [replace_from]. by rewrite E. }
  by exists [], b'.
Qed.

(** ... and leaves none of its own. *)
Lemma replace_removes t skip l :
  distinct_from_placeholder t → ¬ occurs t (replace_from t (str_to_list REDACTED) skip l).
Proof.
  intros Ht. revert skip. induction l as [|c l IH]; intros skip.
  { intros (a & b & E). destruct Ht as (Hne & _). destruct a, t; done. }
  cbn [replace_from]. destruct skip as [|k]; [|apply IH].
  case_match eqn:E; intros H; [by apply occurs_after_placeholder, IH in H|].
  apply occurs_cons_inv in H as [[b Eb]|H]; [|by apply IH in H].
  assert (prefix_of t (c :: l) = true) as Hp; [|congruence].
  apply prefix_of_spec. apply (prefix_before_replace t t (c :: l) b); [apply Ht|].
  cbn [replace_from]. by rewrite E.
Qed.

Lemma redact_token_preserves t u l :
  distinct_from_placeholder t → ¬ occurs t l → ¬ occurs t (redact_token l u).
Proof. intros Ht Hn H. apply Hn. destruct u; [done|]. by apply replace_creates_none in H. Qed.

Lemma redact_tokens_remove t ts l :
  distinct_from_placeholder t → t ∈ ts ∨ ¬ occurs t l → ¬ occurs t (foldl redact_token l ts).
Proof.
  intros Ht. revert l. induction ts as [|u ts IH]; intros l H; cbn [foldl].
  { destruct H as [H|H]; [by apply elem_of_nil in H | done]. }
  apply IH. destruct H as [[->|H]%elem_of_cons|H]; [|by left|].
  - right. pose proof Ht as (Hne & _). destruct u; [done|]. by apply replace_removes.
  - right. by apply redact_token_preserves.
Qed.

Lemma occurs_take t n l : occurs t (take n l) → occurs t l.
Proof.
  intros (a & b & E). exists a, (b ++ drop n l).
  rewrite <- (take_drop n l), E, <- !app_assoc at 1. done.
Qed.

Lemma redact_message_clean message tokens t :
  t ∈ tokens → distinct_from_placeholder (str_to_list t) →
  ¬ occurs (str_to_list t) (str_to_list (redact_message message tokens)).
Proof.
  intros Ht Hd H. unfold redact_message in H. rewrite str_to_of_list in H.
  apply occurs_take, redact_tokens_remove in H; [done | done | left].
  rewrite (merge_sort_Permutation longer). by apply list_elem_of_fmap_2.
Qed.

Lemma redact_message_short message tokens :
  (String.length (redact_message message tokens) ≤ MAX_MESSAGE_LENGTH)%nat.
Proof.
  unfold redact_message. set (l := foldl _ _ _).
  assert (∀ k, String.length (str_of_list k) = length k) as -> by (induction k; simpl; congruence).
  rewrite length_take. lia.
Qed.

(** C30. The cause attached to a connector error of the PostgreSQL plugin shows
    no secret of the connector: its text is the fixed prefix followed by at
    most 500 characters in which none of the secrets occurs (secrets that are
    themselves parts of the placeholder aside). *)
Theorem connector_error_hides_secrets op e source delay secrets err :
  as_postgres_connector_operation_error op e source delay secrets = Some err →
  ∃ kind cause text,
    classify_sqlalchemy_error e = Some kind ∧
    err = ConnectorOperationError "postgres" op kind source delay (Some cause) None ∧
    exn_message cause = "postgres error: " +:+ text ∧
    (String.length text ≤ MAX_MESSAGE_LENGTH)%nat ∧
    ∀ t, t ∈ secrets → distinct_from_placeholder (str_to_list t) → contains t text = false.
Proof.
  unfold as_postgres_connector_operation_error. destruct (classify_sqlalchemy_error e) as [k|]; [|done].
  intros <-%(inj Some). exists k, (redacted_postgres_cause e secrets), (redact_message (error_text e) secrets).
  split_and!; [done | done | done | apply redact_message_short |].
  intros t Ht Hd. apply not_true_iff_false. intros Hc%contains_chars_spec.
  by apply redact_message_clean in Hc.
Qed.

Definition refused : sql_error :=
  {| is_timeout_error := false; is_interface_error := false; is_programming_error := false;
     is_dbapi_error := true; is_operational_error := true; connection_invalidated := false;
     orig := Some "could not connect"; error_text := "Connection refused for app:hunter2@db hunter2" |}.

Example refused_redacted :
  redact_message (error_text refused) ["hunter2"; "app:hunter2"; "app:hunter2@"]
  = "Connection refused for <redacted>db <redacted>".
Proof. vm_compute. reflexivity. Qed.

Example refused_retryable :
  is_retryable_connector_error <$> as_postgres_connector_operation_error OP_FETCH refused (Some "jobs") None ["hunter2"]
  = Some (Some true).
Proof. vm_compute. reflexivity. Qed.

Lemma connector_error_hides_secrets_witness :
  ∃ err kind cause text,
    as_postgres_connector_operation_error OP_FETCH refused (Some "jobs") None ["hunter2"] = Some err ∧
    classify_sqlalchemy_error refused = Some kind ∧
    err = ConnectorOperationError "postgres" OP_FETCH kind (Some "jobs") None (Some cause) None ∧
    exn_message cause = "postgres error: " +:+ text ∧
    (String.length text ≤ MAX_MESSAGE_LENGTH)%nat ∧
    ∀ t, t ∈ ["hunter2"] → distinct_from_placeholder (str_to_list t) → contains t text = false.
Proof.
  eexists.
  destruct (connector_error_hides_secrets OP_FETCH refused (Some "jobs") None ["hunter2"] _ eq_refl)
    as (k & c & t & H).
  exists k, c, t. split; [reflexivity | exact H].
Defined.
