(* ===== verification/PgSource.v ===== *)
(** * Fetching leased executions
    ([onestep_sql/postgres/execution_source.py])

    [PostgresExecutionSource]: its options, and [fetch], which claims
    executions from a [LeasedExecutionBackend] and wraps the leases in
    deliveries. *)

From stdpp Require Import base option list strings numbers.
From Stdlib Require Import ZArith Lia SpecFloat.
From S2P Require Import Prelude PyFloat Value Resilience Texts Execution SqlErrors.

(** ** [_validate_execution_source_options] *)

Definition option_prefix (field_prefix : string) : string :=
  if str_nonempty field_prefix then field_prefix +:+ "." else "".

(** [isinstance(v, str) and v.strip() and len(v.strip()) <= 255]. *)
Definition short_text (v : value) : option string :=
  match v with
  | VStr s => let s := strip s in
              if str_nonempty s && (String.length s <=? 255)%nat then Some s else None
  | _ => None
  end.

(** A finite number that is not a [bool]: [Some] of the number as [int] or
    [float]. *)
Inductive number := NInt (n : Z) | NFloat (x : float64).

Definition finite_number (msg : string) (v : value) : result exn number :=
  match v with
  | VInt n => if isfinite (float_of_Z n) then Ok (NInt n)
              else Err (overflow_error "int too large to convert to float")
  | VFloat x => if isfinite x then Ok (NFloat x) else Err (value_error msg)
  | _ => Err (value_error msg)
  end.

Definition to_float (x : number) : float64 :=
  match x with NInt n => float_of_Z n | NFloat x => x end.

(** [x > 0]. *)
Definition positive (x : number) : bool :=
  match x with NInt n => (0 <? n)%Z | NFloat x => negb (fleb x f_zero) end.

(** [x / 3]. *)
Definition third (x : number) : float64 :=
  match x with NInt n => int_truediv n 3 | NFloat x => fdiv x (float_of_Z 3) end.

(** [x > y]. *)
Definition above (x : number) (y : float64) : bool :=
  match x with NInt n => Z_gtb_float n y | NFloat x => fltb y x end.

Record source_options := {
  so_namespace : string;
  so_task_names : list string;
  so_batch_size : Z;
  so_poll_interval_s : float64;
  so_lease_duration_s : float64;
  so_heartbeat_interval_s : float64;
  so_worker_id : string;
}.

Definition task_names_of (prefix : string) (task_names : value) : result exn (list string) :=
  match sequence_items task_names with
  | None => Err (type_error (prefix +:+ "task_names must be a sequence of strings"))
  | Some vs =>
      match mapM short_text vs with
      | Some (name :: names) => Ok (name :: names)
      | _ => Err (value_error (prefix +:+ "task_names must be non-empty strings <= 255 characters"))
      end
  end.

Definition _validate_execution_source_options (field_prefix : string)
    (namespace task_names batch_size poll_interval_s lease_duration_s heartbeat_interval_s
     worker_id : value) : result exn source_options :=
  let prefix := option_prefix field_prefix in
  let invalid msg := value_error (prefix +:+ msg) in
  ns ← match short_text namespace with
       | Some s => Ok s
       | None => Err (invalid "namespace must be non-empty and <= 255 characters")
       end;
  tasks ← task_names_of prefix task_names;
  _ ← guard_else (length tasks =? 1)%nat (invalid "task_names must contain exactly one task name");
  _ ← guard_else (bool_decide (NoDup tasks)) (invalid "task_names must be unique");
  batch ← match batch_size with
          | VInt n => _ ← guard_else (1 <=? n)%Z (invalid "batch_size must be >= 1"); Ok n
          | _ => Err (invalid "batch_size must be >= 1")
          end;
  poll ← finite_number (prefix +:+ "poll_interval_s must be a finite number") poll_interval_s;
  lease ← finite_number (prefix +:+ "lease_duration_s must be a finite number") lease_duration_s;
  beat ← finite_number (prefix +:+ "heartbeat_interval_s must be a finite number") heartbeat_interval_s;
  _ ← guard_else (positive poll) (invalid "poll_interval_s must be > 0");
  _ ← guard_else (positive lease) (invalid "lease_duration_s must be > 0");
  _ ← guard_else (positive beat
                  && (negb (above beat (third lease)) || isclose (to_float beat) (third lease)))
        (value_error (prefix +:+ "heartbeat_interval_s must be > 0 and <= "
                      +:+ prefix +:+ "lease_duration_s / 3"));
  worker ← match short_text worker_id with
           | Some s => Ok s
           | None => Err (invalid "worker_id must be non-empty and <= 255 characters")
           end;
  Ok {| so_namespace := ns; so_task_names := tasks; so_batch_size := batch;
        so_poll_interval_s := to_float poll; so_lease_duration_s := to_float lease;
        so_heartbeat_interval_s := to_float beat; so_worker_id := worker |}.

(** ** [PostgresExecutionSource] *)

Record PostgresExecutionSource := {
  src_options : source_options;
  src_name : string;
  src_task_name : string;
}.

(** What the caller passes about the backend: a [dsn], a [backend], and
    whether one of the backend's own options differs from its default. *)
Definition mk_PostgresExecutionSource (dsn backend configured : bool)
    (namespace task_names batch_size poll_interval_s lease_duration_s heartbeat_interval_s
     worker_id : value) : result exn PostgresExecutionSource :=
  o ← _validate_execution_source_options "" namespace task_names batch_size poll_interval_s
        lease_duration_s heartbeat_interval_s worker_id;
  _ ← guard_else (negb (Bool.eqb (negb dsn) (negb backend)))
        (value_error "pass exactly one of dsn or backend");
  _ ← guard_else (negb (backend && configured))
        (value_error "backend configuration requires a dsn");
  Ok {| src_options := o; src_name := "postgres.execution:" +:+ so_namespace o;
        src_task_name := default "" (head (so_task_names o)) |}.

Definition validate_task (s : PostgresExecutionSource) (task_name : string) : result exn unit :=
  guard_else (String.eqb task_name (src_task_name s))
    (value_error (src_name s +:+ " is configured for task '" +:+ src_task_name s
                  +:+ "', not '" +:+ task_name +:+ "'")).

(** ** [fetch] *)

Record PostgresExecutionDelivery := {
  pd_lease : ExecutionLease;
  pd_envelope : Envelope;
}.

Section Fetch.
Context {W : Type} `{LeasedExecutionBackend W}.
Context (deepcopy : value → result exn value).
Context (sql_view : ExecutionException → sql_error).
Context (secrets : list string).
Context (source : PostgresExecutionSource).

(** [except Exception]. *)
Definition is_plain (e : ExecutionException) : bool :=
  match e with Raised e => is_exception e | _ => true end.

(** The connector error of a failed operation, if SQLAlchemy raised. *)
Definition connector_error (op : ConnectorOperation) (delay_s : float64) (e : ExecutionException)
    : option exn :=
  as_postgres_connector_operation_error op (sql_view e) (Some (src_name source)) (Some delay_s) secrets.

(** [copy.deepcopy(dict(m))] for a mapping with string keys. *)
Fixpoint copy_items (items : list (value * value)) : result exn (list (string * value)) :=
  match items with
  | [] => Ok []
  | (VStr k, v) :: items => v' ← deepcopy v; rest ← copy_items items; Ok ((k, v') :: rest)
  | _ :: items => copy_items items
  end.

Definition copy_metadata (m : value) : result exn (list (string * value)) :=
  match m with
  | VDict items => copy_items items
  | _ => Err (type_error "cannot convert dictionary update sequence")
  end.

Definition execution_header (l : ExecutionLease) : value :=
  VStrDict [("id", VStr (uuid_str (ex_id (le_execution l))));
            ("attempt_id", VStr (uuid_str (le_attempt_id l)))].

Definition delivery_of (l : ExecutionLease) : result exn PostgresExecutionDelivery :=
  m ← copy_metadata (ex_metadata (le_execution l));
  b ← deepcopy (ex_payload (le_execution l));
  Ok {| pd_lease := l;
        pd_envelope := {| body := b;
                          meta := dict_set "onestep.execution" (execution_header l) m;
                          attempts := Z.max 0 (ex_attempts (le_execution l) - 1) |} |}.

Definition fetch (limit : Z) : SE W ExecutionException (list PostgresExecutionDelivery) :=
  let o := src_options source in
  leases ← se_try
    (lb_claim (so_namespace o) (so_task_names o) (Z.min limit (so_batch_size o))
       (so_lease_duration_s o) (so_worker_id o))
    (λ e, match (if is_plain e then connector_error OP_FETCH (so_poll_interval_s o) e else None) with
          | Some err => se_raise (Raised err)
          | None => se_raise e
          end);
  se_lift (lift_exn (mapR delivery_of leases)).
End Fetch.
