(* ===== verification/PgDelivery.v ===== *)
(** * Deliveries of leased executions
    ([onestep_sql/postgres/execution_source.py])

    [PostgresExecutionDelivery] runs two asyncio tasks: the owner, which
    executes the delivery and completes it, and the heartbeat task, which
    extends the lease and cancels the owner when the lease is lost or the
    execution is to be cancelled.  Each is at one of its awaits; an action of
    the event loop takes one of them to its next await.

    A cancelled heartbeat task ends with [CancelledError] at its await, or
    goes on if [asyncio.wait_for] loses the cancellation, as it can before
    Python 3.12: both are possible here.  A wait for the stop event does not
    time out once the event is set. *)

From stdpp Require Import base option list strings numbers.
From Stdlib Require Import ZArith Lia SpecFloat.
From S2P Require Import Prelude PyFloat Value Resilience Texts Execution SqlErrors PgSource.

(** ** State *)

(** Where the heartbeat task waits: for the next beat is due, for the answer
    of [backend.heartbeat], for the answer of [backend.lease_remaining], for
    the delay before another try; or it has ended. *)
Inductive heartbeat_pc :=
| HbIdle
| HbBeat (attempt : Z)
| HbAsk (attempt : Z)
| HbPause (attempt : Z) (delay_s : float64)
| HbEnded.

(** The task of [_stop_heartbeat]: not yet begun, waiting for the heartbeat
    task, done. *)
Inductive stop_pc := StopNew | StopWaiting | StopDone.

(** The task of [backend.complete]: under way or done. *)
Inductive complete_pc := InFlight | Answered (r : result ExecutionException Execution).

(** The owner: before [start_processing]; in the code of the executor; in
    [complete_execution], at the [shield] of one of its two tasks, or
    waiting for that task after cancelling it; ended. *)
Inductive owner_pc :=
| OwNew
| OwExecuting
| OwStopping (c : ExecutionCompletion) (inner : stop_pc)
| OwDropStop (c : ExecutionCompletion) (inner : stop_pc)
| OwCompleting (c : ExecutionCompletion) (inner : complete_pc)
| OwDropComplete (c : ExecutionCompletion)
| OwDone.

(** What happened: calls of the backend with their answers, the ends of
    [complete_execution], the beginning of [_stop_heartbeat] and the
    cancellations of the owner. *)
Inductive happening :=
| Heartbeat (r : result ExecutionException HeartbeatResult)
| LeaseRemaining (r : result ExecutionException float64)
| Completed (c : ExecutionCompletion) (r : result ExecutionException Execution)
| Released (r : result ExecutionException Execution)
| Settled (c : ExecutionCompletion) (r : result ExecutionException unit)
| HeartbeatStopped
| OwnerCancelled
| CancelledFromOutside.

Record delivery (W : Type) := {
  world_ : W;
  owner : owner_pc;
  owner_cancelled : bool;          (** a [CancelledError] is to be thrown *)
  hb : option heartbeat_pc;
  _heartbeat_task : bool;          (** the attribute is not [None] *)
  _heartbeat_stop : bool;
  _heartbeat_cancel_pending : bool;
  _completed : bool;
  cancel_requested : bool;
  lease_expires_at : Z;
  log : list happening;            (** newest first *)
}.
Arguments world_ {_} _.
Arguments owner {_} _.
Arguments owner_cancelled {_} _.
Arguments hb {_} _.
Arguments _heartbeat_task {_} _.
Arguments _heartbeat_stop {_} _.
Arguments _heartbeat_cancel_pending {_} _.
Arguments _completed {_} _.
Arguments cancel_requested {_} _.
Arguments lease_expires_at {_} _.
Arguments log {_} _.

Section Setters.
Context {W : Type}.
Implicit Types s : delivery W.

Definition set_world w s : delivery W :=
  {| world_ := w; owner := owner s; owner_cancelled := owner_cancelled s; hb := hb s;
     _heartbeat_task := _heartbeat_task s; _heartbeat_stop := _heartbeat_stop s;
     _heartbeat_cancel_pending := _heartbeat_cancel_pending s; _completed := _completed s;
     cancel_requested := cancel_requested s; lease_expires_at := lease_expires_at s; log := log s |}.

Definition set_owner o s : delivery W :=
  {| world_ := world_ s; owner := o; owner_cancelled := owner_cancelled s; hb := hb s;
     _heartbeat_task := _heartbeat_task s; _heartbeat_stop := _heartbeat_stop s;
     _heartbeat_cancel_pending := _heartbeat_cancel_pending s; _completed := _completed s;
     cancel_requested := cancel_requested s; lease_expires_at := lease_expires_at s; log := log s |}.

Definition set_owner_cancelled b s : delivery W :=
  {| world_ := world_ s; owner := owner s; owner_cancelled := b; hb := hb s;
     _heartbeat_task := _heartbeat_task s; _heartbeat_stop := _heartbeat_stop s;
     _heartbeat_cancel_pending := _heartbeat_cancel_pending s; _completed := _completed s;
     cancel_requested := cancel_requested s; lease_expires_at := lease_expires_at s; log := log s |}.

Definition set_hb h task stop s : delivery W :=
  {| world_ := world_ s; owner := owner s; owner_cancelled := owner_cancelled s; hb := h;
     _heartbeat_task := task; _heartbeat_stop := stop;
     _heartbeat_cancel_pending := _heartbeat_cancel_pending s; _completed := _completed s;
     cancel_requested := cancel_requested s; lease_expires_at := lease_expires_at s; log := log s |}.

Definition set_pending b s : delivery W :=
  {| world_ := world_ s; owner := owner s; owner_cancelled := owner_cancelled s; hb := hb s;
     _heartbeat_task := _heartbeat_task s; _heartbeat_stop := _heartbeat_stop s;
     _heartbeat_cancel_pending := b; _completed := _completed s;
     cancel_requested := cancel_requested s; lease_expires_at := lease_expires_at s; log := log s |}.

Definition set_completed s : delivery W :=
  {| world_ := world_ s; owner := owner s; owner_cancelled := owner_cancelled s; hb := hb s;
     _heartbeat_task := _heartbeat_task s; _heartbeat_stop := _heartbeat_stop s;
     _heartbeat_cancel_pending := _heartbeat_cancel_pending s; _completed := true;
     cancel_requested := cancel_requested s; lease_expires_at := lease_expires_at s; log := log s |}.

Definition set_cancel_requested b s : delivery W :=
  {| world_ := world_ s; owner := owner s; owner_cancelled := owner_cancelled s; hb := hb s;
     _heartbeat_task := _heartbeat_task s; _heartbeat_stop := _heartbeat_stop s;
     _heartbeat_cancel_pending := _heartbeat_cancel_pending s; _completed := _completed s;
     cancel_requested := b; lease_expires_at := lease_expires_at s; log := log s |}.

Definition set_lease_expires_at t s : delivery W :=
  {| world_ := world_ s; owner := owner s; owner_cancelled := owner_cancelled s; hb := hb s;
     _heartbeat_task := _heartbeat_task s; _heartbeat_stop := _heartbeat_stop s;
     _heartbeat_cancel_pending := _heartbeat_cancel_pending s; _completed := _completed s;
     cancel_requested := cancel_requested s; lease_expires_at := t; log := log s |}.

Definition record_ e s : delivery W :=
  {| world_ := world_ s; owner := owner s; owner_cancelled := owner_cancelled s; hb := hb s;
     _heartbeat_task := _heartbeat_task s; _heartbeat_stop := _heartbeat_stop s;
     _heartbeat_cancel_pending := _heartbeat_cancel_pending s; _completed := _completed s;
     cancel_requested := cancel_requested s; lease_expires_at := lease_expires_at s;
     log := e :: log s |}.

Definition set_hb_pc h s : delivery W := set_hb (Some h) (_heartbeat_task s) (_heartbeat_stop s) s.
End Setters.

Section Machine.
Context {W : Type} `{LeasedExecutionBackend W}.
Context (sql_view : ExecutionException → sql_error) (secrets : list string).
Context (source : PostgresExecutionSource) (lease : ExecutionLease).
Implicit Types s : delivery W.

Abbreviation opts := (src_options source).

Definition new_delivery (w : W) : delivery W :=
  {| world_ := w; owner := OwNew; owner_cancelled := false; hb := None; _heartbeat_task := false;
     _heartbeat_stop := false; _heartbeat_cancel_pending := false; _completed := false;
     cancel_requested := false; lease_expires_at := le_lease_expires_at lease; log := [] |}.

(** Run an operation of the backend. *)
Definition ask_backend {A} (m : SE W ExecutionException A) (e : result ExecutionException A → happening)
    s : delivery W * result ExecutionException A :=
  let '(w, r) := m (world_ s) in (record_ (e r) (set_world w s), r).

(** ** The heartbeat task *)

Definition start_processing s : delivery W :=
  if _heartbeat_task s then s else set_hb (Some HbIdle) true false s.

Definition _cancel_owner s : delivery W :=
  match owner s with
  | OwDone => s
  | _ => record_ OwnerCancelled (set_owner_cancelled true (set_pending true s))
  end.

(** [_heartbeat_with_retry] returned [None], or the execution is to be
    cancelled: the loop sets the event, cancels the owner and returns. *)
Definition heartbeat_gives_up s : delivery W :=
  _cancel_owner (set_hb (Some HbEnded) (_heartbeat_task s) true s).

(** The condition of the loop of [_heartbeat_loop]. *)
Definition heartbeat_loop_top s : delivery W :=
  set_hb_pc (if _heartbeat_stop s then HbEnded else HbIdle) s.

Definition _apply_heartbeat_result (r : HeartbeatResult) s : delivery W :=
  set_cancel_requested (hb_cancel_requested r) (set_lease_expires_at (hb_lease_expires_at r) s).

(** [connector_error is not None and is_retryable_connector_error(...)]. *)
Definition retryable_failure (e : ExecutionException) : bool :=
  let connector_err :=
    match e with
    | Raised x => if is_connector_error x then Some x
                  else connector_error sql_view secrets source OP_HEARTBEAT (so_heartbeat_interval_s opts) e
    | _ => connector_error sql_view secrets source OP_HEARTBEAT (so_heartbeat_interval_s opts) e
    end in
  match connector_err with
  | Some x => default false (is_retryable_connector_error x)
  | None => false
  end.

Definition heartbeat_answers (attempt : Z) s : delivery W :=
  let '(s, r) := ask_backend
    (lb_heartbeat (ex_id (le_execution lease)) (le_attempt_id lease) (le_lease_token lease)
       (so_lease_duration_s opts)) Heartbeat s in
  match r with
  | Ok hr =>
      let s := _apply_heartbeat_result hr s in
      if hb_cancel_requested hr then heartbeat_gives_up s else heartbeat_loop_top s
  | Err e =>
      if negb (is_plain e) then set_hb_pc HbEnded s
      else if retryable_failure e then set_hb_pc (HbAsk attempt) s
      else heartbeat_gives_up s
  end.

(** [min(interval * 2 ** min(attempt, 10), remaining / 4)]. *)
Definition retry_delay (attempt : Z) (remaining : float64) : float64 :=
  pymin (fmul (so_heartbeat_interval_s opts) (float_of_Z (2 ^ Z.min attempt 10)))
        (fdiv remaining (float_of_Z 4)).

Definition remaining_answers (attempt : Z) s : delivery W :=
  let '(s, r) := ask_backend (lb_lease_remaining (lease_expires_at s)) LeaseRemaining s in
  match r with
  | Ok remaining =>
      let delay_s := retry_delay attempt remaining in
      if fleb remaining f_zero then heartbeat_gives_up s
      else if fleb delay_s f_zero then heartbeat_gives_up s
      else set_hb_pc (HbPause (attempt + 1) delay_s) s
  | Err e => if is_plain e then heartbeat_gives_up s else set_hb_pc HbEnded s
  end.

(** ** The owner *)

Definition cancelled_error : ExecutionException := Raised (Exn CCancelled "CancelledError" "" None).

(** [complete_execution] returns or raises; the executor goes on. *)
Definition ends (c : ExecutionCompletion) (r : result ExecutionException unit) s : delivery W :=
  record_ (Settled c r) (set_owner OwExecuting s).

Definition complete_execution (c : ExecutionCompletion) s : delivery W :=
  if _completed s then ends c (Ok ()) s else set_owner (OwStopping c StopNew) s.

(** [_stop_heartbeat] up to its [gather]. *)
Definition stop_begins (c : ExecutionCompletion) s : delivery W :=
  record_ HeartbeatStopped
    (set_owner (OwStopping c (if _heartbeat_task s then StopWaiting else StopDone))
       (set_hb (hb s) false true s)).

(** After the first [_await_critical]. *)
Definition stopped (c : ExecutionCompletion) s : delivery W :=
  if _completed s then ends c (Ok ()) s else set_owner (OwCompleting c InFlight) s.

Definition backend_completes (c : ExecutionCompletion) s : delivery W * result ExecutionException Execution :=
  ask_backend
    (lb_complete (ex_id (le_execution lease)) (le_attempt_id lease) (le_lease_token lease) c)
    (Completed c) s.

(** After the second [_await_critical]. *)
Definition completion_answered (c : ExecutionCompletion) (r : result ExecutionException Execution) s
    : delivery W :=
  let s := set_pending false s in
  match r with
  | Err e => ends c (Err e) s
  | Ok x =>
      let s := set_completed s in
      if bool_decide (cp_status c = SUCCEEDED) && bool_decide (ex_status x = CANCELLED)
      then ends c (Err cancelled_error) (set_cancel_requested true s)
      else ends c (Ok ()) s
  end.

(** The owner continues at its await: with a [CancelledError] if one is to
    be thrown, else when the awaited task is done. *)
Definition owner_resumes s : option (delivery W) :=
  let calm := set_owner_cancelled false s in
  match owner s with
  | OwExecuting => if owner_cancelled s then Some calm else None
  | OwStopping c StopDone => Some (stopped c calm)
  | OwStopping c inner =>
      if owner_cancelled s
      then Some (if _heartbeat_cancel_pending s then calm else set_owner (OwDropStop c inner) calm)
      else None
  | OwCompleting c (Answered r) => Some (completion_answered c r calm)
  | OwCompleting c InFlight =>
      if owner_cancelled s
      then Some (if _heartbeat_cancel_pending s then calm else set_owner (OwDropComplete c) calm)
      else None
  | _ => None
  end.

(** The end of a task the owner cancelled; a second cancellation that came
    meanwhile is consumed. *)
Definition dropped (c : ExecutionCompletion) s : delivery W :=
  ends c (Err cancelled_error) (set_owner_cancelled false s).

(** The completions [ack], [retry] and [fail] pass on. *)
Definition ack_completion : ExecutionCompletion :=
  {| cp_status := SUCCEEDED; cp_result := VNone; cp_error := None; cp_delay_s := None |}.

Definition retry_completion (delay_s : value) : result exn ExecutionCompletion :=
  mk_ExecutionCompletion (StatusMember RETRYING) VNone NoError delay_s.

Definition fail_completion (exc : option exn) : result exn ExecutionCompletion :=
  match exc with
  | None => mk_ExecutionCompletion (StatusMember FAILED) VNone NoError VNone
  | Some e =>
      d ← mk_ExecutionErrorDetail (VStr "error") (VStr (exn_type_name e)) VNone VNone VNone VNone;
      mk_ExecutionCompletion (StatusMember FAILED) VNone (ErrorDetail d) VNone
  end.

(** ** Actions *)

Inductive action :=
| ReleaseUnstarted                   (** the runner drops the delivery *)
| StartProcessing                    (** the executor's first call *)
| Complete (c : ExecutionCompletion) (** the executor settles *)
| OwnerEnds
| CancelOwner                        (** by anyone but the heartbeat task *)
| OwnerResumes
| StopBegins
| StopEnds
| CompleteAnswers
| DroppedStopEnds
| DroppedCompleteEnds (committed : bool)
| BeatDue
| HeartbeatAnswers
| RemainingAnswers
| PauseEnds
| StopSeen
| HeartbeatCancelled
| WorldChanges (f : W → W).          (** other workers, clients, time *)

Definition hb_ended s : bool := match hb s with None | Some HbEnded => true | _ => false end.

Definition when (b : bool) (s : delivery W) : option (delivery W) := if b then Some s else None.

Definition step (a : action) s : option (delivery W) :=
  match a, owner s, hb s with
  | ReleaseUnstarted, OwNew, _ =>
      let '(s, r) := ask_backend
        (lb_release (ex_id (le_execution lease)) (le_attempt_id lease) (le_lease_token lease))
        Released s in
      Some (set_owner OwDone s)
  | StartProcessing, OwNew, _ => Some (set_owner OwExecuting (start_processing s))
  | Complete c, OwExecuting, _ => when (negb (owner_cancelled s)) (complete_execution c s)
  | OwnerEnds, OwExecuting, _ => when (negb (owner_cancelled s)) (set_owner OwDone s)
  | CancelOwner, OwNew, _ | CancelOwner, OwDone, _ => None
  | CancelOwner, _, _ => Some (record_ CancelledFromOutside (set_owner_cancelled true s))
  | OwnerResumes, _, _ => owner_resumes s
  | StopBegins, OwStopping c StopNew, _ => Some (stop_begins c s)
  | StopEnds, OwStopping c StopWaiting, _ => when (hb_ended s) (set_owner (OwStopping c StopDone) s)
  | CompleteAnswers, OwCompleting c InFlight, _ =>
      let '(s, r) := backend_completes c s in Some (set_owner (OwCompleting c (Answered r)) s)
  | DroppedStopEnds, OwDropStop c StopNew, _ => Some (dropped c s)
  | DroppedStopEnds, OwDropStop c _, _ => when (hb_ended s) (dropped c s)
  | DroppedCompleteEnds committed, OwDropComplete c, _ =>
      let s := if committed then (backend_completes c s).1 else s in
      Some (dropped c (set_pending false s))
  | BeatDue, _, Some HbIdle => when (negb (_heartbeat_stop s)) (set_hb_pc (HbBeat 0) s)
  | HeartbeatAnswers, _, Some (HbBeat n) => Some (heartbeat_answers n s)
  | RemainingAnswers, _, Some (HbAsk n) => Some (remaining_answers n s)
  | PauseEnds, _, Some (HbPause n _) =>
      when (negb (_heartbeat_stop s)) (set_hb_pc (HbBeat n) s)
  | StopSeen, _, Some HbIdle => when (_heartbeat_stop s) (set_hb_pc HbEnded s)
  | StopSeen, _, Some (HbPause _ _) => when (_heartbeat_stop s) (heartbeat_gives_up s)
  | HeartbeatCancelled, _, Some _ => when (negb (hb_ended s)) (set_hb_pc HbEnded s)
  | WorldChanges f, _, _ => Some (set_world (f (world_ s)) s)
  | _, _, _ => None
  end.

Fixpoint run (acts : list action) s : option (delivery W) :=
  match acts with
  | [] => Some s
  | a :: acts => match step a s with Some s' => run acts s' | None => None end
  end.
End Machine.
