(* ===== verification/PgDeliveryTheorems.v ===== *)
(** * What a delivery of a leased execution guarantees

    Over every interleaving of the owner, the heartbeat task, the backend's
    answers and cancellations from outside. *)

From stdpp Require Import base option list strings numbers.
From Stdlib Require Import ZArith Lia SpecFloat.
From S2P Require Import Prelude PyFloat Value Resilience Texts Execution SqlErrors PgSource PgDelivery.

(** The answer of the backend only reaches the log and the world. *)
Lemma ask_backend_eq {W A} (m : SE W ExecutionException A) e (s : delivery W) :
  ask_backend m e s = (record_ (e (m (world_ s)).2) (set_world (m (world_ s)).1 s), (m (world_ s)).2).
Proof. unfold ask_backend. by destruct (m (world_ s)). Qed.

(** Take apart the matches of a step. *)
Ltac step_cases Hs :=
  repeat (first
    [ rewrite ask_backend_eq in Hs; cbn in Hs
    | match type of Hs with
      | context [match ?x with _ => _ end] => destruct x eqn:?
      end; cbn in Hs; try discriminate Hs ]);
  try (injection Hs as <-).

Section Theorems.
Context {W : Type} `{LeasedExecutionBackend W}.
Context (sql_view : ExecutionException → sql_error) (secrets : list string).
Context (source : PostgresExecutionSource) (lease : ExecutionLease).
Implicit Types s : delivery W.

Abbreviation step := (step sql_view secrets source lease).
Abbreviation run := (run sql_view secrets source lease).

Definition reachable s : Prop := ∃ w acts, run acts (new_delivery lease w) = Some s.

(** [backend.complete] was called; it accepted a completion. *)
Definition is_completed (e : happening) : bool :=
  match e with Completed _ _ => true | _ => false end.
Definition is_accepted (e : happening) : bool :=
  match e with Completed _ (Ok _) => true | _ => false end.
Definition is_stop (e : happening) : bool :=
  match e with HeartbeatStopped => true | _ => false end.
Definition is_owner_cancelled (e : happening) : bool :=
  match e with OwnerCancelled => true | _ => false end.
Definition is_outside (e : happening) : bool :=
  match e with CancelledFromOutside => true | _ => false end.
Definition ever (p : happening → bool) s : bool := existsb p (log s).

(** Past the first [_await_critical]. *)
Definition heartbeat_over (o : owner_pc) : bool :=
  match o with OwStopping _ StopDone | OwCompleting _ _ | OwDropComplete _ => true | _ => false end.

(** The attribute is cleared but the task may still run. *)
Definition waiting_for_heartbeat (o : owner_pc) : bool :=
  match o with OwStopping _ StopWaiting | OwDropStop _ StopWaiting => true | _ => false end.

Definition answer_logged s : Prop :=
  match owner s with OwCompleting c (Answered r) => Completed c r ∈ log s | _ => True end.

Record ok s : Prop := {
  ok_new : owner s = OwNew → hb s = None ∧ _heartbeat_task s = false ∧ log s = [];
  ok_task : _heartbeat_task s = false → hb_ended s = true ∨ waiting_for_heartbeat (owner s) = true;
  ok_waiting : waiting_for_heartbeat (owner s) = true → _heartbeat_task s = false ∧ _heartbeat_stop s = true;
  ok_over : heartbeat_over (owner s) = true → hb_ended s = true ∧ _heartbeat_task s = false;
  ok_completed : ever is_completed s = true → hb_ended s = true ∧ _heartbeat_task s = false;
  ok_flag : _completed s = true → ever is_accepted s = true;
  ok_answer : answer_logged s;
}.

Lemma ok_init w : ok (new_delivery lease w).
Proof. split; cbn; try done; by left. Qed.

(** ** The heartbeat task *)

Definition is_heartbeat_action (a : @action W) : bool :=
  match a with
  | BeatDue | HeartbeatAnswers | RemainingAnswers | PauseEnds | StopSeen | HeartbeatCancelled => true
  | _ => false
  end.

(** What a heartbeat logs. *)
Definition from_heartbeat (e : happening) : bool :=
  match e with Heartbeat _ | LeaseRemaining _ | OwnerCancelled => true | _ => false end.

(** The parts of the state a heartbeat leaves alone. *)
Record heartbeat_moves s s' : Prop := {
  hm_owner : owner s' = owner s;
  hm_task : _heartbeat_task s' = _heartbeat_task s;
  hm_completed : _completed s' = _completed s;
  hm_stop : _heartbeat_stop s = true → _heartbeat_stop s' = true;
  hm_calm : (owner_cancelled s = true → _heartbeat_cancel_pending s = true) →
            owner_cancelled s' = true → _heartbeat_cancel_pending s' = true;
  hm_running : hb_ended s = false;
  hm_log : ∃ l, log s' = l ++ log s ∧ Forall (λ e, from_heartbeat e = true) l;
}.

Lemma moves_refl s : hb_ended s = false → heartbeat_moves s s.
Proof. intros. split; try done. by exists []. Qed.

Lemma moves_hb s s1 h : heartbeat_moves s s1 → heartbeat_moves s (set_hb_pc h s1).
Proof. by intros []. Qed.

Lemma moves_record s s1 e :
  from_heartbeat e = true → heartbeat_moves s s1 → heartbeat_moves s (record_ e s1).
Proof.
  intros He [? ? ? ? ? ? (l & E & F)]. split; try done.
  exists (e :: l). split; [cbn; by rewrite E | by constructor].
Qed.

Lemma moves_stop s s1 h :
  heartbeat_moves s s1 → heartbeat_moves s (set_hb h (_heartbeat_task s1) true s1).
Proof. intros []. by split. Qed.

Lemma moves_cancel s s1 :
  heartbeat_moves s s1 → heartbeat_moves s (set_owner_cancelled true (set_pending true s1)).
Proof. intros []. by split. Qed.

Lemma moves_give_up s s1 : heartbeat_moves s s1 → heartbeat_moves s (heartbeat_gives_up s1).
Proof.
  intros Hm. unfold heartbeat_gives_up, _cancel_owner.
  assert (heartbeat_moves s (set_hb (Some HbEnded) (_heartbeat_task s1) true s1)) as Hm' by by apply moves_stop.
  case_match; by repeat (apply moves_record || apply moves_cancel).
Qed.

Lemma moves_ask {A} (m : SE W ExecutionException A) e s s1 :
  (∀ r, from_heartbeat (e r) = true) → heartbeat_moves s s1 →
  heartbeat_moves s (ask_backend m e s1).1.
Proof.
  intros He Hm. unfold ask_backend. destruct (m (world_ s1)) as [w r]. cbn.
  apply moves_record; [done|]. by destruct Hm.
Qed.

Lemma moves_apply r s s1 : heartbeat_moves s s1 → heartbeat_moves s (_apply_heartbeat_result r s1).
Proof. by intros []. Qed.

Lemma heartbeat_step_moves a s s' :
  is_heartbeat_action a = true → step a s = Some s' → heartbeat_moves s s'.
Proof.
  intros Ha Hs.
  assert (hb_ended s = false → heartbeat_moves s s) as Hrefl by apply moves_refl.
  destruct a; try done; cbn [PgDelivery.step] in Hs; unfold hb_ended in *;
    destruct (hb s) as [[|n|n|n d|]|] eqn:Hh; try done; try specialize (Hrefl eq_refl);
    try (unfold when in Hs; case_match; [|done]); apply (inj Some) in Hs as <-;
    try (by apply moves_hb); try (by apply moves_give_up).
  - unfold heartbeat_answers.
    pose proof (moves_ask (lb_heartbeat (ex_id (le_execution lease)) (le_attempt_id lease)
      (le_lease_token lease) (so_lease_duration_s (src_options source))) Heartbeat s s (λ _, eq_refl) Hrefl) as Hm.
    destruct (ask_backend _ _ _) as [s1 [hr|e]]; cbn in Hm; repeat case_match;
      unfold heartbeat_loop_top; auto using moves_give_up, moves_hb, moves_apply.
  - unfold remaining_answers.
    pose proof (moves_ask (lb_lease_remaining (lease_expires_at s)) LeaseRemaining s s (λ _, eq_refl) Hrefl) as Hm.
    destruct (ask_backend _ _ _) as [s1 [hr|e]]; cbn in Hm; repeat case_match;
      auto using moves_give_up, moves_hb.
Qed.

Lemma from_heartbeat_not p l :
  (∀ e, from_heartbeat e = true → p e = false) → Forall (λ e, from_heartbeat e = true) l →
  existsb p l = false.
Proof. intros Hp. induction 1 as [|e l He _ IH]; cbn; [done|]. by rewrite Hp, IH. Qed.

Lemma moves_ever p s s' :
  (∀ e, from_heartbeat e = true → p e = false) → heartbeat_moves s s' → ever p s' = ever p s.
Proof.
  intros Hp [_ _ _ _ _ _ (l & E & F)]. unfold ever. by rewrite E, existsb_app, from_heartbeat_not.
Qed.

Lemma heartbeat_moves_ok s s' : heartbeat_moves s s' → ok s → ok s'.
Proof.
  intros Hm [O1 O2 O3 O4 O5 O6 O7].
  pose proof (moves_ever is_completed s s' ltac:(by intros []) Hm) as E1.
  pose proof (moves_ever is_accepted s s' ltac:(by intros []) Hm) as E2.
  destruct Hm as [A B C D _ E (l & F & G)].
  split; rewrite ?A, ?B, ?C, ?E1, ?E2.
  - intros Ho. destruct (O1 Ho) as (Hn & _). unfold hb_ended in E. by rewrite Hn in E.
  - intros Ht. right. destruct (O2 Ht) as [He|]; [congruence | done].
  - intros Hw. destruct (O3 Hw). auto.
  - intros Ho. destruct (O4 Ho). congruence.
  - intros Ho. destruct (O5 Ho). congruence.
  - done.
  - unfold answer_logged in *. rewrite A. repeat case_match; try done. subst.
    rewrite F. apply elem_of_app. by right.
Qed.

(** ** The owner *)

Lemma accepted_logged c x l : Completed c (Ok x) ∈ l → existsb is_accepted l = true.
Proof. intros Hin. apply existsb_exists. exists (Completed c (Ok x)). by rewrite <- list_elem_of_In. Qed.

Lemma step_ok a s s' : step a s = Some s' → ok s → ok s'.
Proof.
  destruct (is_heartbeat_action a) eqn:Ha; intros Hs Hok.
  { by eapply heartbeat_moves_ok, Hok; eapply heartbeat_step_moves. }
  destruct Hok as [O1 O2 O3 O4 O5 O6 O7]. destruct s as [w o oc h t st pe co cr le lg].
  unfold ever, answer_logged, hb_ended in *.
  destruct a; try done; clear Ha; cbn [PgDelivery.step owner hb] in Hs;
    unfold owner_resumes, backend_completes, dropped, stopped, completion_answered,
      start_processing, complete_execution, stop_begins, when, ends in Hs;
    rewrite ?ask_backend_eq in Hs; cbn in *.
  all: step_cases Hs; rewrite ?ask_backend_eq; cbn in *; subst.
  all: try specialize (O1 eq_refl); try specialize (O3 eq_refl); try specialize (O4 eq_refl).
  all: split; cbn; unfold ever, hb_ended, answer_logged; cbn; rewrite ?orb_true_r; try discriminate; try tauto.
  all: try (intuition congruence); eauto using accepted_logged.
  all: try (by destruct O1 as (? & ? & ->)); try (by left).
  all: try (intros ->; rewrite O6 by done; apply orb_true_r).
  case_match; [done|]. by right.
Qed.

(** ** Invariants of every run *)

Lemma run_invariant (I : delivery W → Prop) acts s s' :
  (∀ a s s', step a s = Some s' → I s → I s') → run acts s = Some s' → I s → I s'.
Proof.
  intros Hstep. revert s. induction acts as [|a acts IH]; intros s; cbn [PgDelivery.run].
  - by intros [= ->].
  - destruct (step a s) as [s1|] eqn:E; [|done]. intros Hr Hi. eauto.
Qed.

Lemma delivery_ok s : reachable s → ok s.
Proof. intros (w & acts & Hr). eapply run_invariant, ok_init; eauto using step_ok. Qed.

(** What the other actions log. *)
Lemma owner_step_log a s s' :
  is_heartbeat_action a = false → step a s = Some s' →
  ∃ l, log s' = l ++ log s ∧ Forall (λ e, from_heartbeat e = false) l.
Proof.
  intros Ha Hs. destruct s as [w o oc h t st pe co cr le lg].
  destruct a; try done; clear Ha; cbn [PgDelivery.step owner hb] in Hs;
    unfold owner_resumes, backend_completes, dropped, stopped, completion_answered,
      start_processing, complete_execution, stop_begins, when, ends in Hs; cbn in *.
  all: step_cases Hs; rewrite ?ask_backend_eq; cbn in *.
  all: first [ by exists [] | by eexists [_]; split; [done | by repeat constructor]
             | by eexists [_; _]; split; [done | by repeat constructor] ].
Qed.

(** ** Heartbeats come before completions *)

Fixpoint beats_first (l : list happening) : Prop :=
  match l with
  | [] => True
  | Heartbeat _ :: l => existsb is_completed l = false ∧ beats_first l
  | _ :: l => beats_first l
  end.

Lemma beats_first_heartbeat l l' :
  Forall (λ e, from_heartbeat e = true) l → existsb is_completed l' = false → beats_first l' →
  beats_first (l ++ l').
Proof.
  intros Hl Hc Hb. induction Hl as [|e l He Hl IH]; [done|].
  destruct e; try done. cbn. split; [|done].
  rewrite existsb_app, Hc, (from_heartbeat_not _ l); [done | by intros [] | done].
Qed.

Lemma beats_first_other l l' :
  Forall (λ e, from_heartbeat e = false) l → beats_first l' → beats_first (l ++ l').
Proof. intros Hl Hb. induction Hl as [|e l He Hl IH]; [done|]. by destruct e. Qed.

Lemma step_beats_first a s s' :
  step a s = Some s' → ok s ∧ beats_first (log s) → ok s' ∧ beats_first (log s').
Proof.
  intros Hs [Hok Hb]. split; [by eapply step_ok|].
  destruct (is_heartbeat_action a) eqn:Ha.
  - destruct (heartbeat_step_moves _ _ _ Ha Hs) as [_ _ _ _ _ Hr (l & -> & Hl)].
    apply beats_first_heartbeat; [done | | done].
    destruct (existsb is_completed (log s)) eqn:E; [|done].
    destruct (ok_completed s Hok E). congruence.
  - destruct (owner_step_log _ _ _ Ha Hs) as (l & -> & Hl). by apply beats_first_other.
Qed.

Lemma beats_first_split l1 r l2 :
  beats_first (l1 ++ Heartbeat r :: l2) → existsb is_completed l2 = false.
Proof. induction l1 as [|e l1 IH]; cbn; [by intros []|]. destruct e; try done. intros []. auto. Qed.

(** The heartbeat of an execution is over before its completion starts: in
    no interleaving of the owner, the heartbeat task, the backend and
    cancellations does a heartbeat follow a call of [backend.complete], so a
    late heartbeat never meets a lease that the completion gave back. *)
Theorem heartbeat_before_completion s l1 r l2 :
  reachable s → log s = l1 ++ Heartbeat r :: l2 → existsb is_completed l2 = false.
Proof.
  intros (w & acts & Hr) E. apply (beats_first_split l1 r). rewrite <- E.
  apply (run_invariant (λ s, ok s ∧ beats_first (log s)) acts) in Hr; [by destruct Hr | |].
  - intros a s0 s1. apply step_beats_first.
  - split; [apply ok_init | done].
Qed.

(** ** The heartbeat does not interrupt a completion *)

(** How [complete_execution] ends when the backend answered [r]. *)
Definition ending (c : ExecutionCompletion) (r : result ExecutionException Execution)
    : result ExecutionException unit :=
  match r with
  | Err e => Err e
  | Ok x => if bool_decide (cp_status c = SUCCEEDED) && bool_decide (ex_status x = CANCELLED)
            then Err cancelled_error else Ok ()
  end.

(** An end of [complete_execution] after the happenings [l]: the delivery was
    completed before, or it is the backend's answer. *)
Definition explained (c : ExecutionCompletion) (r : result ExecutionException unit)
    (l : list happening) : Prop :=
  r = Ok () ∧ existsb is_accepted l = true ∨ ∃ r', Completed c r' ∈ l ∧ r = ending c r'.

Fixpoint all_explained (l : list happening) : Prop :=
  match l with
  | [] => True
  | Settled c r :: l => explained c r l ∧ all_explained l
  | _ :: l => all_explained l
  end.

Definition dropping (o : owner_pc) : bool :=
  match o with OwDropStop _ _ | OwDropComplete _ => true | _ => false end.

Record uninterrupted s : Prop := {
  un_cancelled : owner_cancelled s = true → _heartbeat_cancel_pending s = true;
  un_owner : dropping (owner s) = false;
  un_log : all_explained (log s);
}.

Lemma all_explained_app l l' :
  Forall (λ e, from_heartbeat e = true) l → all_explained l' → all_explained (l ++ l').
Proof. intros Hl H'. induction Hl as [|e l He Hl IH]; [done|]. by destruct e. Qed.

Lemma ever_app (p : happening → bool) l l' : existsb p (l ++ l') = false → existsb p l' = false.
Proof. rewrite existsb_app. by intros [_ H']%orb_false_iff. Qed.

Lemma step_log_grows a s s' : step a s = Some s' → ∃ l, log s' = l ++ log s.
Proof.
  intros Hs. destruct (is_heartbeat_action a) eqn:Ha.
  - destruct (heartbeat_step_moves _ _ _ Ha Hs) as [_ _ _ _ _ _ (l & ? & _)]. by exists l.
  - destruct (owner_step_log _ _ _ Ha Hs) as (l & ? & _). by exists l.
Qed.

Lemma step_uninterrupted a s s' :
  step a s = Some s' → ok s → ever is_outside s' = false → uninterrupted s → uninterrupted s'.
Proof.
  intros Hs Hok Ho [U1 U2 U3]. destruct (is_heartbeat_action a) eqn:Ha.
  { destruct (heartbeat_step_moves _ _ _ Ha Hs) as [A _ _ _ C _ (l & E & F)].
    split; [auto | by rewrite A | rewrite E; by apply all_explained_app]. }
  destruct Hok as [_ _ _ _ _ O6 O7]. destruct s as [w o oc h t st pe co cr le lg].
  unfold ever, answer_logged in *.
  destruct a; try done; clear Ha; cbn [PgDelivery.step owner hb] in Hs;
    unfold owner_resumes, backend_completes, dropped, stopped, completion_answered,
      start_processing, complete_execution, stop_begins, when, ends in Hs;
    rewrite ?ask_backend_eq in Hs; cbn in *.
  all: step_cases Hs; rewrite ?ask_backend_eq in *; cbn in *; subst; try discriminate.
  all: split; cbn; try tauto; try done; unfold explained, ending; cbn.
  all: try (specialize (U1 eq_refl); discriminate U1).
  all: split; [|done].
  all: first [by left; auto | right; eexists; split; [exact O7|]; cbn].
  all: try match goal with E : _ && _ = _ |- _ => by rewrite E end; done.
Qed.

Lemma all_explained_split l1 c r l2 : all_explained (l1 ++ Settled c r :: l2) → explained c r l2.
Proof. induction l1 as [|e l1 IH]; cbn; [by intros []|]. destruct e; try done. intros []. auto. Qed.

(** The heartbeat task cancels the owner, but never in the middle of a
    completion: unless something else cancels the owner, every call of
    [complete_execution] ends with the answer the backend gave to this
    completion (a [CancelledError] only for a success the backend turned into
    a cancellation), or returns at once because the delivery was completed
    before. *)
Theorem completion_uninterrupted s l1 c r l2 :
  reachable s → CancelledFromOutside ∉ log s → log s = l1 ++ Settled c r :: l2 →
  r = Ok () ∧ existsb is_accepted l2 = true ∨ ∃ r', Completed c r' ∈ l2 ∧ r = ending c r'.
Proof.
  intros (w & acts & Hr) Hn E.
  assert (existsb is_outside (log s) = false) as Ho.
  { apply not_true_iff_false. intros (e & He & Hi)%existsb_exists. destruct e; try done.
    by rewrite <- list_elem_of_In in He. }
  assert (ok s ∧ (ever is_outside s = false → uninterrupted s)) as [_ Hu].
  { apply (run_invariant (λ s, ok s ∧ (ever is_outside s = false → uninterrupted s)) acts) in Hr; [done | |].
    - intros a s0 s1 Hs [Hok Hu]. split; [by eapply step_ok|]. intros Hf.
      eapply step_uninterrupted; eauto. apply Hu. unfold ever in *.
      destruct (step_log_grows _ _ _ Hs) as [l El]. rewrite El in Hf. by apply ever_app in Hf.
    - split; [apply ok_init|]. by split. }
  apply (all_explained_split l1). rewrite <- E. by apply Hu.
Qed.

(** ** A completion ends *)

(** In [complete_execution], once [_stop_heartbeat] has begun. *)
Definition settling s : bool :=
  match owner s with
  | OwStopping _ (StopWaiting | StopDone) | OwDropStop _ StopWaiting
  | OwCompleting _ _ | OwDropComplete _ => true
  | _ => false
  end.

(** Back in the executor. *)
Definition returned s : Prop := owner s = OwExecuting ∧ ∃ c r l, log s = Settled c r :: l.

(** Actions of the two tasks and answers of the backend. *)
Definition internal (a : @action W) : bool :=
  match a with CancelOwner | WorldChanges _ => false | _ => true end.

(** However the actions are ordered, [complete_execution] returns after at
    most [n] of them, and until then there is always a next one. *)
Fixpoint returns_within (n : nat) s : Prop :=
  returned s ∨
  match n with
  | O => False
  | S n => (∃ a s', internal a = true ∧ step a s = Some s') ∧
           ∀ a s', internal a = true → step a s = Some s' → returns_within n s'
  end.

Definition heartbeat_weight s : nat :=
  match hb s with
  | None | Some HbEnded => 0 | Some HbIdle | Some (HbPause _ _) => 2
  | Some (HbAsk _) => 4 | Some (HbBeat _) => 6
  end + Nat.b2n (owner_cancelled s).

Definition owner_weight s : nat :=
  match owner s with
  | OwStopping _ StopWaiting => 8 | OwStopping _ _ => 6
  | OwCompleting _ InFlight => 4 | OwCompleting _ _ => 2
  | OwDropStop _ _ => 3 | OwDropComplete _ => 1
  | _ => 0
  end.

Definition weight s : nat := owner_weight s + heartbeat_weight s.

Lemma give_up_weight s : (heartbeat_weight (heartbeat_gives_up s) ≤ 1)%nat.
Proof.
  unfold heartbeat_gives_up, _cancel_owner, heartbeat_weight. cbn.
  destruct (owner s); cbn; destruct (owner_cancelled s); cbn; lia.
Qed.

Lemma heartbeat_step_weight a s s' :
  is_heartbeat_action a = true → step a s = Some s' → _heartbeat_stop s = true →
  (heartbeat_weight s' < heartbeat_weight s)%nat.
Proof.
  intros Ha Hs Hst. pose proof (Nat.b2n_le_1 (owner_cancelled s)) as Hc. unfold heartbeat_weight at 2.
  destruct a; try done; cbn [PgDelivery.step] in Hs; unfold hb_ended in *;
    destruct (hb s) as [[|n|n|n d|]|] eqn:Hh; try done;
    try (unfold when in Hs; rewrite Hst in Hs); cbn in Hs; try done; apply (inj Some) in Hs as <-;
    try (unfold heartbeat_weight; cbn; lia).
  - unfold heartbeat_answers. rewrite ask_backend_eq. set (s1 := record_ _ _).
    repeat case_match; try (pose proof (give_up_weight s1); lia).
    + match goal with |- context [heartbeat_gives_up ?x] => pose proof (give_up_weight x) end. lia.
    + unfold heartbeat_weight, heartbeat_loop_top. cbn. rewrite Hst. cbn. lia.
    + unfold heartbeat_weight. cbn. lia.
    + unfold heartbeat_weight. cbn. lia.
  - unfold remaining_answers. rewrite ask_backend_eq. set (s1 := record_ _ _).
    repeat case_match; try (pose proof (give_up_weight s1); lia); unfold heartbeat_weight; cbn; lia.
  - pose proof (give_up_weight s). lia.
Qed.

Lemma settling_step a s s' :
  ok s → settling s = true → internal a = true → step a s = Some s' →
  returned s' ∨ settling s' = true ∧ (weight s' < weight s)%nat.
Proof.
  intros Hok Hset Hi Hs. destruct (is_heartbeat_action a) eqn:Ha.
  - pose proof (heartbeat_step_moves _ _ _ Ha Hs) as [A _ _ _ _ E _].
    right. unfold settling, weight, owner_weight in *. rewrite A. split; [done|].
    enough (heartbeat_weight s' < heartbeat_weight s)%nat by lia.
    apply (heartbeat_step_weight a); [done..|].
    destruct (waiting_for_heartbeat (owner s)) eqn:Hw; [by apply (ok_waiting s)|].
    destruct (heartbeat_over (owner s)) eqn:Hov; [destruct (ok_over s Hok Hov); congruence|].
    by destruct (owner s) as [| |? []|? []| | |].
  - destruct s as [w o oc h t st pe co cr le lg]. unfold settling, returned, weight, heartbeat_weight in *.
    destruct a; try done; clear Ha; cbn [PgDelivery.step owner hb] in Hs;
      unfold owner_resumes, backend_completes, dropped, stopped, completion_answered,
        start_processing, complete_execution, stop_begins, when, ends in Hs;
      rewrite ?ask_backend_eq in Hs; cbn in *.
    all: step_cases Hs; rewrite ?ask_backend_eq; cbn in *; subst; try discriminate.
    all: first [left; split; [done | by do 3 eexists] | right; split; [done | cbn; lia]].
Qed.

(** While a completion is under way some task or the backend can move. *)
Lemma settling_progress s :
  ok s → settling s = true → ∃ a s', internal a = true ∧ step a s = Some s'.
Proof.
  intros Hok Hset. destruct (hb_ended s) eqn:He.
  - unfold settling in Hset. destruct (owner s) as [| |c []|c []|c [|r]|c|] eqn:Ho; try done.
    + exists StopEnds. eexists. split; [done|]. cbn. rewrite Ho, He. done.
    + exists OwnerResumes. eexists. split; [done|]. cbn. unfold owner_resumes. rewrite Ho. done.
    + exists DroppedStopEnds. eexists. split; [done|]. cbn. rewrite Ho, He. done.
    + exists CompleteAnswers. eexists. split; [done|]. cbn. unfold backend_completes. rewrite Ho, ask_backend_eq. done.
    + exists OwnerResumes. eexists. split; [done|]. cbn. unfold owner_resumes. rewrite Ho. done.
    + exists (DroppedCompleteEnds false). eexists. split; [done|]. cbn. rewrite Ho. done.
  - exists HeartbeatCancelled. eexists. split; [done|]. cbn. unfold hb_ended in *.
    destruct (hb s); [|done]. by rewrite He.
Qed.

Lemma settling_returns n s :
  ok s → settling s = true → (weight s ≤ n)%nat → returns_within n s.
Proof.
  revert s. induction n as [|n IH]; intros s Hok Hset Hw; right.
  - destruct (settling_progress s Hok Hset) as (a & s' & Hi & Hs).
    unfold settling, weight, owner_weight in *. destruct (owner s) as [| |? []|? []|? []| |]; try done; lia.
  - split; [by apply settling_progress|]. intros a s' Hi Hs.
    destruct (settling_step a s s' Hok Hset Hi Hs) as [Hr|[Hset' Hlt]]; [by destruct n; left|].
    apply IH; [by eapply step_ok | done | lia].
Qed.

(** C29. Completing a delivery terminates: once [complete_execution] has begun
    to stop the heartbeat, it returns after at most fifteen further actions
    of its tasks and the backend, in whatever order the event loop runs
    them, and it never gets stuck before. *)
Theorem completion_terminates s :
  reachable s → settling s = true → returns_within 15 s.
Proof.
  intros Hr Hset. apply settling_returns; [by apply delivery_ok | done |].
  unfold weight, owner_weight, heartbeat_weight.
  pose proof (Nat.b2n_le_1 (owner_cancelled s)).
  destruct (owner s) as [| |? []|? []|? []| |], (hb s) as [[]|]; cbn; lia.
Qed.

(** ** Why the heartbeat cancels its owner *)

(** [lease_remaining] told that no time is left to try again. *)
Definition no_time_left (r : result ExecutionException float64) : Prop :=
  match r with
  | Ok x => fleb x f_zero = true ∨ ∃ n, fleb (retry_delay source n x) f_zero = true
  | Err e => is_plain e = true
  end.

(** The last answer before the cancellation asks for it, or the owner is
    completing the delivery already. *)
Definition has_cause (l : list happening) : Prop :=
  match l with
  | Heartbeat (Ok r) :: _ => hb_cancel_requested r = true
  | Heartbeat (Err e) :: _ => is_plain e = true ∧ retryable_failure sql_view secrets source e = false
  | LeaseRemaining r :: _ => no_time_left r
  | _ => False
  end ∨ existsb is_stop l = true.

Fixpoint all_caused (l : list happening) : Prop :=
  match l with
  | [] => True
  | OwnerCancelled :: l => has_cause l ∧ existsb is_owner_cancelled l = false ∧ all_caused l
  | _ :: l => all_caused l
  end.

Record justified s : Prop := {
  ju_new : owner s = OwNew → log s = [];
  ju_stop : _heartbeat_stop s = true → hb_ended s = true ∨ ever is_stop s = true;
  ju_once : ever is_owner_cancelled s = true → hb_ended s = true;
  ju_log : all_caused (log s);
}.

(** What a heartbeat did before its task goes on, ends or gives up. *)
Definition quiet_log (l : list happening) : Prop :=
  Forall (λ e, match e with Heartbeat _ | LeaseRemaining _ => True | _ => False end) l.

Lemma quiet_caused l l' : quiet_log l → all_caused (l ++ l') ↔ all_caused l'.
Proof. induction 1 as [|e l He _ IH]; [done|]. by destruct e. Qed.

Lemma quiet_ever p l l' :
  (∀ r, p (Heartbeat r) = false) → (∀ r, p (LeaseRemaining r) = false) → quiet_log l →
  existsb p (l ++ l') = existsb p l'.
Proof.
  intros Hp Hq. induction 1 as [|e l He _ IH]; [done|]. destruct e; try done; cbn; by rewrite ?Hp, ?Hq.
Qed.

(** Nothing but answers of the backend was logged. *)
Definition calm s s1 : Prop :=
  owner s1 = owner s ∧ _heartbeat_stop s1 = _heartbeat_stop s ∧
  ∃ l, quiet_log l ∧ log s1 = l ++ log s.

Lemma calm_refl s : calm s s.
Proof. split_and!; [done..|]. exists []. by split; [constructor|]. Qed.

Lemma calm_hb s s1 h : calm s s1 → calm s (set_hb_pc h s1).
Proof. done. Qed.

(** A step of the heartbeat task: it stays calm, or gives up for a cause. *)
Lemma heartbeat_step_shape a s s' :
  is_heartbeat_action a = true → step a s = Some s' →
  hb_ended s = false ∧
  (calm s s' ∨
   ∃ s1, s' = heartbeat_gives_up s1 ∧ calm s s1 ∧ (_heartbeat_stop s = true ∨ has_cause (log s1))).
Proof.
  intros Ha Hs. split; [by destruct (heartbeat_step_moves _ _ _ Ha Hs)|].
  destruct a; try done; cbn [PgDelivery.step] in Hs;
    destruct (hb s) as [[|n|n|n d|]|]; try done;
    try (unfold when in Hs; case_match eqn:Hst; [|done]); apply (inj Some) in Hs as <-.
  all: try (left; apply calm_hb, calm_refl).
  - unfold heartbeat_answers. rewrite ask_backend_eq.
    set (r := (lb_heartbeat _ _ _ _ _).2).
    assert (calm s (record_ (Heartbeat r) (set_world (lb_heartbeat (ex_id (le_execution lease))
      (le_attempt_id lease) (le_lease_token lease) (so_lease_duration_s (src_options source)) (world_ s)).1 s))) as Hc.
    { split_and!; [done..|]. exists [Heartbeat r]. split; [by repeat constructor | done]. }
    unfold has_cause. destruct r as [hr|e]; repeat case_match; try (by left).
    + right. eexists. split; [reflexivity|]. split; [exact Hc|]. by right; left.
    + right. eexists. split; [reflexivity|]. split; [exact Hc|]. right; left.
      split; [by destruct (is_plain e) | done].
  - unfold remaining_answers. rewrite ask_backend_eq.
    set (r := (lb_lease_remaining _ _).2).
    assert (calm s (record_ (LeaseRemaining r) (set_world (lb_lease_remaining (lease_expires_at s) (world_ s)).1 s))) as Hc.
    { split_and!; [done..|]. exists [LeaseRemaining r]. split; [by repeat constructor | done]. }
    unfold has_cause, no_time_left. destruct r as [x|e]; repeat case_match; try (by left).
    + right. eexists. split; [reflexivity|]. split; [exact Hc|]. by right; left; left.
    + right. eexists. split; [reflexivity|]. split; [exact Hc|]. right; left; right. by eexists.
    + right. eexists. split; [reflexivity|]. split; [exact Hc|]. by right; left.
  - right. exists s. split; [done|]. split; [apply calm_refl | by left].
Qed.

Lemma give_up_log s :
  log (heartbeat_gives_up s) = log s ∨ log (heartbeat_gives_up s) = OwnerCancelled :: log s.
Proof. unfold heartbeat_gives_up, _cancel_owner. cbn. destruct (owner s); cbn; auto. Qed.

Lemma give_up_ended s : hb_ended (heartbeat_gives_up s) = true.
Proof. unfold heartbeat_gives_up, _cancel_owner, hb_ended. cbn. by destruct (owner s). Qed.

Lemma give_up_owner s : owner (heartbeat_gives_up s) = owner s.
Proof. unfold heartbeat_gives_up, _cancel_owner. cbn. by destruct (owner s) eqn:E. Qed.

Lemma has_cause_stop l : existsb is_stop l = true → has_cause l.
Proof. by right. Qed.

Lemma owner_step_caused a s s' :
  is_heartbeat_action a = false → step a s = Some s' →
  ever is_owner_cancelled s' = ever is_owner_cancelled s ∧ (all_caused (log s) → all_caused (log s')).
Proof.
  intros Ha Hs. destruct (owner_step_log _ _ _ Ha Hs) as (l & E & Hl). unfold ever. rewrite E. clear E Hs.
  induction Hl as [|e l He Hl [IH1 IH2]]; [done|]. by destruct e.
Qed.

Lemma step_justified a s s' :
  step a s = Some s' → ok s → justified s → justified s'.
Proof.
  intros Hs Hok [J1 J2 J3 J4]. destruct (is_heartbeat_action a) eqn:Ha.
  - destruct (heartbeat_step_shape _ _ _ Ha Hs) as [Hr Hsh].
    assert (ever is_owner_cancelled s = false) as Hn.
    { apply not_true_iff_false. intros Hc. apply J3 in Hc. congruence. }
    assert (owner s ≠ OwNew) as Hne.
    { intros Ho. destruct (ok_new s Hok Ho) as (Hh & _). unfold hb_ended in Hr. by rewrite Hh in Hr. }
    assert (∀ s1, calm s s1 → ever is_owner_cancelled s1 = false ∧ ever is_stop s1 = ever is_stop s ∧
      all_caused (log s1)) as Hcalm.
    { intros s1 (_ & _ & l & Hq & El). unfold ever in *.
      rewrite El, quiet_caused, !(quiet_ever _ l) by done. done. }
    destruct Hsh as [Hc|(s1 & -> & Hc & Hcause)]; destruct (Hcalm _ Hc) as (C1 & C2 & C3), Hc as (Ho & Hst & _).
    + split; [rewrite Ho; done | rewrite Hst, C2 | rewrite C1 |]; try done.
      intros Hs1. destruct (J2 Hs1) as [|]; [congruence | by right].
    + assert (has_cause (log s1)) as Hcs.
      { destruct Hcause as [Hs1|]; [|done]. right. destruct (J2 Hs1) as [|Hv]; [congruence|].
        unfold ever in C2, Hv. by rewrite C2. }
      split; rewrite ?give_up_ended, ?give_up_owner, ?Ho; try done; try by left.
      destruct (give_up_log s1) as [->| ->]; [done|]. by split_and!.
  - destruct (owner_step_caused _ _ _ Ha Hs) as [E1 E2]. rewrite <- E1 in J3.
    enough ((owner s' = OwNew → log s' = []) ∧
            (_heartbeat_stop s' = true → hb_ended s' = true ∨ ever is_stop s' = true) ∧
            (ever is_owner_cancelled s' = true → hb_ended s' = true)) as (? & ? & ?) by (split; auto).
    destruct Hok as [O1 _ _ _ _ _ _]. destruct s as [w o oc h t st pe co cr le lg]. clear J4 E1 E2.
    unfold ever, hb_ended in *.
    destruct a; try done; clear Ha; cbn [PgDelivery.step owner hb] in Hs;
      unfold owner_resumes, backend_completes, dropped, stopped, completion_answered,
        start_processing, complete_execution, stop_begins, when, ends in Hs;
      rewrite ?ask_backend_eq in Hs; cbn in *.
    all: step_cases Hs; rewrite ?ask_backend_eq in *; cbn in *; subst; try discriminate.
    all: split_and!; try discriminate; auto.
    by rewrite J1.
Qed.

Lemma all_caused_split l1 l2 :
  all_caused (l1 ++ OwnerCancelled :: l2) → has_cause l2 ∧ existsb is_owner_cancelled l2 = false.
Proof.
  induction l1 as [|e l1 IH]; cbn; [by intros (? & ? & _)|].
  destruct e; try done. intros (_ & _ & ?). auto.
Qed.

(** The heartbeat task cancels its owner at most once, and only for a
    cause: the backend's last answer told that the execution is to be
    cancelled, or that the lease cannot be extended (a failure that is not
    worth a retry, or no time left to retry), or the owner is completing the
    delivery already, and then the cancellation is absorbed.  A failure that
    can be retried within the lease never reaches the handler. *)
Theorem owner_cancelled_for_cause s l1 l2 :
  reachable s → log s = l1 ++ OwnerCancelled :: l2 →
  has_cause l2 ∧ existsb is_owner_cancelled l2 = false.
Proof.
  intros (w & acts & Hr) E. apply (all_caused_split l1). rewrite <- E.
  apply (run_invariant (λ s, ok s ∧ justified s) acts) in Hr; [by destruct Hr as [_ []] | |].
  - intros a s0 s1 Hs [Hok Hj]. split; [by eapply step_ok | by eapply step_justified].
  - split; [apply ok_init | by split].
Qed.
End Theorems.
