(* ===== verification/PgWorker.v ===== *)
(** * A worker on the PostgreSQL backend

    [PostgresExecutionBackend] as a [LeasedExecutionBackend]: what the
    source, the deliveries and the client of one execution see of each
    other through the tables. *)

From stdpp Require Import base option list strings numbers gmap sorting relations.
From Stdlib Require Import ZArith Lia Ascii SpecFloat.
From S2P Require Import Prelude PyFloat Value Resilience Texts Codec Execution PgStore PgBackend PgInvariant PgLifecycle PgClaim PgTheorems PgSubmit PgList PgClient SqlErrors PgSource PgDelivery PgDeliveryTheorems.

Section Instance_.
Context `{CodecEnv} (cfg : backend_config).
(** The rows other transactions hold locked when a claim runs. *)
Context (locked : world → gset Z).

Instance postgres_leases : LeasedExecutionBackend world := {|
  lb_claim ns names n lease_s worker := λ w,
    let us k := (w_uuid w + 2 * Z.of_nat k, w_uuid w + 2 * Z.of_nat k + 1)%Z in
    let '(w', r) := on_db (claim cfg (w_now w) (locked w) us ns names n lease_s worker) w in
    ({| w_db := w_db w'; w_now := w_now w; w_uuid := (w_uuid w + 2 * Z.max 0 n)%Z |}, r);
  lb_heartbeat id aid token lease_s := λ w, on_db (heartbeat (w_now w) id aid token lease_s) w;
  lb_complete id aid token c := λ w, on_db (complete cfg (w_now w) id aid token c) w;
  lb_release id aid token := λ w, on_db (release (w_now w) id aid token) w;
  lb_lease_remaining t := λ w, (w, Ok (total_seconds (lease_remaining_us (w_now w) t)));
|}.
End Instance_.

Lemma on_db_eq {A} (m : T A) w : on_db m w = (with_db w (m (w_db w)).1, (m (w_db w)).2).
Proof. unfold on_db. by destruct (m (w_db w)). Qed.

(** ** Fetching *)

Lemma delivery_of_lease deepcopy l p :
  delivery_of deepcopy l = Ok p →
  pd_lease p = l ∧ attempts (pd_envelope p) = Z.max 0 (ex_attempts (le_execution l) - 1) ∧
  dict_get "onestep.execution" (meta (pd_envelope p)) = Some (execution_header l) ∧
  deepcopy (ex_payload (le_execution l)) = Ok (body (pd_envelope p)).
Proof.
  unfold delivery_of. intros (m & Hm & (b & Hb & [= <-])%bind_ok)%bind_ok. cbn.
  split_and!; [done | done | apply dict_get_set_eq | done].
Qed.

(** The row, the execution and the lease of one result of [claim]. *)
Lemma claimed_lease `{CodecEnv} cfg now locked us ns names n lease_s worker d d' ls l :
  db_inv d → claim cfg now locked us ns names n lease_s worker d = (d', Ok ls) → l ∈ ls →
  ∃ x y, claimable (after_reclaim cfg now d) now ns names (ex_id (le_execution l)) x = true ∧
    y = leased_row now (le_lease_token l) (le_lease_expires_at l) (strip worker) x ∧
    db_execs d' !! ex_id (le_execution l) = Some y ∧
    _row_to_execution (ex_id (le_execution l)) y = Ok (le_execution l).
Proof.
  intros Hd E Hl. pose proof (claim_cases cfg _ _ _ _ _ _ _ _ _ _ _ Hd E) as [_ Hcases].
  cbn zeta in Hcases. destruct Hcases as (expires & _ & Hls & _).
  destruct (Forall2_elem_r _ _ _ _ Hls Hl) as (ui & Hin & Hlease).
  destruct ui as [[aid token] [id x]], Hlease as (Hrow & _ & He & _ & Et & Ex).
  pose proof (row_to_execution_fields _ _ _ He) as (Hid & _). rewrite Hid, Et, Ex. exists x. eexists.
  split_and!; [|done|exact Hrow|exact He].
  assert ((id, x) ∈ claim_rows now locked ns names n (after_reclaim cfg now d)) as Hx.
  { rewrite <- (with_uuids_rows us (claim_rows _ _ _ _ _ _)). by apply (list_elem_of_fmap_2 snd) in Hin. }
  apply limit_rows_sub, elem_of_select in Hx as [_ Hc]. by apply andb_true_iff in Hc as [Hc _].
Qed.

(** What a worker fetches: at most [min(limit, batch_size)] deliveries, of
    distinct executions that now run under the tokens of their leases; the
    envelope carries the execution's payload as it was submitted and, as its
    attempts, the number of attempts made before this one. *)
Theorem fetched_deliveries `{CodecEnv} cfg locked deepcopy view secrets src limit w w' ds :
  let Hb := postgres_leases cfg locked in
  let o := src_options src in
  db_inv (w_db w) → (∀ v, deepcopy v = Ok v) →
  fetch deepcopy view secrets src limit w = (w', Ok ds) →
  (length ds ≤ Z.to_nat (Z.min limit (so_batch_size o)))%nat ∧
  NoDup (map (λ p, ex_id (le_execution (pd_lease p))) ds) ∧
  ∀ p, p ∈ ds →
    ∃ y, db_execs (w_db w') !! ex_id (le_execution (pd_lease p)) = Some y ∧
      s_namespace (r_sub y) = so_namespace o ∧ s_task_name (r_sub y) ∈ so_task_names o ∧
      r_status y = RUNNING ∧ r_lease_token y = Some (le_lease_token (pd_lease p)) ∧
      r_lease_expires_at y = Some (le_lease_expires_at (pd_lease p)) ∧
      decode_value "" (s_payload (r_sub y)) = Ok (body (pd_envelope p)) ∧
      attempts (pd_envelope p) = (r_attempts y - 1)%Z ∧ (0 ≤ attempts (pd_envelope p))%Z.
Proof.
  intros Hb o Hd Hcopy E. unfold fetch in E. apply se_bind_ok in E as (w1 & ls & E & Eds).
  unfold se_lift in Eds. injection Eds as <- Eds.
  assert (mapR (delivery_of deepcopy) ls = Ok ds) as Hds by (by destruct (mapR _ ls); [|done]; injection Eds as ->).
  clear Eds. unfold se_try in E. cbn [lb_claim Hb postgres_leases] in E. rewrite on_db_eq in E.
  set (us := λ k : nat, _) in E. fold o in E.
  destruct (claim cfg _ _ us _ _ _ _ _ (w_db w)) as [d' [ls'|e]] eqn:Ec; cbn in E;
    [|destruct (is_plain e); [destruct (connector_error _ _ _ _ _ _)|]; discriminate E].
  injection E as <- <-. cbn [w_db]. apply mapR_ok_Forall2 in Hds.
  assert (map (λ p, ex_id (le_execution (pd_lease p))) ds = map (λ l, ex_id (le_execution l)) ls') as Hids.
  { clear -Hds. induction Hds as [|l p ls ds Hp _ IH]; [done|].
    apply delivery_of_lease in Hp as (Hp & _). cbn. by rewrite Hp, IH. }
  rewrite <- (Forall2_length _ _ _ Hds), Hids. split_and!.
  - rewrite <- (length_map (λ l, ex_id (le_execution l)) ls'), (claim_lease_ids _ _ _ _ _ _ _ _ _ _ _ _ Hd Ec).
    unfold claim_rows, limit_rows. rewrite length_fmap, length_take. lia.
  - rewrite (claim_lease_ids _ _ _ _ _ _ _ _ _ _ _ _ Hd Ec).
    unfold claim_rows, limit_rows. rewrite fmap_take. apply take_NoDup, select_NoDup.
  - intros p Hp. apply (Forall2_elem_r _ _ _ _ Hds) in Hp as (l & Hl & Hp).
    apply delivery_of_lease in Hp as (-> & -> & _ & Hbody).
    destruct (claimed_lease _ _ _ _ _ _ _ _ _ _ _ _ _ Hd Ec Hl) as (x & y & Hc & Ey & Hy & He).
    exists y. split; [done|]. pose proof (row_to_execution_fields _ _ _ He)
      as (_ & _ & _ & _ & Ha & _ & _ & _ & Hpay & _).
    pose proof (claim_inv cfg (w_now w) (locked w) us (so_namespace o) (so_task_names o)
      (Z.min limit (so_batch_size o)) (so_lease_duration_s o) (so_worker_id o) _ Hd) as Hd'.
    rewrite Ec in Hd'. pose proof (ok_lease _ (proj1 (inv_rows _ Hd' _ _ Hy))) as Hok.
    rewrite Hcopy in Hbody. injection Hbody as <-. rewrite Ha.
    unfold claimable in Hc. rewrite !andb_true_iff, !bool_decide_eq_true in Hc.
    subst y. cbn in *. destruct Hok as (_ & _ & _ & Hpos).
    split_and!; [tauto | tauto | done | done | done | done | lia | lia].
Qed.

(** ** A cancellation reaches the handler *)

(** The next heartbeat of a running execution after its cancellation. *)
Lemma heartbeat_sees_cancel now id aid token lease_s expires d x a :
  db_execs d !! id = Some x → r_status x = CANCEL_REQUESTED → holds_lease now token x = true →
  db_atts d !! aid = Some a → running_attempt id (Some token) a = true →
  fleb lease_s f_zero = false → after_seconds now lease_s = Ok expires →
  (heartbeat now id aid token lease_s d).2
  = Ok {| hb_lease_expires_at := expires; hb_cancel_requested := true |}.
Proof.
  intros Hx Hst Hh Ha Hr Hpos Hexp. unfold heartbeat, transaction, mbind, se_bind, se_lift.
  rewrite Hpos. cbn. rewrite Hexp. cbn. unfold update_exec. rewrite Hx, Hst, Hh. cbn.
  unfold update_att. cbn. rewrite Ha, Hr. cbn. unfold select_exec, se_gets. cbn.
  rewrite lookup_insert_eq. cbn. by rewrite Hst.
Qed.

Lemma request_cancel_running `{CodecEnv} now id reason d x :
  db_execs d !! id = Some x → r_status x = RUNNING →
  (_request_cancel now (s_namespace (r_sub x)) id reason d).1
  = with_execs <[id := cancel_running now reason x]> d.
Proof.
  intros Hx Hst. unfold _request_cancel, cancel_transaction, transaction, mbind, se_bind, select_exec, se_gets.
  rewrite Hx, bool_decide_true, Hst by done. cbn. unfold update_exec. rewrite Hx. cbn.
  rewrite lookup_insert_eq. cbn. unfold se_lift. by destruct (_row_to_execution _ _).
Qed.

(** C27. A client's cancellation reaches the handler: when the client asked to
    cancel a running execution whose lease is live, the next heartbeat that
    is answered sets [cancel_requested] on the delivery, extends the lease
    and cancels the owner task, and the heartbeat task ends. *)
Theorem cancel_reaches_handler `{CodecEnv} cfg locked view secrets src lease s n t0 reason d x a expires :
  let Hb := postgres_leases cfg locked in
  let id := ex_id (le_execution lease) in
  db_execs d !! id = Some x → r_status x = RUNNING →
  w_db (world_ s) = (_request_cancel t0 (s_namespace (r_sub x)) id reason d).1 →
  holds_lease (w_now (world_ s)) (le_lease_token lease) x = true →
  db_atts d !! le_attempt_id lease = Some a →
  running_attempt id (Some (le_lease_token lease)) a = true →
  fleb (so_lease_duration_s (src_options src)) f_zero = false →
  after_seconds (w_now (world_ s)) (so_lease_duration_s (src_options src)) = Ok expires →
  hb s = Some (HbBeat n) → owner s = OwExecuting →
  ∃ s', step view secrets src lease HeartbeatAnswers s = Some s' ∧
    cancel_requested s' = true ∧ owner_cancelled s' = true ∧
    _heartbeat_cancel_pending s' = true ∧ lease_expires_at s' = expires ∧ hb s' = Some HbEnded.
Proof.
  intros Hb id Hx Hst Hd Hh Ha Hr Hpos Hexp Hhb How.
  rewrite (request_cancel_running _ _ _ _ _ Hx Hst) in Hd.
  unfold PgDelivery.step. rewrite Hhb. eexists. split; [done|].
  unfold heartbeat_answers. rewrite ask_backend_eq. cbn [lb_heartbeat Hb postgres_leases].
  rewrite on_db_eq, (heartbeat_sees_cancel _ _ _ _ _ expires _ (cancel_running t0 reason x) a); try done;
    try (rewrite Hd; done).
  - cbn. unfold heartbeat_gives_up, _cancel_owner. cbn. rewrite How. done.
  - rewrite Hd. cbn. fold id. by rewrite lookup_insert_eq.
Qed.

(** ** What a completed delivery leaves behind *)

(** [complete] answered with a final status: the row is terminal. *)
Lemma complete_final `{CodecEnv} cfg now id aid token c d d' e :
  complete cfg now id aid token c d = (d', Ok e) →
  is_completion (cp_status c) = true → cp_status c ≠ RETRYING →
  ∃ row, db_execs d' !! id = Some row ∧ is_terminal (r_status row) = true ∧
    r_status row ≠ EXPIRED ∧ _row_to_execution id row = Ok e ∧
    (r_status row = cp_status c ∨ cp_status c = SUCCEEDED ∧ r_status row = CANCELLED).
Proof.
  intros E Hc Hnr. unfold complete in E. apply se_bind_ok in E as (d1 & row & E & Ed).
  apply se_lift_ok in Ed as [-> Ed]. exists row.
  apply complete_transaction_ok in E as (x & Hx & res & av & _ & _ & Hcase).
  destruct Hcase as [(a & _ & _ & _ & _ & -> & ->)|(-> & -> & Hst & Ht & Hne & _)].
  - cbn. rewrite lookup_insert_eq. split; [done|].
    destruct (bool_decide (cp_status c = SUCCEEDED)) eqn:Es; cbn.
    + apply bool_decide_eq_true in Es. destruct (bool_decide (r_status x = CANCEL_REQUESTED)); cbn in *.
      * split_and!; [done..|]. by right.
      * rewrite Es in *. split_and!; [done..|]. by left.
    + split_and!; [by destruct (cp_status c) | by destruct (cp_status c) | done | by left].
  - split_and!; [done..|]. by left.
Qed.

Section EndToEnd.
Context `{CodecEnv} (sha256_hex : list ascii → string) (cfg : backend_config).
Context (locked : world → gset Z) (view : ExecutionException → sql_error) (secrets : list string).
Context (src : PostgresExecutionSource) (lease : ExecutionLease).

#[local] Instance leases : LeasedExecutionBackend world := postgres_leases cfg locked.
Abbreviation exec_id := (ex_id (le_execution lease)).
Abbreviation step := (step view secrets src lease).
Abbreviation run := (run view secrets src lease).

(** The executor passes valid completions, and everyone else works on the
    tables through the backend. *)
Definition through_backend (a : @action world) : Prop :=
  match a with
  | Complete c => is_completion (cp_status c) = true
  | WorldChanges f =>
      ∀ w, ∃ os, Forall op_ok os ∧ w_db (f w) = run_ops sha256_hex cfg (w_db w) os
  | _ => True
  end.

Definition valid_owner (o : owner_pc) : Prop :=
  match o with
  | OwStopping c _ | OwDropStop c _ | OwCompleting c _ | OwDropComplete c =>
      is_completion (cp_status c) = true
  | _ => True
  end.

Lemma heartbeat_action_ops a s s' :
  is_heartbeat_action a = true → step a s = Some s' →
  ∃ os, Forall op_ok os ∧ w_db (world_ s') = run_ops sha256_hex cfg (w_db (world_ s)) os.
Proof.
  intros Ha Hs.
  assert (∀ s1 : delivery world, world_ (heartbeat_gives_up s1) = world_ s1) as Hg
    by (intros [? [] ? ? ? ? ? ? ? ? ?]; reflexivity).
  assert (world_ s' = world_ s → ∃ os, Forall op_ok os ∧
    w_db (world_ s') = run_ops sha256_hex cfg (w_db (world_ s)) os) as Hsame
    by (intros ->; by exists []).
  destruct a; try done; cbn [PgDelivery.step] in Hs;
    destruct (hb s) as [[|n|n|n d|]|]; try done;
    try (unfold when in Hs; case_match; [|done]); apply (inj Some) in Hs as <-;
    try (by apply Hsame); try (apply Hsame, Hg).
  - exists [OpHeartbeat (w_now (world_ s)) exec_id (le_attempt_id lease) (le_lease_token lease)
              (so_lease_duration_s (src_options src))].
    split; [by repeat constructor|]. cbn. unfold heartbeat_answers. rewrite ask_backend_eq.
    cbn [lb_heartbeat leases postgres_leases]. rewrite on_db_eq.
    repeat case_match; rewrite ?Hg; done.
  - apply Hsame. unfold remaining_answers. rewrite ask_backend_eq.
    repeat case_match; rewrite ?Hg; cbn; by destruct s.
Qed.

Lemma answered_completion c w c1 x1 lg :
  let answer := complete cfg (w_now w) exec_id (le_attempt_id lease) (le_lease_token lease) c (w_db w) in
  is_completion (cp_status c) = true → Completed c1 (Ok x1) ∈ Completed c answer.2 :: lg →
  Completed c1 (Ok x1) ∈ lg ∨
  is_completion (cp_status c1) = true ∧
  ∃ now, complete cfg now exec_id (le_attempt_id lease) (le_lease_token lease) c1 (w_db w)
         = (answer.1, Ok x1).
Proof.
  intros answer Hc [E|Hin]%elem_of_cons; [|by left]. right.
  assert (c1 = c ∧ answer.2 = Ok x1) as [-> Hr] by by injection E.
  split; [done|]. exists (w_now w). fold answer. rewrite <- Hr. by destruct answer.
Qed.

(** What one action does to the tables, and which completions it logs. *)
Lemma step_tables a s s' :
  through_backend a → valid_owner (owner s) → step a s = Some s' →
  valid_owner (owner s') ∧
  (∃ os, Forall op_ok os ∧ w_db (world_ s') = run_ops sha256_hex cfg (w_db (world_ s)) os) ∧
  ∀ c x, Completed c (Ok x) ∈ log s' → Completed c (Ok x) ∈ log s ∨
    is_completion (cp_status c) = true ∧
    ∃ now, complete cfg now exec_id (le_attempt_id lease) (le_lease_token lease) c (w_db (world_ s))
           = (w_db (world_ s'), Ok x).
Proof.
  intros Hg Hv Hs. destruct (is_heartbeat_action a) eqn:Ha.
  - destruct (heartbeat_step_moves _ _ _ _ _ _ _ Ha Hs) as [Ho _ _ _ _ _ (l & El & Hl)].
    split_and!; [by rewrite Ho | by eapply heartbeat_action_ops |].
    intros c x Hin. left. rewrite El in Hin. apply elem_of_app in Hin as [Hin|Hin]; [|done].
    rewrite Forall_forall in Hl. by apply Hl in Hin.
  - destruct s as [w o oc h t st pe co cr le lg].
    destruct a; try done; clear Ha; cbn [PgDelivery.step owner hb] in Hs;
      unfold owner_resumes, backend_completes, dropped, stopped, completion_answered,
        start_processing, complete_execution, stop_begins, when, ends in Hs; cbn in *.
    all: step_cases Hs; rewrite ?ask_backend_eq, ?on_db_eq; cbn in *; subst; try discriminate.
    all: rewrite ?on_db_eq; cbn.
    all: split_and!; try done; try (by exists []); try apply Hg.
    all: try (intros c1 x1 Hin; repeat (apply elem_of_cons in Hin as [Hin|Hin]; [discriminate Hin|]); by left).
    all: try (eexists [OpRelease _ _ _ _]; split; [by repeat constructor | done]).
    all: try (eexists [OpComplete _ _ _ _ _]; split; [by repeat constructor | done]).
    + intros c1 x1. by apply answered_completion.
    + intros c1 x1 [?|Hin]%elem_of_cons; [done|]. by apply answered_completion.
Qed.

Record tables_agree s : Prop := {
  ta_inv : db_inv (w_db (world_ s));
  ta_owner : valid_owner (owner s);
  ta_rows : ∀ c x, Completed c (Ok x) ∈ log s → cp_status c ≠ RETRYING →
    ∃ row, db_execs (w_db (world_ s)) !! exec_id = Some row ∧ is_terminal (r_status row) = true ∧
      r_status row ≠ EXPIRED ∧ _row_to_execution exec_id row = Ok x ∧
      (r_status row = cp_status c ∨ cp_status c = SUCCEEDED ∧ r_status row = CANCELLED);
}.

Lemma step_tables_agree a s s' :
  through_backend a → step a s = Some s' → tables_agree s → tables_agree s'.
Proof.
  intros Hg Hs [T1 T2 T3]. destruct (step_tables _ _ _ Hg T2 Hs) as (Ho & (os & Hos & Hdb) & Hlog).
  split; [rewrite Hdb; by apply run_ops_inv | done |].
  intros c x Hin Hnr. destruct (Hlog _ _ Hin) as [Hold|(Hc & now & E)].
  - destruct (T3 _ _ Hold Hnr) as (row & Hrow & Ht & Hrest).
    destruct (run_ops_evolves sha256_hex cfg _ os Hos T1 _ _ Hrow) as (y & Hy & Hxy).
    rewrite Hdb. exists y. apply rtc_terminal in Hxy as ->; done.
  - by eapply complete_final.
Qed.

Lemma run_tables_agree acts s s' :
  Forall through_backend acts → run acts s = Some s' → tables_agree s → tables_agree s'.
Proof.
  intros Hg. revert s. induction Hg as [|a acts Ha _ IH]; intros s; cbn [PgDelivery.run].
  - by intros [= ->].
  - destruct (step a s) as [s1|] eqn:E; [|done]. intros Hr Hi. eauto using step_tables_agree.
Qed.
End EndToEnd.

(** From the worker to the client: once [backend.complete] accepted a final
    completion of a delivery, and whatever the heartbeat task, the owner,
    other workers, clients and cancellations do before and after,
    [ExecutionClient.result] reports the outcome of the execution the worker
    was given: the status it completed with, or [CANCELLED] when a success
    met a cancellation. *)
Theorem completed_delivery_read `{CodecEnv} sha256_hex cfg locked view secrets src lease w acts s c x :
  let Hl := postgres_leases cfg locked in
  let Hb := postgres_backend sha256_hex cfg in
  db_inv (w_db w) → Forall (through_backend sha256_hex cfg) acts →
  run view secrets src lease acts (new_delivery lease w) = Some s →
  Completed c (Ok x) ∈ log s → cp_status c ≠ RETRYING →
  client_result (ex_namespace x) (VUuid (ex_id (le_execution lease))) (world_ s)
  = (world_ s, outcome x) ∧
  (ex_status x = cp_status c ∨ cp_status c = SUCCEEDED ∧ ex_status x = CANCELLED).
Proof.
  intros Hl Hb Hd Hg Hr Hin Hnr.
  assert (tables_agree lease (new_delivery lease w)) as Hi.
  { split; [done | done |]. intros ? ? []%elem_of_nil. }
  destruct (ta_rows _ _ (run_tables_agree sha256_hex cfg locked view secrets src lease _ _ _ Hg Hr Hi) _ _ Hin Hnr)
    as (row & Hrow & Ht & Hne & He & Hst).
  pose proof (row_to_execution_fields _ _ _ He) as (_ & _ & _ & Hs & _). rewrite Hs.
  split; [|done]. apply (client_result_row sha256_hex cfg _ row); by rewrite ?Hs.
Qed.
