(* ===== verification/PgWorkerDemo.v ===== *)
(** * Concrete runs of a worker

    A worker fetches one execution and completes it, or is told by its
    heartbeat that a client cancelled; witnesses for the properties of
    deliveries. *)

From stdpp Require Import base option list strings numbers gmap sorting relations.
From Stdlib Require Import ZArith Lia Ascii SpecFloat.
From S2P Require Import Prelude PyFloat Value Resilience Texts Codec Execution PgStore PgBackend PgInvariant PgLifecycle PgClaim PgTheorems PgSubmit PgList PgClient SqlErrors PgSource PgDelivery PgDeliveryTheorems PgWorker.

(** ** A world, a source and a lease *)

(** [classify_sqlalchemy_error] finds no SQLAlchemy error. *)
Definition no_sql_error (e : ExecutionException) : sql_error :=
  {| is_timeout_error := false; is_interface_error := false; is_programming_error := false;
     is_dbapi_error := false; is_operational_error := false; connection_invalidated := false;
     orig := None; error_text := exception_message e |}.

Definition demo_source : PostgresExecutionSource :=
  {| src_options :=
       {| so_namespace := "app"; so_task_names := ["report"]; so_batch_size := 4;
          so_poll_interval_s := seconds 1; so_lease_duration_s := seconds 90;
          so_heartbeat_interval_s := seconds 30; so_worker_id := "worker" |};
     src_name := "postgres.execution:app"; src_task_name := "report" |}.

Example demo_source_valid :
  mk_PostgresExecutionSource false true false (VStr "app ") (VList [VStr "report"]) (VInt 4)
    (VInt 1) (VFloat (seconds 90)) (VInt 30) (VStr " worker")
  = Ok demo_source.
Proof. vm_compute. reflexivity. Qed.

Example heartbeat_at_a_third :
  is_ok (_validate_execution_source_options "" (VStr "app") (VTuple [VStr "report"]) (VInt 1)
    (VInt 1) (VInt 90) (VFloat (seconds 30)) (VStr "w")) = true ∧
  is_ok (_validate_execution_source_options "" (VStr "app") (VTuple [VStr "report"]) (VInt 1)
    (VInt 1) (VInt 90) (VInt 31) (VStr "w")) = false.
Proof. vm_compute. split; reflexivity. Qed.

(** One submitted execution; two seconds have passed. *)
Definition demo_world : world :=
  {| w_db := run_ops str_of_list demo_config empty_db (take 1 demo_history);
     w_now := 2000000; w_uuid := 10 |}.

#[local] Instance demo_leases : LeasedExecutionBackend world := postgres_leases demo_config (λ _, ∅).

Definition demo_fetch : world * result ExecutionException (list PostgresExecutionDelivery) :=
  fetch Ok no_sql_error [] demo_source 10 demo_world.

Definition demo_delivery : option PostgresExecutionDelivery :=
  match demo_fetch.2 with Ok ds => head ds | Err _ => None end.

Definition demo_lease : ExecutionLease := Eval vm_compute in
  match demo_delivery as o return (match o with Some _ => ExecutionLease | None => unit end) with
  | Some p => pd_lease p
  | None => tt
  end.

Example demo_fetched :
  (λ p, (pd_lease p, attempts (pd_envelope p), le_lease_expires_at (pd_lease p))) <$> demo_delivery
  = Some (demo_lease, 0, 92000000)%Z.
Proof. vm_compute. reflexivity. Qed.

Lemma fetched_deliveries_witness :
  ∃ w' ds, fetch Ok no_sql_error [] demo_source 10 demo_world = (w', Ok ds) ∧
    length ds = 1%nat ∧ NoDup (map (λ p, ex_id (le_execution (pd_lease p))) ds).
Proof.
  destruct (fetch Ok no_sql_error [] demo_source 10 demo_world) as [w' [ds|]] eqn:E;
    [|vm_compute in E; discriminate].
  exists w', ds. split; [reflexivity|].
  assert (length ds = 1%nat) as Hl by (vm_compute in E; injection E as _ <-; reflexivity).
  split; [exact Hl|].
  refine (proj1 (proj2 (fetched_deliveries demo_config (λ _, ∅) Ok no_sql_error [] demo_source 10
    demo_world w' ds _ (λ v, eq_refl) E))).
  apply run_ops_inv; [repeat constructor | apply empty_db_inv].
Defined.

Definition demo_claim : op :=
  OpClaim 2000000 ∅ (λ k, (10 + 2 * Z.of_nat k, 10 + 2 * Z.of_nat k + 1)%Z) "app" ["report"] 4
    (seconds 90) "worker".

Lemma demo_fetch_inv : db_inv (w_db demo_fetch.1).
Proof.
  assert (w_db demo_fetch.1 = run_ops str_of_list demo_config empty_db (take 1 demo_history ++ [demo_claim]))
    as -> by (vm_compute; reflexivity).
  apply run_ops_inv; [repeat constructor | apply empty_db_inv].
Qed.

(** ** Runs *)

Definition demo_start : delivery world := new_delivery demo_lease demo_fetch.1.

Definition demo_run (acts : list (@action world)) : option (delivery world) :=
  run no_sql_error [] demo_source demo_lease acts demo_start.

Definition at_time (now : Z) (w : world) : world :=
  {| w_db := w_db w; w_now := now; w_uuid := w_uuid w |}.

(** The client asks to cancel. *)
Definition client_cancels (w : world) : world :=
  with_db w (_request_cancel (w_now w) "app" 1 (Some "stop") (w_db w)).1.

(** One heartbeat, then the handler succeeds. *)
Definition success_run : list (@action world) :=
  [StartProcessing; WorldChanges (at_time 32000000); BeatDue; HeartbeatAnswers;
   Complete (succeeded (VStr "done")); StopBegins; HeartbeatCancelled; StopEnds; OwnerResumes;
   WorldChanges (at_time 40000000); CompleteAnswers; OwnerResumes; OwnerEnds].

(** A client cancels while the handler runs; the heartbeat tells. *)
Definition cancel_run : list (@action world) :=
  [StartProcessing; WorldChanges client_cancels; WorldChanges (at_time 32000000); BeatDue;
   HeartbeatAnswers].

(** ... and the executor completes as cancelled. *)
Definition cancelled : ExecutionCompletion :=
  {| cp_status := CANCELLED; cp_result := VNone; cp_error := None; cp_delay_s := None |}.

Definition cancel_settled_run : list (@action world) :=
  cancel_run ++ [OwnerResumes; Complete cancelled; StopBegins; StopEnds; OwnerResumes;
                 CompleteAnswers; OwnerResumes].

Example demo_runs :
  (λ s, (owner s, _completed s, cancel_requested s)) <$> demo_run success_run
  = Some (OwDone, true, false) ∧
  (λ s, (owner_cancelled s, hb s, lease_expires_at s)) <$> demo_run cancel_run
  = Some (true, Some HbEnded, 122000000%Z) ∧
  (λ s, (owner s, _completed s, cancel_requested s)) <$> demo_run cancel_settled_run
  = Some (OwExecuting, true, true).
Proof. vm_compute. split_and!; reflexivity. Qed.

Definition final (acts : list (@action world)) : delivery world := default demo_start (demo_run acts).

Ltac runs := vm_compute; reflexivity.

Definition ran (acts : list (@action world)) : bool :=
  match demo_run acts with Some _ => true | None => false end.

Lemma ran_final acts : ran acts = true → demo_run acts = Some (final acts).
Proof. unfold ran, final. by destruct (demo_run acts). Qed.

Lemma reached acts : ran acts = true → reachable no_sql_error [] demo_source demo_lease (final acts).
Proof. intros E%ran_final. by exists demo_fetch.1, acts. Qed.

Lemma never_outside l : existsb is_outside l = false → CancelledFromOutside ∉ l.
Proof.
  intros E Hin. apply not_true_iff_false in E. apply E, existsb_exists.
  exists CancelledFromOutside. by rewrite <- list_elem_of_In.
Qed.

(** ** Witnesses *)

Lemma heartbeat_before_completion_witness :
  ∃ l1 r, log (final success_run) = l1 ++ [Heartbeat r] ∧
    existsb is_completed (log (final success_run)) = true ∧
    existsb is_completed (@nil happening) = false.
Proof.
  assert (∃ l1 r, log (final success_run) = l1 ++ [Heartbeat r]) as (l1 & r & E).
  { exists (take 3 (log (final success_run))). eexists. runs. }
  exists l1, r. split; [exact E|]. split; [runs|].
  exact (heartbeat_before_completion no_sql_error [] demo_source demo_lease (final success_run) l1 r []
    (reached success_run ltac:(runs)) E).
Defined.

Lemma completion_uninterrupted_witness :
  let l := tail (log (final cancel_settled_run)) in
  log (final cancel_settled_run) = Settled cancelled (Ok ()) :: l ∧
  existsb is_owner_cancelled l = true ∧
  (Ok () = @Ok ExecutionException unit () ∧ existsb is_accepted l = true ∨
   ∃ r', Completed cancelled r' ∈ l ∧ Ok () = ending cancelled r').
Proof.
  intros l.
  assert (log (final cancel_settled_run) = [] ++ Settled cancelled (Ok ()) :: l) as E by runs.
  split; [exact E|]. split; [runs|].
  exact (completion_uninterrupted no_sql_error [] demo_source demo_lease (final cancel_settled_run) []
    cancelled (Ok ()) l (reached cancel_settled_run ltac:(runs))
    (never_outside (log (final cancel_settled_run)) ltac:(runs)) E).
Defined.

Lemma completion_terminates_witness :
  settling (final (take 6 success_run)) = true ∧
  returns_within no_sql_error [] demo_source demo_lease 15 (final (take 6 success_run)).
Proof.
  split; [runs|].
  apply (completion_terminates no_sql_error [] demo_source demo_lease (final (take 6 success_run))).
  - apply reached. runs.
  - runs.
Defined.

Lemma owner_cancelled_for_cause_witness :
  ∃ l2, log (final cancel_run) = OwnerCancelled :: l2 ∧
    has_cause no_sql_error [] demo_source l2 ∧ existsb is_owner_cancelled l2 = false.
Proof.
  exists (tail (log (final cancel_run))).
  assert (log (final cancel_run) = [] ++ OwnerCancelled :: tail (log (final cancel_run))) as E by runs.
  split; [exact E|].
  exact (owner_cancelled_for_cause no_sql_error [] demo_source demo_lease (final cancel_run) []
    (tail (log (final cancel_run))) (reached cancel_run ltac:(runs)) E).
Defined.

(** The rows the worker leased. *)
Definition demo_row : exec_row := Eval vm_compute in
  match db_execs (w_db demo_fetch.1) !! 1%Z as o
    return (match o with Some _ => exec_row | None => unit end) with
  | Some x => x | None => tt
  end.

Definition demo_attempt : att_row := Eval vm_compute in
  match db_atts (w_db demo_fetch.1) !! 10%Z as o
    return (match o with Some _ => att_row | None => unit end) with
  | Some x => x | None => tt
  end.

Lemma cancel_reaches_handler_witness :
  ∃ s', step no_sql_error [] demo_source demo_lease HeartbeatAnswers (final (take 4 cancel_run)) = Some s' ∧
    cancel_requested s' = true ∧ owner_cancelled s' = true.
Proof.
  assert (db_execs (w_db demo_fetch.1) !! ex_id (le_execution demo_lease) = Some demo_row) as E1 by runs.
  assert (r_status demo_row = RUNNING) as E2 by runs.
  assert (w_db (world_ (final (take 4 cancel_run)))
          = (_request_cancel 2000000 (s_namespace (r_sub demo_row)) (ex_id (le_execution demo_lease))
               (Some "stop") (w_db demo_fetch.1)).1) as E3 by runs.
  assert (holds_lease (w_now (world_ (final (take 4 cancel_run)))) (le_lease_token demo_lease) demo_row = true)
    as E4 by runs.
  assert (db_atts (w_db demo_fetch.1) !! le_attempt_id demo_lease = Some demo_attempt) as E5 by runs.
  assert (running_attempt (ex_id (le_execution demo_lease)) (Some (le_lease_token demo_lease)) demo_attempt = true)
    as E6 by runs.
  assert (fleb (so_lease_duration_s (src_options demo_source)) f_zero = false) as E7 by runs.
  assert (after_seconds (w_now (world_ (final (take 4 cancel_run))))
            (so_lease_duration_s (src_options demo_source)) = Ok 122000000%Z) as E8 by runs.
  assert (hb (final (take 4 cancel_run)) = Some (HbBeat 0)) as E9 by runs.
  assert (owner (final (take 4 cancel_run)) = OwExecuting) as E10 by runs.
  destruct (cancel_reaches_handler demo_config (λ _, ∅) no_sql_error [] demo_source demo_lease
    (final (take 4 cancel_run)) 0 2000000 (Some "stop") (w_db demo_fetch.1) demo_row demo_attempt 122000000
    E1 E2 E3 E4 E5 E6 E7 E8 E9 E10) as (s' & Hs & H1 & H2 & _).
  exists s'. split; [exact Hs|]. split; [exact H1 | exact H2].
Defined.

Lemma completed_delivery_read_witness :
  ∃ x, Completed (succeeded (VStr "done")) (Ok x) ∈ log (final success_run) ∧
    client_result (H:=postgres_backend str_of_list demo_config) (ex_namespace x) (VUuid 1)
      (world_ (final success_run)) = (world_ (final success_run), outcome x) ∧
    outcome x = Ok (VStr "done").
Proof.
  assert (∃ x, log (final success_run) !! 1%nat = Some (Completed (succeeded (VStr "done")) (Ok x)) ∧
    outcome x = Ok (VStr "done")) as (x & Hx & Hout).
  { eexists. split; runs. }
  apply list_elem_of_lookup_2 in Hx. exists x. split; [exact Hx|]. split; [|exact Hout].
  refine (proj1 (completed_delivery_read str_of_list demo_config (λ _, ∅) no_sql_error [] demo_source demo_lease
    demo_fetch.1 success_run (final success_run) (succeeded (VStr "done")) x _ _ _ Hx _)).
  - apply demo_fetch_inv.
  - repeat constructor; intros w; exists []; split; [constructor | reflexivity | constructor | reflexivity].
  - runs.
  - discriminate.
Defined.

(** ** An unsettled delivery keeps its lease

    When the owner ends without completing the delivery, the heartbeat task
    goes on and extends the lease, so no other worker gets the execution. *)
Definition abandoned_run : list (@action world) :=
  [StartProcessing; OwnerEnds; WorldChanges (at_time 32000000); BeatDue; HeartbeatAnswers;
   WorldChanges (at_time 62000000); BeatDue; HeartbeatAnswers].

Example unsettled_delivery_keeps_its_lease :
  (λ s, (owner s, hb s, lease_expires_at s)) <$> demo_run abandoned_run
  = Some (OwDone, Some HbIdle, 152000000%Z) ∧
  (λ w, (fetch Ok no_sql_error [] demo_source 10 w).2)
    (at_time 100000000 (world_ (final abandoned_run))) = Ok [].
Proof. vm_compute. split; reflexivity. Qed.
