(* ===== verification/Capture.v ===== *)
(** * Capturing failed envelopes ([onestep/capture/writer.py], [config.py])

    [FailureCaptureConfig], the redaction of an envelope, the document that
    [FailureCaptureWriter] writes and the one [load_capture] accepts.  The
    file system is not modelled: a capture is its JSON document and the size
    of its text. *)

From stdpp Require Import base option list strings numbers sorting.
From Stdlib Require Import ZArith Lia Ascii SpecFloat.
From S2P Require Import Prelude PyFloat Value Invoke Retry Texts Codec.

(** ** [FailureCaptureConfig] *)

Inductive CaptureMode := MODE_TERMINAL | MODE_ALL.

Record FailureCaptureConfig := {
  directory : string;
  mode : CaptureMode;
  max_bytes : Z;
  redact_paths : list string;
}.

(** [isinstance(path, str) and path.startswith("/")]. *)
Definition pointer_text (v : value) : option string :=
  match v with
  | VStr s => if prefix_of ["/"%char] (str_to_list s) then Some s else None
  | _ => None
  end.

(** [self.mode not in {"terminal", "all"}]: an unhashable mode raises. *)
Definition capture_mode (v : value) : result exn CaptureMode :=
  match v with
  | VStr s =>
      if String.eqb s "terminal" then Ok MODE_TERMINAL
      else if String.eqb s "all" then Ok MODE_ALL
      else Err (value_error "failure_capture.mode must be 'terminal' or 'all'")
  | _ => if hashable v then Err (value_error "failure_capture.mode must be 'terminal' or 'all'")
         else Err (type_error "unhashable type")
  end.

(** The constructor with its [__post_init__]; a directory is given as a
    string. *)
Definition mk_FailureCaptureConfig (directory mode max_bytes redact_paths : value)
    : result exn FailureCaptureConfig :=
  d ← match directory with
      | VStr s => Ok s
      | _ => Err (type_error "failure_capture.directory must be a path string")
      end;
  m ← capture_mode mode;
  n ← match max_bytes with
      | VInt n => Ok n
      | _ => Err (type_error "failure_capture.max_bytes must be an integer")
      end;
  _ ← guard_else (1 <=? n)%Z (value_error "failure_capture.max_bytes must be >= 1");
  vs ← match sequence_items redact_paths with
       | Some vs => Ok vs
       | None => Err (type_error "failure_capture.redact_paths must be a sequence")
       end;
  ps ← match mapM pointer_text vs with
       | Some ps => Ok ps
       | None => Err (value_error "failure_capture.redact_paths entries must be JSON Pointer paths")
       end;
  Ok {| directory := d; mode := m; max_bytes := n; redact_paths := ps |}.

Definition allowed_fields : list string := ["directory"; "mode"; "max_bytes"; "redact_paths"].

(** [from_mapping] of a mapping with string keys. *)
Definition from_mapping (d : list (string * value)) : result exn FailureCaptureConfig :=
  let unknown := sort_by id (List.filter (λ k, negb (existsb (String.eqb k) allowed_fields)) d.*1) in
  _ ← guard_else (match unknown with [] => true | _ => false end)
        (value_error ("unsupported fields for app.failure_capture: "
                      +:+ str_of_list (join [","%char; " "%char] (str_to_list <$> unknown))));
  dir ← match dict_get "directory" d with
        | Some v => Ok v
        | None => Err (value_error "app.failure_capture.directory is required")
        end;
  let paths := default (VTuple []) (dict_get "redact_paths" d) in
  ps ← match paths with
       | VList vs | VTuple vs | VNamedTuple _ _ _ vs => Ok (VTuple vs)
       | _ => Err (type_error "app.failure_capture.redact_paths must be a list")
       end;
  mk_FailureCaptureConfig dir (default (VStr "terminal") (dict_get "mode" d))
    (default (VInt 1048576) (dict_get "max_bytes" d)) ps.

(** ** Secret keys *)

Definition _REDACTED : value := VStr "<redacted>".

Definition _SECRET_KEYS : list string :=
  ["password"; "passwd"; "secret"; "token"; "authorization"; "cookie"; "api_key"; "apikey"; "dsn";
   "database_url"; "connection_string"].

(** [casefold] of a character: lower case, and the sharp s as [ss]. *)
Definition casefold_char (c : ascii) : list ascii :=
  if (nat_of_ascii c =? 223)%nat then ["s"; "s"]%char else [to_lower c].

(** [key.casefold().replace("-", "_")]. *)
Definition normalize_key (key : string) : string :=
  str_of_list ((λ c, if Ascii.eqb c "-" then "_"%char else c)
               <$> (str_to_list key ≫= casefold_char)).

Section Redaction.
(** The process, and [str(key)] of a mapping key. *)
Context `{CodecEnv} (py_str : value → string).

Definition is_secret_key (key : value) : bool :=
  match key_text key with
  | Some s => existsb (String.eqb (normalize_key s)) _SECRET_KEYS
  | None => false
  end.

(** The paths of secret keys join the set [redacted]; it is sorted at the
    end, so only its members matter. *)
Definition red_list (red : string → value → value * list string) (path : string) :=
  fix go (i : Z) (vs : list value) : list value * list string :=
    match vs with
    | [] => ([], [])
    | v :: vs =>
        let '(v', ps) := red (path +:+ "/" +:+ str_of_Z i) v in
        let '(vs', qs) := go (i + 1)%Z vs in (v' :: vs', ps ++ qs)
    end.

Definition red_set (red : string → value → value * list string) (path : string) :=
  fix go (vs : list value) : list value * list string :=
    match vs with
    | [] => ([], [])
    | v :: vs =>
        let '(v', ps) := red path v in
        let '(vs', qs) := go vs in (v' :: vs', ps ++ qs)
    end.

Definition red_items (red : string → value → value * list string) (path : string) :=
  fix go (items : list (value * value)) : list (value * value) * list string :=
    match items with
    | [] => ([], [])
    | (key, item) :: items =>
        let child_path := _pointer path (py_str key) in
        let '(item', ps) := if is_secret_key key then (_REDACTED, [child_path])
                            else red child_path item in
        let '(items', qs) := go items in ((key, item') :: items', ps ++ qs)
    end.

Fixpoint _redact_secret_keys (path : string) (v : value) {struct v} : value * list string :=
  match v with
  | VDict items => let '(items', ps) := red_items _redact_secret_keys path items in (VDict items', ps)
  | VList vs => let '(vs', ps) := red_list _redact_secret_keys path 0 vs in (VList vs', ps)
  | VNamedTuple m q fields vs =>
      let '(vs', ps) := red_list _redact_secret_keys path 0 vs in (VNamedTuple m q fields vs', ps)
  | VTuple vs => let '(vs', ps) := red_list _redact_secret_keys path 0 vs in (VTuple vs', ps)
  | VSet vs => let '(vs', ps) := red_set _redact_secret_keys path vs in (VSet vs', ps)
  | VFrozenset vs => let '(vs', ps) := red_set _redact_secret_keys path vs in (VFrozenset vs', ps)
  | _ => (v, [])
  end.
End Redaction.

(** ** Pointers *)

(** The escapes of a reference token; [None] for an invalid one. *)
Fixpoint unescape (l : list ascii) : option (list ascii) :=
  match l with
  | [] => Some []
  | "~"%char :: "0"%char :: l => cons "~"%char <$> unescape l
  | "~"%char :: "1"%char :: l => cons "/"%char <$> unescape l
  | "~"%char :: _ => None
  | c :: l => cons c <$> unescape l
  end.

Definition _decode_pointer (pointer : string) : result exn (list string) :=
  match str_to_list pointer with
  | "/"%char :: rest =>
      match mapM unescape (split_chars "/" [] rest) with
      | Some tokens => Ok (str_of_list <$> tokens)
      | None => Err (value_error ("invalid JSON Pointer escape in '" +:+ pointer +:+ "'"))
      end
  | _ => Err (value_error ("invalid JSON Pointer '" +:+ pointer +:+ "'"))
  end.

(** The position a token names in a sequence of [n] items. *)
Definition index_of (token : string) (n : nat) : option nat :=
  match py_int token with
  | Some i => if (0 <=? i)%Z && (i <? Z.of_nat n)%Z && String.eqb (str_of_Z i) token
              then Some (Z.to_nat i) else None
  | None => None
  end.

Section Pointers.
Context `{CodecEnv}.

(** [value[token]]. *)
Fixpoint key_get (k : string) (items : list (value * value)) : option value :=
  match items with
  | [] => None
  | (key, v) :: items => if key_is k key then Some v else key_get k items
  end.

(** [result[token] = replaced] for a key that is there. *)
Fixpoint key_set (k : string) (v : value) (items : list (value * value)) : list (value * value) :=
  match items with
  | [] => []
  | (key, w) :: items => if key_is k key then (key, v) :: items else (key, w) :: key_set k v items
  end.

(** [value[index]] replaced by [replace value[index]]. *)
Definition replace_at (replace : value → value * bool) (vs : list value) (token : string)
    : option (list value) :=
  i ← index_of token (length vs); x ← vs !! i;
  let '(x', changed) := replace x in if changed then Some (<[i := x']> vs) else None.

Fixpoint _replace_tokens (v : value) (tokens : list string) (replacement : value) : value * bool :=
  match tokens with
  | [] => (replacement, true)
  | token :: remaining =>
      let replace x := _replace_tokens x remaining replacement in
      let unchanged := (v, false) in
      match v with
      | VDict items =>
          match key_get token items with
          | Some x => let '(x', changed) := replace x in
                      if changed then (VDict (key_set token x' items), true) else unchanged
          | None => unchanged
          end
      | VList vs => match replace_at replace vs token with
                    | Some vs' => (VList vs', true) | None => unchanged end
      | VTuple vs => match replace_at replace vs token with
                     | Some vs' => (VTuple vs', true) | None => unchanged end
      | VNamedTuple m q fields vs =>
          match replace_at replace vs token with
          | Some vs' => (VNamedTuple m q fields vs', true) | None => unchanged end
      | _ => unchanged
      end
  end.

End Pointers.

(** ** [redact_envelope] *)

Section Envelope.
Context `{CodecEnv} (py_str : value → string).

(** The body and the headers as one document. *)
Definition logical_document (e : Envelope) : value :=
  VDict [(VStr "body", body e); (VStr "meta", VStrDict (meta e))].

Definition apply_pointer (acc : result exn (value * list string)) (pointer : string)
    : result exn (value * list string) :=
  '(logical, redacted) ← acc;
  tokens ← _decode_pointer pointer;
  let '(logical', changed) := _replace_tokens logical tokens _REDACTED in
  Ok (logical', if changed then redacted ++ [pointer] else redacted).

Definition redact_document (e : Envelope) (pointers : list string)
    : result exn (value * list string) :=
  foldl apply_pointer (Ok (_redact_secret_keys py_str "" (logical_document e))) pointers.

(** An envelope whose headers may have been replaced as a whole. *)
Record redacted_envelope := {
  re_body : value;
  re_meta : value;
  re_attempts : Z;
}.

Definition redact_envelope (e : Envelope) (pointers : list string)
    : result exn (redacted_envelope * list string) :=
  '(logical, redacted) ← redact_document e pointers;
  match logical with
  | VDict items =>
      match key_get "body" items, key_get "meta" items with
      | Some b, Some m =>
          Ok ({| re_body := b; re_meta := m; re_attempts := attempts e |},
              sort_by id (remove_dups redacted))
      | _, _ => Err (key_error "body")
      end
  | _ => Err (type_error "string indices must be integers")
  end.
End Envelope.

(** ** The document *)

Definition CAPTURE_SCHEMA : string := "onestep/envelope-capture".
Definition CAPTURE_VERSION : Z := 1.

Definition replace_text (old new text : string) : string :=
  str_of_list (replace_from (str_to_list old) (str_to_list new) 0 (str_to_list text)).

Section Document.
Context `{CodecEnv} (py_str : value → string).

(** [json.dumps(j, ensure_ascii=False, sort_keys=True, indent=2)]. *)
Definition raw_char (c : ascii) : list ascii :=
  if (127 <=? nat_of_ascii c)%nat then [c] else dump_char c.

Definition raw_string (s : string) : list ascii := [quote] ++ (str_to_list s ≫= raw_char) ++ [quote].

Definition new_line (level : nat) : list ascii := "010"%char :: replicate (2 * level) " "%char.

Fixpoint dumps_indented (level : nat) (j : json) : list ascii :=
  match j with
  | JNull | JBool _ | JInt _ | JFloat _ => dumps j
  | JStr s => raw_string s
  | JList [] => ["["; "]"]%char
  | JList js =>
      "["%char :: new_line (S level)
      ++ join ([","%char] ++ new_line (S level)) (map (dumps_indented (S level)) js)
      ++ new_line level ++ ["]"%char]
  | JObj [] => ["{"; "}"]%char
  | JObj items =>
      let texts := (fix go items :=
        match items with
        | [] => []
        | (k, j) :: items => (k, dumps_indented (S level) j) :: go items
        end) items in
      "{"%char :: new_line (S level)
      ++ join ([","%char] ++ new_line (S level))
           (map (λ kt, raw_string kt.1 ++ [":"; " "]%char ++ kt.2) (sort_by fst texts))
      ++ new_line level ++ ["}"%char]
  end.

(** [len(text.encode("utf-8"))]. *)
Definition utf8_length (l : list ascii) : Z :=
  foldr (λ c n, ((if (nat_of_ascii c <? 128)%nat then 1 else 2) + n)%Z) 0%Z l.

(** [captured_at.isoformat().replace("+00:00", "Z")]. *)
Definition zulu (d : pydatetime) : string := replace_text "+00:00" "Z" (dt_isoformat d).

(** What [_write_sync] writes at [captured_at], a time of UTC. *)
Definition capture_document (cfg : FailureCaptureConfig) (captured_at : pydatetime)
    (app task stage : string) (terminal : bool) (failure : FailureInfo) (e : Envelope)
    : result exn json :=
  '(r, paths) ← redact_envelope py_str e (redact_paths cfg);
  b ← encode_value "" (re_body r);
  m ← encode_value "" (re_meta r);
  let document := JObj
    [("schema", JStr CAPTURE_SCHEMA); ("version", JInt CAPTURE_VERSION);
     ("captured_at", JStr (zulu captured_at)); ("app", JStr app); ("task", JStr task);
     ("stage", JStr stage); ("terminal", JBool terminal);
     ("failure", JObj [("kind", JStr (failure_kind_value (fi_kind failure)));
                       ("exception_type", JStr (fi_exception_type failure));
                       ("message", JStr (fi_message failure))]);
     ("envelope", JObj [("body", b); ("meta", m); ("attempts", JInt (re_attempts r))]);
     ("redacted_paths", JList (map JStr paths))] in
  let size := utf8_length (dumps_indented 0 document) in
  _ ← guard_else (size <=? max_bytes cfg)%Z
        (value_error ("capture exceeds max_bytes (" +:+ str_of_Z size +:+ " > "
                      +:+ str_of_Z (max_bytes cfg) +:+ ")"));
  Ok document.

(** ** [load_capture] of a document *)

Record LoadedCapture := {
  lc_app : string;
  lc_task : string;
  lc_stage : string;
  lc_terminal : bool;
  lc_failure : list (string * string);
  lc_body : value;
  lc_meta : list (value * value);
  lc_attempts : Z;
  lc_redacted_paths : list string;
  lc_captured_at : string;
}.

Definition same_fields (items : list (string * json)) (fields : list string) : bool :=
  forallb (λ k, existsb (String.eqb k) fields) items.*1
  && forallb (λ f, existsb (String.eqb f) items.*1) fields.

Definition field (k : string) (items : list (string * json)) : json := default JNull (dict_get k items).

Definition _validate_str (j : json) (name : string) : result exn string :=
  match j with
  | JStr s => Ok s
  | _ => Err (value_error ("capture field '" +:+ name +:+ "' has invalid type"))
  end.

(** [raw["version"] == 1]. *)
Definition is_version (j : json) : bool :=
  match j with
  | JInt n => (n =? CAPTURE_VERSION)%Z
  | JBool b => b
  | JFloat x => SFeqb x f_one
  | _ => false
  end.

Definition is_schema (j : json) : bool :=
  match j with JStr s => String.eqb s CAPTURE_SCHEMA | _ => false end.

Definition string_field (kj : string * json) : option (string * string) :=
  match kj.2 with JStr s => Some (kj.1, s) | _ => None end.

Definition path_field (j : json) : option string :=
  match j with
  | JStr s => if prefix_of ["/"%char] (str_to_list s) then Some s else None
  | _ => None
  end.

Definition expected (what : string) (o : option string) (received : string) : result exn unit :=
  match o with
  | None => Ok ()
  | Some s => guard_else (String.eqb received s)
                (value_error ("capture " +:+ what +:+ " mismatch: expected '" +:+ s
                              +:+ "', received '" +:+ received +:+ "'"))
  end.

Definition document_fields : list string :=
  ["schema"; "version"; "captured_at"; "app"; "task"; "stage"; "terminal"; "failure"; "envelope";
   "redacted_paths"].

Definition load_failure (j : json) : result exn (list (string * string)) :=
  match j with
  | JObj items =>
      _ ← guard_else (same_fields items ["kind"; "exception_type"; "message"])
            (value_error "capture failure fields are invalid");
      match mapM string_field items with
      | Some fs => Ok fs
      | None => Err (value_error "capture failure fields must be strings")
      end
  | _ => Err (value_error "capture failure fields are invalid")
  end.

Definition load_document (expected_app expected_task : option string) (raw : json)
    : result exn LoadedCapture :=
  match raw with
  | JObj doc =>
      _ ← guard_else (same_fields doc document_fields) (value_error "capture document fields are invalid");
      _ ← guard_else (is_schema (field "schema" doc)) (value_error "unsupported capture schema");
      _ ← guard_else (is_version (field "version" doc)) (value_error "unsupported capture version");
      app ← _validate_str (field "app" doc) "app";
      task ← _validate_str (field "task" doc) "task";
      stage ← _validate_str (field "stage" doc) "stage";
      at_ ← _validate_str (field "captured_at" doc) "captured_at";
      _ ← match fromisoformat (replace_text "Z" "+00:00" at_) with
          | Some _ => Ok ()
          | None => Err (value_error "capture field 'captured_at' is invalid")
          end;
      terminal ← match field "terminal" doc with
                 | JBool b => Ok b
                 | _ => Err (value_error "capture field 'terminal' has invalid type")
                 end;
      _ ← expected "app" expected_app app;
      _ ← expected "task" expected_task task;
      failure ← load_failure (field "failure" doc);
      match field "envelope" doc with
      | JObj env =>
          _ ← guard_else (same_fields env ["body"; "meta"; "attempts"])
                (value_error "capture envelope fields are invalid");
          n ← match field "attempts" env with
              | JInt n => if (0 <=? n)%Z then Ok n
                          else Err (value_error "capture envelope attempts must be a non-negative integer")
              | _ => Err (value_error "capture envelope attempts must be a non-negative integer")
              end;
          m ← decode_value "" (field "meta" env);
          items ← match m with
                  | VDict items => Ok items
                  | _ => Err (value_error "capture envelope meta must decode to a mapping")
                  end;
          paths ← match field "redacted_paths" doc with
                  | JList js => match mapM path_field js with
                                | Some ps => Ok ps
                                | None => Err (value_error "capture redacted_paths must be JSON Pointer strings")
                                end
                  | _ => Err (value_error "capture redacted_paths must be JSON Pointer strings")
                  end;
          b ← decode_value "" (field "body" env);
          Ok {| lc_app := app; lc_task := task; lc_stage := stage; lc_terminal := terminal;
                lc_failure := failure; lc_body := b; lc_meta := items; lc_attempts := n;
                lc_redacted_paths := paths; lc_captured_at := at_ |}
      | _ => Err (value_error "capture envelope fields are invalid")
      end
  | _ => Err (value_error "capture document must be an object")
  end.
End Document.
