(* ===== verification/CaptureTheorems.v ===== *)
(** * What a capture shows

    No capture shows a value under a secret key or at a configured pointer,
    and what was written is what [load_capture] reads. *)

From stdpp Require Import base option list strings numbers sorting.
From Stdlib Require Import ZArith Lia Ascii SpecFloat.
From S2P Require Import Prelude PyFloat Value Invoke Retry Texts Codec Capture.

(** ** Secret keys *)

Definition all_pairs (P : value → value → Prop) :=
  fix go (items : list (value * value)) : Prop :=
    match items with [] => True | (k, v) :: items => P k v ∧ go items end.

Lemma all_pairs_Forall P items : all_pairs P items ↔ Forall (λ kv, P kv.1 kv.2) items.
Proof.
  induction items as [|[k v] items IH]; cbn; [by rewrite Forall_nil|].
  by rewrite Forall_cons, IH.
Qed.

(** Every mapping that is reached through mappings, lists, tuples and sets has
    the placeholder under its secret keys.  The value of an enumeration member
    is not entered, and the fields of a named tuple are no keys. *)
Fixpoint secret_free `{Env : CodecEnv} (v : value) : Prop :=
  match v with
  | VDict items =>
      all_pairs (λ k x, (is_secret_key k = true → x = _REDACTED) ∧ secret_free x) items
  | VList vs | VTuple vs | VNamedTuple _ _ _ vs | VSet vs | VFrozenset vs => all_values secret_free vs
  | _ => True
  end.

Section Secrets.
Context `{Env : CodecEnv} (py_str : value → string).
Abbreviation redact := (_redact_secret_keys py_str).

Lemma red_list_Forall2 red (P : value → value → Prop) vs :
  Forall (λ v, ∀ path, P v (red path v).1) vs →
  ∀ path i, Forall2 P vs (red_list red path i vs).1.
Proof.
  induction 1 as [|v vs Hv _ IH]; intros path i; cbn; [constructor|].
  specialize (Hv (path +:+ "/" +:+ str_of_Z i)). specialize (IH path (i + 1)%Z).
  destruct (red _ v) as [v' ps], (red_list red path (i + 1) vs) as [vs' qs]. by constructor.
Qed.

Lemma red_set_Forall2 red (P : value → value → Prop) vs :
  Forall (λ v, ∀ path, P v (red path v).1) vs →
  ∀ path, Forall2 P vs (red_set red path vs).1.
Proof.
  induction 1 as [|v vs Hv _ IH]; intros path; cbn; [constructor|].
  specialize (Hv path). specialize (IH path).
  destruct (red _ v) as [v' ps], (red_set red path vs) as [vs' qs]. by constructor.
Qed.

(** The keys stay; a secret key gets the placeholder, another one the
    redacted item. *)
Lemma red_items_Forall2 red (P : value → value → Prop) items :
  Forall (λ kv, ∀ path, P kv.2 (red path kv.2).1) items →
  ∀ path, Forall2 (λ kv kv', kv'.1 = kv.1 ∧
    (if is_secret_key kv.1 then kv'.2 = _REDACTED else P kv.2 kv'.2))
    items (red_items py_str red path items).1.
Proof.
  induction 1 as [|[k x] items Hx _ IH]; intros path; cbn; [constructor|].
  specialize (Hx (_pointer path (py_str k))). specialize (IH path).
  destruct (red_items py_str red path items) as [items' qs]. cbn in Hx.
  destruct (is_secret_key k) eqn:Ek; [|destruct (red _ x) as [x' ps]];
    (constructor; [cbn; by rewrite Ek | done]).
Qed.

Lemma Forall2_right {A B} (Q : B → Prop) (l : list A) (l' : list B) :
  Forall2 (λ _ y, Q y) l l' → Forall Q l'.
Proof. induction 1; by constructor. Qed.

Lemma redact_list_free path i vs :
  Forall (λ v, ∀ path, secret_free (redact path v).1) vs →
  all_values secret_free (red_list redact path i vs).1.
Proof.
  intros IH. apply all_values_Forall. eapply Forall2_right.
  by apply (red_list_Forall2 redact (λ _ v, secret_free v)).
Qed.

Lemma redact_set_free path vs :
  Forall (λ v, ∀ path, secret_free (redact path v).1) vs →
  all_values secret_free (red_set redact path vs).1.
Proof.
  intros IH. apply all_values_Forall. eapply Forall2_right.
  by apply (red_set_Forall2 redact (λ _ v, secret_free v)).
Qed.

Lemma redact_items_free path items :
  Forall (λ kv : value * value, ∀ path, secret_free (redact path kv.2).1) items →
  all_pairs (λ k x, (is_secret_key k = true → x = _REDACTED) ∧ secret_free x)
    (red_items py_str redact path items).1.
Proof.
  intros IH. apply all_pairs_Forall. eapply Forall2_right, Forall2_impl;
    [by apply (red_items_Forall2 redact (λ _ v, secret_free v))|].
  intros [k x] [k' x'] [Hk Hx]. cbn in *. subst k'. by destruct (is_secret_key k); [subst|].
Qed.

Lemma redact_secret_free v : ∀ path, secret_free (redact path v).1.
Proof.
  induction v using value_rect_strong; intros path; try done; cbn [_redact_secret_keys];
    match goal with |- context [let '(_, _) := ?x in _] => destruct x as [vs' ps] eqn:E end;
    cbn [fst secret_free]; apply (f_equal fst) in E; cbn [fst] in E; rewrite <- E.
  1,2,5: by apply redact_list_free.
  1,2: by apply redact_set_free.
  apply redact_items_free. eapply Forall_impl; [eassumption|]. by intros kv [].
Qed.
End Secrets.

(** ** Pointers *)

Section Pointers.
Context `{Env : CodecEnv}.

(** The value at a pointer, found the way [_replace_tokens] looks. *)
Fixpoint resolve (v : value) (tokens : list string) : option value :=
  match tokens with
  | [] => Some v
  | token :: remaining =>
      match v with
      | VDict items => x ← key_get token items; resolve x remaining
      | VList vs | VTuple vs | VNamedTuple _ _ _ vs =>
          i ← index_of token (length vs); x ← vs !! i; resolve x remaining
      | _ => None
      end
  end.

Abbreviation replaced v tokens := (_replace_tokens v tokens _REDACTED).1.


Lemma key_get_set_eq k v w items :
  key_get k items = Some w → key_get k (key_set k v items) = Some v.
Proof.
  induction items as [|[key x] items IH]; cbn; [done|].
  destruct (key_is k key) eqn:E; cbn; rewrite E; [done | apply IH].
Qed.

Lemma key_get_set_ne k k' v items :
  k' ≠ k → key_get k' (key_set k v items) = key_get k' items.
Proof.
  intros Hne. induction items as [|[key x] items IH]; cbn; [done|].
  destruct (key_is k key) eqn:E; cbn; [|by rewrite IH].
  assert (key_is k' key = false) as ->; [|done]. unfold key_is in *. destruct (key_text key) as [s|]; [|done].
  apply String.eqb_eq in E as ->. by destruct (String.eqb_spec k' s).
Qed.

Lemma index_of_lt token n i : index_of token n = Some i → (i < n)%nat.
Proof.
  unfold index_of. destruct (py_int token) as [z|]; [|done].
  destruct (_ && _) eqn:E; [|done]. intros [= <-].
  rewrite !andb_true_iff in E. lia.
Qed.

(** What [replace_at] does. *)
Lemma replace_at_some replace vs token vs' :
  replace_at replace vs token = Some vs' ↔
  ∃ i x x', index_of token (length vs) = Some i ∧ vs !! i = Some x ∧ replace x = (x', true) ∧
    vs' = <[i := x']> vs.
Proof.
  unfold replace_at. split.
  - intros E. apply bind_Some in E as (i & Hi & (x & Hx & E)%bind_Some).
    destruct (replace x) as [x' []] eqn:Er; [|done]. injection E as <-. eauto 10.
  - intros (i & x & x' & -> & Hx & Hr & ->). cbn. rewrite Hx. cbn. by rewrite Hr.
Qed.

Lemma replace_at_none replace vs token i x :
  replace_at replace vs token = None → index_of token (length vs) = Some i → vs !! i = Some x →
  (replace x).2 = false.
Proof.
  unfold replace_at. intros E Hi Hx. rewrite Hi in E. cbn in E. rewrite Hx in E. cbn in E.
  by destruct (replace x) as [x' []].
Qed.

Definition get_item (token : string) (vs : list value) : option value :=
  i ← index_of token (length vs); vs !! i.

(** Replacing in a sequence, seen through [get_item]. *)
Lemma get_item_replaced replace vs vs' token :
  replace_at replace vs token = Some vs' →
  ∃ x x', get_item token vs = Some x ∧ replace x = (x', true) ∧ get_item token vs' = Some x' ∧
    ∀ t, get_item t vs' = get_item t vs ∨ get_item t vs' = Some x' ∧ get_item t vs = Some x.
Proof.
  intros (i & x & x' & Hi & Hx & Hr & ->)%replace_at_some. exists x, x'. unfold get_item.
  rewrite length_insert, Hi. cbn. split_and!; [done | done | |].
  - apply list_lookup_insert_eq. by eapply lookup_lt_Some.
  - intros t. destruct (index_of t (length vs)) as [k|]; [|by left]. cbn.
    destruct (decide (k = i)) as [->|]; [right | left; by apply list_lookup_insert_ne].
    split; [apply list_lookup_insert_eq; by eapply lookup_lt_Some | done].
Qed.

Lemma get_item_unreplaced replace vs token x :
  replace_at replace vs token = None → get_item token vs = Some x → (replace x).2 = false.
Proof.
  intros E (i & Hi & Hx)%bind_Some. by eapply replace_at_none.
Qed.

(** The child of a value that a token names. *)
Definition get_child (v : value) (token : string) : option value :=
  match v with
  | VDict items => key_get token items
  | VList vs | VTuple vs | VNamedTuple _ _ _ vs => get_item token vs
  | _ => None
  end.

Lemma resolve_cons v t ts : resolve v (t :: ts) = (x ← get_child v t; resolve x ts).
Proof. destruct v; cbn; unfold get_item; try done; by destruct (index_of _ _). Qed.

(** [v'] is [v] with the child [x] at [t] replaced by [x']. *)
Definition child_replaced (v v' x x' : value) (t : string) : Prop :=
  get_child v' t = Some x' ∧
  ∀ t', get_child v' t' = get_child v t' ∨ get_child v' t' = Some x' ∧ get_child v t' = Some x.

(** The recursion of [_replace_tokens]. *)
Lemma replace_cons v t ts r :
  match get_child v t with
  | Some x =>
      let '(x', changed) := _replace_tokens x ts r in
      if changed then ∃ v', _replace_tokens v (t :: ts) r = (v', true) ∧ child_replaced v v' x x' t
      else _replace_tokens v (t :: ts) r = (v, false)
  | None => _replace_tokens v (t :: ts) r = (v, false)
  end.
Proof.
  assert (∀ vs, match get_item t vs with
    | Some x =>
        let '(x', changed) := _replace_tokens x ts r in
        if changed then ∃ vs', replace_at (λ x, _replace_tokens x ts r) vs t = Some vs' ∧
          get_item t vs' = Some x' ∧
          ∀ t', get_item t' vs' = get_item t' vs ∨ get_item t' vs' = Some x' ∧ get_item t' vs = Some x
        else replace_at (λ x, _replace_tokens x ts r) vs t = None
    | None => replace_at (λ x, _replace_tokens x ts r) vs t = None
    end) as Hseq.
  { intros vs. destruct (replace_at _ vs t) as [vs'|] eqn:E.
    - apply get_item_replaced in E as (x & x' & -> & -> & Hx & Hother). by exists vs'.
    - destruct (get_item t vs) as [x|] eqn:Hx; [|done].
      pose proof (get_item_unreplaced _ _ _ _ E Hx) as Hf. cbn in Hf.
      by destruct (_replace_tokens x ts r) as [x' []]. }
  destruct v; try done; cbn [get_child _replace_tokens]; try specialize (Hseq vs).
  4: { destruct (key_get t items) as [x|] eqn:Hx; [|done].
    destruct (_replace_tokens x ts r) as [x' []]; [|done]. eexists. split; [done|]. split; cbn.
    - by eapply key_get_set_eq.
    - intros t'. destruct (decide (t' = t)) as [->|Hne]; [right | left; by apply key_get_set_ne].
      split; [by eapply key_get_set_eq | done]. }
  all: destruct (get_item t vs) as [x|]; [|by rewrite Hseq].
  all: destruct (_replace_tokens x ts r) as [x' []]; [|by rewrite Hseq].
  all: destruct Hseq as (vs' & -> & Hx & Hother); eexists; split; [done | by split].
Qed.

Lemma replace_unchanged v tokens r :
  (_replace_tokens v tokens r).2 = false → (_replace_tokens v tokens r).1 = v.
Proof.
  destruct tokens as [|t ts]; [done|]. pose proof (replace_cons v t ts r) as H.
  destruct (get_child v t) as [x|]; [|by rewrite H].
  destruct (_replace_tokens x ts r) as [x' []]; [|by rewrite H].
  destruct H as (v' & -> & _). done.
Qed.

Lemma resolve_leaf tokens x : resolve _REDACTED tokens = Some x → x = _REDACTED.
Proof. destruct tokens; [by intros [= <-] | done]. Qed.

(** A pointer that was applied leads to the placeholder or to nothing. *)
Lemma resolve_own v tokens x : resolve (replaced v tokens) tokens = Some x → x = _REDACTED.
Proof.
  revert v. induction tokens as [|t ts IH]; intros v; [by intros [= <-]|].
  pose proof (replace_cons v t ts _REDACTED) as H.
  destruct (get_child v t) as [y|] eqn:Hy; [|rewrite H, resolve_cons; cbn; by rewrite Hy].
  destruct (_replace_tokens y ts _REDACTED) as [y' []] eqn:E.
  - destruct H as (v' & -> & Hc & _). rewrite resolve_cons. cbn. rewrite Hc. cbn.
    intros Hr. apply (IH y). by rewrite E.
  - rewrite H, resolve_cons. cbn. rewrite Hy. cbn. intros Hr. apply (IH y).
    by rewrite (replace_unchanged y ts _REDACTED) by by rewrite E.
Qed.

(** It keeps doing so when further pointers are applied. *)
Lemma resolve_other v p q :
  (∀ x, resolve v p = Some x → x = _REDACTED) →
  ∀ x, resolve (replaced v q) p = Some x → x = _REDACTED.
Proof.
  revert v p. induction q as [|t ts IH]; intros v p Hp x; [apply resolve_leaf|].
  pose proof (replace_cons v t ts _REDACTED) as H.
  destruct (get_child v t) as [y|] eqn:Hy; [|rewrite H; apply Hp].
  destruct (_replace_tokens y ts _REDACTED) as [y' []] eqn:E; [|rewrite H; apply Hp].
  destruct H as (v' & -> & Hc & Hother). destruct p as [|t' ps].
  { assert (v = _REDACTED) as -> by by apply Hp. done. }
  rewrite resolve_cons. cbn [fst]. intros (z & Hz & Hr)%bind_Some.
  destruct (Hother t') as [Heq|[Hx' Hx]].
  - rewrite Heq in Hz. apply Hp. rewrite resolve_cons, Hz. done.
  - assert (z = y') as -> by congruence. apply (IH y ps); [|by rewrite E].
    intros w Hw. apply Hp. rewrite resolve_cons, Hx. done.
Qed.

(** ** Folding over the pointers *)

Lemma apply_pointers_err e pointers : foldl apply_pointer (Err e) pointers = Err e.
Proof. by induction pointers. Qed.

Lemma apply_pointers_cons acc p ps res :
  foldl apply_pointer (Ok acc) (p :: ps) = Ok res →
  ∃ tokens, _decode_pointer p = Ok tokens ∧
    foldl apply_pointer
      (Ok (replaced acc.1 tokens,
           if (_replace_tokens acc.1 tokens _REDACTED).2 then acc.2 ++ [p] else acc.2)) ps = Ok res.
Proof.
  cbn. destruct acc as [v rs]. cbn. destruct (_decode_pointer p) as [tokens|e]; cbn;
    [|by rewrite apply_pointers_err].
  intros H. exists tokens. split; [done|]. by destruct (_replace_tokens v tokens _REDACTED).
Qed.

(** What every replacement keeps holds at the end. *)
Lemma apply_pointers_keep (P : value → Prop) pointers acc res :
  (∀ v p tokens, P v → _decode_pointer p = Ok tokens → P (replaced v tokens)) →
  P acc.1 → foldl apply_pointer (Ok acc) pointers = Ok res → P res.1.
Proof.
  intros Hstep. revert acc. induction pointers as [|p ps IH]; intros acc Ha; [by intros [= <-]|].
  intros (tokens & Hp & H)%apply_pointers_cons. eapply (IH (_, _)), H. by eapply Hstep.
Qed.

Lemma apply_pointers_cover pointers acc res p tokens x :
  foldl apply_pointer (Ok acc) pointers = Ok res →
  p ∈ pointers → _decode_pointer p = Ok tokens → resolve res.1 tokens = Some x → x = _REDACTED.
Proof.
  revert acc x. induction pointers as [|q ps IH]; intros acc x H Hp Ht; [by apply elem_of_nil in Hp|].
  apply apply_pointers_cons in H as (tq & Hq & H).
  apply elem_of_cons in Hp as [->|Hp]; [|by eapply IH]. assert (tq = tokens) as -> by congruence.
  revert x. refine (apply_pointers_keep
    (λ v, ∀ x, resolve v tokens = Some x → x = _REDACTED) ps _ _ _ _ H).
  - intros v p' tokens' Hv _. by apply resolve_other.
  - cbn. intros x. apply resolve_own.
Qed.

(** ** Replacing keeps secrets hidden *)

Lemma replaced_placeholder ts x' : _replace_tokens _REDACTED ts _REDACTED = (x', true) → x' = _REDACTED.
Proof. destruct ts; [by intros [= <-] | done]. Qed.

Lemma all_pairs_set P k x' items :
  all_pairs P items → (∀ key x, key_get k items = Some x → P key x → P key x') →
  all_pairs P (key_set k x' items).
Proof.
  induction items as [|[key x] items IH]; [done|]. cbn. intros [Hx Hi] Hk.
  destruct (key_is k key) eqn:E; cbn; [split; [by apply (Hk key x) | done]|].
  split; [done|]. by apply IH.
Qed.

Lemma all_values_replace_at P replace vs vs' t :
  replace_at replace vs t = Some vs' → all_values P vs →
  (∀ x x', P x → replace x = (x', true) → P x') → all_values P vs'.
Proof.
  intros (i & x & x' & _ & Hx & Hr & ->)%replace_at_some Hvs Hp.
  apply all_values_Forall in Hvs. apply all_values_Forall. apply Forall_insert; [done|].
  apply (Hp x); [|done]. rewrite Forall_forall in Hvs. apply Hvs. by eapply list_elem_of_lookup_2.
Qed.

Lemma replaced_secret_free v tokens : secret_free v → secret_free (replaced v tokens).
Proof.
  revert v. induction tokens as [|t ts IH]; intros v Hv; [done|].
  assert (∀ x x', secret_free x → _replace_tokens x ts _REDACTED = (x', true) → secret_free x') as Hx.
  { intros x x' Hx E. specialize (IH x Hx). by rewrite E in IH. }
  destruct v; try done; cbn [_replace_tokens].
  4: { destruct (key_get t items) as [x|] eqn:Ex; [|done].
    destruct (_replace_tokens x ts _REDACTED) as [x' []] eqn:E; [|done].
    cbn. apply all_pairs_set; [done|]. intros key y Hy [Hs Hf]. assert (y = x) as -> by congruence.
    split; [|by apply (Hx x)]. intros Hk. specialize (Hs Hk) as ->. by apply replaced_placeholder in E. }
  all: destruct (replace_at _ vs t) as [vs'|] eqn:E; [|done].
  all: by eapply all_values_replace_at.
Qed.

(** ** The redacted document *)

Definition document (b m : value) : value := VDict [(VStr "body", b); (VStr "meta", m)].

Lemma split_chars_nonempty sep acc l : split_chars sep acc l ≠ [].
Proof. revert acc. induction l as [|c l IH]; intros acc; cbn; [done|]. by case_match. Qed.

Lemma decode_pointer_nonempty p tokens : _decode_pointer p = Ok tokens → tokens ≠ [].
Proof.
  unfold _decode_pointer. destruct (str_to_list p) as [|c rest]; [done|].
  destruct (Ascii.eqb_spec c "/") as [->|Hc].
  - destruct (mapM unescape _) as [ts|] eqn:E; [|done]. intros [= <-].
    intros ->%fmap_nil_inv. apply length_mapM in E. 
    by apply nil_length_inv, split_chars_nonempty in E.
  - by destruct c as [[] [] [] [] [] [] [] []].
Qed.

Lemma replaced_document b m t ts : ∃ b' m', replaced (document b m) (t :: ts) = document b' m'.
Proof.
  unfold document. cbn [_replace_tokens].
  destruct (key_get t [(VStr "body", b); (VStr "meta", m)]) as [x|]; [|by exists b, m].
  destruct (_replace_tokens x ts _REDACTED) as [x' []]; [|by exists b, m]. cbn -[String.eqb].
  destruct (String.eqb t "body"); [by exists x', m|]. destruct (String.eqb t "meta"); [by exists b, x' | by exists b, m].
Qed.

Lemma replaced_document_ok v p tokens :
  (∃ b m, v = document b m) → _decode_pointer p = Ok tokens → ∃ b m, replaced v tokens = document b m.
Proof.
  intros (b & m & ->) Hp%decode_pointer_nonempty. destruct tokens as [|t ts]; [done|].
  apply replaced_document.
Qed.

End Pointers.

Abbreviation replaced v tokens := (_replace_tokens v tokens _REDACTED).1.

Section Redacted.
Context `{Env : CodecEnv} (py_str : value → string).
Abbreviation redact := (_redact_secret_keys py_str).

(** The redacted body and headers of an envelope. *)
Lemma redact_envelope_ok e pointers r paths :
  redact_envelope py_str e pointers = Ok (r, paths) →
  ∃ ps, foldl apply_pointer (Ok (redact "" (logical_document e))) pointers
        = Ok (document (re_body r) (re_meta r), ps) ∧
    paths = sort_by id (remove_dups ps) ∧ re_attempts r = attempts e.
Proof.
  unfold redact_envelope, redact_document. intros ([v ps] & Hf & E)%bind_ok. exists ps.
  assert (∃ b m, v = document b m) as (b & m & ->).
  { apply (apply_pointers_keep (λ v, ∃ b m, v = document b m) pointers _ _
      (λ v p tokens Hv Hp, replaced_document_ok v p tokens Hv Hp)) in Hf; [done|].
    unfold logical_document. cbn.
    destruct (redact _ (body e)) as [b' ps1], (red_items _ _ _ _) as [m' ps2]. by eexists _, _. }
  cbn in E. injection E as <- <-. done.
Qed.
End Redacted.

(** C39. What redaction hides: in the body and the headers that are written,
    every mapping that is reached through mappings, lists, tuples and sets, at
    any depth, has the placeholder under each key that names a secret, and
    whatever a configured pointer leads to is the placeholder.  The value of
    an enumeration member is written without looking into it, and so are the
    fields of a named tuple, which are no keys ([enum_value_leaks],
    [named_tuple_leaks]). *)
Theorem nothing_secret_captured `{Env : CodecEnv} py_str e pointers r paths :
  redact_envelope py_str e pointers = Ok (r, paths) →
  secret_free (re_body r) ∧ secret_free (re_meta r) ∧
  ∀ p tokens x, p ∈ pointers → _decode_pointer p = Ok tokens →
    resolve (VDict [(VStr "body", re_body r); (VStr "meta", re_meta r)]) tokens = Some x →
    x = _REDACTED.
Proof.
  intros (ps & Hf & _ & _)%redact_envelope_ok.
  assert (secret_free (document (re_body r) (re_meta r))) as Hs.
  { apply (apply_pointers_keep secret_free pointers _ _
      (λ v _ tokens Hv _, replaced_secret_free v tokens Hv)) in Hf; [done|].
    apply redact_secret_free. }
  destruct Hs as ((_ & Hb) & (_ & Hm) & _). split_and!; [done..|].
  intros p tokens x Hp Ht Hx. by eapply apply_pointers_cover in Hf.
Qed.

Definition login_envelope : Envelope :=
  {| body := VDict [(VStr "user", VStr "ada"); (VStr "Api-Key", VStr "k-123");
                    (VStr "cards", VList [VDict [(VStr "number", VStr "4111")]])];
     meta := [("trace", VStr "t1"); ("Authorization", VStr "Bearer x")]; attempts := 2 |}.

Definition show_key (v : value) : string :=
  match v with VStr s => s | VEnum _ q n _ => q +:+ "." +:+ n | _ => "?" end.

(** A key of a [str] enumeration is hidden like its text. *)
Example enum_key_redacted :
  redact_envelope show_key
    {| body := VDict [(VEnum "app" "Field" "PASSWORD" (VStr "password"), VStr "hunter2")];
       meta := []; attempts := 0 |} []
  = Ok ({| re_body := VDict [(VEnum "app" "Field" "PASSWORD" (VStr "password"), _REDACTED)];
           re_meta := VDict []; re_attempts := 0 |}, ["/body/Field.PASSWORD"]).
Proof. vm_compute. reflexivity. Qed.

Example login_redacted :
  redact_envelope show_key login_envelope ["/body/cards/0/number"; "/body/none"]
  = Ok ({| re_body := VDict [(VStr "user", VStr "ada"); (VStr "Api-Key", _REDACTED);
                             (VStr "cards", VList [VDict [(VStr "number", _REDACTED)]])];
           re_meta := VDict [(VStr "trace", VStr "t1"); (VStr "Authorization", _REDACTED)];
           re_attempts := 2 |},
        ["/body/Api-Key"; "/body/cards/0/number"; "/meta/Authorization"]).
Proof. vm_compute. reflexivity. Qed.

Lemma nothing_secret_captured_witness :
  ∃ r paths, redact_envelope show_key login_envelope ["/body/cards/0/number"] = Ok (r, paths) ∧
    secret_free (re_body r) ∧ secret_free (re_meta r).
Proof.
  destruct (redact_envelope show_key login_envelope ["/body/cards/0/number"]) as [[r paths]|] eqn:E;
    [|vm_compute in E; discriminate].
  destruct (nothing_secret_captured show_key login_envelope ["/body/cards/0/number"] r paths E)
    as (H1 & H2 & _).
  exists r, paths. split; [reflexivity|]. split; [exact H1 | exact H2].
Defined.

(** A mapping in the value of an enumeration member, and its password. *)
Example enum_value_leaks :
  redact_envelope show_key
    {| body := VEnum "app" "Account" "ADMIN" (VDict [(VStr "password", VStr "hunter2")]);
       meta := []; attempts := 0 |} []
  = Ok ({| re_body := VEnum "app" "Account" "ADMIN" (VDict [(VStr "password", VStr "hunter2")]);
           re_meta := VDict []; re_attempts := 0 |}, []).
Proof. vm_compute. reflexivity. Qed.

(** The field of a named tuple. *)
Example named_tuple_leaks :
  redact_envelope show_key
    {| body := VNamedTuple "app" "Credentials" ["user"; "password"] [VStr "ada"; VStr "hunter2"];
       meta := []; attempts := 0 |} []
  = Ok ({| re_body := VNamedTuple "app" "Credentials" ["user"; "password"] [VStr "ada"; VStr "hunter2"];
           re_meta := VDict []; re_attempts := 0 |}, []).
Proof. vm_compute. reflexivity. Qed.

(** A pointer with an invalid escape is a valid option, and then every
    capture fails. *)
Example invalid_escape_accepted :
  is_ok (mk_FailureCaptureConfig (VStr "captures") (VStr "all") (VInt 1000) (VTuple [VStr "/body/a~2"])) = true ∧
  is_ok (redact_envelope show_key login_envelope ["/body/a~2"]) = false.
Proof. vm_compute. split; reflexivity. Qed.
