(* ===== verification/CaptureLoad.v ===== *)
(** * Reading a capture back

    What [FailureCaptureWriter] writes, [load_capture] accepts, with the same
    envelope. *)

From stdpp Require Import base option list strings numbers sorting.
From Stdlib Require Import ZArith Lia Ascii SpecFloat.
From S2P Require Import Prelude PyFloat Value Calendar Invoke Retry Texts Codec Capture CaptureTheorems.

(** ** Redaction keeps values well formed *)

Section WellFormed.
Context `{Env : CodecEnv} (py_str : value → string).
Abbreviation redact := (_redact_secret_keys py_str).

Lemma red_list_id path i vs :
  Forall (λ v, ∀ path, (redact path v).1 = v) vs → (red_list redact path i vs).1 = vs.
Proof.
  intros Hvs. pose proof (red_list_Forall2 redact (λ v v', v' = v) vs Hvs path i) as H2.
  revert H2. clear Hvs. generalize (red_list redact path i vs).1. induction 1; congruence.
Qed.

Lemma red_set_id path vs :
  Forall (λ v, ∀ path, (redact path v).1 = v) vs → (red_set redact path vs).1 = vs.
Proof.
  intros Hvs. pose proof (red_set_Forall2 redact (λ v v', v' = v) vs Hvs path) as H2.
  revert H2. clear Hvs. generalize (red_set redact path vs).1. induction 1; congruence.
Qed.

(** What a set may hold has no mapping inside. *)
Lemma redact_hashable v : replayable v → hashable v = true → ∀ path, (redact path v).1 = v.
Proof.
  assert (∀ vs, Forall (λ v, replayable v → hashable v = true → ∀ path, (redact path v).1 = v) vs →
    all_values replayable vs → forallb hashable vs = true →
    Forall (λ v, ∀ path, (redact path v).1 = v) vs) as Hvs.
  { intros vs IH Hw%all_values_Forall Hh. rewrite forallb_forall in Hh.
    rewrite Forall_forall in IH, Hw |- *. intros u Hu. apply IH; [done | by apply Hw |].
    by apply Hh, list_elem_of_In. }
  induction v using value_rect_strong; intros Hw Hh path; try done; cbn [_redact_secret_keys];
    match goal with |- context [let '(_, _) := ?x in _] => destruct x as [vs' ps] eqn:E end;
    apply (f_equal fst) in E; cbn [fst] in E |- *; f_equal; subst vs'.
  - apply red_list_id. apply Hvs; [done | apply Hw | done].
  - apply red_list_id. by apply Hvs.
  - apply red_set_id. destruct Hw as (Hw & Hh' & _). by apply Hvs.
Qed.

Lemma red_set_wf path vs :
  all_values replayable vs → forallb hashable vs = true → (red_set redact path vs).1 = vs.
Proof.
  intros Hw%all_values_Forall Hh. apply red_set_id. rewrite forallb_forall in Hh.
  rewrite Forall_forall in Hw |- *. intros v Hv. apply redact_hashable; [by apply Hw|].
  by apply Hh, list_elem_of_In.
Qed.

Lemma red_list_wf path i vs :
  Forall (λ v, replayable v → ∀ path, replayable (redact path v).1) vs → all_values replayable vs →
  all_values replayable (red_list redact path i vs).1 ∧
  length (red_list redact path i vs).1 = length vs.
Proof.
  intros IH Hw%all_values_Forall.
  pose proof (red_list_Forall2 redact (λ _ v, replayable v) vs) as H2.
  specialize (H2 ltac:(rewrite Forall_forall in IH, Hw |- *; auto) path i).
  split; [apply all_values_Forall; by eapply Forall2_right | by rewrite (Forall2_length _ _ _ H2)].
Qed.

Lemma red_items_wf path items :
  Forall (λ kv : value * value, replayable kv.2 → ∀ path, replayable (redact path kv.2).1) items →
  all_items replayable items →
  all_items replayable (red_items py_str redact path items).1 ∧
  (red_items py_str redact path items).1.*1 = items.*1.
Proof.
  intros IH Hw%all_items_Forall.
  pose proof (red_items_Forall2 py_str redact (λ _ v, replayable v) items) as H2.
  specialize (H2 ltac:(rewrite Forall_forall in IH, Hw |- *; auto) path).
  rewrite all_items_Forall. clear IH Hw. induction H2 as [|kv kv' items' items'' [Hk Hv] _ [IH1 IH2]]; [done|].
  split; [constructor; [by destruct (is_secret_key kv.1); [rewrite Hv|] | done]|]. cbn. by rewrite Hk, IH2.
Qed.

Lemma redact_wf v : replayable v → ∀ path, replayable (redact path v).1.
Proof.
  induction v using value_rect_strong; intros Hw path; try done; cbn [_redact_secret_keys];
    match goal with |- context [let '(_, _) := ?x in _] => destruct x as [vs' ps] eqn:E end;
    apply (f_equal fst) in E; cbn [fst] in E |- *; subst vs'.
  - destruct Hw as (Hw & Hl & Hc). destruct (red_list_wf path 0 vs) as [H1 H2]; [done..|].
    split_and!; [done | by rewrite H2 | done].
  - by apply red_list_wf.
  - rewrite red_set_wf; [done | apply Hw | apply Hw].
  - rewrite red_set_wf; [done | apply Hw | apply Hw].
  - by apply red_list_wf.
  - destruct Hw as [Hw Hn]. destruct (red_items_wf path items) as [H1 H2]; [|done|].
    { eapply Forall_impl; [eassumption|]. by intros kv []. }
    split; [done | by rewrite H2].
Qed.

Lemma key_set_keys k x items : (key_set k x items).*1 = items.*1.
Proof.
  induction items as [|[key y] items IH]; cbn; [done|].
  case_match; cbn; [done | by rewrite IH].
Qed.

Lemma all_items_set P k x items : P x → all_items P items → all_items P (key_set k x items).
Proof.
  intros Hx. induction items as [|[key y] items IH]; cbn; [done|]; intros [Hy Hi].
  case_match; cbn; auto.
Qed.

Lemma replaced_wf v tokens : replayable v → replayable (replaced v tokens).
Proof.
  revert v. induction tokens as [|t ts IH]; intros v Hv; [done|].
  assert (∀ x x', replayable x → _replace_tokens x ts _REDACTED = (x', true) → replayable x') as Hx.
  { intros x x' Hx E. specialize (IH x Hx). by rewrite E in IH. }
  destruct v; try done; cbn [_replace_tokens].
  4: { destruct (key_get t items) as [x|] eqn:Ex; [|done].
    destruct (_replace_tokens x ts _REDACTED) as [x' []] eqn:E; [|done].
    destruct Hv as [Hv Hn]. split; [|by rewrite key_set_keys].
    apply all_items_set; [|done]. apply (Hx x); [|done].
    clear -Ex Hv. induction items as [|[key y] items IH]; cbn in *; [done|].
    destruct (key_is t key); [injection Ex as ->; tauto | apply IH; tauto]. }
  all: destruct (replace_at _ vs t) as [vs'|] eqn:E; [|done].
  2,3: by eapply all_values_replace_at.
  destruct Hv as (Hv & Hl & Hc). split_and!; [by eapply all_values_replace_at | | done].
  apply replace_at_some in E as (i & x & x' & _ & _ & _ & ->). by rewrite length_insert.
Qed.
End WellFormed.

(** ** The time of a capture *)

Lemma replace_from_skip old new k l :
  replace_from old new k l = replace_from old new 0 (drop k l).
Proof. revert l. induction k as [|k IH]; intros [|c l]; cbn; try done. Qed.

(** Writing [Z] for [x] and then [x] for [Z] gives the text back when it has
    no [Z] of its own. *)
Lemma replace_back z x l :
  x ≠ [] → z ∉ l → replace_from [z] x 0 (replace_from x [z] 0 l) = l.
Proof.
  intros Hx. remember (length l) as n eqn:Hn. assert (length l ≤ n)%nat as Hl by lia. clear Hn.
  revert l Hl. induction n as [|n IH]; intros l Hl Hz; (destruct l as [|c l]; [done|]); cbn in Hl; [lia|].
  cbn [replace_from]. destruct (prefix_of x (c :: l)) eqn:E.
  - apply prefix_of_spec in E as [b E]. destruct x as [|y x]; [done|].
    injection E as -> ->. cbn [app replace_from prefix_of]. rewrite Ascii.eqb_refl.
    cbn [andb]. change (length [z] - 1)%nat with 0%nat.
    rewrite (replace_from_skip (y :: x) [z]). replace (length (y :: x) - 1)%nat with (length x) by (cbn; lia).
    rewrite drop_app_length. rewrite IH; [done | rewrite length_app in Hl; lia |].
    intros Hb. apply Hz. right. apply elem_of_app. by right.
  - cbn [replace_from prefix_of]. destruct (Ascii.eqb_spec z c) as [->|Hc].
    { exfalso. apply Hz. by left. }
    cbn [andb]. rewrite IH; [done | lia |]. intros Hb. apply Hz. by right.
Qed.

Lemma isoformat_no_Z d : "Z"%char ∉ str_to_list (dt_isoformat d).
Proof.
  pose proof (isoformat_Forall (λ c, negb (Ascii.eqb c "Z")) d eq_refl) as H.
  rewrite Forall_forall in H. intros Hz. by specialize (H _ Hz).
Qed.

(** The instant that was written is read. *)
Lemma zulu_read d :
  valid_datetime d = true →
  fromisoformat (replace_text "Z" "+00:00" (zulu d)) = Some (PyDatetime (dt_wall d) (dt_offset d) false).
Proof.
  intros Hd. unfold zulu, replace_text. rewrite str_to_of_list.
  change (str_to_list "Z") with ["Z"%char]. rewrite replace_back, str_of_to_list
    by first [done | apply isoformat_no_Z].
  by apply fromisoformat_isoformat.
Qed.

(** ** The redacted paths *)

Definition slashed (p : string) : Prop := prefix_of ["/"%char] (str_to_list p) = true.

Lemma slashed_child path rest : path = "" ∨ slashed path → slashed (path +:+ "/" +:+ rest).
Proof. intros [->|Hp]; [done|]. by destruct path as [|c path]. Qed.

Section Paths.
Context `{Env : CodecEnv} (py_str : value → string).
Abbreviation redact := (_redact_secret_keys py_str).

Lemma red_list_paths path i vs :
  path = "" ∨ slashed path →
  Forall (λ v, ∀ path, path = "" ∨ slashed path → Forall slashed (redact path v).2) vs →
  Forall slashed (red_list redact path i vs).2.
Proof.
  intros Hp IH. revert i. induction IH as [|v vs Hv _ IH]; intros i; [constructor|]. cbn.
  specialize (Hv (path +:+ "/" +:+ str_of_Z i) (or_intror (slashed_child _ _ Hp))).
  destruct (redact _ v) as [v' ps]. specialize (IH (i + 1)%Z).
  destruct (red_list redact path (i + 1) vs) as [vs' qs]. by apply Forall_app_2.
Qed.

Lemma red_set_paths path vs :
  path = "" ∨ slashed path →
  Forall (λ v, ∀ path, path = "" ∨ slashed path → Forall slashed (redact path v).2) vs →
  Forall slashed (red_set redact path vs).2.
Proof.
  intros Hp. induction 1 as [|v vs Hv _ IH]; [constructor|]. cbn. specialize (Hv path Hp).
  destruct (redact path v) as [v' ps], (red_set redact path vs) as [vs' qs]. by apply Forall_app_2.
Qed.

Lemma red_items_paths path items :
  path = "" ∨ slashed path →
  Forall (λ kv : value * value,
    ∀ path, path = "" ∨ slashed path → Forall slashed (redact path kv.2).2) items →
  Forall slashed (red_items py_str redact path items).2.
Proof.
  intros Hp. induction 1 as [|[k v] items Hv _ IH]; [constructor|]. cbn in *.
  assert (slashed (_pointer path (py_str k))) as Hc by by apply slashed_child.
  specialize (Hv _ (or_intror Hc)). destruct (red_items py_str redact path items) as [items' qs].
  destruct (is_secret_key k); [by constructor|].
  destruct (redact _ v) as [v' ps]. by apply Forall_app_2.
Qed.

Lemma redact_paths_slashed v :
  ∀ path, path = "" ∨ slashed path → Forall slashed (redact path v).2.
Proof.
  induction v using value_rect_strong; intros path Hp; try constructor; cbn [_redact_secret_keys];
    match goal with |- context [let '(_, _) := ?x in _] => destruct x as [vs' ps] eqn:E end;
    apply (f_equal snd) in E; cbn [snd] in E |- *; subst ps.
  1,2,5: by apply red_list_paths.
  1,2: by apply red_set_paths.
  apply red_items_paths; [done|]. eapply List.Forall_impl; [|eassumption]. by intros kv [].
Qed.
End Paths.

Lemma decode_pointer_slashed p tokens : _decode_pointer p = Ok tokens → slashed p.
Proof.
  unfold _decode_pointer, slashed. destruct (str_to_list p) as [|c rest]; [done|].
  by destruct c as [[] [] [] [] [] [] [] []].
Qed.

Lemma apply_pointers_slashed `{Env : CodecEnv} pointers acc res :
  Forall slashed acc.2 → foldl apply_pointer (Ok acc) pointers = Ok res → Forall slashed res.2.
Proof.
  revert acc. induction pointers as [|p ps IH]; intros acc Ha; [by intros [= <-]|].
  intros (tokens & Hp & H)%apply_pointers_cons. eapply (IH (_, _)), H. cbn.
  destruct (_replace_tokens acc.1 tokens _REDACTED).2; [|done].
  apply Forall_app_2; [done|]. constructor; [by eapply decode_pointer_slashed | constructor].
Qed.

Lemma path_fields ps : Forall slashed ps → mapM path_field (map JStr ps) = Some ps.
Proof.
  induction 1 as [|p ps Hp _ IH]; [done|]. unfold slashed in Hp. cbn -[prefix_of].
  rewrite Hp. cbn. by rewrite IH.
Qed.

(** ** What is kept by a pointer other than ["/meta"] *)

Lemma unescape_meta l : unescape l = Some (str_to_list "meta") → l = str_to_list "meta".
Proof.
  assert (∀ c r l, c ≠ "~"%char → c ≠ "/"%char → unescape l = Some (c :: r) →
    ∃ l', l = c :: l' ∧ unescape l' = Some r) as Hstep.
  { intros c r [|a l'] H1 H2; [done|]. destruct (decide (a = "~"%char)) as [->|Ha].
    - destruct l' as [|b l'']; [done|].
      destruct b as [[] [] [] [] [] [] [] []]; cbn; try done;
        destruct (unescape l''); cbn; intros [=]; congruence.
    - assert (unescape (a :: l') = cons a <$> unescape l') as ->
        by by destruct a as [[] [] [] [] [] [] [] []].
      intros (r' & Hr & [= <- <-])%fmap_Some. by exists l'. }
  intros (l1 & -> & H1)%Hstep; [|done..]. apply Hstep in H1 as (l2 & -> & H2); [|done..].
  apply Hstep in H2 as (l3 & -> & H3); [|done..]. apply Hstep in H3 as (l4 & -> & H4); [|done..].
  destruct l4 as [|a l4]; [done|]. exfalso. revert H4.
  destruct a as [[] [] [] [] [] [] [] []]; cbn; try (by destruct (unescape l4));
  destruct l4 as [|b l4]; try done;
  destruct b as [[] [] [] [] [] [] [] []]; try done; by destruct (unescape l4).
Qed.

Lemma split_chars_single sep acc l x : split_chars sep acc l = [x] → x = reverse acc ++ l.
Proof.
  revert acc. induction l as [|c l IH]; intros acc; cbn; [intros [= <-]; by rewrite app_nil_r|].
  destruct (Ascii.eqb c sep).
  - intros [= _ H]. by apply split_chars_nonempty in H.
  - intros ->%IH. by rewrite reverse_cons, <- (assoc_L app).
Qed.

Lemma decode_meta p : _decode_pointer p = Ok ["meta"] → p = "/meta".
Proof.
  unfold _decode_pointer. intros H. rewrite <- (str_of_to_list p).
  destruct (str_to_list p) as [|c rest]; [done|].
  destruct (Ascii.eqb_spec c "/") as [->|Hc]; [|by destruct c as [[] [] [] [] [] [] [] []]].
  destruct (mapM unescape (split_chars "/" [] rest)) as [ts|] eqn:E; [|done].
  destruct (split_chars "/" [] rest) as [|x xs] eqn:Hs; [by apply split_chars_nonempty in Hs|].
  apply mapM_Some in E. inversion E as [|? t ? ts' Hx Hxs]; subst. injection H as Ht Hts.
  apply (f_equal str_to_list) in Ht. rewrite str_to_of_list in Ht. subst t.
  apply fmap_nil_inv in Hts as ->. inversion Hxs; subst.
  apply unescape_meta in Hx as ->. apply split_chars_single in Hs. cbn in Hs. by subst rest.
Qed.

(** The headers stay a mapping. *)
Definition with_headers (v : value) : Prop := ∃ b items, v = document b (VDict items).

Lemma replaced_with_headers `{Env : CodecEnv} v p tokens :
  p ≠ "/meta" → with_headers v → _decode_pointer p = Ok tokens → with_headers (replaced v tokens).
Proof.
  intros Hp (b & items & ->) Ht. pose proof (decode_pointer_nonempty _ _ Ht).
  destruct tokens as [|t ts]; [done|]. unfold document. cbn [_replace_tokens key_get]. unfold key_is. cbn [key_text].
  destruct (String.eqb_spec t "body") as [->|Hb].
  { destruct (_replace_tokens b ts _REDACTED) as [b' []]; by eexists _, _. }
  destruct (String.eqb_spec t "meta") as [->|Hm]; [|by eexists _, _].
  destruct ts as [|t ts]; [by apply decode_meta in Ht|]. cbn [_replace_tokens].
  destruct (key_get t items) as [x|]; [|by eexists _, _].
  destruct (_replace_tokens x ts _REDACTED) as [x' []]; by eexists _, _.
Qed.

Lemma veq_dict_kept `{Env : CodecEnv} items v : veq (VDict items) v → ∃ items', v = VDict items'.
Proof. intros H. inversion H; eauto. Qed.

Section RoundTrip.
Context `{Env : CodecEnv} `{PL : !PyEqLaws} (py_str : value → string).

Lemma logical_document_wf e :
  replayable (body e) → replayable (VStrDict (meta e)) → replayable (logical_document e).
Proof.
  intros Hb Hm. split; [done|]. cbn. apply NoDup_cons. split; [|apply NoDup_singleton].
  by intros [=]%list_elem_of_singleton.
Qed.

(** The redacted envelope can be encoded and read back. *)
Lemma redacted_wf e pointers r paths :
  replayable (body e) → replayable (VStrDict (meta e)) → "/meta" ∉ pointers →
  redact_envelope py_str e pointers = Ok (r, paths) →
  replayable (re_body r) ∧ replayable (re_meta r) ∧ (∃ items, re_meta r = VDict items) ∧
  Forall slashed paths ∧ re_attempts r = attempts e.
Proof.
  intros Hb Hm Hp (ps & Hf & -> & Ha)%redact_envelope_ok.
  set (start := _redact_secret_keys py_str "" (logical_document e)) in *.
  assert (replayable (document (re_body r) (re_meta r))) as [(Hb' & Hm' & _) _].
  { apply (apply_pointers_keep replayable pointers _ _
      (λ v _ tokens Hv _, replaced_wf v tokens Hv)) in Hf; [done|].
    by apply redact_wf, logical_document_wf. }
  split_and!; [done | done | | | done].
  - assert (with_headers (document (re_body r) (re_meta r))) as (b & items & E); [|injection E; eauto].
    cut (∀ acc, with_headers acc.1 → foldl apply_pointer (Ok acc) pointers
                = Ok (document (re_body r) (re_meta r), ps) →
                with_headers (document (re_body r) (re_meta r))).
    { intros Hc. apply (Hc start); [|done]. unfold start, logical_document, VStrDict. cbn.
      destruct (_redact_secret_keys _ _ (body e)), (red_items _ _ _ _). by eexists _, _. }
    clear Hf start. revert Hp. induction pointers as [|p qs IH]; intros Hp acc Hacc.
    { intros [= ->]. done. }
    intros (tokens & Ht & Hf)%apply_pointers_cons. apply not_elem_of_cons in Hp as [Hp Hqs].
    refine (IH Hqs _ _ Hf). by apply (replaced_with_headers _ p).
  - rewrite sort_by_perm. apply Forall_forall. intros p Hin.
    rewrite elem_of_remove_dups in Hin. revert p Hin.
    apply Forall_forall. refine (apply_pointers_slashed _ _ _ _ Hf).
    apply redact_paths_slashed. by left.
Qed.

(** What the writer captures can be loaded again: when the document fits,
    its enumeration members can be read back ([replayable]) and no pointer
    names the headers as a whole, [load_capture] accepts it
    for the same app and task, and its body and headers equal the redacted
    ones (sets up to their order). *)
Theorem capture_reads_back cfg d app task stage terminal failure e doc :
  capture_document py_str cfg d app task stage terminal failure e = Ok doc →
  valid_datetime d = true → (0 ≤ attempts e)%Z →
  replayable (body e) → replayable (VStrDict (meta e)) → "/meta" ∉ redact_paths cfg →
  ∃ r lc,
    load_document (Some app) (Some task) doc = Ok lc ∧
    redact_envelope py_str e (redact_paths cfg) = Ok (r, lc_redacted_paths lc) ∧
    veq (re_body r) (lc_body lc) ∧ veq (re_meta r) (VDict (lc_meta lc)) ∧
    lc_attempts lc = attempts e ∧ lc_app lc = app ∧ lc_task lc = task ∧
    lc_stage lc = stage ∧ lc_terminal lc = terminal ∧
    lc_failure lc = [("kind", failure_kind_value (fi_kind failure));
                     ("exception_type", fi_exception_type failure);
                     ("message", fi_message failure)].
Proof.
  unfold capture_document. intros ([r paths] & Hr & Hdoc)%bind_ok Hd Ha Hb Hm Hp.
  apply bind_ok in Hdoc as (b & Eb & (m & Em & Hdoc)%bind_ok).
  apply bind_ok in Hdoc as ([] & _ & [= <-]).
  pose proof (redacted_wf _ _ _ _ Hb Hm Hp Hr) as (Hwb & Hwm & (items & Ei) & Hs & Hra).
  destruct (encode_round_trips _ _ _ Hwb Eb "") as (vb & Hvb & Hqb).
  destruct (encode_round_trips _ _ _ Hwm Em "") as (vm & Hvm & Hqm).
  rewrite Ei in Hqm. destruct (veq_dict_kept _ _ Hqm) as [items' ->].
  eexists r, _. split.
  { unfold load_document, load_failure. cbn -[fromisoformat zulu replace_text decode_value mapM].
    rewrite zulu_read by done. unfold expected. rewrite !String.eqb_refl.
    cbn -[decode_value mapM Z.leb]. rewrite Hra, (proj2 (Z.leb_le _ _) Ha).
    cbn -[decode_value mapM]. rewrite Hvm. cbn -[decode_value mapM].
    rewrite path_fields by done. cbn. rewrite Hvb. done. }
  rewrite Ei. split_and!; [exact Hr | exact Hqb | exact Hqm | reflexivity..].
Qed.
End RoundTrip.

(** ** Concrete captures *)

Definition demo_config (pointers : list string) : FailureCaptureConfig :=
  {| directory := "captures"; mode := MODE_TERMINAL; max_bytes := 1048576; redact_paths := pointers |}.

(** 2024-02-29T12:30:00.250000 of UTC. *)
Definition demo_time : pydatetime :=
  PyDatetime (wall_of 2024 2 29 12 30 + 250000)%Z (Some 0%Z) false.

Definition demo_failure : FailureInfo :=
  {| fi_kind := FK_ERROR; fi_exception_type := "ValueError"; fi_message := "boom";
     fi_traceback := None |}.

Definition demo_capture (pointers : list string) : result exn json :=
  capture_document show_key (demo_config pointers) demo_time "shop" "charge" "handler" true demo_failure
    login_envelope.

(** A pointer to the headers as a whole replaces them by a text: the capture
    is written, and [load_capture] rejects it. *)
Example captured_headers_rejected :
  match demo_capture ["/meta"] with
  | Ok doc => is_ok (load_document (Some "shop") (Some "charge") doc) = false
  | Err _ => False
  end.
Proof. vm_compute. reflexivity. Qed.

Ltac no_dup :=
  repeat (apply NoDup_cons; split;
          [let H := fresh in intros H;
           repeat (apply elem_of_cons in H as [H|H]; [discriminate H|]); by apply elem_of_nil in H|]);
  apply NoDup_nil_2.

Lemma capture_reads_back_witness :
  ∃ doc lc, demo_capture ["/body/cards/0/number"] = Ok doc ∧
    load_document (Some "shop") (Some "charge") doc = Ok lc ∧ lc_attempts lc = 2%Z.
Proof.
  destruct (demo_capture ["/body/cards/0/number"]) as [doc|e] eqn:E;
    [|exfalso; revert E; vm_compute; discriminate].
  unfold demo_capture in E.
  destruct (@capture_reads_back demo_env demo_laws show_key (demo_config ["/body/cards/0/number"]) demo_time "shop" "charge"
              "handler" true demo_failure login_envelope doc E) as (r & lc & Hl & _ & _ & _ & Ha & _).
  - vm_compute. reflexivity.
  - vm_compute. discriminate.
  - cbn. split_and!; try exact I; no_dup.
  - cbn. split_and!; try exact I; no_dup.
  - intros H. apply list_elem_of_singleton in H. discriminate.
  - exists doc, lc. split; [reflexivity | split; [exact Hl | exact Ha]].
Defined.
