(* ===== verification/Kafka.v ===== *)
(** * The Kafka topic ([onestep_kafka/connector.py])

    [KafkaOffsetTracker] keeps, for each partition, the offset that may be
    committed next and the offsets it has seen; [KafkaTopic] is the consumer
    side: a step relation over the actions of the event loop and of the
    broker.  [aiokafka] is modelled by what it documents: [getmany] returns
    the next records of a partition in order and moves the position of the
    consumer, [seek] sets it, [commit] stores the committed offset of the
    group, and a consumer starts at the committed offset. *)

From stdpp Require Import base gmap sets list strings numbers.
From Stdlib Require Import ZArith Lia.
From S2P Require Import Prelude.

(** ** [KafkaOffsetTracker] *)

Record _PartitionOffsetState := {
  next_commit_offset : option Z;
  fetched_offsets : gset Z;
  started_offsets : gset Z;
  completed_offsets : gset Z;
}.

Definition set_next (n : Z) (st : _PartitionOffsetState) : _PartitionOffsetState :=
  {| next_commit_offset := Some n; fetched_offsets := fetched_offsets st;
     started_offsets := started_offsets st; completed_offsets := completed_offsets st |}.

(** A topic and a partition. *)
Abbreviation partition_key := (string * Z)%type.

Abbreviation KafkaOffsetTracker := (gmap partition_key _PartitionOffsetState).

(** [self._state(topic, partition, offset)]: the state that is stored under
    the key afterwards. *)
Definition _state (tr : KafkaOffsetTracker) (key : partition_key) (offset : Z) : _PartitionOffsetState :=
  match tr !! key with
  | None => {| next_commit_offset := Some offset; fetched_offsets := ∅; started_offsets := ∅;
               completed_offsets := ∅ |}
  | Some st =>
      match next_commit_offset st with
      | None => set_next offset st
      | Some n => if (offset <? n)%Z then set_next offset st else st
      end
  end.

Definition mark_fetched (key : partition_key) (offset : Z) (tr : KafkaOffsetTracker) : KafkaOffsetTracker :=
  let st := _state tr key offset in
  <[key := {| next_commit_offset := next_commit_offset st;
              fetched_offsets := {[offset]} ∪ fetched_offsets st;
              started_offsets := started_offsets st; completed_offsets := completed_offsets st |}]> tr.

Definition mark_started (key : partition_key) (offset : Z) (tr : KafkaOffsetTracker) : KafkaOffsetTracker :=
  let st := _state tr key offset in
  <[key := {| next_commit_offset := next_commit_offset st; fetched_offsets := fetched_offsets st;
              started_offsets := {[offset]} ∪ started_offsets st;
              completed_offsets := completed_offsets st |}]> tr.

(** [while next_offset in completed: next_offset += 1]. *)
Fixpoint advance (fuel : nat) (completed : gset Z) (next_offset : Z) : Z :=
  match fuel with
  | O => next_offset
  | S fuel => if decide (next_offset ∈ completed) then advance fuel completed (next_offset + 1)
              else next_offset
  end.

(** The loop runs at most once for each completed offset. *)
Definition first_incomplete (completed : gset Z) (next_offset : Z) : Z :=
  advance (size completed) completed next_offset.

Definition _next_committable_offset (st : _PartitionOffsetState) : option Z :=
  match next_commit_offset st with
  | None => None
  | Some n => let n' := first_incomplete (completed_offsets st) n in
              if (n' =? n)%Z then None else Some n'
  end.

Definition mark_completed (key : partition_key) (offset : Z) (tr : KafkaOffsetTracker)
    : KafkaOffsetTracker * option Z :=
  let st := _state tr key offset in
  let st' := {| next_commit_offset := next_commit_offset st; fetched_offsets := fetched_offsets st;
                started_offsets := started_offsets st;
                completed_offsets := {[offset]} ∪ completed_offsets st |} in
  (<[key := st']> tr, _next_committable_offset st').

(** The offsets that are not below [n]. *)
Definition kept (n : Z) (offsets : gset Z) : gset Z := filter (λ o, (n ≤ o)%Z) offsets.

Definition mark_committed (key : partition_key) (next_offset : Z) (tr : KafkaOffsetTracker)
    : KafkaOffsetTracker :=
  let st := _state tr key next_offset in
  <[key := {| next_commit_offset := Some next_offset;
              fetched_offsets := kept next_offset (fetched_offsets st);
              started_offsets := kept next_offset (started_offsets st);
              completed_offsets := kept next_offset (completed_offsets st) |}]> tr.

Definition mark_released_unstarted (key : partition_key) (offset : Z) (tr : KafkaOffsetTracker)
    : KafkaOffsetTracker * option Z :=
  let st := _state tr key offset in
  if decide (offset ∈ started_offsets st ∨ offset ∈ completed_offsets st)
  then (<[key := st]> tr, None)
  else (<[key := {| next_commit_offset := next_commit_offset st;
                    fetched_offsets := fetched_offsets st ∖ {[offset]};
                    started_offsets := started_offsets st; completed_offsets := completed_offsets st |}]> tr,
        Some offset).

Definition next_committed_offset (key : partition_key) (tr : KafkaOffsetTracker) : option Z :=
  st ← tr !! key; next_commit_offset st.

(** ** [KafkaTopic] and its deliveries *)

(** What the commit of an acknowledgement came to: stored and answered;
    refused; or stored while the caller saw an error or was cancelled. *)
Inductive commit_answer := CommitStored | CommitRefused | CommitUnanswered.

Record KafkaTopic := {
  _offset_tracker : KafkaOffsetTracker;
  (** the position of the consumer *)
  position : gmap partition_key Z;
  (** what the broker has committed for the group *)
  committed : gmap partition_key Z;
  (** what [getmany] returned and [fetch] has not marked yet *)
  fetching : list (partition_key * Z);
  (** the deliveries that are neither settled nor released *)
  live : list (partition_key * Z);
  (** every record whose delivery was acknowledged or failed *)
  settled : gset (partition_key * Z);
  (** the records that [getmany] returned and [fetch] dropped unmarked *)
  dropped : list (partition_key * Z);
}.

Definition with_tracker (tr : KafkaOffsetTracker) (t : KafkaTopic) : KafkaTopic :=
  {| _offset_tracker := tr; position := position t; committed := committed t; fetching := fetching t;
     live := live t; settled := settled t; dropped := dropped t |}.

Definition with_position (p : gmap partition_key Z) (t : KafkaTopic) : KafkaTopic :=
  {| _offset_tracker := _offset_tracker t; position := p; committed := committed t;
     fetching := fetching t; live := live t; settled := settled t; dropped := dropped t |}.

Definition with_committed (c : gmap partition_key Z) (t : KafkaTopic) : KafkaTopic :=
  {| _offset_tracker := _offset_tracker t; position := position t; committed := c;
     fetching := fetching t; live := live t; settled := settled t; dropped := dropped t |}.

Definition with_live (l : list (partition_key * Z)) (t : KafkaTopic) : KafkaTopic :=
  {| _offset_tracker := _offset_tracker t; position := position t; committed := committed t;
     fetching := fetching t; live := l; settled := settled t; dropped := dropped t |}.

Definition with_settled (s : gset (partition_key * Z)) (t : KafkaTopic) : KafkaTopic :=
  {| _offset_tracker := _offset_tracker t; position := position t; committed := committed t;
     fetching := fetching t; live := live t; settled := s; dropped := dropped t |}.

Definition with_fetching (l : list (partition_key * Z)) (t : KafkaTopic) : KafkaTopic :=
  {| _offset_tracker := _offset_tracker t; position := position t; committed := committed t;
     fetching := l; live := live t; settled := settled t; dropped := dropped t |}.

Definition with_dropped (l : list (partition_key * Z)) (t : KafkaTopic) : KafkaTopic :=
  {| _offset_tracker := _offset_tracker t; position := position t; committed := committed t;
     fetching := fetching t; live := live t; settled := settled t; dropped := l |}.

(** [consumer.seek]. *)
Definition seek (key : partition_key) (offset : Z) (t : KafkaTopic) : KafkaTopic :=
  with_position (<[key := offset]> (position t)) t.

(** [_commit_offset_unlocked] and then [mark_committed]. *)
Definition commit_offset (answer : commit_answer) (key : partition_key) (next_offset : Z) (t : KafkaTopic)
    : KafkaTopic :=
  let stored := with_committed (<[key := next_offset]> (committed t)) t in
  match answer with
  | CommitStored => with_tracker (mark_committed key next_offset (_offset_tracker t)) stored
  | CommitRefused => t
  | CommitUnanswered => stored
  end.

Definition ack_record (answer : commit_answer) (r : partition_key * Z) (t : KafkaTopic) : KafkaTopic :=
  let '(tr, next_offset) := mark_completed r.1 r.2 (_offset_tracker t) in
  let t := with_tracker tr t in
  match next_offset with
  | None => t
  | Some n => commit_offset answer r.1 n t
  end.

Definition release_unstarted_record (r : partition_key * Z) (t : KafkaTopic) : KafkaTopic :=
  let '(tr, seek_offset) := mark_released_unstarted r.1 r.2 (_offset_tracker t) in
  let t := with_tracker tr t in
  match seek_offset with
  | Some o => seek r.1 o t
  | None => t
  end.

(** The marking loop of [fetch]: each record is marked and then decoded; when
    the decoding of one raises, the whole call raises, the deliveries built
    so far are dropped and the records after it are not marked. *)
Fixpoint mark_records (decodes : partition_key * Z → bool) (records : list (partition_key * Z))
    (tr : KafkaOffsetTracker)
    : KafkaOffsetTracker * option (list (partition_key * Z)) * list (partition_key * Z) :=
  match records with
  | [] => (tr, Some [], [])
  | r :: records =>
      let tr := mark_fetched r.1 r.2 tr in
      if decodes r
      then let '(tr, ds, unmarked) := mark_records decodes records tr in (tr, cons r <$> ds, unmarked)
      else (tr, None, records)
  end.

Definition fetched (decodes : partition_key * Z → bool) (t : KafkaTopic) : KafkaTopic :=
  let '(tr, ds, unmarked) := mark_records decodes (fetching t) (_offset_tracker t) in
  with_dropped (dropped t ++ unmarked)
    (with_fetching [] (with_live (live t ++ default [] ds) (with_tracker tr t))).

(** [fetch] is cancelled: in [getmany], or while it waits for the lock under
    which it marks what [getmany] returned. *)
Definition fetch_cancelled (t : KafkaTopic) : KafkaTopic :=
  with_dropped (dropped t ++ fetching t) (with_fetching [] t).

Definition fetch_size (limit batch_size : Z) : Z := Z.max 1 (Z.min limit batch_size).

(** ** The consumer and the broker *)

Section Steps.
(** The records of each partition: the offsets need not be consecutive. *)
Context (record_at : partition_key → Z → bool) (decodes : partition_key * Z → bool).

(** The records between two positions, in the order of their offsets. *)
Definition batch (key : partition_key) (p p' : Z) (offsets : list Z) : Prop :=
  (∀ o, o ∈ offsets ↔ (p ≤ o < p')%Z ∧ record_at key o = true) ∧
  ∀ i j o o', (i < j)%nat → offsets !! i = Some o → offsets !! j = Some o' → (o < o')%Z.

(** A restart, or a new event loop ([_ensure_runtime_state]). *)
Definition restarted (t : KafkaTopic) : KafkaTopic :=
  {| _offset_tracker := ∅; position := committed t; committed := committed t; fetching := [];
     live := []; settled := settled t; dropped := dropped t |}.

Inductive kstep (t : KafkaTopic) : KafkaTopic → Prop :=
| k_polled key p p' offsets :
    position t !! key = Some p → (p ≤ p')%Z → batch key p p' offsets →
    kstep t (with_fetching (fetching t ++ map (pair key) offsets)
               (with_position (<[key := p']> (position t)) t))
| k_fetched : kstep t (fetched decodes t)
| k_fetch_cancelled : kstep t (fetch_cancelled t)
| k_started r :
    r ∈ live t → kstep t (with_tracker (mark_started r.1 r.2 (_offset_tracker t)) t)
| k_acked answer r :
    r ∈ live t → kstep t (with_settled (settled t ∪ {[r]}) (ack_record answer r t))
| k_retried r : r ∈ live t → kstep t (seek r.1 r.2 t)
| k_released r : r ∈ live t → kstep t (release_unstarted_record r t)
| k_left l l' r : live t = l ++ r :: l' → kstep t (with_live (l ++ l') t)
| k_restarted : kstep t (restarted t)
| k_rebalanced key c others :
    (** another member of the group had the partition and committed [c] *)
    (∀ o, record_at key o = true → (o < c)%Z → (key, o) ∈ settled t ∪ others) →
    kstep t (with_position (<[key := c]> (position t))
               (with_committed (<[key := c]> (committed t)) (with_settled (settled t ∪ others) t))).

(** A group that has settled what it committed. *)
Inductive kreachable : KafkaTopic → Prop :=
| k_start start done :
    (∀ key c o, start !! key = Some c → record_at key o = true → (o < c)%Z → (key, o) ∈ done) →
    kreachable {| _offset_tracker := ∅; position := start; committed := start; fetching := [];
                  live := []; settled := done; dropped := [] |}
| k_next t t' : kreachable t → kstep t t' → kreachable t'.
End Steps.
