(* ===== verification/KafkaTheorems.v ===== *)
(** * The commits of a Kafka topic *)

From stdpp Require Import base gmap sets list strings numbers fin_maps fin_sets.
From Stdlib Require Import ZArith Lia.
From S2P Require Import Prelude Kafka.

(** ** The loop of [_next_committable_offset] *)

Definition from (m : Z) (C : gset Z) : gset Z := filter (λ o, (m ≤ o)%Z) C.

Lemma from_smaller m C : m ∈ C → (size (from (m + 1) C) < size (from m C))%nat.
Proof.
  intros Hm. apply subset_size. unfold from. split.
  - intros o [Ho HC]%elem_of_filter. apply elem_of_filter. split; [lia | done].
  - intros H. assert (m ∈ filter (λ o, (m ≤ o)%Z) C) as Hin by (apply elem_of_filter; split; [lia | done]).
    apply H, elem_of_filter in Hin. lia.
Qed.

Lemma advance_spec fuel C m :
  (size (from m C) ≤ fuel)%nat →
  (m ≤ advance fuel C m)%Z ∧ (advance fuel C m ∉ C) ∧
  ∀ o, (m ≤ o < advance fuel C m)%Z → o ∈ C.
Proof.
  revert m. induction fuel as [|fuel IH]; intros m Hf; cbn.
  - split_and!; [lia | | lia]. intros Hm.
    assert (m ∈ from m C) as H by (apply elem_of_filter; split; [lia | done]).
    assert (size (from m C) = 0)%nat as H0%size_empty_inv by lia. exfalso. rewrite H0 in H. by apply elem_of_empty in H.
  - destruct (decide (m ∈ C)) as [Hm|Hm]; [|split_and!; [lia | done | lia]].
    pose proof (from_smaller _ _ Hm). destruct (IH (m + 1)%Z ltac:(lia)) as (H1 & H2 & H3).
    split_and!; [lia | done |]. intros o Ho. destruct (decide (o = m)) as [->|]; [done|].
    apply H3. lia.
Qed.

(** The result is the first offset from [m] on that is not complete. *)
Lemma first_incomplete_spec C m :
  (m ≤ first_incomplete C m)%Z ∧ (first_incomplete C m ∉ C) ∧
  ∀ o, (m ≤ o < first_incomplete C m)%Z → o ∈ C.
Proof.
  apply advance_spec. apply subseteq_size. intros o. unfold from. rewrite elem_of_filter. tauto.
Qed.

Lemma first_incomplete_unique C m n :
  (m ≤ n)%Z → n ∉ C → (∀ o, (m ≤ o < n)%Z → o ∈ C) → first_incomplete C m = n.
Proof.
  intros Hn Hc Ho. destruct (first_incomplete_spec C m) as (H1 & H2 & H3).
  destruct (Z.lt_trichotomy (first_incomplete C m) n) as [H|[H|H]]; [|done|].
  - destruct H2. apply Ho. lia.
  - destruct Hc. apply H3. lia.
Qed.

Lemma next_committable_some st n' :
  _next_committable_offset st = Some n' →
  ∃ n, next_commit_offset st = Some n ∧ n' = first_incomplete (completed_offsets st) n ∧ (n < n')%Z.
Proof.
  unfold _next_committable_offset. destruct (next_commit_offset st) as [n|]; [|done].
  destruct (first_incomplete_spec (completed_offsets st) n) as (H & _ & _).
  destruct (_ =? n)%Z eqn:E; [done|]. intros [= <-]. exists n. split_and!; [done..|lia].
Qed.

(** ** [_state] *)

Lemma state_completed tr key o :
  completed_offsets (_state tr key o) = from_option completed_offsets ∅ (tr !! key).
Proof.
  unfold _state. destruct (tr !! key) as [st|]; [|done]. destruct (next_commit_offset st); [|done].
  cbn. by destruct (o <? z)%Z.
Qed.

Lemma state_next tr key o :
  next_commit_offset (_state tr key o)
  = Some (match next_committed_offset key tr with Some n => Z.min n o | None => o end).
Proof.
  unfold _state, next_committed_offset. destruct (tr !! key) as [st|]; cbn; [|done].
  destruct (next_commit_offset st) as [n|] eqn:E; cbn; [|done].
  destruct (o <? n)%Z eqn:Eo; cbn; [f_equal; lia | rewrite E; f_equal; lia].
Qed.

Lemma next_insert (key key' : partition_key) (st : _PartitionOffsetState) (tr : KafkaOffsetTracker) :
  next_committed_offset key (<[key' := st]> tr)
  = if decide (key = key') then next_commit_offset st else next_committed_offset key tr.
Proof.
  unfold next_committed_offset. destruct (decide (key = key')) as [->|Hne].
  - by rewrite lookup_insert_eq.
  - by rewrite lookup_insert_ne.
Qed.

(** ** No commit passes a record that is not settled *)

Section Safety.
Context (record_at : partition_key → Z → bool) (decodes : partition_key * Z → bool).

Definition below (s : gset (partition_key * Z)) (key : partition_key) (n : Z) : Prop :=
  ∀ o, record_at key o = true → (o < n)%Z → (key, o) ∈ s.

(** The offset at which a partition is seen first: the first record of it
    that waits in [fetching], or the position of the consumer. *)
Fixpoint entry (key : partition_key) (l : list (partition_key * Z)) (p : option Z) : option Z :=
  match l with
  | [] => p
  | (key', o) :: l => if decide (key' = key) then Some o else entry key l p
  end.

Lemma entry_app key l l' p : entry key (l ++ l') p = entry key l (entry key l' p).
Proof. induction l as [|[key' o] l IH]; cbn; [done|]. by case_decide. Qed.

Lemma entry_cases key l : (∃ o, ∀ p, entry key l p = Some o) ∨ ∀ p, entry key l p = p.
Proof.
  induction l as [|[key' o] l IH]; cbn; [by right|]. case_decide; [left; by exists o | done].
Qed.

Lemma entry_other key key' offsets p : key ≠ key' → entry key (map (pair key') offsets) p = p.
Proof. intros Hne. induction offsets as [|o os IH]; cbn; [done|]. by case_decide. Qed.

Record safe (t : KafkaTopic) : Prop := {
  s_committed key c : committed t !! key = Some c → below (settled t) key c;
  s_next key n : next_committed_offset key (_offset_tracker t) = Some n → below (settled t) key n;
  s_some key st : _offset_tracker t !! key = Some st → is_Some (next_commit_offset st);
  s_completed key st o :
    _offset_tracker t !! key = Some st → o ∈ completed_offsets st → (key, o) ∈ settled t;
  s_unseen key p :
    _offset_tracker t !! key = None → entry key (fetching t) (position t !! key) = Some p →
    below (settled t) key p;
  s_fetching : Forall (λ r, record_at r.1 r.2 = true) (fetching t);
  s_live r : r ∈ live t → is_Some (_offset_tracker t !! r.1);
}.

Lemma below_mono s s' key n n' : below s key n → s ⊆ s' → (n' ≤ n)%Z → below s' key n'.
Proof. intros Hb Hs Hn o Hr Ho. apply Hs, Hb; [done | lia]. Qed.

Lemma below_min s key n m : below s key n → below s key (Z.min n m).
Proof. intros Hb. by apply (below_mono s s key n); [| |lia]. Qed.

Hint Resolve below_min : core.

(** Storing the state of a partition that a record of it was seen in. *)
Lemma safe_insert t (key : partition_key) (st : _PartitionOffsetState) n :
  safe t → next_commit_offset st = Some n → below (settled t) key n →
  (∀ o, o ∈ completed_offsets st → (key, o) ∈ settled t) →
  safe (with_tracker (<[key := st]> (_offset_tracker t)) t).
Proof.
  intros [Hc Hn Hs Ho Hu Hf Hl] Hnext Hb Hdone. split; cbn; [done | | | | | done |].
  - intros key' m. rewrite next_insert. case_decide; [intros; simplify_eq; done | apply Hn].
  - intros key' st' [(<- & <-)|(? & ?)]%lookup_insert_Some; [by rewrite Hnext | by eapply Hs].
  - intros key' st' o [(<- & <-)|(? & ?)]%lookup_insert_Some; [apply Hdone | by eapply Ho].
  - intros key' p [? ?]%lookup_insert_None. by apply Hu.
  - intros r Hr%Hl. apply lookup_insert_is_Some'. by right.
Qed.

Definition seen (t : KafkaTopic) (key : partition_key) (o : Z) : Prop :=
  is_Some (_offset_tracker t !! key) ∨ below (settled t) key o.

(** [_state] of a partition that was seen. *)
Lemma safe_state t key o n :
  safe t → seen t key o → next_commit_offset (_state (_offset_tracker t) key o) = Some n →
  below (settled t) key n.
Proof.
  intros [_ Hn Hs _ _ _ _] Hseen. rewrite state_next. intros [= <-].
  destruct (next_committed_offset key (_offset_tracker t)) as [m|] eqn:E; [by apply below_min, Hn|].
  destruct Hseen as [[st Hst]|Hb]; [|done]. unfold next_committed_offset in E. rewrite Hst in E.
  destruct (Hs _ _ Hst) as [m Hm]. cbn in E. congruence.
Qed.

Lemma safe_state_completed t key o x :
  safe t → x ∈ completed_offsets (_state (_offset_tracker t) key o) → (key, x) ∈ settled t.
Proof.
  intros Hsafe. rewrite state_completed. destruct (_offset_tracker t !! key) as [st|] eqn:E; cbn;
    [by eapply s_completed | set_solver].
Qed.

(** Updates that keep the next offset and the completed ones. *)
Lemma safe_keep t (key : partition_key) o (st : _PartitionOffsetState) :
  safe t → seen t key o →
  next_commit_offset st = next_commit_offset (_state (_offset_tracker t) key o) →
  completed_offsets st = completed_offsets (_state (_offset_tracker t) key o) →
  safe (with_tracker (<[key := st]> (_offset_tracker t)) t).
Proof.
  intros Hsafe Hseen Hn Hc. pose proof (safe_state t key o) as Hb. rewrite state_next in Hn, Hb.
  eapply safe_insert; [done | exact Hn | by apply Hb |]. intros x. rewrite Hc.
  by apply safe_state_completed.
Qed.

Lemma safe_settle t s : safe t → safe (with_settled (settled t ∪ s) t).
Proof.
  intros [Hc Hn Hs Ho Hu Hf Hl].
  assert (∀ key n, below (settled t) key n → below (settled t ∪ s) key n) as Hb.
  { intros key n H. apply (below_mono (settled t) _ key n); [done | set_solver | lia]. }
  split; cbn; eauto. intros key st o H1 H2. apply elem_of_union. left. by eapply Ho.
Qed.

(** ** The steps *)

Lemma mark_fetched_safe t r l :
  safe (with_fetching (r :: l) t) →
  safe (with_fetching l (with_tracker (mark_fetched r.1 r.2 (_offset_tracker t)) t)).
Proof.
  intros Hsafe. destruct r as [key o]. cbn [fst snd].
  assert (seen (with_fetching ((key, o) :: l) t) key o) as Hseen.
  { unfold seen. cbn. destruct (_offset_tracker t !! key) as [st|] eqn:E; [by left; exists st|]. right.
    apply (s_unseen _ Hsafe key o E). cbn. by rewrite decide_True. }
  unfold mark_fetched.
  pose proof (safe_keep (with_fetching ((key, o) :: l) t) key o
    {| next_commit_offset := next_commit_offset (_state (_offset_tracker t) key o);
       fetched_offsets := {[o]} ∪ fetched_offsets (_state (_offset_tracker t) key o);
       started_offsets := started_offsets (_state (_offset_tracker t) key o);
       completed_offsets := completed_offsets (_state (_offset_tracker t) key o) |}
    Hsafe Hseen eq_refl eq_refl)
    as [Hc Hn Hs Ho Hu Hf Hl]. cbn in *.
  split; cbn; [done..| | | done].
  - intros key' p Hk Hp. apply (Hu key' p Hk). rewrite decide_False; [done|].
    intros ->. by rewrite lookup_insert_eq in Hk.
  - by inversion Hf.
Qed.

Lemma mark_records_safe l t tr ds :
  safe (with_fetching l t) → mark_records decodes l (_offset_tracker t) = (tr, ds, []) →
  safe (with_fetching [] (with_tracker tr t)) ∧
  (∀ key, is_Some (_offset_tracker t !! key) → is_Some (tr !! key)) ∧
  ∀ r, r ∈ default [] ds → is_Some (tr !! r.1).
Proof.
  revert t ds. induction l as [|r l IH]; intros t ds Hsafe; cbn [mark_records].
  { intros [= <- <-]. split_and!; [done | done |]. intros r Hr. by apply elem_of_nil in Hr. }
  pose proof (mark_fetched_safe _ _ _ Hsafe) as Hmark.
  assert (∀ key, is_Some (_offset_tracker t !! key) → is_Some (mark_fetched r.1 r.2 (_offset_tracker t) !! key)) as Hk.
  { intros key Hkey. by apply lookup_insert_is_Some'; right. }
  destruct (decodes r).
  - destruct (mark_records _ _ _) as [[tr' ds'] rest] eqn:E. intros [= <- <- ->].
    destruct (IH _ _ Hmark E) as (Hs & Hmono & Hl). cbn in Hs, Hmono.
    split_and!; [done | by auto |]. destruct ds' as [ds'|]; cbn; [|intros r' Hr'; by apply elem_of_nil in Hr'].
    intros r' [->|Hr']%elem_of_cons; [|by apply Hl].
    apply Hmono. unfold mark_fetched. rewrite lookup_insert_eq. eauto.
  - intros [= <- <- ->]. split_and!; [done | done |]. intros r' Hr'. by apply elem_of_nil in Hr'.
Qed.

Lemma fetched_safe t : safe t → dropped (fetched decodes t) = [] → safe (fetched decodes t).
Proof.
  intros Hsafe. unfold fetched. destruct (mark_records _ _ _) as [[tr ds] rest] eqn:E. cbn [dropped with_dropped].
  intros [_ ->]%app_eq_nil.
  destruct (mark_records_safe (fetching t) t tr ds) as ([Hc Hn Hs Ho Hu Hf Hl] & Hmono & Hall);
    [by destruct t|done|].
  split; cbn in *; try done.
  intros r [Hr|Hr]%elem_of_app; [by apply Hmono, (s_live _ Hsafe) | by apply Hall].
Qed.

Lemma safe_committed t key c :
  safe t → below (settled t) key c → safe (with_committed (<[key := c]> (committed t)) t).
Proof.
  intros [Hc Hn Hs Ho Hu Hf Hl] Hb. split; cbn; try done.
  intros key' c' [(<- & <-)|(? & ?)]%lookup_insert_Some; [done | by apply Hc].
Qed.

Lemma commit_safe answer t key n :
  safe t → is_Some (_offset_tracker t !! key) → below (settled t) key n →
  safe (commit_offset answer key n t).
Proof.
  intros Hsafe Hk Hb. destruct answer; [|done|by apply safe_committed]. cbn. unfold mark_committed.
  pose proof (safe_committed _ _ _ Hsafe Hb) as Hc.
  apply (safe_insert (with_committed (<[key := n]> (committed t)) t) key _ n Hc); [done | done |].
  cbn. intros o [_ Ho]%elem_of_filter. by eapply safe_state_completed.
Qed.

Lemma ack_record_safe answer r t :
  safe t → r ∈ settled t → is_Some (_offset_tracker t !! r.1) → safe (ack_record answer r t).
Proof.
  destruct r as [key o]. intros Hsafe Hr Hk. unfold ack_record, mark_completed. cbn [fst snd] in *.
  set (st := {| next_commit_offset := _ |}).
  assert (∀ n, next_commit_offset st = Some n → below (settled t) key n) as Hb.
  { intros n Hn. eapply safe_state; [done | by left | exact Hn]. }
  assert (∀ x, x ∈ completed_offsets st → (key, x) ∈ settled t) as Hc.
  { intros x [->%elem_of_singleton|Hx]%elem_of_union; [done|]. by eapply safe_state_completed. }
  assert (safe (with_tracker (<[key := st]> (_offset_tracker t)) t)) as Hsafe'.
  { pose proof (state_next (_offset_tracker t) key o) as En. eapply safe_insert; [done | exact En | | done].
    by apply Hb. }
  destruct (_next_committable_offset st) as [n'|] eqn:E; [|done].
  apply next_committable_some in E as (n & Hn & -> & _).
  apply commit_safe; [done | cbn; rewrite lookup_insert_eq; eauto |]. cbn.
  destruct (first_incomplete_spec (completed_offsets st) n) as (_ & _ & Hrun).
  intros x Hrec Hx. destruct (Z.lt_ge_cases x n) as [Hlt|Hge]; [by apply (Hb n)|].
  apply Hc, Hrun. split; [exact Hge | exact Hx].
Qed.

Lemma ack_settled answer r s t :
  with_settled s (ack_record answer r t) = ack_record answer r (with_settled s t).
Proof.
  unfold ack_record. change (_offset_tracker (with_settled s t)) with (_offset_tracker t).
  destruct (mark_completed r.1 r.2 (_offset_tracker t)) as [tr [n|]]; [by destruct answer | done].
Qed.

(** Seeking in a partition that was seen. *)
Lemma seek_safe t key o : safe t → is_Some (_offset_tracker t !! key) → safe (seek key o t).
Proof.
  intros [Hc Hn Hs Ho Hu Hf Hl] [st Hk]. split; cbn; try done. intros key' p Hnone.
  destruct (decide (key' = key)) as [->|Hne]; [congruence|]. rewrite lookup_insert_ne by done.
  by apply Hu.
Qed.

Lemma release_safe t r :
  safe t → is_Some (_offset_tracker t !! r.1) → safe (release_unstarted_record r t).
Proof.
  destruct r as [key o]. intros Hsafe Hk. unfold release_unstarted_record, mark_released_unstarted.
  cbn [fst snd] in *. case_decide.
  - by apply (safe_keep t key o); [|left|..].
  - apply seek_safe; [by apply (safe_keep t key o); [|left|..]|]. cbn. rewrite lookup_insert_eq. eauto.
Qed.

(** The first record after a position starts the batch. *)
Lemma batch_entry key p p' offsets s :
  (p ≤ p')%Z → batch record_at key p p' offsets → below s key p →
  ∀ q, entry key (map (pair key) offsets) (Some p') = Some q → below s key q.
Proof.
  intros Hp [Hin Hsort] Hb q Hq o Hr Ho.
  destruct (Z.lt_ge_cases o p) as [Hlt|Hge]; [by apply Hb|]. exfalso.
  destruct offsets as [|o1 os]; cbn in Hq.
  - injection Hq as <-. assert (o ∈ []) as H0 by (apply Hin; split; [lia | done]).
    by apply elem_of_nil in H0.
  - rewrite decide_True in Hq by done. injection Hq as ->.
    assert (q < p')%Z as Hq by (apply (Hin q); left).
    assert (o ∈ q :: os) as [i Hi]%list_elem_of_lookup by (apply Hin; split; [lia | done]).
    destruct i as [|i]; [cbn in Hi; injection Hi; lia|].
    specialize (Hsort 0%nat (S i) q o ltac:(lia) eq_refl Hi). lia.
Qed.

Lemma polled_safe t key p p' offsets :
  safe t → position t !! key = Some p → (p ≤ p')%Z → batch record_at key p p' offsets →
  safe (with_fetching (fetching t ++ map (pair key) offsets)
         (with_position (<[key := p']> (position t)) t)).
Proof.
  intros [Hc Hn Hs Ho Hu Hf Hl] Hpos Hp Hbatch. split; cbn; try done.
  - intros key' q Hnone. rewrite entry_app. destruct (decide (key' = key)) as [->|Hne].
    + rewrite lookup_insert_eq. specialize (Hu key).
      destruct (entry_cases key (fetching t)) as [[o E]|E]; rewrite E in *; [by apply Hu|].
      eapply batch_entry; [done..|]. by apply Hu.
    + rewrite lookup_insert_ne, entry_other by done. by apply Hu.
  - apply Forall_app_2; [done|]. apply Forall_map, Forall_forall. intros o Ho'. cbn.
    by apply Hbatch in Ho' as [_ ?].
Qed.

Lemma ack_dropped answer r t : dropped (ack_record answer r t) = dropped t.
Proof. unfold ack_record. destruct (mark_completed _ _ _) as [tr [n|]]; [by destruct answer | done]. Qed.

(** What was dropped stays so. *)
Lemma step_dropped t t' : kstep record_at decodes t t' → dropped t' = [] → dropped t = [].
Proof.
  intros Hstep. destruct Hstep; try done.
  - unfold fetched. destruct (mark_records _ _ _) as [[tr ds] rest]. cbn. by intros [? _]%app_eq_nil.
  - by intros [? _]%app_eq_nil.
  - change (dropped (ack_record answer r t) = [] → dropped t = []). by rewrite ack_dropped.
  - unfold release_unstarted_record. by destruct (mark_released_unstarted _ _ _) as [tr []].
Qed.

Lemma step_safe t t' : safe t → kstep record_at decodes t t' → dropped t' = [] → safe t'.
Proof.
  intros Hsafe Hstep Hd. destruct Hstep.
  - by apply polled_safe with p.
  - by apply fetched_safe.
  - apply app_eq_nil in Hd as [_ Hd]. cbn in Hd. unfold fetch_cancelled. rewrite Hd, app_nil_r, <- Hd. by destruct t, Hsafe.
  - apply (safe_keep t r.1 r.2); [done | left; by apply (s_live _ Hsafe) | done | done].
  - rewrite ack_settled. apply ack_record_safe; [| set_solver | by apply (s_live _ Hsafe)].
    by apply safe_settle.
  - apply seek_safe; [done | by apply (s_live _ Hsafe)].
  - apply release_safe; [done | by apply (s_live _ Hsafe)].
  - destruct Hsafe as [Hc Hn Hs Ho Hu Hf Hl]. split; cbn; try done. intros r' Hr'. apply Hl.
    rewrite H, elem_of_app, elem_of_cons. apply elem_of_app in Hr'. tauto.
  - destruct Hsafe as [Hc Hn Hs Ho Hu Hf Hl]. split; cbn; try done.
    + intros key p _. apply Hc.
    + intros r Hr. by apply elem_of_nil in Hr.
  - pose proof (safe_settle _ others Hsafe) as [Hc Hn Hs Ho Hu Hf Hl]. split; cbn in *; try done.
    + intros key' c' [(<- & <-)|(? & ?)]%lookup_insert_Some; [done | by apply Hc].
    + intros key' p Hnone. destruct (decide (key' = key)) as [->|Hne].
      * rewrite lookup_insert_eq. specialize (Hu key).
        destruct (entry_cases key (fetching t)) as [[o E]|E]; rewrite E in *; [by apply Hu|].
        by intros [= <-].
      * rewrite lookup_insert_ne by done. by apply Hu.
Qed.

Lemma reachable_safe t : kreachable record_at decodes t → dropped t = [] → safe t.
Proof.
  induction 1 as [start done Hd|t t' _ IH Hs]; intros Hno; [|].
  2: { eapply step_safe; [apply IH; by eapply step_dropped | done | done]. }
  split; cbn.
  - intros key c Hc o Hr Ho. by eapply Hd.
  - done.
  - done.
  - done.
  - intros key p _ Hc o Hr Ho. by eapply Hd.
  - constructor.
  - intros r Hr. by apply elem_of_nil in Hr.
Qed.

(** C20. No record is lost: in every state of the consumer, whatever the order
    of acknowledgements, retries, releases, failed or unanswered commits,
    rebalances and restarts, each record below the committed offset of its
    partition was settled, so a consumer that starts there sees all the
    others.  The condition: no record was polled and then dropped before it
    was marked.  [fetch] drops such records when it is cancelled while it
    waits for the lock, and when a record before them in the same poll cannot
    be decoded ([cancelled_fetch_loses_record],
    [poisoned_poll_loses_record]). *)
Theorem commit_covers_settled t key c o :
  kreachable record_at decodes t → dropped t = [] → committed t !! key = Some c →
  record_at key o = true → (o < c)%Z → (key, o) ∈ settled t.
Proof. intros Ht Hd Hc Hr Ho. by apply (s_committed _ (reachable_safe t Ht Hd) key c). Qed.
End Safety.

(** ** Every offset is committed in the end *)

(** The acknowledgements of one partition, each with a stored commit. *)
Definition acks (key : partition_key) (l : list Z) (t : KafkaTopic) : KafkaTopic :=
  foldl (λ t o, ack_record CommitStored (key, o) t) t l.

Lemma state_above tr key (st : _PartitionOffsetState) m o :
  tr !! key = Some st → next_commit_offset st = Some m → (m ≤ o)%Z → _state tr key o = st.
Proof.
  intros Hst Hm Ho. unfold _state. rewrite Hst, Hm. by rewrite (proj2 (Z.ltb_ge _ _) Ho).
Qed.

(** [m] is the next offset, [C] the completed ones above it, [l] the
    offsets below [b] that remain. *)
Record awaiting (m b : Z) (C : gset Z) (l : list Z) : Prop := {
  aw_le : (m ≤ b)%Z;
  aw_next : m ∉ C;
  aw_all o : o ∈ l ∨ o ∈ C ↔ (m ≤ o < b)%Z;
  aw_once : NoDup l;
  aw_apart o : o ∈ l → o ∉ C;
}.

Lemma awaiting_later m b C x l :
  awaiting m b C (x :: l) → x ≠ m → awaiting m b ({[x]} ∪ C) l.
Proof.
  intros [H1 H2 H3 H4 H5] Hx. apply NoDup_cons in H4 as [Hxl H4]. split; [done | | | done |].
  - intros [?%elem_of_singleton|?]%elem_of_union; congruence.
  - intros o. rewrite <- H3. set_solver.
  - intros o Ho [->%elem_of_singleton|HC]%elem_of_union; [done|]. apply (H5 o); [by right | done].
Qed.

Lemma awaiting_next m b C l :
  awaiting m b C (m :: l) →
  let n := first_incomplete ({[m]} ∪ C) m in
  (m < n)%Z ∧ awaiting n b (kept n ({[m]} ∪ C)) l.
Proof.
  intros [H1 H2 H3 H4 H5]. apply NoDup_cons in H4 as [Hml H4]. cbn zeta.
  destruct (first_incomplete_spec ({[m]} ∪ C) m) as (Hge & Hout & Hrun).
  set (n := first_incomplete _ _) in *.
  assert (m < n)%Z as Hlt by (destruct (decide (n = m)) as [E|]; [rewrite E in Hout; set_solver | lia]).
  assert (n ≤ b)%Z as Hnb.
  { assert (n - 1 ∈ ({[m]} ∪ C))%Z as Hin by (apply Hrun; lia).
    assert (n - 1 ∈ m :: l ∨ n - 1 ∈ C)%Z as Hb%H3; [|lia].
    apply elem_of_union in Hin as [->%elem_of_singleton|?]; [left; left | by right]. }
  split; [done|]. unfold kept. split; [done | | | done |].
  - intros [_ ?]%elem_of_filter. done.
  - intros o. rewrite elem_of_filter, elem_of_union, elem_of_singleton. split.
    + intros [Ho|(Hn & [->|Ho])].
      * assert (m ≤ o < b)%Z as Hr by (apply H3; left; by right). split; [|lia].
        destruct (Z.lt_ge_cases o n) as [Hlt'|]; [|done]. exfalso.
        assert (o ∈ ({[m]} ∪ C)) as [->%elem_of_singleton|HC]%elem_of_union by (apply Hrun; lia); [done|].
        apply (H5 o); [by right | done].
      * lia.
      * assert (m ≤ o < b)%Z as Hr by (apply H3; by right). lia.
    + intros Ho. assert (m ≤ o < b)%Z as [[->|Hl]%elem_of_cons|HC]%H3 by lia; [lia | by left | right].
      split; [lia | by right].
  - intros o Ho [_ [->%elem_of_singleton|HC]%elem_of_union]%elem_of_filter; [done|].
    apply (H5 o); [by right | done].
Qed.

Lemma acks_await key b l m (st : _PartitionOffsetState) t :
  _offset_tracker t !! key = Some st → next_commit_offset st = Some m →
  awaiting m b (completed_offsets st) l →
  next_committed_offset key (_offset_tracker (acks key l t)) = Some b ∧
  (l ≠ [] → committed (acks key l t) !! key = Some b).
Proof.
  revert m st t. induction l as [|x l IH]; intros m st t Hst Hm Haw.
  - split; [|done]. cbn. unfold next_committed_offset. rewrite Hst. cbn. rewrite Hm. f_equal.
    destruct Haw as [H1 H2 H3 _ _]. destruct (Z.lt_ge_cases m b) as [Hlt|]; [|lia]. exfalso.
    assert (m ∈ [] ∨ m ∈ completed_offsets st) as [Hx|Hx] by (apply H3; lia);
      [by apply elem_of_nil in Hx | done].
  - assert (m ≤ x < b)%Z as Hx by (apply (aw_all _ _ _ _ Haw); left; left).
    cbn [acks foldl]. fold (acks key l (ack_record CommitStored (key, x) t)).
    assert (_state (_offset_tracker t) key x = st) as Est by (apply (state_above _ _ _ m); [done..|lia]).
    unfold ack_record, mark_completed. cbn [fst snd]. rewrite Est.
    set (st' := {| completed_offsets := _ |}).
    destruct (decide (x = m)) as [->|Hne].
    + destruct (awaiting_next _ _ _ _ Haw) as [Hlt Haw']. set (n := first_incomplete _ _) in *.
      assert (_next_committable_offset st' = Some n) as ->.
      { unfold _next_committable_offset, st'. cbn. rewrite Hm. fold n. destruct (n =? m)%Z eqn:E; [lia | done]. }
      cbn [commit_offset]. unfold mark_committed. rewrite (state_above _ key st' m); cycle 1.
      { cbn. by rewrite lookup_insert_eq. } { done. } { lia. }
      set (t1 := with_tracker _ (with_committed _ _)).
      destruct (IH n {| next_commit_offset := Some n; fetched_offsets := kept n (fetched_offsets st');
        started_offsets := kept n (started_offsets st'); completed_offsets := kept n (completed_offsets st') |} t1)
        as [Hn Hc]; [| done | done |].
      { cbn. by rewrite lookup_insert_eq. }
      split; [done|]. intros _. destruct l as [|y l]; [|by apply Hc]. cbn in Hn |- *.
      unfold next_committed_offset in Hn. cbn in Hn. rewrite !lookup_insert_eq in *. done.
    + pose proof (awaiting_later _ _ _ _ _ Haw Hne) as Haw'.
      assert (_next_committable_offset st' = None) as ->.
      { unfold _next_committable_offset, st'. cbn. rewrite Hm.
        rewrite (first_incomplete_unique _ m m); [by rewrite Z.eqb_refl | lia | apply (aw_next _ _ _ _ Haw') | lia]. }
      destruct (IH m st' (with_tracker (<[key := st']> (_offset_tracker t)) t)) as [Hn Hc]; [| done | done |].
      { cbn. by rewrite lookup_insert_eq. }
      split; [done|]. intros _. destruct l as [|y l]; [|by apply Hc].
      destruct Haw' as [_ Hnext Hall _ _].
      assert (m ∈ [] ∨ m ∈ {[x]} ∪ completed_offsets st) as [Hx'|Hx'] by (apply Hall; lia);
        [by apply elem_of_nil in Hx' | done].
Qed.

(** When the offsets of a partition are consecutive, acknowledging all of
    them, in any order, commits the offset after the last one. *)
Theorem acknowledged_in_any_order t key a n l (st : _PartitionOffsetState) :
  _offset_tracker t !! key = Some st → next_commit_offset st = Some a → completed_offsets st = ∅ →
  (0 < n)%Z → l ≡ₚ seqZ a n →
  committed (acks key l t) !! key = Some (a + n)%Z ∧
  next_committed_offset key (_offset_tracker (acks key l t)) = Some (a + n)%Z.
Proof.
  intros Hst Ha Hc Hn Hl.
  destruct (acks_await key (a + n) l a st t Hst Ha) as [H1 H2].
  { rewrite Hc. split; [lia | set_solver | | rewrite Hl; apply NoDup_seqZ | set_solver].
    intros o. rewrite Hl, elem_of_seqZ. set_solver by lia. }
  split; [|done]. apply H2. intros ->. apply Permutation_nil in Hl.
  assert (a ∈ seqZ a n) as Ha' by (apply elem_of_seqZ; lia). rewrite Hl in Ha'. by apply elem_of_nil in Ha'.
Qed.

(** The offsets of a partition need not be consecutive (compaction,
    transaction markers): an offset that holds no record is never completed,
    and the commits stop there for ever. *)
Lemma commit_stalls_at_gap t key g l (st : _PartitionOffsetState) :
  _offset_tracker t !! key = Some st → next_commit_offset st = Some g → g ∉ completed_offsets st →
  Forall (λ o, (g < o)%Z) l →
  committed (acks key l t) = committed t ∧
  next_committed_offset key (_offset_tracker (acks key l t)) = Some g.
Proof.
  intros Hst Hg Hc Hl. revert t st Hst Hg Hc. induction Hl as [|x l Hx _ IH]; intros t st Hst Hg Hc.
  { split; [done|]. cbn. unfold next_committed_offset. by rewrite Hst. }
  cbn [acks foldl]. fold (acks key l (ack_record CommitStored (key, x) t)).
  unfold ack_record, mark_completed. cbn [fst snd].
  rewrite (state_above _ _ _ g x Hst Hg ltac:(lia)). set (st' := {| completed_offsets := _ |}).
  assert (g ∉ completed_offsets st') as Hc'.
  { cbn. intros [?%elem_of_singleton|?]%elem_of_union; [lia | done]. }
  assert (_next_committable_offset st' = None) as ->.
  { unfold _next_committable_offset. change (next_commit_offset st') with (next_commit_offset st).
    rewrite Hg, (first_incomplete_unique _ g g); [by rewrite Z.eqb_refl | lia | done | lia]. }
  apply (IH (with_tracker (<[key := st']> (_offset_tracker t)) t) st'); [|done..].
  cbn. by rewrite lookup_insert_eq.
Qed.

(** ** Concrete runs *)

Definition orders : partition_key := ("orders", 0%Z).
Definition refunds : partition_key := ("orders", 1%Z).

(** The logs start at offset 5. *)
Definition logged (_ : partition_key) (o : Z) : bool := (5 <=? o)%Z.

Definition started_at (start : gmap partition_key Z) : KafkaTopic :=
  {| _offset_tracker := ∅; position := start; committed := start; fetching := []; live := [];
     settled := ∅; dropped := [] |}.

Definition polled (key : partition_key) (p' : Z) (offsets : list Z) (t : KafkaTopic) : KafkaTopic :=
  with_fetching (fetching t ++ map (pair key) offsets) (with_position (<[key := p']> (position t)) t).

Definition acked (answer : commit_answer) (r : partition_key * Z) (t : KafkaTopic) : KafkaTopic :=
  with_settled (settled t ∪ {[r]}) (ack_record answer r t).

(** Two records are fetched and acknowledged in reverse. *)
Definition orders_run : KafkaTopic :=
  acked CommitStored (orders, 5%Z)
    (acked CommitStored (orders, 6%Z)
       (fetched (λ _, true) (polled orders 7 [5; 6]%Z (started_at {[orders := 5%Z]})))).

Lemma batch_logged key p n : (5 ≤ p)%Z → (0 ≤ n)%Z → batch logged key p (p + n) (seqZ p n).
Proof.
  intros Hp Hn. split.
  - intros o. rewrite elem_of_seqZ. unfold logged. split; [intros H; split; [lia | by apply Z.leb_le; lia] | intros [H _]; lia].
  - intros i j o o' Hij [-> _]%lookup_seqZ [-> _]%lookup_seqZ. lia.
Qed.

Lemma started_reachable decodes start :
  (∀ key c, start !! key = Some c → (c ≤ 5)%Z) → kreachable logged decodes (started_at start).
Proof.
  intros Hs. apply k_start. intros key c o Hc Hr Ho. specialize (Hs key c Hc). unfold logged in Hr. lia.
Qed.

Lemma orders_run_reachable : kreachable logged (λ _, true) orders_run.
Proof.
  unfold orders_run.
  do 3 (eapply k_next; [|first [apply k_acked; vm_compute; repeat constructor | apply k_fetched]]).
  eapply k_next; [|apply (k_polled _ _ _ orders 5 7 [5; 6]%Z); [done | done | apply (batch_logged _ 5 2); done]].
  apply started_reachable. intros key c [<- <-]%lookup_singleton_Some. done.
Qed.

Lemma commit_covers_settled_witness :
  committed orders_run !! orders = Some 7%Z ∧ (orders, 6%Z) ∈ settled orders_run.
Proof.
  assert (committed orders_run !! orders = Some 7%Z) as Hc by (vm_compute; reflexivity).
  split; [exact Hc|].
  apply (commit_covers_settled logged (λ _, true) orders_run orders 7 6).
  - apply orders_run_reachable.
  - vm_compute. reflexivity.
  - exact Hc.
  - reflexivity.
  - lia.
Defined.

Lemma acknowledged_in_any_order_witness :
  let t := fetched (λ _, true) (polled orders 8 [5; 6; 7]%Z (started_at {[orders := 5%Z]})) in
  committed (acks orders [6; 7; 5]%Z t) !! orders = Some 8%Z.
Proof.
  intros t.
  destruct (acknowledged_in_any_order t orders 5 3 [6; 7; 5]%Z
    {| next_commit_offset := Some 5%Z; fetched_offsets := {[5; 6; 7]}%Z; started_offsets := ∅;
       completed_offsets := ∅ |}) as [H _].
  - vm_compute. reflexivity.
  - reflexivity.
  - reflexivity.
  - lia.
  - symmetry. apply (Permutation_cons_app [6; 7]%Z [] 5%Z). reflexivity.
  - exact H.
Defined.

(** A compacted partition without a record 6: the record 7 is processed and
    acknowledged, and never committed. *)
Example compacted_partition_stalls :
  let t := fetched (λ _, true) (polled orders 8 [5; 7]%Z (started_at {[orders := 5%Z]})) in
  committed (acks orders [5; 7]%Z t) !! orders = Some 6%Z.
Proof. vm_compute. reflexivity. Qed.

(** A retried record that is fetched again and then released unstarted (the
    task is paused) is not sought again, because it was started before. *)
Example released_retry_not_sought :
  let t := fetched (λ _, true) (polled orders 6 [5]%Z (started_at {[orders := 5%Z]})) in
  let t := with_tracker (mark_started orders 5 (_offset_tracker t)) t in
  let t := fetched (λ _, true) (polled orders 6 [5]%Z (seek orders 5 t)) in
  position (release_unstarted_record (orders, 5%Z) t) !! orders = Some 6%Z.
Proof. vm_compute. reflexivity. Qed.

(** One poll returns a record that cannot be decoded and the first record of
    another partition: [fetch] raises, the second record was never marked,
    and the next commit passes it. *)
Definition poisoned (r : partition_key * Z) : bool := negb (bool_decide (r = (orders, 5%Z))).

Definition poisoned_run : KafkaTopic :=
  acked CommitStored (refunds, 6%Z)
    (fetched poisoned (polled refunds 7 [6]%Z
       (fetched poisoned (polled refunds 6 [5]%Z (polled orders 6 [5]%Z
          (started_at {[orders := 5%Z; refunds := 5%Z]})))))).

Example poisoned_poll_loses_record :
  kreachable logged poisoned poisoned_run ∧
  committed poisoned_run !! refunds = Some 7%Z ∧
  logged refunds 5 = true ∧ (refunds, 5%Z) ∉ settled poisoned_run.
Proof.
  split; [|split_and!; [vm_compute; reflexivity | reflexivity |]].
  - unfold poisoned_run.
    eapply k_next; [|apply k_acked; vm_compute; repeat constructor].
    eapply k_next; [|apply k_fetched].
    eapply k_next; [|apply (k_polled _ _ _ refunds 6 7 [6]%Z); [done | done | apply (batch_logged _ 6 1); done]].
    eapply k_next; [|apply k_fetched].
    eapply k_next; [|apply (k_polled _ _ _ refunds 5 6 [5]%Z); [done | done | apply (batch_logged _ 5 1); done]].
    eapply k_next; [|apply (k_polled _ _ _ orders 5 6 [5]%Z); [done | done | apply (batch_logged _ 5 1); done]].
    apply started_reachable. intros key c [(<- & <-)|(_ & [<- <-]%lookup_singleton_Some)]%lookup_insert_Some; done.
  - apply (bool_decide_unpack _). vm_compute. exact I.
Qed.

(** [fetch] is cancelled between [getmany] and the lock: record 5 is never
    marked, and the commit for record 6 passes it. *)
Definition cancelled_run : KafkaTopic :=
  acked CommitStored (orders, 6%Z)
    (fetched (λ _, true) (polled orders 7 [6]%Z
       (fetch_cancelled (polled orders 6 [5]%Z (started_at {[orders := 5%Z]}))))).

Example cancelled_fetch_loses_record :
  kreachable logged (λ _, true) cancelled_run ∧
  committed cancelled_run !! orders = Some 7%Z ∧
  logged orders 5 = true ∧ (orders, 5%Z) ∉ settled cancelled_run.
Proof.
  split; [|split_and!; [vm_compute; reflexivity | reflexivity |]].
  - unfold cancelled_run.
    eapply k_next; [|apply k_acked; vm_compute; repeat constructor].
    eapply k_next; [|apply k_fetched].
    eapply k_next; [|apply (k_polled _ _ _ orders 6 7 [6]%Z); [done | done | apply (batch_logged _ 6 1); done]].
    eapply k_next; [|apply k_fetch_cancelled].
    eapply k_next; [|apply (k_polled _ _ _ orders 5 6 [5]%Z); [done | done | apply (batch_logged _ 5 1); done]].
    apply started_reachable. intros key c [<- <-]%lookup_singleton_Some. done.
  - apply (bool_decide_unpack _). vm_compute. exact I.
Qed.
