(* ===== verification/Incremental.v ===== *)
(** * The incremental table source ([onestep_sql/postgres/connector.py])

    [PostgresIncrementalSource] reads a table in the order of its cursor
    columns and saves the cursor behind the acknowledged prefix of what it
    has handed out.  [IncrementalTableSource] of the MySQL and SQLite
    connectors is the same code; only their deliveries can be released.

    Every section the source protects with its lock has no [await] inside, so
    each is one step; between the steps other tasks run.  The clock, the rows
    a query returns and the answers of the state store are inputs.  Counters
    that only feed log records are left out. *)

From stdpp Require Import base gmap sets list strings numbers sorting.
From Stdlib Require Import ZArith Lia.
From S2P Require Import Prelude PyFloat Value.

(** The order by which the database compares cursor tuples. *)
Class RowOrder (T : Type) := {
  row_lt : T → T → bool;
  row_lt_irrefl t : row_lt t t = false;
  row_lt_trans t u v : row_lt t u = true → row_lt u v = true → row_lt t v = true;
  row_lt_total t u : t = u ∨ row_lt t u = true ∨ row_lt u t = true;
}.

(** Which connector a source belongs to. *)
Inductive sql_connector := Postgres | MySQL | SQLite.

Section Source.
Context {T : Type} `{Countable T} `{!RowOrder T}.

(** [_IncrementalRetryRow]. *)
Record _IncrementalRetryRow := {
  rr_envelope : Envelope;
  ready_at : Z;
  in_flight : bool;
}.

(** The task of [_flush_commits]: created, or waiting for [state.save] of the
    end of a prefix. *)
Inductive commit_task := FlushCreated | FlushSaving (prefix : list T) (highest : T).

Record PostgresIncrementalSource := {
  _pending : list T;
  _acked : gset T;
  _commit_task : option commit_task;
  _commit_error : bool;
  _retry_rows : gmap T _IncrementalRetryRow;
  _terminal_error : bool;
  _loaded : bool;
  _committed_cursor : option T;
  _fetched_cursor : option T;
}.

Definition new_source : PostgresIncrementalSource :=
  {| _pending := []; _acked := ∅; _commit_task := None; _commit_error := false; _retry_rows := ∅;
     _terminal_error := false; _loaded := false; _committed_cursor := None; _fetched_cursor := None |}.

(** [open]: [loaded] is what the store has, when it is a tuple of the length
    of the cursor. *)
Definition open (loaded : option T) (s : PostgresIncrementalSource) : PostgresIncrementalSource :=
  if _loaded s then s
  else {| _pending := _pending s; _acked := _acked s; _commit_task := _commit_task s;
          _commit_error := _commit_error s; _retry_rows := _retry_rows s;
          _terminal_error := _terminal_error s; _loaded := true;
          _committed_cursor := match loaded with Some c => Some c | None => _committed_cursor s end;
          _fetched_cursor := match loaded with Some c => Some c | None => _fetched_cursor s end |}.

Definition set_retry (rows : gmap T _IncrementalRetryRow) (s : PostgresIncrementalSource)
    : PostgresIncrementalSource :=
  {| _pending := _pending s; _acked := _acked s; _commit_task := _commit_task s;
     _commit_error := _commit_error s; _retry_rows := rows; _terminal_error := _terminal_error s;
     _loaded := _loaded s; _committed_cursor := _committed_cursor s;
     _fetched_cursor := _fetched_cursor s |}.

Definition set_task (task : option commit_task) (s : PostgresIncrementalSource)
    : PostgresIncrementalSource :=
  {| _pending := _pending s; _acked := _acked s; _commit_task := task;
     _commit_error := _commit_error s; _retry_rows := _retry_rows s;
     _terminal_error := _terminal_error s; _loaded := _loaded s;
     _committed_cursor := _committed_cursor s; _fetched_cursor := _fetched_cursor s |}.

Definition set_error (e : bool) (s : PostgresIncrementalSource) : PostgresIncrementalSource :=
  {| _pending := _pending s; _acked := _acked s; _commit_task := _commit_task s;
     _commit_error := e; _retry_rows := _retry_rows s; _terminal_error := _terminal_error s;
     _loaded := _loaded s; _committed_cursor := _committed_cursor s;
     _fetched_cursor := _fetched_cursor s |}.

(** ** [fetch] *)

(** [_take_ready_retry_delivery]. *)
Definition is_ready (now : Z) (s : PostgresIncrementalSource) (t : T) : bool :=
  match _retry_rows s !! t with
  | None => false
  | Some r => negb (in_flight r) && (ready_at r <=? now)%Z
  end.

Definition _take_ready_retry_delivery (now : Z) (s : PostgresIncrementalSource)
    : option (T * Envelope) * PostgresIncrementalSource :=
  match List.find (is_ready now s) (_pending s) with
  | None => (None, s)
  | Some t =>
      match _retry_rows s !! t with
      | Some r => (Some (t, rr_envelope r),
                   set_retry (<[t := {| rr_envelope := rr_envelope r; ready_at := ready_at r;
                                        in_flight := true |}]> (_retry_rows s)) s)
      | None => (None, s)
      end
  end.

(** How [fetch] starts: it raises the terminal error, returns a retried row
    or nothing, or asks the database for rows beyond a cursor. *)
Inductive fetch_start :=
| FetchRaises
| FetchRetried (t : T) (e : Envelope)
| FetchNothing
| FetchQuery (read_cursor : option T).

Definition read_cursor (s : PostgresIncrementalSource) : option T :=
  match _fetched_cursor s with Some c => Some c | None => _committed_cursor s end.

Definition fetch_begins (now : Z) (s : PostgresIncrementalSource)
    : fetch_start * PostgresIncrementalSource :=
  if _terminal_error s then (FetchRaises, s)
  else
    match _take_ready_retry_delivery now s with
    | (Some (t, e), s) => (FetchRetried t e, s)
    | (None, s) => if decide (_retry_rows s = ∅) then (FetchQuery (read_cursor s), s)
                   else (FetchNothing, s)
    end.

Definition beyond (c : option T) (t : T) : bool :=
  match c with None => true | Some c => row_lt c t end.

(** The statement of [_fetch] on the rows of the table in the order of the
    cursor columns. *)
Definition _fetch (limit : nat) (c : option T) (table : list T) : list T :=
  take limit (List.filter (beyond c) table).

Definition requested_limit (limit batch_size : Z) : nat := Z.to_nat (Z.max 1 (Z.min limit batch_size)).

(** The rows of a query are handed out. *)
Definition hand_out (s : PostgresIncrementalSource) (t : T) : PostgresIncrementalSource :=
  {| _pending := _pending s ++ [t]; _acked := _acked s; _commit_task := _commit_task s;
     _commit_error := _commit_error s; _retry_rows := _retry_rows s;
     _terminal_error := _terminal_error s; _loaded := _loaded s;
     _committed_cursor := _committed_cursor s; _fetched_cursor := Some t |}.

Definition fetch_ends (rows : list T) (s : PostgresIncrementalSource) : PostgresIncrementalSource :=
  foldl hand_out s rows.

(** ** Settling *)

Definition set_acked (a : gset T) (s : PostgresIncrementalSource) : PostgresIncrementalSource :=
  {| _pending := _pending s; _acked := a; _commit_task := _commit_task s;
     _commit_error := _commit_error s; _retry_rows := _retry_rows s;
     _terminal_error := _terminal_error s; _loaded := _loaded s;
     _committed_cursor := _committed_cursor s; _fetched_cursor := _fetched_cursor s |}.

Definition head_acked (s : PostgresIncrementalSource) : bool :=
  match _pending s with [] => false | t :: _ => bool_decide (t ∈ _acked s) end.

Definition ack_token (t : T) (s : PostgresIncrementalSource) : PostgresIncrementalSource :=
  let s := set_acked ({[t]} ∪ _acked s) s in
  if head_acked s then
    match _commit_task s with
    | None => set_task (Some FlushCreated) (set_error false s)
    | Some _ => s
    end
  else s.

(** [max(0.0, delay_s or 0.0)]. *)
Definition delay_of (delay_s : option Z) : Z := Z.max 0 (default 0%Z delay_s).

Definition retry_token (now : Z) (delay_s : option Z) (t : T) (e : Envelope)
    (s : PostgresIncrementalSource) : PostgresIncrementalSource :=
  set_retry
    (<[t := {| rr_envelope := {| body := body e; meta := meta e; attempts := (attempts e + 1)%Z |};
               ready_at := (now + delay_of delay_s)%Z; in_flight := false |}]> (_retry_rows s)) s.

Definition release_token (now : Z) (t : T) (e : Envelope) (s : PostgresIncrementalSource)
    : PostgresIncrementalSource :=
  let envelope := match _retry_rows s !! t with Some r => rr_envelope r | None => e end in
  set_retry (<[t := {| rr_envelope := envelope; ready_at := now; in_flight := false |}]> (_retry_rows s)) s.

Definition fail_token (t : T) (s : PostgresIncrementalSource) : PostgresIncrementalSource :=
  let s' := {| _pending := _pending s; _acked := _acked s; _commit_task := _commit_task s;
               _commit_error := _commit_error s; _retry_rows := _retry_rows s;
               _terminal_error := true; _loaded := _loaded s;
               _committed_cursor := _committed_cursor s; _fetched_cursor := _fetched_cursor s |} in
  match _retry_rows s' !! t with
  | Some r => set_retry (<[t := {| rr_envelope := rr_envelope r; ready_at := ready_at r;
                                   in_flight := false |}]> (_retry_rows s')) s'
  | None => s'
  end.

(** [delivery.release_unstarted]: the one of PostgreSQL inherits the empty
    method of [Delivery]. *)
Definition release_unstarted (c : sql_connector) (now : Z) (t : T) (e : Envelope)
    (s : PostgresIncrementalSource) : PostgresIncrementalSource :=
  match c with
  | Postgres => s
  | MySQL | SQLite => release_token now t e s
  end.

(** ** [_flush_commits] *)

Fixpoint acked_prefix (acked : gset T) (pending : list T) : list T :=
  match pending with
  | [] => []
  | t :: pending => if decide (t ∈ acked) then t :: acked_prefix acked pending else []
  end.

(** The top of the loop: the task returns or saves the end of the acked
    prefix. *)
Definition flush_loop_top (s : PostgresIncrementalSource) : PostgresIncrementalSource :=
  match list.last (acked_prefix (_acked s) (_pending s)) with
  | None => set_task None s
  | Some highest => set_task (Some (FlushSaving (acked_prefix (_acked s) (_pending s)) highest)) s
  end.

(** The loop that pops the saved prefix. [None]: the order has changed, or
    [popleft] or [remove] raises. *)
Fixpoint pop_prefix (prefix : list T) (s : PostgresIncrementalSource) : option PostgresIncrementalSource :=
  match prefix with
  | [] => Some s
  | t :: prefix =>
      match _pending s with
      | current :: pending =>
          if decide (current = t) then
            if decide (t ∈ _acked s) then
              pop_prefix prefix
                {| _pending := pending; _acked := _acked s ∖ {[t]}; _commit_task := _commit_task s;
                   _commit_error := _commit_error s; _retry_rows := delete t (_retry_rows s);
                   _terminal_error := _terminal_error s; _loaded := _loaded s;
                   _committed_cursor := _committed_cursor s; _fetched_cursor := _fetched_cursor s |}
            else None
          else None
      | [] => None
      end
  end.

Definition cursor_saved (highest : T) (s : PostgresIncrementalSource) : PostgresIncrementalSource :=
  {| _pending := _pending s; _acked := _acked s; _commit_task := _commit_task s;
     _commit_error := _commit_error s; _retry_rows := _retry_rows s;
     _terminal_error := _terminal_error s; _loaded := _loaded s;
     _committed_cursor := Some highest;
     _fetched_cursor := match _pending s with [] => Some highest | _ => _fetched_cursor s end |}.

(** The task ends with an error. *)
Definition flush_fails (s : PostgresIncrementalSource) : PostgresIncrementalSource :=
  set_task None (set_error true s).

(** [state.save] answered. *)
Definition flush_resumes (saved : bool) (s : PostgresIncrementalSource) : PostgresIncrementalSource :=
  match _commit_task s with
  | Some FlushCreated => flush_loop_top s
  | Some (FlushSaving prefix highest) =>
      if saved then
        match pop_prefix prefix s with
        | None => flush_fails s
        | Some s =>
            let s := cursor_saved highest s in
            if head_acked s then flush_loop_top s else set_task None s
        end
      else flush_fails s
  | None => s
  end.
End Source.

Arguments PostgresIncrementalSource T {_ _}.
Arguments commit_task T : clear implicits.
Arguments fetch_start T : clear implicits.

(** ** The source, its table and its cursor store *)

Section System.
Context {T : Type} `{Countable T} `{!RowOrder T} (connector : sql_connector).

Record incremental_system := {
  source : PostgresIncrementalSource T;
  (** the rows of the table, in the order of the cursor columns *)
  table : list T;
  (** what the state store has under the key of the source *)
  store : option T;
  (** the query of a [fetch] that waits for the database *)
  querying : option (option T * nat);
  (** the deliveries the runtime holds *)
  live : list T;
  (** every row that was handed out, and every row that was acknowledged *)
  handed : gset T;
  done : gset T;
}.

Definition with_source (s : PostgresIncrementalSource T) (x : incremental_system) : incremental_system :=
  {| source := s; table := table x; store := store x; querying := querying x; live := live x;
     handed := handed x; done := done x |}.

Definition with_live (l : list T) (x : incremental_system) : incremental_system :=
  {| source := source x; table := table x; store := store x; querying := querying x; live := l;
     handed := handed x; done := done x |}.

Definition with_querying (q : option (option T * nat)) (x : incremental_system) : incremental_system :=
  {| source := source x; table := table x; store := store x; querying := q; live := live x;
     handed := handed x; done := done x |}.

Definition with_store (c : option T) (x : incremental_system) : incremental_system :=
  {| source := source x; table := table x; store := c; querying := querying x; live := live x;
     handed := handed x; done := done x |}.

Definition with_table (l : list T) (x : incremental_system) : incremental_system :=
  {| source := source x; table := l; store := store x; querying := querying x; live := live x;
     handed := handed x; done := done x |}.

Definition fetch_started (now limit batch_size : Z) (x : incremental_system) : incremental_system :=
  let '(r, s) := fetch_begins now (source x) in
  let x := with_source s x in
  match r with
  | FetchRaises | FetchNothing => x
  | FetchRetried t _ => with_live (live x ++ [t]) x
  | FetchQuery c => with_querying (Some (c, requested_limit limit batch_size)) x
  end.

Definition fetch_answered (x : incremental_system) : incremental_system :=
  match querying x with
  | None => x
  | Some (c, n) =>
      let rows := _fetch n c (table x) in
      {| source := fetch_ends rows (source x); table := table x; store := store x; querying := None;
         live := live x ++ rows; handed := handed x ∪ list_to_set rows; done := done x |}
  end.

Definition acknowledged (t : T) (x : incremental_system) : incremental_system :=
  {| source := ack_token t (source x); table := table x; store := store x; querying := querying x;
     live := live x; handed := handed x; done := {[t]} ∪ done x |}.

(** The end of [state.save]: stored, refused, or stored while the task saw an
    error. *)
Inductive save_answer := SaveStored | SaveRefused | SaveUnanswered.

Definition save_answered (a : save_answer) (x : incremental_system) : incremental_system :=
  match _commit_task (source x) with
  | Some (FlushSaving _ highest) =>
      match a with
      | SaveStored => with_source (flush_resumes true (source x)) (with_store (Some highest) x)
      | SaveRefused => with_source (flush_resumes false (source x)) x
      | SaveUnanswered => with_source (flush_resumes false (source x)) (with_store (Some highest) x)
      end
  | _ => x
  end.

Abbreviation in_order := (StronglySorted (λ t u : T, row_lt t u = true)).

(** One step of the event loop, of the database or of another writer. *)
Inductive istep (x : incremental_system) : incremental_system → Prop :=
| i_inserted l : in_order l → table x ⊆ l → istep x (with_table l x)
| i_opened : istep x (with_source (open (store x) (source x)) x)
| i_fetch now limit batch_size :
    _loaded (source x) = true → querying x = None → istep x (fetch_started now limit batch_size x)
| i_answered : istep x (fetch_answered x)
| i_query_failed : istep x (with_querying None x)
| i_acked t : t ∈ live x → istep x (acknowledged t x)
| i_retried now delay t e : t ∈ live x → istep x (with_source (retry_token now delay t e (source x)) x)
| i_released now t e :
    t ∈ live x → istep x (with_source (release_unstarted connector now t e (source x)) x)
| i_failed t : t ∈ live x → istep x (with_source (fail_token t (source x)) x)
| i_left l l' t : live x = l ++ t :: l' → istep x (with_live (l ++ l') x)
| i_flush : _commit_task (source x) = Some FlushCreated → istep x (with_source (flush_resumes true (source x)) x)
| i_saved a : istep x (save_answered a x)
| i_restarted : istep x (with_live [] (with_querying None (with_source new_source x))).

Inductive ireachable : incremental_system → Prop :=
| i_start l c :
    in_order l →
    ireachable {| source := new_source; table := l; store := c; querying := None; live := [];
                  handed := ∅; done := ∅ |}
| i_next x x' : ireachable x → istep x x' → ireachable x'.
End System.

Arguments incremental_system T {_ _}.
