(* ===== verification/IncrementalTheorems.v ===== *)
(** * The cursor of an incremental source *)

From stdpp Require Import base gmap sets list strings numbers sorting fin_sets.
From Stdlib Require Import ZArith Lia.
From S2P Require Import Prelude PyFloat Value Incremental.

Section Theorems.
Context {T : Type} `{Countable T} `{!RowOrder T} (connector : sql_connector).
Implicit Types (t u : T) (c : option T) (s : PostgresIncrementalSource T) (x : incremental_system T).

(** ** The order of rows *)

Lemma row_lt_not t u : row_lt t u = false ↔ t = u ∨ row_lt u t = true.
Proof.
  split.
  - intros Htu. destruct (row_lt_total t u) as [?|[?|?]]; [by left | congruence | by right].
  - intros [->|Hut]; [apply row_lt_irrefl|]. destruct (row_lt t u) eqn:E; [|done].
    pose proof (row_lt_trans _ _ _ Hut E) as Hu. by rewrite row_lt_irrefl in Hu.
Qed.

Lemma beyond_le c t u : beyond c t = true → row_lt u t = false → beyond c u = true.
Proof.
  destruct c as [c|]; [|done]. cbn. intros Hct [->|Htu]%row_lt_not; [done|]. by eapply row_lt_trans.
Qed.

Abbreviation in_order := (StronglySorted (λ t u : T, row_lt t u = true)).

Lemma in_order_NoDup l : in_order l → NoDup l.
Proof.
  induction 1 as [|t l _ IH Ht]; constructor; [|done]. intros Hin. rewrite Forall_forall in Ht.
  specialize (Ht t Hin). by rewrite row_lt_irrefl in Ht.
Qed.

Lemma in_order_app l1 l2 t u : in_order (l1 ++ l2) → t ∈ l1 → u ∈ l2 → row_lt t u = true.
Proof. apply (StronglySorted_app_1_elem_of (λ t u, row_lt t u = true)). Qed.

Lemma in_order_filter f l : in_order l → in_order (List.filter f l).
Proof.
  induction 1 as [|t l _ IH Ht]; cbn; [constructor|]. destruct (f t); [|done].
  constructor; [done|]. rewrite Forall_forall in Ht |- *. intros u [Hu _]%list_elem_of_In%filter_In.
  by apply Ht, list_elem_of_In.
Qed.

Lemma in_order_take n l : in_order l → in_order (take n l).
Proof. rewrite <- (take_drop n l) at 1. apply StronglySorted_app_1_l. Qed.

(** The last row of an ordered list is the greatest. *)
Lemma in_order_last l t u : in_order l → list.last l = Some t → u ∈ l → row_lt t u = false.
Proof.
  intros Hl (l' & ->)%last_Some [Hu|Hu]%elem_of_app; apply row_lt_not.
  - right. by apply (in_order_app l' [t]); [| |left].
  - left. by apply list_elem_of_singleton in Hu.
Qed.

Lemma elem_of_filter_list f l t : t ∈ List.filter f l ↔ t ∈ l ∧ f t = true.
Proof. by rewrite !list_elem_of_In, filter_In. Qed.

(** What a query returns. *)
Lemma fetch_spec n c l :
  in_order l →
  in_order (_fetch n c l) ∧ (∀ t, t ∈ _fetch n c l → t ∈ l ∧ beyond c t = true) ∧
  ∀ t u, t ∈ l → beyond c t = true → u ∈ _fetch n c l → row_lt u t = false → t ∈ _fetch n c l.
Proof.
  intros Hl. unfold _fetch. pose proof (in_order_filter (beyond c) l Hl) as Hf.
  split_and!; [by apply in_order_take | |].
  - intros t Ht. apply elem_of_filter_list. rewrite <- (take_drop n (List.filter _ l)).
    apply elem_of_app. by left.
  - intros t u Ht Hc Hu Hle.
    assert (t ∈ List.filter (beyond c) l) as Hin by by apply elem_of_filter_list.
    rewrite <- (take_drop n (List.filter (beyond c) l)) in Hin, Hf.
    apply elem_of_app in Hin as [|Hd]; [done|]. exfalso.
    pose proof (in_order_app _ _ u t Hf Hu Hd) as Hlt. congruence.
Qed.

(** ** The operations *)

Lemma fetch_ends_eq rows s :
  fetch_ends rows s
  = {| _pending := _pending s ++ rows; _acked := _acked s; _commit_task := _commit_task s;
       _commit_error := _commit_error s; _retry_rows := _retry_rows s;
       _terminal_error := _terminal_error s; _loaded := _loaded s;
       _committed_cursor := _committed_cursor s;
       _fetched_cursor := match list.last rows with Some t => Some t | None => _fetched_cursor s end |}.
Proof.
  revert s. induction rows as [|t rows IH]; intros s.
  - cbn. rewrite app_nil_r. by destruct s.
  - change (fetch_ends (t :: rows) s) with (fetch_ends rows (hand_out s t)). rewrite IH, last_cons. unfold hand_out.
    cbn -[list.last]. rewrite <- (assoc_L app). by destruct (list.last rows).
Qed.

Lemma acked_prefix_spec acked l :
  ∃ rest, l = acked_prefix acked l ++ rest ∧ (∀ t, t ∈ acked_prefix acked l → t ∈ acked) ∧
    match rest with t :: _ => t ∉ acked | [] => True end.
Proof.
  induction l as [|t l IH]; [by exists []; split_and!; [|intros u Hu; by apply elem_of_nil in Hu|]|].
  cbn. destruct (decide (t ∈ acked)) as [Ht|Ht].
  - destruct IH as (rest & E & Hp & Hr). exists rest. split_and!; [cbn; by f_equal | | done].
    intros u [->|Hu]%elem_of_cons; [done | by apply Hp].
  - exists (t :: l). split_and!; [done | | done]. intros u Hu. by apply elem_of_nil in Hu.
Qed.

Lemma pop_prefix_ok prefix rest s :
  _pending s = prefix ++ rest → NoDup prefix → (∀ t, t ∈ prefix → t ∈ _acked s) →
  ∃ rows, pop_prefix prefix s = Some
    {| _pending := rest; _acked := _acked s ∖ list_to_set prefix; _commit_task := _commit_task s;
       _commit_error := _commit_error s; _retry_rows := rows; _terminal_error := _terminal_error s;
       _loaded := _loaded s; _committed_cursor := _committed_cursor s;
       _fetched_cursor := _fetched_cursor s |}.
Proof.
  revert s. induction prefix as [|t prefix IH]; intros s Hp Hn Ha.
  - exists (_retry_rows s). cbn in *. subst rest. rewrite difference_empty_L. by destruct s.
  - apply NoDup_cons in Hn as [Ht Hn]. cbn [pop_prefix]. rewrite Hp. cbn [app].
    rewrite decide_True by done. rewrite decide_True by (apply Ha; left).
    edestruct IH as [rows ->]; [| exact Hn | |].
    + cbn. reflexivity.
    + cbn. intros u Hu. apply elem_of_difference. split; [apply Ha; by right|].
      intros ->%elem_of_singleton. done.
    + cbn. exists rows. do 2 f_equal. by rewrite difference_difference_l_L.
Qed.

(** ** The invariant *)

Abbreviation fetched_at x := (_fetched_cursor (source x)).
Abbreviation saved_at x := (_committed_cursor (source x)).

(** Everything but the state of the commit task. *)
Record cursor_ok x : Prop := {
  v_table : in_order (table x);
  v_handed t : t ∈ handed x → t ∈ table x;
  v_acked t : t ∈ _acked (source x) → t ∈ done x ∧ beyond (fetched_at x) t = false;
  v_order : in_order (_pending (source x));
  v_pending t : t ∈ _pending (source x) → t ∈ handed x ∧ beyond (saved_at x) t = true;
  v_cover t :
    t ∈ handed x → beyond (saved_at x) t = true → beyond (fetched_at x) t = false →
    t ∈ _pending (source x);
  v_saved t : t ∈ handed x → beyond (saved_at x) t = false → t ∈ done x;
  v_store t : t ∈ handed x → beyond (store x) t = false → t ∈ done x;
  v_store_le t : _loaded (source x) = true → beyond (fetched_at x) t = true → beyond (store x) t = true;
  v_query c n : querying x = Some (c, n) → c = fetched_at x;
  v_fetched :
    fetched_at x = match list.last (_pending (source x)) with Some t => Some t | None => saved_at x end;
  v_live t : t ∈ live x → t ∈ handed x ∧ beyond (fetched_at x) t = false;
  v_new : _loaded (source x) = false → source x = new_source ∧ live x = [] ∧ querying x = None;
}.

(** The commit task saves the end of an acknowledged prefix. *)
Definition saving_ok s : Prop :=
  ∀ p h, _commit_task s = Some (FlushSaving p h) →
    list.last p = Some h ∧ (∃ rest, _pending s = p ++ rest) ∧ ∀ t, t ∈ p → t ∈ _acked s.

(** A task runs when the first row is acknowledged, unless a save failed. *)
Definition wake_ok s : Prop :=
  head_acked s = true → _commit_task s = None → _commit_error s = true.

Definition iinv x : Prop := cursor_ok x ∧ saving_ok (source x) ∧ wake_ok (source x).

Lemma pending_le x t : cursor_ok x → t ∈ _pending (source x) → beyond (fetched_at x) t = false.
Proof.
  intros Hx Ht. rewrite (v_fetched _ Hx).
  destruct (list.last (_pending (source x))) as [u|] eqn:E.
  - exact (in_order_last _ _ _ (v_order _ Hx) E Ht).
  - apply last_None in E. rewrite E in Ht. by apply elem_of_nil in Ht.
Qed.

Lemma saved_le_fetched x t :
  cursor_ok x → beyond (fetched_at x) t = true → beyond (saved_at x) t = true.
Proof.
  intros Hx. rewrite (v_fetched _ Hx). destruct (list.last (_pending (source x))) as [u|] eqn:E; [|done].
  intros Hut. apply last_Some_elem_of in E. apply (v_pending _ Hx) in E as [_ Hu].
  apply (beyond_le _ u); [done|]. apply row_lt_not. by right.
Qed.

Lemma read_cursor_fetched x : cursor_ok x → read_cursor (source x) = fetched_at x.
Proof.
  intros Hx. unfold read_cursor. pose proof (v_fetched _ Hx) as E.
  destruct (fetched_at x) as [c|]; [done|]. by destruct (list.last (_pending (source x))).
Qed.

Lemma beyond_later c t u : beyond c t = false → beyond c u = true → row_lt u t = false.
Proof.
  intros Ht Hu. destruct (row_lt u t) eqn:E; [|done].
  pose proof (beyond_le c u t Hu) as Hb. rewrite Ht in Hb. symmetry. apply Hb. apply row_lt_not. by right.
Qed.

(** ** Settling *)

(** Updates that keep the rows and the cursors. *)
Lemma same_cursors x s :
  cursor_ok x → _loaded (source x) = true → _loaded s = true →
  _pending s = _pending (source x) → _committed_cursor s = saved_at x → _fetched_cursor s = fetched_at x →
  (∀ t, t ∈ _acked s → t ∈ done x ∧ beyond (fetched_at x) t = false) →
  cursor_ok (with_source s x).
Proof.
  intros [] Hl Hl' Hp Hc Hf Ha. split; cbn; rewrite ?Hp, ?Hc, ?Hf; try done;
    [intros t _; by apply v_store_le0 | congruence].
Qed.

Lemma live_loaded x t : cursor_ok x → t ∈ live x → _loaded (source x) = true.
Proof.
  intros Hx Ht. destruct (_loaded (source x)) eqn:E; [done|].
  apply (v_new _ Hx) in E as (_ & E & _). rewrite E in Ht. by apply elem_of_nil in Ht.
Qed.

Lemma same_iinv x s t :
  iinv x → t ∈ live x → _loaded s = _loaded (source x) →
  _pending s = _pending (source x) → _committed_cursor s = saved_at x → _fetched_cursor s = fetched_at x →
  _acked s = _acked (source x) → _commit_task s = _commit_task (source x) →
  _commit_error s = _commit_error (source x) → iinv (with_source s x).
Proof.
  intros (Hx & Hs & Hw) Ht Hl Hp Hc Hf Ha Htask He. pose proof (live_loaded _ _ Hx Ht) as Hl'. split_and!.
  - apply same_cursors; [done | done | congruence | done..|]. rewrite Ha. apply (v_acked _ Hx).
  - unfold saving_ok. cbn. by rewrite Htask, Hp, Ha.
  - unfold wake_ok, head_acked in *. cbn. by rewrite Htask, Hp, Ha, He.
Qed.

Lemma acknowledged_iinv x t : iinv x → t ∈ live x → iinv (acknowledged t x).
Proof.
  intros (Hx & Hs & Hw) Ht. pose proof (live_loaded _ _ Hx Ht) as Hl.
  assert (cursor_ok {| source := source x; table := table x; store := store x; querying := querying x;
    live := live x; handed := handed x; done := {[t]} ∪ done x |}) as Hx'.
  { destruct Hx. split; cbn; try done; intros; try (apply elem_of_union_r; eauto).
    split; [apply elem_of_union_r|]; by apply v_acked0. }
  unfold acknowledged. set (s := set_acked ({[t]} ∪ _acked (source x)) (source x)).
  assert (∀ s', _loaded s' = true → _pending s' = _pending s → _committed_cursor s' = _committed_cursor s →
    _fetched_cursor s' = _fetched_cursor s → _acked s' = _acked s →
    cursor_ok (with_source s' {| source := source x; table := table x; store := store x;
      querying := querying x; live := live x; handed := handed x; done := {[t]} ∪ done x |})) as Hsame.
  { intros s' H1 H2 H3 H4 H5. apply same_cursors; [done..|]. intros u. rewrite H5. cbn.
    intros [->%elem_of_singleton|Hu]%elem_of_union.
    - split; [by apply elem_of_union_l, elem_of_singleton | by apply (v_live _ Hx)].
    - split; [apply elem_of_union_r|]; by apply (v_acked _ Hx). }
  assert (saving_ok s) as Hs'.
  { intros p h Hp. destruct (Hs p h Hp) as (H1 & H2 & H3). split_and!; [done | done |].
    intros u Hu. cbn. apply elem_of_union. right. by apply H3. }
  unfold ack_token. fold s. destruct (head_acked s) eqn:Eh.
  - destruct (_commit_task s) as [task|] eqn:Et.
    + split_and!; [by apply Hsame | done | intros _ E; cbn in E, Et; congruence].
    + split_and!; [by apply Hsame | by intros p h [=] | by intros _ [=]].
  - split_and!; [by apply Hsame | done | intros E; cbn in E, Eh; congruence].
Qed.

(** ** Fetching *)

Lemma take_ready_source now s :
  ∃ rows, (_take_ready_retry_delivery now s).2 = set_retry rows s ∧
    match (_take_ready_retry_delivery now s).1 with Some (t, _) => t ∈ _pending s | None => True end.
Proof.
  unfold _take_ready_retry_delivery. destruct (List.find (is_ready now s) (_pending s)) as [t|] eqn:E.
  - apply find_some in E as [Ht%list_elem_of_In _].
    destruct (_retry_rows s !! t) as [r|]; [by eexists | exists (_retry_rows s)]. by destruct s.
  - exists (_retry_rows s). by destruct s.
Qed.

(** A change of the retry rows does not touch the invariant. *)
Lemma set_retry_iinv x rows :
  iinv x → _loaded (source x) = true → iinv (with_source (set_retry rows (source x)) x).
Proof.
  intros (Hx & Hs & Hw) Hl. split_and!; [|done|done]. by apply same_cursors; [..|apply (v_acked _ Hx)].
Qed.

Lemma with_live_iinv x l :
  iinv x → _loaded (source x) = true →
  (∀ t, t ∈ l → t ∈ handed x ∧ beyond (fetched_at x) t = false) → iinv (with_live l x).
Proof.
  intros ([] & Hs & Hw) Hl Hlive. split_and!; [|done|done]. split; cbn; try done. congruence.
Qed.

Lemma fetch_started_iinv now limit batch x :
  iinv x → _loaded (source x) = true → iinv (fetch_started now limit batch x).
Proof.
  intros Hi Hl. pose proof Hi as (Hx & _ & _). unfold fetch_started, fetch_begins.
  destruct (_terminal_error (source x)) eqn:Et; [by destruct x|].
  destruct (take_ready_source now (source x)) as (rows & Hs & Ht).
  destruct (_take_ready_retry_delivery now (source x)) as [[[t e]|] s]; cbn in Hs, Ht; subst s.
  - apply with_live_iinv; [by apply set_retry_iinv | done |]. intros u [Hu|Hu]%elem_of_app.
    + by apply (v_live _ Hx).
    + apply list_elem_of_singleton in Hu as ->. split; [by apply (v_pending _ Hx) | exact (pending_le x t Hx Ht)].
  - pose proof (set_retry_iinv _ rows Hi Hl) as Hi'. case_decide; [|done].
    destruct Hi' as ([] & Hs & Hw). split_and!; [|done|done]. split; cbn in *; try done.
    + intros c n [= <- _]. exact (read_cursor_fetched _ Hx).
    + congruence.
Qed.

Lemma fetch_answered_iinv x : iinv x → iinv (fetch_answered x).
Proof.
  intros (Hx & Hs & Hw). unfold fetch_answered. destruct (querying x) as [[c n]|] eqn:Eq; [|done].
  pose proof (v_query _ Hx _ _ Eq) as ->.
  assert (_loaded (source x) = true) as Hl.
  { destruct (_loaded (source x)) eqn:E; [done|]. apply (v_new _ Hx) in E as (_ & _ & E). congruence. }
  destruct (fetch_spec n (fetched_at x) (table x) (v_table _ Hx)) as (Hord & Hin & Hall).
  set (rows := _fetch n (fetched_at x) (table x)) in *. rewrite fetch_ends_eq.
  (* the new cursor is not before the old one *)
  assert (∀ t, beyond (fetched_at x) t = false →
    beyond match list.last rows with Some u => Some u | None => fetched_at x end t = false) as Hmono.
  { intros t Ht. destruct (list.last rows) as [u|] eqn:E; [|done].
    apply last_Some_elem_of, Hin in E as [_ Hu]. exact (beyond_later _ t u Ht Hu). }
  assert (∀ t, t ∈ rows → beyond match list.last rows with Some u => Some u | None => fetched_at x end t
    = false) as Hrows.
  { intros t Ht. destruct (list.last rows) as [u|] eqn:E; [by apply (in_order_last rows)|].
    apply last_None in E. rewrite E in Ht. by apply elem_of_nil in Ht. }
  assert (∀ t, beyond match list.last rows with Some u => Some u | None => fetched_at x end t = true →
    beyond (fetched_at x) t = true) as Hback.
  { intros t Ht. destruct (beyond (fetched_at x) t) eqn:E; [done|]. apply Hmono in E. congruence. }
  split_and!.
  - pose proof Hx as []. split; cbn; try done.
    + intros t [Ht|Ht%elem_of_list_to_set]%elem_of_union; [by apply v_handed0 | by apply Hin].
    + intros t Ht. split; [|apply Hmono]; by apply v_acked0.
    + apply StronglySorted_app. split_and!; [|done..]. intros t u Ht Hu.
      apply Hin in Hu as [_ Hu]. pose proof (pending_le x t Hx Ht) as Hle.
      pose proof (beyond_later _ _ _ Hle Hu) as [->|?]%row_lt_not; congruence.
    + intros t [Ht|Ht]%elem_of_app; [split; [apply elem_of_union_l|]; by apply v_pending0|].
      split; [by apply elem_of_union_r, elem_of_list_to_set|].
      apply saved_le_fetched; [done | by apply Hin].
    + intros t Ht Hsv Hft. apply elem_of_app.
      destruct (decide (t ∈ rows)) as [|Hnr]; [by right|]. left.
      apply elem_of_union in Ht as [Ht|Ht%elem_of_list_to_set]; [|done].
      apply v_cover0; [done..|]. destruct (beyond (fetched_at x) t) eqn:E; [|done]. exfalso.
      destruct (list.last rows) as [u|] eqn:El; [|congruence]. apply Hnr.
      apply (Hall t u); [by apply v_handed0 | done | by apply last_Some_elem_of | done].
    + intros t [Ht|Ht%elem_of_list_to_set]%elem_of_union Hsv; [by apply v_saved0|].
      apply Hin in Ht as [_ Ht]. apply (saved_le_fetched x t Hx) in Ht. congruence.
    + intros t [Ht|Ht%elem_of_list_to_set]%elem_of_union Hst; [by apply v_store0|].
      apply Hin in Ht as [_ Ht]. apply v_store_le0 in Ht; [congruence | done].
    + intros t _ Ht. apply v_store_le0; [done | by apply Hback].
    + rewrite last_app. destruct (list.last rows); [done | apply v_fetched0].
    + intros t [Ht|Ht]%elem_of_app; [split; [apply elem_of_union_l|apply Hmono]; by apply v_live0|].
      split; [by apply elem_of_union_r, elem_of_list_to_set | by apply Hrows].
    + congruence.
  - intros p h Hp. destruct (Hs p h Hp) as (H1 & [rest H2] & H3). split_and!; [done | | done].
    exists (rest ++ rows). cbn. by rewrite H2, (assoc_L app).
  - intros Hhead. cbn in *. apply Hw. unfold head_acked in *. cbn in Hhead.
    destruct (_pending (source x)) as [|t l]; [|done]. exfalso. cbn in Hhead.
    destruct rows as [|t l] eqn:Er; [done|]. apply bool_decide_eq_true in Hhead.
    apply (v_acked _ Hx) in Hhead as [_ Hb]. destruct (Hin t ltac:(left)) as [_ Ht]. congruence.
Qed.

(** ** The commit task *)

Lemma set_task_cursor task x :
  cursor_ok x → _loaded (source x) = true → cursor_ok (with_source (set_task task (source x)) x).
Proof. intros Hx Hl. by apply same_cursors; [..|apply (v_acked _ Hx)]. Qed.

Lemma flush_loop_top_iinv x :
  cursor_ok x → _loaded (source x) = true → iinv (with_source (flush_loop_top (source x)) x).
Proof.
  intros Hx Hl. unfold flush_loop_top.
  destruct (acked_prefix_spec (_acked (source x)) (_pending (source x))) as (rest & E & Hp & Hr).
  destruct (list.last (acked_prefix (_acked (source x)) (_pending (source x)))) as [h|] eqn:El.
  - split_and!; [by apply set_task_cursor | | by intros _ [=]].
    intros p h' [= <- <-]. split_and!; [done | by exists rest | done].
  - split_and!; [by apply set_task_cursor | by intros p h [=] |]. intros Hhead. exfalso.
    apply last_None in El. rewrite El in E. cbn in E. unfold head_acked in Hhead. cbn in Hhead.
    rewrite E in Hhead. destruct rest as [|t rest]; [done|]. by apply bool_decide_eq_true in Hhead.
Qed.

Lemma flush_fails_iinv x :
  cursor_ok x → _loaded (source x) = true → iinv (with_source (flush_fails (source x)) x).
Proof.
  intros Hx Hl. split_and!; [by apply same_cursors; [..|apply (v_acked _ Hx)] | by intros p h [=] | done].
Qed.

(** What is saved is covered. *)
Lemma highest_done x p h t :
  cursor_ok x → saving_ok (source x) → _commit_task (source x) = Some (FlushSaving p h) →
  t ∈ handed x → beyond (Some h) t = false → t ∈ done x.
Proof.
  intros Hx Hs Htask Ht Hle. destruct (Hs _ _ Htask) as (Hlast & [rest E] & Hp).
  destruct (beyond (saved_at x) t) eqn:Esv; [|by apply (v_saved _ Hx)].
  assert (h ∈ _pending (source x)) as Hh by (rewrite E; apply elem_of_app; left; by apply last_Some_elem_of).
  assert (t ∈ _pending (source x)) as Hpend.
  { apply (v_cover _ Hx); [done..|]. destruct (beyond (fetched_at x) t) eqn:Ef; [|done]. exfalso.
    pose proof (beyond_later _ _ _ (pending_le _ _ Hx Hh) Ef) as [->|Hht]%row_lt_not.
    - rewrite (pending_le _ _ Hx Hh) in Ef. done.
    - cbn in Hle. congruence. }
  rewrite E in Hpend. apply elem_of_app in Hpend as [Htp|Htr]; [by apply (v_acked _ Hx), Hp|].
  exfalso. pose proof (v_order _ Hx) as Ho. rewrite E in Ho.
  pose proof (in_order_app _ _ h t Ho (last_Some_elem_of _ _ Hlast) Htr) as Hht. cbn in Hle. congruence.
Qed.

Lemma store_highest x p h :
  cursor_ok x → saving_ok (source x) → _commit_task (source x) = Some (FlushSaving p h) →
  cursor_ok (with_store (Some h) x).
Proof.
  intros Hx Hs Htask. pose proof Hx as []. split; cbn; try done.
  - intros t. by apply (highest_done x p).
  - intros t _ Ht. destruct (Hs _ _ Htask) as (Hlast & [rest E] & _).
    assert (h ∈ _pending (source x)) as Hh
      by (rewrite E; apply elem_of_app; left; by apply last_Some_elem_of).
    pose proof (beyond_later _ _ _ (pending_le _ _ Hx Hh) Ht) as [->|?]%row_lt_not; [|done].
    by rewrite (pending_le _ _ Hx Hh) in Ht.
Qed.

(** The saved prefix is popped: the order has not changed, and nothing
    raises. *)
Lemma saved_prefix_popped x p h :
  cursor_ok x → saving_ok (source x) → _commit_task (source x) = Some (FlushSaving p h) →
  ∃ s, pop_prefix p (source x) = Some s ∧ cursor_ok (with_source (cursor_saved h s) x) ∧
    _loaded s = _loaded (source x).
Proof.
  intros Hx Hs Htask. destruct (Hs _ _ Htask) as (Hlast & [rest E] & Hp).
  pose proof (v_order _ Hx) as Ho. rewrite E in Ho.
  destruct (pop_prefix_ok p rest (source x) E) as [rows Hpop];
    [by apply in_order_NoDup; apply StronglySorted_app_1_l in Ho | done |].
  eexists. split; [exact Hpop|]. split; [|done]. unfold cursor_saved. cbn.
  assert (h ∈ _pending (source x)) as Hh by (rewrite E; apply elem_of_app; left; by apply last_Some_elem_of).
  assert (match rest with [] => Some h | _ :: _ => fetched_at x end = fetched_at x) as Ef.
  { destruct rest as [|t rest]; [|done]. rewrite (v_fetched _ Hx), E, app_nil_r, Hlast. done. }
  rewrite Ef. pose proof Hx as []. split; cbn; rewrite ?Ef; try done.
  - intros t [Ht _]%elem_of_difference. by apply v_acked0.
  - by apply StronglySorted_app_1_r in Ho.
  - intros t Ht. split; [apply v_pending0; rewrite E; apply elem_of_app; by right|].
    apply (in_order_app p rest); [done | by apply last_Some_elem_of | done].
  - intros t Ht Hht Hft.
    assert (t ∈ _pending (source x)) as Hpend.
    { apply v_cover0; [done | | done]. apply v_pending0 in Hh as [_ Hh].
      apply (beyond_le _ h); [done|]. apply row_lt_not. by right. }
    rewrite E in Hpend. apply elem_of_app in Hpend as [Htp|]; [|done]. exfalso.
    pose proof (in_order_last p h t) as Hle. rewrite Hle in Hht; [done | | done | done].
    by apply StronglySorted_app_1_l in Ho.
  - intros t. by apply (highest_done x p).
  - rewrite v_fetched0, E, last_app. destruct rest as [|t rest]; [by rewrite Hlast|].
    destruct (list.last (t :: rest)) eqn:El; [done|]. by apply last_None in El.
  - intros Hl. apply v_new0 in Hl as (Hl & _). rewrite Hl in Htask. done.
Qed.

Lemma saving_loaded x task : cursor_ok x → _commit_task (source x) = Some task → _loaded (source x) = true.
Proof.
  intros Hx Ht. destruct (_loaded (source x)) eqn:E; [done|].
  apply (v_new _ Hx) in E as (E & _). by rewrite E in Ht.
Qed.

Lemma saved_iinv x p h :
  cursor_ok x → saving_ok (source x) → _commit_task (source x) = Some (FlushSaving p h) →
  iinv (with_source (flush_resumes true (source x)) x).
Proof.
  intros Hx Hs Htask. pose proof (saving_loaded _ _ Hx Htask) as Hl.
  destruct (saved_prefix_popped _ _ _ Hx Hs Htask) as (s & Hpop & Hc & Hls). rewrite Hl in Hls.
  unfold flush_resumes. rewrite Htask, Hpop. destruct (head_acked (cursor_saved h s)) eqn:Eh.
  - apply (flush_loop_top_iinv (with_source (cursor_saved h s) x)); [done | exact Hls].
  - split_and!; [apply (set_task_cursor None (with_source (cursor_saved h s) x)); [done | exact Hls]
                | by intros p' h' [=] |]. intros E. unfold head_acked in *. cbn in *. congruence.
Qed.

Lemma save_answered_iinv a x : iinv x → iinv (save_answered a x).
Proof.
  intros (Hx & Hs & Hw). unfold save_answered.
  destruct (_commit_task (source x)) as [[|p h]|] eqn:Htask; [done| |done].
  pose proof (saving_loaded _ _ Hx Htask) as Hl. pose proof (store_highest _ _ _ Hx Hs Htask) as Hst.
  destruct a.
  - by apply (saved_iinv (with_store (Some h) x) p h).
  - unfold flush_resumes. rewrite Htask. by apply flush_fails_iinv.
  - unfold flush_resumes. rewrite Htask. by apply (flush_fails_iinv (with_store (Some h) x)).
Qed.

(** ** Every step keeps the invariant *)

(** A new source has no rows. *)
Ltac nothing_yet :=
  try done; try (by constructor);
  try (let Ht := fresh in intros ? Ht; exfalso; first [by apply elem_of_empty in Ht | by apply elem_of_nil in Ht]).

Lemma opened_iinv x : iinv x → iinv (with_source (open (store x) (source x)) x).
Proof.
  intros (Hx & Hs & Hw). unfold open. destruct (_loaded (source x)) eqn:Hl; [by destruct x|].
  pose proof Hx as []. destruct (v_new0 Hl) as (-> & Hlive & Hq).
  assert (match store x with Some c => Some c | None => None end = store x) as Es by by destruct (store x).
  split_and!; [|by intros p h [=]|by intros [=]]. split; cbn in *; rewrite ?Es; nothing_yet.
  - intros t _ H1 H2. congruence.
  - by rewrite Hq.
  - rewrite Hlive. intros t Ht. by apply elem_of_nil in Ht.
Qed.

Lemma restarted_iinv x :
  iinv x → iinv (with_live [] (with_querying None (with_source new_source x))).
Proof.
  intros (Hx & _ & _). pose proof Hx as [].
  split_and!; [|by intros p h [=]|by intros [=]]. split; cbn; nothing_yet.
Qed.

Lemma step_iinv x x' : iinv x → istep connector x x' → iinv x'.
Proof.
  intros Hi Hstep. destruct Hstep.
  - destruct Hi as ([] & Hs & Hw). split_and!; [|done|done]. split; cbn; try done. eauto.
  - by apply opened_iinv.
  - by apply fetch_started_iinv.
  - by apply fetch_answered_iinv.
  - destruct Hi as ([] & Hs & Hw). split_and!; [|done|done]. split; cbn; try done.
    intros Hl. destruct (v_new0 Hl) as (? & ? & _). done.
  - by apply acknowledged_iinv.
  - by apply (same_iinv _ _ t).
  - destruct connector; cbn; [by destruct x | |]; by apply (same_iinv _ _ t).
  - apply (same_iinv _ _ t); try done; unfold fail_token; cbn; by destruct (_retry_rows (source x) !! t).
  - pose proof Hi as (Hx & _). apply with_live_iinv; [done | | ].
    + apply (live_loaded x t); [done|]. rewrite H0. apply elem_of_app. right. left.
    + intros u Hu. apply (v_live _ Hx). rewrite H0. apply elem_of_app in Hu as [|]; apply elem_of_app; [by left|].
      right. by right.
  - pose proof Hi as (Hx & _). unfold flush_resumes. rewrite H0.
    apply flush_loop_top_iinv; [done | by eapply saving_loaded].
  - by apply save_answered_iinv.
  - by apply restarted_iinv.
Qed.

Lemma reachable_iinv x : ireachable connector x → iinv x.
Proof.
  induction 1 as [l c Hl|x x' _ IH Hstep]; [|by eapply step_iinv].
  split_and!; [|by intros p h [=]|by intros [=]]. split; cbn; nothing_yet.
Qed.

(** ** Properties *)

(** C24. No row is lost: whatever was handed out and not acknowledged, in this
    process or an earlier one, is beyond the saved cursor, so a source that
    starts from it reads the row again. *)
Theorem unsettled_rows_read_again x t n :
  ireachable connector x → t ∈ handed x → t ∉ done x → (length (table x) ≤ n)%nat →
  t ∈ _fetch n (store x) (table x).
Proof.
  intros (Hx & _)%reachable_iinv Ht Hd Hn. unfold _fetch. rewrite take_ge.
  - apply elem_of_filter_list. split; [by apply (v_handed _ Hx)|].
    destruct (beyond (store x) t) eqn:E; [done|]. by destruct Hd; apply (v_store _ Hx).
  - etransitivity; [apply filter_length_le | done].
Qed.

(** When a saved cursor is answered, the rows the commit task pops are
    the ones it saved: it never sees the order changed, an empty queue or a
    missing acknowledgement. *)
Theorem commit_order_kept x p h :
  ireachable connector x → _commit_task (source x) = Some (FlushSaving p h) →
  ∃ s, pop_prefix p (source x) = Some s ∧ p ++ _pending s = _pending (source x).
Proof.
  intros (Hx & Hs & _)%reachable_iinv Htask. destruct (Hs _ _ Htask) as (Hlast & [rest E] & Hp).
  pose proof (v_order _ Hx) as Ho. rewrite E in Ho.
  destruct (pop_prefix_ok p rest (source x) E) as [rows Hpop];
    [by apply in_order_NoDup; apply StronglySorted_app_1_l in Ho | done |].
  eexists. split; [exact Hpop | done].
Qed.

(** The next step of the commit task when the store works. *)
Definition commit_step x : incremental_system T :=
  match _commit_task (source x) with
  | Some FlushCreated => with_source (flush_resumes true (source x)) x
  | Some (FlushSaving _ _) => save_answered SaveStored x
  | None => x
  end.

Definition all_acked s : Prop := ∀ t, t ∈ _pending s → t ∈ _acked s.

Lemma acked_prefix_all acked l : (∀ t, t ∈ l → t ∈ acked) → acked_prefix acked l = l.
Proof.
  induction l as [|t l IH]; intros Ha; [done|]. cbn. rewrite decide_True by (apply Ha; left).
  f_equal. apply IH. intros u Hu. apply Ha. by right.
Qed.

(** The whole queue is being saved. *)
Lemma saving_all x h :
  cursor_ok x → all_acked (source x) →
  _commit_task (source x) = Some (FlushSaving (_pending (source x)) h) →
  list.last (_pending (source x)) = Some h →
  let x' := commit_step x in
  _pending (source x') = [] ∧ _commit_task (source x') = None ∧ store x' = fetched_at x.
Proof.
  intros Hx Ha Htask Hlast. unfold commit_step. rewrite Htask. unfold save_answered. rewrite Htask.
  destruct (pop_prefix_ok (_pending (source x)) [] (source x)) as [rows Hpop];
    [by rewrite app_nil_r | apply in_order_NoDup, (v_order _ Hx) | done |].
  unfold flush_resumes. rewrite Htask, Hpop. cbn. split_and!; [done|done|].
  by rewrite (v_fetched _ Hx), Hlast.
Qed.

Lemma loop_top_all s h :
  all_acked s → list.last (_pending s) = Some h →
  flush_loop_top s = set_task (Some (FlushSaving (_pending s) h)) s.
Proof. intros Ha Hl. unfold flush_loop_top. by rewrite (acked_prefix_all _ _ Ha), Hl. Qed.

(** A part of the queue is being saved; the rest follows. *)
Lemma saving_some x p h' t rest h :
  cursor_ok x → saving_ok (source x) → all_acked (source x) →
  _commit_task (source x) = Some (FlushSaving p h') → _pending (source x) = p ++ t :: rest →
  list.last (_pending (source x)) = Some h →
  ∃ s, cursor_ok (with_source s (with_store (Some h') x)) ∧ _loaded s = true ∧ all_acked s ∧
    commit_step x = with_source (set_task (Some (FlushSaving (_pending s) h)) s) (with_store (Some h') x) ∧
    list.last (_pending s) = Some h ∧ _pending s = t :: rest ∧ _fetched_cursor s = fetched_at x.
Proof.
  intros Hx Hs Ha Htask E Hlast. pose proof (saving_loaded _ _ Hx Htask) as Hl.
  pose proof (store_highest _ _ _ Hx Hs Htask) as Hst.
  destruct (saved_prefix_popped (with_store (Some h') x) _ _ Hst Hs Htask) as (s & Hpop & Hc & Hls).
  pose proof (v_order _ Hx) as Ho. rewrite E in Ho.
  destruct (pop_prefix_ok p (t :: rest) (source x) E) as [rows Hpop'];
    [by apply in_order_NoDup; apply StronglySorted_app_1_l in Ho | |].
  { intros u Hu. apply Ha. rewrite E. apply elem_of_app. by left. }
  cbn [source with_store] in Hpop, Hls. rewrite Hpop in Hpop'. injection Hpop' as Es.
  assert (_pending s = t :: rest) as Eps by (by rewrite Es).
  assert (all_acked (cursor_saved h' s)) as Ha'.
  { intros u. cbn. rewrite Eps, Es. cbn. intros Hu. apply elem_of_difference. split.
    - apply Ha. rewrite E. apply elem_of_app. by right.
    - intros Hup%elem_of_list_to_set. pose proof (in_order_app _ _ u u Ho Hup Hu) as Hlt.
      by rewrite row_lt_irrefl in Hlt. }
  assert (list.last (_pending (cursor_saved h' s)) = Some h) as Hlast2.
  { cbn. rewrite Eps. rewrite E, last_app in Hlast.
    destruct (list.last (t :: rest)) eqn:El; [done | by apply last_None in El]. }
  exists (cursor_saved h' s). split_and!; [done | cbn; congruence | done | | done | done |].
  - unfold commit_step. rewrite Htask. unfold save_answered. rewrite Htask. unfold flush_resumes.
    rewrite Htask, Hpop.
    assert (head_acked (cursor_saved h' s) = true) as ->.
    { unfold head_acked. cbn. rewrite Eps. apply bool_decide_eq_true, Ha'. cbn. rewrite Eps. left. }
    by rewrite (loop_top_all _ h Ha' Hlast2).
  - cbn. by rewrite Eps, Es.
Qed.

(** Acknowledgements reach the store: when every row that is handed out
    is acknowledged and no save has failed since, the commit task is running,
    and two of its steps later the store has the cursor of the last row. *)
Theorem acknowledged_rows_saved x :
  ireachable connector x → _pending (source x) ≠ [] → all_acked (source x) →
  _commit_error (source x) = false →
  ∃ n, (1 ≤ n ≤ 2)%nat ∧
    let x' := Nat.iter n commit_step x in
    _pending (source x') = [] ∧ _commit_task (source x') = None ∧ store x' = fetched_at x.
Proof.
  intros (Hx & Hs & Hw)%reachable_iinv Hne Ha He.
  destruct (list.last (_pending (source x))) as [h|] eqn:Hlast; [|by apply last_None in Hlast].
  destruct (_commit_task (source x)) as [[|p h']|] eqn:Htask.
  - exists 2%nat. split; [lia|]. change (Nat.iter 2 commit_step x) with (commit_step (commit_step x)).
    pose proof (saving_loaded _ _ Hx Htask) as Hl.
    assert (commit_step x = with_source (set_task (Some (FlushSaving (_pending (source x)) h)) (source x)) x) as ->.
    { unfold commit_step. rewrite Htask. unfold flush_resumes. rewrite Htask. f_equal. by apply loop_top_all. }
    apply (saving_all (with_source (set_task (Some (FlushSaving (_pending (source x)) h)) (source x)) x) h);
      [by apply set_task_cursor | done..].
  - destruct (Hs _ _ Htask) as (Hlast' & [rest E] & Hp). pose proof (saving_loaded _ _ Hx Htask) as Hl.
    destruct rest as [|t rest].
    + exists 1%nat. split; [lia|]. rewrite app_nil_r in E. apply (saving_all _ h'); [done | done | congruence | congruence].
    + exists 2%nat. split; [lia|].
      destruct (saving_some x p h' t rest h) as (s & Hc & Hl' & Ha' & Es & E' & _ & Hf); [done..|].
      change (Nat.iter 2 commit_step x) with (commit_step (commit_step x)). rewrite Es, <- Hf.
      apply (saving_all (with_source (set_task (Some (FlushSaving (_pending s) h)) s) (with_store (Some h') x)) h);
        [| done | done | done].
      by apply (set_task_cursor _ (with_source s (with_store (Some h') x))).
  - exfalso. assert (head_acked (source x) = true) as Hh; [|specialize (Hw Hh Htask); congruence].
    unfold head_acked. destruct (_pending (source x)) as [|t l] eqn:E; [done|].
    apply bool_decide_eq_true, Ha. rewrite E. left.
Qed.
End Theorems.

(** ** Concrete runs *)

(** A table whose cursor column is an integer. *)
#[export] Instance integer_rows : RowOrder Z.
Proof.
  refine {| row_lt := Z.ltb |}.
  - intros t. apply Z.ltb_irrefl.
  - intros t u v Htu Huv. apply Z.ltb_lt in Htu, Huv. apply Z.ltb_lt. lia.
  - intros t u. rewrite !Z.ltb_lt. lia.
Defined.

Definition row_envelope : Envelope := {| body := VNone; meta := []; attempts := 0 |}.

Definition users_table (l : list Z) (c : option Z) : incremental_system Z :=
  {| source := new_source; table := l; store := c; querying := None; live := []; handed := ∅; done := ∅ |}.

Definition opened (x : incremental_system Z) : incremental_system Z :=
  with_source (open (store x) (source x)) x.

Definition fetch (x : incremental_system Z) : incremental_system Z :=
  fetch_answered (fetch_started 0 100 100 x).

Ltac run := repeat first
  [ apply i_acked; vm_compute; repeat constructor | apply i_answered | apply i_opened
  | apply i_fetch; vm_compute; reflexivity | apply i_saved | apply i_flush; vm_compute; reflexivity ].

(** Rows 1, 2 and 3 are handed out; 2 and then 1 are acknowledged. *)
Definition two_of_three : incremental_system Z :=
  acknowledged 1%Z (acknowledged 2%Z (fetch (opened (users_table [1; 2; 3]%Z None)))).

Lemma two_of_three_reachable : ireachable MySQL two_of_three.
Proof.
  unfold two_of_three, fetch, opened.
  do 5 (eapply i_next; [|run]). apply i_start. repeat constructor.
Qed.

Definition saving_two : incremental_system Z :=
  with_source (flush_resumes true (source two_of_three)) two_of_three.

Lemma saving_two_reachable : ireachable MySQL saving_two.
Proof.
  unfold saving_two. eapply i_next; [apply two_of_three_reachable|].
  apply (i_flush MySQL two_of_three). vm_compute. reflexivity.
Qed.

Lemma unsettled_rows_read_again_witness :
  let x := save_answered SaveStored saving_two in
  store x = Some 2%Z ∧ 3%Z ∈ _fetch 3 (store x) (table x).
Proof.
  intros x. split; [vm_compute; reflexivity|].
  apply (unsettled_rows_read_again MySQL x 3%Z 3).
  - eapply i_next; [apply saving_two_reachable | apply i_saved].
  - apply (bool_decide_unpack _). vm_compute. exact I.
  - apply (bool_decide_unpack _). vm_compute. exact I.
  - vm_compute. lia.
Defined.

Lemma commit_order_kept_witness :
  ∃ s, pop_prefix [1; 2]%Z (source saving_two) = Some s ∧ [1; 2]%Z ++ _pending s = [1; 2; 3]%Z.
Proof.
  destruct (commit_order_kept MySQL saving_two [1; 2]%Z 2%Z) as (s & H1 & H2).
  - apply saving_two_reachable.
  - vm_compute. reflexivity.
  - exists s. split; [exact H1 | exact H2].
Defined.

Lemma acknowledged_rows_saved_witness :
  let x := acknowledged 3%Z two_of_three in
  ∃ n, (1 ≤ n ≤ 2)%nat ∧ store (Nat.iter n commit_step x) = Some 3%Z.
Proof.
  intros x. destruct (acknowledged_rows_saved MySQL x) as (n & Hn & _ & _ & Hs).
  - eapply i_next; [apply two_of_three_reachable|]. apply i_acked. vm_compute. repeat constructor.
  - vm_compute. discriminate.
  - intros t Ht. apply (bool_decide_unpack _). revert t Ht. apply Forall_forall.
    apply (bool_decide_unpack _). vm_compute. exact I.
  - vm_compute. reflexivity.
  - exists n. split; [exact Hn | exact Hs].
Defined.

(** A row that the runtime releases unstarted (a paused task): the source of
    MySQL hands it out again, that of PostgreSQL never does in this process,
    and its cursor stays before the row. *)
Definition released (c : sql_connector) : incremental_system Z :=
  let x := fetch (opened (users_table [1; 2]%Z None)) in
  with_source (release_unstarted c 0 1%Z row_envelope (source x)) x.

Example released_row_redelivered :
  (fetch_begins 1 (source (released MySQL))).1 = FetchRetried 1%Z row_envelope.
Proof. vm_compute. reflexivity. Qed.

Example postgres_released_row_stuck :
  (fetch_begins 1 (source (released Postgres))).1 = FetchQuery (Some 2%Z) ∧
  store (Nat.iter 2 commit_step (acknowledged 2%Z (released Postgres))) = None.
Proof. vm_compute. split; reflexivity. Qed.
