(* ===== verification/Metrics.v ===== *)
(** * Custom metrics ([onestep/metrics.py])

    [CustomMetricsRegistry]: named counters and gauges of each task, with
    labels, and the rotation that reports them.  Each method holds the lock
    of the registry, so it is one step. *)

From stdpp Require Import base gmap sets list strings numbers sorting.
From Stdlib Require Import ZArith Lia Ascii SpecFloat.
From S2P Require Import Prelude PyFloat Value.

Inductive MetricKind := COUNTER | GAUGE.

#[global] Instance MetricKind_eq_dec : EqDecision MetricKind.
Proof. solve_decision. Defined.

#[global] Instance MetricKind_countable : Countable MetricKind.
Proof.
  refine (inj_countable' (λ k, match k with COUNTER => true | GAUGE => false end)
            (λ b : bool, if b then COUNTER else GAUGE) _).
  by intros [].
Defined.

Definition metric_kind_value (k : MetricKind) : string :=
  match k with COUNTER => "counter" | GAUGE => "gauge" end.

Abbreviation label_set := (list (string * string)).

(** Task, name, kind and labels. *)
Abbreviation series := (string * string * MetricKind * label_set)%type.

Record CustomMetricsRegistry := {
  _values : gmap series float64;
  _known_kinds : gmap (string * string * label_set) MetricKind;
}.

Definition empty_registry : CustomMetricsRegistry := {| _values := ∅; _known_kinds := ∅ |}.

Record CustomMetricSample := {
  sm_name : string;
  sm_kind : MetricKind;
  sm_value : float64;
  sm_labels : label_set;
}.

(** ** Names, labels and values *)

Definition is_letter (c : ascii) : bool :=
  let n := nat_of_ascii c in ((65 <=? n) && (n <=? 90) || (97 <=? n) && (n <=? 122))%nat.

Definition is_decimal (c : ascii) : bool :=
  let n := nat_of_ascii c in ((48 <=? n) && (n <=? 57))%nat.

Definition label_start (c : ascii) : bool := is_letter c || Ascii.eqb c "_".
Definition name_start (c : ascii) : bool := label_start c || Ascii.eqb c ":".

(** A match of [^[start][start0-9]*$] on a stripped text. *)
Definition identifier (start : ascii → bool) (s : string) : bool :=
  match str_to_list s with
  | [] => false
  | c :: l => start c && forallb (λ c, start c || is_decimal c) l
  end.

Definition _RESERVED_LABEL_NAMES : list string := ["service"; "environment"; "task"; "instance_id"; "metric"].

Definition _normalize_metric_name (name : value) : result exn string :=
  match name with
  | VStr s =>
      let normalized := strip s in
      if identifier name_start normalized then Ok normalized
      else Err (value_error ("invalid custom metric name: '" +:+ s +:+ "'"))
  | _ => Err (type_error "custom metric name must be a string")
  end.

(** The order of [sorted] on items with distinct keys. *)
Definition key_le (a b : string * string) : Prop := String.leb a.1 b.1 = true.

#[global] Instance key_le_dec a b : Decision (key_le a b).
Proof. unfold key_le. apply _. Defined.

Section Labels.
(** [str(raw_value)]. *)
Context (py_str : value → string).

Definition normalize_label (acc : result exn label_set) (kv : value * value) : result exn label_set :=
  normalized ← acc;
  match kv.1 with
  | VStr raw_key =>
      let key := strip raw_key in
      _ ← guard_else (identifier label_start key)
            (value_error ("invalid custom metric label key: '" +:+ raw_key +:+ "'"));
      _ ← guard_else (negb (existsb (String.eqb key) _RESERVED_LABEL_NAMES))
            (value_error ("custom metric label '" +:+ key +:+ "' is reserved"));
      Ok (dict_set key (py_str kv.2) normalized)
  | _ => Err (type_error "custom metric label keys must be strings")
  end.

Definition _normalize_labels (labels : list (value * value)) : result exn label_set :=
  merge_sort key_le <$> foldl normalize_label (Ok []) labels.
End Labels.

Definition _coerce_metric_value (v : value) : result exn float64 :=
  match v with
  | VInt n => let x := float_of_Z n in
              if isfinite x then Ok x else Err (overflow_error "int too large to convert to float")
  | VFloat x => if isfinite x then Ok x else Err (value_error "custom metric value must be finite")
  | _ => Err (type_error "custom metric value must be an int or float")
  end.

(** ** The registry *)

(** [_series_key]: the kind of a series is the first one it was used with. *)
Definition _series_key (task name : string) (kind : MetricKind) (labels : label_set)
    (r : CustomMetricsRegistry) : result exn (series * CustomMetricsRegistry) :=
  let identity := (task, name, labels) in
  let conflict := match _known_kinds r !! identity with
                  | Some k => negb (bool_decide (k = kind))
                  | None => false
                  end in
  if conflict
  then Err (value_error ("custom metric '" +:+ name +:+ "' already exists as "
                         +:+ metric_kind_value (match kind with COUNTER => GAUGE | GAUGE => COUNTER end)))
  else Ok ((task, name, kind, labels),
           {| _values := _values r; _known_kinds := <[identity := kind]> (_known_kinds r) |}).

Definition store_value (k : series) (x : float64) (r : CustomMetricsRegistry) : CustomMetricsRegistry :=
  {| _values := <[k := x]> (_values r); _known_kinds := _known_kinds r |}.

(** A call that raises leaves the registry as it is. *)
Definition increment_counter (task : string) (name : value) (labels : label_set) (amount : value)
    (r : CustomMetricsRegistry) : result exn CustomMetricsRegistry :=
  x ← _coerce_metric_value amount;
  _ ← guard_else (negb (fltb x f_zero)) (value_error "counter increment must be >= 0");
  n ← _normalize_metric_name name;
  '(k, r) ← _series_key task n COUNTER labels r;
  Ok (store_value k (fadd (default f_zero (_values r !! k)) x) r).

Definition set_gauge (task : string) (name : value) (labels : label_set) (v : value)
    (r : CustomMetricsRegistry) : result exn CustomMetricsRegistry :=
  x ← _coerce_metric_value v;
  n ← _normalize_metric_name name;
  '(k, r) ← _series_key task n GAUGE labels r;
  Ok (store_value k x r).

Definition task_names (r : CustomMetricsRegistry) : gset string :=
  list_to_set ((λ kv : series * float64, kv.1.1.1.1) <$> map_to_list (_values r)).

(** A counter at zero is left out. *)
Definition sample_of (task : string) (kv : series * float64) : option CustomMetricSample :=
  let '(series_task, name, kind, labels, x) := kv in
  if negb (String.eqb series_task task) then None
  else if bool_decide (kind = COUNTER) && SFeqb x f_zero then None
  else Some {| sm_name := name; sm_kind := kind; sm_value := x; sm_labels := labels |}.

(** The lexicographic order of [(name, kind, labels)]. *)
Definition sample_key (s : CustomMetricSample) : list string :=
  sm_name s :: metric_kind_value (sm_kind s) :: (sm_labels s ≫= λ kv, [kv.1; kv.2]).

Fixpoint texts_leb (a b : list string) : bool :=
  match a, b with
  | [], _ => true
  | _ :: _, [] => false
  | x :: a, y :: b => if String.eqb x y then texts_leb a b else String.leb x y
  end.

Definition sample_le (a b : CustomMetricSample) : Prop := texts_leb (sample_key a) (sample_key b) = true.

#[global] Instance sample_le_dec a b : Decision (sample_le a b).
Proof. unfold sample_le. apply _. Defined.

(** Every counter of the task is set to zero (one at zero stays as it is). *)
Definition reset_counter (task : string) (k : series) (x : float64) : float64 :=
  if String.eqb k.1.1.1 task && bool_decide (k.1.2 = COUNTER) && negb (SFeqb x f_zero)
  then f_zero else x.

Definition rotate_task (task : string) (r : CustomMetricsRegistry)
    : list CustomMetricSample * CustomMetricsRegistry :=
  (merge_sort sample_le (omap (sample_of task) (map_to_list (_values r))),
   {| _values := map_imap (λ k x, Some (reset_counter task k x)) (_values r);
      _known_kinds := _known_kinds r |}).

(** [_json_number] of a sample: an integer if it is integral. *)
Definition _json_number (x : float64) : value :=
  match modf x with
  | Some (n, S754_zero _) => VInt n
  | _ => VFloat x
  end.

(** ** Properties *)

(** A series has one kind: the known one. *)
Definition one_kind (r : CustomMetricsRegistry) : Prop :=
  ∀ task name kind labels x, _values r !! (task, name, kind, labels) = Some x →
    _known_kinds r !! (task, name, labels) = Some kind.

Inductive metric_call :=
| Inc (task : string) (name : value) (labels : label_set) (amount : value)
| SetGauge (task : string) (name : value) (labels : label_set) (v : value)
| Rotate (task : string).

Definition metric_step (r : CustomMetricsRegistry) (c : metric_call) : CustomMetricsRegistry :=
  match c with
  | Inc task name labels amount => match increment_counter task name labels amount r with Ok r => r | Err _ => r end
  | SetGauge task name labels v => match set_gauge task name labels v r with Ok r => r | Err _ => r end
  | Rotate task => (rotate_task task r).2
  end.

Lemma stored_one_kind task name kind labels r k r' x :
  one_kind r → _series_key task name kind labels r = Ok (k, r') → one_kind (store_value k x r').
Proof.
  intros Hr. unfold _series_key. destruct (_known_kinds r !! (task, name, labels)) as [k0|] eqn:Ek.
  - case_bool_decide as Hk; [subst k0|done]. cbn. intros [= <- <-] t n kd ls y Hv. cbn in *.
    rewrite insert_id by done.
    apply lookup_insert_Some in Hv as [(Hv & _)|(_ & Hv)]; [by simplify_eq | by apply Hr in Hv].
  - cbn. intros [= <- <-] t n kd ls y Hv. cbn in *.
    apply lookup_insert_Some in Hv as [(Hv & _)|(_ & Hv)]; [simplify_eq; by rewrite lookup_insert_eq|].
    apply Hr in Hv. rewrite lookup_insert_ne; [done|]. intros [= <- <- <-]. congruence.
Qed.

(** Whatever is recorded and rotated, no series of a task, a name and a set
    of labels is both a counter and a gauge. *)
Theorem series_have_one_kind calls : one_kind (foldl metric_step empty_registry calls).
Proof.
  assert (∀ r, one_kind r → one_kind (foldl metric_step r calls)) as H.
  { induction calls as [|c calls IH]; intros r Hr; [done|]. cbn. apply IH. destruct c; cbn.
    - destruct (increment_counter task name labels amount r) as [r'|] eqn:E; [|done].
      unfold increment_counter in E.
      apply bind_ok in E as (y & _ & (u & _ & (n & _ & ([k r1] & Hk & [= <-])%bind_ok)%bind_ok)%bind_ok).
      by eapply stored_one_kind.
    - destruct (set_gauge task name labels v r) as [r'|] eqn:E; [|done]. unfold set_gauge in E.
      apply bind_ok in E as (y & _ & (n & _ & ([k r1] & Hk & [= <-])%bind_ok)%bind_ok).
      by eapply stored_one_kind.
    - intros t n kd ls y. cbn. rewrite map_lookup_imap. intros (z & Hz & _)%bind_Some. by apply Hr in Hz. }
  by apply H.
Qed.

Lemma texts_leb_total a b : texts_leb a b = true ∨ texts_leb b a = true.
Proof.
  revert b. induction a as [|x a IH]; intros [|y b]; cbn; [by left | by left | by right |].
  rewrite (String.eqb_sym y x). destruct (String.eqb x y); [apply IH|].
  destruct (String.leb_total x y); [by left | by right].
Qed.

#[global] Instance sample_le_total : Total sample_le.
Proof. intros a b. apply texts_leb_total. Qed.

Lemma NoDup_omap {A B} (f : A → option B) l :
  NoDup l → (∀ x y z, f x = Some z → f y = Some z → x = y) → NoDup (omap f l).
Proof.
  intros Hl Hf. induction Hl as [|x l Hx _ IH]; cbn; [constructor|].
  destruct (f x) as [z|] eqn:Ez; [|done]. apply NoDup_cons. split; [|done].
  intros (y & Hy & Hz)%list_elem_of_omap. by rewrite (Hf x y z) in Hx.
Qed.

Lemma sample_of_some task k x s :
  sample_of task (k, x) = Some s ↔
  k = (task, sm_name s, sm_kind s, sm_labels s) ∧ x = sm_value s ∧
  ¬ (sm_kind s = COUNTER ∧ SFeqb (sm_value s) f_zero = true).
Proof.
  destruct k as [[[t n] kd] ls], s as [n' kd' x' ls']. unfold sample_of. cbn [sm_name sm_kind sm_value sm_labels].
  destruct (String.eqb_spec t task) as [->|Ht]; cbn [negb]; [|split; [done | intros [[= ? _ _ _] _]; done]].
  destruct (bool_decide (kd = COUNTER) && SFeqb x f_zero) eqn:E.
  - split; [done|]. intros ([= -> -> ->] & -> & Hz). apply andb_true_iff in E as [E1%bool_decide_eq_true E2].
    by destruct Hz.
  - split.
    + intros [= <- <- <- <-]. split_and!; [done..|]. intros [-> Hx]. by rewrite Hx in E.
    + by intros ([= -> -> ->] & -> & _).
Qed.

(** A rotation reports each gauge of the task and each of its counters that
    counted, once and in order; it sets those counters to zero and touches
    nothing else. *)
Theorem rotation_reports task r :
  let '(samples, r') := rotate_task task r in
  Sorted sample_le samples ∧ NoDup samples ∧
  (∀ s, s ∈ samples ↔ _values r !! (task, sm_name s, sm_kind s, sm_labels s) = Some (sm_value s) ∧
     ¬ (sm_kind s = COUNTER ∧ SFeqb (sm_value s) f_zero = true)) ∧
  ∀ k, _values r' !! k = reset_counter task k <$> _values r !! k.
Proof.
  cbn. split_and!.
  - apply Sorted_merge_sort. apply _.
  - rewrite merge_sort_Permutation. apply NoDup_omap; [apply NoDup_map_to_list|].
    intros [k x] [k' x'] s (-> & -> & _)%sample_of_some (-> & -> & _)%sample_of_some. done.
  - intros s. rewrite merge_sort_Permutation, list_elem_of_omap. split.
    + intros ([k x] & Hin & (-> & -> & Hz)%sample_of_some). by apply elem_of_map_to_list in Hin.
    + intros [Hv Hz]. exists ((task, sm_name s, sm_kind s, sm_labels s), sm_value s).
      split; [by apply elem_of_map_to_list | by apply sample_of_some].
  - intros k. rewrite map_lookup_imap. by destruct (_values r !! k).
Qed.

(** ** A concrete registry *)

Definition show (v : value) : string := match v with VStr s => s | VInt n => str_of_Z n | _ => "?" end.

Example labels_normalized :
  _normalize_labels show [(VStr " zone ", VInt 3); (VStr "app", VStr "x")] = Ok [("app", "x"); ("zone", "3")].
Proof. vm_compute. reflexivity. Qed.

Example counted_twice :
  let r := foldl metric_step empty_registry
    [Inc "sync" (VStr "rows") [] (VInt 2); Inc "sync" (VStr " rows ") [] (VInt 3);
     SetGauge "sync" (VStr "rows") [] (VInt 9); SetGauge "sync" (VStr "lag") [] (VFloat f_one)] in
  (λ s, (sm_name s, _json_number (sm_value s))) <$> (rotate_task "sync" r).1
  = [("lag", VInt 1); ("rows", VInt 5)] ∧
  length (rotate_task "sync" (rotate_task "sync" r).2).1 = 1%nat.
Proof. vm_compute. split; reflexivity. Qed.
