(* ===== verification/Reporter.v ===== *)
(** * The control-plane reporter ([onestep_control_plane/reporter.py])

    [ControlPlaneReporter] counts the task events in windows, buffers them,
    and sends events, windows and heartbeats through a sender.  Its methods
    are one step up to the [await] of the sender; several flushes can be in
    flight at once (the loops of the reporter and the commands of the control
    plane).  The descriptors of the service and of the topology are not
    modelled: a payload is what it reports. *)

From stdpp Require Import base gmap sets list strings numbers sorting.
From Stdlib Require Import ZArith Lia Ascii SpecFloat.
From S2P Require Import Prelude PyFloat Value Calendar Invoke Retry Texts Codec Events Metrics.

(** ** [ControlPlaneReporterConfig]: the part that bounds the buffers *)

Record ControlPlaneReporterConfig := {
  event_batch_size : nat;
  max_pending_events : nat;
  max_pending_metric_batches : nat;
}.

Definition _coerce_positive_int (name : string) (n : Z) : result exn nat :=
  if (n <? 1)%Z then Err (value_error (name +:+ " must be >= 1")) else Ok (Z.to_nat n).

Definition mk_config (batch_size pending_events pending_batches : Z)
    : result exn ControlPlaneReporterConfig :=
  b ← _coerce_positive_int "event_batch_size" batch_size;
  e ← _coerce_positive_int "max_pending_events" pending_events;
  m ← _coerce_positive_int "max_pending_metric_batches" pending_batches;
  Ok {| event_batch_size := b; max_pending_events := e; max_pending_metric_batches := m |}.

(** ** [_TaskMetricsState] *)

Record _TaskMetricsState := {
  fetched : Z;
  started : Z;
  succeeded : Z;
  retried : Z;
  failed : Z;
  dead_lettered : Z;
  cancelled : Z;
  timeouts : Z;
  inflight : Z;
  durations_ms : list float64;
}.

Definition new_bucket : _TaskMetricsState :=
  {| fetched := 0; started := 0; succeeded := 0; retried := 0; failed := 0; dead_lettered := 0;
     cancelled := 0; timeouts := 0; inflight := 0; durations_ms := [] |}.

Definition has_activity (b : _TaskMetricsState) : bool :=
  existsb (λ n, negb (n =? 0)%Z)
    [fetched b; started b; succeeded b; retried b; failed b; dead_lettered b; cancelled b; timeouts b;
     inflight b].

(** What [rotate] leaves behind. *)
Definition rotated (b : _TaskMetricsState) : _TaskMetricsState :=
  {| fetched := 0; started := 0; succeeded := 0; retried := 0; failed := 0; dead_lettered := 0;
     cancelled := 0; timeouts := 0; inflight := inflight b; durations_ms := [] |}.

(** [_record_duration]. *)
Definition recorded_durations (e : TaskEvent) (ds : list float64) : list float64 :=
  match ev_duration_s e with
  | Some d => ds ++ [fmul d (float_of_Z 1000)]
  | None => ds
  end.

(** [_record_timeout]. *)
Definition recorded_timeouts (e : TaskEvent) (n : Z) : Z :=
  match ev_failure e with
  | Some f => if bool_decide (fi_kind f = FK_TIMEOUT) then (n + 1)%Z else n
  | None => n
  end.

(** The counting part of [handle_event]. *)
Definition count_event (e : TaskEvent) (b : _TaskMetricsState) : _TaskMetricsState :=
  match ev_kind e with
  | EV_FETCHED =>
      {| fetched := fetched b + 1; started := started b; succeeded := succeeded b; retried := retried b;
         failed := failed b; dead_lettered := dead_lettered b; cancelled := cancelled b;
         timeouts := timeouts b; inflight := inflight b; durations_ms := durations_ms b |}
  | EV_STARTED =>
      {| fetched := fetched b; started := started b + 1; succeeded := succeeded b; retried := retried b;
         failed := failed b; dead_lettered := dead_lettered b; cancelled := cancelled b;
         timeouts := timeouts b; inflight := inflight b + 1; durations_ms := durations_ms b |}
  | EV_SUCCEEDED =>
      {| fetched := fetched b; started := started b; succeeded := succeeded b + 1; retried := retried b;
         failed := failed b; dead_lettered := dead_lettered b; cancelled := cancelled b;
         timeouts := timeouts b; inflight := Z.max 0 (inflight b - 1);
         durations_ms := recorded_durations e (durations_ms b) |}
  | EV_RETRIED =>
      {| fetched := fetched b; started := started b; succeeded := succeeded b; retried := retried b + 1;
         failed := failed b; dead_lettered := dead_lettered b; cancelled := cancelled b;
         timeouts := recorded_timeouts e (timeouts b); inflight := Z.max 0 (inflight b - 1);
         durations_ms := recorded_durations e (durations_ms b) |}
  | EV_FAILED =>
      {| fetched := fetched b; started := started b; succeeded := succeeded b; retried := retried b;
         failed := failed b + 1; dead_lettered := dead_lettered b; cancelled := cancelled b;
         timeouts := recorded_timeouts e (timeouts b); inflight := Z.max 0 (inflight b - 1);
         durations_ms := recorded_durations e (durations_ms b) |}
  | EV_DEAD_LETTERED =>
      {| fetched := fetched b; started := started b; succeeded := succeeded b; retried := retried b;
         failed := failed b; dead_lettered := dead_lettered b + 1; cancelled := cancelled b;
         timeouts := timeouts b; inflight := inflight b; durations_ms := durations_ms b |}
  | EV_CANCELLED =>
      {| fetched := fetched b; started := started b; succeeded := succeeded b; retried := retried b;
         failed := failed b; dead_lettered := dead_lettered b; cancelled := cancelled b + 1;
         timeouts := timeouts b; inflight := inflight b; durations_ms := durations_ms b |}
  end%Z.

(** The kinds after which the next heartbeat says [degraded]. *)
Definition degrades (k : TaskEventKind) : bool :=
  match k with EV_RETRIED | EV_FAILED | EV_DEAD_LETTERED | EV_CANCELLED => true | _ => false end.

(** ** The reporter *)

(** The payload of an event, a dict with string keys. *)
Abbreviation event_payload := (list (string * value)).

(** One task in a window; the average of the durations needs [sum] of
    floats, whose rounding depends on the interpreter, and is left out. *)
Record task_window := {
  tw_name : string;
  tw_id : string;
  tw_counts : _TaskMetricsState;
  tw_p95 : option float64;
  tw_custom : list CustomMetricSample;
}.

Record _PreparedMetricsBatch := {
  window_started_at : Z;
  window_ended_at : Z;
  window_tasks : list task_window;
}.

Record ControlPlaneReporter := {
  _sequence : Z;
  _heartbeat_sequence : Z;
  _event_sequence : Z;
  _pending_events : list event_payload;
  _metrics_window_started_at : Z;
  _metrics_by_task : gmap string _TaskMetricsState;
  _pending_metric_batches : list _PreparedMetricsBatch;
  _degraded_since_last_heartbeat : bool;
  _event_flush_signal : bool;
  custom_metrics : CustomMetricsRegistry;
}.

(** [startup] at [now]. *)
Definition startup (now : Z) (custom : CustomMetricsRegistry) : ControlPlaneReporter :=
  {| _sequence := 0; _heartbeat_sequence := 0; _event_sequence := 0; _pending_events := [];
     _metrics_window_started_at := now; _metrics_by_task := ∅; _pending_metric_batches := [];
     _degraded_since_last_heartbeat := false; _event_flush_signal := false; custom_metrics := custom |}.

Section Reporter.
(** The configuration, the hex texts of the instance id and of the stream
    id of this start, and whether the sender takes custom metrics. *)
Context (config : ControlPlaneReporterConfig) (instance_hex stream_id : string) (custom_supported : bool).

(** ** Events *)

Definition event_id (n : Z) : string := instance_hex +:+ "-" +:+ stream_id +:+ "-" +:+ str_of_Z n.

(** [int(round(event.duration_s * 1000))]. *)
Definition duration_value (d : option float64) : value :=
  match d with
  | None => VNone
  | Some d => match round_half_even (fmul d (float_of_Z 1000)) with Some n => VInt n | None => VNone end
  end.

(** [meta.setdefault("source", event.source)]. *)
Definition event_meta (e : TaskEvent) : list (string * value) :=
  match ev_source e with
  | Some s => match dict_get "source" (ev_meta e) with
              | Some _ => ev_meta e
              | None => dict_set "source" (VStr s) (ev_meta e)
              end
  | None => ev_meta e
  end.

Definition _build_event_payload (n : Z) (e : TaskEvent) : event_payload :=
  [("event_id", VStr (event_id n)); ("kind", VStr (event_kind_value (ev_kind e)));
   ("task_name", VStr (ev_task e));
   ("occurred_at", VDatetime (PyDatetime (ev_emitted_at e) (Some 0%Z) false));
   ("attempts", VInt (ev_attempts e)); ("duration_ms", duration_value (ev_duration_s e));
   ("meta", VStrDict (event_meta e))]
  ++ match ev_failure e with
     | Some f => [("failure", VStrDict (failure_as_dict f))]
     | None => []
     end.

(** The kinds that are sent as events: all but [FETCHED]. *)
Definition is_sent (k : TaskEventKind) : bool :=
  match k with EV_FETCHED => false | _ => true end.

(** [_apply_event_backpressure]: how many of the oldest events go. *)
Definition event_overflow (pending : list event_payload) : nat :=
  (length pending - max_pending_events config)%nat.

Definition handle_event (e : TaskEvent) (r : ControlPlaneReporter) : ControlPlaneReporter :=
  let bucket := default new_bucket (_metrics_by_task r !! ev_task e) in
  let buckets := <[ev_task e := count_event e bucket]> (_metrics_by_task r) in
  let degraded := _degraded_since_last_heartbeat r || degrades (ev_kind e) in
  if is_sent (ev_kind e) then
    let n := (_event_sequence r + 1)%Z in
    let pending := _pending_events r ++ [_build_event_payload n e] in
    let overflow := event_overflow pending in
    let pending' := drop overflow pending in
    {| _sequence := _sequence r; _heartbeat_sequence := _heartbeat_sequence r; _event_sequence := n;
       _pending_events := pending';
       _metrics_window_started_at := _metrics_window_started_at r; _metrics_by_task := buckets;
       _pending_metric_batches := _pending_metric_batches r;
       _degraded_since_last_heartbeat := degraded || (0 <? overflow)%nat;
       _event_flush_signal := _event_flush_signal r || (event_batch_size config <=? length pending')%nat;
       custom_metrics := custom_metrics r |}
  else
    {| _sequence := _sequence r; _heartbeat_sequence := _heartbeat_sequence r;
       _event_sequence := _event_sequence r; _pending_events := _pending_events r;
       _metrics_window_started_at := _metrics_window_started_at r; _metrics_by_task := buckets;
       _pending_metric_batches := _pending_metric_batches r;
       _degraded_since_last_heartbeat := degraded; _event_flush_signal := _event_flush_signal r;
       custom_metrics := custom_metrics r |}.

Definition set_events (pending : list event_payload) (sequence : Z) (r : ControlPlaneReporter)
    : ControlPlaneReporter :=
  {| _sequence := sequence; _heartbeat_sequence := _heartbeat_sequence r;
     _event_sequence := _event_sequence r; _pending_events := pending;
     _metrics_window_started_at := _metrics_window_started_at r; _metrics_by_task := _metrics_by_task r;
     _pending_metric_batches := _pending_metric_batches r;
     _degraded_since_last_heartbeat := _degraded_since_last_heartbeat r;
     _event_flush_signal := _event_flush_signal r; custom_metrics := custom_metrics r |}.

(** The top of the loop of [_flush_event_batches]: the batch that is sent,
    if any. *)
Definition flush_events_top (r : ControlPlaneReporter) : option (list event_payload) * ControlPlaneReporter :=
  match _pending_events r with
  | [] => (None, r)
  | _ => (Some (take (event_batch_size config) (_pending_events r)),
          set_events (_pending_events r) (_sequence r + 1)%Z r)
  end.

(** [del self._pending_events[: len(batch)]]. *)
Definition events_sent (batch : list event_payload) (r : ControlPlaneReporter) : ControlPlaneReporter :=
  set_events (drop (length batch) (_pending_events r)) (_sequence r) r.
End Reporter.

(** ** Windows *)

Definition ceil (x : float64) : option Z :=
  '(n, fr) ← modf x; Some (if fltb f_zero fr then (n + 1)%Z else n).

Definition float_le (a b : float64) : Prop := fleb a b = true.

#[global] Instance float_le_dec a b : Decision (float_le a b).
Proof. unfold float_le. apply _. Defined.

(** [0.95]. *)
Definition p95 : float64 := float_of 8556839292003942 (-53).

(** [_percentile]. *)
Definition _percentile (values : list float64) (percentile : float64) : option float64 :=
  match values with
  | [] => None
  | _ => n ← ceil (fmul percentile (float_of_Z (Z.of_nat (length values))));
         merge_sort float_le values !! Z.to_nat (Z.max 0 (n - 1))
  end.

(** [datetime.isoformat] of an instant of UTC. *)
Definition utc_text (t : Z) : string := dt_isoformat (PyDatetime t (Some 0%Z) false).

Section Windows.
Context (config : ControlPlaneReporterConfig) (custom_supported : bool).

Definition text_le (a b : string) : Prop := String.leb a b = true.

#[global] Instance text_le_dec a b : Decision (text_le a b).
Proof. unfold text_le. apply _. Defined.

Definition window_names (r : ControlPlaneReporter) : list string :=
  merge_sort text_le (elements
    (dom (_metrics_by_task r) ∪ (if custom_supported then task_names (custom_metrics r) else ∅))).

Definition set_buckets (m : gmap string _TaskMetricsState) (c : CustomMetricsRegistry)
    (r : ControlPlaneReporter) : ControlPlaneReporter :=
  {| _sequence := _sequence r; _heartbeat_sequence := _heartbeat_sequence r;
     _event_sequence := _event_sequence r; _pending_events := _pending_events r;
     _metrics_window_started_at := _metrics_window_started_at r; _metrics_by_task := m;
     _pending_metric_batches := _pending_metric_batches r;
     _degraded_since_last_heartbeat := _degraded_since_last_heartbeat r;
     _event_flush_signal := _event_flush_signal r; custom_metrics := c |}.

(** One task of the rotation. *)
Definition rotate_task_window (ended_at : Z) (name : string) (r : ControlPlaneReporter)
    : list task_window * ControlPlaneReporter :=
  let bucket := default new_bucket (_metrics_by_task r !! name) in
  let '(custom, registry) := if custom_supported then rotate_task name (custom_metrics r)
                             else ([], custom_metrics r) in
  if negb (has_activity bucket) && match custom with [] => true | _ => false end
  then ([], set_buckets (<[name := bucket]> (_metrics_by_task r)) registry r)
  else ([{| tw_name := name;
            tw_id := name +:+ ":" +:+ utc_text (_metrics_window_started_at r) +:+ ":" +:+ utc_text ended_at;
            tw_counts := bucket; tw_p95 := _percentile (durations_ms bucket) p95; tw_custom := custom |}],
        set_buckets (<[name := rotated bucket]> (_metrics_by_task r)) registry r).

Fixpoint rotate_windows (ended_at : Z) (names : list string) (r : ControlPlaneReporter)
    : list task_window * ControlPlaneReporter :=
  match names with
  | [] => ([], r)
  | name :: names =>
      let '(tasks, r) := rotate_task_window ended_at name r in
      let '(tasks', r) := rotate_windows ended_at names r in
      (tasks ++ tasks', r)
  end.

Definition set_batches (batches : list _PreparedMetricsBatch) (degraded : bool) (started_at : Z)
    (r : ControlPlaneReporter) : ControlPlaneReporter :=
  {| _sequence := _sequence r; _heartbeat_sequence := _heartbeat_sequence r;
     _event_sequence := _event_sequence r; _pending_events := _pending_events r;
     _metrics_window_started_at := started_at; _metrics_by_task := _metrics_by_task r;
     _pending_metric_batches := batches; _degraded_since_last_heartbeat := degraded;
     _event_flush_signal := _event_flush_signal r; custom_metrics := custom_metrics r |}.

(** [_rotate_metrics_window] with its backpressure; the prepared tasks are
    returned too. *)
Definition _rotate_metrics_window (ended_at : Z) (r : ControlPlaneReporter)
    : list task_window * ControlPlaneReporter :=
  let '(tasks, r') := rotate_windows ended_at (window_names r) r in
  match tasks with
  | [] => ([], set_batches (_pending_metric_batches r') (_degraded_since_last_heartbeat r') ended_at r')
  | _ =>
      let batches := _pending_metric_batches r'
        ++ [{| window_started_at := _metrics_window_started_at r'; window_ended_at := ended_at;
               window_tasks := tasks |}] in
      let overflow := (length batches - max_pending_metric_batches config)%nat in
      (tasks, set_batches (drop overflow batches)
                (_degraded_since_last_heartbeat r' || (0 <? overflow)%nat) ended_at r')
  end.

(** The metric flush sends the first batch, and pops the first one when the
    sender has answered ([None]: [pop] raises). *)
Definition flush_metrics_top (r : ControlPlaneReporter) : option _PreparedMetricsBatch :=
  head (_pending_metric_batches r).

Definition metrics_sent (r : ControlPlaneReporter) : option ControlPlaneReporter :=
  match _pending_metric_batches r with
  | [] => None
  | _ :: batches => Some (set_batches batches (_degraded_since_last_heartbeat r)
                            (_metrics_window_started_at r) r)
  end.
End Windows.

(** ** Heartbeats *)

Record health_descriptor := { health_status : string; inflight_tasks : Z }.

Definition _build_health_descriptor (r : ControlPlaneReporter) : health_descriptor :=
  {| health_status := if _degraded_since_last_heartbeat r then "degraded" else "ok";
     inflight_tasks := map_fold (λ _ b n, (inflight b + n)%Z) 0%Z (_metrics_by_task r) |}.

(** What a heartbeat says when it is sent. *)
Definition heartbeat_begins (r : ControlPlaneReporter) : Z * health_descriptor * ControlPlaneReporter :=
  ((_heartbeat_sequence r + 1)%Z, _build_health_descriptor r,
   {| _sequence := _sequence r; _heartbeat_sequence := _heartbeat_sequence r + 1;
      _event_sequence := _event_sequence r; _pending_events := _pending_events r;
      _metrics_window_started_at := _metrics_window_started_at r; _metrics_by_task := _metrics_by_task r;
      _pending_metric_batches := _pending_metric_batches r;
      _degraded_since_last_heartbeat := _degraded_since_last_heartbeat r;
      _event_flush_signal := _event_flush_signal r; custom_metrics := custom_metrics r |}).

(** The sender has taken it. *)
Definition heartbeat_sent (r : ControlPlaneReporter) : ControlPlaneReporter :=
  set_batches (_pending_metric_batches r) false (_metrics_window_started_at r) r.

(** ** The reporter at work *)

Section System.
Context (config : ControlPlaneReporterConfig) (instance_hex stream_id : string).

Record reporting := {
  reporter : ControlPlaneReporter;
  (** the batches that flushes wait for *)
  flights : gmap nat (list event_payload);
  (** every event that was buffered, the batches the sender took, and what
      backpressure dropped *)
  emitted : list event_payload;
  sent : list (list event_payload);
  dropped : list event_payload;
}.

Definition started_reporting (now : Z) (c : CustomMetricsRegistry) : reporting :=
  {| reporter := startup now c; flights := ∅; emitted := []; sent := []; dropped := [] |}.

Definition on_event (e : TaskEvent) (x : reporting) : reporting :=
  let r := reporter x in
  let new := if is_sent (ev_kind e)
             then [_build_event_payload instance_hex stream_id (_event_sequence r + 1) e] else [] in
  let pending := _pending_events r ++ new in
  {| reporter := handle_event config instance_hex stream_id e r; flights := flights x;
     emitted := emitted x ++ new; sent := sent x;
     dropped := dropped x ++ (if is_sent (ev_kind e) then take (event_overflow config pending) pending else []) |}.

(** A flush comes to the top of its loop. *)
Definition flush_at_top (f : nat) (x : reporting) : reporting :=
  match flush_events_top config (reporter x) with
  | (Some batch, r) => {| reporter := r; flights := <[f := batch]> (flights x); emitted := emitted x;
                          sent := sent x; dropped := dropped x |}
  | (None, r) => {| reporter := r; flights := delete f (flights x); emitted := emitted x;
                    sent := sent x; dropped := dropped x |}
  end.

(** The sender took the batch of a flush, and its loop goes on. *)
Definition flush_answered (f : nat) (batch : list event_payload) (x : reporting) : reporting :=
  flush_at_top f
    {| reporter := events_sent batch (reporter x); flights := flights x; emitted := emitted x;
       sent := sent x ++ [batch]; dropped := dropped x |}.

Definition flush_failed (f : nat) (x : reporting) : reporting :=
  {| reporter := reporter x; flights := delete f (flights x); emitted := emitted x; sent := sent x;
     dropped := dropped x |}.

(** [calm]: one flush at a time, and no backpressure while it is in flight. *)
Inductive rstep (calm : bool) (x : reporting) : reporting → Prop :=
| r_event e :
    (calm = true → flights x = ∅ ∨ (length (_pending_events (reporter x)) < max_pending_events config)%nat) →
    rstep calm x (on_event e x)
| r_flush f : (calm = true → flights x = ∅) → flights x !! f = None → rstep calm x (flush_at_top f x)
| r_answered f batch : flights x !! f = Some batch → rstep calm x (flush_answered f batch x)
| r_failed f batch : flights x !! f = Some batch → rstep calm x (flush_failed f x).

Inductive rreachable (calm : bool) : reporting → Prop :=
| r_started now c : rreachable calm (started_reporting now c)
| r_next x x' : rreachable calm x → rstep calm x x' → rreachable calm x'.
End System.
