(* ===== verification/ReporterTheorems.v ===== *)
(** * What the reporter reports *)

From stdpp Require Import base gmap sets list strings numbers sorting fin_maps.
From Stdlib Require Import ZArith Lia Ascii SpecFloat.
From S2P Require Import Prelude PyFloat Value Calendar Invoke Retry Texts Codec Events Metrics Reporter.

(** ** The buffer of events *)

Section Events.
Context (config : ControlPlaneReporterConfig) (instance_hex stream_id : string).

Abbreviation handle := (handle_event config instance_hex stream_id).
Abbreviation payload := (_build_event_payload instance_hex stream_id).

Lemma handle_pending e r :
  _pending_events (handle e r)
  = if is_sent (ev_kind e)
    then let pending := _pending_events r ++ [payload (_event_sequence r + 1) e] in
         drop (event_overflow config pending) pending
    else _pending_events r.
Proof. unfold handle_event. by destruct (is_sent (ev_kind e)). Qed.

Lemma handle_sequence e r :
  _event_sequence (handle e r) = (_event_sequence r + if is_sent (ev_kind e) then 1 else 0)%Z.
Proof. unfold handle_event. destruct (is_sent (ev_kind e)); cbn; lia. Qed.

Lemma top_events r :
  let '(b, r') := flush_events_top config r in
  _pending_events r' = _pending_events r ∧ _event_sequence r' = _event_sequence r ∧
  b = match _pending_events r with [] => None | _ => Some (take (event_batch_size config) (_pending_events r)) end.
Proof. unfold flush_events_top. by destruct (_pending_events r) as [|p l] eqn:E; cbn; rewrite ?E. Qed.

(** The buffer of events never holds more than the configuration allows,
    whatever the flushes in flight do. *)
Theorem pending_events_bounded calm x :
  rreachable config instance_hex stream_id calm x →
  (length (_pending_events (reporter x)) ≤ max_pending_events config)%nat.
Proof.
  induction 1 as [now c|x x' _ IH Hstep]; [cbn; lia|].
  assert (∀ f y, length (_pending_events (reporter y)) ≤ max_pending_events config →
    length (_pending_events (reporter (flush_at_top config f y))) ≤ max_pending_events config)%nat as Htop.
  { intros f y Hy. unfold flush_at_top. pose proof (top_events (reporter y)) as Ht.
    destruct (flush_events_top config (reporter y)) as [[b|] r']; destruct Ht as (Hp & _); cbn; by rewrite Hp. }
  destruct Hstep; cbn.
  - rewrite handle_pending. destruct (is_sent (ev_kind e)); [|done]. cbn zeta.
    rewrite length_drop. unfold event_overflow. lia.
  - by apply Htop.
  - apply Htop. cbn. rewrite length_drop. lia.
  - done.
Qed.

(** ** Calm runs *)

(** The identifier of an event is that of its number. *)
Definition numbered (n : Z) (p : event_payload) : Prop :=
  ∃ k, (1 ≤ k ≤ n)%Z ∧ dict_get "event_id" p = Some (VStr (event_id instance_hex stream_id k)).

Record reported_once (x : reporting) : Prop := {
  c_split : emitted x ≡ₚ concat (sent x) ++ dropped x ++ _pending_events (reporter x);
  c_once : NoDup (emitted x);
  c_numbered : Forall (numbered (_event_sequence (reporter x))) (emitted x);
  c_sequence : (0 ≤ _event_sequence (reporter x))%Z;
}.

(** The only flight sends the head of the buffer. *)
Definition one_flight (x : reporting) : Prop :=
  ∀ f b, flights x !! f = Some b →
    flights x = {[f := b]} ∧ b = take (length b) (_pending_events (reporter x)).

Lemma event_id_inj n m :
  (0 ≤ n)%Z → (0 ≤ m)%Z → event_id instance_hex stream_id n = event_id instance_hex stream_id m → n = m.
Proof. unfold event_id. intros Hn Hm E. simplify_eq. by apply str_of_Z_inj. Qed.

Lemma on_event_calm e x :
  one_flight x → reported_once x →
  (flights x = ∅ ∨ (length (_pending_events (reporter x)) < max_pending_events config)%nat) →
  one_flight (on_event config instance_hex stream_id e x) ∧
  reported_once (on_event config instance_hex stream_id e x).
Proof.
  intros Hf [Hs Ho Hn Hq] Hcalm. unfold on_event.
  destruct (is_sent (ev_kind e)) eqn:Ek; (split; [unfold one_flight|split]); cbn; rewrite ?handle_pending, ?handle_sequence, ?Ek; cbn zeta.
  - intros f b Hb. destruct (Hf f b Hb) as [Hfl Hb']. split; [done|].
    destruct Hcalm as [Hc|Hc]; [by rewrite Hc in Hb|].
    assert (event_overflow config (_pending_events (reporter x) ++ [payload (_event_sequence (reporter x) + 1) e]) = 0)%nat
      as ->.
    { unfold event_overflow. rewrite length_app. cbn. lia. }
    rewrite drop_0, take_app_le; [done|]. rewrite Hb'. rewrite length_take. lia.
  - rewrite Hs. set (pending := _pending_events (reporter x) ++ [payload (_event_sequence (reporter x) + 1) e]).
    by rewrite <- !(assoc_L app), take_drop.
  - apply NoDup_app. split_and!; [done | | apply NoDup_singleton].
    intros p Hp Hnew%list_elem_of_singleton. subst p. rewrite Forall_forall in Hn.
    destruct (Hn _ Hp) as (k & Hk & Eid). cbn in Eid. injection Eid as Eid.
    change (event_id instance_hex stream_id (_event_sequence (reporter x) + 1) = event_id instance_hex stream_id k) in Eid.
    apply event_id_inj in Eid; lia.
  - apply Forall_app_2.
    + eapply List.Forall_impl; [|exact Hn]. intros p (k & Hk & Ep). exists k. split; [lia | done].
    + constructor; [|constructor]. eexists. split; [|reflexivity]. lia.
  - lia.
  - done.
  - by rewrite !app_nil_r.
  - by rewrite app_nil_r.
  - by rewrite app_nil_r, Z.add_0_r.
  - lia.
Qed.

Lemma take_length_take {A} n (l : list A) : take (length (take n l)) l = take n l.
Proof.
  rewrite length_take. destruct (Nat.le_gt_cases n (length l)); [by rewrite Nat.min_l|].
  rewrite Nat.min_r by lia. by rewrite !take_ge by lia.
Qed.

Lemma flush_at_top_calm f x :
  reported_once x → delete f (flights x) = ∅ →
  one_flight (flush_at_top config f x) ∧ reported_once (flush_at_top config f x).
Proof.
  intros [Hs Ho Hn Hq] Hd. unfold flush_at_top. pose proof (top_events (reporter x)) as Ht.
  destruct (flush_events_top config (reporter x)) as [b r']. destruct Ht as (Hp & He & Hb).
  assert (∀ b' : list event_payload, <[f := b']> (flights x) = {[f := b']}) as Hfl.
  { intros b'. by rewrite <- insert_delete_eq, Hd. }
  destruct b as [b|]; (split; [|split; cbn; by rewrite ?Hp, ?He]).
  - destruct (_pending_events (reporter x)) as [|p l] eqn:El; [done|]. injection Hb as ->.
    unfold one_flight. cbn [flights reporter]. rewrite Hfl, Hp.
    intros f' b' [<- <-]%lookup_singleton_Some. split; [done | by rewrite take_length_take].
  - intros f' b'. cbn. by rewrite Hd.
Qed.

Lemma step_calm x x' :
  one_flight x → reported_once x → rstep config instance_hex stream_id true x x' →
  one_flight x' ∧ reported_once x'.
Proof.
  intros Hf Hx Hstep. destruct Hstep as [e Hc|f Hc _|f b Hb|f b Hb].
  - by apply on_event_calm; [..|apply Hc].
  - apply flush_at_top_calm; [done|]. by rewrite Hc.
  - destruct (Hf f b Hb) as [Hfl Eb]. apply flush_at_top_calm.
    + destruct Hx as [Hs Ho Hn Hq]. split; cbn; try done. rewrite Hs, concat_app. cbn.
      rewrite app_nil_r, <- (take_drop (length b) (_pending_events (reporter x))) at 1.
      rewrite <- Eb. solve_Permutation.
    + cbn. rewrite Hfl. apply delete_singleton_eq.
  - destruct (Hf f b Hb) as [Hfl Eb]. destruct Hx as [Hs Ho Hn Hq]. split; [|by split].
    intros f' b'. cbn. rewrite Hfl, delete_singleton_eq. by rewrite lookup_empty.
Qed.

(** C33. When flushes do not overlap and backpressure spares the batch in
    flight, every event is in exactly one place: in a batch the sender took,
    in the buffer, or among the events that backpressure dropped. *)
Theorem events_reported_once x :
  rreachable config instance_hex stream_id true x →
  emitted x ≡ₚ concat (sent x) ++ dropped x ++ _pending_events (reporter x) ∧ NoDup (emitted x).
Proof.
  intros Hx. assert (one_flight x ∧ reported_once x) as [_ []]; [|done].
  induction Hx as [now c|x x' _ [Hf Ho] Hstep]; [|by eapply step_calm].
  split; [by intros f b|]. split; cbn; [done | constructor | constructor | done].
Qed.
End Events.

(** ** Windows *)

Section Windows.
Context (config : ControlPlaneReporterConfig) (instance_hex stream_id : string) (custom_supported : bool).

(** A counter of a bucket. *)
Definition bucket_count (k : TaskEventKind) (b : _TaskMetricsState) : Z :=
  match k with
  | EV_FETCHED => fetched b | EV_STARTED => started b | EV_SUCCEEDED => succeeded b
  | EV_RETRIED => retried b | EV_FAILED => failed b | EV_DEAD_LETTERED => dead_lettered b
  | EV_CANCELLED => cancelled b
  end.

Definition current_count (k : TaskEventKind) (task : string) (r : ControlPlaneReporter) : Z :=
  bucket_count k (default new_bucket (_metrics_by_task r !! task)).

(** The count of a task in a list of prepared windows. *)
Fixpoint window_count (k : TaskEventKind) (task : string) (ws : list task_window) : Z :=
  match ws with
  | [] => 0
  | w :: ws => ((if String.eqb (tw_name w) task then bucket_count k (tw_counts w) else 0)
                + window_count k task ws)%Z
  end.

Lemma window_count_app k task ws ws' :
  window_count k task (ws ++ ws') = (window_count k task ws + window_count k task ws')%Z.
Proof. induction ws as [|w ws IH]; cbn; [done|]. rewrite IH. lia. Qed.

Lemma counted_event k e b :
  bucket_count k (count_event e b) = (bucket_count k b + if bool_decide (ev_kind e = k) then 1 else 0)%Z.
Proof.
  unfold count_event.
  destruct (ev_kind e), k; first [rewrite bool_decide_true by done | rewrite bool_decide_false by done]; cbn; lia.
Qed.

Lemma no_activity k b : has_activity b = false → bucket_count k b = 0%Z.
Proof.
  unfold has_activity. cbn. rewrite !orb_false_iff, !negb_false_iff, !Z.eqb_eq. intros H.
  destruct k; cbn; tauto.
Qed.

Lemma current_insert k task name b r c :
  current_count k task (set_buckets (<[name := b]> (_metrics_by_task r)) c r)
  = if String.eqb name task then bucket_count k b else current_count k task r.
Proof.
  unfold current_count. cbn. destruct (String.eqb_spec name task) as [->|Hne].
  - by rewrite lookup_insert_eq.
  - by rewrite lookup_insert_ne.
Qed.

(** One task: what leaves the bucket is in the window. *)
Lemma rotate_task_conserves k task ended name r :
  let '(ws, r') := rotate_task_window custom_supported ended name r in
  (window_count k task ws + current_count k task r' = current_count k task r)%Z.
Proof.
  unfold rotate_task_window.
  destruct (if custom_supported then rotate_task name (custom_metrics r) else ([], custom_metrics r)) as [cs reg].
  set (b := default new_bucket (_metrics_by_task r !! name)).
  assert (String.eqb name task = true → current_count k task r = bucket_count k b) as Hb.
  { intros ->%String.eqb_eq. done. }
  destruct (negb (has_activity b) && _) eqn:E; rewrite current_insert; cbn [window_count tw_name tw_counts].
  - destruct (String.eqb name task) eqn:En; [|lia]. by rewrite Hb.
  - destruct (String.eqb name task) eqn:En; [|lia]. rewrite Hb by done. destruct k; cbn; lia.
Qed.

Lemma rotate_windows_conserves k task ended names r :
  let '(ws, r') := rotate_windows custom_supported ended names r in
  (window_count k task ws + current_count k task r' = current_count k task r)%Z.
Proof.
  revert r. induction names as [|name names IH]; intros r; cbn; [done|].
  pose proof (rotate_task_conserves k task ended name r) as H1.
  destruct (rotate_task_window custom_supported ended name r) as [ws r1]. specialize (IH r1).
  destruct (rotate_windows custom_supported ended names r1) as [ws' r2].
  rewrite window_count_app. lia.
Qed.

Inductive reporter_call := HandleEvent (e : TaskEvent) | RotateWindow (ended_at : Z).

(** A run, with all the windows it prepared. *)
Definition report_step (acc : list task_window * ControlPlaneReporter) (c : reporter_call)
    : list task_window * ControlPlaneReporter :=
  match c with
  | HandleEvent e => (acc.1, handle_event config instance_hex stream_id e acc.2)
  | RotateWindow t => let '(ws, r) := _rotate_metrics_window config custom_supported t acc.2 in (acc.1 ++ ws, r)
  end.

Definition handled (k : TaskEventKind) (task : string) (calls : list reporter_call) : Z :=
  Z.of_nat (length (List.filter (λ c, match c with
    | HandleEvent e => bool_decide (ev_kind e = k) && String.eqb (ev_task e) task
    | RotateWindow _ => false end) calls)).

Lemma handle_current k task e r :
  current_count k task (handle_event config instance_hex stream_id e r)
  = (current_count k task r
     + if bool_decide (ev_kind e = k) && String.eqb (ev_task e) task then 1 else 0)%Z.
Proof.
  assert (_metrics_by_task (handle_event config instance_hex stream_id e r)
    = <[ev_task e := count_event e (default new_bucket (_metrics_by_task r !! ev_task e))]> (_metrics_by_task r)) as Hm.
  { unfold handle_event. by destruct (is_sent (ev_kind e)). }
  unfold current_count. rewrite Hm. destruct (String.eqb_spec (ev_task e) task) as [->|Hne].
  - rewrite lookup_insert_eq. cbn. rewrite counted_event. by rewrite andb_true_r.
  - rewrite lookup_insert_ne by done. rewrite andb_false_r. lia.
Qed.

Lemma rotate_current k task t r :
  let '(ws, r') := _rotate_metrics_window config custom_supported t r in
  (window_count k task ws + current_count k task r' = current_count k task r)%Z.
Proof.
  unfold _rotate_metrics_window.
  pose proof (rotate_windows_conserves k task t (window_names custom_supported r) r) as H.
  destruct (rotate_windows custom_supported t (window_names custom_supported r) r) as [[|w ws] r']; done.
Qed.

(** No event is counted twice or lost at a window boundary: for each task
    and kind, the windows prepared so far and the current bucket add up to
    the events handled. *)
Theorem windows_count_events k task now custom calls :
  let '(ws, r) := foldl report_step ([], startup now custom) calls in
  (window_count k task ws + current_count k task r = handled k task calls)%Z.
Proof.
  assert (∀ ws r, let '(ws', r') := foldl report_step (ws, r) calls in
    (window_count k task ws' + current_count k task r'
     = window_count k task ws + current_count k task r + handled k task calls)%Z) as H.
  { induction calls as [|c calls IH]; intros ws r; [unfold handled; cbn; lia|]. cbn [foldl].
    destruct c as [e|t]; cbn [report_step fst snd].
    - specialize (IH ws (handle_event config instance_hex stream_id e r)).
      destruct (foldl report_step _ calls) as [ws' r']. rewrite IH, handle_current. unfold handled. cbn.
      destruct (_ && _); cbn; lia.
    - pose proof (rotate_current k task t r) as Hr.
      destruct (_rotate_metrics_window config custom_supported t r) as [ws1 r1].
      specialize (IH (ws ++ ws1) r1). destruct (foldl report_step _ calls) as [ws' r'].
      rewrite IH, window_count_app. unfold handled. cbn. lia. }
  specialize (H [] (startup now custom)). destruct (foldl report_step _ calls) as [ws r].
  rewrite H. unfold current_count. cbn. rewrite lookup_empty. destruct k; cbn; lia.
Qed.
End Windows.

(** ** Concrete runs *)

Definition job_event (k : TaskEventKind) (n : Z) : TaskEvent :=
  {| ev_kind := k; ev_app := "shop"; ev_task := "charge"; ev_source := None; ev_attempts := n;
     ev_emitted_at := 0; ev_duration_s := None; ev_failure := None; ev_meta := [] |}.

Definition small_config (batch pending : nat) : ControlPlaneReporterConfig :=
  {| event_batch_size := batch; max_pending_events := pending; max_pending_metric_batches := 2 |}.

Definition numbers (l : list event_payload) : list (option value) :=
  (λ p, dict_get "attempts" p) <$> l.

Definition event (c : ControlPlaneReporterConfig) (n : Z) (x : reporting) : reporting :=
  on_event c "i" "s" (job_event EV_STARTED n) x.

Definition three_events : reporting :=
  flush_answered (small_config 2 10) 0 [_build_event_payload "i" "s" 1 (job_event EV_STARTED 1);
                                        _build_event_payload "i" "s" 2 (job_event EV_STARTED 2)]
    (flush_at_top (small_config 2 10) 0
       (event (small_config 2 10) 3 (event (small_config 2 10) 2 (event (small_config 2 10) 1
          (started_reporting 0 empty_registry))))).

Lemma three_events_reachable : rreachable (small_config 2 10) "i" "s" true three_events.
Proof.
  unfold three_events.
  eapply r_next; [|apply r_answered; vm_compute; reflexivity].
  eapply r_next; [|apply r_flush; [intros _; vm_compute; reflexivity | vm_compute; reflexivity]].
  do 3 (eapply r_next; [|apply r_event; intros _; left; vm_compute; reflexivity]).
  apply r_started.
Qed.

Lemma events_reported_once_witness :
  length (sent three_events) = 1%nat ∧ length (_pending_events (reporter three_events)) = 1%nat ∧
  emitted three_events ≡ₚ concat (sent three_events) ++ dropped three_events
                          ++ _pending_events (reporter three_events).
Proof.
  split; [vm_compute; reflexivity|]. split; [vm_compute; reflexivity|].
  apply (events_reported_once (small_config 2 10) "i" "s" three_events), three_events_reachable.
Defined.

Lemma pending_events_bounded_witness :
  (length (_pending_events (reporter three_events)) ≤ 10)%nat.
Proof.
  apply (pending_events_bounded (small_config 2 10) "i" "s" true three_events), three_events_reachable.
Defined.

(** Backpressure while a batch is in flight: the events 1 and 2 are sent, 1 is
    also dropped, and then the two oldest events of the buffer are deleted;
    event 3 was neither sent nor dropped. *)
Example backpressure_deletes_unsent :
  let c := small_config 2 2 in
  let x := flush_at_top c 0 (event c 2 (event c 1 (started_reporting 0 empty_registry))) in
  let x := flush_answered c 0 (default [] (flights x !! 0%nat)) (event c 3 x) in
  numbers (concat (sent x)) = [Some (VInt 1); Some (VInt 2)] ∧ numbers (dropped x) = [Some (VInt 1)] ∧
  _pending_events (reporter x) = [] ∧ length (emitted x) = 3%nat.
Proof. vm_compute. done. Qed.

(** Two flushes overlap (the loop of the reporter and a command of the control
    plane): both send the events 1 and 2, the first goes on with 3 and 4 and
    fails, and the second deletes 3 and 4. *)
Example overlapping_flushes_delete_unsent :
  let c := small_config 2 10 in
  let x := event c 4 (event c 3 (event c 2 (event c 1 (started_reporting 0 empty_registry)))) in
  let x := flush_at_top c 1 (flush_at_top c 0 x) in
  let batch := default [] (flights x !! 1%nat) in
  let x := flush_answered c 1 batch (flush_failed 0 (flush_answered c 0 batch x)) in
  numbers (concat (sent x)) = [Some (VInt 1); Some (VInt 2); Some (VInt 1); Some (VInt 2)] ∧
  dropped x = [] ∧ _pending_events (reporter x) = [].
Proof. vm_compute. done. Qed.

(** A cancelled delivery stays in flight for ever: [CANCELLED] ends it and no
    other event follows. *)
Example cancelled_stays_inflight :
  let r := foldl (λ r k, handle_event (small_config 2 10) "i" "s" (job_event k 0) r)
             (startup 0 empty_registry) [EV_FETCHED; EV_STARTED; EV_CANCELLED] in
  inflight_tasks (_build_health_descriptor r) = 1%Z.
Proof. vm_compute. done. Qed.

(** A failure while a heartbeat is being sent is not reported by the next
    one. *)
Example failure_during_heartbeat_forgotten :
  let '(_, _, r) := heartbeat_begins (startup 0 empty_registry) in
  let r := heartbeat_sent (handle_event (small_config 2 10) "i" "s" (job_event EV_FAILED 0) r) in
  health_status (_build_health_descriptor r) = "ok".
Proof. vm_compute. done. Qed.

Example percentiles :
  _percentile (float_of_Z <$> [30; 10; 20]%Z) p95 = Some (float_of_Z 30) ∧
  _percentile [float_of_Z 7] p95 = Some (float_of_Z 7) ∧ _percentile [] p95 = None.
Proof. vm_compute. done. Qed.
