(* ===== verification/Ingest.v ===== *)
(** * What the control plane stores of its agents

    The tables of services, instances, task definitions, events and metric
    windows ([db/models.py] of the control plane) and the four requests that
    fill them ([api/agent_ingestion_service.py], [api/common.py],
    [api/ingestion_support.py]).  A request is one transaction: it is rolled
    back when it raises.  Requests are the values the schemas have validated;
    a custom metric is a series and its value, whose labels are compared by
    the hash [labels_hash]. *)

From stdpp Require Import base gmap sets list strings numbers.
From Stdlib Require Import ZArith Lia Ascii.
From S2P Require Import Prelude PyFloat Value Calendar.

(** ** Requests ([api/schemas.py]) *)

(** A service is known by its name and its environment. *)
Abbreviation service_key := (string * string)%type.

Record ServiceDescriptor := {
  sd_service : service_key;
  (** set in the document or not, and then null or not *)
  sd_description : option (option string);
  sd_node_name : string;
  sd_instance_id : string;
  sd_deployment_version : string;
}.

Record RuntimeDescriptor := {
  onestep_version : string;
  python_version : string;
  hostname : string;
  pid : Z;
  rt_started_at : Z;
}.

Record TaskControlStateDescriptor := {
  tc_task_name : string;
  tc_supported_commands : list string;
  tc_pause_requested : bool;
  tc_paused : bool;
  tc_accepting_new_work : bool;
  tc_runner_count : Z;
  tc_parked_runner_count : Z;
  tc_fetching_runner_count : Z;
  tc_inflight_task_count : Z;
}.

Record TaskTopologyIngest := {
  tt_name : string;
  tt_description : option string;
  tt_source : option value;
  tt_emit : list value;
  tt_concurrency : option Z;
  tt_timeout_s : option float64;
  tt_retry : option value;
}.

Record AppTopologyDescriptor := {
  ad_name : string;
  ad_shutdown_timeout_s : option float64;
  ad_topology_hash : string;
  ad_tasks : list TaskTopologyIngest;
}.

Record SyncIngestRequest := {
  sy_service : ServiceDescriptor;
  sy_sent_at : Z;
  sy_sequence : Z;
  sy_runtime : RuntimeDescriptor;
  sy_app : AppTopologyDescriptor;
}.

Record HeartbeatIngestRequest := {
  hb_service : ServiceDescriptor;
  hb_sent_at : Z;
  hb_sequence : Z;
  hb_runtime : RuntimeDescriptor;
  hb_status : string;
  hb_task_controls : list TaskControlStateDescriptor;
}.

Record CustomMetricIngest := {
  cm_name : string;
  cm_kind : string;
  cm_value : float64;
  cm_labels : list (string * string);
}.

Record TaskMetricWindowIngest := {
  tm_task_name : string;
  tm_window_id : string;
  (** fetched, started, succeeded, retried, failed, dead_lettered,
      cancelled, timeouts, inflight *)
  tm_counts : list Z;
  tm_avg_duration_ms : option float64;
  tm_p95_duration_ms : option float64;
  tm_custom_metrics : list CustomMetricIngest;
}.

Record MetricsIngestRequest := {
  me_service : ServiceDescriptor;
  me_window : Z * Z;
  me_tasks : list TaskMetricWindowIngest;
}.

Record TaskFailureDescriptor := {
  tf_kind : string;
  tf_exception_type : option string;
  tf_message : option string;
  tf_traceback : option string;
}.

Record TaskEventRecord := {
  te_event_id : string;
  te_kind : string;
  te_task_name : string;
  te_occurred_at : Z;
  te_attempts : option Z;
  te_duration_ms : option Z;
  te_failure : option TaskFailureDescriptor;
  te_meta : list (string * value);
}.

Record EventsIngestRequest := {
  ev_service : ServiceDescriptor;
  ev_events : list TaskEventRecord;
}.

(** ** Tables ([db/models.py]) *)

Record Service := {
  description : option string;
  latest_deployment_version : string;
  latest_topology_hash : option string;
  latest_sync_at : option Z;
}.

Record Instance := {
  service : service_key;
  node_name : string;
  deployment_version : string;
  runtime : option RuntimeDescriptor;
  last_sync_at : option Z;
  last_topology_hash : option string;
  app_snapshot_json : option value;
  last_sync_sent_at : option Z;
  last_sync_sequence : option Z;
  last_heartbeat_sent_at : option Z;
  last_heartbeat_sequence : option Z;
  last_seen_at : option Z;
  status : string;
}.

Record TaskEvent := {
  ev_row : TaskEventRecord;
  ev_instance : string;
  ev_of_service : service_key;
  ev_received_at : Z;
}.

Record TaskMetricWindow := {
  tw_row : TaskMetricWindowIngest;
  tw_of_service : service_key;
  tw_window : Z * Z;
  tw_received_at : Z;
}.

Record TaskCustomMetricWindow := {
  tcw_metric : CustomMetricIngest;
  tcw_of_service : service_key;
  tcw_window : Z * Z;
  tcw_received_at : Z;
}.

(** The key of a metric window: instance, task and window. *)
Abbreviation window_key := (string * string * string)%type.
(** ... and of a series in it: name, kind and the hash of its labels. *)
Abbreviation series_key := (window_key * (string * string * string))%type.

Record DB := {
  services : gmap service_key Service;
  instances : gmap string Instance;
  task_definitions : gmap (service_key * string) (TaskTopologyIngest * string);
  task_events : gmap string TaskEvent;
  task_metric_windows : gmap window_key TaskMetricWindow;
  task_custom_metric_windows : gmap series_key TaskCustomMetricWindow;
}.

Definition empty_db : DB :=
  {| services := ∅; instances := ∅; task_definitions := ∅; task_events := ∅;
     task_metric_windows := ∅; task_custom_metric_windows := ∅ |}.

Definition set_services f (d : DB) : DB :=
  {| services := f (services d); instances := instances d; task_definitions := task_definitions d;
     task_events := task_events d; task_metric_windows := task_metric_windows d;
     task_custom_metric_windows := task_custom_metric_windows d |}.
Definition set_instances f (d : DB) : DB :=
  {| services := services d; instances := f (instances d); task_definitions := task_definitions d;
     task_events := task_events d; task_metric_windows := task_metric_windows d;
     task_custom_metric_windows := task_custom_metric_windows d |}.
Definition set_task_definitions f (d : DB) : DB :=
  {| services := services d; instances := instances d; task_definitions := f (task_definitions d);
     task_events := task_events d; task_metric_windows := task_metric_windows d;
     task_custom_metric_windows := task_custom_metric_windows d |}.
Definition set_task_events f (d : DB) : DB :=
  {| services := services d; instances := instances d; task_definitions := task_definitions d;
     task_events := f (task_events d); task_metric_windows := task_metric_windows d;
     task_custom_metric_windows := task_custom_metric_windows d |}.
Definition set_metric_windows f (d : DB) : DB :=
  {| services := services d; instances := instances d; task_definitions := task_definitions d;
     task_events := task_events d; task_metric_windows := f (task_metric_windows d);
     task_custom_metric_windows := task_custom_metric_windows d |}.
Definition set_custom_windows f (d : DB) : DB :=
  {| services := services d; instances := instances d; task_definitions := task_definitions d;
     task_events := task_events d; task_metric_windows := task_metric_windows d;
     task_custom_metric_windows := f (task_custom_metric_windows d) |}.

(** [db.commit()] at the end of a request, rolled back when it raises. *)
Definition transaction {A} (m : SE DB exn A) : SE DB exn A := λ d,
  match m d with
  | (d', Ok a) => (d', Ok a)
  | (_, Err e) => (d, Err e)
  end.

(** ** Services and instances ([api/common.py]) *)

Definition http_conflict (detail : string) : exn := Exn CException "HTTPException" detail None.

(** [INSERT ... ON CONFLICT DO NOTHING]. *)
Definition insert_new `{Countable K} {A} (k : K) (a : A) (m : gmap K A) : gmap K A :=
  match m !! k with Some _ => m | None => <[k := a]> m end.

Definition ensure_service (identity : ServiceDescriptor) (update_existing_version : bool)
    : SE DB exn unit :=
  let k := sd_service identity in
  let fresh := {| description := None; latest_deployment_version := sd_deployment_version identity;
                  latest_topology_hash := None; latest_sync_at := None |} in
  _ ← se_modify (set_services (insert_new k fresh));
  if update_existing_version
  then se_modify (set_services (alter (λ s,
         {| description := description s;
            latest_deployment_version := sd_deployment_version identity;
            latest_topology_hash := latest_topology_hash s; latest_sync_at := latest_sync_at s |}) k))
  else mret ().

Definition apply_service_metadata (identity : ServiceDescriptor) : SE DB exn unit :=
  match sd_description identity with
  | None => mret ()
  | Some text =>
      se_modify (set_services (alter (λ s,
        {| description := text; latest_deployment_version := latest_deployment_version s;
           latest_topology_hash := latest_topology_hash s; latest_sync_at := latest_sync_at s |})
        (sd_service identity)))
  end.

(** [build_instance_values(service, identity)]. *)
Definition instance_stub (identity : ServiceDescriptor) : Instance :=
  {| service := sd_service identity; node_name := sd_node_name identity;
     deployment_version := sd_deployment_version identity; runtime := None; last_sync_at := None;
     last_topology_hash := None; app_snapshot_json := None; last_sync_sent_at := None;
     last_sync_sequence := None; last_heartbeat_sent_at := None; last_heartbeat_sequence := None;
     last_seen_at := None; status := "unknown" |}.

Definition ensure_instance_identity_matches (i : Instance) (identity : ServiceDescriptor)
    : result exn unit :=
  guard_else (bool_decide (service i = sd_service identity))
    (http_conflict ("instance_id is already bound to " +:+ (service i).1 +:+ "/" +:+ (service i).2
       +:+ " and cannot be reused by " +:+ (sd_service identity).1 +:+ "/" +:+ (sd_service identity).2)).

Definition ensure_instance_stub (identity : ServiceDescriptor) : SE DB exn Instance :=
  _ ← se_modify (set_instances (insert_new (sd_instance_id identity) (instance_stub identity)));
  found ← se_gets (λ d, instances d !! sd_instance_id identity);
  match found with
  | None => se_raise (runtime_error "instance insert returned no row")
  | Some i => _ ← se_lift (ensure_instance_identity_matches i identity); mret i
  end.

(** ** Snapshots *)

Definition is_newer_ingestion (last_sequence last_sent_at : option Z) (sent_at sequence : Z) : bool :=
  match last_sequence with
  | None => true
  | Some l =>
      if (l <? sequence)%Z then true
      else if (sequence <? l)%Z then false
      else match last_sent_at with
           | None => true
           | Some t => (t <? sent_at)%Z
           end
  end.

Definition is_newer_heartbeat (i : Instance) : Z → Z → bool :=
  is_newer_ingestion (last_heartbeat_sequence i) (last_heartbeat_sent_at i).
Definition is_newer_sync (i : Instance) : Z → Z → bool :=
  is_newer_ingestion (last_sync_sequence i) (last_sync_sent_at i).

(** [d[k] = v] on the items of a dict with string keys. *)
Fixpoint vdict_set (k : string) (v : value) (items : list (value * value)) : list (value * value) :=
  match items with
  | [] => [(VStr k, v)]
  | (VStr k', v') :: items =>
      if String.eqb k k' then (VStr k', v) :: items else (VStr k', v') :: vdict_set k v items
  | item :: items => item :: vdict_set k v items
  end.

Definition snapshot_items (snapshot : option value) : option (list (value * value)) :=
  match snapshot with Some (VDict items) => Some items | _ => None end.

Definition snapshot_list (key : string) (snapshot : option value) : option (list value) :=
  items ← snapshot_items snapshot;
  match vdict_get key items with Some (VList vs) => Some vs | _ => None end.

Definition is_dict (v : value) : bool := match v with VDict _ => true | _ => false end.

Definition _task_control_states_from_snapshot (snapshot : option value) : list value :=
  List.filter is_dict (default [] (snapshot_list "task_control_states" snapshot)).

(** [v.get(key)] where it is a string. *)
Definition text_member (key : string) (v : value) : option string :=
  match v with
  | VDict items => match vdict_get key items with Some (VStr s) => Some s | _ => None end
  | _ => None
  end.

Definition _task_names_from_snapshot_tasks (snapshot : option value) : option (list string) :=
  (λ vs : list value, omap (text_member "name") vs) <$> snapshot_list "tasks" snapshot.

Definition _merge_task_control_states (snapshot : option value) (states : list value) : value :=
  let merged := default [] (snapshot_items snapshot) in
  let kept := match _task_names_from_snapshot_tasks (Some (VDict merged)) with
              | None => states
              | Some names =>
                  List.filter (λ st, match text_member "task_name" st with
                                     | Some t => bool_decide (t ∈ names)
                                     | None => false
                                     end) states
              end in
  VDict (vdict_set "task_control_states" (VList kept) merged).

(** [model_dump(mode="json")] of the parts of a request that are stored. *)
Definition opt_value {A} (f : A → value) (o : option A) : value :=
  match o with Some a => f a | None => VNone end.

Definition dump_task (t : TaskTopologyIngest) : value :=
  VStrDict [("name", VStr (tt_name t)); ("description", opt_value VStr (tt_description t));
            ("source", opt_value id (tt_source t)); ("emit", VList (tt_emit t));
            ("concurrency", opt_value VInt (tt_concurrency t));
            ("timeout_s", opt_value VFloat (tt_timeout_s t)); ("retry", opt_value id (tt_retry t))].

Definition dump_app (a : AppTopologyDescriptor) : value :=
  VStrDict [("name", VStr (ad_name a)); ("shutdown_timeout_s", opt_value VFloat (ad_shutdown_timeout_s a));
            ("topology_hash", VStr (ad_topology_hash a)); ("tasks", VList (dump_task <$> ad_tasks a))].

Definition dump_control (c : TaskControlStateDescriptor) : value :=
  VStrDict [("task_name", VStr (tc_task_name c));
            ("supported_commands", VList (VStr <$> tc_supported_commands c));
            ("pause_requested", VBool (tc_pause_requested c)); ("paused", VBool (tc_paused c));
            ("accepting_new_work", VBool (tc_accepting_new_work c));
            ("runner_count", VInt (tc_runner_count c));
            ("parked_runner_count", VInt (tc_parked_runner_count c));
            ("fetching_runner_count", VInt (tc_fetching_runner_count c));
            ("inflight_task_count", VInt (tc_inflight_task_count c))].

Definition apply_heartbeat_snapshot (request : HeartbeatIngestRequest) (received_at : Z)
    (i : Instance) : Instance :=
  {| service := sd_service (hb_service request); node_name := sd_node_name (hb_service request);
     deployment_version := sd_deployment_version (hb_service request);
     runtime := Some (hb_runtime request); last_sync_at := last_sync_at i;
     last_topology_hash := last_topology_hash i;
     app_snapshot_json := Some (_merge_task_control_states (app_snapshot_json i)
                                  (dump_control <$> hb_task_controls request));
     last_sync_sent_at := last_sync_sent_at i; last_sync_sequence := last_sync_sequence i;
     last_heartbeat_sent_at := Some (hb_sent_at request);
     last_heartbeat_sequence := Some (hb_sequence request);
     last_seen_at := Some received_at; status := hb_status request |}.

Definition apply_sync_snapshot (request : SyncIngestRequest) (received_at : Z) (i : Instance) : Instance :=
  {| service := sd_service (sy_service request); node_name := sd_node_name (sy_service request);
     deployment_version := sd_deployment_version (sy_service request);
     runtime := Some (sy_runtime request); last_sync_at := Some received_at;
     last_topology_hash := Some (ad_topology_hash (sy_app request));
     app_snapshot_json := Some (_merge_task_control_states (Some (dump_app (sy_app request)))
                                  (_task_control_states_from_snapshot (app_snapshot_json i)));
     last_sync_sent_at := Some (sy_sent_at request); last_sync_sequence := Some (sy_sequence request);
     last_heartbeat_sent_at := last_heartbeat_sent_at i;
     last_heartbeat_sequence := last_heartbeat_sequence i;
     last_seen_at := last_seen_at i; status := status i |}.

(** ** The requests ([api/agent_ingestion_service.py]) *)

Definition write_instance (id : string) (f : Instance → Instance) : SE DB exn unit :=
  se_modify (set_instances (alter f id)).

(** [sync_task_definitions]: an upsert per task, and the others are deleted. *)
Definition sync_task_definitions (k : service_key) (app : AppTopologyDescriptor)
    (defs : gmap (service_key * string) (TaskTopologyIngest * string)) :=
  let incoming := tt_name <$> ad_tasks app in
  let upserted := foldl (λ m t, <[(k, tt_name t) := (t, ad_topology_hash app)]> m) defs (ad_tasks app) in
  filter (λ kv : (service_key * string) * (TaskTopologyIngest * string),
            kv.1.1 ≠ k ∨ kv.1.2 ∈ incoming) upserted.

Definition ensure_reporting (identity : ServiceDescriptor) : SE DB exn Instance :=
  _ ← ensure_service identity false;
  i ← ensure_instance_stub identity;
  _ ← se_lift (ensure_instance_identity_matches i identity);
  mret i.

Definition ingest_sync_request (request : SyncIngestRequest) (received_at : Z) : SE DB exn unit :=
  transaction (
    let identity := sy_service request in
    i ← ensure_reporting identity;
    if is_newer_sync i (sy_sent_at request) (sy_sequence request) then
      _ ← apply_service_metadata identity;
      _ ← se_modify (set_services (alter (λ s,
            {| description := description s;
               latest_deployment_version := sd_deployment_version identity;
               latest_topology_hash := Some (ad_topology_hash (sy_app request));
               latest_sync_at := Some received_at |}) (sd_service identity)));
      _ ← write_instance (sd_instance_id identity) (apply_sync_snapshot request received_at);
      se_modify (set_task_definitions (sync_task_definitions (sd_service identity) (sy_app request)))
    else mret ()).

Definition ingest_heartbeat_request (request : HeartbeatIngestRequest) (received_at : Z) : SE DB exn unit :=
  transaction (
    let identity := hb_service request in
    i ← ensure_reporting identity;
    if is_newer_heartbeat i (hb_sent_at request) (hb_sequence request) then
      _ ← apply_service_metadata identity;
      _ ← se_modify (set_services (alter (λ s,
            {| description := description s;
               latest_deployment_version := sd_deployment_version identity;
               latest_topology_hash := latest_topology_hash s; latest_sync_at := latest_sync_at s |})
            (sd_service identity)));
      write_instance (sd_instance_id identity) (apply_heartbeat_snapshot request received_at)
    else mret ()).

(** [dedupe_by_key]: the first item of each key, in order. *)
Fixpoint dedupe_from `{EqDecision K} {A} (key_fn : A → K) (seen : list K) (items : list A) : list A :=
  match items with
  | [] => []
  | x :: items => if decide (key_fn x ∈ seen) then dedupe_from key_fn seen items
                  else x :: dedupe_from key_fn (key_fn x :: seen) items
  end.

Definition dedupe_by_key `{EqDecision K} {A} (key_fn : A → K) (items : list A) : list A :=
  dedupe_from key_fn [] items.

(** [INSERT ... ON CONFLICT DO NOTHING RETURNING]: the rows that are new. *)
Fixpoint insert_rows `{Countable K} {A} (rows : list (K * A)) (m : gmap K A) : gmap K A * list K :=
  match rows with
  | [] => (m, [])
  | (k, a) :: rows =>
      match m !! k with
      | Some _ => insert_rows rows m
      | None => let '(m', ks) := insert_rows rows (<[k := a]> m) in (m', k :: ks)
      end
  end.

Section Metrics.
(** [_labels_hash]: SHA-256 of the labels. *)
Context (labels_hash : list (string * string) → string).

Definition window_of (identity : ServiceDescriptor) (t : TaskMetricWindowIngest) : window_key :=
  (sd_instance_id identity, tm_task_name t, tm_window_id t).

Definition build_custom_metric_window_payloads (request : MetricsIngestRequest) (received_at : Z)
    (t : TaskMetricWindowIngest) : list (series_key * TaskCustomMetricWindow) :=
  (λ m, ((window_of (me_service request) t, (cm_name m, cm_kind m, labels_hash (cm_labels m))),
         {| tcw_metric := m; tcw_of_service := sd_service (me_service request);
            tcw_window := me_window request; tcw_received_at := received_at |}))
    <$> tm_custom_metrics t.

Definition build_metric_window_payload (request : MetricsIngestRequest) (received_at : Z)
    (t : TaskMetricWindowIngest) : window_key * TaskMetricWindow :=
  (window_of (me_service request) t,
   {| tw_row := t; tw_of_service := sd_service (me_service request); tw_window := me_window request;
      tw_received_at := received_at |}).

Definition ingest_metrics_request (request : MetricsIngestRequest) (received_at : Z) : SE DB exn nat :=
  transaction (
    _ ← ensure_reporting (me_service request);
    let tasks := dedupe_by_key (window_of (me_service request)) (me_tasks request) in
    inserted ← se_gets (λ d, (insert_rows (build_metric_window_payload request received_at <$> tasks)
                               (task_metric_windows d)).2);
    _ ← se_modify (set_metric_windows (λ m,
          (insert_rows (build_metric_window_payload request received_at <$> tasks) m).1));
    let custom := dedupe_by_key fst
                    (mjoin (build_custom_metric_window_payloads request received_at <$> tasks)) in
    _ ← se_modify (set_custom_windows (λ m, (insert_rows custom m).1));
    mret (length inserted)).
End Metrics.

Definition build_task_event_payload (identity : ServiceDescriptor) (received_at : Z)
    (e : TaskEventRecord) : string * TaskEvent :=
  (te_event_id e, {| ev_row := e; ev_instance := sd_instance_id identity;
                     ev_of_service := sd_service identity; ev_received_at := received_at |}).

(** The ids of the events that are new; the notifications of the control
    plane are sent for these. *)
Definition ingest_events_request (request : EventsIngestRequest) (received_at : Z)
    : SE DB exn (list string) :=
  transaction (
    _ ← ensure_reporting (ev_service request);
    let events := build_task_event_payload (ev_service request) received_at
                    <$> dedupe_by_key te_event_id (ev_events request) in
    inserted ← se_gets (λ d, (insert_rows events (task_events d)).2);
    _ ← se_modify (set_task_events (λ m, (insert_rows events m).1));
    mret inserted).

(** ** The telemetry of an agent ([api/routers/agent_ws.py]) *)

Inductive request :=
| RSync (r : SyncIngestRequest)
| RHeartbeat (r : HeartbeatIngestRequest)
| RMetrics (r : MetricsIngestRequest)
| REvents (r : EventsIngestRequest).

Section History.
Context (labels_hash : list (string * string) → string).

(** A request and the ids of the events it stored. *)
Definition ingest (r : request) (now : Z) : SE DB exn (list string) :=
  match r with
  | RSync r => _ ← ingest_sync_request r now; mret []
  | RHeartbeat r => _ ← ingest_heartbeat_request r now; mret []
  | RMetrics r => _ ← ingest_metrics_request labels_hash r now; mret []
  | REvents r => ingest_events_request r now
  end.

(** The database after the requests, and the requests that were accepted
    with their answers. *)
Fixpoint serve (rs : list (request * Z)) (d : DB) : DB * list (request * Z * list string) :=
  match rs with
  | [] => (d, [])
  | (r, now) :: rs =>
      match ingest r now d with
      | (d', Ok ids) => let '(d'', accepted) := serve rs d' in (d'', (r, now, ids) :: accepted)
      | (d', Err _) => serve rs d'
      end
  end.
End History.
