(* ===== verification/IngestTheorems.v ===== *)
(** * The control plane's tables over every history of requests

    Requests arrive in any order, several times, from several instances.  An
    event is stored once, as it first arrived; a snapshot never replaces a
    newer one; an instance keeps the service it first reported. *)

From stdpp Require Import base gmap sets list strings numbers.
From Stdlib Require Import ZArith Lia Ascii.
From S2P Require Import Prelude PyFloat Value Calendar Ingest.

(** ** Histories *)

(** The rows of the events of an accepted request. *)
Definition event_rows (a : request * Z * list string) : list (string * TaskEvent) :=
  match a.1.1 with
  | REvents r => build_task_event_payload (ev_service r) a.1.2 <$> ev_events r
  | _ => []
  end.

(** The heartbeats of an instance among accepted requests. *)
Definition heartbeats_of (id : string) (accepted : list (request * Z * list string))
    : list HeartbeatIngestRequest :=
  omap (λ a : request * Z * list string,
          match a.1.1 with
          | RHeartbeat r => if decide (sd_instance_id (hb_service r) = id) then Some r else None
          | _ => None
          end) accepted.

(** ** Rows *)

Lemma insert_rows_lookup `{Countable K} {A} (rows : list (K * A)) (m : gmap K A) (k : K) :
  (insert_rows rows m).1 !! k = (m ∪ list_to_map rows) !! k.
Proof.
  rewrite lookup_union. revert m. induction rows as [|[k' a] rows IH]; intros m; cbn.
  - rewrite lookup_empty. by destruct (m !! k).
  - rewrite lookup_insert. destruct (m !! k') as [b|] eqn:E.
    + rewrite IH. case_decide as D; [|done].
      subst k'. rewrite E. by destruct (list_to_map rows !! k).
    + specialize (IH (<[k' := a]> m)). destruct (insert_rows rows (<[k' := a]> m)) as [m' ks].
      cbn in *. rewrite IH, lookup_insert. case_decide as D; [subst; rewrite E|done].
      by destruct (list_to_map rows !! k).
Qed.

Lemma insert_rows_map `{Countable K} {A} (rows : list (K * A)) (m : gmap K A) :
  (insert_rows rows m).1 = m ∪ list_to_map rows.
Proof. apply map_eq. intros k. apply insert_rows_lookup. Qed.

Lemma insert_rows_keys `{Countable K} {A} (rows : list (K * A)) (m : gmap K A) :
  NoDup (insert_rows rows m).2
  ∧ ∀ k, k ∈ (insert_rows rows m).2 ↔ m !! k = None ∧ is_Some ((insert_rows rows m).1 !! k).
Proof.
  revert m. induction rows as [|[k' a] rows IH]; intros m; cbn.
  - split; [constructor|]. intros k. rewrite elem_of_nil. split; [done|]. intros [-> []]. done.
  - destruct (m !! k') as [b|] eqn:E; [apply IH|].
    specialize (IH (<[k' := a]> m)). pose proof (insert_rows_lookup rows (<[k' := a]> m)) as L.
    destruct (insert_rows rows (<[k' := a]> m)) as [m' ks]. cbn in *.
    destruct IH as [N I]. split.
    + constructor; [|done]. rewrite I, lookup_insert_eq. by intros [].
    + intros k. rewrite elem_of_cons, I, lookup_insert. case_decide as D.
      * subst k'. split; [intros _; split; [done|] | auto].
        rewrite L, lookup_union, lookup_insert_eq. destruct (list_to_map rows !! k); eauto.
      * split; [intros [->|]; done | auto].
Qed.

Lemma dedupe_from_map `{Countable K} {A B} (key_fn : A → K) (f : A → B) seen items (k : K) :
  k ∉ seen →
  (list_to_map ((λ x, (key_fn x, f x)) <$> dedupe_from key_fn seen items) : gmap K B) !! k
  = (list_to_map ((λ x, (key_fn x, f x)) <$> items) : gmap K B) !! k.
Proof.
  revert seen. induction items as [|x items IH]; intros seen Hk; cbn; [done|].
  case_decide as D; cbn; rewrite !lookup_insert.
  - rewrite IH by done. case_decide as D'; [by subst|done].
  - case_decide as D'; [done|]. apply IH. rewrite elem_of_cons. by intros [->|].
Qed.

(** Keeping the first item of each key changes nothing for an insertion that
    keeps the first row of each key. *)
Lemma dedupe_by_key_map `{Countable K} {A B} (key_fn : A → K) (f : A → B) items :
  (list_to_map ((λ x, (key_fn x, f x)) <$> dedupe_by_key key_fn items) : gmap K B)
  = list_to_map ((λ x, (key_fn x, f x)) <$> items).
Proof. apply map_eq. intros k. apply dedupe_from_map. apply not_elem_of_nil. Qed.

(** ** The tables a request leaves alone *)

Lemma request_inv {A} (I : DB → Prop) (m : SE DB exn A) : se_inv I m → se_inv I (transaction m).
Proof. intros H d Hd. unfold transaction. specialize (H d Hd). by destruct (m d) as [d' []]. Qed.

Lemma request_ok {A} (m : SE DB exn A) d d' a : transaction m d = (d', Ok a) ↔ m d = (d', Ok a).
Proof. unfold transaction. destruct (m d) as [? []]; split; congruence. Qed.

(** ** What a request does *)

Lemma insert_new_lookup `{Countable K} {A} (k : K) (a : A) (m : gmap K A) k' :
  insert_new k a m !! k' = match m !! k' with
                           | Some b => Some b
                           | None => if decide (k = k') then Some a else None
                           end.
Proof.
  unfold insert_new. destruct (m !! k) as [b|] eqn:E.
  - case_decide; subst; [by rewrite E | by destruct (m !! k')].
  - rewrite lookup_insert. case_decide; subst; [by rewrite E | by destruct (m !! k')].
Qed.

Lemma ensure_reporting_ok identity d d' i :
  ensure_reporting identity d = (d', Ok i) →
  instances d' = insert_new (sd_instance_id identity) (instance_stub identity) (instances d)
  ∧ instances d' !! sd_instance_id identity = Some i
  ∧ service i = sd_service identity
  ∧ task_events d' = task_events d.
Proof.
  set (stub := instance_stub identity).
  assert (Hl : instances (set_instances (insert_new (sd_instance_id identity) stub) d)
                 !! sd_instance_id identity
               = Some (default stub (instances d !! sd_instance_id identity))).
  { cbn. rewrite insert_new_lookup, decide_True by done. by destruct (instances d !! _). }
  unfold ensure_reporting, ensure_service, ensure_instance_stub, ensure_instance_identity_matches.
  unfold mbind, se_bind, se_gets, se_modify, se_lift, guard_else. cbn in *.
  fold stub. rewrite Hl. case_bool_decide as Es; cbn; [|done].
  rewrite bool_decide_eq_true_2 by done. intros [= <- <-]. cbn. by rewrite Hl.
Qed.

Definition request_identity (r : request) : ServiceDescriptor :=
  match r with
  | RSync r => sy_service r
  | RHeartbeat r => hb_service r
  | RMetrics r => me_service r
  | REvents r => ev_service r
  end.

Definition instance_step (r : request) (now : Z) (i : Instance) : Instance :=
  match r with
  | RSync r => if is_newer_sync i (sy_sent_at r) (sy_sequence r) then apply_sync_snapshot r now i else i
  | RHeartbeat r =>
      if is_newer_heartbeat i (hb_sent_at r) (hb_sequence r) then apply_heartbeat_snapshot r now i else i
  | _ => i
  end.

(** An accepted request: the row of its instance, the rows of its events. *)
Definition accepted_as (r : request) (now : Z) (ids : list string) (d d' : DB) : Prop :=
  let id := sd_instance_id (request_identity r) in
  let known := insert_new id (instance_stub (request_identity r)) (instances d) in
  (∃ i, known !! id = Some i ∧ service i = sd_service (request_identity r))
  ∧ instances d' = alter (instance_step r now) id known
  ∧ task_events d' = task_events d ∪ list_to_map (event_rows (r, now, ids))
  ∧ NoDup ids
  ∧ ∀ k, k ∈ ids ↔ task_events d !! k = None ∧ is_Some (task_events d' !! k).

Lemma accepted_quiet r now d d' i :
  let id := sd_instance_id (request_identity r) in
  let known := insert_new id (instance_stub (request_identity r)) (instances d) in
  known !! id = Some i → service i = sd_service (request_identity r) →
  instances d' = alter (instance_step r now) id known →
  event_rows (r, now, []) = [] → task_events d' = task_events d → accepted_as r now [] d d'.
Proof.
  cbv zeta. intros Hl Hs Hi Hr He. split; [by exists i|]. split; [done|]. rewrite Hr, He.
  split; [symmetry; apply (right_id_L ∅ (∪))|]. split; [constructor|].
  intros k. rewrite elem_of_nil. split; [done|]. intros [-> []]. done.
Qed.

Section Effects.
Context (labels_hash : list (string * string) → string).

Lemma ingest_sync_ok r now d d' :
  ingest_sync_request r now d = (d', Ok ()) → accepted_as (RSync r) now [] d d'.
Proof.
  unfold ingest_sync_request. rewrite request_ok, se_bind_ok. intros (d1 & i & Hr & Hb).
  apply ensure_reporting_ok in Hr as (Hi & Hl & Hs & He). rewrite Hi in Hl. cbn in *.
  assert (E : instances d' = alter (instance_step (RSync r) now) (sd_instance_id (sy_service r)) (instances d1)
              ∧ task_events d' = task_events d1).
  { destruct (is_newer_sync i (sy_sent_at r) (sy_sequence r)) eqn:N.
    - unfold apply_service_metadata in Hb. revert Hb.
      destruct (sd_description (sy_service r)); intros [= <-]; cbn; (split; [|done]);
        apply alter_ext; intros i'; rewrite Hi, Hl; intros [= <-]; cbn; by rewrite N.
    - injection Hb as <-. split; [|done]. symmetry. apply alter_id. intros i'. rewrite Hi, Hl.
      intros [= <-]. cbn. by rewrite N. }
  destruct E as [E1 E2]. eapply accepted_quiet; [done| |by rewrite E1, Hi|done|by rewrite E2]. done.
Qed.

Lemma ingest_heartbeat_ok r now d d' :
  ingest_heartbeat_request r now d = (d', Ok ()) → accepted_as (RHeartbeat r) now [] d d'.
Proof.
  unfold ingest_heartbeat_request. rewrite request_ok, se_bind_ok. intros (d1 & i & Hr & Hb).
  apply ensure_reporting_ok in Hr as (Hi & Hl & Hs & He). rewrite Hi in Hl. cbn in *.
  assert (E : instances d' = alter (instance_step (RHeartbeat r) now) (sd_instance_id (hb_service r)) (instances d1)
              ∧ task_events d' = task_events d1).
  { destruct (is_newer_heartbeat i (hb_sent_at r) (hb_sequence r)) eqn:N.
    - unfold apply_service_metadata in Hb. revert Hb.
      destruct (sd_description (hb_service r)); intros [= <-]; cbn; (split; [|done]);
        apply alter_ext; intros i'; rewrite Hi, Hl; intros [= <-]; cbn; by rewrite N.
    - injection Hb as <-. split; [|done]. symmetry. apply alter_id. intros i'. rewrite Hi, Hl.
      intros [= <-]. cbn. by rewrite N. }
  destruct E as [E1 E2]. eapply accepted_quiet; [done| |by rewrite E1, Hi|done|by rewrite E2]. done.
Qed.

Lemma ingest_metrics_ok r now d d' n :
  ingest_metrics_request labels_hash r now d = (d', Ok n) → accepted_as (RMetrics r) now [] d d'.
Proof.
  unfold ingest_metrics_request. rewrite request_ok, se_bind_ok. intros (d1 & i & Hr & Hb).
  apply ensure_reporting_ok in Hr as (Hi & Hl & Hs & He). rewrite Hi in Hl. injection Hb as <- _.
  eapply accepted_quiet; [done|done| |done|done]. cbn. rewrite Hi. symmetry. by apply alter_id.
Qed.

Lemma ingest_events_ok r now d d' ids :
  ingest_events_request r now d = (d', Ok ids) → accepted_as (REvents r) now ids d d'.
Proof.
  unfold ingest_events_request. rewrite request_ok, se_bind_ok. intros (d1 & i & Hr & Hb).
  apply ensure_reporting_ok in Hr as (Hi & Hl & Hs & He). rewrite Hi in Hl. injection Hb as <- <-.
  split; [by exists i|]. split; [cbn; rewrite Hi; symmetry; by apply alter_id|]. cbn.
  rewrite He. split; [|apply insert_rows_keys]. rewrite insert_rows_map. f_equal. apply dedupe_by_key_map.
Qed.

Lemma ingest_ok r now d d' ids : ingest labels_hash r now d = (d', Ok ids) → accepted_as r now ids d d'.
Proof.
  destruct r as [r|r|r|r]; cbn; [| | |apply ingest_events_ok]; rewrite se_bind_ok;
    intros (d1 & a & H & [= <- <-]); try destruct a.
  - by apply ingest_sync_ok.
  - by apply ingest_heartbeat_ok.
  - by eapply ingest_metrics_ok.
  - by eapply ingest_metrics_ok.
Qed.

(** A refused request changes nothing. *)
Lemma ingest_err r now d d' e : ingest labels_hash r now d = (d', Err e) → d' = d.
Proof.
  assert (T : ∀ A (m : SE DB exn A) e', transaction m d = (d', Err e') → d' = d)
    by (intros A m e'; unfold transaction; destruct (m d) as [? []]; congruence).
  destruct r as [r|r|r|r]; cbn; [| | |apply T]; unfold mbind, se_bind;
    (case_match eqn:E; case_match; [done|intros [= <- <-]; by eapply T]).
Qed.
End Effects.

(** ** Events are stored once *)

Section Theorems.
Context (labels_hash : list (string * string) → string).

Lemma serve_events rs d :
  let '(d', accepted) := serve labels_hash rs d in
  task_events d' = task_events d ∪ list_to_map (accepted ≫= event_rows)
  ∧ NoDup (accepted ≫= snd)
  ∧ ∀ k, k ∈ accepted ≫= snd ↔ task_events d !! k = None ∧ is_Some (task_events d' !! k).
Proof.
  revert d. induction rs as [|[r now] rs IH]; intros d; cbn.
  - split; [by rewrite (right_id_L ∅ (∪))|]. split; [constructor|]. intros k. rewrite elem_of_nil.
    split; [done|]. intros [-> []]. done.
  - destruct (ingest labels_hash r now d) as [d1 [ids|e]] eqn:E.
    + apply ingest_ok in E as (_ & _ & U & N & I). specialize (IH d1).
      destruct (serve labels_hash rs d1) as [d2 acc]. destruct IH as (U2 & N2 & I2). cbn in *.
      split; [by rewrite U2, U, list_to_map_app, (assoc_L (∪))|]. split.
      * apply list.NoDup_app. split; [done|]. split; [|done]. intros k Hk Hk2.
        apply I in Hk as [_ [x Hx]]. apply I2 in Hk2 as [Hk2 _]. by rewrite Hx in Hk2.
      * intros k. rewrite elem_of_app, I, I2, U2, lookup_union, U, lookup_union.
        destruct (task_events d !! k), (list_to_map (event_rows (r, now, ids)) !! k) eqn:El,
          (list_to_map (acc ≫= event_rows) !! k); cbn; intuition (done || eauto).
    + apply ingest_err in E as ->. apply IH.
Qed.

(** C28. Whatever requests arrive, in whatever order and however often: the
    table of events holds, under each event id, the event as it first
    arrived in an accepted request, and each stored event was reported new
    to exactly one request (for which notifications are sent). *)
Theorem events_stored_once (rs : list (request * Z)) :
  let '(d, accepted) := serve labels_hash rs empty_db in
  task_events d = list_to_map (accepted ≫= event_rows)
  ∧ NoDup (accepted ≫= snd)
  ∧ ∀ id, id ∈ accepted ≫= snd ↔ is_Some (task_events d !! id).
Proof.
  pose proof (serve_events rs empty_db) as H.
  destruct (serve labels_hash rs empty_db) as [d acc]. destruct H as (U & N & I).
  split; [by etrans; [exact U | apply (left_id_L ∅ (∪))]|]. split; [done|].
  intros id. rewrite I. cbn. rewrite lookup_empty. tauto.
Qed.

(** ** The newest snapshot wins *)

Definition stamp_le (a b : Z * Z) : Prop := (a.1 < b.1 ∨ a.1 = b.1 ∧ a.2 ≤ b.2)%Z.

(** One of [xs], with no newer one among them. *)
Definition newest_of {A} (stamp : A → Z * Z) (xs : list A) (x : A) : Prop :=
  x ∈ xs ∧ ∀ y, y ∈ xs → stamp_le (stamp y) (stamp x).

Definition heartbeat_stamp (r : HeartbeatIngestRequest) : Z * Z := (hb_sequence r, hb_sent_at r).

(** The instance shows the newest of the heartbeats. *)
Definition shows (hs : list HeartbeatIngestRequest) (i : Instance) : Prop :=
  match last_heartbeat_sequence i with
  | None => hs = []
  | Some n => ∃ w t, newest_of heartbeat_stamp hs w ∧ heartbeat_stamp w = (n, t)
                     ∧ last_heartbeat_sent_at i = Some t ∧ status i = hb_status w
  end.

Lemma newest_of_one {A} (stamp : A → Z * Z) x : newest_of stamp [x] x.
Proof. split; [by left|]. intros y ->%list_elem_of_singleton. right. lia. Qed.

Lemma newest_of_newer {A} (stamp : A → Z * Z) xs x w :
  newest_of stamp xs w → stamp_le (stamp w) (stamp x) → newest_of stamp (xs ++ [x]) x.
Proof.
  intros [_ Hm] Hle. split; [apply elem_of_app; right; by left|].
  intros y [Hy | ->%list_elem_of_singleton]%elem_of_app; [|right; lia].
  specialize (Hm y Hy). unfold stamp_le in *. lia.
Qed.

Lemma newest_of_older {A} (stamp : A → Z * Z) xs x w :
  newest_of stamp xs w → stamp_le (stamp x) (stamp w) → newest_of stamp (xs ++ [x]) w.
Proof.
  intros [Hw Hm] Hle. split; [apply elem_of_app; by left|].
  by intros y [Hy | ->%list_elem_of_singleton]%elem_of_app; [apply Hm|].
Qed.

Lemma shows_heartbeat r now hs i :
  shows hs i → shows (hs ++ [r]) (instance_step (RHeartbeat r) now i).
Proof.
  unfold shows, instance_step, is_newer_heartbeat, is_newer_ingestion.
  destruct (last_heartbeat_sequence i) as [n|] eqn:En.
  - intros (w & t & Hw & Es & Et & Eu). rewrite Et.
    assert (Hold : stamp_le (heartbeat_stamp r) (heartbeat_stamp w) →
      ∃ w' t', newest_of heartbeat_stamp (hs ++ [r]) w' ∧ heartbeat_stamp w' = (n, t')
               ∧ Some t = Some t' ∧ status i = hb_status w').
    { intros Hle. exists w, t. split; [by apply newest_of_older|done]. }
    assert (Hnew : stamp_le (heartbeat_stamp w) (heartbeat_stamp r) →
      ∃ w' t', newest_of heartbeat_stamp (hs ++ [r]) w' ∧ heartbeat_stamp w' = (hb_sequence r, t')
               ∧ Some (hb_sent_at r) = Some t' ∧ hb_status r = hb_status w').
    { intros Hle. exists r, (hb_sent_at r). split; [by eapply newest_of_newer|done]. }
    rewrite Es in Hold, Hnew. unfold stamp_le, heartbeat_stamp in Hold, Hnew. cbn in Hold, Hnew.
    destruct (n <? hb_sequence r)%Z eqn:E1; cbn; [zbool; apply Hnew; lia|].
    destruct (hb_sequence r <? n)%Z eqn:E2; [rewrite En, Et; zbool; apply Hold; lia|].
    destruct (t <? hb_sent_at r)%Z eqn:E3; cbn; [zbool; apply Hnew; lia|].
    rewrite En, Et. zbool. apply Hold. lia.
  - intros ->. cbn. exists r, (hb_sent_at r). split; [apply newest_of_one|done].
Qed.

(** The other requests leave these columns alone. *)
Lemma shows_other r now hs i :
  heartbeats_of (sd_instance_id (request_identity r)) [(r, now, [])] = [] →
  shows hs i → shows hs (instance_step r now i).
Proof.
  destruct r as [r|r|r|r]; cbn; [|by rewrite decide_True by done|done|done].
  intros _ H. by destruct (is_newer_sync _ _ _).
Qed.

Definition known_shows (id : string) (d : DB) (hs : list HeartbeatIngestRequest) : Prop :=
  match instances d !! id with
  | None => hs = []
  | Some i => shows hs i
  end.

Lemma ingest_shows id r now ids d d' hs :
  accepted_as r now ids d d' → known_shows id d hs →
  known_shows id d' (hs ++ heartbeats_of id [(r, now, ids)]).
Proof.
  intros ([i [Hi _]] & Ei & _) H. unfold known_shows in *. rewrite Ei, lookup_alter.
  revert Hi. set (m := insert_new _ _ _). case_decide as D.
  - subst id. intros Hi. rewrite Hi. cbn.
    assert (Hs : shows hs i).
    { subst m. revert Hi H. rewrite insert_new_lookup, decide_True by done.
      destruct (instances d !! _); [by intros [= ->]|]. by intros [= <-] ->. }
    destruct r as [r|r|r|r]; cbn [heartbeats_of omap]; cbn; rewrite ?app_nil_r; try done.
    + by apply (shows_other (RSync r) now).
    + rewrite decide_True by done. by apply shows_heartbeat.
  - intros _. subst m. rewrite insert_new_lookup, decide_False by done.
    assert (En : heartbeats_of id [(r, now, ids)] = []).
    { destruct r as [r|r|r|r]; cbn in *; [done| |done|done]. by rewrite decide_False. }
    rewrite En, app_nil_r. by destruct (instances d !! id).
Qed.

Lemma serve_shows id rs d hs :
  known_shows id d hs →
  let '(d', accepted) := serve labels_hash rs d in
  known_shows id d' (hs ++ heartbeats_of id accepted).
Proof.
  revert d hs. induction rs as [|[r now] rs IH]; intros d hs H; cbn; [by rewrite app_nil_r|].
  destruct (ingest labels_hash r now d) as [d1 [ids|e]] eqn:E.
  - apply ingest_ok in E. pose proof (ingest_shows id r now ids d d1 hs E H) as H1.
    specialize (IH d1 _ H1). destruct (serve labels_hash rs d1) as [d2 acc].
    rewrite <- (assoc_L (++)) in IH. unfold heartbeats_of in *. by rewrite <- omap_app in IH.
  - apply ingest_err in E as ->. by apply IH.
Qed.

(** Heartbeats may be delayed, duplicated and reordered, from every
    connection of an instance: the instance shows the status of the newest
    of the accepted ones, by sequence number and then by sending time. *)
Theorem newest_heartbeat_wins (rs : list (request * Z)) (id : string) (i : Instance) :
  instances (serve labels_hash rs empty_db).1 !! id = Some i →
  let hs := heartbeats_of id (serve labels_hash rs empty_db).2 in
  match last_heartbeat_sequence i with
  | None => hs = []
  | Some n => ∃ w t, newest_of heartbeat_stamp hs w ∧ heartbeat_stamp w = (n, t)
                     ∧ last_heartbeat_sent_at i = Some t ∧ status i = hb_status w
  end.
Proof.
  intros Hi. pose proof (serve_shows id rs empty_db [] eq_refl) as H.
  destruct (serve labels_hash rs empty_db) as [d acc]. cbn in *.
  unfold known_shows in H. by rewrite Hi in H.
Qed.

(** ** An instance keeps its service *)

Lemma instance_step_service r now i :
  service i = sd_service (request_identity r) → service (instance_step r now i) = service i.
Proof.
  destruct r as [r|r|r|r]; cbn; [| |done|done]; intros H.
  - by destruct (is_newer_sync _ _ _).
  - by destruct (is_newer_heartbeat _ _ _).
Qed.

(** The row of instance [id] exists and belongs to service [k]. *)
Definition belongs (d : DB) (id : string) (k : service_key) : Prop :=
  ∃ i, instances d !! id = Some i ∧ service i = k.

Lemma accepted_belongs r now ids d d' :
  accepted_as r now ids d d' →
  belongs d' (sd_instance_id (request_identity r)) (sd_service (request_identity r))
  ∧ ∀ id k, belongs d id k → belongs d' id k.
Proof.
  intros ((i & Hi & Hs) & Ei & _). unfold belongs. rewrite Ei. split.
  - exists (instance_step r now i). rewrite lookup_alter_eq, Hi. split; [done|].
    by rewrite instance_step_service.
  - intros id k (j & Hj & Ej). rewrite lookup_alter. case_decide as D.
    + subst id. revert Hi. rewrite insert_new_lookup, Hj. intros [= ->].
      exists (instance_step r now i). split; [done|]. by rewrite instance_step_service.
    + exists j. by rewrite insert_new_lookup, Hj.
Qed.

Lemma serve_belongs rs d :
  let '(d', accepted) := serve labels_hash rs d in
  (∀ id k, belongs d id k → belongs d' id k)
  ∧ ∀ a, a ∈ accepted →
      belongs d' (sd_instance_id (request_identity a.1.1)) (sd_service (request_identity a.1.1)).
Proof.
  revert d. induction rs as [|[r now] rs IH]; intros d; cbn.
  - split; [done|]. intros a Ha. by apply elem_of_nil in Ha.
  - destruct (ingest labels_hash r now d) as [d1 [ids|e]] eqn:E.
    + apply ingest_ok, accepted_belongs in E as [Eo Ek]. specialize (IH d1).
      destruct (serve labels_hash rs d1) as [d2 acc]. destruct IH as [IHk IHa]. split; [auto|].
      intros a [-> | Ha]%elem_of_cons; [by apply IHk | by apply IHa].
    + apply ingest_err in E as ->. apply IH.
Qed.

(** The accepted requests of one instance are all of one service: its id
    cannot be taken over by another service. *)
Theorem instance_keeps_service (rs : list (request * Z)) (a b : request * Z * list string) :
  a ∈ (serve labels_hash rs empty_db).2 → b ∈ (serve labels_hash rs empty_db).2 →
  sd_instance_id (request_identity a.1.1) = sd_instance_id (request_identity b.1.1) →
  sd_service (request_identity a.1.1) = sd_service (request_identity b.1.1).
Proof.
  pose proof (serve_belongs rs empty_db) as H.
  destruct (serve labels_hash rs empty_db) as [d acc]. destruct H as [_ H]. cbn.
  intros (i & Hi & Ei)%H (j & Hj & Ej)%H Eid. rewrite Eid in Hi. congruence.
Qed.

(** A heartbeat with a lower sequence number leaves no trace, not even in
    the time the instance was last seen. *)
Lemma lower_sequence_ignored r now d i n :
  instances d !! sd_instance_id (hb_service r) = Some i → service i = sd_service (hb_service r) →
  last_heartbeat_sequence i = Some n → (hb_sequence r < n)%Z →
  ∃ d', ingest_heartbeat_request r now d = (d', Ok ()) ∧ instances d' = instances d.
Proof.
  intros Hi Hs Hn Hlt.
  assert (N : is_newer_heartbeat i (hb_sent_at r) (hb_sequence r) = false).
  { unfold is_newer_heartbeat, is_newer_ingestion. rewrite Hn.
    destruct (n <? hb_sequence r)%Z eqn:E1; [zbool; lia|]. by rewrite (proj2 (Z.ltb_lt _ _) Hlt). }
  destruct (ingest_heartbeat_request r now d) as [d' [[]|e]] eqn:E.
  - exists d'. split; [done|]. apply ingest_heartbeat_ok in E as (_ & -> & _).
    unfold insert_new. cbn. rewrite Hi. apply alter_id. intros j. rewrite Hi. intros [= <-].
    cbn. by rewrite N.
  - exfalso. revert E. unfold ingest_heartbeat_request, transaction, ensure_reporting, ensure_service,
      ensure_instance_stub, ensure_instance_identity_matches, insert_new.
    unfold mbind, se_bind, se_gets, se_modify, se_lift, guard_else. cbn. rewrite Hi. cbn. rewrite Hi.
    rewrite bool_decide_eq_true_2 by done. cbn. rewrite bool_decide_eq_true_2 by done. cbn. by rewrite N.
Qed.
End Theorems.

(** ** On concrete requests *)

Definition demo_service (id : string) : ServiceDescriptor :=
  {| sd_service := ("billing", "prod"); sd_description := None; sd_node_name := "n1";
     sd_instance_id := id; sd_deployment_version := "v1" |}.

Definition demo_runtime : RuntimeDescriptor :=
  {| onestep_version := "1.0"; python_version := "3.12"; hostname := "h"; pid := 7; rt_started_at := 0 |}.

Definition demo_heartbeat (id : string) (sequence sent_at : Z) (text : string) : HeartbeatIngestRequest :=
  {| hb_service := demo_service id; hb_sent_at := sent_at; hb_sequence := sequence;
     hb_runtime := demo_runtime; hb_status := text; hb_task_controls := [] |}.

Definition demo_event (id : string) : TaskEventRecord :=
  {| te_event_id := id; te_kind := "succeeded"; te_task_name := "t"; te_occurred_at := 0;
     te_attempts := Some 0%Z; te_duration_ms := None; te_failure := None; te_meta := [] |}.

Definition demo_first : request * Z := (RHeartbeat (demo_heartbeat "i" 2 20 "degraded"), 25%Z).
Definition demo_last : request * Z :=
  (REvents {| ev_service := demo_service "i"; ev_events := [demo_event "b"; demo_event "c"] |}, 32%Z).

(** Heartbeats out of order, events sent twice, another service with the
    same instance id. *)
Definition demo_requests : list (request * Z) :=
  [demo_first;
   (REvents {| ev_service := demo_service "i"; ev_events := [demo_event "a"; demo_event "b"; demo_event "a"] |}, 26%Z);
   (RHeartbeat (demo_heartbeat "i" 1 10 "ok"), 30%Z);
   (REvents {| ev_service := {| sd_service := ("other", "prod"); sd_description := None; sd_node_name := "n";
                                sd_instance_id := "i"; sd_deployment_version := "v" |};
               ev_events := [demo_event "z"] |}, 31%Z);
   demo_last].

Example demo_answers :
  (serve (λ _, "") demo_requests empty_db).2.*2 = [[]; ["a"; "b"]; []; ["c"]].
Proof. reflexivity. Qed.

Lemma newest_heartbeat_wins_witness :
  ∃ i, instances (serve (λ _, "") demo_requests empty_db).1 !! "i" = Some i
       ∧ ∃ w t, newest_of heartbeat_stamp (heartbeats_of "i" (serve (λ _, "") demo_requests empty_db).2) w
                ∧ heartbeat_stamp w = (2%Z, t) ∧ last_heartbeat_sent_at i = Some t ∧ status i = hb_status w.
Proof.
  eexists. split; [reflexivity|].
  apply (newest_heartbeat_wins (λ _, "") demo_requests "i" _ eq_refl).
Defined.

Lemma instance_keeps_service_witness :
  ∃ a b, a ∈ (serve (λ _, "") demo_requests empty_db).2
         ∧ b ∈ (serve (λ _, "") demo_requests empty_db).2
         ∧ sd_service (request_identity a.1.1) = sd_service (request_identity b.1.1).
Proof.
  exists (demo_first, []), (demo_last, ["c"]).
  assert (Ha : (demo_first, []) ∈ (serve (λ _, "") demo_requests empty_db).2)
    by (vm_compute; apply list_elem_of_here).
  assert (Hb : (demo_last, ["c"]) ∈ (serve (λ _, "") demo_requests empty_db).2)
    by (vm_compute; do 3 apply list_elem_of_further; apply list_elem_of_here).
  split; [exact Ha|]. split; [exact Hb|].
  exact (instance_keeps_service (λ _, "") demo_requests _ _ Ha Hb eq_refl).
Defined.

(** A process that restarts under the same instance id with sequence numbers
    from one (a reporter without a state directory) is not heard until it
    has sent more heartbeats than its predecessor. *)
Example restarted_instance_unheard :
  let rs := [(RHeartbeat (demo_heartbeat "i" 1 10 "ok"), 10%Z);
             (RHeartbeat (demo_heartbeat "i" 2 20 "ok"), 20%Z);
             (RHeartbeat (demo_heartbeat "i" 3 30 "ok"), 30%Z);
             (RHeartbeat (demo_heartbeat "i" 1 1010 "degraded"), 1010%Z);
             (RHeartbeat (demo_heartbeat "i" 2 1020 "degraded"), 1020%Z)] in
  (λ i, (last_seen_at i, status i)) <$> instances (serve (λ _, "") rs empty_db).1 !! "i"
  = Some (Some 30%Z, "ok").
Proof. reflexivity. Qed.
