(* ===== verification/Commands.v ===== *)
(** * Commands of the control plane: requests, tables and handlers

    An operator asks the control plane for a command on an instance
    ([api/schemas.py], [api/agent_command_service.py]); it is stored, sent
    over the WebSocket of the instance if there is one, acknowledged and
    answered by the agent ([api/routers/agent_ws.py]).  Every function below
    runs between two awaits: [send_queue.put] on an unbounded queue and the
    locks of the registry never suspend.  A column for [timeout_s] holds 32
    bits, so that a deadline is in the range of [datetime]. *)

From stdpp Require Import base gmap sets list strings numbers sorting.
From Stdlib Require Import ZArith Lia Ascii SpecFloat.
From S2P Require Import Prelude PyFloat Value Calendar Ingest.

(** ** Kinds and requests ([api/schemas.py]) *)

Inductive AgentCommandKind :=
| Kping | Kshutdown | Krestart | Kdrain | Kpause_task | Kresume_task | Krestart_task
| Kdiscard_dead_letters | Kreplay_dead_letters | Krun_task_once
| Ksync_now | Kflush_metrics | Kflush_events.

#[global] Instance AgentCommandKind_eq_dec : EqDecision AgentCommandKind.
Proof. solve_decision. Defined.

Definition kind_text (k : AgentCommandKind) : string :=
  match k with
  | Kping => "ping" | Kshutdown => "shutdown" | Krestart => "restart" | Kdrain => "drain"
  | Kpause_task => "pause_task" | Kresume_task => "resume_task" | Krestart_task => "restart_task"
  | Kdiscard_dead_letters => "discard_dead_letters" | Kreplay_dead_letters => "replay_dead_letters"
  | Krun_task_once => "run_task_once" | Ksync_now => "sync_now"
  | Kflush_metrics => "flush_metrics" | Kflush_events => "flush_events"
  end.

Definition COMMAND_CAPABILITY_BY_KIND (k : AgentCommandKind) : string := "command." +:+ kind_text k.

Definition TASK_SCOPED_COMMAND_KINDS : list AgentCommandKind :=
  [Kpause_task; Kresume_task; Krestart_task; Kdiscard_dead_letters; Kreplay_dead_letters; Krun_task_once].

Definition REASON_REQUIRED_COMMAND_KINDS : list AgentCommandKind :=
  [Kshutdown; Krestart; Kdrain; Kpause_task; Kresume_task; Krestart_task; Kdiscard_dead_letters;
   Kreplay_dead_letters; Krun_task_once].

Definition LIVE_ONLY_COMMAND_KINDS : list AgentCommandKind :=
  [Kshutdown; Krestart; Kdrain; Kpause_task; Kresume_task; Kdiscard_dead_letters; Kreplay_dead_letters;
   Krun_task_once].

(** [isinstance(v, str) and v.strip()], stripped. *)
Definition nonblank (v : option value) : option string :=
  match v with
  | Some (VStr s) => if str_nonempty (strip s) then Some (strip s) else None
  | _ => None
  end.

Definition _normalize_task_command_args (kind : AgentCommandKind) (args : list (string * value))
    (require_task_name : bool) : result exn (list (string * value)) :=
  if decide (kind ∈ TASK_SCOPED_COMMAND_KINDS) then
    let task_name := nonblank (dict_get "task_name" args) in
    _ ← guard_else (negb require_task_name || bool_decide (is_Some task_name))
          (value_error ("args.task_name is required when kind=" +:+ kind_text kind));
    let args := match task_name with Some t => dict_set "task_name" (VStr t) args | None => args end in
    _ ← match dict_get "limit" args with
        | Some limit =>
            guard_else (negb (bool_decide (kind ∈ [Kdiscard_dead_letters; Kreplay_dead_letters]))
                        || match limit with VInt n => (1 <=? n)%Z | _ => false end)
              (value_error ("args.limit must be a positive integer when kind=" +:+ kind_text kind))
        | None => Ok ()
        end;
    _ ← guard_else (negb (bool_decide (kind = Krun_task_once))
                    || match dict_get "payload" args with Some (VDict _) => true | _ => false end)
          (value_error "args.payload must be a JSON object when kind=run_task_once");
    Ok args
  else Ok args.

Inductive AgentCommandDeliveryMode := dispatch_now_only | queue_until_reconnect.

Record AgentCommandCreateRequest := {
  rq_kind : AgentCommandKind;
  rq_args : list (string * value);
  rq_timeout_s : Z;
  rq_delivery_mode : AgentCommandDeliveryMode;
  rq_reason : option string;
}.

(** The validators of a request. *)
Definition normalize_reason (r : option string) : option string :=
  s ← r; if str_nonempty (strip s) then Some (strip s) else None.

Definition long_enough (n : nat) (s : string) : bool := (length (str_to_list s) <=? n)%nat.

Definition validated_request (kind : AgentCommandKind) (args : list (string * value)) (timeout_s : Z)
    (delivery_mode : AgentCommandDeliveryMode) (reason : option string)
    : result exn AgentCommandCreateRequest :=
  _ ← guard_else (1 <=? timeout_s)%Z (value_error "timeout_s");
  let reason := normalize_reason reason in
  _ ← guard_else (match reason with Some s => long_enough 2000 s | None => true end) (value_error "reason");
  args ← _normalize_task_command_args kind args true;
  _ ← guard_else (negb (bool_decide (kind ∈ REASON_REQUIRED_COMMAND_KINDS)) || bool_decide (is_Some reason))
        (value_error ("reason is required when kind=" +:+ kind_text kind));
  _ ← guard_else (negb (bool_decide (kind ∈ LIVE_ONLY_COMMAND_KINDS))
                  || match delivery_mode with dispatch_now_only => true | _ => false end)
        (value_error ("delivery_mode=queue_until_reconnect is not supported when kind=" +:+ kind_text kind));
  Ok {| rq_kind := kind; rq_args := args; rq_timeout_s := timeout_s; rq_delivery_mode := delivery_mode;
        rq_reason := reason |}.

Inductive ServiceCommandTargetMode := all_online | selected_instances.
Inductive ServiceCommandOfflineBehavior := offline_skip | offline_queue.

Record ServiceCommandFanoutRequest := {
  fr_kind : AgentCommandKind;
  fr_args : list (string * value);
  fr_timeout_s : Z;
  fr_reason : string;
  fr_target_mode : ServiceCommandTargetMode;
  fr_target_instance_ids : list string;
  fr_offline_behavior : ServiceCommandOfflineBehavior;
}.

Definition validated_fanout (kind : AgentCommandKind) (args : list (string * value)) (timeout_s : Z)
    (reason : string) (mode : ServiceCommandTargetMode) (targets : list string)
    (offline : ServiceCommandOfflineBehavior) : result exn ServiceCommandFanoutRequest :=
  _ ← guard_else (negb (bool_decide (kind = Kshutdown))) (value_error "kind");
  _ ← guard_else (1 <=? timeout_s)%Z (value_error "timeout_s");
  let reason := strip reason in
  _ ← guard_else (str_nonempty reason && long_enough 2000 reason) (value_error "reason must not be blank");
  args ← _normalize_task_command_args kind args true;
  _ ← guard_else (negb (bool_decide (kind ∈ LIVE_ONLY_COMMAND_KINDS))
                  || match offline with offline_skip => true | _ => false end)
        (value_error ("offline_behavior=queue is not supported when kind=" +:+ kind_text kind));
  _ ← match mode with
      | selected_instances => guard_else (negb (bool_decide (targets = [])))
          (value_error "target_instance_ids must be provided when target_mode=selected_instances")
      | all_online => guard_else (bool_decide (targets = []))
          (value_error "target_instance_ids must be empty when target_mode=all_online")
      end;
  _ ← guard_else (bool_decide (NoDup targets)) (value_error "target_instance_ids must be unique");
  Ok {| fr_kind := kind; fr_args := args; fr_timeout_s := timeout_s; fr_reason := reason;
        fr_target_mode := mode; fr_target_instance_ids := targets; fr_offline_behavior := offline |}.

(** ** Tables ([db/models.py]) *)

Inductive AgentSessionStatus := session_active | session_disconnected | session_superseded.

#[global] Instance AgentSessionStatus_eq_dec : EqDecision AgentSessionStatus.
Proof. solve_decision. Defined.

Record AgentSession := {
  as_session_id : string;
  as_service : service_key;
  as_instance_id : string;
  as_protocol_version : string;
  as_status : AgentSessionStatus;
  as_capabilities : list string;
  as_accepted_capabilities : list string;
  connected_at : Z;
  last_hello_at : Z;
  last_message_at : Z;
  superseded_at : option Z;
  disconnected_at : option Z;
  as_updated_at : Z;
}.

Inductive AgentCommandStatus :=
| Spending | Sdispatched | Saccepted | Sexpired | Srejected | Ssucceeded | Sfailed | Stimeout | Scancelled.

#[global] Instance AgentCommandStatus_eq_dec : EqDecision AgentCommandStatus.
Proof. solve_decision. Defined.

Definition REDISPATCHABLE_COMMAND_STATUSES : list AgentCommandStatus := [Spending; Sdispatched].
Definition RECONCILABLE_COMMAND_STATUSES : list AgentCommandStatus := [Spending; Sdispatched; Saccepted].
Definition TERMINAL_COMMAND_STATUSES : list AgentCommandStatus :=
  [Sexpired; Srejected; Ssucceeded; Sfailed; Stimeout; Scancelled].

Inductive AgentCommandAckStatus := ack_accepted | ack_rejected.
Inductive AgentCommandResultStatus := result_succeeded | result_failed | result_timeout | result_cancelled.

#[global] Instance AgentCommandAckStatus_eq_dec : EqDecision AgentCommandAckStatus.
Proof. solve_decision. Defined.

Definition result_as_status (r : AgentCommandResultStatus) : AgentCommandStatus :=
  match r with
  | result_succeeded => Ssucceeded
  | result_failed => Sfailed
  | result_timeout => Stimeout
  | result_cancelled => Scancelled
  end.

Record CommandAuditMetadata := {
  au_created_by : option string;
  au_reason : option string;
  au_source_surface : string;
}.

Record AgentCommand := {
  command_id : string;
  cmd_service : service_key;
  cmd_instance_id : string;
  session_id : option string;
  audit : CommandAuditMetadata;
  kind : AgentCommandKind;
  args_json : list (string * value);
  timeout_s : Z;
  cmd_status : AgentCommandStatus;
  ack_status : option AgentCommandAckStatus;
  result_json : option value;
  duration_ms : option Z;
  error_code : option string;
  error_message : option string;
  dispatched_at : option Z;
  acked_at : option Z;
  finished_at : option Z;
  created_at : Z;
  updated_at : Z;
}.

(** What is sent of a command ([AgentCommandPayload]). *)
Record AgentCommandPayload := {
  cp_command_id : string;
  cp_kind : AgentCommandKind;
  cp_args : list (string * value);
  cp_timeout_s : Z;
  cp_created_at : Z;
}.

(** A live connection: its session and the number of its send queue. *)
Record LiveAgentConnection := { lc_session_id : string; lc_send_queue : nat }.

(** The database, and in the memory of the process the registry of
    connections and the send queues. *)
Record ControlPlane := {
  db : DB;
  agent_sessions : list AgentSession;
  agent_commands : gmap string AgentCommand;
  _connections : gmap string LiveAgentConnection;
  send_queues : gmap nat (list AgentCommandPayload);
}.

Definition empty_control_plane : ControlPlane :=
  {| db := empty_db; agent_sessions := []; agent_commands := ∅; _connections := ∅; send_queues := ∅ |}.

Definition set_db f (c : ControlPlane) : ControlPlane :=
  {| db := f (db c); agent_sessions := agent_sessions c; agent_commands := agent_commands c;
     _connections := _connections c; send_queues := send_queues c |}.
Definition set_sessions f (c : ControlPlane) : ControlPlane :=
  {| db := db c; agent_sessions := f (agent_sessions c); agent_commands := agent_commands c;
     _connections := _connections c; send_queues := send_queues c |}.
Definition set_commands f (c : ControlPlane) : ControlPlane :=
  {| db := db c; agent_sessions := agent_sessions c; agent_commands := f (agent_commands c);
     _connections := _connections c; send_queues := send_queues c |}.
Definition set_connections f (c : ControlPlane) : ControlPlane :=
  {| db := db c; agent_sessions := agent_sessions c; agent_commands := agent_commands c;
     _connections := f (_connections c); send_queues := send_queues c |}.
Definition set_queues f (c : ControlPlane) : ControlPlane :=
  {| db := db c; agent_sessions := agent_sessions c; agent_commands := agent_commands c;
     _connections := _connections c; send_queues := f (send_queues c) |}.

Abbreviation CP := (SE ControlPlane exn).

(** A statement on the tables of [Ingest]. *)
Definition on_db {A} (m : SE DB exn A) : CP A := λ c,
  let '(d, r) := m (db c) in (set_db (λ _, d) c, r).

(** Work that is rolled back when it raises. *)
Definition atomically {A} (m : CP A) : CP A := λ c,
  match m c with
  | (c', Ok a) => (c', Ok a)
  | (_, Err e) => (c, Err e)
  end.

Definition integrity_error (msg : string) : exn := Exn CException "IntegrityError" msg None.
Definition http_not_found (detail : string) : exn := Exn CException "HTTPException" detail None.

(** ** Looking things up *)

Definition get_instance_or_404 (instance_id : string) : CP Instance :=
  found ← se_gets (λ c, instances (db c) !! instance_id);
  match found with
  | Some i => mret i
  | None => se_raise (http_not_found ("instance " +:+ instance_id +:+ " was not found"))
  end.

(** [ORDER BY connected_at DESC, session_id DESC LIMIT 1]. *)
Definition session_ltb (a b : AgentSession) : bool :=
  (connected_at a <? connected_at b)%Z
  || ((connected_at a =? connected_at b)%Z && String.ltb (as_session_id a) (as_session_id b)).

Definition latest_session (ss : list AgentSession) : option AgentSession :=
  foldl (λ best s, match best with
                   | None => Some s
                   | Some b => if session_ltb b s then Some s else Some b
                   end) None ss.

Definition _get_active_session_for_instance (instance_id : string) (c : ControlPlane) : option AgentSession :=
  latest_session (List.filter (λ s, String.eqb (as_instance_id s) instance_id
                                    && bool_decide (as_status s = session_active)) (agent_sessions c)).

Definition _get_latest_session_for_instance (instance_id : string) (c : ControlPlane) : option AgentSession :=
  latest_session (List.filter (λ s, String.eqb (as_instance_id s) instance_id) (agent_sessions c)).

Definition accepts (s : AgentSession) (capability : string) : bool :=
  bool_decide (capability ∈ as_accepted_capabilities s).

(** ** Task-scoped commands *)

(** [value.get("task_name") == task_name]. *)
Definition has_task_name (task_name : string) (v : value) : bool :=
  bool_decide (text_member "task_name" v = Some task_name).

Definition _extract_task_control_state (snapshot : option value) (task_name : string) : option value :=
  states ← snapshot_list "task_control_states" snapshot;
  List.find (has_task_name task_name) states.

Definition member_list (key : string) (v : value) : option (list value) :=
  match v with
  | VDict items => match vdict_get key items with Some (VList vs) => Some vs | _ => None end
  | _ => None
  end.

Definition is_text (s : string) (v : value) : bool :=
  match v with VStr s' => String.eqb s s' | _ => false end.

(** The reason why the instance would not take the command. *)
Definition _task_support_rejection (i : Instance) (kind : AgentCommandKind) (args : list (string * value))
    : option (string * string) :=
  if decide (kind ∈ TASK_SCOPED_COMMAND_KINDS) then
    match nonblank (dict_get "task_name" args) with
    | None => Some ("task_name_missing", "task-scoped command is missing args.task_name")
    | Some task_name =>
        match _extract_task_control_state (app_snapshot_json i) task_name with
        | None => Some ("task_state_unknown",
                        "latest task control snapshot for " +:+ task_name +:+ " is unavailable")
        | Some state =>
            let unsupported := Some ("task_command_unsupported",
                  "task " +:+ task_name +:+ " does not advertise " +:+ kind_text kind) in
            match member_list "supported_commands" state with
            | None => if decide (kind ∈ [Kpause_task; Kresume_task; Krestart_task]) then None else unsupported
            | Some vs => if existsb (is_text (kind_text kind)) vs then None else unsupported
            end
        end
    end
  else None.

(** ** Changes of a command *)

Definition update_command (id : string) (f : AgentCommand → AgentCommand) : CP unit :=
  se_modify (set_commands (alter f id)).

(** [_mark_command_rejected_without_delivery]. *)
Definition _mark_command_rejected_without_delivery (code message : string) (rejected_at : Z)
    (c : AgentCommand) : AgentCommand :=
  {| command_id := command_id c; cmd_service := cmd_service c; cmd_instance_id := cmd_instance_id c;
     session_id := session_id c; audit := audit c; kind := kind c; args_json := args_json c;
     timeout_s := timeout_s c; cmd_status := Srejected; ack_status := ack_status c;
     result_json := result_json c; duration_ms := duration_ms c; error_code := Some code;
     error_message := Some message; dispatched_at := dispatched_at c; acked_at := acked_at c;
     finished_at := Some rejected_at; created_at := created_at c; updated_at := rejected_at |}.

Definition mark_command_dispatched (session : string) (at_ : Z) (c : AgentCommand) : AgentCommand :=
  {| command_id := command_id c; cmd_service := cmd_service c; cmd_instance_id := cmd_instance_id c;
     session_id := Some session; audit := audit c; kind := kind c; args_json := args_json c;
     timeout_s := timeout_s c;
     cmd_status := (if decide (cmd_status c = Spending) then Sdispatched else cmd_status c);
     ack_status := ack_status c; result_json := result_json c; duration_ms := duration_ms c;
     error_code := error_code c; error_message := error_message c; dispatched_at := Some at_;
     acked_at := acked_at c; finished_at := finished_at c; created_at := created_at c; updated_at := at_ |}.

Definition _command_deadline (c : AgentCommand) : Z := (created_at c + timeout_s c * us_per_second)%Z.

(** [max(int(delta.total_seconds() * 1000), 0)]. *)
Definition milliseconds (us : Z) : Z :=
  match modf (fmul (total_seconds us) (float_of_Z 1000)) with
  | Some (n, _) => Z.max n 0
  | None => 0
  end.

(** What [expire_stale_commands] writes into a command. *)
Definition expired_command (as_of : Z) (c : AgentCommand) : AgentCommand :=
  let deadline := _command_deadline c in
  let taken := bool_decide (cmd_status c = Saccepted) || bool_decide (ack_status c = Some ack_accepted) in
  let secs := str_of_Z (timeout_s c) in
  {| command_id := command_id c; cmd_service := cmd_service c; cmd_instance_id := cmd_instance_id c;
     session_id := session_id c; audit := audit c; kind := kind c; args_json := args_json c;
     timeout_s := timeout_s c; cmd_status := (if taken then Stimeout else Sexpired);
     ack_status := ack_status c; result_json := result_json c;
     duration_ms := match acked_at c with
                    | Some t => if taken then Some (milliseconds (deadline - t)) else duration_ms c
                    | None => duration_ms c
                    end;
     error_code := Some (if taken then "command_timeout_elapsed" else "command_delivery_expired");
     error_message := Some (if taken
        then "command did not report a terminal result within timeout_s=" +:+ secs
        else "command was not acknowledged before timeout_s=" +:+ secs +:+ " elapsed");
     dispatched_at := dispatched_at c; acked_at := acked_at c; finished_at := Some deadline;
     created_at := created_at c; updated_at := as_of |}.

Definition is_stale (p : AgentCommand → bool) (as_of : Z) (c : AgentCommand) : bool :=
  bool_decide (cmd_status c ∈ RECONCILABLE_COMMAND_STATUSES) && p c && (_command_deadline c <=? as_of)%Z.

(** [p] is the filter on the instance or the service. *)
Definition expire_stale_commands (p : AgentCommand → bool) (as_of : Z) : CP nat :=
  stale ← se_gets (λ c, size (filter (λ ic : string * AgentCommand, is_stale p as_of ic.2 = true)
                                (agent_commands c)));
  _ ← se_modify (set_commands (fmap (λ c, if is_stale p as_of c then expired_command as_of c else c)));
  mret stale.

Definition of_instance (instance_id : string) (c : AgentCommand) : bool :=
  String.eqb (cmd_instance_id c) instance_id.

(** [ORDER BY created_at, command_id]. *)
Definition command_le (a b : AgentCommand) : Prop :=
  ((created_at a <? created_at b)%Z
   || ((created_at a =? created_at b)%Z && String.leb (command_id a) (command_id b))) = true.

#[global] Instance command_le_dec a b : Decision (command_le a b).
Proof. unfold command_le. apply _. Defined.

Definition select_commands (p : AgentCommand → bool) (c : ControlPlane) : list AgentCommand :=
  merge_sort command_le (List.filter p (map_to_list (agent_commands c)).*2).

Definition list_redeliverable_commands_for_instance (instance_id : string) (now : Z) : CP (list AgentCommand) :=
  _ ← expire_stale_commands (of_instance instance_id) now;
  se_gets (select_commands (λ c, of_instance instance_id c
                                 && bool_decide (cmd_status c ∈ REDISPATCHABLE_COMMAND_STATUSES))).

(** [list_commands_for_instance] and [list_commands_for_service]: the number
    of commands and a page of them, newest first. *)
Definition list_commands (expire p : AgentCommand → bool) (limit offset : nat) (now : Z)
    : CP (nat * list AgentCommand) :=
  _ ← expire_stale_commands expire now;
  all ← se_gets (select_commands p);
  mret (length all, take limit (drop offset (reverse all))).

(** ** Creating commands *)

Definition build_command_message (c : AgentCommand) : AgentCommandPayload :=
  {| cp_command_id := command_id c; cp_kind := kind c; cp_args := args_json c;
     cp_timeout_s := timeout_s c; cp_created_at := created_at c |}.

Definition put (queue : nat) (m : AgentCommandPayload) : CP unit :=
  se_modify (set_queues (λ qs, <[queue := default [] (qs !! queue) ++ [m]]> qs)).

(** [db.add(command); db.commit()]; the column of the identifier is unique. *)
Definition create_command (id instance_id : string) (i : Instance) (kind : AgentCommandKind)
    (args : list (string * value)) (timeout : Z) (meta : CommandAuditMetadata) (now : Z) : CP AgentCommand :=
  let c := {| command_id := id; cmd_service := service i; cmd_instance_id := instance_id;
              session_id := None; audit := meta; kind := kind; args_json := args; timeout_s := timeout;
              cmd_status := Spending; ack_status := None; result_json := None; duration_ms := None;
              error_code := None; error_message := None; dispatched_at := None; acked_at := None;
              finished_at := None; created_at := now; updated_at := now |} in
  taken ← se_gets (λ c, bool_decide (is_Some (agent_commands c !! id)));
  _ ← se_lift (guard_else (negb taken && (timeout <? 2 ^ 31)%Z) (integrity_error "agent_commands"));
  _ ← se_modify (set_commands <[id := c]>);
  mret c.

(** Creates the command, marks it dispatched and queues it. *)
Definition dispatch_command (conn : LiveAgentConnection) (create : CP AgentCommand) (now : Z)
    : CP AgentCommand :=
  c ← create;
  let c := mark_command_dispatched (lc_session_id conn) now c in
  _ ← update_command (command_id c) (λ _, c);
  _ ← put (lc_send_queue conn) (build_command_message c);
  mret c.

Definition create_instance_command (instance_id : string) (i : Instance) (request : AgentCommandCreateRequest)
    (meta : CommandAuditMetadata) (new_id : string) (now : Z) : CP AgentCommand :=
  let capability := COMMAND_CAPABILITY_BY_KIND (rq_kind request) in
  let create := create_command new_id instance_id i (rq_kind request) (rq_args request)
                  (rq_timeout_s request) meta now in
  let queued_only := match rq_delivery_mode request with dispatch_now_only => false | _ => true end in
  active ← se_gets (_get_active_session_for_instance instance_id);
  match active with
  | Some s =>
      _ ← se_lift (guard_else (accepts s capability)
            (http_conflict ("instance " +:+ instance_id
               +:+ " active session does not advertise capability " +:+ capability)));
      _ ← se_lift (match _task_support_rejection i (rq_kind request) (rq_args request) with
                   | Some (_, detail) => Err (http_conflict detail)
                   | None => Ok ()
                   end);
      live ← se_gets (λ c, _connections c !! instance_id);
      match live with
      | None =>
          _ ← se_lift (guard_else queued_only
                (http_conflict ("instance " +:+ instance_id +:+ " has no live control connection")));
          create
      | Some conn => dispatch_command conn create now
      end
  | None =>
      _ ← se_lift (guard_else queued_only
            (http_conflict ("instance " +:+ instance_id +:+ " has no active control session")));
      latest ← se_gets (_get_latest_session_for_instance instance_id);
      match latest with
      | None => se_raise (http_conflict ("instance " +:+ instance_id +:+ " has no prior control session"))
      | Some s =>
          _ ← se_lift (guard_else (accepts s capability)
                (http_conflict ("instance " +:+ instance_id
                   +:+ " last known session does not advertise capability " +:+ capability)));
          create
      end
  end.

(** ** Commands on many instances *)

Inductive FanoutOutcome := fan_dispatched | fan_queued | fan_skipped | fan_rejected.

#[global] Instance FanoutOutcome_eq_dec : EqDecision FanoutOutcome.
Proof. solve_decision. Defined.

Inductive InstanceConnectivity := never_reported | online | offline.

#[global] Instance InstanceConnectivity_eq_dec : EqDecision InstanceConnectivity.
Proof. solve_decision. Defined.

Record ServiceCommandFanoutTargetSummary := {
  ft_instance_id : string;
  ft_connectivity : InstanceConnectivity;
  ft_session_id : option string;
  ft_command_id : option string;
  ft_outcome : FanoutOutcome;
  ft_reason_code : option string;
}.

Section Fanout.
(** [settings.instance_offline_after_s], in microseconds. *)
Context (instance_offline_after : Z).

Definition _get_instance_connectivity (i : Instance) (as_of : Z) : InstanceConnectivity :=
  match last_seen_at i with
  | None => never_reported
  | Some t => if (as_of - instance_offline_after <=? t)%Z then online else offline
  end.

(** [ORDER BY last_seen_at IS NULL, last_seen_at DESC, instance_id]. *)
Definition instance_le (a b : string * Instance) : Prop :=
  match last_seen_at a.2, last_seen_at b.2 with
  | Some s, Some t => (t <? s)%Z || ((s =? t)%Z && String.leb a.1 b.1)
  | Some _, None => true
  | None, Some _ => false
  | None, None => String.leb a.1 b.1
  end = true.

#[global] Instance instance_le_dec a b : Decision (instance_le a b).
Proof. unfold instance_le. apply _. Defined.

Definition service_instances (k : service_key) (c : ControlPlane) : list (string * Instance) :=
  merge_sort instance_le
    (List.filter (λ ni, bool_decide (service ni.2 = k)) (map_to_list (instances (db c)))).

Definition _list_fanout_target_instances (k : service_key) (request : ServiceCommandFanoutRequest) (as_of : Z)
    : CP (list (string * Instance)) :=
  all ← se_gets (service_instances k);
  match fr_target_mode request with
  | all_online => mret (List.filter (λ ni, bool_decide (_get_instance_connectivity ni.2 as_of = online)) all)
  | selected_instances =>
      let find := λ id : string, List.find (λ ni : string * Instance, String.eqb ni.1 id) all in
      let missing := List.filter (λ id, negb (bool_decide (is_Some (find id)))) (fr_target_instance_ids request) in
      _ ← se_lift (guard_else (bool_decide (missing = []))
            (http_not_found ("instances [" +:+ String.concat ", " missing +:+ "] were not found for service "
               +:+ k.1 +:+ "/" +:+ k.2)));
      mret (omap find (fr_target_instance_ids request))
  end.

(** The body of the loop; [new_id] is the identifier of a command it makes. *)
Definition fanout_target (request : ServiceCommandFanoutRequest) (meta : CommandAuditMetadata)
    (new_id : string) (now : Z) (ni : string * Instance) : CP ServiceCommandFanoutTargetSummary :=
  let '(id, i) := ni in
  let capability := COMMAND_CAPABILITY_BY_KIND (fr_kind request) in
  let create := create_command new_id id i (fr_kind request) (fr_args request) (fr_timeout_s request) meta now in
  let queue := match fr_offline_behavior request with offline_queue => true | offline_skip => false end in
  let summary := λ session command outcome reason,
    {| ft_instance_id := id; ft_connectivity := _get_instance_connectivity i now; ft_session_id := session;
       ft_command_id := command; ft_outcome := outcome; ft_reason_code := reason |} in
  active ← se_gets (_get_active_session_for_instance id);
  match active with
  | Some s =>
      let session := Some (as_session_id s) in
      if negb (accepts s capability)
      then mret (summary session None fan_rejected (Some "missing_capability"))
      else match _task_support_rejection i (fr_kind request) (fr_args request) with
      | Some (code, _) => mret (summary session None fan_rejected (Some code))
      | None =>
          live ← se_gets (λ c, _connections c !! id);
          match live with
          | None =>
              if queue then c ← create; mret (summary session (Some (command_id c)) fan_queued
                                                (Some "no_live_connection"))
              else mret (summary session None fan_skipped (Some "no_live_connection"))
          | Some conn =>
              c ← dispatch_command conn create now;
              mret (summary (Some (lc_session_id conn)) (Some (command_id c)) fan_dispatched None)
          end
      end
  | None =>
      if queue then
        latest ← se_gets (_get_latest_session_for_instance id);
        match latest with
        | None => mret (summary None None fan_rejected (Some "no_known_session"))
        | Some s =>
            if negb (accepts s capability)
            then mret (summary (Some (as_session_id s)) None fan_rejected (Some "missing_capability"))
            else c ← create; mret (summary (Some (as_session_id s)) (Some (command_id c)) fan_queued
                                     (Some "no_active_session"))
        end
      else mret (summary None None fan_skipped (Some "no_active_session"))
  end.

Record ServiceCommandFanoutResponse := {
  fo_dispatched : list ServiceCommandFanoutTargetSummary;
  fo_queued : list ServiceCommandFanoutTargetSummary;
  fo_skipped : list ServiceCommandFanoutTargetSummary;
  fo_rejected : list ServiceCommandFanoutTargetSummary;
  fo_total : nat;
  fo_noop : bool;
}.

Definition with_outcome (o : FanoutOutcome) (ts : list ServiceCommandFanoutTargetSummary) :=
  List.filter (λ t, bool_decide (ft_outcome t = o)) ts.

(** [fresh] gives the identifier of the command of an instance. *)
Definition create_service_command_fanout (k : service_key) (request : ServiceCommandFanoutRequest)
    (created_by : option string) (source_surface : string) (fresh : string → string) (now : Z)
    : CP ServiceCommandFanoutResponse :=
  targets ← _list_fanout_target_instances k request now;
  let meta := {| au_created_by := created_by; au_reason := Some (fr_reason request);
                 au_source_surface := source_surface |} in
  ts ← se_map (λ ni, fanout_target request meta (fresh ni.1) now ni) targets;
  mret {| fo_dispatched := with_outcome fan_dispatched ts; fo_queued := with_outcome fan_queued ts;
          fo_skipped := with_outcome fan_skipped ts; fo_rejected := with_outcome fan_rejected ts;
          fo_total := length targets;
          fo_noop := match fr_target_mode request with
                     | all_online => bool_decide (targets = [])
                     | selected_instances => false
                     end |}.
End Fanout.

(** ** The WebSocket of an agent ([api/routers/agent_ws.py]) *)

Definition SUPPORTED_CAPABILITIES : list string :=
  ["telemetry.sync"; "telemetry.heartbeat"; "telemetry.metrics"; "telemetry.custom_metrics";
   "telemetry.events"; "command.ping"; "command.shutdown"; "command.restart"; "command.drain";
   "command.pause_task"; "command.resume_task"; "command.restart_task"; "command.discard_dead_letters";
   "command.replay_dead_letters"; "command.run_task_once"; "command.sync_now"; "command.flush_metrics";
   "command.flush_events"].

Definition _accepted_capabilities (capabilities : list string) : list string :=
  List.filter (λ x, bool_decide (x ∈ SUPPORTED_CAPABILITIES)) capabilities.

Record AgentHelloPayload := {
  he_protocol_version : string;
  he_capabilities : list string;
  he_service : ServiceDescriptor;
  he_runtime : RuntimeDescriptor;
}.

(** What hello writes into the row of its instance. *)
Definition greeted (p : AgentHelloPayload) (now : Z) (i : Instance) : Instance :=
  {| service := sd_service (he_service p); node_name := sd_node_name (he_service p);
     deployment_version := sd_deployment_version (he_service p); runtime := Some (he_runtime p);
     last_sync_at := last_sync_at i; last_topology_hash := last_topology_hash i;
     app_snapshot_json := app_snapshot_json i; last_sync_sent_at := last_sync_sent_at i;
     last_sync_sequence := last_sync_sequence i; last_heartbeat_sent_at := last_heartbeat_sent_at i;
     last_heartbeat_sequence := last_heartbeat_sequence i; last_seen_at := Some now; status := status i |}.

Definition superseded (now : Z) (s : AgentSession) : AgentSession :=
  {| as_session_id := as_session_id s; as_service := as_service s; as_instance_id := as_instance_id s;
     as_protocol_version := as_protocol_version s; as_status := session_superseded;
     as_capabilities := as_capabilities s; as_accepted_capabilities := as_accepted_capabilities s;
     connected_at := connected_at s; last_hello_at := last_hello_at s; last_message_at := last_message_at s;
     superseded_at := Some now; disconnected_at := Some now; as_updated_at := now |}.

Definition is_active_of (instance_id : string) (s : AgentSession) : bool :=
  String.eqb (as_instance_id s) instance_id && bool_decide (as_status s = session_active).

(** The session and the capabilities hello is answered with. *)
Definition _handle_hello (p : AgentHelloPayload) (new_session : string) (now : Z)
    : CP (string * list string) :=
  _ ← se_lift (guard_else (String.eqb (he_protocol_version p) "1")
        (value_error ("protocol_version=" +:+ he_protocol_version p +:+ " is not supported")));
  let accepted := _accepted_capabilities (he_capabilities p) in
  let id := sd_instance_id (he_service p) in
  atomically (
    _ ← on_db (ensure_service (he_service p) true);
    _ ← on_db (apply_service_metadata (he_service p));
    _ ← on_db (ensure_instance_stub (he_service p));
    _ ← on_db (write_instance id (greeted p now));
    taken ← se_gets (λ c, existsb (λ s, String.eqb (as_session_id s) new_session) (agent_sessions c));
    _ ← se_lift (guard_else (negb taken) (integrity_error "agent_sessions"));
    let s := {| as_session_id := new_session; as_service := sd_service (he_service p);
                as_instance_id := id; as_protocol_version := he_protocol_version p;
                as_status := session_active; as_capabilities := he_capabilities p;
                as_accepted_capabilities := accepted; connected_at := now; last_hello_at := now;
                last_message_at := now; superseded_at := None; disconnected_at := None;
                as_updated_at := now |} in
    _ ← se_modify (set_sessions (λ ss,
          ((λ s, if is_active_of id s then superseded now s else s) <$> ss) ++ [s]));
    mret (new_session, accepted)).

Definition session_message (now : Z) (s : AgentSession) : AgentSession :=
  {| as_session_id := as_session_id s; as_service := as_service s; as_instance_id := as_instance_id s;
     as_protocol_version := as_protocol_version s; as_status := as_status s;
     as_capabilities := as_capabilities s; as_accepted_capabilities := as_accepted_capabilities s;
     connected_at := connected_at s; last_hello_at := last_hello_at s; last_message_at := now;
     superseded_at := superseded_at s; disconnected_at := disconnected_at s; as_updated_at := now |}.

Definition _mark_session_message (session : string) (now : Z) : CP unit :=
  se_modify (set_sessions (fmap (λ s,
    if String.eqb (as_session_id s) session then session_message now s else s))).

(** [last_message] is the time of the last message, if the close counts as
    one. *)
Definition session_closed (now : Z) (last_message : option Z) (s : AgentSession) : AgentSession :=
  {| as_session_id := as_session_id s; as_service := as_service s; as_instance_id := as_instance_id s;
     as_protocol_version := as_protocol_version s; as_status := session_disconnected;
     as_capabilities := as_capabilities s; as_accepted_capabilities := as_accepted_capabilities s;
     connected_at := connected_at s; last_hello_at := last_hello_at s;
     last_message_at := default (last_message_at s) last_message;
     superseded_at := superseded_at s; disconnected_at := Some now; as_updated_at := now |}.

Definition _close_session (session : string) (now : Z) : CP unit :=
  se_modify (set_sessions (fmap (λ s,
    if String.eqb (as_session_id s) session && bool_decide (as_status s = session_active)
    then session_closed now (Some now) s else s))).

(** [disconnect_active_sessions] ([api/agent_session_service.py]), when the
    control plane starts. *)
Definition disconnect_active_sessions (now : Z) : CP unit :=
  se_modify (set_sessions (fmap (λ s,
    if bool_decide (as_status s = session_active) then session_closed now None s else s))).

(** [AgentConnectionRegistry] ([api/agent_connection_registry.py]). *)
Definition register (instance_id session : string) (queue : nat) : CP unit :=
  se_modify (set_connections <[instance_id := {| lc_session_id := session; lc_send_queue := queue |}]>).

Definition unregister (instance_id session : string) : CP unit :=
  current ← se_gets (λ c, _connections c !! instance_id);
  match current with
  | Some conn => if String.eqb (lc_session_id conn) session
                 then se_modify (set_connections (delete instance_id)) else mret ()
  | None => mret ()
  end.

(** The body of the loop over the commands that wait for the agent. *)
Definition redeliver (session : string) (accepted : list string) (queue : nat) (now : Z) (c : AgentCommand)
    : CP unit :=
  let capability := COMMAND_CAPABILITY_BY_KIND (kind c) in
  if decide (capability ∈ accepted) then
    let c := mark_command_dispatched session now c in
    _ ← update_command (command_id c) (λ _, c);
    put queue (build_command_message c)
  else
    update_command (command_id c) (λ _, _mark_command_rejected_without_delivery
      "command_capability_missing_on_reconnect"
      ("the reconnecting session does not advertise " +:+ capability +:+ "; queued delivery was abandoned")
      now c).

Definition _enqueue_pending_commands (instance_id session : string) (accepted : list string) (queue : nat)
    (now : Z) : CP unit :=
  cs ← list_redeliverable_commands_for_instance instance_id now;
  se_iter (redeliver session accepted queue now) cs.

(** ** Acknowledgements and results *)

Record AgentCommandAckPayload := {
  ack_command_id : string;
  ack_payload_status : AgentCommandAckStatus;
  ack_received_at : Z;
  ack_error_code : option string;
  ack_error_message : option string;
}.

Record AgentCommandResultPayload := {
  res_command_id : string;
  res_status : AgentCommandResultStatus;
  res_finished_at : Z;
  res_result : option value;
  res_duration_ms : option Z;
  res_error_code : option string;
  res_error_message : option string;
}.

(** A connection after its hello: its session and its instance. *)
Record _ConnectionContext := { cc_session_id : string; cc_instance_id : string }.

Definition _resolve_command_for_session (ctx : _ConnectionContext) (id : string) (c : ControlPlane)
    : option AgentCommand :=
  cmd ← agent_commands c !! id;
  if String.eqb (cmd_instance_id cmd) (cc_instance_id ctx) then Some cmd else None.

Definition acknowledged (ctx : _ConnectionContext) (m : AgentCommandAckPayload) (received_at : Z)
    (c : AgentCommand) : AgentCommand :=
  let accepted := bool_decide (ack_payload_status m = ack_accepted) in
  {| command_id := command_id c; cmd_service := cmd_service c; cmd_instance_id := cmd_instance_id c;
     session_id := Some (cc_session_id ctx); audit := audit c; kind := kind c; args_json := args_json c;
     timeout_s := timeout_s c; cmd_status := (if accepted then Saccepted else Srejected);
     ack_status := Some (ack_payload_status m); result_json := result_json c; duration_ms := duration_ms c;
     error_code := (if accepted then error_code c else ack_error_code m);
     error_message := (if accepted then error_message c else ack_error_message m);
     dispatched_at := dispatched_at c; acked_at := Some (ack_received_at m);
     finished_at := (if accepted then finished_at c else Some (ack_received_at m));
     created_at := created_at c; updated_at := received_at |}.

(** [false] for a command the instance does not have. *)
Definition _handle_command_ack (ctx : _ConnectionContext) (m : AgentCommandAckPayload) (received_at : Z)
    : CP bool :=
  found ← se_gets (_resolve_command_for_session ctx (ack_command_id m));
  match found with
  | None => mret false
  | Some c =>
      if bool_decide (is_Some (finished_at c)) || bool_decide (is_Some (ack_status c)) then mret true
      else _ ← update_command (ack_command_id m) (acknowledged ctx m received_at); mret true
  end.

Definition answered (ctx : _ConnectionContext) (m : AgentCommandResultPayload) (received_at : Z)
    (c : AgentCommand) : AgentCommand :=
  {| command_id := command_id c; cmd_service := cmd_service c; cmd_instance_id := cmd_instance_id c;
     session_id := Some (cc_session_id ctx); audit := audit c; kind := kind c; args_json := args_json c;
     timeout_s := timeout_s c; cmd_status := result_as_status (res_status m);
     ack_status := match ack_status c with None => Some ack_accepted | Some a => Some a end;
     result_json := res_result m; duration_ms := res_duration_ms m; error_code := res_error_code m;
     error_message := res_error_message m; dispatched_at := dispatched_at c;
     acked_at := match ack_status c with None => Some received_at | Some _ => acked_at c end;
     finished_at := Some (res_finished_at m); created_at := created_at c; updated_at := received_at |}.

Inductive result_answer := result_ok | result_unknown | result_duplicate.

Definition _handle_command_result (ctx : _ConnectionContext) (m : AgentCommandResultPayload)
    (received_at : Z) : CP result_answer :=
  found ← se_gets (_resolve_command_for_session ctx (res_command_id m));
  match found with
  | None => mret result_unknown
  | Some c =>
      if bool_decide (is_Some (finished_at c)) then mret result_duplicate
      else _ ← update_command (res_command_id m) (answered ctx m received_at); mret result_ok
  end.
