(* ===== verification/CommandAgent.v ===== *)
(** * Commands of the control plane: the agent's side

    [ControlPlaneWsTransport] of [onestep_control_plane/ws.py], one per
    process: the connection, the receipts of the commands it has taken, a
    receive loop per connection and a task per command that runs.  The
    functions below are the pieces of code between two awaits. *)

From stdpp Require Import base gmap sets list strings numbers.
From Stdlib Require Import ZArith Lia Ascii.
From S2P Require Import Prelude PyFloat Value Calendar Task AppControl Ingest Commands.

(** ** Frames *)

(** From the agent to the control plane. *)
Inductive agent_frame :=
| UHello (p : AgentHelloPayload)
| UAck (m : AgentCommandAckPayload)
| UResult (m : AgentCommandResultPayload)
| UTelemetry (r : request).

(** From the control plane to the agent. *)
Inductive server_frame :=
| FHelloAck (session : string) (accepted : list string)
| FCommand (p : AgentCommandPayload)
| FError (code : string) (close_connection : bool).

(** ** The transport *)

(** [{"ack": ..., "result": ...}]. *)
Record receipt := {
  rc_ack : option AgentCommandAckPayload;
  rc_result : option AgentCommandResultPayload;
}.

(** What the receive loop does after a frame is sent. *)
Inductive loop_next :=
| ThenStoredResult (id : string)
| ThenExecute (c : AgentCommandPayload)
| ThenRead.

(** A receive loop waits for a frame, or for [_send_message] on the
    connection that was current when the call began. *)
Inductive loop_pc :=
| LoopReading
| LoopSending (conn : nat) (f : agent_frame) (next : loop_next).

(** A task of [_execute_command]. *)
Inductive execution_pc :=
| ExRunning (p : AgentCommandPayload)
| ExSending (conn : nat) (f : agent_frame).

Record ControlPlaneWsTransport := {
  t_service : ServiceDescriptor;
  t_runtime : RuntimeDescriptor;
  _connection : option nat;
  (** [_hello_ack is not None] *)
  _hello_acked : bool;
  _command_receipts : gmap string receipt;
  _receive_loops : gmap nat loop_pc;
  (** the connection [connect] waits on for the answer to its hello *)
  _connecting : option nat;
  _executions : gmap string execution_pc;
}.

Definition new_transport (service : ServiceDescriptor) (runtime : RuntimeDescriptor) : ControlPlaneWsTransport :=
  {| t_service := service; t_runtime := runtime; _connection := None; _hello_acked := false;
     _command_receipts := ∅; _receive_loops := ∅; _connecting := None; _executions := ∅ |}.

Definition t_instance (t : ControlPlaneWsTransport) : string := sd_instance_id (t_service t).

Definition set_link (connection : option nat) (acked : bool) (connecting : option nat)
    (t : ControlPlaneWsTransport) : ControlPlaneWsTransport :=
  {| t_service := t_service t; t_runtime := t_runtime t; _connection := connection; _hello_acked := acked;
     _command_receipts := _command_receipts t; _receive_loops := _receive_loops t;
     _connecting := connecting; _executions := _executions t |}.
Definition set_receipts f (t : ControlPlaneWsTransport) : ControlPlaneWsTransport :=
  {| t_service := t_service t; t_runtime := t_runtime t; _connection := _connection t;
     _hello_acked := _hello_acked t; _command_receipts := f (_command_receipts t);
     _receive_loops := _receive_loops t; _connecting := _connecting t; _executions := _executions t |}.
Definition set_loops f (t : ControlPlaneWsTransport) : ControlPlaneWsTransport :=
  {| t_service := t_service t; t_runtime := t_runtime t; _connection := _connection t;
     _hello_acked := _hello_acked t; _command_receipts := _command_receipts t;
     _receive_loops := f (_receive_loops t); _connecting := _connecting t; _executions := _executions t |}.
Definition set_executions f (t : ControlPlaneWsTransport) : ControlPlaneWsTransport :=
  {| t_service := t_service t; t_runtime := t_runtime t; _connection := _connection t;
     _hello_acked := _hello_acked t; _command_receipts := _command_receipts t;
     _receive_loops := _receive_loops t; _connecting := _connecting t; _executions := f (_executions t) |}.

Definition connected (t : ControlPlaneWsTransport) : bool :=
  bool_decide (is_Some (_connection t)) && _hello_acked t.

(** [_mark_disconnected(connection)]. *)
Definition _mark_disconnected (conn : nat) (t : ControlPlaneWsTransport) : ControlPlaneWsTransport :=
  if bool_decide (_connection t = Some conn) then set_link None false (_connecting t) t else t.

(** [close()]: the connection and the task of its receive loop. *)
Definition close_transport (t : ControlPlaneWsTransport) : ControlPlaneWsTransport :=
  let t' := match _connection t with Some conn => set_loops (delete conn) t | None => t end in
  set_link None false (_connecting t) t'.

(** ** A command arrives *)

Definition ack_message (id : string) (status : AgentCommandAckStatus) (now : Z)
    (code message : option string) : AgentCommandAckPayload :=
  {| ack_command_id := id; ack_payload_status := status; ack_received_at := now;
     ack_error_code := code; ack_error_message := message |}.

(** [await self._send_message(f)] begins: it raises without a connection. *)
Definition send_begins (f : agent_frame) (next : loop_next) (t : ControlPlaneWsTransport) : option loop_pc :=
  (λ conn, LoopSending conn f next) <$> _connection t.

(** [_handle_command_message] up to its first await; [supported] is the
    answer of the handler for the kind. *)
Definition _handle_command_message (supported : bool) (now : Z) (p : AgentCommandPayload)
    (t : ControlPlaneWsTransport) : ControlPlaneWsTransport * option loop_pc :=
  let id := cp_command_id p in
  match _command_receipts t !! id with
  | Some previous =>
      (t, ack ← rc_ack previous; send_begins (UAck ack) (ThenStoredResult id) t)
  | None =>
      let ack := if supported then ack_message id ack_accepted now None None
                 else ack_message id ack_rejected now (Some "unsupported_command")
                        (Some ("command kind " +:+ kind_text (cp_kind p) +:+ " is not supported by this agent")) in
      let t := set_receipts <[id := {| rc_ack := Some ack; rc_result := None |}]> t in
      (t, send_begins (UAck ack) (if supported then ThenExecute p else ThenRead) t)
  end.

(** What follows the frame; the loop waits for the next one, or sends. *)
Definition after_send (next : loop_next) (t : ControlPlaneWsTransport)
    : ControlPlaneWsTransport * option loop_pc :=
  match next with
  | ThenRead => (t, Some LoopReading)
  | ThenExecute p => (set_executions <[cp_command_id p := ExRunning p]> t, Some LoopReading)
  | ThenStoredResult id =>
      match _command_receipts t !! id ≫= rc_result with
      | None => (t, Some LoopReading)
      | Some r => (t, send_begins (UResult r) ThenRead t)
      end
  end.

(** The loop goes on as [pc], or it has raised and closes its connection. *)
Definition loop_continues (conn : nat) (tp : ControlPlaneWsTransport * option loop_pc) : ControlPlaneWsTransport :=
  match tp with
  | (t, Some pc) => set_loops <[conn := pc]> t
  | (t, None) => _mark_disconnected conn (set_loops (delete conn) t)
  end.

Definition _receive_loop (supported : bool) (now : Z) (conn : nat) (f : server_frame)
    (t : ControlPlaneWsTransport) : ControlPlaneWsTransport :=
  loop_continues conn
    match f with
    | FCommand p => _handle_command_message supported now p t
    | FError _ true => (t, None)
    | _ => (t, Some LoopReading)
    end.

(** ** A command runs *)

(** How the handler of a command ended, as [asyncio.wait_for] tells it. *)
Inductive handler_outcome :=
| HandlerReturned (v : value)
| HandlerRaised (message : string)
| HandlerTimedOut
| HandlerCancelled.

Definition result_message (id : string) (timeout_s : Z) (started finished : Z) (o : handler_outcome)
    : AgentCommandResultPayload :=
  let '(status, result, code, message) :=
    match o with
    | HandlerReturned v => (result_succeeded, Some v, None, None)
    | HandlerRaised m => (result_failed, None, Some "command_execution_failed", Some m)
    | HandlerTimedOut => (result_timeout, None, Some "command_execution_timeout",
                          Some ("command exceeded timeout_s=" +:+ str_of_Z timeout_s))
    | HandlerCancelled => (result_cancelled, None, Some "command_execution_cancelled",
                           Some "command execution was cancelled")
    end in
  {| res_command_id := id; res_status := status; res_finished_at := finished; res_result := result;
     res_duration_ms := Some (milliseconds (finished - started)); res_error_code := code;
     res_error_message := message |}.

(** [_execute_command] once the handler has ended: the result is stored,
    then sent. *)
Definition _execute_command (m : AgentCommandResultPayload) (t : ControlPlaneWsTransport)
    : ControlPlaneWsTransport :=
  let id := res_command_id m in
  let previous := default {| rc_ack := None; rc_result := None |} (_command_receipts t !! id) in
  let t := set_receipts <[id := {| rc_ack := rc_ack previous; rc_result := Some m |}]> t in
  match _connection t with
  | Some conn => set_executions <[id := ExSending conn (UResult m)]> t
  | None => set_executions (delete id) t
  end.

(** ** The connection *)

(** [connect] has a connection and sends hello on it. *)
Definition connect_begins (conn : nat) (t : ControlPlaneWsTransport) : option ControlPlaneWsTransport :=
  if connected t || bool_decide (is_Some (_connecting t)) then None
  else Some (set_link (Some conn) (_hello_acked t) (Some conn) t).

Definition hello_of (capabilities : list string) (t : ControlPlaneWsTransport) : AgentHelloPayload :=
  {| he_protocol_version := "1"; he_capabilities := capabilities; he_service := t_service t;
     he_runtime := t_runtime t |}.

(** The answer to hello: the receive loop starts on the current connection,
    or [connect] raises and gives up its connection. *)
Definition connect_answered (f : option server_frame) (t : ControlPlaneWsTransport) : ControlPlaneWsTransport :=
  match f with
  | Some (FHelloAck _ _) =>
      let t := set_link (_connection t) true None t in
      match _connection t with
      | Some conn => set_loops <[conn := LoopReading]> t
      | None => t
      end
  | _ => set_link None false None t
  end.

(** ** The handler ([ControlPlaneWsSender]) *)

Section Handler.
Context (app : option OneStepApp) (reporter_bound : bool).

Definition supports_command (k : AgentCommandKind) : bool :=
  match k with
  | Kping => true
  | Kdiscard_dead_letters => match app with Some a => supports_dead_letter_discard_commands a | None => false end
  | Kreplay_dead_letters => match app with Some a => supports_dead_letter_replay_commands a | None => false end
  | Krun_task_once => match app with Some a => supports_manual_run_commands a | None => false end
  | Kshutdown | Krestart | Kdrain | Kpause_task | Kresume_task | Krestart_task => bool_decide (is_Some app)
  | Ksync_now | Kflush_metrics | Kflush_events => reporter_bound
  end.

Definition DEFAULT_COMMAND_CAPABILITIES : list AgentCommandKind :=
  [Kping; Kshutdown; Krestart; Kdrain; Kpause_task; Kresume_task; Krestart_task; Kdiscard_dead_letters;
   Kreplay_dead_letters; Krun_task_once; Ksync_now; Kflush_metrics; Kflush_events].

Definition _advertised_capabilities : list string :=
  ["telemetry.sync"; "telemetry.heartbeat"; "telemetry.metrics"; "telemetry.events"]
  ++ (COMMAND_CAPABILITY_BY_KIND <$> List.filter supports_command DEFAULT_COMMAND_CAPABILITIES).
End Handler.

Definition _require_task_name_arg (args : list (string * value)) : result exn string :=
  match nonblank (dict_get "task_name" args) with
  | Some t => Ok t
  | None => Err (value_error "command args.task_name must be a non-empty string")
  end.

Definition _require_positive_int_arg (args : list (string * value)) (key : string) (default : Z)
    : result exn Z :=
  match dict_get key args with
  | None => Ok default
  | Some (VInt n) => if (n <? 1)%Z then Err (value_error ("command args." +:+ key +:+ " must be a positive integer"))
                     else Ok n
  | Some _ => Err (value_error ("command args." +:+ key +:+ " must be a positive integer"))
  end.

Definition _require_json_object_arg (args : list (string * value)) (key : string)
    : result exn (list (value * value)) :=
  match dict_get key args with
  | Some (VDict items) => Ok items
  | _ => Err (value_error ("command args." +:+ key +:+ " must be a JSON object"))
  end.

(** What [handle_command] waits for after its first changes of the app. *)
Inductive handler_wait :=
| Answered (v : value)
| WaitDrain
| WaitPause (task_name : string)
| WaitResume (task_name : string)
| WaitRestartTask (task_name : string)
| WaitDiscard (task_name : string) (limit : Z)
| WaitReplay (task_name : string) (limit : Z)
| WaitRunOnce (task_name : string) (payload : list (value * value))
| WaitReporter (operation : string).

Definition app_not_bound : exn := runtime_error "app is not bound".

(** [handle_command] on the loop of the app, up to its first await. *)
Definition handle_command (reporter_bound : bool) (k : AgentCommandKind) (args : list (string * value))
    : SE (option OneStepApp) exn handler_wait :=
  let on_app {A} (m : SE OneStepApp exn A) : SE (option OneStepApp) exn A := λ oa,
    match oa with
    | None => (None, Err app_not_bound)
    | Some a => let '(a', r) := m a in (Some a', r)
    end in
  let reporter op : SE (option OneStepApp) exn handler_wait :=
    if reporter_bound then mret (WaitReporter op) else se_raise (runtime_error "reporter is not bound") in
  match k with
  | Kping => mret (Answered (VStrDict [("ok", VBool true); ("echo", VStrDict args)]))
  | Kshutdown =>
      on_app (_ ← se_modify (request_shutdown true);
              mret (Answered (VStrDict [("operation", VStr "shutdown"); ("requested", VBool true);
                                        ("completion", VStr "complete"); ("shutdown_requested", VBool true)])))
  | Krestart =>
      on_app (_ ← se_modify (request_restart true);
              mret (Answered (VStrDict [("operation", VStr "restart"); ("requested", VBool true);
                                        ("completion", VStr "partial"); ("restart_requested", VBool true);
                                        ("shutdown_requested", VBool true);
                                        ("supervisor_handoff_required", VBool true)])))
  | Kdrain => on_app (_ ← request_drain true; mret WaitDrain)
  | Kpause_task =>
      on_app (t ← se_lift (_require_task_name_arg args); _ ← request_task_pause true t; mret (WaitPause t))
  | Kresume_task =>
      on_app (t ← se_lift (_require_task_name_arg args); _ ← request_task_resume true t; mret (WaitResume t))
  | Krestart_task => on_app (t ← se_lift (_require_task_name_arg args); mret (WaitRestartTask t))
  | Kdiscard_dead_letters =>
      on_app (t ← se_lift (_require_task_name_arg args);
              n ← se_lift (_require_positive_int_arg args "limit" 10); mret (WaitDiscard t n))
  | Kreplay_dead_letters =>
      on_app (t ← se_lift (_require_task_name_arg args);
              n ← se_lift (_require_positive_int_arg args "limit" 10); mret (WaitReplay t n))
  | Krun_task_once =>
      on_app (t ← se_lift (_require_task_name_arg args);
              p ← se_lift (_require_json_object_arg args "payload"); mret (WaitRunOnce t p))
  | Ksync_now => reporter "sync_now"
  | Kflush_metrics => reporter "flush_metrics"
  | Kflush_events => reporter "flush_events"
  end.
