(* ===== verification/CommandSystem.v ===== *)
(** * Commands of the control plane: the agents and the server together

    A system is one control plane, the processes of agents, and the
    WebSocket connections between them: two queues of frames each.  [step]
    performs one action: a piece of code between two awaits, a frame that is
    taken, a connection that breaks, a process that starts or dies.  A
    connection that is broken keeps what was on its way; frames sent on it
    are lost, or the call that sends raises. *)

From stdpp Require Import base gmap sets list strings numbers.
From Stdlib Require Import ZArith Lia Ascii.
From S2P Require Import Prelude PyFloat Value Calendar Ingest Commands CommandAgent.

(** The handler [agent_ws] of a connection: it waits for a frame, with or
    without a session, or for the answer to hello to be sent. *)
Inductive ws_state :=
| WsReceiving (ctx : option _ConnectionContext)
| WsGreeting (ctx : _ConnectionContext) (accepted : list string)
| WsClosed.

Record connection := {
  cn_process : nat;
  cn_broken : bool;
  cn_up : list agent_frame;
  cn_down : list server_frame;
  cn_ws : ws_state;
}.

(** What handlers and the server did: the log a theorem speaks about. *)
Inductive event :=
| EvStarted (n : nat) (p : AgentCommandPayload)
| EvFinished (n : nat) (m : AgentCommandResultPayload)
| EvRefused (n : nat) (id : string)
(** the server answered this hello *)
| EvGreeted (p : AgentHelloPayload).

Record system := {
  control_plane : ControlPlane;
  connections : gmap nat connection;
  (** the transport of a process and whether the process lives *)
  processes : gmap nat (ControlPlaneWsTransport * bool);
  log : list event;
}.

Definition initial : system :=
  {| control_plane := empty_control_plane; connections := ∅; processes := ∅; log := [] |}.

Definition set_control_plane c (s : system) : system :=
  {| control_plane := c; connections := connections s; processes := processes s; log := log s |}.
Definition set_conns f (s : system) : system :=
  {| control_plane := control_plane s; connections := f (connections s); processes := processes s; log := log s |}.
Definition set_process (n : nat) (t : ControlPlaneWsTransport) (s : system) : system :=
  {| control_plane := control_plane s; connections := connections s; processes := <[n := (t, true)]> (processes s);
     log := log s |}.
Definition process (s : system) (n : nat) : option ControlPlaneWsTransport :=
  match processes s !! n with Some (t, true) => Some t | _ => None end.
Definition end_process (n : nat) (s : system) : system :=
  {| control_plane := control_plane s; connections := connections s; processes := alter (λ tl, (tl.1, false)) n (processes s);
     log := log s |}.
Definition record_events (es : list event) (s : system) : system :=
  {| control_plane := control_plane s; connections := connections s; processes := processes s;
     log := log s ++ es |}.

Definition with_queues (up : list agent_frame) (down : list server_frame) (ws : ws_state) (c : connection)
    : connection :=
  {| cn_process := cn_process c; cn_broken := cn_broken c; cn_up := up; cn_down := down; cn_ws := ws |}.

Definition break (c : connection) : connection :=
  {| cn_process := cn_process c; cn_broken := true; cn_up := cn_up c; cn_down := cn_down c; cn_ws := cn_ws c |}.

(** A frame enters a connection that carries frames. *)
Definition push_up (f : agent_frame) (c : connection) : connection :=
  if cn_broken c then c else with_queues (cn_up c ++ [f]) (cn_down c) (cn_ws c) c.
Definition push_down (f : server_frame) (c : connection) : connection :=
  if cn_broken c then c else with_queues (cn_up c) (cn_down c ++ [f]) (cn_ws c) c.
Definition set_ws (ws : ws_state) (c : connection) : connection :=
  with_queues (cn_up c) (cn_down c) ws c.

Definition on_conn (n : nat) (f : connection → connection) : system → system := set_conns (alter f n).

(** ** The server's handler *)

(** The [finally] clause of [agent_ws]. *)
Definition ws_ends (n : nat) (ctx : option _ConnectionContext) (now : Z) (s : system) : system :=
  let cp := match ctx with
            | Some ctx => (_ ← unregister (cc_instance_id ctx) (cc_session_id ctx);
                           _close_session (cc_session_id ctx) now) (control_plane s)
            | None => (control_plane s, Ok ())
            end.1 in
  on_conn n (λ c, break (set_ws WsClosed c)) (set_control_plane cp s).

(** [_send_error(..., close_connection=False)]: the handler goes on. *)
Definition ws_error (n : nat) (code : string) (s : system) : system := on_conn n (push_down (FError code false)) s.

(** [_send_error(..., close_connection=True)] and [return]. *)
Definition ws_refuses (n : nat) (ctx : option _ConnectionContext) (code : string) (now : Z) (s : system) : system :=
  ws_ends n ctx now (on_conn n (push_down (FError code true)) s).

Section System.
Context (labels_hash : list (string * string) → string) (instance_offline_after : Z).

(** One frame; [s] is the system without it. *)
Definition ws_frame (n : nat) (ctx : option _ConnectionContext) (f : agent_frame) (new_session : string)
    (now : Z) (s : system) : system :=
  let cp := control_plane s in
  match f, ctx with
  | UHello p, _ =>
      match _handle_hello p new_session now cp with
      | (cp', Ok (session, accepted)) =>
          let ctx' := {| cc_session_id := session; cc_instance_id := sd_instance_id (he_service p) |} in
          let cp'' := (register (cc_instance_id ctx') session n cp').1 in
          on_conn n (λ c, set_ws (WsGreeting ctx' accepted) (push_down (FHelloAck session accepted) c))
            (record_events [EvGreeted p] (set_control_plane cp'' s))
      | (cp', Err e) =>
          let s := set_control_plane cp' s in
          if String.eqb (exn_type_name e) "ValueError" then ws_refuses n ctx "unsupported_protocol_version" now s
          else ws_ends n ctx now s
      end
  | _, None => ws_refuses n None "session_not_initialized" now s
  | UTelemetry r, Some c =>
      match on_db (ingest labels_hash r now) cp with
      | (cp', Ok _) => set_control_plane (_mark_session_message (cc_session_id c) now cp').1 s
      | (cp', Err _) => ws_ends n ctx now (set_control_plane cp' s)
      end
  | UAck m, Some c =>
      match _handle_command_ack c m now cp with
      | (cp', Ok true) => set_control_plane (_mark_session_message (cc_session_id c) now cp').1 s
      | (cp', _) => ws_error n "unknown_command" (set_control_plane cp' s)
      end
  | UResult m, Some c =>
      match _handle_command_result c m now cp with
      | (cp', Ok result_ok) => set_control_plane (_mark_session_message (cc_session_id c) now cp').1 s
      | (cp', Ok result_duplicate) => ws_error n "duplicate_command_result" (set_control_plane cp' s)
      | (cp', _) => ws_error n "unknown_command" (set_control_plane cp' s)
      end
  end.

(** ** Actions *)

(** The filter of [expire_stale_commands]. *)
Inductive expiry_scope := ExpireInstance (id : string) | ExpireService (k : service_key) | ExpireAll.

Definition in_scope (sc : expiry_scope) (c : AgentCommand) : bool :=
  match sc with
  | ExpireInstance id => of_instance id c
  | ExpireService k => bool_decide (cmd_service c = k)
  | ExpireAll => true
  end.

Inductive action :=
(** a process starts with an empty transport, or dies *)
| ProcessStarts (n : nat) (service : ServiceDescriptor) (runtime : RuntimeDescriptor)
| ProcessDies (n : nat)
(** [connect] sends hello on a new connection, gets its answer, or fails *)
| ConnectBegins (n conn : nat) (capabilities : list string)
| ConnectAnswered (n : nat)
| ConnectFails (n : nat)
(** the receive loop of a connection *)
| LoopReads (n conn : nat) (supported : bool) (now : Z)
| LoopSent (n conn : nat) (sent : bool)
| LoopEnds (n conn : nat)
(** the task of a command *)
| HandlerEnds (n : nat) (id : string) (started now : Z) (o : handler_outcome)
| ResultSent (n : nat) (id : string) (sent : bool)
(** telemetry, and [close] *)
| TelemetrySent (n : nat) (r : request)
| TransportCloses (n : nat)
(** the server's handler of a connection *)
| ServerReceives (conn : nat) (new_session : string) (now : Z)
| ServerGreeted (conn : nat) (now : Z)
| ServerSends (conn : nat)
| ServerNotices (conn : nat) (now : Z)
(** operators *)
| CommandCreated (instance_id : string) (request : AgentCommandCreateRequest) (meta : CommandAuditMetadata)
    (new_id : string) (now : Z)
| FanoutCreated (k : service_key) (request : ServiceCommandFanoutRequest) (created_by : option string)
    (source_surface : string) (fresh : string → string) (now : Z)
| CommandsExpire (scope : expiry_scope) (now : Z)
(** the control plane starts again; a connection breaks *)
| ServerRestarts (now : Z)
| LinkBreaks (conn : nat).

(** A call that raised leaves what it has committed. *)
Definition request_served {A} (m : CP A) (s : system) : system := set_control_plane (m (control_plane s)).1 s.

(** Sending on [conn] raises: it is given up and closed. *)
Definition send_raises (n conn : nat) (t : ControlPlaneWsTransport) (s : system) : system :=
  on_conn conn break (set_process n (_mark_disconnected conn t) s).

Definition started_by (n : nat) (next : loop_next) : list event :=
  match next with ThenExecute p => [EvStarted n p] | _ => [] end.

(** A receive loop that is gone has closed its connection. *)
Definition loop_moves (n conn : nat) (t : ControlPlaneWsTransport) (s : system) : system :=
  let s := set_process n t s in
  match _receive_loops t !! conn with
  | Some _ => s
  | None => on_conn conn break s
  end.

Definition refused_by (n : nat) (supported : bool) (f : server_frame) (t : ControlPlaneWsTransport) : list event :=
  match f with
  | FCommand p => if supported || bool_decide (is_Some (_command_receipts t !! cp_command_id p)) then []
                  else [EvRefused n (cp_command_id p)]
  | _ => []
  end.

Definition step (a : action) (s : system) : option system :=
  match a with
  | ProcessStarts n service runtime =>
      match processes s !! n with
      | Some _ => None
      | None => Some (set_process n (new_transport service runtime) s)
      end
  | ProcessDies n =>
      _ ← process s n;
      Some (set_conns (fmap (λ c, if (cn_process c =? n)%nat then break c else c)) (end_process n s))
  | ConnectBegins n conn capabilities =>
      t ← process s n;
      match connections s !! conn with
      | Some _ => None
      | None =>
          t' ← connect_begins conn t;
          Some (set_conns <[conn := {| cn_process := n; cn_broken := false;
                                       cn_up := [UHello (hello_of capabilities t)]; cn_down := [];
                                       cn_ws := WsReceiving None |}]> (set_process n t' s))
      end
  | ConnectAnswered n =>
      t ← process s n;
      conn ← _connecting t;
      c ← connections s !! conn;
      match cn_down c with
      | [] => None
      | f :: down =>
          let s := on_conn conn (λ c, with_queues (cn_up c) down (cn_ws c) c)
                     (set_process n (connect_answered (Some f) t) s) in
          Some match f with FHelloAck _ _ => s | _ => on_conn conn break s end
      end
  | ConnectFails n =>
      t ← process s n;
      conn ← _connecting t;
      c ← connections s !! conn;
      if cn_broken c then Some (set_process n (connect_answered None t) s) else None
  | LoopReads n conn supported now =>
      t ← process s n;
      c ← connections s !! conn;
      match _receive_loops t !! conn, cn_down c with
      | Some LoopReading, f :: down =>
          Some (loop_moves n conn (_receive_loop supported now conn f t)
                 (record_events (refused_by n supported f t)
                    (on_conn conn (λ c, with_queues (cn_up c) down (cn_ws c) c) s)))
      | _, _ => None
      end
  | LoopSent n conn sent =>
      t ← process s n;
      match _receive_loops t !! conn with
      | Some (LoopSending to f next) =>
          c ← connections s !! to;
          if sent then
            Some (loop_moves n conn (loop_continues conn (after_send next t))
                   (record_events (started_by n next) (on_conn to (push_up f) s)))
          else if cn_broken c
          then Some (loop_moves n conn (loop_continues conn (_mark_disconnected to t, None)) s)
          else None
      | _ => None
      end
  | LoopEnds n conn =>
      t ← process s n;
      c ← connections s !! conn;
      match _receive_loops t !! conn with
      | Some LoopReading =>
          if cn_broken c then Some (loop_moves n conn (loop_continues conn (t, None)) s) else None
      | _ => None
      end
  | HandlerEnds n id started now o =>
      t ← process s n;
      match _executions t !! id with
      | Some (ExRunning p) =>
          let m := result_message (cp_command_id p) (cp_timeout_s p) started now o in
          Some (set_process n (_execute_command m t) (record_events [EvFinished n m] s))
      | _ => None
      end
  | ResultSent n id sent =>
      t ← process s n;
      match _executions t !! id with
      | Some (ExSending conn f) =>
          c ← connections s !! conn;
          let t := set_executions (delete id) t in
          if sent then Some (on_conn conn (push_up f) (set_process n t s))
          else if cn_broken c then Some (send_raises n conn t s) else None
      | _ => None
      end
  | TelemetrySent n r =>
      t ← process s n;
      match connected t, _connection t with
      | true, Some conn => Some (on_conn conn (push_up (UTelemetry r)) s)
      | _, _ => None
      end
  | TransportCloses n =>
      t ← process s n;
      let s := set_process n (close_transport t) s in
      Some match _connection t with Some conn => on_conn conn break s | None => s end
  | ServerReceives conn new_session now =>
      c ← connections s !! conn;
      match cn_ws c, cn_up c with
      | WsReceiving ctx, f :: up =>
          Some (ws_frame conn ctx f new_session now
                 (on_conn conn (λ c, with_queues up (cn_down c) (cn_ws c) c) s))
      | _, _ => None
      end
  | ServerGreeted conn now =>
      c ← connections s !! conn;
      match cn_ws c with
      | WsGreeting ctx accepted =>
          let cp := (_enqueue_pending_commands (cc_instance_id ctx) (cc_session_id ctx) accepted conn now
                       (control_plane s)).1 in
          Some (on_conn conn (set_ws (WsReceiving (Some ctx))) (set_control_plane cp s))
      | _ => None
      end
  | ServerSends conn =>
      c ← connections s !! conn;
      match send_queues (control_plane s) !! conn, cn_ws c, cn_broken c with
      | Some (p :: rest), WsReceiving _, false | Some (p :: rest), WsGreeting _ _, false =>
          Some (on_conn conn (push_down (FCommand p))
                  (set_control_plane (set_queues <[conn := rest]> (control_plane s)) s))
      | _, _, _ => None
      end
  | ServerNotices conn now =>
      c ← connections s !! conn;
      match cn_ws c, cn_broken c with
      | WsReceiving ctx, true => Some (ws_ends conn ctx now s)
      | WsGreeting ctx _, true => Some (ws_ends conn (Some ctx) now s)
      | _, _ => None
      end
  | CommandCreated instance_id request meta new_id now =>
      Some (request_served (
        i ← get_instance_or_404 instance_id;
        create_instance_command instance_id i request meta new_id now) s)
  | FanoutCreated k request created_by source_surface fresh now =>
      Some (request_served (create_service_command_fanout instance_offline_after k request created_by
                              source_surface fresh now) s)
  | CommandsExpire scope now => Some (request_served (expire_stale_commands (in_scope scope) now) s)
  | ServerRestarts now =>
      let cp := (disconnect_active_sessions now (control_plane s)).1 in
      Some (set_conns (fmap (λ c, break (set_ws WsClosed c)))
             (set_control_plane (set_connections (λ _, ∅) (set_queues (λ _, ∅) cp)) s))
  | LinkBreaks conn =>
      c ← connections s !! conn; Some (on_conn conn break s)
  end.

Fixpoint run (acts : list action) (s : system) : option system :=
  match acts with
  | [] => Some s
  | a :: acts => s' ← step a s; run acts s'
  end.

Definition reachable (s : system) : Prop := ∃ acts, run acts initial = Some s.
End System.
