(* ===== verification/CommandServer.v ===== *)
(** * The control plane keeps its commands

    What every request and every frame leaves true of the commands, the
    registry and the send queues.  The agents are known here by four facts
    only: the instance at the other end of a connection, the results its
    handlers produced, the commands it refused and the capabilities its
    sessions were accepted with; [CommandInvariant] supplies them. *)

From stdpp Require Import base gmap sets list strings numbers sorting.
From Stdlib Require Import ZArith Lia Ascii.
From S2P Require Import Prelude PyFloat Value Calendar Ingest Commands.

(** ** How a command may change *)

(** What a command came to. *)
Definition outcome (c : AgentCommand) :=
  (cmd_status c, ack_status c, result_json c, duration_ms c, error_code c, error_message c, acked_at c,
   finished_at c).

(** The request stays, and so does the outcome once there is one. *)
Definition refines (c c' : AgentCommand) : Prop :=
  build_command_message c' = build_command_message c ∧ cmd_instance_id c' = cmd_instance_id c
  ∧ cmd_service c' = cmd_service c ∧ audit c' = audit c
  ∧ (finished_at c ≠ None → outcome c' = outcome c).

Definition evolves (m m' : gmap string AgentCommand) : Prop :=
  ∀ id c, m !! id = Some c → ∃ c', m' !! id = Some c' ∧ refines c c'.

#[export] Instance refines_preorder : PreOrder refines.
Proof.
  split; [by intros c|]. intros c1 c2 c3 (E1 & E2 & E3 & E4 & E5) (F1 & F2 & F3 & F4 & F5).
  unfold refines. repeat split; try congruence. intros Hf. specialize (E5 Hf).
  rewrite F5; [done|]. unfold outcome in E5. congruence.
Qed.

#[export] Instance evolves_preorder : PreOrder evolves.
Proof.
  split; [intros m id c Hc; by exists c|]. intros m1 m2 m3 H1 H2 id c Hc.
  destruct (H1 id c Hc) as (c2 & Hc2 & R2). destruct (H2 id c2 Hc2) as (c3 & Hc3 & R3).
  exists c3. split; [done|]. by transitivity c2.
Qed.

(** A row under its key: its status says whether it is finished and how it
    was acknowledged. *)
Definition wf_command (id : string) (c : AgentCommand) : Prop :=
  command_id c = id
  ∧ match cmd_status c with
    | Spending => finished_at c = None ∧ ack_status c = None
    | Sdispatched => finished_at c = None ∧ ack_status c = None
    | Saccepted => finished_at c = None ∧ ack_status c = Some ack_accepted
    | _ => is_Some (finished_at c)
    end.

Lemma wf_unfinished id c :
  wf_command id c → finished_at c = None → cmd_status c ∈ RECONCILABLE_COMMAND_STATUSES.
Proof.
  intros [_ H] Hf. apply (bool_decide_unpack _).
  destruct (cmd_status c); try exact I; destruct H as [x Hx]; congruence.
Qed.

Lemma wf_reconcilable id c :
  wf_command id c → cmd_status c ∈ RECONCILABLE_COMMAND_STATUSES → finished_at c = None.
Proof.
  intros [_ H] Hs. pose proof (bool_decide_pack _ Hs) as Hb. clear Hs.
  destruct (cmd_status c); first [tauto | by destruct Hb].
Qed.

Section Server.
(** The instance at the other end of a connection; the results and the
    refusals of the agents of an instance, and what its sessions can do. *)
Context (conn_inst : nat → option string).
Context (finished : string → AgentCommandResultPayload → Prop) (refused : string → string → Prop).
Context (met : string → list string → Prop).

(** The command shows what a handler reported. *)
Definition reported (c : AgentCommand) : Prop :=
  ∃ m, finished (cmd_instance_id c) m ∧ res_command_id m = command_id c
       ∧ cmd_status c = result_as_status (res_status m) ∧ finished_at c = Some (res_finished_at m)
       ∧ result_json c = res_result m ∧ error_code c = res_error_code m ∧ error_message c = res_error_message m.

(** The time of the command was over when the control plane ended it. *)
Definition elapsed (c : AgentCommand) : Prop :=
  finished_at c = Some (_command_deadline c) ∧ (_command_deadline c ≤ updated_at c)%Z.

(** Every outcome has its reason. *)
Definition explained (c : AgentCommand) : Prop :=
  match cmd_status c with
  | Spending | Sdispatched | Saccepted => True
  | Srejected => refused (cmd_instance_id c) (command_id c)
                 ∨ error_code c = Some "command_capability_missing_on_reconnect" ∧ ack_status c = None
                   ∧ ∃ accepted, met (cmd_instance_id c) accepted ∧ COMMAND_CAPABILITY_BY_KIND (kind c) ∉ accepted
  | Sexpired => elapsed c ∧ ack_status c = None
  | Stimeout => reported c ∨ elapsed c ∧ error_code c = Some "command_timeout_elapsed"
                             ∧ ack_status c = Some ack_accepted
  | Ssucceeded | Sfailed | Scancelled => reported c
  end.

(** [p] is the payload of a command of the instance. *)
Definition known (m : gmap string AgentCommand) (inst : string) (p : AgentCommandPayload) : Prop :=
  ∃ c, m !! cp_command_id p = Some c ∧ build_command_message c = p ∧ cmd_instance_id c = inst.

Record cp_ok (c : ControlPlane) : Prop := {
  ok_commands : ∀ id cmd, agent_commands c !! id = Some cmd → wf_command id cmd ∧ explained cmd;
  ok_queues : ∀ k q p, send_queues c !! k = Some q → p ∈ q →
    ∃ inst, conn_inst k = Some inst ∧ known (agent_commands c) inst p;
  ok_registry : ∀ inst lc, _connections c !! inst = Some lc → conn_inst (lc_send_queue lc) = Some inst;
}.

Definition keeps (c c' : ControlPlane) : Prop :=
  cp_ok c → cp_ok c' ∧ evolves (agent_commands c) (agent_commands c').

#[export] Instance keeps_preorder : PreOrder keeps.
Proof.
  split; [by intros c|]. intros c1 c2 c3 H1 H2 Ok.
  destruct (H1 Ok) as [Ok2 E2]. destruct (H2 Ok2) as [Ok3 E3]. split; [done|]. by etransitivity.
Qed.

Lemma known_evolves m m' inst p : evolves m m' → known m inst p → known m' inst p.
Proof.
  intros E (c & Hc & Hp & Hi). destruct (E _ _ Hc) as (c' & Hc' & R & Ri & _).
  exists c'. by rewrite R, Ri.
Qed.

(** ** Primitive changes *)

Lemma commands_change (f : gmap string AgentCommand → gmap string AgentCommand) c :
  (∀ id cmd, f (agent_commands c) !! id = Some cmd → wf_command id cmd ∧ explained cmd) →
  evolves (agent_commands c) (f (agent_commands c)) →
  cp_ok c → cp_ok (set_commands f c) ∧ evolves (agent_commands c) (agent_commands (set_commands f c)).
Proof.
  intros Hw E [Hc Hq Hr]. split; [|done]. split; [done| |done].
  intros k q p Hk Hp. destruct (Hq k q p Hk Hp) as (inst & Hi & Hn). exists inst. split; [done|].
  by eapply known_evolves.
Qed.

Lemma command_updated id f cmd c :
  agent_commands c !! id = Some cmd →
  wf_command id (f cmd) → explained (f cmd) → refines cmd (f cmd) →
  cp_ok c → cp_ok (set_commands (alter f id) c)
            ∧ evolves (agent_commands c) (agent_commands (set_commands (alter f id) c)).
Proof.
  intros Hl Hw He R Ok. apply commands_change; [| |done].
  - intros id' cmd'. rewrite lookup_alter. case_decide as D; [subst|apply Ok].
    rewrite Hl. by intros [= <-].
  - intros id' cmd' Hc'. rewrite lookup_alter. case_decide as D; [subst|by exists cmd'].
    rewrite Hl in *. simplify_eq. by exists (f cmd').
Qed.

Lemma commands_mapped f c :
  (∀ id cmd, wf_command id cmd → explained cmd →
     wf_command id (f cmd) ∧ explained (f cmd) ∧ refines cmd (f cmd)) →
  keeps c (set_commands (fmap f) c).
Proof.
  intros Hf Ok. apply commands_change; [| |done].
  - intros id cmd. rewrite lookup_fmap, fmap_Some. intros (cmd0 & Hc & ->).
    apply Ok in Hc as [Hw He]. by destruct (Hf id cmd0 Hw He) as (? & ? & ?).
  - intros id cmd Hc. rewrite lookup_fmap, Hc. exists (f cmd). split; [done|].
    apply Ok in Hc as [Hw He]. by destruct (Hf id cmd Hw He) as (? & ? & ?).
Qed.

Lemma command_added id cmd c :
  agent_commands c !! id = None → wf_command id cmd → explained cmd → keeps c (set_commands <[id := cmd]> c).
Proof.
  intros Hl Hw He Ok. apply commands_change; [| |done].
  - intros id' cmd'. rewrite lookup_insert. case_decide as D; [by subst; intros [= <-]|apply Ok].
  - intros id' cmd' Hc'. rewrite lookup_insert. case_decide as D; [congruence|by exists cmd'].
Qed.

(** Changes of the other tables. *)
Lemma keeps_other c c' :
  agent_commands c' = agent_commands c → send_queues c' = send_queues c → _connections c' = _connections c →
  keeps c c'.
Proof. intros E1 E2 E3 [Hc Hq Hr]. split; [split; by rewrite ?E1, ?E2, ?E3|by rewrite E1]. Qed.

Lemma put_keeps k inst p c :
  conn_inst k = Some inst → known (agent_commands c) inst p → keeps c (put k p c).1.
Proof.
  intros Hk Hp [Hc Hq Hr]. split; [|done]. split; [done| |done]. cbn.
  intros k' q p'. rewrite lookup_insert. case_decide as D; [subst|apply Hq].
  intros [= <-] [Hi | ->%list_elem_of_singleton]%elem_of_app; [|by exists inst].
  destruct (send_queues c !! k') as [q|] eqn:E; [by eapply Hq | by apply elem_of_nil in Hi].
Qed.
(** ** Expiry *)

Lemma expired_command_ok as_of id c :
  wf_command id c → cmd_status c ∈ RECONCILABLE_COMMAND_STATUSES → (_command_deadline c ≤ as_of)%Z →
  wf_command id (expired_command as_of c) ∧ explained (expired_command as_of c)
  ∧ refines c (expired_command as_of c).
Proof.
  intros Hw Hs Hd. pose proof (wf_reconcilable id c Hw Hs) as Hf. destruct Hw as [Hid Hw].
  assert (Ha : ack_status c = None ∧ cmd_status c ≠ Saccepted
               ∨ ack_status c = Some ack_accepted ∧ cmd_status c = Saccepted).
  { pose proof (bool_decide_pack _ Hs) as Hb. clear Hs.
    destruct (cmd_status c); try (by destruct Hb); [left|left|right]; destruct Hw; done. }
  set (taken := bool_decide (cmd_status c = Saccepted) || bool_decide (ack_status c = Some ack_accepted)).
  assert (Ht : taken = false ∧ ack_status c = None ∨ taken = true ∧ ack_status c = Some ack_accepted).
  { subst taken. destruct Ha as [[-> Hn] | [-> ->]]; [left; by rewrite bool_decide_eq_false_2 | by right]. }
  unfold wf_command, explained, elapsed, reported, refines, outcome. cbn. fold taken.
  split_and!; try done.
  - by destruct taken.
  - destruct Ht as [[-> Hn] | [-> Hn]]; [by split_and!|right; by split_and!].
Qed.

Lemma stale_command_ok p as_of id c :
  wf_command id c → is_stale p as_of c = true →
  wf_command id (expired_command as_of c) ∧ explained (expired_command as_of c)
  ∧ refines c (expired_command as_of c).
Proof.
  unfold is_stale. intros Hw [[Hs _]%andb_true_iff Hd]%andb_true_iff.
  apply expired_command_ok; [done| |by apply Z.leb_le]. by eapply bool_decide_unpack, Is_true_true.
Qed.

Lemma expire_keeps p as_of : se_rel keeps (expire_stale_commands p as_of).
Proof.
  unfold expire_stale_commands. apply se_rel_bind; [apply _|apply se_rel_gets, _|]. intros n.
  apply se_rel_bind; [apply _| |intros; apply se_rel_ret, _]. apply se_rel_modify. intros c.
  apply commands_mapped. intros id cmd Hw He. destruct (is_stale p as_of cmd) eqn:E; [|by split_and!].
  by eapply stale_command_ok.
Qed.

(** ** Creation *)

Lemma create_command_spec id instance_id i k args timeout meta now s s' c :
  create_command id instance_id i k args timeout meta now s = (s', Ok c) →
  agent_commands s !! id = None ∧ s' = set_commands <[id := c]> s ∧ command_id c = id
  ∧ cmd_status c = Spending ∧ finished_at c = None ∧ ack_status c = None ∧ cmd_instance_id c = instance_id
  ∧ kind c = k ∧ args_json c = args ∧ timeout_s c = timeout ∧ created_at c = now.
Proof.
  unfold create_command, mbind, se_bind, se_gets, se_lift, se_modify, guard_else.
  case_bool_decide as D; cbn; [done|]. destruct (timeout <? 2 ^ 31)%Z; cbn; [|done].
  intros [= <- <-]. split; [by apply eq_None_not_Some|]. done.
Qed.

Lemma create_command_err id instance_id i k args timeout meta now s s' e :
  create_command id instance_id i k args timeout meta now s = (s', Err e) → s' = s.
Proof.
  unfold create_command, mbind, se_bind, se_gets, se_lift, se_modify, guard_else.
  case_bool_decide as D; cbn; [by intros [= <- _]|]. destruct (timeout <? 2 ^ 31)%Z; cbn; [done|].
  by intros [= <- _].
Qed.

Lemma create_keeps id instance_id i k args timeout meta now :
  se_rel keeps (create_command id instance_id i k args timeout meta now).
Proof.
  intros s. destruct (create_command _ _ _ _ _ _ _ _ s) as [s' [c|e]] eqn:E; cbn.
  - apply create_command_spec in E as (Hn & -> & Hid & Hs & Hf & Ha & _). apply command_added; [done| |].
    + split; [done|]. by rewrite Hs.
    + unfold explained. by rewrite Hs.
  - by apply create_command_err in E as ->.
Qed.

Lemma dispatched_ok session now id c :
  wf_command id c → explained c → cmd_status c ∈ REDISPATCHABLE_COMMAND_STATUSES →
  let c' := mark_command_dispatched session now c in
  wf_command id c' ∧ explained c' ∧ refines c c' ∧ build_command_message c' = build_command_message c.
Proof.
  intros [Hid Hw] He Hs. cbn. unfold wf_command, explained, refines, outcome. cbn.
  pose proof (bool_decide_pack _ Hs) as Hb. clear Hs.
  destruct (cmd_status c); try (by destruct Hb); cbn; by destruct Hw as [-> ?].
Qed.

Lemma dispatch_keeps conn instance_id id i k args timeout meta now :
  conn_inst (lc_send_queue conn) = Some instance_id →
  se_rel keeps (dispatch_command conn (create_command id instance_id i k args timeout meta now) now).
Proof.
  intros Hc s Ok. unfold dispatch_command, mbind, se_bind.
  pose proof (create_keeps id instance_id i k args timeout meta now s Ok) as [Ok1 E1].
  destruct (create_command _ _ _ _ _ _ _ _ s) as [s1 [c|e]] eqn:E; cbn in *; [|done].
  apply create_command_spec in E as (Hn & -> & Hid & Hs & Hf & Ha & Hi & _).
  set (c' := mark_command_dispatched (lc_session_id conn) now c).
  assert (Hl : agent_commands (set_commands <[id := c]> s) !! id = Some c) by (cbn; by rewrite lookup_insert_eq).
  destruct (ok_commands _ Ok1 id c Hl) as [Hw He].
  destruct (dispatched_ok (lc_session_id conn) now id c Hw He) as (Hw' & He' & R & Hm);
    [rewrite Hs; by left|].
  rewrite Hid.
  destruct (command_updated id (λ _, c') c _ Hl Hw' He' R Ok1) as [Ok2 E2].
  assert (Hk : known (agent_commands (set_commands (alter (λ _, c') id) (set_commands <[id := c]> s)))
                 instance_id (build_command_message c')).
  { exists c'. split; [|done]. cbn. rewrite Hid, lookup_alter_eq. by rewrite lookup_insert_eq. }
  destruct (put_keeps (lc_send_queue conn) instance_id _ _ Hc Hk Ok2) as [Ok3 E3].
  split; [exact Ok3|]. etransitivity; [exact E1|]. by etransitivity.
Qed.
(** Descend into a computation made of steps that keep the state. *)
Ltac keep_steps :=
  repeat match goal with
  | |- se_rel keeps (mret _) => apply se_rel_ret; apply _
  | |- se_rel keeps (se_gets _) => apply se_rel_gets; apply _
  | |- se_rel keeps (se_lift _) => apply se_rel_lift; apply _
  | |- se_rel keeps (se_raise _) => apply se_rel_raise; apply _
  | |- se_rel keeps (create_command _ _ _ _ _ _ _ _) => apply create_keeps
  | |- se_rel keeps (expire_stale_commands _ _) => apply expire_keeps
  | |- se_rel keeps (match ?x with _ => _ end) => destruct x
  | |- se_rel keeps (_ ≫= _) => apply se_rel_bind; [apply _ | | intros ?]
  end.

(** A command for the live connection of an instance, if it has one. *)
Lemma live_keeps {A} instance_id (none : CP A) (some : LiveAgentConnection → CP A) :
  se_rel keeps none →
  (∀ conn, conn_inst (lc_send_queue conn) = Some instance_id → se_rel keeps (some conn)) →
  se_rel keeps (live ← se_gets (λ c, _connections c !! instance_id);
                match live with None => none | Some conn => some conn end).
Proof.
  intros Hn Hs s Ok. unfold mbind, se_bind, se_gets.
  destruct (_connections s !! instance_id) as [conn|] eqn:E; [|by apply Hn].
  apply Hs; [|done]. by eapply ok_registry.
Qed.

Lemma create_instance_keeps instance_id i request meta new_id now :
  se_rel keeps (create_instance_command instance_id i request meta new_id now).
Proof.
  unfold create_instance_command. apply se_rel_bind; [apply _|apply se_rel_gets, _|]. intros [s|].
  - do 2 (apply se_rel_bind; [apply _|apply se_rel_lift, _|intros _]).
    apply live_keeps; [keep_steps|]. intros conn Hc. by apply dispatch_keeps.
  - keep_steps.
Qed.

Lemma fanout_target_keeps off request meta new_id now ni :
  se_rel keeps (fanout_target off request meta new_id now ni).
Proof.
  destruct ni as [id i]. unfold fanout_target. apply se_rel_bind; [apply _|apply se_rel_gets, _|]. intros [s|].
  - destruct (negb _); [keep_steps|]. destruct (_task_support_rejection _ _ _) as [[code detail]|]; [keep_steps|].
    apply live_keeps; [keep_steps|]. intros conn Hc.
    apply se_rel_bind; [apply _|by apply dispatch_keeps|intros c; keep_steps].
  - keep_steps.
Qed.

Lemma fanout_keeps off k request created_by surface fresh now :
  se_rel keeps (create_service_command_fanout off k request created_by surface fresh now).
Proof.
  unfold create_service_command_fanout, _list_fanout_target_instances.
  apply se_rel_bind; [apply _|keep_steps|]. intros targets.
  apply se_rel_bind; [apply _| |intros; keep_steps].
  apply se_rel_map; [apply _|]. intros ni _. apply fanout_target_keeps.
Qed.

(** ** Sessions and the registry *)

Definition tables_of (c : ControlPlane) := (agent_commands c, send_queues c, _connections c).

Lemma other_tables {A} (m : CP A) : (∀ t, se_inv (λ c, tables_of c = t) m) → se_rel keeps m.
Proof. intros H s. specialize (H (tables_of s) s eq_refl). injection H as E1 E2 E3. by apply keeps_other. Qed.

Lemma on_db_tables {A} t (m : SE DB exn A) : se_inv (λ c, tables_of c = t) (on_db m).
Proof. intros s Hs. unfold on_db. by destruct (m (db s)) as [d r]. Qed.

Lemma atomically_inv {A} (I : ControlPlane → Prop) (m : CP A) : se_inv I m → se_inv I (atomically m).
Proof. intros H s Hs. unfold atomically. specialize (H s Hs). by destruct (m s) as [s' []]. Qed.

Lemma sessions_tables t f : se_inv (E:=exn) (λ c, tables_of c = t) (se_modify (set_sessions f)).
Proof. by apply se_inv_modify. Qed.

Lemma hello_keeps p session now : se_rel keeps (_handle_hello p session now).
Proof.
  apply other_tables. intros t. unfold _handle_hello.
  apply se_inv_bind; [apply se_inv_lift|]. intros _. apply atomically_inv.
  do 4 (apply se_inv_bind; [apply on_db_tables|intros _]).
  apply se_inv_bind; [apply se_inv_gets|]. intros taken.
  apply se_inv_bind; [apply se_inv_lift|]. intros _.
  apply se_inv_bind; [apply sessions_tables|]. intros _. apply se_inv_ret.
Qed.

(** A session that was greeted has the capabilities it asked for that the
    server knows. *)
Lemma hello_accepts p session now s s' se acc :
  _handle_hello p session now s = (s', Ok (se, acc)) → acc = _accepted_capabilities (he_capabilities p).
Proof.
  unfold _handle_hello. intros (s1 & u & _ & H)%se_bind_ok. revert H. unfold atomically.
  match goal with |- context [match ?m s1 with _ => _ end] => set (body := m); destruct (body s1) as [s2 r] eqn:E end.
  destruct r as [[se' acc']|]; intros [= <- <- <-]. subst body.
  repeat match type of E with
  | mret _ _ = _ => by injection E as _ _ <-
  | (_ ≫= _) _ = (_, Ok _) => apply se_bind_ok in E as (? & ? & _ & E)
  end.
Qed.

Lemma session_message_keeps session now : se_rel keeps (_mark_session_message session now).
Proof. apply other_tables. intros t. apply sessions_tables. Qed.

Lemma close_session_keeps session now : se_rel keeps (_close_session session now).
Proof. apply other_tables. intros t. apply sessions_tables. Qed.

Lemma disconnect_keeps now : se_rel keeps (disconnect_active_sessions now).
Proof. apply other_tables. intros t. apply sessions_tables. Qed.

Lemma ingest_keeps labels_hash r now : se_rel keeps (on_db (ingest labels_hash r now)).
Proof. apply other_tables. intros t. apply on_db_tables. Qed.

Lemma register_keeps instance_id session queue :
  conn_inst queue = Some instance_id → se_rel keeps (register instance_id session queue).
Proof.
  intros Hc s [Ok1 Ok2 Ok3]. split; [|done]. split; [done|done|]. cbn. intros inst lc.
  rewrite lookup_insert. case_decide as D; [subst; by intros [= <-]|apply Ok3].
Qed.

Lemma unregister_keeps instance_id session : se_rel keeps (unregister instance_id session).
Proof.
  intros s [Ok1 Ok2 Ok3]. unfold unregister, mbind, se_bind, se_gets.
  destruct (_connections s !! instance_id) as [conn|]; [|done]. destruct (String.eqb _ _); [|done].
  split; [|done]. split; [done|done|]. cbn. intros inst lc. rewrite lookup_delete. case_decide; [done|apply Ok3].
Qed.

(** ** Acknowledgements and results *)

Lemma resolve_spec ctx id s c :
  _resolve_command_for_session ctx id s = Some c →
  agent_commands s !! id = Some c ∧ cmd_instance_id c = cc_instance_id ctx.
Proof.
  unfold _resolve_command_for_session. intros (cmd & Hc & H)%bind_Some.
  destruct (String.eqb _ _) eqn:E; [|done]. simplify_eq. by apply String.eqb_eq in E.
Qed.

Lemma ack_keeps ctx m now :
  (ack_payload_status m = ack_rejected → refused (cc_instance_id ctx) (ack_command_id m)) →
  se_rel keeps (_handle_command_ack ctx m now).
Proof.
  intros Hm s Ok. unfold _handle_command_ack, mbind, se_bind, se_gets.
  destruct (_resolve_command_for_session ctx (ack_command_id m) s) as [c|] eqn:E; [|done].
  apply resolve_spec in E as [Hl Hi]. case_bool_decide as Df; [done|]. case_bool_decide as Da; [done|]. cbn.
  destruct (ok_commands _ Ok _ _ Hl) as [[Hid Hw] He].
  apply eq_None_not_Some in Df, Da. eapply command_updated; [exact Hl| | | |exact Ok].
  - split; [done|]. cbn. case_bool_decide as D; [by rewrite Df, D|done].
  - unfold explained. cbn. case_bool_decide as D; [done|]. left. rewrite Hi, Hid. apply Hm.
    by destruct (ack_payload_status m).
  - repeat split; try done.
Qed.

Lemma result_keeps ctx m now :
  finished (cc_instance_id ctx) m → se_rel keeps (_handle_command_result ctx m now).
Proof.
  intros Hm s Ok. unfold _handle_command_result, mbind, se_bind, se_gets.
  destruct (_resolve_command_for_session ctx (res_command_id m) s) as [c|] eqn:E; [|done].
  apply resolve_spec in E as [Hl Hi]. case_bool_decide as Df; [done|]. cbn.
  destruct (ok_commands _ Ok _ _ Hl) as [[Hid Hw] He].
  apply eq_None_not_Some in Df. eapply command_updated; [exact Hl| | | |exact Ok].
  - split; [done|]. cbn. destruct (res_status m); by eexists.
  - assert (reported (answered ctx m now c)). { exists m. cbn. rewrite Hi, Hid. by split_and!. }
    unfold explained. cbn. destruct (res_status m); cbn; try done. by left.
  - repeat split; try done.
Qed.
End Server.

(** ** The commands that wait for a reconnecting agent *)

Section Redelivery.
Context (session : string) (accepted : list string) (queue : nat) (now : Z).

Definition deliverable (c : AgentCommand) : bool := bool_decide (COMMAND_CAPABILITY_BY_KIND (kind c) ∈ accepted).

(** What becomes of a command that waits. *)
Definition redelivered (c : AgentCommand) : AgentCommand :=
  if deliverable c then mark_command_dispatched session now c
  else _mark_command_rejected_without_delivery "command_capability_missing_on_reconnect"
    ("the reconnecting session does not advertise " +:+ COMMAND_CAPABILITY_BY_KIND (kind c)
       +:+ "; queued delivery was abandoned") now c.

Definition sent (cs : list AgentCommand) : list AgentCommandPayload :=
  build_command_message <$> List.filter deliverable cs.

Lemma redeliver_run c s :
  ∃ s', redeliver session accepted queue now c s = (s', Ok ())
    ∧ agent_commands s' = alter (λ _, redelivered c) (command_id c) (agent_commands s)
    ∧ _connections s' = _connections s ∧ agent_sessions s' = agent_sessions s ∧ db s' = db s
    ∧ ∀ k, default [] (send_queues s' !! k)
           = default [] (send_queues s !! k) ++ (if decide (k = queue) then sent [c] else []).
Proof.
  unfold redeliver, redelivered, sent, deliverable. destruct (decide _) as [D|D].
  - rewrite (bool_decide_eq_true_2 _ D). eexists. split; [reflexivity|]. split; [done|]. split_and!; try done.
    cbn. rewrite (bool_decide_eq_true_2 _ D). cbn. intros k. rewrite lookup_insert.
    destruct (decide (queue = k)) as [->|Hn]; [by rewrite decide_True|]. by rewrite decide_False, app_nil_r.
  - rewrite (bool_decide_eq_false_2 _ D). eexists. split; [reflexivity|]. split; [done|]. split_and!; try done.
    cbn. rewrite (bool_decide_eq_false_2 _ D). cbn. intros k. by destruct (decide _); rewrite app_nil_r.
Qed.

Definition write_all (m : gmap string AgentCommand) (cs : list AgentCommand) : gmap string AgentCommand :=
  foldl (λ m c, alter (λ _, redelivered c) (command_id c) m) m cs.

Lemma redeliver_all cs s :
  ∃ s', se_iter (redeliver session accepted queue now) cs s = (s', Ok ())
    ∧ agent_commands s' = write_all (agent_commands s) cs
    ∧ _connections s' = _connections s ∧ agent_sessions s' = agent_sessions s ∧ db s' = db s
    ∧ ∀ k, default [] (send_queues s' !! k)
           = default [] (send_queues s !! k) ++ (if decide (k = queue) then sent cs else []).
Proof.
  revert s. induction cs as [|c cs IH]; intros s.
  - exists s. split_and!; try done. intros k. by destruct (decide _); rewrite app_nil_r.
  - destruct (redeliver_run c s) as (s1 & E1 & A1 & B1 & C1 & D1 & Q1).
    destruct (IH s1) as (s2 & E2 & A2 & B2 & C2 & D2 & Q2).
    exists s2. cbn. unfold mbind at 1, se_bind at 1. rewrite E1, E2. split_and!; try congruence.
    + by rewrite A2, A1.
    + intros k. rewrite Q2, Q1, <- (assoc_L (++)). f_equal. destruct (decide _); [|done].
      unfold sent. cbn. by destruct (deliverable c).
Qed.

(** Each of them is written once, under its key. *)
Lemma write_all_lookup m cs id :
  NoDup (command_id <$> cs) →
  write_all m cs !! id = match List.find (λ c, String.eqb (command_id c) id) cs with
                         | Some c => (λ _, redelivered c) <$> m !! id
                         | None => m !! id
                         end.
Proof.
  revert m. induction cs as [|c cs IH]; intros m; cbn; [done|]. intros [Hc Hn]%NoDup_cons.
  rewrite IH by done. rewrite lookup_alter. destruct (String.eqb (command_id c) id) eqn:E.
  - apply String.eqb_eq in E. subst id. rewrite decide_True by done.
    destruct (List.find _ cs) as [c'|] eqn:F; [|by destruct (m !! _)].
    apply List.find_some in F as [Hi He]. apply String.eqb_eq in He. exfalso. apply Hc.
    rewrite <- He. apply list_elem_of_fmap. exists c'. split; [done|]. by apply list_elem_of_In.
  - apply String.eqb_neq in E. by rewrite decide_False.
Qed.
End Redelivery.

(** Rows are found under their own key. *)
Definition keyed (m : gmap string AgentCommand) : Prop := ∀ id c, m !! id = Some c → command_id c = id.

Lemma select_spec p s c :
  keyed (agent_commands s) →
  c ∈ select_commands p s ↔ agent_commands s !! command_id c = Some c ∧ p c = true.
Proof.
  intros Hk. unfold select_commands. rewrite merge_sort_Permutation, !list_elem_of_In, List.filter_In.
  rewrite <- list_elem_of_In, list_elem_of_fmap. split.
  - intros [([id c'] & -> & Hi%elem_of_map_to_list) Hp]. cbn in *. by rewrite (Hk _ _ Hi).
  - intros [Hl Hp]. split; [|done]. exists (command_id c, c). split; [done|]. by apply elem_of_map_to_list.
Qed.

Lemma select_nodup p s : keyed (agent_commands s) → NoDup (command_id <$> select_commands p s).
Proof.
  intros Hk. unfold select_commands. rewrite merge_sort_Permutation.
  assert (H : ∀ l : list (string * AgentCommand), NoDup l.*1 → (∀ kc, kc ∈ l → command_id kc.2 = kc.1) →
              NoDup (command_id <$> List.filter p l.*2)).
  { induction l as [|[k c] l IH]; cbn; [constructor|]. intros [Hn Hd]%NoDup_cons Hl.
    assert (IH' := IH Hd (λ kc Hkc, Hl kc (list_elem_of_further _ _ _ Hkc))).
    destruct (p c); cbn; [|done]. constructor; [|done].
    intros (c' & He & Hi%list_elem_of_In)%list_elem_of_fmap. apply List.filter_In in Hi as [Hi _].
    apply list_elem_of_In, list_elem_of_fmap in Hi as ([k' c''] & -> & Hi). apply Hn.
    apply list_elem_of_fmap. exists (k', c''). split; [|done]. cbn in *.
    pose proof (Hl _ (list_elem_of_further _ _ _ Hi)). pose proof (Hl _ (list_elem_of_here _ _)).
    cbn in *. congruence. }
  apply H; [apply NoDup_fst_map_to_list|]. intros [k c] Hi%elem_of_map_to_list. by apply Hk.
Qed.

#[export] Instance command_le_total : Total command_le.
Proof.
  intros a b. unfold command_le.
  destruct (Z.ltb_spec (created_at a) (created_at b)), (Z.ltb_spec (created_at b) (created_at a)); try by left.
  - by right.
  - assert (created_at a = created_at b) as -> by lia. rewrite Z.eqb_refl. cbn.
    destruct (String.leb_total (command_id a) (command_id b)) as [E|E]; rewrite E; [by left | by right].
Qed.

Lemma leb_trans a b c : String.leb a b = true → String.leb b c = true → String.leb a c = true.
Proof.
  unfold String.leb. revert b c. induction a as [|x a IH]; intros [|y b] [|z c]; cbn; try done.
  unfold Ascii.compare. specialize (IH b c).
  destruct (N.compare_spec (N_of_ascii x) (N_of_ascii y)) as [E1|E1|E1],
    (N.compare_spec (N_of_ascii y) (N_of_ascii z)) as [E2|E2|E2]; try done; intros H1 H2;
    destruct (N.compare_spec (N_of_ascii x) (N_of_ascii z)) as [E3|E3|E3]; try done; try lia.
  by apply IH.
Qed.

#[export] Instance command_le_trans : Transitive command_le.
Proof.
  intros a b c. unfold command_le. intros [H1|[E1 H1]%andb_true_iff]%orb_true_iff [H2|[E2 H2]%andb_true_iff]%orb_true_iff;
    zbool; apply orb_true_iff.
  1-3: left; apply Z.ltb_lt; lia.
  right. rewrite E1, E2, Z.eqb_refl. cbn. by eapply leb_trans.
Qed.

Lemma enqueue_effect (s : ControlPlane) (instance_id session : string) (accepted : list string)
    (queue : nat) (now : Z) :
  keyed (agent_commands s) →
  let s' := (_enqueue_pending_commands instance_id session accepted queue now s).1 in
  let current c := if is_stale (of_instance instance_id) now c then expired_command now c else c in
  let waits c := of_instance instance_id c && bool_decide (cmd_status c ∈ REDISPATCHABLE_COMMAND_STATUSES) in
  (∀ id, agent_commands s' !! id
         = (λ c, if waits (current c) then redelivered session accepted now (current c) else current c)
           <$> agent_commands s !! id)
  ∧ (∃ cs, default [] (send_queues s' !! queue)
          = default [] (send_queues s !! queue) ++ (build_command_message <$> cs)
    ∧ StronglySorted command_le cs ∧ NoDup (command_id <$> cs)
    ∧ ∀ c, c ∈ cs ↔ agent_commands s !! command_id c = Some c ∧ waits c = true
                    ∧ is_stale (of_instance instance_id) now c = false ∧ deliverable accepted c = true)
  ∧ (_connections s' = _connections s)
  ∧ ∀ k, k ≠ queue → default [] (send_queues s' !! k) = default [] (send_queues s !! k).
Proof.
  intros Hk s' current waits.
  set (s1 := (expire_stale_commands (of_instance instance_id) now s).1).
  assert (Hs1 : agent_commands s1 = current <$> agent_commands s) by done.
  assert (Hk1 : keyed (agent_commands s1)).
  { intros id c. rewrite Hs1, lookup_fmap, fmap_Some. intros (c0 & Hc & ->). rewrite <- (Hk _ _ Hc).
    subst current. cbn. by destruct (is_stale _ _ _). }
  set (cs := select_commands waits s1).
  destruct (redeliver_all session accepted queue now cs s1) as (s2 & E & A & B & _ & _ & Q).
  assert (Es : s' = s2).
  { assert (El : list_redeliverable_commands_for_instance instance_id now s = (s1, Ok cs)) by reflexivity.
    subst s'. unfold _enqueue_pending_commands, mbind, se_bind. by rewrite El, E. }
  assert (Hw : ∀ c, is_stale (of_instance instance_id) now c = true → waits (expired_command now c) = false).
  { intros c _. subst waits. cbn. apply andb_false_intro2, bool_decide_eq_false_2. 
    destruct (_ || _); intros H; pose proof (bool_decide_pack _ H) as Hb; by destruct Hb. }
  assert (Hsel : ∀ c, c ∈ cs ↔ agent_commands s !! command_id c = Some c ∧ waits c = true
                                ∧ is_stale (of_instance instance_id) now c = false).
  { intros c. subst cs. rewrite (select_spec _ _ _ Hk1), Hs1, lookup_fmap, fmap_Some. split.
    - intros [(c0 & Hc & Ec) Hp]. subst current. cbn in Ec.
      destruct (is_stale (of_instance instance_id) now c0) eqn:Est; [|by subst].
      rewrite Ec, Hw in Hp by done. done.
    - intros (Hc & Hp & Est). split; [|done]. exists c. split; [done|]. subst current. cbn. by rewrite Est. }
  rewrite Es. clearbody s'. split; [|split; [|split; [exact B|]]].
  - intros id. rewrite A, write_all_lookup by (by apply select_nodup). rewrite Hs1, lookup_fmap.
    destruct (agent_commands s !! id) as [c|] eqn:Hc; cbn; [|by destruct (List.find _ _)].
    destruct (waits (current c)) eqn:Ew.
    all: assert (Hid : agent_commands s1 !! id = Some (current c)) by (rewrite Hs1, lookup_fmap, Hc; done).
    all: destruct (List.find (λ c, String.eqb (command_id c) id) cs) as [c'|] eqn:F; [|try done].
    + apply List.find_some in F as [Hi He%String.eqb_eq]. apply list_elem_of_In in Hi.
      apply (select_spec _ _ _ Hk1) in Hi as [Hi Hp]. rewrite He, Hid in Hi. by injection Hi as <-.
    + assert (Hin : current c ∈ cs) by (apply (select_spec _ _ _ Hk1); by rewrite (Hk1 _ _ Hid)).
      apply list_elem_of_In in Hin. eapply List.find_none in F; [|exact Hin]. cbn in F.
      by rewrite (Hk1 _ _ Hid), String.eqb_refl in F.
    + apply List.find_some in F as [Hi He%String.eqb_eq]. apply list_elem_of_In in Hi.
      apply (select_spec _ _ _ Hk1) in Hi as [Hi Hp]. rewrite He, Hid in Hi. injection Hi as <-.
      by rewrite Ew in Hp.
  - exists (List.filter (deliverable accepted) cs). split; [|split; [|split]].
    + rewrite Q, decide_True by done. done.
    + assert (Hss : StronglySorted command_le cs) by (apply StronglySorted_merge_sort; apply _).
      clearbody cs. clear -Hss. induction Hss as [|c cs _ IH Hc]; cbn; [constructor|].
      destruct (deliverable accepted c); [|done]. constructor; [done|].
      rewrite Forall_forall in *. intros x Hx%list_elem_of_In. apply List.filter_In in Hx as [Hx _].
      by apply Hc, list_elem_of_In.
    + assert (Hn : NoDup (command_id <$> cs)) by (by apply select_nodup).
      clearbody cs. clear -Hn. induction cs as [|c cs IH]; cbn; [done|]. cbn in Hn.
      apply NoDup_cons in Hn as [Hc Hn]. destruct (deliverable accepted c); cbn; [|by apply IH].
      constructor; [|by apply IH]. intros (x & Ex & Hx%list_elem_of_In)%list_elem_of_fmap.
      apply List.filter_In in Hx as [Hx _]. apply Hc, list_elem_of_fmap. exists x. split; [done|].
      by apply list_elem_of_In.
    + intros c. rewrite list_elem_of_In, List.filter_In, <- list_elem_of_In, Hsel. tauto.
  - intros k Hn. by rewrite Q, decide_False, app_nil_r by done.
Qed.

Section Reconnect.
Context (conn_inst : nat → option string).
Context (finished : string → AgentCommandResultPayload → Prop) (refused : string → string → Prop).
Context (met : string → list string → Prop).

Lemma cp_ok_keyed s : cp_ok conn_inst finished refused met s → keyed (agent_commands s).
Proof. intros Ok id c Hc. by apply Ok in Hc as [[Hid _] _]. Qed.

Lemma redelivered_ok session accepted now id c :
  wf_command id c → explained finished refused met c → cmd_status c ∈ REDISPATCHABLE_COMMAND_STATUSES →
  met (cmd_instance_id c) accepted →
  let c' := redelivered session accepted now c in
  wf_command id c' ∧ explained finished refused met c' ∧ refines c c'.
Proof.
  intros Hw He Hs Hm. unfold redelivered. destruct (deliverable accepted c) eqn:Ed; cbn.
  - by destruct (dispatched_ok finished refused met session now id c Hw He Hs) as (? & ? & ? & _).
  - destruct Hw as [Hid Hw]. assert (Hf : finished_at c = None ∧ ack_status c = None).
    { pose proof (bool_decide_pack _ Hs) as Hb. clear Hs. by destruct (cmd_status c); destruct Hb. }
    destruct Hf as [Hf Ha]. unfold wf_command, explained, refines. cbn. rewrite Hf. split_and!; try done.
    right. split_and!; [done..|]. exists accepted. split; [done|]. by apply bool_decide_eq_false in Ed.
Qed.

Lemma enqueue_keeps instance_id session accepted queue now :
  conn_inst queue = Some instance_id → met instance_id accepted →
  se_rel (keeps conn_inst finished refused met) (_enqueue_pending_commands instance_id session accepted queue now).
Proof.
  intros Hq Hmet s Ok.
  destruct (enqueue_effect s instance_id session accepted queue now (cp_ok_keyed s Ok)) as (Hc & Hcs & Hr & Ho).
  set (s' := (_enqueue_pending_commands instance_id session accepted queue now s).1) in *. clearbody s'. cbn in Hc.
  assert (Hstep : ∀ id c, agent_commands s !! id = Some c → ∃ c', agent_commands s' !! id = Some c'
             ∧ wf_command id c' ∧ explained finished refused met c' ∧ refines c c').
  { intros id c Hl. eexists. rewrite Hc, Hl. split; [reflexivity|]. cbn.
    destruct (ok_commands _ _ _ _ _ Ok id c Hl) as [Hw He].
    set (c1 := if is_stale (of_instance instance_id) now c then expired_command now c else c).
    assert (H1 : wf_command id c1 ∧ explained finished refused met c1 ∧ refines c c1).
    { subst c1. destruct (is_stale _ _ _) eqn:Es; [|by split_and!].
      by eapply stale_command_ok. }
    destruct H1 as (Hw1 & He1 & R1).
    destruct (of_instance instance_id c1 && _) eqn:Ew; [|by split_and!].
    apply andb_true_iff in Ew as [Ei%String.eqb_eq Ew%Is_true_true%bool_decide_unpack].
    rewrite <- Ei in Hmet. destruct (redelivered_ok session accepted now id c1 Hw1 He1 Ew Hmet) as (Hw2 & He2 & R2).
    split_and!; [done..|]. by transitivity c1. }
  assert (E : evolves (agent_commands s) (agent_commands s')).
  { intros id c Hl. destruct (Hstep id c Hl) as (c' & Hl' & _ & _ & R). by exists c'. }
  split; [|exact E]. split.
  - intros id c Hl. destruct (agent_commands s !! id) as [c0|] eqn:Hl0.
    + destruct (Hstep id c0 Hl0) as (c' & Hl' & ? & ? & _). by simplify_eq.
    + rewrite Hc, Hl0 in Hl. done.
  - intros k q p Hk Hp. destruct (decide (k = queue)) as [->|Hn].
    + destruct Hcs as (cs & Eq & _ & _ & Hcs). rewrite Hk in Eq. cbn in Eq. subst q.
      apply elem_of_app in Hp as [Hp | (c & -> & Hi)%list_elem_of_fmap].
      * destruct (send_queues s !! queue) as [q|] eqn:Eq; [|by apply elem_of_nil in Hp].
        destruct (ok_queues _ _ _ _ _ Ok _ _ _ Eq Hp) as (inst & Hi & Hn). exists inst. split; [done|].
        by eapply known_evolves.
      * exists instance_id. split; [done|]. apply Hcs in Hi as (Hl & Hw & _). apply andb_true_iff in Hw as [Hw _].
        eapply known_evolves; [exact E|]. exists c. split; [done|]. split; [done|]. by apply String.eqb_eq.
    + specialize (Ho k Hn). rewrite Hk in Ho. cbn in Ho. subst q.
      destruct (send_queues s !! k) as [q|] eqn:Eq; [|by apply elem_of_nil in Hp].
      destruct (ok_queues _ _ _ _ _ Ok _ _ _ Eq Hp) as (inst & Hi & Hkn). exists inst. split; [done|].
      by eapply known_evolves.
  - intros inst lc. rewrite Hr. apply Ok.
Qed.
End Reconnect.

(** A reconnecting agent: every command of its instance that waits, was
    not answered and is not too old goes into the send queue, in the order
    of creation, if the new session can take it; the others that waited are
    rejected; commands whose time is over are finished; no other command
    changes. *)
Theorem reconnect_redelivers (s : ControlPlane) (instance_id session : string) (accepted : list string)
    (queue : nat) (now : Z) :
  keyed (agent_commands s) →
  let s' := (_enqueue_pending_commands instance_id session accepted queue now s).1 in
  let current c := if is_stale (of_instance instance_id) now c then expired_command now c else c in
  let waits c := of_instance instance_id c && bool_decide (cmd_status c ∈ REDISPATCHABLE_COMMAND_STATUSES) in
  (∀ id, agent_commands s' !! id
         = (λ c, if waits (current c) then redelivered session accepted now (current c) else current c)
           <$> agent_commands s !! id)
  ∧ ∃ cs, default [] (send_queues s' !! queue)
          = default [] (send_queues s !! queue) ++ (build_command_message <$> cs)
    ∧ StronglySorted command_le cs ∧ NoDup (command_id <$> cs)
    ∧ ∀ c, c ∈ cs ↔ agent_commands s !! command_id c = Some c ∧ waits c = true
                    ∧ is_stale (of_instance instance_id) now c = false ∧ deliverable accepted c = true.
Proof.
  intros Hk. destruct (enqueue_effect s instance_id session accepted queue now Hk) as (H1 & H2 & _). by split.
Qed.
