(* ===== verification/CommandInvariant.v ===== *)
(** * Agents and control plane: where the frames come from

    What is true of a system after any actions: a payload on its way to an
    agent is that of a command of its instance; a result or a refusal on its
    way to the control plane, or in a receipt, is in the log. *)

From stdpp Require Import base gmap sets list strings numbers.
From Stdlib Require Import ZArith Lia Ascii.
From S2P Require Import Prelude PyFloat Value Calendar Ingest Commands CommandServer CommandAgent CommandSystem.

(** ** Who is who *)

Definition instance_of (s : system) (n : nat) : option string := (λ tl, t_instance tl.1) <$> processes s !! n.

Definition conn_instance (s : system) (k : nat) : option string :=
  c ← connections s !! k; instance_of s (cn_process c).

Definition finished_in (s : system) (inst : string) (m : AgentCommandResultPayload) : Prop :=
  ∃ n, EvFinished n m ∈ log s ∧ instance_of s n = Some inst.

Definition refused_in (s : system) (inst id : string) : Prop :=
  ∃ n, EvRefused n id ∈ log s ∧ instance_of s n = Some inst.

(** A session of the instance was greeted with these capabilities. *)
Definition met_in (s : system) (inst : string) (accepted : list string) : Prop :=
  ∃ p, EvGreeted p ∈ log s ∧ sd_instance_id (he_service p) = inst
       ∧ accepted = _accepted_capabilities (he_capabilities p).

(** [p] is the payload of a command of the instance of process [n]. *)
Definition known_to (s : system) (n : nat) (p : AgentCommandPayload) : Prop :=
  ∃ inst, instance_of s n = Some inst ∧ known (agent_commands (control_plane s)) inst p.

(** Connection [k] was opened by process [n]. *)
Definition own (s : system) (n k : nat) : Prop := ∃ c, connections s !! k = Some c ∧ cn_process c = n.

(** ** What holds of the parts *)

Definition up_ok (s : system) (n : nat) (f : agent_frame) : Prop :=
  match f with
  | UHello p => instance_of s n = Some (sd_instance_id (he_service p))
  | UAck m => ack_payload_status m = ack_rejected → EvRefused n (ack_command_id m) ∈ log s
  | UResult m => EvFinished n m ∈ log s
  | UTelemetry _ => True
  end.

Definition down_ok (s : system) (n : nat) (f : server_frame) : Prop :=
  match f with FCommand p => known_to s n p | _ => True end.

Definition ws_ok (s : system) (n : nat) (ws : ws_state) : Prop :=
  match ws with
  | WsReceiving (Some ctx) => instance_of s n = Some (cc_instance_id ctx)
  | WsGreeting ctx accepted => instance_of s n = Some (cc_instance_id ctx) ∧ met_in s (cc_instance_id ctx) accepted
  | _ => True
  end.

Definition conn_ok (s : system) (c : connection) : Prop :=
  is_Some (instance_of s (cn_process c))
  ∧ (∀ f, f ∈ cn_up c → up_ok s (cn_process c) f)
  ∧ (∀ f, f ∈ cn_down c → down_ok s (cn_process c) f)
  ∧ ws_ok s (cn_process c) (cn_ws c).

Definition loop_ok (s : system) (n : nat) (pc : loop_pc) : Prop :=
  match pc with
  | LoopReading => True
  | LoopSending to f next =>
      own s n to ∧ up_ok s n f ∧ match next with ThenExecute p => known_to s n p | _ => True end
  end.

Definition execution_ok (s : system) (n : nat) (id : string) (pc : execution_pc) : Prop :=
  match pc with
  | ExRunning p => cp_command_id p = id ∧ EvStarted n p ∈ log s
  | ExSending to f => own s n to ∧ up_ok s n f
  end.

Definition receipt_ok (s : system) (n : nat) (id : string) (r : receipt) : Prop :=
  (∀ a, rc_ack r = Some a → ack_command_id a = id ∧ up_ok s n (UAck a))
  ∧ (∀ m, rc_result r = Some m → res_command_id m = id ∧ EvFinished n m ∈ log s).

Record transport_ok (s : system) (n : nat) (t : ControlPlaneWsTransport) : Prop := {
  tr_connection : ∀ k, _connection t = Some k → own s n k;
  tr_connecting : ∀ k, _connecting t = Some k → own s n k;
  tr_loops : ∀ k pc, _receive_loops t !! k = Some pc → own s n k ∧ loop_ok s n pc;
  tr_executions : ∀ id pc, _executions t !! id = Some pc → execution_ok s n id pc;
  tr_receipts : ∀ id r, _command_receipts t !! id = Some r → receipt_ok s n id r;
}.

Definition event_ok (s : system) (e : event) : Prop :=
  match e with
  | EvStarted n p => known_to s n p
  | EvFinished n m => ∃ p, EvStarted n p ∈ log s ∧ cp_command_id p = res_command_id m
  | EvRefused n id => ∃ p, cp_command_id p = id ∧ known_to s n p
  | EvGreeted _ => True
  end.

Record invariant (s : system) : Prop := {
  inv_server : cp_ok (conn_instance s) (finished_in s) (refused_in s) (met_in s) (control_plane s);
  inv_conns : ∀ k c, connections s !! k = Some c → conn_ok s c;
  inv_processes : ∀ n tl, processes s !! n = Some tl → transport_ok s n tl.1;
  inv_log : ∀ e, e ∈ log s → event_ok s e;
}.

(** ** What only grows *)

Record grows (s s' : system) : Prop := {
  gr_log : ∀ e, e ∈ log s → e ∈ log s';
  gr_instance : ∀ n i, instance_of s n = Some i → instance_of s' n = Some i;
  gr_own : ∀ n k, own s n k → own s' n k;
  gr_commands : evolves (agent_commands (control_plane s)) (agent_commands (control_plane s'));
}.

#[export] Instance grows_preorder : PreOrder grows.
Proof.
  split; [split; auto; reflexivity|]. intros s1 s2 s3 [A1 B1 C1 D1] [A2 B2 C2 D2].
  split; auto. by etransitivity.
Qed.

Section Grows.
Context (s s' : system) (G : grows s s').

Lemma known_to_grows n p : known_to s n p → known_to s' n p.
Proof.
  intros (i & Hi & Hk). exists i. split; [by apply (gr_instance _ _ G)|].
  eapply known_evolves; [apply (gr_commands _ _ G) | done].
Qed.

Lemma up_ok_grows n f : up_ok s n f → up_ok s' n f.
Proof. destruct f; cbn; auto; intros; try by apply (gr_log _ _ G); auto. by apply (gr_instance _ _ G). Qed.

Lemma down_ok_grows n f : down_ok s n f → down_ok s' n f.
Proof. destruct f; cbn; auto. apply known_to_grows. Qed.

Lemma ws_ok_grows n ws : ws_ok s n ws → ws_ok s' n ws.
Proof.
  destruct ws as [[ctx|]|ctx acc|]; cbn; auto; [apply (gr_instance _ _ G)|].
  intros [Hi (p & Hp & E)]. split; [by apply (gr_instance _ _ G)|]. exists p. split; [by apply (gr_log _ _ G)|done].
Qed.

Lemma conn_ok_grows c : conn_ok s c → conn_ok s' c.
Proof.
  intros ([i Hi] & Hu & Hd & Hw). split; [exists i; by apply (gr_instance _ _ G)|].
  split; [intros f Hf; by apply up_ok_grows, Hu|]. split; [intros f Hf; by apply down_ok_grows, Hd|].
  by apply ws_ok_grows.
Qed.

Lemma loop_ok_grows n pc : loop_ok s n pc → loop_ok s' n pc.
Proof.
  destruct pc as [|to f next]; cbn; [done|]. intros (Ho & Hu & Hn).
  split; [by apply (gr_own _ _ G)|]. split; [by apply up_ok_grows|]. destruct next; auto. by apply known_to_grows.
Qed.

Lemma execution_ok_grows n id pc : execution_ok s n id pc → execution_ok s' n id pc.
Proof.
  destruct pc as [p|to f]; cbn; intros [H1 H2]; (split; [|by first [apply up_ok_grows | apply (gr_log _ _ G)]]).
  - done.
  - by apply (gr_own _ _ G).
Qed.

Lemma receipt_ok_grows n id r : receipt_ok s n id r → receipt_ok s' n id r.
Proof.
  intros [Ha Hm]. split.
  - intros a E. destruct (Ha a E) as [? ?]. split; [done|]. by apply (up_ok_grows n (UAck a)).
  - intros m E. destruct (Hm m E) as [? ?]. split; [done|]. by apply (gr_log _ _ G).
Qed.

Lemma transport_ok_grows n t : transport_ok s n t → transport_ok s' n t.
Proof.
  intros [H1 H2 H3 H4 H5]. split.
  - intros k E. by apply (gr_own _ _ G), H1.
  - intros k E. by apply (gr_own _ _ G), H2.
  - intros k pc E. destruct (H3 k pc E). split; [by apply (gr_own _ _ G) | by apply loop_ok_grows].
  - intros id pc E. by apply execution_ok_grows, H4.
  - intros id r E. by apply receipt_ok_grows, H5.
Qed.

Lemma event_ok_grows e : event_ok s e → event_ok s' e.
Proof.
  destruct e as [n p|n m|n id|p]; cbn; [apply known_to_grows| | |done].
  - intros (p & Hp & E). exists p. split; [by apply (gr_log _ _ G)|done].
  - intros (p & E & Hk). exists p. split; [done|]. by apply known_to_grows.
Qed.

Lemma conn_instance_grows k i : conn_instance s k = Some i → conn_instance s' k = Some i.
Proof.
  unfold conn_instance. intros (c & Hc & Hi)%bind_Some.
  destruct (gr_own _ _ G (cn_process c) k) as (c' & Hc' & E); [by exists c|].
  rewrite Hc'. cbn. rewrite E. by apply (gr_instance _ _ G).
Qed.
End Grows.

(** The server's invariant asks less where more is known of the agents. *)
Lemma cp_ok_weaken (ci ci' : nat → option string) (fi fi' : string → AgentCommandResultPayload → Prop)
    (re re' : string → string → Prop) (me me' : string → list string → Prop) c :
  (∀ k i, ci k = Some i → ci' k = Some i) → (∀ i m, fi i m → fi' i m) → (∀ i id, re i id → re' i id) →
  (∀ i acc, me i acc → me' i acc) →
  cp_ok ci fi re me c → cp_ok ci' fi' re' me' c.
Proof.
  intros Hci Hfi Hre Hme [H1 H2 H3].
  assert (Hr : ∀ cmd, reported fi cmd → reported fi' cmd) by (intros cmd (m & Hm & E); exists m; split; auto).
  split.
  - intros id cmd Hc. destruct (H1 id cmd Hc) as [Hw He]. split; [done|]. unfold explained in *.
    destruct (cmd_status cmd); auto; [|destruct He; auto].
    destruct He as [He|(E & Ha & acc & Hm & Hn)]; [by left; apply Hre|]. right. eauto 6.
  - intros k q p Hk Hp. destruct (H2 k q p Hk Hp) as (i & Hi & Hn). eauto.
  - intros i lc Hi. auto.
Qed.

Lemma finished_grows s s' i m : grows s s' → finished_in s i m → finished_in s' i m.
Proof. intros G (n & Hn & Hi). exists n. split; [by apply (gr_log _ _ G) | by apply (gr_instance _ _ G)]. Qed.

Lemma refused_grows s s' i id : grows s s' → refused_in s i id → refused_in s' i id.
Proof. intros G (n & Hn & Hi). exists n. split; [by apply (gr_log _ _ G) | by apply (gr_instance _ _ G)]. Qed.

Lemma met_grows s s' i acc : grows s s' → met_in s i acc → met_in s' i acc.
Proof. intros G (p & Hp & E). exists p. split; [by apply (gr_log _ _ G)|done]. Qed.

Lemma server_grows s s' :
  grows s s' → cp_ok (conn_instance s) (finished_in s) (refused_in s) (met_in s) (control_plane s) →
  cp_ok (conn_instance s') (finished_in s') (refused_in s') (met_in s') (control_plane s).
Proof.
  intros G. apply cp_ok_weaken; intros; by eauto using conn_instance_grows, finished_grows, refused_grows, met_grows.
Qed.

(** ** Primitive changes *)

(** A change that keeps the invariant and only grows. *)
Definition sound (s s' : system) : Prop := invariant s → invariant s' ∧ grows s s'.

#[export] Instance sound_preorder : PreOrder sound.
Proof.
  split; [by intros s|]. intros s1 s2 s3 H1 H2 I. destruct (H1 I) as [I2 G1]. destruct (H2 I2) as [I3 G2].
  split; [done|]. by etransitivity.
Qed.

Lemma sound_control_plane cp s :
  keeps (conn_instance s) (finished_in s) (refused_in s) (met_in s) (control_plane s) cp → sound s (set_control_plane cp s).
Proof.
  intros K [H1 H2 H3 H4]. destruct (K H1) as [Ok E].
  assert (G : grows s (set_control_plane cp s)) by by split.
  split; [|done]. split; [done| | |].
  - intros k c Hc. by eapply conn_ok_grows, H2.
  - intros n tl Hn. by eapply transport_ok_grows, H3.
  - intros e He. by eapply event_ok_grows, H4.
Qed.

Lemma sound_on_conn k f s :
  (∀ c, invariant s → connections s !! k = Some c → cn_process (f c) = cn_process c ∧ conn_ok s (f c)) →
  sound s (on_conn k f s).
Proof.
  intros Hf I. pose proof I as [H1 H2 H3 H4].
  assert (G : grows s (on_conn k f s)).
  { split; [done|done| |reflexivity]. intros n k' (c & Hc & <-). unfold own, on_conn. cbn. rewrite lookup_alter.
    case_decide as D; [subst|by exists c]. rewrite Hc. exists (f c). split; [done|]. by apply (Hf c I). }
  split; [|done]. split.
  - by apply (server_grows s).
  - intros k' c. cbn. rewrite lookup_alter. case_decide as D; [subst|intros Hc; by eapply conn_ok_grows, H2].
    intros (c0 & Hc & ->)%fmap_Some. eapply conn_ok_grows; [done|]. by apply Hf.
  - intros n tl Hn. by eapply transport_ok_grows, H3.
  - intros e He. by eapply event_ok_grows, H4.
Qed.

Lemma process_lookup s n t : process s n = Some t → processes s !! n = Some (t, true).
Proof. unfold process. by destruct (processes s !! n) as [[t' []]|]; intros [= ->]. Qed.

Lemma sound_process n t0 t s :
  process s n = Some t0 → t_service t = t_service t0 → (invariant s → transport_ok s n t) →
  sound s (set_process n t s).
Proof.
  intros Hp%process_lookup Es Ht I. pose proof I as [H1 H2 H3 H4].
  assert (G : grows s (set_process n t s)).
  { split; [done| |done|reflexivity]. intros n' i. unfold instance_of. cbn. rewrite lookup_insert.
    case_decide as D; [subst|done]. rewrite Hp. cbn. unfold t_instance. by rewrite Es. }
  split; [|done]. split.
  - by apply (server_grows s).
  - intros k c Hc. by eapply conn_ok_grows, H2.
  - intros n' tl. cbn. rewrite lookup_insert. case_decide as D; [subst; intros [= <-]; cbn|intros Hn].
    + by eapply transport_ok_grows, Ht.
    + by eapply transport_ok_grows, H3.
  - intros e He. by eapply event_ok_grows, H4.
Qed.

Lemma sound_record es s :
  (∀ e, invariant s → e ∈ es → event_ok (record_events es s) e) → sound s (record_events es s).
Proof.
  intros He I. pose proof I as [H1 H2 H3 H4].
  assert (G : grows s (record_events es s)).
  { split; [|done|done|reflexivity]. intros e Hi. apply elem_of_app. by left. }
  split; [|done]. split.
  - by apply (server_grows s).
  - intros k c Hc. by eapply conn_ok_grows, H2.
  - intros n tl Hn. by eapply transport_ok_grows, H3.
  - intros e [Hi|Hi]%elem_of_app; [by eapply event_ok_grows, H4 | by apply He].
Qed.

Lemma conn_ok_break s c : conn_ok s c → conn_ok s (break c).
Proof. done. Qed.

Lemma conn_ok_set_ws s c ws : conn_ok s c → ws_ok s (cn_process c) ws → conn_ok s (set_ws ws c).
Proof. by intros (Hi & Hu & Hd & _) Hw. Qed.

Lemma conn_ok_push_up s c f : conn_ok s c → up_ok s (cn_process c) f → conn_ok s (push_up f c).
Proof.
  intros (Hi & Hu & Hd & Hw) Hf. unfold push_up. destruct (cn_broken c); [by split_and!|].
  split; [done|]. split; [|done]. by intros f' [Hi' | ->%list_elem_of_singleton]%elem_of_app; [apply Hu|].
Qed.

Lemma conn_ok_push_down s c f : conn_ok s c → down_ok s (cn_process c) f → conn_ok s (push_down f c).
Proof.
  intros (Hi & Hu & Hd & Hw) Hf. unfold push_down. destruct (cn_broken c); [by split_and!|].
  split; [done|]. split; [done|]. split; [|done].
  by intros f' [Hi' | ->%list_elem_of_singleton]%elem_of_app; [apply Hd|].
Qed.

Lemma push_up_process f c : cn_process (push_up f c) = cn_process c.
Proof. unfold push_up. by destruct (cn_broken c). Qed.

Lemma push_down_process f c : cn_process (push_down f c) = cn_process c.
Proof. unfold push_down. by destruct (cn_broken c). Qed.

Lemma sound_break k s : sound s (on_conn k break s).
Proof. apply sound_on_conn. intros c I Hc. split; [done|]. by apply conn_ok_break, (inv_conns _ I k). Qed.

(** A frame is taken from one of the queues of a connection. *)
Lemma sound_take_up k c f up s :
  connections s !! k = Some c → cn_up c = f :: up →
  sound s (on_conn k (λ c, with_queues up (cn_down c) (cn_ws c) c) s).
Proof.
  intros Hk Hu. apply sound_on_conn. intros c' I Hc'. simplify_eq. split; [done|].
  destruct (inv_conns _ I k c Hk) as (H1 & H2 & H3 & H4). split; [done|]. split; [|done].
  intros g Hg. apply H2. rewrite Hu. by right.
Qed.

Lemma sound_take_down k c f down s :
  connections s !! k = Some c → cn_down c = f :: down →
  sound s (on_conn k (λ c, with_queues (cn_up c) down (cn_ws c) c) s).
Proof.
  intros Hk Hd. apply sound_on_conn. intros c' I Hc'. simplify_eq. split; [done|].
  destruct (inv_conns _ I k c Hk) as (H1 & H2 & H3 & H4). split; [done|]. split; [done|]. split; [|done].
  intros g Hg. apply H3. rewrite Hd. by right.
Qed.

(** What a request of an operator does. *)
Lemma sound_request {A} (m : CP A) s :
  se_rel (keeps (conn_instance s) (finished_in s) (refused_in s) (met_in s)) m → sound s (request_served m s).
Proof. intros H. apply sound_control_plane, H. Qed.

(** ** The handler of a connection *)

Lemma sound_ws_ends k ctx now s : sound s (ws_ends k ctx now s).
Proof.
  unfold ws_ends.
  match goal with |- context [set_control_plane ?x s] => transitivity (set_control_plane x s) end.
  - apply sound_control_plane. destruct ctx as [ctx|]; [|done].
    assert (H : se_rel (keeps (conn_instance s) (finished_in s) (refused_in s) (met_in s))
                  (_ ← unregister (cc_instance_id ctx) (cc_session_id ctx); _close_session (cc_session_id ctx) now)).
    { apply se_rel_bind; [apply _|apply unregister_keeps|intros _; apply close_session_keeps]. }
    apply H.
  - apply sound_on_conn. intros c I Hc. split; [done|].
    apply conn_ok_break, conn_ok_set_ws; [by apply (inv_conns _ I k)|done].
Qed.

Lemma sound_push_down k f s :
  (∀ n, invariant s → down_ok s n f) → sound s (on_conn k (push_down f) s).
Proof.
  intros Hf. apply sound_on_conn. intros c I Hc. split; [apply push_down_process|].
  apply conn_ok_push_down; [by apply (inv_conns _ I k) | by apply Hf].
Qed.

Lemma sound_ws_error k code s : sound s (ws_error k code s).
Proof. by apply sound_push_down. Qed.

Lemma sound_ws_refuses k ctx code now s : sound s (ws_refuses k ctx code now s).
Proof.
  transitivity (on_conn k (push_down (FError code true)) s); [by apply sound_push_down | apply sound_ws_ends].
Qed.

Section Frames.
Context (labels_hash : list (string * string) → string).

Lemma sound_ws_frame k c ctx f session now s :
  connections s !! k = Some c →
  (invariant s → up_ok s (cn_process c) f ∧ ws_ok s (cn_process c) (WsReceiving ctx)) →
  sound s (ws_frame labels_hash k ctx f session now s).
Proof.
  intros Hk Hf I. destruct (Hf I) as [Hu Hw]. revert I. change (sound s (ws_frame labels_hash k ctx f session now s)).
  assert (Hm : ∀ cp' se, sound (set_control_plane cp' s) (set_control_plane (_mark_session_message se now cp').1 s)).
  { intros cp' se. apply (sound_control_plane _ (set_control_plane cp' s)), session_message_keeps. }
  destruct f as [p|m|m|r]; cbn.
  - pose proof (hello_keeps (conn_instance s) (finished_in s) (refused_in s) (met_in s) p session now (control_plane s)) as Hh.
    destruct (_handle_hello p session now (control_plane s)) as [cp' [[se acc]|e]] eqn:E; cbn in Hh.
    + etransitivity; [apply sound_control_plane; etransitivity; [exact Hh|]|].
      * apply (register_keeps _ _ _ _ (sd_instance_id (he_service p)) se k).
        unfold conn_instance. rewrite Hk. exact Hu.
      * etransitivity; [apply (sound_record [EvGreeted p]); by intros e _ ->%list_elem_of_singleton|].
        apply sound_on_conn. intros c' I' Hc'. change (connections s !! k = Some c') in Hc'. simplify_eq.
        split; [apply push_down_process|].
        apply conn_ok_set_ws; [apply conn_ok_push_down; [by apply (inv_conns _ I' k)|done]|].
        rewrite push_down_process. split; [exact Hu|]. exists p. split; [apply elem_of_app; right; by left|].
        split; [done|]. by apply (hello_accepts _ _ _ _ _ _ _ E).
    + etransitivity; [apply sound_control_plane, Hh|].
      destruct (String.eqb _ _); [apply sound_ws_refuses | apply sound_ws_ends].
  - destruct ctx as [ctx|]; [|apply sound_ws_refuses].
    pose proof (ack_keeps (conn_instance s) (finished_in s) (refused_in s) (met_in s) ctx m now) as Ha.
    assert (Hr : ack_payload_status m = ack_rejected → refused_in s (cc_instance_id ctx) (ack_command_id m)).
    { intros E. exists (cn_process c). split; [by apply Hu|exact Hw]. }
    specialize (Ha Hr (control_plane s)).
    destruct (_handle_command_ack ctx m now (control_plane s)) as [cp' r]; cbn in Ha.
    destruct r as [[]|]; (etransitivity; [apply sound_control_plane, Ha|]);
      [apply Hm|apply sound_ws_error|apply sound_ws_error].
  - destruct ctx as [ctx|]; [|apply sound_ws_refuses].
    pose proof (result_keeps (conn_instance s) (finished_in s) (refused_in s) (met_in s) ctx m now) as Ha.
    assert (Hr : finished_in s (cc_instance_id ctx) m) by (by exists (cn_process c)).
    specialize (Ha Hr (control_plane s)).
    destruct (_handle_command_result ctx m now (control_plane s)) as [cp' r]; cbn in Ha.
    destruct r as [[| |]|]; (etransitivity; [apply sound_control_plane, Ha|]);
      first [apply Hm | apply sound_ws_error].
  - destruct ctx as [ctx|]; [|apply sound_ws_refuses].
    pose proof (ingest_keeps (conn_instance s) (finished_in s) (refused_in s) (met_in s) labels_hash r now (control_plane s)) as Ha.
    destruct (on_db (ingest labels_hash r now) (control_plane s)) as [cp' res]; cbn in Ha.
    destruct res; (etransitivity; [apply sound_control_plane, Ha|]); [apply Hm | apply sound_ws_ends].
Qed.
End Frames.

(** ** The transport *)

Section Transport.
Context (s : system) (n : nat).

Lemma mark_disconnected_ok k t : transport_ok s n t → transport_ok s n (_mark_disconnected k t).
Proof. intros [H1 H2 H3 H4 H5]. unfold _mark_disconnected. case_bool_decide; [|by split]. by split. Qed.

Lemma close_transport_ok t : transport_ok s n t → transport_ok s n (close_transport t).
Proof.
  intros [H1 H2 H3 H4 H5]. unfold close_transport. destruct (_connection t) as [k|]; split; try done.
  intros k' pc. cbn. rewrite lookup_delete. case_decide; [done|apply H3].
Qed.

Lemma set_loop_ok k pc t :
  transport_ok s n t → own s n k → loop_ok s n pc → transport_ok s n (set_loops <[k := pc]> t).
Proof.
  intros [H1 H2 H3 H4 H5] Ho Hl. split; try done. intros k' pc'. cbn. rewrite lookup_insert.
  case_decide; [subst; by intros [= <-]|apply H3].
Qed.

Lemma delete_loop_ok k t : transport_ok s n t → transport_ok s n (set_loops (delete k) t).
Proof.
  intros [H1 H2 H3 H4 H5]. split; try done. intros k' pc'. cbn. rewrite lookup_delete.
  case_decide; [done|apply H3].
Qed.

Lemma loop_continues_ok k tp :
  transport_ok s n tp.1 → own s n k → (∀ pc, tp.2 = Some pc → loop_ok s n pc) →
  transport_ok s n (loop_continues k tp).
Proof.
  destruct tp as [t [pc|]]; cbn; intros Ht Ho Hl; [by apply set_loop_ok; auto|].
  by apply mark_disconnected_ok, delete_loop_ok.
Qed.

Lemma set_receipt_ok id r t :
  transport_ok s n t → receipt_ok s n id r → transport_ok s n (set_receipts <[id := r]> t).
Proof.
  intros [H1 H2 H3 H4 H5] Hr. split; try done. intros id' r'. cbn. rewrite lookup_insert.
  case_decide; [subst; by intros [= <-]|apply H5].
Qed.

Lemma set_execution_ok id pc t :
  transport_ok s n t → execution_ok s n id pc → transport_ok s n (set_executions <[id := pc]> t).
Proof.
  intros [H1 H2 H3 H4 H5] Hr. split; try done. intros id' r'. cbn. rewrite lookup_insert.
  case_decide; [subst; by intros [= <-]|apply H4].
Qed.

Lemma delete_execution_ok id t : transport_ok s n t → transport_ok s n (set_executions (delete id) t).
Proof.
  intros [H1 H2 H3 H4 H5]. split; try done. intros id' r'. cbn. rewrite lookup_delete.
  case_decide; [done|apply H4].
Qed.

Lemma send_begins_ok f next t pc :
  transport_ok s n t → up_ok s n f → match next with ThenExecute p => known_to s n p | _ => True end →
  send_begins f next t = Some pc → loop_ok s n pc.
Proof.
  intros Ht Hf Hn. unfold send_begins. intros (k & Hk & ->)%fmap_Some. by split; [apply (tr_connection _ _ _ Ht)|].
Qed.

(** A command that arrives; a refusal is in the log by now. *)
Lemma handle_command_message_ok supported now p t :
  transport_ok s n t → known_to s n p →
  (∀ e, e ∈ refused_by n supported (FCommand p) t → e ∈ log s) →
  let tp := _handle_command_message supported now p t in
  transport_ok s n tp.1 ∧ ∀ pc, tp.2 = Some pc → loop_ok s n pc.
Proof.
  intros Ht Hk Hr. unfold _handle_command_message.
  destruct (_command_receipts t !! cp_command_id p) as [r|] eqn:E; cbn.
  - split; [done|]. intros pc (a & Ha & Hs)%bind_Some. destruct (tr_receipts _ _ _ Ht _ _ E) as [Hack _].
    refine (send_begins_ok _ _ t pc Ht _ _ Hs); [by apply Hack | exact I].
  - set (ack := if supported then ack_message _ _ _ _ _ else _).
    assert (Ha : ack_command_id ack = cp_command_id p ∧ up_ok s n (UAck ack)).
    { subst ack. destruct supported; (split; [done|]); [by intros [=]|].
      intros _. apply Hr. cbn. rewrite E. cbn. by left. }
    split.
    + apply set_receipt_ok; [done|]. split; [by intros a [= <-]|done].
    + intros pc. apply send_begins_ok; [done|apply Ha|by destruct supported].
Qed.

Lemma after_send_ok next t :
  transport_ok s n t → (∀ p, next = ThenExecute p → EvStarted n p ∈ log s) →
  let tp := after_send next t in
  transport_ok s n tp.1 ∧ ∀ pc, tp.2 = Some pc → loop_ok s n pc.
Proof.
  intros Ht Hn. destruct next as [id|p|]; cbn.
  - destruct (_command_receipts t !! id) as [r|] eqn:E; cbn; [|by split; [|intros pc [= <-]]].
    destruct (rc_result r) as [m|] eqn:Em; cbn; [|by split; [|intros pc [= <-]]]. split; [done|].
    intros pc. apply send_begins_ok; [done| |done]. by apply (tr_receipts _ _ _ Ht _ _ E).
  - split; [|by intros pc [= <-]]. apply set_execution_ok; [done|]. split; [done|by apply Hn].
  - by split; [|intros pc [= <-]].
Qed.

Lemma execute_command_ok m t :
  transport_ok s n t → EvFinished n m ∈ log s → transport_ok s n (_execute_command m t).
Proof.
  intros Ht Hm. unfold _execute_command.
  set (r := default _ _).
  assert (Hr : receipt_ok s n (res_command_id m) {| rc_ack := rc_ack r; rc_result := Some m |}).
  { split; [|by intros m' [= <-]]. intros a Ha. subst r.
    destruct (_command_receipts t !! res_command_id m) as [r|] eqn:E; [|done]. by apply (tr_receipts _ _ _ Ht _ _ E). }
  pose proof (set_receipt_ok _ _ _ Ht Hr) as Ht'. cbn.
  destruct (_connection t) as [k|] eqn:E; [|by apply delete_execution_ok].
  apply set_execution_ok; [done|]. split; [by apply (tr_connection _ _ _ Ht)|done].
Qed.

Lemma connect_answered_ok f t : transport_ok s n t → transport_ok s n (connect_answered f t).
Proof.
  intros Ht. assert (H0 : transport_ok s n (set_link None false None t)) by (by destruct Ht; split).
  destruct f as [[se acc|p|code close]|]; cbn; try done.
  destruct (_connection t) as [k|] eqn:E.
  - apply set_loop_ok; [|by apply (tr_connection _ _ _ Ht)|done].
    destruct Ht as [H1 H2 H3 H4 H5]. split; try done. by rewrite <- E.
  - by destruct Ht; split.
Qed.
End Transport.

Lemma handle_service supported now p t : t_service (_handle_command_message supported now p t).1 = t_service t.
Proof. unfold _handle_command_message. by destruct (_command_receipts t !! _). Qed.

Lemma after_send_service next t : t_service (after_send next t).1 = t_service t.
Proof. destruct next as [id|p|]; cbn; [|done|done]. by destruct (_ ≫= _). Qed.

Lemma loop_continues_service k tp : t_service (loop_continues k tp) = t_service tp.1.
Proof. destruct tp as [t [pc|]]; cbn; [done|]. unfold _mark_disconnected. by destruct (bool_decide _). Qed.

Lemma sound_loop_moves n k t0 t s :
  process s n = Some t0 → t_service t = t_service t0 → (invariant s → transport_ok s n t) →
  sound s (loop_moves n k t s).
Proof.
  intros Hp Es Ht. unfold loop_moves.
  assert (H : sound s (set_process n t s)) by (by eapply sound_process).
  destruct (_receive_loops t !! k); [done|]. etransitivity; [exact H | apply sound_break].
Qed.

(** ** Every action *)

Lemma sound_take_transport n t s f :
  process s n = Some t → t_service (f t) = t_service t →
  (∀ s', invariant s' → transport_ok s' n t → transport_ok s' n (f t)) → sound s (set_process n (f t) s).
Proof.
  intros Hp Es Hf. eapply sound_process; [done|done|]. intros I. apply Hf; [done|].
  apply process_lookup in Hp. exact (inv_processes _ I _ _ Hp).
Qed.

Lemma process_ok s n t : invariant s → process s n = Some t → transport_ok s n t.
Proof. intros I Hp%process_lookup. exact (inv_processes _ I _ _ Hp). Qed.

Lemma sound_break_all (f : connection → connection) s :
  (∀ c, conn_ok s c → cn_process (f c) = cn_process c ∧ conn_ok s (f c)) →
  sound s (set_conns (fmap f) s).
Proof.
  intros Hf I. pose proof I as [H1 H2 H3 H4].
  assert (G : grows s (set_conns (fmap f) s)).
  { split; [done|done| |reflexivity]. intros n k (c & Hc & <-). exists (f c).
    cbn. rewrite lookup_fmap, Hc. split; [done|]. by apply (Hf c (H2 k c Hc)). }
  split; [|done]. split.
  - by apply (server_grows s).
  - intros k c. cbn. rewrite lookup_fmap. intros (c0 & Hc & ->)%fmap_Some. eapply conn_ok_grows; [done|].
    by apply Hf, (H2 k).
  - intros n tl Hn. by eapply transport_ok_grows, H3.
  - intros e He. by eapply event_ok_grows, H4.
Qed.

Lemma sound_process_starts n service runtime s :
  processes s !! n = None → sound s (set_process n (new_transport service runtime) s).
Proof.
  intros Hn I. pose proof I as [H1 H2 H3 H4].
  assert (G : grows s (set_process n (new_transport service runtime) s)).
  { split; [done| |done|reflexivity]. intros n' i. unfold instance_of. cbn. rewrite lookup_insert.
    case_decide as D; [subst|done]. by rewrite Hn. }
  split; [|done]. split.
  - by apply (server_grows s).
  - intros k c Hc. by eapply conn_ok_grows, H2.
  - intros n' tl. cbn. rewrite lookup_insert. case_decide as D; [intros [= <-]; by split|intros Hl].
    by eapply transport_ok_grows, H3.
  - intros e He. by eapply event_ok_grows, H4.
Qed.

Lemma sound_process_dies n s : sound s (end_process n s).
Proof.
  intros I. pose proof I as [H1 H2 H3 H4].
  assert (G : grows s (end_process n s)).
  { split; [done| |done|reflexivity]. intros n' i. unfold instance_of. cbn. rewrite lookup_alter.
    case_decide as D; [subst|done]. by destruct (processes s !! n'). }
  split; [|done]. split.
  - by apply (server_grows s).
  - intros k c Hc. by eapply conn_ok_grows, H2.
  - intros n' tl. cbn. rewrite lookup_alter. case_decide as D; [subst|intros Hl; by eapply transport_ok_grows, H3].
    intros (tl0 & Hl & ->)%fmap_Some. eapply transport_ok_grows; [done|]. exact (H3 _ _ Hl).
  - intros e He. by eapply event_ok_grows, H4.
Qed.

(** [connect]: a new connection with hello on it. *)
Lemma sound_connect n k t t' capabilities s :
  process s n = Some t → connections s !! k = None → connect_begins k t = Some t' →
  sound s (set_conns <[k := {| cn_process := n; cn_broken := false; cn_up := [UHello (hello_of capabilities t)];
                               cn_down := []; cn_ws := WsReceiving None |}]> (set_process n t' s)).
Proof.
  intros Hp Hk Hb. set (c := Build_connection _ _ _ _ _).
  transitivity (set_conns <[k := c]> s).
  - intros I. pose proof I as [H1 H2 H3 H4].
    assert (G : grows s (set_conns <[k := c]> s)).
    { split; [done|done| |reflexivity]. intros n' k' (c' & Hc' & E). exists c'. cbn.
      rewrite lookup_insert_ne; [done|congruence]. }
    split; [|done]. split.
    + by apply (server_grows s).
    + intros k' c'. cbn. rewrite lookup_insert. case_decide as D; [intros [= <-]|intros Hc; by eapply conn_ok_grows, H2].
      assert (Hi : instance_of s n = Some (t_instance t)) by (unfold instance_of; by rewrite (process_lookup _ _ _ Hp)).
      split; [by exists (t_instance t)|]. split; [|split; [|done]].
      * intros f ->%list_elem_of_singleton. exact Hi.
      * intros f Hf. by apply elem_of_nil in Hf.
    + intros n' tl Hl. by eapply transport_ok_grows, H3.
    + intros e He. by eapply event_ok_grows, H4.
  - assert (Et : t' = set_link (Some k) (_hello_acked t) (Some k) t).
    { revert Hb. unfold connect_begins. by destruct (_ || _); intros [= <-]. }
    change (sound (set_conns <[k := c]> s) (set_process n t' (set_conns <[k := c]> s))).
    apply (sound_process n t); [done|by rewrite Et|]. intros I.
    destruct (process_ok _ n t I Hp) as [T1 T2 T3 T4 T5]. subst t'.
    assert (Ho : own (set_conns <[k := c]> s) n k) by (exists c; cbn; by rewrite lookup_insert_eq).
    split; cbn; try done; by intros k' [= <-].
Qed.

Section Step.
Context (labels_hash : list (string * string) → string) (instance_offline_after : Z).

Lemma step_sound a s s' : step labels_hash instance_offline_after a s = Some s' → sound s s'.
Proof.
  destruct a; cbn [step]; intros Hs.
  - destruct (processes s !! n) eqn:E; [done|]. injection Hs as <-. by apply sound_process_starts.
  - apply bind_Some in Hs as (t & Hp & [= <-]). etransitivity; [apply sound_process_dies|].
    apply (sound_break_all _ (end_process n s)). intros c Hc. by destruct (cn_process c =? n)%nat.
  - apply bind_Some in Hs as (t & Hp & Hs). destruct (connections s !! conn) eqn:Ec; [done|].
    apply bind_Some in Hs as (t' & Hb & [= <-]). by apply sound_connect.
  - (* ConnectAnswered *)
    apply bind_Some in Hs as (t & Hp & (k & Hk & (c & Hc & Hs)%bind_Some)%bind_Some).
    destruct (cn_down c) as [|f down] eqn:Ed; [done|].
    assert (H : sound s (on_conn k (λ c, with_queues (cn_up c) down (cn_ws c) c)
                           (set_process n (connect_answered (Some f) t) s))).
    { transitivity (set_process n (connect_answered (Some f) t) s).
      - eapply sound_process; [done| |intros I; by apply connect_answered_ok, process_ok].
        destruct f; cbn; try done. by destruct (_connection t).
      - by eapply sound_take_down. }
    destruct f; injection Hs as <-; [exact H| |]; (etransitivity; [exact H | apply sound_break]).
  - (* ConnectFails *)
    apply bind_Some in Hs as (t & Hp & (k & Hk & (c & Hc & Hs)%bind_Some)%bind_Some).
    destruct (cn_broken c); [|done]. injection Hs as <-.
    eapply sound_process; [done|done|]. intros I. exact (connect_answered_ok _ _ None t (process_ok _ _ _ I Hp)).
  - (* LoopReads *)
    apply bind_Some in Hs as (t & Hp & (c & Hc & Hs)%bind_Some).
    destruct (_receive_loops t !! conn) as [[|to g next]|] eqn:El; [|done|done].
    destruct (cn_down c) as [|f down] eqn:Ed; [done|]. injection Hs as <-.
    set (s1 := on_conn conn (λ c, with_queues (cn_up c) down (cn_ws c) c) s).
    set (s2 := record_events (refused_by n supported f t) s1).
    intros I. assert (Hf : down_ok s n f).
    { destruct (tr_loops _ _ _ (process_ok _ _ _ I Hp) _ _ El) as [(c' & Hc' & En) _]. simplify_eq.
      apply (inv_conns _ I _ _ Hc). rewrite Ed. by left. }
    revert I. change (sound s (loop_moves n conn (_receive_loop supported now conn f t) s2)).
    transitivity s1; [by eapply sound_take_down|]. transitivity s2.
    { apply sound_record. intros e _. unfold refused_by. destruct f as [|p|]; [by intros ?%elem_of_nil| |by intros ?%elem_of_nil].
      destruct (_ || _); [by intros ?%elem_of_nil|]. intros ->%list_elem_of_singleton. by exists p. }
    eapply sound_loop_moves; [exact Hp| |].
    { unfold _receive_loop. rewrite loop_continues_service. destruct f as [|p|? []]; try done. apply handle_service. }
    intros I2. pose proof (process_ok s2 n t I2 Hp) as Ht.
    assert (Ho : own s2 n conn) by apply (tr_loops _ _ _ Ht _ _ El).
    apply loop_continues_ok; [|exact Ho|]; destruct f as [|p|? []]; try done; try (by intros pc [= <-]).
    + apply handle_command_message_ok; [done|exact Hf|]. intros e He. apply elem_of_app. by right.
    + apply handle_command_message_ok; [done|exact Hf|]. intros e He. apply elem_of_app. by right.
  - (* LoopSent *)
    apply bind_Some in Hs as (t & Hp & Hs).
    destruct (_receive_loops t !! conn) as [[|to g next]|] eqn:El; [done| |done].
    apply bind_Some in Hs as (c & Hc & Hs). destruct sent.
    + injection Hs as <-. set (s1 := on_conn to (push_up g) s). set (s2 := record_events (started_by n next) s1).
      intros I. destruct (tr_loops _ _ _ (process_ok _ _ _ I Hp) _ _ El) as [Ho (Ht' & Hg & Hn)].
      revert I. change (sound s (loop_moves n conn (loop_continues conn (after_send next t)) s2)).
      transitivity s1.
      { apply sound_on_conn. intros c' I Hc'. simplify_eq. split; [apply push_up_process|].
        apply conn_ok_push_up; [by apply (inv_conns _ I to)|]. destruct Ht' as (c' & Hc' & <-). by simplify_eq. }
      transitivity s2.
      { apply sound_record. intros e _. destruct next as [id|p|]; cbn; [by intros ?%elem_of_nil| |by intros ?%elem_of_nil].
        by intros ->%list_elem_of_singleton. }
      eapply sound_loop_moves; [exact Hp|rewrite loop_continues_service; apply after_send_service|].
      intros I2. pose proof (process_ok s2 n t I2 Hp) as Ht.
      assert (Hsent : ∀ p, next = ThenExecute p → EvStarted n p ∈ log s2).
      { intros p ->. apply elem_of_app. right. by left. }
      destruct (after_send_ok s2 n next t Ht Hsent) as [H1 H2].
      apply loop_continues_ok; [done|apply (tr_loops _ _ _ Ht _ _ El)|done].
    + destruct (cn_broken c); [|done]. injection Hs as <-.
      assert (Es : t_service (loop_continues conn (_mark_disconnected to t, None)) = t_service t).
      { rewrite loop_continues_service. cbn. unfold _mark_disconnected. by destruct (bool_decide _). }
      refine (sound_loop_moves n conn t _ s Hp Es _).
      intros I. pose proof (process_ok s n t I Hp) as Ht.
      apply loop_continues_ok; [by apply mark_disconnected_ok|apply (tr_loops _ _ _ Ht _ _ El)|done].
  - (* LoopEnds *)
    apply bind_Some in Hs as (t & Hp & (c & Hc & Hs)%bind_Some).
    destruct (_receive_loops t !! conn) as [[|to g next]|] eqn:El; [|done|done].
    destruct (cn_broken c); [|done]. injection Hs as <-.
    refine (sound_loop_moves n conn t _ s Hp (loop_continues_service conn (t, None)) _).
    intros I. pose proof (process_ok s n t I Hp) as Ht.
    apply loop_continues_ok; [done|apply (tr_loops _ _ _ Ht _ _ El)|done].
  - (* HandlerEnds *)
    apply bind_Some in Hs as (t & Hp & Hs).
    destruct (_executions t !! id) as [[p|to g]|] eqn:Ee; [|done|done]. injection Hs as <-.
    set (m := result_message (cp_command_id p) (cp_timeout_s p) started now o).
    set (s1 := record_events [EvFinished n m] s). transitivity s1.
    { apply sound_record. intros e I ->%list_elem_of_singleton.
      destruct (tr_executions _ _ _ (process_ok _ _ _ I Hp) _ _ Ee) as [_ He]. exists p.
      split; [apply elem_of_app; by left|]. subst m. by destruct o. }
    eapply sound_process; [exact Hp| |].
    { unfold _execute_command. cbn. by destruct (_connection t). }
    intros I. apply execute_command_ok; [by apply process_ok|]. apply elem_of_app. right. by left.
  - (* ResultSent *)
    apply bind_Some in Hs as (t & Hp & Hs).
    destruct (_executions t !! id) as [[p|to g]|] eqn:Ee; [done| |done].
    apply bind_Some in Hs as (c & Hc & Hs). destruct sent.
    + injection Hs as <-. intros I.
      destruct (tr_executions _ _ _ (process_ok _ _ _ I Hp) _ _ Ee) as [Ho Hg]. revert I.
      set (s1 := set_process n (set_executions (delete id) t) s).
      change (sound s (on_conn to (push_up g) s1)).
      assert (H1 : sound s s1).
      { eapply sound_process; [exact Hp|done|]. intros I. by apply delete_execution_ok, process_ok. }
      intros I. destruct (H1 I) as [I1 G1]. revert I. change (sound s (on_conn to (push_up g) s1)).
      transitivity s1; [exact H1|]. apply sound_on_conn. intros c' I Hc'. split; [apply push_up_process|].
      apply conn_ok_push_up; [by apply (inv_conns _ I to)|].
      destruct Ho as (c'' & Hc'' & <-). change (connections s !! to = Some c') in Hc'. simplify_eq.
      by eapply up_ok_grows.
    + destruct (cn_broken c); [|done]. injection Hs as <-. unfold send_raises.
      transitivity (set_process n (_mark_disconnected to (set_executions (delete id) t)) s); [|apply sound_break].
      eapply sound_process; [exact Hp|unfold _mark_disconnected; by destruct (bool_decide _)|].
      intros I. by apply mark_disconnected_ok, delete_execution_ok, process_ok.
  - (* TelemetrySent *)
    apply bind_Some in Hs as (t & Hp & Hs).
    destruct (connected t), (_connection t) as [k|] eqn:Ek; try done. injection Hs as <-.
    apply sound_on_conn. intros c I Hc. split; [apply push_up_process|].
    apply conn_ok_push_up; [by apply (inv_conns _ I k)|done].
  - (* TransportCloses *)
    apply bind_Some in Hs as (t & Hp & [= <-]).
    assert (H : sound s (set_process n (close_transport t) s)).
    { eapply sound_process; [exact Hp|unfold close_transport; by destruct (_connection t)|].
      intros I. by apply close_transport_ok, process_ok. }
    destruct (_connection t); [|exact H]. etransitivity; [exact H | apply sound_break].
  - (* ServerReceives *)
    apply bind_Some in Hs as (c & Hc & Hs).
    destruct (cn_ws c) as [ctx|ctx acc|] eqn:Ew; [|done|done].
    destruct (cn_up c) as [|f up] eqn:Eu; [done|]. injection Hs as <-.
    set (s1 := on_conn conn (λ c, with_queues up (cn_down c) (cn_ws c) c) s).
    intros I. destruct (inv_conns _ I _ _ Hc) as (_ & Hu & _ & Hw). rewrite Eu in Hu. rewrite Ew in Hw.
    revert I. change (sound s (ws_frame labels_hash conn ctx f new_session now s1)).
    transitivity s1; [by eapply sound_take_up|].
    eapply sound_ws_frame; [cbn; by rewrite lookup_alter_eq, Hc|]. intros _.
    split; [apply Hu; by left | exact Hw].
  - (* ServerGreeted *)
    apply bind_Some in Hs as (c & Hc & Hs).
    destruct (cn_ws c) as [ctx|ctx acc|] eqn:Ew; [done| |done]. injection Hs as <-.
    intros I. destruct (inv_conns _ I _ _ Hc) as (_ & _ & _ & Hw). rewrite Ew in Hw. destruct Hw as [Hw Hmet]. revert I.
    set (cp := (_enqueue_pending_commands (cc_instance_id ctx) (cc_session_id ctx) acc conn now (control_plane s)).1).
    change (sound s (on_conn conn (set_ws (WsReceiving (Some ctx))) (set_control_plane cp s))).
    transitivity (set_control_plane cp s).
    + apply sound_control_plane, enqueue_keeps; [|exact Hmet]. unfold conn_instance. rewrite Hc. exact Hw.
    + apply sound_on_conn. intros c' I Hc'. split; [done|].
      apply conn_ok_set_ws; [by apply (inv_conns _ I conn)|].
      change (connections s !! conn = Some c') in Hc'. simplify_eq. exact Hw.
  - (* ServerSends *)
    apply bind_Some in Hs as (c & Hc & Hs).
    destruct (send_queues (control_plane s) !! conn) as [[|p rest]|] eqn:Eq; [done| |done].
    assert (H : sound s (on_conn conn (push_down (FCommand p))
                           (set_control_plane (set_queues <[conn := rest]> (control_plane s)) s))).
    { intros I. destruct (ok_queues _ _ _ _ _ (inv_server _ I) _ _ p Eq (list_elem_of_here _ _)) as (i & Hi & Hk).
      revert I. set (s1 := set_control_plane _ s). change (sound s (on_conn conn (push_down (FCommand p)) s1)).
      transitivity s1.
      - apply sound_control_plane. intros [H1 H2 H3]. split; [|done]. split; [done| |done].
        intros k q p'. cbn. rewrite lookup_insert. case_decide as D; [|apply H2].
        subst k. intros [= ->] Hp'. apply (H2 conn (p :: q) p' Eq). by right.
      - apply sound_on_conn. intros c' I Hc'. split; [apply push_down_process|].
        apply conn_ok_push_down; [by apply (inv_conns _ I conn)|]. exists i. split; [|done].
        change (connections s !! conn = Some c') in Hc'. unfold conn_instance in Hi. by rewrite Hc' in Hi. }
    destruct (cn_ws c), (cn_broken c); try done; by injection Hs as <-.
  - (* ServerNotices *)
    apply bind_Some in Hs as (c & Hc & Hs).
    destruct (cn_ws c) as [ctx|ctx acc|], (cn_broken c); try done; injection Hs as <-; apply sound_ws_ends.
  - (* CommandCreated *)
    injection Hs as <-. apply sound_request.
    apply se_rel_bind; [apply _| |intros i; apply create_instance_keeps].
    unfold get_instance_or_404. apply se_rel_bind; [apply _|apply se_rel_gets, _|].
    intros [i|]; [apply se_rel_ret, _ | apply se_rel_raise, _].
  - (* FanoutCreated *)
    injection Hs as <-. apply sound_request, fanout_keeps.
  - (* CommandsExpire *)
    injection Hs as <-. apply sound_request, expire_keeps.
  - (* ServerRestarts *)
    injection Hs as <-. set (cp := set_connections _ _).
    transitivity (set_control_plane cp s).
    + apply sound_control_plane. etransitivity; [apply (disconnect_keeps _ _ _ _ now (control_plane s))|].
      intros [H1 H2 H3]. split; [|done]. split; [done| |].
      * intros k q p. cbn. by rewrite lookup_empty.
      * intros i lc. cbn. by rewrite lookup_empty.
    + apply (sound_break_all (λ c, break (set_ws WsClosed c)) (set_control_plane cp s)).
      intros c Hc. split; [done|]. by apply conn_ok_break, conn_ok_set_ws.
  - (* LinkBreaks *)
    apply bind_Some in Hs as (c & Hc & [= <-]). apply sound_break.
Qed.

Lemma initial_invariant : invariant initial.
Proof.
  split; cbn.
  - split; cbn; intros *; by rewrite lookup_empty.
  - intros *. by rewrite lookup_empty.
  - intros *. by rewrite lookup_empty.
  - intros e He. by apply elem_of_nil in He.
Qed.

Lemma run_sound acts s s' : run labels_hash instance_offline_after acts s = Some s' → sound s s'.
Proof.
  revert s. induction acts as [|a acts IH]; intros s; cbn; [intros [= <-]; reflexivity|].
  intros (s1 & H1 & H2)%bind_Some. etransitivity; [by eapply step_sound | by apply IH].
Qed.

Lemma reachable_invariant s : reachable labels_hash instance_offline_after s → invariant s.
Proof. intros [acts H]. exact (proj1 (run_sound acts _ _ H initial_invariant)). Qed.
End Step.
