(* ===== verification/CommandTheorems.v ===== *)
(** * Agents and control plane: what operators may rely on

    Outcomes are final and true; a process runs a command at most once, and
    only commands of its instance; without failures every command that was
    sent is answered.  Concrete histories first. *)

From stdpp Require Import base gmap sets list strings numbers.
From Stdlib Require Import ZArith Lia Ascii.
From S2P Require Import Prelude PyFloat Value Calendar Ingest Commands CommandServer CommandAgent CommandSystem CommandInvariant.

(** ** Concrete histories *)

Definition demo_service : ServiceDescriptor :=
  {| sd_service := ("billing", "prod"); sd_description := None; sd_node_name := "n1";
     sd_instance_id := "i"; sd_deployment_version := "v1" |}.

Definition demo_runtime : RuntimeDescriptor :=
  {| onestep_version := "1.0"; python_version := "3.12"; hostname := "h"; pid := 7; rt_started_at := 0 |}.

Definition demo_capabilities : list string := ["telemetry.sync"; "command.ping"; "command.shutdown"].

Definition demo_audit : CommandAuditMetadata :=
  {| au_created_by := Some "op"; au_reason := Some "test"; au_source_surface := "instance_detail" |}.

Definition demo_request (k : AgentCommandKind) (mode : AgentCommandDeliveryMode) : AgentCommandCreateRequest :=
  {| rq_kind := k; rq_args := []; rq_timeout_s := 10; rq_delivery_mode := mode; rq_reason := Some "test" |}.

Definition demo_step := step (λ _, "") 90000000.
Definition demo_run := run (λ _, "") 90000000.

(** A process connects. *)
Definition demo_connect (n conn : nat) (session : string) (now : Z) : list action :=
  [ConnectBegins n conn demo_capabilities; ServerReceives conn session now; ConnectAnswered n;
   ServerGreeted conn now].

Definition demo_start : list action := ProcessStarts 1 demo_service demo_runtime :: demo_connect 1 1 "s1" 0.

(** A command is created and read by the agent. *)
Definition demo_command (id : string) (now : Z) : list action :=
  [CommandCreated "i" (demo_request Kping dispatch_now_only) demo_audit id now; ServerSends 1;
   LoopReads 1 1 true now].

(** ... accepted, run and answered. *)
Definition demo_answer (id : string) (now : Z) : list action :=
  [LoopSent 1 1 true; ServerReceives 1 "" now; HandlerEnds 1 id now now (HandlerReturned (VBool true));
   ResultSent 1 id true; ServerReceives 1 "" now].

Definition command_summary (s : option system) (id : string)
    : option (AgentCommandStatus * option AgentCommandAckStatus * option Z) :=
  s ← s; c ← agent_commands (control_plane s) !! id; Some (cmd_status c, ack_status c, finished_at c).

Definition started_handlers (s : option system) : option nat :=
  s ← s; Some (length (List.filter (λ e, match e with EvStarted _ _ => true | _ => false end) (log s))).

Example command_succeeds :
  command_summary (demo_run (demo_start ++ demo_command "c" 5 ++ demo_answer "c" 7) initial) "c"
  = Some (Ssucceeded, Some ack_accepted, Some 7%Z).
Proof. vm_compute. reflexivity. Qed.

(** The connection breaks while the acknowledgement is sent: the process has
    a receipt for the command but no task that runs it.  It comes again on
    the next connection, is acknowledged from the receipt, and never runs:
    the control plane reports a timeout. *)
Definition demo_accepted_not_run : list action :=
  demo_start ++ demo_command "c" 5 ++ [LinkBreaks 1; LoopSent 1 1 false; ServerNotices 1 6]
  ++ demo_connect 1 2 "s2" 7 ++ [ServerSends 2; LoopReads 1 2 true 8; LoopSent 1 2 true;
      ServerReceives 2 "" 9; CommandsExpire ExpireAll 20000000].

Example accepted_not_run :
  command_summary (demo_run demo_accepted_not_run initial) "c" = Some (Stimeout, Some ack_accepted, Some 10000005%Z)
  ∧ started_handlers (demo_run demo_accepted_not_run initial) = Some 0%nat.
Proof. vm_compute. split; reflexivity. Qed.

(** The connection breaks while the result is sent: the receipt holds the
    result, but a command that was accepted is not sent again, so that the
    process is never asked for it: the control plane reports a timeout. *)
Definition demo_result_lost : list action :=
  demo_start ++ demo_command "c" 5
  ++ [LoopSent 1 1 true; ServerReceives 1 "" 6; HandlerEnds 1 "c" 6 7 (HandlerReturned (VBool true));
      LinkBreaks 1; ResultSent 1 "c" false; LoopEnds 1 1; ServerNotices 1 8]
  ++ demo_connect 1 2 "s2" 9 ++ [CommandsExpire ExpireAll 20000000].

Example result_lost :
  command_summary (demo_run demo_result_lost initial) "c" = Some (Stimeout, Some ack_accepted, Some 10000005%Z)
  ∧ (send_queues ∘ control_plane) <$> demo_run demo_result_lost initial = Some {[1%nat := []]}.
Proof. vm_compute. split; reflexivity. Qed.

(** A command that may only be sent to a live connection is sent again after
    a reconnect, to a process that has started in the meantime. *)
Definition demo_live_only : list action :=
  demo_start
  ++ [CommandCreated "i" (demo_request Kshutdown dispatch_now_only) demo_audit "c" 5; ServerSends 1;
      LoopReads 1 1 true 5; ProcessDies 1; ServerNotices 1 6; ProcessStarts 2 demo_service demo_runtime]
  ++ demo_connect 2 2 "s2" 7 ++ [ServerSends 2; LoopReads 2 2 true 8; LoopSent 2 2 true].

Example live_only_redelivered : started_handlers (demo_run demo_live_only initial) = Some 1%nat.
Proof. vm_compute. reflexivity. Qed.

(** ** At most once *)

Definition start_of (e : event) : option (nat * string) :=
  match e with EvStarted n p => Some (n, cp_command_id p) | _ => None end.

(** The processes and the commands they have begun to run. *)
Definition starts (l : list event) : list (nat * string) := omap start_of l.

(** Loop [k] is about to run [p]: its acknowledgement is being sent. *)
Definition will_run (t : ControlPlaneWsTransport) (k : nat) (p : AgentCommandPayload) : Prop :=
  ∃ to f, _receive_loops t !! k = Some (LoopSending to f (ThenExecute p)).

Record once (l : list event) (n : nat) (t : ControlPlaneWsTransport) : Prop := {
  once_receipt : ∀ id, (n, id) ∈ starts l → is_Some (_command_receipts t !! id);
  once_pending : ∀ k p, will_run t k p →
    is_Some (_command_receipts t !! cp_command_id p) ∧ (n, cp_command_id p) ∉ starts l;
  once_loop : ∀ k k' p p', will_run t k p → will_run t k' p' → cp_command_id p = cp_command_id p' → k = k';
}.

Record all_once (s : system) : Prop := {
  ao_starts : NoDup (starts (log s));
  ao_process : ∀ n tl, processes s !! n = Some tl → once (log s) n tl.1;
  ao_known : ∀ n id, (n, id) ∈ starts (log s) → is_Some (processes s !! n);
}.

(** [t'] has the receipts of [t] and runs nothing that [t] would not. *)
Definition calmer (t t' : ControlPlaneWsTransport) : Prop :=
  (∀ id, is_Some (_command_receipts t !! id) → is_Some (_command_receipts t' !! id))
  ∧ ∀ k p, will_run t' k p → will_run t k p.

#[export] Instance calmer_preorder : PreOrder calmer.
Proof. split; [by split|]. intros t1 t2 t3 [R1 W1] [R2 W2]. split; auto. Qed.

Lemma once_calmer l n t t' : calmer t t' → once l n t → once l n t'.
Proof.
  intros [R W] [H1 H2 H3]. split.
  - intros id Hi. by apply R, H1.
  - intros k p Hw. destruct (H2 k p (W k p Hw)). split; [by apply R|done].
  - intros k k' p p' Hw Hw'. apply H3; by apply W.
Qed.

Lemma all_once_process n t t' s es :
  process s n = Some t → calmer t t' → starts es = [] →
  all_once s → all_once (set_process n t' (record_events es s)).
Proof.
  intros Hp%process_lookup Hc He [H1 H2 H3].
  assert (E : starts (log s ++ es) = starts (log s)) by (unfold starts in *; by rewrite omap_app, He, app_nil_r).
  split; cbn [log processes set_process record_events]; rewrite ?E.
  - done.
  - intros n' tl. rewrite lookup_insert. case_decide as D; [subst; intros [= <-]|intros Hl].
    + destruct (H2 _ _ Hp) as [P1 P2 P3]. apply (once_calmer _ _ t); [done|]. split; by rewrite ?E.
    + destruct (H2 _ _ Hl) as [P1 P2 P3]. split; by rewrite ?E.
  - intros n' id Hi. rewrite lookup_insert. case_decide; [by eexists | by eapply H3].
Qed.

Lemma all_once_same s s' :
  starts (log s') = starts (log s) → processes s' = processes s → all_once s → all_once s'.
Proof.
  intros E1 E2 [H1 H2 H3]. split; rewrite ?E1, ?E2; try done. intros n tl Hl.
  destruct (H2 n tl Hl) as [P1 P2 P3]. split; by rewrite ?E1.
Qed.

Lemma all_once_other s s' :
  log s' = log s → processes s' = processes s → all_once s → all_once s'.
Proof. intros E1. apply all_once_same. by rewrite E1. Qed.

Lemma all_once_loop_moves n k t t' s es :
  process s n = Some t → calmer t t' → starts es = [] →
  all_once s → all_once (loop_moves n k t' (record_events es s)).
Proof.
  intros Hp Hc He Ho. unfold loop_moves.
  assert (H : all_once (set_process n t' (record_events es s))) by by eapply all_once_process.
  destruct (_receive_loops t' !! k); [exact H|].
  by apply (all_once_other (set_process n t' (record_events es s))).
Qed.

(** ** Calm changes of a transport *)

Lemma calmer_same t t' :
  _command_receipts t' = _command_receipts t → _receive_loops t' = _receive_loops t → calmer t t'.
Proof. intros E1 E2. split; [by rewrite E1|]. unfold will_run. by rewrite E2. Qed.

Lemma calmer_mark k t : calmer t (_mark_disconnected k t).
Proof. unfold _mark_disconnected. case_bool_decide; by apply calmer_same. Qed.

Lemma calmer_set_loop k pc t :
  (∀ to f p, pc ≠ LoopSending to f (ThenExecute p)) → calmer t (set_loops <[k := pc]> t).
Proof.
  intros Hn. split; [done|]. intros k' p (to & f & Hl). cbn in Hl. rewrite lookup_insert in Hl.
  case_decide; [injection Hl as ->; by destruct (Hn to f p)|by exists to, f].
Qed.

Lemma calmer_delete_loop k t : calmer t (set_loops (delete k) t).
Proof.
  split; [done|]. intros k' p (to & f & Hl). cbn in Hl. rewrite lookup_delete in Hl.
  case_decide; [done|by exists to, f].
Qed.

Lemma calmer_continues k t tp :
  calmer t tp.1 → (∀ to f p, tp.2 ≠ Some (LoopSending to f (ThenExecute p))) → calmer t (loop_continues k tp).
Proof.
  destruct tp as [t' [pc|]]; cbn; intros Hc Hn; (etransitivity; [exact Hc|]).
  - apply calmer_set_loop. intros to f p ->. by eapply Hn.
  - etransitivity; [apply calmer_delete_loop | apply calmer_mark].
Qed.

Lemma calmer_receipt id r t : calmer t (set_receipts <[id := r]> t).
Proof.
  split; [|done]. intros id' Hi. cbn. rewrite lookup_insert. by case_decide.
Qed.

Lemma calmer_execute m t : calmer t (_execute_command m t).
Proof.
  unfold _execute_command. etransitivity; [apply calmer_receipt|].
  cbn. by destruct (_connection t); apply calmer_same.
Qed.

Lemma calmer_answered f t : calmer t (connect_answered f t).
Proof.
  destruct f as [[se acc| |]|]; cbn; try by apply calmer_same.
  destruct (_connection t) as [k|]; [|by apply calmer_same].
  etransitivity; [|by apply (calmer_set_loop k)]. by apply calmer_same.
Qed.

Lemma calmer_close t : calmer t (close_transport t).
Proof.
  unfold close_transport. destruct (_connection t) as [k|]; [|by apply calmer_same].
  etransitivity; [apply (calmer_delete_loop k) | by apply calmer_same].
Qed.

(** ** The two actions that matter *)

(** A command arrives: it is run later only if there was no receipt. *)
Lemma once_message l n k supported now p t :
  _receive_loops t !! k = Some LoopReading → once l n t →
  once l n (loop_continues k (_handle_command_message supported now p t)).
Proof.
  intros Hk Ho. unfold _handle_command_message.
  destruct (_command_receipts t !! cp_command_id p) as [r|] eqn:E.
  - apply (once_calmer _ _ t); [|done]. apply calmer_continues; [done|]. cbn. intros to f q.
    unfold send_begins. by destruct (rc_ack r), (_connection t).
  - set (r := {| rc_ack := _; rc_result := _ |}). set (t1 := set_receipts <[cp_command_id p := r]> t).
    assert (H1 : once l n t1) by (apply (once_calmer _ _ t); [apply calmer_receipt|done]).
    destruct supported; [|apply (once_calmer _ _ t1); [|done]; apply calmer_continues; [done|]; cbn;
                           unfold send_begins; by destruct (_connection _)].
    unfold send_begins. cbn. destruct (_connection t) as [to|]; cbn;
      [|apply (once_calmer _ _ t1); [|done]; (etransitivity; [apply (calmer_delete_loop k) | apply calmer_mark])].
    set (ack := UAck _).
    assert (Hw : ∀ k' q, will_run (set_loops <[k := LoopSending to ack (ThenExecute p)]> t1) k' q →
                  k' = k ∧ q = p ∨ k' ≠ k ∧ will_run t k' q).
    { intros k' q (to' & f' & Hl). cbn in Hl. rewrite lookup_insert in Hl. case_decide as D.
      - left. by simplify_eq.
      - right. split; [done|]. by exists to', f'. }
    assert (Hnew : ∀ k' q, will_run t k' q → cp_command_id q ≠ cp_command_id p).
    { intros k' q Hq Eq. destruct (once_pending _ _ _ Ho _ _ Hq) as [[r' Hr] _]. rewrite Eq in Hr. congruence. }
    split.
    + exact (once_receipt _ _ _ H1).
    + intros k' q [[-> ->] | [_ Hq]]%Hw; [|exact (once_pending _ _ _ H1 k' q Hq)].
      split; [cbn; rewrite lookup_insert_eq; by eexists|].
      intros Hs%(once_receipt _ _ _ Ho). rewrite E in Hs. by destruct Hs.
    + intros k1 k2 q1 q2 [[-> ->] | [_ Hq1]]%Hw [[-> ->] | [_ Hq2]]%Hw Eq; [done| | |].
      * by destruct (Hnew _ _ Hq2).
      * by destruct (Hnew _ _ Hq1).
      * by eapply (once_loop _ _ _ Ho).
Qed.

(** The acknowledgement is sent: the command begins to run. *)
Lemma once_sent l n k to f next t :
  _receive_loops t !! k = Some (LoopSending to f next) → once l n t →
  once (l ++ started_by n next) n (loop_continues k (after_send next t)).
Proof.
  intros Hk Ho. destruct next as [id|p|]; cbn [started_by after_send].
  - rewrite app_nil_r. apply (once_calmer _ _ t); [|done]. apply calmer_continues; cbn.
    + by destruct (_ ≫= rc_result).
    + intros to' f' q. destruct (_ ≫= rc_result); [|done]. unfold send_begins. by destruct (_connection t).
  - assert (Hp : will_run t k p) by by exists to, f. cbn.
    assert (Hw : ∀ k' q, will_run (set_loops <[k := LoopReading]> (set_executions <[cp_command_id p := ExRunning p]> t)) k' q →
                  k' ≠ k ∧ will_run t k' q).
    { intros k' q (to' & f' & Hl). cbn in Hl. rewrite lookup_insert in Hl. case_decide; [done|].
      split; [done|]. by exists to', f'. }
    assert (Hs : ∀ id, (n, id) ∈ starts (l ++ [EvStarted n p]) ↔ (n, id) ∈ starts l ∨ id = cp_command_id p).
    { intros id. unfold starts. rewrite omap_app, elem_of_app. cbn. rewrite list_elem_of_singleton.
      split; [intros [?|[= ->]]; auto | intros [?| ->]; auto]. }
    split.
    + intros id [Hi | ->]%Hs; cbn; [by apply (once_receipt _ _ _ Ho) | by apply (once_pending _ _ _ Ho k)].
    + intros k' q [Hn Hq]%Hw. destruct (once_pending _ _ _ Ho _ _ Hq) as [Hr Hi]. split; [done|].
      intros [Hj | Eq]%Hs; [done|]. apply Hn. by eapply (once_loop _ _ _ Ho).
    + intros k1 k2 q1 q2 [_ Hq1]%Hw [_ Hq2]%Hw. by apply (once_loop _ _ _ Ho).
  - rewrite app_nil_r. apply (once_calmer _ _ t); [|done]. by apply calmer_continues.
Qed.

Lemma all_once_update n t t' s es :
  process s n = Some t →
  NoDup (starts (log s ++ es)) →
  (∀ n' id, (n', id) ∈ starts es → n' = n) →
  (once (log s) n t → once (log s ++ es) n t') →
  all_once s → all_once (set_process n t' (record_events es s)).
Proof.
  intros Hp%process_lookup Hd He Ht [H1 H2 H3].
  assert (Hs : ∀ n' id, (n', id) ∈ starts (log s ++ es) ↔ (n', id) ∈ starts (log s) ∨ (n', id) ∈ starts es)
    by (intros; unfold starts; by rewrite omap_app, elem_of_app).
  split; cbn [log processes set_process record_events]; [done| |].
  - intros n' tl. rewrite lookup_insert. case_decide as D; [subst; intros [= <-]|intros Hl].
    + apply Ht. exact (H2 _ _ Hp).
    + assert (E : ∀ id, (n', id) ∈ starts (log s ++ es) ↔ (n', id) ∈ starts (log s)).
      { intros id. rewrite Hs. split; [intros [?|Hi]; [done|]|auto]. by apply He in Hi. }
      destruct (H2 _ _ Hl) as [P1 P2 P3]. split; [|intros k p Hw; rewrite E; exact (P2 k p Hw)|done].
      intros id Hi. by apply P1, E.
  - intros n' id [Hi|Hi]%Hs; rewrite lookup_insert; (case_decide as D; [by eexists|]).
    + by eapply H3.
    + by apply He in Hi.
Qed.

Lemma all_once_moves n k t t' s es :
  process s n = Some t →
  NoDup (starts (log s ++ es)) →
  (∀ n' id, (n', id) ∈ starts es → n' = n) →
  (once (log s) n t → once (log s ++ es) n t') →
  all_once s → all_once (loop_moves n k t' (record_events es s)).
Proof.
  intros Hp Hd He Ht Ho. pose proof (all_once_update n t t' s es Hp Hd He Ht Ho) as H.
  unfold loop_moves. destruct (_receive_loops t' !! k); [exact H|].
  by apply (all_once_other (set_process n t' (record_events es s))).
Qed.

Section Step.
Context (labels_hash : list (string * string) → string) (instance_offline_after : Z).

Lemma ws_frame_agents k ctx f session now s :
  starts (log (ws_frame labels_hash k ctx f session now s)) = starts (log s)
  ∧ processes (ws_frame labels_hash k ctx f session now s) = processes s.
Proof.
  destruct f, ctx; cbn; unfold ws_refuses, ws_ends, ws_error;
    repeat case_match; cbn; unfold starts; rewrite ?omap_app, ?app_nil_r; done.
Qed.

Lemma record_nil s : record_events [] s = s.
Proof. destruct s. unfold record_events. cbn. by rewrite app_nil_r. Qed.

Lemma refused_starts n supported f t : starts (refused_by n supported f t) = [].
Proof. unfold refused_by. destruct f; try done. by destruct (_ || _). Qed.

Lemma step_once a s s' : step labels_hash instance_offline_after a s = Some s' → all_once s → all_once s'.
Proof.
  destruct a; cbn [step]; intros Hs Ho.
  - (* ProcessStarts *)
    destruct (processes s !! n) eqn:E; [done|]. injection Hs as <-. destruct Ho as [H1 H2 H3].
    assert (Hn : ∀ id, (n, id) ∉ starts (log s)) by (intros id Hi%H3; rewrite E in Hi; by destruct Hi).
    split; cbn [log processes set_process]; [done| |].
    + intros n' tl. rewrite lookup_insert. case_decide as D; [subst; intros [= <-]|apply H2].
      split; cbn; [intros id Hi; by destruct (Hn id)| |];
        [intros k p (to & f & Hl) | intros k k' p p' (to & f & Hl)]; cbn in Hl; by rewrite lookup_empty in Hl.
    + intros n' id Hi. rewrite lookup_insert. case_decide; [by eexists|by eapply H3].
  - (* ProcessDies *)
    apply bind_Some in Hs as (t & Hp & [= <-]). destruct Ho as [H1 H2 H3].
    split; cbn [log processes end_process set_conns]; [done| |].
    + intros n' tl. rewrite lookup_alter. case_decide as D; [|apply H2].
      intros (tl0 & Hl & ->)%fmap_Some. subst. exact (H2 _ _ Hl).
    + intros n' id Hi. apply H3 in Hi as [tl Hl]. rewrite lookup_alter.
      case_decide; [subst|]; rewrite Hl; by eexists.
  - (* ConnectBegins *)
    apply bind_Some in Hs as (t & Hp & Hs). destruct (connections s !! conn) eqn:Ec; [done|].
    apply bind_Some in Hs as (t' & Hb & [= <-]).
    apply (all_once_other (set_process n t' (record_events [] s))); [by rewrite record_nil..|].
    eapply all_once_process; [done| |done|done]. revert Hb. unfold connect_begins.
    destruct (_ || _); [done|]. intros [= <-]. by apply calmer_same.
  - (* ConnectAnswered *)
    apply bind_Some in Hs as (t & Hp & (k & Hk & (c & Hc & Hs)%bind_Some)%bind_Some).
    destruct (cn_down c) as [|f down]; [done|].
    apply (all_once_other (set_process n (connect_answered (Some f) t) (record_events [] s)));
      [rewrite record_nil; destruct f; injection Hs as <-; reflexivity..|].
    eapply all_once_process; [done|apply calmer_answered|done|done].
  - (* ConnectFails *)
    apply bind_Some in Hs as (t & Hp & (k & Hk & (c & Hc & Hs)%bind_Some)%bind_Some).
    destruct (cn_broken c); [|done]. injection Hs as <-.
    rewrite <- (record_nil s). eapply all_once_process; [done|apply (calmer_answered None)|done|done].
  - (* LoopReads *)
    apply bind_Some in Hs as (t & Hp & (c & Hc & Hs)%bind_Some).
    destruct (_receive_loops t !! conn) as [[|to g next]|] eqn:El; [|done|done].
    destruct (cn_down c) as [|f down] eqn:Ed; [done|]. injection Hs as <-.
    set (s1 := on_conn conn _ s).
    assert (Ho1 : all_once s1) by by apply (all_once_other s).
    eapply all_once_moves; [exact Hp| | | |exact Ho1].
    + unfold starts. rewrite omap_app. fold (starts (log s1)). fold (starts (refused_by n supported f t)).
      rewrite refused_starts, app_nil_r. apply Ho1.
    + intros n' id. rewrite refused_starts. by intros ?%elem_of_nil.
    + intros Hon. assert (Hon' : once (log s1 ++ refused_by n supported f t) n t).
      { assert (E : starts (log s1 ++ refused_by n supported f t) = starts (log s1)).
        { unfold starts. rewrite omap_app. fold (starts (refused_by n supported f t)).
          by rewrite refused_starts, app_nil_r. }
        destruct Hon as [P1 P2 P3]. split; by rewrite ?E. }
      unfold _receive_loop. destruct f as [|p|code []].
      * apply (once_calmer _ _ t); [|done]. by apply calmer_continues.
      * by apply once_message.
      * apply (once_calmer _ _ t); [|done]. by apply calmer_continues.
      * apply (once_calmer _ _ t); [|done]. by apply calmer_continues.
  - (* LoopSent *)
    apply bind_Some in Hs as (t & Hp & Hs).
    destruct (_receive_loops t !! conn) as [[|to g next]|] eqn:El; [done| |done].
    apply bind_Some in Hs as (c & Hc & Hs). destruct sent.
    + injection Hs as <-. set (s1 := on_conn to _ s).
      assert (Ho1 : all_once s1) by by apply (all_once_other s).
      eapply all_once_moves; [exact Hp| | | |exact Ho1].
      * unfold starts. rewrite omap_app. fold (starts (log s1)). fold (starts (started_by n next)).
        destruct next as [id|p|]; cbn; rewrite ?app_nil_r; try apply Ho1.
        apply list.NoDup_app. split; [apply Ho1|]. split; [|apply NoDup_singleton].
        intros x Hx ->%list_elem_of_singleton. revert Hx.
        eapply (once_pending _ _ _ (ao_process _ Ho1 _ _ (process_lookup _ _ _ Hp)) conn). by exists to, g.
      * intros n' id. destruct next; cbn; try by intros ?%elem_of_nil. by intros [= ->]%list_elem_of_singleton.
      * by apply once_sent with to g.
    + destruct (cn_broken c); [|done]. injection Hs as <-. rewrite <- (record_nil s).
      eapply all_once_loop_moves; [exact Hp| |done|done].
      apply (calmer_continues conn t (_mark_disconnected to t, None)); [apply calmer_mark|done].
  - (* LoopEnds *)
    apply bind_Some in Hs as (t & Hp & (c & Hc & Hs)%bind_Some).
    destruct (_receive_loops t !! conn) as [[|to g next]|] eqn:El; [|done|done].
    destruct (cn_broken c); [|done]. injection Hs as <-. rewrite <- (record_nil s).
    eapply all_once_loop_moves; [exact Hp| |done|done]. by apply (calmer_continues conn t (t, None)).
  - (* HandlerEnds *)
    apply bind_Some in Hs as (t & Hp & Hs).
    destruct (_executions t !! id) as [[p|to g]|] eqn:Ee; [|done|done]. injection Hs as <-.
    eapply all_once_process; [exact Hp|apply calmer_execute|done|done].
  - (* ResultSent *)
    apply bind_Some in Hs as (t & Hp & Hs).
    destruct (_executions t !! id) as [[p|to g]|] eqn:Ee; [done| |done].
    apply bind_Some in Hs as (c & Hc & Hs). destruct sent.
    + injection Hs as <-. apply (all_once_other (set_process n (set_executions (delete id) t) (record_events [] s)));
        [by rewrite record_nil..|]. eapply all_once_process; [exact Hp|by apply calmer_same|done|done].
    + destruct (cn_broken c); [|done]. injection Hs as <-.
      apply (all_once_other (set_process n (_mark_disconnected to (set_executions (delete id) t)) (record_events [] s)));
        [by rewrite record_nil..|]. eapply all_once_process; [exact Hp| |done|done].
      etransitivity; [by apply (calmer_same t (set_executions (delete id) t))|apply calmer_mark].
  - (* TelemetrySent *)
    apply bind_Some in Hs as (t & Hp & Hs).
    destruct (connected t), (_connection t) as [k|] eqn:Ek; try done. injection Hs as <-.
    by apply (all_once_other s).
  - (* TransportCloses *)
    apply bind_Some in Hs as (t & Hp & [= <-]).
    apply (all_once_other (set_process n (close_transport t) (record_events [] s)));
      [rewrite record_nil; by destruct (_connection t)..|].
    eapply all_once_process; [exact Hp|apply calmer_close|done|done].
  - (* ServerReceives *)
    apply bind_Some in Hs as (c & Hc & Hs).
    destruct (cn_ws c) as [ctx|ctx acc|], (cn_up c) as [|f up]; try done. injection Hs as <-.
    match goal with |- all_once (ws_frame _ _ _ _ _ _ ?s1) => destruct (ws_frame_agents conn ctx f new_session now s1) as [E1 E2] end.
    by apply (all_once_same s).
  - (* ServerGreeted *)
    apply bind_Some in Hs as (c & Hc & Hs). destruct (cn_ws c); try done. injection Hs as <-.
    by apply (all_once_other s).
  - (* ServerSends *)
    apply bind_Some in Hs as (c & Hc & Hs).
    destruct (send_queues (control_plane s) !! conn) as [[|p rest]|], (cn_ws c), (cn_broken c); try done;
      injection Hs as <-; by apply (all_once_other s).
  - (* ServerNotices *)
    apply bind_Some in Hs as (c & Hc & Hs).
    destruct (cn_ws c), (cn_broken c); try done; injection Hs as <-; by apply (all_once_other s).
  - injection Hs as <-. by apply (all_once_other s).
  - injection Hs as <-. by apply (all_once_other s).
  - injection Hs as <-. by apply (all_once_other s).
  - injection Hs as <-. by apply (all_once_other s).
  - apply bind_Some in Hs as (c & Hc & [= <-]). by apply (all_once_other s).
Qed.

Lemma run_once acts s s' :
  run labels_hash instance_offline_after acts s = Some s' → all_once s → all_once s'.
Proof.
  revert s. induction acts as [|a acts IH]; intros s; cbn; [by intros [= <-]|].
  intros (s1 & H1 & H2)%bind_Some Ho. eapply IH; [exact H2|]. by eapply step_once.
Qed.
End Step.

(** ** Theorems *)

Section Theorems.
Context (labels_hash : list (string * string) → string) (instance_offline_after : Z).

Abbreviation reached := (reachable labels_hash instance_offline_after).

Lemma reachable_once s : reached s → all_once s.
Proof.
  intros [acts H]. apply (run_once _ _ _ _ _ H). split; cbn.
  - constructor.
  - intros n tl Hl. by rewrite lookup_empty in Hl.
  - intros n id Hi. by apply elem_of_nil in Hi.
Qed.

(** C10. Whatever connections break, processes die and control planes restart:
    a process starts the handler of a command at most once, and only for a
    command that was created for its instance, with the kind, the arguments
    and the time limit of that command. *)
Theorem commands_run_once (s : system) :
  reached s →
  NoDup (starts (log s))
  ∧ ∀ n p, EvStarted n p ∈ log s →
      ∃ c, agent_commands (control_plane s) !! cp_command_id p = Some c ∧ build_command_message c = p
           ∧ instance_of s n = Some (cmd_instance_id c).
Proof.
  intros Hr. split; [apply (reachable_once s Hr)|]. intros n p Hp.
  pose proof (inv_log _ (reachable_invariant _ _ _ Hr) _ Hp) as (i & Hi & c & Hc & Hb & He).
  exists c. by rewrite He.
Qed.

(** A handler of the instance ran the command and ended as it shows. *)
Definition ran (s : system) (c : AgentCommand) : Prop :=
  ∃ n m, EvStarted n (build_command_message c) ∈ log s ∧ EvFinished n m ∈ log s
    ∧ instance_of s n = Some (cmd_instance_id c) ∧ res_command_id m = command_id c
    ∧ cmd_status c = result_as_status (res_status m) ∧ result_json c = res_result m
    ∧ error_message c = res_error_message m.

Lemma reported_ran s id c :
  invariant s → agent_commands (control_plane s) !! id = Some c → command_id c = id →
  reported (finished_in s) c → ran s c.
Proof.
  intros I Hc Hid (m & (n & Hm & Hi) & Em & Es & _ & Er & _ & Ee). exists n, m.
  destruct (inv_log _ I _ Hm) as (p & Hp & Ep).
  destruct (inv_log _ I _ Hp) as (i & _ & c' & Hc' & Hb & _).
  rewrite Ep, Em, Hid in Hc'. simplify_eq. by split_and!.
Qed.

(** The server knows the capability of every kind of command. *)
Lemma accepted_kind k capabilities :
  COMMAND_CAPABILITY_BY_KIND k ∈ capabilities → COMMAND_CAPABILITY_BY_KIND k ∈ _accepted_capabilities capabilities.
Proof.
  intros H. apply list_elem_of_In, List.filter_In. split; [by apply list_elem_of_In|].
  apply bool_decide_eq_true. apply (bool_decide_unpack _). by destruct k.
Qed.

(** C11. What the control plane shows of a command is what happened: a
    success, a failure or a cancellation that a handler of its instance
    reported; a timeout that a handler reported, or that passed after the
    command was accepted; a refusal of an agent, or of a session without the
    capability: one that this instance opened with a hello which does not
    advertise it; an expiry before any acknowledgement.  When the control
    plane ends a command for its time, that time has passed: it writes the
    row ([updated_at]) at the deadline or later. *)
Theorem reports_are_true (s : system) (id : string) (c : AgentCommand) :
  reached s → agent_commands (control_plane s) !! id = Some c →
  match cmd_status c with
  | Ssucceeded | Sfailed | Scancelled => ran s c
  | Stimeout => ran s c ∨ finished_at c = Some (_command_deadline c) ∧ (_command_deadline c ≤ updated_at c)%Z
                          ∧ ack_status c = Some ack_accepted
  | Srejected => (∃ n, EvRefused n id ∈ log s ∧ instance_of s n = Some (cmd_instance_id c))
                 ∨ error_code c = Some "command_capability_missing_on_reconnect" ∧ ack_status c = None
                   ∧ ∃ p, EvGreeted p ∈ log s ∧ sd_instance_id (he_service p) = cmd_instance_id c
                          ∧ COMMAND_CAPABILITY_BY_KIND (kind c) ∉ he_capabilities p
  | Sexpired => finished_at c = Some (_command_deadline c) ∧ (_command_deadline c ≤ updated_at c)%Z
                ∧ ack_status c = None
  | Spending | Sdispatched | Saccepted => finished_at c = None
  end.
Proof.
  intros Hr Hc. pose proof (reachable_invariant _ _ _ Hr) as I.
  destruct (ok_commands _ _ _ _ _ (inv_server _ I) _ _ Hc) as [[Hid Hw] He]. unfold explained in He.
  pose proof (reported_ran s id c I Hc Hid) as Hran.
  destruct (cmd_status c); try (by apply Hw); try (by apply Hran); try done.
  - by destruct He as [[Hf Hd] Ha].
  - destruct He as [(n & Hn & Hi) | (He & Ha & acc & (p & Hp & Hs & ->) & Hn)];
      [left; exists n; by rewrite Hid in Hn|]. right. split_and!; [done..|]. exists p. split_and!; [done..|].
    intros Hin. apply Hn. by apply accepted_kind.
  - destruct He as [He | ([Hf Hd] & _ & Ha)]; [left; by apply Hran | by right].
Qed.

(** C12. Once a command has an outcome, nothing changes it: not a late
    acknowledgement or result, not a reconnect, a restart or an expiry. *)
Theorem outcome_final (acts : list action) (s s' : system) (id : string) (c : AgentCommand) :
  reached s → run labels_hash instance_offline_after acts s = Some s' →
  agent_commands (control_plane s) !! id = Some c → finished_at c ≠ None →
  ∃ c', agent_commands (control_plane s') !! id = Some c' ∧ outcome c' = outcome c
        ∧ build_command_message c' = build_command_message c.
Proof.
  intros Hr Hrun Hc Hf. pose proof (reachable_invariant _ _ _ Hr) as I.
  destruct (run_sound _ _ _ _ _ Hrun I) as [_ G].
  destruct (gr_commands _ _ G _ _ Hc) as (c' & Hc' & Hb & _ & _ & _ & Ho). exists c'. auto.
Qed.
End Theorems.

(** ** Commands for live connections only *)

Lemma validated_mode kind args timeout_s mode reason r :
  validated_request kind args timeout_s mode reason = Ok r →
  rq_kind r = kind ∧ rq_delivery_mode r = mode ∧ (kind ∈ LIVE_ONLY_COMMAND_KINDS → mode = dispatch_now_only).
Proof.
  unfold validated_request. rewrite !bind_ok. intros (_ & _ & H). cbv zeta in H. revert H.
  rewrite !bind_ok. intros (_ & _ & H). revert H. rewrite !bind_ok. intros (args' & _ & H). revert H.
  rewrite !bind_ok. intros (_ & _ & H). revert H. rewrite !bind_ok. intros ([] & Hm%guard_else_ok & [= <-]).
  split_and!; try done. intros Hk. cbn. rewrite bool_decide_eq_true_2 in Hm by done. by destruct mode.
Qed.

(** A command that makes sense for a running process only is sent to the
    connection the instance has, or not created at all. *)
Theorem live_only_sent_or_refused (kind : AgentCommandKind) (args : list (string * value)) (timeout_s : Z)
    (mode : AgentCommandDeliveryMode) (reason : option string) (r : AgentCommandCreateRequest)
    (instance_id : string) (i : Instance) (meta : CommandAuditMetadata) (new_id : string) (now : Z)
    (s : ControlPlane) :
  validated_request kind args timeout_s mode reason = Ok r → kind ∈ LIVE_ONLY_COMMAND_KINDS →
  match create_instance_command instance_id i r meta new_id now s with
  | (s', Err _) => s' = s
  | (s', Ok c) =>
      ∃ conn session, _connections s !! instance_id = Some conn
        ∧ _get_active_session_for_instance instance_id s = Some session
        ∧ COMMAND_CAPABILITY_BY_KIND kind ∈ as_accepted_capabilities session
        ∧ cmd_status c = Sdispatched ∧ session_id c = Some (lc_session_id conn)
        ∧ agent_commands s' = <[new_id := c]> (agent_commands s)
        ∧ send_queues s' !! lc_send_queue conn
          = Some (default [] (send_queues s !! lc_send_queue conn) ++ [build_command_message c])
  end.
Proof.
  intros (Ek & Em & Hm)%validated_mode Hk. rewrite (Hm Hk) in Em. unfold create_instance_command. rewrite Em, Ek.
  unfold mbind, se_bind, se_gets, se_lift, guard_else. cbn.
  destruct (_get_active_session_for_instance instance_id s) as [session|] eqn:Ea; [|done].
  unfold accepts. case_bool_decide as Hcap; [|done]. cbn.
  destruct (_task_support_rejection _ _ _) as [[code detail]|]; [done|].
  destruct (_connections s !! instance_id) as [conn|] eqn:Ec; [|done].
  unfold dispatch_command, mbind, se_bind.
  destruct (create_command new_id instance_id i kind (rq_args r) (rq_timeout_s r) meta now s) as [s1 [c|e]] eqn:E;
    [|by apply create_command_err in E].
  apply create_command_spec in E as (Hn & -> & Hid & Hs & Hf & Ha & Hi & _). cbn.
  exists conn, session. rewrite Hs. split_and!; try done.
  - rewrite Hid. apply map_eq. intros k. rewrite lookup_alter, !lookup_insert. by repeat case_decide.
  - by rewrite lookup_insert_eq.
Qed.

(** ** On the concrete histories *)

Definition answered_acts : list action := demo_start ++ demo_command "c" 5 ++ demo_answer "c" 7.
Definition answered_state : system := default initial (demo_run answered_acts initial).

Lemma answered_reachable : reachable (λ _, "") 90000000 answered_state.
Proof. exists answered_acts. vm_compute. reflexivity. Qed.

(** What is read of a command [id]. *)
Definition shown {A} (f : AgentCommand → A) (id : string) (s : system) : option A :=
  f <$> agent_commands (control_plane s) !! id.

Lemma shown_some {A} (f : AgentCommand → A) id s x :
  shown f id s = Some x → ∃ c, agent_commands (control_plane s) !! id = Some c ∧ f c = x.
Proof. unfold shown. intros (c & -> & Hc)%fmap_Some. eauto. Qed.

Lemma commands_run_once_witness :
  reachable (λ _, "") 90000000 answered_state
  ∧ NoDup (starts (log answered_state)) ∧ starts (log answered_state) = [(1%nat, "c")].
Proof.
  pose proof answered_reachable as H.
  split; [exact H|]. split; [apply (commands_run_once _ _ _ H)|]. vm_compute. reflexivity.
Defined.

Lemma reports_are_true_witness :
  ∃ c, agent_commands (control_plane answered_state) !! "c" = Some c
       ∧ cmd_status c = Ssucceeded ∧ ran answered_state c.
Proof.
  assert (E : shown cmd_status "c" answered_state = Some Ssucceeded) by (vm_compute; reflexivity).
  apply shown_some in E as (c & E & Es). exists c. split; [exact E|]. split; [exact Es|].
  pose proof (reports_are_true _ _ answered_state "c" c answered_reachable E) as T. rewrite Es in T. exact T.
Defined.

Definition late_acts : list action := [LinkBreaks 1; CommandsExpire ExpireAll 99000000].

Lemma outcome_final_witness :
  ∃ c c', agent_commands (control_plane answered_state) !! "c" = Some c
    ∧ agent_commands (control_plane (default initial (demo_run late_acts answered_state))) !! "c" = Some c'
    ∧ outcome c' = outcome c ∧ finished_at c = Some 7%Z.
Proof.
  assert (E : shown finished_at "c" answered_state = Some (Some 7%Z)) by (vm_compute; reflexivity).
  apply shown_some in E as (c & E & Ef).
  assert (R : run (λ _, "") 90000000 late_acts answered_state
              = Some (default initial (demo_run late_acts answered_state))) by (vm_compute; reflexivity).
  assert (Hf : finished_at c ≠ None) by (rewrite Ef; discriminate).
  destruct (outcome_final (λ _, "") 90000000 _ _ _ "c" c answered_reachable R E Hf) as (c' & Hc' & Ho & _).
  exists c, c'. split; [exact E|]. split; [exact Hc'|]. split; [exact Ho|exact Ef].
Defined.

Definition demo_instance : Instance :=
  default (instance_stub demo_service) (instances (db (control_plane answered_state)) !! "i").

Definition shutdown_request : AgentCommandCreateRequest :=
  {| rq_kind := Kshutdown; rq_args := []; rq_timeout_s := 10; rq_delivery_mode := dispatch_now_only;
     rq_reason := Some "stop" |}.

Lemma live_only_sent_or_refused_witness :
  match create_instance_command "i" demo_instance shutdown_request demo_audit "c2" 8
          (control_plane answered_state) with
  | (_, Ok c) => cmd_status c = Sdispatched
  | (_, Err _) => False
  end.
Proof.
  assert (V : validated_request Kshutdown [] 10 dispatch_now_only (Some " stop ") = Ok shutdown_request)
    by (vm_compute; reflexivity).
  pose proof (live_only_sent_or_refused Kshutdown [] 10 dispatch_now_only (Some " stop ") _ "i" demo_instance
                demo_audit "c2" 8 (control_plane answered_state) V ltac:(by left)) as T.
  assert (B : match (create_instance_command "i" demo_instance shutdown_request demo_audit "c2" 8
                       (control_plane answered_state)).2 with Ok _ => true | Err _ => false end = true)
    by (vm_compute; reflexivity).
  revert T B. destruct (create_instance_command _ _ _ _ _ _ _) as [s' [c'|e']].
  - intros (conn & session & _ & _ & _ & Hs & _) _. exact Hs.
  - intros _ B. discriminate B.
Defined.

(** A control plane with a command that waits. *)
Definition waiting_acts : list action :=
  demo_start ++ [LinkBreaks 1; ServerNotices 1 3;
    CommandCreated "i" (demo_request Kping queue_until_reconnect) demo_audit "c" 5].
Definition waiting_state : system := default initial (demo_run waiting_acts initial).

Lemma waiting_keyed : keyed (agent_commands (control_plane waiting_state)).
Proof.
  assert (H : reachable (λ _, "") 90000000 waiting_state) by (exists waiting_acts; vm_compute; reflexivity).
  apply (cp_ok_keyed _ _ _ _ _ (inv_server _ (reachable_invariant _ _ _ H))).
Qed.

Lemma reconnect_redelivers_witness :
  let s' := (_enqueue_pending_commands "i" "s2" ["command.ping"] 2 7 (control_plane waiting_state)).1 in
  (cmd_status <$> agent_commands s' !! "c") = Some Sdispatched
  ∧ ∃ cs, default [] (send_queues s' !! 2%nat)
          = default [] (send_queues (control_plane waiting_state) !! 2%nat) ++ (build_command_message <$> cs)
          ∧ NoDup (command_id <$> cs).
Proof.
  destruct (reconnect_redelivers (control_plane waiting_state) "i" "s2" ["command.ping"] 2 7 waiting_keyed)
    as [H (cs & E & _ & Hd & _)].
  split; [|exists cs; split; [exact E|exact Hd]].
  rewrite H. vm_compute. reflexivity.
Defined.
