(* ===== verification/WsSender.v ===== *)
(** * The telemetry queue of [ControlPlaneWsSender]
      ([onestep_control_plane/ws.py])

    The reporter hands telemetry to the sender; a task of the sender connects
    the transport and sends what is pending, the newest sync and heartbeat
    first, metrics and events in order.  A caller may wait until its
    telemetry is sent.  The code is split at its awaits; the transport and
    the clock answer as the actions say.

    A [_QueuedTelemetry] is an object: the task holds the one it sends while
    others replace or drop it.  Objects are numbered as they are created, and
    a future has the number of the object it was created for.  Bodies under
    [_state_lock] do not await, so the lock is never contended. *)

From stdpp Require Import base gmap sets list strings numbers.
From Stdlib Require Import ZArith Lia.
From S2P Require Import Prelude PyFloat Value Reporter.

Inductive channel := Csync | Cheartbeat | Cmetrics | Cevents.

#[global] Instance channel_eq_dec : EqDecision channel.
Proof. solve_decision. Defined.

(** The futures of [send_and_wait]. *)
Inductive future := Waiting | Delivered | Failed (message : string) | Abandoned.

#[global] Instance future_eq_dec : EqDecision future.
Proof. solve_decision. Defined.

Section Sender.
Context {P : Type} (config : ControlPlaneReporterConfig).
(** Whether a payload holds a dict under ["service"] and ["runtime"]. *)
Context (has_service has_runtime : P → bool).

Record _QueuedTelemetry := {
  q_channel : channel;
  q_payload : P;
  waiters : list nat;
}.

(** The queues, the objects in them, and the futures. *)
Record telemetry := {
  _pending_sync : option nat;
  _pending_heartbeat : option nat;
  _pending_metrics : list nat;
  _pending_events : list nat;
  objects : gmap nat _QueuedTelemetry;
  futures : gmap nat future;
}.

Definition _max_pending_metric_payloads : nat := max_pending_metric_batches config.
Definition _max_pending_event_payloads : nat :=
  Nat.max 1 ((max_pending_events config + event_batch_size config - 1) / event_batch_size config).

(** ** The queues *)

Definition set_waiters (ws : list nat) (q : _QueuedTelemetry) : _QueuedTelemetry :=
  {| q_channel := q_channel q; q_payload := q_payload q; waiters := ws |}.
Definition set_objects f (t : telemetry) : telemetry :=
  {| _pending_sync := _pending_sync t; _pending_heartbeat := _pending_heartbeat t;
     _pending_metrics := _pending_metrics t; _pending_events := _pending_events t;
     objects := f (objects t); futures := futures t |}.
Definition set_futures f (t : telemetry) : telemetry :=
  {| _pending_sync := _pending_sync t; _pending_heartbeat := _pending_heartbeat t;
     _pending_metrics := _pending_metrics t; _pending_events := _pending_events t;
     objects := objects t; futures := f (futures t) |}.
Definition set_sync x (t : telemetry) : telemetry :=
  {| _pending_sync := x; _pending_heartbeat := _pending_heartbeat t;
     _pending_metrics := _pending_metrics t; _pending_events := _pending_events t;
     objects := objects t; futures := futures t |}.
Definition set_heartbeat x (t : telemetry) : telemetry :=
  {| _pending_sync := _pending_sync t; _pending_heartbeat := x;
     _pending_metrics := _pending_metrics t; _pending_events := _pending_events t;
     objects := objects t; futures := futures t |}.
Definition set_metrics l (t : telemetry) : telemetry :=
  {| _pending_sync := _pending_sync t; _pending_heartbeat := _pending_heartbeat t;
     _pending_metrics := l; _pending_events := _pending_events t;
     objects := objects t; futures := futures t |}.
Definition set_events l (t : telemetry) : telemetry :=
  {| _pending_sync := _pending_sync t; _pending_heartbeat := _pending_heartbeat t;
     _pending_metrics := _pending_metrics t; _pending_events := l;
     objects := objects t; futures := futures t |}.

Definition waiters_of (o : nat) (t : telemetry) : list nat :=
  match objects t !! o with Some q => waiters q | None => [] end.

(** [set_result], [set_exception]: only of a future that is not done. *)
Definition settle (f : future) (ws : list nat) (t : telemetry) : telemetry :=
  set_futures (λ m, foldl (λ m w, alter (λ x, match x with Waiting => f | _ => x end) w m) m ws) t.

(** [_resolve_waiters], [_fail_waiters]: the waiters of [o], which has none
    then. *)
Definition settle_waiters (f : future) (o : nat) (t : telemetry) : telemetry :=
  set_objects (alter (set_waiters []) o) (settle f (waiters_of o t) t).
Definition _resolve_waiters : nat → telemetry → telemetry := settle_waiters Delivered.
Definition _fail_waiters (message : string) : nat → telemetry → telemetry := settle_waiters (Failed message).

(** The waiters move to the replacement. *)
Definition _replace_latest (current : option nat) (replacement : nat) (t : telemetry) : telemetry :=
  match current with
  | None => t
  | Some c =>
      let ws := waiters_of c t in
      set_objects (λ m, alter (set_waiters []) c
                          (alter (λ q, set_waiters (ws ++ waiters q) q) replacement m)) t
  end.

Definition channel_text (c : channel) : string :=
  match c with Csync => "sync" | Cheartbeat => "heartbeat" | Cmetrics => "metrics" | Cevents => "events" end.

Definition dropped_message (c : channel) : string :=
  "control plane " +:+ channel_text c +:+ " telemetry was dropped due to local backpressure".

(** The queue that is left and the objects that go. *)
Definition _apply_queue_backpressure (limit : nat) (c : channel) (queue : list nat) (t : telemetry)
    : list nat * telemetry :=
  let overflow := (length queue - limit)%nat in
  (drop overflow queue, foldl (λ t o, _fail_waiters (dropped_message c) o t) t (take overflow queue)).

(** The body of [_enqueue] under the lock; [o] is the new object. *)
Definition put_telemetry (o : nat) (q : _QueuedTelemetry) (t : telemetry) : telemetry :=
  let t := set_objects <[o := q]> (set_futures (λ m, foldl (λ m w, <[w := Waiting]> m) m (waiters q)) t) in
  match q_channel q with
  | Csync => set_sync (Some o) (_replace_latest (_pending_sync t) o t)
  | Cheartbeat => set_heartbeat (Some o) (_replace_latest (_pending_heartbeat t) o t)
  | Cmetrics =>
      let '(l, t) := _apply_queue_backpressure _max_pending_metric_payloads Cmetrics (_pending_metrics t ++ [o]) t in
      set_metrics l t
  | Cevents =>
      let '(l, t) := _apply_queue_backpressure _max_pending_event_payloads Cevents (_pending_events t ++ [o]) t in
      set_events l t
  end.

(** What is pending, in the order of [_peek_pending_telemetry]. *)
Definition pending (t : telemetry) : list nat :=
  option_list (_pending_sync t) ++ option_list (_pending_heartbeat t) ++ _pending_metrics t ++ _pending_events t.

Definition _peek_pending_telemetry (t : telemetry) : option nat :=
  match _pending_sync t, _pending_heartbeat t, _pending_metrics t, _pending_events t with
  | Some o, _, _, _ => Some o
  | _, Some o, _, _ => Some o
  | _, _, o :: _, _ => Some o
  | _, _, _, o :: _ => Some o
  | _, _, _, _ => None
  end.

Definition _consume_sent_telemetry (o : nat) (t : telemetry) : telemetry :=
  match q_channel <$> objects t !! o with
  | None => t
  | Some c =>
      _resolve_waiters o
        match c with
        | Csync => if bool_decide (_pending_sync t = Some o) then set_sync None t else t
        | Cheartbeat => if bool_decide (_pending_heartbeat t = Some o) then set_heartbeat None t else t
        | Cmetrics => if bool_decide (head (_pending_metrics t) = Some o)
                      then set_metrics (tail (_pending_metrics t)) t else t
        | Cevents => if bool_decide (head (_pending_events t) = Some o)
                     then set_events (tail (_pending_events t)) t else t
        end
  end.

Definition closed_message : string := "control plane telemetry sender closed before delivery".

Definition _fail_all_pending_waiters (t : telemetry) : telemetry :=
  foldl (λ t o, _fail_waiters closed_message o t) t (pending t).

(** [close] drops what is left. *)
Definition drop_all (t : telemetry) : telemetry :=
  set_sync None (set_heartbeat None (set_metrics [] (set_events [] (_fail_all_pending_waiters t)))).

(** ** The tasks *)

(** A task of [_run] at its awaits. *)
Inductive worker_pc :=
(** created, not started *)
| WorkerBegins
(** [wake_event.wait()]; [set] lets it go on, even if the event is cleared
    before it does *)
| WorkerWaits (ev : nat) (woken : bool)
(** sleeping without descriptors; sleeping before it reconnects *)
| WorkerDefers
| WorkerBacksOff (o : nat)
(** [transport.connect], [send_telemetry], [close] after a failure *)
| WorkerConnects (o : nat) (previous_attempts : nat)
| WorkerSends (o : nat)
| WorkerCloses.

(** A call of [close]: [wait_for] the task, with a timer that may run out;
    closing the transport. *)
Inductive closer_pc :=
| CloserWaits (worker : nat) (timer : bool)
| CloserClosesTransport.

Record ControlPlaneWsSender := {
  queues : telemetry;
  (** the numbers of objects, events, tasks and calls so far *)
  made : nat;
  _service_descriptor : bool;
  _runtime_descriptor : bool;
  _wake_event : option nat;
  wake_events : gmap nat bool;
  _worker_task : option nat;
  workers : gmap nat worker_pc;
  closers : gmap nat closer_pc;
  _stop_requested : bool;
  _reconnect_attempts : nat;
  (** the objects [send_telemetry] has sent *)
  sent : list nat;
  (** [_transport.connected]: it holds a connection that was greeted *)
  transport_connected : bool;
  (** the tasks that ended cancelled *)
  cancelled : list nat;
}.

Definition new_sender : ControlPlaneWsSender :=
  {| queues := {| _pending_sync := None; _pending_heartbeat := None; _pending_metrics := [];
                  _pending_events := []; objects := ∅; futures := ∅ |};
     made := 0; _service_descriptor := false; _runtime_descriptor := false; _wake_event := None;
     wake_events := ∅; _worker_task := None; workers := ∅; closers := ∅; _stop_requested := false;
     _reconnect_attempts := 0; sent := [];
     transport_connected := false; cancelled := [] |}.

Definition on_queues f (s : ControlPlaneWsSender) : ControlPlaneWsSender :=
  {| queues := f (queues s); made := made s; _service_descriptor := _service_descriptor s;
     _runtime_descriptor := _runtime_descriptor s; _wake_event := _wake_event s; wake_events := wake_events s;
     _worker_task := _worker_task s; workers := workers s; closers := closers s;
     _stop_requested := _stop_requested s; _reconnect_attempts := _reconnect_attempts s; sent := sent s;
     transport_connected := transport_connected s; cancelled := cancelled s |}.
Definition set_wake e m (s : ControlPlaneWsSender) : ControlPlaneWsSender :=
  {| queues := queues s; made := made s; _service_descriptor := _service_descriptor s;
     _runtime_descriptor := _runtime_descriptor s; _wake_event := e; wake_events := m;
     _worker_task := _worker_task s; workers := workers s; closers := closers s;
     _stop_requested := _stop_requested s; _reconnect_attempts := _reconnect_attempts s; sent := sent s;
     transport_connected := transport_connected s; cancelled := cancelled s |}.
Definition count_made (s : ControlPlaneWsSender) : ControlPlaneWsSender :=
  {| queues := queues s; made := S (made s); _service_descriptor := _service_descriptor s;
     _runtime_descriptor := _runtime_descriptor s; _wake_event := _wake_event s; wake_events := wake_events s;
     _worker_task := _worker_task s; workers := workers s; closers := closers s;
     _stop_requested := _stop_requested s; _reconnect_attempts := _reconnect_attempts s; sent := sent s;
     transport_connected := transport_connected s; cancelled := cancelled s |}.
Definition set_tasks t ws (s : ControlPlaneWsSender) : ControlPlaneWsSender :=
  {| queues := queues s; made := made s; _service_descriptor := _service_descriptor s;
     _runtime_descriptor := _runtime_descriptor s; _wake_event := _wake_event s; wake_events := wake_events s;
     _worker_task := t; workers := ws; closers := closers s;
     _stop_requested := _stop_requested s; _reconnect_attempts := _reconnect_attempts s; sent := sent s;
     transport_connected := transport_connected s; cancelled := cancelled s |}.
Definition set_closers f (s : ControlPlaneWsSender) : ControlPlaneWsSender :=
  {| queues := queues s; made := made s; _service_descriptor := _service_descriptor s;
     _runtime_descriptor := _runtime_descriptor s; _wake_event := _wake_event s; wake_events := wake_events s;
     _worker_task := _worker_task s; workers := workers s; closers := f (closers s);
     _stop_requested := _stop_requested s; _reconnect_attempts := _reconnect_attempts s; sent := sent s;
     transport_connected := transport_connected s; cancelled := cancelled s |}.
Definition set_stop b (s : ControlPlaneWsSender) : ControlPlaneWsSender :=
  {| queues := queues s; made := made s; _service_descriptor := _service_descriptor s;
     _runtime_descriptor := _runtime_descriptor s; _wake_event := _wake_event s; wake_events := wake_events s;
     _worker_task := _worker_task s; workers := workers s; closers := closers s;
     _stop_requested := b; _reconnect_attempts := _reconnect_attempts s; sent := sent s;
     transport_connected := transport_connected s; cancelled := cancelled s |}.
Definition set_attempts n (s : ControlPlaneWsSender) : ControlPlaneWsSender :=
  {| queues := queues s; made := made s; _service_descriptor := _service_descriptor s;
     _runtime_descriptor := _runtime_descriptor s; _wake_event := _wake_event s; wake_events := wake_events s;
     _worker_task := _worker_task s; workers := workers s; closers := closers s;
     _stop_requested := _stop_requested s; _reconnect_attempts := n; sent := sent s;
     transport_connected := transport_connected s; cancelled := cancelled s |}.
Definition record_sent o (s : ControlPlaneWsSender) : ControlPlaneWsSender :=
  {| queues := queues s; made := made s; _service_descriptor := _service_descriptor s;
     _runtime_descriptor := _runtime_descriptor s; _wake_event := _wake_event s; wake_events := wake_events s;
     _worker_task := _worker_task s; workers := workers s; closers := closers s;
     _stop_requested := _stop_requested s; _reconnect_attempts := _reconnect_attempts s; sent := sent s ++ [o];
     transport_connected := transport_connected s; cancelled := cancelled s |}.

Definition set_transport b (s : ControlPlaneWsSender) : ControlPlaneWsSender :=
  {| queues := queues s; made := made s; _service_descriptor := _service_descriptor s;
     _runtime_descriptor := _runtime_descriptor s; _wake_event := _wake_event s; wake_events := wake_events s;
     _worker_task := _worker_task s; workers := workers s; closers := closers s;
     _stop_requested := _stop_requested s; _reconnect_attempts := _reconnect_attempts s; sent := sent s;
     transport_connected := b; cancelled := cancelled s |}.
Definition record_cancelled w (s : ControlPlaneWsSender) : ControlPlaneWsSender :=
  {| queues := queues s; made := made s; _service_descriptor := _service_descriptor s;
     _runtime_descriptor := _runtime_descriptor s; _wake_event := _wake_event s; wake_events := wake_events s;
     _worker_task := _worker_task s; workers := workers s; closers := closers s;
     _stop_requested := _stop_requested s; _reconnect_attempts := _reconnect_attempts s; sent := sent s;
     transport_connected := transport_connected s; cancelled := w :: cancelled s |}.

Definition set_worker (w : nat) (pc : worker_pc) (s : ControlPlaneWsSender) : ControlPlaneWsSender :=
  set_tasks (_worker_task s) (<[w := pc]> (workers s)) s.

(** [_ensure_wake_event]: the number of the event. *)
Definition _ensure_wake_event (s : ControlPlaneWsSender) : nat * ControlPlaneWsSender :=
  match _wake_event s with
  | Some e => (e, s)
  | None => let e := made s in (e, count_made (set_wake (Some e) (<[e := false]> (wake_events s)) s))
  end.

Definition wake (e : nat) (pc : worker_pc) : worker_pc :=
  match pc with WorkerWaits e' woken => WorkerWaits e' (woken || (e' =? e)%nat) | _ => pc end.

Definition _signal_worker (s : ControlPlaneWsSender) : ControlPlaneWsSender :=
  let '(e, s) := _ensure_wake_event s in
  set_tasks (_worker_task s) (wake e <$> workers s) (set_wake (_wake_event s) (<[e := true]> (wake_events s)) s).

(** [start]: the task is running, or a new one is made. *)
Definition start (s : ControlPlaneWsSender) : ControlPlaneWsSender :=
  match _worker_task s ≫= (λ w, workers s !! w) with
  | Some _ => s
  | None =>
      let s := (_ensure_wake_event (set_stop false s)).2 in
      count_made (set_tasks (Some (made s)) (<[made s := WorkerBegins]> (workers s)) s)
  end.

Definition _capture_identity (p : P) (s : ControlPlaneWsSender) : ControlPlaneWsSender :=
  {| queues := queues s; made := made s; _service_descriptor := _service_descriptor s || has_service p;
     _runtime_descriptor := _runtime_descriptor s || has_runtime p; _wake_event := _wake_event s;
     wake_events := wake_events s; _worker_task := _worker_task s; workers := workers s; closers := closers s;
     _stop_requested := _stop_requested s; _reconnect_attempts := _reconnect_attempts s; sent := sent s;
     transport_connected := transport_connected s; cancelled := cancelled s |}.

Definition _enqueue (c : channel) (p : P) (wait_for_delivery : bool) (s : ControlPlaneWsSender)
    : ControlPlaneWsSender :=
  let s := start s in
  let o := made s in
  let q := {| q_channel := c; q_payload := p; waiters := if wait_for_delivery then [o] else [] |} in
  _signal_worker (on_queues (put_telemetry o q) (_capture_identity p (count_made s))).

(** ** The task that sends *)

(** The [finally] clause of [_run]. *)
Definition worker_ends (w : nat) (s : ControlPlaneWsSender) : ControlPlaneWsSender :=
  set_tasks None (delete w (workers s)) s.

(** The top of the loop, up to the next await.  A wake event that is set
    already is cleared, and there is still nothing pending. *)
Definition loop_top (w : nat) (s : ControlPlaneWsSender) : ControlPlaneWsSender :=
  match _peek_pending_telemetry (queues s) with
  | Some o =>
      if transport_connected s then set_worker w (WorkerSends o) s
      else if negb (_service_descriptor s && _runtime_descriptor s) then set_worker w WorkerDefers s
      else if (0 <? _reconnect_attempts s)%nat then set_worker w (WorkerBacksOff o) s
      else set_worker w (WorkerConnects o (_reconnect_attempts s)) s
  | None =>
      if _stop_requested s then worker_ends w s
      else let '(e, s) := _ensure_wake_event s in
           set_worker w (WorkerWaits e false) (set_wake (_wake_event s) (<[e := false]> (wake_events s)) s)
  end.

(** ** [close] *)

(** What follows the end of the task, up to the await in
    [transport.close()], which has forgotten its connection by then. *)
Definition close_finishes (k : nat) (s : ControlPlaneWsSender) : ControlPlaneWsSender :=
  set_closers <[k := CloserClosesTransport]>
    (set_transport false (set_attempts 0 (set_wake None (wake_events s) (on_queues drop_all s)))).

Definition close_begins (s : ControlPlaneWsSender) : ControlPlaneWsSender :=
  let s := _signal_worker (set_stop true s) in
  let k := made s in
  let s := count_made s in
  match _worker_task s with
  | Some w => set_closers <[k := CloserWaits w true]> s
  | None => close_finishes k s
  end.

(** ** Actions *)

Inductive action :=
| Enqueue (c : channel) (p : P) (wait_for_delivery : bool)
(** the task that waits for a future is cancelled *)
| WaiterCancelled (w : nat)
(** the transport loses its connection (its receive loop ends, a message
    cannot be sent) *)
| LinkBreaks
| WorkerRuns (w : nat)
| WorkerReconnects (w : nat)
| WorkerConnected (w : nat) (ok : bool)
| WorkerSent (w : nat) (ok : bool)
| CloseCalled
| CloseTimesOut (k : nat) (swallowed : bool)
| CloseResumes (k : nat)
| CloseReturns (k : nat).

Definition step (a : action) (s : ControlPlaneWsSender) : option ControlPlaneWsSender :=
  match a with
  | Enqueue c p wait_for_delivery => Some (_enqueue c p wait_for_delivery s)
  | WaiterCancelled w =>
      match futures (queues s) !! w with
      | Some Waiting => Some (on_queues (set_futures <[w := Abandoned]>) s)
      | _ => None
      end
  | LinkBreaks => Some (set_transport false s)
  | WorkerRuns w =>
      match workers s !! w with
      | Some WorkerBegins | Some WorkerDefers | Some WorkerCloses => Some (loop_top w s)
      | Some (WorkerWaits e true) =>
          Some (loop_top w (set_wake (_wake_event s) (<[e := false]> (wake_events s)) s))
      | _ => None
      end
  | WorkerReconnects w =>
      match workers s !! w with
      | Some (WorkerBacksOff o) => Some (set_worker w (WorkerConnects o (_reconnect_attempts s)) s)
      | _ => None
      end
  | WorkerConnected w ok =>
      match workers s !! w with
      | Some (WorkerConnects o previous) =>
          Some (if ok then set_worker w (WorkerSends o) (set_attempts 0 (set_transport true s))
                else loop_top w (set_attempts (S previous) s))
      | _ => None
      end
  | WorkerSent w ok =>
      match workers s !! w with
      | Some (WorkerSends o) =>
          Some (if ok
                then loop_top w (on_queues (_consume_sent_telemetry o) (set_attempts 0 (record_sent o s)))
                else set_worker w WorkerCloses
                       (set_attempts (Nat.max (_reconnect_attempts s) 1) (set_transport false s)))
      | _ => None
      end
  | CloseCalled => Some (close_begins s)
  | CloseTimesOut k swallowed =>
      match closers s !! k with
      | Some (CloserWaits w true) =>
          let s := set_closers <[k := CloserWaits w false]> s in
          match workers s !! w with
          | Some WorkerBegins =>
              Some (record_cancelled w (set_tasks (_worker_task s) (delete w (workers s)) s))
          | Some WorkerCloses => Some (if swallowed then s else record_cancelled w (worker_ends w s))
          | Some _ => Some (record_cancelled w (worker_ends w s))
          | None => None
          end
      | _ => None
      end
  | CloseResumes k =>
      match closers s !! k with
      | Some (CloserWaits w timer) =>
          match workers s !! w with
          | None =>
              let s := set_tasks None (workers s) s in
              (* another call has cancelled the task: the wait raises, and [close] with it *)
              if timer && bool_decide (w ∈ cancelled s) then Some (set_closers (delete k) s)
              else Some (close_finishes k s)
          | Some _ => None
          end
      | _ => None
      end
  | CloseReturns k =>
      match closers s !! k with
      | Some CloserClosesTransport => Some (set_closers (delete k) s)
      | _ => None
      end
  end.

Fixpoint run (acts : list action) (s : ControlPlaneWsSender) : option ControlPlaneWsSender :=
  match acts with
  | [] => Some s
  | a :: acts => s' ← step a s; run acts s'
  end.

Definition reachable (s : ControlPlaneWsSender) : Prop := ∃ acts, run acts new_sender = Some s.
End Sender.
