(* ===== verification/WsSenderTheorems.v ===== *)
(** * The telemetry queue of the sender: what a caller may rely on

    A future tells the truth about its telemetry in every reachable state.
    As long as [close] is not called there is one task, what was sent went
    out once and in order, and a working transport empties the queues. *)

From stdpp Require Import base gmap sets list strings numbers sorting.
From Stdlib Require Import ZArith Lia.
From S2P Require Import Prelude PyFloat Value Reporter WsSender.

Section Theorems.
Context {P : Type} (config : ControlPlaneReporterConfig) (has_service has_runtime : P → bool).

Implicit Types (t : telemetry (P:=P)) (s : ControlPlaneWsSender (P:=P)).

(** ** Objects and futures *)

Definition channel_of t (o : nat) : option channel := q_channel <$> objects t !! o.

(** Every telemetry of these channels is to be sent. *)
Definition queued (c : channel) : bool := match c with Cmetrics | Cevents => true | _ => false end.

(** Telemetry [o] stands for [w]: it is [w], or a later state of the same
    channel. *)
Definition stands_for t (o w : nat) : Prop :=
  (w ≤ o)%nat ∧ is_Some (channel_of t o) ∧ channel_of t w = channel_of t o
  ∧ ∀ c, channel_of t o = Some c → queued c = true → o = w.

(** Where telemetry [o] of channel [c] is pending. *)
Definition slot t (c : channel) (o : nat) : Prop :=
  match c with
  | Csync => _pending_sync t = Some o
  | Cheartbeat => _pending_heartbeat t = Some o
  | Cmetrics => o ∈ _pending_metrics t
  | Cevents => o ∈ _pending_events t
  end.

(** [extra]: objects that are about to be put into a queue. *)
Definition kept t (extra : list nat) (o : nat) : Prop := (∃ c, slot t c o) ∨ o ∈ extra.

Record queue_ok (n : nat) (out extra : list nat) t : Prop := {
  qo_objects : ∀ o q, objects t !! o = Some q → (o < n)%nat ∧ ∀ w, w ∈ waiters q → stands_for t o w;
  qo_slots : ∀ c o, slot t c o → channel_of t o = Some c;
  qo_out : ∀ o, o ∈ out → is_Some (channel_of t o);
  qo_futures : ∀ w f, futures t !! w = Some f → (w < n)%nat ∧
    match f with
    | Waiting => ∃ o, kept t extra o ∧ w ∈ waiters_of o t
    | Delivered => ∃ o, o ∈ out ∧ stands_for t o w
    | _ => True
    end;
}.

(** The objects keep their channels. *)
Definition same_objects t t' : Prop := ∀ o, channel_of t' o = channel_of t o.

Lemma stands_for_same t t' o w : same_objects t t' → stands_for t o w → stands_for t' o w.
Proof. intros E. unfold stands_for. by rewrite !E. Qed.

Lemma channel_alter_waiters ws o t : same_objects t (set_objects (alter (set_waiters ws) o) t).
Proof.
  intros o'. unfold channel_of. cbn. rewrite lookup_alter. case_decide; [subst|done].
  by destruct (objects t !! o').
Qed.

Lemma pending_slot o t : o ∈ pending t ↔ ∃ c, slot t c o.
Proof.
  unfold pending. rewrite !elem_of_app.
  assert (H : ∀ x : option nat, o ∈ option_list x ↔ x = Some o).
  { intros [x|]; cbn; [rewrite list_elem_of_singleton; split; congruence|split; [by intros ?%elem_of_nil|done]]. }
  rewrite !H. split.
  - intros [E|[E|[E|E]]]; [by exists Csync|by exists Cheartbeat|by exists Cmetrics|by exists Cevents].
  - intros [[] E]; cbn in E; auto.
Qed.

(** ** Settling *)

Lemma settle_lookup f ws t w :
  futures (settle f ws t) !! w
  = (λ x, if bool_decide (w ∈ ws) then match x with Waiting => f | _ => x end else x) <$> futures t !! w.
Proof.
  unfold settle. cbn. generalize (futures t). induction ws as [|v ws IH]; intros m; cbn.
  - rewrite bool_decide_eq_false_2 by apply not_elem_of_nil. by destruct (m !! w).
  - rewrite IH, lookup_alter. destruct (decide (v = w)) as [->|D].
    + destruct (m !! w) as [x|]; cbn; [|done]. rewrite (bool_decide_eq_true_2 (w ∈ w :: ws)) by (by left).
      by destruct x; case_bool_decide; try done; destruct f.
    + destruct (m !! w) as [x|]; cbn; [|done].
      rewrite (bool_decide_ext (w ∈ v :: ws) (w ∈ ws)); [done|]. rewrite elem_of_cons.
      split; [intros [->|?]; [by destruct D|done] | auto].
Qed.

Lemma waiters_of_settled f o t o' :
  waiters_of o' (settle_waiters f o t) = if decide (o' = o) then [] else waiters_of o' t.
Proof.
  unfold waiters_of at 1, settle_waiters. cbn. rewrite lookup_alter.
  repeat case_decide; subst; try done. by destruct (objects t !! o').
Qed.

Lemma in_waiters t o w : w ∈ waiters_of o t → ∃ q, objects t !! o = Some q ∧ w ∈ waiters q.
Proof. unfold waiters_of. destruct (objects t !! o) as [q|]; [by exists q|by intros ?%elem_of_nil]. Qed.

Lemma settle_same f o t : same_objects t (settle_waiters f o t).
Proof. apply (channel_alter_waiters [] o (settle f (waiters_of o t) t)). Qed.

(** Objects lose their waiters, and futures are settled: failed at will,
    delivered if the object is out. *)
Lemma settle_waiters_ok n out extra f o t :
  (f = Delivered → o ∈ out) → f ≠ Waiting → queue_ok n out extra t → queue_ok n out extra (settle_waiters f o t).
Proof.
  intros Hd Hf [H1 H2 H3 H4]. pose proof (settle_same f o t) as E.
  split.
  - intros o' q. unfold settle_waiters. cbn. rewrite lookup_alter. case_decide as D.
    + subst o'. intros (q0 & Hq & ->)%fmap_Some. destruct (H1 _ _ Hq). split; [done|]. by intros w ?%elem_of_nil.
    + intros Hq. destruct (H1 _ _ Hq) as [? Hw]. split; [done|]. intros w Hiw. by eapply stands_for_same, Hw.
  - intros c o' Ho. rewrite E. by apply H2.
  - intros o' Ho. rewrite E. by apply H3.
  - intros w g Hg. change (futures (settle_waiters f o t)) with (futures (settle f (waiters_of o t) t)) in Hg.
    rewrite settle_lookup, fmap_Some in Hg. destruct Hg as (x & Hx & ->). destruct (H4 _ _ Hx) as [Hn Hc].
    split; [done|]. case_bool_decide as Dw.
    + destruct x; try done.
      * destruct f; try done. destruct (in_waiters _ _ _ Dw) as (q & Hq & Hiw).
        exists o. split; [by apply Hd|]. eapply stands_for_same; [done|]. by eapply H1.
      * destruct Hc as (o' & Ho' & Hs). exists o'. split; [done|]. by eapply stands_for_same.
    + destruct x; try done.
      * destruct Hc as (o' & Ho' & Hs). exists o'. split; [done|]. rewrite waiters_of_settled.
        case_decide; [subst|]; done.
      * destruct Hc as (o' & Ho' & Hs). exists o'. split; [done|]. by eapply stands_for_same.
Qed.

(** Failing several objects, before they leave the queues. *)
Lemma fail_list_ok n out extra msg l t :
  queue_ok n out extra t →
  let t' := foldl (λ t o, _fail_waiters msg o t) t l in
  queue_ok n out extra t' ∧ (∀ c o, slot t' c o ↔ slot t c o) ∧ same_objects t t'
  ∧ (∀ o, o ∈ l → waiters_of o t' = []) ∧ (∀ o, waiters_of o t = [] → waiters_of o t' = []).
Proof.
  revert t. induction l as [|o l IH]; intros t Ok; cbn.
  - split_and!; try done. intros o ?%elem_of_nil; done.
  - set (t1 := _fail_waiters msg o t). assert (Ok1 : queue_ok n out extra t1) by by apply settle_waiters_ok.
    destruct (IH t1 Ok1) as (A & B & C & D & E).
    assert (Hw : ∀ o', waiters_of o' t1 = if decide (o' = o) then [] else waiters_of o' t) by apply waiters_of_settled.
    split_and!; try done.
    + intros o'. rewrite C. apply (settle_same (Failed msg)).
    + intros o' [->|Ho]%elem_of_cons; [|by apply D]. apply E. by rewrite Hw, decide_True.
    + intros o' Ho. apply E. rewrite Hw. by case_decide.
Qed.

(** The queues change: what leaves has no waiters, what comes is of the
    channel. *)
Lemma requeue_ok n out extra extra' t t' :
  objects t' = objects t → futures t' = futures t →
  (∀ c o, slot t' c o → channel_of t o = Some c) →
  (∀ o, kept t extra o → kept t' extra' o ∨ waiters_of o t = []) →
  queue_ok n out extra t → queue_ok n out extra' t'.
Proof.
  intros Eo Ef Hin Hout [H1 H2 H3 H4].
  assert (E : same_objects t t') by (intros o; unfold channel_of; by rewrite Eo).
  split.
  - intros o q. rewrite Eo. intros Hq. destruct (H1 _ _ Hq) as [? Hw]. split; [done|].
    intros w Hi. by eapply stands_for_same, Hw.
  - intros c o Ho. rewrite E. by apply Hin.
  - intros o Ho. rewrite E. by apply H3.
  - intros w f. rewrite Ef. intros Hf. destruct (H4 _ _ Hf) as [Hn Hc]. split; [done|]. destruct f; try done.
    + destruct Hc as (o & Ho & Hi). unfold waiters_of. rewrite Eo. exists o. split; [|done].
      destruct (Hout o Ho) as [?|E0]; [done|]. rewrite E0 in Hi. by apply elem_of_nil in Hi.
    + destruct Hc as (o & Ho & Hs). exists o. split; [done|]. by eapply stands_for_same.
Qed.

(** ** Enqueueing *)

(** A new object, with its own future or none, not in a queue yet. *)
Lemma object_created n out c p (b : bool) t :
  queue_ok n out [] t →
  let q := {| q_channel := c; q_payload := p; waiters := if b then [n] else [] |} in
  let t' := set_objects <[n := q]> (set_futures (λ m, foldl (λ m w, <[w := Waiting]> m) m (waiters q)) t) in
  queue_ok (S n) out [n] t' ∧ channel_of t' n = Some c
  ∧ ∀ o, is_Some (channel_of t o) → (o < n)%nat ∧ channel_of t' o = channel_of t o.
Proof.
  intros [H1 H2 H3 H4] q t'.
  assert (Hlt : ∀ o, is_Some (channel_of t o) → (o < n)%nat).
  { intros o [ch Ho]. unfold channel_of in Ho. apply fmap_Some in Ho as (q' & Hq' & _). by apply H1 in Hq' as [? _]. }
  assert (Hnew : objects t' !! n = Some q) by (cbn; by rewrite lookup_insert_eq).
  assert (Hobj : ∀ o, (o < n)%nat → objects t' !! o = objects t !! o).
  { intros o Ho. cbn. rewrite lookup_insert_ne; [done|lia]. }
  assert (Hch : ∀ o, (o < n)%nat → channel_of t' o = channel_of t o).
  { intros o Ho. unfold channel_of. by rewrite Hobj. }
  assert (Hs : ∀ o w, stands_for t o w → stands_for t' o w).
  { intros o w (Hle & Hc & E & Hq). pose proof (Hlt o Hc). unfold stands_for.
    rewrite !Hch by lia. done. }
  assert (Hf : futures t' = if b then <[n := Waiting]> (futures t) else futures t) by by destruct b.
  split; [|split; [by unfold channel_of; rewrite Hnew|by auto]]. split.
  - intros o q' Hq'. cbn in Hq'. rewrite lookup_insert in Hq'. case_decide as D.
    + subst o. injection Hq' as <-. split; [lia|]. intros w Hw.
      assert (w = n) as -> by (destruct b; [by apply list_elem_of_singleton in Hw | by apply elem_of_nil in Hw]).
      unfold stands_for, channel_of. rewrite Hnew. split_and!; done.
    + destruct (H1 _ _ Hq') as [? Hw]. split; [lia|]. auto.
  - intros c' o Ho. change (slot t c' o) in Ho. specialize (H2 c' o Ho). rewrite Hch; [done|]. apply Hlt. by eexists.
  - intros o Ho. rewrite Hch; auto.
  - intros w f. rewrite Hf. intros Hw.
    assert (Hc : w = n ∧ f = Waiting ∧ b = true ∨ futures t !! w = Some f).
    { destruct b; [|by right]. rewrite lookup_insert in Hw. case_decide; [left|by right]. by simplify_eq. }
    destruct Hc as [(-> & -> & ->) | Hc].
    + split; [lia|]. exists n. split; [right; by left|]. unfold waiters_of. rewrite Hnew. by left.
    + destruct (H4 _ _ Hc) as [? Hx]. split; [lia|]. destruct f; try done.
      * destruct Hx as (o & [Ho|Ho%elem_of_nil] & Hi); [|done]. exists o. split; [by left|]. unfold waiters_of in *.
        rewrite Hobj; [done|]. apply Hlt. destruct Ho as [ch Ho]. exists ch. by apply H2.
      * destruct Hx as (o & Ho & Hi). eauto.
Qed.

(** The waiters of [c] move to a later object of its channel, which is not
    queued. *)
Lemma replace_ok n out extra current o ch t :
  (∀ c, current = Some c → (c < o)%nat ∧ channel_of t c = Some ch) →
  channel_of t o = Some ch → queued ch = false → o ∈ extra → queue_ok n out extra t →
  let t' := _replace_latest current o t in
  queue_ok n out extra t' ∧ (∀ c o, slot t' c o ↔ slot t c o) ∧ same_objects t t'
  ∧ (∀ c, current = Some c → waiters_of c t' = []).
Proof.
  intros Hcur Ho Hq Hin Ok. destruct current as [c|]; cbn; [|by split_and!].
  destruct (Hcur c eq_refl) as [Hlt Hc]. clear Hcur.
  set (ws := waiters_of c t). set (t' := set_objects _ t).
  assert (Hlook : ∀ x, objects t' !! x = if decide (x = c) then set_waiters [] <$> objects t !! x
                         else if decide (x = o) then (λ q, set_waiters (ws ++ waiters q) q) <$> objects t !! x
                         else objects t !! x).
  { intros x. cbn. rewrite !lookup_alter. repeat case_decide; subst; try done; try lia. }
  assert (Hsame : same_objects t t').
  { intros x. unfold channel_of. rewrite Hlook. repeat case_decide; by destruct (objects t !! x). }
  assert (Hw : ∀ x, waiters_of x t' = if decide (x = c) then [] else if decide (x = o) then ws ++ waiters_of x t
                                     else waiters_of x t).
  { intros x. unfold waiters_of at 1 2 3. rewrite Hlook. repeat case_decide; subst; try done.
    - by destruct (objects t !! c).
    - unfold channel_of in Ho. by destruct (objects t !! o). }
  destruct Ok as [H1 H2 H3 H4].
  assert (Hmove : ∀ w, w ∈ ws → stands_for t o w).
  { intros w (q & Hqc & Hiw)%in_waiters. destruct (H1 _ _ Hqc) as [_ Hs].
    destruct (Hs w Hiw) as (Hle & _ & E & _). unfold stands_for. rewrite Ho. split_and!.
    - lia.
    - by eexists.
    - congruence.
    - intros ch' [= <-]. congruence. }
  split_and!; try done; [split|].
  - intros x q Hx. rewrite Hlook in Hx. repeat case_decide; subst.
    + apply fmap_Some in Hx as (q0 & Hq0 & ->). destruct (H1 _ _ Hq0). split; [done|]. by intros w ?%elem_of_nil.
    + apply fmap_Some in Hx as (q0 & Hq0 & ->). destruct (H1 _ _ Hq0) as [? Hs]. split; [done|].
      intros w [Hi|Hi]%elem_of_app; eapply stands_for_same; eauto.
    + destruct (H1 _ _ Hx) as [? Hs]. split; [done|]. intros w Hi. eapply stands_for_same; eauto.
  - intros c' x Hx. rewrite Hsame. by apply H2.
  - intros x Hx. rewrite Hsame. by apply H3.
  - intros w f Hf. destruct (H4 w f Hf) as [? Hx]. split; [done|]. destruct f; try done.
    + destruct Hx as (x & Hk & Hi). destruct (decide (x = c)) as [->|Hn].
      * exists o. split; [by right|]. rewrite Hw, decide_False, decide_True by lia. apply elem_of_app. by left.
      * exists x. split; [done|]. rewrite Hw, decide_False by done. case_decide; [|done]. apply elem_of_app. by right.
    + destruct Hx as (x & Hk & Hi). exists x. split; [done|]. by eapply stands_for_same.
  - intros c' [= <-]. by rewrite Hw, decide_True.
Qed.

(** Backpressure: what leaves the queue has no waiters. *)
Lemma backpressure_ok n out o limit queue msg t l t' :
  (l, t') = (drop (length queue - limit) queue,
             foldl (λ t o, _fail_waiters msg o t) t (take (length queue - limit) queue)) →
  queue_ok n out [o] t →
  queue_ok n out [o] t' ∧ (∀ c o, slot t' c o ↔ slot t c o) ∧ same_objects t t'
  ∧ (∀ x, x ∈ l → x ∈ queue) ∧ (∀ x, x ∈ queue → x ∈ l ∨ waiters_of x t' = []).
Proof.
  intros [= -> ->] Ok. destruct (fail_list_ok n out [o] msg (take (length queue - limit) queue) t Ok)
    as (A & B & C & D & _).
  split_and!; try done.
  - intros x Hx. rewrite <- (take_drop (length queue - limit) queue). apply elem_of_app. by right.
  - intros x Hx. rewrite <- (take_drop (length queue - limit) queue) in Hx.
    apply elem_of_app in Hx as [Hx|Hx]; [right; by apply D | by left].
Qed.

Lemma put_ok n out c p b t :
  queue_ok n out [] t →
  let q := {| q_channel := c; q_payload := p; waiters := if b : bool then [n] else [] |} in
  let t' := put_telemetry config n q t in
  queue_ok (S n) out [] t' ∧ (∀ o, is_Some (channel_of t o) → channel_of t' o = channel_of t o)
  ∧ channel_of t' n = Some c ∧ ∀ c' x, slot t' c' x → slot t c' x ∨ x = n ∧ c' = c.
Proof.
  intros Ok q. destruct (object_created n out c p b t Ok) as (Ok1 & Hn & Hold). fold q in Ok1, Hn, Hold.
  cbn zeta. unfold put_telemetry. cbn [q_channel q]. set (t1 := set_objects _ _) in *.
  assert (Hfin : ∀ t2 t3, same_objects t1 t2 → objects t3 = objects t2 →
            (∀ o, is_Some (channel_of t o) → channel_of t3 o = channel_of t o) ∧ channel_of t3 n = Some c).
  { intros t2 t3 E2 E3. assert (E : ∀ o, channel_of t3 o = channel_of t1 o) by (intros o; rewrite <- E2; unfold channel_of; by rewrite E3).
    split; [|by rewrite E]. intros o Ho. rewrite E. by apply Hold. }
  pose proof (qo_slots _ _ _ _ Ok) as Hslots.
  assert (Hs1 : ∀ c o, slot t c o → (o < n)%nat ∧ channel_of t1 o = Some c).
  { intros c' o Ho. destruct (Hold o) as [? E]; [exists c'; by apply Hslots|]. split; [done|].
    rewrite E. by apply Hslots. }
  destruct c; cbn [slot] in *.
  - (* sync *)
    destruct (replace_ok (S n) out [n] (_pending_sync t1) n Csync t1) as (Ok2 & Hs2 & E2 & Hw2); try done.
    { intros c Hc. apply (Hs1 Csync). exact Hc. } { by left. }
    assert (Hs3 : ∀ c' x, c' ≠ Csync → slot (set_sync (Some n) (_replace_latest (_pending_sync t1) n t1)) c' x → slot t c' x).
    { intros c' x D Hx. apply (Hs2 c' x). destruct c'; (done || exact Hx). }
    split_and!; [|by eapply Hfin..|].
    2: { intros c' x Hx. destruct (decide (c' = Csync)) as [->|D]; [right; cbn in Hx; by simplify_eq|left; by apply Hs3]. }
    eapply requeue_ok; [..|exact Ok2]; try done.
    + intros c o Ho. rewrite E2. destruct (decide (c = Csync)) as [->|D]; [cbn in Ho; by simplify_eq|].
      apply Hs1, (Hs2 c o). destruct c; (done || exact Ho).
    + intros o [[c Ho] | ->%list_elem_of_singleton]; [|left; left; by exists Csync].
      destruct (decide (c = Csync)) as [->|D]; [right; apply Hw2, (Hs2 Csync o), Ho|].
      left; left. exists c. destruct c; (done || exact Ho).
  - (* heartbeat *)
    destruct (replace_ok (S n) out [n] (_pending_heartbeat t1) n Cheartbeat t1) as (Ok2 & Hs2 & E2 & Hw2); try done.
    { intros c Hc. apply (Hs1 Cheartbeat). exact Hc. } { by left. }
    assert (Hs3 : ∀ c' x, c' ≠ Cheartbeat → slot (set_heartbeat (Some n) (_replace_latest (_pending_heartbeat t1) n t1)) c' x → slot t c' x).
    { intros c' x D Hx. apply (Hs2 c' x). destruct c'; (done || exact Hx). }
    split_and!; [|by eapply Hfin..|].
    2: { intros c' x Hx. destruct (decide (c' = Cheartbeat)) as [->|D]; [right; cbn in Hx; by simplify_eq|left; by apply Hs3]. }
    eapply requeue_ok; [..|exact Ok2]; try done.
    + intros c o Ho. rewrite E2. destruct (decide (c = Cheartbeat)) as [->|D]; [cbn in Ho; by simplify_eq|].
      apply Hs1, (Hs2 c o). destruct c; (done || exact Ho).
    + intros o [[c Ho] | ->%list_elem_of_singleton]; [|left; left; by exists Cheartbeat].
      destruct (decide (c = Cheartbeat)) as [->|D]; [right; apply Hw2, (Hs2 Cheartbeat o), Ho|].
      left; left. exists c. destruct c; (done || exact Ho).
  - (* metrics *)
    destruct (_apply_queue_backpressure _ _ _ _) as [l t2] eqn:E. symmetry in E.
    destruct (backpressure_ok (S n) out n _ _ _ t1 l t2 E Ok1) as (Ok2 & Hs2 & E2 & Hin & Hout).
    split_and!; [|by eapply Hfin..|].
    2: { intros c' x Hx. destruct (decide (c' = Cmetrics)) as [->|D].
         - apply Hin, elem_of_app in Hx as [Hx | ->%list_elem_of_singleton]; [by left|by right].
         - left. apply (Hs2 c' x). destruct c'; (done || exact Hx). }
    eapply requeue_ok; [..|exact Ok2]; try done.
    + intros c o Ho. rewrite E2. destruct (decide (c = Cmetrics)) as [->|D].
      * apply Hin, elem_of_app in Ho as [Ho | ->%list_elem_of_singleton]; [by apply (Hs1 Cmetrics)|done].
      * apply Hs1, (Hs2 c o). destruct c; (done || exact Ho).
    + intros o Ho. destruct (decide (o ∈ _pending_metrics t1 ++ [n])) as [Hi|Hi].
      { destruct (Hout o Hi); [left; left; by exists Cmetrics|by right]. }
      left. destruct Ho as [[c Ho] | ->%list_elem_of_singleton]; [|destruct Hi; apply elem_of_app; right; by left].
      left. exists c. destruct c; try done. cbn in Ho. apply (Hs2 Cmetrics) in Ho. destruct Hi. apply elem_of_app. by left.
  - (* events *)
    destruct (_apply_queue_backpressure _ _ _ _) as [l t2] eqn:E. symmetry in E.
    destruct (backpressure_ok (S n) out n _ _ _ t1 l t2 E Ok1) as (Ok2 & Hs2 & E2 & Hin & Hout).
    split_and!; [|by eapply Hfin..|].
    2: { intros c' x Hx. destruct (decide (c' = Cevents)) as [->|D].
         - apply Hin, elem_of_app in Hx as [Hx | ->%list_elem_of_singleton]; [by left|by right].
         - left. apply (Hs2 c' x). destruct c'; (done || exact Hx). }
    eapply requeue_ok; [..|exact Ok2]; try done.
    + intros c o Ho. rewrite E2. destruct (decide (c = Cevents)) as [->|D].
      * apply Hin, elem_of_app in Ho as [Ho | ->%list_elem_of_singleton]; [by apply (Hs1 Cevents)|done].
      * apply Hs1, (Hs2 c o). destruct c; (done || exact Ho).
    + intros o Ho. destruct (decide (o ∈ _pending_events t1 ++ [n])) as [Hi|Hi].
      { destruct (Hout o Hi); [left; left; by exists Cevents|by right]. }
      left. destruct Ho as [[c Ho] | ->%list_elem_of_singleton]; [|destruct Hi; apply elem_of_app; right; by left].
      left. exists c. destruct c; try done. cbn in Ho. apply (Hs2 Cevents) in Ho. destruct Hi. apply elem_of_app. by left.
Qed.

(** ** Sending and closing *)

(** An object leaves its queue and its waiters are told. *)
Lemma leaves_ok n out f o t t1 :
  objects t1 = objects t → futures t1 = futures t →
  (∀ c x, slot t1 c x → slot t c x) → (∀ c x, slot t c x → slot t1 c x ∨ x = o) →
  (f = Delivered → o ∈ out) → f ≠ Waiting →
  queue_ok n out [] t → queue_ok n out [] (settle_waiters f o t1).
Proof.
  intros Eo Ef Hsub Hsup Hd Hf Ok.
  assert (Ok1 : queue_ok n out [o] t1).
  { eapply requeue_ok; [exact Eo|exact Ef| | |exact Ok].
    - intros c x Hx. by apply (qo_slots _ _ _ _ Ok), Hsub.
    - intros x [[c Hx]|Hx%elem_of_nil]; [|done]. left.
      destruct (Hsup c x Hx) as [?| ->]; [left; by exists c|right; by left]. }
  pose proof (settle_waiters_ok n out [o] f o t1 Hd Hf Ok1) as Ok2.
  eapply requeue_ok; [reflexivity|reflexivity| | |exact Ok2].
  - apply Ok2.
  - intros x [Hx | ->%list_elem_of_singleton]; [left; by left|]. right.
    by rewrite waiters_of_settled, decide_True.
Qed.

Lemma head_tail {A} (l : list A) x : head l = Some x → l = x :: tail l.
Proof. destruct l; cbn; [done|]. by intros [= ->]. Qed.

Lemma consume_ok n out o t : o ∈ out → queue_ok n out [] t → queue_ok n out [] (_consume_sent_telemetry o t).
Proof.
  intros Ho Ok. unfold _consume_sent_telemetry. destruct (q_channel <$> objects t !! o) as [c|]; [|done].
  apply leaves_ok with t; try done; destruct c; case_bool_decide as D; try done.
  - by intros [] x.
  - by intros [] x.
  - intros [] x; cbn; try done. intros Hx. rewrite (head_tail _ _ D). by right.
  - intros [] x; cbn; try done. intros Hx. rewrite (head_tail _ _ D). by right.
  - intros [] x; cbn; auto. intros Hx. right. congruence.
  - auto.
  - intros [] x; cbn; auto. intros Hx. right. congruence.
  - auto.
  - intros [] x; cbn; auto. rewrite (head_tail _ _ D) at 1. intros [->|?]%elem_of_cons; auto.
  - auto.
  - intros [] x; cbn; auto. rewrite (head_tail _ _ D) at 1. intros [->|?]%elem_of_cons; auto.
  - auto.
Qed.

Lemma drop_all_ok n out t : queue_ok n out [] t →
  queue_ok n out [] (drop_all t) ∧ pending (drop_all t) = []
  ∧ ∀ w, futures (drop_all t) !! w ≠ Some Waiting.
Proof.
  intros Ok. destruct (fail_list_ok n out [] closed_message (pending t) t Ok) as (A & B & _ & D & _).
  assert (Ok' : queue_ok n out [] (drop_all t)).
  { eapply requeue_ok; [..|exact A]; try done.
    - intros [] o; cbn; intros Hx; try done; by apply elem_of_nil in Hx.
    - intros o [[c Ho]|Ho]; [|left; by right]. right. apply D, pending_slot. exists c. by apply B. }
  split; [done|]. split; [done|]. intros w Hw.
  destruct (qo_futures _ _ _ _ Ok' _ _ Hw) as (_ & o & [[c Ho]|Ho%elem_of_nil] & _); [|done].
  destruct c; cbn in Ho; try done; by apply elem_of_nil in Ho.
Qed.

Lemma abandon_ok n out w t : queue_ok n out [] t → futures t !! w = Some Waiting →
  queue_ok n out [] (set_futures <[w := Abandoned]> t).
Proof.
  intros [H1 H2 H3 H4] Hw. split; try done. intros v f. cbn. rewrite lookup_insert. case_decide as D.
  - subst v. intros [= <-]. split; [by eapply H4|done].
  - intros Hf. destruct (H4 _ _ Hf) as [? Hx]. split; [done|]. by destruct f.
Qed.

Lemma queue_ok_later n n' out out' t :
  (n ≤ n')%nat → (∀ o, o ∈ out → o ∈ out') → (∀ o, o ∈ out' → is_Some (channel_of t o)) →
  queue_ok n out [] t → queue_ok n' out' [] t.
Proof.
  intros Hn Hs Hout [H1 H2 H3 H4]. split; [|done|done|].
  - intros o q Hq. destruct (H1 _ _ Hq). split; [lia|done].
  - intros w f Hf. destruct (H4 _ _ Hf) as [? Hx]. split; [lia|]. destruct f; try done.
    destruct Hx as (o & Ho & Hs'). eauto.
Qed.

(** ** The sender *)

(** The object a task holds. *)
Definition held (pc : worker_pc) : option nat :=
  match pc with WorkerBacksOff o | WorkerConnects o _ | WorkerSends o => Some o | _ => None end.

Record sender_ok s : Prop := {
  so_queues : queue_ok (made s) (sent s) [] (queues s);
  so_workers : ∀ w pc o, workers s !! w = Some pc → held pc = Some o → is_Some (channel_of (queues s) o);
  so_bounds : (length (_pending_metrics (queues s)) ≤ _max_pending_metric_payloads config)%nat
              ∧ (length (_pending_events (queues s)) ≤ _max_pending_event_payloads config)%nat;
}.

Lemma peek_pending t : _peek_pending_telemetry t = head (pending t).
Proof.
  unfold _peek_pending_telemetry, pending.
  destruct (_pending_sync t), (_pending_heartbeat t), (_pending_metrics t), (_pending_events t); done.
Qed.

Lemma peek_slot t o : _peek_pending_telemetry t = Some o → ∃ c, slot t c o.
Proof. rewrite peek_pending. intros H. apply pending_slot. rewrite (head_tail _ _ H). by left. Qed.

(** A step of the task: the queues stay, an object is held only if it is
    pending or was held. *)
Lemma loop_top_frame w s :
  queues (loop_top w s) = queues s ∧ sent (loop_top w s) = sent s ∧ (made s ≤ made (loop_top w s))%nat
  ∧ ∀ v pc o, workers (loop_top w s) !! v = Some pc → held pc = Some o →
      v ≠ w ∧ workers s !! v = Some pc ∨ _peek_pending_telemetry (queues s) = Some o.
Proof.
  unfold loop_top. destruct (_peek_pending_telemetry (queues s)) as [o|] eqn:E.
  - assert (H : ∀ pc, (∀ x, held pc = Some x → x = o) → ∀ v pc' x,
      workers (set_worker w pc s) !! v = Some pc' → held pc' = Some x →
      v ≠ w ∧ workers s !! v = Some pc' ∨ Some o = Some x).
    { intros pc Hpc v pc' x. cbn. rewrite lookup_insert. case_decide; [|intros ? _; left; split; [congruence|done]]. intros [= <-] Hx. right.
      by rewrite (Hpc x Hx). }
    destruct (transport_connected s); [|destruct (negb _); [|destruct (0 <? _)%nat]]; (split_and!; [done..|]); apply H; cbn; congruence.
  - destruct (_stop_requested s).
    + split_and!; try done. intros v pc o. cbn. rewrite lookup_delete. case_decide; [done|].
      intros ? _. left. split; [congruence|done].
    + unfold _ensure_wake_event. destruct (_wake_event s) as [e|]; cbn.
      all: split_and!; try done; try lia; intros v pc o; rewrite lookup_insert; case_decide.
      all: first [by intros [= <-] | intros ? _; left; split; [congruence|done]].
Qed.

Lemma wake_held e pc : held (wake e pc) = held pc.
Proof. by destruct pc. Qed.

Lemma signal_frame s :
  queues (_signal_worker s) = queues s ∧ sent (_signal_worker s) = sent s ∧ (made s ≤ made (_signal_worker s))%nat
  ∧ _worker_task (_signal_worker s) = _worker_task s
  ∧ ∀ v pc o, workers (_signal_worker s) !! v = Some pc → held pc = Some o → workers s !! v = Some pc.
Proof.
  unfold _signal_worker, _ensure_wake_event. destruct (_wake_event s) as [e|]; cbn.
  all: split_and!; try done; try lia; intros v pc o; rewrite lookup_fmap, fmap_Some; intros (pc0 & Hv & ->).
  all: rewrite wake_held; intros Hh; by destruct pc0.
Qed.

Lemma start_frame s :
  queues (start s) = queues s ∧ sent (start s) = sent s ∧ (made s ≤ made (start s))%nat
  ∧ ∀ v pc o, workers (start s) !! v = Some pc → held pc = Some o → workers s !! v = Some pc.
Proof.
  unfold start. destruct (_ ≫= _); [by split_and!|].
  unfold _ensure_wake_event. cbn. destruct (_wake_event s) as [e|]; cbn.
  all: split_and!; try done; try lia; intros v pc o; rewrite lookup_insert; case_decide; [|done].
  all: by intros [= <-].
Qed.

(** What only moves the tasks keeps the invariant. *)
Lemma sender_ok_frame s s' :
  queues s' = queues s → sent s' = sent s → (made s ≤ made s')%nat →
  (∀ v pc o, workers s' !! v = Some pc → held pc = Some o →
     workers s !! v = Some pc ∨ _peek_pending_telemetry (queues s) = Some o
     ∨ ∃ v' pc', workers s !! v' = Some pc' ∧ held pc' = Some o) →
  sender_ok s → sender_ok s'.
Proof.
  intros Eq Es Hm Hw [H1 H2 H3]. split; rewrite ?Eq, ?Es; [|..|done].
  - apply (queue_ok_later (made s) _ (sent s)); try done. apply H1.
  - intros v pc o Hv Ho. destruct (Hw v pc o Hv Ho) as [Hv' | [Hp | (v' & pc' & Hv' & Ho')]].
    + by eapply H2.
    + apply peek_slot in Hp as [c Hc]. exists c. by apply (qo_slots _ _ _ _ H1).
    + by eapply H2.
Qed.

Lemma fail_list_queues msg l t :
  let t' := foldl (λ t o, _fail_waiters msg o t) t l in
  _pending_metrics t' = _pending_metrics t ∧ _pending_events t' = _pending_events t.
Proof. revert t. induction l as [|x l IH]; intros t; [done|]. apply (IH (_fail_waiters msg x t)). Qed.

(** The new object is last in its queue, and the oldest may be dropped. *)
Lemma put_queues o q t :
  let m := _pending_metrics t ++ (if decide (q_channel q = Cmetrics) then [o] else []) in
  let e := _pending_events t ++ (if decide (q_channel q = Cevents) then [o] else []) in
  let t' := put_telemetry config o q t in
  (∃ k, (q_channel q = Cmetrics → k = length m - _max_pending_metric_payloads config)%nat
        ∧ (q_channel q ≠ Cmetrics → k = 0)%nat ∧ _pending_metrics t' = drop k m)
  ∧ ∃ k, (q_channel q = Cevents → k = length e - _max_pending_event_payloads config)%nat
         ∧ (q_channel q ≠ Cevents → k = 0)%nat ∧ _pending_events t' = drop k e.
Proof.
  intros m e t'. subst m e t'. unfold put_telemetry, _apply_queue_backpressure. destruct (q_channel q); cbn.
  - split; exists 0%nat; unfold _replace_latest; destruct (_pending_sync _); cbn; by rewrite app_nil_r.
  - split; exists 0%nat; unfold _replace_latest; destruct (_pending_heartbeat _); cbn; by rewrite app_nil_r.
  - split.
    + eexists. split; [by intros|]. split; [by intros []|reflexivity].
    + exists 0%nat. split; [done|]. split; [done|]. by rewrite (proj2 (fail_list_queues _ _ _)), app_nil_r.
  - split.
    + exists 0%nat. split; [done|]. split; [done|]. by rewrite (proj1 (fail_list_queues _ _ _)), app_nil_r.
    + eexists. split; [by intros|]. split; [by intros []|reflexivity].
Qed.

Lemma put_bounds o q t :
  (length (_pending_metrics t) ≤ _max_pending_metric_payloads config)%nat →
  (length (_pending_events t) ≤ _max_pending_event_payloads config)%nat →
  (length (_pending_metrics (put_telemetry config o q t)) ≤ _max_pending_metric_payloads config)%nat
  ∧ (length (_pending_events (put_telemetry config o q t)) ≤ _max_pending_event_payloads config)%nat.
Proof.
  intros Hm He. destruct (put_queues o q t) as [(k & K1 & K2 & ->) (k' & K3 & K4 & ->)].
  rewrite !length_drop, !length_app. split.
  - destruct (decide (q_channel q = Cmetrics)) as [E|E]; cbn; [rewrite K1, length_app by done; cbn|]; lia.
  - destruct (decide (q_channel q = Cevents)) as [E|E]; cbn; [rewrite K3, length_app by done; cbn|]; lia.
Qed.

Lemma consume_frame o t :
  same_objects t (_consume_sent_telemetry o t)
  ∧ (length (_pending_metrics (_consume_sent_telemetry o t)) ≤ length (_pending_metrics t))%nat
  ∧ (length (_pending_events (_consume_sent_telemetry o t)) ≤ length (_pending_events t))%nat.
Proof.
  unfold _consume_sent_telemetry. destruct (q_channel <$> objects t !! o) as [c|]; [|by split_and!].
  set (t1 := match c with Csync => _ | _ => _ end).
  assert (E : same_objects t t1) by (subst t1; destruct c; by case_bool_decide).
  split; [intros x; transitivity (channel_of t1 x); [apply (settle_same Delivered) | apply E]|].
  subst t1. destruct c; case_bool_decide; cbn; try lia; [destruct (_pending_metrics t) | destruct (_pending_events t)]; cbn; lia.
Qed.

Lemma drop_all_frame t : same_objects t (drop_all t).
Proof.
  intros o. unfold drop_all, _fail_all_pending_waiters, channel_of. cbn. generalize (pending t). intros l. revert t.
  induction l as [|x l IH]; intros t; cbn; [done|]. rewrite IH. apply (settle_same (Failed closed_message) x t).
Qed.

Abbreviation step := (step config has_service has_runtime).

Lemma channel_exists_later n out t o : queue_ok n out [] t → (∃ c, slot t c o) → is_Some (channel_of t o).
Proof. intros Ok [c Hc]. exists c. by apply (qo_slots _ _ _ _ Ok). Qed.

Lemma loop_top_ok w s : sender_ok s → sender_ok (loop_top w s).
Proof.
  destruct (loop_top_frame w s) as (A & B & C & D). apply sender_ok_frame; [done|done|done|].
  intros v pc o Hv Ho. destruct (D v pc o Hv Ho) as [[_ ?]|?]; auto.
Qed.

(** Replacing the queues by [t']. *)
Lemma requeued_ok s t' :
  queue_ok (made s) (sent s) [] t' →
  (∀ o, is_Some (channel_of (queues s) o) → is_Some (channel_of t' o)) →
  (length (_pending_metrics t') ≤ _max_pending_metric_payloads config)%nat →
  (length (_pending_events t') ≤ _max_pending_event_payloads config)%nat →
  sender_ok s → sender_ok (on_queues (λ _, t') s).
Proof. intros Ok Hc Hm He [H1 H2 H3]. split; [done| |done]. intros w pc o Hw Ho. eapply Hc, H2; eauto. Qed.

Lemma enqueue_ok c p b s : sender_ok s → sender_ok (_enqueue config has_service has_runtime c p b s).
Proof.
  intros Ok. unfold _enqueue.
  assert (Ok1 : sender_ok (start s)).
  { destruct (start_frame s) as (A & B & C & D). apply (sender_ok_frame s); try done. eauto. }
  set (s1 := start s) in *. set (q := {| q_channel := c |}).
  set (s2 := _capture_identity has_service has_runtime p (count_made s1)).
  destruct (put_ok (made s1) (sent s1) c p b (queues s1) (so_queues _ Ok1)) as (Q1 & Q2 & Q3 & _).
  fold q in Q1, Q2, Q3.
  assert (Ok2 : sender_ok (on_queues (put_telemetry config (made s1) q) s2)).
  { destruct (put_bounds (made s1) q (queues s1)) as [Hm He]; [apply Ok1..|].
    destruct Ok1 as [H1 H2 H3]. split; [exact Q1| |done].
    intros w pc o Hw Ho. cbn. rewrite Q2; by eapply H2. }
  destruct (signal_frame (on_queues (put_telemetry config (made s1) q) s2)) as (A & B & C & _ & D).
  eapply sender_ok_frame; [exact A|exact B|exact C| |exact Ok2]. eauto.
Qed.

Lemma close_finishes_ok k s : sender_ok s → sender_ok (close_finishes k s).
Proof.
  intros Ok. destruct (drop_all_ok _ _ _ (so_queues _ Ok)) as (A & B & _).
  assert (H : sender_ok (on_queues (λ _, drop_all (queues s)) s)); [|by destruct H].
  apply requeued_ok; try done.
  - intros o. by rewrite drop_all_frame.
  - cbn. lia.
  - cbn. lia.
Qed.

Lemma consumed_ok w o s :
  workers s !! w = Some (WorkerSends o) → sender_ok s →
  sender_ok (on_queues (_consume_sent_telemetry o) (set_attempts 0 (record_sent o s))).
Proof.
  intros Hw Ok. destruct (consume_frame o (queues s)) as (E & Em & Ee).
  pose proof Ok as [H1 H2 [H3 H4]]. pose proof (H2 _ _ _ Hw eq_refl) as Hc.
  assert (H : queue_ok (made s) (sent s ++ [o]) [] (queues s)).
  { apply (queue_ok_later (made s) _ (sent s)); [done| | |done].
    - intros x Hx. apply elem_of_app. by left.
    - intros x [Hx | ->%list_elem_of_singleton]%elem_of_app; [|done]. by apply (qo_out _ _ _ _ H1). }
  split; cbn.
  - apply consume_ok; [|done]. apply elem_of_app. right. by left.
  - intros v pc x Hv Hx. rewrite E. by eapply H2.
  - lia.
Qed.

(** What moves the tasks only, and no task takes up an object. *)
Ltac frame_only Ok :=
  match type of Ok with sender_ok ?s0 => apply (sender_ok_frame s0) end; [done|done|cbn; lia| |exact Ok];
  intros v pc x; cbn; rewrite ?lookup_insert, ?lookup_delete; repeat case_decide; try done;
  try (intros ? ?; by left).

Lemma sender_step_ok a s s' : step a s = Some s' → sender_ok s → sender_ok s'.
Proof.
  destruct a; cbn [WsSender.step]; intros Hs Ok.
  - injection Hs as <-. by apply enqueue_ok.
  - destruct (futures (queues s) !! w) as [[]|] eqn:E; try done. injection Hs as <-.
    pose proof Ok as [H1 H2 H3]. split; [by apply abandon_ok|done..].
  - injection Hs as <-. by destruct Ok.
  - destruct (workers s !! w) as [[|e []| | | | |]|] eqn:E; try done; injection Hs as <-; apply loop_top_ok; by destruct Ok.
  - destruct (workers s !! w) as [[| | |o| | |]|] eqn:E; try done. injection Hs as <-. frame_only Ok.
    subst v. intros [= <-] Hx. right. right. exists w, (WorkerBacksOff o). by split.
  - destruct (workers s !! w) as [[| | | |o previous| |]|] eqn:E; try done. injection Hs as <-. destruct ok.
    + frame_only Ok. subst v. intros [= <-] Hx. right. right. exists w, (WorkerConnects o previous). by split.
    + apply loop_top_ok. by frame_only Ok.
  - destruct (workers s !! w) as [[| | | | |o|]|] eqn:E; try done. injection Hs as <-. destruct ok.
    + apply loop_top_ok. by eapply consumed_ok.
    + frame_only Ok. by intros [= <-].
  - injection Hs as <-. unfold close_begins.
    assert (Ok1 : sender_ok (_signal_worker (set_stop true s))).
    { destruct (signal_frame (set_stop true s)) as (A & B & C & _ & D).
      eapply sender_ok_frame; [exact A|exact B|exact C| |by frame_only Ok]. eauto. }
    set (s1 := _signal_worker _) in *. cbn. destruct (_worker_task s1); [by frame_only Ok1|].
    apply close_finishes_ok. by frame_only Ok1.
  - destruct (closers s !! k) as [[w []|]|]; try done. cbn in Hs.
    destruct (workers s !! w) as [[]|]; try done; try destruct swallowed; injection Hs as <-; by frame_only Ok.
  - destruct (closers s !! k) as [[w t|]|]; try done. destruct (workers s !! w); [done|]. cbn in Hs.
    destruct (t && _); injection Hs as <-; [by frame_only Ok|]. apply close_finishes_ok. by frame_only Ok.
  - destruct (closers s !! k) as [[|]|]; try done. injection Hs as <-. by frame_only Ok.
Qed.

Lemma new_sender_ok : sender_ok new_sender.
Proof.
  split; [|by intros w pc o; cbn; rewrite lookup_empty|split; cbn; lia]. split; cbn.
  - intros o q. by rewrite lookup_empty.
  - intros [] o; cbn; intros H; try done; by apply elem_of_nil in H.
  - by intros o ?%elem_of_nil.
  - intros w f. by rewrite lookup_empty.
Qed.

Abbreviation run := (run config has_service has_runtime).
Abbreviation reachable := (reachable config has_service has_runtime).

Lemma run_ok acts s s' : run acts s = Some s' → sender_ok s → sender_ok s'.
Proof.
  revert s. induction acts as [|a acts IH]; intros s; cbn; [by intros [= <-]|].
  intros (s1 & H1 & H2)%bind_Some Ok. eapply IH; [exact H2|]. by eapply sender_step_ok.
Qed.

Lemma sender_reachable_ok s : reachable s → sender_ok s.
Proof. intros [acts H]. exact (run_ok acts _ _ H new_sender_ok). Qed.

(** C17. A caller that waits is told the truth, whatever connections fail and
    whenever the sender is closed: it is told that its telemetry was
    delivered only if the transport has sent that telemetry, or for a sync or
    a heartbeat that or a later one; and while it waits, that telemetry is
    still pending. *)
Theorem waiters_told_truth s (w : nat) (f : future) :
  reachable s → futures (queues s) !! w = Some f →
  match f with
  | Delivered => ∃ o, o ∈ sent s ∧ stands_for (queues s) o w
  | Waiting => ∃ o, o ∈ pending (queues s) ∧ stands_for (queues s) o w
  | _ => True
  end.
Proof.
  intros Hr Hw. pose proof (so_queues _ (sender_reachable_ok s Hr)) as Q.
  destruct (qo_futures _ _ _ _ Q _ _ Hw) as [_ Hf]. destruct f; try done.
  destruct Hf as (o & [Hc|Ho%elem_of_nil] & Hi); [|done]. exists o. split; [by apply pending_slot|].
  apply in_waiters in Hi as (q & Hq & Hi). by eapply (qo_objects _ _ _ _ Q).
Qed.

(** The queues never hold more than the configuration allows: so many
    payloads of metrics, and events in as many full batches as the allowed
    number of events fills, rounded up. *)
Theorem sender_queues_bounded s :
  reachable s →
  (length (_pending_metrics (queues s)) ≤ max_pending_metric_batches config)%nat
  ∧ (length (_pending_events (queues s)) * event_batch_size config
     ≤ Nat.max (event_batch_size config) (max_pending_events config + event_batch_size config - 1))%nat.
Proof.
  intros Hr. destruct (so_bounds _ (sender_reachable_ok s Hr)) as [Hm He]. split; [exact Hm|].
  unfold _max_pending_event_payloads in He.
  set (b := event_batch_size config) in *. set (m := max_pending_events config) in *.
  destruct b as [|b]; [lia|]. pose proof (Nat.Div0.mul_div_le (m + S b - 1) (S b)). nia.
Qed.

(** [close] leaves no caller waiting and nothing pending, unless another call
    of it has cancelled the task: it raises then, and leaves the queues to the
    other. *)
Theorem close_settles k s s' :
  reachable s → step (CloseResumes k) s = Some s' →
  closers s' !! k = Some CloserClosesTransport ∧ pending (queues s') = []
  ∧ (∀ w, futures (queues s') !! w ≠ Some Waiting)
  ∨ closers s' !! k = None ∧ queues s' = queues s
  ∧ ∃ w, closers s !! k = Some (CloserWaits w true) ∧ w ∈ cancelled s.
Proof.
  intros Hr Hs. cbn in Hs. destruct (closers s !! k) as [[w t|]|]; try done.
  destruct (workers s !! w); [done|]. cbn in Hs. destruct (t && _) eqn:E; injection Hs as <-.
  - apply andb_true_iff in E as [-> E%bool_decide_eq_true]. right. cbn. rewrite lookup_delete_eq. eauto.
  - destruct (drop_all_ok _ _ _ (so_queues _ (sender_reachable_ok s Hr))) as (_ & A & B).
    left. split_and!; [|exact A|exact B]. cbn. by rewrite lookup_insert_eq.
Qed.

(** ** While [close] is not called *)

Definition keeps_open (a : action (P:=P)) : bool := match a with CloseCalled => false | _ => true end.

Definition sent_on s (c : channel) : list nat := filter (λ o, channel_of (queues s) o = Some c) (sent s).

Definition holding s (o : nat) : Prop := ∃ w pc, workers s !! w = Some pc ∧ held pc = Some o.

(** One task, or none and nothing was ever pending; a task waits only for an
    event that will be set, and only when nothing is pending. *)
Definition one_task s : Prop :=
  (closers s = ∅ ∧ cancelled s = []) ∧ _stop_requested s = false ∧
  (workers s = ∅ ∧ _worker_task s = None ∧ pending (queues s) = []
   ∨ ∃ w pc, workers s = {[w := pc]} ∧ _worker_task s = Some w ∧
       ∀ e woken, pc = WorkerWaits e woken →
         _wake_event s = Some e ∧ (woken = false → pending (queues s) = [])).

Record queue_order s : Prop := {
  io_sent : ∀ c, StronglySorted lt (sent_on s c);
  io_ahead : ∀ c x y, x ∈ sent_on s c → slot (queues s) c y → (x < y)%nat;
  io_metrics : StronglySorted lt (_pending_metrics (queues s));
  io_events : StronglySorted lt (_pending_events (queues s));
}.

Record in_order s : Prop := {
  io_queues : queue_order s;
  io_held : ∀ o c x, holding s o → channel_of (queues s) o = Some c →
    (x ∈ sent_on s c → (x < o)%nat) ∧ (slot (queues s) c x → (o ≤ x)%nat);
}.

Lemma sent_on_elem s c x : x ∈ sent_on s c ↔ x ∈ sent s ∧ channel_of (queues s) x = Some c.
Proof. unfold sent_on. rewrite list_elem_of_filter. tauto. Qed.

Lemma sent_on_same s s' c :
  sent s' = sent s → (∀ o, o ∈ sent s → channel_of (queues s') o = channel_of (queues s) o) →
  sent_on s' c = sent_on s c.
Proof.
  intros Es. unfold sent_on. rewrite Es. generalize (sent s). intros l.
  induction l as [|x l IH]; intros Hc; [done|].
  rewrite !filter_cons, IH by (intros o Ho; apply Hc; by right).
  pose proof (Hc x (list_elem_of_here _ _)) as E.
  destruct (decide (channel_of (queues s') x = Some c)), (decide (channel_of (queues s) x = Some c)); congruence.
Qed.

Lemma sorted_head (l : list nat) x y : StronglySorted lt l → head l = Some x → y ∈ l → (x ≤ y)%nat.
Proof.
  intros Hs Hh. rewrite (head_tail _ _ Hh) in Hs |- *. apply StronglySorted_inv in Hs as [_ Hs].
  intros [->|Hy]%elem_of_cons; [done|]. rewrite Forall_forall in Hs. specialize (Hs y Hy). lia.
Qed.

Lemma peek_least s o c x :
  queue_order s → queue_ok (made s) (sent s) [] (queues s) →
  _peek_pending_telemetry (queues s) = Some o → channel_of (queues s) o = Some c → slot (queues s) c x →
  slot (queues s) c o ∧ (o ≤ x)%nat.
Proof.
  intros Io Q Hp Hc Hx. destruct (peek_slot _ _ Hp) as [c' Hs].
  pose proof (qo_slots _ _ _ _ Q _ _ Hs) as Hc'. assert (c' = c) as -> by congruence. split; [done|].
  unfold _peek_pending_telemetry in Hp. destruct c; cbn in Hs, Hx.
  - by simplify_eq.
  - by simplify_eq.
  - destruct (_pending_sync (queues s)) as [o'|] eqn:E1.
    { injection Hp as ->. pose proof (qo_slots _ _ _ _ Q Csync o E1). congruence. }
    destruct (_pending_heartbeat (queues s)) as [o'|] eqn:E2.
    { injection Hp as ->. pose proof (qo_slots _ _ _ _ Q Cheartbeat o E2). congruence. }
    apply (sorted_head (_pending_metrics (queues s))); [apply Io| |done].
    destruct (_pending_metrics (queues s)); [by apply elem_of_nil in Hx|]. injection Hp as ->. done.
  - destruct (_pending_sync (queues s)) as [o'|] eqn:E1.
    { injection Hp as ->. pose proof (qo_slots _ _ _ _ Q Csync o E1). congruence. }
    destruct (_pending_heartbeat (queues s)) as [o'|] eqn:E2.
    { injection Hp as ->. pose proof (qo_slots _ _ _ _ Q Cheartbeat o E2). congruence. }
    destruct (_pending_metrics (queues s)) as [|o' l] eqn:E3.
    + apply (sorted_head (_pending_events (queues s))); [apply Io| |done].
      destruct (_pending_events (queues s)); [by apply elem_of_nil in Hx|]. injection Hp as ->. done.
    + injection Hp as ->. assert (Hm : slot (queues s) Cmetrics o) by (cbn; rewrite E3; by left).
      pose proof (qo_slots _ _ _ _ Q Cmetrics o Hm). congruence.
Qed.

(** The tasks move; the queues and what was sent stay. *)
Lemma in_order_frame s s' :
  queues s' = queues s → sent s' = sent s →
  (∀ o, holding s' o → (holding s o ∧ in_order s) ∨ _peek_pending_telemetry (queues s) = Some o) →
  queue_ok (made s) (sent s) [] (queues s) → queue_order s → in_order s'.
Proof.
  intros Eq Es Hh Q Io. assert (E : ∀ c, sent_on s' c = sent_on s c) by (intros c; unfold sent_on; by rewrite Eq, Es).
  split.
  - destruct Io as [H1 H2 H3 H4]. split; rewrite ?Eq; try done; intros *; rewrite E; [done|apply H2].
  - intros o c x Ho Hc. rewrite E, Eq in *. destruct (Hh o Ho) as [[Ho' Io']|Hp]; [by apply Io'|].
    destruct (peek_slot _ _ Hp) as [c' Hs]. pose proof (qo_slots _ _ _ _ Q _ _ Hs) as Hc'.
    assert (c' = c) as -> by congruence. split.
    + intros Hx. by eapply (io_ahead _ Io).
    + intros Hx. by apply (peek_least s o c x).
Qed.

Lemma loop_top_order w s :
  sender_ok s → queue_order s → in_order s ∨ workers s ⊆ {[w := default WorkerBegins (workers s !! w)]} →
  in_order (loop_top w s).
Proof.
  intros Ok Io Hin. destruct (loop_top_frame w s) as (A & B & _ & D).
  apply (in_order_frame s); try done; [|apply Ok].
  intros o (v & pc & Hv & Ho). destruct (D v pc o Hv Ho) as [[Hn Hv']|Hp]; [|by right].
  destruct Hin as [Hin|Hin]; [left; split; [by exists v, pc|done]|].
  pose proof (lookup_weaken _ _ _ _ Hv' Hin) as Hl. by rewrite lookup_singleton_ne in Hl.
Qed.

(** A new object is behind all others. *)
Lemma put_order s c p b :
  sender_ok s → in_order s →
  let q := {| q_channel := c; q_payload := p; waiters := if b : bool then [made s] else [] |} in
  in_order (on_queues (put_telemetry config (made s) q) s).
Proof.
  intros Ok Io q. pose proof (so_queues _ Ok) as Q.
  destruct (put_ok (made s) (sent s) c p b (queues s) Q) as (Q' & Hch & Hn & Hslot). fold q in Q', Hch, Hn, Hslot.
  set (t' := put_telemetry config (made s) q (queues s)) in *.
  assert (Hlt : ∀ o, is_Some (channel_of (queues s) o) → (o < made s)%nat).
  { intros o [ch Ho]. unfold channel_of in Ho. apply fmap_Some in Ho as (q' & Hq' & _).
    by apply (qo_objects _ _ _ _ Q) in Hq' as [? _]. }
  assert (E : ∀ c, sent_on (on_queues (put_telemetry config (made s) q) s) c = sent_on s c).
  { intros c'. apply sent_on_same; [done|]. intros o Ho. apply Hch. by apply (qo_out _ _ _ _ Q). }
  assert (Hsl : ∀ c x, slot (queues s) c x → (x < made s)%nat).
  { intros c' x Hx. apply Hlt. exists c'. by apply (qo_slots _ _ _ _ Q). }
  assert (Hsorted : ∀ l r, (∀ y, y ∈ r → y = made s) → StronglySorted lt r → StronglySorted lt l →
            (∀ x, x ∈ l → (x < made s)%nat) → ∀ k, StronglySorted lt (drop k (l ++ r))).
  { intros l r Hr Hr' Hl Hx k. apply StronglySorted_app_1_r with (l1 := take k (l ++ r)).
    rewrite take_drop. apply StronglySorted_app_2; [|done|done]. intros x y Hx' ->%Hr. auto. }
  assert (Hone : ∀ P (D : Decision P) y, y ∈ (if decide P then [made s] else []) → y = made s).
  { intros P' D y. case_decide; [by intros ->%list_elem_of_singleton | by intros ?%elem_of_nil]. }
  destruct (put_queues (made s) q (queues s)) as [(k & _ & _ & Ek) (k' & _ & _ & Ek')]. fold t' in Ek, Ek'.
  pose proof (io_queues _ Io) as Ioq. split; [split|]; try intros c'; rewrite ?E; try apply Ioq.
  - intros x y Hx Hy. destruct (Hslot c' y Hy) as [Hy' | [-> _]]; [by eapply (io_ahead _ Ioq)|].
    apply sent_on_elem in Hx as [_ Hx]. apply Hlt. by eexists.
  - change (StronglySorted lt (_pending_metrics t')). rewrite Ek. apply Hsorted; [apply Hone| |apply Ioq|apply (Hsl Cmetrics)].
    destruct (decide (q_channel q = Cmetrics)); repeat constructor.
  - change (StronglySorted lt (_pending_events t')). rewrite Ek'. apply Hsorted; [apply Hone| |apply Ioq|apply (Hsl Cevents)].
    destruct (decide (q_channel q = Cevents)); repeat constructor.
  - intros c0 x. rewrite E. intros (w & pc & Hw & Ho) Hc.
    pose proof (so_workers _ Ok _ _ _ Hw Ho) as Hsome. cbn in Hc. fold t' in Hc. rewrite Hch in Hc by done.
    destruct (io_held _ Io c' c0 x) as [H1 H2]; [by exists w, pc|done|]. split; [done|].
    intros Hx. destruct (Hslot c0 x Hx) as [?|[-> _]]; [auto|]. apply Hlt in Hsome. lia.
Qed.

(** What [o] leaves behind is what was in the queues, without [o] where [o]
    was next. *)
Lemma consume_queues o t c :
  channel_of t o = Some c →
  let t' := _consume_sent_telemetry o t in
  (∀ c' x, c' ≠ c → slot t' c' x → slot t c' x)
  ∧ (c ≠ Cmetrics → _pending_metrics t' = _pending_metrics t)
  ∧ (c ≠ Cevents → _pending_events t' = _pending_events t)
  ∧ match c with
    | Csync => _pending_sync t' = if bool_decide (_pending_sync t = Some o) then None else _pending_sync t
    | Cheartbeat => _pending_heartbeat t' = if bool_decide (_pending_heartbeat t = Some o) then None else _pending_heartbeat t
    | Cmetrics => _pending_metrics t' = if bool_decide (head (_pending_metrics t) = Some o) then tail (_pending_metrics t) else _pending_metrics t
    | Cevents => _pending_events t' = if bool_decide (head (_pending_events t) = Some o) then tail (_pending_events t) else _pending_events t
    end.
Proof.
  unfold channel_of, _consume_sent_telemetry. intros ->.
  split; [intros c' x Hn; destruct c; case_bool_decide; destruct c'; cbn; (done || auto)|].
  destruct c; case_bool_decide; by split_and!.
Qed.

Lemma behind_head (l : list nat) o x :
  StronglySorted lt l → (∀ y, y ∈ l → (o ≤ y)%nat) →
  x ∈ (if bool_decide (head l = Some o) then tail l else l) → x ∈ l ∧ x ≠ o.
Proof.
  intros Hs Hle. destruct l as [|y l]; cbn; [case_bool_decide; by intros ?%elem_of_nil|].
  apply StronglySorted_inv in Hs as [Hs Hf]. rewrite Forall_forall in Hf. case_bool_decide as D.
  - injection D as ->. intros Hi. specialize (Hf x Hi). split; [by right|lia].
  - intros Hi. split; [done|]. intros ->. pose proof (Hle y (list_elem_of_here _ _)).
    apply elem_of_cons in Hi as [->|Hi]; [done|]. specialize (Hf o Hi). lia.
Qed.

(** Nothing that is left of the channel of [o] comes before [o]. *)
Lemma consume_behind s o c x :
  in_order s → holding s o → channel_of (queues s) o = Some c →
  slot (_consume_sent_telemetry o (queues s)) c x → slot (queues s) c x ∧ (o < x)%nat.
Proof.
  intros Io Ho Hc Hx. destruct (consume_queues o (queues s) c Hc) as (_ & _ & _ & Hq).
  assert (Hsub : slot (queues s) c x ∧ x ≠ o).
  {
    destruct c; cbn in Hx |- *; rewrite Hq in Hx.
    - case_bool_decide; [done|]. split; [done|]. congruence.
    - case_bool_decide; [done|]. split; [done|]. congruence.
    - apply behind_head; [apply (io_queues _ Io)| |done]. intros y Hy. by eapply (io_held _ Io o Cmetrics y).
    - apply behind_head; [apply (io_queues _ Io)| |done]. intros y Hy. by eapply (io_held _ Io o Cevents y). }
  destruct Hsub as [Hs Hn]. split; [done|]. pose proof (proj2 (io_held _ Io o c x Ho Hc) Hs). lia.
Qed.

Lemma sent_order w o s :
  workers s = {[w := WorkerSends o]} → sender_ok s → in_order s →
  in_order (loop_top w (on_queues (_consume_sent_telemetry o) (set_attempts 0 (record_sent o s)))).
Proof.
  intros Hw Ok Io. set (s1 := on_queues _ _).
  assert (Hl : workers s !! w = Some (WorkerSends o)) by (by rewrite Hw, lookup_singleton_eq).
  pose proof (so_workers _ Ok _ _ _ Hl eq_refl) as [c Hc].
  assert (Ho : holding s o) by by exists w, (WorkerSends o).
  destruct (consume_frame o (queues s)) as (E & _).
  assert (Hch : ∀ x, channel_of (queues s1) x = channel_of (queues s) x) by apply E.
  assert (Es : ∀ c', sent_on s1 c' = sent_on s c' ++ (if decide (c' = c) then [o] else [])).
  { intros c'. transitivity (filter (λ o, channel_of (queues s) o = Some c') (sent s ++ [o])).
    - apply (sent_on_same (record_sent o s) s1 c'); [done|]. intros x _. apply Hch.
    - rewrite filter_app. f_equal. rewrite filter_cons, filter_nil, Hc.
      destruct (decide (c' = c)), (decide (Some c = Some c')); congruence. }
  pose proof (io_queues _ Io) as Ioq. destruct (consume_queues o (queues s) c Hc) as (Hoth & Hm & He & Hq).
  assert (Hb : ∀ c' x, slot (queues s1) c' x → slot (queues s) c' x ∧ (c' = c → (o < x)%nat)).
  { intros c' x Hx. destruct (decide (c' = c)) as [->|Hn].
    - by destruct (consume_behind s o c x Io Ho Hc Hx).
    - split; [by apply Hoth|done]. }
  assert (Hsub : ∀ l : list nat, StronglySorted lt l → ∀ b : bool, StronglySorted lt (if b then tail l else l)).
  { intros l Hs []; [|done]. destruct l; [done|]. by apply StronglySorted_inv in Hs as [? _]. }
  apply loop_top_order; [by eapply consumed_ok| |];
    [|right; change (workers s ⊆ {[w := default WorkerBegins (workers s !! w)]}); by rewrite Hl, Hw].
  split.
  - intros c'. rewrite Es. destruct (decide (c' = c)) as [->|Hn]; [|rewrite app_nil_r; apply Ioq].
    apply StronglySorted_app_2; [|apply Ioq|repeat constructor].
    intros x y Hx ->%list_elem_of_singleton. by apply (io_held _ Io o c x Ho Hc).
  - intros c' x y Hx [Hy Hlt]%Hb. rewrite Es in Hx.
    apply elem_of_app in Hx as [Hx|Hx]; [by eapply (io_ahead _ Ioq)|].
    destruct (decide (c' = c)) as [->|Hn]; [|by apply elem_of_nil in Hx].
    apply list_elem_of_singleton in Hx as ->. auto.
  - change (StronglySorted lt (_pending_metrics (_consume_sent_telemetry o (queues s)))).
    destruct (decide (c = Cmetrics)) as [->|Hn]; [rewrite Hq; apply Hsub, Ioq|]. rewrite Hm by done. apply Ioq.
  - change (StronglySorted lt (_pending_events (_consume_sent_telemetry o (queues s)))).
    destruct (decide (c = Cevents)) as [->|Hn]; [rewrite Hq; apply Hsub, Ioq|]. rewrite He by done. apply Ioq.
Qed.

(** ** Steps while the sender is open *)

Record opened s : Prop := {
  op_ok : sender_ok s;
  op_order : in_order s;
  op_task : one_task s;
}.

Lemma insert_single (w : nat) (pc pc' : worker_pc) : <[w := pc']> {[w := pc]} = ({[w := pc']} : gmap nat worker_pc).
Proof. apply insert_singleton_eq. Qed.

(** The loop of the one task. *)
Lemma loop_top_task w pc s :
  closers s = ∅ ∧ cancelled s = [] → _stop_requested s = false → workers s = {[w := pc]} → _worker_task s = Some w →
  one_task (loop_top w s).
Proof.
  intros Hc Hs Hw Ht. unfold loop_top. rewrite peek_pending.
  destruct (pending (queues s)) as [|o l] eqn:Ep; cbn.
  - rewrite Hs. unfold _ensure_wake_event. destruct (_wake_event s) as [e|] eqn:Ee; cbn.
    all: split; [done|]; split; [done|]; right; eexists w, _; cbn; rewrite Hw, insert_single; split; [done|].
    all: split; [done|]; intros e' woken [= <- <-]; split; [done|]; by rewrite Ep.
  - assert (H : ∀ pc', (∀ e woken, pc' ≠ WorkerWaits e woken) → one_task (set_worker w pc' s)).
    { intros pc' Hpc. split; [done|]. split; [done|]. right. exists w, pc'. cbn. rewrite Hw, insert_single.
      split; [done|]. split; [done|]. intros e woken ->. by destruct (Hpc e woken). }
    destruct (transport_connected s); [by apply H|]. destruct (negb _); [by apply H|]. case_match; by apply H.
Qed.

Lemma single_lookup s w pc v pc' :
  workers s = {[w := pc]} → workers s !! v = Some pc' → v = w ∧ pc' = pc.
Proof. intros ->. by intros [<- <-]%lookup_singleton_Some. Qed.

Lemma task_lookup s v pc : one_task s → workers s !! v = Some pc →
  workers s = {[v := pc]} ∧ _worker_task s = Some v
  ∧ ∀ e woken, pc = WorkerWaits e woken → _wake_event s = Some e ∧ (woken = false → pending (queues s) = []).
Proof.
  intros (_ & _ & [(-> & _) | (w & pc0 & Hw & Ht & He)]); [by rewrite lookup_empty|].
  intros Hv. destruct (single_lookup _ _ _ _ _ Hw Hv) as [-> ->]. done.
Qed.

Lemma opened_loop_top w pc s :
  sender_ok s → in_order s → closers s = ∅ ∧ cancelled s = [] → _stop_requested s = false → workers s = {[w := pc]} →
  _worker_task s = Some w → opened (loop_top w s).
Proof.
  intros Ok Io Hc Hs Hw Ht. split; [by apply loop_top_ok| |by eapply loop_top_task].
  apply loop_top_order; [done|apply Io|by left].
Qed.

Lemma opened_enqueue c p b s : opened s → opened (_enqueue config has_service has_runtime c p b s).
Proof.
  intros [Ok Io (Hc & Hs & Ht)]. split; [by apply enqueue_ok| |].
  - unfold _enqueue. destruct (start_frame s) as (A & B & C & D).
    assert (Ok1 : sender_ok (start s)) by (apply (sender_ok_frame s); try done; eauto).
    assert (Io1 : in_order (start s)).
    { apply (in_order_frame s); try done; [|apply Ok|apply Io]. intros o (v & pc & Hv & Ho). left.
      split; [|done]. exists v, pc. eauto. }
    pose proof (put_order (start s) c p b Ok1 Io1) as Io2. cbn zeta in Io2. set (q := {| q_channel := c |}) in *.
    match goal with |- in_order (_signal_worker ?x) => set (s2 := x) in * end.
    destruct (signal_frame s2) as (A2 & B2 & C2 & _ & D2).
    destruct (put_ok (made (start s)) (sent (start s)) c p b (queues (start s)) (so_queues _ Ok1)) as (Q & _).
    apply (in_order_frame s2); try done.
    + intros o (v & pc & Hv & Ho). left. split; [exists v, pc; eauto|]. destruct Io2 as [[] ?]. by split; [split|].
    + destruct Io2 as [[] ?]. by split.
  - unfold _enqueue. assert (Hstart : (closers (start s) = ∅ ∧ cancelled (start s) = []) ∧ _stop_requested (start s) = false ∧
      ∃ w pc, workers (start s) = {[w := pc]} ∧ _worker_task (start s) = Some w
              ∧ ∀ e woken, pc = WorkerWaits e woken → _wake_event (start s) = Some e).
    { destruct Ht as [(Hw & Ht & Hp) | (w & pc & Hw & Ht & He)].
      - unfold start. rewrite Ht. cbn. unfold _ensure_wake_event. cbn. destruct (_wake_event s); cbn.
        all: split; [done|]; split; [done|]; eexists _, WorkerBegins; rewrite Hw; split; [reflexivity|]; by split.
      - assert (start s = s) as -> by (unfold start; rewrite Ht; cbn; by rewrite Hw, lookup_singleton_eq).
        split; [done|]. split; [done|]. exists w, pc. split; [done|]. split; [done|].
        intros e woken E. by destruct (He e woken E). }
    destruct Hstart as (Hc' & Hs' & w & pc & Hw & Hwt & He).
    match goal with |- one_task (_signal_worker ?x) => set (s2 := x) in * end.
    assert (Hf : (closers s2 = ∅ ∧ cancelled s2 = []) ∧ _stop_requested s2 = false ∧ workers s2 = {[w := pc]} ∧ _worker_task s2 = Some w
                 ∧ ∀ e woken, pc = WorkerWaits e woken → _wake_event s2 = Some e)
      by exact (conj Hc' (conj Hs' (conj Hw (conj Hwt He)))).
    clearbody s2. destruct Hf as (F1 & F2 & F3 & F4 & F5). unfold _signal_worker, _ensure_wake_event.
    destruct (_wake_event s2) as [e|] eqn:Ee; cbn; split; try done; split; try done; right.
    + exists w, (wake e pc). cbn. rewrite F3, map_fmap_singleton. split; [done|]. split; [done|].
      intros e' woken E. destruct pc as [|e0 b0| | | | |]; cbn in E; try done. injection E as -> <-.
      specialize (F5 _ _ eq_refl). injection F5 as ->. split; [done|]. by rewrite Nat.eqb_refl, orb_true_r.
    + exists w, (wake (made s2) pc). cbn. rewrite F3, map_fmap_singleton. split; [done|]. split; [done|].
      intros e' woken E. destruct pc as [|e0 b0| | | | |]; cbn in E; try done. by specialize (F5 _ _ eq_refl).
Qed.

(** The connection comes or goes. *)
Lemma opened_transport b s : opened s → opened (set_transport b s).
Proof. intros [[] [[] ?] ?]. by split; [split| split; [split|] |]. Qed.

(** The task goes to another await, with the object it holds. *)
Lemma opened_move w pc pc' n s :
  opened s → workers s !! w = Some pc → (∀ o, held pc' = Some o → held pc = Some o) →
  (∀ e woken, pc' ≠ WorkerWaits e woken) → opened (set_worker w pc' (set_attempts n s)).
Proof.
  intros [Ok Io Ht] Hw Hh Hpc. destruct (task_lookup _ _ _ Ht Hw) as (Hs & Hwt & _). split.
  - apply (sender_ok_frame s); try done. intros v pc0 o. cbn. rewrite lookup_insert. case_decide; [|auto].
    intros [= <-] Ho. right. right. exists w, pc. auto.
  - apply (in_order_frame s); try done; [|apply Ok|apply Io].
    intros o (v & pc0 & Hv & Ho). left. split; [|done]. revert Hv. cbn. rewrite lookup_insert. case_decide.
    + intros [= <-]. exists w, pc. auto.
    + intros Hv. by exists v, pc0.
  - destruct Ht as (H1 & H2 & _). split; [done|]. split; [done|]. right. exists w, pc'. cbn.
    rewrite Hs, insert_single. split; [done|]. split; [done|]. intros e woken ->. by destruct (Hpc e woken).
Qed.

Lemma opened_step a s s' : keeps_open a = true → step a s = Some s' → opened s → opened s'.
Proof.
  intros Hk Hstep Op. pose proof (sender_step_ok a s s' Hstep) as Hok. pose proof Op as [Ok Io Ht].
  pose proof Ht as (Hc & Hs & _). pose proof (proj1 Hc) as Hc0.
  destruct a; try done; cbn [WsSender.step] in Hstep.
  - injection Hstep as <-. by apply opened_enqueue.
  - destruct (futures (queues s) !! w) as [[]|]; try done. injection Hstep as <-. split; [by apply Hok| |done].
    destruct Io as [[] ?]. by split; [split|].
  - injection Hstep as <-. by apply opened_transport.
  - destruct (workers s !! w) as [[|e []| | | | |]|] eqn:Hw; try done; injection Hstep as <-;
      destruct (task_lookup _ _ _ Ht Hw) as (Hws & Hwt & _).
    all: eapply opened_loop_top; try done; try (by destruct Ok).
    all: destruct Io as [[] ?]; by split; [split|].
  - destruct (workers s !! w) as [[| | |o| | |]|] eqn:Hw; try done. injection Hstep as <-.
    by apply (opened_move w (WorkerBacksOff o) (WorkerConnects o (_reconnect_attempts s)) (_reconnect_attempts s) s).
  - destruct (workers s !! w) as [[| | | |o previous| |]|] eqn:Hw; try done. injection Hstep as <-. destruct ok.
    + by apply (opened_move w (WorkerConnects o previous)); [apply opened_transport|..].
    + destruct (task_lookup _ _ _ Ht Hw) as (Hws & Hwt & _). eapply opened_loop_top; try done; try (by destruct Ok).
      destruct Io as [[] ?]; by split; [split|].
  - destruct (workers s !! w) as [[| | | | |o|]|] eqn:Hw; try done.
    destruct (task_lookup _ _ _ Ht Hw) as (Hws & Hwt & _). injection Hstep as <-. destruct ok.
    + split; [by apply Hok|by apply sent_order|]. by eapply loop_top_task.
    + by apply (opened_move w (WorkerSends o) _ _ (set_transport false s)); [apply opened_transport|..].
  - cbn in Hstep. by rewrite Hc0, lookup_empty in Hstep.
  - cbn in Hstep. by rewrite Hc0, lookup_empty in Hstep.
  - cbn in Hstep. by rewrite Hc0, lookup_empty in Hstep.
Qed.

Lemma new_sender_opened : opened new_sender.
Proof.
  split; [apply new_sender_ok| |].
  - split; [split|]; cbn.
    + intros c. constructor.
    + intros c x y Hx. by apply elem_of_nil in Hx.
    + constructor.
    + constructor.
    + intros o c x (w & pc & Hw & _). cbn in Hw. by rewrite lookup_empty in Hw.
  - split; [done|]. split; [done|]. left. by split_and!.
Qed.

Lemma run_opened acts s s' : forallb keeps_open acts = true → run acts s = Some s' → opened s → opened s'.
Proof.
  revert s. induction acts as [|a acts IH]; intros s; cbn; [by intros _ [= <-]|].
  intros [Ha Hk]%andb_true_iff (s1 & H1 & H2)%bind_Some Op. eapply IH; [done|exact H2|]. by eapply opened_step.
Qed.

(** C18. As long as [close] is not called, telemetry leaves in the order in
    which it was handed over, channel by channel, and none twice: whatever
    fails and is retried, what was sent is older than what is pending. *)
Theorem telemetry_sent_in_order (acts : list action) s (c : channel) :
  forallb keeps_open acts = true → run acts new_sender = Some s →
  StronglySorted lt (sent_on s c)
  ∧ (∀ x y, x ∈ sent_on s c → y ∈ pending (queues s) → channel_of (queues s) y = Some c → (x < y)%nat)
  ∧ NoDup (sent s).
Proof.
  intros Hk Hr. pose proof (run_opened _ _ _ Hk Hr new_sender_opened) as [Ok Io _].
  pose proof (io_queues _ Io) as Ioq. split; [apply Ioq|]. split.
  - intros x y Hx [c' Hy]%pending_slot Hc.
    pose proof (qo_slots _ _ _ _ (so_queues _ Ok) _ _ Hy) as Hc'. assert (c' = c) as -> by congruence.
    by eapply (io_ahead _ Ioq).
  - assert (Hd : ∀ x, x ∈ sent s → is_Some (channel_of (queues s) x)) by apply (so_queues _ Ok).
    assert (Hf : ∀ c, NoDup (sent_on s c)).
    { intros c'. pose proof (io_sent _ Ioq c') as Hss. induction Hss as [|x l _ IH Hx]; constructor; [|done].
      rewrite Forall_forall in Hx. intros Hi. specialize (Hx _ Hi). lia. }
    clear -Hd Hf. unfold sent_on in Hf. induction (sent s) as [|x l IH]; [constructor|].
    constructor.
    + destruct (Hd x (list_elem_of_here _ _)) as [c Hc]. specialize (Hf c).
      rewrite filter_cons_True in Hf by done. apply NoDup_cons in Hf as [Hn _]. intros Hi. apply Hn.
      by apply list_elem_of_filter.
    + apply IH; [intros y Hy; apply Hd; by right|]. intros c. specialize (Hf c).
      rewrite filter_cons in Hf. case_decide; [by apply NoDup_cons in Hf as [_ ?]|done].
Qed.

(** ** A transport that works *)

(** The steps of the task when every connection is made and every message
    sent, and those of [close]; no link breaks. *)
Definition works (a : action (P:=P)) : Prop :=
  match a with
  | WorkerRuns _ | WorkerReconnects _ | WorkerConnected _ true | WorkerSent _ true => True
  | CloseResumes _ | CloseReturns _ => True
  | _ => False
  end.

(** The sender knows what it has to tell the server when it connects. *)
Definition descriptors_known s : Prop := _service_descriptor s && _runtime_descriptor s = true.

Lemma run_app acts acts' s : run (acts ++ acts') s = run acts s ≫= run acts'.
Proof. revert s. induction acts as [|a acts IH]; intros s; cbn; [done|]. destruct (step a s); cbn; [apply IH|done]. Qed.

Lemma consume_keeps o t x : x ∈ pending t → x ∈ pending (_consume_sent_telemetry o t) ∨ x = o.
Proof.
  rewrite !pending_slot. intros [c Hx]. unfold _consume_sent_telemetry.
  destruct (q_channel <$> objects t !! o) as [c'|]; [|left; by exists c].
  assert (Hl : ∀ l, head l = Some o → x ∈ l → x ∈ tail l ∨ x = o).
  { intros l Hh. rewrite (head_tail _ _ Hh) at 1. intros [->|?]%elem_of_cons; auto. }
  destruct c'; case_bool_decide as D; try (left; by exists c).
  - destruct c; cbn in Hx; [right; congruence|left; by exists Cheartbeat|left; by exists Cmetrics|left; by exists Cevents].
  - destruct c; cbn in Hx; [left; by exists Csync|right; congruence|left; by exists Cmetrics|left; by exists Cevents].
  - destruct c; cbn in Hx; [left; by exists Csync|left; by exists Cheartbeat| |left; by exists Cevents].
    destruct (Hl _ D Hx); [left; by exists Cmetrics|by right].
  - destruct c; cbn in Hx; [left; by exists Csync|left; by exists Cheartbeat|left; by exists Cmetrics|].
    destruct (Hl _ D Hx); [left; by exists Cevents|by right].
Qed.

Lemma consume_length o t : (length (pending (_consume_sent_telemetry o t)) ≤ length (pending t))%nat.
Proof.
  unfold _consume_sent_telemetry. destruct (q_channel <$> objects t !! o) as [c|]; [|done].
  unfold pending. destruct c; case_bool_decide; cbn; rewrite ?length_app; try lia.
  - destruct (_pending_metrics t); cbn; lia.
  - destruct (_pending_events t); cbn; lia.
Qed.

Lemma consume_next n out t o :
  queue_ok n out [] t → _peek_pending_telemetry t = Some o →
  pending (_consume_sent_telemetry o t) = tail (pending t).
Proof.
  intros Q Hp. pose proof (qo_slots _ _ _ _ Q) as Hs.
  unfold _peek_pending_telemetry in Hp. unfold _consume_sent_telemetry. unfold channel_of in Hs.
  destruct (_pending_sync t) as [x|] eqn:E1.
  { injection Hp as ->. rewrite (Hs Csync o E1). rewrite bool_decide_eq_true_2 by done.
    unfold pending. cbn. by rewrite E1. }
  destruct (_pending_heartbeat t) as [x|] eqn:E2.
  { injection Hp as ->. rewrite (Hs Cheartbeat o E2). rewrite bool_decide_eq_true_2 by done.
    unfold pending. cbn. by rewrite E1, E2. }
  destruct (_pending_metrics t) as [|x l] eqn:E3.
  2: { injection Hp as ->. rewrite (Hs Cmetrics o) by (cbn; rewrite E3; by left). rewrite bool_decide_eq_true_2 by done.
    unfold pending. cbn. by rewrite E1, E2, E3. }
  destruct (_pending_events t) as [|x l] eqn:E4; [done|].
  injection Hp as ->. rewrite (Hs Cevents o) by (cbn; rewrite E4; by left). rewrite bool_decide_eq_true_2 by done.
  unfold pending. cbn. by rewrite E1, E2, E3, E4.
Qed.

(** What is left when the task has sent everything. *)
Record drained (w : nat) (must : list nat) s s' : Prop := {
  dr_pending : pending (queues s') = [];
  dr_sent : ∀ o, o ∈ must ∨ o ∈ sent s → o ∈ sent s';
  dr_closers : closers s' = closers s;
  dr_cancelled : cancelled s' = cancelled s;
  dr_waits : _stop_requested s = false → ∃ e, workers s' !! w = Some (WorkerWaits e false);
  dr_stop : _stop_requested s = true → _worker_task s' = None ∧ workers s' !! w = None;
}.

(** Within [n] steps everything that is pending is sent. *)
Definition drains (n : nat) w s : Prop :=
  ∃ acts s', Forall works acts ∧ (length acts ≤ n)%nat ∧ run acts s = Some s' ∧ drained w (pending (queues s)) s s'.

Lemma drains_more n m w s : (n ≤ m)%nat → drains n w s → drains m w s.
Proof. intros Hn (acts & s' & H1 & H2 & H3 & H4). exists acts, s'. split_and!; try done; lia. Qed.

Lemma drains_step a n w s s1 :
  works a → step a s = Some s1 →
  (∀ o, o ∈ pending (queues s) → o ∈ pending (queues s1) ∨ o ∈ sent s1) → (∀ o, o ∈ sent s → o ∈ sent s1) →
  closers s1 = closers s → cancelled s1 = cancelled s → _stop_requested s1 = _stop_requested s →
  drains n w s1 → drains (S n) w s.
Proof.
  intros Ha Hs Hp Hsent Hc Hx Hst (acts & s' & H1 & H2 & H3 & [D1 D2 D3 D4 D5 D6]).
  exists (a :: acts), s'. split; [by constructor|]. split; [cbn; lia|]. split; [cbn; by rewrite Hs|].
  split; try done; [|congruence|congruence|by rewrite <- Hst|by rewrite <- Hst].
  intros o [Ho|Ho]; apply D2; [destruct (Hp o Ho); auto|auto].
Qed.

Lemma loop_top_keeps w s :
  closers (loop_top w s) = closers s ∧ cancelled (loop_top w s) = cancelled s
  ∧ _stop_requested (loop_top w s) = _stop_requested s.
Proof.
  unfold loop_top, _ensure_wake_event.
  destruct (_peek_pending_telemetry _); [|by destruct (_stop_requested s) eqn:?, (_wake_event s)].
  by destruct (transport_connected s); [|destruct (negb _); [|destruct (_ <? _)%nat]].
Qed.

Lemma loop_top_empty w s : pending (queues s) = [] → drains 0 w (loop_top w s).
Proof.
  intros Hp. exists [], (loop_top w s). split; [done|]. split; [done|]. split; [done|].
  destruct (loop_top_frame w s) as (A & B & _). destruct (loop_top_keeps w s) as (_ & _ & C).
  split; rewrite ?A, ?B, ?C; try done.
  - rewrite Hp. intros o [Ho%elem_of_nil|]; done.
  - intros Hs. unfold loop_top. rewrite peek_pending, Hp, Hs. cbn. unfold _ensure_wake_event.
    destruct (_wake_event s); cbn; rewrite lookup_insert_eq; eauto.
  - intros Hs. unfold loop_top. rewrite peek_pending, Hp, Hs. cbn. by rewrite lookup_delete_eq.
Qed.

Abbreviation after_sent o s := (on_queues (_consume_sent_telemetry o) (set_attempts 0 (record_sent o s))).

(** The step in which a payload is sent. *)
Lemma sent_drains n w o s :
  workers s !! w = Some (WorkerSends o) → drains n w (loop_top w (after_sent o s)) → drains (S n) w s.
Proof.
  intros Hw. destruct (loop_top_frame w (after_sent o s)) as (A & B & _).
  destruct (loop_top_keeps w (after_sent o s)) as (C & D & E).
  apply (drains_step (WorkerSent w true)); try done; rewrite ?A, ?B.
  - cbn. by rewrite Hw.
  - intros x Hx. cbn. destruct (consume_keeps o (queues s) x Hx) as [?| ->]; [by left|].
    right. apply elem_of_app. right. by left.
  - intros x Hx. cbn. apply elem_of_app. by left.
Qed.

Lemma connected_drains w s :
  sender_ok s → transport_connected s = true → drains (length (pending (queues s))) w (loop_top w s).
Proof.
  remember (pending (queues s)) as l eqn:El. revert s El. induction l as [|o l IH]; intros s El Ok Hc.
  - by apply loop_top_empty.
  - assert (Hp : _peek_pending_telemetry (queues s) = Some o) by by rewrite peek_pending, <- El.
    assert (Etop : loop_top w s = set_worker w (WorkerSends o) s) by (unfold loop_top; by rewrite Hp, Hc).
    assert (Ok1 : sender_ok (set_worker w (WorkerSends o) s)) by (rewrite <- Etop; by apply loop_top_ok).
    assert (Hl : workers (set_worker w (WorkerSends o) s) !! w = Some (WorkerSends o)) by (cbn; by rewrite lookup_insert_eq).
    rewrite Etop. apply (sent_drains _ _ o); [done|]. apply IH; [|by eapply consumed_ok|done].
    cbn. by rewrite (consume_next _ _ _ _ (so_queues _ Ok) Hp), <- El.
Qed.

Lemma sends_drain w o s :
  sender_ok s → workers s !! w = Some (WorkerSends o) → transport_connected s = true →
  drains (S (length (pending (queues s)))) w s.
Proof.
  intros Ok Hw Hc. eapply sent_drains; [done|].
  apply drains_more with (length (pending (queues (after_sent o s)))); [apply consume_length|].
  apply connected_drains; [by eapply consumed_ok|done].
Qed.

(** A task moves on with the object it holds. *)
Lemma moved_ok w pc pc' n b s :
  workers s !! w = Some pc → (∀ o, held pc' = Some o → held pc = Some o) → sender_ok s →
  sender_ok (set_worker w pc' (set_attempts n (set_transport b s))).
Proof.
  intros Hw Hh. apply sender_ok_frame; try done. intros v pc0 x. cbn. rewrite lookup_insert.
  case_decide; [|auto]. intros [= <-] Hx. right. right. exists w, pc. auto.
Qed.

Lemma connects_drain w o previous s :
  sender_ok s → workers s !! w = Some (WorkerConnects o previous) → drains (2 + length (pending (queues s))) w s.
Proof.
  intros Ok Hw. eapply (drains_step (WorkerConnected w true)); [done|cbn; by rewrite Hw|..]; try done; [by left|].
  apply (sends_drain w o (set_worker w (WorkerSends o) (set_attempts 0 (set_transport true s)))); [|cbn; by rewrite lookup_insert_eq|done].
  by apply (moved_ok w (WorkerConnects o previous)).
Qed.

Lemma backs_off_drains w o s :
  sender_ok s → workers s !! w = Some (WorkerBacksOff o) → drains (3 + length (pending (queues s))) w s.
Proof.
  intros Ok Hw. eapply (drains_step (WorkerReconnects w)); [done|cbn; by rewrite Hw|..]; try done; [by left|].
  apply (connects_drain w o (_reconnect_attempts s) (set_worker w (WorkerConnects o (_reconnect_attempts s)) s));
    [|cbn; by rewrite lookup_insert_eq].
  pose proof (moved_ok w _ (WorkerConnects o (_reconnect_attempts s)) (_reconnect_attempts s) (transport_connected s) s Hw
                (λ _ H, H) Ok) as [H1 H2 H3]. by split.
Qed.

Lemma loop_top_drains w s :
  sender_ok s → descriptors_known s → drains (3 + length (pending (queues s))) w (loop_top w s).
Proof.
  intros Ok Hd. destruct (pending (queues s)) as [|o l] eqn:Ep.
  { apply drains_more with 0%nat; [lia|]. by apply loop_top_empty. }
  destruct (transport_connected s) eqn:Ec.
  { apply drains_more with (length (pending (queues s))); [rewrite Ep; lia|]. by apply connected_drains. }
  assert (Hp : _peek_pending_telemetry (queues s) = Some o) by by rewrite peek_pending, Ep.
  pose proof (loop_top_ok w s Ok) as Ok'. unfold loop_top in *. rewrite Hp, Ec, Hd in *. cbn [negb] in *.
  rewrite <- Ep. destruct (0 <? _reconnect_attempts s)%nat.
  - apply (backs_off_drains w o _ Ok'). cbn. by rewrite lookup_insert_eq.
  - eapply drains_more; [|apply (connects_drain w o (_reconnect_attempts s) _ Ok'); cbn; by rewrite lookup_insert_eq].
    cbn. lia.
Qed.

(** A task that is not waiting in vain sends everything. *)
Lemma task_drains w pc s :
  sender_ok s → descriptors_known s → workers s !! w = Some pc → (∀ e, pc ≠ WorkerWaits e false) →
  drains (4 + length (pending (queues s))) w s.
Proof.
  intros Ok Hd Hw Hpc.
  assert (Htop : ∀ s0, step (WorkerRuns w) s = Some (loop_top w s0) → sender_ok s0 → descriptors_known s0 →
             queues s0 = queues s → sent s0 = sent s → closers s0 = closers s → cancelled s0 = cancelled s →
             _stop_requested s0 = _stop_requested s → drains (4 + length (pending (queues s))) w s).
  { intros s0 Hs Ok0 Hd0 Eq Es Ec Ex Est. destruct (loop_top_frame w s0) as (A & B & _).
    destruct (loop_top_keeps w s0) as (C & D & E).
    eapply (drains_step (WorkerRuns w)); [done|exact Hs|..].
    - rewrite A, Eq. by left.
    - by rewrite B, Es.
    - congruence.
    - congruence.
    - congruence.
    - rewrite <- Eq. by apply (loop_top_drains w s0). }
  destruct pc as [|e []| |o|o previous|o|].
  - apply (Htop s); try done. cbn. by rewrite Hw.
  - eapply Htop; [cbn; by rewrite Hw|by destruct Ok|done..].
  - by destruct (Hpc e).
  - apply (Htop s); try done. cbn. by rewrite Hw.
  - eapply drains_more; [|by eapply backs_off_drains]. lia.
  - eapply drains_more; [|by eapply connects_drain]. lia.
  - apply (sent_drains _ _ o); [done|].
    pose proof (loop_top_drains w (after_sent o s) (consumed_ok _ _ _ Hw Ok) Hd) as H.
    eapply drains_more; [|exact H]. cbn. pose proof (consume_length o (queues s)). lia.
  - apply (Htop s); try done. cbn. by rewrite Hw.
Qed.

(** ** The steps of a working transport are forced *)

Lemma works_open a : works a → keeps_open a = true.
Proof. by destruct a. Qed.

Lemma works_one a b s sa sb :
  one_task s → works a → works b → step a s = Some sa → step b s = Some sb → a = b.
Proof.
  intros Ht Ha Hb Hsa Hsb. pose proof Ht as ((Hc & _) & _).
  assert (Hrun : ∀ a sa, works a → step a s = Some sa → ∃ w pc, workers s = {[w := pc]} ∧
            match pc, a with
            | WorkerBegins, WorkerRuns v | WorkerDefers, WorkerRuns v | WorkerCloses, WorkerRuns v
            | WorkerWaits _ true, WorkerRuns v | WorkerBacksOff _, WorkerReconnects v
            | WorkerConnects _ _, WorkerConnected v true | WorkerSends _, WorkerSent v true => v = w
            | _, _ => False
            end).
  { clear -Ht Hc. intros a sa Ha Hs. destruct a; try done; cbn in Hs; rewrite ?Hc, ?lookup_empty in Hs; try done.
    all: destruct (workers s !! w) as [pc|] eqn:Hw; [|done]; destruct (task_lookup _ _ _ Ht Hw) as (Hws & _).
    all: exists w, pc; split; [done|]; destruct pc as [|? []| | | | |]; try done.
    all: by destruct ok. }
  destruct (Hrun a sa Ha Hsa) as (w & pc & Hw & Ea), (Hrun b sb Hb Hsb) as (v & pc' & Hv & Eb).
  rewrite Hw in Hv. apply (f_equal (lookup v)) in Hv. rewrite lookup_singleton_eq in Hv.
  apply lookup_singleton_Some in Hv as [<- <-].
  destruct pc as [|e []| | | | |], a as [| | |?|?|? []|? []| | | |]; try done; subst;
    destruct b as [| | |?|?|? []|? []| | | |]; try done; by subst.
Qed.

Lemma works_forced acts acts' s s' :
  opened s → Forall works acts → run acts s = Some s' → (∀ a, works a → step a s' = None) →
  Forall works acts' → is_Some (run acts' s) → acts' `prefix_of` acts.
Proof.
  intros Op Ha. revert acts' s Op. induction Ha as [|a acts Ha _ IH]; intros acts' s Op Hr Hend Ha' Hr'.
  - injection Hr as ->. destruct acts' as [|b acts']; [done|]. apply Forall_cons in Ha' as [Hb _].
    cbn in Hr'. rewrite (Hend b Hb) in Hr'. by destruct Hr'.
  - destruct acts' as [|b acts']; [apply prefix_nil|]. apply Forall_cons in Ha' as [Hb Ha'].
    apply bind_Some in Hr as (sa & Hsa & Hr). destruct Hr' as [s2 (sb & Hsb & Hr')%bind_Some].
    assert (a = b) as -> by (eapply works_one; try done; apply Op).
    rewrite Hsa in Hsb. injection Hsb as ->. apply prefix_cons, (IH _ sb); try done.
    eapply opened_step; [by apply works_open|done|done].
Qed.

Lemma nobody_waits s : sender_ok s → pending (queues s) = [] → ∀ w, futures (queues s) !! w ≠ Some Waiting.
Proof.
  intros Ok Hp w Hw. destruct (qo_futures _ _ _ _ (so_queues _ Ok) _ _ Hw) as (_ & o & [Hc|Ho%elem_of_nil] & _); [|done].
  apply pending_slot in Hc. rewrite Hp in Hc. by apply elem_of_nil in Hc.
Qed.

Lemma works_opened acts s s' : Forall works acts → run acts s = Some s' → opened s → opened s'.
Proof.
  intros Ha. apply run_opened. induction Ha as [|a l Ha _ IH]; [done|]. cbn. by rewrite (works_open a Ha), IH.
Qed.

Lemma no_task_stops s : closers s = ∅ → (∀ w pc, workers s !! w = Some pc → ∃ e, pc = WorkerWaits e false) →
  ∀ a, works a → step a s = None.
Proof.
  intros Hc Hw a Ha. destruct a; try done; cbn; rewrite ?Hc, ?lookup_empty; try done.
  all: destruct (workers s !! w) as [pc|] eqn:E; [|done]; by destruct (Hw _ _ E) as [e ->].
Qed.


(** [close] on a transport that works sends what is pending before it
    returns, tells every caller, and leaves no task behind. *)
Theorem close_flushes (acts : list action) s :
  forallb keeps_open acts = true → run acts new_sender = Some s → descriptors_known s →
  ∃ acts' s', Forall works acts' ∧ run (CloseCalled :: acts') s = Some s'
    ∧ (∀ o, o ∈ pending (queues s) → o ∈ sent s')
    ∧ (∀ w, futures (queues s') !! w ≠ Some Waiting)
    ∧ _worker_task s' = None ∧ closers s' = ∅.
Proof.
  intros Hk Hr Hd. pose proof (run_opened _ _ _ Hk Hr new_sender_opened) as [Ok Io ((Hc & Hx) & _ & Ht)].
  pose proof (sender_step_ok CloseCalled s _ eq_refl Ok) as Ok1. set (s1 := close_begins s) in *.
  assert (Hs1 : step CloseCalled s = Some s1) by reflexivity.
  assert (Hrun : ∀ l, run (CloseCalled :: l) s = run l s1) by (intros l; cbn [WsSender.run]; by rewrite Hs1).
  clear Hs1.
  destruct Ht as [(Hw & Htask & Hp) | (w & pc & Hw & Htask & He)].
  - assert (E : ∃ k, closers s1 = {[k := CloserClosesTransport]} ∧ queues s1 = drop_all (queues s)
                ∧ _worker_task s1 = None).
    { subst s1. unfold close_begins, _signal_worker, _ensure_wake_event. cbn.
      destruct (_wake_event s); cbn; rewrite Htask; cbn; rewrite Hc; by eexists. }
    destruct E as (k & E1 & E2 & E3). clearbody s1. destruct (drop_all_ok _ _ _ (so_queues _ Ok)) as (_ & _ & Hn).
    exists [CloseReturns k], (set_closers (delete k) s1). split; [by repeat constructor|].
    split; [rewrite Hrun; cbn; by rewrite E1, lookup_singleton_eq|].
    split; [intros o; rewrite Hp; by intros ?%elem_of_nil|]. split; [cbn; by rewrite E2|].
    split; [done|]. cbn. rewrite E1. apply delete_singleton_eq.
  - assert (E : ∃ k pc', closers s1 = {[k := CloserWaits w true]} ∧ queues s1 = queues s ∧ sent s1 = sent s
                ∧ workers s1 !! w = Some pc' ∧ (∀ e, pc' ≠ WorkerWaits e false) ∧ _stop_requested s1 = true
                ∧ descriptors_known s1 ∧ cancelled s1 = []).
    { subst s1. unfold close_begins, _signal_worker, _ensure_wake_event. cbn.
      destruct (_wake_event s) as [e|] eqn:Ee; cbn; rewrite Htask; cbn; rewrite Hc.
      all: eexists _, (wake _ pc); split; [reflexivity|]; split; [done|]; split; [done|].
      all: rewrite Hw, map_fmap_singleton, lookup_singleton_eq; split; [reflexivity|]; split; [|done].
      all: intros e' E; destruct pc as [|e0 b0| | | | |]; cbn in E; try done.
      - injection E as -> Eb. destruct (He _ _ eq_refl) as [He' _]. injection He' as ->.
        by rewrite Nat.eqb_refl, orb_true_r in Eb.
      - by destruct (He _ _ eq_refl). }
    destruct E as (k & pc' & E1 & E2 & E3 & E4 & E5 & E6 & E7 & E8). clearbody s1.
    destruct (task_drains w pc' s1 Ok1 E7 E4 E5) as (acts' & s2 & H1 & _ & H3 & [D1 D2 D3 Dx _ D4]).
    destruct (D4 E6) as [D5 D6]. set (s3 := close_finishes k (set_tasks None (workers s2) s2)).
    pose proof (run_ok _ _ _ H3 Ok1) as Ok2.
    destruct (drop_all_ok _ _ _ (so_queues _ Ok2)) as (_ & _ & Hn).
    exists (acts' ++ [CloseResumes k; CloseReturns k]), (set_closers (delete k) s3).
    split; [apply Forall_app; split; [done|by repeat constructor]|].
    split.
    { rewrite Hrun, run_app, H3. cbn. rewrite D3, E1, lookup_singleton_eq. cbn. rewrite D6. cbn. rewrite Dx, E8.
      rewrite bool_decide_eq_false_2 by apply not_elem_of_nil. cbn. by rewrite lookup_insert_eq. }
    split; [intros o Ho; apply D2; left; by rewrite E2|]. split; [exact Hn|]. split; [done|].
    cbn. rewrite D3, E1, insert_singleton_eq. apply delete_singleton_eq.
Qed.
End Theorems.

(** ** On concrete histories *)

Definition demo_config : ControlPlaneReporterConfig :=
  {| event_batch_size := 10; max_pending_events := 10; max_pending_metric_batches := 2 |}.

(** Payloads are numbers; every payload has the descriptors. *)
Definition demo_run := run (P:=nat) demo_config (λ _, true) (λ _, true).
Definition demo_sender (acts : list action) : ControlPlaneWsSender := default new_sender (demo_run acts new_sender).

(** The task (number 1) connects, sends a heartbeat, and is about to send a
    batch of events when a second one is enqueued: the queue has room for one
    batch, so the batch that is being sent is dropped, and its caller told
    so, before it is sent. *)
Definition demo_dropped : list action :=
  [Enqueue Cheartbeat 7 false; WorkerRuns 1; WorkerConnected 1 true; WorkerSent 1 true;
   Enqueue Cevents 8 true; WorkerRuns 1; Enqueue Cevents 9 true; WorkerSent 1 true].

Example dropped_yet_sent :
  let s := demo_sender demo_dropped in
  futures (queues s) !! 3%nat = Some (Failed (dropped_message Cevents)) ∧ sent s = [2; 3]%nat.
Proof. vm_compute. split; reflexivity. Qed.

(** Telemetry that is enqueued between the end of the task and the return of
    [close] to its caller starts a task that [close] forgets: the next one
    starts a second task, and both send the same telemetry. *)
Definition demo_two_tasks : list action :=
  [Enqueue Cheartbeat 7 false; WorkerRuns 1; WorkerConnected 1 true; CloseCalled; WorkerSent 1 true;
   Enqueue Cheartbeat 8 false; CloseResumes 3; CloseReturns 3; WorkerRuns 4;
   Enqueue Cheartbeat 9 false].

Example close_leaves_task :
  let s := demo_sender demo_two_tasks in
  _worker_task s = Some 7%nat ∧ dom (workers s) = {[4; 7]}%nat
  ∧ sent (demo_sender (demo_two_tasks ++ [WorkerRuns 4; WorkerConnected 4 true; WorkerRuns 7;
                                         WorkerSent 4 true; WorkerSent 7 true])) = [2; 8; 8]%nat.
Proof. vm_compute. split_and!; reflexivity. Qed.

(** Two tasks close the sender at once, and the connection is not made in
    time: the first call cancels the task, and the second raises. *)
Definition demo_two_closes : list action :=
  [Enqueue Cheartbeat 7 true; WorkerRuns 1; CloseCalled; CloseCalled; CloseTimesOut 3 false].

Example second_close_raises :
  let s := demo_sender (demo_two_closes ++ [CloseResumes 4]) in
  closers s = {[3%nat := CloserWaits 1 false]} ∧ pending (queues s) = [2%nat]
  ∧ pending (queues (demo_sender (demo_two_closes ++ [CloseResumes 4; CloseResumes 3]))) = [].
Proof. vm_compute. split_and!; reflexivity. Qed.

(** Without descriptors the task defers, whatever the transport could do. *)
Example defers_without_descriptors :
  let s := run (P:=nat) demo_config (λ _, true) (λ _, false)
             [Enqueue Cheartbeat 7 false; WorkerRuns 1; WorkerRuns 1; WorkerRuns 1] new_sender in
  workers <$> s = Some {[1%nat := WorkerDefers]} ∧ sent <$> s = Some [].
Proof. vm_compute. split; reflexivity. Qed.

(** A caller waits for a sync, which a newer sync replaces while it is sent;
    the send fails, and is not repeated yet. *)
Definition demo_failed : list (action (P:=nat)) :=
  [Enqueue Csync 7 true; WorkerRuns 1; WorkerConnected 1 true; Enqueue Csync 8 false; WorkerSent 1 false].

Lemma waiters_told_truth_witness :
  let s := demo_sender demo_failed in
  futures (queues s) !! 2%nat = Some Waiting
  ∧ ∃ o, o ∈ pending (queues s) ∧ stands_for (queues s) o 2.
Proof.
  assert (H : futures (queues (demo_sender demo_failed)) !! 2%nat = Some Waiting) by (vm_compute; reflexivity).
  cbv zeta. split; [exact H|].
  assert (R : reachable demo_config (λ _, true) (λ _, true) (demo_sender demo_failed))
    by (exists demo_failed; vm_compute; reflexivity).
  revert H R. cbv zeta. generalize (demo_sender demo_failed). intros s H R.
  exact (waiters_told_truth demo_config (λ _, true) (λ _, true) s 2 Waiting R H).
Defined.

Lemma telemetry_sent_in_order_witness :
  NoDup (sent (demo_sender demo_dropped)) ∧ sent_on (demo_sender demo_dropped) Cevents = [3%nat].
Proof.
  assert (R : run demo_config (λ _, true) (λ _, true) demo_dropped new_sender = Some (demo_sender demo_dropped)) by (vm_compute; reflexivity).
  split; [|vm_compute; reflexivity].
  revert R. generalize (demo_sender demo_dropped). intros s R.
  destruct (telemetry_sent_in_order demo_config (λ _, true) (λ _, true) demo_dropped s Cevents eq_refl R)
    as (_ & _ & H). exact H.
Defined.


Lemma close_flushes_witness :
  ∃ acts' s', run demo_config (λ _, true) (λ _, true) (CloseCalled :: acts') (demo_sender demo_failed) = Some s' ∧ 3%nat ∈ sent s'
    ∧ closers s' = ∅.
Proof.
  assert (Hp : pending (queues (demo_sender demo_failed)) = [3%nat]) by (vm_compute; reflexivity).
  assert (R : run demo_config (λ _, true) (λ _, true) demo_failed new_sender = Some (demo_sender demo_failed)) by (vm_compute; reflexivity).
  assert (D : descriptors_known (demo_sender demo_failed)) by (vm_compute; reflexivity).
  revert R D Hp. generalize (demo_sender demo_failed). intros s R D Hp.
  destruct (close_flushes demo_config (λ _, true) (λ _, true) demo_failed s eq_refl R D)
    as (acts' & s' & _ & Hr & Hs & _ & _ & Hc).
  exists acts', s'. split; [exact Hr|]. split; [|exact Hc]. apply Hs. rewrite Hp. by left.
Defined.
