(* ===== verification/TableQueue.v ===== *)
(** * Table queues ([onestep_sql], [table_queue])

    A table whose rows are work: [TableQueueSource] of the MySQL and SQLite
    connectors and [PostgresTableQueueSource] claim rows by setting columns,
    hand them out, and set other columns when a delivery is settled.  The
    three differ in one thing: PostgreSQL and MySQL lock, update and re-read
    the rows in a transaction, SQLite does it in one statement.

    What the condition [where] says, which rows other transactions have
    locked and how the database orders keys are inputs.  A statement that
    fails changes nothing; the claim, ack and nack columns are constants. *)

From stdpp Require Import base gmap list strings sorting.
From Stdlib Require Import ZArith Lia.
From S2P Require Import Prelude PyFloat Value.

(** The values of columns: [NULL], equality, the order of keys, and the
    Python object the driver returns. *)
Class Cell (V : Type) := {
  cell_eq_dec :: EqDecision V;
  null : V;
  key_le : relation V;
  key_le_dec :: RelDecision key_le;
  key_le_total :: Total key_le;
  key_le_trans :: Transitive key_le;
  py : V → value;
  py_null : py null = VNone;
}.

Section Queue.
Context {V : Type} `{!Cell V} {Env : Type}.

(** ** Tables *)

Definition Row := list (string * V).

Record sql_table := { columns : list string; rows : list Row }.

Definition set_rows (rs : list Row) (t : sql_table) : sql_table := {| columns := columns t; rows := rs |}.

(** [a = b] in SQL: [NULL] equals nothing. *)
Definition sql_eq (a b : V) : bool := bool_decide (a = b) && bool_decide (a ≠ null).

Definition sql_in (a : V) (l : list V) : bool := existsb (sql_eq a) l.

(** [SET c = v, ...] on a row. *)
Definition set_values (vs : list (string * V)) (r : Row) : Row :=
  foldl (λ r cv, dict_set cv.1 cv.2 r) r vs.

(** [sa.update(table).where(p).values( **vs)]: without values the statement
    is not SQL, and the values name columns of the table. *)
Definition update_table (p : Row → bool) (vs : list (string * V)) (t : sql_table) : result exn sql_table :=
  _ ← guard_else (negb (bool_decide (vs = [])))
        (Exn CException "ProgrammingError" "syntax error in UPDATE" None);
  _ ← guard_else (forallb (λ cv, bool_decide (cv.1 ∈ columns t)) vs)
        (Exn CException "CompileError" "Unconsumed column names" None);
  Ok (set_rows ((λ r, if p r then set_values vs r else r) <$> rows t) t).

(** ** The source *)

Record TableQueueSource := {
  table_name : string;
  key : string;
  where_ : Env → Row → bool;
  claim : list (string * V);
  ack : list (string * V);
  nack : list (string * V);
  batch_size : Z;
}.

Section Source.
Variable s : TableQueueSource.

(** [row[self.key]]. *)
Definition row_key (r : Row) : V := default null (dict_get (key s) r).

Definition row_le : relation Row := λ r r', key_le (row_key r) (row_key r').

#[global] Instance row_le_dec : RelDecision row_le := λ r r', decide (key_le (row_key r) (row_key r')).

Definition order_by_key (rs : list Row) : list Row := merge_sort row_le rs.

(** [SELECT ... WHERE ... ORDER BY key LIMIT n FOR UPDATE SKIP LOCKED]. *)
Definition candidates (limit : nat) (env : Env) (locked : V → bool) (t : sql_table) : list Row :=
  take limit (order_by_key (List.filter (λ r, where_ s env r && negb (locked (row_key r))) (rows t))).

(** [_fetch] of the MySQL and PostgreSQL connectors. *)
Definition _fetch (limit : nat) (env : Env) (locked : V → bool) (t : sql_table)
    : result exn (list Row * sql_table) :=
  match candidates limit env locked t with
  | [] => Ok ([], t)
  | found =>
      let ids := row_key <$> found in
      t' ← update_table (λ r, sql_in (row_key r) ids) (claim s) t;
      Ok (order_by_key (List.filter (λ r, sql_in (row_key r) ids) (rows t')), t')
  end.

(** [_fetch] of the SQLite connector: [UPDATE ... RETURNING] gives the rows
    in whatever order. *)
Definition _fetch_sqlite (limit : nat) (env : Env) (arrange : list Row → list Row) (t : sql_table)
    : result exn (list Row * sql_table) :=
  let ids := row_key <$> candidates limit env (λ _, false) t in
  t' ← update_table (λ r, sql_in (row_key r) ids) (claim s) t;
  Ok (arrange (set_values (claim s) <$> List.filter (λ r, sql_in (row_key r) ids) (rows t)), t').

Definition requested_limit (limit : Z) : nat := Z.to_nat (Z.max 1 (Z.min limit (batch_size s))).

(** ** Deliveries *)

(** [TableQueueDelivery] with its [_TableRowRef], the process that has it,
    and whether its [retry] sleeps. *)
Record TableQueueDelivery := {
  key_value : V;
  envelope : Envelope;
  worker : nat;
  sleeping : bool;
}.

Definition row_body (r : Row) : value := VStrDict (prod_map id py <$> r).

(** The body of the loop in [fetch]. *)
Definition new_delivery (w : nat) (r : Row) : TableQueueDelivery :=
  {| key_value := row_key r;
     envelope := {| body := row_body r; meta := [("table"%string, VStr (table_name s))]; attempts := 0 |};
     worker := w; sleeping := false |}.

(** [update_row]; SQLAlchemy writes [== None] as [IS NULL]. *)
Definition update_row (k : V) (vs : list (string * V)) (t : sql_table) : result exn sql_table :=
  if bool_decide (vs = []) then Ok t else update_table (λ r, bool_decide (row_key r = k)) vs t.

Definition ack_row (k : V) (t : sql_table) : result exn sql_table := update_row k (ack s) t.
Definition retry_row (k : V) (t : sql_table) : result exn sql_table := update_row k (nack s) t.
Definition fail_row (k : V) (t : sql_table) : result exn sql_table := update_row k (nack s) t.
Definition release_row (k : V) (t : sql_table) : result exn sql_table := update_row k (nack s) t.

(** [self.envelope.body.update(payload)] on a body that is a dict. *)
Fixpoint vdict_set (k : string) (v : value) (items : list (value * value)) : list (value * value) :=
  match items with
  | [] => [(VStr k, v)]
  | (VStr k', v') :: items => if String.eqb k k' then (VStr k', v) :: items
                              else (VStr k', v') :: vdict_set k v items
  | kv :: items => kv :: vdict_set k v items
  end.

Definition body_update (vs : list (string * V)) (b : value) : value :=
  match b with
  | VDict items => VDict (foldl (λ items cv, vdict_set cv.1 (py cv.2) items) items vs)
  | b => b
  end.

Definition set_body (b : value) (d : TableQueueDelivery) : TableQueueDelivery :=
  {| key_value := key_value d;
     envelope := {| body := b; meta := meta (envelope d); attempts := attempts (envelope d) |};
     worker := worker d; sleeping := sleeping d |}.

Definition set_sleeping (d : TableQueueDelivery) : TableQueueDelivery :=
  {| key_value := key_value d; envelope := envelope d; worker := worker d; sleeping := true |}.

(** ** Workers and the table *)

Record queue_state := {
  table : sql_table;
  live : gmap nat TableQueueDelivery;   (** not settled yet *)
  next_id : nat;
}.

(** What happens next: a worker fetches; a delivery is acknowledged, retried
    with or without a delay, woken from the delay, failed, released, or
    updates its row; its task is cancelled in the delay; a worker dies; a
    producer inserts a row. *)
Inductive action :=
| Fetch (w : nat) (limit : Z) (env : Env) (locked : V → bool)
| Ack (i : nat)
| Retry (i : nat) (delayed : bool)
| Slept (i : nat)
| CancelSleep (i : nat)
| FailDelivery (i : nat)
| ReleaseUnstarted (i : nat)
| UpdateCurrentRow (i : nat) (values : list (string * V))
| Crash (w : nat)
| Insert (r : Row).

Definition hand_out (w : nat) (found : list Row) (σ : queue_state) (t : sql_table) : queue_state :=
  {| table := t;
     live := list_to_map (zip (seq (next_id σ) (length found)) (new_delivery w <$> found)) ∪ live σ;
     next_id := next_id σ + length found |}.

Definition fetch (w : nat) (limit : Z) (env : Env) (locked : V → bool) (σ : queue_state) : option queue_state :=
  match _fetch (requested_limit limit) env locked (table σ) with
  | Ok (found, t) => Some (hand_out w found σ t)
  | Err _ => Some σ
  end.

(** A settlement: the update, and when it did not raise the delivery is done. *)
Definition settle (i : nat) (update : V → sql_table → result exn sql_table) (σ : queue_state) : queue_state :=
  match live σ !! i with
  | None => σ
  | Some d =>
      match update (key_value d) (table σ) with
      | Ok t => {| table := t; live := delete i (live σ); next_id := next_id σ |}
      | Err _ => σ
      end
  end.

(** [update_current_row]. *)
Definition update_current_row (i : nat) (vs : list (string * V)) (σ : queue_state) : queue_state :=
  match live σ !! i with
  | None => σ
  | Some d =>
      match update_row (key_value d) vs (table σ) with
      | Ok t => {| table := t;
                   live := <[i := set_body (body_update vs (body (envelope d))) d]> (live σ);
                   next_id := next_id σ |}
      | Err _ => σ
      end
  end.

Definition set_live (m : gmap nat TableQueueDelivery) (σ : queue_state) : queue_state :=
  {| table := table σ; live := m; next_id := next_id σ |}.

Definition is_awake (i : nat) (σ : queue_state) : bool :=
  match live σ !! i with Some d => negb (sleeping d) | None => false end.

Definition is_asleep (i : nat) (σ : queue_state) : bool :=
  match live σ !! i with Some d => sleeping d | None => false end.

(** A row a producer may insert: the columns of the table and a key of its own. *)
Definition insertable (r : Row) (t : sql_table) : bool :=
  bool_decide (r.*1 = columns t) && bool_decide (row_key r ≠ null) &&
  bool_decide (row_key r ∉ (row_key <$> rows t)).

Definition step (a : action) (σ : queue_state) : option queue_state :=
  match a with
  | Fetch w limit env locked => fetch w limit env locked σ
  | Ack i => if is_awake i σ then Some (settle i ack_row σ) else None
  | Retry i false => if is_awake i σ then Some (settle i retry_row σ) else None
  | Retry i true => if is_awake i σ then Some (set_live (alter set_sleeping i (live σ)) σ) else None
  | Slept i => if is_asleep i σ then Some (settle i retry_row σ) else None
  | CancelSleep i => if is_asleep i σ then Some (set_live (delete i (live σ)) σ) else None
  | FailDelivery i => if is_awake i σ then Some (settle i fail_row σ) else None
  | ReleaseUnstarted i => if is_awake i σ then Some (settle i release_row σ) else None
  | UpdateCurrentRow i vs => if is_awake i σ then Some (update_current_row i vs σ) else None
  | Crash w => Some (set_live (filter (λ p, worker p.2 ≠ w) (live σ)) σ)
  | Insert r => if insertable r (table σ)
                then Some {| table := set_rows (rows (table σ) ++ [r]) (table σ);
                             live := live σ; next_id := next_id σ |}
                else None
  end.

Fixpoint run (l : list action) (σ : queue_state) : option queue_state :=
  match l with
  | [] => Some σ
  | a :: l => step a σ ≫= run l
  end.

Definition start (t : sql_table) : queue_state := {| table := t; live := ∅; next_id := 0 |}.
End Source.
End Queue.

Arguments Row : clear implicits.
Arguments sql_table : clear implicits.
Arguments TableQueueSource : clear implicits.
Arguments TableQueueDelivery : clear implicits.
Arguments queue_state : clear implicits.
Arguments action : clear implicits.
