(* ===== verification/TableQueueTheorems.v ===== *)
(** * What a table queue guarantees

    A fetch hands out the visible rows with the smallest keys, as the claim
    left them; the three connectors agree on it.  When the claim hides a row
    from the condition, no row is in two hands, and what a handler holds is
    the row the table has.  What the queue does not do is shown too: rows of
    a dead worker stay claimed, and an attempt is never counted. *)

From stdpp Require Import base gmap list strings sorting.
From Stdlib Require Import ZArith Lia.
From S2P Require Import Prelude PyFloat Value Retry TableQueue.

Lemma submseteq_nodup {A} (l k : list A) : l ⊆+ k → NoDup k → NoDup l.
Proof. intros [m Hm]%submseteq_Permutation. rewrite Hm. by intros (? & _)%NoDup_app. Qed.

Section Rows.
Context {V : Type} `{!Cell V} {Env : Type}.
Variable s : TableQueueSource V Env.
Implicit Types (r : Row V) (t : sql_table V).

Lemma sql_eq_spec (a b : V) : sql_eq a b = true ↔ a = b ∧ a ≠ null.
Proof. unfold sql_eq. by rewrite andb_true_iff, !bool_decide_eq_true. Qed.

Lemma sql_in_spec (a : V) l : sql_in a l = true ↔ a ∈ l ∧ a ≠ null.
Proof.
  unfold sql_in. rewrite existsb_exists. setoid_rewrite sql_eq_spec.
  rewrite list_elem_of_In. split; [intros (x & Hx & -> & Hn); done | intros [Hin Hn]; by exists a].
Qed.

#[local] Instance row_le_total : Total (row_le s).
Proof. intros r r'. exact (total key_le (row_key s r) (row_key s r')). Qed.

#[local] Instance row_le_trans : Transitive (row_le s).
Proof. intros r r' r''. exact (transitivity (R:=key_le) (x:=row_key s r) (y:=row_key s r') (z:=row_key s r'')). Qed.

Lemma order_by_key_perm rs : order_by_key s rs ≡ₚ rs.
Proof. apply merge_sort_Permutation. Qed.

Lemma order_by_key_sorted rs : StronglySorted (row_le s) (order_by_key s rs).
Proof. apply (StronglySorted_merge_sort (row_le s)). Qed.

Lemma get_set_values c (vs : list (string * V)) r :
  c ∉ vs.*1 → dict_get c (set_values vs r) = dict_get c r.
Proof.
  unfold set_values. revert r. induction vs as [|[c' v] vs IH]; intros r Hc; simpl in *; [done|].
  apply not_elem_of_cons in Hc as [Hne Hc]. rewrite IH by done. by apply dict_get_set_ne.
Qed.

Lemma row_key_set vs r : key s ∉ vs.*1 → row_key s (set_values vs r) = row_key s r.
Proof. intros H. unfold row_key. by rewrite get_set_values. Qed.

Lemma dict_set_keys c v r : c ∈ r.*1 → (dict_set c v r).*1 = r.*1.
Proof.
  induction r as [|[c' v'] r IH]; simpl; [by intros ?%elem_of_nil|].
  destruct (String.eqb c c') eqn:E; simpl; [done|]. intros [->|Hc]%elem_of_cons.
  - by rewrite String.eqb_refl in E.
  - f_equal. by apply IH.
Qed.

Lemma set_values_keys vs r : Forall (λ cv, cv.1 ∈ r.*1) vs → (set_values vs r).*1 = r.*1.
Proof.
  unfold set_values. revert r. induction vs as [|[c v] vs IH]; intros r Hvs; simpl; [done|].
  apply Forall_cons in Hvs as [Hc Hvs]. simpl in Hc.
  assert ((dict_set c v r).*1 = r.*1) as E by by apply dict_set_keys.
  etransitivity; [apply IH | exact E]. by rewrite E.
Qed.

(** The rows of a table have its columns, and a key each. *)
Definition table_ok t : Prop :=
  Forall (λ r, r.*1 = columns t) (rows t) ∧ NoDup (row_key s <$> rows t) ∧
  Forall (λ r, row_key s r ≠ null) (rows t).

Lemma rows_nodup t : table_ok t → NoDup (rows t).
Proof. intros (_ & H & _). by eapply NoDup_fmap_1. Qed.

Lemma same_key t r r' : table_ok t → r ∈ rows t → r' ∈ rows t → row_key s r = row_key s r' → r = r'.
Proof.
  intros (_ & Hnd & _) [i Hi]%list_elem_of_lookup [j Hj]%list_elem_of_lookup E.
  assert (i = j) as ->; [|congruence].
  apply (NoDup_lookup _ i j (row_key s r) Hnd); rewrite list_lookup_fmap; [by rewrite Hi|].
  rewrite Hj. simpl. congruence.
Qed.

Lemma update_table_ok p vs t t' : update_table p vs t = Ok t' →
  t' = set_rows ((λ r, if p r then set_values vs r else r) <$> rows t) t ∧ vs ≠ [] ∧
  Forall (λ cv, cv.1 ∈ columns t) vs.
Proof.
  unfold update_table. rewrite bind_ok. intros ([] & H1 & H). apply bind_ok in H as ([] & H2 & [= <-]).
  apply guard_else_ok in H1, H2. apply negb_true_iff, bool_decide_eq_false in H1.
  split_and!; [done | done |]. apply Forall_forall. intros cv Hcv.
  rewrite forallb_forall in H2. specialize (H2 cv). rewrite bool_decide_eq_true in H2. apply H2.
  by apply list_elem_of_In.
Qed.

Lemma update_table_fails p p' vs t e : update_table p vs t = Err e → update_table p' vs t = Err e.
Proof.
  unfold update_table. destruct (guard_else (negb _) _) as [[]|]; [|done].
  simpl. by destruct (guard_else (forallb _ _) _) as [[]|].
Qed.

(** An update that leaves the key column alone keeps the keys. *)
Lemma update_keys (p : Row V → bool) vs (rs : list (Row V)) : key s ∉ vs.*1 →
  row_key s <$> ((λ r, if p r then set_values vs r else r) <$> rs) = row_key s <$> rs.
Proof.
  intros Hk. rewrite <- list_fmap_compose. apply list_fmap_ext. intros i r Hr. simpl.
  destruct (p r); [by apply row_key_set | done].
Qed.

Lemma update_table_keeps p vs t t' : key s ∉ vs.*1 → table_ok t → update_table p vs t = Ok t' → table_ok t'.
Proof.
  intros Hk (Hc & Hnd & Hnn) (-> & _ & Hvs)%update_table_ok. unfold table_ok, set_rows; simpl.
  rewrite update_keys by done. split_and!; [|done|].
  - rewrite Forall_fmap. eapply Forall_impl; [exact Hc|]. intros r Hr. simpl.
    destruct (p r); [|done]. rewrite set_values_keys; rewrite Hr; [done|]. exact Hvs.
  - rewrite Forall_fmap. eapply Forall_impl; [exact Hnn|]. intros r Hr. simpl.
    destruct (p r); [|done]. by rewrite row_key_set.
Qed.

(** ** What a fetch does *)

(** The rows the condition selects and nobody has locked. *)
Definition visible (env : Env) (locked : V → bool) t : list (Row V) :=
  List.filter (λ r, where_ s env r && negb (locked (row_key s r))) (rows t).

Lemma candidates_sub limit env locked t : candidates s limit env locked t ⊆+ visible env locked t.
Proof.
  unfold candidates. transitivity (order_by_key s (visible env locked t)).
  - apply sublist_submseteq, sublist_take.
  - apply Permutation_submseteq, order_by_key_perm.
Qed.

Lemma visible_sub env locked t : visible env locked t ⊆+ rows t.
Proof.
  unfold visible. induction (rows t) as [|r rs IH]; simpl; [done|].
  destruct (_ && _); [by constructor | by apply submseteq_cons].
Qed.

Lemma in_candidates limit env locked t r : r ∈ candidates s limit env locked t →
  r ∈ rows t ∧ where_ s env r = true ∧ locked (row_key s r) = false.
Proof.
  intros H. eapply elem_of_submseteq in H; [|apply candidates_sub].
  unfold visible in H. apply list_elem_of_In, filter_In in H as [H1 H2].
  apply andb_true_iff in H2 as [H2 H3]. split_and!; [by apply list_elem_of_In | done | by apply negb_true_iff].
Qed.

(** In a well-formed table the ids of the candidates select the candidates. *)
Lemma in_ids limit env locked t r : table_ok t → r ∈ rows t →
  sql_in (row_key s r) (row_key s <$> candidates s limit env locked t) = true ↔
  r ∈ candidates s limit env locked t.
Proof.
  intros Hok Hr. rewrite sql_in_spec, list_elem_of_fmap. split.
  - intros [(r' & E & Hr') _]. destruct (in_candidates _ _ _ _ _ Hr') as (Hin & _).
    by rewrite (same_key t r r').
  - intros H. split; [by exists r|]. destruct Hok as (_ & _ & Hnn).
    by eapply Forall_forall in Hnn.
Qed.

Lemma in_ids_false limit env locked t r : table_ok t → r ∈ rows t →
  sql_in (row_key s r) (row_key s <$> candidates s limit env locked t) = false ↔
  r ∉ candidates s limit env locked t.
Proof. intros. rewrite <- in_ids by done. by rewrite not_true_iff_false. Qed.

Lemma selected_perm limit env locked t : table_ok t →
  List.filter (λ r, sql_in (row_key s r) (row_key s <$> candidates s limit env locked t)) (rows t)
  ≡ₚ candidates s limit env locked t.
Proof.
  intros Hok. apply NoDup_Permutation.
  - apply NoDup_ListNoDup, List.NoDup_filter, NoDup_ListNoDup. by apply rows_nodup.
  - eapply submseteq_nodup; [etransitivity; [apply candidates_sub | apply visible_sub]|]. by apply rows_nodup.
  - intros r. rewrite list_elem_of_In, filter_In, <- list_elem_of_In. split.
    + intros [Hr H]. by apply (in_ids _ _ _ _ _ Hok Hr).
    + intros H. destruct (in_candidates _ _ _ _ _ H) as (Hr & _). split; [done|]. by apply in_ids.
Qed.
(** Reading the claimed rows again gives what the claim made of them. *)
Lemma reread_claimed ids (rs : list (Row V)) : key s ∉ (claim s).*1 →
  List.filter (λ r, sql_in (row_key s r) ids)
    ((λ r, if sql_in (row_key s r) ids then set_values (claim s) r else r) <$> rs) =
  set_values (claim s) <$> List.filter (λ r, sql_in (row_key s r) ids) rs.
Proof.
  intros Hk. induction rs as [|r rs IH]; [done|]. cbn [fmap list_fmap List.filter].
  destruct (sql_in (row_key s r) ids) eqn:Er; rewrite ?row_key_set, Er by done; [|done].
  cbn. by f_equal.
Qed.

(** The two ways a fetch returns. *)
Lemma queue_fetch_cases limit env locked t found t' : _fetch s limit env locked t = Ok (found, t') →
  (candidates s limit env locked t = [] ∧ found = [] ∧ t' = t) ∨
  (candidates s limit env locked t ≠ [] ∧
   update_table (λ r, sql_in (row_key s r) (row_key s <$> candidates s limit env locked t)) (claim s) t = Ok t' ∧
   found = order_by_key s (List.filter
     (λ r, sql_in (row_key s r) (row_key s <$> candidates s limit env locked t)) (rows t'))).
Proof.
  unfold _fetch. destruct (candidates s limit env locked t) as [|c cs]; [intros [= <- <-]; by left|].
  intros (t1 & H & [= <- <-])%bind_ok. right. done.
Qed.

Lemma claimed_rows limit env locked t : table_ok t →
  (λ r, if sql_in (row_key s r) (row_key s <$> candidates s limit env locked t)
        then set_values (claim s) r else r) <$> rows t =
  (λ r, if decide (r ∈ candidates s limit env locked t) then set_values (claim s) r else r) <$> rows t.
Proof.
  intros Hok. apply list_fmap_ext. intros i r Hr%list_elem_of_lookup_2.
  destruct (sql_in _ _) eqn:Er.
  - apply in_ids in Er; [|done..]. by rewrite decide_True.
  - apply in_ids_false in Er; [|done..]. by rewrite decide_False.
Qed.

(** A fetch picks, of the rows that are visible, as many as asked for with the
    smallest keys; it claims these and no others, and returns them as claimed. *)
Lemma fetch_picks limit env locked t found t' :
  table_ok t → key s ∉ (claim s).*1 → _fetch s limit env locked t = Ok (found, t') →
  ∃ picked rest, visible env locked t ≡ₚ picked ++ rest ∧
    length picked = limit `min` length (visible env locked t) ∧
    (∀ r r', r ∈ picked → r' ∈ rest → row_le s r r') ∧
    found ≡ₚ set_values (claim s) <$> picked ∧ StronglySorted (row_le s) found ∧
    t' = set_rows ((λ r, if decide (r ∈ picked) then set_values (claim s) r else r) <$> rows t) t.
Proof.
  intros Hok Hk Hf%queue_fetch_cases.
  set (sorted := order_by_key s (visible env locked t)).
  exists (candidates s limit env locked t), (drop limit sorted).
  change (candidates s limit env locked t) with (take limit sorted) at 1 2 3. rewrite take_drop. split_and!.
  - symmetry. apply order_by_key_perm.
  - rewrite length_take. unfold sorted. by rewrite (Permutation_length (order_by_key_perm _)).
  - intros r r' Hr Hr'. pose proof (order_by_key_sorted (visible env locked t)) as Hs.
    fold sorted in Hs. rewrite <- (take_drop limit sorted) in Hs.
    apply StronglySorted_app in Hs as (Hs & _ & _). by apply Hs.
  - destruct Hf as [(-> & -> & _) | (_ & (-> & _ & _)%update_table_ok & ->)]; [done|].
    rewrite order_by_key_perm. unfold set_rows. cbn [rows].
    by rewrite reread_claimed, selected_perm.
  - destruct Hf as [(_ & -> & _) | (_ & _ & ->)]; [constructor | apply order_by_key_sorted].
  - destruct Hf as [(E & _ & ->) | (_ & (-> & _ & _)%update_table_ok & _)].
    + rewrite <- claimed_rows, E by done. destruct t as [cols rs]. unfold set_rows. simpl. f_equal.
      by rewrite list_fmap_id.
    + by rewrite <- claimed_rows.
Qed.

(** SQLite's statement and the transaction of the others agree. *)
Theorem dialects_agree limit env arrange t found t' :
  (∀ l, arrange l ≡ₚ l) → table_ok t → key s ∉ (claim s).*1 →
  _fetch s limit env (λ _, false) t = Ok (found, t') → found ≠ [] →
  ∃ found', _fetch_sqlite s limit env arrange t = Ok (found', t') ∧ found' ≡ₚ found.
Proof.
  intros Harr Hok Hk [(_ & -> & _) | (_ & Hu & ->)]%queue_fetch_cases Hne; [done|].
  unfold _fetch_sqlite. rewrite Hu. simpl. eexists. split; [done|].
  apply update_table_ok in Hu as (-> & _ & _). rewrite Harr, order_by_key_perm. unfold set_rows. cbn [rows].
  by rewrite reread_claimed.
Qed.
End Rows.

(** ** The row in a handler's hands *)

Section Bodies.
Context {V : Type} `{!Cell V} {Env : Type}.

Lemma body_update_row (vs : list (string * V)) (r : Row V) :
  body_update vs (row_body r) = row_body (set_values vs r).
Proof.
  assert (∀ c v (r : Row V), vdict_set c (py v) ((λ kv, (VStr kv.1, kv.2)) <$> (prod_map id py <$> r)) =
            (λ kv, (VStr kv.1, kv.2)) <$> (prod_map id py <$> dict_set c v r)) as Hset.
  { intros c v r'. induction r' as [|[c' v'] r' IH]; simpl; [done|].
    destruct (String.eqb c c'); simpl; [done|]. by f_equal. }
  unfold body_update, row_body, VStrDict, set_values. f_equal. revert r.
  induction vs as [|[c v] vs IH]; intros r; simpl; [done|]. by rewrite Hset, IH.
Qed.

Lemma lookup_hand_out n (ds : list (TableQueueDelivery V)) i d :
  (list_to_map (zip (seq n (length ds)) ds) : gmap nat _) !! i = Some d ↔
  (n ≤ i)%nat ∧ ds !! (i - n)%nat = Some d.
Proof.
  revert n. induction ds as [|d' ds IH]; intros n; simpl.
  - rewrite lookup_empty, lookup_nil. split; [done | by intros [_ ?]].
  - rewrite lookup_insert_Some, IH. split.
    + intros [[<- ->] | (Hne & Hle & Hl)].
      * split; [lia|]. by replace (n - n)%nat with 0%nat by lia.
      * split; [lia|]. by replace (i - n)%nat with (S (i - S n)) by lia.
    + intros [Hle Hl]. destruct (decide (n = i)) as [->|Hne].
      * left. split; [done|]. replace (i - i)%nat with 0%nat in Hl by lia. by injection Hl.
      * right. split_and!; [done | lia |]. by replace (i - n)%nat with (S (i - S n)) in Hl by lia.
Qed.
End Bodies.

Section System.
Context {V : Type} `{!Cell V} {Env : Type}.
Variable s : TableQueueSource V Env.
Implicit Types (r : Row V) (t : sql_table V) (σ : queue_state V).

(** The condition does not select the row, whatever else it reads. *)
Definition hidden r : Prop := ∀ env, where_ s env r = false.

(** The claim hides every row, and nothing writes the key column. *)
Definition claim_hides : Prop :=
  (∀ r, hidden (set_values (claim s) r)) ∧
  (key s ∉ (claim s).*1) ∧ (key s ∉ (ack s).*1) ∧ (key s ∉ (nack s).*1).

(** ... and a handler that updates its row leaves it hidden. *)
Definition careful (a : action V Env) : Prop :=
  match a with
  | UpdateCurrentRow _ vs => (key s ∉ vs.*1) ∧ ∀ r, hidden r → hidden (set_values vs r)
  | _ => True
  end.

(** A live delivery and its row. *)
Definition in_hand t (d : TableQueueDelivery V) : Prop :=
  ∃ r, r ∈ rows t ∧ row_key s r = key_value d ∧ hidden r ∧
       body (envelope d) = row_body r ∧ attempts (envelope d) = 0%Z.

Record inv σ : Prop := {
  inv_table : table_ok s (table σ);
  inv_ids i d : live σ !! i = Some d → (i < next_id σ)%nat;
  inv_excl i j d d' : live σ !! i = Some d → live σ !! j = Some d' → key_value d = key_value d' → i = j;
  inv_hand i d : live σ !! i = Some d → in_hand (table σ) d;
}.

Lemma start_inv t : table_ok s t → inv (start t).
Proof. intros Ht. split; simpl; [done | intros; simplify_map_eq..]. Qed.

(** An update of one row by its key. *)
Lemma update_row_ok k vs t t' : table_ok s t → key s ∉ vs.*1 → update_row s k vs t = Ok t' →
  table_ok s t' ∧
  (∀ r, r ∈ rows t → row_key s r ≠ k → r ∈ rows t') ∧
  (∀ r, r ∈ rows t → row_key s r = k → set_values vs r ∈ rows t') ∧
  (∀ r', r' ∈ rows t' → row_key s r' ≠ k → r' ∈ rows t).
Proof.
  intros Hok Hk. unfold update_row. case_bool_decide as E; [intros [= <-] | intros Hu].
  - subst vs. split_and!; done.
  - split; [by eapply update_table_keeps|]. apply update_table_ok in Hu as (-> & _ & _). simpl.
    setoid_rewrite list_elem_of_fmap. split_and!.
    + intros r Hr Hne. exists r. split; [|done]. by rewrite bool_decide_eq_false_2.
    + intros r Hr <-. exists r. split; [|done]. by rewrite bool_decide_eq_true_2.
    + intros r' (r & -> & Hr) Hne. case_bool_decide as Es; [|done]. by rewrite row_key_set in Hne.
Qed.

Lemma in_hand_other k vs t t' d : table_ok s t → key s ∉ vs.*1 → update_row s k vs t = Ok t' →
  key_value d ≠ k → in_hand t d → in_hand t' d.
Proof.
  intros Hok Hk Hu Hne (r & Hr & Hkey & Hh). destruct (update_row_ok _ _ _ _ Hok Hk Hu) as (_ & Hoth & _).
  exists r. split; [|done]. apply Hoth; congruence.
Qed.

(** Forgetting deliveries keeps the invariant. *)
Lemma inv_fewer σ m : m ⊆ live σ → inv σ → inv (set_live m σ).
Proof.
  intros Hm [Ht Hi He Hh]. split; simpl; [done | intros ??? .. |].
  - eapply Hi, lookup_weaken; eauto.
  - intros. eapply He; [by eapply lookup_weaken.. | done].
  - intros. eapply Hh. by eapply lookup_weaken.
Qed.

Lemma settle_inv i vs σ : key s ∉ vs.*1 → inv σ → inv (settle i (λ k, update_row s k vs) σ).
Proof.
  intros Hk Hσ. unfold settle. destruct (live σ !! i) as [d|] eqn:Hd; [|done].
  destruct (update_row s (key_value d) vs (table σ)) as [t|] eqn:Hu; [|done].
  pose proof (inv_fewer σ (delete i (live σ)) (delete_subseteq _ _) Hσ) as [_ Hi He _].
  destruct (update_row_ok _ _ _ _ (inv_table _ Hσ) Hk Hu) as (Ht & _).
  split; simpl in *; [done.. |]. intros j d' [Hne Hj]%lookup_delete_Some.
  eapply in_hand_other; [apply Hσ | done | exact Hu | | by eapply inv_hand].
  intros E. apply Hne. symmetry. by eapply inv_excl.
Qed.

Lemma update_current_row_inv i vs σ :
  key s ∉ vs.*1 → (∀ r, hidden r → hidden (set_values vs r)) → inv σ → inv (update_current_row s i vs σ).
Proof.
  intros Hk Hhid Hσ. unfold update_current_row. destruct (live σ !! i) as [d|] eqn:Hd; [|done].
  destruct (update_row s (key_value d) vs (table σ)) as [t|] eqn:Hu; [|done].
  destruct (update_row_ok _ _ _ _ (inv_table _ Hσ) Hk Hu) as (Ht & _ & Hset & _). split; simpl; [done | | |].
  - intros j d' [[<- _] | [_ Hj]]%lookup_insert_Some; by eapply inv_ids.
  - intros j1 j2 d1 d2 [[<- <-] | [Hn1 H1]]%lookup_insert_Some [[<- <-] | [Hn2 H2]]%lookup_insert_Some E; simpl in E;
      [done | by eapply inv_excl..].
  - intros j d' [[<- <-] | [Hne Hj]]%lookup_insert_Some.
    + destruct (inv_hand _ Hσ _ _ Hd) as (r & Hr & Hkey & Hh & Hb & Ha).
      exists (set_values vs r). simpl. rewrite row_key_set by done.
      split_and!; [by apply Hset | done | by apply Hhid | by rewrite Hb, body_update_row | done].
    + eapply in_hand_other; [apply Hσ | done | exact Hu | | by eapply inv_hand].
      intros E. apply Hne. symmetry. by eapply inv_excl.
Qed.

Lemma in_hand_out w found σ t i d : live (hand_out s w found σ t) !! i = Some d →
  (∃ r, (next_id σ ≤ i)%nat ∧ found !! (i - next_id σ)%nat = Some r ∧ d = new_delivery s w r) ∨
  live σ !! i = Some d.
Proof.
  unfold hand_out. simpl. rewrite lookup_union_Some_raw. intros [H | [_ H]]; [left | by right].
  rewrite <- (length_fmap (new_delivery s w) found) in H. apply lookup_hand_out in H as [Hle Hl].
  rewrite list_lookup_fmap in Hl. destruct (found !! _) as [r|]; [|done]. injection Hl as <-. by exists r.
Qed.

Lemma hand_out_len w found σ t : next_id (hand_out s w found σ t) = (next_id σ + length found)%nat.
Proof. done. Qed.

(** What a fetch returns: claimed rows that were visible, a key each; rows
    that are not visible stay as they are. *)
Lemma fetched limit env locked t found t' : claim_hides → table_ok s t →
  _fetch s limit env locked t = Ok (found, t') →
  table_ok s t' ∧ NoDup (row_key s <$> found) ∧
  (∀ r', r' ∈ found → r' ∈ rows t' ∧ hidden r' ∧
     ∃ r, r ∈ rows t ∧ where_ s env r = true ∧ row_key s r' = row_key s r) ∧
  (∀ r, r ∈ rows t → where_ s env r = false → r ∈ rows t').
Proof.
  intros (Hhid & Hck & _) Hok Hf. pose proof (queue_fetch_cases _ _ _ _ _ _ _ Hf) as Hcases.
  destruct (fetch_picks s _ _ _ _ _ _ Hok Hck Hf) as (picked & rest & Hvis & _ & _ & Hfound & _ & Ht).
  assert (∀ r, r ∈ picked → r ∈ rows t ∧ where_ s env r = true) as Hpick.
  { intros r Hr. assert (r ∈ visible s env locked t) as Hv by (rewrite Hvis, elem_of_app; by left).
    unfold visible in Hv. apply list_elem_of_In, filter_In in Hv as [H1 [H2 _]%andb_true_iff].
    split; [by apply list_elem_of_In | done]. }
  split_and!.
  - destruct Hcases as [(_ & _ & ->) | (_ & Hu & _)]; [done | by eapply update_table_keeps].
  - rewrite Hfound, <- list_fmap_compose.
    rewrite (list_fmap_ext (row_key s ∘ set_values (claim s)) (row_key s)) by (intros; by apply row_key_set).
    assert (picked ⊆+ rows t) as Hsub.
    { etransitivity; [|apply (visible_sub s env locked)]. rewrite Hvis. by apply submseteq_inserts_r. }
    eapply submseteq_nodup; [by apply fmap_submseteq | apply Hok].
  - intros r' Hr'. rewrite Hfound in Hr'. apply list_elem_of_fmap in Hr' as (r & -> & Hr).
    destruct (Hpick _ Hr) as [Hrow Hw].
    split_and!; [|by apply Hhid | exists r; split_and!; [done.. | by apply row_key_set]].
    rewrite Ht. apply list_elem_of_fmap. exists r. by rewrite decide_True.
  - intros r Hr Hw. rewrite Ht. apply list_elem_of_fmap. exists r. split; [|done].
    rewrite decide_False; [done|]. intros [_ Hw']%Hpick. congruence.
Qed.

Lemma queue_fetch_inv w limit env locked σ σ' : claim_hides → inv σ → fetch s w limit env locked σ = Some σ' → inv σ'.
Proof.
  intros Hcl Hσ. unfold fetch.
  destruct (_fetch s _ env locked (table σ)) as [[found t]|] eqn:Hf; [|by intros [= <-]]. intros [= <-].
  destruct (fetched _ _ _ _ _ _ Hcl (inv_table _ Hσ) Hf) as (Hok & Hnd & Hin & Hrest).
  assert (∀ r' j d, r' ∈ found → live σ !! j = Some d → row_key s r' ≠ key_value d) as Hnew.
  { intros r' j d Hr' Hj E. destruct (Hin _ Hr') as (_ & _ & r & Hr & Hw & Hk).
    destruct (inv_hand _ Hσ _ _ Hj) as (r0 & Hr0 & Hk0 & Hh0 & _).
    assert (r = r0) as -> by (apply (same_key s (table σ)); [apply Hσ | done.. | congruence]). by rewrite Hh0 in Hw. }
  split; [done | | |].
  - intros i d [(r & Hle & Hl%lookup_lt_Some & _) | Hi]%in_hand_out; rewrite hand_out_len; [lia|].
    apply (inv_ids _ Hσ) in Hi. lia.
  - intros i j d d' [(r & Hle & Hl & ->) | Hi]%in_hand_out [(r' & Hle' & Hl' & ->) | Hj]%in_hand_out E; simpl in E.
    + assert (i - next_id σ = j - next_id σ)%nat; [|lia].
      apply (NoDup_lookup _ _ _ (row_key s r) Hnd); rewrite list_lookup_fmap, ?Hl, ?Hl'; simpl; [done | by rewrite E].
    + exfalso. eapply Hnew; [eapply list_elem_of_lookup_2, Hl | exact Hj | done].
    + exfalso. eapply Hnew; [eapply list_elem_of_lookup_2, Hl' | exact Hi | done].
    + by eapply (inv_excl _ Hσ).
  - intros i d [(r & Hle & Hl%list_elem_of_lookup_2 & ->) | Hi]%in_hand_out.
    + destruct (Hin _ Hl) as (Hr & Hh & _). by exists r.
    + destruct (inv_hand _ Hσ _ _ Hi) as (r & Hr & Hk & Hh & Hb). exists r. split; [|done]. by apply Hrest.
Qed.

Lemma insert_inv r σ : insertable s r (table σ) = true → inv σ →
  inv {| table := set_rows (rows (table σ) ++ [r]) (table σ); live := live σ; next_id := next_id σ |}.
Proof.
  intros Hi Hσ. unfold insertable in Hi. rewrite !andb_true_iff, !bool_decide_eq_true in Hi.
  destruct Hi as [[Hc Hn] Hnew]. destruct (inv_table _ Hσ) as (H1 & H2 & H3).
  split; simpl; [|apply Hσ..|].
  - unfold table_ok. simpl. rewrite fmap_app, !Forall_app, !Forall_singleton. split_and!; [done.. | | done | done].
    apply NoDup_app. split_and!; [done | | apply NoDup_singleton].
    intros k Hk ->%list_elem_of_singleton. done.
  - intros i d Hd. destruct (inv_hand _ Hσ _ _ Hd) as (r' & Hr' & Hh). exists r'. split; [|done].
    simpl. rewrite elem_of_app. by left.
Qed.

Lemma queue_step_inv a σ σ' : claim_hides → careful a → inv σ → step s a σ = Some σ' → inv σ'.
Proof.
  intros Hcl Ha Hσ. pose proof Hcl as (Hhid & Hck & Hak & Hnk).
  destruct a as [w limit env locked|i|i [|]|i|i|i|i|i vs|w|r]; simpl; [by apply queue_fetch_inv|..];
    try (case_match eqn:E; [|done]); intros [= <-].
  - by apply settle_inv.
  - destruct Hσ as [Ht Hi He Hh]. split; simpl; [done | | |].
    + intros j d [(<- & d0 & H0 & ->) | [_ H0]]%lookup_alter_Some; by eapply Hi.
    + assert (∀ j d, alter set_sleeping i (live σ) !! j = Some d → ∃ d0, live σ !! j = Some d0 ∧ key_value d = key_value d0) as Hold.
      { intros j d [(<- & d0 & H0 & ->) | [_ H0]]%lookup_alter_Some; eauto. }
      intros j k d d' (d0 & H0 & ->)%Hold (d1 & H1 & ->)%Hold. by apply He.
    + intros j d [(<- & d0 & H0 & ->) | [_ H0]]%lookup_alter_Some; by eapply Hh in H0.
  - by apply settle_inv.
  - by apply settle_inv.
  - apply inv_fewer; [apply delete_subseteq | done].
  - by apply settle_inv.
  - by apply settle_inv.
  - destruct Ha as [Hvs Hkeep]. by apply update_current_row_inv.
  - apply inv_fewer; [apply map_filter_subseteq | done].
  - by apply insert_inv.
Qed.

Lemma queue_run_inv l σ σ' : claim_hides → Forall careful l → inv σ → run s l σ = Some σ' → inv σ'.
Proof.
  intros Hcl. revert σ. induction l as [|a l IH]; intros σ Hl Hσ; simpl; [by intros [= <-]|].
  apply Forall_cons in Hl as [Ha Hl]. intros (σ1 & H1 & H2)%bind_Some.
  eapply IH; [done | by eapply queue_step_inv | exact H2].
Qed.

(** ** What holds in every history *)

(** C22. When every row of the table has a key of its own, the claim hides rows
    from the condition, claims and settlements do not write the key, and handlers neither write the key nor make a row
    they hold match the condition again, a row is in one hand at a time,
    however the workers fetch, settle and die, and the body a handler reads is
    the row the table has, the updates of the handler included. *)
Theorem one_hand t l σ i d :
  claim_hides → Forall careful l → table_ok s t → run s l (start t) = Some σ → live σ !! i = Some d →
  (∃ r, r ∈ rows (table σ) ∧ row_key s r = key_value d ∧ body (envelope d) = row_body r) ∧
  ∀ j d', live σ !! j = Some d' → key_value d' = key_value d → j = i.
Proof.
  intros Hcl Hl Ht Hr Hd. pose proof (queue_run_inv _ _ _ Hcl Hl (start_inv _ Ht) Hr) as Hσ. split.
  - destruct (inv_hand _ Hσ _ _ Hd) as (r & Hin & Hk & _ & Hb & _). by exists r.
  - intros j d' Hj E. by eapply inv_excl.
Qed.

(** How the settlements of a delivery update its row. *)
Definition settlements (i : nat) : list (action V Env * list (string * V)) :=
  [(Ack i, ack s); (Retry i false, nack s); (Slept i, nack s); (FailDelivery i, nack s);
   (ReleaseUnstarted i, nack s)].

Lemma settlement_step a vs i σ σ' : (a, vs) ∈ settlements i → step s a σ = Some σ' →
  σ' = settle i (λ k, update_row s k vs) σ.
Proof.
  unfold settlements. rewrite !elem_of_cons, elem_of_nil.
  by intros [[= -> ->] | [[= -> ->] | [[= -> ->] | [[= -> ->] | [[= -> ->] | []]]]]]; simpl; case_match; intros [= <-].
Qed.

Lemma settlement_columns a vs i : claim_hides → (a, vs) ∈ settlements i → key s ∉ vs.*1.
Proof.
  intros (_ & _ & Ha & Hn). unfold settlements. rewrite !elem_of_cons, elem_of_nil.
  by intros [[= -> ->] | [[= -> ->] | [[= -> ->] | [[= -> ->] | [[= -> ->] | []]]]]].
Qed.

(** A delivery that is acknowledged, retried, failed or released writes the
    configured columns into the row it was read from, and into no other. *)
Theorem settled_as_configured t l σ i d a vs σ' :
  claim_hides → Forall careful l → table_ok s t → run s l (start t) = Some σ → live σ !! i = Some d →
  (a, vs) ∈ settlements i → step s a σ = Some σ' → live σ' !! i = None →
  ∃ r, r ∈ rows (table σ) ∧ body (envelope d) = row_body r ∧ set_values vs r ∈ rows (table σ') ∧
    ∀ r', row_key s r' ≠ row_key s r → r' ∈ rows (table σ') ↔ r' ∈ rows (table σ).
Proof.
  intros Hcl Hl Ht Hr Hd Hset Hstep Hdone. pose proof (queue_run_inv _ _ _ Hcl Hl (start_inv _ Ht) Hr) as Hσ.
  pose proof (settlement_columns _ _ _ Hcl Hset) as Hk. apply (settlement_step _ _ _ _ _ Hset) in Hstep as ->.
  unfold settle in *. rewrite Hd in *. destruct (update_row s (key_value d) vs (table σ)) as [t'|] eqn:Hu; [|congruence].
  destruct (inv_hand _ Hσ _ _ Hd) as (r & Hin & Hkey & _ & Hb & _).
  destruct (update_row_ok _ _ _ _ (inv_table _ Hσ) Hk Hu) as (_ & Hoth & Hown & Hback).
  exists r. simpl. split_and!; [done | done | by apply Hown |]. intros r' Hne. rewrite Hkey in Hne.
  split; [intros H; by apply Hback | intros H; by apply Hoth].
Qed.

(** A row that no worker has and the condition does not select. *)
Definition abandoned (k : V) σ : Prop :=
  (∃ r, r ∈ rows (table σ) ∧ row_key s r = k ∧ hidden r) ∧
  ∀ i d, live σ !! i = Some d → key_value d ≠ k.

Lemma update_abandoned k k' vs m n σ t : key s ∉ vs.*1 → inv σ → abandoned k σ → k' ≠ k →
  update_row s k' vs (table σ) = Ok t → (∀ i d, m !! i = Some d → key_value d ≠ k) →
  abandoned k {| table := t; live := m; next_id := n |}.
Proof.
  intros Hk Hσ [(r & Hr & <- & Hh) _] Hne Hu Hm.
  destruct (update_row_ok _ _ _ _ (inv_table _ Hσ) Hk Hu) as (_ & Hoth & _).
  split; [|done]. exists r. simpl. split_and!; [|done..]. apply Hoth; [done|]. congruence.
Qed.

Lemma settle_abandoned k i vs σ : key s ∉ vs.*1 → inv σ → abandoned k σ →
  abandoned k (settle i (λ k, update_row s k vs) σ).
Proof.
  intros Hk Hσ Hab. unfold settle. destruct (live σ !! i) as [d|] eqn:Hd; [|done].
  destruct (update_row s (key_value d) vs (table σ)) as [t|] eqn:Hu; [|done].
  eapply update_abandoned; eauto; [by eapply Hab|].
  intros j d' [_ Hj]%lookup_delete_Some. by eapply Hab.
Qed.

Lemma fewer_abandoned k σ m : m ⊆ live σ → abandoned k σ → abandoned k (set_live m σ).
Proof. intros Hm [Hr Hl]. split; [done|]. intros i d Hi. eapply Hl, lookup_weaken; eauto. Qed.

Lemma fetch_abandoned k w limit env locked σ σ' : claim_hides → inv σ → abandoned k σ →
  fetch s w limit env locked σ = Some σ' → abandoned k σ'.
Proof.
  intros Hcl Hσ Hab. unfold fetch.
  destruct (_fetch s _ env locked (table σ)) as [[found t]|] eqn:Hf; [|by intros [= <-]]. intros [= <-].
  destruct (fetched _ _ _ _ _ _ Hcl (inv_table _ Hσ) Hf) as (_ & _ & Hin & Hrest).
  destruct Hab as [(r & Hr & Hk & Hh) Hlive]. split.
  - exists r. split_and!; [|done..]. by apply Hrest.
  - intros i d [(r' & _ & Hl%list_elem_of_lookup_2 & ->) | Hi]%in_hand_out; [|by eapply Hlive]. simpl. intros E.
    destruct (Hin _ Hl) as (_ & _ & r0 & Hr0 & Hw & Hk').
    assert (r0 = r) as -> by (apply (same_key s (table σ)); [apply Hσ | done.. | congruence]). by rewrite Hh in Hw.
Qed.

Lemma step_abandoned k a σ σ' : claim_hides → careful a → inv σ → abandoned k σ →
  step s a σ = Some σ' → abandoned k σ'.
Proof.
  intros Hcl Ha Hσ Hab. pose proof Hcl as (Hhid & Hck & Hak & Hnk).
  destruct a as [w limit env locked|i|i [|]|i|i|i|i|i vs|w|r]; simpl; [by apply fetch_abandoned|..];
    try (case_match eqn:E; [|done]); intros [= <-]; try by apply settle_abandoned.
  - destruct Hab as [Hr Hl]. split; [done|]. simpl.
    intros j d [(<- & d0 & H0 & ->) | [_ H0]]%lookup_alter_Some; by apply Hl in H0.
  - apply fewer_abandoned; [apply delete_subseteq | done].
  - destruct Ha as [Hvs Hkeep]. unfold update_current_row.
    destruct (live σ !! i) as [d|] eqn:Hd; [|done].
    destruct (update_row s (key_value d) vs (table σ)) as [t|] eqn:Hu; [|done].
    refine (update_abandoned _ _ _ _ _ _ _ Hvs Hσ Hab _ Hu _); [by eapply Hab|].
    destruct Hab as [_ Hlive].
    intros j d' [[<- <-] | [_ Hj]]%lookup_insert_Some; [exact (Hlive _ _ Hd) | exact (Hlive _ _ Hj)].
  - apply fewer_abandoned; [apply map_filter_subseteq | done].
  - destruct Hab as [(r' & Hr' & Hk) Hl]. split; [|done]. exists r'. split; [|done]. simpl. rewrite elem_of_app. by left.
Qed.

Lemma crash_abandons σ i d : inv σ → live σ !! i = Some d →
  abandoned (key_value d) (set_live (filter (λ p, worker p.2 ≠ worker d) (live σ)) σ).
Proof.
  intros Hσ Hd. destruct (inv_hand _ Hσ _ _ Hd) as (r & Hr & Hk & Hh & _). split; [by exists r|].
  intros j d' [Hj Hw]%map_lookup_filter_Some E. simpl in Hw.
  assert (j = i) as -> by by eapply inv_excl. congruence.
Qed.

(** A row whose worker died stays claimed: no worker is handed it again, for
    there is nothing that takes a claim back. *)
Theorem dead_workers_rows_stay_claimed t l σ i d l' σ1 σ' :
  claim_hides → Forall careful (l ++ l') → table_ok s t → run s l (start t) = Some σ → live σ !! i = Some d →
  step s (Crash (worker d)) σ = Some σ1 → run s l' σ1 = Some σ' →
  (∀ j d', live σ' !! j = Some d' → key_value d' ≠ key_value d) ∧
  ∃ r, r ∈ rows (table σ') ∧ row_key s r = key_value d ∧ ∀ env, where_ s env r = false.
Proof.
  intros Hcl [Hl Hl']%Forall_app Ht Hr Hd Hstep Hr'.
  pose proof (queue_run_inv _ _ _ Hcl Hl (start_inv _ Ht) Hr) as Hσ.
  injection Hstep as Hσ1. pose proof (crash_abandons _ _ _ Hσ Hd) as Hab. rewrite Hσ1 in Hab.
  assert (inv σ1) as Hi1 by (rewrite <- Hσ1; apply inv_fewer; [apply map_filter_subseteq | done]).
  clear Hσ1 Hd Hr Hσ. assert (abandoned (key_value d) σ') as [H1 H2]; [|done].
  revert σ1 Hi1 Hab Hr'. induction l' as [|a l' IH]; intros σ1 Hi1 Hab; simpl; [by intros [= <-]|].
  apply Forall_cons in Hl' as [Ha Hl']. intros (σ2 & H1 & H2)%bind_Some.
  eapply IH; [done | by eapply queue_step_inv | by eapply step_abandoned | exact H2].
Qed.

(** The queue does not count attempts: every delivery of a row is its first,
    so [MaxAttempts] never gives up on it. *)
Theorem retries_never_run_out fpow uniform n delay e f t l σ i d :
  claim_hides → Forall careful l → table_ok s t → run s l (start t) = Some σ → live σ !! i = Some d →
  (2 ≤ n)%Z → resolve_retry_action fpow uniform (PMaxAttempts n delay) (envelope d) e f = Ok (action_retry delay).
Proof.
  intros Hcl Hl Ht Hr Hd Hn. pose proof (queue_run_inv _ _ _ Hcl Hl (start_inv _ Ht) Hr) as Hσ.
  destruct (inv_hand _ Hσ _ _ Hd) as (r & _ & _ & _ & _ & Ha). simpl. unfold max_attempts_on_error. rewrite Ha.
  destruct (0 + 1 <? n)%Z eqn:E; [done|]. apply Z.ltb_ge in E. lia.
Qed.
End System.

(** ** A queue of jobs *)

(** Integer columns. *)
Definition int_cell : Cell (option Z).
Proof.
  refine {| null := None; py := λ v, match v with Some n => VInt n | None => VNone end;
            key_le := λ a b, (default 0 a ≤ default 0 b)%Z |}.
  - intros a b. exact (decide (default 0 a ≤ default 0 b)%Z).
  - intros a b. apply Z.le_ge_cases.
  - intros a b c. apply Z.le_trans.
  - done.
Defined.
#[local] Existing Instance int_cell.

Definition jobs : TableQueueSource (option Z) unit :=
  {| table_name := "jobs"; key := "id";
     where_ := λ _ r, bool_decide (dict_get "status" r = Some (Some 0%Z));
     claim := [("status", Some 9%Z)]; ack := [("status", Some 1%Z)]; nack := [("status", Some 0%Z)];
     batch_size := 100 |}.

Definition job (id status : Z) : Row (option Z) :=
  [("id", Some id); ("status", Some status); ("note", None)].

Definition two_jobs : sql_table (option Z) :=
  {| columns := ["id"; "status"; "note"]; rows := [job 2 0; job 1 0] |}.

Definition nothing_locked : option Z → bool := λ _, false.

Lemma jobs_claim_hides : claim_hides jobs.
Proof.
  split; [|split_and!; by apply (bool_decide_unpack _)].
  intros r env. simpl. apply bool_decide_eq_false. by rewrite dict_get_set_eq.
Qed.

Lemma two_jobs_ok : table_ok jobs two_jobs.
Proof. split_and!; [by repeat constructor | by apply (bool_decide_unpack _) | by repeat constructor]. Qed.

(** Two workers fetch; one writes a note, and its retry sleeps. *)
Definition history : list (action (option Z) unit) :=
  [Fetch 0 1 () nothing_locked; Fetch 1 10 () nothing_locked; UpdateCurrentRow 0 [("note", Some 7%Z)];
   Retry 1 false; Fetch 0 10 () nothing_locked].

Lemma history_careful : Forall (careful jobs) history.
Proof.
  repeat constructor; [by apply (bool_decide_unpack _)|]. intros r Hr env. specialize (Hr env).
  simpl in *. by rewrite dict_get_set_ne.
Qed.

Definition after_history : queue_state (option Z) :=
  Eval vm_compute in default (start two_jobs) (run jobs history (start two_jobs)).

Lemma history_runs : run jobs history (start two_jobs) = Some after_history.
Proof. vm_compute. reflexivity. Qed.

Definition first_delivery : TableQueueDelivery (option Z) :=
  set_body (row_body [("id", Some 1%Z); ("status", Some 9%Z); ("note", Some 7%Z)])
    (new_delivery jobs 0 (job 1 9)).

Lemma first_delivery_live : live after_history !! 0 = Some first_delivery.
Proof. vm_compute. reflexivity. Qed.

(** The second job is delivered again after its retry, as a first attempt. *)
Example second_job_again : live after_history !! 2 = Some (new_delivery jobs 0 (job 2 9)).
Proof. vm_compute. reflexivity. Qed.

Lemma one_hand_witness :
  (∃ r, r ∈ rows (table after_history) ∧ row_key jobs r = Some 1%Z ∧ body (envelope first_delivery) = row_body r) ∧
  ∀ j d', live after_history !! j = Some d' → key_value d' = Some 1%Z → j = 0.
Proof.
  exact (one_hand jobs two_jobs history after_history 0 first_delivery jobs_claim_hides history_careful
           two_jobs_ok history_runs first_delivery_live).
Defined.

Definition after_ack : queue_state (option Z) :=
  Eval vm_compute in default (start two_jobs) (step jobs (Ack 0) after_history).

Lemma settled_as_configured_witness :
  ∃ r, r ∈ rows (table after_history) ∧ body (envelope first_delivery) = row_body r ∧
    set_values (ack jobs) r ∈ rows (table after_ack) ∧
    ∀ r', row_key jobs r' ≠ row_key jobs r → r' ∈ rows (table after_ack) ↔ r' ∈ rows (table after_history).
Proof.
  apply (settled_as_configured jobs two_jobs history after_history 0 first_delivery (Ack 0) (ack jobs) after_ack
           jobs_claim_hides history_careful two_jobs_ok history_runs first_delivery_live);
    [by left | vm_compute; reflexivity | vm_compute; reflexivity].
Defined.

Definition after_crash : queue_state (option Z) :=
  Eval vm_compute in default (start two_jobs) (step jobs (Crash 0) after_history).

Definition polled_after_crash : queue_state (option Z) :=
  Eval vm_compute in default (start two_jobs) (run jobs [Fetch 1 10 () nothing_locked] after_crash).

Lemma dead_workers_rows_stay_claimed_witness :
  (∀ j d', live polled_after_crash !! j = Some d' → key_value d' ≠ Some 1%Z) ∧
  ∃ r, r ∈ rows (table polled_after_crash) ∧ row_key jobs r = Some 1%Z ∧ ∀ env, where_ jobs env r = false.
Proof.
  apply (dead_workers_rows_stay_claimed jobs two_jobs history after_history 0 first_delivery
           [Fetch 1 10 () nothing_locked] after_crash polled_after_crash jobs_claim_hides);
    [apply Forall_app; split; [exact history_careful | by repeat constructor] | exact two_jobs_ok | exact history_runs
    | exact first_delivery_live | vm_compute; reflexivity | vm_compute; reflexivity].
Defined.

Lemma retries_never_run_out_witness :
  resolve_retry_action pow_rep uniform_mid (PMaxAttempts 3 None) (envelope (new_delivery jobs 0 (job 2 9)))
    (value_error "poison") (from_exception (value_error "poison") FK_ERROR) = Ok (action_retry None).
Proof.
  apply (retries_never_run_out jobs pow_rep uniform_mid 3 None _ _ two_jobs history after_history 2 _
           jobs_claim_hides history_careful two_jobs_ok history_runs second_job_again). lia.
Defined.

Lemma dialects_agree_witness : ∃ found' t',
  _fetch_sqlite jobs 1 () reverse two_jobs = Ok (found', t') ∧ found' ≡ₚ [job 1 9].
Proof.
  destruct (dialects_agree jobs 1 () reverse two_jobs [job 1 9]
              {| columns := ["id"; "status"; "note"]; rows := [job 2 0; job 1 9] |}) as (found' & H & Hp).
  - intros l. apply reverse_Permutation.
  - exact two_jobs_ok.
  - by apply (bool_decide_unpack _).
  - vm_compute. reflexivity.
  - done.
  - exists found', {| columns := ["id"; "status"; "note"]; rows := [job 2 0; job 1 9] |}. split; [exact H | exact Hp].
Defined.

(** Without [nack] columns, the default, a retry leaves the row claimed: it is
    neither run again nor failed. *)
Definition jobs_without_nack : TableQueueSource (option Z) unit :=
  {| table_name := "jobs"; key := "id"; where_ := where_ jobs; claim := claim jobs; ack := ack jobs;
     nack := []; batch_size := 100 |}.

Example retry_without_nack_abandons :
  (λ σ, (dom (live σ), rows (table σ))) <$>
    run jobs_without_nack [Fetch 0 1 () nothing_locked; Retry 0 false; Fetch 0 10 () nothing_locked] (start two_jobs)
  = Some ({[1]}, [job 2 9; job 1 9]).
Proof. vm_compute. reflexivity. Qed.
