(* ===== verification/TableSink.v ===== *)
(** * Table sinks ([onestep_sql], [table_sink])

    A sink that writes mappings into a table: [TableSinkUpdatePolicy] and
    [_normalize_update_columns] of [_shared/table_sink_policy.py], the
    constructors and statements of [TableSink] (MySQL, SQLite) and
    [PostgresTableSink].

    A table has columns with defaults, rows, and unique keys, which the
    database checks at the end of a statement; other constraints are not
    modelled.  An expression of [update_expr] is evaluated by the database on
    the row before the statement.  The text [json.dumps] writes and the value
    the database keeps for a text are parameters. *)

From stdpp Require Import base gmap list strings sorting.
From Stdlib Require Import ZArith Lia.
From S2P Require Import Prelude PyFloat Value TableQueue.

(** ** Configuration *)

(** An entry of [update_columns]. *)
Inductive update_entry :=
| EntryName (name : string)
| EntryMapping (items : list (string * value))
| EntryOther.

Inductive policy := OVERWRITE | SKIP_NULL | BACKFILL.

#[global] Instance policy_eq_dec : EqDecision policy.
Proof. solve_decision. Defined.

(** [policy not in _UPDATE_COLUMN_POLICIES]: membership of a value that has no
    hash raises. *)
Definition unhashable (v : value) : bool :=
  match v with VList _ | VDict _ | VSet _ => true | _ => false end.

Definition policy_of (v : value) : result exn policy :=
  if unhashable v then Err (type_error "unhashable type")
  else match v with
       | VStr "overwrite" => Ok OVERWRITE
       | VStr "skip_null" => Ok SKIP_NULL
       | VStr "backfill" => Ok BACKFILL
       | _ => Err (value_error "update_columns policy must be one of 'overwrite', 'skip_null' or 'backfill'")
       end.

Definition sorted_join (names : list string) : string :=
  String.concat ", " (merge_sort String.le names).

(** The name and the policy of an entry. *)
Definition entry_policy (keys : list string) (e : update_entry) : result exn (string * policy) :=
  match e with
  | EntryName name =>
      if String.eqb name "" then Err (value_error "update_columns entries must be non-empty")
      else Ok (name, OVERWRITE)
  | EntryMapping items =>
      let unknown := List.filter (λ k, negb (String.eqb k "name") && negb (String.eqb k "policy")) items.*1 in
      _ ← guard_else (bool_decide (unknown = []))
            (value_error ("unknown update_columns entry keys: " +:+ sorted_join unknown));
      match dict_get "name" items with
      | Some (VStr name) =>
          if String.eqb name "" then Err (value_error "update_columns entry requires a non-empty 'name'")
          else
            p ← policy_of (default (VStr "overwrite") (dict_get "policy" items));
            _ ← guard_else (negb (bool_decide (name ∈ keys)))
                  (value_error ("update_columns policy cannot apply to key column " +:+ name));
            Ok (name, p)
      | _ => Err (value_error "update_columns entry requires a non-empty 'name'")
      end
  | EntryOther => Err (type_error "update_columns entries must be strings or mappings")
  end.

(** The loop of [_normalize_update_columns]; [seen] is [policies] so far. *)
Fixpoint normalize_entries (keys : list string) (entries : list update_entry) (seen : list (string * policy))
    : result exn (list (string * policy)) :=
  match entries with
  | [] => Ok seen
  | e :: entries =>
      np ← entry_policy keys e;
      _ ← guard_else (negb (bool_decide (np.1 ∈ seen.*1))) (value_error ("duplicate update column " +:+ np.1));
      normalize_entries keys entries (seen ++ [np])
  end.

(** [_normalize_update_columns]: the names are those of the policies, in order. *)
Definition _normalize_update_columns (update_columns : option (list update_entry)) (keys : list string)
    (update_expr : list string) : result exn (option (list string) * list (string * policy)) :=
  match update_columns with
  | None => Ok (None, [])
  | Some entries =>
      policies ← normalize_entries keys entries [];
      let conflicting := List.filter (λ c, bool_decide (c ∈ update_expr)) policies.*1 in
      _ ← guard_else (bool_decide (conflicting = []))
            (value_error ("update_columns policy conflicts with update_expr for: " +:+ sorted_join conflicting));
      Ok (Some policies.*1, policies)
  end.

Inductive sink_mode := INSERT | UPSERT | UPDATE.
Inductive json_mode := AUTO | ALWAYS | NEVER.

#[global] Instance sink_mode_eq_dec : EqDecision sink_mode.
Proof. solve_decision. Defined.
#[global] Instance json_mode_eq_dec : EqDecision json_mode.
Proof. solve_decision. Defined.

Definition mode_of (s : string) : result exn sink_mode :=
  match s with
  | "insert" => Ok INSERT | "upsert" => Ok UPSERT | "update" => Ok UPDATE
  | _ => Err (value_error "mode must be one of 'insert', 'upsert' or 'update'")
  end%string.

Definition json_mode_of (s : string) : result exn json_mode :=
  match s with
  | "auto" => Ok AUTO | "always" => Ok ALWAYS | "never" => Ok NEVER
  | _ => Err (value_error "serialize_json must be 'auto', 'always' or 'never'")
  end%string.

Record TableSink := {
  sink_table : string;
  mode : sink_mode;
  keys : list string;
  update_columns : option (list string);
  column_policies : list (string * policy);
  update_expr : list (string * string);
  serialize_json : json_mode;
}.

(** The keys and values of [update_expr] are strings. *)
Definition expr_texts (update_expr : list (value * value)) : result exn (list (string * string)) :=
  mapR (λ kv, match kv with
              | (VStr k, VStr v) => Ok (k, v)
              | _ => Err (type_error "update_expr keys and values must be strings")
              end) update_expr.

Definition expr_names (update_expr : list (value * value)) : list string :=
  omap (λ kv, match kv.1 with VStr k => Some k | _ => None end) update_expr.

Definition check_expr (m : sink_mode) (update_expr : option (list (value * value)))
    : result exn (list (string * string)) :=
  match update_expr with
  | None => Ok []
  | Some items =>
      _ ← guard_else (negb (bool_decide (m = INSERT)))
            (value_error "update_expr only applies to upsert or update mode");
      expr_texts items
  end.

Definition check_not_empty (m : sink_mode) (columns : option (list string)) (expr : list (value * value))
    : result exn unit :=
  guard_else (bool_decide (m = INSERT) || negb (bool_decide (columns = Some [])) || negb (bool_decide (expr = [])))
    (value_error "mode requires update_expr when update_columns is empty").

(** [TableSink.__init__] of the MySQL and SQLite connectors. *)
Definition new_TableSink (table mode_ : string) (keys_ : list string) (columns : option (list update_entry))
    (expr : option (list (value * value))) (json_ : string) : result exn TableSink :=
  m ← mode_of mode_;
  _ ← guard_else (negb (bool_decide (is_Some columns) && bool_decide (m = INSERT)))
        (value_error "update_columns only applies to upsert or update mode");
  np ← _normalize_update_columns columns keys_ (expr_names (default [] expr));
  texts ← check_expr m expr;
  _ ← check_not_empty m np.1 (default [] expr);
  j ← json_mode_of json_;
  Ok {| sink_table := table; mode := m; keys := keys_; update_columns := np.1; column_policies := np.2;
        update_expr := texts; serialize_json := j |}.

(** [PostgresTableSink.__init__]. *)
Definition new_PostgresTableSink (table mode_ : string) (keys_ : list string) (columns : option (list update_entry))
    (expr : option (list (value * value))) (json_ : string) : result exn TableSink :=
  m ← mode_of mode_;
  j ← json_mode_of json_;
  texts ← check_expr m expr;
  np ← _normalize_update_columns columns keys_ (expr_names (default [] expr));
  _ ← check_not_empty m np.1 (default [] expr);
  Ok {| sink_table := table; mode := m; keys := keys_; update_columns := np.1; column_policies := np.2;
        update_expr := texts; serialize_json := j |}.

(** ** Statements *)

Section Sink.
Context {V : Type} `{!Cell V}.
Context (json_dumps : value → result exn string).   (* json.dumps(value, ensure_ascii=False) *)
Context (of_text : string → V).                     (* a text as the value of a column *)
Context (sql_expr : string → Row V → V).            (* an expression on a row *)

(** What [SET] assigns: a value, [coalesce(column, value)], an expression. *)
Inductive assignment := Assign (v : V) | Coalesce (v : V) | Expr (text : string).

Inductive statement :=
| InsertStmt (values : list (string * V))
| UpdateStmt (conditions : list (string * V)) (assigned : list (string * assignment))
| UpsertStmt (values : list (string * V)) (target : option (list string)) (assigned : list (string * assignment)).

(** The metadata SQLAlchemy reads. *)
Record table_info := { info_columns : list string; json_columns : list string }.

Section Build.
Variables (s : TableSink) (info : table_info).

Definition is_null (v : V) : bool := bool_decide (v = null).

Definition policy_for (column : string) : policy := default OVERWRITE (dict_get column (column_policies s)).

Definition is_candidate (column : string) : bool :=
  match update_columns s with
  | Some names => bool_decide (column ∈ names)
  | None => negb (bool_decide (column ∈ keys s))
  end.

Definition add_assigned (c : string) (a : assignment) (r : list (string * assignment) * bool)
    : list (string * assignment) * bool := ((c, a) :: r.1, r.2).

Definition mark_skipped (r : list (string * assignment) * bool) : list (string * assignment) * bool := (r.1, true).

(** The loop over the candidates; the flag is [skipped]. *)
Fixpoint assigned_columns (payload : list (string * V)) : result exn (list (string * assignment) * bool) :=
  match payload with
  | [] => Ok ([], false)
  | (c, v) :: payload =>
      if negb (is_candidate c) then assigned_columns payload
      else match policy_for c with
           | SKIP_NULL => if is_null v then mark_skipped <$> assigned_columns payload
                          else add_assigned c (Assign v) <$> assigned_columns payload
           | BACKFILL =>
               _ ← guard_else (bool_decide (c ∈ info_columns info)) (key_error c);
               add_assigned c (Coalesce v) <$> assigned_columns payload
           | OVERWRITE => add_assigned c (Assign v) <$> assigned_columns payload
           end
  end.

Definition _update_payload (payload : list (string * V)) : result exn (list (string * assignment) * bool) :=
  '(assigned, skipped) ← assigned_columns payload : result exn (list (string * assignment) * bool);
  Ok (foldl (λ d ce, dict_set ce.1 (Expr ce.2) d) assigned (update_expr s), skipped).

(** One item of [_coerce_json_values]. *)
Definition coerce_value (cv : string * V) : result exn (string * V) :=
  let '(c, v) := cv in
  match py v with
  | VList _ | VDict _ =>
      if bool_decide (c ∈ info_columns info) &&
         (bool_decide (serialize_json s = ALWAYS) || negb (bool_decide (c ∈ json_columns info)))
      then text ← json_dumps (py v); Ok (c, of_text text)
      else Ok (c, v)
  | _ => Ok (c, v)
  end.

Definition _coerce_json_values (payload : list (string * V)) : result exn (list (string * V)) :=
  if bool_decide (serialize_json s = NEVER) then Ok payload else mapR coerce_value payload.

Definition missing_keys (payload : list (string * V)) : list string :=
  List.filter (λ k, negb (bool_decide (is_Some (dict_get k payload)))) (keys s).

Definition check_keys_present (payload : list (string * V)) : result exn unit :=
  guard_else (bool_decide (missing_keys payload = []))
    (value_error ("update mode requires keys present in payload: " +:+ String.concat ", " (missing_keys payload))).

(** What remains to be assigned: [None] when the policies skipped everything. *)
Definition checked_update (payload : list (string * V)) : result exn (option (list (string * assignment))) :=
  match _update_payload payload with
  | Err e => Err e
  | Ok ([], true) => Ok None
  | Ok ([], false) => Err (value_error "mode requires at least one update column or update_expr")
  | Ok (assigned, _) => Ok (Some assigned)
  end.

Definition key_conditions (payload : list (string * V)) : result exn (list (string * V)) :=
  mapR (λ k, if bool_decide (k ∈ info_columns info) then Ok (k, default null (dict_get k payload))
             else Err (key_error k)) (keys s).

(** Which database the engine talks to. *)
Inductive dialect := PostgreSQL | MySQLDialect | SQLiteDialect.

Definition upsert_statement (d : dialect) (payload : list (string * V)) (assigned : list (string * assignment))
    : statement :=
  match d with
  | MySQLDialect => UpsertStmt payload None assigned
  | PostgreSQL | SQLiteDialect => UpsertStmt payload (Some (keys s)) assigned
  end.

(** [_build_statement] of the MySQL and SQLite connectors ([d] is then one of
    these two). *)
Definition _build_statement (d : dialect) (payload : list (string * V)) : result exn (option statement) :=
  payload ← _coerce_json_values payload;
  match mode s return result exn (option statement) with
  | INSERT => Ok (Some (InsertStmt payload))
  | UPDATE =>
      _ ← guard_else (negb (bool_decide (keys s = []))) (value_error "update mode requires keys");
      u ← checked_update payload;
      match u with
      | None => Ok None
      | Some assigned =>
          _ ← check_keys_present payload;
          conditions ← key_conditions payload;
          Ok (Some (UpdateStmt conditions assigned))
      end
  | UPSERT =>
      _ ← guard_else (negb (bool_decide (keys s = []))) (value_error "upsert mode requires keys");
      u ← checked_update payload;
      Ok (upsert_statement d payload <$> (u : option _))
  end.

(** [_build_statement] of the PostgreSQL connector ([d] is PostgreSQL or SQLite). *)
Definition _build_statement_postgres (d : dialect) (payload : list (string * V)) : result exn (option statement) :=
  payload ← _coerce_json_values payload;
  match mode s return result exn (option statement) with
  | INSERT => Ok (Some (InsertStmt payload))
  | UPDATE =>
      _ ← guard_else (negb (bool_decide (keys s = []))) (value_error "update mode requires keys");
      _ ← check_keys_present payload;
      u ← checked_update payload;
      match u with
      | None => Ok None
      | Some assigned => conditions ← key_conditions payload; Ok (Some (UpdateStmt conditions assigned))
      end
  | UPSERT =>
      _ ← guard_else (negb (bool_decide (keys s = []))) (value_error "upsert mode requires keys");
      u ← checked_update payload;
      Ok (upsert_statement d payload <$> (u : option _))
  end.
End Build.

(** ** The database *)

Record db_table := {
  info : table_info;
  defaults : list (string * V);
  unique_keys : list (list string);
  contents : list (Row V);
}.

Definition column (c : string) (r : Row V) : V := default null (dict_get c r).

Definition set_contents (rs : list (Row V)) (t : db_table) : db_table :=
  {| info := info t; defaults := defaults t; unique_keys := unique_keys t; contents := rs |}.

(** Rows that a unique key does not allow together. *)
Definition collide (unique : list string) (r r' : Row V) : bool :=
  forallb (λ c, sql_eq (column c r) (column c r')) unique.

Fixpoint no_collision (unique : list string) (rs : list (Row V)) : bool :=
  match rs with
  | [] => true
  | r :: rs => forallb (λ r', negb (collide unique r r')) rs && no_collision unique rs
  end.

Definition checked (t : db_table) : result exn db_table :=
  if forallb (λ u, no_collision u (contents t)) (unique_keys t) then Ok t
  else Err (Exn CException "IntegrityError" "duplicate key value" None).

Definition check_columns (names : list string) (t : db_table) : result exn unit :=
  guard_else (forallb (λ c, bool_decide (c ∈ info_columns (info t))) names)
    (Exn CException "CompileError" "Unconsumed column names" None).

(** The row an [INSERT] makes. *)
Definition inserted_row (values : list (string * V)) (t : db_table) : Row V :=
  (λ c, (c, match dict_get c values with Some v => v | None => default null (dict_get c (defaults t)) end))
    <$> info_columns (info t).

Definition assigned_value (a : assignment) (old : Row V) (c : string) : V :=
  match a with
  | Assign v => v
  | Coalesce v => if is_null (column c old) then v else column c old
  | Expr text => sql_expr text old
  end.

(** [SET ...] on a row. *)
Definition assign (assigned : list (string * assignment)) (r : Row V) : Row V :=
  (λ cv, (cv.1, match dict_get cv.1 assigned with Some a => assigned_value a r cv.1 | None => cv.2 end)) <$> r.

(** [table.columns[key] == value]; SQLAlchemy writes [== None] as [IS NULL]. *)
Definition meets (conditions : list (string * V)) (r : Row V) : bool :=
  forallb (λ cv, bool_decide (column cv.1 r = cv.2)) conditions.

(** The first row that collides with the new one on one of the keys is
    assigned to, or else the new row is added. *)
Fixpoint upsert_rows (targets : list (list string)) (assigned : list (string * assignment)) (new : Row V)
    (rs : list (Row V)) : list (Row V) :=
  match rs with
  | [] => [new]
  | r :: rs => if existsb (λ u, collide u r new) targets then assign assigned r :: rs
               else r :: upsert_rows targets assigned new rs
  end.

Definition exec (st : statement) (t : db_table) : result exn db_table :=
  match st with
  | InsertStmt values =>
      _ ← check_columns values.*1 t;
      checked (set_contents (contents t ++ [inserted_row values t]) t)
  | UpdateStmt conditions assigned =>
      _ ← check_columns assigned.*1 t;
      checked (set_contents ((λ r, if meets conditions r then assign assigned r else r) <$> contents t) t)
  | UpsertStmt values target assigned =>
      _ ← check_columns (values.*1 ++ assigned.*1) t;
      _ ← guard_else (match target with None => true | Some u => existsb (λ u', bool_decide (u ≡ₚ u')) (unique_keys t) end)
            (Exn CException "OperationalError" "no unique constraint matches ON CONFLICT" None);
      checked (set_contents
        (upsert_rows (match target with None => unique_keys t | Some u => [u] end) assigned
           (inserted_row values t) (contents t)) t)
  end.

(** [_send] of the MySQL and SQLite sinks, and of the PostgreSQL sink. *)
Definition _send (s : TableSink) (d : dialect) (payload : list (string * V)) (t : db_table) : result exn db_table :=
  st ← _build_statement s (info t) d payload;
  match st with None => Ok t | Some st => exec st t end.

Definition _send_postgres (s : TableSink) (d : dialect) (payload : list (string * V)) (t : db_table)
    : result exn db_table :=
  st ← _build_statement_postgres s (info t) d payload;
  match st with None => Ok t | Some st => exec st t end.
End Sink.

Arguments assignment : clear implicits.
Arguments statement : clear implicits.
Arguments db_table : clear implicits.
