(* ===== verification/TableSinkTheorems.v ===== *)
(** * What a table sink guarantees

    A sink that upserts or updates by its keys can be sent the same payload
    twice, which is what a source that delivers at least once needs.  A send
    leaves the columns alone that its policies protect.  The constructors of
    the three connectors accept the same configurations but for one. *)

From stdpp Require Import base gmap list strings sorting.
From Stdlib Require Import ZArith Lia.
From S2P Require Import Prelude PyFloat Value Retry TableQueue TableSink TableQueueTheorems.

(** ** The constructors *)

(** C36. The constructors of the MySQL and SQLite connectors and that of the
    PostgreSQL connector check in different orders, but build the same sink
    from the same arguments, except that only PostgreSQL takes update columns
    in insert mode. *)
Theorem constructors_agree table mode_ keys_ columns expr json_ s :
  (is_Some columns → mode_ ≠ "insert"%string) →
  new_TableSink table mode_ keys_ columns expr json_ = Ok s ↔
  new_PostgresTableSink table mode_ keys_ columns expr json_ = Ok s.
Proof.
  intros Hins. unfold new_TableSink, new_PostgresTableSink. rewrite !bind_ok.
  assert (∀ m, mode_of mode_ = Ok m → negb (bool_decide (is_Some columns) && bool_decide (m = INSERT)) = true) as Hm.
  { intros m Hm. apply negb_true_iff, andb_false_iff. destruct (decide (is_Some columns)) as [Hc|Hc].
    - right. apply bool_decide_eq_false. intros ->. apply (Hins Hc). unfold mode_of in Hm.
      by repeat (case_match; try discriminate).
    - left. by apply bool_decide_eq_false. }
  split; intros (m & H1 & H); exists m; (split; [done|]); specialize (Hm _ H1).
  - apply bind_ok in H as ([] & _ & H). apply bind_ok in H as (np & Hnp & H).
    apply bind_ok in H as (texts & Ht & H). apply bind_ok in H as ([] & Hne & H).
    apply bind_ok in H as (j & Hj & H). rewrite Hj. cbn [mbind result_bind]. rewrite Ht. cbn [mbind result_bind].
    rewrite Hnp. cbn [mbind result_bind]. by rewrite Hne.
  - apply bind_ok in H as (j & Hj & H). apply bind_ok in H as (texts & Ht & H).
    apply bind_ok in H as (np & Hnp & H). apply bind_ok in H as ([] & Hne & H).
    rewrite Hm. cbn [guard_else mbind result_bind]. rewrite Hnp. cbn [mbind result_bind].
    rewrite Ht. cbn [mbind result_bind]. rewrite Hne. cbn [mbind result_bind]. by rewrite Hj.
Qed.

(** ** Rows *)

Lemma dict_get_map {A B} (f : string → A → B) c (d : list (string * A)) :
  dict_get c ((λ cv, (cv.1, f cv.1 cv.2)) <$> d) = f c <$> dict_get c d.
Proof.
  induction d as [|[c' v] d IH]; simpl; [done|]. destruct (String.eqb c c') eqn:E; [|done].
  by apply String.eqb_eq in E as ->.
Qed.

Lemma dict_get_none {A} c (d : list (string * A)) : dict_get c d = None ↔ c ∉ d.*1.
Proof.
  induction d as [|[c' v] d IH]; simpl; [set_solver|]. rewrite not_elem_of_cons, <- IH.
  destruct (String.eqb c c') eqn:E; [apply String.eqb_eq in E | apply String.eqb_neq in E]; intuition congruence.
Qed.

Section Rows.
Context {V : Type} `{!Cell V}.
Context (sql_expr : string → Row V → V).
Implicit Types (r : Row V) (c : string) (v : V).

Lemma column_present c r : column c r ≠ null → c ∈ r.*1.
Proof.
  unfold column. intros H. destruct (decide (c ∈ r.*1)) as [Hc|Hc]; [done|].
  by apply dict_get_none in Hc; rewrite Hc in H.
Qed.

Lemma column_assign c asg r :
  column c (assign sql_expr asg r) =
  match dict_get c asg, dict_get c r with
  | Some a, Some _ => assigned_value sql_expr a r c
  | _, _ => column c r
  end.
Proof.
  unfold column at 1, assign. 
  rewrite (dict_get_map (λ c v, match dict_get c asg with Some a => assigned_value sql_expr a r c | None => v end)).
  unfold column. destruct (dict_get c r); simpl; by destruct (dict_get c asg).
Qed.

Lemma column_inserted c values (t : db_table V) v :
  c ∈ info_columns (info t) → dict_get c values = Some v → column c (inserted_row values t) = v.
Proof.
  intros Hc Hv. unfold column, inserted_row.
  assert (∀ cols, c ∈ cols → dict_get c ((λ c, (c, match dict_get c values with
     Some v => v | None => default null (dict_get c (defaults t)) end)) <$> cols) = Some v) as Hcols;
    [|by rewrite Hcols].
  induction cols as [|c' cols IH]; simpl; [by intros ?%elem_of_nil|]. intros [->|H]%elem_of_cons.
  - by rewrite String.eqb_refl, Hv.
  - destruct (String.eqb c c') eqn:E; [|by apply IH]. apply String.eqb_eq in E as <-. by rewrite Hv.
Qed.

(** ** Assigning twice *)

(** Assignments of constants, those of [values]. *)
Definition from_values (values : list (string * V)) (asg : list (string * assignment V)) : Prop :=
  ∀ c a, dict_get c asg = Some a → ∃ v, dict_get c values = Some v ∧ (a = Assign v ∨ a = Coalesce v).

Lemma assign_twice values asg r : from_values values asg →
  assign sql_expr asg (assign sql_expr asg r) = assign sql_expr asg r.
Proof.
  intros Hasg. unfold assign at 1 3. unfold assign at 2. rewrite <- list_fmap_compose.
  apply list_fmap_ext. intros i [c w] Hi%list_elem_of_lookup_2. simpl. f_equal.
  destruct (dict_get c asg) as [a|] eqn:Ha; [|done].
  destruct (Hasg _ _ Ha) as (v & _ & [-> | ->]); simpl; [done|].
  rewrite column_assign, Ha. destruct (dict_get c r) as [w'|] eqn:Hr; simpl.
  - unfold is_null. destruct (decide (column c r = null)) as [E|E].
    + rewrite (bool_decide_eq_true_2 _ E). by case_bool_decide.
    + rewrite (bool_decide_eq_false_2 _ E). by rewrite (bool_decide_eq_false_2 _ E).
  - apply dict_get_none in Hr. exfalso. apply Hr. apply list_elem_of_fmap. by exists (c, w).
Qed.

Lemma assign_inserted values asg (t : db_table V) : from_values values asg →
  assign sql_expr asg (inserted_row values t) = inserted_row values t.
Proof.
  intros Hasg. unfold assign. etransitivity; [|apply list_fmap_id].
  apply list_fmap_ext. intros i [c w] Hi%list_elem_of_lookup_2. simpl.
  destruct (dict_get c asg) as [a|] eqn:Ha; [|done].
  destruct (Hasg _ _ Ha) as (v & Hv & Ev). unfold inserted_row in Hi.
  apply list_elem_of_fmap in Hi as (c' & [= <- ->] & Hc). rewrite Hv. simpl. f_equal.
  destruct Ev as [-> | ->]; simpl; [done|]. rewrite (column_inserted _ _ _ _ Hc Hv). by case_match.
Qed.

(** A row that collides with the new one still does once it was assigned to. *)
Lemma collide_assigned values asg u r (t : db_table V) : from_values values asg →
  r.*1 = info_columns (info t) → collide u r (inserted_row values t) = true →
  collide u (assign sql_expr asg r) (inserted_row values t) = true.
Proof.
  intros Hasg Hcols. unfold collide. rewrite !forallb_forall. intros Hu c Hc. specialize (Hu c Hc).
  unfold sql_eq in *. rewrite andb_true_iff, !bool_decide_eq_true in Hu |- *. destruct Hu as [He Hn].
  assert (column c (assign sql_expr asg r) = column c r) as ->; [|done].
  rewrite column_assign. destruct (dict_get c asg) as [a|] eqn:Ha; [|done].
  destruct (dict_get c r) as [w|] eqn:Hr; [|done].
  destruct (Hasg _ _ Ha) as (v & Hv & [-> | ->]); simpl.
  - rewrite He. symmetry. apply column_inserted; [|done]. rewrite <- Hcols. by apply column_present.
  - unfold is_null. by rewrite bool_decide_eq_false_2.
Qed.

Lemma upsert_twice values asg targets (t : db_table V) rs : from_values values asg →
  Forall (λ r, r.*1 = info_columns (info t)) rs →
  existsb (λ u, collide u (inserted_row values t) (inserted_row values t)) targets = true →
  upsert_rows sql_expr targets asg (inserted_row values t)
    (upsert_rows sql_expr targets asg (inserted_row values t) rs) =
  upsert_rows sql_expr targets asg (inserted_row values t) rs.
Proof.
  intros Hasg Hrs Hself. induction Hrs as [|r rs Hr Hrs IH]; cbn [upsert_rows].
  - rewrite Hself. by rewrite (assign_inserted values).
  - destruct (existsb (λ u, collide u r (inserted_row values t)) targets) eqn:E; cbn [upsert_rows]; [|by rewrite E, IH].
    assert (existsb (λ u, collide u (assign sql_expr asg r) (inserted_row values t)) targets = true) as ->.
    { apply existsb_exists in E as (u & Hu & E). apply existsb_exists. exists u. split; [done|].
      by apply collide_assigned. }
    by rewrite (assign_twice values).
Qed.

Lemma assigned_rows_twice values asg (p : Row V → bool) (rs : list (Row V)) : from_values values asg →
  (λ r, if p r then assign sql_expr asg r else r) <$> ((λ r, if p r then assign sql_expr asg r else r) <$> rs) =
  (λ r, if p r then assign sql_expr asg r else r) <$> rs.
Proof.
  intros Hasg. rewrite <- list_fmap_compose. apply list_fmap_ext. intros i r _. simpl.
  destruct (p r) eqn:E; [|by rewrite E]. case_match; [|done]. by apply (assign_twice values).
Qed.
End Rows.

(** ** Statements *)

Section Sends.
Context {V : Type} `{!Cell V}.
Context (json_dumps : value → result exn string) (of_text : string → V) (sql_expr : string → Row V → V).
Implicit Types (payload : list (string * V)) (t : db_table V) (st : statement V).

(** A value [_coerce_json_values] leaves alone. *)
Definition scalar (v : V) : bool := match py v with VList _ | VDict _ => false | _ => true end.

Lemma coerce_get s info payload payload' c v : scalar v = true →
  _coerce_json_values json_dumps of_text s info payload = Ok payload' →
  dict_get c payload = Some v → dict_get c payload' = Some v.
Proof.
  intros Hv. unfold _coerce_json_values. case_bool_decide; [by intros [= <-]|].
  revert payload'. induction payload as [|[c' v'] payload IH]; intros payload'; simpl; [done|].
  rewrite bind_ok. intros ([c1 v1] & H1 & H2). apply bind_ok in H2 as (rest & H2 & [= <-]).
  assert (c1 = c') as ->.
  { unfold coerce_value in H1. revert H1. case_match; try (intros [= <- <-]; done);
      (case_match; [rewrite bind_ok; by intros (? & _ & [= <- <-]) | by intros [= <- <-]]). }
  simpl. destruct (String.eqb c c') eqn:E; [|by apply IH]. intros [= ->]. f_equal.
  unfold coerce_value in H1. unfold scalar in Hv. by destruct (py v); simplify_eq.
Qed.

(** What the policy of a column makes of a payload value. *)
Definition by_policy (s : TableSink) (c : string) (v : V) (a : assignment V) : Prop :=
  match policy_for s c with
  | OVERWRITE => a = Assign v
  | SKIP_NULL => a = Assign v ∧ v ≠ null
  | BACKFILL => a = Coalesce v
  end.

Lemma assigned_spec s info payload asg skipped : NoDup payload.*1 →
  assigned_columns s info payload = Ok (asg, skipped) →
  ∀ c a, dict_get c asg = Some a → is_candidate s c = true ∧ ∃ v, dict_get c payload = Some v ∧ by_policy s c v a.
Proof.
  revert asg skipped. induction payload as [|[c v] payload IH]; intros asg skipped Hnd; simpl.
  { by intros [= <- <-]. }
  apply NoDup_cons in Hnd as [Hc%dict_get_none Hnd]. simpl in Hc. specialize (λ asg sk, IH asg sk Hnd).
  assert (∀ asg sk, assigned_columns s info payload = Ok (asg, sk) → ∀ c' a, dict_get c' asg = Some a →
    is_candidate s c' = true ∧ ∃ v', dict_get c' ((c, v) :: payload) = Some v' ∧ by_policy s c' v' a) as Hold.
  { intros asg' sk' H' c' a Ha. destruct (IH _ _ H' _ _ Ha) as (H1 & v' & Hv' & Hp). split; [done|].
    exists v'. split; [|done]. simpl. destruct (String.eqb c' c) eqn:E; [|done].
    apply String.eqb_eq in E as ->. congruence. }
  simpl in Hold. destruct (is_candidate s c) eqn:Hcand; simpl; [|by apply Hold].
  assert (∀ a r, by_policy s c v a → assigned_columns s info payload = Ok r → ∀ c' a',
    dict_get c' ((c, a) :: r.1) = Some a' →
    is_candidate s c' = true ∧ ∃ v', (if String.eqb c' c then Some v else dict_get c' payload) = Some v' ∧ by_policy s c' v' a')
    as Hnew.
  { intros a [asg' sk'] Hp Hr c' a'. simpl. destruct (String.eqb c' c) eqn:E.
    - apply String.eqb_eq in E as ->. intros [= <-]. split; [done|]. by exists v.
    - intros Ha. destruct (Hold _ _ Hr _ _ Ha) as (H1 & v' & Hv' & Hp'). rewrite E in Hv'. by split; [|exists v']. }
  unfold by_policy in Hnew at 1. destruct (policy_for s c) eqn:Hpol.
  - destruct (assigned_columns s info payload) as [r|] eqn:Hr; [|done]. intros [= <- <-]. by apply (Hnew _ r).
  - destruct (assigned_columns s info payload) as [[asg' sk']|] eqn:Hr; [|by case_match].
    unfold is_null. case_bool_decide as Hn; intros [= <- <-]; [by apply (Hold _ sk') | by apply (Hnew _ (asg', sk'))].
  - rewrite bind_ok. intros ([] & _ & H). destruct (assigned_columns s info payload) as [r|] eqn:Hr; [|done].
    injection H as <- <-. by apply (Hnew _ r).
Qed.

Lemma assigned_from s info payload asg skipped : NoDup payload.*1 →
  assigned_columns s info payload = Ok (asg, skipped) → from_values payload asg.
Proof.
  intros Hnd H c a Ha. destruct (assigned_spec _ _ _ _ _ Hnd H _ _ Ha) as (_ & v & Hv & Hp).
  exists v. split; [done|]. unfold by_policy in Hp. case_match; [by left | by left; destruct Hp | by right].
Qed.

Lemma coerce_keys s info payload payload' :
  _coerce_json_values json_dumps of_text s info payload = Ok payload' → payload'.*1 = payload.*1.
Proof.
  unfold _coerce_json_values. case_bool_decide; [by intros [= <-]|]. intros Hmap%mapR_ok_Forall2.
  induction Hmap as [|[c v] [c' v'] l l' H1 H2 IH]; simpl; [done|]. f_equal; [|exact IH].
  unfold coerce_value in H1. revert H1. case_match; try (by intros [= <- <-]);
    (case_match; [rewrite bind_ok; by intros (? & _ & [= <- <-]) | by intros [= <- <-]]).
Qed.

(** What PostgreSQL's builder returns, the other one returns. *)
Lemma postgres_statement s info d payload r :
  _build_statement_postgres json_dumps of_text s info d payload = Ok r →
  _build_statement json_dumps of_text s info d payload = Ok r.
Proof.
  unfold _build_statement_postgres, _build_statement. rewrite !bind_ok. intros (p & Hp & H). exists p. split; [done|].
  destruct (mode s); [done | done |]. apply bind_ok in H as ([] & Hk & H). rewrite Hk. cbn [mbind result_bind].
  apply bind_ok in H as ([] & Hpresent & H). apply bind_ok in H as (u & Hu & H). rewrite Hu. cbn [mbind result_bind].
  destruct u as [asg|]; [|done]. rewrite Hpresent. exact H.
Qed.

(** The statement of a sink without expressions. *)
Inductive plain_statement (s : TableSink) (d : dialect) (payload : list (string * V)) : statement V → Prop :=
| plain_update conditions asg : mode s = UPDATE → from_values payload asg →
    plain_statement s d payload (UpdateStmt conditions asg)
| plain_upsert asg : mode s = UPSERT → from_values payload asg →
    plain_statement s d payload (upsert_statement s d payload asg).

Lemma checked_update_plain s info payload asg : update_expr s = [] → NoDup payload.*1 →
  checked_update s info payload = Ok (Some asg) → from_values payload asg.
Proof.
  intros He Hnd. unfold checked_update, _update_payload. rewrite He.
  destruct (assigned_columns s info payload) as [[asg' sk]|] eqn:Ha; [|done]. cbn.
  destruct asg' as [|x asg']; [by destruct sk|]. intros [= <-]. by eapply assigned_from.
Qed.

Lemma build_plain s info d payload st : update_expr s = [] → mode s ≠ INSERT → NoDup payload.*1 →
  _build_statement json_dumps of_text s info d payload = Ok (Some st) →
  ∃ payload', _coerce_json_values json_dumps of_text s info payload = Ok payload' ∧ plain_statement s d payload' st.
Proof.
  intros He Hm Hnd. unfold _build_statement. rewrite bind_ok. intros (p & Hp & H). exists p. split; [done|].
  assert (NoDup p.*1) as Hnd' by by rewrite (coerce_keys _ _ _ _ Hp).
  destruct (mode s) eqn:Em; [done | |]; apply bind_ok in H as ([] & _ & H); apply bind_ok in H as (u & Hu & H).
  - destruct u as [asg|]; [|done]. injection H as <-. apply plain_upsert; [done|]. by eapply checked_update_plain.
  - destruct u as [asg|]; [|done]. apply bind_ok in H as ([] & _ & H). apply bind_ok in H as (conds & _ & [= <-]).
    apply plain_update; [done|]. by eapply checked_update_plain.
Qed.

Lemma checked_ok t t' : checked t = Ok t' → t' = t ∧ checked t = Ok t.
Proof. unfold checked. case_match; [|done]. intros [= <-]. done. Qed.

(** The rows have the columns of the table. *)
Definition rows_ok t : Prop := Forall (λ r, r.*1 = info_columns (info t)) (contents t).

(** The payload gives each key a value, and the keys of the sink are a unique key. *)
Definition keyed (s : TableSink) payload t : Prop :=
  (∀ c, c ∈ keys s → ∃ v, dict_get c payload = Some v ∧ v ≠ null ∧ scalar v = true) ∧
  ∃ u, u ∈ unique_keys t ∧ u ≡ₚ keys s.

Lemma self_collision (values : list (string * V)) t u : (∀ c, c ∈ u → c ∈ info_columns (info t)) →
  (∀ c, c ∈ u → ∃ v, dict_get c values = Some v ∧ v ≠ null) →
  collide u (inserted_row values t) (inserted_row values t) = true.
Proof.
  intros Hi Hu. unfold collide. apply forallb_forall. intros c Hc%list_elem_of_In.
  destruct (Hu c Hc) as (v & Hv & Hn). rewrite (column_inserted _ _ _ _ (Hi c Hc) Hv).
  unfold sql_eq. by rewrite !bool_decide_eq_true_2.
Qed.

Lemma exec_plain_twice s d payload payload' t t1 st : rows_ok t → keyed s payload t →
  _coerce_json_values json_dumps of_text s (info t) payload = Ok payload' → plain_statement s d payload' st →
  exec sql_expr st t = Ok t1 → exec sql_expr st t1 = Ok t1.
Proof.
  intros Hrows [Hkeys (u0 & Hu0 & Hperm)] Hco [conds asg Em Hfrom | asg Em Hfrom].
  - simpl. rewrite bind_ok. intros ([] & Hcols & [-> Hch]%checked_ok). unfold check_columns in *. cbn [info set_contents] in *.
    rewrite Hcols. cbn [mbind result_bind]. cbn [contents set_contents]. rewrite (assigned_rows_twice _ payload') by done.
    exact Hch.
  - assert (∀ c, c ∈ keys s → ∃ v, dict_get c payload' = Some v ∧ v ≠ null) as Hkeys'.
    { intros c Hc. destruct (Hkeys c Hc) as (v & Hv & Hn & Hs). exists v. split; [|done]. by eapply coerce_get. }
    assert (∃ target, upsert_statement s d payload' asg = UpsertStmt payload' target asg ∧
      (target = None ∨ target = Some (keys s))) as (target & -> & Htarget) by (destruct d; eauto).
    cbn [exec]. rewrite bind_ok. intros ([] & Hcols & H). apply bind_ok in H as ([] & Ht & [-> Hch]%checked_ok).
    unfold check_columns in *. cbn [info set_contents unique_keys contents] in *. rewrite Hcols, Ht. cbn [mbind result_bind].
    apply guard_else_ok in Hcols. rewrite forallb_forall in Hcols. change (inserted_row payload' (set_contents ?x t)) with (inserted_row payload' t).
    rewrite (upsert_twice _ payload'); [exact Hch | done | done |].
    assert (∀ u, u ≡ₚ keys s → collide u (inserted_row payload' t) (inserted_row payload' t) = true) as Hself.
    { intros u Hp. apply self_collision.
      - intros c Hc. rewrite Hp in Hc. destruct (Hkeys' c Hc) as (v & Hv & _).
        assert (bool_decide (c ∈ info_columns (info t)) = true) as Hb%bool_decide_eq_true; [|done].
        apply Hcols, list_elem_of_In, elem_of_app. left. apply list_elem_of_fmap. exists (c, v). split; [done|].
        by apply dict_get_in.
      - intros c Hc. rewrite Hp in Hc. by apply Hkeys'. }
    apply existsb_exists. destruct Htarget as [-> | ->].
    + exists u0. split; [by apply list_elem_of_In | by apply Hself].
    + exists (keys s). split; [by left | by apply Hself].
Qed.

(** C23. When the payload gives every key of the sink a scalar other than null
    and these keys are a unique key of the table, sending it twice to an upsert
    or update sink without expressions leaves the table as sending it once: a
    source may deliver it again. *)
Theorem send_twice s d payload t t1 :
  update_expr s = [] → mode s ≠ INSERT → NoDup payload.*1 → rows_ok t → keyed s payload t →
  (_send json_dumps of_text sql_expr s d payload t = Ok t1 →
   _send json_dumps of_text sql_expr s d payload t1 = Ok t1) ∧
  (_send_postgres json_dumps of_text sql_expr s d payload t = Ok t1 →
   _send_postgres json_dumps of_text sql_expr s d payload t1 = Ok t1).
Proof.
  intros He Hm Hnd Hrows Hkeyed.
  assert (∀ st, exec sql_expr st t = Ok t1 → info t1 = info t) as Hinfo.
  { intros [] H; simpl in H; repeat (apply bind_ok in H as ([] & _ & H)); by apply checked_ok in H as [-> _]. }
  assert (∀ st, _build_statement json_dumps of_text s (info t) d payload = Ok (Some st) →
            exec sql_expr st t = Ok t1 → exec sql_expr st t1 = Ok t1) as Htwice.
  { intros st (p & Hp & Hst)%build_plain; [|done..]. by eapply exec_plain_twice. }
  unfold _send, _send_postgres. split; intros (st & Hst & Hsend)%bind_ok; destruct st as [st|]; simplify_eq.
  - rewrite (Hinfo _ Hsend), Hst. by apply Htwice.
  - by rewrite Hst.
  - rewrite (Hinfo _ Hsend), Hst. apply Htwice; [by apply postgres_statement | done].
  - by rewrite Hst.
Qed.

(** ** Protected columns *)

(** A column of a row that a send must leave alone: no expression is given for
    it, and it is not to be updated, not in the payload, null in the payload
    under [skip_null], or has a value under [backfill]. *)
Definition protected (s : TableSink) payload (r : Row V) (c : string) : Prop :=
  dict_get c (update_expr s) = None ∧
  (is_candidate s c = false ∨ dict_get c payload = None ∨
   (policy_for s c = SKIP_NULL ∧ dict_get c payload = Some null) ∨
   (policy_for s c = BACKFILL ∧ column c r ≠ null)).

Lemma exprs_get c (exprs : list (string * string)) (asg : list (string * assignment V)) :
  dict_get c exprs = None → dict_get c (foldl (λ d ce, dict_set ce.1 (Expr ce.2) d) asg exprs) = dict_get c asg.
Proof.
  revert asg. induction exprs as [|[c' e] exprs IH]; intros asg; simpl; [done|].
  destruct (String.eqb c c') eqn:E; [done|]. intros H. rewrite IH by done.
  apply dict_get_set_ne. apply String.eqb_neq in E. congruence.
Qed.

Lemma assign_protected s info payload asg skipped r c : NoDup payload.*1 →
  _update_payload s info payload = Ok (asg, skipped) → protected s payload r c →
  column c (assign sql_expr asg r) = column c r.
Proof.
  intros Hnd Hu [Hexpr Hprot]. unfold _update_payload in Hu.
  apply bind_ok in Hu as ([asg0 sk] & Ha & [= <- <-]). rewrite column_assign, exprs_get by done.
  destruct (dict_get c asg0) as [a|] eqn:Hget; [|done]. destruct (dict_get c r) as [w|]; [|done].
  destruct (assigned_spec _ _ _ _ _ Hnd Ha _ _ Hget) as (Hcand & v & Hv & Hp). unfold by_policy in Hp.
  destruct Hprot as [Hno | [Hno | [[Hpol Hnull] | [Hpol Hnn]]]].
  - congruence.
  - congruence.
  - rewrite Hpol in Hp. destruct Hp as [_ Hp]. congruence.
  - rewrite Hpol in Hp. subst a. simpl. unfold is_null. by rewrite bool_decide_eq_false_2.
Qed.

Lemma upsert_rows_protected (P : Row V → Row V → Prop) targets asg new rs :
  (∀ r, P r r) → (∀ r, P r (assign sql_expr asg r)) →
  ∃ rs1 extra, upsert_rows sql_expr targets asg new rs = rs1 ++ extra ∧ Forall2 P rs rs1.
Proof.
  intros Hrefl Hasg. induction rs as [|r rs (rs1 & extra & E & Hrs)]; simpl; [by exists [], [new]|].
  destruct (existsb _ targets).
  - exists (assign sql_expr asg r :: rs), []. rewrite app_nil_r. split; [done|]. constructor; [done|].
    by apply Forall_Forall2_diag, Forall_true.
  - exists (r :: rs1), extra. rewrite E. split; [done|]. by constructor.
Qed.

(** A send leaves every protected column of every row as it was, and takes
    no row away. *)
Theorem protected_columns_kept s d payload payload' t t1 :
  NoDup payload.*1 → _coerce_json_values json_dumps of_text s (info t) payload = Ok payload' →
  _send json_dumps of_text sql_expr s d payload t = Ok t1 ∨ _send_postgres json_dumps of_text sql_expr s d payload t = Ok t1 →
  ∃ rs extra, contents t1 = rs ++ extra ∧
    Forall2 (λ r r1, ∀ c, protected s payload' r c → column c r1 = column c r) (contents t) rs.
Proof.
  intros Hnd Hco Hsend.
  assert (_send json_dumps of_text sql_expr s d payload t = Ok t1) as H.
  { destruct Hsend as [H|H]; [done|]. unfold _send, _send_postgres in *. apply bind_ok in H as (st & Hst & H).
    by rewrite (postgres_statement _ _ _ _ _ Hst). }
  clear Hsend. unfold _send in H. apply bind_ok in H as (st & Hst & H).
  assert (NoDup payload'.*1) as Hnd' by by rewrite (coerce_keys _ _ _ _ Hco).
  set (P := λ r r1, ∀ c, protected s payload' r c → column c r1 = column c r).
  assert (∀ rs, Forall2 P rs rs) as Hsame by (intros rs; by apply Forall_Forall2_diag, Forall_true).
  unfold _build_statement in Hst. rewrite Hco in Hst. cbn [mbind result_bind] in Hst.
  assert (∀ asg, checked_update s (info t) payload' = Ok (Some asg) → ∀ r, P r (assign sql_expr asg r)) as Hasg.
  { intros asg Hu r c Hp. unfold checked_update in Hu.
    destruct (_update_payload s (info t) payload') as [[asg0 sk]|] eqn:E; [|done].
    eapply assign_protected; [done | | done]. rewrite E. by destruct asg0, sk; simplify_eq. }
  destruct (mode s).
  - injection Hst as <-. simpl in H. apply bind_ok in H as ([] & _ & [-> _]%checked_ok).
    exists (contents t), [inserted_row payload' t]. by split.
  - apply bind_ok in Hst as ([] & _ & Hst). apply bind_ok in Hst as (u & Hu & Hst).
    destruct u as [asg|]; injection Hst as <-; [|injection H as <-; exists (contents t), []; by rewrite app_nil_r].
    assert (∃ target, upsert_statement s d payload' asg = UpsertStmt payload' target asg) as (target & E) by (destruct d; eauto).
    rewrite E in H. simpl in H. apply bind_ok in H as ([] & _ & H). apply bind_ok in H as ([] & _ & [-> _]%checked_ok).
    apply upsert_rows_protected; [done | by apply Hasg].
  - apply bind_ok in Hst as ([] & _ & Hst). apply bind_ok in Hst as (u & Hu & Hst).
    destruct u as [asg|]; [|injection Hst as <-; injection H as <-; exists (contents t), []; by rewrite app_nil_r].
    apply bind_ok in Hst as ([] & _ & Hst). apply bind_ok in Hst as (conds & _ & [= <-]).
    simpl in H. apply bind_ok in H as ([] & _ & [-> _]%checked_ok). simpl.
    eexists _, []. rewrite app_nil_r. split; [done|]. apply Forall2_fmap_r, Forall_Forall2_diag, Forall_true.
    intros r. simpl. case_match; [by apply Hasg | done].
Qed.
End Sends.

(** ** A table of people *)

#[local] Existing Instance int_cell.

Definition people : db_table (option Z) :=
  {| info := {| info_columns := ["id"; "email"; "note"]; json_columns := [] |}; defaults := [];
     unique_keys := [["id"]; ["email"]];
     contents := [[("id", Some 1%Z); ("email", Some 5%Z); ("note", Some 8%Z)];
                  [("id", Some 2%Z); ("email", Some 6%Z); ("note", None)]] |}.

Definition no_json : value → result exn string := λ _, Err (type_error "not serializable").
Definition no_text : string → option Z := λ _, None.
Definition no_expr : string → Row (option Z) → option Z := λ _ _, None.

(** [update_columns=["email", {"name": "note", "policy": "backfill"}]]. *)
Definition person_sink : TableSink :=
  Eval vm_compute in
  match new_TableSink "people" "upsert" ["id"]
          (Some [EntryName "email"; EntryMapping [("name", VStr "note"); ("policy", VStr "backfill")]]) None "auto"
  with Ok s => s | Err _ => {| sink_table := ""; mode := INSERT; keys := []; update_columns := None;
                                column_policies := []; update_expr := []; serialize_json := NEVER |} end.

Lemma constructors_agree_witness :
  new_TableSink "people" "upsert" ["id"]
    (Some [EntryName "email"; EntryMapping [("name", VStr "note"); ("policy", VStr "backfill")]]) None "auto"
  = Ok person_sink.
Proof.
  apply (constructors_agree "people" "upsert" ["id"] _ None "auto" person_sink); [done | vm_compute; reflexivity].
Defined.

(** Only PostgreSQL takes update columns in insert mode. *)
Example insert_with_update_columns :
  is_ok (new_TableSink "people" "insert" ["id"] (Some [EntryName "email"]) None "auto") = false ∧
  is_ok (new_PostgresTableSink "people" "insert" ["id"] (Some [EntryName "email"]) None "auto") = true.
Proof. split; vm_compute; reflexivity. Qed.

(** A plain column with an expression is refused. *)
Example plain_column_with_expression :
  new_TableSink "people" "upsert" ["id"] (Some [EntryName "email"; EntryName "note"])
    (Some [(VStr "note", VStr "NOW(6)")]) "auto" =
  Err (value_error "update_columns policy conflicts with update_expr for: note").
Proof. vm_compute. reflexivity. Qed.

Definition second_person : list (string * option Z) := [("id", Some 2%Z); ("email", Some 7%Z); ("note", Some 9%Z)].

Definition people_after : db_table (option Z) :=
  Eval vm_compute in match _send no_json no_text no_expr person_sink PostgreSQL second_person people with
                     | Ok t => t | Err _ => people end.

Lemma people_sent : _send no_json no_text no_expr person_sink PostgreSQL second_person people = Ok people_after.
Proof. vm_compute. reflexivity. Qed.

Lemma send_twice_witness :
  _send no_json no_text no_expr person_sink PostgreSQL second_person people_after = Ok people_after.
Proof.
  apply (send_twice no_json no_text no_expr person_sink PostgreSQL second_person people people_after);
    [reflexivity | discriminate | by apply (bool_decide_unpack _) | by repeat constructor | | exact people_sent].
  split; [|exists ["id"]; split; [by left | done]].
  intros c ->%list_elem_of_singleton. exists (Some 2%Z). by split_and!.
Defined.

Lemma protected_columns_kept_witness :
  ∃ rs extra, contents people_after = rs ++ extra ∧
    Forall2 (λ r r1, ∀ c, protected person_sink second_person r c → column c r1 = column c r) (contents people) rs.
Proof.
  apply (protected_columns_kept no_json no_text no_expr person_sink PostgreSQL second_person second_person people);
    [by apply (bool_decide_unpack _) | vm_compute; reflexivity | left; exact people_sent].
Defined.

(** The note of the first person is protected by [backfill], that of the second
    is not. *)
Example notes_after : column "note" <$> contents people_after = [Some 8%Z; Some 9%Z].
Proof. vm_compute. reflexivity. Qed.

(** In MySQL an upsert updates the row that any unique key finds: a new person
    with the email of the first changes the note of the first. *)
Definition overwriting_sink : TableSink :=
  {| sink_table := "people"; mode := UPSERT; keys := ["id"]; update_columns := None; column_policies := [];
     update_expr := []; serialize_json := AUTO |}.

Definition third_person : list (string * option Z) := [("id", Some 3%Z); ("email", Some 5%Z); ("note", Some 4%Z)].

Example mysql_upsert_hits_other_row :
  (contents <$> _send no_json no_text no_expr overwriting_sink MySQLDialect third_person people) =
  Ok [[("id", Some 1%Z); ("email", Some 5%Z); ("note", Some 4%Z)];
      [("id", Some 2%Z); ("email", Some 6%Z); ("note", None)]] ∧
  is_ok (_send no_json no_text no_expr overwriting_sink PostgreSQL third_person people) = false.
Proof. split; vm_compute; reflexivity. Qed.

(** A new row is not inserted when [skip_null] leaves nothing to update. *)
Definition skipping_sink : TableSink :=
  {| sink_table := "people"; mode := UPSERT; keys := ["id"]; update_columns := Some ["note"];
     column_policies := [("note", SKIP_NULL)]; update_expr := []; serialize_json := AUTO |}.

Example skip_null_skips_new_row :
  _send no_json no_text no_expr skipping_sink PostgreSQL
    [("id", Some 4%Z); ("email", Some 40%Z); ("note", None)] people = Ok people.
Proof. vm_compute. reflexivity. Qed.
