(* ===== verification/Json.v ===== *)
(** * Python values as JSON documents

    [json.dumps] and [json.loads] on the values of [Value], up to the text: a
    JSON text is the document it denotes. *)

From stdpp Require Import base option list strings numbers.
From Stdlib Require Import ZArith Ascii.
From S2P Require Import Prelude PyFloat Value Codec.

Section Dumps.
Context (float_text : float64 → string).          (* float.__repr__ *)
Context (default_ : value → result exn json).      (* the [default] of [json.dumps] *)

(** The text of a key. *)
Definition json_key (k : value) : result exn string :=
  match k with
  | VStr s => Ok s
  | VBool b => Ok (if b then "true" else "false")%string
  | VInt n => Ok (str_of_Z n)
  | VFloat x => Ok (float_text x)
  | VNone => Ok "null"%string
  | _ => Err (type_error "keys must be str, int, float, bool or None")
  end.

(** [json.dumps]. *)
Fixpoint json_of_value (v : value) : result exn json :=
  let elements := fix elements vs : result exn (list json) :=
    match vs with
    | [] => Ok []
    | v :: vs => j ← json_of_value v; js ← elements vs; Ok (j :: js)
    end in
  let members := fix members items : result exn (list (string * json)) :=
    match items with
    | [] => Ok []
    | (k, v) :: items => t ← json_key k; j ← json_of_value v; js ← members items; Ok ((t, j) :: js)
    end in
  match v with
  | VNone => Ok JNull
  | VBool b => Ok (JBool b)
  | VInt n => Ok (JInt n)
  | VFloat x => Ok (JFloat x)
  | VStr s => Ok (JStr s)
  | VList vs | VTuple vs | VNamedTuple _ _ _ vs => JList <$> elements vs
  | VDict items => JObj <$> members items
  | v => default_ v
  end.
End Dumps.

(** Without a [default], what has no JSON form raises. *)
Definition not_serializable (v : value) : result exn json :=
  Err (type_error ("Object of type " +:+ _type_name v +:+ " is not JSON serializable")).

(** [json.loads]; of two members with the same key the later value stays. *)
Fixpoint value_of_json (j : json) : value :=
  let elements := fix elements js :=
    match js with [] => [] | j :: js => value_of_json j :: elements js end in
  let members := fix members (d : list (string * value)) items :=
    match items with
    | [] => d
    | (k, j) :: items => members (dict_set k (value_of_json j) d) items
    end in
  match j with
  | JNull => VNone
  | JBool b => VBool b
  | JInt n => VInt n
  | JFloat x => VFloat x
  | JStr s => VStr s
  | JList js => VList (elements js)
  | JObj items => VStrDict (members [] items)
  end.

(** The values JSON keeps: lists and dicts with string keys of such values. *)
Definition item_keys (items : list (value * value)) : list string :=
  omap (λ kv, match kv.1 with VStr s => Some s | _ => None end) items.

Definition is_str (v : value) : bool := match v with VStr _ => true | _ => false end.

Fixpoint plain (v : value) : bool :=
  match v with
  | VNone | VBool _ | VInt _ | VFloat _ | VStr _ => true
  | VList vs => forallb plain vs
  | VDict items => forallb (λ kv, is_str kv.1 && plain kv.2) items && bool_decide (NoDup (item_keys items))
  | _ => false
  end.

Lemma dict_set_fresh {V} k (v : V) d : k ∉ d.*1 → dict_set k v d = d ++ [(k, v)].
Proof.
  induction d as [|[k' v'] d IH]; simpl; [done|]. intros [Hne Hk]%not_elem_of_cons.
  destruct (String.eqb k k') eqn:E; [by apply String.eqb_eq in E|]. by rewrite IH.
Qed.

Lemma vstrdict_app d d' : VStrDict (d ++ d') = VDict (((λ kv, (VStr kv.1, kv.2)) <$> d) ++ ((λ kv, (VStr kv.1, kv.2)) <$> d')).
Proof. unfold VStrDict. by rewrite fmap_app. Qed.

Section RoundTrip.
Context (float_text : float64 → string) (default_ : value → result exn json).
Abbreviation dumps := (json_of_value float_text default_).

(** The members of a dict with distinct string keys are read back one by one. *)
Lemma members_back items :
  Forall (λ kv, is_str kv.1 = true ∧ ∃ j, dumps kv.2 = Ok j ∧ value_of_json j = kv.2) items →
  NoDup (item_keys items) →
  ∃ js, dumps (VDict items) = Ok (JObj js) ∧ ∀ d, (∀ k, k ∈ item_keys items → k ∉ d.*1) →
    VStrDict ((fix members (d : list (string * value)) items :=
      match items with
      | [] => d
      | (k, j) :: items => members (dict_set k (value_of_json j) d) items
      end) d js) = VDict (((λ kv, (VStr kv.1, kv.2)) <$> d) ++ items).
Proof.
  induction 1 as [|[k v] items [Hk (j & Hj & Hv)] _ IH]; simpl.
  - intros _. exists []. split; [done|]. intros d _. by rewrite app_nil_r.
  - destruct k; simplify_eq/=. intros Hnd0. pose proof (NoDup_cons_1_1 _ _ Hnd0) as Hs. pose proof (NoDup_cons_1_2 _ _ Hnd0) as Hnd. destruct (IH Hnd) as (js & Hjs & Hback).
    simpl in Hjs. rewrite Hj. cbn [mbind result_bind].
    destruct ((fix members items := match items with [] => Ok [] | (k, v) :: items =>
      t ← json_key float_text k; j ← dumps v; js ← members items; Ok ((t, j) :: js) end) items) as [js'|] eqn:E; [|done].
    injection Hjs as <-. exists ((s, j) :: js'). split; [done|]. intros d Hd.
    rewrite dict_set_fresh by (apply Hd; by left). rewrite Hback.
    + rewrite fmap_app, <- app_assoc. done.
    + intros k' Hk'. rewrite fmap_app, elem_of_app. intros [Hin | ->%list_elem_of_singleton]; [|done].
      apply (Hd k'); [by right | done].
Qed.

Lemma plain_round_trip v : plain v = true → ∃ j, dumps v = Ok j ∧ value_of_json j = v.
Proof.
  induction v as [| | | | | | | | | | | | | |vs IH|items IH|] using value_rect_strong; simpl; try done; try (intros _; by eexists).
  - intros Hvs. assert (∃ js, dumps (VList vs) = Ok (JList js) ∧ value_of_json (JList js) = VList vs) as (js & H & E);
      [|by exists (JList js)].
    induction IH as [|v vs Hv IH IHvs]; [by exists []|]. simpl in Hvs. apply andb_true_iff in Hvs as [H1 H2].
    destruct (Hv H1) as (j & Hj & Ej). destruct (IHvs H2) as (js & Hjs & Ejs). exists (j :: js). simpl in *.
    rewrite Hj. cbn [mbind result_bind]. 
    destruct ((fix elements vs := match vs with [] => Ok [] | v :: vs =>
      j ← dumps v; js ← elements vs; Ok (j :: js) end) vs) as [js'|]; [|done].
    injection Hjs as <-. split; [done|]. injection Ejs as ->. by rewrite Ej.
  - intros [Hkv Hnd%bool_decide_eq_true]%andb_true_iff. rewrite forallb_forall in Hkv.
    destruct (members_back items) as (js & Hjs & Hback); [|done|].
    + apply list.Forall_forall. intros [k v] Hin. pose proof (proj1 (list.Forall_forall _ _) IH _ Hin) as [_ IH'].
      apply list_elem_of_In in Hin. apply Hkv, andb_true_iff in Hin as [Hk Hp]. split; [done|]. by apply IH'.
    + exists (JObj js). split; [exact Hjs|]. simpl. rewrite Hback; [done|]. intros k _. by apply not_elem_of_nil.
Qed.
End RoundTrip.
