(* ===== verification/StateStore.v ===== *)
(** * State and cursor stores ([state.py], [onestep_sql/_shared/state_sqlalchemy.py])

    What a task keeps between runs: the protocol [StateStore] with its laws,
    [InMemoryStateStore], [SQLAlchemyStateStore] and [SQLAlchemyCursorStore],
    and [ScopedState], which is verified against the protocol.

    The table of a SQL store is its rows by key, with the JSON document of the
    value column; [save] is one transaction.  The column [updated_at], the
    creation of the table and the engine are left out. *)

From stdpp Require Import base option gmap list strings.
From Stdlib Require Import ZArith Ascii.
From S2P Require Import Prelude PyFloat Value Texts Codec Json.

(** ** The protocol *)

(** [None] is the value of a key that is not there. *)
Class StateStore (S : Type) := {
  load : string → S → result exn value;
  save : string → value → S → result exn S;
  delete : string → S → S;
}.

(** What is read is what was written, as the store keeps it; keys do not
    touch each other.  [kept v v']: a saved [v] is loaded as [v']. *)
Class StateStoreLaws (S : Type) `{StateStore S} (kept : value → value → Prop) := {
  load_saved k v s s' : save k v s = Ok s' → ∃ v', load k s' = Ok v' ∧ kept v v';
  load_saved_other k k' v s s' : k ≠ k' → save k v s = Ok s' → load k' s' = load k' s;
  load_deleted k s : load k (delete k s) = Ok VNone;
  load_deleted_other k k' s : k ≠ k' → load k' (delete k s) = load k' s;
}.

(** ** [InMemoryStateStore] *)

Definition InMemoryStateStore := gmap string value.

#[global] Instance memory_store : StateStore InMemoryStateStore := {
  load := λ k (m : gmap string value), Ok (default VNone (m !! k));
  save := λ k v (m : gmap string value), Ok (<[k := v]> m : gmap string value);
  delete := λ k (m : gmap string value), base.delete k m;
}.

#[global] Instance memory_store_laws : StateStoreLaws InMemoryStateStore (=).
Proof.
  split; simpl.
  - intros k v s s' [= <-]. exists v. by rewrite lookup_insert_eq.
  - intros k k' v s s' Hne [= <-]. by rewrite lookup_insert_ne.
  - intros k s. by rewrite lookup_delete_eq.
  - intros k k' s Hne. by rewrite lookup_delete_ne.
Qed.

(** ** [SQLAlchemyStateStore] *)

Section SQL.
Context (float_text : float64 → string).

Record SQLAlchemyStateStore := { rows : gmap string json }.

Definition sql_load (k : string) (s : SQLAlchemyStateStore) : result exn value :=
  match rows s !! k with
  | None => Ok VNone
  | Some j => Ok (value_of_json j)
  end.

(** [select], then [insert] or [update]. *)
Definition sql_save (k : string) (v : value) (s : SQLAlchemyStateStore) : result exn SQLAlchemyStateStore :=
  j ← json_of_value float_text not_serializable v;
  Ok {| rows := <[k := j]> (rows s) |}.

Definition sql_delete (k : string) (s : SQLAlchemyStateStore) : SQLAlchemyStateStore :=
  {| rows := base.delete k (rows s) |}.

#[global] Instance sql_store : StateStore SQLAlchemyStateStore := {
  load := sql_load; save := sql_save; delete := sql_delete;
}.

(** A SQL store keeps what [json.loads] makes of what [json.dumps] wrote. *)
Definition kept_as_json (v v' : value) : Prop :=
  ∃ j, json_of_value float_text not_serializable v = Ok j ∧ v' = value_of_json j.

#[global] Instance sql_store_laws : StateStoreLaws SQLAlchemyStateStore kept_as_json.
Proof.
  split; simpl; unfold sql_load, sql_save, sql_delete.
  - intros k v s s' (j & Hj & [= <-])%bind_ok. simpl. rewrite lookup_insert_eq. exists (value_of_json j). split; [done | by exists j].
  - intros k k' v s s' Hne (j & _ & [= <-])%bind_ok. simpl. by rewrite lookup_insert_ne.
  - intros k s. simpl. by rewrite lookup_delete_eq.
  - intros k k' s Hne. simpl. by rewrite lookup_delete_ne.
Qed.

(** ** [SQLAlchemyCursorStore] *)

Definition _DATETIME_TYPE_KEY : string := "__onestep_cursor_type__".
Definition _DATETIME_TYPE_VALUE : string := "datetime".
Definition _DATETIME_VALUE_KEY : string := "value".

Definition _encode_cursor_component (v : value) : value :=
  match v with
  | VDatetime d => VStrDict [(_DATETIME_TYPE_KEY, VStr _DATETIME_TYPE_VALUE); (_DATETIME_VALUE_KEY, VStr (dt_isoformat d))]
  | v => v
  end.

(** The text of a component that is tagged as a [datetime]. *)
Definition tagged_text (v : value) : option string :=
  match v with
  | VDict items =>
      if bool_decide (length items = 2) then
        match vdict_get _DATETIME_TYPE_KEY items, vdict_get _DATETIME_VALUE_KEY items with
        | Some (VStr t), Some (VStr text) => if String.eqb t _DATETIME_TYPE_VALUE then Some text else None
        | _, _ => None
        end
      else None
  | _ => None
  end.

Definition _decode_cursor_component (v : value) : result exn value :=
  match tagged_text v with
  | None => Ok v
  | Some text =>
      match fromisoformat text with
      | Some d => Ok (VDatetime d)
      | None => Err (value_error ("Invalid isoformat string: '" +:+ text +:+ "'"))
      end
  end.

Record SQLAlchemyCursorStore := { state_store : SQLAlchemyStateStore }.

Definition cursor_load (k : string) (s : SQLAlchemyCursorStore) : result exn value :=
  v ← sql_load k (state_store s);
  match v with
  | VList vs => VList <$> mapR _decode_cursor_component vs
  | v => Ok v
  end.

Definition cursor_save (k : string) (v : value) (s : SQLAlchemyCursorStore) : result exn SQLAlchemyCursorStore :=
  let v := match v with
           | VList vs | VTuple vs | VNamedTuple _ _ _ vs => VList (_encode_cursor_component <$> vs)
           | v => v
           end in
  s' ← sql_save k v (state_store s);
  Ok {| state_store := s' |}.

#[global] Instance cursor_store : StateStore SQLAlchemyCursorStore := {
  load := cursor_load; save := cursor_save;
  delete k s := {| state_store := sql_delete k (state_store s) |};
}.

(** The components a cursor may have: JSON values that do not look like a
    tagged datetime, and datetimes outside the repeated hour. *)
Definition cursor_component (v : value) : bool :=
  match v with
  | VDatetime d => valid_datetime d && negb (dt_fold d)
  | v => plain v && bool_decide (tagged_text v = None)
  end.

Lemma component_encoded v : cursor_component v = true → plain (_encode_cursor_component v) = true.
Proof. destruct v; try (by intros [? _]%andb_true_iff); done. Qed.

Lemma component_round_trip v : cursor_component v = true →
  _decode_cursor_component (_encode_cursor_component v) = Ok v.
Proof.
  assert (∀ v, tagged_text v = None → _decode_cursor_component v = Ok v) as Hplain.
  { intros v' H. unfold _decode_cursor_component. by rewrite H. }
  intros H. destruct v as [| | | | | |d| | | | | | | | |items|]; try (apply Hplain; reflexivity).
  - unfold cursor_component in H. apply andb_true_iff in H as [Hd Hf%negb_true_iff].
    unfold _decode_cursor_component. change (tagged_text _) with (Some (dt_isoformat d)). cbv beta iota.
    rewrite (fromisoformat_isoformat d Hd). destruct d as [w off f]. cbn [dt_fold] in Hf. by rewrite Hf.
  - apply Hplain. unfold cursor_component in H. by apply andb_true_iff in H as [_ H%bool_decide_eq_true].
Qed.

Lemma cursor_saved k v vs j s : v = VList vs ∨ v = VTuple vs →
  json_of_value float_text not_serializable (VList (_encode_cursor_component <$> vs)) = Ok j →
  cursor_save k v s = Ok {| state_store := {| rows := <[k := j]> (rows (state_store s)) |} |}.
Proof.
  intros Hv Hj. unfold cursor_save, sql_save.
  assert (∀ v', v' = VList (_encode_cursor_component <$> vs) →
    (s' ← (j ← json_of_value float_text not_serializable v';
           Ok {| rows := <[k := j]> (rows (state_store s)) |}); Ok {| state_store := s' |}) =
    Ok {| state_store := {| rows := <[k := j]> (rows (state_store s)) |} |}) as H.
  { intros v' ->. by rewrite Hj. }
  destruct Hv as [-> | ->]; by apply H.
Qed.


End SQL.

(** ** [ScopedState] *)

Section Scoped.
Context {S : Type} `{StateStore S}.

Record ScopedState := { _namespace : string }.

Definition _qualify (sc : ScopedState) (k : string) : result exn string :=
  if String.eqb k "" then Err (value_error "state key must not be empty")
  else Ok (_namespace sc +:+ ":" +:+ k).

Definition scope (sc : ScopedState) (namespace : string) : result exn ScopedState :=
  q ← _qualify sc namespace; Ok {| _namespace := q |}.

Definition scoped_load (sc : ScopedState) (k : string) (s : S) : result exn value :=
  q ← _qualify sc k; load q s.

Definition scoped_get (sc : ScopedState) (k : string) (dflt : value) (s : S) : result exn value :=
  v ← scoped_load sc k s;
  Ok (match v with VNone => dflt | v => v end).

Definition scoped_save (sc : ScopedState) (k : string) (v : value) (s : S) : result exn S :=
  q ← _qualify sc k; save q v s.

Definition scoped_set (sc : ScopedState) (k : string) (v : value) (s : S) : result exn S := scoped_save sc k v s.

Definition scoped_delete (sc : ScopedState) (k : string) (s : S) : result exn S :=
  q ← _qualify sc k; Ok (delete q s).

(** [TaskContext.state]. *)
Definition task_state (app task : string) : ScopedState := {| _namespace := app +:+ ":" +:+ task |}.

(** ** What a task reads *)

Context {kept : value → value → Prop} `{!StateStoreLaws S kept}.

(** What a task stored under a key is what it gets, as the store keeps it;
    the default only stands for a missing or [None] value. *)
Theorem scoped_get_set sc k v dflt s s' : scoped_set sc k v s = Ok s' →
  ∃ v', kept v v' ∧ scoped_get sc k dflt s' = Ok (match v' with VNone => dflt | v' => v' end).
Proof.
  unfold scoped_set, scoped_save, scoped_get, scoped_load. intros (q & Hq & Hs)%bind_ok.
  destruct (load_saved _ _ _ _ Hs) as (v' & Hl & Hk). exists v'. split; [done|].
  rewrite Hq. cbn [mbind result_bind]. by rewrite Hl.
Qed.

Lemma append_inj_l (a b c : string) : a +:+ b = a +:+ c → b = c.
Proof. induction a as [|x a IH]; simpl; [done|]. intros [= E]. by apply IH. Qed.

Lemma append_assoc (a b c : string) : (a +:+ b) +:+ c = a +:+ (b +:+ c).
Proof. induction a as [|x a IH]; [reflexivity|].
  change (String x ((a +:+ b) +:+ c) = String x (a +:+ (b +:+ c))). by rewrite IH.
Qed.

(** A name without a colon ends where the first colon is. *)
Lemma colon_split (a b k k' : string) : contains_char ":" a = false → contains_char ":" b = false →
  a +:+ ":" +:+ k = b +:+ ":" +:+ k' → a = b ∧ k = k'.
Proof.
  revert b. induction a as [|x a IH]; intros [|y b]; simpl; unfold contains_char; simpl.
  - intros _ _ E. apply (append_inj_l ":") in E. done.
  - intros _ [Hy _]%orb_false_iff [= <- _]. discriminate Hy.
  - intros [Hx _]%orb_false_iff _ [= -> _]. discriminate Hx.
  - intros [_ Ha]%orb_false_iff [_ Hb]%orb_false_iff [= -> E].
    destruct (IH b Ha Hb E) as [-> ->]. done.
Qed.

Lemma task_keys_apart app t t' k k' q : contains_char ":" t = false → contains_char ":" t' = false → t ≠ t' →
  _qualify (task_state app t) k = Ok q → _qualify (task_state app t') k' ≠ Ok q.
Proof.
  intros Ht Ht' Hne. unfold _qualify. do 2 (case_match; [done|]). simpl. intros [= <-] [= E]. apply Hne.
  rewrite !append_assoc in E. apply append_inj_l in E.
  apply (append_inj_l ":") in E. by apply colon_split in E as [-> _].
Qed.

(** Tasks of an app whose names have no colon do not see each other's state:
    what one saves or deletes changes nothing another loads. *)
Theorem task_states_apart app t t' k k' v s s' :
  contains_char ":" t = false → contains_char ":" t' = false → t ≠ t' →
  scoped_save (task_state app t) k v s = Ok s' ∨ scoped_delete (task_state app t) k s = Ok s' →
  scoped_load (task_state app t') k' s' = scoped_load (task_state app t') k' s.
Proof.
  intros Ht Ht' Hne Hs. unfold scoped_load.
  destruct (_qualify (task_state app t') k') as [q'|] eqn:Hq'; [|done]. cbn [mbind result_bind].
  assert (∀ q, _qualify (task_state app t) k = Ok q → q ≠ q') as Hqq.
  { intros q Hq ->. exact (task_keys_apart _ _ _ _ _ _ Ht Ht' Hne Hq Hq'). }
  destruct Hs as [(q & Hq & Hs)%bind_ok | (q & Hq & [= <-])%bind_ok].
  - exact (load_saved_other _ _ _ _ _ (Hqq _ Hq) Hs).
  - exact (load_deleted_other _ _ _ (Hqq _ Hq)).
Qed.
End Scoped.

(** A colon in a name joins the states of two tasks. *)
Example colon_joins_states :
  _qualify (task_state "app" "a") "b:k" = _qualify (task_state "app" "a:b") "k".
Proof. vm_compute. reflexivity. Qed.

(** ** Instances *)

Definition no_float_text : float64 → string := λ _, "0.0"%string.


(** Cursors that are accepted and do not come back. *)
Definition saved_and_loaded (v : value) : result exn value :=
  s ← cursor_save no_float_text "k" (VList [v]) {| state_store := {| rows := ∅ |} |};
  cursor_load "k" s.

Example tagged_dict_not_loaded :
  saved_and_loaded (VDict [(VStr "__onestep_cursor_type__", VStr "datetime"); (VStr "value", VStr "x")])
  = Err (value_error "Invalid isoformat string: 'x'").
Proof. vm_compute. reflexivity. Qed.

Example tagged_dict_changed :
  saved_and_loaded (VDict [(VStr "__onestep_cursor_type__", VStr "datetime");
                           (VStr "value", VStr (dt_isoformat (PyDatetime 0 (Some 0%Z) false)))])
  = Ok (VList [VDatetime (PyDatetime 0 (Some 0%Z) false)]).
Proof. vm_compute. reflexivity. Qed.

Example fold_lost :
  saved_and_loaded (VDatetime (PyDatetime 0 (Some 0%Z) true))
  = Ok (VList [VDatetime (PyDatetime 0 (Some 0%Z) false)]).
Proof. vm_compute. reflexivity. Qed.

(** A cursor over a [NUMERIC] column cannot be saved. *)
Example decimal_cursor_not_saved :
  is_ok (cursor_save no_float_text "k" (VTuple [VDecimal "1.50"; VInt 7]) {| state_store := {| rows := ∅ |} |}) = false.
Proof. vm_compute. reflexivity. Qed.

Definition state_after_set : InMemoryStateStore :=
  Eval vm_compute in match scoped_set (task_state "app" "t") "n" (VInt 3) (∅ : InMemoryStateStore) with
                     | Ok s => s | Err _ => ∅ end.

Lemma scoped_get_set_witness :
  ∃ v', VInt 3 = v' ∧
    scoped_get (task_state "app" "t") "n" (VInt 0) state_after_set = Ok (match v' with VNone => VInt 0 | v' => v' end).
Proof.
  apply (scoped_get_set (kept := eq) (task_state "app" "t") "n" (VInt 3) (VInt 0) (∅ : InMemoryStateStore)).
  vm_compute. reflexivity.
Defined.

Lemma task_states_apart_witness :
  scoped_load (task_state "app" "u") "n" state_after_set = scoped_load (task_state "app" "u") "n" (∅ : InMemoryStateStore).
Proof.
  apply (task_states_apart (kept := eq) "app" "t" "u" "n" "n" (VInt 3));
    [reflexivity | reflexivity | discriminate | left; vm_compute; reflexivity].
Defined.
