(* ===== verification/MemoryQueue.v ===== *)
(** * The in-memory queue and the wire format ([connectors/memory.py], [connectors/codec.py])

    [MemoryQueue] with the runner of a task and the producers around it, as a
    transition system: a bounded FIFO, deliveries in flight, and the puts that
    wait for room, those of retries among them.  [encode_envelope] and
    [decode_envelope], up to the text of JSON documents.

    A queue lives in one event loop; a timeout of [fetch] takes nothing. *)

From stdpp Require Import base option gmap list strings.
From Stdlib Require Import ZArith Lia.
From S2P Require Import Prelude PyFloat Value Retry Codec Json.

(** ** [MemoryQueue] *)

(** Where a put waits: a producer's [send], or the [retry] of a delivery. *)
Inductive putter := Producer | Retrying.

#[global] Instance putter_eq_dec : EqDecision putter.
Proof. solve_decision. Defined.

(** A delivery in flight: its handler runs, or its [retry] sleeps or waits for room. *)
Inductive flight :=
| Handling (e : Envelope)
| Sleeping (e : Envelope)
| Putting (e : Envelope).

Definition flight_envelope (f : flight) : Envelope :=
  match f with Handling e | Sleeping e | Putting e => e end.

Record MemoryQueue := {
  items : list Envelope;
  inflight : gmap nat flight;
  producers : gmap nat Envelope;   (** sends that wait for room *)
  released : list Envelope;        (** released unstarted, which puts nothing back *)
  settled : list Envelope;
  next_id : nat;
}.

Section Queue.
Variables (maxsize batch_size : Z) (concurrency : nat).

Definition full (q : MemoryQueue) : bool := (0 <? maxsize)%Z && (maxsize <=? Z.of_nat (length (items q)))%Z.

(** [MemoryDelivery.retry]'s new envelope. *)
Definition retried (e : Envelope) : Envelope :=
  {| body := body e; meta := meta e; attempts := (attempts e + 1)%Z |}.

Definition fetch_limit (limit : nat) : nat := Z.to_nat (Z.max 1 (Z.min (Z.of_nat limit) batch_size)).

Definition set_items (l : list Envelope) (q : MemoryQueue) : MemoryQueue :=
  {| items := l; inflight := inflight q; producers := producers q; released := released q; settled := settled q;
     next_id := next_id q |}.

Definition set_inflight (m : gmap nat flight) (q : MemoryQueue) : MemoryQueue :=
  {| items := items q; inflight := m; producers := producers q; released := released q; settled := settled q;
     next_id := next_id q |}.

(** What happens next: a producer sends; its put is done; the runner fetches
    and starts handlers, or releases what it fetched because it is to stop; a
    delivery is acknowledged or failed, retried with or without a delay,
    woken; the put of a retry is done. *)
Inductive action :=
| Send (e : Envelope)
| ProducerPut (i : nat)
| Fetch
| FetchReleased
| Settle (i : nat)
| Retry (i : nat) (delayed : bool)
| Slept (i : nat)
| RetryPut (i : nat).

Definition room (q : MemoryQueue) : nat := concurrency - size (inflight q).

Definition put (e : Envelope) (q : MemoryQueue) : MemoryQueue := set_items (items q ++ [e]) q.

Definition step (a : action) (q : MemoryQueue) : option MemoryQueue :=
  match a with
  | Send e =>
      Some {| items := items q; inflight := inflight q; producers := <[next_id q := e]> (producers q);
              released := released q; settled := settled q; next_id := S (next_id q) |}
  | ProducerPut i =>
      match producers q !! i with
      | Some e =>
          if full q then None
          else Some {| items := items q ++ [e]; inflight := inflight q; producers := delete i (producers q);
                       released := released q; settled := settled q; next_id := next_id q |}
      | None => None
      end
  | Fetch =>
      if bool_decide (room q = 0) then None
      else let l := take (fetch_limit (room q)) (items q) in
           Some {| items := drop (fetch_limit (room q)) (items q); inflight := map_seq (next_id q) (Handling <$> l) ∪ inflight q;
                   producers := producers q; released := released q; settled := settled q;
                   next_id := next_id q + length l |}
  | FetchReleased =>
      if bool_decide (room q = 0) then None
      else let l := take (fetch_limit (room q)) (items q) in
           Some {| items := drop (fetch_limit (room q)) (items q); inflight := inflight q; producers := producers q;
                   released := released q ++ l; settled := settled q; next_id := next_id q |}
  | Settle i =>
      match inflight q !! i with
      | Some (Handling e) =>
          Some {| items := items q; inflight := delete i (inflight q); producers := producers q; released := released q;
                  settled := e :: settled q; next_id := next_id q |}
      | _ => None
      end
  | Retry i delayed =>
      match inflight q !! i with
      | Some (Handling e) =>
          Some (set_inflight (<[i := if delayed then Sleeping e else Putting (retried e)]> (inflight q)) q)
      | _ => None
      end
  | Slept i =>
      match inflight q !! i with
      | Some (Sleeping e) => Some (set_inflight (<[i := Putting (retried e)]> (inflight q)) q)
      | _ => None
      end
  | RetryPut i =>
      match inflight q !! i with
      | Some (Putting e) => if full q then None else Some (put e (set_inflight (delete i (inflight q)) q))
      | _ => None
      end
  end.

Fixpoint run (l : list action) (q : MemoryQueue) : option MemoryQueue :=
  match l with
  | [] => Some q
  | a :: l => step a q ≫= run l
  end.

Definition empty_queue : MemoryQueue :=
  {| items := []; inflight := ∅; producers := ∅; released := []; settled := []; next_id := 0 |}.

(** ** Where the messages are *)

Definition bodies (l : list Envelope) : list value := body <$> l.

Definition flying (q : MemoryQueue) : list Envelope := (flight_envelope ∘ snd) <$> map_to_list (inflight q).

Definition sending (q : MemoryQueue) : list Envelope := snd <$> map_to_list (producers q).

Definition sent (l : list action) : list value :=
  omap (λ a, match a with Send e => Some (body e) | _ => None end) l.

Definition everywhere (q : MemoryQueue) : list value :=
  bodies (items q ++ flying q ++ sending q ++ released q ++ settled q).

(** What is numbered is below [next_id]. *)
Definition ids_ok (q : MemoryQueue) : Prop :=
  (∀ i f, inflight q !! i = Some f → i < next_id q) ∧ (∀ i e, producers q !! i = Some e → i < next_id q).

(** *** Messages in a map *)

Definition in_map {A} (f : A → value) (m : gmap nat A) : list value := (f ∘ snd) <$> map_to_list m.

Lemma in_map_insert {A} (f : A → value) i x (m : gmap nat A) :
  m !! i = None → in_map f (<[i := x]> m) ≡ₚ f x :: in_map f m.
Proof. intros H. unfold in_map. rewrite map_to_list_insert by done. reflexivity. Qed.

Lemma in_map_delete {A} (f : A → value) i x (m : gmap nat A) :
  m !! i = Some x → in_map f m ≡ₚ f x :: in_map f (delete i m).
Proof. intros H. unfold in_map. rewrite <- (map_to_list_delete m i x) by done. reflexivity. Qed.

Lemma in_map_update {A} (f : A → value) i x y (m : gmap nat A) :
  m !! i = Some x → f y = f x → in_map f (<[i := y]> m) ≡ₚ in_map f m.
Proof.
  intros H E. rewrite (in_map_delete f i x m) by done. rewrite <- E, <- insert_delete_eq.
  apply in_map_insert, lookup_delete_eq.
Qed.

Lemma in_map_seq {A} (f : A → value) n l (m : gmap nat A) :
  (∀ i x, m !! i = Some x → i < n) → in_map f (map_seq n l ∪ m) ≡ₚ (f <$> l) ++ in_map f m.
Proof.
  revert n. induction l as [|x l IH]; intros n Hm; simpl; [by rewrite (left_id_L ∅ (∪))|].
  rewrite <- insert_union_l, in_map_insert.
  - by rewrite IH by (intros i y Hi; apply Hm in Hi; lia).
  - apply lookup_union_None. split; [apply lookup_map_seq_None; lia|].
    apply eq_None_not_Some. intros [y Hy%Hm]. lia.
Qed.

Definition flight_body (f : flight) : value := body (flight_envelope f).

Lemma everywhere_split q :
  everywhere q ≡ₚ bodies (items q) ++ in_map flight_body (inflight q) ++ in_map body (producers q) ++
    bodies (released q) ++ bodies (settled q).
Proof.
  unfold everywhere, bodies, flying, sending, in_map. rewrite !fmap_app, <- !list_fmap_compose. done.
Qed.

Lemma step_ids a q q' : ids_ok q → step a q = Some q' → ids_ok q'.
Proof.
  intros [Hf Hp]. destruct a as [e|i| | |i|i delayed|i|i]; simpl; intros H; split_matches; simplify_eq/=; unfold ids_ok; simpl; split;
    try done; intros j x; rewrite ?lookup_insert_Some, ?lookup_delete_Some, ?lookup_union_Some_raw, ?lookup_map_seq_Some;
    intros; destruct_or?; destruct_and?; simplify_eq; eauto;
    try (by match goal with H : inflight _ !! _ = Some _ |- _ => apply Hf in H; lia end);
    try (by match goal with H : producers _ !! _ = Some _ |- _ => apply Hp in H; lia end); try lia.
  match goal with H : _ !! _ = Some x |- _ => apply lookup_lt_Some in H; rewrite length_fmap in H; lia end.
Qed.

(** Every step but [Send] keeps the messages. *)
Lemma step_messages a q q' : ids_ok q → step a q = Some q' →
  everywhere q' ≡ₚ everywhere q ++ sent [a].
Proof.
  intros [Hf Hp] H. rewrite !everywhere_split.
  destruct a as [e|i| | |i|i delayed|i|i]; simpl in H; split_matches; simplify_eq/=; rewrite ?app_nil_r.
  - rewrite in_map_insert; [solve_Permutation|]. apply eq_None_not_Some. intros [x Hx%Hp]. lia.
  - rewrite (in_map_delete body i e (producers q)) by done. unfold bodies. rewrite fmap_app. simpl. solve_Permutation.
  - rewrite in_map_seq by done. rewrite <- (take_drop (fetch_limit (room q)) (items q)) at 3.
    unfold bodies. rewrite fmap_app, <- list_fmap_compose. simpl. solve_Permutation.
  - rewrite <- (take_drop (fetch_limit (room q)) (items q)) at 3. unfold bodies. rewrite !fmap_app. solve_Permutation.
  - rewrite (in_map_delete flight_body i (Handling e) (inflight q)) by done. simpl. solve_Permutation.
  - by rewrite (in_map_update _ _ (Handling e)).
  - by rewrite (in_map_update _ _ (Handling e)).
  - by rewrite (in_map_update _ _ (Sleeping e)).
  - rewrite (in_map_delete flight_body i (Putting e) (inflight q)) by done. unfold bodies. rewrite fmap_app. simpl. solve_Permutation.
Qed.

(** ** What the queue guarantees *)

Lemma run_messages l q q' : ids_ok q → run l q = Some q' → everywhere q' ≡ₚ everywhere q ++ sent l.
Proof.
  revert q. induction l as [|a l IH]; intros q Hq; simpl; [intros [= <-]; by rewrite app_nil_r|].
  intros (q1 & H1 & H2)%bind_Some. rewrite (IH q1) by (done || by eapply step_ids).
  rewrite (step_messages _ _ _ Hq H1), <- app_assoc. apply Permutation_app_head.
  unfold sent. by rewrite <- omap_app.
Qed.

(** Every message that was sent is in one place: in the queue, in flight, in a
    put that waits, settled, or among those a stopped runner released. *)
Theorem messages_in_one_place l q : run l empty_queue = Some q → everywhere q ≡ₚ sent l.
Proof. intros H. apply (run_messages l empty_queue); [|done]. by split. Qed.

(** A bounded queue never holds more than [maxsize] messages. *)
Theorem queue_bounded l q : (0 < maxsize)%Z → run l empty_queue = Some q → (Z.of_nat (length (items q)) ≤ maxsize)%Z.
Proof.
  intros Hmax. assert (∀ q q' a, (Z.of_nat (length (items q)) ≤ maxsize)%Z → step a q = Some q' →
    (Z.of_nat (length (items q')) ≤ maxsize)%Z) as Hstep.
  { intros q1 q2 a Hle. assert (full q1 = false → (Z.of_nat (length (items q1)) < maxsize)%Z) as Hfull.
    { unfold full. intros H. apply andb_false_iff in H as [H | H]; [apply Z.ltb_ge in H | apply Z.leb_gt in H]; lia. }
    destruct a; simpl; intros H; split_matches; simplify_eq/=; rewrite ?length_app, ?length_drop; simpl; try lia;
      specialize (Hfull ltac:(done)); lia. }
  assert (Z.of_nat (length (items empty_queue)) ≤ maxsize)%Z as H0 by (simpl; lia). revert H0.
  generalize empty_queue. induction l as [|a l IH]; intros q0 Hq0; simpl; [by intros [= <-]|].
  intros (q1 & H1 & H2)%bind_Some. eapply IH; [by eapply Hstep | done].
Qed.

(** *** Retries *)

Section Policy.
Variable n : Z.

(** Whether [MaxAttempts n] retries. *)
Definition retries (e : Envelope) : bool :=
  match max_attempts_on_error n None e with
  | Ok a => bool_decide (decision a = RETRY)
  | Err _ => false
  end.

Definition policy_step (a : action) (q : MemoryQueue) : option MemoryQueue :=
  match a with
  | Retry i _ => match inflight q !! i with
                 | Some (Handling e) => if retries e then step a q else None
                 | _ => None
                 end
  | _ => step a q
  end.

Fixpoint policy_run (l : list action) (q : MemoryQueue) : option MemoryQueue :=
  match l with
  | [] => Some q
  | a :: l => policy_step a q ≫= policy_run l
  end.

(** How often a message was tried again. *)
Definition within (e : Envelope) : Prop := (0 ≤ attempts e ∧ attempts e < n)%Z.

(** A flight: its retry, if it sleeps, is within the budget too. *)
Definition flight_within (f : flight) : Prop :=
  match f with Handling e | Putting e => within e | Sleeping e => within (retried e) end.

Definition all_within (q : MemoryQueue) : Prop :=
  Forall within (items q) ∧ (∀ i f, inflight q !! i = Some f → flight_within f) ∧
  (∀ i e, producers q !! i = Some e → within e) ∧ Forall within (released q) ∧ Forall within (settled q).

Definition fresh_send (a : action) : Prop := match a with Send e => attempts e = 0%Z | _ => True end.

Lemma retried_within e : within e → retries e = true → within (retried e).
Proof.
  unfold retries, max_attempts_on_error, within. intros H. destruct (attempts e + 1 <? n)%Z eqn:E; [|done].
  apply Z.ltb_lt in E. simpl. lia.
Qed.

Lemma policy_step_within a q q' : (1 ≤ n)%Z → fresh_send a → all_within q → policy_step a q = Some q' → all_within q'.
Proof.
  intros Hn Ha (Hi & Hf & Hp & Hr & Hs). unfold policy_step. unfold all_within.
  destruct a as [e|i| | |i|i delayed|i|i]; simpl; intros H; split_matches; simplify_eq/=; split_and!; try done;
    rewrite ?Forall_app, ?Forall_singleton, ?Forall_cons; try (split; [done|]);
    try (by apply Forall_drop); try (by apply Forall_take);
    try (intros j x; rewrite ?lookup_insert_Some, ?lookup_delete_Some, ?lookup_union_Some_raw, ?lookup_map_seq_Some;
         intros; destruct_or?; destruct_and?; simplify_eq/=; eauto);
    try (by match goal with H : inflight _ !! _ = Some _ |- _ => exact (Hf _ _ H) end);
    try (by match goal with H : producers _ !! _ = Some _ |- _ => exact (Hp _ _ H) end).
  all: try (by unfold within; lia).
  - match goal with H : _ !! _ = Some x |- _ => rename H into Hx end.
    rewrite list_lookup_fmap in Hx. destruct (take _ (items q) !! _) as [e|] eqn:E; [|done]. injection Hx as <-.
    simpl. apply list_elem_of_lookup_2, elem_of_take in E as (k & E & _). exact (Forall_lookup_1 _ _ _ _ Hi E).
  - match goal with H : inflight _ !! _ = Some _ |- _ => apply Hf in H end. by split.
  - match goal with H : inflight _ !! _ = Some _ |- _ => apply Hf in H end. by apply retried_within.
  - match goal with H : inflight _ !! _ = Some _ |- _ => apply Hf in H end. by apply retried_within.
Qed.

(** When the retries are those [MaxAttempts n] decides, the queue counts them:
    every message is tried at most [n] times. *)
Theorem attempts_bounded l q : (1 ≤ n)%Z → Forall fresh_send l → policy_run l empty_queue = Some q →
  (∀ e, e ∈ items q ++ released q ++ settled q → (0 ≤ attempts e < n)%Z) ∧
  ∀ i e, inflight q !! i = Some (Handling e) → (0 ≤ attempts e < n)%Z.
Proof.
  intros Hn Hl Hrun. assert (all_within q) as (Hi & Hf & _ & Hr & Hs).
  { assert (all_within empty_queue) as H0 by (by split_and!). revert H0 Hrun. generalize empty_queue.
    induction Hl as [|a l Ha Hl IH]; intros q0 Hq0; simpl; [by intros [= <-]|].
    intros (q1 & H1 & H2)%bind_Some. eapply IH; [by eapply policy_step_within | done]. }
  split; [|intros i e He; exact (Hf _ _ He)].
  intros e. rewrite !elem_of_app. rewrite list.Forall_forall in Hi, Hr, Hs. intros [He | [He | He]]; [exact (Hi e He) | exact (Hr e He) | exact (Hs e He)].
Qed.
End Policy.

(** *** A deadlock *)

(** Every slot of the runner is a retry that waits for room in a full queue. *)
Definition stuck (q : MemoryQueue) : Prop :=
  full q = true ∧ room q = 0 ∧ ∀ i f, inflight q !! i = Some f → ∃ e, f = Putting e.

Lemma step_stuck a q q' : stuck q → step a q = Some q' →
  stuck q' ∧ items q' = items q ∧ inflight q' = inflight q ∧ settled q' = settled q.
Proof.
  intros (Hfull & Hroom & Hput) H. destruct a as [e|i| | |i|i delayed|i|i]; simpl in H;
    try (rewrite Hroom in H; done);
    try (destruct (inflight q !! i) as [f|] eqn:Hi; [destruct (Hput _ _ Hi) as [e ->]; by rewrite ?Hfull in H | done]).
  - by injection H as <-.
  - destruct (producers q !! i); [by rewrite Hfull in H | done].
Qed.

(** When all slots of a runner wait to put a retry into its own full queue,
    nothing ever happens again: no message is fetched, run or settled. *)
Theorem retries_deadlock l q q' : stuck q → run l q = Some q' →
  items q' = items q ∧ inflight q' = inflight q ∧ settled q' = settled q.
Proof.
  revert q. induction l as [|a l IH]; intros q Hq; simpl; [by intros [= <-]|].
  intros (q1 & H1 & H2)%bind_Some. destruct (step_stuck _ _ _ Hq H1) as (Hq1 & <- & <- & <-). by apply IH.
Qed.
End Queue.

(** ** Examples of the queue *)

Definition message (n : Z) : Envelope := envelope_of_body (VInt n).

(** Two messages; one is retried and run again. *)
Definition retry_history : list action :=
  [Send (message 1); Send (message 2); ProducerPut 0; ProducerPut 1; Fetch; Retry 2 true; Slept 2; RetryPut 2;
   Settle 3; Fetch].

Definition after_retry : MemoryQueue :=
  Eval vm_compute in default empty_queue (run 0 100 2 retry_history empty_queue).

Lemma retry_history_runs : run 0 100 2 retry_history empty_queue = Some after_retry.
Proof. vm_compute. reflexivity. Qed.

Lemma messages_in_one_place_witness : everywhere after_retry ≡ₚ [VInt 1; VInt 2].
Proof. exact (messages_in_one_place 0 100 2 retry_history after_retry retry_history_runs). Defined.

Lemma queue_bounded_witness :
  ∃ q, run 1 100 1 [Send (message 1); ProducerPut 0] empty_queue = Some q ∧ (Z.of_nat (length (items q)) ≤ 1)%Z.
Proof.
  destruct (run 1 100 1 [Send (message 1); ProducerPut 0] empty_queue) as [q|] eqn:R; [|discriminate R].
  exists q. split; [done|]. by apply (queue_bounded 1 100 1 [Send (message 1); ProducerPut 0] q).
Defined.

Lemma attempts_bounded_witness :
  (∀ e, e ∈ items after_retry ++ released after_retry ++ settled after_retry → (0 ≤ attempts e < 3)%Z) ∧
  ∀ i e, inflight after_retry !! i = Some (Handling e) → (0 ≤ attempts e < 3)%Z.
Proof.
  apply (attempts_bounded 0 100 2 3 retry_history after_retry);
    [done | by repeat constructor | vm_compute; reflexivity].
Defined.

(** A queue of one message and a runner of one slot: the producer refills the
    queue while the handler runs, and the retry waits for ever. *)
Definition deadlock_history : list action :=
  [Send (message 1); ProducerPut 0; Fetch; Send (message 2); ProducerPut 2; Retry 1 false].

Definition deadlocked : MemoryQueue :=
  Eval vm_compute in default empty_queue (run 1 100 1 deadlock_history empty_queue).

Lemma deadlock_reached : run 1 100 1 deadlock_history empty_queue = Some deadlocked.
Proof. vm_compute. reflexivity. Qed.

Lemma deadlocked_stuck : stuck 1 1 deadlocked.
Proof.
  split_and!; [vm_compute; reflexivity | vm_compute; reflexivity |]. intros i f Hi.
  apply elem_of_map_to_list in Hi. change (map_to_list (inflight deadlocked)) with [(1, Putting (retried (message 1)))] in Hi.
  apply list_elem_of_singleton in Hi as [= -> ->]. by eexists.
Qed.

Lemma retries_deadlock_witness :
  ∃ q', run 1 100 1 [Send (message 3)] deadlocked = Some q' ∧ items q' = items deadlocked ∧
    inflight q' = inflight deadlocked ∧ settled q' = settled deadlocked.
Proof.
  destruct (run 1 100 1 [Send (message 3)] deadlocked) as [q'|] eqn:R; [|discriminate R].
  exists q'. split; [done|]. exact (retries_deadlock 1 100 1 [Send (message 3)] deadlocked q' deadlocked_stuck R).
Defined.

(** A runner that is stopped while it fetches releases the message, and the
    queue does not take it back. *)
Example released_message_lost :
  (λ q, (items q, released q)) <$> run 0 100 1 [Send (message 1); ProducerPut 0; FetchReleased; Fetch] empty_queue
  = Some ([], [message 1]).
Proof. vm_compute. reflexivity. Qed.

(** ** The wire format *)

Section Wire.
Context (float_text : float64 → string) (py_str : value → string).

(** [encode_envelope]; [default=str]. *)
Definition encode_envelope (e : Envelope) : result exn json :=
  json_of_value float_text (λ v, Ok (JStr (py_str v)))
    (VStrDict [("body", body e); ("meta", VStrDict (meta e)); ("attempts", VInt (attempts e))]).

(** What a connector received: a text that is JSON or is not, bytes that are
    not UTF-8, or a dict. *)
Inductive raw_message :=
| RawJson (j : json)
| RawText (s : string)
| RawNotUtf8
| RawDict (items : list (string * value)).

Definition str_items (items : list (value * value)) : list (string * value) :=
  omap (λ kv, match kv.1 with VStr k => Some (k, kv.2) | _ => None end) items.

(** The part of [decode_envelope] after parsing. *)
Definition envelope_of_parsed (parsed : value) : Envelope :=
  match parsed with
  | VDict items =>
      match vdict_get "body" items with
      | None => envelope_of_body parsed
      | Some b =>
          {| body := b;
             meta := match vdict_get "meta" items with Some (VDict m) => str_items m | _ => [] end;
             attempts := match vdict_get "attempts" items with
                         | Some (VInt n) => n
                         | Some (VBool b) => if b then 1%Z else 0%Z
                         | _ => 0%Z
                         end |}
      end
  | _ => envelope_of_body parsed
  end.

Definition decode_envelope (raw : raw_message) : result exn Envelope :=
  match raw with
  | RawNotUtf8 => Err (value_error "'utf-8' codec can't decode bytes")
  | RawText s => Ok (envelope_of_body (VStr s))
  | RawJson j => Ok (envelope_of_parsed (value_of_json j))
  | RawDict items => Ok (envelope_of_parsed (VStrDict items))
  end.

Lemma str_items_of d : str_items ((λ kv, (VStr kv.1, kv.2)) <$> d) = d.
Proof. induction d as [|[k v] d IH]; simpl; [done|]. unfold str_items in IH. simpl. by f_equal. Qed.

(** An envelope of JSON values is decoded as it was encoded. *)
Theorem envelope_round_trip e : plain (body e) = true → plain (VStrDict (meta e)) = true →
  ∃ j, encode_envelope e = Ok j ∧ decode_envelope (RawJson j) = Ok e.
Proof.
  intros Hb Hm. set (v := VStrDict [("body", body e); ("meta", VStrDict (meta e)); ("attempts", VInt (attempts e))]%string).
  assert (plain v = true) as Hp.
  { unfold v, VStrDict at 1. cbn [plain fmap list_fmap forallb is_str fst snd].
    change (VDict ((λ kv, (VStr kv.1, kv.2)) <$> meta e)) with (VStrDict (meta e)). rewrite Hb, Hm. vm_compute. reflexivity. }
  destruct (plain_round_trip float_text (λ v, Ok (JStr (py_str v))) v Hp) as (j & Hj & Ej).
  exists j. split; [exact Hj|]. simpl. rewrite Ej. unfold v. simpl. rewrite str_items_of. by destruct e.
Qed.

Lemma foreign_body_kept parsed :
  (∀ items, parsed = VDict items → vdict_get "body" items = None) → envelope_of_parsed parsed = envelope_of_body parsed.
Proof. intros H. destruct parsed as [| | | | | | | | | | | | | | |items|]; simpl; try done. by rewrite (H items). Qed.
End Wire.

Lemma envelope_round_trip_witness :
  ∃ j, encode_envelope (λ _, "") (λ _, "") (retried (message 7)) = Ok j ∧ decode_envelope (RawJson j) = Ok (retried (message 7)).
Proof. by apply (envelope_round_trip (λ _, "") (λ _, "") (retried (message 7))). Defined.

(** A message of another producer with a member [body] loses its other members. *)
Example foreign_members_lost :
  decode_envelope (RawJson (JObj [("body", JStr "hi"); ("from", JStr "ann")])) = Ok (envelope_of_body (VStr "hi")).
Proof. vm_compute. reflexivity. Qed.
