(* ===== verification/Binlog.v ===== *)
(** * The binlog source ([onestep_sql/mysql/connector.py], [BinlogSource])

    Row events of the MySQL binary log, handed out row by row, with a saved
    position behind the acknowledged prefix.  The log after the position of
    the first [open] is the list of the row events the stream reader yields
    for the configured schemas and tables; a reader that resumes at a position
    yields the events after it.  The lock makes [ack_token] one step. *)

From stdpp Require Import base option gmap sets list strings.
From Stdlib Require Import ZArith Lia.
From S2P Require Import Prelude PyFloat Value.

(** ** Events and tokens *)

(** [WriteRowsEvent] and its kin, or an event that is none of them. *)
Record BinlogEvent := {
  ev_file : string;
  ev_pos : Z;
  ev_kind : option string;             (* [_event_name] *)
  ev_schema : value;
  ev_table : value;
  ev_timestamp : value;
  ev_rows : list (list (string * value));
}.

(** [_BinlogToken]: [file], [pos], [row], [rows]. *)
Definition _BinlogToken : Type := (string * Z) * (nat * nat).

Definition position (t : _BinlogToken) : string * Z := t.1.
Definition token_row (t : _BinlogToken) : nat := t.2.1.
Definition token_rows (t : _BinlogToken) : nat := t.2.2.

Definition ev_position (e : BinlogEvent) : string * Z := (ev_file e, ev_pos e).

(** [_normalize_binlog_event_name]. *)
Definition _normalize_binlog_event_name (event : string) : result exn string :=
  match lower (strip event) with
  | "write" | "create" | "insert" => Ok "insert"
  | "update" => Ok "update"
  | "delete" | "remove" => Ok "delete"
  | _ => Err (value_error "events must contain only insert, update, or delete")
  end%string.

(** [row.get(k) or {}], for a mapping of columns. *)
Definition row_values (k : string) (row : list (string * value)) : value :=
  match dict_get k row with
  | Some (VDict items) => VDict items
  | _ => VDict []
  end.

(** [_binlog_payload]. *)
Definition _binlog_payload (e : BinlogEvent) (row : list (string * value)) (kind : string) : value :=
  let head := [("schema", ev_schema e); ("table", ev_table e); ("event", VStr kind);
               ("binlog", VStrDict [("file", VStr (ev_file e)); ("pos", VInt (ev_pos e));
                                    ("timestamp", ev_timestamp e)])]%string in
  if String.eqb kind "update" then
    VStrDict (head ++ [("before_values", row_values "before_values" row); ("values", row_values "after_values" row)]%string)
  else VStrDict (head ++ [("values", row_values "values" row)]%string).

Section Source.
Variable events : list string.          (* normalized *)

(** The rows of an event that are handed out, with their tokens. *)
Definition event_items (e : BinlogEvent) : list (value * _BinlogToken) :=
  match ev_kind e with
  | None => []
  | Some kind =>
      if bool_decide (kind ∈ events) then
        imap (λ i row, (_binlog_payload e row kind, (ev_position e, (i, length (ev_rows e))))) (ev_rows e)
      else []
  end.

Record BinlogSource := {
  _stream : option nat;                  (* how many events of the log the reader is past *)
  _loaded : bool;
  _committed : option (string * Z);
  _buffered : list (value * _BinlogToken);
  _pending : list _BinlogToken;
  _acked : gset _BinlogToken;
}.

Definition new_source : BinlogSource :=
  {| _stream := None; _loaded := false; _committed := None; _buffered := []; _pending := []; _acked := ∅ |}.

(** Where a reader starts that resumes at a position. *)
Fixpoint resume_from (n : nat) (p : string * Z) (log : list BinlogEvent) : nat :=
  match log with
  | [] => 0
  | e :: log => if bool_decide (ev_position e = p) then S n else resume_from (S n) p log
  end.

Definition resume (p : option (string * Z)) (log : list BinlogEvent) : nat :=
  match p with Some p => resume_from 0 p log | None => 0 end.

(** [open]: what the store has, or else the current position, which is saved. *)
Definition open (stored current : option (string * Z)) (s : BinlogSource) : BinlogSource * option (string * Z) :=
  if _loaded s then (s, stored)
  else
    let committed := match stored with Some p => Some p | None => _committed s end in
    let '(committed, stored) := match committed with
                                | Some p => (Some p, stored)
                                | None => (current, current)
                                end in
    ({| _stream := _stream s; _loaded := true; _committed := committed; _buffered := _buffered s;
        _pending := _pending s; _acked := _acked s |}, stored).

(** The second loop of [_fetch_sync], on the events there are; the number says
    how many it read. *)
Fixpoint read_events (limit : nat) (available : list BinlogEvent) (rows buffered : list (value * _BinlogToken))
    : list (value * _BinlogToken) * list (value * _BinlogToken) * nat :=
  match available with
  | [] => (rows, buffered, 0)
  | e :: available =>
      if (limit <=? length rows)%nat then (rows, buffered, 0)
      else
        let k := limit - length rows in
        let '(r, b, n) := read_events limit available (rows ++ take k (event_items e))
                            (buffered ++ drop k (event_items e)) in
        (r, b, S n)
  end.

(** [_fetch_sync]; [log] is the log so far. *)
Definition _fetch_sync (limit : nat) (log : list BinlogEvent) (s : BinlogSource)
    : list (value * _BinlogToken) * BinlogSource :=
  let at_ := default (resume (_committed s) log) (_stream s) in
  let '(rows, buffered, n) := read_events limit (drop at_ log) (take limit (_buffered s)) (drop limit (_buffered s)) in
  (rows, {| _stream := Some (at_ + n); _loaded := _loaded s; _committed := _committed s; _buffered := buffered;
            _pending := _pending s; _acked := _acked s |}).

(** The deliveries of [fetch]. *)
Definition append_pending (rows : list (value * _BinlogToken)) (s : BinlogSource) : BinlogSource :=
  {| _stream := _stream s; _loaded := _loaded s; _committed := _committed s; _buffered := _buffered s;
     _pending := _pending s ++ rows.*2; _acked := _acked s |}.

(** [close]: the stream is dropped, the rest stays. *)
Definition close (s : BinlogSource) : BinlogSource :=
  {| _stream := None; _loaded := _loaded s; _committed := _committed s; _buffered := _buffered s;
     _pending := _pending s; _acked := _acked s |}.

(** The loop of [ack_token]: what is popped of [_pending], and the rest. *)
Fixpoint pop_acked (acked : gset _BinlogToken) (pending : list _BinlogToken) (advanced : option _BinlogToken)
    : option _BinlogToken * list _BinlogToken * gset _BinlogToken :=
  match pending with
  | [] => (advanced, [], acked)
  | t :: pending =>
      if bool_decide (t ∈ acked) then pop_acked (acked ∖ {[t]}) pending (Some t)
      else (advanced, t :: pending, acked)
  end.

(** [ack_token], and the position it saves. *)
Definition ack_token (t : _BinlogToken) (s : BinlogSource) : BinlogSource * option (string * Z) :=
  let '(advanced, pending, acked) := pop_acked ({[t]} ∪ _acked s) (_pending s) None in
  let save := match advanced with
              | Some a => if (token_rows a <=? token_row a + 1)%nat then Some (position a) else None
              | None => None
              end in
  ({| _stream := _stream s; _loaded := _loaded s;
      _committed := match save with Some p => Some p | None => _committed s end; _buffered := _buffered s;
      _pending := pending; _acked := acked |}, save).

(** ** A process, the log and the store *)

Record binlog_state := {
  log : list BinlogEvent;
  source : BinlogSource;
  stored : option (string * Z);
  live : gmap nat _BinlogToken;
  next_id : nat;
  acknowledged : gset _BinlogToken;     (** by a handler, ever *)
  first_open : option nat;              (** the events written before the first [open] *)
}.

(** What happens next: the server writes an event; a fetch returns; a fetch is
    cancelled or raises after it has read rows; the first save of [open] fails; a
    delivery is acknowledged,
    retried or failed; the source is closed and will be opened again; the
    process restarts. *)
Inductive action :=
| Write (e : BinlogEvent)
| Fetch (limit : nat)
| FetchDropped (limit : nat)
| OpenFails
| Ack (i : nat) (saved : bool)
| Retry (i : nat)
| FailDelivery (i : nat)
| Close
| Restart.

(** The position before the first event of the log. *)
Variable origin : string * Z.

(** [_current_binlog_token]: the end of the log. *)
Definition current_position (log : list BinlogEvent) : string * Z :=
  default origin (ev_position <$> last log).

(** [open] in a state: the source, and what the store has then. *)
Definition open_state (σ : binlog_state) : binlog_state :=
  let '(s, st) := open (stored σ) (Some (current_position (log σ))) (source σ) in
  {| log := log σ; source := s; stored := st; live := live σ; next_id := next_id σ;
     acknowledged := acknowledged σ;
     first_open := match first_open σ with Some n => Some n | None => Some (length (log σ)) end |}.

(** [open] when [state.save] raises: the position stays in memory only. *)
Definition open_fails (s : BinlogSource) (current : string * Z) : BinlogSource :=
  {| _stream := _stream s; _loaded := _loaded s; _committed := Some current; _buffered := _buffered s;
     _pending := _pending s; _acked := _acked s |}.

Definition deliver (rows : list (value * _BinlogToken)) (s : BinlogSource) (σ : binlog_state) : binlog_state :=
  {| log := log σ; source := append_pending rows s; stored := stored σ;
     live := map_seq (next_id σ) rows.*2 ∪ live σ; next_id := next_id σ + length rows;
     acknowledged := acknowledged σ; first_open := first_open σ |}.

Definition set_source (s : BinlogSource) (σ : binlog_state) : binlog_state :=
  {| log := log σ; source := s; stored := stored σ; live := live σ; next_id := next_id σ; acknowledged := acknowledged σ;
     first_open := first_open σ |}.

Definition set_live (m : gmap nat _BinlogToken) (σ : binlog_state) : binlog_state :=
  {| log := log σ; source := source σ; stored := stored σ; live := m; next_id := next_id σ;
     acknowledged := acknowledged σ; first_open := first_open σ |}.

Definition step (a : action) (σ : binlog_state) : option binlog_state :=
  match a with
  | Write e =>
      if bool_decide (ev_position e ∈ origin :: (ev_position <$> log σ)) then None
      else Some {| log := log σ ++ [e]; source := source σ; stored := stored σ; live := live σ;
                   next_id := next_id σ; acknowledged := acknowledged σ; first_open := first_open σ |}
  | Fetch limit =>
      let σ := open_state σ in
      let '(rows, s) := _fetch_sync limit (log σ) (source σ) in
      Some (deliver rows s σ)
  | FetchDropped limit =>
      let σ := open_state σ in
      Some (set_source (_fetch_sync limit (log σ) (source σ)).2 σ)
  | OpenFails =>
      if _loaded (source σ) || bool_decide (is_Some (stored σ)) || bool_decide (is_Some (_committed (source σ))) then None
      else Some (set_source (open_fails (source σ) (current_position (log σ))) σ)
  | Ack i saved =>
      match live σ !! i with
      | None => None
      | Some t =>
          let '(s, save) := ack_token t (source σ) in
          Some {| log := log σ; source := s;
                  stored := match save with Some p => if saved then Some p else stored σ | None => stored σ end;
                  live := delete i (live σ); next_id := next_id σ; acknowledged := {[t]} ∪ acknowledged σ;
                  first_open := first_open σ |}
      end
  | Retry i | FailDelivery i =>
      match live σ !! i with
      | None => None
      | Some _ => Some (set_live (delete i (live σ)) σ)
      end
  | Close => Some (set_source (close (source σ)) σ)
  | Restart => Some (set_live ∅ (set_source new_source σ))
  end.

Fixpoint run (l : list action) (σ : binlog_state) : option binlog_state :=
  match l with
  | [] => Some σ
  | a :: l => step a σ ≫= run l
  end.

Definition start : binlog_state :=
  {| log := []; source := new_source; stored := None; live := ∅; next_id := 0; acknowledged := ∅; first_open := None |}.

(** The rows a reader hands out that starts after [n] events. *)
Definition rows_from (n : nat) (log : list BinlogEvent) : list _BinlogToken := (drop n log ≫= event_items).*2.
End Source.
