(* ===== verification/BinlogTheorems.v ===== *)
(** * What the binlog source guarantees

    Rows that were not acknowledged lie beyond the saved position, so a
    restarted process reads them again, as long as no fetch is dropped after
    it has read rows and the first position could be saved.  Examples show
    what happens otherwise, and where commits stop. *)

From stdpp Require Import base option gmap sets list strings.
From Stdlib Require Import ZArith Lia.
From S2P Require Import Prelude PyFloat Value Binlog.

Section Log.
Variable events : list string.
Abbreviation items := (event_items events).
Abbreviation from := (rows_from events).
Implicit Types (l : list BinlogEvent) (e : BinlogEvent) (t x y : _BinlogToken).

Lemma from_app n l l' : (n ≤ length l)%nat → from n (l ++ l') = from n l ++ from 0 l'.
Proof. intros H. unfold rows_from. by rewrite drop_app_le, bind_app, fmap_app, drop_0 by done. Qed.

Lemma from_split n l : from 0 l = from 0 (take n l) ++ from n l.
Proof. unfold rows_from. by rewrite !drop_0, <- fmap_app, <- bind_app, take_drop. Qed.

Lemma from_sublist n l y : y ∈ from n l → y ∈ from 0 l.
Proof. intros H. rewrite (from_split n l), elem_of_app. by right. Qed.

Lemma from_cons e l : from 0 (e :: l) = (items e).*2 ++ from 0 l.
Proof. unfold rows_from. by rewrite !drop_0, bind_cons, fmap_app. Qed.

(** The tokens of an event carry its position and count its rows. *)
Lemma items_tokens e t : t ∈ (items e).*2 ↔
  ∃ i kind, ev_kind e = Some kind ∧ kind ∈ events ∧ i < length (ev_rows e) ∧
    t = (ev_position e, (i, length (ev_rows e))).
Proof.
  unfold event_items. destruct (ev_kind e) as [kind|]; simpl.
  2: { split; [by intros ?%elem_of_nil | by intros (? & ? & ? & _)]. }
  case_bool_decide as Hk; simpl.
  2: { split; [by intros ?%elem_of_nil | intros (? & ? & [= <-] & ? & _); done]. }
  rewrite list_elem_of_fmap. split.
  - intros (it & -> & Hit). apply elem_of_lookup_imap in Hit as (i & row & -> & Hi%lookup_lt_Some).
    by exists i, kind.
  - intros (i & k & [= <-] & _ & Hi & ->). apply lookup_lt_is_Some in Hi as [row Hi].
    exists (_binlog_payload e row kind, (ev_position e, (i, length (ev_rows e)))). split; [done|].
    apply elem_of_lookup_imap. by exists i, row.
Qed.

Lemma items_list e : (items e).*2 = [] ∨
  (items e).*2 = (λ i, (ev_position e, (i, length (ev_rows e)))) <$> seq 0 (length (ev_rows e)).
Proof.
  unfold event_items. destruct (ev_kind e) as [kind|]; [|by left]. case_bool_decide; [right | by left].
  apply list_eq. intros i. rewrite !list_lookup_fmap, !list_lookup_imap.
  destruct (decide (i < length (ev_rows e))) as [Hi|Hi].
  - rewrite lookup_seq_lt by done. apply lookup_lt_is_Some in Hi as [row Hi]. by rewrite Hi.
  - rewrite lookup_seq_ge, (lookup_ge_None_2 (ev_rows e)) by lia. done.
Qed.

Lemma position_from l t : t ∈ from 0 l → ∃ e, e ∈ l ∧ position t = ev_position e ∧ t ∈ (items e).*2.
Proof.
  induction l as [|e l IH]; [by intros ?%elem_of_nil|]. rewrite from_cons, elem_of_app. intros [H | H].
  - exists e. split_and!; [by left | | done]. by apply items_tokens in H as (i & k & _ & _ & _ & ->).
  - destruct (IH H) as (e' & He' & Hp). exists e'. split; [by right | done].
Qed.

(** Positions are unique in a log. *)
Lemma from_nodup l : NoDup (ev_position <$> l) → NoDup (from 0 l).
Proof.
  induction l as [|e l IH]; [constructor|]. rewrite fmap_cons, NoDup_cons, from_cons. intros [He Hl].
  apply NoDup_app. split_and!; [| |by apply IH].
  - destruct (items_list e) as [-> | ->]; [constructor|]. apply NoDup_fmap_2; [intros i j [= ->]; done | apply NoDup_seq].
  - intros t Ht Hin. apply items_tokens in Ht as (i & k & _ & _ & _ & ->).
    apply position_from in Hin as (e' & He' & Hp & _). simpl in Hp. apply He. rewrite Hp.
    apply list_elem_of_fmap. by exists e'.
Qed.

(** Resuming at the position of the last row of an event continues behind it. *)
Lemma resume_from_bound n p l : resume_from n p l = 0 ∨ (n < resume_from n p l ≤ n + length l)%nat.
Proof.
  revert n. induction l as [|e l IH]; intros n; simpl; [by left|]. case_bool_decide; [right; lia|].
  destruct (IH (S n)); [by left | right; lia].
Qed.

Lemma resume_bound p l : (resume p l ≤ length l)%nat.
Proof. destruct p as [p|]; simpl; [|lia]. destruct (resume_from_bound 0 p l); lia. Qed.

Lemma resume_from_at n p l1 e l2 : p ∉ (ev_position <$> l1) → ev_position e = p →
  resume_from n p (l1 ++ e :: l2) = S (n + length l1).
Proof.
  revert n. induction l1 as [|e1 l1 IH]; intros n Hp He; simpl.
  - by rewrite bool_decide_eq_true_2, Nat.add_0_r.
  - rewrite fmap_cons, not_elem_of_cons in Hp. destruct Hp as [Hne Hp].
    rewrite bool_decide_eq_false_2 by congruence. rewrite IH by done. lia.
Qed.

Lemma resume_none_at p l : p ∉ (ev_position <$> l) → resume (Some p) l = 0.
Proof.
  simpl. generalize 0 at 1. induction l as [|e l IH]; intros n; simpl; [done|].
  rewrite not_elem_of_cons. intros [Hne Hp]. rewrite bool_decide_eq_false_2 by congruence. by apply IH.
Qed.

(** A write does not move a position that was there. *)
Lemma resume_app p l e : ev_position e ≠ p → resume (Some p) (l ++ [e]) = resume (Some p) l.
Proof.
  intros Hne. simpl. generalize 0. induction l as [|e' l IH]; intros n; simpl.
  - by rewrite bool_decide_eq_false_2.
  - case_bool_decide; [done | apply IH].
Qed.

Lemma resume_behind l x : NoDup (ev_position <$> l) → x ∈ from 0 l → (token_rows x ≤ token_row x + 1)%nat →
  ∃ ts, from 0 l = ts ++ x :: from (resume (Some (position x)) l) l.
Proof.
  intros Hnd Hx Hlast. destruct (position_from _ _ Hx) as (e & He & Hp & Hit).
  apply list_elem_of_split in He as (l1 & l2 & ->).
  rewrite fmap_app, fmap_cons in Hnd. apply NoDup_app in Hnd as (_ & Hnd & _).
  assert (ev_position e ∉ ev_position <$> l1) as Hnew.
  { intros Hin. apply (Hnd _ Hin). by left. }
  simpl resume. rewrite (resume_from_at 0 _ l1 e l2) by (done || congruence). simpl.
  apply items_tokens in Hit as (i & k & Hk & Hev & Hi & ->). unfold token_rows, token_row in Hlast. simpl in Hlast.
  assert ((items e).*2 = (λ i, (ev_position e, (i, length (ev_rows e)))) <$> seq 0 (length (ev_rows e))) as Hitems.
  { destruct (items_list e) as [E|E]; [|done]. exfalso.
    assert ((ev_position e, (i, length (ev_rows e))) ∈ (items e).*2) as H by (apply items_tokens; by exists i, k).
    rewrite E in H. by apply elem_of_nil in H. }
  assert (length (ev_rows e) = S i) as Hlen by lia.
  exists (from 0 l1 ++ ((λ j, (ev_position e, (j, length (ev_rows e)))) <$> seq 0 i)).
  rewrite (from_split (length l1) (l1 ++ e :: l2)), take_app_length.
  unfold rows_from at 2. rewrite drop_app_length. change (from 0 l1 ++ ((e :: l2) ≫= items).*2 =
    (from 0 l1 ++ ((λ j, (ev_position e, (j, length (ev_rows e)))) <$> seq 0 i)) ++
    (ev_position e, (i, length (ev_rows e))) :: from (S (length l1)) (l1 ++ e :: l2)).
  rewrite bind_cons, fmap_app, Hitems, Hlen, seq_S, fmap_app, <- !app_assoc. simpl. do 3 f_equal.
  unfold rows_from. replace (S (length l1)) with (length l1 + 1) by lia. by rewrite drop_app_add.
Qed.

(** ** The rows still to come *)

(** [y] comes before [x] in a list. *)
Definition before (ts : list _BinlogToken) y x : Prop := ∃ l1 l2 : list _BinlogToken, ts = l1 ++ x :: l2 ∧ y ∈ l1.

Lemma before_split (ts l1 l2 : list _BinlogToken) y x : NoDup ts → ts = l1 ++ x :: l2 → before ts y x → y ∈ l1.
Proof.
  intros Hnd -> (k1 & k2 & E & Hy). destruct (app_eq_inv _ _ _ _ E) as [(k & -> & Ek) | (k & -> & Ek)].
  - destruct k as [|z k]; [by rewrite app_nil_r|]. injection Ek as <- Ek. exfalso.
    rewrite <- app_assoc in Hnd. apply NoDup_app in Hnd as (_ & _ & Hnd). simpl in Hnd.
    apply NoDup_cons in Hnd as [Hx _]. apply Hx. rewrite elem_of_app. right. by left.
  - destruct k as [|z k]; [by rewrite app_nil_r in Hy|]. injection Ek as -> Ek. exfalso.
    apply NoDup_app in Hnd as (_ & _ & Hnd). apply NoDup_cons in Hnd as [Hx _]. apply Hx. rewrite Ek.
    rewrite elem_of_app. right. by left.
Qed.

Variables (b : nat) (A : gset _BinlogToken).

(** Every row before one to come is acknowledged or comes before it. *)
Definition covered l (ts : list _BinlogToken) : Prop := ∀ (p1 : list _BinlogToken) x p2, ts = p1 ++ x :: p2 →
  ∀ y, y ∈ from b l → before (from 0 l) y x → y ∈ A ∨ y ∈ p1.

Definition complete l (ts : list _BinlogToken) : Prop := ∀ y, y ∈ from b l → y ∈ A ∨ y ∈ ts.

(** Nothing is lost when a reader resumes at the position. *)
Definition safe_position (origin : string * Z) l (p : string * Z) : Prop :=
  p ∈ origin :: (ev_position <$> l) ∧ complete l (from (resume (Some p) l) l).

Lemma covered_app l (ts ts' : list _BinlogToken) : covered l (ts ++ ts') → covered l ts.
Proof.
  intros H p1 x p2 -> y Hy Hb. apply (H p1 x (p2 ++ ts')); [by rewrite <- app_assoc | done..].
Qed.

Lemma covered_rewind l (pre : list _BinlogToken) n : NoDup (ev_position <$> l) → covered l pre →
  complete l (from n l) → covered l (pre ++ from n l).
Proof.
  intros Hnd Hpre Hn p1 x p2 E y Hy Hb. destruct (app_eq_inv _ _ _ _ E) as [(k & -> & Ek) | (k & -> & Ek)].
  - destruct k as [|z k].
    + apply (Hn y) in Hy as [Hy | Hy]; [by left|]. exfalso. simpl in Ek.
      rewrite (from_split n l) in Hb. rewrite <- Ek in Hy, Hb.
      pose proof (from_nodup l Hnd) as HT. rewrite (from_split n l), <- Ek in HT.
      apply (before_split _ (from 0 (take n l)) p2) in Hb; [|done..].
      apply NoDup_app in HT as (_ & HT & _). by apply (HT _ Hb).
    + injection Ek as <- Ek. exact (Hpre p1 x k eq_refl y Hy Hb).
  - apply (Hn y) in Hy as [Hy | Hy]; [by left|]. right. rewrite elem_of_app. right.
    pose proof (from_nodup l Hnd) as HT. rewrite (from_split n l), Ek in HT.
    rewrite (from_split n l), Ek in Hb. rewrite Ek in Hy.
    apply (before_split _ (from 0 (take n l) ++ k) p2) in Hb; [| done | by rewrite <- app_assoc].
    apply elem_of_app in Hb as [Hb | Hb]; [|done]. exfalso. apply NoDup_app in HT as (_ & HT & _). by apply (HT _ Hb).
Qed.

Lemma covered_write l e (ts : list _BinlogToken) : NoDup (ev_position <$> (l ++ [e])) → (b ≤ length l)%nat →
  (∀ x, x ∈ ts → x ∈ from 0 l) → covered l ts → complete l ts →
  covered (l ++ [e]) (ts ++ from 0 [e]).
Proof.
  intros Hnd Hb Hin Hcov Hcom p1 x p2 E y Hy Hbef. rewrite from_app in Hy by done.
  pose proof (from_nodup _ Hnd) as HT. rewrite from_app in HT, Hbef by lia.
  pose proof HT as (_ & Hdisj & _)%NoDup_app.
  destruct (app_eq_inv _ _ _ _ E) as [(k & -> & Ek) | (k & -> & Ek)].
  - destruct k as [|z k].
    + rewrite app_nil_r in Hcom. simpl in Ek. apply elem_of_app in Hy as [Hy | Hy]; [by apply Hcom|]. exfalso.
      rewrite <- Ek in HT, Hbef, Hy, Hdisj. apply (before_split _ (from 0 l) p2) in Hbef; [|done..]. by apply (Hdisj _ Hbef).
    + injection Ek as <- Ek. assert (x ∈ from 0 l) as Hx by (apply Hin; rewrite elem_of_app; right; by left).
      apply list_elem_of_split in Hx as (l1 & l2 & El). rewrite El in HT, Hbef.
      apply (before_split _ l1 (l2 ++ from 0 [e])) in Hbef; [|done | by rewrite <- app_assoc].
      assert (y ∈ from 0 l) as Hy0 by (rewrite El, elem_of_app; by left).
      apply elem_of_app in Hy as [Hy | Hy]; [|by destruct (Hdisj _ Hy0)].
      apply (Hcov p1 x k); [done..|]. by exists l1, l2.
  - apply elem_of_app in Hy as [Hy | Hy].
    + apply Hcom in Hy as [Hy | Hy]; [by left|]. right. rewrite elem_of_app. by left.
    + right. rewrite elem_of_app. right. rewrite Ek in HT, Hbef, Hy, Hdisj.
      apply (before_split _ (from 0 l ++ k) p2) in Hbef; [|done | by rewrite <- app_assoc].
      apply elem_of_app in Hbef as [Hb0 | Hb0]; [by destruct (Hdisj _ Hb0) | done].
Qed.

Lemma complete_write l e (ts : list _BinlogToken) : (b ≤ length l)%nat → complete l ts →
  complete (l ++ [e]) (ts ++ from 0 [e]).
Proof.
  intros Hb H y. rewrite from_app, !elem_of_app by done. intros [Hy | Hy]; [|by right; right].
  destruct (H y Hy) as [? | ?]; [by left | by right; left].
Qed.

Lemma from_resume_write origin l e p : ev_position e ∉ origin :: (ev_position <$> l) →
  p ∈ origin :: (ev_position <$> l) →
  from (resume (Some p) (l ++ [e])) (l ++ [e]) = from (resume (Some p) l) l ++ from 0 [e].
Proof. intros He Hp. rewrite resume_app by (intros <-; done). apply from_app, resume_bound. Qed.

Lemma safe_write origin l e p : (b ≤ length l)%nat → ev_position e ∉ origin :: (ev_position <$> l) →
  safe_position origin l p → safe_position origin (l ++ [e]) p.
Proof.
  intros Hb He [Hp Hc]. split.
  - rewrite fmap_app, elem_of_cons, elem_of_app. apply elem_of_cons in Hp as [-> | Hp]; [by left | right; by left].
  - rewrite (from_resume_write origin) by done. by apply complete_write.
Qed.
End Log.

(** ** Histories *)

Section Histories.
Variables (events : list string) (origin : string * Z).
Abbreviation from := (rows_from events).
Implicit Types (σ : binlog_state) (s : BinlogSource) (l : list BinlogEvent).

(** Where the reader is, or will start. *)
Definition start_at (l : list BinlogEvent) s : nat := default (resume (_committed s) l) (_stream s).

(** The rows to be settled or handed out, in order. *)
Definition future (l : list BinlogEvent) s : list _BinlogToken :=
  _pending s ++ (_buffered s).*2 ++ from (start_at l s) l.

Record source_ok (b : nat) (A : gset _BinlogToken) (l : list BinlogEvent) s : Prop := {
  ok_committed : ∃ p, _committed s = Some p ∧ safe_position events b A origin l p;
  ok_covered : covered events b A l (future l s);
  ok_complete : complete events b A l (future l s);
  ok_stream n : _stream s = Some n → (n ≤ length l)%nat;
  ok_future t : t ∈ future l s → t ∈ from 0 l;
  ok_acked t : t ∈ _acked s → t ∈ A;
}.

(** Reading moves rows from the log to the buffer and to the caller. *)
Lemma read_events_future limit av rows buf r b n :
  (length rows < limit → buf = [])%nat → read_events events limit av rows buf = (r, b, n) →
  r.*2 ++ b.*2 ++ from n av = rows.*2 ++ buf.*2 ++ from 0 av ∧ (n ≤ length av)%nat.
Proof.
  revert rows buf r b n. induction av as [|e av IH]; intros rows buf r b n Hbuf; simpl.
  { intros [= <- <- <-]. done. }
  destruct (limit <=? length rows)%nat eqn:E; [intros [= <- <- <-]; split; [done | lia]|].
  apply Nat.leb_gt in E. specialize (Hbuf E). subst buf.
  destruct (read_events _ _ _ _ _) as [[r' b'] n'] eqn:R. intros [= <- <- <-].
  apply IH in R as [H Hn].
  - split; [|simpl; lia]. change (from (S n') (e :: av)) with (from n' av). rewrite H, from_cons, fmap_app. simpl.
    rewrite <- (take_drop (limit - length rows) (event_items events e)) at 3. by rewrite fmap_app, <- !app_assoc.
  - rewrite length_app, length_take. intros Hlt. apply nil_length_inv. rewrite length_app, length_drop. simpl. lia.
Qed.

Lemma fetch_future limit l s rows s' : (∀ n, _stream s = Some n → (n ≤ length l)%nat) →
  _fetch_sync events limit l s = (rows, s') →
  future l (append_pending rows s') = future l s ∧ _committed s' = _committed s ∧ _acked s' = _acked s ∧
  _loaded s' = _loaded s ∧ ∀ n, _stream s' = Some n → (n ≤ length l)%nat.
Proof.
  intros Hstream. unfold _fetch_sync. fold (start_at l s).
  assert (start_at l s ≤ length l)%nat as Hat.
  { unfold start_at. destruct (_stream s) as [n|] eqn:E; [by apply Hstream | apply resume_bound]. }
  destruct (read_events _ _ _ _ _) as [[r b] n] eqn:R. intros [= <- <-]. apply read_events_future in R as [H Hn].
  - rewrite length_drop in Hn. split_and!; [|done..|simpl; intros m [= <-]; lia].
    unfold future. change (start_at l (append_pending _ _)) with (start_at l s + n). cbn [append_pending _pending _buffered].
    rewrite <- !app_assoc. f_equal. unfold rows_from in *. rewrite drop_drop in H. rewrite H, drop_0, app_assoc, <- fmap_app, take_drop. done.
  - rewrite length_take. intros Hlt. apply nil_length_inv. rewrite length_drop. lia.
Qed.

Lemma fetch_ok b A limit l s rows s' : source_ok b A l s → _fetch_sync events limit l s = (rows, s') →
  source_ok b A l (append_pending rows s').
Proof.
  intros [Hc Hcov Hcom Hs Hf Ha] (H1 & H2 & H3 & _ & H4)%fetch_future; [|done].
  split; rewrite ?H1; simpl; rewrite ?H2, ?H3; done.
Qed.

Lemma write_ok b A l e s : (b ≤ length l)%nat → NoDup (ev_position <$> (l ++ [e])) →
  ev_position e ∉ origin :: (ev_position <$> l) → source_ok b A l s → source_ok b A (l ++ [e]) s.
Proof.
  intros Hb Hnd He [(p & Hp & Hsafe) Hcov Hcom Hs Hf Ha].
  assert (future (l ++ [e]) s = future l s ++ from 0 [e]) as Hfut.
  { unfold future, start_at. rewrite <- !app_assoc. do 2 f_equal. destruct (_stream s) as [n|]; simpl.
    - apply from_app. by apply Hs.
    - rewrite Hp. apply (from_resume_write _ origin); [done | by destruct Hsafe]. }
  split; rewrite ?Hfut.
  - exists p. split; [done|]. by apply safe_write.
  - by apply covered_write.
  - by apply complete_write.
  - intros n Hn. rewrite length_app. apply Hs in Hn. lia.
  - intros t. rewrite elem_of_app, from_app, elem_of_app by lia. intros [Ht | Ht]; [left; by apply Hf | by right].
  - done.
Qed.

(** A reader that resumes at a safe position, behind what was read before. *)
Lemma rewind_ok b A l s s' p : NoDup (ev_position <$> l) → safe_position events b A origin l p →
  covered events b A l (_pending s ++ (_buffered s).*2) → (∀ t, t ∈ _pending s ++ (_buffered s).*2 → t ∈ from 0 l) →
  (∀ t, t ∈ _acked s → t ∈ A) → _stream s' = None → _committed s' = Some p → _pending s' = _pending s →
  _buffered s' = _buffered s → _acked s' = _acked s → source_ok b A l s'.
Proof.
  intros Hnd Hp Hcov Hin Ha Es Ec Ep Eb Ea.
  assert (future l s' = (_pending s ++ (_buffered s).*2) ++ from (resume (Some p) l) l) as Hfut.
  { unfold future, start_at. by rewrite Es, Ec, Ep, Eb, <- app_assoc. }
  split; rewrite ?Hfut.
  - by exists p.
  - apply covered_rewind; [done | done | apply Hp].
  - intros y Hy. destruct (proj2 Hp y Hy) as [H | H]; [by left | right; rewrite elem_of_app; by right].
  - by rewrite Es.
  - intros t. rewrite elem_of_app. intros [Ht | Ht]; [by apply Hin | by eapply from_sublist].
  - by rewrite Ea.
Qed.

Lemma pop_acked_spec acked pending adv a rest acked' : pop_acked acked pending adv = (a, rest, acked') →
  ∃ popped, pending = popped ++ rest ∧ (∀ t, t ∈ popped → t ∈ acked) ∧ acked' ⊆ acked ∧
    a = match last popped with Some t => Some t | None => adv end.
Proof.
  revert acked adv. induction pending as [|t pending IH]; intros acked adv; simpl.
  { intros [= <- <- <-]. exists []. split_and!; [done | by intros t ?%elem_of_nil | done | done]. }
  case_bool_decide as Ht; [|intros [= <- <- <-]; exists []; split_and!; [done | by intros u ?%elem_of_nil | done | done]].
  intros (popped & -> & Hin & Hsub & ->)%IH. exists (t :: popped). split_and!; [done | | by etransitivity; [|apply subseteq_difference_l] |].
  - intros u [-> | Hu]%elem_of_cons; [done|]. apply Hin in Hu. by apply elem_of_difference in Hu as [? _].
  - rewrite last_cons. by destruct (last popped).
Qed.

(** Acknowledged rows at the front do not matter any more. *)
Lemma popped_ok (b : nat) (A A' : gset _BinlogToken) l (popped ts : list _BinlogToken) : A ⊆ A' → (∀ u, u ∈ popped → u ∈ A') →
  covered events b A l (popped ++ ts) → complete events b A l (popped ++ ts) →
  covered events b A' l ts ∧ complete events b A' l ts.
Proof.
  intros HA Hin Hcov Hcom. split.
  - intros p1 x p2 -> y Hy Hb. destruct (Hcov (popped ++ p1) x p2) with (y := y) as [H | [H | H]%elem_of_app];
      [by rewrite <- app_assoc | done | done | left; by apply HA | left; by apply Hin | by right].
  - intros y Hy. destruct (Hcom y Hy) as [H | [H | H]%elem_of_app]; [left; by apply HA | left; by apply Hin | by right].
Qed.

Lemma safe_more (b : nat) (A A' : gset _BinlogToken) l p : A ⊆ A' →
  safe_position events b A origin l p → safe_position events b A' origin l p.
Proof. intros HA [Hk H]. split; [done|]. intros y Hy. destruct (H y Hy) as [H' | H']; [left; by apply HA | by right]. Qed.

(** The position of the last row of an event, once everything up to it is acknowledged. *)
Lemma advanced_safe (b : nat) (A A' : gset _BinlogToken) l (popped ts : list _BinlogToken) a : NoDup (ev_position <$> l) → A ⊆ A' →
  (∀ u, u ∈ popped ++ [a] → u ∈ A') → covered events b A l ((popped ++ [a]) ++ ts) → a ∈ from 0 l →
  (token_rows a <=? token_row a + 1)%nat = true → safe_position events b A' origin l (position a).
Proof.
  intros Hnd HA Hin Hcov Ha Hlast%Nat.leb_le. rewrite <- app_assoc in Hcov. split.
  - apply position_from in Ha as (e & He & -> & _). right. apply list_elem_of_fmap. by exists e.
  - destruct (resume_behind _ _ _ Hnd Ha Hlast) as (l1 & Hsplit). intros y Hy.
    assert (y ∈ from 0 l) as Hy0 by by eapply from_sublist. rewrite Hsplit in Hy0.
    apply elem_of_app in Hy0 as [Hy0 | [-> | Hy0]%elem_of_cons];
      [|left; apply Hin; rewrite elem_of_app; right; by left | by right].
    left. destruct (Hcov popped a ts eq_refl y Hy) as [H | H];
      [by exists l1, (from (resume (Some (position a)) l) l) | by apply HA | apply Hin; rewrite elem_of_app; by left].
Qed.

Definition saved_position (adv : option _BinlogToken) : option (string * Z) :=
  match adv with
  | Some a => if (token_rows a <=? token_row a + 1)%nat then Some (position a) else None
  | None => None
  end.

Lemma ack_ok b A l s t s' save : NoDup (ev_position <$> l) → source_ok b A l s → ack_token t s = (s', save) →
  source_ok b ({[t]} ∪ A) l s' ∧ ∀ p, save = Some p → safe_position events b ({[t]} ∪ A) origin l p.
Proof.
  intros Hnd [(p & Hp & Hsafe) Hcov Hcom Hs Hf Ha]. unfold ack_token.
  destruct (pop_acked _ _ _) as [[adv rest] acked'] eqn:Hpop. fold (saved_position adv). intros [= <- <-].
  apply pop_acked_spec in Hpop as (popped & Hpend & Hin & Hsub & Hadv).
  assert (A ⊆ {[t]} ∪ A) as HA by apply union_subseteq_r.
  assert (∀ u, u ∈ {[t]} ∪ _acked s → u ∈ {[t]} ∪ A) as Hacked.
  { intros u [Hu | Hu]%elem_of_union; rewrite elem_of_union; [by left | right; by apply Ha]. }
  assert (future l s = popped ++ rest ++ (_buffered s).*2 ++ from (start_at l s) l) as Hfut.
  { unfold future. by rewrite Hpend, <- app_assoc. }
  rewrite Hfut in *.
  assert (∀ q, saved_position adv = Some q → safe_position events b ({[t]} ∪ A) origin l q) as Hsave.
  { intros q. destruct (last popped) as [a|] eqn:Hl; subst adv; [|done]. simpl.
    destruct (_ <=? _)%nat eqn:Hlast; [|done]. intros [= <-]. apply last_Some in Hl as [pre ->].
    eapply advanced_safe; [done | exact HA | | exact Hcov | | done].
    - intros u Hu. by apply Hacked, Hin.
    - apply Hf. rewrite !elem_of_app. left. right. by left. }
  split; [|done].
  apply (popped_ok _ _ _ _ _ _ HA) in Hcov as [Hcov' Hcom']; [|intros u Hu; by apply Hacked, Hin | done].
  assert (∀ u, u ∈ acked' → u ∈ {[t]} ∪ A) as Hacked' by (intros u Hu; by apply Hacked, Hsub).
  destruct (_stream s) as [n|] eqn:Es.
  - unfold start_at in Hcov', Hcom', Hf. rewrite Es in Hcov', Hcom', Hf. split; simpl; try done.
    + destruct (saved_position adv) as [q|]; [exists q; split; [done | by apply Hsave] | exists p].
      split; [done | exact (safe_more _ _ _ _ _ HA Hsafe)].
    + intros u Hu. apply Hf. rewrite elem_of_app. by right.
  - apply (rewind_ok b _ l {| _stream := None; _loaded := _loaded s; _committed := _committed s; _buffered := _buffered s;
        _pending := rest; _acked := acked' |} _ (default p (saved_position adv))); simpl; try done.
    + destruct (saved_position adv) as [q|]; [by apply Hsave | exact (safe_more _ _ _ _ _ HA Hsafe)].
    + rewrite app_assoc in Hcov'. by eapply covered_app.
    + intros u Hu. apply Hf. rewrite app_assoc, (elem_of_app (popped ++ rest)), elem_of_app.
      apply elem_of_app in Hu as [Hu | Hu]; [left; by right|]. right. rewrite elem_of_app. by left.
    + by destruct (saved_position adv).
Qed.

(** ** Every history *)

Definition source_inv (b : nat) σ : Prop :=
  if _loaded (source σ) then source_ok b (acknowledged σ) (log σ) (source σ)
  else source σ = new_source ∧ live σ = ∅.

Definition store_inv (b : nat) σ : Prop :=
  (b ≤ length (log σ))%nat ∧ ∃ p, stored σ = Some p ∧ safe_position events b (acknowledged σ) origin (log σ) p.

Record inv σ : Prop := {
  inv_log : NoDup (origin :: (ev_position <$> log σ));
  inv_opened : match first_open σ with
               | None => stored σ = None ∧ source σ = new_source ∧ live σ = ∅
               | Some b => store_inv b σ ∧ source_inv b σ
               end;
}.

(** The fetches that lose rows, and the first save that fails, are left out. *)
Definition lossless (a : action) : Prop :=
  match a with FetchDropped _ | OpenFails => False | _ => True end.

Lemma current_known l : current_position origin l ∈ origin :: (ev_position <$> l).
Proof.
  unfold current_position. destruct (last l) as [e|] eqn:E; simpl; [right | by left].
  apply last_Some in E as [k ->]. apply list_elem_of_fmap. exists e. split; [done|]. rewrite elem_of_app. right. by left.
Qed.

Lemma from_end l : from (length l) l = [].
Proof. unfold rows_from. by rewrite drop_all. Qed.

(** A fresh source that starts at a safe position. *)
Lemma fresh_ok b A l p : NoDup (ev_position <$> l) → safe_position events b A origin l p →
  source_ok b A l {| _stream := None; _loaded := true; _committed := Some p; _buffered := []; _pending := []; _acked := ∅ |}.
Proof.
  intros Hnd Hp. apply (rewind_ok b A l new_source _ p); simpl; try done.
  - intros p1 x p2 E. by destruct p1.
  - by intros t ?%elem_of_nil.
Qed.

Lemma binlog_open_inv σ : inv σ → inv (open_state origin σ) ∧ _loaded (source (open_state origin σ)) = true ∧
  is_Some (first_open (open_state origin σ)) ∧ live (open_state origin σ) = live σ.
Proof.
  intros [Hl Ho]. pose proof (NoDup_cons_1_2 _ _ Hl) as Hnd. unfold open_state, open.
  destruct (first_open σ) as [b|] eqn:Hfirst.
  - destruct Ho as [[Hb (p & Hst & Hp)] Hsrc]. unfold source_inv in Hsrc.
    destruct (_loaded (source σ)) eqn:Hload.
    + split_and!; simpl; [|done..]. split; simpl; [done|]. unfold source_inv. simpl. rewrite Hload. split; [|done].
      split; [done|]. by exists p.
    + destruct Hsrc as [Hsrc Hlive]. rewrite Hst, Hsrc. simpl. split_and!; [|done..]. split; simpl; [done|]. split; [split; [done|]; by exists p|].
      unfold source_inv. simpl. by apply fresh_ok.
  - destruct Ho as (-> & -> & ->). simpl. split_and!; [|done..]. split; simpl; [done|].
    assert (safe_position events (length (log σ)) (acknowledged σ) origin (log σ) (current_position origin (log σ))) as Hp.
    { split; [apply current_known|]. intros y. by rewrite from_end, elem_of_nil. }
    split; [split; [done|]; by eexists|]. by apply fresh_ok.
Qed.

(** Retries and failures only forget the delivery. *)
Lemma fewer_live i σ : inv σ → inv (set_live (delete i (live σ)) σ).
Proof.
  intros [Hl Ho]. split; simpl; [done|]. destruct (first_open σ) as [b|].
  - destruct Ho as [Hst Hsrc]. split; [exact Hst|]. unfold source_inv in *. simpl.
    destruct (_loaded (source σ)); [exact Hsrc|]. destruct Hsrc as [-> ->]. by rewrite delete_empty.
  - destruct Ho as (-> & -> & ->). by rewrite delete_empty.
Qed.

Lemma binlog_step_inv a σ σ' : lossless a → inv σ → step events origin a σ = Some σ' → inv σ'.
Proof.
  intros Ha Hσ. destruct a as [e|limit| | |i saved|i|i| |]; simpl; try done.
  - case_bool_decide as He; [done|]. intros [= <-]. destruct Hσ as [Hl Ho].
    assert (NoDup (origin :: (ev_position <$> (log σ ++ [e])))) as Hl'.
    { rewrite fmap_app, app_comm_cons. apply NoDup_app. split_and!; [done | | apply NoDup_singleton].
      intros p Hp ->%list_elem_of_singleton. done. }
    split; simpl; [done|]. destruct (first_open σ) as [b|]; [|done].
    destruct Ho as [[Hb (p & Hst & Hp)] Hsrc]. split.
    + split; simpl; [rewrite length_app; lia|]. exists p. split; [done|]. by apply safe_write.
    + unfold source_inv in *. simpl. destruct (_loaded (source σ)); [|done].
      apply write_ok; [done | by apply (NoDup_cons_1_2 origin) | done | done].
  - destruct (binlog_open_inv _ Hσ) as (Hσ' & Hload & [b Hfirst] & _).
    destruct (_fetch_sync events limit _ _) as [rows s] eqn:Hf. intros [= <-].
    destruct Hσ' as [Hl Ho]. rewrite Hfirst in Ho. destruct Ho as [Hst Hsrc]. unfold source_inv in Hsrc. rewrite Hload in Hsrc.
    split; simpl; [done|]. rewrite Hfirst. split; [exact Hst|]. unfold source_inv. simpl.
    pose proof (fetch_future _ _ _ _ _ (ok_stream _ _ _ _ Hsrc) Hf) as (_ & _ & _ & Hl' & _). rewrite Hl', Hload.
    by eapply fetch_ok.
  - destruct (live σ !! i) as [t|] eqn:Hi; [|done]. destruct (ack_token t (source σ)) as [s save] eqn:Hack.
    intros [= <-]. destruct Hσ as [Hl Ho]. split; simpl; [done|].
    destruct (first_open σ) as [b|]; [|destruct Ho as (_ & _ & Hlive); by rewrite Hlive in Hi].
    destruct Ho as [[Hb (p & Hst & Hp)] Hsrc]. unfold source_inv in Hsrc.
    assert (acknowledged σ ⊆ {[t]} ∪ acknowledged σ) as HA by apply union_subseteq_r.
    assert (_loaded s = _loaded (source σ)) as Hls.
    { unfold ack_token in Hack. destruct (pop_acked _ _ _) as [[adv rest] acked']. by injection Hack as <- _. }
    destruct (_loaded (source σ)) eqn:Hload.
    + destruct (ack_ok _ _ _ _ _ _ _ (NoDup_cons_1_2 _ _ Hl) Hsrc Hack) as [Hok Hsafe]. split.
      * split; [done|]. simpl. destruct save as [q|]; [destruct saved|].
        -- exists q. split; [done | by apply Hsafe].
        -- exists p. split; [done | exact (safe_more _ _ _ _ _ HA Hp)].
        -- exists p. split; [done | exact (safe_more _ _ _ _ _ HA Hp)].
      * unfold source_inv. simpl. by rewrite Hls.
    + destruct Hsrc as [_ Hlive]. by rewrite Hlive in Hi.
  - destruct (live σ !! i); [|done]. intros [= <-]. by apply fewer_live.
  - destruct (live σ !! i); [|done]. intros [= <-]. by apply fewer_live.
  - intros [= <-]. destruct Hσ as [Hl Ho]. split; simpl; [done|].
    destruct (first_open σ) as [b|]; [|by destruct Ho as (-> & -> & ->)]. destruct Ho as [Hst Hsrc].
    split; [exact Hst|]. unfold source_inv in *. simpl. destruct (_loaded (source σ)) eqn:Hload; simpl.
    + destruct Hsrc as [(p & Hp & Hsafe) Hcov Hcom Hs Hf Hac]. rewrite ?Hload.
      apply (rewind_ok b _ _ (source σ) _ p); simpl; try done; [by apply (NoDup_cons_1_2 origin) | |].
      * unfold future in Hcov. rewrite app_assoc in Hcov. by eapply covered_app.
      * intros t Ht. apply Hf. unfold future. rewrite app_assoc, elem_of_app. by left.
    + destruct Hsrc as [-> ->]. done.
  - intros [= <-]. destruct Hσ as [Hl Ho]. split; simpl; [done|].
    destruct (first_open σ) as [b|]; [|by destruct Ho as (-> & _ & _)]. destruct Ho as [Hst _]. by split.
Qed.

Lemma binlog_run_inv acts σ σ' : Forall lossless acts → inv σ → run events origin acts σ = Some σ' → inv σ'.
Proof.
  intros Hl. revert σ. induction Hl as [|a acts Ha Hl IH]; intros σ Hσ; simpl; [by intros [= <-]|].
  intros (σ1 & H1 & H2)%bind_Some. eapply IH; [by eapply binlog_step_inv | done].
Qed.

(** C21. A row that was written after the first open and that no handler has
    acknowledged is among those a restarted process reads, whatever was
    retried, failed, closed or restarted before. *)
Theorem unacknowledged_rows_read_again acts σ b y : Forall lossless acts → run events origin acts start = Some σ →
  first_open σ = Some b → y ∈ from b (log σ) → y ∉ acknowledged σ →
  y ∈ from (resume (stored σ) (log σ)) (log σ).
Proof.
  intros Hl Hrun Hb Hy Hnot. assert (inv start) as Hstart by (split; [apply NoDup_singleton | done]).
  destruct (binlog_run_inv _ _ _ Hl Hstart Hrun) as [_ Ho]. rewrite Hb in Ho.
  destruct Ho as [[_ (p & -> & _ & Hp)] _]. by destruct (Hp y Hy).
Qed.
End Histories.

(** ** A log of orders *)

Definition inserts : list string := ["insert"%string].

Definition order (pos : Z) (ids : list Z) : BinlogEvent :=
  {| ev_file := "log.1"; ev_pos := pos; ev_kind := Some "insert"%string; ev_schema := VStr "shop"; ev_table := VStr "orders";
     ev_timestamp := VInt 0; ev_rows := (λ n, [("values"%string, VDict [(VStr "id", VInt n)])]) <$> ids |}.

Definition origin_position : string * Z := ("log.1"%string, 4%Z).

Definition token (pos : Z) (row rows : nat) : _BinlogToken := (("log.1"%string, pos), (row, rows)).

(** An event of two rows and one of one; the second row of the first event
    fails, the others are acknowledged; the process restarts. *)
Definition failing_history : list action :=
  [Fetch 10; Write (order 100 [1%Z; 2%Z]); Write (order 200 [3%Z]); Fetch 10; Ack 0 true; FailDelivery 1; Ack 2 true; Restart].

Definition after_failure : binlog_state :=
  Eval vm_compute in default start (run inserts origin_position failing_history start).

Lemma failing_history_runs : run inserts origin_position failing_history start = Some after_failure.
Proof. vm_compute. reflexivity. Qed.

Lemma unacknowledged_rows_read_again_witness :
  token 100 1 2 ∈ rows_from inserts (resume (stored after_failure) (log after_failure)) (log after_failure).
Proof.
  apply (unacknowledged_rows_read_again inserts origin_position failing_history after_failure 0);
    [by repeat constructor | exact failing_history_runs | reflexivity | |].
  - apply (bool_decide_unpack _). vm_compute. exact I.
  - apply (bool_decide_unpack _). vm_compute. exact I.
Defined.

(** The failed row is not delivered again before the restart, and nothing is
    saved after it: the restarted process reads all three rows. *)
Example failed_row_blocks :
  (λ σ, (stored σ, dom (live σ))) <$>
    run inserts origin_position (take 7 failing_history ++ [Fetch 10]) start = Some (Some origin_position, ∅) ∧
  rows_from inserts (resume (stored after_failure) (log after_failure)) (log after_failure)
    = [token 100 0 2; token 100 1 2; token 200 0 1].
Proof. split; vm_compute; reflexivity. Qed.

(** A fetch that is cancelled, when the task is paused, after it has read a
    row: the row is never handed out, and the next acknowledgement passes it. *)
Example paused_fetch_loses_row :
  (λ σ, (stored σ, bool_decide (token 100 0 1 ∈ acknowledged σ),
         rows_from inserts (resume (stored σ) (log σ)) (log σ))) <$>
    run inserts origin_position
      [Fetch 10; Write (order 100 [1%Z]); FetchDropped 10; Write (order 200 [2%Z]); Fetch 10; Ack 0 true] start
  = Some (Some ("log.1"%string, 200%Z), false, []).
Proof. vm_compute. reflexivity. Qed.

(** A source that is closed and opened again while rows are in flight keeps
    their tokens: once the rows were read again, nothing is ever saved. *)
Example reopened_source_stops_saving :
  (λ σ, (stored σ, _pending (source σ))) <$>
    run inserts origin_position
      [Fetch 10; Write (order 100 [1%Z]); Write (order 200 [2%Z]); Fetch 10; Close; Fetch 10; Ack 2 true; Ack 3 true;
       Write (order 300 [3%Z]); Fetch 10; Ack 4 true] start
  = Some (Some ("log.1"%string, 200%Z), [token 100 0 1; token 200 0 1; token 300 0 1]).
Proof. vm_compute. reflexivity. Qed.

(** When the save of the first position fails it is not tried again: a restart
    before the first commit begins at the end of the log. *)
Example first_save_lost :
  (λ σ, (stored σ, live σ)) <$>
    run inserts origin_position
      [OpenFails; Fetch 10; Write (order 100 [1%Z]); Fetch 10; Restart; Fetch 10] start
  = Some (Some ("log.1"%string, 100%Z), ∅).
Proof. vm_compute. reflexivity. Qed.

(** An acknowledgement that also completes the first rows of a later event does
    not save the position of the event it completes. *)
Example completed_event_not_saved :
  stored <$> run inserts origin_position
    [Fetch 10; Write (order 100 [1%Z]); Write (order 200 [2%Z; 3%Z]); Fetch 10; Ack 1 true; Ack 0 true] start
  = Some (Some origin_position).
Proof. vm_compute. reflexivity. Qed.
