(* ===== verification/WorkerPlane.v ===== *)
(** * Worker deployments: the control plane

    Work agents register with the control plane and run workflow packages as
    deployments.  This file is the control plane's side
    ([api/worker_agent_service.py], [api/routers/worker_agents.py],
    [api/worker_agent_connection_registry.py], the tables of
    [db/models.py]): every function runs between two awaits, since the lock
    of the registry is never held across one and [put] on an unbounded queue
    does not suspend. *)

From stdpp Require Import base gmap sets list strings numbers sorting.
From Stdlib Require Import ZArith Lia Ascii.
From S2P Require Import Prelude PyFloat Value.

(** ** Vocabulary ([api/schemas.py]) *)

Inductive WorkerAgentStatus := agent_offline | agent_online | agent_unknown.
Inductive WorkerDeploymentDesiredStatus := desired_running | desired_stopped.
Inductive WorkerDeploymentObservedStatus :=
| obs_pending | obs_assigned | obs_preparing | obs_installing | obs_checking | obs_running
| obs_stopping | obs_stopped | obs_failed | obs_cancelled.
Inductive WorkerAgentCommandKind := start_deployment | stop_deployment | restart_deployment | sync_agent_state.
Inductive WorkerAgentCommandAckStatus := wack_accepted | wack_rejected.
Inductive WorkerAgentCommandResultStatus := wres_succeeded | wres_failed | wres_timeout | wres_cancelled.
(** The values of the column [status] of a command. *)
Inductive WorkerAgentCommandStatus :=
| wcmd_pending | wcmd_dispatched | wcmd_accepted | wcmd_rejected
| wcmd_succeeded | wcmd_failed | wcmd_timeout | wcmd_cancelled.
Inductive WorkerAgentSessionStatus := wsess_active | wsess_disconnected.

#[global] Instance WorkerAgentStatus_eq_dec : EqDecision WorkerAgentStatus.
Proof. solve_decision. Defined.
#[global] Instance WorkerDeploymentObservedStatus_eq_dec : EqDecision WorkerDeploymentObservedStatus.
Proof. solve_decision. Defined.
#[global] Instance WorkerAgentCommandKind_eq_dec : EqDecision WorkerAgentCommandKind.
Proof. solve_decision. Defined.
#[global] Instance WorkerAgentCommandStatus_eq_dec : EqDecision WorkerAgentCommandStatus.
Proof. solve_decision. Defined.
#[global] Instance WorkerAgentSessionStatus_eq_dec : EqDecision WorkerAgentSessionStatus.
Proof. solve_decision. Defined.

Definition worker_result_status (r : WorkerAgentCommandResultStatus) : WorkerAgentCommandStatus :=
  match r with
  | wres_succeeded => wcmd_succeeded | wres_failed => wcmd_failed
  | wres_timeout => wcmd_timeout | wres_cancelled => wcmd_cancelled
  end.

Definition worker_kind_text (k : WorkerAgentCommandKind) : string :=
  match k with
  | start_deployment => "start_deployment" | stop_deployment => "stop_deployment"
  | restart_deployment => "restart_deployment" | sync_agent_state => "sync_agent_state"
  end.

Definition WORKER_AGENT_CAPABILITIES : list string :=
  ["deployment.start"; "deployment.stop"; "deployment.restart"; "agent.sync_state"].

(** [get_worker_agent_command_capability]; every kind has an entry. *)
Definition WORKER_AGENT_COMMAND_CAPABILITY_BY_KIND (k : WorkerAgentCommandKind) : string :=
  match k with
  | start_deployment => "deployment.start" | stop_deployment => "deployment.stop"
  | restart_deployment => "deployment.restart" | sync_agent_state => "agent.sync_state"
  end.

Definition WORKER_AGENT_REDELIVERABLE_COMMAND_STATUSES : list WorkerAgentCommandStatus :=
  [wcmd_pending; wcmd_dispatched].

Definition SUPPORTED_WORKER_AGENT_PROTOCOL_VERSION : string := "1".
Definition DEFAULT_WORKER_AGENT_HEARTBEAT_INTERVAL_S : Z := 30.

Definition text_le (a b : string) : Prop := String.leb a b = true.

#[global] Instance text_le_dec a b : Decision (text_le a b).
Proof. unfold text_le. apply _. Defined.

Definition _accepted_capabilities (requested : list string) : list string :=
  merge_sort text_le (remove_dups (List.filter (λ c, bool_decide (c ∈ WORKER_AGENT_CAPABILITIES)) requested)).

(** ** Tables ([db/models.py]) *)

Record WorkerAgent := {
  worker_agent_id : string;
  display_name : string;
  wa_status : WorkerAgentStatus;
  wa_execution_mode : string;
  max_concurrent_deployments : Z;
  used_slots : Z;
  labels_json : list (string * string);
  capabilities_json : list string;
  agent_version : option string;
  onestep_version : option string;
  python_version : option string;
  platform_json : list (string * value);
  connection_token_hash : string;
  registered_at : Z;
  wa_last_seen_at : option Z;
  wa_created_at : Z;
  wa_updated_at : Z;
}.

Record WorkerAgentSession := {
  ws_session_id : string;
  ws_worker_agent_id : string;
  ws_protocol_version : string;
  ws_status : WorkerAgentSessionStatus;
  ws_capabilities_json : list string;
  ws_accepted_capabilities_json : list string;
  ws_connected_at : Z;
  ws_last_hello_at : Z;
  ws_last_message_at : Z;
  ws_disconnected_at : option Z;
  ws_updated_at : Z;
}.

Record WorkflowPackage := {
  package_id : string;
  workflow_id : string;
  version : string;
  filename : string;
  content_type : string;
  checksum_sha256 : string;
  size_bytes : Z;
  storage_path : string;
  entrypoint : string;
  metadata_json : list (string * value);
  wp_created_by : string;
  wp_created_at : Z;
}.

Record WorkerDeployment := {
  deployment_id : string;
  workflow_package_id : string;
  wd_worker_agent_id : string;
  desired_status : WorkerDeploymentDesiredStatus;
  observed_status : WorkerDeploymentObservedStatus;
  runtime_instance_id : option string;
  wd_execution_mode : string;
  params_json : list (string * value);
  env_json : list (string * string);
  credential_refs_json : list string;
  package_checksum : string;
  last_error_code : option string;
  last_error_message : option string;
  assigned_at : option Z;
  started_at : option Z;
  wd_finished_at : option Z;
  wd_created_by : string;
  wd_created_at : Z;
  wd_updated_at : Z;
}.

Record WorkerAgentCommand := {
  wc_command_id : string;
  wc_worker_agent_id : string;
  wc_deployment_id : option string;
  wc_session_id : option string;
  wc_kind : WorkerAgentCommandKind;
  wc_args_json : list (string * value);
  wc_timeout_s : Z;
  wc_status : WorkerAgentCommandStatus;
  wc_ack_status : option WorkerAgentCommandAckStatus;
  wc_result_json : option (list (string * value));
  wc_error_code : option string;
  wc_error_message : option string;
  wc_created_at : Z;
  wc_dispatched_at : option Z;
  wc_acked_at : option Z;
  wc_finished_at : option Z;
  wc_updated_at : Z;
}.

Record WorkerDeploymentEvent := {
  de_deployment_id : string;
  de_worker_agent_id : string;
  de_event_type : string;
  de_observed_status : option WorkerDeploymentObservedStatus;
  de_message : string;
  de_payload_json : list (string * value);
  de_created_at : Z;
}.

(** ** Messages *)

Record WorkerAgentHelloPayload := {
  whello_protocol_version : string;
  whello_worker_agent_id : string;
  whello_capabilities : list string;
  whello_max_concurrent_deployments : Z;
  whello_used_slots : Z;
  whello_running_deployments : list string;
}.

Record WorkerAgentHeartbeatPayload := {
  whb_worker_agent_id : string;
  whb_used_slots : Z;
  whb_running_deployments : list string;
}.

Record WorkerDeploymentEventPayload := {
  wev_deployment_id : string;
  wev_event_type : string;
  wev_observed_status : option WorkerDeploymentObservedStatus;
  wev_message : string;
  wev_payload : list (string * value);
}.

Record WorkerAgentCommandPayload := {
  wcp_command_id : string;
  wcp_kind : WorkerAgentCommandKind;
  wcp_deployment_id : option string;
  wcp_timeout_s : Z;
  wcp_args : list (string * value);
  wcp_created_at : Z;
}.

Record WorkerAgentCommandAckPayload := {
  wack_command_id : string;
  wack_status : WorkerAgentCommandAckStatus;
  wack_error_code : option string;
  wack_error_message : option string;
}.

Record WorkerAgentCommandResultPayload := {
  wres_command_id : string;
  wres_status : WorkerAgentCommandResultStatus;
  wres_result : option (list (string * value));
  wres_error_code : option string;
  wres_error_message : option string;
  wres_finished_at : Z;
}.

(** The schema of a hello. *)
Definition valid_hello (p : WorkerAgentHelloPayload) : bool :=
  ((1 <=? whello_max_concurrent_deployments p) && (0 <=? whello_used_slots p)
   && (whello_used_slots p <=? whello_max_concurrent_deployments p))%Z
  && str_nonempty (whello_protocol_version p).

(** ** The state of the service *)

Record LiveWorkerAgentConnection := { lw_session_id : string; lw_send_queue : nat }.

(** The tables and the files of packages; in the memory of the process the
    registry and the send queues of the connections. *)
Record Plane := {
  worker_agents : gmap string WorkerAgent;
  worker_sessions : list WorkerAgentSession;
  workflow_packages : gmap string WorkflowPackage;
  package_files : gmap string (list Init.Byte.byte);
  worker_deployments : gmap string WorkerDeployment;
  worker_commands : gmap string WorkerAgentCommand;
  deployment_events : list WorkerDeploymentEvent;
  live_agents : gmap string LiveWorkerAgentConnection;
  worker_queues : gmap nat (list WorkerAgentCommandPayload);
}.

Definition empty_plane : Plane :=
  {| worker_agents := ∅; worker_sessions := []; workflow_packages := ∅; package_files := ∅;
     worker_deployments := ∅; worker_commands := ∅; deployment_events := []; live_agents := ∅;
     worker_queues := ∅ |}.

Definition set_agents f (p : Plane) : Plane :=
  {| worker_agents := f (worker_agents p); worker_sessions := worker_sessions p;
     workflow_packages := workflow_packages p; package_files := package_files p;
     worker_deployments := worker_deployments p; worker_commands := worker_commands p;
     deployment_events := deployment_events p; live_agents := live_agents p; worker_queues := worker_queues p |}.
Definition set_sessions f (p : Plane) : Plane :=
  {| worker_agents := worker_agents p; worker_sessions := f (worker_sessions p);
     workflow_packages := workflow_packages p; package_files := package_files p;
     worker_deployments := worker_deployments p; worker_commands := worker_commands p;
     deployment_events := deployment_events p; live_agents := live_agents p; worker_queues := worker_queues p |}.
Definition set_packages f g (p : Plane) : Plane :=
  {| worker_agents := worker_agents p; worker_sessions := worker_sessions p;
     workflow_packages := f (workflow_packages p); package_files := g (package_files p);
     worker_deployments := worker_deployments p; worker_commands := worker_commands p;
     deployment_events := deployment_events p; live_agents := live_agents p; worker_queues := worker_queues p |}.
Definition set_deployments f (p : Plane) : Plane :=
  {| worker_agents := worker_agents p; worker_sessions := worker_sessions p;
     workflow_packages := workflow_packages p; package_files := package_files p;
     worker_deployments := f (worker_deployments p); worker_commands := worker_commands p;
     deployment_events := deployment_events p; live_agents := live_agents p; worker_queues := worker_queues p |}.
Definition set_commands f (p : Plane) : Plane :=
  {| worker_agents := worker_agents p; worker_sessions := worker_sessions p;
     workflow_packages := workflow_packages p; package_files := package_files p;
     worker_deployments := worker_deployments p; worker_commands := f (worker_commands p);
     deployment_events := deployment_events p; live_agents := live_agents p; worker_queues := worker_queues p |}.
Definition set_events f (p : Plane) : Plane :=
  {| worker_agents := worker_agents p; worker_sessions := worker_sessions p;
     workflow_packages := workflow_packages p; package_files := package_files p;
     worker_deployments := worker_deployments p; worker_commands := worker_commands p;
     deployment_events := f (deployment_events p); live_agents := live_agents p;
     worker_queues := worker_queues p |}.
Definition set_live f g (p : Plane) : Plane :=
  {| worker_agents := worker_agents p; worker_sessions := worker_sessions p;
     workflow_packages := workflow_packages p; package_files := package_files p;
     worker_deployments := worker_deployments p; worker_commands := worker_commands p;
     deployment_events := deployment_events p; live_agents := f (live_agents p);
     worker_queues := g (worker_queues p) |}.

Abbreviation WP := (SE Plane exn).

Definition http_error (status : Z) (detail : string) : exn :=
  Exn CException "HTTPException" (str_of_Z status +:+ ": " +:+ detail) None.

Definition not_found (what id : string) : exn := http_error 404 (what +:+ " " +:+ id +:+ " was not found").

(** [db.scalar(select(...).where(id))], or 404. *)
Definition get_or_404 {A} (table : Plane → gmap string A) (what id : string) : WP A :=
  row ← se_gets (λ p, table p !! id);
  match row with Some a => mret a | None => se_raise (not_found what id) end.

Definition get_worker_agent_or_404 : string → WP WorkerAgent := get_or_404 worker_agents "worker agent".
Definition get_workflow_package_or_404 : string → WP WorkflowPackage :=
  get_or_404 workflow_packages "workflow package".
Definition get_worker_deployment_or_404 : string → WP WorkerDeployment :=
  get_or_404 worker_deployments "worker deployment".

(** ** Rows that change *)

Definition with_deployment (desired : WorkerDeploymentDesiredStatus) (observed : WorkerDeploymentObservedStatus)
    (runtime code message : option string) (started finished : option Z) (now : Z) (d : WorkerDeployment)
    : WorkerDeployment :=
  {| deployment_id := deployment_id d; workflow_package_id := workflow_package_id d;
     wd_worker_agent_id := wd_worker_agent_id d; desired_status := desired; observed_status := observed;
     runtime_instance_id := runtime; wd_execution_mode := wd_execution_mode d; params_json := params_json d;
     env_json := env_json d; credential_refs_json := credential_refs_json d;
     package_checksum := package_checksum d; last_error_code := code; last_error_message := message;
     assigned_at := assigned_at d; started_at := started; wd_finished_at := finished;
     wd_created_by := wd_created_by d; wd_created_at := wd_created_at d; wd_updated_at := now |}.

(** [deployment.observed_status = o; deployment.updated_at = now], with the
    desired status given. *)
Definition observe (desired : WorkerDeploymentDesiredStatus) (o : WorkerDeploymentObservedStatus) (now : Z)
    (d : WorkerDeployment) : WorkerDeployment :=
  with_deployment desired o (runtime_instance_id d) (last_error_code d) (last_error_message d)
    (started_at d) (wd_finished_at d) now d.

Definition with_command (session : option string) (status : WorkerAgentCommandStatus)
    (ack : option WorkerAgentCommandAckStatus) (result : option (list (string * value)))
    (code message : option string) (dispatched acked finished : option Z) (now : Z) (c : WorkerAgentCommand)
    : WorkerAgentCommand :=
  {| wc_command_id := wc_command_id c; wc_worker_agent_id := wc_worker_agent_id c;
     wc_deployment_id := wc_deployment_id c; wc_session_id := session; wc_kind := wc_kind c;
     wc_args_json := wc_args_json c; wc_timeout_s := wc_timeout_s c; wc_status := status; wc_ack_status := ack;
     wc_result_json := result; wc_error_code := code; wc_error_message := message;
     wc_created_at := wc_created_at c; wc_dispatched_at := dispatched; wc_acked_at := acked;
     wc_finished_at := finished; wc_updated_at := now |}.

(** The object of a session's identity map is written back: SQLAlchemy emits
    the columns whose value differs from the one loaded. *)
Definition orm_column {A} `{EqDecision A} (loaded new stored : A) : A :=
  if decide (loaded = new) then stored else new.

Definition flush_agent (loaded new stored : WorkerAgent) : WorkerAgent :=
  {| worker_agent_id := worker_agent_id stored; display_name := display_name stored;
     wa_status := orm_column (wa_status loaded) (wa_status new) (wa_status stored);
     wa_execution_mode := wa_execution_mode stored;
     max_concurrent_deployments := orm_column (max_concurrent_deployments loaded)
       (max_concurrent_deployments new) (max_concurrent_deployments stored);
     used_slots := orm_column (used_slots loaded) (used_slots new) (used_slots stored);
     labels_json := labels_json stored;
     capabilities_json := orm_column (capabilities_json loaded) (capabilities_json new) (capabilities_json stored);
     agent_version := agent_version stored; onestep_version := onestep_version stored;
     python_version := python_version stored; platform_json := platform_json stored;
     connection_token_hash := connection_token_hash stored; registered_at := registered_at stored;
     wa_last_seen_at := orm_column (wa_last_seen_at loaded) (wa_last_seen_at new) (wa_last_seen_at stored);
     wa_created_at := wa_created_at stored;
     wa_updated_at := orm_column (wa_updated_at loaded) (wa_updated_at new) (wa_updated_at stored) |}.

(** The columns the handlers of a connection assign. *)
Definition with_agent (status : WorkerAgentStatus) (max_concurrent slots : Z) (capabilities : list string)
    (last_seen : option Z) (now : Z) (a : WorkerAgent) : WorkerAgent :=
  {| worker_agent_id := worker_agent_id a; display_name := display_name a; wa_status := status;
     wa_execution_mode := wa_execution_mode a; max_concurrent_deployments := max_concurrent; used_slots := slots;
     labels_json := labels_json a; capabilities_json := capabilities; agent_version := agent_version a;
     onestep_version := onestep_version a; python_version := python_version a; platform_json := platform_json a;
     connection_token_hash := connection_token_hash a; registered_at := registered_at a;
     wa_last_seen_at := last_seen; wa_created_at := wa_created_at a; wa_updated_at := now |}.

Definition commit_agent (loaded new : WorkerAgent) : WP unit :=
  se_modify (set_agents (alter (flush_agent loaded new) (worker_agent_id loaded))).

Definition with_session (status : WorkerAgentSessionStatus) (last_message : Z) (disconnected : option Z) (now : Z)
    (s : WorkerAgentSession) : WorkerAgentSession :=
  {| ws_session_id := ws_session_id s; ws_worker_agent_id := ws_worker_agent_id s;
     ws_protocol_version := ws_protocol_version s; ws_status := status;
     ws_capabilities_json := ws_capabilities_json s;
     ws_accepted_capabilities_json := ws_accepted_capabilities_json s; ws_connected_at := ws_connected_at s;
     ws_last_hello_at := ws_last_hello_at s; ws_last_message_at := last_message;
     ws_disconnected_at := disconnected; ws_updated_at := now |}.

(** [UPDATE worker_agent_sessions SET ... WHERE where]. *)
Definition update_sessions (where_ : WorkerAgentSession → bool) (f : WorkerAgentSession → WorkerAgentSession) : WP unit :=
  se_modify (set_sessions (fmap (λ s, if where_ s then f s else s))).

Definition is_session (id : string) (s : WorkerAgentSession) : bool := String.eqb (ws_session_id s) id.
Definition active_of (agent : string) (s : WorkerAgentSession) : bool :=
  String.eqb (ws_worker_agent_id s) agent && bool_decide (ws_status s = wsess_active).

(** ** Events *)

Definition record_worker_deployment_event (deployment agent event_type : string)
    (observed : option WorkerDeploymentObservedStatus) (message : string) (payload : list (string * value))
    (now : Z) : WP unit :=
  se_modify (set_events (λ es, es ++
    [{| de_deployment_id := deployment; de_worker_agent_id := agent; de_event_type := event_type;
        de_observed_status := observed; de_message := message; de_payload_json := payload;
        de_created_at := now |}])).

(** [if command.deployment_id is not None: record_worker_deployment_event(...)]. *)
Definition record_command_event (c : WorkerAgentCommand) (event_type : string)
    (observed : option WorkerDeploymentObservedStatus) (message : string) (payload : list (string * value))
    (now : Z) : WP unit :=
  match wc_deployment_id c with
  | None => mret ()
  | Some d => record_worker_deployment_event d (wc_worker_agent_id c) event_type observed message payload now
  end.

(** ** Sessions *)

(** [worker_agent] is the row as the connection's session loaded it; the new
    object is returned with the session and the accepted capabilities. *)
Definition handle_worker_agent_hello (worker_agent : WorkerAgent) (m : WorkerAgentHelloPayload)
    (session_id : string) (connected_at : Z) : WP (WorkerAgent * list string) :=
  _ ← se_lift (guard_else (String.eqb (whello_protocol_version m) SUPPORTED_WORKER_AGENT_PROTOCOL_VERSION)
        (value_error ("protocol_version=" +:+ whello_protocol_version m +:+ " is not supported")));
  _ ← se_lift (guard_else (String.eqb (whello_worker_agent_id m) (worker_agent_id worker_agent))
        (value_error "worker_agent_id does not match the authenticated connection token"));
  let accepted := _accepted_capabilities (whello_capabilities m) in
  _ ← update_sessions (active_of (worker_agent_id worker_agent))
        (λ s, with_session wsess_disconnected (ws_last_message_at s) (Some connected_at) connected_at s);
  let updated := with_agent agent_online (whello_max_concurrent_deployments m) (whello_used_slots m) accepted
                   (Some connected_at) connected_at worker_agent in
  _ ← se_modify (set_sessions (λ ss, ss ++
        [{| ws_session_id := session_id; ws_worker_agent_id := worker_agent_id worker_agent;
            ws_protocol_version := whello_protocol_version m; ws_status := wsess_active;
            ws_capabilities_json := whello_capabilities m; ws_accepted_capabilities_json := accepted;
            ws_connected_at := connected_at; ws_last_hello_at := connected_at;
            ws_last_message_at := connected_at; ws_disconnected_at := None; ws_updated_at := connected_at |}]));
  _ ← commit_agent worker_agent updated;
  mret (updated, accepted).

Definition mark_worker_agent_session_message (session_id : string) (occurred_at : Z) : WP unit :=
  update_sessions (is_session session_id)
    (λ s, with_session (ws_status s) occurred_at (ws_disconnected_at s) occurred_at s).

Definition apply_worker_agent_heartbeat (worker_agent : WorkerAgent) (session_id : string)
    (m : WorkerAgentHeartbeatPayload) (received_at : Z) : WP WorkerAgent :=
  _ ← se_lift (guard_else (String.eqb (whb_worker_agent_id m) (worker_agent_id worker_agent))
        (value_error "worker_agent_id does not match the authenticated connection token"));
  let updated := with_agent agent_online (max_concurrent_deployments worker_agent) (whb_used_slots m)
                   (capabilities_json worker_agent) (Some received_at) received_at worker_agent in
  _ ← commit_agent worker_agent updated;
  _ ← update_sessions (is_session session_id)
        (λ s, with_session (ws_status s) received_at (ws_disconnected_at s) received_at s);
  mret updated.

Definition close_worker_agent_session (worker_agent : WorkerAgent) (session_id : string) (disconnected_at : Z)
    : WP unit :=
  _ ← update_sessions (λ s, is_session session_id s && bool_decide (ws_status s = wsess_active))
        (λ s, with_session wsess_disconnected disconnected_at (Some disconnected_at) disconnected_at s);
  active ← se_gets (λ p, List.filter (active_of (worker_agent_id worker_agent)) (worker_sessions p));
  match active with
  | _ :: _ => mret ()
  | [] =>
      (* the identity map answers with the object the connection holds *)
      _ ← get_worker_agent_or_404 (worker_agent_id worker_agent);
      commit_agent worker_agent
        (with_agent agent_offline (max_concurrent_deployments worker_agent) (used_slots worker_agent)
           (capabilities_json worker_agent) (wa_last_seen_at worker_agent) disconnected_at worker_agent)
  end.

(** ** The registry *)

Definition register (agent session : string) (queue : nat) : WP unit :=
  se_modify (set_live <[agent := {| lw_session_id := session; lw_send_queue := queue |}]> id).

Definition unregister (agent session : string) : WP unit :=
  current ← se_gets (λ p, live_agents p !! agent);
  match current with
  | Some l => if String.eqb (lw_session_id l) session then se_modify (set_live (delete agent) id) else mret ()
  | None => mret ()
  end.

(** ** Deployment events of an agent *)

Definition apply_worker_deployment_event (worker_agent : WorkerAgent) (m : WorkerDeploymentEventPayload)
    (received_at : Z) : WP bool :=
  row ← se_gets (λ p, worker_deployments p !! wev_deployment_id m);
  match row with
  | Some d =>
      if String.eqb (wd_worker_agent_id d) (worker_agent_id worker_agent) then
        _ ← match wev_observed_status m with
            | Some o => se_modify (set_deployments
                          (alter (λ d, observe (desired_status d) o received_at d) (deployment_id d)))
            | None => mret ()
            end;
        _ ← record_worker_deployment_event (deployment_id d) (worker_agent_id worker_agent) (wev_event_type m)
              (wev_observed_status m) (wev_message m)
              (foldl (λ doc kv, dict_set kv.1 kv.2 doc) [("source", VStr "worker_agent")] (wev_payload m))
              received_at;
        mret true
      else mret false
  | None => mret false
  end.

(** ** Commands *)

Definition build_worker_agent_command_message (c : WorkerAgentCommand) : WorkerAgentCommandPayload :=
  {| wcp_command_id := wc_command_id c; wcp_kind := wc_kind c; wcp_deployment_id := wc_deployment_id c;
     wcp_timeout_s := wc_timeout_s c; wcp_args := wc_args_json c; wcp_created_at := wc_created_at c |}.

(** [ORDER BY created_at, command_id]. *)
Definition worker_command_le (a b : WorkerAgentCommand) : Prop :=
  ((wc_created_at a <? wc_created_at b)%Z
   || ((wc_created_at a =? wc_created_at b)%Z && String.leb (wc_command_id a) (wc_command_id b))) = true.

#[global] Instance worker_command_le_dec a b : Decision (worker_command_le a b).
Proof. unfold worker_command_le. apply _. Defined.

Definition redeliverable (agent : string) (c : WorkerAgentCommand) : bool :=
  String.eqb (wc_worker_agent_id c) agent
  && bool_decide (wc_status c ∈ WORKER_AGENT_REDELIVERABLE_COMMAND_STATUSES).

Definition list_redeliverable_worker_agent_commands (agent : string) (p : Plane) : list WorkerAgentCommand :=
  merge_sort worker_command_le (List.filter (redeliverable agent) (map_to_list (worker_commands p)).*2).

Definition update_command (id : string) (f : WorkerAgentCommand → WorkerAgentCommand) : WP unit :=
  se_modify (set_commands (alter f id)).

Definition _apply_worker_command_failure_to_deployment (c : WorkerAgentCommand) (code message : option string)
    (now : Z) : WP unit :=
  match wc_deployment_id c with
  | None => mret ()
  | Some d => se_modify (set_deployments (alter (λ d,
      with_deployment (desired_status d) obs_failed (runtime_instance_id d) code message (started_at d)
        (wd_finished_at d) now d) d))
  end.

(** [UUID(result["runtime_instance_id"])], when it is the text of one. *)
Definition runtime_of_result (is_uuid : string → bool) (result : option (list (string * value))) : option string :=
  r ← result; v ← dict_get "runtime_instance_id" r;
  match v with VStr s => if is_uuid s then Some s else None | _ => None end.

Definition _apply_worker_command_success_to_deployment (is_uuid : string → bool) (c : WorkerAgentCommand)
    (result : option (list (string * value))) (finished_at now : Z) : WP unit :=
  match wc_deployment_id c with
  | None => mret ()
  | Some d => se_modify (set_deployments (alter (λ d,
      match wc_kind c with
      | start_deployment | restart_deployment =>
          with_deployment (desired_status d) obs_running
            (match runtime_of_result is_uuid result with Some r => Some r | None => runtime_instance_id d end)
            None None (Some finished_at) (wd_finished_at d) now d
      | stop_deployment =>
          with_deployment (desired_status d) obs_stopped (runtime_instance_id d) None None (started_at d)
            (Some finished_at) now d
      | sync_agent_state =>
          with_deployment (desired_status d) (observed_status d) (runtime_instance_id d) None None (started_at d)
            (wd_finished_at d) now d
      end) d))
  end.

Definition _observed_status_for_successful_command (k : WorkerAgentCommandKind)
    : option WorkerDeploymentObservedStatus :=
  match k with
  | start_deployment | restart_deployment => Some obs_running
  | stop_deployment => Some obs_stopped
  | sync_agent_state => None
  end.

Definition opt_text (o : option string) : value := match o with Some s => VStr s | None => VNone end.
Definition to_document (d : list (string * value)) : value := VDict ((λ kv, (VStr kv.1, kv.2)) <$> d).

Definition reject_worker_agent_command_without_delivery (c : WorkerAgentCommand) (code message : string) (now : Z)
    : WP unit :=
  _ ← update_command (wc_command_id c) (λ c,
        with_command (wc_session_id c) wcmd_rejected (wc_ack_status c) (wc_result_json c) (Some code)
          (Some message) (wc_dispatched_at c) (wc_acked_at c) (Some now) now c);
  _ ← _apply_worker_command_failure_to_deployment c (Some code) (Some message) now;
  record_command_event c "command_rejected" (Some obs_failed) message
    [("command_id", VStr (wc_command_id c)); ("error_code", VStr code)] now.

Definition dispatch_worker_agent_command (c : WorkerAgentCommand) (send_queue : nat) (session_id : string)
    (now : Z) : WP unit :=
  _ ← update_command (wc_command_id c) (λ c,
        with_command (Some session_id) wcmd_dispatched (wc_ack_status c) (wc_result_json c) (wc_error_code c)
          (wc_error_message c) (Some now) (wc_acked_at c) (wc_finished_at c) now c);
  _ ← record_command_event c "command_dispatched" None (worker_kind_text (wc_kind c) +:+ " command dispatched")
        [("command_id", VStr (wc_command_id c)); ("kind", VStr (worker_kind_text (wc_kind c)));
         ("session_id", VStr session_id)] now;
  se_modify (set_live id (λ qs, <[send_queue :=
    default [] (qs !! send_queue) ++ [build_worker_agent_command_message c]]> qs)).

(** [_enqueue_pending_commands] of the router: the commands of a new session. *)
Definition _enqueue_pending_commands (agent session_id : string) (accepted_capabilities : list string)
    (send_queue : nat) (now : Z) : WP unit :=
  cs ← se_gets (list_redeliverable_worker_agent_commands agent);
  se_iter (λ c,
    let required := WORKER_AGENT_COMMAND_CAPABILITY_BY_KIND (wc_kind c) in
    if negb (bool_decide (required ∈ accepted_capabilities))
    then reject_worker_agent_command_without_delivery c "unsupported_capability"
           ("worker agent " +:+ agent +:+ " does not advertise capability " +:+ required) now
    else dispatch_worker_agent_command c send_queue session_id now) cs.

Definition handle_worker_agent_command_ack (agent session_id : string) (m : WorkerAgentCommandAckPayload)
    (received_at : Z) : WP bool :=
  row ← se_gets (λ p, worker_commands p !! wack_command_id m);
  match row with
  | Some c =>
      if negb (String.eqb (wc_worker_agent_id c) agent) then mret false
      else if bool_decide (is_Some (wc_finished_at c)) || bool_decide (is_Some (wc_ack_status c)) then mret true
      else
        let details := [("command_id", VStr (wc_command_id c)); ("kind", VStr (worker_kind_text (wc_kind c)));
                        ("ack_status", VStr (match wack_status m with wack_accepted => "accepted"
                                                                    | wack_rejected => "rejected" end));
                        ("error_code", opt_text (wack_error_code m))] in
        match wack_status m with
        | wack_accepted =>
            _ ← update_command (wc_command_id c) (λ c,
                  with_command (Some session_id) wcmd_accepted (Some wack_accepted) (wc_result_json c)
                    (wc_error_code c) (wc_error_message c) (wc_dispatched_at c) (Some received_at)
                    (wc_finished_at c) received_at c);
            _ ← record_command_event c "command_acknowledged" None
                  (worker_kind_text (wc_kind c) +:+ " command accepted") details received_at;
            mret true
        | wack_rejected =>
            _ ← update_command (wc_command_id c) (λ c,
                  with_command (Some session_id) wcmd_rejected (Some wack_rejected) (wc_result_json c)
                    (wack_error_code m) (wack_error_message m) (wc_dispatched_at c) (Some received_at)
                    (Some received_at) received_at c);
            _ ← _apply_worker_command_failure_to_deployment c (wack_error_code m) (wack_error_message m) received_at;
            _ ← record_command_event c "command_rejected" (Some obs_failed)
                  (worker_kind_text (wc_kind c) +:+ " command rejected") details received_at;
            mret true
        end
  | None => mret false
  end.

Inductive result_handled := handled_unknown | handled_duplicate | handled_ok.

(** [a or b] of optional texts. *)
Definition or_text (a : option string) (b : string) : string :=
  match a with Some s => if str_nonempty s then s else b | None => b end.

Definition result_status_text (r : WorkerAgentCommandResultStatus) : string :=
  match r with
  | wres_succeeded => "succeeded" | wres_failed => "failed" | wres_timeout => "timeout"
  | wres_cancelled => "cancelled"
  end.

Definition handle_worker_agent_command_result (is_uuid : string → bool) (agent session_id : string)
    (m : WorkerAgentCommandResultPayload) (received_at : Z) : WP result_handled :=
  row ← se_gets (λ p, worker_commands p !! wres_command_id m);
  match row with
  | Some c =>
      if negb (String.eqb (wc_worker_agent_id c) agent) then mret handled_unknown
      else if bool_decide (is_Some (wc_finished_at c)) then mret handled_duplicate
      else
        _ ← update_command (wc_command_id c) (λ c,
              with_command (Some session_id) (worker_result_status (wres_status m))
                (Some (default wack_accepted (wc_ack_status c))) (wres_result m) (wres_error_code m)
                (wres_error_message m) (wc_dispatched_at c)
                (match wc_ack_status c with None => Some received_at | Some _ => wc_acked_at c end)
                (Some (wres_finished_at m)) received_at c);
        let kind := worker_kind_text (wc_kind c) in
        _ ← match wres_status m with
            | wres_succeeded =>
                _ ← _apply_worker_command_success_to_deployment is_uuid c (wres_result m) (wres_finished_at m)
                      received_at;
                record_command_event c "command_succeeded" (_observed_status_for_successful_command (wc_kind c))
                  (kind +:+ " command succeeded")
                  [("command_id", VStr (wc_command_id c)); ("kind", VStr kind);
                   ("result", to_document (default [] (wres_result m)))] received_at
            | _ =>
                let status := result_status_text (wres_status m) in
                _ ← _apply_worker_command_failure_to_deployment c (Some (or_text (wres_error_code m) status))
                      (wres_error_message m) received_at;
                record_command_event c "command_failed" (Some obs_failed)
                  (or_text (wres_error_message m) (kind +:+ " command failed"))
                  [("command_id", VStr (wc_command_id c)); ("kind", VStr kind); ("status", VStr status);
                   ("error_code", opt_text (wres_error_code m))] received_at
            end;
        mret handled_ok
  | None => mret handled_unknown
  end.

(** ** Requests ([api/routers/worker_agents.py]) *)

Record WorkerAgentRegistrationRequest := {
  rr_registration_token : string;
  rr_display_name : string;
  rr_execution_mode : string;
  rr_max_concurrent_deployments : Z;
  rr_labels : list (string * string);
  rr_capabilities : list string;
  rr_agent_version : option string;
  rr_onestep_version : option string;
  rr_python_version : option string;
  rr_platform : list (string * value);
}.

Record WorkerDeploymentCreateRequest := {
  dr_workflow_package_id : string;
  dr_worker_agent_id : string;
  dr_desired_status : WorkerDeploymentDesiredStatus;
  dr_params : list (string * value);
  dr_env : list (string * string);
  dr_credential_refs : list string;
}.

(** [new_id] and [connection_token] are fresh; [token_hash] is
    [hash_worker_agent_token(connection_token)]. *)
Definition register_worker_agent (registration_tokens : list string) (r : WorkerAgentRegistrationRequest)
    (new_id token_hash : string) (now : Z) : WP WorkerAgent :=
  _ ← se_lift (guard_else (negb (bool_decide (registration_tokens = [])))
        (http_error 503 "worker agent registration is not configured"));
  _ ← se_lift (guard_else (existsb (String.eqb (rr_registration_token r)) registration_tokens)
        (http_error 401 "invalid worker agent registration token"));
  let row := {| worker_agent_id := new_id; display_name := rr_display_name r; wa_status := agent_offline;
                wa_execution_mode := rr_execution_mode r;
                max_concurrent_deployments := rr_max_concurrent_deployments r; used_slots := 0;
                labels_json := rr_labels r; capabilities_json := _accepted_capabilities (rr_capabilities r);
                agent_version := rr_agent_version r; onestep_version := rr_onestep_version r;
                python_version := rr_python_version r; platform_json := rr_platform r;
                connection_token_hash := token_hash; registered_at := now; wa_last_seen_at := None;
                wa_created_at := now; wa_updated_at := now |} in
  _ ← se_modify (set_agents <[new_id := row]>);
  mret row.

Definition create_worker_deployment (r : WorkerDeploymentCreateRequest) (created_by new_id : string) (now : Z)
    : WP WorkerDeployment :=
  agent ← get_worker_agent_or_404 (dr_worker_agent_id r);
  package ← get_workflow_package_or_404 (dr_workflow_package_id r);
  let row := {| deployment_id := new_id; workflow_package_id := package_id package;
                wd_worker_agent_id := worker_agent_id agent; desired_status := dr_desired_status r;
                observed_status := obs_assigned; runtime_instance_id := None;
                wd_execution_mode := wa_execution_mode agent; params_json := dr_params r; env_json := dr_env r;
                credential_refs_json := dr_credential_refs r; package_checksum := checksum_sha256 package;
                last_error_code := None; last_error_message := None; assigned_at := Some now;
                started_at := None; wd_finished_at := None; wd_created_by := created_by; wd_created_at := now;
                wd_updated_at := now |} in
  _ ← se_modify (set_deployments <[new_id := row]>);
  _ ← record_worker_deployment_event new_id (worker_agent_id agent) "deployment_created" (Some obs_assigned)
        "deployment created"
        [("workflow_package_id", VStr (package_id package));
         ("desired_status", VStr (match dr_desired_status r with desired_running => "running"
                                                               | desired_stopped => "stopped" end))] now;
  mret row.

Definition _deployment_package_args (d : WorkerDeployment) (p : WorkflowPackage)
    (env : option (list (string * string))) : list (string * value) :=
  [("deployment_id", VStr (deployment_id d)); ("package_id", VStr (package_id p));
   ("package_checksum", VStr (checksum_sha256 p));
   ("download_url", VStr ("/api/v1/workflow-packages/" +:+ package_id p +:+ "/download"));
   ("entrypoint", VStr (entrypoint p)); ("params", to_document (params_json d));
   ("env", to_document ((λ kv, (kv.1, VStr kv.2)) <$> default (env_json d) env));
   ("credential_refs", VList (VStr <$> credential_refs_json d))].

Definition create_worker_deployment_command (d : WorkerDeployment) (kind : WorkerAgentCommandKind)
    (package : option WorkflowPackage) (env : option (list (string * string))) (timeout_s : Z)
    (new_id : string) (now : Z) : WP WorkerAgentCommand :=
  args ← se_lift match kind with
         | start_deployment | restart_deployment =>
             match package with
             | Some p => Ok (_deployment_package_args d p env)
             | None => Err (value_error ("package is required when kind=" +:+ worker_kind_text kind))
             end
         | _ => Ok [("deployment_id", VStr (deployment_id d))]
         end;
  let c := {| wc_command_id := new_id; wc_worker_agent_id := wd_worker_agent_id d;
              wc_deployment_id := Some (deployment_id d); wc_session_id := None; wc_kind := kind;
              wc_args_json := args; wc_timeout_s := timeout_s; wc_status := wcmd_pending; wc_ack_status := None;
              wc_result_json := None; wc_error_code := None; wc_error_message := None; wc_created_at := now;
              wc_dispatched_at := None; wc_acked_at := None; wc_finished_at := None; wc_updated_at := now |} in
  _ ← se_modify (set_commands <[new_id := c]>);
  _ ← record_worker_deployment_event (deployment_id d) (wd_worker_agent_id d) "command_created"
        (Some (observed_status d)) (worker_kind_text kind +:+ " command created")
        [("command_id", VStr new_id); ("kind", VStr (worker_kind_text kind))] now;
  mret c.

Definition create_start_deployment_command (d : WorkerDeployment) (package : WorkflowPackage)
    (env : option (list (string * string))) (timeout_s : Z) (new_id : string) (now : Z) : WP WorkerAgentCommand :=
  create_worker_deployment_command d start_deployment (Some package) env timeout_s new_id now.

Definition create_stop_deployment_command (d : WorkerDeployment) (timeout_s : Z) (new_id : string) (now : Z)
    : WP WorkerAgentCommand :=
  let d := observe desired_stopped obs_stopping now d in
  _ ← se_modify (set_deployments (alter (observe desired_stopped obs_stopping now) (deployment_id d)));
  create_worker_deployment_command d stop_deployment None None timeout_s new_id now.

Definition create_restart_deployment_command (d : WorkerDeployment) (package : WorkflowPackage)
    (env : option (list (string * string))) (timeout_s : Z) (new_id : string) (now : Z) : WP WorkerAgentCommand :=
  let d := observe desired_running obs_assigned now d in
  _ ← se_modify (set_deployments (alter (observe desired_running obs_assigned now) (deployment_id d)));
  create_worker_deployment_command d restart_deployment (Some package) env timeout_s new_id now.

Definition _dispatch_if_connected (d : WorkerDeployment) (c : WorkerAgentCommand) (now : Z) : WP unit :=
  live ← se_gets (λ p, live_agents p !! wd_worker_agent_id d);
  match live with
  | None => mret ()
  | Some l => dispatch_worker_agent_command c (lw_send_queue l) (lw_session_id l) now
  end.

(** The endpoints; [ids] are the two fresh identifiers.  [deploy_worker] of
    [api/worker_service.py] is the first with an environment for the command
    and a package it has just created. *)
Definition create_worker_deployment_endpoint (r : WorkerDeploymentCreateRequest) (created_by : string)
    (env : option (list (string * string))) (ids : string * string) (now : Z) : WP unit :=
  d ← create_worker_deployment r created_by ids.1 now;
  package ← get_workflow_package_or_404 (workflow_package_id d);
  match desired_status d with
  | desired_running =>
      c ← create_start_deployment_command d package env 30 ids.2 now;
      _dispatch_if_connected d c now
  | desired_stopped => mret ()
  end.

Definition stop_worker_deployment_endpoint (deployment new_id : string) (now : Z) : WP unit :=
  d ← get_worker_deployment_or_404 deployment;
  c ← create_stop_deployment_command d 30 new_id now;
  _dispatch_if_connected d c now.

Definition restart_worker_deployment_endpoint (deployment new_id : string) (now : Z) : WP unit :=
  d ← get_worker_deployment_or_404 deployment;
  package ← get_workflow_package_or_404 (workflow_package_id d);
  c ← create_restart_deployment_command d package None 30 new_id now;
  _dispatch_if_connected d c now.

(** ** Packages *)

Definition WORKFLOW_PACKAGE_MANIFEST_NAME : string := "onestep-package.json".
Definition DEFAULT_WORKFLOW_PACKAGE_ENTRYPOINT : string := "worker.yaml".

(** What [zipfile] and [json.loads] make of the content. *)
Inductive archive_manifest := BadZipFile | NoManifest | ManifestNotJson | ManifestDocument (v : value).

Definition _read_workflow_package_manifest (a : archive_manifest) : result exn (option value) :=
  match a with
  | BadZipFile | NoManifest => Ok None
  | ManifestNotJson => Err (http_error 422 (WORKFLOW_PACKAGE_MANIFEST_NAME +:+ " is not valid JSON"))
  | ManifestDocument (VDict items) => Ok (Some (VDict items))
  | ManifestDocument _ => Err (http_error 422 (WORKFLOW_PACKAGE_MANIFEST_NAME +:+ " must be a JSON object"))
  end.

Definition document_get (key : string) (v : value) : option value :=
  match v with
  | VDict items => snd <$> List.find (λ kv, match kv.1 with VStr k => String.eqb key k | _ => false end) items
  | _ => None
  end.

Definition _resolve_workflow_package_entrypoint (requested : option string) (manifest : option value)
    : result exn string :=
  match (s ← requested; if str_nonempty (strip s) then Some (strip s) else None) with
  | Some s => Ok s
  | None =>
      match (m ← manifest; document_get "entrypoint" m) with
      | None => Ok DEFAULT_WORKFLOW_PACKAGE_ENTRYPOINT
      | Some (VStr s) =>
          _ ← guard_else (str_nonempty (strip s)) (http_error 422 "entrypoint must be a non-empty string");
          _ ← guard_else (length (str_to_list (strip s)) <=? 255)%nat
                (http_error 422 "entrypoint must be at most 255 characters");
          Ok (strip s)
      | Some _ => Err (http_error 422 "entrypoint must be a non-empty string")
      end
  end.

Section Packages.
Context (sha256 : list Init.Byte.byte → string) (read_archive : list Init.Byte.byte → archive_manifest).
Context (storage_dir : string).

Definition create_workflow_package (workflow version filename content_type : string)
    (content : list Init.Byte.byte) (entrypoint : option string) (created_by new_id : string) (now : Z)
    : WP WorkflowPackage :=
  manifest ← se_lift (_read_workflow_package_manifest (read_archive content));
  resolved ← se_lift (_resolve_workflow_package_entrypoint entrypoint manifest);
  let path := storage_dir +:+ "/" +:+ new_id +:+ ".zip" in
  let row := {| package_id := new_id; workflow_id := workflow; version := version; filename := filename;
                content_type := content_type; checksum_sha256 := sha256 content;
                size_bytes := Z.of_nat (length content); storage_path := path; entrypoint := resolved;
                metadata_json := match manifest with Some m => [("onestep_package_manifest", m)] | None => [] end;
                wp_created_by := created_by; wp_created_at := now |} in
  _ ← se_modify (set_packages <[new_id := row]> <[path := content]>);
  mret row.
End Packages.

Definition get_workflow_package_path_or_404 (p : WorkflowPackage) : WP (list Init.Byte.byte) :=
  found ← se_gets (λ pl, package_files pl !! storage_path p);
  match found with
  | Some content => mret content
  | None => se_raise (http_error 404 ("workflow package " +:+ package_id p +:+ " content was not found"))
  end.

Definition require_worker_agent_package_assignment (agent : string) (p : WorkflowPackage) : WP unit :=
  assigned ← se_gets (λ pl, existsb (λ d, String.eqb (wd_worker_agent_id d) agent
                                          && String.eqb (workflow_package_id d) (package_id p))
                              (map_to_list (worker_deployments pl)).*2);
  se_lift (guard_else assigned (http_error 403 ("workflow package " +:+ package_id p
    +:+ " is not assigned to worker agent " +:+ agent))).

(** [download_workflow_package_endpoint]: the file and the checksum header. *)
Definition download_workflow_package_endpoint (agent package : string) : WP (list Init.Byte.byte * string) :=
  p ← get_workflow_package_or_404 package;
  _ ← require_worker_agent_package_assignment agent p;
  content ← get_workflow_package_path_or_404 p;
  mret (content, checksum_sha256 p).
