(* ===== verification/WorkAgent.v ===== *)
(** * Worker deployments: the work agent

    The agent process of [apps/work-agent]: [SubprocessSupervisor]
    ([supervisor.py]), its state file ([state.py]), the handlers of commands
    ([client.py]) as pieces of code between two awaits, and the host it runs
    on, where processes end on their own and identifiers of processes are
    used again. *)

From stdpp Require Import base gmap sets list strings numbers sorting.
From Stdlib Require Import ZArith Lia Ascii.
From S2P Require Import Prelude PyFloat Value WorkerPlane.

(** ** The host *)

(** A process that runs: whether it is a deployment's, and of which run;
    [op_birth] tells processes apart that had the same identifier. *)
Record os_process := {
  op_birth : nat;
  op_owner : option (string * string);     (** deployment and runtime instance *)
}.

(** [asyncio.subprocess.Process]. *)
Record process_handle := { ph_pid : Z; ph_birth : nat }.

(** The processes that run, by identifier. *)
Abbreviation os_table := (gmap Z os_process).

Definition _pid_is_alive (pid : Z) (os : os_table) : bool := (0 <? pid)%Z && bool_decide (is_Some (os !! pid)).

Definition handle_alive (h : process_handle) (os : os_table) : bool :=
  match os !! ph_pid h with Some p => (op_birth p =? ph_birth h)%nat | None => false end.

(** ** The state file ([state.py]) *)

Record DeploymentState := {
  ds_deployment_id : string;
  ds_runtime_instance_id : string;
  ds_entrypoint : string;
  ds_env : list (string * string);
  ds_pid : option Z;
}.

(** [load_all] makes a dict of the list in the file, [save_all] writes its
    values sorted by deployment. *)
Abbreviation states := (list DeploymentState).

Definition state_le (a b : DeploymentState) : Prop := text_le (ds_deployment_id a) (ds_deployment_id b).

#[global] Instance state_le_dec a b : Decision (state_le a b).
Proof. unfold state_le. apply _. Defined.

Definition is_deployment (d : string) (st : DeploymentState) : bool := String.eqb (ds_deployment_id st) d.

Definition save_all (ss : states) : states := merge_sort state_le ss.

Definition store_upsert (st : DeploymentState) (ss : states) : states :=
  save_all (st :: List.filter (λ x, negb (is_deployment (ds_deployment_id st) x)) ss).

Definition store_remove (d : string) (ss : states) : states :=
  if existsb (is_deployment d) ss then save_all (List.filter (λ x, negb (is_deployment d x)) ss) else ss.

(** ** The supervisor *)

Record SubprocessSupervisor := {
  max_concurrent : nat;
  _reserved : gset string;
  _processes : gmap string process_handle;
  _external_pids : gmap string Z;
}.

Definition new_supervisor (max_concurrent : nat) : SubprocessSupervisor :=
  {| max_concurrent := max_concurrent; _reserved := ∅; _processes := ∅; _external_pids := ∅ |}.

Definition used_slots (v : SubprocessSupervisor) : nat := size (_reserved v).
Definition running_deployments (v : SubprocessSupervisor) : list string := merge_sort text_le (elements (_reserved v)).

Definition reserve_slot (d : string) (v : SubprocessSupervisor) : option SubprocessSupervisor :=
  if decide (d ∈ _reserved v) then Some v
  else if (max_concurrent v <=? size (_reserved v))%nat then None
  else Some {| max_concurrent := max_concurrent v; _reserved := {[d]} ∪ _reserved v;
               _processes := _processes v; _external_pids := _external_pids v |}.

(** The supervisor, the state file and the processes: what its methods read
    and write. *)
Record site := {
  supervisor : SubprocessSupervisor;
  state_store : states;
  os : os_table;
  (** the checksums with a marker of a finished installation *)
  markers : gset string;
}.

Definition set_supervisor f (x : site) : site :=
  {| supervisor := f (supervisor x); state_store := state_store x; os := os x; markers := markers x |}.
Definition set_store f (x : site) : site :=
  {| supervisor := supervisor x; state_store := f (state_store x); os := os x; markers := markers x |}.
Definition set_os f (x : site) : site :=
  {| supervisor := supervisor x; state_store := state_store x; os := f (os x); markers := markers x |}.
Definition set_markers f (x : site) : site :=
  {| supervisor := supervisor x; state_store := state_store x; os := os x; markers := f (markers x) |}.

Definition drop_slot (d : string) (v : SubprocessSupervisor) : SubprocessSupervisor :=
  {| max_concurrent := max_concurrent v; _reserved := _reserved v ∖ {[d]};
     _processes := delete d (_processes v); _external_pids := delete d (_external_pids v) |}.

Definition release_slot (d : string) (x : site) : site := set_store (store_remove d) (set_supervisor (drop_slot d) x).

Definition track_pid (d : string) (pid : Z) (v : SubprocessSupervisor) : SubprocessSupervisor :=
  {| max_concurrent := max_concurrent v; _reserved := _reserved v; _processes := _processes v;
     _external_pids := <[d := pid]> (_external_pids v) |}.

(** [recover_running_deployments]: the states in the order of the file. *)
Definition recover_state (x : site) (st : DeploymentState) : site :=
  match ds_pid st with
  | Some pid =>
      if _pid_is_alive pid (os x) then
        match reserve_slot (ds_deployment_id st) (supervisor x) with
        | Some v => set_supervisor (λ _, track_pid (ds_deployment_id st) pid v) x
        | None => x
        end
      else set_store (store_remove (ds_deployment_id st)) x
  | None => set_store (store_remove (ds_deployment_id st)) x
  end.

Definition recover_running_deployments (x : site) : site := foldl recover_state x (state_store x).

Definition with_process (d : string) (h : process_handle) (v : SubprocessSupervisor) : SubprocessSupervisor :=
  {| max_concurrent := max_concurrent v; _reserved := _reserved v; _processes := <[d := h]> (_processes v);
     _external_pids := _external_pids v |}.

(** [start] after its subprocess runs; [saved] is false when the state file
    cannot be written, which raises. *)
Definition process_started (st : DeploymentState) (h : process_handle) (saved : bool) (x : site) : site :=
  let x := set_supervisor (with_process (ds_deployment_id st) h) x in
  if saved then set_store (store_upsert st) x else x.

(** *** [stop] *)

Inductive stop_target := StopHandle (h : process_handle) | StopPid (pid : Z).

Inductive stop_begins :=
| StopWaits (target : stop_target)   (** terminated, waiting for the grace period *)
| StopDone                           (** returned *)
| StopRaises (e : exn).

Definition process_lookup_error : exn := Exn CException "ProcessLookupError" "" None.
Definition type_error (msg : string) : exn := Exn CException "TypeError" msg None.

(** [stop] up to its first await.  [terminate] raises once asyncio has seen
    the process exit, before the clause that releases the slot. *)
Definition stop (d : string) (grace : option Z) (exit_seen : bool) (x : site) : site * stop_begins :=
  match _processes (supervisor x) !! d with
  | Some h =>
      if negb (handle_alive h (os x)) && exit_seen then (x, StopRaises process_lookup_error)
      else (x, StopWaits (StopHandle h))
  | None =>
      match _external_pids (supervisor x) !! d with
      | Some pid =>
          if _pid_is_alive pid (os x)
          then match grace with
               | Some _ => (x, StopWaits (StopPid pid))
               | None => (release_slot d x, StopRaises (type_error "unsupported operand type(s) for +"))
               end
          else (release_slot d x, StopDone)
      | None => (release_slot d x, StopDone)
      end
  end.

(** The process ended, or was killed when the grace period was over. *)
Definition stop_completed (d : string) (t : stop_target) (x : site) : site :=
  release_slot d (set_os (λ os, match t with
    | StopHandle h => if handle_alive h os then delete (ph_pid h) os else os
    | StopPid pid => delete pid os
    end) x).

(** ** Frames *)

Inductive agent_frame :=
| WHello (p : WorkerAgentHelloPayload)
| WHeartbeat (p : WorkerAgentHeartbeatPayload)
| WEvent (p : WorkerDeploymentEventPayload)
| WAck (p : WorkerAgentCommandAckPayload)
| WResult (p : WorkerAgentCommandResultPayload).

Inductive plane_frame :=
| WHelloAck (session_id : string) (accepted : list string)
| WCommand (p : WorkerAgentCommandPayload)
| WError (code : string) (close_connection : bool).

(** ** The handlers of commands ([client.py]) *)

Definition build_hello_message (id : string) (v : SubprocessSupervisor) : WorkerAgentHelloPayload :=
  {| whello_protocol_version := "1"; whello_worker_agent_id := id;
     whello_capabilities := ["deployment.start"; "deployment.stop"; "deployment.restart"];
     whello_max_concurrent_deployments := Z.of_nat (max_concurrent v);
     whello_used_slots := Z.of_nat (used_slots v); whello_running_deployments := running_deployments v |}.

Definition build_heartbeat_message (id : string) (v : SubprocessSupervisor) : WorkerAgentHeartbeatPayload :=
  {| whb_worker_agent_id := id; whb_used_slots := Z.of_nat (used_slots v);
     whb_running_deployments := running_deployments v |}.

Definition _required_string (args : list (string * value)) (key : string) : result exn string :=
  match dict_get key args with
  | Some (VStr s) => if str_nonempty s then Ok s else Err (value_error ("args." +:+ key +:+ " is required"))
  | _ => Err (value_error ("args." +:+ key +:+ " is required"))
  end.

(** [str(v)]; the text of other values than texts is a parameter. *)
Definition text_of (str : value → string) (v : value) : string :=
  match v with VStr s => s | _ => str v end.

Definition _string_dict (str : value → string) (v : option value) : list (string * string) :=
  match v with
  | Some (VDict items) => foldl (λ d kv, dict_set (text_of str kv.1) (text_of str kv.2) d) [] items
  | _ => []
  end.

Definition _object_dict (str : value → string) (v : option value) : list (string * value) :=
  match v with
  | Some (VDict items) => foldl (λ d kv, dict_set (text_of str kv.1) kv.2 d) [] items
  | _ => []
  end.

Definition _string_list (str : value → string) (v : option value) : list string :=
  match v with Some (VList vs) => text_of str <$> vs | _ => [] end.

Definition setdefault (k v : string) (d : list (string * string)) : list (string * string) :=
  match dict_get k d with Some _ => d | None => dict_set k v d end.

Definition _deployment_env (str : value → string) (v : option value) (plane_url connection_token : string)
    : list (string * string) :=
  setdefault "ONESTEP_CONTROL_PLANE_TOKEN" connection_token
    (setdefault "ONESTEP_CONTROL_PLANE_URL" plane_url (_string_dict str v)).

(** [_payload_timeout_s]: the schema makes it an [int]. *)
Definition _payload_timeout_s (p : WorkerAgentCommandPayload) : option Z :=
  if (1 <=? wcp_timeout_s p)%Z then Some (wcp_timeout_s p) else None.

(** The locals of [_handle_start_deployment_command] and of
    [_handle_stop_deployment_command]; [sc_runtime] is
    [runtime_instance_id]. *)
Record start_command := {
  sc_command_id : string;
  sc_deployment : string;
  sc_checksum : string;
  sc_download_url : string;
  sc_entrypoint : string;
  sc_env : list (string * string);
  sc_params : list (string * value);
  sc_credential_refs : list string;
  sc_runtime : string;
}.

(** The arguments of [_send_command_result]. *)
Inductive command_outcome :=
| CommandSucceeded (result : list (string * value))
| CommandFailed (code message : string).

(** What follows a send. *)
Inductive next :=
| ThenRead
| ThenPreparing (c : start_command)
| ThenDownload (c : start_command)
| ThenInstall (c : start_command)
| ThenCheck (c : start_command)
| ThenStopping (id d : string) (grace : option Z)
| ThenStop (id d : string) (grace : option Z)
| ThenResult (id : string) (o : command_outcome).

(** Where the control loop waits. *)
Inductive agent_pc :=
| Disconnected
| AwaitingHello (conn : nat)
| Reading (conn : nat)
| Sending (conn : nat) (f : agent_frame) (k : next)
| StoppingFirst (conn : nat) (c : start_command) (t : stop_target)   (** [stop] of a restart *)
| StoppingProcess (conn : nat) (id d : string) (t : stop_target)
| Downloading (conn : nat) (c : start_command)
| Installing (conn : nat) (c : start_command)
| Checking (conn : nat) (c : start_command)
| Spawning (conn : nat) (c : start_command).

(** What a piece of code came to: it waits, or it raised out of the session. *)
Inductive piece :=
| Waits (pc : agent_pc)
| Propagates (e : exn).

Definition ack_message (id : string) (status : WorkerAgentCommandAckStatus) (code message : option string)
    : agent_frame :=
  WAck {| wack_command_id := id; wack_status := status; wack_error_code := code; wack_error_message := message |}.

Definition event_message (d event_type : string) (o : WorkerDeploymentObservedStatus) (message : string)
    (payload : list (string * value)) : agent_frame :=
  WEvent {| wev_deployment_id := d; wev_event_type := event_type; wev_observed_status := Some o;
            wev_message := message; wev_payload := payload |}.

Definition result_message (id : string) (o : command_outcome) (now : Z) : agent_frame :=
  WResult match o with
  | CommandSucceeded result =>
      {| wres_command_id := id; wres_status := wres_succeeded; wres_result := Some result;
         wres_error_code := None; wres_error_message := None; wres_finished_at := now |}
  | CommandFailed code message =>
      {| wres_command_id := id; wres_status := wres_failed; wres_result := None; wres_error_code := Some code;
         wres_error_message := Some message; wres_finished_at := now |}
  end.

Definition runtime_result (runtime : string) : list (string * value) := [("runtime_instance_id", VStr runtime)].

(** The [except Exception] clauses: the event, then the result. *)
Definition send_failure (conn : nat) (id d : string) (e : exn) : agent_pc :=
  Sending conn (event_message d "failed" obs_failed (exn_message e) [("error_code", VStr (exn_type_name e))])
    (ThenResult id (CommandFailed (exn_type_name e) (exn_message e))).

Definition start_fails (conn : nat) (c : start_command) (e : exn) (x : site) : site * piece :=
  (release_slot (sc_deployment c) x, Waits (send_failure conn (sc_command_id c) (sc_deployment c) e)).

(** After the [stop] of a restart: the slot and the first acknowledgement. *)
Definition start_accepts (conn : nat) (c : start_command) (x : site) : site * piece :=
  match reserve_slot (sc_deployment c) (supervisor x) with
  | None => (x, Waits (Sending conn (ack_message (sc_command_id c) wack_rejected (Some "no_slots_available")
                                       (Some "no deployment slots available")) ThenRead))
  | Some v => (set_supervisor (λ _, v) x,
               Waits (Sending conn (ack_message (sc_command_id c) wack_accepted None None) (ThenPreparing c)))
  end.

Definition parse_start (str : value → string) (p : WorkerAgentCommandPayload)
    (plane_url connection_token runtime : string)
    : result exn start_command :=
  d ← _required_string (wcp_args p) "deployment_id";
  checksum ← _required_string (wcp_args p) "package_checksum";
  url ← _required_string (wcp_args p) "download_url";
  entrypoint ← _required_string (wcp_args p) "entrypoint";
  Ok {| sc_command_id := wcp_command_id p; sc_deployment := d; sc_checksum := checksum;
        sc_download_url := url; sc_entrypoint := entrypoint;
        sc_env := _deployment_env str (dict_get "env" (wcp_args p)) plane_url connection_token;
        sc_params := _object_dict str (dict_get "params" (wcp_args p));
        sc_credential_refs := _string_list str (dict_get "credential_refs" (wcp_args p));
        sc_runtime := runtime |}.

Definition _handle_start_deployment_command (str : value → string) (conn : nat) (p : WorkerAgentCommandPayload)
    (plane_url connection_token runtime : string) (stop_existing_first exit_seen : bool) (x : site)
    : site * piece :=
  if negb (str_nonempty (wcp_command_id p)) then (x, Waits (Reading conn))
  else match parse_start str p plane_url connection_token runtime with
  | Err e => (x, Propagates e)
  | Ok c =>
      if stop_existing_first then
        match stop (sc_deployment c) (_payload_timeout_s p) exit_seen x with
        | (x, StopWaits t) => (x, Waits (StoppingFirst conn c t))
        | (x, StopDone) => start_accepts conn c x
        | (x, StopRaises e) => (x, Propagates e)
        end
      else start_accepts conn c x
  end.

Definition _handle_stop_deployment_command (conn : nat) (p : WorkerAgentCommandPayload) (x : site) : site * piece :=
  if negb (str_nonempty (wcp_command_id p)) then (x, Waits (Reading conn))
  else match _required_string (wcp_args p) "deployment_id" with
  | Err e => (x, Propagates e)
  | Ok d => (x, Waits (Sending conn (ack_message (wcp_command_id p) wack_accepted None None)
                         (ThenStopping (wcp_command_id p) d (_payload_timeout_s p))))
  end.

Definition _ack_unsupported_command (conn : nat) (p : WorkerAgentCommandPayload) : piece :=
  Waits (Sending conn (ack_message (wcp_command_id p) wack_rejected (Some "unsupported_command")
    (Some ("command kind " +:+ worker_kind_text (wcp_kind p) +:+ " is not implemented yet"))) ThenRead).

(** A frame of the control plane, in the loop of [_run_one_session]. *)
Definition handle_control_message (str : value → string) (conn : nat) (f : plane_frame) (plane_url connection_token runtime : string)
    (exit_seen : bool) (x : site) : site * piece :=
  match f with
  | WCommand p =>
      match wcp_kind p with
      | start_deployment =>
          _handle_start_deployment_command str conn p plane_url connection_token runtime false exit_seen x
      | restart_deployment =>
          _handle_start_deployment_command str conn p plane_url connection_token runtime true exit_seen x
      | stop_deployment => _handle_stop_deployment_command conn p x
      | sync_agent_state => (x, _ack_unsupported_command conn p)
      end
  | WError _ _ | WHelloAck _ _ => (x, Waits (Reading conn))
  end.

Definition stopped (conn : nat) (id d : string) (code : value) : agent_pc :=
  Sending conn (event_message d "stopped" obs_stopped "deployment stopped" [("returncode", code)])
    (ThenResult id (CommandSucceeded [("returncode", code)])).

(** The send returned. *)
Definition after_send (conn : nat) (k : next) (exit_seen : bool) (now : Z) (x : site) : site * piece :=
  match k with
  | ThenRead => (x, Waits (Reading conn))
  | ThenPreparing c =>
      (x, Waits (Sending conn (event_message (sc_deployment c) "preparing" obs_preparing
                   "downloading workflow package"
                   [("download_url", VStr (sc_download_url c)); ("params", to_document (sc_params c));
                    ("credential_refs", VList (VStr <$> sc_credential_refs c))]) (ThenDownload c)))
  | ThenDownload c => (x, Waits (Downloading conn c))
  | ThenInstall c => (x, Waits (Installing conn c))
  | ThenCheck c => (x, Waits (Checking conn c))
  | ThenStopping id d grace =>
      (x, Waits (Sending conn (event_message d "stopping" obs_stopping "stopping deployment process" [])
                   (ThenStop id d grace)))
  | ThenStop id d grace =>
      match stop d grace exit_seen x with
      | (x, StopWaits t) => (x, Waits (StoppingProcess conn id d t))
      | (x, StopDone) => (x, Waits (stopped conn id d VNone))
      | (x, StopRaises e) => (x, Waits (send_failure conn id d e))
      end
  | ThenResult id o => (x, Waits (Sending conn (result_message id o now) ThenRead))
  end.

Definition connection_closed : exn := Exn CException "ConnectionClosedError" "no close frame received or sent" None.

(** The send raised: inside a [try] the handler goes on to report it. *)
Definition send_raised (conn : nat) (k : next) (x : site) : site * piece :=
  match k with
  | ThenDownload c | ThenInstall c | ThenCheck c => start_fails conn c connection_closed x
  | ThenStop id d _ => (x, Waits (send_failure conn id d connection_closed))
  | ThenRead | ThenPreparing _ | ThenStopping _ _ _ | ThenResult _ _ => (x, Propagates connection_closed)
  end.

(** *** The package and its environment ([packages.py], [install]) *)

Section Package.
(** SHA-256, the names of the members of an archive, and whether a name stays
    in the directory it is extracted to. *)
Context (sha256 : list Init.Byte.byte → string) (members : list Init.Byte.byte → result exn (list string)).
Context (is_relative : string → bool).

Definition extract_package (content : list Init.Byte.byte) (checksum : string) : result exn () :=
  _ ← guard_else (String.eqb (sha256 content) checksum) (value_error "package checksum mismatch");
  names ← members content;
  guard_else (forallb is_relative names) (value_error "package contains unsafe path").

(** The response of the download is there. *)
Definition downloaded (conn : nat) (c : start_command) (response : result exn (list Init.Byte.byte))
    (install_mode : string) (x : site) : site * piece :=
  match (content ← response; extract_package content (sc_checksum c)) with
  | Ok _ => (x, Waits (Sending conn (event_message (sc_deployment c) "installing" obs_installing
                "installing runtime dependencies into virtualenv"
                [("mode", VStr install_mode); ("package_checksum", VStr (sc_checksum c))]) (ThenInstall c)))
  | Err e => start_fails conn c e x
  end.
End Package.

Definition install_error (msg : string) : exn := Exn CException "InstallError" msg None.

(** How many [pip install] commands a mode has. *)
Definition install_commands (mode : string) : result exn nat :=
  if String.eqb mode "runtime" then Ok 1%nat
  else if String.eqb mode "package" || String.eqb mode "requirements" then Ok 2%nat
  else if String.eqb mode "package+requirements" then Ok 3%nat
  else Err (install_error ("unknown install mode: " +:+ mode)).

(** The subprocesses one after the other; [runs] are their ends. *)
Fixpoint run_installs (n : nat) (runs : list (result exn Z)) : result exn () :=
  match n, runs with
  | O, _ => Ok ()
  | S n, r :: runs =>
      code ← r;
      _ ← guard_else (code =? 0)%Z (install_error ("pip install exited with code " +:+ str_of_Z code));
      run_installs n runs
  | S _, [] => Err (install_error "timed out")
  end.

(** [install]: [marked] says that the marker of the checksum is in place. *)
Definition install (marked : bool) (mode : string) (venv : result exn Z) (runs : list (result exn Z))
    : result exn () :=
  if marked then Ok ()
  else
    code ← venv;
    _ ← guard_else (code =? 0)%Z (install_error ("venv creation exited with code " +:+ str_of_Z code));
    n ← install_commands mode;
    run_installs n runs.

Definition installed (conn : nat) (c : start_command) (mode : string) (venv : result exn Z)
    (runs : list (result exn Z)) (x : site) : site * piece :=
  match install (bool_decide (sc_checksum c ∈ markers x)) mode venv runs with
  | Ok _ => (set_markers (λ m, {[sc_checksum c]} ∪ m) x,
             Waits (Sending conn (event_message (sc_deployment c) "checking" obs_checking "running onestep check"
                      [("entrypoint", VStr (sc_entrypoint c))]) (ThenCheck c)))
  | Err e => start_fails conn c e x
  end.

(** [_run_check]: a timeout is the exit code 124. *)
Definition _run_check (r : result exn Z) : result exn Z :=
  match r with
  | Ok code => Ok code
  | Err e => if is_timeout e then Ok 124%Z else Err e
  end.

(** The check is over; [start] begins: it finds the slot reserved. *)
Definition checked (conn : nat) (c : start_command) (r : result exn Z) (now : Z) (x : site) : site * piece :=
  match _run_check r with
  | Ok code =>
      if (code =? 0)%Z then
        match reserve_slot (sc_deployment c) (supervisor x) with
        | Some v => (set_supervisor (λ _, v) x, Waits (Spawning conn c))
        | None => start_fails conn c (Exn CException "RuntimeError" "no deployment slots available" None) x
        end
      else (release_slot (sc_deployment c) x,
            Waits (Sending conn (result_message (sc_command_id c) (CommandFailed "check_failed"
                                    ("onestep check exited with code " +:+ str_of_Z code)) now) ThenRead))
  | Err e => start_fails conn c e x
  end.

(** What [create_subprocess_exec] and [state_store.upsert] did. *)
Inductive spawn_outcome :=
| SpawnFails (e : exn)
| Spawned (pid : Z) (saved : bool).

Definition spawned (conn : nat) (c : start_command) (birth : nat) (o : spawn_outcome) (x : site)
    : site * piece :=
  match o with
  | SpawnFails e => start_fails conn c e (release_slot (sc_deployment c) x)
  | Spawned pid saved =>
      let d := sc_deployment c in
      let x := set_os <[pid := {| op_birth := birth; op_owner := Some (d, sc_runtime c) |}]> x in
      let st := {| ds_deployment_id := d; ds_runtime_instance_id := sc_runtime c;
                   ds_entrypoint := sc_entrypoint c; ds_env := sc_env c; ds_pid := Some pid |} in
      let x := process_started st {| ph_pid := pid; ph_birth := birth |} saved x in
      if saved then
        (x, Waits (Sending conn (event_message d "running" obs_running "deployment started"
               (runtime_result (sc_runtime c)))
               (ThenResult (sc_command_id c) (CommandSucceeded (runtime_result (sc_runtime c))))))
      else start_fails conn c (Exn CException "OSError" "the state file cannot be written" None) x
  end.

(** The [stop] of a command is over, with the exit code of the process. *)
Definition stop_over (conn : nat) (id d : string) (t : stop_target) (code : value) (x : site)
    : site * piece :=
  (stop_completed d t x, Waits (stopped conn id d code)).

Definition first_stop_over (conn : nat) (c : start_command) (t : stop_target) (x : site) : site * piece :=
  start_accepts conn c (stop_completed (sc_deployment c) t x).
