(* ===== verification/WorkerSystem.v ===== *)
(** * Worker deployments: hosts, connections and the control plane together

    A system is one control plane, hosts with a work agent each, and the
    WebSocket connections between them: two queues of frames each.  [step]
    performs one action: a piece of code between two awaits, a frame that is
    taken, a connection that breaks, a process that ends, an agent or a
    control plane that starts or dies, a request of an operator.  A frame
    sent on a broken connection is lost, or the call that sends raises. *)

From stdpp Require Import base gmap sets list strings numbers sorting.
From Stdlib Require Import ZArith Lia Ascii.
From S2P Require Import Prelude PyFloat Value WorkerPlane WorkAgent.

(** The context of a connection: the session, and the row of the agent as
    its database session holds it. *)
Record _ConnectionContext := { cx_session_id : string; cx_worker_agent : WorkerAgent }.

(** [worker_agent_ws]: it waits for a frame, or for the answer to a hello to
    be sent. *)
Inductive worker_ws :=
| WsHello (worker_agent : WorkerAgent)
| WsReceiving (ctx : _ConnectionContext)
| WsGreeting (ctx : _ConnectionContext) (accepted : list string)
| WsClosed.

Record connection := {
  cn_host : nat;
  cn_broken : bool;
  cn_up : list agent_frame;
  cn_down : list plane_frame;
  cn_ws : worker_ws;
}.

Record host := {
  h_max_concurrent : nat;
  (** [identity.json] *)
  h_identity : option string;
  h_site : site;
  (** the control loop, when the agent runs *)
  h_agent : option agent_pc;
  h_births : nat;
}.

(** What the agents did: the log a theorem speaks about.  A stop counts the
    processes of the deployment that run on. *)
Inductive event :=
| EvSpawned (n : nat) (command deployment runtime : string)
| EvStopped (n : nat) (command deployment : string) (left : nat).

Record system := {
  plane : Plane;
  connections : gmap nat connection;
  hosts : gmap nat host;
  log : list event;
}.

Definition initial : system := {| plane := empty_plane; connections := ∅; hosts := ∅; log := [] |}.

Definition set_plane p (s : system) : system :=
  {| plane := p; connections := connections s; hosts := hosts s; log := log s |}.
Definition set_conns f (s : system) : system :=
  {| plane := plane s; connections := f (connections s); hosts := hosts s; log := log s |}.
Definition set_host n h (s : system) : system :=
  {| plane := plane s; connections := connections s; hosts := <[n := h]> (hosts s); log := log s |}.
Definition record_events es (s : system) : system :=
  {| plane := plane s; connections := connections s; hosts := hosts s; log := log s ++ es |}.

Definition with_queues (up : list agent_frame) (down : list plane_frame) (ws : worker_ws) (c : connection)
    : connection :=
  {| cn_host := cn_host c; cn_broken := cn_broken c; cn_up := up; cn_down := down; cn_ws := ws |}.
Definition break (c : connection) : connection :=
  {| cn_host := cn_host c; cn_broken := true; cn_up := cn_up c; cn_down := cn_down c; cn_ws := cn_ws c |}.
Definition push_up (f : agent_frame) (c : connection) : connection :=
  if cn_broken c then c else with_queues (cn_up c ++ [f]) (cn_down c) (cn_ws c) c.
Definition push_down (f : plane_frame) (c : connection) : connection :=
  if cn_broken c then c else with_queues (cn_up c) (cn_down c ++ [f]) (cn_ws c) c.
Definition set_ws (ws : worker_ws) (c : connection) : connection := with_queues (cn_up c) (cn_down c) ws c.

Definition on_conn (k : nat) (f : connection → connection) : system → system := set_conns (alter f k).

Definition with_site (x : site) (pc : option agent_pc) (h : host) : host :=
  {| h_max_concurrent := h_max_concurrent h; h_identity := h_identity h; h_site := x; h_agent := pc;
     h_births := h_births h |}.

(** ** The handler of a connection ([api/routers/worker_agent_ws.py]) *)

(** The [finally] clause. *)
Definition ws_ends (k : nat) (ctx : option _ConnectionContext) (now : Z) (s : system) : system :=
  let p := match ctx with
           | Some ctx => (_ ← unregister (worker_agent_id (cx_worker_agent ctx)) (cx_session_id ctx);
                          close_worker_agent_session (cx_worker_agent ctx) (cx_session_id ctx) now) (plane s)
           | None => (plane s, Ok ())
           end.1 in
  on_conn k (λ c, break (set_ws WsClosed c)) (set_plane p s).

(** [_send_error] and the handler goes on, or returns. *)
Definition ws_error (k : nat) (code : string) (s : system) : system := on_conn k (push_down (WError code false)) s.
Definition ws_refuses (k : nat) (ctx : option _ConnectionContext) (code : string) (now : Z) (s : system) : system :=
  ws_ends k ctx now (on_conn k (push_down (WError code true)) s).

Section System.
(** The configured registration tokens, the text of a UUID, [str] of a value,
    what the agent makes of a package, where the control plane is, and the
    credential of an agent. *)
Context (registration_tokens : list string) (is_uuid : string → bool) (str : value → string).
Context (sha256 : list Init.Byte.byte → string) (members : list Init.Byte.byte → result exn (list string)).
Context (is_relative : string → bool) (read_archive : list Init.Byte.byte → archive_manifest).
Context (storage_dir plane_url : string) (token_of : string → string).

(** One frame after hello; [s] is the system without it. *)
Definition ws_frame (k : nat) (ctx : _ConnectionContext) (f : agent_frame) (now : Z) (s : system) : system :=
  let agent := worker_agent_id (cx_worker_agent ctx) in
  let marked := mark_worker_agent_session_message (cx_session_id ctx) now in
  match f with
  | WHello _ => ws_error k "unsupported_message_type" (set_plane (marked (plane s)).1 s)
  | WHeartbeat m =>
      match (_ ← marked; apply_worker_agent_heartbeat (cx_worker_agent ctx) (cx_session_id ctx) m now) (plane s) with
      | (p, Ok a) => on_conn k (set_ws (WsReceiving {| cx_session_id := cx_session_id ctx; cx_worker_agent := a |}))
                       (set_plane p s)
      | (p, Err _) => ws_refuses k (Some ctx) "invalid_heartbeat" now (set_plane p s)
      end
  | WEvent m =>
      match (_ ← marked; apply_worker_deployment_event (cx_worker_agent ctx) m now) (plane s) with
      | (p, Ok true) => set_plane p s
      | (p, _) => ws_error k "unknown_deployment" (set_plane p s)
      end
  | WAck m =>
      match (_ ← marked; handle_worker_agent_command_ack agent (cx_session_id ctx) m now) (plane s) with
      | (p, Ok true) => set_plane p s
      | (p, _) => ws_error k "unknown_command" (set_plane p s)
      end
  | WResult m =>
      match (_ ← marked; handle_worker_agent_command_result is_uuid agent (cx_session_id ctx) m now) (plane s) with
      | (p, Ok handled_unknown) => ws_error k "unknown_command" (set_plane p s)
      | (p, _) => set_plane p s
      end
  end.

(** The first frame. *)
Definition ws_first_frame (k : nat) (a : WorkerAgent) (f : agent_frame) (new_session : string) (now : Z)
    (s : system) : system :=
  match f with
  | WHello m =>
      if negb (valid_hello m) then ws_refuses k None "invalid_hello" now s
      else match handle_worker_agent_hello a m new_session now (plane s) with
      | (p, Ok (a', accepted)) =>
          let p := (register (worker_agent_id a') new_session k p).1 in
          on_conn k (λ c, set_ws (WsGreeting {| cx_session_id := new_session; cx_worker_agent := a' |} accepted)
                            (push_down (WHelloAck new_session accepted) c)) (set_plane p s)
      | (p, Err _) => ws_refuses k None "invalid_hello" now (set_plane p s)
      end
  | _ => ws_refuses k None "hello_required" now s
  end.

(** ** Actions *)

Inductive action :=
(** a host; its agent registers, starts, dies *)
| HostAppears (n max : nat)
| AgentRegisters (n : nat) (r : WorkerAgentRegistrationRequest) (new_id token_hash : string) (now : Z)
| AgentStarts (n : nat)
| AgentDies (n : nat)
(** the control loop *)
| AgentConnects (n k : nat)
| AgentGreeted (n : nat)
| AgentReads (n : nat) (runtime : string) (exit_seen : bool)
| AgentSent (n : nat) (sent exit_seen : bool) (now : Z)
| AgentDownloaded (n : nat) (response : result exn (list Init.Byte.byte)) (install_mode : string)
| AgentInstalled (n : nat) (mode : string) (venv : result exn Z) (runs : list (result exn Z))
| AgentChecked (n : nat) (r : result exn Z) (now : Z)
| AgentSpawned (n : nat) (o : spawn_outcome)
| AgentDiesInSpawn (n : nat) (pid : Z)
| StopOver (n : nat) (code : value)
| SessionEnds (n : nat)
| HeartbeatDue (n : nat)
(** processes of the host *)
| ProcessExits (n : nat) (pid : Z)
| OtherProcessStarts (n : nat) (pid : Z)
(** the control plane's handler of a connection *)
| PlaneReceives (k : nat) (new_session : string) (now : Z)
| PlaneGreeted (k : nat) (now : Z)
| PlaneSends (k : nat)
| PlaneNotices (k : nat) (now : Z)
(** operators *)
| PackageUploaded (workflow version filename content_type : string) (content : list Init.Byte.byte)
    (requested : option string) (created_by new_id : string) (now : Z)
| DeploymentCreated (r : WorkerDeploymentCreateRequest) (created_by : string)
    (env : option (list (string * string))) (ids : string * string) (now : Z)
| StopRequested (deployment new_id : string) (now : Z)
| RestartRequested (deployment new_id : string) (now : Z)
(** the control plane starts again; a connection breaks *)
| PlaneRestarts
| LinkBreaks (k : nat).

(** The connection the control loop is on. *)
Definition pc_conn (pc : agent_pc) : option nat :=
  match pc with
  | Disconnected => None
  | AwaitingHello k | Reading k | Sending k _ _ | StoppingFirst k _ _ | StoppingProcess k _ _ _
  | Downloading k _ | Installing k _ | Checking k _ | Spawning k _ => Some k
  end.

(** A piece of the handler ran on host [n]: it waits, or the session is over
    and its connection closed. *)
Definition after_piece (n k : nat) (h : host) (r : site * piece) (s : system) : system :=
  match r with
  | (x, Waits pc) => set_host n (with_site x (Some pc) h) s
  | (x, Propagates _) => on_conn k break (set_host n (with_site x (Some Disconnected) h) s)
  end.

Definition owned_by (d : string) (p : os_process) : bool :=
  match op_owner p with Some o => String.eqb o.1 d | None => false end.
Definition still_running (d : string) (os : os_table) : nat := length (List.filter (owned_by d) (map_to_list os).*2).

(** A stop that is reported as done. *)
Definition stop_event (n : nat) (r : site * piece) : list event :=
  match r with
  | (x, Waits (Sending _ (WEvent e) (ThenResult id (CommandSucceeded _)))) =>
      match wev_observed_status e with
      | Some obs_stopped => [EvStopped n id (wev_deployment_id e) (still_running (wev_deployment_id e) (os x))]
      | _ => []
      end
  | _ => []
  end.

Definition request_served {A} (m : WP A) (s : system) : system := set_plane (m (plane s)).1 s.

Definition fresh_command (id : string) (s : system) : bool :=
  bool_decide (worker_commands (plane s) !! id = None).

Definition step (a : action) (s : system) : option system :=
  match a with
  | HostAppears n max =>
      match hosts s !! n with
      | Some _ => None
      | None =>
          if (1 <=? max)%nat then
            Some (set_host n {| h_max_concurrent := max; h_identity := None;
                                h_site := {| supervisor := new_supervisor max; state_store := []; os := ∅; markers := ∅ |};
                                h_agent := None; h_births := 0 |} s)
          else None
      end
  | AgentRegisters n r new_id token_hash now =>
      h ← hosts s !! n;
      match h_identity h, h_agent h, worker_agents (plane s) !! new_id with
      | None, None, None =>
          match register_worker_agent registration_tokens r new_id token_hash now (plane s) with
          | (p, Ok _) =>
              Some (set_host n {| h_max_concurrent := h_max_concurrent h; h_identity := Some new_id;
                                  h_site := h_site h; h_agent := None; h_births := h_births h |} (set_plane p s))
          | (p, Err _) => Some (set_plane p s)
          end
      | _, _, _ => None
      end
  | AgentStarts n =>
      h ← hosts s !! n;
      match h_identity h, h_agent h with
      | Some _, None =>
          let x := set_supervisor (λ _, new_supervisor (h_max_concurrent h)) (h_site h) in
          Some (set_host n (with_site (recover_running_deployments x) (Some Disconnected) h) s)
      | _, _ => None
      end
  | AgentDies n =>
      h ← hosts s !! n;
      pc ← h_agent h;
      let s := set_host n (with_site (h_site h) None h) s in
      Some match pc_conn pc with Some k => on_conn k break s | None => s end
  | AgentConnects n k =>
      h ← hosts s !! n;
      id ← h_identity h;
      a ← worker_agents (plane s) !! id;
      match h_agent h, connections s !! k with
      | Some Disconnected, None =>
          let hello := WHello (build_hello_message id (supervisor (h_site h))) in
          Some (set_conns <[k := {| cn_host := n; cn_broken := false; cn_up := [hello]; cn_down := [];
                                    cn_ws := WsHello a |}]>
                 (set_host n (with_site (h_site h) (Some (AwaitingHello k)) h) s))
      | _, _ => None
      end
  | AgentGreeted n =>
      h ← hosts s !! n;
      match h_agent h with
      | Some (AwaitingHello k) =>
          c ← connections s !! k;
          match cn_down c with
          | _ :: down => Some (on_conn k (λ c, with_queues (cn_up c) down (cn_ws c) c)
                                (set_host n (with_site (h_site h) (Some (Reading k)) h) s))
          | [] => None
          end
      | _ => None
      end
  | AgentReads n runtime exit_seen =>
      h ← hosts s !! n;
      id ← h_identity h;
      match h_agent h with
      | Some (Reading k) =>
          c ← connections s !! k;
          match cn_down c with
          | f :: down =>
              Some (after_piece n k h
                     (handle_control_message str k f plane_url (token_of id) runtime exit_seen (h_site h))
                     (on_conn k (λ c, with_queues (cn_up c) down (cn_ws c) c) s))
          | [] => None
          end
      | _ => None
      end
  | AgentSent n sent exit_seen now =>
      h ← hosts s !! n;
      match h_agent h with
      | Some (Sending k f nx) =>
          c ← connections s !! k;
          if sent then
            let r := after_send k nx exit_seen now (h_site h) in
            Some (record_events (stop_event n r) (after_piece n k h r (on_conn k (push_up f) s)))
          else if cn_broken c then Some (after_piece n k h (send_raised k nx (h_site h)) s) else None
      | _ => None
      end
  | AgentDownloaded n response install_mode =>
      h ← hosts s !! n;
      match h_agent h with
      | Some (Downloading k c) =>
          Some (after_piece n k h
                 (downloaded sha256 members is_relative k c response install_mode (h_site h)) s)
      | _ => None
      end
  | AgentInstalled n mode venv runs =>
      h ← hosts s !! n;
      match h_agent h with
      | Some (Installing k c) => Some (after_piece n k h (installed k c mode venv runs (h_site h)) s)
      | _ => None
      end
  | AgentChecked n r now =>
      h ← hosts s !! n;
      match h_agent h with
      | Some (Checking k c) => Some (after_piece n k h (checked k c r now (h_site h)) s)
      | _ => None
      end
  | AgentSpawned n o =>
      h ← hosts s !! n;
      match h_agent h with
      | Some (Spawning k c) =>
          let r := spawned k c (h_births h) o (h_site h) in
          let h' := {| h_max_concurrent := h_max_concurrent h; h_identity := h_identity h; h_site := h_site h;
                       h_agent := h_agent h; h_births := S (h_births h) |} in
          match o with
          | SpawnFails _ => Some (after_piece n k h' r s)
          | Spawned pid _ =>
              if (0 <? pid)%Z && bool_decide (os (h_site h) !! pid = None)
              then Some (record_events [EvSpawned n (sc_command_id c) (sc_deployment c) (sc_runtime c)]
                          (after_piece n k h' r s))
              else None
          end
      | _ => None
      end
  | AgentDiesInSpawn n pid =>
      (* the process was forked, the agent did not come back from the call *)
      h ← hosts s !! n;
      match h_agent h with
      | Some (Spawning k c) =>
          if (0 <? pid)%Z && bool_decide (os (h_site h) !! pid = None) then
            let p := {| op_birth := h_births h; op_owner := Some (sc_deployment c, sc_runtime c) |} in
            let h' := {| h_max_concurrent := h_max_concurrent h; h_identity := h_identity h;
                         h_site := set_os <[pid := p]> (h_site h); h_agent := None; h_births := S (h_births h) |} in
            Some (record_events [EvSpawned n (sc_command_id c) (sc_deployment c) (sc_runtime c)]
                   (on_conn k break (set_host n h' s)))
          else None
      | _ => None
      end
  | StopOver n code =>
      h ← hosts s !! n;
      match h_agent h with
      | Some (StoppingFirst k c t) => Some (after_piece n k h (first_stop_over k c t (h_site h)) s)
      | Some (StoppingProcess k id d t) =>
          let r := stop_over k id d t code (h_site h) in
          Some (record_events (stop_event n r) (after_piece n k h r s))
      | _ => None
      end
  | SessionEnds n =>
      h ← hosts s !! n;
      match h_agent h with
      | Some (Reading k) | Some (AwaitingHello k) =>
          c ← connections s !! k;
          if cn_broken c then Some (set_host n (with_site (h_site h) (Some Disconnected) h) s) else None
      | _ => None
      end
  | HeartbeatDue n =>
      h ← hosts s !! n;
      id ← h_identity h;
      pc ← h_agent h;
      match pc, pc_conn pc with
      | AwaitingHello _, _ | _, None => None
      | _, Some k => Some (on_conn k (push_up (WHeartbeat (build_heartbeat_message id (supervisor (h_site h))))) s)
      end
  | ProcessExits n pid =>
      h ← hosts s !! n;
      Some (set_host n (with_site (set_os (delete pid) (h_site h)) (h_agent h) h) s)
  | OtherProcessStarts n pid =>
      h ← hosts s !! n;
      if (0 <? pid)%Z && bool_decide (os (h_site h) !! pid = None) then
        let x := set_os <[pid := {| op_birth := h_births h; op_owner := None |}]> (h_site h) in
        Some (set_host n {| h_max_concurrent := h_max_concurrent h; h_identity := h_identity h; h_site := x;
                            h_agent := h_agent h; h_births := S (h_births h) |} s)
      else None
  | PlaneReceives k new_session now =>
      c ← connections s !! k;
      match cn_ws c, cn_up c with
      | WsHello a, f :: up =>
          Some (ws_first_frame k a f new_session now (on_conn k (λ c, with_queues up (cn_down c) (cn_ws c) c) s))
      | WsReceiving ctx, f :: up =>
          Some (ws_frame k ctx f now (on_conn k (λ c, with_queues up (cn_down c) (cn_ws c) c) s))
      | _, _ => None
      end
  | PlaneGreeted k now =>
      c ← connections s !! k;
      match cn_ws c with
      | WsGreeting ctx accepted =>
          Some (on_conn k (set_ws (WsReceiving ctx))
                 (request_served (_enqueue_pending_commands (worker_agent_id (cx_worker_agent ctx))
                                    (cx_session_id ctx) accepted k now) s))
      | _ => None
      end
  | PlaneSends k =>
      c ← connections s !! k;
      match worker_queues (plane s) !! k, cn_ws c, cn_broken c with
      | Some (p :: rest), WsReceiving _, false | Some (p :: rest), WsGreeting _ _, false =>
          Some (on_conn k (push_down (WCommand p)) (set_plane (set_live id <[k := rest]> (plane s)) s))
      | _, _, _ => None
      end
  | PlaneNotices k now =>
      c ← connections s !! k;
      match cn_ws c, cn_broken c with
      | WsHello _, true => Some (ws_ends k None now s)
      | WsReceiving ctx, true | WsGreeting ctx _, true => Some (ws_ends k (Some ctx) now s)
      | _, _ => None
      end
  | PackageUploaded workflow version filename content_type content requested created_by new_id now =>
      Some (request_served (create_workflow_package sha256 read_archive storage_dir workflow version filename
                              content_type content requested created_by new_id now) s)
  | DeploymentCreated r created_by env ids now =>
      if fresh_command ids.2 s && bool_decide (worker_deployments (plane s) !! ids.1 = None)
      then Some (request_served (create_worker_deployment_endpoint r created_by env ids now) s)
      else None
  | StopRequested deployment new_id now =>
      if fresh_command new_id s then Some (request_served (stop_worker_deployment_endpoint deployment new_id now) s)
      else None
  | RestartRequested deployment new_id now =>
      if fresh_command new_id s then Some (request_served (restart_worker_deployment_endpoint deployment new_id now) s)
      else None
  | PlaneRestarts =>
      Some (set_conns (fmap (λ c, break (set_ws WsClosed c)))
             (set_plane (set_live (λ _, ∅) (λ _, ∅) (plane s)) s))
  | LinkBreaks k =>
      _ ← connections s !! k; Some (on_conn k break s)
  end.

Fixpoint run (acts : list action) (s : system) : option system :=
  match acts with
  | [] => Some s
  | a :: acts => s' ← step a s; run acts s'
  end.

Definition reachable (s : system) : Prop := ∃ acts, run acts initial = Some s.

(** *** Runs in which a host never starts what it holds

    A start command that reaches a host is for a deployment the supervisor
    has no process of, the state file can be written, and the agent does not
    die between the fork of a process and its entry in the state file. *)

Definition held (d : string) (v : SubprocessSupervisor) : bool :=
  bool_decide (is_Some (_processes v !! d)) || bool_decide (is_Some (_external_pids v !! d)).

Definition starts_anew (x : site) (f : plane_frame) : bool :=
  match f with
  | WCommand p =>
      match wcp_kind p, dict_get "deployment_id" (wcp_args p) with
      | start_deployment, Some (VStr d) => negb (held d (supervisor x))
      | _, _ => true
      end
  | _ => true
  end.

Definition orderly (a : action) (s : system) : bool :=
  match a with
  | AgentReads n _ _ =>
      match hosts s !! n with
      | Some h =>
          match h_agent h with
          | Some (Reading k) =>
              match connections s !! k with
              | Some c => match cn_down c with f :: _ => starts_anew (h_site h) f | [] => true end
              | None => true
              end
          | _ => true
          end
      | None => true
      end
  | AgentSpawned _ (Spawned _ saved) => saved
  | AgentDiesInSpawn _ _ => false
  | _ => true
  end.

Fixpoint orderly_run (acts : list action) (s : system) : option system :=
  match acts with
  | [] => Some s
  | a :: acts => if orderly a s then s' ← step a s; orderly_run acts s' else None
  end.

Definition orderly_reachable (s : system) : Prop := ∃ acts, orderly_run acts initial = Some s.
End System.
