(* ===== verification/WorkerServer.v ===== *)
(** * Worker deployments: what the control plane keeps

    What every request and every frame leaves true of the commands, the
    deployments, the registry and the send queues.  The agents are known by
    the processes they started and stopped for a command, and the agent at
    the other end of a connection; [WorkerInvariant] supplies both. *)

From stdpp Require Import base gmap sets list strings numbers sorting.
From Stdlib Require Import ZArith Lia Ascii.
From S2P Require Import Prelude PyFloat Value WorkerPlane WorkAgent.

(** ** How a command may change *)

(** The request stays; a finished command does not change at all. *)
Definition refines (c c' : WorkerAgentCommand) : Prop :=
  build_worker_agent_command_message c' = build_worker_agent_command_message c
  ∧ wc_worker_agent_id c' = wc_worker_agent_id c
  ∧ (is_Some (wc_finished_at c) → c' = c).

Definition evolves (m m' : gmap string WorkerAgentCommand) : Prop :=
  ∀ id c, m !! id = Some c → ∃ c', m' !! id = Some c' ∧ refines c c'.

#[export] Instance worker_refines_preorder : PreOrder refines.
Proof.
  split; [by intros c|]. intros c1 c2 c3 (E1 & E2 & E3) (F1 & F2 & F3).
  unfold refines. split_and!; [congruence..|]. intros Hf. pose proof (E3 Hf). subst. auto.
Qed.

#[export] Instance worker_evolves_preorder : PreOrder evolves.
Proof.
  split; [intros m id c Hc; by exists c|]. intros m1 m2 m3 H1 H2 id c Hc.
  destruct (H1 id c Hc) as (c2 & Hc2 & R2). destruct (H2 id c2 Hc2) as (c3 & Hc3 & R3).
  exists c3. split; [done|]. by transitivity c2.
Qed.

(** The status says whether the command is finished and how it was
    acknowledged. *)
Definition lifecycle (c : WorkerAgentCommand) : Prop :=
  match wc_status c with
  | wcmd_pending | wcmd_dispatched => wc_finished_at c = None ∧ wc_ack_status c = None
  | wcmd_accepted => wc_finished_at c = None ∧ wc_ack_status c = Some wack_accepted
  | _ => is_Some (wc_finished_at c)
  end.

(** The command is one on a deployment, which its arguments name; its time
    limit is one the schema accepts. *)
Definition names_deployment (c : WorkerAgentCommand) : Prop :=
  wc_kind c ≠ sync_agent_state ∧ (1 ≤ wc_timeout_s c)%Z
  ∧ ∃ d, wc_deployment_id c = Some d ∧ dict_get "deployment_id" (wc_args_json c) = Some (VStr d).

Definition starts (k : WorkerAgentCommandKind) : Prop := k = start_deployment ∨ k = restart_deployment.

(** [id] is a command of [agent] on deployment [d] of a kind in [ks]. *)
Definition commanded (m : gmap string WorkerAgentCommand) (ks : WorkerAgentCommandKind → Prop)
    (agent id d : string) : Prop :=
  ∃ c, m !! id = Some c ∧ ks (wc_kind c) ∧ wc_worker_agent_id c = agent ∧ wc_deployment_id c = Some d.

(** [p] is what is sent of a command of [agent]. *)
Definition sent_of (m : gmap string WorkerAgentCommand) (agent : string) (p : WorkerAgentCommandPayload) : Prop :=
  ∃ c, m !! wcp_command_id p = Some c ∧ build_worker_agent_command_message c = p ∧ wc_worker_agent_id c = agent.

Lemma commanded_evolves m m' ks agent id d : evolves m m' → commanded m ks agent id d → commanded m' ks agent id d.
Proof.
  intros E (c & Hc & Hk & Ha & Hd). destruct (E _ _ Hc) as (c' & Hc' & Hm & Ha' & _).
  exists c'. injection Hm as _ Hk' Hd' _ _ _. rewrite Hk', Ha', Hd'. auto.
Qed.

Lemma sent_of_evolves m m' agent p : evolves m m' → sent_of m agent p → sent_of m' agent p.
Proof.
  intros E (c & Hc & Hp & Ha). destruct (E _ _ Hc) as (c' & Hc' & Hm & Ha' & _).
  exists c'. by rewrite Hm, Ha'.
Qed.

(** ** The invariant of the control plane *)

Section Server.
(** [ran agent id d r]: an agent started run [r] of [d] for command [id];
    [ended agent id d]: it stopped [d]. *)
Context (conn_agent : nat → option string).
Context (ran : string → string → string → string → Prop) (ended : string → string → string → Prop).

(** A success has its reason. *)
Definition told (id : string) (c : WorkerAgentCommand) : Prop :=
  wc_status c = wcmd_succeeded →
  (starts (wc_kind c) ∧ ∃ d r, wc_deployment_id c = Some d ∧ wc_result_json c = Some (runtime_result r)
                               ∧ ran (wc_worker_agent_id c) id d r)
  ∨ (wc_kind c = stop_deployment ∧ ∃ d, wc_deployment_id c = Some d ∧ ended (wc_worker_agent_id c) id d).

Definition row_ok (id : string) (c : WorkerAgentCommand) : Prop :=
  wc_command_id c = id ∧ lifecycle c ∧ names_deployment c ∧ told id c.

Definition deployment_ok (d : string) (row : WorkerDeployment) : Prop :=
  deployment_id row = d ∧ (observed_status row = obs_running → ∃ agent id r, ran agent id d r).

Record plane_ok (p : Plane) : Prop := {
  ok_rows : ∀ id c, worker_commands p !! id = Some c → row_ok id c;
  ok_deployments : ∀ d row, worker_deployments p !! d = Some row → deployment_ok d row;
  ok_queues : ∀ k q m, worker_queues p !! k = Some q → m ∈ q →
    ∃ agent, conn_agent k = Some agent ∧ sent_of (worker_commands p) agent m;
  ok_live : ∀ agent l, live_agents p !! agent = Some l → conn_agent (lw_send_queue l) = Some agent;
  ok_agents : ∀ agent a, worker_agents p !! agent = Some a → worker_agent_id a = agent;
  ok_ran : ∀ agent id d r, ran agent id d r → commanded (worker_commands p) starts agent id d;
  ok_ended : ∀ agent id d, ended agent id d → commanded (worker_commands p) (eq stop_deployment) agent id d;
}.

Definition keeps (p p' : Plane) : Prop :=
  plane_ok p → plane_ok p' ∧ evolves (worker_commands p) (worker_commands p').

#[export] Instance worker_keeps_preorder : PreOrder keeps.
Proof.
  split; [by intros c|]. intros c1 c2 c3 H1 H2 Ok.
  destruct (H1 Ok) as [Ok2 E2]. destruct (H2 Ok2) as [Ok3 E3]. split; [done|]. by etransitivity.
Qed.

(** ** Primitive changes *)

Lemma worker_commands_change f p :
  plane_ok p →
  (∀ id c, f (worker_commands p) !! id = Some c → row_ok id c) →
  evolves (worker_commands p) (f (worker_commands p)) →
  plane_ok (set_commands f p) ∧ evolves (worker_commands p) (worker_commands (set_commands f p)).
Proof.
  intros [Hr Hd Hq Hl Ha Hran Hend] Hw E. split; [|done]. split; cbn; try done.
  - intros k q m Hk Hm. destruct (Hq k q m Hk Hm) as (a & Hka & Hs). exists a. split; [done|].
    by eapply sent_of_evolves.
  - intros ? ? ? ? H. eapply commanded_evolves; [done|]. by eapply Hran.
  - intros ? ? ? H. eapply commanded_evolves; [done|]. by apply Hend.
Qed.

Lemma worker_command_updated id f c p :
  plane_ok p → worker_commands p !! id = Some c → row_ok id (f c) → refines c (f c) →
  plane_ok (set_commands (alter f id) p)
  ∧ evolves (worker_commands p) (worker_commands (set_commands (alter f id) p)).
Proof.
  intros Ok Hl Hw R. apply worker_commands_change; [done| |].
  - intros id' c'. rewrite lookup_alter. case_decide as D; [subst|apply Ok].
    rewrite Hl. by intros [= <-].
  - intros id' c' Hc'. rewrite lookup_alter. case_decide as D; [subst|by exists c'].
    rewrite Hl in *. simplify_eq. by exists (f c').
Qed.

Lemma worker_command_added id c p :
  plane_ok p → worker_commands p !! id = None → row_ok id c →
  plane_ok (set_commands <[id := c]> p)
  ∧ evolves (worker_commands p) (worker_commands (set_commands <[id := c]> p)).
Proof.
  intros Ok Hl Hw. apply worker_commands_change; [done| |].
  - intros id' c'. rewrite lookup_insert. case_decide as D; [by subst; intros [= <-]|apply Ok].
  - intros id' c' Hc'. rewrite lookup_insert. case_decide as D; [congruence|by exists c'].
Qed.

(** The tables the invariant speaks of. *)
Definition tables_of (p : Plane) :=
  (worker_commands p, worker_deployments p, worker_queues p, live_agents p, worker_agents p).

Lemma worker_keeps_other p p' : tables_of p' = tables_of p → keeps p p'.
Proof.
  intros [= E1 E2 E3 E4 E5] [Hr Hd Hq Hl Ha Hran Hend].
  split; [split; by rewrite ?E1, ?E2, ?E3, ?E4, ?E5|by rewrite E1].
Qed.

Lemma worker_other_tables {A} (m : WP A) : (∀ t, se_inv (λ p, tables_of p = t) m) → se_rel keeps m.
Proof. intros H s. apply worker_keeps_other. exact (H (tables_of s) s eq_refl). Qed.

Lemma deployments_change f p :
  (∀ d row, f (worker_deployments p) !! d = Some row → deployment_ok d row) → keeps p (set_deployments f p).
Proof. intros Hf [Hr Hd Hq Hl Ha Hran Hend]. split; [by split|done]. Qed.

Lemma deployment_updated f d p :
  (∀ row, deployment_ok d row → deployment_ok d (f row)) → keeps p (set_deployments (alter f d) p).
Proof.
  intros Hf Ok. apply deployments_change; [|done]. intros d' row. rewrite lookup_alter.
  case_decide as D; [subst|apply Ok]. destruct (worker_deployments p !! d') as [row'|] eqn:E; [|done].
  intros [= <-]. by apply Hf, Ok.
Qed.

Lemma worker_put_keeps k agent m p :
  conn_agent k = Some agent → sent_of (worker_commands p) agent m →
  keeps p (set_live id (λ qs, <[k := default [] (qs !! k) ++ [m]]> qs) p).
Proof.
  intros Hk Hm [Hr Hd Hq Hl Ha Hran Hend]. split; [|done]. split; cbn; try done.
  intros k' q m'. rewrite lookup_insert. case_decide as D; [subst|apply Hq].
  intros [= <-] [Hi | ->%list_elem_of_singleton]%elem_of_app; [|by exists agent].
  destruct (worker_queues p !! k') as [q|] eqn:E; [by eapply Hq | by apply elem_of_nil in Hi].
Qed.

(** ** Statements that touch none of this *)

Lemma update_sessions_tables w f t : se_inv (λ p, tables_of p = t) (update_sessions w f).
Proof. apply se_inv_modify. by intros p Hp. Qed.

Lemma record_event_tables d a e o m pl now t :
  se_inv (λ p, tables_of p = t) (record_worker_deployment_event d a e o m pl now).
Proof. apply se_inv_modify. by intros p Hp. Qed.

Lemma command_event_tables c e o m pl now t : se_inv (λ p, tables_of p = t) (record_command_event c e o m pl now).
Proof. unfold record_command_event. destruct (wc_deployment_id c); [apply record_event_tables|apply se_inv_ret]. Qed.

Lemma commit_agent_keeps a b : se_rel keeps (commit_agent a b).
Proof.
  intros p [Hr Hd Hq Hl Ha Hran Hend]. split; [|done]. split; cbn; try done.
  intros id x. rewrite lookup_alter. case_decide as D; [subst id|apply Ha].
  destruct (worker_agents p !! _) as [y|] eqn:E; [|done]. intros [= <-]. cbn. by apply Ha.
Qed.

Lemma update_sessions_keeps w f : se_rel keeps (update_sessions w f).
Proof. apply worker_other_tables. apply update_sessions_tables. Qed.
Lemma record_event_keeps d a e o m pl now : se_rel keeps (record_worker_deployment_event d a e o m pl now).
Proof. apply worker_other_tables. apply record_event_tables. Qed.
Lemma command_event_keeps c e o m pl now : se_rel keeps (record_command_event c e o m pl now).
Proof. apply worker_other_tables. apply command_event_tables. Qed.

(** Descend into a computation made of steps that keep the state. *)
Ltac keep_steps :=
  repeat match goal with
  | |- se_rel keeps (mret _) => apply se_rel_ret; apply _
  | |- se_rel keeps (se_gets _) => apply se_rel_gets; apply _
  | |- se_rel keeps (se_lift _) => apply se_rel_lift; apply _
  | |- se_rel keeps (se_raise _) => apply se_rel_raise; apply _
  | |- se_rel keeps (update_sessions _ _) => apply update_sessions_keeps
  | |- se_rel keeps (record_worker_deployment_event _ _ _ _ _ _ _) => apply record_event_keeps
  | |- se_rel keeps (record_command_event _ _ _ _ _ _) => apply command_event_keeps
  | |- se_rel keeps (commit_agent _ _) => apply commit_agent_keeps
  | |- se_rel keeps (match ?x with _ => _ end) => destruct x
  | |- se_rel keeps (_ ≫= _) => apply se_rel_bind; [apply _ | | intros ?]
  end.

(** ** Sessions *)

Lemma worker_hello_keeps a m session now : se_rel keeps (handle_worker_agent_hello a m session now).
Proof.
  unfold handle_worker_agent_hello. keep_steps. apply se_rel_modify. intros p. by apply worker_keeps_other.
Qed.

Lemma hello_agent a m session now p p' a' acc :
  handle_worker_agent_hello a m session now p = (p', Ok (a', acc)) → worker_agent_id a' = worker_agent_id a.
Proof.
  unfold handle_worker_agent_hello, mbind, se_bind, se_lift, guard_else.
  do 2 (destruct (String.eqb _ _); cbn; [|done]). by intros [= _ <- _].
Qed.

Lemma mark_keeps session now : se_rel keeps (mark_worker_agent_session_message session now).
Proof. apply update_sessions_keeps. Qed.

Lemma heartbeat_keeps a session m now : se_rel keeps (apply_worker_agent_heartbeat a session m now).
Proof. unfold apply_worker_agent_heartbeat. keep_steps. Qed.

Lemma heartbeat_agent a session m now p p' a' :
  (_ ← mark_worker_agent_session_message session now; apply_worker_agent_heartbeat a session m now) p = (p', Ok a') →
  worker_agent_id a' = worker_agent_id a.
Proof.
  unfold apply_worker_agent_heartbeat, mbind, se_bind, se_lift, guard_else. cbn. destruct (String.eqb _ _); cbn; [|done].
  by intros [= _ <-].
Qed.

Lemma close_keeps a session now : se_rel keeps (close_worker_agent_session a session now).
Proof. unfold close_worker_agent_session, get_worker_agent_or_404, get_or_404. keep_steps. Qed.

Lemma worker_register_keeps agent session k : conn_agent k = Some agent → se_rel keeps (register agent session k).
Proof.
  intros Hk. apply se_rel_modify. intros p [Hr Hd Hq Hl Ha Hran Hend]. split; [|done]. split; cbn; try done.
  intros agent' l. rewrite lookup_insert. case_decide as D; [by subst; intros [= <-]|apply Hl].
Qed.

Lemma worker_unregister_keeps agent session : se_rel keeps (unregister agent session).
Proof.
  unfold unregister. keep_steps. apply se_rel_modify. intros p [Hr Hd Hq Hl Ha Hran Hend].
  split; [|done]. split; cbn; try done. intros agent' l'. rewrite lookup_delete. case_decide; [done|apply Hl].
Qed.

(** ** Deployments *)

Lemma event_keeps a m now :
  (wev_observed_status m = Some obs_running → ∃ agent id r, ran agent id (wev_deployment_id m) r) →
  se_rel keeps (apply_worker_deployment_event a m now).
Proof.
  intros Hm. unfold apply_worker_deployment_event.
  apply se_rel_gets_bind. intros p Ok. destruct (_ !! _) as [row|] eqn:E; [|by split].
  destruct (String.eqb _ _); [|by split].
  assert (Hid : deployment_id row = wev_deployment_id m) by by apply (ok_deployments _ Ok).
  refine (se_rel_bind keeps _ _ _ _ p Ok); [|intros; keep_steps].
  destruct (wev_observed_status m) as [o|] eqn:Eo; [|keep_steps].
  apply se_rel_modify. intros p'. apply deployment_updated. rewrite Hid.
  intros row' [Hr Ho]. split; [done|]. cbn. intros ->. by apply Hm.
Qed.

Lemma failure_keeps c code msg now : se_rel keeps (_apply_worker_command_failure_to_deployment c code msg now).
Proof.
  unfold _apply_worker_command_failure_to_deployment. keep_steps. apply se_rel_modify. intros p.
  apply deployment_updated. by intros row [Hr _].
Qed.

Lemma success_keeps u c result fin now :
  (starts (wc_kind c) → ∃ d agent id r, wc_deployment_id c = Some d ∧ ran agent id d r) →
  se_rel keeps (_apply_worker_command_success_to_deployment u c result fin now).
Proof.
  intros Hc. unfold _apply_worker_command_success_to_deployment.
  destruct (wc_deployment_id c) as [d|] eqn:Ed; [|keep_steps].
  apply se_rel_modify. intros p. apply deployment_updated. intros row [Hr Ho]. unfold starts in Hc.
  destruct (wc_kind c) eqn:Ek; split; try done; cbn; try done;
    (intros _; destruct Hc as (d' & a & id & r & [= <-] & H); [auto|eauto]).
Qed.

(** ** Commands *)

Definition unfinished (c : WorkerAgentCommand) : Prop :=
  wc_status c ∈ WORKER_AGENT_REDELIVERABLE_COMMAND_STATUSES.

Lemma unfinished_lifecycle c : lifecycle c → unfinished c → wc_finished_at c = None ∧ wc_ack_status c = None.
Proof.
  unfold lifecycle, unfinished. intros H Hu. pose proof (bool_decide_pack _ Hu) as Hb. clear Hu.
  destruct (wc_status c); first [done | by destruct Hb].
Qed.

(** A statement on row [c] and what it leaves of the other rows. *)
Definition on_row (c : WorkerAgentCommand) (p p' : Plane) : Prop :=
  plane_ok p → worker_commands p !! wc_command_id c = Some c → unfinished c →
  plane_ok p' ∧ evolves (worker_commands p) (worker_commands p')
  ∧ (∀ id, id ≠ wc_command_id c → worker_commands p' !! id = worker_commands p !! id).

Lemma worker_dispatch_keeps c k session now p :
  conn_agent k = Some (wc_worker_agent_id c) → on_row c p (dispatch_worker_agent_command c k session now p).1.
Proof.
  intros Hk Ok Hl Hu. pose proof (ok_rows _ Ok _ _ Hl) as (Hid & Hw & Hn & Ht).
  destruct (unfinished_lifecycle _ Hw Hu) as [Hf Ha].
  set (f := λ c, with_command (Some session) wcmd_dispatched (wc_ack_status c) (wc_result_json c) (wc_error_code c)
              (wc_error_message c) (Some now) (wc_acked_at c) (wc_finished_at c) now c).
  assert (Hrow : row_ok (wc_command_id c) (f c)) by (split_and!; [done..|by intros ?]).
  assert (R : refines c (f c)) by (split_and!; [done..|]; rewrite Hf; by intros []).
  destruct (worker_command_updated _ f c p Ok Hl Hrow R) as [Ok1 E1].
  unfold dispatch_worker_agent_command, update_command.
  set (p1 := set_commands (alter f (wc_command_id c)) p) in *.
  rewrite se_modify_bind. fold f. fold p1.
  match goal with |- context [(record_command_event ?a ?b ?o ?m ?l ?n ≫= ?g) p1] =>
    pose proof (command_event_keeps a b o m l n p1 Ok1) as [Ok2 E2];
    pose proof (command_event_tables a b o m l n (tables_of p1) p1 eq_refl) as T end.
  unfold mbind, se_bind.
  destruct (record_command_event _ _ _ _ _ _ p1) as [p2 [[]|e]] eqn:Er; cbn [fst snd] in *;
    [|by unfold record_command_event in Er; destruct (wc_deployment_id c)].
  injection T as T1 T2 T3 T4 T5. unfold se_modify. cbn [fst].
  assert (Hs : sent_of (worker_commands p2) (wc_worker_agent_id c) (build_worker_agent_command_message c)).
  { exists (f c). split; [|done]. rewrite T1. unfold p1. cbn. by rewrite lookup_alter_eq, Hl. }
  destruct (worker_put_keeps k _ _ p2 Hk Hs Ok2) as [Ok3 E3]. split; [exact Ok3|]. split.
  - cbn. by transitivity (worker_commands p1).
  - intros id Hne. cbn. rewrite T1. unfold p1. cbn. by rewrite lookup_alter_ne by done.
Qed.

Lemma reject_keeps c code msg now p :
  on_row c p (reject_worker_agent_command_without_delivery c code msg now p).1.
Proof.
  intros Ok Hl Hu. pose proof (ok_rows _ Ok _ _ Hl) as (Hid & Hw & Hn & Ht).
  destruct (unfinished_lifecycle _ Hw Hu) as [Hf Ha].
  set (f := λ c, with_command (wc_session_id c) wcmd_rejected (wc_ack_status c) (wc_result_json c) (Some code)
              (Some msg) (wc_dispatched_at c) (wc_acked_at c) (Some now) now c).
  assert (Hrow : row_ok (wc_command_id c) (f c)) by (split_and!; [done|by eexists|done|by intros ?]).
  assert (R : refines c (f c)) by (split_and!; [done..|]; rewrite Hf; by intros []).
  destruct (worker_command_updated _ f c p Ok Hl Hrow R) as [Ok1 E1].
  unfold reject_worker_agent_command_without_delivery, update_command.
  set (p1 := set_commands (alter f (wc_command_id c)) p) in *. rewrite se_modify_bind. fold f. fold p1.
  match goal with |- context [(?m) p1] =>
    assert (K : se_rel keeps m) by (apply se_rel_bind; [apply _|apply failure_keeps|intros; apply command_event_keeps]);
    assert (T : se_inv (λ q, worker_commands q = worker_commands p1) m) end.
  { apply se_inv_bind; [unfold _apply_worker_command_failure_to_deployment; destruct (wc_deployment_id c);
      [by apply se_inv_modify|apply se_inv_ret]|].
    intros _. unfold record_command_event. destruct (wc_deployment_id c); [by apply se_inv_modify|apply se_inv_ret]. }
  destruct (K p1 Ok1) as [Ok2 E2]. specialize (T p1 eq_refl). split; [exact Ok2|]. split; [by etransitivity|].
  intros id Hne. rewrite T. unfold p1. cbn. by rewrite lookup_alter_ne by done.
Qed.

(** ** Acknowledgements and results *)

Lemma worker_ack_keeps agent session m now : se_rel keeps (handle_worker_agent_command_ack agent session m now).
Proof.
  unfold handle_worker_agent_command_ack. apply se_rel_gets_bind. intros p Ok.
  destruct (_ !! _) as [c|] eqn:E; [|by split].
  pose proof (ok_rows _ Ok _ _ E) as (Hid & Hw & Hn & Ht).
  destruct (negb _); [by split|]. destruct (_ || _) eqn:Ef; [by split|]. zbool.
  repeat match goal with H : bool_decide _ = false |- _ => apply bool_decide_eq_false, eq_None_not_Some in H end.
  assert (Hrow : ∀ f, refines c (f c) → row_ok (wack_command_id m) (f c) →
                 keeps p (set_commands (alter f (wc_command_id c)) p)).
  { intros f R Hf _. rewrite Hid. by apply (worker_command_updated _ f c). }
  destruct (wack_status m); cbn -[record_command_event _apply_worker_command_failure_to_deployment].
  - match goal with |- context [update_command ?i ?f] => assert (K : keeps p (set_commands (alter f i) p)) end.
    { apply Hrow; [split_and!; [done..|]; rewrite H; by intros []|]. by split_and!. }
    destruct (K Ok) as [Ok1 E1]. unfold update_command. rewrite se_modify_bind.
    match goal with |- context [(?m _).1] => assert (K2 : se_rel keeps m) by keep_steps end.
    destruct (K2 _ Ok1) as [Ok2 E2]. split; [done|]. by etransitivity.
  - match goal with |- context [update_command ?i ?f] => assert (K : keeps p (set_commands (alter f i) p)) end.
    { apply Hrow; [split_and!; [done..|]; rewrite H; by intros []|]. split_and!; try done; by eexists. }
    destruct (K Ok) as [Ok1 E1]. unfold update_command. rewrite se_modify_bind.
    match goal with |- context [(?m _).1] => assert (K2 : se_rel keeps m) end.
    { apply se_rel_bind; [apply _|apply failure_keeps|intros; keep_steps]. }
    destruct (K2 _ Ok1) as [Ok2 E2]. split; [done|]. by etransitivity.
Qed.

(** A success on its way has its reason. *)
Definition result_ok (agent : string) (m : WorkerAgentCommandResultPayload) : Prop :=
  wres_status m = wres_succeeded →
  (∃ d r, wres_result m = Some (runtime_result r) ∧ ran agent (wres_command_id m) d r)
  ∨ (∃ d, ended agent (wres_command_id m) d).

Lemma result_told agent m p c :
  plane_ok p → worker_commands p !! wres_command_id m = Some c → result_ok agent m → wc_worker_agent_id c = agent →
  wres_status m = wres_succeeded →
  (starts (wc_kind c) ∧ ∃ d r, wc_deployment_id c = Some d ∧ wres_result m = Some (runtime_result r)
                               ∧ ran agent (wres_command_id m) d r)
  ∨ (wc_kind c = stop_deployment ∧ ∃ d, wc_deployment_id c = Some d ∧ ended agent (wres_command_id m) d).
Proof.
  intros Ok E Hm Ha Hs. destruct (Hm Hs) as [(d & r & Hr & H) | (d & H)].
  - left. pose proof (ok_ran _ Ok _ _ _ _ H) as (c' & Hc' & Hk & _ & Hd). simplify_eq. eauto 10.
  - right. pose proof (ok_ended _ Ok _ _ _ H) as (c' & Hc' & Hk & _ & Hd). simplify_eq. eauto 10.
Qed.

Lemma worker_result_keeps u agent session m now :
  result_ok agent m → se_rel keeps (handle_worker_agent_command_result u agent session m now).
Proof.
  intros Hm. unfold handle_worker_agent_command_result. apply se_rel_gets_bind. intros p Ok.
  destruct (_ !! _) as [c|] eqn:E; [|by split].
  pose proof (ok_rows _ Ok _ _ E) as (Hid & Hw & Hn & Ht).
  destruct (negb _) eqn:Ea; [by split|]. apply negb_false_iff, String.eqb_eq in Ea.
  destruct (bool_decide _) eqn:Ef; [by split|]. apply bool_decide_eq_false, eq_None_not_Some in Ef.
  pose proof (result_told agent m p c Ok E Hm Ea) as Htold.
  match goal with |- context [update_command ?i ?f] => assert (K : keeps p (set_commands (alter f i) p)) end.
  { intros _. rewrite Hid. apply (worker_command_updated _ _ c); [done|done| |].
    - split_and!; [done| |done|].
      + unfold lifecycle. cbn. by destruct (wres_status m); eexists.
      + unfold told. cbn. intros Hs. rewrite Ea. apply Htold. by destruct (wres_status m).
    - split_and!; [done..|]. rewrite Ef. by intros []. }
  destruct (K Ok) as [Ok1 E1]. unfold update_command. rewrite se_modify_bind.
  match goal with |- context [(?m _).1] => assert (K2 : se_rel keeps m) end.
  { apply se_rel_bind; [apply _| |intros; keep_steps].
    assert (Hf : ∀ code msg n e o t pl, se_rel keeps (_ ← _apply_worker_command_failure_to_deployment c code msg n;
                    record_command_event c e o t pl n)).
    { intros. apply se_rel_bind; [apply _|apply failure_keeps|intros; keep_steps]. }
    destruct (wres_status m) eqn:Es; [|apply Hf..].
    apply se_rel_bind; [apply _| |intros; keep_steps]. apply success_keeps.
    destruct Htold as [(_ & d & r & Hd & _ & H) | (Hk & _)]; [done| |].
    - intros _. by exists d, agent, (wres_command_id m), r.
    - intros [H | H]; by rewrite Hk in H. }
  destruct (K2 _ Ok1) as [Ok2 E2]. split; [done|]. by etransitivity.
Qed.

(** ** The commands of a new session *)

Lemma redeliverable_spec agent p c :
  plane_ok p →
  c ∈ list_redeliverable_worker_agent_commands agent p ↔
  worker_commands p !! wc_command_id c = Some c ∧ unfinished c ∧ wc_worker_agent_id c = agent.
Proof.
  intros Ok. unfold list_redeliverable_worker_agent_commands. rewrite merge_sort_Permutation.
  assert (Hr : ∀ c, redeliverable agent c = true ↔ unfinished c ∧ wc_worker_agent_id c = agent).
  { intros c'. unfold redeliverable, unfinished. rewrite andb_true_iff, String.eqb_eq, bool_decide_eq_true. tauto. }
  rewrite list_elem_of_In, List.filter_In, Hr, <- list_elem_of_In, list_elem_of_fmap. split.
  - intros [([id c'] & -> & Hi%elem_of_map_to_list) [Hu Ha]]. cbn in *.
    pose proof (ok_rows _ Ok _ _ Hi) as (-> & _). by split.
  - intros (Hl & Hu & Ha). split; [|done]. exists (wc_command_id c, c). split; [done|]. by apply elem_of_map_to_list.
Qed.

Lemma worker_rows_nodup agent p :
  plane_ok p → NoDup (wc_command_id <$> list_redeliverable_worker_agent_commands agent p).
Proof.
  intros Ok. unfold list_redeliverable_worker_agent_commands. rewrite merge_sort_Permutation.
  assert (H : ∀ l : list (string * WorkerAgentCommand), NoDup l.*1 → (∀ kc, kc ∈ l → wc_command_id kc.2 = kc.1) →
              NoDup (wc_command_id <$> List.filter (redeliverable agent) l.*2)).
  { induction l as [|[k c] l IH]; cbn; [constructor|]. intros [Hn Hd]%NoDup_cons Hl.
    assert (IH' := IH Hd (λ kc Hkc, Hl kc (list_elem_of_further _ _ _ Hkc))).
    destruct (redeliverable agent c); cbn; [|done]. constructor; [|done].
    intros (c' & He & Hi%list_elem_of_In)%list_elem_of_fmap. apply List.filter_In in Hi as [Hi _].
    apply list_elem_of_In, list_elem_of_fmap in Hi as ([k' c''] & -> & Hi). apply Hn.
    apply list_elem_of_fmap. exists (k', c''). split; [|done]. cbn in *.
    pose proof (Hl _ (list_elem_of_further _ _ _ Hi)). pose proof (Hl _ (list_elem_of_here _ _)).
    cbn in *. congruence. }
  apply H; [apply NoDup_fst_map_to_list|]. intros [k c] Hi%elem_of_map_to_list. by apply (ok_rows _ Ok).
Qed.

Lemma se_iter_cons {A} (f : A → WP unit) x l p :
  (se_iter f (x :: l) p).1 = match f x p with (p1, Ok _) => (se_iter f l p1).1 | (p1, Err _) => p1 end.
Proof. cbn. unfold mbind, se_bind. by destruct (f x p) as [p1 [[]|e]]. Qed.

Lemma worker_enqueue_keeps agent session accepted k now :
  conn_agent k = Some agent → se_rel keeps (_enqueue_pending_commands agent session accepted k now).
Proof.
  intros Hk. unfold _enqueue_pending_commands. apply se_rel_gets_bind. intros p Ok.
  assert (Hrows : ∀ c, c ∈ list_redeliverable_worker_agent_commands agent p →
            worker_commands p !! wc_command_id c = Some c ∧ unfinished c ∧ wc_worker_agent_id c = agent)
    by (intros c; by apply redeliverable_spec).
  pose proof (worker_rows_nodup agent p Ok) as Hnd.
  set (cs := list_redeliverable_worker_agent_commands agent p) in *. clearbody cs.
  induction cs as [|c cs IH] in p, Ok, Hrows, Hnd |- *; [by split|].
  apply NoDup_cons in Hnd as [Hni Hnd]. destruct (Hrows c) as (Hl & Hu & Ha); [by left|].
  match goal with |- context [se_iter ?f _] => set (body := f) in * end. rewrite se_iter_cons.
  assert (Hr : plane_ok (body c p).1 ∧ evolves (worker_commands p) (worker_commands (body c p).1)
               ∧ (∀ id, id ≠ wc_command_id c → worker_commands (body c p).1 !! id = worker_commands p !! id)).
  { unfold body. destruct (negb _); [exact (reject_keeps _ _ _ _ _ Ok Hl Hu)|].
    refine (worker_dispatch_keeps _ _ _ _ _ _ Ok Hl Hu). by rewrite Ha. }
  destruct (body c p) as [p1 [[]|e]]; cbn [fst] in *; destruct Hr as (Ok1 & E1 & Ho); [|done].
  destruct (IH p1) as [Ok2 E2]; [done| |done|split; [done|by etransitivity]].
  intros c' Hc'. destruct (Hrows c') as (Hl' & Hr'); [by right|]. rewrite Ho; [done|].
  intros He. apply Hni. rewrite <- He. by apply list_elem_of_fmap_2.
Qed.

(** ** Requests *)

Lemma create_command_keeps d kind package env timeout id now p :
  plane_ok p → kind ≠ sync_agent_state → (1 ≤ timeout)%Z → worker_commands p !! id = None →
  let r := create_worker_deployment_command d kind package env timeout id now p in
  plane_ok r.1 ∧ evolves (worker_commands p) (worker_commands r.1)
  ∧ ∀ c, r.2 = Ok c → worker_commands r.1 !! wc_command_id c = Some c ∧ unfinished c
                      ∧ wc_worker_agent_id c = wd_worker_agent_id d.
Proof.
  intros Hok Hk Ht Hf. unfold create_worker_deployment_command, mbind, se_bind, se_lift.
  match goal with |- context [match ?x with Ok _ => _ | Err _ => _ end] =>
    assert (Hargs : ∀ a, x = Ok a → dict_get "deployment_id" a = Some (VStr (deployment_id d)));
    [|destruct x as [args|e] eqn:Ex] end.
  { intros a. by destruct kind, package; intros [= <-]. }
  2: { cbn. by split_and!. }
  cbn -[record_worker_deployment_event]. specialize (Hargs args eq_refl).
  match goal with |- context [record_worker_deployment_event ?a ?b ?e ?o ?m ?l ?n (set_commands <[id := ?c]> p)] =>
    pose proof (worker_command_added id c p Hok Hf) as Hadd;
    pose proof (record_event_keeps a b e o m l n (set_commands <[id := c]> p)) as K end.
  destruct Hadd as [Ok1 E1].
  { split_and!; [done|by cbn|split; [done|split; [done|by eexists]]|by intros ?]. }
  cbn in K |- *. destruct (K Ok1) as [Ok2 E2]. split; [done|]. split; [by etransitivity|].
  intros c [= <-]. cbn. rewrite lookup_insert_eq. split_and!; [done| |done]. by left.
Qed.

Lemma dispatch_if_connected_keeps d c now p :
  plane_ok p → worker_commands p !! wc_command_id c = Some c → unfinished c →
  wc_worker_agent_id c = wd_worker_agent_id d →
  plane_ok (_dispatch_if_connected d c now p).1
  ∧ evolves (worker_commands p) (worker_commands (_dispatch_if_connected d c now p).1).
Proof.
  intros Ok Hl Hu Ha. unfold _dispatch_if_connected. rewrite se_gets_bind.
  destruct (live_agents p !! wd_worker_agent_id d) as [l|] eqn:E; [|by split].
  destruct (worker_dispatch_keeps c (lw_send_queue l) (lw_session_id l) now p) as (Ok1 & E1 & _); try done.
  rewrite Ha. by apply (ok_live _ Ok).
Qed.

(** A command is made and sent. *)
Lemma command_and_dispatch_keeps d d' kind package env timeout id now p :
  plane_ok p → kind ≠ sync_agent_state → (1 ≤ timeout)%Z → worker_commands p !! id = None →
  wd_worker_agent_id d' = wd_worker_agent_id d →
  let m := c ← create_worker_deployment_command d kind package env timeout id now; _dispatch_if_connected d' c now in
  plane_ok (m p).1 ∧ evolves (worker_commands p) (worker_commands (m p).1).
Proof.
  intros Ok Hk Ht Hf Ha. cbn. unfold mbind, se_bind.
  pose proof (create_command_keeps d kind package env timeout id now p Ok Hk Ht Hf) as (Ok1 & E1 & H).
  destruct (create_worker_deployment_command _ _ _ _ _ _ _ p) as [p1 [c|e]]; cbn [fst snd] in *; [|done].
  destruct (H c eq_refl) as (Hl & Hu & Hw).
  destruct (dispatch_if_connected_keeps d' c now p1 Ok1 Hl Hu) as [Ok2 E2]; [congruence|].
  split; [done|]. by etransitivity.
Qed.

(** The row of a request that is served, and what happens without one. *)
Lemma get_or_404_bind {A B} table what id (f : A → WP B) p (P : Plane → Prop) :
  P p → (∀ row, table p !! id = Some row → P (f row p).1) → P ((get_or_404 table what id ≫= f) p).1.
Proof.
  intros Hn Hs. unfold get_or_404, mbind, se_bind, se_gets. cbn.
  destruct (table p !! id) as [row|] eqn:E; cbn; [by apply Hs|done].
Qed.

Definition kept (p p' : Plane) : Prop := plane_ok p' ∧ evolves (worker_commands p) (worker_commands p').

Lemma observed_not_running d des o now row :
  deployment_ok d row → o ≠ obs_running → deployment_ok d (observe des o now row).
Proof. intros [Hr _] Ho. split; [done|]. cbn. congruence. Qed.

Lemma stop_request_keeps d id now p :
  plane_ok p → worker_commands p !! id = None → kept p (stop_worker_deployment_endpoint d id now p).1.
Proof.
  intros Ok Hf. unfold stop_worker_deployment_endpoint. apply (get_or_404_bind _ _ _ _ p (kept p)); [by split|].
  intros row Hrow. unfold create_stop_deployment_command.
  set (p1 := set_deployments (alter (observe desired_stopped obs_stopping now) (deployment_id row)) p).
  assert (Ok1 : plane_ok p1 ∧ evolves (worker_commands p) (worker_commands p1)).
  { apply deployment_updated; [|done]. intros row' H. by apply observed_not_running. }
  destruct Ok1 as [Ok1 E1].
  destruct (command_and_dispatch_keeps (observe desired_stopped obs_stopping now row) row stop_deployment None None
              30 id now p1) as [Ok2 E2]; try done.
Qed.

Lemma restart_request_keeps d id now p :
  plane_ok p → worker_commands p !! id = None → kept p (restart_worker_deployment_endpoint d id now p).1.
Proof.
  intros Ok Hf. unfold restart_worker_deployment_endpoint. apply (get_or_404_bind _ _ _ _ p (kept p)); [by split|].
  intros row Hrow. apply (get_or_404_bind _ _ _ _ p (kept p)); [by split|]. intros package _.
  unfold create_restart_deployment_command.
  set (p1 := set_deployments (alter (observe desired_running obs_assigned now) (deployment_id row)) p).
  assert (Ok1 : plane_ok p1 ∧ evolves (worker_commands p) (worker_commands p1)).
  { apply deployment_updated; [|done]. intros row' H. by apply observed_not_running. }
  destruct Ok1 as [Ok1 E1].
  destruct (command_and_dispatch_keeps (observe desired_running obs_assigned now row) row restart_deployment
              (Some package) None 30 id now p1) as [Ok2 E2]; try done.
Qed.

Lemma create_deployment_keeps r by_ id now p :
  plane_ok p → plane_ok (create_worker_deployment r by_ id now p).1
               ∧ worker_commands (create_worker_deployment r by_ id now p).1 = worker_commands p.
Proof.
  intros Ok. unfold create_worker_deployment.
  set (P := λ q, plane_ok q ∧ worker_commands q = worker_commands p).
  apply (get_or_404_bind _ _ _ _ p P); [by split|]. intros agent Ha.
  apply (get_or_404_bind _ _ _ _ p P); [by split|]. intros package Hp.
  unfold mbind, se_bind, se_modify, record_worker_deployment_event. cbn. split; [|done].
  eapply (worker_keeps_other (set_deployments _ p)); [reflexivity|].
  eapply deployments_change; [|done]. intros d row. rewrite lookup_insert.
  case_decide as D; [subst; intros [= <-]; by split|apply Ok].
Qed.

Lemma create_request_keeps r by_ env ids now p :
  plane_ok p → worker_commands p !! ids.2 = None →
  kept p (create_worker_deployment_endpoint r by_ env ids now p).1.
Proof.
  intros Hok Hf. unfold create_worker_deployment_endpoint.
  destruct (create_deployment_keeps r by_ ids.1 now p Hok) as [Ok1 E1]. unfold mbind at 1, se_bind at 1.
  destruct (create_worker_deployment _ _ _ _ p) as [p1 [d|e]]; cbn [fst] in *;
    [|split; [done|by rewrite E1]].
  assert (K : kept p p1) by (split; [done|by rewrite E1]).
  apply (get_or_404_bind _ _ _ _ p1 (kept p)); [done|]. intros package _.
  destruct (desired_status d); [|done]. unfold kept. rewrite <- E1.
  apply command_and_dispatch_keeps; try done. by rewrite E1.
Qed.

(** ** Registration and packages *)

Lemma register_agent_keeps tokens r id hash now p :
  worker_agents p !! id = None → keeps p (register_worker_agent tokens r id hash now p).1.
Proof.
  intros Hn Ok. unfold register_worker_agent, mbind, se_bind, se_lift, guard_else.
  destruct (negb _); cbn; [|by split]. destruct (existsb _ _); cbn; [|by split].
  destruct Ok as [Hr Hd Hq Hl Ha Hran Hend]. split; [|done]. split; cbn; try done.
  intros agent a. rewrite lookup_insert. case_decide as D; [by subst; intros [= <-]|apply Ha].
Qed.

Lemma create_package_keeps sha ra dir wf v fn ct content req by_ id now :
  se_rel keeps (create_workflow_package sha ra dir wf v fn ct content req by_ id now).
Proof.
  apply worker_other_tables. intros t. unfold create_workflow_package.
  repeat (apply se_inv_bind; [apply se_inv_lift|intros ?]).
  apply se_inv_bind; [by apply se_inv_modify|intros; apply se_inv_ret].
Qed.

Lemma queue_keeps k q p :
  (∀ m, m ∈ q → ∃ q', worker_queues p !! k = Some q' ∧ m ∈ q') → keeps p (set_live id <[k := q]> p).
Proof.
  intros Hsub [Hr Hd Hq Hl Ha Hran Hend]. split; [|done]. split; cbn; try done.
  intros k' q' m. rewrite lookup_insert. case_decide as D; [subst|apply Hq].
  intros [= <-] Hm. destruct (Hsub m Hm) as (q'' & Hk & Hi). by eapply Hq.
Qed.

Lemma restart_keeps p : keeps p (set_live (λ _, ∅) (λ _, ∅) p).
Proof. intros [Hr Hd Hq Hl Ha Hran Hend]. split; [|done]. by split. Qed.
End Server.

(** The facts of more agents and processes are more facts. *)
Lemma plane_ok_mono conn conn' ran ran' ended ended' p :
  plane_ok conn ran ended p →
  (∀ k a, conn k = Some a → conn' k = Some a) →
  (∀ a id d r, ran a id d r → ran' a id d r) → (∀ a id d, ended a id d → ended' a id d) →
  (∀ a id d r, ran' a id d r → commanded (worker_commands p) starts a id d) →
  (∀ a id d, ended' a id d → commanded (worker_commands p) (eq stop_deployment) a id d) →
  plane_ok conn' ran' ended' p.
Proof.
  intros [Hr Hd Hq Hl Ha Hran Hend] Hc Hm He Hran' Hend'. split; try done.
  - intros id c Hl'. destruct (Hr id c Hl') as (H1 & H2 & H3 & H4). split_and!; try done.
    intros Hs. destruct (H4 Hs) as [(Hk & d & r & H) | (Hk & d & H)]; [left|right]; split; try done.
    + destruct H as (Hdep & Hres & H). exists d, r. split; [done|]. split; [done|]. by apply Hm.
    + destruct H as (Hdep & H). exists d. split; [done|]. by apply He.
  - intros d row Hl'. destruct (Hd d row Hl') as [H1 H2]. split; [done|]. intros Ho.
    destruct (H2 Ho) as (a & id & r & H). eauto.
  - intros k q m Hk Hm'. destruct (Hq k q m Hk Hm') as (a & Hka & Hs). eauto.
  - intros a l Hl'. auto.
Qed.
