(* ===== verification/WorkerInvariant.v ===== *)
(** * Worker deployments: where the frames come from

    What is true of a system after any actions: a command on its way to an
    agent, or that an agent works on, is one of that agent; a success or a
    running deployment on its way to the control plane is in the log. *)

From stdpp Require Import base gmap sets list strings numbers sorting.
From Stdlib Require Import ZArith Lia Ascii.
From S2P Require Import Prelude PyFloat Value WorkerPlane WorkAgent WorkerSystem WorkerServer.

(** ** Who is who *)

Definition identity_of (s : system) (n : nat) : option string := h ← hosts s !! n; h_identity h.

Definition conn_agent (s : system) (k : nat) : option string := c ← connections s !! k; identity_of s (cn_host c).

Definition ran (s : system) (agent id d r : string) : Prop :=
  ∃ n, EvSpawned n id d r ∈ log s ∧ identity_of s n = Some agent.

Definition ended (s : system) (agent id d : string) : Prop :=
  ∃ n left, EvStopped n id d left ∈ log s ∧ identity_of s n = Some agent.

Definition commands (s : system) : gmap string WorkerAgentCommand := worker_commands (plane s).

Definition own (s : system) (n k : nat) : Prop := ∃ c, connections s !! k = Some c ∧ cn_host c = n.

(** ** What holds of the parts *)

Definition up_ok (s : system) (agent : string) (f : agent_frame) : Prop :=
  match f with
  | WResult m => result_ok (ran s) (ended s) agent m
  | WEvent m => wev_observed_status m = Some obs_running → ∃ a id r, ran s a id (wev_deployment_id m) r
  | _ => True
  end.

Definition down_ok (s : system) (agent : string) (f : plane_frame) : Prop :=
  match f with WCommand p => sent_of (commands s) agent p | _ => True end.

Definition ws_ok (agent : string) (ws : worker_ws) : Prop :=
  match ws with
  | WsHello a => worker_agent_id a = agent
  | WsReceiving ctx | WsGreeting ctx _ => worker_agent_id (cx_worker_agent ctx) = agent
  | WsClosed => True
  end.

Definition conn_ok (s : system) (c : connection) : Prop :=
  ∃ agent, identity_of s (cn_host c) = Some agent ∧ (∀ f, f ∈ cn_up c → up_ok s agent f)
           ∧ (∀ f, f ∈ cn_down c → down_ok s agent f) ∧ ws_ok agent (cn_ws c).

Definition start_ok (s : system) (agent : string) (c : start_command) : Prop :=
  commanded (commands s) starts agent (sc_command_id c) (sc_deployment c).
Definition stop_ok (s : system) (agent id d : string) : Prop := commanded (commands s) (eq stop_deployment) agent id d.

Definition next_ok (s : system) (agent : string) (nx : next) : Prop :=
  match nx with
  | ThenPreparing c | ThenDownload c | ThenInstall c | ThenCheck c => start_ok s agent c
  | ThenStopping id d _ | ThenStop id d _ => stop_ok s agent id d
  | ThenResult id (CommandSucceeded result) =>
      (∃ d r, result = runtime_result r ∧ ran s agent id d r) ∨ (∃ d, ended s agent id d)
  | _ => True
  end.

Definition pc_ok (s : system) (n : nat) (agent : string) (pc : agent_pc) : Prop :=
  (∀ k, pc_conn pc = Some k → own s n k)
  ∧ match pc with
    | Sending _ f nx => up_ok s agent f ∧ next_ok s agent nx
    | StoppingFirst _ c _ | Downloading _ c | Installing _ c | Checking _ c | Spawning _ c => start_ok s agent c
    | StoppingProcess _ id d _ => stop_ok s agent id d
    | _ => True
    end.

Definition host_ok (s : system) (n : nat) (h : host) : Prop :=
  ∀ pc, h_agent h = Some pc → ∃ agent, h_identity h = Some agent ∧ pc_ok s n agent pc.

Definition event_host (e : event) : nat := match e with EvSpawned n _ _ _ | EvStopped n _ _ _ => n end.

Record invariant (s : system) : Prop := {
  inv_plane : plane_ok (conn_agent s) (ran s) (ended s) (plane s);
  inv_conns : ∀ k c, connections s !! k = Some c → conn_ok s c;
  inv_hosts : ∀ n h, hosts s !! n = Some h → host_ok s n h;
  inv_log : ∀ e, e ∈ log s → is_Some (identity_of s (event_host e));
}.

(** ** What only grows *)

Record grows (s s' : system) : Prop := {
  gr_log : ∀ e, e ∈ log s → e ∈ log s';
  gr_identity : ∀ n a, identity_of s n = Some a → identity_of s' n = Some a;
  gr_own : ∀ n k, own s n k → own s' n k;
  gr_commands : evolves (commands s) (commands s');
}.

#[export] Instance worker_grows_preorder : PreOrder grows.
Proof.
  split; [split; auto; reflexivity|]. intros s1 s2 s3 [A1 B1 C1 D1] [A2 B2 C2 D2].
  split; auto. by etransitivity.
Qed.

Section Grows.
Context (s s' : system) (G : grows s s').

Lemma ran_grows a id d r : ran s a id d r → ran s' a id d r.
Proof. intros (n & H & Hi). exists n. split; [by apply G|by apply (gr_identity _ _ G)]. Qed.

Lemma ended_grows a id d : ended s a id d → ended s' a id d.
Proof. intros (n & l & H & Hi). exists n, l. split; [by apply G|by apply (gr_identity _ _ G)]. Qed.

Lemma worker_up_ok_grows a f : up_ok s a f → up_ok s' a f.
Proof.
  destruct f; cbn; auto.
  - intros H Ho. destruct (H Ho) as (a' & id & r & Hr). exists a', id, r. by apply ran_grows.
  - intros H Hs. destruct (H Hs) as [(d & r & Hr & H')|(d & H')]; [left|right].
    + exists d, r. split; [done|by apply ran_grows].
    + exists d. by apply ended_grows.
Qed.

Lemma worker_down_ok_grows a f : down_ok s a f → down_ok s' a f.
Proof. destruct f; cbn; auto. apply sent_of_evolves, G. Qed.

Lemma worker_conn_ok_grows c : conn_ok s c → conn_ok s' c.
Proof.
  intros (a & Hi & Hu & Hd & Hw). exists a. split; [by apply (gr_identity _ _ G)|].
  split; [intros f Hf; by apply worker_up_ok_grows, Hu|]. split; [|done]. intros f Hf. by apply worker_down_ok_grows, Hd.
Qed.

Lemma start_ok_grows a c : start_ok s a c → start_ok s' a c.
Proof. apply commanded_evolves, G. Qed.
Lemma stop_ok_grows a id d : stop_ok s a id d → stop_ok s' a id d.
Proof. apply commanded_evolves, G. Qed.

Lemma next_ok_grows a nx : next_ok s a nx → next_ok s' a nx.
Proof.
  destruct nx as [| | | | | | |id [result|code msg]]; cbn; auto using start_ok_grows, stop_ok_grows.
  intros [(d & r & Hr & H)|(d & H)]; [left|right].
  - exists d, r. split; [done|by apply ran_grows].
  - exists d. by apply ended_grows.
Qed.

Lemma pc_ok_grows n a pc : pc_ok s n a pc → pc_ok s' n a pc.
Proof.
  intros [Ho H]. split; [intros k Hk; by apply G, Ho|].
  destruct pc; auto using start_ok_grows, stop_ok_grows. destruct H. split; [by apply worker_up_ok_grows|by apply next_ok_grows].
Qed.

Lemma host_ok_grows n h : host_ok s n h → host_ok s' n h.
Proof. intros H pc Hp. destruct (H pc Hp) as (a & Hi & Hpc). exists a. split; [done|by apply pc_ok_grows]. Qed.
End Grows.

(** ** Changes of one part *)

Lemma plane_moves s p :
  invariant s → (keeps (conn_agent s) (ran s) (ended s)) (plane s) p → invariant (set_plane p s).
Proof.
  intros [Hp Hc Hh Hlog] K. destruct (K Hp) as [Hp' E].
  assert (G : grows s (set_plane p s)) by (split; auto).
  split; [exact Hp'| | |exact Hlog].
  - intros k c Hk. apply (worker_conn_ok_grows s); [done|]. by eapply Hc.
  - intros n h Hn. apply (host_ok_grows s); [done|]. by eapply Hh.
Qed.

(** The plane is as it was, and nobody did less. *)
Lemma plane_ok_grows s s' :
  plane_ok (conn_agent s) (ran s) (ended s) (plane s) → grows s s' → plane s' = plane s →
  (∀ n id d r, EvSpawned n id d r ∈ log s' → EvSpawned n id d r ∈ log s ∧ identity_of s' n = identity_of s n
     ∨ ∃ a, identity_of s' n = Some a ∧ commanded (commands s) starts a id d) →
  (∀ n id d l, EvStopped n id d l ∈ log s' → EvStopped n id d l ∈ log s ∧ identity_of s' n = identity_of s n
     ∨ ∃ a, identity_of s' n = Some a ∧ commanded (commands s) (eq stop_deployment) a id d) →
  plane_ok (conn_agent s') (ran s') (ended s') (plane s').
Proof.
  intros Ok G Hp H1 H2. rewrite Hp. eapply plane_ok_mono; [exact Ok| |by apply ran_grows|by apply ended_grows| |].
  - intros k a. unfold conn_agent. destruct (connections s !! k) as [c|] eqn:E; [|done]. cbn. intros Hi.
    destruct (gr_own _ _ G (cn_host c) k) as (c' & -> & Hc'); [by exists c|]. cbn. rewrite Hc'.
    by apply (gr_identity _ _ G).
  - intros a id d r (n & He & Hi). destruct (H1 _ _ _ _ He) as [[He' Hn]|(a' & Ha & Hc)]; [|by simplify_eq].
    apply (ok_ran _ _ _ _ Ok a id d r). exists n. by rewrite <- Hn.
  - intros a id d (n & l & He & Hi). destruct (H2 _ _ _ _ He) as [[He' Hn]|(a' & Ha & Hc)]; [|by simplify_eq].
    apply (ok_ended _ _ _ _ Ok a id d). exists n, l. by rewrite <- Hn.
Qed.

Lemma conn_moves s k f :
  invariant s →
  (∀ c, connections s !! k = Some c → cn_host (f c) = cn_host c ∧ (conn_ok s c → conn_ok s (f c))) →
  invariant (on_conn k f s).
Proof.
  intros [Hp Hc Hh Hlog] Hf.
  assert (G : grows s (on_conn k f s)).
  { split; auto; [|reflexivity]. intros n k' (c & Hl & Hn). unfold own, on_conn. cbn. rewrite lookup_alter.
    case_decide as D; [subst|by exists c]. exists (f c). rewrite Hl. split; [done|]. by apply Hf. }
  split.
  - apply (plane_ok_grows s); auto.
  - intros k' c. unfold on_conn. cbn. rewrite lookup_alter. case_decide as D; [subst|].
    + destruct (connections s !! k') as [c'|] eqn:E; [|done]. intros [= <-]. apply (worker_conn_ok_grows s); [done|].
      apply Hf; [done|]. by eapply Hc.
    + intros Hl. apply (worker_conn_ok_grows s); [done|]. by eapply Hc.
  - intros n h Hn. apply (host_ok_grows s); [done|]. by eapply Hh.
  - exact Hlog.
Qed.

Lemma all_conns_move s f :
  invariant s → (∀ c, cn_host (f c) = cn_host c ∧ (conn_ok s c → conn_ok s (f c))) → invariant (set_conns (fmap f) s).
Proof.
  intros [Hp Hc Hh Hlog] Hf.
  assert (G : grows s (set_conns (fmap f) s)).
  { split; auto; [|reflexivity]. intros n k (c & Hl & Hn). exists (f c). cbn. rewrite lookup_fmap, Hl.
    split; [done|]. destruct (Hf c). congruence. }
  split; [apply (plane_ok_grows s); auto| | |exact Hlog].
  - intros k c. cbn. rewrite lookup_fmap, fmap_Some. intros (c' & Hl & ->). apply (worker_conn_ok_grows s); [done|].
    apply Hf. by eapply Hc.
  - intros n h Hn. apply (host_ok_grows s); [done|]. by eapply Hh.
Qed.

Lemma log_moves s es :
  invariant s →
  (∀ n id d r, EvSpawned n id d r ∈ es → ∃ a, identity_of s n = Some a ∧ commanded (commands s) starts a id d) →
  (∀ n id d l, EvStopped n id d l ∈ es →
     ∃ a, identity_of s n = Some a ∧ commanded (commands s) (eq stop_deployment) a id d) →
  invariant (record_events es s).
Proof.
  intros [Hp Hc Hh Hlog] H1 H2.
  assert (G : grows s (record_events es s)).
  { split; auto; [|reflexivity]. intros e He. cbn. apply elem_of_app. by left. }
  split.
  - apply (plane_ok_grows s); auto; cbn.
    + intros n id d r [He|He]%elem_of_app; [by left|right; by eapply H1].
    + intros n id d r [He|He]%elem_of_app; [by left|right; by eapply H2].
  - intros k c Hk. apply (worker_conn_ok_grows s); [done|]. by eapply Hc.
  - intros n h Hn. apply (host_ok_grows s); [done|]. by eapply Hh.
  - intros e [He|He]%elem_of_app; [by apply Hlog|]. destruct e as [n id d r|n id d l]; cbn.
    + destruct (H1 _ _ _ _ He) as (a & Ha & _). by exists a.
    + destruct (H2 _ _ _ _ He) as (a & Ha & _). by exists a.
Qed.

Lemma host_moves s n h h' :
  invariant s → hosts s !! n = Some h → h_identity h' = h_identity h →
  (∀ pc, h_agent h' = Some pc → ∃ agent, h_identity h = Some agent ∧ pc_ok s n agent pc) →
  invariant (set_host n h' s).
Proof.
  intros [Hp Hc Hh Hlog] Hn Hi Hpc.
  assert (Hid : ∀ m, identity_of (set_host n h' s) m = identity_of s m).
  { intros m. unfold identity_of. cbn. rewrite lookup_insert. case_decide as D; [subst; by rewrite Hn|done]. }
  assert (G : grows s (set_host n h' s)).
  { split; auto; [|reflexivity]. intros m a. by rewrite Hid. }
  split.
  - apply (plane_ok_grows s); auto.
  - intros k c Hk. apply (worker_conn_ok_grows s); [done|]. by eapply Hc.
  - intros m hm. cbn. rewrite lookup_insert. case_decide as D; [subst|].
    + intros [= <-] pc Ha. destruct (Hpc pc Ha) as (a & Ha' & Hok). exists a. split; [congruence|].
      by apply (pc_ok_grows s).
    + intros Hm. apply (host_ok_grows s); [done|]. by eapply Hh.
  - intros e He. rewrite Hid. by apply Hlog.
Qed.

(** ** The pieces of the agent's code *)

Section Pieces.
Context (s : system) (n : nat) (agent : string).

Definition piece_ok (r : site * piece) : Prop :=
  match r.2 with Waits pc => pc_ok s n agent pc | Propagates _ => True end.

Lemma sending_ok k f nx : own s n k → up_ok s agent f → next_ok s agent nx → pc_ok s n agent (Sending k f nx).
Proof. intros Ho Hf Hn. split; [by intros ? [= <-]|done]. Qed.

Lemma failure_ok k id d e : own s n k → pc_ok s n agent (send_failure k id d e).
Proof. intros Ho. by apply sending_ok. Qed.

Lemma start_fails_ok k c e x : own s n k → piece_ok (start_fails k c e x).
Proof. intros Ho. by apply failure_ok. Qed.

Lemma start_accepts_ok k c x : own s n k → start_ok s agent c → piece_ok (start_accepts k c x).
Proof. intros Ho Hc. unfold start_accepts. destruct (reserve_slot _ _); by apply sending_ok. Qed.

(** The command of a frame is the one the handler works on. *)
Lemma required_deployment p d :
  (∀ id c, commands s !! id = Some c → names_deployment c) → sent_of (commands s) agent p →
  _required_string (wcp_args p) "deployment_id" = Ok d →
  ∃ c, commands s !! wcp_command_id p = Some c ∧ wc_kind c = wcp_kind p ∧ wc_worker_agent_id c = agent
       ∧ wc_deployment_id c = Some d.
Proof.
  intros Hn (c & Hl & Hp & Ha). destruct (Hn _ _ Hl) as (_ & _ & d' & Hd & Hargs).
  unfold build_worker_agent_command_message in Hp. subst p. cbn in *.
  unfold _required_string. rewrite Hargs. destruct (str_nonempty d'); [|done]. intros [= <-]. by exists c.
Qed.

Lemma parse_start_ok str p url tok rt c :
  (∀ id c, commands s !! id = Some c → names_deployment c) → sent_of (commands s) agent p →
  starts (wcp_kind p) → parse_start str p url tok rt = Ok c → start_ok s agent c.
Proof.
  intros Hn Hp Hk. unfold parse_start. rewrite !bind_ok.
  intros (d & Hd & H). rewrite bind_ok in H. destruct H as (ck & _ & H). rewrite bind_ok in H.
  destruct H as (u & _ & H). rewrite bind_ok in H. destruct H as (ep & _ & [= <-]).
  destruct (required_deployment p d Hn Hp Hd) as (row & Hl & Hkind & Ha & Hdep).
  exists row. cbn. rewrite Hkind. by split_and!.
Qed.

Lemma control_message_ok k f str url tok rt seen x :
  (∀ id c, commands s !! id = Some c → names_deployment c) → own s n k → down_ok s agent f →
  piece_ok (handle_control_message str k f url tok rt seen x).
Proof.
  intros Hn Ho Hf. assert (Hread : pc_ok s n agent (Reading k)) by (split; [by intros ? [= <-]|done]).
  destruct f as [ss acc|p|code cl]; [done| |done].
  assert (Hst : starts (wcp_kind p) → ∀ first,
            piece_ok (_handle_start_deployment_command str k p url tok rt first seen x)).
  { intros Hk first. unfold _handle_start_deployment_command. destruct (negb _); [done|].
    destruct (parse_start _ _ _ _ _) as [c|e] eqn:Ep; [|done].
    pose proof (parse_start_ok _ _ _ _ _ _ Hn Hf Hk Ep) as Hc. destruct first; [|by apply start_accepts_ok].
    destruct (stop _ _ _ _) as [x' [t| |e]]; [|by apply start_accepts_ok|done].
    split; [by intros ? [= <-]|done]. }
  cbn. destruct (wcp_kind p) eqn:Ek.
  - apply Hst. by left.
  - unfold _handle_stop_deployment_command. destruct (negb _); [done|].
    destruct (_required_string _ _) as [d|e] eqn:Ed; [|done]. apply sending_ok; [done..|].
    destruct (required_deployment p d Hn Hf Ed) as (row & Hl & Hkind & Ha & Hdep).
    exists row. rewrite Hkind. by split_and!.
  - apply Hst. by right.
  - by apply sending_ok.
Qed.

Lemma send_raised_ok k nx x : own s n k → next_ok s agent nx → piece_ok (send_raised k nx x).
Proof. intros Ho Hn. destruct nx; cbn; try done; try by apply start_fails_ok. by apply failure_ok. Qed.

Lemma downloaded_ok sha mem rel k c resp mode x :
  own s n k → start_ok s agent c → piece_ok (downloaded sha mem rel k c resp mode x).
Proof.
  intros Ho Hc. unfold downloaded. destruct (_ ≫= _); [by apply sending_ok|by apply start_fails_ok].
Qed.

Lemma installed_ok k c mode venv runs x :
  own s n k → start_ok s agent c → piece_ok (installed k c mode venv runs x).
Proof. intros Ho Hc. unfold installed. destruct (install _ _ _ _); [by apply sending_ok|by apply start_fails_ok]. Qed.

Lemma worker_checked_ok k c r now x : own s n k → start_ok s agent c → piece_ok (checked k c r now x).
Proof.
  intros Ho Hc. unfold checked. destruct (_run_check r) as [code|e]; [|by apply start_fails_ok].
  destruct (code =? 0)%Z.
  - destruct (reserve_slot _ _); [split; [by intros ? [= <-]|done]|by apply start_fails_ok].
  - by apply sending_ok.
Qed.

Lemma spawn_fails_ok k c b e x : own s n k → piece_ok (spawned k c b (SpawnFails e) x).
Proof. intros Ho. by apply start_fails_ok. Qed.

Lemma spawned_ok k c b pid saved x :
  own s n k → ran s agent (sc_command_id c) (sc_deployment c) (sc_runtime c) →
  piece_ok (spawned k c b (Spawned pid saved) x).
Proof.
  intros Ho Hr. unfold spawned. destruct saved; [|by apply start_fails_ok]. apply sending_ok; [done| |].
  - intros _. by exists agent, (sc_command_id c), (sc_runtime c).
  - left. by eexists _, _.
Qed.

Lemma stopped_ok k id d code x : own s n k → ended s agent id d → piece_ok (x, Waits (stopped k id d code)).
Proof. intros Ho He. apply sending_ok; [done|done|]. right. by exists d. Qed.
End Pieces.

(** What follows a send, with the stop it may have completed in the log. *)
Lemma worker_after_send_ok s n agent k nx seen now x :
  identity_of s n = Some agent → own s n k → next_ok s agent nx →
  let r := after_send k nx seen now x in
  piece_ok (record_events (stop_event n r) s) n agent r
  ∧ (∀ e, e ∈ stop_event n r → ∃ id d l, e = EvStopped n id d l ∧ stop_ok s agent id d).
Proof.
  intros Hi Ho Hn. cbn. set (r := after_send k nx seen now x).
  assert (G : ∀ es, grows s (record_events es s)).
  { intros es. split; auto; [|reflexivity]. intros e He. cbn. apply elem_of_app. by left. }
  assert (Hquiet : piece_ok s n agent r → stop_event n r = [] →
            piece_ok (record_events (stop_event n r) s) n agent r
            ∧ (∀ e, e ∈ stop_event n r → ∃ id d l, e = EvStopped n id d l ∧ stop_ok s agent id d)).
  { intros Hr He. split; [|rewrite He; by intros e ?%elem_of_nil]. unfold piece_ok in *.
    destruct r.2; [by apply (pc_ok_grows s); [apply G|]|done]. }
  destruct nx as [|c|c|c|c|id d g|id d g|id o]; try (apply Hquiet; [|done]).
  - split; [by intros ? [= <-]|done].
  - by apply sending_ok.
  - split; [by intros ? [= <-]|done].
  - split; [by intros ? [= <-]|done].
  - split; [by intros ? [= <-]|done].
  - by apply sending_ok.
  - subst r. cbn in *. destruct (stop d g seen x) as [x' [t| |e]].
    + apply Hquiet; [|done]. split; [by intros ? [= <-]|done].
    + split; [|intros e ->%list_elem_of_singleton; by eexists _, _, _].
      apply stopped_ok; [by apply G|]. exists n. eexists. split; [|by apply (gr_identity _ _ (G _))].
      cbn. apply elem_of_app. right. by apply list_elem_of_singleton.
    + apply Hquiet; [|done]. by apply failure_ok.
  - subst r. apply sending_ok; [done| |done]. destruct o as [result|code msg]; [|done]. intros _. cbn in *.
    destruct Hn as [(d & r & -> & H)|(d & H)]; [left; by exists d, r|right; by exists d].
Qed.

Lemma stop_over_ok s n agent k id d t code x :
  identity_of s n = Some agent → own s n k → stop_ok s agent id d →
  let r := stop_over k id d t code x in
  piece_ok (record_events (stop_event n r) s) n agent r
  ∧ (∀ e, e ∈ stop_event n r → ∃ id d l, e = EvStopped n id d l ∧ stop_ok s agent id d).
Proof.
  intros Hi Ho Hs. split; [|intros e ->%list_elem_of_singleton; by eexists _, _, _].
  unfold stop_over. eapply (stopped_ok _ n agent k id d code); [done|]. exists n. eexists. split; [|done]. cbn. apply elem_of_app. right.
  by apply list_elem_of_singleton.
Qed.

(** ** The invariant holds in every reachable system *)

(** A piece ran on host [n]. *)
Lemma piece_moves s n k h agent r h0 :
  invariant s → hosts s !! n = Some h0 → h_identity h0 = Some agent → h_identity h = Some agent →
  piece_ok s n agent r → invariant (after_piece n k h r s).
Proof.
  intros I Hh Hi Hi' Hr. destruct r as [x [pc|e]]; cbn in *.
  - eapply host_moves; [done|done|cbn; congruence|]. intros pc' [= <-]. by exists agent.
  - apply conn_moves; [|by intros c]. eapply host_moves; [done|done|cbn; congruence|].
    intros pc' [= <-]. exists agent. split; [done|]. by split.
Qed.

(** ... that took a frame, sent one, or logged a stop. *)
Lemma dropped_ok s c q : conn_ok s c → (∀ f, f ∈ q → f ∈ cn_down c) → conn_ok s (with_queues (cn_up c) q (cn_ws c) c).
Proof. intros (a & Hi & Hu & Hd & Hw) Hq. exists a. split_and!; auto. Qed.

Lemma push_up_ok s f c a :
  identity_of s (cn_host c) = Some a → up_ok s a f → conn_ok s c → conn_ok s (push_up f c).
Proof.
  intros Hi Hf (a' & Hi' & Hu & Hd & Hw). unfold push_up. destruct (cn_broken c); [by exists a'|].
  exists a'. split; [done|]. split; [|done]. simplify_eq. cbn. intros g [Hg | ->%list_elem_of_singleton]%elem_of_app; auto.
Qed.

Lemma push_down_ok s f c a :
  identity_of s (cn_host c) = Some a → down_ok s a f → conn_ok s c → conn_ok s (push_down f c).
Proof.
  intros Hi Hf (a' & Hi' & Hu & Hd & Hw). unfold push_down. destruct (cn_broken c); [by exists a'|].
  exists a'. split; [done|]. split; [done|]. split; [|done]. simplify_eq. cbn.
  intros g [Hg | ->%list_elem_of_singleton]%elem_of_app; auto.
Qed.

Lemma push_up_host f c : cn_host (push_up f c) = cn_host c.
Proof. unfold push_up. by destruct (cn_broken c). Qed.
Lemma push_down_host f c : cn_host (push_down f c) = cn_host c.
Proof. unfold push_down. by destruct (cn_broken c). Qed.

(** The steps of the control plane's handler. *)
Lemma close_moves s k c ctx now :
  invariant s → connections s !! k = Some c →
  (∀ x, ctx = Some x → conn_agent s k = Some (worker_agent_id (cx_worker_agent x))) →
  invariant (ws_ends k ctx now s).
Proof.
  intros I Hc Hctx. unfold ws_ends. apply conn_moves.
  - apply plane_moves; [done|]. destruct ctx as [x|]; [|by intros ?].
    refine (se_rel_bind (keeps (conn_agent s) (ran s) (ended s)) _ _ _ _ (plane s)); [apply worker_unregister_keeps|].
    intros _. apply close_keeps.
  - intros c' Hc'. split; [done|]. intros (a & Hi & Hu & Hd & _). exists a. by split_and!.
Qed.

Lemma error_moves s k code : invariant s → invariant (ws_error k code s).
Proof.
  intros I. apply conn_moves; [done|]. intros c Hc. split; [apply push_down_host|].
  intros Hok. pose proof Hok as (a & Hi & _). by eapply push_down_ok.
Qed.

Lemma refuse_moves s k c ctx code now :
  invariant s → connections s !! k = Some c →
  (∀ x, ctx = Some x → conn_agent s k = Some (worker_agent_id (cx_worker_agent x))) →
  invariant (ws_refuses k ctx code now s).
Proof.
  intros I Hc Hctx. unfold ws_refuses.
  assert (I' : invariant (on_conn k (push_down (WError code true)) s)).
  { apply conn_moves; [done|]. intros c' Hc'. split; [apply push_down_host|].
    intros Hok. pose proof Hok as (a & Hi & _). by eapply push_down_ok. }
  eapply close_moves; [exact I'|unfold on_conn; cbn; by rewrite lookup_alter_eq, Hc|].
  intros x Hx. rewrite <- (Hctx x Hx). unfold conn_agent, on_conn. cbn. rewrite lookup_alter_eq, Hc. cbn.
  by rewrite push_down_host.
Qed.

(** A handler that keeps the plane, its answer aside. *)
Lemma handler_moves {A} s (m : WP A) p r :
  invariant s → se_rel (keeps (conn_agent s) (ran s) (ended s)) m → m (plane s) = (p, r) → invariant (set_plane p s).
Proof. intros I K E. apply plane_moves; [done|]. specialize (K (plane s)). by rewrite E in K. Qed.

(** Who acts. *)
Inductive actor := ByHost | ByLoop | ByHandler | ByWork | ByPlane.

Definition actor_of (a : action) : actor :=
  match a with
  | HostAppears _ _ | AgentRegisters _ _ _ _ _ | AgentStarts _ | AgentDies _ | ProcessExits _ _
  | OtherProcessStarts _ _ => ByHost
  | AgentConnects _ _ | AgentGreeted _ | SessionEnds _ | HeartbeatDue _ => ByLoop
  | AgentReads _ _ _ | AgentSent _ _ _ _ | StopOver _ _ => ByHandler
  | AgentDownloaded _ _ _ | AgentInstalled _ _ _ _ | AgentChecked _ _ _ | AgentSpawned _ _
  | AgentDiesInSpawn _ _ => ByWork
  | _ => ByPlane
  end.

Section Step.
Context (registration_tokens : list string) (is_uuid : string → bool) (str : value → string).
Context (sha256 : list Init.Byte.byte → string) (members : list Init.Byte.byte → result exn (list string)).
Context (is_relative : string → bool) (read_archive : list Init.Byte.byte → archive_manifest).
Context (storage_dir plane_url : string) (token_of : string → string).

Abbreviation step := (step registration_tokens is_uuid str sha256 members is_relative read_archive storage_dir
                        plane_url token_of).
Abbreviation ws_frame := (ws_frame is_uuid).

Lemma frame_moves s k c ctx f now :
  invariant s → connections s !! k = Some c → cn_ws c = WsReceiving ctx →
  (∀ a, conn_agent s k = Some a → up_ok s a f) → invariant (ws_frame k ctx f now s).
Proof.
  intros I Hc Hws Hf. pose proof (inv_conns _ I _ _ Hc) as (agent & Hi & _ & _ & Hw). rewrite Hws in Hw. cbn in Hw.
  assert (Hca : conn_agent s k = Some agent) by (unfold conn_agent; by rewrite Hc).
  specialize (Hf agent Hca). set (M := mark_worker_agent_session_message (cx_session_id ctx) now).
  assert (KM : se_rel (keeps (conn_agent s) (ran s) (ended s)) M) by apply mark_keeps.
  assert (KB : ∀ {A} (m : WP A), se_rel (keeps (conn_agent s) (ran s) (ended s)) m →
                 se_rel (keeps (conn_agent s) (ran s) (ended s)) (_ ← M; m)).
  { intros A m Hm. apply se_rel_bind; [apply _|done|]. by intros _. }
  unfold WorkerSystem.ws_frame. fold M. destruct f as [p|m|m|m|m].
  - apply error_moves, plane_moves; [done|]. apply KM.
  - pose proof (KB _ _ (heartbeat_keeps _ (ran s) (ended s) (cx_worker_agent ctx) (cx_session_id ctx) m now)) as K.
    destruct ((_ ← M; _) (plane s)) as [p [a|e]] eqn:E.
    + apply conn_moves; [by eapply handler_moves|]. intros c' Hc'. split; [done|].
      intros (a' & Hi' & Hu' & Hd' & _). exists a'. split; [done|]. split; [done|]. split; [done|]. cbn.
      assert (c' = c) as -> by (cbn in Hc'; congruence). change (identity_of s (cn_host c) = Some a') in Hi'.
      apply heartbeat_agent in E. congruence.
    + eapply refuse_moves; [by eapply handler_moves|done|]. intros x [= <-]. by rewrite Hw.
  - pose proof (KB _ _ (event_keeps _ (ran s) (ended s) (cx_worker_agent ctx) m now Hf)) as K.
    destruct ((_ ← M; _) (plane s)) as [p [[]|e]] eqn:E;
      [by eapply handler_moves|apply error_moves; by eapply handler_moves..].
  - pose proof (KB _ _ (worker_ack_keeps (conn_agent s) (ran s) (ended s) (worker_agent_id (cx_worker_agent ctx))
                          (cx_session_id ctx) m now)) as K.
    destruct ((_ ← M; _) (plane s)) as [p [[]|e]] eqn:E;
      [by eapply handler_moves|apply error_moves; by eapply handler_moves..].
  - rewrite <- Hw in Hf.
    pose proof (KB _ _ (worker_result_keeps (conn_agent s) (ran s) (ended s) is_uuid _ (cx_session_id ctx) m now Hf)) as K.
    destruct ((_ ← M; _) (plane s)) as [p [[]|e]] eqn:E;
      [apply error_moves; by eapply handler_moves|by eapply handler_moves..].
Qed.

Lemma first_frame_moves s k c a f session now :
  invariant s → connections s !! k = Some c → cn_ws c = WsHello a → invariant (ws_first_frame k a f session now s).
Proof.
  intros I Hc Hws. pose proof (inv_conns _ I _ _ Hc) as (agent & Hi & _ & _ & Hw). rewrite Hws in Hw. cbn in Hw.
  assert (Hca : conn_agent s k = Some agent) by (unfold conn_agent; by rewrite Hc).
  unfold ws_first_frame. destruct f as [m|?|?|?|?]; [|by eapply refuse_moves..].
  destruct (negb _); [by eapply refuse_moves|].
  pose proof (worker_hello_keeps (conn_agent s) (ran s) (ended s) a m session now) as K.
  destruct (handle_worker_agent_hello a m session now (plane s)) as [p [[a' acc]|e]] eqn:E.
  - pose proof (hello_agent _ _ _ _ _ _ _ _ E) as Ha.
    pose proof (handler_moves s _ _ _ I K E) as I1.
    assert (I2 : invariant (set_plane (register (worker_agent_id a') session k p).1 (set_plane p s))).
    { apply plane_moves; [done|]. apply worker_register_keeps. rewrite Ha, Hw. exact Hca. }
    apply (conn_moves _ k _ I2). intros c' Hc'. split; [apply push_down_host|].
    intros Hok. cbn. pose proof Hok as (a2 & Hi2 & _).
    destruct (push_down_ok _ (WHelloAck session acc) c' _ Hi2 Logic.I Hok) as (a3 & Hi3 & Hu3 & Hd3 & _).
    exists a3. split_and!; [done..|]. cbn. rewrite Ha, Hw. rewrite push_down_host in Hi3.
    assert (c' = c) as -> by (cbn in Hc'; congruence). change (identity_of s (cn_host c) = Some a3) in Hi3. congruence.
  - eapply refuse_moves; [by eapply handler_moves|done|done].
Qed.

Lemma host_at s n h pc :
  invariant s → hosts s !! n = Some h → h_agent h = Some pc →
  ∃ agent, h_identity h = Some agent ∧ identity_of s n = Some agent ∧ pc_ok s n agent pc.
Proof.
  intros I Hh Hp. destruct (inv_hosts _ I _ _ Hh pc Hp) as (a & Hi & Ho). exists a. split; [done|].
  split; [|done]. unfold identity_of. by rewrite Hh.
Qed.

Lemma rows_named s : invariant s → ∀ id c, commands s !! id = Some c → names_deployment c.
Proof. intros I id c Hc. by apply (ok_rows _ _ _ _ (inv_plane _ I)) in Hc as (_ & _ & H & _). Qed.

(** A frame is taken from a connection, which changes nothing an agent has. *)
Lemma pc_ok_conn s k f n agent pc :
  (∀ c, cn_host (f c) = cn_host c) → pc_ok s n agent pc → pc_ok (on_conn k f s) n agent pc.
Proof.
  intros Hf. apply pc_ok_grows. split; auto; [|reflexivity]. intros m k' (c & Hl & Hn).
  unfold own, on_conn. cbn. rewrite lookup_alter. case_decide as D; [subst|by exists c].
  exists (f c). by rewrite Hl, Hf.
Qed.

Lemma take_down_moves s k c f down :
  invariant s → connections s !! k = Some c → cn_down c = f :: down →
  invariant (on_conn k (λ c, with_queues (cn_up c) down (cn_ws c) c) s).
Proof.
  intros I Hc Hd. apply conn_moves; [done|]. intros c' Hc'. split; [done|]. intros Hok.
  apply dropped_ok; [done|]. intros g Hg. simplify_eq. rewrite Hd. by right.
Qed.

Lemma take_up_moves s k c f up :
  invariant s → connections s !! k = Some c → cn_up c = f :: up →
  invariant (on_conn k (λ c, with_queues up (cn_down c) (cn_ws c) c) s).
Proof.
  intros I Hc Hu. apply conn_moves; [done|]. intros c' Hc'. split; [done|].
  intros (a & Hi & Hup & Hd & Hw). exists a. split; [done|]. split; [|done]. cbn.
  intros g Hg. simplify_eq. apply Hup. rewrite Hu. by right.
Qed.

Lemma up_ok_plane s k f g a : up_ok s a g → up_ok (on_conn k f s) a g.
Proof. by destruct g. Qed.

Lemma reads_moves n runtime seen s s' :
  invariant s → step (AgentReads n runtime seen) s = Some s' → invariant s'.
Proof.
  intros I. cbn. destruct (hosts s !! n) as [h|] eqn:Hh; cbn; [|done].
  destruct (h_identity h) as [id|] eqn:Hid; cbn; [|done].
  destruct (h_agent h) as [[|k|k| | | | | | |]|] eqn:Hp; cbn; try done.
  destruct (connections s !! k) as [c|] eqn:Hc; cbn; [|done].
  destruct (cn_down c) as [|f down] eqn:Hd; cbn; [done|]. intros [= <-].
  destruct (host_at _ _ _ _ I Hh Hp) as (agent & Hi & Hi2 & Hown & _).
  pose proof (take_down_moves _ _ _ _ _ I Hc Hd) as I1.
  eapply (piece_moves _ n k h agent); [exact I1|done|done|done|].
  assert (Ho : own s n k) by by apply Hown. destruct Ho as (c' & Hc' & Hn).
  assert (c' = c) by congruence. subst c' n.
  pose proof (inv_conns _ I _ _ Hc) as (a & Hia & _ & Hdown & _). assert (a = agent) by congruence. subst a.
  apply control_message_ok.
  - by apply rows_named.
  - eexists. unfold on_conn. cbn. rewrite lookup_alter_eq, Hc. by split.
  - assert (Hf : down_ok s agent f) by (apply Hdown; rewrite Hd; by left). by destruct f.
Qed.

Lemma stop_events_moves s n agent (r : site * piece) :
  invariant s → identity_of s n = Some agent →
  (∀ e, e ∈ stop_event n r → ∃ id d l, e = EvStopped n id d l ∧ stop_ok s agent id d) →
  invariant (record_events (stop_event n r) s).
Proof.
  intros I Hi He. apply log_moves; [done| |].
  - intros m id d rt H. by destruct (He _ H) as (? & ? & ? & [=] & _).
  - intros m id d l H. destruct (He _ H) as (id' & d' & l' & [= -> -> -> ->] & Hs). by exists agent.
Qed.

Lemma sent_moves n sent seen now s s' :
  invariant s → step (AgentSent n sent seen now) s = Some s' → invariant s'.
Proof.
  intros I. cbn -[after_send]. destruct (hosts s !! n) as [h|] eqn:Hh; cbn -[after_send]; [|done].
  destruct (h_agent h) as [[| | |k f nx| | | | | |]|] eqn:Hp; cbn -[after_send]; try done.
  destruct (connections s !! k) as [c|] eqn:Hc; cbn -[after_send]; [|done].
  destruct (host_at _ _ _ _ I Hh Hp) as (agent & Hi & Hi2 & Hown & Hf & Hnx).
  assert (Ho : own s n k) by by apply Hown.
  destruct sent.
  - intros [= <-]. set (s1 := on_conn k (push_up f) s).
    assert (I1 : invariant s1).
    { apply conn_moves; [done|]. intros c' Hc'. split; [apply push_up_host|]. intros Hok.
      destruct Ho as (c2 & Hc2 & Hn2). simplify_eq. by eapply push_up_ok. }
    assert (Hi1 : identity_of s1 n = Some agent) by done.
    assert (Ho1 : own s1 n k).
    { destruct Ho as (c2 & Hc2 & Hn2). exists (push_up f c2). unfold s1, on_conn. cbn.
      by rewrite lookup_alter_eq, Hc2, push_up_host. }
    assert (Hnx1 : next_ok s1 agent nx) by (destruct nx as [| | | | | | |? []]; done).
    destruct (worker_after_send_ok s1 n agent k nx seen now (h_site h) Hi1 Ho1 Hnx1) as [Hr Hev].
    set (r := after_send k nx seen now (h_site h)) in *.
    pose proof (stop_events_moves s1 n agent r I1 Hi1 Hev) as I2.
    assert (E : record_events (stop_event n r) (after_piece n k h r s1)
                = after_piece n k h r (record_events (stop_event n r) s1)) by (by destruct r as [x []]).
    rewrite E. eapply piece_moves; [exact I2|exact Hh|done..].
  - destruct (cn_broken c); [|done]. intros [= <-].
    eapply piece_moves; [done|done|done|done|]. by apply send_raised_ok.
Qed.

Lemma spawn_moves n o s s' : invariant s → step (AgentSpawned n o) s = Some s' → invariant s'.
Proof.
  intros I. cbn -[spawned]. destruct (hosts s !! n) as [h|] eqn:Hh; cbn -[spawned]; [|done].
  destruct (h_agent h) as [[| | | | | | | | |k c]|] eqn:Hp; cbn -[spawned]; try done.
  destruct (host_at _ _ _ _ I Hh Hp) as (agent & Hi & Hi2 & Hown & Hc).
  assert (Ho : own s n k) by by apply Hown.
  destruct o as [e|pid saved]; [intros Hs; apply (inj Some) in Hs as <-; eapply piece_moves; [done|done|done|done|]; by apply spawn_fails_ok|].
  destruct (_ && _); [|done]. intros Hs; apply (inj Some) in Hs as <-.
  set (es := [EvSpawned n (sc_command_id c) (sc_deployment c) (sc_runtime c)]).
  assert (I1 : invariant (record_events es s)).
  { apply log_moves; [done| |]; intros m id d l He; apply list_elem_of_singleton in He; simplify_eq. by exists agent. }
  set (r := spawned k c (h_births h) (Spawned pid saved) (h_site h)).
  match goal with |- context [after_piece n k ?h' r s] => set (h1 := h') end.
  assert (E : record_events es (after_piece n k h1 r s) = after_piece n k h1 r (record_events es s))
    by (by destruct r as [x []]).
  rewrite E. eapply piece_moves; [exact I1|exact Hh|done|done|]. apply spawned_ok; [done|].
  exists n. split; [|done]. cbn. apply elem_of_app. right. by apply list_elem_of_singleton.
Qed.

Lemma dies_in_spawn_moves n pid s s' : invariant s → step (AgentDiesInSpawn n pid) s = Some s' → invariant s'.
Proof.
  intros I. cbn. destruct (hosts s !! n) as [h|] eqn:Hh; cbn; [|done].
  destruct (h_agent h) as [[| | | | | | | | |k c]|] eqn:Hp; try done.
  destruct (host_at _ _ _ _ I Hh Hp) as (agent & Hi & Hi2 & Hown & Hc).
  destruct (_ && _); [|done]. intros Hs; apply (inj Some) in Hs as <-.
  apply (log_moves (on_conn k break (set_host n _ s))).
  - apply conn_moves; [|done]. by eapply host_moves.
  - intros m id d r He. apply list_elem_of_singleton in He. simplify_eq. exists agent. split; [|exact Hc].
    unfold identity_of. cbn. rewrite lookup_insert_eq. cbn. unfold identity_of in Hi2. by rewrite Hh in Hi2.
  - intros m id d l He. apply list_elem_of_singleton in He. simplify_eq.
Qed.

Lemma stop_moves n code s s' : invariant s → step (StopOver n code) s = Some s' → invariant s'.
Proof.
  intros I. cbn -[stop_over first_stop_over]. destruct (hosts s !! n) as [h|] eqn:Hh; cbn -[stop_over first_stop_over]; [|done].
  destruct (h_agent h) as [[| | | |k c t|k id d t| | | |]|] eqn:Hp; cbn -[stop_over first_stop_over]; try done;
    intros Hs; apply (inj Some) in Hs as <-; destruct (host_at _ _ _ _ I Hh Hp) as (agent & Hi & Hi2 & Hown & Hc);
    assert (Ho : own s n k) by by apply Hown.
  - eapply piece_moves; [done|done|done|done|]. by apply start_accepts_ok.
  - destruct (stop_over_ok s n agent k id d t code (h_site h) Hi2 Ho Hc) as [Hr Hev].
    set (r := stop_over k id d t code (h_site h)) in *.
    pose proof (stop_events_moves s n agent r I Hi2 Hev) as I2.
    assert (E : record_events (stop_event n r) (after_piece n k h r s)
                = after_piece n k h r (record_events (stop_event n r) s)) by (by destruct r as [x []]).
    rewrite E. eapply piece_moves; [exact I2|exact Hh|done..].
Qed.

(** The agent's pieces without frames. *)
Lemma work_moves n (a : action) s s' :
  invariant s → step a s = Some s' →
  match a with
  | AgentDownloaded m _ _ | AgentInstalled m _ _ _ | AgentChecked m _ _ => m = n
  | _ => False
  end → invariant s'.
Proof.
  intros I Hs Ha. destruct a as [| | | | | | | |m resp mode|m mode venv runs|m r now| | | | | | | | | | | | | | | | |];
    try done; subst m; cbn -[downloaded installed checked] in Hs;
    destruct (hosts s !! n) as [h|] eqn:Hh; cbn -[downloaded installed checked] in Hs; try done;
    destruct (h_agent h) as [pc|] eqn:Hp; try done; destruct pc; try done; apply (inj Some) in Hs as <-;
    destruct (host_at _ _ _ _ I Hh Hp) as (agent & Hi & Hi2 & Hown & Hc);
    (eapply piece_moves; [done|done|done|done|]); pose proof (Hown _ eq_refl);
    [by apply downloaded_ok|by apply installed_ok|by apply worker_checked_ok].
Qed.

(** The control loop connects, is greeted, ends a session, dies. *)
Lemma idle_ok s n agent : pc_ok s n agent Disconnected.
Proof. by split. Qed.

Lemma connects_moves n k s s' : invariant s → step (AgentConnects n k) s = Some s' → invariant s'.
Proof.
  intros I. cbn. destruct (hosts s !! n) as [h|] eqn:Hh; cbn; [|done].
  destruct (h_identity h) as [id|] eqn:Hi; cbn; [|done].
  destruct (worker_agents (plane s) !! id) as [a|] eqn:Ha; cbn; [|done].
  destruct (h_agent h) as [[]|]; try done. destruct (connections s !! k) as [c|] eqn:Hk; [done|].
  intros Hs; apply (inj Some) in Hs as <-. set (c := {| cn_host := n |}).
  assert (Hid : identity_of s n = Some id) by (unfold identity_of; by rewrite Hh).
  set (s1 := set_conns <[k := c]> s).
  assert (G : grows s s1).
  { split; auto; [|reflexivity]. intros m k' (c' & Hl & Hn). exists c'. split; [|done]. cbn.
    rewrite lookup_insert_ne; [done|]. congruence. }
  assert (I1 : invariant s1).
  { destruct I as [Hp Hc Hho Hlog]. split; [| | |exact Hlog].
    - apply (plane_ok_grows s); auto.
    - intros k' c'. cbn. rewrite lookup_insert. case_decide as D; [subst|].
      + intros [= <-]. exists id. split; [exact Hid|]. cbn. split; [by intros f ->%list_elem_of_singleton|].
        split; [by intros f ?%elem_of_nil|]. by apply (ok_agents _ _ _ _ Hp) in Ha.
      + intros Hl. apply (worker_conn_ok_grows s); [done|]. by eapply Hc.
    - intros m hm Hm. apply (host_ok_grows s); [done|]. by eapply Hho. }
  apply (host_moves s1 n h); [done..|]. intros pc [= <-]. exists id. split; [done|]. split; [|done].
  intros k' [= <-]. exists c. split; [|done]. cbn. by rewrite lookup_insert_eq.
Qed.

Lemma registers_moves n r id hash now s s' :
  invariant s → step (AgentRegisters n r id hash now) s = Some s' → invariant s'.
Proof.
  intros I. cbn -[register_worker_agent]. destruct (hosts s !! n) as [h|] eqn:Hh; cbn -[register_worker_agent]; [|done].
  destruct (h_identity h) as [?|] eqn:Hi; [done|]. destruct (h_agent h) as [?|] eqn:Hp; [done|].
  destruct (worker_agents (plane s) !! id) eqn:Ha; [done|].
  pose proof (plane_moves s (register_worker_agent registration_tokens r id hash now (plane s)).1 I
                (register_agent_keeps _ _ _ _ _ _ _ _ _ Ha)) as I1.
  destruct (register_worker_agent _ _ _ _ _ _) as [p [row|e]]; intros Hs; apply (inj Some) in Hs as <-; [|done].
  cbn in I1. set (s1 := set_plane p s) in *.
  set (h' := {| h_identity := Some id |}).
  assert (Hid : ∀ m, m ≠ n → identity_of (set_host n h' s1) m = identity_of s1 m).
  { intros m Hm. unfold identity_of. cbn. by rewrite lookup_insert_ne. }
  assert (Hn : identity_of s1 n = None) by (unfold identity_of; cbn; by rewrite Hh).
  assert (G : grows s1 (set_host n h' s1)).
  { split; auto; [|reflexivity]. intros m a Hm. rewrite Hid; [done|]. intros ->. congruence. }
  destruct I1 as [Hpl Hc Hho Hlog]. split.
  - apply (plane_ok_mono (conn_agent s1) _ (ran s1) _ (ended s1) _ _ Hpl).
    + intros k a. unfold conn_agent. cbn. destruct (connections s !! k) as [c|]; cbn; [|done].
      apply (gr_identity _ _ G).
    + apply (ran_grows _ _ G).
    + apply (ended_grows _ _ G).
    + intros a cid d rt (m & He & Hm). apply (ok_ran _ _ _ _ Hpl a cid d rt).
      destruct (Hlog _ He) as [a' Ha']. cbn in Ha'. exists m. split; [done|]. rewrite <- Hid; [done|congruence].
    + intros a cid d (m & l & He & Hm). apply (ok_ended _ _ _ _ Hpl a cid d).
      destruct (Hlog _ He) as [a' Ha']. cbn in Ha'. exists m, l. split; [done|]. rewrite <- Hid; [done|congruence].
  - intros k c Hk. apply (worker_conn_ok_grows s1); [done|]. by eapply Hc.
  - intros m hm. cbn. rewrite lookup_insert. case_decide as D; [by subst; intros [= <-]|].
    intros Hm. apply (host_ok_grows s1); [done|]. by eapply Hho.
  - intros e He. destruct (Hlog _ He) as [a' Ha']. exists a'. by apply (gr_identity _ _ G).
Qed.

Lemma appears_moves n max s s' : invariant s → step (HostAppears n max) s = Some s' → invariant s'.
Proof.
  intros I. cbn -[Nat.leb]. destruct (hosts s !! n) as [?|] eqn:Hh; [done|]. destruct (1 <=? max)%nat; [|done].
  intros Hs; apply (inj Some) in Hs as <-. set (h' := {| h_identity := None |}).
  assert (Hid : ∀ m, identity_of (set_host n h' s) m = identity_of s m).
  { intros m. unfold identity_of. cbn. rewrite lookup_insert. case_decide as D; [subst; by rewrite Hh|done]. }
  assert (G : grows s (set_host n h' s)) by (split; auto; [|reflexivity]; intros m a; by rewrite Hid).
  destruct I as [Hp Hc Hho Hlog]. split.
  - apply (plane_ok_grows s); auto.
  - intros k c Hk. apply (worker_conn_ok_grows s); [done|]. by eapply Hc.
  - intros m hm. cbn. rewrite lookup_insert. case_decide as D; [by subst; intros [= <-]|].
    intros Hm. apply (host_ok_grows s); [done|]. by eapply Hho.
  - intros e He. rewrite Hid. by apply Hlog.
Qed.

(** A host moves and leaves its agent where it is, or idle, or gone. *)
Lemma host_keeps_pc s n h h' :
  invariant s → hosts s !! n = Some h → h_identity h' = h_identity h → h_agent h' = h_agent h →
  invariant (set_host n h' s).
Proof.
  intros I Hh Hi Ha. eapply host_moves; [done..|]. rewrite Ha. intros pc Hpc.
  destruct (host_at _ _ _ _ I Hh Hpc) as (agent & Hi' & _ & Hok). by exists agent.
Qed.

Lemma host_step_moves a s s' :
  actor_of a = ByHost → invariant s → step a s = Some s' → invariant s'.
Proof.
  intros Hby I Hs. destruct a; try done; clear Hby.
  - by eapply appears_moves.
  - by eapply registers_moves.
  - cbn in Hs. destruct (hosts s !! n) as [h|] eqn:Hh; cbn in Hs; [|done].
    destruct (h_identity h) as [id|] eqn:Hi; [|done]. destruct (h_agent h); [done|].
    apply (inj Some) in Hs as <-. eapply host_moves; [done..|]. intros pc [= <-]. exists id.
    split; [done|apply idle_ok].
  - cbn in Hs. destruct (hosts s !! n) as [h|] eqn:Hh; cbn in Hs; [|done].
    destruct (h_agent h) as [pc|]; cbn in Hs; [|done]. apply (inj Some) in Hs as <-.
    assert (I1 : invariant (set_host n (with_site (h_site h) None h) s)) by by eapply host_moves.
    destruct (pc_conn pc) as [k|]; [|done]. apply conn_moves; [done|]. by intros c.
  - cbn in Hs. destruct (hosts s !! n) as [h|] eqn:Hh; cbn in Hs; [|done]. apply (inj Some) in Hs as <-.
    by eapply host_keeps_pc.
  - cbn in Hs. destruct (hosts s !! n) as [h|] eqn:Hh; cbn in Hs; [|done]. destruct (_ && _); [|done].
    apply (inj Some) in Hs as <-. by eapply host_keeps_pc.
Qed.

Lemma loop_step_moves a s s' :
  actor_of a = ByLoop → invariant s → step a s = Some s' → invariant s'.
Proof.
  intros Hby I Hs. destruct a; try done; clear Hby.
  - by eapply connects_moves.
  - cbn in Hs. destruct (hosts s !! n) as [h|] eqn:Hh; cbn in Hs; [|done].
    destruct (h_agent h) as [pc|] eqn:Hp; [|done]. destruct pc as [|k| | | | | | | |]; try done.
    destruct (connections s !! k) as [c|] eqn:Hc; cbn in Hs; [|done].
    destruct (cn_down c) as [|f down] eqn:Hd; [done|]. apply (inj Some) in Hs as <-.
    destruct (host_at _ _ _ _ I Hh Hp) as (agent & Hi & Hi2 & Hown & _).
    assert (I1 : invariant (set_host n (with_site (h_site h) (Some (Reading k)) h) s)).
    { eapply host_moves; [done..|]. intros pc [= <-]. exists agent. split; [done|]. split; [|done].
      intros k' [= <-]. by apply Hown. }
    by eapply take_down_moves.
  - cbn in Hs. destruct (hosts s !! n) as [h|] eqn:Hh; cbn in Hs; [|done].
    destruct (h_agent h) as [pc|] eqn:Hp; [|done]. destruct (host_at _ _ _ _ I Hh Hp) as (agent & Hi & _).
    assert (I1 : invariant (set_host n (with_site (h_site h) (Some Disconnected) h) s)).
    { eapply host_moves; [done..|]. intros pc' [= <-]. exists agent. split; [done|apply idle_ok]. }
    destruct pc as [|k|k| | | | | | |]; try done; destruct (connections s !! k) as [c|]; cbn in Hs; try done;
      destruct (cn_broken c); try done; by apply (inj Some) in Hs as <-.
  - cbn in Hs. destruct (hosts s !! n) as [h|] eqn:Hh; cbn in Hs; [|done].
    destruct (h_identity h) as [id|] eqn:Hi; cbn in Hs; [|done].
    destruct (h_agent h) as [pc|] eqn:Hp; cbn in Hs; [|done].
    destruct (host_at _ _ _ _ I Hh Hp) as (agent & Hi' & Hi2 & Hown & _).
    assert (∃ k, pc_conn pc = Some k ∧ s' = on_conn k (push_up (WHeartbeat
              (build_heartbeat_message id (supervisor (h_site h))))) s) as (k & Hk & ->).
    { destruct pc; try done; apply (inj Some) in Hs as <-; by eexists. }
    destruct (Hown k Hk) as (c & Hc & Hn). apply conn_moves; [done|]. intros c' Hc'. simplify_eq.
    split; [apply push_up_host|]. intros Hok. by eapply push_up_ok.
Qed.

Lemma plane_step_moves a s s' :
  actor_of a = ByPlane → invariant s → step a s = Some s' → invariant s'.
Proof.
  intros Hby I Hs. destruct a; try done; clear Hby.
  - cbn -[ws_first_frame WorkerSystem.ws_frame] in Hs.
    destruct (connections s !! k) as [c|] eqn:Hc; cbn -[ws_first_frame WorkerSystem.ws_frame] in Hs; [|done].
    destruct (cn_ws c) as [a|ctx|ctx acc|] eqn:Hw; try done;
      destruct (cn_up c) as [|f up] eqn:Hu; try done; apply (inj Some) in Hs as <-;
      pose proof (take_up_moves _ _ _ _ _ I Hc Hu) as I1;
      (assert (Hc1 : connections (on_conn k (λ c, with_queues up (cn_down c) (cn_ws c) c) s) !! k
                    = Some (with_queues up (cn_down c) (cn_ws c) c))
        by (unfold on_conn; cbn; by rewrite lookup_alter_eq, Hc)).
    + by eapply first_frame_moves.
    + eapply frame_moves; [done..|]. intros a Ha.
      destruct (inv_conns _ I _ _ Hc) as (a' & Hi & Hup & _). unfold conn_agent in Ha. rewrite Hc1 in Ha. cbn in Ha.
      change (identity_of s (cn_host c) = Some a) in Ha. assert (a' = a) as -> by congruence.
      apply up_ok_plane. apply Hup. rewrite Hu. by left.
  - cbn in Hs. destruct (connections s !! k) as [c|] eqn:Hc; cbn in Hs; [|done].
    destruct (cn_ws c) as [a|ctx|ctx acc|] eqn:Hw; try done. apply (inj Some) in Hs as <-.
    destruct (inv_conns _ I _ _ Hc) as (agent & Hi & _ & _ & Hws). rewrite Hw in Hws. cbn in Hws.
    apply conn_moves.
    + apply plane_moves; [done|]. apply worker_enqueue_keeps. unfold conn_agent. rewrite Hc. cbn. congruence.
    + intros c' Hc'. split; [done|]. intros (a & Hi' & Hup & Hd & Hw'). exists a. cbn in Hc'. simplify_eq.
      rewrite Hw in Hw'. by split_and!.
  - cbn in Hs. destruct (connections s !! k) as [c|] eqn:Hc; cbn in Hs; [|done].
    destruct (worker_queues (plane s) !! k) as [[|p rest]|] eqn:Hq; try done.
    assert (s' = on_conn k (push_down (WCommand p)) (set_plane (set_live id <[k:=rest]> (plane s)) s)) as ->.
    { destruct (cn_ws c), (cn_broken c); try done; by apply (inj Some) in Hs as <-. }
    destruct (ok_queues _ _ _ _ (inv_plane _ I) k _ p Hq) as (agent & Hk & Hp); [by left|].
    apply conn_moves.
    + apply plane_moves; [done|]. apply queue_keeps. intros m Hm. eexists. split; [done|]. by right.
    + intros c' Hc'. cbn in Hc'. simplify_eq. split; [apply push_down_host|]. intros Hok.
      unfold conn_agent in Hk. rewrite Hc in Hk. cbn in Hk. by eapply push_down_ok.
  - cbn in Hs. destruct (connections s !! k) as [c|] eqn:Hc; cbn in Hs; [|done].
    destruct (inv_conns _ I _ _ Hc) as (agent & Hi & _ & _ & Hws).
    destruct (cn_ws c) as [a|ctx|ctx acc|] eqn:Hw, (cn_broken c); try done; apply (inj Some) in Hs as <-;
      (eapply close_moves; [done|done|]); intros x Hx; simplify_eq; unfold conn_agent; rewrite Hc; cbn; congruence.
  - cbn in Hs. apply (inj Some) in Hs as <-. apply plane_moves; [done|]. apply create_package_keeps.
  - cbn in Hs. destruct (_ && _) eqn:Hf; [|done]. apply (inj Some) in Hs as <-. apply andb_true_iff in Hf as [Hf _].
    apply bool_decide_eq_true in Hf. apply plane_moves; [done|]. intros Hp. by apply create_request_keeps.
  - cbn in Hs. destruct (fresh_command _ _) eqn:Hf; [|done]. apply (inj Some) in Hs as <-.
    apply bool_decide_eq_true in Hf. apply plane_moves; [done|]. intros Hp. by apply stop_request_keeps.
  - cbn in Hs. destruct (fresh_command _ _) eqn:Hf; [|done]. apply (inj Some) in Hs as <-.
    apply bool_decide_eq_true in Hf. apply plane_moves; [done|]. intros Hp. by apply restart_request_keeps.
  - cbn in Hs. apply (inj Some) in Hs as <-.
    assert (I1 : invariant (set_plane (set_live (λ _, ∅) (λ _, ∅) (plane s)) s)).
    { apply plane_moves; [done|]. apply restart_keeps. }
    apply (all_conns_move _ _ I1). intros c. split; [done|]. intros (a & Hi & Hu & Hd & _). exists a. by split_and!.
  - cbn in Hs. destruct (connections s !! k) as [c|]; cbn in Hs; [|done]. apply (inj Some) in Hs as <-.
    apply conn_moves; [done|]. by intros c'.
Qed.

Lemma step_invariant a s s' : invariant s → step a s = Some s' → invariant s'.
Proof.
  intros I Hs. destruct (actor_of a) eqn:E; [by eapply host_step_moves|by eapply loop_step_moves| | |by eapply plane_step_moves];
    destruct a; try done; first [by eapply reads_moves|by eapply sent_moves|by eapply stop_moves|by eapply spawn_moves|by eapply dies_in_spawn_moves
                                |by eapply (work_moves n)].
Qed.

Lemma worker_initial_invariant : invariant initial.
Proof.
  split; [|by intros ??|by intros ??|by intros e ?%elem_of_nil].
  split; try by intros ??; cbn; try done.
  - intros a id d r (n & ?%elem_of_nil & _). done.
  - intros a id d (n & l & ?%elem_of_nil & _). done.
Qed.

Lemma worker_run_invariant acts s s' :
  invariant s → run registration_tokens is_uuid str sha256 members is_relative read_archive storage_dir plane_url
                  token_of acts s = Some s' → invariant s'.
Proof.
  induction acts as [|a acts IH] in s |- *; intros I; cbn; [by intros [= <-]|].
  destruct (step a s) as [s1|] eqn:E; cbn; [|done]. apply IH. by eapply step_invariant.
Qed.
End Step.
