(* ===== verification/WorkerSlots.v ===== *)
(** * Worker deployments: slots and processes of a host

    The supervisor's dictionaries, the state file and the processes that run,
    in runs where no host starts what it holds ([orderly_run]): every process
    of a deployment is one the supervisor, or the file it starts from, knows. *)

From stdpp Require Import base gmap sets list strings numbers sorting.
From Stdlib Require Import ZArith Lia Ascii.
From S2P Require Import Prelude PyFloat Value WorkerPlane WorkAgent WorkerSystem WorkerServer WorkerInvariant.

(** The deployments whose processes run. *)
Definition children (os : os_table) : list string := omap (λ kp, fst <$> op_owner kp.2) (map_to_list os).

(** ** The state file *)

Lemma upsert_elem st x ss :
  x ∈ store_upsert st ss ↔ x = st ∨ x ∈ ss ∧ ds_deployment_id x ≠ ds_deployment_id st.
Proof.
  unfold store_upsert, save_all. rewrite merge_sort_Permutation, elem_of_cons.
  rewrite !list_elem_of_In, List.filter_In. unfold is_deployment.
  rewrite negb_true_iff, String.eqb_neq. tauto.
Qed.

Lemma remove_elem d x ss : x ∈ store_remove d ss ↔ x ∈ ss ∧ ds_deployment_id x ≠ d.
Proof.
  unfold store_remove, save_all. destruct (existsb _ _) eqn:E.
  - rewrite merge_sort_Permutation, !list_elem_of_In, List.filter_In. unfold is_deployment.
    rewrite negb_true_iff, String.eqb_neq. tauto.
  - split; [|tauto]. intros Hx. split; [done|]. intros Hd. apply not_true_iff_false in E. apply E.
    apply existsb_exists. exists x. split; [by apply list_elem_of_In|]. unfold is_deployment. by apply String.eqb_eq.
Qed.

Abbreviation ids ss := (ds_deployment_id <$> ss).

Lemma filter_ids_nodup p (ss : states) : NoDup (ids ss) → NoDup (ids (List.filter p ss)).
Proof.
  induction ss as [|x ss IH]; cbn; [done|]. intros [Hx Hn]%NoDup_cons. destruct (p x); cbn; [|by apply IH].
  constructor; [|by apply IH]. intros (y & Hy & Hin)%list_elem_of_fmap. apply Hx, list_elem_of_fmap.
  exists y. split; [done|]. apply list_elem_of_In, List.filter_In in Hin as [Hin _]. by apply list_elem_of_In.
Qed.

Lemma remove_nodup d ss : NoDup (ids ss) → NoDup (ids (store_remove d ss)).
Proof.
  intros Hn. unfold store_remove, save_all. destruct (existsb _ _); [|done].
  rewrite merge_sort_Permutation. by apply filter_ids_nodup.
Qed.

Lemma upsert_nodup st ss : NoDup (ids ss) → NoDup (ids (store_upsert st ss)).
Proof.
  intros Hn. unfold store_upsert, save_all. rewrite merge_sort_Permutation. cbn.
  constructor; [|by apply filter_ids_nodup]. intros (y & Hy & Hin)%list_elem_of_fmap.
  apply list_elem_of_In, List.filter_In in Hin as [_ Hp]. unfold is_deployment in Hp.
  by rewrite <- Hy, String.eqb_refl in Hp.
Qed.

Lemma ids_inj ss x y : NoDup (ids ss) → x ∈ ss → y ∈ ss → ds_deployment_id x = ds_deployment_id y → x = y.
Proof.
  induction ss as [|z ss IH]; cbn; [by intros _ ?%elem_of_nil|]. intros [Hz Hn]%NoDup_cons.
  intros [->|Hx]%elem_of_cons [->|Hy]%elem_of_cons E; [done| | |by apply IH].
  - exfalso. apply Hz, list_elem_of_fmap. by exists y.
  - exfalso. apply Hz, list_elem_of_fmap. by exists x.
Qed.

(** ** What holds of a site *)

(** The supervisor has [pid] for [d]. *)
Definition tracked (v : SubprocessSupervisor) (d : string) (pid : Z) : Prop :=
  (∃ b, _processes v !! d = Some {| ph_pid := pid; ph_birth := b |}) ∨ _external_pids v !! d = Some pid.

(** It has none. *)
Definition idle (v : SubprocessSupervisor) (d : string) : Prop :=
  _processes v !! d = None ∧ _external_pids v !! d = None.

Lemma held_idle d v : held d v = false → idle v d.
Proof.
  unfold held. rewrite orb_false_iff, !bool_decide_eq_false, <- !eq_None_not_Some. by intros [].
Qed.

Lemma released_idle d x : idle (supervisor (release_slot d x)) d.
Proof. split; cbn; by rewrite lookup_delete_eq. Qed.

Definition no_child (d : string) (os : os_table) : Prop := ∀ pid p r, os !! pid = Some p → op_owner p ≠ Some (d, r).

(** [busy] is a deployment with a slot and no process yet. *)
Record site_ok (m : nat) (busy : option string) (x : site) : Prop := {
  so_max : max_concurrent (supervisor x) = m;
  so_bound : size (_reserved (supervisor x)) ≤ m;
  so_process : ∀ d h, _processes (supervisor x) !! d = Some h →
    d ∈ _reserved (supervisor x) ∧ _external_pids (supervisor x) !! d = None ∧ busy ≠ Some d;
  so_external : ∀ d pid, _external_pids (supervisor x) !! d = Some pid →
    d ∈ _reserved (supervisor x) ∧ busy ≠ Some d;
  so_busy : ∀ d, busy = Some d → d ∈ _reserved (supervisor x);
  so_child : ∀ pid p d r, os x !! pid = Some p → op_owner p = Some (d, r) →
    _processes (supervisor x) !! d = Some {| ph_pid := pid; ph_birth := op_birth p |}
    ∨ _external_pids (supervisor x) !! d = Some pid;
  so_stored : ∀ d pid, tracked (supervisor x) d pid →
    ∃ st, st ∈ state_store x ∧ ds_deployment_id st = d ∧ ds_pid st = Some pid;
  so_only : ∀ st, st ∈ state_store x → ∃ pid, tracked (supervisor x) (ds_deployment_id st) pid;
  so_nodup : NoDup (ids (state_store x));
  so_pids : ∀ pid p, os x !! pid = Some p → (0 < pid)%Z;
}.

(** Without an agent: the file knows every process. *)
Record store_ok (m : nat) (x : site) : Prop := {
  st_nodup : NoDup (ids (state_store x));
  st_bound : length (state_store x) ≤ m;
  st_child : ∀ pid p d r, os x !! pid = Some p → op_owner p = Some (d, r) →
    ∃ st, st ∈ state_store x ∧ ds_deployment_id st = d ∧ ds_pid st = Some pid;
  st_pids : ∀ pid p, os x !! pid = Some p → (0 < pid)%Z;
}.

Lemma tracked_reserved m b x d pid : site_ok m b x → tracked (supervisor x) d pid → d ∈ _reserved (supervisor x).
Proof. intros S [[h H]|H]; [by apply (so_process _ _ _ S) in H as []|by apply (so_external _ _ _ S) in H as []]. Qed.

Lemma nodup_bound (l : list string) (X : gset string) : NoDup l → (∀ d, d ∈ l → d ∈ X) → length l ≤ size X.
Proof.
  intros Hn Hl. rewrite <- (size_list_to_set (C:=gset string) l) by done. apply subseteq_size.
  intros d Hd%elem_of_list_to_set. by apply Hl.
Qed.

Lemma site_store m b x : site_ok m b x → store_ok m x.
Proof.
  intros S. split.
  - apply S.
  - rewrite <- (length_fmap ds_deployment_id). etransitivity; [|apply (so_bound _ _ _ S)]. apply nodup_bound; [apply S|].
    intros d (st & -> & Hst)%list_elem_of_fmap. destruct (so_only _ _ _ S st Hst) as [pid Hp].
    by eapply tracked_reserved.
  - intros pid p d r Hp Ho. apply (so_stored _ _ _ S). unfold tracked.
    destruct (so_child _ _ _ S _ _ _ _ Hp Ho); eauto.
  - apply S.
Qed.

Lemma busy_no_child m d x : site_ok m (Some d) x → no_child d (os x).
Proof.
  intros S pid p r Hp Ho. destruct (so_child _ _ _ S _ _ _ _ Hp Ho) as [H|H].
  - by apply (so_process _ _ _ S) in H as (_ & _ & ?).
  - by apply (so_external _ _ _ S) in H as (_ & ?).
Qed.

Lemma idle_no_child m b d x : site_ok m b x → idle (supervisor x) d → no_child d (os x).
Proof. intros S [H1 H2] pid p r Hp Ho. destruct (so_child _ _ _ S _ _ _ _ Hp Ho) as [H|H]; congruence. Qed.

(** A slot without a process is only a slot. *)
Lemma site_weaken m b x : site_ok m b x → site_ok m None x.
Proof.
  intros [Hm Hb Hp He Hbu Hc Hst Ho Hn Hpid]. split; try done.
  - intros d h (H1 & H2 & _)%Hp. by split_and!.
  - intros d pid (H1 & _)%He. by split.
Qed.

(** *** The methods of the supervisor *)

Lemma release_ok m b d x :
  site_ok m b x → b = None ∨ b = Some d → no_child d (os x) →
  site_ok m None (release_slot d x).
Proof.
  intros [Hm Hb Hp He Hbu Hc Hst Ho Hn Hpid] Hbd Hno. split; cbn; try done.
  - etransitivity; [|exact Hb]. apply subseteq_size. set_solver.
  - intros d' h. rewrite lookup_delete. case_decide; [done|]. intros (H1 & H2 & _)%Hp. split; [set_solver|].
    split; [|done]. rewrite lookup_delete. by case_decide.
  - intros d' pid. rewrite lookup_delete. case_decide; [done|]. intros (H1 & _)%He. split; [set_solver|done].
  - intros pid p d' r Hpo Hown. assert (d ≠ d') by (intros ->; by eapply Hno).
    rewrite !lookup_delete_ne by done. by eapply Hc.
  - intros d' pid Ht. assert (d ≠ d') as Hne.
    { intros ->. destruct Ht as [[h Ht]|Ht]; cbn in Ht; by rewrite lookup_delete_eq in Ht. }
    destruct (Hst d' pid) as (st & Hin & Hid & Hpd).
    { destruct Ht as [[h Ht]|Ht]; cbn in Ht; rewrite lookup_delete_ne in Ht by done; [left|right]; eauto. }
    exists st. split; [|done]. apply remove_elem. split; [done|congruence].
  - intros st [Hin Hne]%remove_elem. destruct (Ho st Hin) as [pid Ht]. exists pid.
    destruct Ht as [[h Ht]|Ht]; [left; exists h|right]; cbn; by rewrite lookup_delete_ne.
  - by apply remove_nodup.
Qed.

Lemma reserve_ok m d x v :
  site_ok m None x → idle (supervisor x) d → reserve_slot d (supervisor x) = Some v →
  site_ok m (Some d) (set_supervisor (λ _, v) x).
Proof.
  intros [Hm Hb Hp He Hbu Hc Hst Ho Hn Hpid] [Hi1 Hi2]. unfold reserve_slot. case_decide as Hd.
  - intros [= <-]. split; cbn; try done.
    + intros d' h H. destruct (Hp _ _ H) as (H1 & H2 & _). split_and!; [done..|congruence].
    + intros d' pid H. destruct (He _ _ H) as (H1 & _). split; [done|congruence].
    + by intros d' [= <-].
  - destruct (_ <=? _)%nat eqn:E; [done|]. intros [= <-]. apply Nat.leb_gt in E. split; cbn; try done.
    + rewrite size_union by set_solver. rewrite size_singleton. lia.
    + intros d' h H. destruct (Hp _ _ H) as (H1 & H2 & _). split; [set_solver|]. split; [done|]. congruence.
    + intros d' pid H. destruct (He _ _ H) as (H1 & _). split; [set_solver|]. congruence.
    + intros d' [= ->]. set_solver.
Qed.

Lemma reserve_again m b d x v :
  site_ok m b x → d ∈ _reserved (supervisor x) → reserve_slot d (supervisor x) = Some v → v = supervisor x.
Proof. intros S Hd. unfold reserve_slot. rewrite decide_True by done. by intros [= <-]. Qed.

(** The processes that run are fewer, or another one is not a deployment's. *)
Lemma os_shrinks m b x f :
  site_ok m b x → (∀ pid p, f (os x) !! pid = Some p → os x !! pid = Some p) → site_ok m b (set_os f x).
Proof. intros [] Hf. split; cbn; eauto. Qed.

Lemma os_other m b x pid birth :
  site_ok m b x → (0 < pid)%Z → site_ok m b (set_os <[pid := {| op_birth := birth; op_owner := None |}]> x).
Proof.
  intros [] Hpid. split; cbn; try done.
  - intros pid' p d r. rewrite lookup_insert. case_decide; [by intros [= <-]|]. eauto.
  - intros pid' p. rewrite lookup_insert. case_decide; [by subst|]. eauto.
Qed.

(** What [stop] waits for is what the supervisor has. *)
Definition target_of (v : SubprocessSupervisor) (d : string) (t : stop_target) : Prop :=
  match t with
  | StopHandle h => _processes v !! d = Some h
  | StopPid pid => _processes v !! d = None ∧ _external_pids v !! d = Some pid
  end.

Lemma stop_begins_ok m d g seen x x' r :
  site_ok m None x → is_Some g → stop d g seen x = (x', r) →
  match r with
  | StopWaits t => x' = x ∧ target_of (supervisor x) d t
  | StopDone => site_ok m None x' ∧ idle (supervisor x') d ∧ no_child d (os x')
  | StopRaises _ => x' = x
  end.
Proof.
  intros S [g' ->]. unfold stop. destruct (_processes (supervisor x) !! d) as [h|] eqn:Eh.
  { destruct (_ && _); by intros [= <- <-]. }
  destruct (_external_pids (supervisor x) !! d) as [pid|] eqn:Ee.
  - destruct (_pid_is_alive pid (os x)) eqn:Ea; [by intros [= <- <-]|]. intros [= <- <-].
    assert (Hno : no_child d (os x)).
    { intros pid' p rt Hp Ho. destruct (so_child _ _ _ S _ _ _ _ Hp Ho) as [H|H]; [congruence|].
      assert (pid' = pid) as -> by congruence. unfold _pid_is_alive in Ea.
      apply andb_false_iff in Ea as [Ea|Ea]; [apply (so_pids _ _ _ S) in Hp; lia|].
      apply bool_decide_eq_false in Ea. apply Ea. by exists p. }
    split; [|split; [apply released_idle|done]]. apply (release_ok m None); [done|by left|done].
  - intros [= <- <-].
    assert (Hno : no_child d (os x)).
    { intros pid' p rt Hp Ho. destruct (so_child _ _ _ S _ _ _ _ Hp Ho) as [H|H]; congruence. }
    split; [|split; [apply released_idle|done]]. apply (release_ok m None); [done|by left|done].
Qed.

Lemma stop_completed_ok m d t x :
  site_ok m None x → target_of (supervisor x) d t →
  site_ok m None (stop_completed d t x) ∧ idle (supervisor (stop_completed d t x)) d
  ∧ no_child d (os (stop_completed d t x)).
Proof.
  intros S Ht. unfold stop_completed.
  match goal with |- context [release_slot d (set_os ?f x)] => set (k := f) end.
  assert (Hsub : ∀ pid p, k (os x) !! pid = Some p → os x !! pid = Some p).
  { intros pid p. unfold k. destruct t as [h|pid']; [destruct (handle_alive _ _); [|done]|];
      rewrite lookup_delete; by case_decide. }
  assert (Hno : no_child d (k (os x))).
  { intros pid p r Hp Ho. pose proof (Hsub _ _ Hp) as Hp'. unfold k in Hp.
    destruct (so_child _ _ _ S _ _ _ _ Hp' Ho) as [H|H], t as [h|pid']; cbn in Ht.
    - assert (h = {| ph_pid := pid; ph_birth := op_birth p |}) as -> by congruence.
      unfold handle_alive in Hp. cbn in Hp. rewrite Hp', Nat.eqb_refl in Hp. by rewrite lookup_delete_eq in Hp.
    - destruct Ht. congruence.
    - apply (so_process _ _ _ S) in Ht as (_ & Hx & _). congruence.
    - destruct Ht as [_ Ht]. assert (pid' = pid) as -> by congruence. by rewrite lookup_delete_eq in Hp. }
  pose proof (os_shrinks m None x k S Hsub) as S'.
  split; [|split; [apply released_idle|done]]. apply (release_ok m None); [done|by left|done].
Qed.

Lemma process_started_ok m d r x st pid birth :
  site_ok m (Some d) x → os x !! pid = None → (0 < pid)%Z → ds_deployment_id st = d → ds_pid st = Some pid →
  site_ok m None (process_started st {| ph_pid := pid; ph_birth := birth |} true
                    (set_os <[pid := {| op_birth := birth; op_owner := Some (d, r) |}]> x)).
Proof.
  intros S Hfree Hpos Hid Hpd. pose proof (busy_no_child _ _ _ S) as Hno.
  destruct S as [Hm Hb Hp He Hbu Hc Hst Ho Hn Hpid]. unfold process_started. cbn. subst d. set (d := ds_deployment_id st) in *.
  assert (Hnone : _external_pids (supervisor x) !! d = None).
  { destruct (_external_pids (supervisor x) !! d) eqn:E; [|done]. by apply He in E as (_ & ?). }
  split; cbn; try done.
  - intros d' h. rewrite lookup_insert. case_decide as D; [subst d'|].
    + intros [= <-]. split_and!; [by apply Hbu|done|done].
    + intros (H1 & H2 & _)%Hp. by split_and!.
  - intros d' p' (H1 & _)%He. by split.
  - intros pid' p d' r'. rewrite lookup_insert. case_decide as D; [subst pid'|].
    + intros [= <-]. cbn. intros [= <- <-]. left. by rewrite lookup_insert_eq.
    + intros Hp' Hown. assert (d ≠ d') by (intros ->; by eapply Hno).
      rewrite lookup_insert_ne by done. by eapply Hc.
  - intros d' pid' Ht. setoid_rewrite upsert_elem. destruct (decide (d = d')) as [<-|D].
    + exists st. split; [by left|]. split; [done|]. destruct Ht as [[b Ht]|Ht]; cbn in Ht; [|congruence].
      rewrite lookup_insert_eq in Ht. congruence.
    + destruct (Hst d' pid') as (st' & Hin & Hid' & Hpd').
      { destruct Ht as [[b Ht]|Ht]; cbn in Ht; [left|by right]. rewrite lookup_insert_ne in Ht by done. by exists b. }
      exists st'. split; [|done]. right. split; [done|]. rewrite Hid'. intros E. by apply D.
  - intros st' [->|[Hin Hne]]%upsert_elem.
    + exists pid. left. exists birth. cbn. by rewrite lookup_insert_eq.
    + destruct (Ho st' Hin) as [pid' Ht]. exists pid'. destruct Ht as [[b Ht]|Ht]; [left; exists b|by right].
      cbn. rewrite lookup_insert_ne; [done|]. intros E. by apply Hne.
  - by apply upsert_nodup.
  - intros pid' p. rewrite lookup_insert. case_decide; [by subst|]. eauto.
Qed.

(** *** The agent starts from the file *)

(** [l]: the states of the file that are still to come. *)
Record recovering (m : nat) (x : site) (l : states) : Prop := {
  re_max : max_concurrent (supervisor x) = m;
  re_none : _processes (supervisor x) = ∅;
  re_reserved : ∀ d, d ∈ _reserved (supervisor x) ↔ is_Some (_external_pids (supervisor x) !! d);
  re_done : ∀ d pid, _external_pids (supervisor x) !! d = Some pid →
    (d ∉ ids l) ∧ ∃ st, st ∈ state_store x ∧ ds_deployment_id st = d ∧ ds_pid st = Some pid;
  re_todo : ∀ st, st ∈ state_store x →
    st ∈ l ∨ ∃ pid, _external_pids (supervisor x) !! ds_deployment_id st = Some pid ∧ ds_pid st = Some pid;
  re_sub : ∀ st, st ∈ l → st ∈ state_store x;
  re_distinct : NoDup (ids l);
  re_store : store_ok m x;
}.

Lemma drop_state_ok m st l x :
  recovering m x (st :: l) → (∀ pid, ds_pid st = Some pid → os x !! pid = None) →
  recovering m (set_store (store_remove (ds_deployment_id st)) x) l.
Proof.
  intros [Hm Hno Hr Hd Ht Hs Hn [Sn Sb Sc Sp]] Hdead. apply NoDup_cons in Hn as [Hni Hn].
  assert (Hst : st ∈ state_store x) by (apply Hs; by left).
  split; cbn; try done.
  - intros d pid Hp. destruct (Hd d pid Hp) as (Hnl & st' & Hin & Hid & Hpd).
    apply not_elem_of_cons in Hnl as [Hne Hnl]. split; [done|]. exists st'. split; [|done].
    apply remove_elem. split; [done|congruence].
  - intros st' [Hin Hne]%remove_elem. destruct (Ht st' Hin) as [[->|Hl]%elem_of_cons|H]; [done|by left|by right].
  - intros st' Hl. apply remove_elem. split; [apply Hs; by right|]. intros E. apply Hni, list_elem_of_fmap. by exists st'.
  - split; cbn; try done.
    + by apply remove_nodup.
    + etransitivity; [|exact Sb]. unfold store_remove, save_all. destruct (existsb _ _); [|done].
      rewrite (Permutation_length (merge_sort_Permutation _ _)). apply List.filter_length_le.
    + intros pid p d r Hp Ho. destruct (Sc _ _ _ _ Hp Ho) as (st' & Hin & Hid & Hpd). exists st'. split; [|done].
      apply remove_elem. split; [done|]. intros E. rewrite E in Hid.
      assert (st' = st) as -> by (eapply ids_inj; eauto; congruence). rewrite (Hdead _ Hpd) in Hp. done.
Qed.

Lemma recover_state_ok m st l x : recovering m x (st :: l) → recovering m (recover_state x st) l.
Proof.
  intros R. unfold recover_state. destruct (ds_pid st) as [pid|] eqn:Epid; [|apply drop_state_ok; [done|by rewrite Epid]].
  destruct (_pid_is_alive pid (os x)) eqn:Ea.
  2: { apply drop_state_ok; [done|]. rewrite Epid. intros pid' [= <-]. destruct (os x !! pid) as [p|] eqn:Ep; [|done].
       unfold _pid_is_alive in Ea. rewrite Ep in Ea. pose proof (st_pids _ _ (re_store _ _ _ R) _ _ Ep).
       apply andb_false_iff in Ea as [Ea|Ea]; [lia|]. by apply bool_decide_eq_false in Ea; destruct Ea. }
  destruct R as [Hm Hno Hr Hd Ht Hs Hn S]. apply NoDup_cons in Hn as [Hni Hn].
  assert (Hst : st ∈ state_store x) by (apply Hs; by left).
  assert (Hfree : ds_deployment_id st ∉ _reserved (supervisor x)).
  { intros [pid' Hp]%Hr. apply Hd in Hp as [Hp _]. apply Hp. by left. }
  assert (Hroom : size (_reserved (supervisor x)) < m).
  { destruct S as [Sn Sb _ _]. assert (S (size (_reserved (supervisor x))) ≤ length (state_store x)); [|lia].
    rewrite <- (length_fmap ds_deployment_id). change (S (size _)) with (length (ds_deployment_id st :: elements (_reserved (supervisor x)))).
    apply submseteq_length, NoDup_submseteq.
    - constructor; [by rewrite elem_of_elements|apply NoDup_elements].
    - intros d [->|Hin%elem_of_elements]%elem_of_cons; [by apply list_elem_of_fmap_2|].
      apply Hr in Hin as [pid' Hp]. destruct (Hd _ _ Hp) as (_ & st' & Hin' & <- & _). by apply list_elem_of_fmap_2. }
  unfold reserve_slot. rewrite decide_False by done. rewrite Hm. destruct (m <=? _)%nat eqn:E; [apply Nat.leb_le in E; lia|].
  split; cbn; try done.
  - intros d. rewrite elem_of_union, elem_of_singleton, Hr, lookup_insert. case_decide; [|naive_solver].
    subst. naive_solver.
  - intros d pid'. rewrite lookup_insert. case_decide as D; [subst|].
    + intros [= <-]. split; [done|]. by exists st.
    + intros Hp. destruct (Hd _ _ Hp) as (Hnl & H). split; [|done]. by apply not_elem_of_cons in Hnl as [_ ?].
  - intros st' Hin. destruct (Ht st' Hin) as [[->|Hl]%elem_of_cons|(pid' & Hp & Hpd)]; [right|by left|right].
    + exists pid. by rewrite lookup_insert_eq.
    + exists pid'. rewrite lookup_insert_ne; [done|]. intros E'. rewrite <- E' in Hp. apply Hd in Hp as [Hp _].
      apply Hp. by left.
  - intros st' Hl. apply Hs. by right.
  - destruct S. by split.
Qed.

Lemma recover_ok m x :
  store_ok m x → site_ok m None (recover_running_deployments (set_supervisor (λ _, new_supervisor m) x)).
Proof.
  intros S. set (x0 := set_supervisor (λ _, new_supervisor m) x).
  assert (R0 : recovering m x0 (state_store x0)).
  { split; cbn; try done.
    - intros d. rewrite lookup_empty. split; [set_solver|by intros []].
    - intros st Hin. by left.
    - apply S.
    - destruct S. by split. }
  unfold recover_running_deployments.
  assert (R : ∀ l y, recovering m y l → recovering m (foldl recover_state y l) []).
  { induction l as [|st l IH]; intros y Hy; cbn; [done|]. by apply IH, recover_state_ok. }
  specialize (R _ _ R0). set (y := foldl recover_state x0 (state_store x0)) in *. clearbody y. clear R0 x0 S.
  destruct R as [Hm Hno Hr Hd Ht _ _ [Sn Sb Sc Sp]].
  assert (Hext : ∀ st, st ∈ state_store y → ∃ pid, _external_pids (supervisor y) !! ds_deployment_id st = Some pid
                                              ∧ ds_pid st = Some pid).
  { intros st Hin. by destruct (Ht st Hin) as [?%elem_of_nil|H]. }
  split; try done.
  - etransitivity; [|exact Sb]. rewrite <- (length_fmap ds_deployment_id). apply submseteq_length, NoDup_submseteq.
    + apply NoDup_elements.
    + intros d [pid Hp]%elem_of_elements%Hr. destruct (Hd _ _ Hp) as (_ & st & Hin & <- & _).
      by apply list_elem_of_fmap_2.
  - intros d h. rewrite Hno. by rewrite lookup_empty.
  - intros d pid Hp. split; [|done]. apply Hr. by exists pid.
  - intros pid p d r Hp Ho. right. destruct (Sc _ _ _ _ Hp Ho) as (st & Hin & <- & Hpd).
    destruct (Hext st Hin) as (pid' & He & Hpd'). congruence.
  - intros d pid [[b H]|H]; [rewrite Hno in H; by rewrite lookup_empty in H|]. by apply Hd.
  - intros st Hin. destruct (Hext st Hin) as (pid & He & _). exists pid. by right.
Qed.

(** ** The pieces of the agent's code *)

(** The deployment a handler holds a slot for, before its process runs. *)
Definition next_busy (nx : next) : option string :=
  match nx with
  | ThenPreparing c | ThenDownload c | ThenInstall c | ThenCheck c => Some (sc_deployment c)
  | _ => None
  end.

Definition busy (pc : agent_pc) : option string :=
  match pc with
  | Sending _ _ nx => next_busy nx
  | Downloading _ c | Installing _ c | Checking _ c | Spawning _ c => Some (sc_deployment c)
  | _ => None
  end.

(** What a wait relies on. *)
Definition awaits_ok (x : site) (pc : agent_pc) : Prop :=
  match pc with
  | Sending _ _ (ThenStopping _ _ g) | Sending _ _ (ThenStop _ _ g) => is_Some g
  | StoppingFirst _ c t => target_of (supervisor x) (sc_deployment c) t
  | StoppingProcess _ _ d t => target_of (supervisor x) d t
  | _ => True
  end.

Definition at_pc (m : nat) (x : site) (pc : agent_pc) : Prop := site_ok m (busy pc) x ∧ awaits_ok x pc.

Definition after_ok (m : nat) (r : site * piece) : Prop :=
  at_pc m r.1 (match r.2 with Waits pc => pc | Propagates _ => Disconnected end).

Lemma start_fails_slots m k c e x : site_ok m (Some (sc_deployment c)) x → after_ok m (start_fails k c e x).
Proof.
  intros S. split; [|done]. cbn. eapply release_ok; [done|by right|]. by eapply busy_no_child.
Qed.

Lemma start_accepts_slots m k c x :
  site_ok m None x → idle (supervisor x) (sc_deployment c) → after_ok m (start_accepts k c x).
Proof.
  intros S Hd. unfold start_accepts. destruct (reserve_slot _ _) as [v|] eqn:E; [|by split].
  split; [|done]. by eapply reserve_ok.
Qed.

Lemma payload_timeout p : (1 ≤ wcp_timeout_s p)%Z → is_Some (_payload_timeout_s p).
Proof. intros H. unfold _payload_timeout_s. destruct (1 <=? _)%Z eqn:E; [by eexists|zbool; lia]. Qed.

Lemma parsed_deployment str p url tok rt c :
  parse_start str p url tok rt = Ok c → dict_get "deployment_id" (wcp_args p) = Some (VStr (sc_deployment c)).
Proof.
  unfold parse_start. rewrite !bind_ok. intros (d & Hd & H). rewrite bind_ok in H. destruct H as (ck & _ & H).
  rewrite bind_ok in H. destruct H as (u & _ & H). rewrite bind_ok in H. destruct H as (ep & _ & [= <-]). cbn.
  unfold _required_string in Hd. destruct (dict_get _ _) as [[]|]; try done. destruct (str_nonempty _); [|done].
  by injection Hd as ->.
Qed.

Lemma control_message_slots m k f str url tok rt seen x :
  at_pc m x (Reading k) → starts_anew x f = true →
  (∀ p, f = WCommand p → (1 ≤ wcp_timeout_s p)%Z) →
  after_ok m (handle_control_message str k f url tok rt seen x).
Proof.
  intros [S _] Hnew Ht. destruct f as [ss acc|p|code cl]; [by split| |by split]. specialize (Ht p eq_refl).
  cbn in *. destruct (wcp_kind p) eqn:Ek.
  - unfold _handle_start_deployment_command. destruct (negb (str_nonempty _)); [by split|].
    destruct (parse_start _ _ _ _ _) as [c|e] eqn:Ep; [|by split]. apply start_accepts_slots; [done|].
    rewrite (parsed_deployment _ _ _ _ _ _ Ep) in Hnew. apply negb_true_iff in Hnew.
    by apply held_idle.
  - unfold _handle_stop_deployment_command. destruct (negb _); [by split|].
    destruct (_required_string _ _) as [d|e]; [|by split]. split; [done|]. by apply payload_timeout.
  - unfold _handle_start_deployment_command. destruct (negb (str_nonempty _)); [by split|].
    destruct (parse_start _ _ _ _ _) as [c|e]; [|by split].
    destruct (stop _ _ _ _) as [x' r] eqn:Es.
    pose proof (stop_begins_ok _ _ _ _ _ _ _ S (payload_timeout p Ht) Es) as H. destruct r as [t| |e].
    + destruct H as [-> H]. by split.
    + destruct H as (S' & Hd & _). by apply start_accepts_slots.
    + subst x'. by split.
  - by split.
Qed.

Lemma no_child_count d os : no_child d os → still_running d os = 0.
Proof.
  intros Hno. unfold still_running. destruct (List.filter _ _) as [|p l] eqn:E; [done|]. exfalso.
  assert (Hin : p ∈ p :: l) by by left. rewrite <- E in Hin.
  apply list_elem_of_In, List.filter_In in Hin as [Hin Ho].
  apply list_elem_of_In, list_elem_of_fmap in Hin as ([pid p'] & -> & Hp%elem_of_map_to_list). cbn in *.
  unfold owned_by in Ho. destruct (op_owner p') as [[d' r]|] eqn:Eo; [|done]. cbn in Ho.
  apply String.eqb_eq in Ho as ->. by eapply Hno.
Qed.

Lemma after_send_slots m n k f nx seen now x :
  at_pc m x (Sending k f nx) →
  after_ok m (after_send k nx seen now x)
  ∧ (∀ e, e ∈ stop_event n (after_send k nx seen now x) → ∃ id d, e = EvStopped n id d 0).
Proof.
  intros [S A]. destruct nx as [|c|c|c|c|id d g|id d g|id o]; cbn in S, A;
    try (split; [by split|by intros e ?%elem_of_nil]).
  - cbn. destruct (stop d g seen x) as [x' r] eqn:Es.
    pose proof (stop_begins_ok _ _ _ _ _ _ _ S A Es) as H. destruct r as [t| |e].
    + destruct H as [-> H]. split; [by split|]. by intros e ?%elem_of_nil.
    + destruct H as (S' & Hd & Hno). split; [by split|]. intros e ->%list_elem_of_singleton.
      exists id, d. cbn. by rewrite no_child_count.
    + subst x'. split; [by split|]. by intros e' ?%elem_of_nil.
Qed.

Lemma send_raised_slots m k f nx x : at_pc m x (Sending k f nx) → after_ok m (send_raised k nx x).
Proof.
  intros [S A]. destruct nx; cbn in S, A; try (by split); try by apply start_fails_slots.
  split; [|done]. by eapply site_weaken.
Qed.

Lemma downloaded_slots m sha mem rel k c resp mode x :
  at_pc m x (Downloading k c) → after_ok m (downloaded sha mem rel k c resp mode x).
Proof. intros [S _]. unfold downloaded. destruct (_ ≫= _); [by split|by apply start_fails_slots]. Qed.

Lemma installed_slots m k c mode venv runs x :
  at_pc m x (Installing k c) → after_ok m (installed k c mode venv runs x).
Proof.
  intros [S _]. unfold installed. destruct (install _ _ _ _); [|by apply start_fails_slots]. split; [|done].
  destruct S. by split.
Qed.

Lemma checked_slots m k c r now x : at_pc m x (Checking k c) → after_ok m (checked k c r now x).
Proof.
  intros [S _]. cbn in S. unfold checked. destruct (_run_check r) as [code|e]; [|by apply start_fails_slots].
  destruct (code =? 0)%Z.
  - destruct (reserve_slot _ _) as [v|] eqn:E; [|by apply start_fails_slots].
    rewrite (reserve_again _ _ _ _ _ S (so_busy _ _ _ S _ eq_refl) E). split; [|done]. destruct S. by split.
  - split; [|done]. cbn. eapply release_ok; [done|by right|]. by eapply busy_no_child.
Qed.

Lemma spawned_slots m k c b o x :
  at_pc m x (Spawning k c) →
  match o with Spawned pid saved => os x !! pid = None ∧ (0 < pid)%Z ∧ saved = true | SpawnFails _ => True end →
  after_ok m (spawned k c b o x).
Proof.
  intros [S _] Ho. cbn in S. destruct o as [e|pid saved].
  - cbn. unfold start_fails. split; [|done]. cbn.
    assert (S' : site_ok m None (release_slot (sc_deployment c) x)).
    { eapply release_ok; [exact S|by right|by eapply busy_no_child]. }
    eapply release_ok; [exact S'|by left|]. eapply idle_no_child; [exact S'|apply released_idle].
  - destruct Ho as (Hf & Hp & ->). split; [|done]. by apply process_started_ok.
Qed.

Lemma stop_over_slots m n k id d t code x :
  at_pc m x (StoppingProcess k id d t) →
  after_ok m (stop_over k id d t code x)
  ∧ (∀ e, e ∈ stop_event n (stop_over k id d t code x) → ∃ id d, e = EvStopped n id d 0).
Proof.
  intros [S A]. destruct (stop_completed_ok _ _ _ _ S A) as (S' & Hd & Hno). split; [by split|].
  intros e ->%list_elem_of_singleton. exists id, d. cbn. by rewrite no_child_count.
Qed.

Lemma first_stop_slots m k c t x : at_pc m x (StoppingFirst k c t) → after_ok m (first_stop_over k c t x).
Proof.
  intros [S A]. destruct (stop_completed_ok _ _ _ _ S A) as (S' & Hd & _). by apply start_accepts_slots.
Qed.

(** ** Every orderly run *)

Definition host_good (h : host) : Prop :=
  match h_agent h with
  | Some pc => at_pc (h_max_concurrent h) (h_site h) pc
  | None => store_ok (h_max_concurrent h) (h_site h)
  end.

Definition stopped_all (e : event) : Prop := match e with EvStopped _ _ _ n => n = 0 | EvSpawned _ _ _ _ => True end.

Record slots_ok (s : system) : Prop := {
  sl_hosts : ∀ n h, hosts s !! n = Some h → host_good h;
  sl_log : ∀ e, e ∈ log s → stopped_all e;
}.

Lemma slots_same s s' : slots_ok s → hosts s' = hosts s → log s' = log s → slots_ok s'.
Proof. intros [H1 H2] E1 E2. split; [by rewrite E1|by rewrite E2]. Qed.

Lemma slots_host s n h : slots_ok s → host_good h → slots_ok (set_host n h s).
Proof.
  intros [H1 H2] Hg. split; [|done]. intros m hm. cbn. rewrite lookup_insert. case_decide; [by intros [= <-]|apply H1].
Qed.

Lemma slots_log s es : slots_ok s → (∀ e, e ∈ es → stopped_all e) → slots_ok (record_events es s).
Proof. intros [H1 H2] He. split; [done|]. intros e [H|H]%elem_of_app; auto. Qed.

Lemma slots_conn s k f : slots_ok s → slots_ok (on_conn k f s).
Proof. intros []. by split. Qed.

Lemma slots_piece s n k h r : slots_ok s → after_ok (h_max_concurrent h) r → slots_ok (after_piece n k h r s).
Proof. intros S A. destruct r as [x [pc|e]]; cbn; [by apply slots_host|by apply slots_conn, slots_host]. Qed.

Lemma stopped_events n r :
  (∀ e, e ∈ stop_event n r → ∃ id d, e = EvStopped n id d 0) → ∀ e, e ∈ stop_event n r → stopped_all e.
Proof. intros H e He. by destruct (H e He) as (id & d & ->). Qed.

Lemma ws_hosts_log k ctx now s : hosts (ws_ends k ctx now s) = hosts s ∧ log (ws_ends k ctx now s) = log s.
Proof. done. Qed.

Section Orderly.
Context (registration_tokens : list string) (is_uuid : string → bool) (str : value → string).
Context (sha256 : list Init.Byte.byte → string) (members : list Init.Byte.byte → result exn (list string)).
Context (is_relative : string → bool) (read_archive : list Init.Byte.byte → archive_manifest).
Context (storage_dir plane_url : string) (token_of : string → string).

Abbreviation step := (step registration_tokens is_uuid str sha256 members is_relative read_archive storage_dir
                        plane_url token_of).

Lemma frame_hosts k ctx f now s :
  hosts (ws_frame is_uuid k ctx f now s) = hosts s ∧ log (ws_frame is_uuid k ctx f now s) = log s.
Proof.
  destruct f; unfold ws_frame, ws_refuses, ws_error; [done| | | |];
    (match goal with |- context [match ?x with _ => _ end] => destruct x as [q [a|e]] end; [|done]); try done;
    by destruct a.
Qed.

Lemma first_frame_hosts k a f session now s :
  hosts (ws_first_frame k a f session now s) = hosts s ∧ log (ws_first_frame k a f session now s) = log s.
Proof.
  destruct f; unfold ws_first_frame, ws_refuses; try done. destruct (negb _); [done|].
  destruct (handle_worker_agent_hello _ _ _ _ _) as [q [[a' acc]|e]]; done.
Qed.

(** A command on its way to the agent has a time limit. *)
Lemma frame_timeout s n h k c f down p :
  invariant s → hosts s !! n = Some h → h_agent h = Some (Reading k) → connections s !! k = Some c →
  cn_down c = f :: down → f = WCommand p → (1 ≤ wcp_timeout_s p)%Z.
Proof.
  intros I Hh Hp Hc Hd ->. destruct (inv_conns _ I _ _ Hc) as (a & Hi & _ & Hdown & _).
  destruct (Hdown (WCommand p)) as (row & Hl & <- & _); [rewrite Hd; by left|].
  by destruct (rows_named s I _ _ Hl) as (_ & Ht & _).
Qed.

(** The host: its agent comes and goes, processes end. *)
Lemma host_step_slots a s s' :
  actor_of a = ByHost → invariant s → slots_ok s → orderly a s = true → step a s = Some s' → slots_ok s'.
Proof.
  intros Hby I S Ho Hs. destruct a; try done; clear Hby.
  - cbn -[Nat.leb] in Hs. destruct (hosts s !! n); [done|]. destruct (1 <=? max)%nat; [|done].
    apply (inj Some) in Hs as <-. apply slots_host; [done|]. cbn. split; cbn; try done; [constructor|lia].
  - cbn -[register_worker_agent] in Hs. destruct (hosts s !! n) as [h|] eqn:Hh; cbn -[register_worker_agent] in Hs; [|done].
    destruct (h_identity h); [done|]. destruct (h_agent h) eqn:Ha; [done|].
    destruct (worker_agents (plane s) !! new_id); [done|].
    destruct (register_worker_agent _ _ _ _ _ _) as [p [row|e]]; apply (inj Some) in Hs as <-; [|by apply (slots_same s)].
    apply slots_host; [by apply (slots_same s)|]. pose proof (sl_hosts _ S _ _ Hh) as G. unfold host_good in *. by rewrite Ha in G.
  - cbn in Hs. destruct (hosts s !! n) as [h|] eqn:Hh; cbn in Hs; [|done].
    destruct (h_identity h); [|done]. destruct (h_agent h) eqn:Ha; [done|]. apply (inj Some) in Hs as <-.
    apply slots_host; [done|]. pose proof (sl_hosts _ S _ _ Hh) as G. unfold host_good in *. rewrite Ha in G. cbn.
    split; [by apply recover_ok|done].
  - cbn in Hs. destruct (hosts s !! n) as [h|] eqn:Hh; cbn in Hs; [|done].
    destruct (h_agent h) as [pc|] eqn:Ha; cbn in Hs; [|done]. apply (inj Some) in Hs as <-.
    assert (S' : slots_ok (set_host n (with_site (h_site h) None h) s)).
    { apply slots_host; [done|]. pose proof (sl_hosts _ S _ _ Hh) as G. unfold host_good in *. rewrite Ha in G.
      eapply site_store, G. }
    destruct (pc_conn pc); [by apply slots_conn|done].
  - cbn in Hs. destruct (hosts s !! n) as [h|] eqn:Hh; cbn in Hs; [|done]. apply (inj Some) in Hs as <-.
    apply slots_host; [done|]. pose proof (sl_hosts _ S _ _ Hh) as G. unfold host_good in *. cbn.
    assert (Hsub : ∀ q p, delete pid (os (h_site h)) !! q = Some p → os (h_site h) !! q = Some p)
      by (intros q p; rewrite lookup_delete; by case_decide).
    destruct (h_agent h) as [pc|].
    + destruct G as [G A]. split; [by apply os_shrinks|done].
    + destruct G. split; cbn; eauto.
  - cbn in Hs. destruct (hosts s !! n) as [h|] eqn:Hh; cbn in Hs; [|done]. destruct (_ && _) eqn:E; [|done].
    apply (inj Some) in Hs as <-. zbool. apply slots_host; [done|].
    pose proof (sl_hosts _ S _ _ Hh) as G. unfold host_good in *. cbn. destruct (h_agent h) as [pc|].
    + destruct G as [G A]. split; [by apply os_other|done].
    + destruct G as [G1 G2 G3 G4]. split; cbn; try done.
      * intros q p d r. rewrite lookup_insert. case_decide; [by intros [= <-]|]. eauto.
      * intros q p. rewrite lookup_insert. case_decide; [by subst|]. eauto.
Qed.

(** The control loop outside a handler. *)
Lemma loop_step_slots a s s' :
  actor_of a = ByLoop → invariant s → slots_ok s → orderly a s = true → step a s = Some s' → slots_ok s'.
Proof.
  intros Hby I S Ho Hs. destruct a; try done; clear Hby.
  - cbn in Hs. destruct (hosts s !! n) as [h|] eqn:Hh; cbn in Hs; [|done].
    destruct (h_identity h) as [id|]; cbn in Hs; [|done].
    destruct (worker_agents (plane s) !! id); cbn in Hs; [|done].
    destruct (h_agent h) as [pc|] eqn:Ha; [|done]. destruct pc; try done.
    destruct (connections s !! k); [done|]. apply (inj Some) in Hs as <-.
    eapply (slots_same (set_host n _ s)); [|done..]. apply slots_host; [done|].
    pose proof (sl_hosts _ S _ _ Hh) as G. unfold host_good in *. by rewrite Ha in G.
  - cbn in Hs. destruct (hosts s !! n) as [h|] eqn:Hh; cbn in Hs; [|done].
    destruct (h_agent h) as [pc|] eqn:Ha; [|done]. destruct pc; try done.
    destruct (connections s !! conn) as [c|]; cbn in Hs; [|done]. destruct (cn_down c); [done|].
    apply (inj Some) in Hs as <-. apply slots_conn, slots_host; [done|].
    pose proof (sl_hosts _ S _ _ Hh) as G. unfold host_good in *. by rewrite Ha in G.
  - cbn in Hs. destruct (hosts s !! n) as [h|] eqn:Hh; cbn in Hs; [|done].
    destruct (h_agent h) as [pc|] eqn:Ha; [|done].
    assert (G : at_pc (h_max_concurrent h) (h_site h) pc).
    { pose proof (sl_hosts _ S _ _ Hh) as G. unfold host_good in G. by rewrite Ha in G. }
    destruct pc as [|k|k| | | | | | |]; try done; destruct (connections s !! k) as [c|]; cbn in Hs; try done;
      destruct (cn_broken c); try done; apply (inj Some) in Hs as <-; by apply slots_host.
  - cbn in Hs. destruct (hosts s !! n) as [h|] eqn:Hh; cbn in Hs; [|done].
    destruct (h_identity h); cbn in Hs; [|done]. destruct (h_agent h) as [pc|]; cbn in Hs; [|done].
    destruct pc; try done; apply (inj Some) in Hs as <-; by apply slots_conn.
Qed.

(** A handler that takes a frame, sends one or stops a process. *)
Lemma take_step_slots a s s' :
  actor_of a = ByHandler → invariant s → slots_ok s → orderly a s = true → step a s = Some s' → slots_ok s'.
Proof.
  intros Hby I S Ho Hs. destruct a; try done; clear Hby.
  - cbn -[handle_control_message] in Hs. destruct (hosts s !! n) as [h|] eqn:Hh; cbn -[handle_control_message] in Hs; [|done].
    destruct (h_identity h) as [id|]; cbn -[handle_control_message] in Hs; [|done].
    destruct (h_agent h) as [pc|] eqn:Ha; [|done]. destruct pc as [| |k| | | | | | |]; try done.
    destruct (connections s !! k) as [c|] eqn:Hc; cbn -[handle_control_message] in Hs; [|done].
    destruct (cn_down c) as [|f down] eqn:Hd; [done|]. apply (inj Some) in Hs as <-.
    apply slots_piece; [by apply slots_conn|]. unfold orderly in Ho. rewrite Hh, Ha, Hc, Hd in Ho.
    pose proof (sl_hosts _ S _ _ Hh) as G. unfold host_good in G. rewrite Ha in G.
    apply control_message_slots; [exact G|done|]. intros p ->. by eapply frame_timeout.
  - cbn -[after_send] in Hs. destruct (hosts s !! n) as [h|] eqn:Hh; cbn -[after_send] in Hs; [|done].
    destruct (h_agent h) as [pc|] eqn:Ha; [|done]. destruct pc as [| | |k f nx| | | | | |]; try done.
    destruct (connections s !! k) as [c|] eqn:Hc; cbn -[after_send] in Hs; [|done].
    pose proof (sl_hosts _ S _ _ Hh) as G. unfold host_good in G. rewrite Ha in G.
    destruct sent.
    + apply (inj Some) in Hs as <-. destruct (after_send_slots _ n _ _ _ exit_seen now _ G) as [H1 H2].
      apply slots_log; [apply slots_piece; [by apply slots_conn|exact H1]|by apply stopped_events].
    + destruct (cn_broken c); [|done]. apply (inj Some) in Hs as <-. apply slots_piece; [done|]. by eapply send_raised_slots.
  - cbn -[stop_over first_stop_over] in Hs. destruct (hosts s !! n) as [h|] eqn:Hh; cbn -[stop_over first_stop_over] in Hs; [|done].
    destruct (h_agent h) as [pc|] eqn:Ha; [|done].
    pose proof (sl_hosts _ S _ _ Hh) as G. unfold host_good in G. rewrite Ha in G.
    destruct pc as [| | | |k c t|k id d t| | | |]; try done; apply (inj Some) in Hs as <-.
    + apply slots_piece; [done|]. by apply first_stop_slots.
    + destruct (stop_over_slots _ n k id d t code _ G) as [H1 H2].
      apply slots_log; [by apply slots_piece|by apply stopped_events].
Qed.

(** A handler that prepares and starts a deployment. *)
Lemma work_step_slots a s s' :
  actor_of a = ByWork → invariant s → slots_ok s → orderly a s = true → step a s = Some s' → slots_ok s'.
Proof.
  intros Hby I S Ho Hs. destruct a; try done; clear Hby.
  - cbn -[downloaded] in Hs. destruct (hosts s !! n) as [h|] eqn:Hh; cbn -[downloaded] in Hs; [|done].
    destruct (h_agent h) as [pc|] eqn:Ha; [|done]. destruct pc; try done. apply (inj Some) in Hs as <-.
    pose proof (sl_hosts _ S _ _ Hh) as G. unfold host_good in G. rewrite Ha in G.
    apply slots_piece; [done|]. by apply downloaded_slots.
  - cbn -[installed] in Hs. destruct (hosts s !! n) as [h|] eqn:Hh; cbn -[installed] in Hs; [|done].
    destruct (h_agent h) as [pc|] eqn:Ha; [|done]. destruct pc; try done. apply (inj Some) in Hs as <-.
    pose proof (sl_hosts _ S _ _ Hh) as G. unfold host_good in G. rewrite Ha in G.
    apply slots_piece; [done|]. by apply installed_slots.
  - cbn -[checked] in Hs. destruct (hosts s !! n) as [h|] eqn:Hh; cbn -[checked] in Hs; [|done].
    destruct (h_agent h) as [pc|] eqn:Ha; [|done]. destruct pc; try done. apply (inj Some) in Hs as <-.
    pose proof (sl_hosts _ S _ _ Hh) as G. unfold host_good in G. rewrite Ha in G.
    apply slots_piece; [done|]. by apply checked_slots.
  - cbn -[spawned] in Hs. destruct (hosts s !! n) as [h|] eqn:Hh; cbn -[spawned] in Hs; [|done].
    destruct (h_agent h) as [pc|] eqn:Ha; [|done]. destruct pc as [| | | | | | | | |k c]; try done.
    pose proof (sl_hosts _ S _ _ Hh) as G. unfold host_good in G. rewrite Ha in G.
    destruct o as [e|pid saved].
    + apply (inj Some) in Hs as <-. apply slots_piece; [done|]. by apply spawned_slots.
    + destruct (_ && _) eqn:E; [|done]. apply (inj Some) in Hs as <-. zbool.
      match goal with H : bool_decide _ = true |- _ => apply bool_decide_eq_true in H end.
      apply slots_log; [|by intros e ->%list_elem_of_singleton]. apply slots_piece; [done|].
      apply (spawned_slots (h_max_concurrent h) k c (h_births h) (Spawned pid saved)); [done|]. by split_and!.
Qed.

(** The control plane, operators and the network: no host moves. *)
Lemma plane_step_slots a s s' :
  actor_of a = ByPlane → invariant s → slots_ok s → orderly a s = true → step a s = Some s' → slots_ok s'.
Proof.
  intros Hby I S Ho Hs. destruct a; try done; clear Hby.
  - cbn -[ws_first_frame ws_frame] in Hs. destruct (connections s !! k) as [c|]; cbn -[ws_first_frame ws_frame] in Hs; [|done].
    destruct (cn_ws c) as [a|ctx|ctx acc|]; try done; destruct (cn_up c) as [|f up]; try done; apply (inj Some) in Hs as <-.
    + match goal with |- slots_ok (ws_first_frame ?k ?a ?f ?ss ?t ?x) => destruct (first_frame_hosts k a f ss t x) end.
      eapply slots_same; [apply (slots_conn s)|..]; eauto.
    + match goal with |- slots_ok (ws_frame _ ?k ?a ?f ?t ?x) => destruct (frame_hosts k a f t x) end.
      eapply slots_same; [apply (slots_conn s)|..]; eauto.
  - cbn in Hs. destruct (connections s !! k) as [c|]; cbn in Hs; [|done]. destruct (cn_ws c); try done.
    apply (inj Some) in Hs as <-. by apply (slots_same s).
  - cbn in Hs. destruct (connections s !! k) as [c|]; cbn in Hs; [|done].
    destruct (worker_queues (plane s) !! k) as [[|p rest]|]; try done.
    destruct (cn_ws c), (cn_broken c); try done; apply (inj Some) in Hs as <-; by apply (slots_same s).
  - cbn in Hs. destruct (connections s !! k) as [c|]; cbn in Hs; [|done].
    destruct (cn_ws c), (cn_broken c); try done; apply (inj Some) in Hs as <-; by apply (slots_same s).
  - cbn in Hs. apply (inj Some) in Hs as <-. by apply (slots_same s).
  - cbn in Hs. destruct (_ && _); [|done]. apply (inj Some) in Hs as <-. by apply (slots_same s).
  - cbn in Hs. destruct (fresh_command _ _); [|done]. apply (inj Some) in Hs as <-. by apply (slots_same s).
  - cbn in Hs. destruct (fresh_command _ _); [|done]. apply (inj Some) in Hs as <-. by apply (slots_same s).
  - cbn in Hs. apply (inj Some) in Hs as <-. by apply (slots_same s).
  - cbn in Hs. destruct (connections s !! k) as [c|]; cbn in Hs; [|done]. apply (inj Some) in Hs as <-.
    by apply slots_conn.
Qed.

Lemma step_slots a s s' : invariant s → slots_ok s → orderly a s = true → step a s = Some s' → slots_ok s'.
Proof.
  destruct (actor_of a) eqn:E; eauto using host_step_slots, loop_step_slots, take_step_slots, work_step_slots,
    plane_step_slots.
Qed.

Lemma orderly_slots acts s s' :
  invariant s → slots_ok s →
  orderly_run registration_tokens is_uuid str sha256 members is_relative read_archive storage_dir plane_url token_of
    acts s = Some s' → invariant s' ∧ slots_ok s'.
Proof.
  induction acts as [|a acts IH] in s |- *; intros I S; cbn; [by intros [= <-]|].
  destruct (orderly a s) eqn:Ho; [|done]. destruct (step a s) as [s1|] eqn:E; cbn; [|done].
  apply IH; [by eapply step_invariant|by eapply step_slots].
Qed.
End Orderly.

(** ** What it means for a host *)

Lemma omap_nodup {A B} (f : A → option B) (l : list A) :
  NoDup l → (∀ x y z, x ∈ l → y ∈ l → f x = Some z → f y = Some z → x = y) → NoDup (omap f l).
Proof.
  induction l as [|x l IH]; intros Hn Hf; cbn; [constructor|]. apply NoDup_cons in Hn as [Hx Hn].
  assert (IH' : NoDup (omap f l)) by (apply IH; [done|]; intros a b z Ha Hb; apply Hf; by right).
  destruct (f x) as [z|] eqn:E; [|done]. constructor; [|done].
  intros (y & Hy & Ey)%list_elem_of_omap. apply Hx. replace x with y; [done|].
  eapply Hf; eauto; [by right|by left].
Qed.

Lemma children_elem d os' :
  d ∈ children os' ↔ ∃ pid p r, os' !! pid = Some p ∧ op_owner p = Some (d, r).
Proof.
  unfold children. rewrite list_elem_of_omap. split.
  - intros ([pid p] & Hp%elem_of_map_to_list & Hd). cbn in *. destruct (op_owner p) as [[d' r]|] eqn:E; [|done].
    injection Hd as <-. by exists pid, p, r.
  - intros (pid & p & r & Hp & Hd). exists (pid, p). split; [by apply elem_of_map_to_list|]. cbn. by rewrite Hd.
Qed.

Lemma children_nodup (os' : os_table) :
  (∀ pid pid' p p' d r r', os' !! pid = Some p → os' !! pid' = Some p' → op_owner p = Some (d, r) →
     op_owner p' = Some (d, r') → pid = pid') → NoDup (children os').
Proof.
  intros H. apply omap_nodup; [apply NoDup_map_to_list|].
  intros [pid p] [pid' p'] d Hp%elem_of_map_to_list Hp'%elem_of_map_to_list. cbn.
  destruct (op_owner p) as [[d1 r1]|] eqn:E1; [|done]. destruct (op_owner p') as [[d2 r2]|] eqn:E2; [|done].
  intros [= ->] [= ->]. assert (pid = pid') as -> by (eapply H; eauto). congruence.
Qed.

Lemma site_children m b x :
  site_ok m b x → NoDup (children (os x)) ∧ (∀ d, d ∈ children (os x) → d ∈ _reserved (supervisor x)).
Proof.
  intros S. split.
  - apply children_nodup. intros pid pid' p p' d r r' Hp Hp' Ho Ho'.
    destruct (so_child _ _ _ S _ _ _ _ Hp Ho) as [H|H], (so_child _ _ _ S _ _ _ _ Hp' Ho') as [H'|H'].
    + congruence.
    + apply (so_process _ _ _ S) in H as (_ & H & _). congruence.
    + apply (so_process _ _ _ S) in H' as (_ & H' & _). congruence.
    + congruence.
  - intros d (pid & p & r & Hp & Ho)%children_elem. eapply (tracked_reserved m b x d pid); [done|].
    unfold tracked. destruct (so_child _ _ _ S _ _ _ _ Hp Ho); eauto.
Qed.

Lemma store_children m x :
  store_ok m x → NoDup (children (os x)) ∧ length (children (os x)) ≤ m.
Proof.
  intros [Sn Sb Sc Sp].
  assert (Hnd : NoDup (children (os x))).
  { apply children_nodup. intros pid pid' p p' d r r' Hp Hp' Ho Ho'.
    destruct (Sc _ _ _ _ Hp Ho) as (st & Hin & Hid & Hpd), (Sc _ _ _ _ Hp' Ho') as (st' & Hin' & Hid' & Hpd').
    assert (st = st') as -> by (eapply ids_inj; eauto; congruence). congruence. }
  split; [done|]. etransitivity; [|exact Sb]. rewrite <- (length_fmap ds_deployment_id).
  apply submseteq_length, NoDup_submseteq; [done|]. intros d (pid & p & r & Hp & Ho)%children_elem.
  destruct (Sc _ _ _ _ Hp Ho) as (st & Hin & <- & _). by apply list_elem_of_fmap_2.
Qed.
