(* ===== verification/WorkerTheorems.v ===== *)
(** * Worker deployments: what operators may rely on

    The outcome of a command is final and true, a host keeps account of the
    processes it runs, and a start that meets no failure becomes a process:
    the command that waits on the connection ends as six reports.  Then
    concrete runs: a deployment started and stopped, and what happens when
    connections break or processes end at a bad moment. *)

From stdpp Require Import base gmap sets list strings numbers sorting.
From Stdlib Require Import ZArith Lia Ascii.
From S2P Require Import Prelude PyFloat Value WorkerPlane WorkAgent WorkerSystem WorkerServer WorkerInvariant WorkerSlots.

(** ** What a step does to the commands *)

Lemma keeps_evolves s p :
  invariant s → keeps (conn_agent s) (ran s) (ended s) (plane s) p → evolves (commands s) (worker_commands p).
Proof. intros I K. by destruct (K (inv_plane _ I)). Qed.

Lemma handler_evolves {A} s (m : WP A) :
  invariant s → se_rel (keeps (conn_agent s) (ran s) (ended s)) m →
  evolves (commands s) (worker_commands (m (plane s)).1).
Proof. intros I K. by apply keeps_evolves. Qed.

(** The handler of a connection ends. *)
Lemma ends_evolves s k ctx now : invariant s → evolves (commands s) (commands (ws_ends k ctx now s)).
Proof.
  intros I. unfold ws_ends. destruct ctx as [x|]; [|reflexivity].
  apply (handler_evolves s (_ ← unregister _ _; close_worker_agent_session _ _ _)); [done|].
  apply se_rel_bind; [apply _|apply worker_unregister_keeps|]. intros _. apply close_keeps.
Qed.

Lemma refuse_evolves s k ctx code now : invariant s → evolves (commands s) (commands (ws_refuses k ctx code now s)).
Proof.
  intros I. unfold ws_refuses. apply (ends_evolves (on_conn k (push_down (WError code true)) s)).
  apply conn_moves; [done|]. intros c Hc. split; [apply push_down_host|].
  intros Hok. pose proof Hok as (a & Hi & _). by eapply push_down_ok.
Qed.

(** ** What a stop has done *)

(** [stop] waits for what the supervisor has of the deployment. *)
Definition knows_target (h : host) : Prop :=
  ∀ k id d t, h_agent h = Some (StoppingProcess k id d t) → target_of (supervisor (h_site h)) d t.

Definition stops_known (s : system) : Prop := ∀ n h, hosts s !! n = Some h → knows_target h.

Definition piece_knows (r : site * piece) : Prop :=
  ∀ k id d t, r.2 = Waits (StoppingProcess k id d t) → target_of (supervisor r.1) d t.

Lemma knows_set_host n h s : stops_known s → knows_target h → stops_known (set_host n h s).
Proof. intros S H m hm. cbn. rewrite lookup_insert. case_decide; [by intros [= <-]|apply S]. Qed.

Lemma knows_piece n k h r s : stops_known s → piece_knows r → stops_known (after_piece n k h r s).
Proof.
  intros S H. destruct r as [x [pc|e]]; cbn.
  - apply knows_set_host; [done|]. intros k' id d t [= ->]. by eapply (H k').
  - by apply (knows_set_host n (with_site x (Some Disconnected) h)).
Qed.

Lemma knows_start k c x : piece_knows (start_accepts k c x).
Proof. unfold start_accepts. destruct (reserve_slot _ _); by intros ????. Qed.

Lemma knows_message str k f url tok rt seen x : piece_knows (handle_control_message str k f url tok rt seen x).
Proof.
  destruct f as [|p|]; try by intros ????. cbn [handle_control_message].
  unfold _handle_start_deployment_command, _handle_stop_deployment_command.
  destruct (wcp_kind p), (str_nonempty (wcp_command_id p)); cbn [negb]; try by intros ????.
  - destruct (parse_start _ _ _ _ _); [apply knows_start|by intros ????].
  - by destruct (_required_string _ _); intros ????.
  - destruct (parse_start _ _ _ _ _); [|by intros ????].
    destruct (stop _ _ _ _) as [x' []]; [by intros ????|apply knows_start|by intros ????].
Qed.

Lemma stop_waits_target d g seen x x' t : stop d g seen x = (x', StopWaits t) → x' = x ∧ target_of (supervisor x) d t.
Proof.
  unfold stop. destruct (_processes (supervisor x) !! d) as [h|] eqn:Eh.
  { destruct (_ && _); by intros [= <- <-]. }
  destruct (_external_pids (supervisor x) !! d) as [pid|] eqn:Ee; [|by intros [=]].
  destruct (_pid_is_alive _ _), g; by intros [= <- <-].
Qed.

Lemma knows_after_send k nx seen now x : piece_knows (after_send k nx seen now x).
Proof.
  destruct nx as [| | | | | |id d g|]; try by intros ????. cbn. destruct (stop d g seen x) as [x' []] eqn:E; [|by intros ????..].
  apply stop_waits_target in E as [-> Ht]. by intros k' id' d' t' [= <- <- <- <-].
Qed.

Lemma knows_send_raised k nx x : piece_knows (send_raised k nx x).
Proof. destruct nx; by intros ????. Qed.

(** The part of [step] that matters: what a host's agent did. *)
Lemma knows_work_piece k c x :
  (∀ sha mem rel resp mode, piece_knows (downloaded sha mem rel k c resp mode x))
  ∧ (∀ mode venv runs, piece_knows (installed k c mode venv runs x))
  ∧ (∀ r now, piece_knows (checked k c r now x)) ∧ (∀ b o, piece_knows (spawned k c b o x)).
Proof.
  split_and!; intros; unfold downloaded, installed, checked, spawned; repeat case_match; by intros ????.
Qed.

Definition target_alive (t : stop_target) (os : os_table) : bool :=
  match t with StopHandle h => handle_alive h os | StopPid pid => _pid_is_alive pid os end.

(** In this step the agent of host [n] ends its work on the stop [id] of [d]:
    the process it knew of [d] does not run any more, and it knows none. *)
Definition ends_process (s s' : system) (n : nat) (id d : string) : Prop :=
  ∃ h h', hosts s !! n = Some h ∧ hosts s' !! n = Some h'
    ∧ (∃ k, (∃ t, h_agent h = Some (StoppingProcess k id d t)) ∨ ∃ f g, h_agent h = Some (Sending k f (ThenStop id d g)))
    ∧ (∀ t, target_of (supervisor (h_site h)) d t → target_alive t (os (h_site h')) = false)
    ∧ held d (supervisor (h_site h')) = false.

Lemma released_not_held d x : held d (supervisor (release_slot d x)) = false.
Proof. unfold held. cbn. by rewrite !lookup_delete_eq. Qed.

Lemma target_unique v d t t' : target_of v d t → target_of v d t' → t = t'.
Proof. destruct t, t'; cbn; intros; destruct_and?; congruence. Qed.

(** [stop] has nothing to wait for. *)
Lemma stop_done_dead d g seen x x' t :
  stop d g seen x = (x', StopDone) → target_of (supervisor x) d t →
  target_alive t (os x') = false ∧ held d (supervisor x') = false.
Proof.
  unfold stop. destruct (_processes (supervisor x) !! d) as [h|] eqn:Eh; [destruct (_ && _); by intros [=]|].
  destruct (_external_pids (supervisor x) !! d) as [pid|] eqn:Ee.
  - destruct (_pid_is_alive pid (os x)) eqn:Ea; [by destruct g; intros [=]|]. intros [= <-] Ht.
    split; [|apply released_not_held]. destruct t; cbn in Ht; [congruence|]. destruct Ht as [_ Ht]. by simplify_eq.
  - intros [= <-]. destruct t; cbn; [congruence|]. intros []; congruence.
Qed.

Lemma stop_done_idle d g seen x x' : stop d g seen x = (x', StopDone) → held d (supervisor x') = false.
Proof.
  unfold stop. destruct (_processes (supervisor x) !! d) as [h|]; [destruct (_ && _); by intros [=]|].
  destruct (_external_pids (supervisor x) !! d) as [pid|]; [destruct (_pid_is_alive _ _), g|]; intros [= <-];
    apply released_not_held.
Qed.

Lemma stop_completed_dead d t x :
  target_alive t (os (stop_completed d t x)) = false ∧ held d (supervisor (stop_completed d t x)) = false.
Proof.
  split; [|apply released_not_held]. destruct t as [h|pid]; cbn.
  - destruct (handle_alive h (os x)) eqn:E; [|done]. unfold handle_alive. by rewrite lookup_delete_eq.
  - unfold _pid_is_alive. rewrite lookup_delete_eq. apply andb_false_r.
Qed.

(** A stop is logged when it has ended the process. *)
Lemma sent_stop_logged n k nx seen now h x pc id d left k' f :
  h_agent h = Some (Sending k' f nx) → after_send k nx seen now (h_site h) = (x, pc) →
  EvStopped n id d left ∈ stop_event n (x, pc) →
  ∃ pc', pc = Waits pc' ∧ (∃ g, nx = ThenStop id d g)
    ∧ (∀ t, target_of (supervisor (h_site h)) d t → target_alive t (os x) = false) ∧ held d (supervisor x) = false.
Proof.
  intros Hp E He. destruct nx as [|c|c|c|c|id' d' g|id' d' g|id' o]; cbn in E; try (injection E as <- <-; by apply elem_of_nil in He).
  - destruct (stop d' g seen (h_site h)) as [x' []] eqn:Es; injection E as <- <-; try by apply elem_of_nil in He.
    apply list_elem_of_singleton in He. injection He as -> -> _. eexists. split; [done|]. split; [by exists g|].
    split; [|by eapply stop_done_idle]. intros t Ht. by eapply stop_done_dead.
Qed.

Section Evolution.
Context (registration_tokens : list string) (is_uuid : string → bool) (str : value → string).
Context (sha256 : list Init.Byte.byte → string) (members : list Init.Byte.byte → result exn (list string)).
Context (is_relative : string → bool) (read_archive : list Init.Byte.byte → archive_manifest).
Context (storage_dir plane_url : string) (token_of : string → string).

Abbreviation step := (step registration_tokens is_uuid str sha256 members is_relative read_archive storage_dir
                        plane_url token_of).

Lemma frame_evolves s k c ctx f now :
  invariant s → connections s !! k = Some c → cn_ws c = WsReceiving ctx →
  (∀ a, conn_agent s k = Some a → up_ok s a f) →
  evolves (commands s) (commands (ws_frame is_uuid k ctx f now s)).
Proof.
  intros I Hc Hws Hf. pose proof (inv_conns _ I _ _ Hc) as (agent & Hi & _ & _ & Hw). rewrite Hws in Hw. cbn in Hw.
  specialize (Hf agent). unfold conn_agent in Hf at 1. rewrite Hc in Hf. specialize (Hf Hi).
  set (M := mark_worker_agent_session_message (cx_session_id ctx) now).
  assert (KM : se_rel (keeps (conn_agent s) (ran s) (ended s)) M) by apply mark_keeps.
  assert (KB : ∀ {A} (m : WP A), se_rel (keeps (conn_agent s) (ran s) (ended s)) m →
                 se_rel (keeps (conn_agent s) (ran s) (ended s)) (_ ← M; m)).
  { intros A m Hm. apply se_rel_bind; [apply _|done|]. by intros _. }
  unfold ws_frame. fold M. destruct f as [p|m|m|m|m].
  - by apply handler_evolves.
  - pose proof (KB _ _ (heartbeat_keeps _ (ran s) (ended s) (cx_worker_agent ctx) (cx_session_id ctx) m now)) as K.
    pose proof (handler_evolves s _ I K) as E1.
    destruct ((_ ← M; _) (plane s)) as [p [a|e]] eqn:E; [exact E1|].
    etransitivity; [exact E1|]. apply (refuse_evolves (set_plane p s)). by eapply handler_moves.
  - pose proof (handler_evolves s _ I (KB _ _ (event_keeps _ (ran s) (ended s) (cx_worker_agent ctx) m now Hf))) as E1.
    by destruct ((_ ← M; _) (plane s)) as [p [[]|e]].
  - pose proof (handler_evolves s _ I (KB _ _ (worker_ack_keeps (conn_agent s) (ran s) (ended s)
                  (worker_agent_id (cx_worker_agent ctx)) (cx_session_id ctx) m now))) as E1.
    by destruct ((_ ← M; _) (plane s)) as [p [[]|e]].
  - rewrite <- Hw in Hf. pose proof (handler_evolves s _ I (KB _ _ (worker_result_keeps (conn_agent s) (ran s) (ended s)
                  is_uuid _ (cx_session_id ctx) m now Hf))) as E1.
    by destruct ((_ ← M; _) (plane s)) as [p [[]|e]].
Qed.

Lemma first_frame_evolves s k a f session now :
  invariant s → evolves (commands s) (commands (ws_first_frame k a f session now s)).
Proof.
  intros I. unfold ws_first_frame. destruct f as [m|?|?|?|?]; try by apply refuse_evolves.
  destruct (negb _); [by apply refuse_evolves|].
  pose proof (worker_hello_keeps (conn_agent s) (ran s) (ended s) a m session now) as K.
  pose proof (handler_evolves s _ I K) as E1.
  destruct (handle_worker_agent_hello a m session now (plane s)) as [p [[a' acc]|e]] eqn:E; [exact E1|].
  etransitivity; [exact E1|]. apply (refuse_evolves (set_plane p s)). by eapply handler_moves.
Qed.

(** What agents and hosts do leaves the commands alone. *)
Lemma registered_commands r id hash now p :
  worker_commands (register_worker_agent registration_tokens r id hash now p).1 = worker_commands p.
Proof.
  unfold register_worker_agent, mbind, se_bind, se_lift, guard_else.
  destruct (negb _); cbn; [|done]. by destruct (existsb _ _).
Qed.

Lemma pieces_commands n k h r s : commands (after_piece n k h r s) = commands s.
Proof. by destruct r as [x [pc|e]]. Qed.

Lemma events_commands es s : commands (record_events es s) = commands s.
Proof. done. Qed.

(** The cases of a step that happened. *)
Ltac step_cases H :=
  repeat match type of H with
  | Some _ = Some _ => apply (inj Some) in H as <-
  | None = Some _ => done
  | mbind _ ?o = Some _ => destruct o; cbn -[register_worker_agent after_send stop_over spawned] in H; [|done]
  | match ?x with _ => _ end = Some _ => destruct x
  end.

Lemma agent_step_commands a s s' : actor_of a ≠ ByPlane → step a s = Some s' → commands s' = commands s.
Proof.
  intros Ha Hs. destruct a; try (by destruct Ha); clear Ha; unfold WorkerSystem.step in Hs;
    cbn -[register_worker_agent after_send stop_over spawned] in Hs.
  2: { pose proof (registered_commands r new_id token_hash now (plane s)) as E.
       destruct (hosts s !! n) as [h|]; cbn -[register_worker_agent] in Hs; [|done].
       destruct (h_identity h), (h_agent h), (worker_agents (plane s) !! new_id); try done.
       by destruct (register_worker_agent _ _ _ _ _ _) as [p [x|e]]; apply (inj Some) in Hs as <-. }
  all: step_cases Hs; rewrite ?events_commands, ?pieces_commands; try done.
  by destruct (pc_conn _).
Qed.

#[export] Instance actor_eq_dec : EqDecision actor.
Proof. solve_decision. Defined.

Lemma step_evolves a s s' : invariant s → step a s = Some s' → evolves (commands s) (commands s').
Proof.
  intros I Hs. destruct (decide (actor_of a = ByPlane)) as [Ha|Ha];
    [|by rewrite (agent_step_commands a s s' Ha Hs)].
  destruct a; try done; clear Ha; unfold WorkerSystem.step in Hs.
  - destruct (connections s !! k) as [c|] eqn:Hc; cbn -[ws_first_frame ws_frame] in Hs; [|done].
    destruct (cn_ws c) as [a|ctx|ctx acc|] eqn:Hw; try done;
      destruct (cn_up c) as [|f up] eqn:Hu; try done; apply (inj Some) in Hs as <-;
      pose proof (take_up_moves _ _ _ _ _ I Hc Hu) as I1.
    + by apply (first_frame_evolves _ k a f new_session now) in I1.
    + apply (frame_evolves (on_conn k (λ c, with_queues up (cn_down c) (cn_ws c) c) s) k
               (with_queues up (cn_down c) (cn_ws c) c)); [done| |done|].
      { unfold on_conn; cbn; by rewrite lookup_alter_eq, Hc. }
      intros a Ha. apply up_ok_plane. destruct (inv_conns _ I _ _ Hc) as (a' & Hi & Hup & _).
      unfold conn_agent, on_conn in Ha. cbn in Ha. rewrite lookup_alter_eq, Hc in Ha. cbn in Ha.
      change (identity_of s (cn_host c) = Some a) in Ha. assert (a' = a) as -> by congruence.
      apply Hup. rewrite Hu. by left.
  - destruct (connections s !! k) as [c|] eqn:Hc; cbn in Hs; [|done].
    destruct (cn_ws c) as [a|ctx|ctx acc|] eqn:Hw; try done. apply (inj Some) in Hs as <-.
    apply (handler_evolves s); [done|]. apply worker_enqueue_keeps. unfold conn_agent. rewrite Hc.
    destruct (inv_conns _ I _ _ Hc) as (agent & Hi & _ & _ & Hws). rewrite Hw in Hws. cbn in *. congruence.
  - step_cases Hs; done.
  - step_cases Hs; done || by apply ends_evolves.
  - apply (inj Some) in Hs as <-. apply (handler_evolves s); [done|]. apply create_package_keeps.
  - destruct (_ && _) eqn:Hf; [|done]. apply (inj Some) in Hs as <-. apply andb_true_iff in Hf as [Hf _].
    apply bool_decide_eq_true in Hf. apply (keeps_evolves s _ I). intros Hp. by apply create_request_keeps.
  - destruct (fresh_command _ _) eqn:Hf; [|done]. apply (inj Some) in Hs as <-.
    apply bool_decide_eq_true in Hf. apply (keeps_evolves s _ I). intros Hp. by apply stop_request_keeps.
  - destruct (fresh_command _ _) eqn:Hf; [|done]. apply (inj Some) in Hs as <-.
    apply bool_decide_eq_true in Hf. apply (keeps_evolves s _ I). intros Hp. by apply restart_request_keeps.
  - by apply (inj Some) in Hs as <-.
  - by step_cases Hs.
Qed.

Lemma run_evolves acts s s' :
  invariant s → run registration_tokens is_uuid str sha256 members is_relative read_archive storage_dir plane_url
                  token_of acts s = Some s' → evolves (commands s) (commands s').
Proof.
  induction acts as [|a acts IH] in s |- *; intros I; cbn; [by intros [= <-]|].
  destruct (step a s) as [s1|] eqn:E; cbn; [|done]. intros Hr.
  etransitivity; [by eapply step_evolves|]. apply IH; [by eapply step_invariant|done].
Qed.

Lemma worker_reachable_invariant s :
  reachable registration_tokens is_uuid str sha256 members is_relative read_archive storage_dir plane_url token_of s →
  invariant s.
Proof. intros [acts Hr]. eapply worker_run_invariant; [apply worker_initial_invariant|exact Hr]. Qed.

(** Every step keeps what the agents know of their stops, and logs a stop
    when it has ended a process. *)
Lemma plane_step_hosts a s s' : actor_of a = ByPlane → step a s = Some s' → hosts s' = hosts s ∧ log s' = log s.
Proof.
  intros Ha Hs. destruct a; try done; clear Ha; unfold WorkerSystem.step in Hs;
    cbn -[ws_first_frame ws_frame ws_ends] in Hs; step_cases Hs;
    try done; try apply ws_hosts_log.
  - match goal with |- context [ws_first_frame k ?a ?f ?ss ?t ?x] => exact (first_frame_hosts k a f ss t x) end.
  - match goal with |- context [ws_frame _ k ?c ?f ?t ?x] => exact (frame_hosts is_uuid k c f t x) end.
Qed.

Definition stopped_in (s s' : system) : Prop :=
  ∀ n id d left, EvStopped n id d left ∈ log s' → EvStopped n id d left ∈ log s ∨ ends_process s s' n id d.

Lemma stopped_same s s' : log s' = log s → stopped_in s s'.
Proof. intros E n id d left. rewrite E. by left. Qed.

Lemma pieces_log n k h r s : log (after_piece n k h r s) = log s.
Proof. by destruct r as [x [pc|e]]. Qed.

Lemma pieces_host n k h x pc s : hosts (after_piece n k h (x, Waits pc) s) !! n = Some (with_site x (Some pc) h).
Proof. apply lookup_insert_eq. Qed.

Lemma step_stops_sent n sent seen now s s' :
  stops_known s → step (AgentSent n sent seen now) s = Some s' → stops_known s' ∧ stopped_in s s'.
Proof.
  intros K Hs. unfold WorkerSystem.step in Hs. destruct (hosts s !! n) as [h|] eqn:Hh; cbn -[after_send] in Hs; [|done].
  destruct (h_agent h) as [pc|] eqn:Hp; [|done]. destruct pc as [| | |k f nx| | | | | |]; try done.
  destruct (connections s !! k) as [c|]; cbn -[after_send] in Hs; [|done].
  destruct sent; [|destruct (cn_broken c); [|done]]; apply (inj Some) in Hs as <-.
  - split; [by apply (knows_piece n k h _ (on_conn k (push_up f) s)), knows_after_send|].
    destruct (after_send k nx seen now (h_site h)) as [x pc] eqn:E. intros m id d left. cbn [log record_events].
    rewrite pieces_log. intros [He|He]%elem_of_app; [by left|right].
    assert (m = n) as -> by (by destruct pc as [[| | |? [] []| | | | | |]|]; cbn in He; repeat case_match;
                               try apply elem_of_nil in He; try apply list_elem_of_singleton in He; simplify_eq).
    destruct (sent_stop_logged n k nx seen now h x pc id d left k f Hp E He) as (pc' & -> & (g & ->) & Hd & Hi).
    exists h, (with_site x (Some pc') h). split_and!; try done; [apply pieces_host|]. exists k. right. by exists f, g.
  - split; [apply knows_piece; [done|apply knows_send_raised]|]. apply stopped_same, pieces_log.
Qed.

Lemma step_stops_over n code s s' :
  stops_known s → step (StopOver n code) s = Some s' → stops_known s' ∧ stopped_in s s'.
Proof.
  intros K Hs. unfold WorkerSystem.step in Hs. destruct (hosts s !! n) as [h|] eqn:Hh; cbn -[stop_over first_stop_over] in Hs; [|done].
  destruct (h_agent h) as [pc|] eqn:Hp; [|done]. destruct pc as [| | | |k c t|k id d t| | | |]; try done;
    apply (inj Some) in Hs as <-.
  - split; [apply knows_piece; [done|apply knows_start]|]. apply stopped_same, pieces_log.
  - split; [apply (knows_piece n k h (stop_over k id d t code (h_site h))); [done|by intros ????]|].
    intros m id' d' left. cbn [log record_events]. rewrite pieces_log. intros [He|He]%elem_of_app; [by left|right].
    apply list_elem_of_singleton in He. injection He as -> -> -> _.
    destruct (stop_completed_dead d t (h_site h)) as [Hd Hi]. eexists h, _.
    split_and!; [done|apply pieces_host|exists k; left; by exists t| |done].
    intros t' Ht'. pose proof (K n h Hh k id d t Hp) as Ht. by rewrite (target_unique _ _ _ _ Ht' Ht).
Qed.

Lemma step_stops a s s' : stops_known s → step a s = Some s' → stops_known s' ∧ stopped_in s s'.
Proof.
  intros K Hs. destruct (decide (actor_of a = ByPlane)) as [Ha|Ha].
  { destruct (plane_step_hosts a s s' Ha Hs) as [E1 E2]. split; [|by apply stopped_same].
    intros n h. rewrite E1. apply K. }
  destruct a; try (by destruct Ha); clear Ha; [..|by eapply step_stops_sent| | | | | |by eapply step_stops_over| | | |].
  all: unfold WorkerSystem.step in Hs; cbn -[register_worker_agent handle_control_message downloaded installed checked spawned] in Hs.
  all: repeat match type of Hs with
  | Some _ = Some _ => apply (inj Some) in Hs as <-
  | None = Some _ => done
  | mbind _ ?o = Some _ => destruct o eqn:?; cbn -[register_worker_agent handle_control_message downloaded installed checked spawned] in Hs; [|done]
  | match ?x with _ => _ end = Some _ => destruct x eqn:?
  end.
  all: try (destruct (pc_conn _)).
  all: split; [|try (apply stopped_same; rewrite ?pieces_log; done)].
  all: try done.
  all: try (apply knows_piece; [done|]; first [apply knows_message|apply knows_work_piece]).
  all: try (apply knows_set_host; [done|by intros ????]).
  - intros m id d left. cbn [log record_events]. rewrite pieces_log.
    intros [He|He%list_elem_of_singleton]%elem_of_app; [by left|done].
  - intros m id d left. cbn [log record_events]. intros [He|He%list_elem_of_singleton]%elem_of_app; [by left|done].
  - apply knows_set_host; [done|]. intros k id d t Ha. by apply (K n h ltac:(done) k id d t).
  - apply knows_set_host; [done|]. intros k id d t Ha. by apply (K n h ltac:(done) k id d t).
Qed.

Lemma run_snoc acts a s :
  run registration_tokens is_uuid str sha256 members is_relative read_archive storage_dir plane_url token_of
    (acts ++ [a]) s
  = s' ← run registration_tokens is_uuid str sha256 members is_relative read_archive storage_dir plane_url token_of
           acts s; step a s'.
Proof.
  revert s. induction acts as [|b acts IH]; intros s; cbn; [by destruct (step a s)|].
  destruct (step b s); cbn; [apply IH|done].
Qed.

(** The step of a run that ended the process of [d] for the stop [id]. *)
Definition ended_during (acts : list action) (n : nat) (id d : string) : Prop :=
  ∃ before a after s1 s2, acts = before ++ a :: after
    ∧ run registration_tokens is_uuid str sha256 members is_relative read_archive storage_dir plane_url token_of
        before initial = Some s1
    ∧ step a s1 = Some s2 ∧ ends_process s1 s2 n id d.

Lemma logged_stop acts s n id d left :
  run registration_tokens is_uuid str sha256 members is_relative read_archive storage_dir plane_url token_of
    acts initial = Some s → EvStopped n id d left ∈ log s → ended_during acts n id d.
Proof.
  intros Hr He.
  enough (H : ∀ acts0 s0, run registration_tokens is_uuid str sha256 members is_relative read_archive storage_dir
                plane_url token_of acts0 initial = Some s0 → stops_known s0 →
              ∀ acts, run registration_tokens is_uuid str sha256 members is_relative read_archive storage_dir
                plane_url token_of acts s0 = Some s →
              EvStopped n id d left ∈ log s0 ∨ ended_during (acts0 ++ acts) n id d).
  { destruct (H [] initial eq_refl) with acts as [H0|]; [by intros ??|done|by apply elem_of_nil in H0|done]. }
  clear Hr acts. intros acts0 s0 H0 K0 acts. induction acts as [|a acts IH] in acts0, s0, H0, K0 |- *; cbn.
  { intros [= <-]. by left. }
  destruct (step a s0) as [s1|] eqn:Hs; cbn; [|done]. intros Hr.
  destruct (step_stops a s0 s1 K0 Hs) as [K1 Hst].
  destruct (IH (acts0 ++ [a]) s1) as [Hin|Hd]; [by rewrite run_snoc, H0|done..| |].
  - destruct (Hst _ _ _ _ Hin) as [Hin'|Hend]; [by left|right]. by exists acts0, a, acts, s0, s1.
  - right. by rewrite <- (assoc_L (++)) in Hd.
Qed.

(** ** Properties *)

(** C15. The request of a command never changes, and once the command is
    finished nothing about it does: no later acknowledgement or result, no
    reconnect, restart or operator changes its outcome. *)
Theorem worker_outcomes_final s acts s' id c :
  reachable registration_tokens is_uuid str sha256 members is_relative read_archive storage_dir plane_url token_of s →
  run registration_tokens is_uuid str sha256 members is_relative read_archive storage_dir plane_url token_of acts s
    = Some s' →
  worker_commands (plane s) !! id = Some c →
  ∃ c', worker_commands (plane s') !! id = Some c'
        ∧ build_worker_agent_command_message c' = build_worker_agent_command_message c
        ∧ wc_worker_agent_id c' = wc_worker_agent_id c
        ∧ (is_Some (wc_finished_at c) → c' = c).
Proof.
  intros Hr Hs Hc. apply worker_reachable_invariant in Hr. exact (run_evolves acts s s' Hr Hs id c Hc).
Qed.

(** C14. What the control plane shows happened: a command that it shows as
    succeeded was a start or restart for which an agent of that identity
    started the process whose run it reports, or a stop for which that agent
    ended the process it knew of the deployment, if it knew one; and a
    deployment shown as running had a process started for it. *)
Theorem shown_success_happened acts s :
  run registration_tokens is_uuid str sha256 members is_relative read_archive storage_dir plane_url token_of
    acts initial = Some s →
  (∀ id c, worker_commands (plane s) !! id = Some c → wc_status c = wcmd_succeeded →
     ∃ n h d, hosts s !! n = Some h ∧ h_identity h = Some (wc_worker_agent_id c) ∧ wc_deployment_id c = Some d ∧
       ((wc_kind c = start_deployment ∨ wc_kind c = restart_deployment)
        ∧ (∃ r, wc_result_json c = Some (runtime_result r) ∧ EvSpawned n id d r ∈ log s)
        ∨ wc_kind c = stop_deployment ∧ ended_during acts n id d))
  ∧ ∀ d row, worker_deployments (plane s) !! d = Some row → observed_status row = obs_running →
     ∃ n id r, EvSpawned n id d r ∈ log s.
Proof.
  intros Hr. assert (I : invariant s) by (eapply worker_reachable_invariant; by exists acts).
  pose proof (inv_plane _ I) as Ok. split.
  - intros id c Hc Hs. destruct (ok_rows _ _ _ _ Ok _ _ Hc) as (_ & _ & _ & Ht).
    destruct (Ht Hs) as [(Hk & d & r & Hd & Hres & n & He & Hi)|(Hk & d & Hd & n & l & He & Hi)];
      unfold identity_of in Hi; destruct (hosts s !! n) as [h|] eqn:Hh; try done;
      exists n, h, d; (split_and!; [done..|]); [left|right]; eauto using logged_stop.
  - intros d row Hrow Hs. destruct (ok_deployments _ _ _ _ Ok _ _ Hrow) as [_ H].
    destruct (H Hs) as (a & id & r & n & He & _). eauto.
Qed.

End Evolution.

(** ** A system seen from one host and its connection *)

Section View.
Context (s : system) (n k : nat).

(** The system [s] after the host has become [h], the connection [c] and the
    log has grown by [es]. *)
Definition view (h : host) (c : connection) (es : list event) : system :=
  {| plane := plane s; connections := <[k := c]> (connections s); hosts := <[n := h]> (hosts s); log := log s ++ es |}.

Lemma view_self h c : hosts s !! n = Some h → connections s !! k = Some c → view h c [] = s.
Proof. intros Hh Hc. unfold view. rewrite !insert_id, app_nil_r by done. by destruct s. Qed.

Lemma view_host h c es : hosts (view h c es) !! n = Some h.
Proof. apply lookup_insert_eq. Qed.

Lemma view_conn h c es : connections (view h c es) !! k = Some c.
Proof. apply lookup_insert_eq. Qed.

Lemma view_set_host h h' c es : set_host n h' (view h c es) = view h' c es.
Proof. unfold set_host, view. cbn. by rewrite insert_insert_eq. Qed.

Lemma view_on_conn f h c es : on_conn k f (view h c es) = view h (f c) es.
Proof. unfold on_conn, set_conns, view. cbn. by rewrite alter_insert_eq. Qed.

Lemma view_events h c es es' : record_events es' (view h c es) = view h c (es ++ es').
Proof. unfold record_events, view. cbn. by rewrite app_assoc. Qed.
End View.

(** A process was started on the host. *)
Definition born (x : site) (pc : agent_pc) (h : host) : host :=
  {| h_max_concurrent := h_max_concurrent h; h_identity := h_identity h; h_site := x; h_agent := Some pc;
     h_births := S (h_births h) |}.

Section Serve.
Context (registration_tokens : list string) (is_uuid : string → bool) (str : value → string).
Context (sha256 : list Init.Byte.byte → string) (members : list Init.Byte.byte → result exn (list string)).
Context (is_relative : string → bool) (read_archive : list Init.Byte.byte → archive_manifest).
Context (storage_dir plane_url : string) (token_of : string → string).

Abbreviation step := (step registration_tokens is_uuid str sha256 members is_relative read_archive storage_dir
                        plane_url token_of).
Abbreviation run := (run registration_tokens is_uuid str sha256 members is_relative read_archive storage_dir
                       plane_url token_of).

Section Steps.
Context (s : system) (n k : nat).
Abbreviation view := (view s n k).

(** One action after the other, in the view. *)
Lemma run_cons a acts s1 s2 o : step a s1 = Some s2 → run acts s2 = o → run (a :: acts) s1 = o.
Proof. intros H <-. cbn [WorkerSystem.run]. by rewrite H. Qed.

Lemma sent_step seen now h c es f nx x pc :
  h_agent h = Some (Sending k f nx) → cn_broken c = false →
  after_send k nx seen now (h_site h) = (x, Waits pc) → stop_event n (x, Waits pc) = [] →
  step (AgentSent n true seen now) (view h c es)
  = Some (view (with_site x (Some pc) h) (with_queues (cn_up c ++ [f]) (cn_down c) (cn_ws c) c) es).
Proof.
  intros Hp Hb Hs He. cbn [WorkerSystem.step]. rewrite view_host. cbn [mbind option_bind].
  rewrite Hp, view_conn. cbn [mbind option_bind]. rewrite Hs, He, view_on_conn. cbn [after_piece].
  rewrite view_set_host, view_events, app_nil_r. unfold push_up. by rewrite Hb.
Qed.

Lemma piece_step a h c es x pc (r : site * piece) :
  (∀ s, hosts s !! n = Some h → step a s = Some (after_piece n k h r s)) → r = (x, Waits pc) →
  step a (view h c es) = Some (view (with_site x (Some pc) h) c es).
Proof. intros Hs ->. rewrite Hs by apply view_host. cbn [after_piece]. by rewrite view_set_host. Qed.

Lemma reads_step runtime seen h id c es p down x pc :
  h_agent h = Some (Reading k) → h_identity h = Some id → cn_down c = p :: down →
  handle_control_message str k p plane_url (token_of id) runtime seen (h_site h) = (x, Waits pc) →
  step (AgentReads n runtime seen) (view h c es)
  = Some (view (with_site x (Some pc) h) (with_queues (cn_up c) down (cn_ws c) c) es).
Proof.
  intros Hp Hi Hd Hm. cbn [WorkerSystem.step]. rewrite view_host. cbn [mbind option_bind]. rewrite Hi.
  cbn [mbind option_bind]. rewrite Hp, view_conn. cbn [mbind option_bind]. rewrite Hd, Hm, view_on_conn.
  cbn [after_piece]. by rewrite view_set_host.
Qed.

Lemma spawn_step h c es sc pid x pc :
  h_agent h = Some (Spawning k sc) → (0 < pid)%Z → os (h_site h) !! pid = None →
  spawned k sc (h_births h) (Spawned pid true) (h_site h) = (x, Waits pc) →
  step (AgentSpawned n (Spawned pid true)) (view h c es)
  = Some (view (born x pc h) c (es ++ [EvSpawned n (sc_command_id sc) (sc_deployment sc) (sc_runtime sc)])).
Proof.
  intros Hp Hpid Hos Hs. cbn [WorkerSystem.step]. rewrite view_host. cbn [mbind option_bind]. rewrite Hp, Hs.
  apply Z.ltb_lt in Hpid. rewrite Hpid, bool_decide_eq_true_2 by done. cbn [andb after_piece].
  by rewrite view_set_host, view_events.
Qed.
End Steps.

(** ** The run *)

(** The agent works on the command without a failure. *)
Definition served_run (n : nat) (runtime : string) (content : list Init.Byte.byte) (mode : string)
    (venv : result exn Z) (runs : list (result exn Z)) (pid now : Z) : list action :=
  [AgentReads n runtime false; AgentSent n true false now; AgentSent n true false now;
   AgentDownloaded n (Ok content) mode; AgentSent n true false now; AgentInstalled n mode venv runs;
   AgentSent n true false now; AgentChecked n (Ok 0%Z) now; AgentSpawned n (Spawned pid true);
   AgentSent n true false now; AgentSent n true false now].

(** The frames it sends. *)
Definition served_frames (c : start_command) (mode : string) (now : Z) : list agent_frame :=
  [ack_message (sc_command_id c) wack_accepted None None;
   event_message (sc_deployment c) "preparing" obs_preparing "downloading workflow package"
     [("download_url", VStr (sc_download_url c)); ("params", to_document (sc_params c));
      ("credential_refs", VList (VStr <$> sc_credential_refs c))];
   event_message (sc_deployment c) "installing" obs_installing "installing runtime dependencies into virtualenv"
     [("mode", VStr mode); ("package_checksum", VStr (sc_checksum c))];
   event_message (sc_deployment c) "checking" obs_checking "running onestep check"
     [("entrypoint", VStr (sc_entrypoint c))];
   event_message (sc_deployment c) "running" obs_running "deployment started" (runtime_result (sc_runtime c));
   result_message (sc_command_id c) (CommandSucceeded (runtime_result (sc_runtime c))) now].

Definition served_state (c : start_command) (pid : Z) : DeploymentState :=
  {| ds_deployment_id := sc_deployment c; ds_runtime_instance_id := sc_runtime c;
     ds_entrypoint := sc_entrypoint c; ds_env := sc_env c; ds_pid := Some pid |}.

Lemma reserve_twice d v v' : reserve_slot d v = Some v' → reserve_slot d v' = Some v'.
Proof.
  unfold reserve_slot. destruct (decide (d ∈ _reserved v)) as [Hd|Hd].
  - intros [= <-]. by rewrite decide_True.
  - destruct (_ <=? _); [done|]. intros [= <-]. cbn. rewrite decide_True; [done|set_solver].
Qed.

Lemma reserve_free d v : size (_reserved v) < max_concurrent v → ∃ v', reserve_slot d v = Some v' ∧ d ∈ _reserved v'
  ∧ _processes v' = _processes v.
Proof.
  intros Hv. unfold reserve_slot. destruct (decide (d ∈ _reserved v)) as [Hd|Hd]; [by exists v|].
  destruct (Nat.leb_spec (max_concurrent v) (size (_reserved v))); [lia|]. eexists. split; [done|]. cbn. set_solver.
Qed.

(** The site with the process running. *)
Definition served_site (c : start_command) (v : SubprocessSupervisor) (birth : nat) (pid : Z) (x : site) : site :=
  process_started (served_state c pid) {| ph_pid := pid; ph_birth := birth |} true
    (set_os <[pid := {| op_birth := birth; op_owner := Some (sc_deployment c, sc_runtime c) |}]>
      (set_markers (λ m, {[sc_checksum c]} ∪ m) (set_supervisor (λ _, v) x))).

Lemma serve_steps s n h id k c p down sc v content mode venv runs pid runtime now :
  h_identity h = Some id → h_agent h = Some (Reading k) →
  cn_broken c = false → cn_down c = WCommand p :: down →
  wcp_kind p = start_deployment → wcp_command_id p ≠ "" →
  parse_start str p plane_url (token_of id) runtime = Ok sc →
  reserve_slot (sc_deployment sc) (supervisor (h_site h)) = Some v →
  extract_package sha256 members is_relative content (sc_checksum sc) = Ok () →
  install (bool_decide (sc_checksum sc ∈ markers (h_site h))) mode venv runs = Ok () →
  (0 < pid)%Z → os (h_site h) !! pid = None →
  run (served_run n runtime content mode venv runs pid now) (view s n k h c [])
  = Some (view s n k (born (served_site sc v (h_births h) pid (h_site h)) (Reading k) h)
            (with_queues (cn_up c ++ served_frames sc mode now) down (cn_ws c) c)
            [EvSpawned n (sc_command_id sc) (sc_deployment sc) (sc_runtime sc)]).
Proof.
  intros Hi Hp Hb Hd Hk Hid Hsc Hv Hx Hin Hpid Hos.
  pose proof (reserve_twice _ _ _ Hv) as Hv2. unfold served_run.
  eapply run_cons.
  { eapply reads_step; [done..|]. cbn [handle_control_message]. rewrite Hk. unfold _handle_start_deployment_command.
    rewrite Hsc. destruct (wcp_command_id p) eqn:E; [by destruct Hid|]. cbn [str_nonempty negb]. unfold start_accepts.
    rewrite Hv. reflexivity. }
  eapply run_cons; [eapply sent_step; [done|exact Hb|done|done]|]. cbn [cn_up cn_down cn_ws with_queues].
  eapply run_cons; [eapply sent_step; [done|exact Hb|done|done]|]. cbn [cn_up cn_down cn_ws with_queues].
  eapply run_cons.
  { eapply piece_step; [intros s0 Hs0; cbn; rewrite Hs0; reflexivity|]. unfold downloaded. cbn. rewrite Hx. reflexivity. }
  eapply run_cons; [eapply sent_step; [done|exact Hb|done|done]|]. cbn [cn_up cn_down cn_ws with_queues].
  eapply run_cons.
  { eapply piece_step; [intros s0 Hs0; cbn; rewrite Hs0; reflexivity|]. unfold installed. cbn. rewrite Hin. reflexivity. }
  eapply run_cons; [eapply sent_step; [done|exact Hb|done|done]|]. cbn [cn_up cn_down cn_ws with_queues].
  eapply run_cons.
  { eapply piece_step; [intros s0 Hs0; cbn; rewrite Hs0; reflexivity|]. unfold checked. cbn. rewrite Hv2. reflexivity. }
  eapply run_cons; [by eapply spawn_step|]. cbn [app].
  eapply run_cons; [eapply sent_step; [done|exact Hb|done|done]|]. cbn [cn_up cn_down cn_ws with_queues].
  eapply run_cons; [eapply sent_step; [done|exact Hb|done|done]|]. cbn [cn_up cn_down cn_ws with_queues].
  cbn. rewrite <- !app_assoc. reflexivity.
Qed.

(** C16. A start command that waits on a connection that holds, for a host with
    a free slot, is served when the download, the installation, the check and
    the start of the process succeed: the process runs for the deployment,
    the supervisor and the state file know it, and the six reports, the
    success last, are on the connection in their order; nothing else of the
    system changes. *)
Theorem start_served s n h id k c p down sc content mode venv runs pid runtime now :
  hosts s !! n = Some h → h_identity h = Some id → h_agent h = Some (Reading k) →
  connections s !! k = Some c → cn_broken c = false → cn_down c = WCommand p :: down →
  wcp_kind p = start_deployment → wcp_command_id p ≠ "" →
  parse_start str p plane_url (token_of id) runtime = Ok sc →
  size (_reserved (supervisor (h_site h))) < max_concurrent (supervisor (h_site h)) →
  extract_package sha256 members is_relative content (sc_checksum sc) = Ok () →
  install (bool_decide (sc_checksum sc ∈ markers (h_site h))) mode venv runs = Ok () →
  (0 < pid)%Z → os (h_site h) !! pid = None →
  ∃ s' h' c', run (served_run n runtime content mode venv runs pid now) s = Some s'
    ∧ hosts s' = <[n := h']> (hosts s) ∧ connections s' = <[k := c']> (connections s)
    ∧ plane s' = plane s ∧ log s' = log s ++ [EvSpawned n (sc_command_id sc) (sc_deployment sc) (sc_runtime sc)]
    ∧ h_agent h' = Some (Reading k)
    ∧ os (h_site h') = <[pid := {| op_birth := h_births h; op_owner := Some (sc_deployment sc, sc_runtime sc) |}]>
                         (os (h_site h))
    ∧ sc_deployment sc ∈ _reserved (supervisor (h_site h'))
    ∧ _processes (supervisor (h_site h'))
      = <[sc_deployment sc := {| ph_pid := pid; ph_birth := h_births h |}]> (_processes (supervisor (h_site h)))
    ∧ state_store (h_site h') = store_upsert (served_state sc pid) (state_store (h_site h))
    ∧ cn_up c' = cn_up c ++ served_frames sc mode now ∧ cn_down c' = down ∧ cn_ws c' = cn_ws c ∧ cn_broken c' = false.
Proof.
  intros Hh Hi Hp Hc Hb Hd Hk Hid Hsc Hfree Hx Hin Hpid Hos.
  destruct (reserve_free (sc_deployment sc) _ Hfree) as (v & Hv & Hmem & Hpr).
  pose proof (serve_steps s n h id k c p down sc v content mode venv runs pid runtime now
                Hi Hp Hb Hd Hk Hid Hsc Hv Hx Hin Hpid Hos) as R.
  rewrite view_self in R by done. do 3 eexists. split; [exact R|].
  split_and!; try done. cbn. by rewrite Hpr.
Qed.
End Serve.

(** ** Concrete runs *)

Definition demo_step : action → system → option system :=
  step ["token"] (λ _, true) (λ _, "?") (λ _, "sum") (λ _, Ok ["worker.yaml"]) (λ _, true) (λ _, NoManifest)
    "/packages" "http://plane" (λ id, id).
Definition demo_run : list action → system → option system :=
  run ["token"] (λ _, true) (λ _, "?") (λ _, "sum") (λ _, Ok ["worker.yaml"]) (λ _, true) (λ _, NoManifest)
    "/packages" "http://plane" (λ id, id).

Definition demo_registration : WorkerAgentRegistrationRequest :=
  {| rr_registration_token := "token"; rr_display_name := "agent"; rr_execution_mode := "subprocess";
     rr_max_concurrent_deployments := 1; rr_labels := []; rr_capabilities := ["deployment.start"; "deployment.stop"; "deployment.restart"];
     rr_agent_version := None; rr_onestep_version := None; rr_python_version := None; rr_platform := [] |}.

Definition demo_request : WorkerDeploymentCreateRequest :=
  {| dr_workflow_package_id := "p"; dr_worker_agent_id := "a"; dr_desired_status := desired_running;
     dr_params := []; dr_env := []; dr_credential_refs := [] |}.

(** A host with one slot, registered and connected over connection [0]. *)
Definition setup : list action :=
  [HostAppears 0 1; AgentRegisters 0 demo_registration "a" "hash" 1; AgentStarts 0;
   PackageUploaded "w" "1" "w.zip" "application/zip" [] None "me" "p" 1;
   AgentConnects 0 0; PlaneReceives 0 "s0" 2; PlaneGreeted 0 2; AgentGreeted 0].

(** Another session, over connection [k]. *)
Definition reconnect (k : nat) (session : string) : list action :=
  [AgentConnects 0 k; PlaneReceives k session 50; PlaneGreeted k 50; AgentGreeted 0].

(** The agent takes a start command and does all of it. *)
Definition start_up_to_spawn (runtime : string) (pid : Z) : list action :=
  [AgentReads 0 runtime false; AgentSent 0 true false 5; AgentSent 0 true false 5; AgentDownloaded 0 (Ok []) "runtime";
   AgentSent 0 true false 6; AgentInstalled 0 "runtime" (Ok 0%Z) [Ok 0%Z]; AgentSent 0 true false 7;
   AgentChecked 0 (Ok 0%Z) 8; AgentSpawned 0 (Spawned pid true)].
Definition start_all (runtime : string) (pid : Z) : list action :=
  start_up_to_spawn runtime pid ++ [AgentSent 0 true false 9; AgentSent 0 true false 9].

Definition processes (n : nat) (s : system) : list (Z * (string * string)) :=
  match hosts s !! n with
  | Some h => omap (λ kp, o ← op_owner kp.2; Some (kp.1, o)) (map_to_list (os (h_site h)))
  | None => []
  end.
Definition shown (d : string) (s : system) : option (WorkerDeploymentObservedStatus * option string) :=
  (λ d, (observed_status d, runtime_instance_id d)) <$> worker_deployments (plane s) !! d.
Definition command_shown (id : string) (s : system) : option WorkerAgentCommandStatus :=
  wc_status <$> worker_commands (plane s) !! id.
Definition slots (n : nat) (s : system) : option (list string) :=
  (λ h, running_deployments (supervisor (h_site h))) <$> hosts s !! n.

Definition pc (n : nat) (s : system) : option agent_pc := h ← hosts s !! n; h_agent h.
Definition agent_shown (s : system) : option WorkerAgentStatus := wa_status <$> worker_agents (plane s) !! "a".

Definition deploy : list action := [DeploymentCreated demo_request "me" None ("d", "c1") 3; PlaneSends 0].
Definition server_reads (k n : nat) : list action := repeat (PlaneReceives k "" 10) n.

Definition started : list action := setup ++ deploy ++ start_all "r1" 100 ++ server_reads 0 6.

Definition stop_all (k : nat) : list action :=
  [StopRequested "d" "c2" 60; PlaneSends k; AgentReads 0 "" false; AgentSent 0 true false 61;
   AgentSent 0 true false 61; StopOver 0 (VInt 0); AgentSent 0 true false 62; AgentSent 0 true false 62]
  ++ server_reads k 4.

Section Views.
Context {A : Type} (view : system → A).
Definition seen (acts : list action) : option A := view <$> demo_run acts initial.
End Views.

(** A deployment runs and is shown; then it is stopped and shown stopped. *)
Example deployment_runs :
  seen (λ s, (processes 0 s, slots 0 s, shown "d" s, command_shown "c1" s)) started
  = Some ([(100%Z, ("d", "r1"))], Some ["d"], Some (obs_running, Some "r1"), Some wcmd_succeeded).
Proof. vm_compute. reflexivity. Qed.

Example deployment_stops :
  seen (λ s, (processes 0 s, slots 0 s, shown "d" s, command_shown "c2" s)) (started ++ stop_all 0)
  = Some ([], Some [], Some (obs_stopped, Some "r1"), Some wcmd_succeeded).
Proof. vm_compute. reflexivity. Qed.

(** The connection breaks after the agent took the command and before the
    control plane read its acknowledgement: the command is sent again and
    the agent starts a second process; the stop ends the second only, and
    the control plane shows the deployment as stopped. *)
Example redelivered_start_runs_twice :
  seen (λ s, (processes 0 s, slots 0 s, shown "d" s, log s))
    (setup ++ deploy ++ start_up_to_spawn "r1" 100
     ++ [LinkBreaks 0; AgentSent 0 false false 9; PlaneNotices 0 9] ++ reconnect 1 "s1"
     ++ [PlaneSends 1] ++ start_all "r2" 101 ++ server_reads 1 6 ++ stop_all 1)
  = Some ([(100%Z, ("d", "r1"))], Some [], Some (obs_stopped, Some "r2"),
          [EvSpawned 0 "c1" "d" "r1"; EvSpawned 0 "c1" "d" "r2"; EvStopped 0 "c2" "d" 1]).
Proof. vm_compute. reflexivity. Qed.

(** A deployment created while the answer to a hello is being sent is put in
    the queue of the connection twice. *)
Example greeting_sends_twice :
  seen (λ s, match worker_queues (plane s) !! 0%nat with Some q => map wcp_command_id q | None => [] end)
    [HostAppears 0 1; AgentRegisters 0 demo_registration "a" "hash" 1; AgentStarts 0;
     PackageUploaded "w" "1" "w.zip" "application/zip" [] None "me" "p" 1;
     AgentConnects 0 0; PlaneReceives 0 "s0" 2; DeploymentCreated demo_request "me" None ("d", "c1") 3;
     PlaneGreeted 0 4]
  = Some ["c1"; "c1"].
Proof. vm_compute. reflexivity. Qed.

(** The process of a deployment ended by itself.  A restart makes [terminate]
    raise out of the session: the command stays dispatched, and the next
    session ends the same way. *)
Definition crashed : list action :=
  started ++ [ProcessExits 0 100; RestartRequested "d" "c2" 60; PlaneSends 0; AgentReads 0 "r2" true;
              PlaneNotices 0 61].
Definition again (k : nat) (session : string) : list action :=
  reconnect k session ++ [PlaneSends k; AgentReads 0 "r2" true; PlaneNotices k 61].

Example crashed_restart_ends_sessions :
  let view := λ s, (pc 0 s, slots 0 s, command_shown "c2" s, shown "d" s) in
  let stuck := Some (Some Disconnected, Some ["d"], Some wcmd_dispatched, Some (obs_assigned, Some "r1")) in
  seen view crashed = stuck ∧ seen view (crashed ++ again 1 "s1") = stuck
  ∧ seen view (crashed ++ again 1 "s1" ++ again 2 "s2") = stuck.
Proof. vm_compute. done. Qed.

(** ... and a stop of it fails and keeps the slot. *)
Example crashed_stop_keeps_slot :
  seen (λ s, (slots 0 s, command_shown "c2" s, shown "d" s))
    (started ++ [ProcessExits 0 100; StopRequested "d" "c2" 60; PlaneSends 0; AgentReads 0 "" true;
                 AgentSent 0 true true 61; AgentSent 0 true true 61; AgentSent 0 true true 61;
                 AgentSent 0 true true 61] ++ server_reads 0 4)
  = Some (Some ["d"], Some wcmd_failed, Some (obs_failed, Some "r1")).
Proof. vm_compute. reflexivity. Qed.

(** The connection breaks after the acknowledgement: the handler gives up,
    and nobody asks for the command again. *)
Example accepted_command_waits_forever :
  seen (λ s, (processes 0 s, command_shown "c1" s, shown "d" s, worker_queues (plane s) !! 1%nat))
    (setup ++ deploy ++ [AgentReads 0 "r1" false; AgentSent 0 true false 5; PlaneReceives 0 "" 6; LinkBreaks 0;
                         AgentSent 0 false false 7; AgentSent 0 false false 7; PlaneNotices 0 8]
     ++ reconnect 1 "s1")
  = Some ([], Some wcmd_accepted, Some (obs_assigned, None), None).
Proof. vm_compute. reflexivity. Qed.

(** A process of the deployment ended while the agent was away, and another
    program got its identifier: the agent takes it for the deployment's and
    a stop kills it. *)
Example stop_kills_other_program :
  let away := started ++ [AgentDies 0; ProcessExits 0 100; OtherProcessStarts 0 100; AgentStarts 0; PlaneNotices 0 55]
              ++ reconnect 1 "s1" in
  let others := λ s, match hosts s !! 0%nat with Some h => (map_to_list (os (h_site h))).*1 | None => [] end in
  seen (λ s, (others s, slots 0 s)) away = Some ([100%Z], Some ["d"])
  ∧ seen (λ s, (others s, shown "d" s)) (away ++ stop_all 1) = Some ([], Some (obs_stopped, Some "r1")).
Proof. vm_compute. done. Qed.

(** The state file cannot be written: the command fails and its process
    runs on, known to nobody. *)
Example unsaved_process_left_behind :
  seen (λ s, (processes 0 s, slots 0 s, pc 0 s))
    (setup ++ deploy ++ [AgentReads 0 "r1" false; AgentSent 0 true false 5; AgentSent 0 true false 5;
       AgentDownloaded 0 (Ok []) "runtime"; AgentSent 0 true false 6; AgentInstalled 0 "runtime" (Ok 0%Z) [Ok 0%Z];
       AgentSent 0 true false 7; AgentChecked 0 (Ok 0%Z) 8; AgentSpawned 0 (Spawned 100 false);
       AgentSent 0 true false 9; AgentSent 0 true false 9])
  = Some ([(100%Z, ("d", "r1"))], Some [], Some (Reading 0)).
Proof. vm_compute. reflexivity. Qed.

(** The agent dies inside [create_subprocess_exec], after the fork: the
    process runs on, no state file names it, and the redelivered command
    starts another one. *)
Example death_in_spawn_leaves_process :
  let dies := setup ++ deploy ++ removelast (start_up_to_spawn "r1" 100) ++ [AgentDiesInSpawn 0 100; AgentStarts 0; PlaneNotices 0 9] in
  seen (λ s, (processes 0 s, slots 0 s)) dies = Some ([(100%Z, ("d", "r1"))], Some [])
  ∧ seen (processes 0) (dies ++ reconnect 1 "s1" ++ [PlaneSends 1] ++ start_all "r2" 101)
    = Some [(101%Z, ("d", "r2")); (100%Z, ("d", "r1"))].
Proof. vm_compute. done. Qed.

(** The control plane restarts while an agent is connected, and the agent
    does not come back: it stays shown as online. *)
Example restart_leaves_agent_online :
  seen (λ s, (agent_shown s, ws_status <$> worker_sessions (plane s)))
    (setup ++ [AgentDies 0; PlaneRestarts]) = Some (Some agent_online, [wsess_active]).
Proof. vm_compute. reflexivity. Qed.

(** ** The hypotheses hold in these runs *)

Section Found.
Context {A B C : Type} (f : A → gmap string B) (view : B → C) (k : string) (v : C).
Lemma found (s : A) : view <$> f s !! k = Some v → ∃ b, f s !! k = Some b ∧ view b = v.
Proof. destruct (f s !! k) as [b|]; cbn; [intros [= <-]; eauto|done]. Qed.
End Found.

(** The command is in the queue twice, the agent runs it twice and the
    control plane has read all but the second result. *)
Definition twice_acts : list action :=
  [HostAppears 0 1; AgentRegisters 0 demo_registration "a" "hash" 1; AgentStarts 0;
   PackageUploaded "w" "1" "w.zip" "application/zip" [] None "me" "p" 1;
   AgentConnects 0 0; PlaneReceives 0 "s0" 2; DeploymentCreated demo_request "me" None ("d", "c1") 3;
   PlaneGreeted 0 4; AgentGreeted 0; PlaneSends 0; PlaneSends 0]
  ++ start_all "r1" 100 ++ start_all "r2" 101 ++ server_reads 0 11.
Definition twice_state : system := default initial (demo_run twice_acts initial).
Definition late_result : list action := [PlaneReceives 0 "" 99].

Lemma worker_outcomes_final_witness :
  ∃ c, worker_commands (plane twice_state) !! "c1" = Some c ∧ wc_result_json c = Some (runtime_result "r1")
       ∧ worker_commands (plane (default initial (demo_run late_result twice_state))) !! "c1" = Some c.
Proof.
  assert (R : demo_run twice_acts initial = Some twice_state) by (vm_compute; reflexivity).
  assert (L : demo_run late_result twice_state = Some (default initial (demo_run late_result twice_state)))
    by (vm_compute; reflexivity).
  destruct (found (λ s, worker_commands (plane s)) (λ c, (wc_result_json c, bool_decide (is_Some (wc_finished_at c))))
              "c1" (Some (runtime_result "r1"), true) twice_state) as (c & Hc & Hv); [vm_compute; reflexivity|].
  injection Hv as Hres Hfin. apply bool_decide_eq_true in Hfin. exists c. split; [exact Hc|]. split; [exact Hres|].
  destruct (worker_outcomes_final _ _ _ _ _ _ _ _ _ _ _ _ _ "c1" c (ex_intro _ _ R) L Hc) as (c' & Hc' & _ & _ & Hf).
  rewrite (Hf Hfin) in Hc'. exact Hc'.
Defined.

Definition stopped_state : system := default initial (demo_run (started ++ stop_all 0) initial).

Lemma shown_success_happened_witness :
  ∃ c d n before a after s1 s2, worker_commands (plane stopped_state) !! "c2" = Some c ∧ wc_deployment_id c = Some d
    ∧ started ++ stop_all 0 = before ++ a :: after ∧ demo_run before initial = Some s1 ∧ demo_step a s1 = Some s2
    ∧ ends_process s1 s2 n "c2" d.
Proof.
  assert (R : demo_run (started ++ stop_all 0) initial = Some stopped_state) by (vm_compute; reflexivity).
  destruct (found (λ s, worker_commands (plane s)) (λ c, (wc_status c, wc_kind c)) "c2"
              (wcmd_succeeded, stop_deployment) stopped_state) as (c & Hc & Hv); [vm_compute; reflexivity|].
  injection Hv as Hs Hk.
  destruct (shown_success_happened _ _ _ _ _ _ _ _ _ _ _ _ R) as [T _].
  destruct (T "c2" c Hc Hs) as (n & h & d & _ & _ & Hd & [[[Hk'|Hk'] _]|[_ (before & a & after & s1 & s2 & He)]]);
    [congruence..|].
  exists c, d, n, before, a, after, s1, s2. split; [exact Hc|]. split; [exact Hd|]. exact He.
Defined.

(** Two deployments on a host that has two slots. *)
Definition orderly_acts : list action :=
  [HostAppears 0 2; AgentRegisters 0 demo_registration "a" "hash" 1; AgentStarts 0;
   PackageUploaded "w" "1" "w.zip" "application/zip" [] None "me" "p" 1;
   AgentConnects 0 0; PlaneReceives 0 "s0" 2; PlaneGreeted 0 2; AgentGreeted 0] ++ deploy ++ start_all "r1" 100
  ++ [DeploymentCreated demo_request "me" None ("e", "c3") 3; PlaneSends 0] ++ start_all "r2" 101.
Definition demo_orderly : list action → system → option system :=
  orderly_run ["token"] (λ _, true) (λ _, "?") (λ _, "sum") (λ _, Ok ["worker.yaml"]) (λ _, true) (λ _, NoManifest)
    "/packages" "http://plane" (λ id, id).
Definition orderly_state : system := default initial (demo_orderly orderly_acts initial).


Definition waiting_state : system := default initial (demo_run (setup ++ deploy) initial).

Lemma start_served_witness :
  ∃ s' h', demo_run (served_run 0 "r1" [] "runtime" (Ok 0%Z) [Ok 0%Z] 100 9) waiting_state = Some s'
    ∧ hosts s' !! 0%nat = Some h' ∧ "d" ∈ _reserved (supervisor (h_site h'))
    ∧ log s' = [EvSpawned 0 "c1" "d" "r1"].
Proof.
  odestruct (start_served ["token"] (λ _, true) (λ _, "?") (λ _, "sum") (λ _, Ok ["worker.yaml"]) (λ _, true)
               (λ _, NoManifest) "/packages" "http://plane" (λ id, id) waiting_state 0
               _ _ _ _ _ _ _ [] "runtime" (Ok 0%Z) [Ok 0%Z] 100%Z "r1" 9%Z _ _ _ _ _ _ _ _ _ _ _ _ _ _)
    as (s' & h' & c' & R & Hs & _ & _ & Hl & _ & _ & Hr & _);
    [first [vm_compute; reflexivity|vm_compute; discriminate|vm_compute; lia]..|].
  exists s', h'. split; [exact R|]. split; [rewrite Hs; apply lookup_insert_eq|]. split; [exact Hr|exact Hl].
Defined.
